(* ===== verification/_CoqProject ===== *)
-Q . S2P
Prelude.v
Words.v
Minterm.v
Relabel.v
Bubble.v
TruthBasic.v
TruthCof.v
TruthPerm.v
TruthSupp.v
TruthCount.v
TruthBytes.v
TruthCanon.v
VecInt.v
VecArray.v
VecOrder.v
VecSets.v
Cube.v
Minato.v
Isop.v
Graph.v
Sop.v
Divide.v
Kernel.v
Factor.v
Flow.v
Pla.v
AndMan.v
Gia.v
GiaHash.v
GraphGia.v
Resub.v
Cloud.v
CloudInit.v
CloudBdd.v
CloudRun.v
CloudDag.v
CloudTruth.v
KitCloud.v
CloudSupp.v
Dsd.v
DsdFun.v
DsdDec.v
DsdStep.v
DsdRun.v
DsdTruth.v
DsdBuild.v
DsdExpand.v
DsdSupp.v
DsdShrink.v
