(* ===== verification/Prelude.v ===== *)
(** * A verified computation kit: truth tables, covers, factoring and and-inverter graphs of ABC

    This library verifies the computation kit of ABC, the logic synthesis system that the
    repository's yosys engine contains ([src/engines/yosys/abc/src/bool/kit/]), with the
    integer arrays it is built on ([src/engines/yosys/abc/src/misc/vec/vecInt.h]).  The kit
    represents a Boolean function of up to sixteen variables by a truth table, turns the
    table into an irredundant cover, factors the cover algebraically into a graph of
    and-gates, and evaluates the graph back into a table, writes the cover as text, or builds
    the gates in an and-inverter graph with structural hashing
    ([src/engines/yosys/abc/src/aig/gia/]).  The kit also has a package of binary decision
    diagrams, which is verified down to its table with open addressing.

    ** Parts and files

    - [Prelude], [Words]: C arrays as lists, [for] loops as folds with their induction
      rules, 32-bit words as integers with their wrap-around; the word routines of [kit.h].
    - [Minterm], [TruthBasic], [TruthCof], [TruthPerm], [TruthSupp], [TruthCount],
      [TruthBytes], [TruthCanon]: truth tables ([kit.h], [kitTruth.c]).  A table is the list of its words
      and [tbit t m] its value at minterm [m]; every routine is specified by the function
      it computes.  [Relabel] and [Bubble] hold the renamings of minterms and the passes of
      bubble sort that reordering needs.
    - [VecInt], [VecArray], [VecOrder], [VecSets]: arrays of integers ([vecInt.h]): as memory
      manager for covers, as growing lists, in order, and as sets.
    - [Cube], [Minato], [Isop]: cubes and covers ([kit.h]) and irredundant sums of products
      ([kitIsop.c]).  [Minato.isop] is the abstract specification: a cover between two
      functions, irredundant, of prime cubes.
    - [Graph]: and-graphs with complemented edges ([kitGraph.c]); [wf_graph] is the invariant
      of the state, [adds] the contract of an operation that adds gates.
    - [Sop], [Divide], [Kernel]: covers as sets of literals, their division and kernels
      ([kitSop.c]).
    - [Factor]: algebraic factoring ([kitFactor.c]); [Flow]: from truth tables to factored
      forms ([kitGraph.c]), which composes [Isop] and [Factor].
    - [Pla]: covers as text ([kitPla.c]), on top of [Isop].
    - [AndMan]: literals ([abc_global.h]) and the interface of a manager of an and-inverter
      graph: the class [AndManager] of an invariant, the literals, their values and the room
      left, with the laws of an and-routine.  Derived gates are proved against the interface.
    - [Gia]: the scalable and-inverter graph ([gia.h], [giaMan.c]), an instance of the
      interface; [GiaHash]: its structural hashing ([giaHash.c]), another instance.
    - [GraphGia]: from factored forms to and-inverter graphs ([kitHop.c]): a client of the
      interface, applied to both instances and composed with [Flow]; [Resub]: factored forms as
      lists of gates and their evaluation ([giaDecs.c]).
    - [Cloud]: the manager of the decision diagrams, its table and the making of nodes
      ([cloud.h], [cloud.c]); [table_ok] is the invariant.  [CloudInit]: the start and the
      restart; [CloudBdd]: functions, canonicity and the operations with their cache;
      [CloudRun]: runs of a client as a step relation; [CloudDag]: traversals with marks.
    - [CloudTruth], [KitCloud], [CloudSupp]: from truth tables to decision diagrams, their
      arrays of packed entries and back, composition of tables, and the supports of cofactors
      ([kitCloud.c]): clients of [Cloud].
    - [Dsd]: networks of and-, xor- and prime nodes and the recursion that makes them from a
      table, disjoint-support decomposition ([kitDsd.c]).  [DsdFun]: the variables that do not
      matter to a function; [DsdDec]: what a literal of a network stands for ([den], and
      [dsd_eval], which computes it), what a tree is, and the contract of the recursion,
      [dsd_pre] and [dsd_post]; [DsdStep]: the contract for every way in which the recursion
      takes a node apart; [DsdRun]: compression, the recursion as a whole, and the entry points.
    - [DsdTruth]: the truth table of a network and its manager ([kitDsd.c], [vecPtr.h]), a
      client of [KitCloud]; the round trip from a table to its network and back.  [DsdBuild]: what
      the routines that copy networks share, with [copied], the contract of one literal, and the
      class [Stable] of what else is known of it; its clients [DsdExpand], the expansion to gates
      of many fanins with their normal forms, and [DsdShrink], the trees of gates of two fanins
      in the order of priorities; [DsdSupp]: the supports of the nodes ([kitDsd.c]).

    ** How the code is modelled

    A definition has the name of the C routine and its statements in order.  An array that
    a routine changes is an argument and a result; local arrays and static buffers are
    arguments, so that nothing depends on their first contents; fresh memory that the code
    reads only after writing it has contents given by an argument or, for the regions of
    [Vec_IntFetch], by the buffer (see [VecInt]).  An assertion that fails, a null pointer that
    is followed, and fuel that runs out give [None], which the theorems exclude; a null result
    that the code handles is an ordinary value.

    Some assertions are not in the definitions but in the hypotheses of the theorems: in
    [kitTruth.c] and [kit.h] that the index of a variable is below the number of variables
    (cofactors, quantification, exchange of neighbours, counts), in [Kit_TruthPermute] that neighbouring
    entries of the permutation differ (the theorem asks for distinct entries), and the limits of
    [Kit_TruthVarsSymm] and [Kit_TruthHash] on the size of the table.  [Vec_IntFetch] is only called with numbers
    of words that are not negative, as its assertion says, and [Vec_IntMoveTo] with no more words than were
    fetched.  The rows of [Kit_TruthCofSupports] are kept apart from the memory they are in; its
    theorem says that the capacity suffices.  [Gia_ManHashOne] multiplies [int]s, which the
    model wraps where C leaves the result open, and the test for primes does not bound the
    square of the candidate, which stays small in the range of its theorem.

    ** Fuel and bounds

    Sorting loops ([Kit_TruthPermute], [Kit_TruthSemiCanonicize]) need more fuel than
    [nVars * nVars], the bound on the exchanges.  The recursions of [kitIsop.c] need one unit
    per variable, and the entry points supply it.  The kernel recursion needs more than the
    number of literals of the cover, the depth routines more than the number of the node.
    Factoring needs more than the literals and cubes of the cover together; an irredundant
    cover of [n] variables has at most [2 ^ n * (n + 1)] of them, and up to seven variables
    the memory limit of the factoring is not met, which bounds the flows.  The search for the
    size of a table is a loop that answers within [2 ^ 32] steps; the theorem shows that up
    to the prime 33554467, twice the [2 ^ 24] gates that the theorems on hashing allow, it
    does.  The search in the table of decision diagrams ends within the number of its slots,
    as one is empty below the limit; recursions on diagrams take one unit per variable and
    one for the constant.  The diagram of a table of [n] variables has fewer than [2 ^ (n - 1)]
    nodes besides the variables, which is the room that its theorems ask for.  A chain of the hash table is not longer than the array of links.  A manager holds at
    most [2 ^ 29] objects.  Decomposition takes two units per variable that matters and two more,
    as every step removes a variable or marks the node; it makes fewer nodes than variables, and
    with multiplexers at most [3 * 2 ^ (n - 2) - 1], so that the identifiers of six bits suffice
    up to six variables.  The table of a network of [n] variables takes [n + 2] units, as a path of
    a tree has at most [n + 1] nodes; so do its expansion and shrinking, which make at most [n] nodes, and the reading of its supports; the manager has room for the diagrams of twelve fanins.

    ** What the theorems show

    - tables: each routine computes the function that its name says, on every branch (one
      word, several words); loops over the permutation end; stretching is undone;
    - covers: [Kit_TruthIsop] and [Kit_TruthIsop2] return irredundant prime covers or report
      lack of memory; division splits a cover exactly; the kernel search ends in a kernel, the
      whole quotient by its co-kernel;
    - graphs: gates preserve well-formedness and have the function of the gate; the truth
      table and the depths of a graph are those of its root;
    - factoring: it ends, its assertions hold, and the graph has the function of the cover
      and fewer gates than literals; from a truth table the flows give a graph of the table;
    - text: the text of a cover is read back, evaluates to its function, and two complements
      restore it;
    - counts: the byte-wise counter is right up to a number of minterms, and a theorem shows
      the assertion that fails above it;
    - and-inverter graphs: gates, inputs and outputs have their values and keep the invariant
      and the values of older literals; the table holds exactly the gates of the graph, no
      two gates have the same fanins, the same arguments give the same literal for ever, and
      growing the table loses nothing; the gates built for a truth table compute it;
    - decision diagrams: the start and the restart establish the invariant and every routine
      keeps it; equal functions have equal pointers; the operations compute their functions or
      report the limit, in any sequence of calls and restarts; sizes and lists of nodes are
      those of the paths and the marks are cleared; the routines for the support and for one
      cube are shown to go wrong where they do; the diagram of a table has its values, its
      array gives the table again unless it is constant, and the supports of the cofactors are
      exact;
    - decomposition: it ends, its assertions hold, and the network has the function of the
      table, is a tree, and has only prime nodes in which every fanin matters; with multiplexers
      the function is right up to six variables; the truth table of the network is the
      table again; expansion keeps the function and gives a network in normal form; the
      supports that are read from networks are those of the tables; shrinking keeps the
      function and gives trees of two-input gates, unless a xor-node has a complemented fanin,
      on which an assertion fails;
    - arrays: every routine keeps the invariant of the array and computes the list, the
      order or the set that its name says.

    ** Not modelled

    Printing and files; the bridges of [kit] to BDD managers and to the older AIG managers,
    which call other packages; of [kitDsd.c] the text of networks, their rotation, the
    tables of parts of a network, its counts, the
    pre-computed classes and the choice of cofactoring variables; the statistics of the decision diagrams, which nothing reads; of the
    and-inverter graphs the multiplexer nodes, fanouts, the sweeper, simulation and every traversal of a finished graph;
    the rest of ABC, the other engines and the control plane of
    the repository. *)
From Stdlib Require Export ZArith Lia Bool Permutation.
From stdpp Require Export base list numbers.

#[global] Open Scope nat_scope.
#[global] Set Default Goal Selector "!".

(** * Arrays of C words *)

(** [p[i]] and [p[i] = x] on an array that is the list of its elements.  Reading
    past the end gives 0 and writing past the end does nothing: every theorem
    that depends on it carries the length hypothesis that rules it out. *)
Definition rd (p : list Z) (i : nat) : Z := nth i p 0%Z.
Definition wr (p : list Z) (i : nat) (x : Z) : list Z := <[i := x]> p.

Declare Scope kit_scope.
Delimit Scope kit_scope with kit.
Notation "p .[ i ]" := (rd p i%nat)
  (at level 1, left associativity, format "p .[ i ]") : kit_scope.
Notation "p .[ i <- x ]" := (wr p i%nat x%Z) (at level 1, left associativity) : kit_scope.

(** Unsigned 32-bit operations of C. *)
Definition wnot (x : Z) : Z := Z.ldiff 0xFFFFFFFF x.
Definition wshl (x : Z) (k : nat) : Z := Z.land (Z.shiftl x (Z.of_nat k)) 0xFFFFFFFF.
Definition wshr (x : Z) (k : nat) : Z := Z.shiftr x (Z.of_nat k).
Definition wadd (x y : Z) : Z := ((x + y) mod 2 ^ 32)%Z.
Definition wsub (x y : Z) : Z := ((x - y) mod 2 ^ 32)%Z.
Definition wmul (x y : Z) : Z := ((x * y) mod 2 ^ 32)%Z.

Notation "x &&& y" := (Z.land x%Z y%Z) (at level 40, left associativity) : kit_scope.
Notation "x ||| y" := (Z.lor x%Z y%Z) (at level 50, left associativity) : kit_scope.
Notation "x ^^^ y" := (Z.lxor x%Z y%Z) (at level 45, left associativity) : kit_scope.
Notation "x <<< k" := (wshl x%Z k%nat) (at level 38, left associativity) : kit_scope.
Notation "x >>> k" := (wshr x%Z k%nat) (at level 38, left associativity) : kit_scope.
Notation "~~~ x" := (wnot x%Z) (at level 30, right associativity) : kit_scope.
(** [assert( b ); k] *)
Notation "'assert!' b 'in' k" := (if b then k else None)
  (at level 10, b at level 100, k at level 200).

#[global] Open Scope kit_scope.

(** * Loops *)

(** [for ( i = 0; i < n; i++ ) body] *)
Definition for_up {A} (n : nat) (body : nat -> A -> A) (a : A) : A :=
  fold_left (fun s i => body i s) (seq 0 n) a.

(** [for ( i = lo; i < hi; i++ ) body] *)
Definition for_range {A} (lo hi : nat) (body : nat -> A -> A) (a : A) : A :=
  fold_left (fun s i => body i s) (seq lo (hi - lo)) a.

(** [for ( i = n-1; i >= 0; i-- ) body] *)
Definition for_down {A} (n : nat) (body : nat -> A -> A) (a : A) : A :=
  fold_left (fun s i => body i s) (rev (seq 0 n)) a.

(** [for ( k = 0; k < n; k += s ) body] *)
Definition for_step {A} (n s : nat) (body : nat -> A -> A) (a : A) : A :=
  for_up ((n + s - 1) / s) (fun j => body (j * s)) a.

(** Loops that only leave early: [for ( ... ) if ( c ) return 1; return 0;] *)
Definition exists_up (n : nat) (c : nat -> bool) : bool := existsb c (seq 0 n).
Definition exists_step (n s : nat) (c : nat -> bool) : bool :=
  exists_up ((n + s - 1) / s) (fun j => c (j * s)).

(** The same with the counter going down. *)
Definition exists_down (n : nat) (c : nat -> bool) : bool := existsb c (rev (seq 0 n)).

(** Number of the [i < n] with [f i]: what the counting loops compute. *)
Fixpoint cnt (n : nat) (f : nat -> bool) : Z :=
  match n with
  | O => 0
  | S k => cnt k f + Z.b2z (f k)
  end%Z.

Create Rewrite HintDb kitlen.

(** * Lemmas on arrays *)

Lemma rd_lookup p i : p.[i] = default 0%Z (p !! i).
Proof. unfold rd. rewrite nth_lookup. done. Qed.

Lemma length_wr p i x : length (wr p i x) = length p.
Proof. apply length_insert. Qed.

Lemma rd_wr p i x j :
  (wr p i x).[j] = if decide (i = j /\ i < length p) then x else p.[j].
Proof.
  rewrite !rd_lookup. unfold wr. rewrite list_lookup_insert.
  case_decide as H; destruct (decide (i = j /\ i < length p)) as [[H1 H2]|H1];
    try done; intuition subst; done || lia || idtac.
Qed.

Lemma rd_wr_eq p i x : i < length p -> (wr p i x).[i] = x.
Proof. intros. rewrite rd_wr. by rewrite decide_True. Qed.

Lemma rd_wr_ne p i x j : i <> j -> (wr p i x).[j] = p.[j].
Proof. intros. rewrite rd_wr. rewrite decide_False; [done|]. by intros [? ?]. Qed.

Lemma rd_ge p i : length p <= i -> p.[i] = 0%Z.
Proof. intros. apply nth_overflow. done. Qed.

Lemma rd_drop k l j : (drop k l).[j] = l.[k + j].
Proof. by rewrite !rd_lookup, lookup_drop. Qed.

Lemma list_eq_rd (p q : list Z) :
  length p = length q -> (forall i, i < length p -> p.[i] = q.[i]) -> p = q.
Proof. intros Hl He. apply (nth_ext _ _ 0%Z 0%Z); done. Qed.

(** * Lemmas on loops *)

Lemma for_up_0 {A} (body : nat -> A -> A) a : for_up 0 body a = a.
Proof. done. Qed.

Lemma for_up_S {A} n (body : nat -> A -> A) a :
  for_up (S n) body a = body n (for_up n body a).
Proof. unfold for_up. rewrite seq_S, fold_left_app. done. Qed.

Lemma for_up_ind {A} (P : nat -> A -> Prop) n (body : nat -> A -> A) a :
  P 0 a -> (forall i s, i < n -> P i s -> P (S i) (body i s)) -> P n (for_up n body a).
Proof.
  intros H0 HS. assert (forall k, k <= n -> P k (for_up k body a)) as H; [|auto].
  induction k as [|k IH]; intros Hk; [done|]. rewrite for_up_S. apply HS; [lia|]. apply IH. lia.
Qed.

Lemma for_range_up {A} lo hi (body : nat -> A -> A) a :
  for_range lo hi body a = for_up (hi - lo) (fun i => body (lo + i)) a.
Proof.
  unfold for_range, for_up. generalize (hi - lo) as n. intros n. revert a.
  replace (seq lo n) with (Nat.add lo <$> seq 0 n) by (rewrite fmap_add_seq; f_equal; lia).
  generalize (seq 0 n) as l. intros l. induction l as [|i l IH]; intros a; [done|]. apply IH.
Qed.

Lemma for_range_ind {A} (P : nat -> A -> Prop) lo hi (body : nat -> A -> A) a :
  lo <= hi -> P lo a -> (forall i s, lo <= i < hi -> P i s -> P (S i) (body i s)) ->
  P hi (for_range lo hi body a).
Proof.
  intros Hle H0 HS. rewrite for_range_up.
  replace hi with (lo + (hi - lo)) at 1 by lia.
  apply (for_up_ind (fun k s => P (lo + k) s)).
  - by rewrite Nat.add_0_r.
  - intros i s Hi Hp. rewrite Nat.add_succ_r. apply HS; [lia|done].
Qed.

Lemma for_range_empty {A} lo hi (body : nat -> A -> A) a : hi <= lo -> for_range lo hi body a = a.
Proof. intros. unfold for_range. by replace (hi - lo) with 0 by lia. Qed.

Lemma for_range_S {A} lo hi (body : nat -> A -> A) a :
  lo <= hi -> for_range lo (S hi) body a = body hi (for_range lo hi body a).
Proof.
  intros. rewrite !for_range_up. replace (S hi - lo) with (S (hi - lo)) by lia.
  rewrite for_up_S. by replace (lo + (hi - lo)) with hi by lia.
Qed.

Lemma for_down_S {A} n (body : nat -> A -> A) a :
  for_down (S n) body a = for_down n body (body n a).
Proof. unfold for_down. rewrite seq_S, rev_app_distr. done. Qed.

Lemma for_down_up {A} n (body : nat -> A -> A) a :
  for_down n body a = for_up n (fun i => body (n - 1 - i)) a.
Proof.
  revert body a. induction n as [|n IH]; intros body a; [done|].
  rewrite for_down_S, IH. unfold for_up. cbn [seq]. rewrite <- seq_shift.
  cbn [fold_left]. replace (S n - 1 - 0) with n by lia.
  generalize (body n a) as b. generalize (seq 0 n) as l.
  induction l as [|i l IHl]; intros b; [done|]. cbn [map fold_left].
  replace (S n - 1 - S i) with (n - 1 - i) by lia. apply IHl.
Qed.

Lemma for_up_ext {A} n (b1 b2 : nat -> A -> A) a :
  (forall i s, i < n -> b1 i s = b2 i s) -> for_up n b1 a = for_up n b2 a.
Proof.
  induction n as [|n IH]; intros H; [done|]. rewrite !for_up_S, IH by auto. apply H. lia.
Qed.

Lemma for_down_ind {A} (P : nat -> A -> Prop) n (body : nat -> A -> A) a :
  P n a -> (forall i s, i < n -> P (S i) s -> P i (body i s)) -> P 0 (for_down n body a).
Proof.
  revert a. induction n as [|n IH]; intros a H0 HS; [done|].
  rewrite for_down_S. apply IH; [|auto]. apply HS; [lia|done].
Qed.

Lemma exists_up_true n c : exists_up n c = true <-> exists i, i < n /\ c i = true.
Proof.
  unfold exists_up. rewrite existsb_exists. split.
  - intros [i [Hi Hc]]. apply in_seq in Hi. exists i. split; [lia|done].
  - intros [i [Hi Hc]]. exists i. split; [apply in_seq; lia|done].
Qed.

Lemma exists_up_false n c : exists_up n c = false <-> forall i, i < n -> c i = false.
Proof.
  rewrite <- not_true_iff_false, exists_up_true. split.
  - intros H i Hi. apply not_true_iff_false. intros Hc. apply H. eauto.
  - intros H [i [Hi Hc]]. rewrite H in Hc; done.
Qed.

Lemma exists_down_up n c : exists_down n c = exists_up n c.
Proof.
  apply eq_true_iff_eq. rewrite exists_up_true. unfold exists_down. rewrite existsb_exists.
  setoid_rewrite <- in_rev. setoid_rewrite in_seq. split; intros [i H]; exists i; intuition lia.
Qed.

(** ** Loops whose iterations own disjoint parts of the array *)

(** Iteration [i] of the loop touches only the elements [j] with [own j = i], and
    what it writes there is computed from the elements it owns.  Then the loop
    leaves in [j] what iteration [own j] alone would write on the initial array. *)
Section own.
Context (own : nat -> nat) (n L : nat) (body : nat -> list Z -> list Z).
Context (Hlen : forall i p, length (body i p) = length p).
Context (Hframe : forall i p j, i < n -> length p = L -> own j <> i -> (body i p).[j] = p.[j]).
Context (Hlocal : forall i p q j,
  i < n -> length p = L -> length q = L -> (forall k, own k = i -> p.[k] = q.[k]) ->
  own j = i -> (body i p).[j] = (body i q).[j]).

Lemma length_for_up_own p : length (for_up n body p) = length p.
Proof.
  apply (for_up_ind (fun _ s => length s = length p)); [done|].
  intros i s _ Hs. by rewrite Hlen.
Qed.

Lemma rd_for_up_own p j :
  length p = L ->
  (for_up n body p).[j] = if decide (own j < n) then (body (own j) p).[j] else p.[j].
Proof.
  intros HL.
  assert (forall k, k <= n -> length (for_up k body p) = L /\
    forall j, (for_up k body p).[j] =
      if decide (own j < k) then (body (own j) p).[j] else p.[j]) as H.
  { induction k as [|k IH]; intros Hk; [split; [done|]; intros; by rewrite decide_False by lia|].
    destruct IH as [IHl IHr]; [lia|]. rewrite for_up_S. split; [by rewrite Hlen|].
    intros j0. destruct (decide (own j0 = k)) as [He|He].
    - rewrite decide_True by lia. rewrite He. apply Hlocal; [lia|done|by rewrite <- HL| |done].
      intros j1 Hj1. rewrite IHr, decide_False by lia. done.
    - rewrite Hframe by (lia || done). rewrite IHr.
      destruct (decide (own j0 < k)); [rewrite decide_True by lia|rewrite decide_False by lia]; done. }
  apply H. done.
Qed.
End own.

(** * Lemmas on counting *)

Lemma cnt_ext n f g : (forall i, i < n -> f i = g i) -> cnt n f = cnt n g.
Proof. induction n as [|n IH]; intros H; [done|]. cbn. rewrite IH, H by auto. done. Qed.

Lemma cnt_bound n f : (0 <= cnt n f <= Z.of_nat n)%Z.
Proof. induction n as [|n IH]; [done|]. cbn [cnt]. destruct (f n); cbn [Z.b2z]; lia. Qed.

Lemma cnt_add m n f : cnt (m + n) f = (cnt m f + cnt n (fun i => f (m + i)%nat))%Z.
Proof.
  induction n as [|n IH]; cbn [cnt]; [rewrite Nat.add_0_r; lia|].
  rewrite Nat.add_succ_r. cbn [cnt]. rewrite IH. lia.
Qed.

Lemma cnt_false n f : (forall i, i < n -> f i = false) -> cnt n f = 0%Z.
Proof. induction n as [|n IH]; intros H; [done|]. cbn. rewrite IH, H by auto. done. Qed.

Lemma cnt_split n f g :
  (cnt n f = cnt n (fun i => f i && g i) + cnt n (fun i => f i && negb (g i)))%Z.
Proof. induction n as [|n IH]; [done|]. cbn [cnt]. destruct (f n), (g n); cbn; lia. Qed.

Lemma cnt_pos n f i : i < n -> f i = true -> (0 < cnt n f)%Z.
Proof.
  induction n as [|n IH]; intros Hi Hf; [lia|]. cbn [cnt].
  pose proof (cnt_bound n f). destruct (decide (i = n)) as [->|Hn].
  - rewrite Hf. cbn. lia.
  - destruct (f n); cbn; specialize (IH ltac:(lia) Hf); lia.
Qed.

Lemma cnt_blocks m n f :
  cnt (m * n) f = for_up m (fun k c => (c + cnt n (fun i => f (k * n + i)%nat))%Z) 0%Z.
Proof.
  induction m as [|m IH]; [done|]. rewrite for_up_S, <- IH. cbn [Nat.mul].
  rewrite Nat.add_comm. apply cnt_add.
Qed.

Lemma for_up_cnt n f (c : Z) : for_up n (fun i s => (s + Z.b2z (f i))%Z) c = (c + cnt n f)%Z.
Proof. induction n as [|n IH]; [cbn; lia|]. rewrite for_up_S, IH. cbn. lia. Qed.

Lemma for_up_sum n (g : nat -> Z) (c : Z) :
  for_up n (fun i s => (s + g i)%Z) c = (c + for_up n (fun i s => (s + g i)%Z) 0)%Z.
Proof. induction n as [|n IH]; [cbn; lia|]. rewrite !for_up_S, IH. lia. Qed.

Lemma for_down_sum n (g : nat -> Z) (c : Z) :
  for_down n (fun i s => (s + g i)%Z) c = for_up n (fun i s => (s + g i)%Z) c.
Proof.
  revert c. induction n as [|n IH]; intros c; [done|].
  rewrite for_down_S, for_up_S, IH, (for_up_sum n g (c + g n)), (for_up_sum n g c). lia.
Qed.

(** [find] over increasing indices returns the first. *)
Lemma find_seq_Some c s n i :
  find c (seq s n) = Some i <-> s <= i < s + n /\ c i = true /\ forall j, s <= j < i -> c j = false.
Proof.
  revert s. induction n as [|n IH]; intros s; cbn; [split; [done|lia]|].
  destruct (c s) eqn:E.
  - split.
    + intros [= <-]. repeat split; [lia..|done|]. intros. lia.
    + intros (Hi & Hc & Hmin). f_equal. destruct (decide (s = i)) as [|Hn]; [done|].
      rewrite Hmin in E; [done|lia].
  - rewrite IH. split; intros (Hi & Hc & Hmin); (split; [|split; [done|]]).
    + lia.
    + intros j Hj. destruct (decide (j = s)) as [->|]; [done|]. apply Hmin. lia.
    + destruct (decide (s = i)) as [->|]; [congruence|lia].
    + intros j Hj. apply Hmin. lia.
Qed.

Lemma find_seq_None c s n : find c (seq s n) = None <-> forall j, s <= j < s + n -> c j = false.
Proof.
  split.
  - intros H j Hj. eapply find_none in H; [done|]. apply in_seq. lia.
  - intros H. destruct (find c (seq s n)) eqn:E; [|done].
    apply find_seq_Some in E as (Hi & Hc & _). rewrite H in Hc; done.
Qed.

(** * [do body while ( c )] *)

(** [body] returns the condition and the new state; [None] when [fuel] runs out. *)
Fixpoint do_while {A} (fuel : nat) (body : A -> bool * A) (a : A) : option A :=
  match fuel with
  | O => None
  | S fuel => let '(c, a) := body a in if c then do_while fuel body a else Some a
  end.

(** A measure that every repeated iteration decreases bounds the fuel; the last
    iteration is one that does not ask for another. *)
Lemma do_while_measure {A} (body : A -> bool * A) (mu : A -> nat) (I : A -> Prop) fuel a :
  I a -> mu a < fuel ->
  (forall s c s', I s -> body s = (c, s') -> I s' /\ (c = true -> mu s' < mu s)) ->
  exists s r, do_while fuel body a = Some r /\ I s /\ I r /\ body s = (false, r).
Proof.
  intros Ha Hf Hb. revert a Ha Hf. induction fuel as [|fuel IH]; intros a Ha Hf; [lia|].
  cbn [do_while]. destruct (body a) as [[|] a'] eqn:E.
  - destruct (Hb _ _ _ Ha E) as [Ha' Hmu]. apply IH; [done|]. specialize (Hmu eq_refl). lia.
  - exists a, a'. destruct (Hb _ _ _ Ha E). done.
Qed.

(** * Sums *)

Fixpoint sumf (n : nat) (h : nat -> Z) : Z :=
  match n with
  | O => 0
  | S n => sumf n h + h n
  end%Z.

Lemma for_up_sumf n h c : for_up n (fun w c => (c + h w)%Z) c = (c + sumf n h)%Z.
Proof. induction n as [|n IH]; [cbn; lia|]. rewrite for_up_S, IH. cbn. lia. Qed.

Lemma sumf_ext n h g : (forall i, i < n -> h i = g i) -> sumf n h = sumf n g.
Proof. induction n as [|n IH]; intros H; [done|]. cbn. rewrite IH, H by auto. done. Qed.

Lemma sumf_plus n h g : sumf n (fun i => (h i + g i)%Z) = (sumf n h + sumf n g)%Z.
Proof. induction n as [|n IH]; [done|]. cbn. lia. Qed.

Lemma sumf_app m n h : sumf (m + n) h = (sumf m h + sumf n (fun i => h (m + i)%nat))%Z.
Proof.
  induction n as [|n IH]; cbn [sumf]; [rewrite Nat.add_0_r; lia|].
  rewrite Nat.add_succ_r. cbn [sumf]. rewrite IH. lia.
Qed.

Lemma sumf_zero n h : (forall i, i < n -> h i = 0%Z) -> sumf n h = 0%Z.
Proof. induction n as [|n IH]; intros H; [done|]. cbn. rewrite IH, H by auto. done. Qed.

Lemma cnt_sumf n f : cnt n f = sumf n (fun i => Z.b2z (f i)).
Proof. induction n as [|n IH]; [done|]. cbn. by rewrite IH. Qed.

Lemma cnt_mul m n f : cnt (m * n) f = sumf m (fun k => cnt n (fun i => f (k * n + i))).
Proof. rewrite cnt_blocks, for_up_sumf. lia. Qed.

Lemma sumf_mul m n h : sumf (m * n) h = sumf m (fun k => sumf n (fun i => h (k * n + i)%nat)).
Proof.
  induction m as [|m IH]; [done|]. cbn [Nat.mul sumf]. by rewrite Nat.add_comm, sumf_app, IH.
Qed.

(** [p[i] += x] *)
Definition inc (p : list Z) (i : nat) (x : Z) : list Z := wr p i (p.[i] + x)%Z.

Lemma length_inc p i x : length (inc p i x) = length p.
Proof. apply length_wr. Qed.
Lemma rd_inc p i x j : i < length p -> (inc p i x).[j] = (p.[j] + if decide (j = i) then x else 0)%Z.
Proof.
  intros Hi. unfold inc. rewrite rd_wr. destruct (decide (j = i)) as [-> | ].
  - by rewrite decide_True.
  - rewrite decide_False by (intros [? _]; lia). lia.
Qed.
