(* ===== verification/Words.v ===== *)
(** 32-bit words: ranges, bits, and the word routines of [kit.h]. *)
From S2P Require Import Prelude.

(** * Ranges *)

Definition is_word (x : Z) : Prop := (0 <= x < 2 ^ 32)%Z.

Lemma bits_high n x i : (0 <= x < 2 ^ n)%Z -> (n <= i)%Z -> Z.testbit x i = false.
Proof.
  intros [H0 H1] Hi. destruct (decide (x = 0)%Z) as [->|Hn]; [apply Z.testbit_0_l|].
  apply Z.bits_above_log2; [done|]. apply Z.log2_lt_pow2; [lia|].
  eapply Z.lt_le_trans; [done|]. apply Z.pow_le_mono_r; lia.
Qed.

Lemma bits_bound n x :
  (0 <= n)%Z -> (0 <= x)%Z -> (forall i, (n <= i)%Z -> Z.testbit x i = false) -> (0 <= x < 2 ^ n)%Z.
Proof.
  intros Hn H0 H. split; [done|]. destruct (decide (x = 0)%Z) as [->|Hx]; [lia|].
  apply Z.log2_lt_pow2; [lia|]. destruct (Z.lt_ge_cases (Z.log2 x) n) as [|Hge]; [done|].
  specialize (H _ Hge). rewrite Z.bit_log2 in H by lia. done.
Qed.

Lemma word_high x i : is_word x -> (32 <= i)%Z -> Z.testbit x i = false.
Proof. apply bits_high. Qed.

Lemma word_intro x : (0 <= x)%Z -> (forall i, (32 <= i)%Z -> Z.testbit x i = false) -> is_word x.
Proof. by apply bits_bound. Qed.

Lemma word_ext x y :
  is_word x -> is_word y ->
  (forall b, b < 32 -> Z.testbit x (Z.of_nat b) = Z.testbit y (Z.of_nat b)) -> x = y.
Proof.
  intros Hx Hy H. apply Z.bits_inj'. intros i Hi.
  destruct (Z.lt_ge_cases i 32) as [Hlt|Hge].
  - rewrite <- (Z2Nat.id i) by done. apply H. lia.
  - by rewrite !word_high.
Qed.

Lemma word_0 : is_word 0. Proof. by unfold is_word. Qed.
Lemma word_ones : is_word 0xFFFFFFFF. Proof. by unfold is_word. Qed.

Lemma word_land_l x y : is_word x -> (0 <= y)%Z -> is_word (x &&& y).
Proof.
  intros Hx Hy. apply word_intro.
  - apply Z.land_nonneg. by right.
  - intros i Hi. by rewrite Z.land_spec, word_high.
Qed.

Lemma word_land_r x y : is_word y -> (0 <= x)%Z -> is_word (x &&& y).
Proof. rewrite Z.land_comm. apply word_land_l. Qed.

Lemma word_land x y : is_word x -> is_word y -> is_word (x &&& y).
Proof. intros Hx [? ?]. by apply word_land_l. Qed.

Lemma word_lor x y : is_word x -> is_word y -> is_word (x ||| y).
Proof.
  intros Hx Hy. apply word_intro.
  - apply Z.lor_nonneg. split; [apply Hx|apply Hy].
  - intros i Hi. by rewrite Z.lor_spec, !word_high.
Qed.

Lemma word_lxor x y : is_word x -> is_word y -> is_word (x ^^^ y).
Proof.
  intros Hx Hy. apply word_intro.
  - apply Z.lxor_nonneg. split; intros _; [apply Hy|apply Hx].
  - intros i Hi. by rewrite Z.lxor_spec, !word_high.
Qed.

Lemma word_wshl x k : is_word (x <<< k).
Proof.
  apply word_intro.
  - apply Z.land_nonneg. right. done.
  - intros i Hi. unfold wshl. rewrite Z.land_spec, (word_high 0xFFFFFFFF); [|done|done].
    apply andb_false_r.
Qed.

Lemma word_wshr x k : is_word x -> is_word (x >>> k).
Proof.
  intros Hx. apply word_intro.
  - apply Z.shiftr_nonneg, Hx.
  - intros i Hi. unfold wshr. rewrite Z.shiftr_spec by lia. apply word_high; [done|lia].
Qed.

Lemma word_wnot x : is_word (~~~ x).
Proof.
  apply word_intro.
  - apply Z.ldiff_nonneg. by left.
  - intros i Hi. unfold wnot. by rewrite Z.ldiff_spec, word_high.
Qed.

Lemma word_mod x : is_word (x mod 2 ^ 32).
Proof. apply Z.mod_pos_bound. done. Qed.

Create HintDb words.
#[export] Hint Resolve word_0 word_ones word_land word_lor word_lxor word_wshl word_wshr
  word_wnot word_mod : words.
#[export] Hint Extern 1 (is_word (Zpos _)) => (split; [discriminate|reflexivity]) : words.

(** * Bits *)

Lemma testbit_wnot x b : b < 32 -> Z.testbit (~~~ x) (Z.of_nat b) = negb (Z.testbit x (Z.of_nat b)).
Proof.
  intros Hb. unfold wnot. rewrite Z.ldiff_spec.
  change 0xFFFFFFFF%Z with (Z.ones 32). rewrite Z.ones_spec_low by lia. done.
Qed.

Lemma testbit_wnot_Z x i :
  (0 <= i)%Z -> Z.testbit (~~~ x) i = (i <? 32)%Z && negb (Z.testbit x i).
Proof.
  intros Hi. unfold wnot. rewrite Z.ldiff_spec. change 0xFFFFFFFF%Z with (Z.ones 32).
  rewrite Z.testbit_ones_nonneg by lia. done.
Qed.

Lemma testbit_wshl x k i :
  (0 <= i)%Z ->
  Z.testbit (x <<< k) i = (i <? 32)%Z && (Z.of_nat k <=? i)%Z && Z.testbit x (i - Z.of_nat k).
Proof.
  intros Hi. unfold wshl. rewrite Z.land_spec, Z.shiftl_spec by lia.
  change 0xFFFFFFFF%Z with (Z.ones 32). rewrite Z.testbit_ones_nonneg by lia.
  destruct (Z.leb_spec (Z.of_nat k) i).
  - rewrite andb_true_r. apply andb_comm.
  - rewrite (Z.testbit_neg_r x) by lia. by rewrite andb_false_r.
Qed.

Lemma testbit_wshr x k i : (0 <= i)%Z -> Z.testbit (x >>> k) i = Z.testbit x (i + Z.of_nat k).
Proof. intros Hi. unfold wshr. by rewrite Z.shiftr_spec. Qed.

Lemma testbit_ones_word b : b < 32 -> Z.testbit 0xFFFFFFFF (Z.of_nat b) = true.
Proof. intros. change 0xFFFFFFFF%Z with (Z.ones 32). apply Z.ones_spec_low. lia. Qed.

(** [word_bits b]: proves an equation about bit [b < 32] of shift-and-mask
    expressions by rewriting with the bit specifications and enumerating [b]. *)
Ltac push_bits :=
  repeat first
    [ rewrite Z.lor_spec | rewrite Z.land_spec | rewrite Z.lxor_spec
    | rewrite testbit_wshl by lia | rewrite testbit_wshr by lia
    | rewrite testbit_wnot_Z by lia ].

Ltac split_bools :=
  repeat match goal with
  | f : Z -> bool |- context [?f ?k] =>
      let b := fresh "bit" in generalize (f k) as b; intros b; destruct b
  end; try reflexivity.

Ltac gen_words :=
  repeat match goal with
  | x : Z |- context [Z.testbit ?x] => is_var x; generalize (Z.testbit x); clear x
  end.

Ltac enum_nat b n :=
  lazymatch n with
  | O => exfalso; lia
  | S ?m => destruct b as [|b]; [ | enum_nat b m ]
  end.

Ltac word_bits b :=
  push_bits; gen_words; intros;
  let n := eval compute in 32 in
  enum_nat b n; vm_compute; try reflexivity; split_bools.

(** * The word routines of [kit.h] *)

(** [Kit_WordFindFirstBit]: [-1] when no bit is set.  [1 << i] is an [int]; the
    conversion of [1 << 31] to [unsigned] is bit 31. *)
Definition Kit_WordFindFirstBit (uWord : Z) : Z :=
  match find (fun i => negb (uWord &&& (1 <<< i) =? 0)%Z) (seq 0 32) with
  | Some i => Z.of_nat i
  | None => -1
  end%Z.

Definition Kit_WordHasOneBit (uWord : Z) : bool := (uWord &&& wsub uWord 1 =? 0)%Z.

Definition Kit_WordCountOnes (uWord : Z) : Z :=
  let uWord := wadd (uWord &&& 0x55555555) ((uWord >>> 1) &&& 0x55555555) in
  let uWord := wadd (uWord &&& 0x33333333) ((uWord >>> 2) &&& 0x33333333) in
  let uWord := wadd (uWord &&& 0x0F0F0F0F) ((uWord >>> 4) &&& 0x0F0F0F0F) in
  let uWord := wadd (uWord &&& 0x00FF00FF) ((uWord >>> 8) &&& 0x00FF00FF) in
  wadd (uWord &&& 0x0000FFFF) (uWord >>> 16).

Definition Kit_BitMask (nBits : nat) : Z := ~~~ (0xFFFFFFFF <<< nBits).

(** ** Counting ones: the parallel additions *)

(** A word seen as fields of [w] bits, least significant first. *)
Fixpoint ev (w : nat) (l : list Z) : Z :=
  match l with
  | [] => 0
  | x :: l => x + 2 ^ Z.of_nat w * ev w l
  end%Z.

Fixpoint psum (l : list Z) : list Z :=
  match l with
  | a :: b :: l => (a + b)%Z :: psum l
  | _ => []
  end.

(** [n] times the pattern of [w] ones then [w] zeros. *)
Fixpoint msk (w n : nat) : Z :=
  match n with
  | O => 0
  | S n => 2 ^ Z.of_nat w - 1 + 2 ^ Z.of_nat (2 * w) * msk w n
  end%Z.

Lemma land_split w a b c d :
  (0 <= a < 2 ^ Z.of_nat w)%Z -> (0 <= c < 2 ^ Z.of_nat w)%Z ->
  ((a + 2 ^ Z.of_nat w * b) &&& (c + 2 ^ Z.of_nat w * d) = (a &&& c) + 2 ^ Z.of_nat w * (b &&& d))%Z.
Proof.
  intros Ha Hc. assert (0 < 2 ^ Z.of_nat w)%Z as Hp by (apply Z.pow_pos_nonneg; lia).
  assert (forall x y, (0 <= x < 2 ^ Z.of_nat w)%Z ->
    (x + 2 ^ Z.of_nat w * y = Z.lor x (Z.shiftl y (Z.of_nat w)))%Z) as Hl.
  { intros x y Hx. rewrite Z.shiftl_mul_pow2, (Z.mul_comm y) by lia. apply Z.add_nocarry_lor.
    apply Z.bits_inj'; intros i Hi.
    rewrite Z.land_spec, Z.testbit_0_l, Z.mul_comm, <- Z.shiftl_mul_pow2, Z.shiftl_spec by lia.
    destruct (Z.lt_ge_cases i (Z.of_nat w)).
    - rewrite (Z.testbit_neg_r y) by lia. apply andb_false_r.
    - by rewrite (bits_high (Z.of_nat w) x). }
  assert (0 <= (a &&& c) < 2 ^ Z.of_nat w)%Z as Hac.
  { apply bits_bound; [lia|apply Z.land_nonneg; lia|].
    intros i Hi. by rewrite Z.land_spec, (bits_high (Z.of_nat w) a). }
  rewrite !Hl by done. apply Z.bits_inj'. intros i Hi. push_bits. rewrite !Z.shiftl_spec by lia.
  destruct (Z.lt_ge_cases i (Z.of_nat w)).
  - rewrite !(Z.testbit_neg_r _ (i - _)) by lia. by rewrite !orb_false_r.
  - rewrite Z.land_spec.
    by rewrite (bits_high (Z.of_nat w) a), (bits_high (Z.of_nat w) c).
Qed.

Definition fits (b : Z) (l : list Z) : Prop := Forall (fun x => 0 <= x <= b)%Z l.

Lemma ev_bound w b l :
  fits b l -> (b < 2 ^ Z.of_nat w)%Z -> (0 <= ev w l < 2 ^ Z.of_nat (w * length l))%Z.
Proof.
  intros Hl Hb. induction Hl as [|x l Hx Hl IH]; [rewrite Nat.mul_0_r; cbn; lia|].
  cbn [ev length]. replace (Z.of_nat (w * S (length l)))
    with (Z.of_nat w + Z.of_nat (w * length l))%Z by lia.
  rewrite Z.pow_add_r by lia. nia.
Qed.

Lemma fits_psum b l : fits b l -> fits (2 * b) (psum l).
Proof.
  intros Hl. unfold fits. assert (forall n l, length l <= n -> fits b l -> Forall (fun x => 0 <= x <= 2 * b)%Z (psum l)) as H.
  { clear. intros n. induction n as [|n IH]; intros [|x [|y l]] Hn Hl; cbn in *; try lia; try constructor.
    - inversion_clear Hl as [|? ? Hx Hl']. inversion_clear Hl' as [|? ? Hy Hl]. lia.
    - apply IH; [lia|]. inversion_clear Hl as [|? ? Hx Hl']. by inversion_clear Hl'. }
  by apply (H (length l)).
Qed.

Lemma land_shift_mask w b E M :
  (0 <= b < 2 ^ Z.of_nat w)%Z ->
  ((b + 2 ^ Z.of_nat w * E) &&& (2 ^ Z.of_nat w - 1 + 2 ^ Z.of_nat (2 * w) * M)
   = b + 2 ^ Z.of_nat (2 * w) * ((E >>> w) &&& M))%Z.
Proof.
  intros Hb. assert (0 < 2 ^ Z.of_nat w)%Z by (apply Z.pow_pos_nonneg; lia).
  unfold wshr. rewrite Z.shiftr_div_pow2 by lia. set (p := (2 ^ Z.of_nat w)%Z) in *.
  assert (2 ^ Z.of_nat (2 * w) = p * p)%Z as -> by
    (unfold p; rewrite <- Z.pow_add_r by lia; f_equal; lia).
  rewrite (Z.div_mod E p) at 1 by lia. pose proof (Z.mod_pos_bound E p ltac:(lia)).
  replace (b + p * (p * (E / p) + E mod p))%Z
    with (b + p * (E mod p + p * (E / p)))%Z by ring.
  replace (p - 1 + p * p * M)%Z with (p - 1 + p * (0 + p * M))%Z by ring.
  assert (b &&& (p - 1) = b)%Z as Hm.
  { unfold p. replace (2 ^ Z.of_nat w - 1)%Z with (Z.ones (Z.of_nat w))
      by (rewrite Z.ones_equiv; lia). rewrite Z.land_ones, Z.mod_small by lia. done. }
  unfold p in *. rewrite land_split by lia. rewrite land_split by lia.
  rewrite Z.land_0_r, Hm. ring.
Qed.

Lemma wshr_field w x E : (0 <= x < 2 ^ Z.of_nat w)%Z -> ((x + 2 ^ Z.of_nat w * E) >>> w = E)%Z.
Proof.
  intros Hx. unfold wshr. rewrite Z.shiftr_div_pow2 by lia.
  rewrite (Z.mul_comm _ E), Z.div_add, Z.div_small by lia. done.
Qed.

(** One parallel addition: adjacent fields of [w] bits are summed into fields of
    [2w] bits. *)
Lemma swar_step w n b l :
  length l = 2 * n -> fits b l -> (b < 2 ^ Z.of_nat w)%Z ->
  ((ev w l &&& msk w n) + ((ev w l >>> w) &&& msk w n) = ev (2 * w) (psum l))%Z.
Proof.
  intros Hlen Hl Hb. revert l Hlen Hl.
  induction n as [|n IH]; intros l Hlen Hl.
  { destruct l; [|done]. cbn. by rewrite !Z.land_0_r. }
  destruct l as [|x [|y l]]; cbn in Hlen; try lia.
  inversion_clear Hl as [|? ? Hx Hl']. inversion_clear Hl' as [|? ? Hy Hl].
  specialize (IH l ltac:(lia) Hl). cbn [ev psum msk].
  assert (0 < 2 ^ Z.of_nat w)%Z by (apply Z.pow_pos_nonneg; lia).
  rewrite (wshr_field w x) by lia. rewrite !land_shift_mask by lia.
  rewrite <- IH, (wshr_field w y) by lia.
  ring.
Qed.

Lemma length_psum l n : length l = 2 * n -> length (psum l) = n.
Proof.
  revert l. induction n as [|n IH]; intros [|x [|y l]]; cbn; intros; try lia.
  f_equal. apply IH. lia.
Qed.

Definition zsum (l : list Z) : Z := foldr Z.add 0%Z l.

Lemma zsum_psum l n : length l = 2 * n -> zsum (psum l) = zsum l.
Proof.
  revert l. induction n as [|n IH]; intros [|x [|y l]]; cbn; intros; try lia.
  specialize (IH l ltac:(lia)). unfold zsum in *. lia.
Qed.

(** The bits of a word. *)
Definition bits_of (x : Z) (n : nat) : list Z := map (fun i => Z.b2z (Z.testbit x (Z.of_nat i))) (seq 0 n).

Lemma ev_bits_of n x : (0 <= x < 2 ^ Z.of_nat n)%Z -> ev 1 (bits_of x n) = x.
Proof.
  revert x. induction n as [|n IH]; intros x Hx; [cbn in *; lia|].
  unfold bits_of. cbn [seq map ev]. rewrite <- seq_shift, map_map.
  transitivity (Z.b2z (Z.testbit x 0) + 2 * ev 1 (bits_of (x / 2) n))%Z.
  - f_equal. change (2 ^ Z.of_nat 1)%Z with 2%Z. f_equal. f_equal. unfold bits_of. apply map_ext.
    intros i. f_equal. rewrite Nat2Z.inj_succ, Z.div2_bits by lia.
    f_equal.
  - rewrite IH.
    + rewrite Z.bit0_mod, (Z.add_comm _ (2 * _)), <- Z.div_mod by lia. done.
    + rewrite Nat2Z.inj_succ, Z.pow_succ_r in Hx by lia.
      split; [apply Z.div_pos; lia|apply Z.div_lt_upper_bound; lia].
Qed.

Lemma zsum_bits_of n x : zsum (bits_of x n) = cnt n (fun i => Z.testbit x (Z.of_nat i)).
Proof.
  unfold bits_of. induction n as [|n IH]; [done|].
  rewrite seq_S, map_app. cbn [map cnt]. rewrite <- IH. unfold zsum. rewrite foldr_app. cbn.
  generalize (map (fun i => Z.b2z (Z.testbit x (Z.of_nat i))) (seq 0 n)) as l.
  generalize (Z.b2z (Z.testbit x (Z.of_nat n))) as c.
  intros c l. induction l as [|y l IHl]; cbn; lia.
Qed.

Lemma fits_bits_of x n : fits 1 (bits_of x n).
Proof.
  unfold fits, bits_of. apply List.Forall_forall. intros y Hy.
  apply in_map_iff in Hy as [i [<- _]]. destruct (Z.testbit x _); cbn; lia.
Qed.

(** [Kit_WordCountOnes] is the number of bits set. *)
Lemma WordCountOnes_spec x :
  is_word x -> Kit_WordCountOnes x = cnt 32 (fun b => Z.testbit x (Z.of_nat b)).
Proof.
  intros Hx. rewrite <- zsum_bits_of. pose proof (fits_bits_of x 32) as F0.
  rewrite <- (ev_bits_of 32 x) at 1 by done.
  assert (length (bits_of x 32) = 32) as L0 by (unfold bits_of; by rewrite length_map, length_seq).
  generalize dependent (bits_of x 32). clear x Hx. intros l0 F0 L0.
  unfold Kit_WordCountOnes.
  assert (forall w n b l, length l = 2 * n -> fits b l -> (2 * b < 2 ^ Z.of_nat w * 2 ^ Z.of_nat w)%Z ->
    (b < 2 ^ Z.of_nat w)%Z -> 2 * w * n = 32 ->
    wadd (ev w l &&& msk w n) ((ev w l >>> w) &&& msk w n) = ev (2 * w) (psum l)) as Hs.
  { intros w n b l Hl Hf Hb2 Hb Hw. unfold wadd. rewrite (swar_step w n b) by done.
    apply Z.mod_small. pose proof (ev_bound (2 * w) (2 * b) (psum l) (fits_psum _ _ Hf)) as E.
    rewrite (length_psum _ n), Hw in E by done. apply E.
    replace (Z.of_nat (2 * w)) with (Z.of_nat w + Z.of_nat w)%Z by lia. rewrite Z.pow_add_r by lia. done. }
  change 0x55555555%Z with (msk 1 16). change 0x33333333%Z with (msk 2 8).
  change 0x0F0F0F0F%Z with (msk 4 4). change 0x00FF00FF%Z with (msk 8 2).
  change 0x0000FFFF%Z with (msk 16 1).
  rewrite (Hs 1 16 1%Z) by done. set (l1 := psum l0).
  assert (length l1 = 16) as L1 by by apply length_psum.
  pose proof (fits_psum _ _ F0 : fits 2 l1) as F1.
  rewrite (Hs 2 8 2%Z) by done. set (l2 := psum l1).
  assert (length l2 = 8) as L2 by by apply length_psum.
  pose proof (fits_psum _ _ F1 : fits 4 l2) as F2.
  rewrite (Hs 4 4 4%Z) by done. set (l3 := psum l2).
  assert (length l3 = 4) as L3 by by apply length_psum.
  pose proof (fits_psum _ _ F2 : fits 8 l3) as F3.
  rewrite (Hs 8 2 8%Z) by done. set (l4 := psum l3).
  assert (length l4 = 2) as L4 by by apply length_psum.
  pose proof (fits_psum _ _ F3 : fits 16 l4) as F4.
  replace (zsum l0) with (zsum l4) by
    (unfold l4, l3, l2, l1; rewrite (zsum_psum _ 2), (zsum_psum _ 4), (zsum_psum _ 8), (zsum_psum _ 16); done).
  destruct l4 as [|a [|b [|c l4]]]; cbn in L4; try lia. clear -F4.
  inversion_clear F4 as [|? ? Ha F5]. inversion_clear F5 as [|? ? Hb _].
  assert (ev (2 * 8) [a; b] = a + 2 ^ Z.of_nat 16 * b)%Z as -> by (cbn [ev]; lia).
  assert (msk 16 1 = Z.ones 16) as -> by done.
  rewrite wshr_field, Z.land_ones by lia. change (2 ^ Z.of_nat 16)%Z with (2 ^ 16)%Z.
  rewrite (Z.mul_comm _ b), Z.mod_add, Z.mod_small by lia.
  unfold wadd. rewrite Z.mod_small by lia. cbn. lia.
Qed.

(** ** Finding bits *)

Lemma testbit_pow b j : b < 32 -> Z.testbit (1 <<< b) (Z.of_nat j) = (j =? b).
Proof.
  intros Hb. rewrite testbit_wshl by lia. change 1%Z with (2 ^ 0)%Z.
  rewrite Z.pow2_bits_eqb by lia.
  destruct (Nat.eqb_spec j b), (Z.ltb_spec (Z.of_nat j) 32), (Z.leb_spec (Z.of_nat b) (Z.of_nat j)),
    (Z.eqb_spec 0 (Z.of_nat j - Z.of_nat b)); cbn; lia.
Qed.

(** Masking with [1 << b] tests bit [b]. *)
Lemma mask_bit x b : b < 32 -> (x &&& (1 <<< b) =? 0)%Z = negb (Z.testbit x (Z.of_nat b)).
Proof.
  intros Hb. destruct (Z.testbit x (Z.of_nat b)) eqn:E; cbn.
  - apply Z.eqb_neq. intros H. apply (f_equal (fun z => Z.testbit z (Z.of_nat b))) in H.
    by rewrite Z.land_spec, E, testbit_pow, Nat.eqb_refl, Z.testbit_0_l in H.
  - apply Z.eqb_eq. apply Z.bits_inj'. intros i Hi. rewrite Z.land_spec, Z.testbit_0_l.
    rewrite <- (Z2Nat.id i) by done. rewrite testbit_pow by done.
    destruct (Nat.eqb_spec (Z.to_nat i) b) as [->|]; [by rewrite E|apply andb_false_r].
Qed.

Lemma WordFindFirstBit_Some x r : Kit_WordFindFirstBit x = r -> (0 <= r)%Z ->
  exists b, r = Z.of_nat b /\ b < 32 /\ Z.testbit x (Z.of_nat b) = true /\
    forall j, j < b -> Z.testbit x (Z.of_nat j) = false.
Proof.
  unfold Kit_WordFindFirstBit. destruct (find _ _) as [b|] eqn:E; [|lia]. intros <- _.
  apply find_seq_Some in E as (Hb & Hc & Hm). exists b.
  rewrite mask_bit, negb_involutive in Hc by lia. repeat split; [lia|done|].
  intros j Hj. specialize (Hm j ltac:(lia)). by rewrite mask_bit, negb_involutive in Hm by lia.
Qed.

Lemma WordFindFirstBit_None x : Kit_WordFindFirstBit x = (-1)%Z ->
  forall j, j < 32 -> Z.testbit x (Z.of_nat j) = false.
Proof.
  unfold Kit_WordFindFirstBit. destruct (find _ _) as [b|] eqn:E; [lia|]. intros _ j Hj.
  rewrite find_seq_None in E. specialize (E j ltac:(lia)).
  by rewrite mask_bit, negb_involutive in E.
Qed.

Lemma WordFindFirstBit_range x : (-1 <= Kit_WordFindFirstBit x < 32)%Z.
Proof.
  unfold Kit_WordFindFirstBit. destruct (find _ _) as [b|] eqn:E; [|lia].
  apply find_seq_Some in E. lia.
Qed.

(** ** Powers of two and masks of ones *)

(** [Kit_SuppIsMinBase]: [Supp] is an [int]; [Supp + 1] must not overflow. *)
Definition Kit_SuppIsMinBase (Supp : Z) : bool := ((Supp &&& (Supp + 1)) =? 0)%Z.

(** [sizeof(unsigned)] is 4. *)
Definition Kit_BitWordNum (nBits : nat) : nat :=
  nBits / (8 * 4) + (if 0 <? nBits mod (8 * 4) then 1 else 0).

Lemma land_same_log x y : (0 < x)%Z -> (0 < y)%Z -> Z.log2 x = Z.log2 y -> Z.land x y <> 0%Z.
Proof.
  intros Hx Hy He H. apply (f_equal (fun z => Z.testbit z (Z.log2 x))) in H.
  rewrite Z.land_spec, Z.testbit_0_l, Z.bit_log2, He, Z.bit_log2 in H by done. done.
Qed.

Lemma pow2_land_pred n : (0 <= n)%Z -> Z.land (2 ^ n) (2 ^ n - 1) = 0%Z.
Proof.
  intros Hn. rewrite Z.sub_1_r, <- Z.ones_equiv, Z.land_ones by done. apply Z.mod_same.
  apply Z.pow_nonzero; lia.
Qed.

Lemma land_pred_0 x : (0 < x)%Z -> Z.land x (x - 1) = 0%Z <-> exists k, (0 <= k /\ x = 2 ^ k)%Z.
Proof.
  intros Hx. split.
  - intros H. exists (Z.log2 x). pose proof (Z.log2_nonneg x). split; [done|].
    pose proof (Z.log2_spec x Hx) as Hl. destruct (decide (x = 2 ^ Z.log2 x)%Z) as [|Hn]; [done|].
    exfalso. assert (0 < 2 ^ Z.log2 x)%Z by (apply Z.pow_pos_nonneg; lia).
    apply (land_same_log x (x - 1)); [lia..| |done]. symmetry. apply Z.log2_unique; lia.
  - intros (k & Hk & ->). by apply pow2_land_pred.
Qed.

Lemma land_succ_0 x : (0 <= x)%Z -> Z.land x (x + 1) = 0%Z <-> exists k, (0 <= k /\ x = 2 ^ k - 1)%Z.
Proof.
  intros Hx. split.
  - intros H. destruct (decide (x = 0)%Z) as [->|Hn]; [by exists 0%Z|].
    pose proof (Z.log2_nonneg x). pose proof (Z.log2_spec x ltac:(lia)) as Hl.
    exists (Z.succ (Z.log2 x)). split; [lia|].
    destruct (decide (x = 2 ^ Z.succ (Z.log2 x) - 1)%Z) as [|He]; [done|].
    exfalso. apply (land_same_log x (x + 1)); [lia..| |done]. symmetry. apply Z.log2_unique; lia.
  - intros (k & Hk & ->). rewrite Z.land_comm, Z.sub_add. by apply pow2_land_pred.
Qed.

(** * Properties *)

(** The word routines: the population count is the number of set bits; the first
    set bit is the least one and -1 means none; at most one bit is set exactly when
    the word is 0 or a power of two; the support is the first [k] variables exactly
    when it is [2 ^ k - 1]; masks and word counts of [n] bits. *)
Theorem word_routines_correct (x : Z) (n : nat) :
  is_word x ->
  Kit_WordCountOnes x = cnt 32 (fun b => Z.testbit x (Z.of_nat b)) /\
  (Kit_WordFindFirstBit x = (-1)%Z /\ x = 0%Z \/
   exists b, Kit_WordFindFirstBit x = Z.of_nat b /\ b < 32 /\ Z.testbit x (Z.of_nat b) = true /\
     forall j, j < b -> Z.testbit x (Z.of_nat j) = false) /\
  (Kit_WordHasOneBit x = true <-> x = 0 \/ exists k, 0 <= k /\ x = 2 ^ k)%Z /\
  (Kit_SuppIsMinBase x = true <-> exists k, 0 <= k /\ x = 2 ^ k - 1)%Z /\
  (n < 32 -> Kit_BitMask n = Z.ones (Z.of_nat n)) /\
  (n <= 32 * Kit_BitWordNum n < n + 32).
Proof.
  intros Hx. split; [by apply WordCountOnes_spec|]. split; [|split; [|split; [|split]]].
  - destruct (decide (Kit_WordFindFirstBit x = -1)%Z) as [He|Hn].
    + left. split; [done|]. apply word_ext; auto with words. intros b Hb.
      rewrite Z.testbit_0_l. by apply WordFindFirstBit_None.
    + right. apply WordFindFirstBit_Some; [done|]. pose proof (WordFindFirstBit_range x). lia.
  - unfold Kit_WordHasOneBit. rewrite Z.eqb_eq. destruct (decide (x = 0)%Z) as [->|Hn].
    { split; [by left|done]. }
    destruct Hx. unfold wsub. rewrite Z.mod_small, land_pred_0 by lia. intuition.
  - unfold Kit_SuppIsMinBase. rewrite Z.eqb_eq. apply land_succ_0, Hx.
  - intros Hn. unfold Kit_BitMask. apply word_ext; auto with words.
    + unfold is_word. rewrite Z.ones_equiv. pose proof (Z.pow_lt_mono_r 2 (Z.of_nat n) 32).
      pose proof (Z.pow_pos_nonneg 2 (Z.of_nat n)). lia.
    + intros b Hb. rewrite testbit_wnot, testbit_wshl, Z.testbit_ones_nonneg by lia.
      change 0xFFFFFFFF%Z with (Z.ones 32).
      destruct (Z.ltb_spec (Z.of_nat b) 32), (Z.leb_spec (Z.of_nat n) (Z.of_nat b)),
        (Z.ltb_spec (Z.of_nat b) (Z.of_nat n)); try lia; cbn [andb negb]; try done.
      by rewrite Z.ones_spec_low by lia.
  - unfold Kit_BitWordNum. change (8 * 4) with 32. pose proof (Nat.div_mod_eq n 32).
    pose proof (Nat.mod_upper_bound n 32). destruct (Nat.ltb_spec 0 (n mod 32)); lia.
Qed.

Lemma word_routines_correct_witness :
  Kit_WordCountOnes 0xF0F1 = 9%Z /\ Kit_WordCountOnes 0xF0F1 = cnt 32 (fun b => Z.testbit 0xF0F1 (Z.of_nat b)).
Proof.
  split; [reflexivity|]. apply (word_routines_correct 0xF0F1 5). split; [discriminate|reflexivity].
Defined.
