(* ===== verification/Minterm.v ===== *)
(** Truth tables as Boolean functions of minterms, the index arithmetic of the
    word loops, and the loops over blocks of words that treat one variable.

    A table over [nVars] variables is an array of 32-bit words.  Bit [m mod 32]
    of word [m / 32] is the value at minterm [m], in which variable [i] has the
    value [Nat.testbit m i]. *)
From S2P Require Import Prelude Words.

Definition tbit (t : list Z) (m : nat) : bool := Z.testbit t.[m / 32] (Z.of_nat (m mod 32)).

(** [Kit_TruthWordNum] of [kit.h]. *)
Definition Kit_TruthWordNum (nVars : nat) : nat :=
  if nVars <=? 5 then 1 else 2 ^ (nVars - 5).

(** Number of minterms stored: tables of fewer than 5 variables still fill a word. *)
Definition nmint (nVars : nat) : nat := 2 ^ Nat.max 5 nVars.

(** A table that [nVars] variables can be read from and written to. *)
Definition is_tt (nVars : nat) (t : list Z) : Prop :=
  Kit_TruthWordNum nVars <= length t /\ Forall is_word t.

(** * Index arithmetic *)

Ltac nbits :=
  repeat first
    [ rewrite Nat.clearbit_eqb | rewrite Nat.setbit_eqb | rewrite Nat.div_pow2_bits
    | rewrite Nat.mod_pow2_bits_low by lia | rewrite Nat.mod_pow2_bits_high by lia ].

Ltac eqb_lia :=
  repeat match goal with
  | |- context [?a =? ?b] => destruct (Nat.eqb_spec a b); try lia
  end; cbn [orb andb negb]; rewrite ?andb_true_r, ?andb_false_r, ?orb_false_r; try reflexivity.

Lemma nmint_words nVars : nmint nVars = 32 * Kit_TruthWordNum nVars.
Proof.
  unfold nmint, Kit_TruthWordNum. destruct (Nat.leb_spec nVars 5).
  - by rewrite Nat.max_l by lia.
  - rewrite Nat.max_r by lia. replace nVars with (5 + (nVars - 5)) at 1 by lia.
    by rewrite Nat.pow_add_r.
Qed.

Lemma WordNum_pos nVars : 0 < Kit_TruthWordNum nVars.
Proof.
  unfold Kit_TruthWordNum. destruct (nVars <=? 5); [lia|].
  apply Nat.neq_0_lt_0, Nat.pow_nonzero. lia.
Qed.

Lemma nmint_div nVars m : m < nmint nVars <-> m / 32 < Kit_TruthWordNum nVars.
Proof.
  rewrite nmint_words. split; intros H.
  - apply Nat.Div0.div_lt_upper_bound. lia.
  - pose proof (Nat.div_mod_eq m 32). pose proof (Nat.mod_upper_bound m 32). lia.
Qed.

Lemma mod32 m : m mod 32 < 32.
Proof. by apply Nat.mod_upper_bound. Qed.

Lemma testbit_lo m i : i < 5 -> Nat.testbit m i = Nat.testbit (m mod 32) i.
Proof. intros. change 32 with (2 ^ 5). by rewrite Nat.mod_pow2_bits_low. Qed.

Lemma testbit_hi m i : 5 <= i -> Nat.testbit m i = Nat.testbit (m / 32) (i - 5).
Proof. intros. change 32 with (2 ^ 5). rewrite Nat.div_pow2_bits. f_equal. lia. Qed.

Section change_bit.
(** Facts shared by clearing and setting a bit. *)
Context (f : nat -> nat -> nat) (val : bool).
Context (f_spec : forall m i j, Nat.testbit (f m i) j = if i =? j then val else Nat.testbit m j).

Lemma chg_div_lo m i : i < 5 -> f m i / 32 = m / 32.
Proof.
  intros. apply Nat.bits_inj. intros j. change 32 with (2 ^ 5).
  rewrite !Nat.div_pow2_bits, f_spec. by destruct (Nat.eqb_spec i (j + 5)); [lia|].
Qed.

Lemma chg_mod_lo m i : i < 5 -> f m i mod 32 = f (m mod 32) i.
Proof.
  intros. apply Nat.bits_inj. intros j. change 32 with (2 ^ 5). rewrite f_spec.
  destruct (Nat.lt_ge_cases j 5).
  - rewrite !Nat.mod_pow2_bits_low, f_spec by lia. done.
  - rewrite !Nat.mod_pow2_bits_high by lia. by destruct (Nat.eqb_spec i j); [lia|].
Qed.

Lemma chg_div_hi m i : 5 <= i -> f m i / 32 = f (m / 32) (i - 5).
Proof.
  intros. apply Nat.bits_inj. intros j. change 32 with (2 ^ 5).
  rewrite f_spec, !Nat.div_pow2_bits, f_spec.
  destruct (Nat.eqb_spec i (j + 5)), (Nat.eqb_spec (i - 5) j); done || lia.
Qed.

Lemma chg_mod_hi m i : 5 <= i -> f m i mod 32 = m mod 32.
Proof.
  intros. apply Nat.bits_inj. intros j. change 32 with (2 ^ 5).
  destruct (Nat.lt_ge_cases j 5).
  - rewrite !Nat.mod_pow2_bits_low, f_spec by lia. by destruct (Nat.eqb_spec i j); [lia|].
  - by rewrite !Nat.mod_pow2_bits_high by lia.
Qed.

(** The element of the block of [2 * 2 ^ s] words around [w] whose bit [s] is [val]. *)
Lemma chg_block w s :
  f w s = w / (2 * 2 ^ s) * (2 * 2 ^ s) + (2 ^ s * Nat.b2n val + w mod 2 ^ s).
Proof.
  assert (2 ^ s <> 0) by (apply Nat.pow_nonzero; lia).
  assert (f w s / (2 * 2 ^ s) = w / (2 * 2 ^ s)) as <-.
  { apply Nat.bits_inj. intros j. change (2 * 2 ^ s) with (2 ^ S s).
    rewrite !Nat.div_pow2_bits, f_spec. by destruct (Nat.eqb_spec s (j + S s)); [lia|]. }
  assert (f w s mod 2 ^ s = w mod 2 ^ s) as <-.
  { apply Nat.bits_inj. intros j. destruct (Nat.lt_ge_cases j s).
    - rewrite !Nat.mod_pow2_bits_low, f_spec by lia. by destruct (Nat.eqb_spec s j); [lia|].
    - by rewrite !Nat.mod_pow2_bits_high by lia. }
  assert (Nat.b2n val = (f w s / 2 ^ s) mod 2) as ->.
  { rewrite <- Nat.testbit_spec', f_spec, Nat.eqb_refl. done. }
  rewrite (Nat.div_mod_eq (f w s) (2 * 2 ^ s)) at 1.
  rewrite (Nat.mul_comm 2 (2 ^ s)), Nat.Div0.mod_mul_r. lia.
Qed.
End change_bit.

Lemma clearbit_if m i j : Nat.testbit (Nat.clearbit m i) j = if i =? j then false else Nat.testbit m j.
Proof. nbits. eqb_lia. Qed.
Lemma setbit_if m i j : Nat.testbit (Nat.setbit m i) j = if i =? j then true else Nat.testbit m j.
Proof. nbits. eqb_lia. Qed.

Abbreviation clr_div_lo := (chg_div_lo _ _ clearbit_if).
Abbreviation clr_mod_lo := (chg_mod_lo _ _ clearbit_if).
Abbreviation clr_div_hi := (chg_div_hi _ _ clearbit_if).
Abbreviation clr_mod_hi := (chg_mod_hi _ _ clearbit_if).
Abbreviation set_div_lo := (chg_div_lo _ _ setbit_if).
Abbreviation set_mod_lo := (chg_mod_lo _ _ setbit_if).
Abbreviation set_div_hi := (chg_div_hi _ _ setbit_if).
Abbreviation set_mod_hi := (chg_mod_hi _ _ setbit_if).

Lemma clearbit_block w s : Nat.clearbit w s = w / (2 * 2 ^ s) * (2 * 2 ^ s) + w mod 2 ^ s.
Proof. rewrite (chg_block _ _ clearbit_if). cbn [Nat.b2n]. lia. Qed.

Lemma setbit_block w s : Nat.setbit w s = w / (2 * 2 ^ s) * (2 * 2 ^ s) + 2 ^ s + w mod 2 ^ s.
Proof. rewrite (chg_block _ _ setbit_if). cbn [Nat.b2n]. lia. Qed.

Lemma clearbit_id m i : Nat.testbit m i = false -> Nat.clearbit m i = m.
Proof.
  intros H. apply Nat.bits_inj. intros j. rewrite clearbit_if.
  destruct (Nat.eqb_spec i j); subst; done.
Qed.

Lemma setbit_id m i : Nat.testbit m i = true -> Nat.setbit m i = m.
Proof.
  intros H. apply Nat.bits_inj. intros j. rewrite setbit_if.
  destruct (Nat.eqb_spec i j); subst; done.
Qed.

Lemma bits_lt_pow2 m n : (forall j, n <= j -> Nat.testbit m j = false) -> m < 2 ^ n.
Proof.
  intros H. assert (m mod 2 ^ n = m) as <-.
  { apply Nat.bits_inj. intros j. destruct (Nat.lt_ge_cases j n).
    - by rewrite Nat.mod_pow2_bits_low.
    - by rewrite Nat.mod_pow2_bits_high, H. }
  apply Nat.mod_upper_bound, Nat.pow_nonzero. lia.
Qed.

Lemma testbit_high m n j : m < 2 ^ n -> n <= j -> Nat.testbit m j = false.
Proof. intros Hm Hj. rewrite <- (Nat.mod_small m (2 ^ n)) by done. by apply Nat.mod_pow2_bits_high. Qed.

Lemma clearbit_lt m n i : m < 2 ^ n -> Nat.clearbit m i < 2 ^ n.
Proof.
  intros Hm. apply bits_lt_pow2. intros j Hj. rewrite clearbit_if.
  destruct (i =? j); [done|]. by eapply testbit_high.
Qed.

Lemma setbit_lt m n i : m < 2 ^ n -> i < n -> Nat.setbit m i < 2 ^ n.
Proof.
  intros Hm Hi. apply bits_lt_pow2. intros j Hj. rewrite setbit_if.
  destruct (Nat.eqb_spec i j); [lia|]. by eapply testbit_high.
Qed.

Lemma setbit_clearbit m i : Nat.setbit (Nat.clearbit m i) i = Nat.setbit m i.
Proof. apply Nat.bits_inj. intros j. rewrite !setbit_if, clearbit_if. by destruct (i =? j). Qed.
Lemma clearbit_setbit m i : Nat.clearbit (Nat.setbit m i) i = Nat.clearbit m i.
Proof. apply Nat.bits_inj. intros j. rewrite !clearbit_if, setbit_if. by destruct (i =? j). Qed.

(** [k & (1 << i)] tests bit [i]. *)
Lemma land_pow2 k i : (Nat.land k (2 ^ i) =? 0) = negb (Nat.testbit k i).
Proof.
  destruct (Nat.testbit k i) eqn:E; cbn [negb].
  - apply Nat.eqb_neq. intros H. apply (f_equal (fun z => Nat.testbit z i)) in H.
    by rewrite Nat.land_spec, E, Nat.pow2_bits_true, Nat.bits_0 in H.
  - apply Nat.eqb_eq, Nat.bits_inj. intros j. rewrite Nat.land_spec, Nat.bits_0, Nat.pow2_bits_eqb.
    destruct (Nat.eqb_spec i j) as [<-|]; [by rewrite E|apply andb_false_r].
Qed.

(** * The two shapes of the word loops *)

(** Loops whose iteration [i] rewrites word [i]. *)
Section map_loop.
Context (n L : nat) (body : nat -> list Z -> list Z).
Context (Hlen : forall i p, length (body i p) = length p).
Context (Hframe : forall i p j, i < n -> j <> i -> (body i p).[j] = p.[j]).
Context (Hlocal : forall i p q, i < n -> length p = L -> length q = L ->
  p.[i] = q.[i] -> (body i p).[i] = (body i q).[i]).

Lemma length_map_loop p : length (for_up n body p) = length p.
Proof. by apply (length_for_up_own n). Qed.

Lemma rd_map_loop p j :
  length p = L -> (for_up n body p).[j] = if decide (j < n) then (body j p).[j] else p.[j].
Proof.
  intros HL. apply (rd_for_up_own (fun j => j) n L body); [done| | |done].
  - intros i q k Hi _ Hk. by apply Hframe.
  - intros i p0 q0 j0 Hi Hp Hq He Hj. subst j0. apply Hlocal; auto.
Qed.
End map_loop.

(** Positions in blocks of [2 * 2 ^ s] words. *)
Lemma block_div s b i : i < 2 ^ s ->
  (b * (2 * 2 ^ s) + i) / (2 * 2 ^ s) = b /\ (b * (2 * 2 ^ s) + 2 ^ s + i) / (2 * 2 ^ s) = b.
Proof.
  intros Hi. rewrite <- Nat.add_assoc, !(Nat.add_comm (b * _)), !Nat.div_add, !Nat.div_small by lia. lia.
Qed.

Lemma block_mod s b i : i < 2 ^ s ->
  (b * (2 * 2 ^ s) + i) mod 2 ^ s = i /\ (b * (2 * 2 ^ s) + 2 ^ s + i) mod 2 ^ s = i.
Proof.
  intros Hi. rewrite Nat.mul_assoc. split.
  - by rewrite Nat.add_comm, Nat.Div0.mod_add, Nat.mod_small.
  - replace (b * 2 * 2 ^ s + 2 ^ s + i) with (i + (b * 2 + 1) * 2 ^ s) by lia.
    by rewrite Nat.Div0.mod_add, Nat.mod_small.
Qed.

Lemma block_cases w s :
  w = w / (2 * 2 ^ s) * (2 * 2 ^ s) + w mod 2 ^ s \/
  w = w / (2 * 2 ^ s) * (2 * 2 ^ s) + 2 ^ s + w mod 2 ^ s.
Proof.
  rewrite <- clearbit_block, <- setbit_block. destruct (Nat.testbit w s) eqn:E.
  - right. by rewrite setbit_id.
  - left. by rewrite clearbit_id.
Qed.

(** Number of blocks. *)
Lemma pair_loop_count n s :
  (exists c, n = c * (2 * 2 ^ s)) -> (n + 2 * 2 ^ s - 1) / (2 * 2 ^ s) * (2 * 2 ^ s) = n.
Proof.
  intros [c ->]. assert (2 ^ s <> 0) by (apply Nat.pow_nonzero; lia).
  replace (c * (2 * 2 ^ s) + 2 * 2 ^ s - 1) with (2 * 2 ^ s - 1 + c * (2 * 2 ^ s)) by lia.
  rewrite Nat.div_add by lia. rewrite Nat.div_small by lia. done.
Qed.

(** Loops over blocks of [2 * 2 ^ s] words whose iteration [(k, i)] rewrites the
    words [k + i] and [k + 2 ^ s + i], which differ in bit [s] of their index. *)
Section pair_loop.
Context (n L s : nat) (B : nat -> nat -> list Z -> list Z).
Context (Hlen : forall k i p, length (B k i p) = length p).
Context (Hframe : forall k i p j, j <> k + i -> j <> k + 2 ^ s + i -> (B k i p).[j] = p.[j]).
Context (Hlocal : forall k i p q j, k + 2 ^ s + i < n -> length p = L -> length q = L ->
  p.[k + i] = q.[k + i] -> p.[k + 2 ^ s + i] = q.[k + 2 ^ s + i] ->
  j = k + i \/ j = k + 2 ^ s + i -> (B k i p).[j] = (B k i q).[j]).

Definition pair_loop (p : list Z) : list Z :=
  for_step n (2 * 2 ^ s) (fun k p => for_up (2 ^ s) (fun i p => B k i p) p) p.

Lemma length_pair_loop p : length (pair_loop p) = length p.
Proof.
  apply (for_up_ind (fun _ t => length t = length p)); [done|]. intros k t _ Ht.
  apply (for_up_ind (fun _ t' => length t' = length p)); [done|]. intros i t' _ Ht'.
  by rewrite Hlen.
Qed.

Context (Hn : exists c, n = c * (2 * 2 ^ s)).

Lemma pair_loop_inner b p j :
  length p = L -> b * (2 * 2 ^ s) + 2 * 2 ^ s <= n ->
  (for_up (2 ^ s) (fun i p => B (b * (2 * 2 ^ s)) i p) p).[j] =
    if decide (j / (2 * 2 ^ s) = b) then (B (b * (2 * 2 ^ s)) (j mod 2 ^ s) p).[j] else p.[j].
Proof.
  intros HL Hb. assert (2 ^ s <> 0) as Hs by (apply Nat.pow_nonzero; lia).
  rewrite (rd_for_up_own (fun j => j mod 2 ^ s) (2 ^ s) L); [| | | |done].
  - assert (j mod 2 ^ s < 2 ^ s) as Hm by (by apply Nat.mod_upper_bound).
    rewrite decide_True by done. case_decide as Hd; [done|].
    destruct (block_div s b _ Hm) as [H1 H2]. apply Hframe; intros Hj; rewrite Hj in Hd; tauto.
  - intros i q. apply Hlen.
  - intros i q j0 Hi Hq Hne. destruct (block_mod s b _ Hi) as [H1 H2].
    apply Hframe; intros ->; tauto.
  - intros i q q' j0 Hi Hq Hq' He Hj0. destruct (block_mod s b _ Hi) as [H1 H2].
    set (k := b * (2 * 2 ^ s)) in *.
    destruct (decide (j0 = k + i \/ j0 = k + 2 ^ s + i)) as [Hd|Hd].
    + apply Hlocal; auto; lia.
    + rewrite !Hframe by tauto. by apply He.
Qed.

Lemma rd_pair_loop p w :
  length p = L -> w < n -> exists k i,
    i < 2 ^ s /\ k + i = Nat.clearbit w s /\ k + 2 ^ s + i = Nat.setbit w s /\
    k + 2 ^ s + i < n /\ (pair_loop p).[w] = (B k i p).[w].
Proof.
  intros HL Hw. assert (2 ^ s <> 0) as Hs by (apply Nat.pow_nonzero; lia).
  pose proof (pair_loop_count n s Hn) as Hcnt. set (c := (n + 2 * 2 ^ s - 1) / (2 * 2 ^ s)) in Hcnt.
  assert (w / (2 * 2 ^ s) < c) as Hwc by (apply Nat.Div0.div_lt_upper_bound; lia).
  assert (w mod 2 ^ s < 2 ^ s) as Hm by (by apply Nat.mod_upper_bound).
  assert (forall b, b < c -> b * (2 * 2 ^ s) + 2 * 2 ^ s <= n) as Hb by (intros; nia).
  exists (w / (2 * 2 ^ s) * (2 * 2 ^ s)), (w mod 2 ^ s).
  rewrite <- clearbit_block, <- setbit_block. split; [done|]. split; [done|]. split; [done|].
  split; [rewrite setbit_block; specialize (Hb _ Hwc); lia|].
  unfold pair_loop, for_step. fold c.
  rewrite (rd_for_up_own (fun j => j / (2 * 2 ^ s)) c L); [| | | |done].
  - rewrite decide_True, pair_loop_inner, decide_True; auto.
  - intros i q. apply (for_up_ind (fun _ t => length t = length q)); [done|].
    intros i' t _ Ht. by rewrite Hlen.
  - intros i q j Hi Hq Hne. rewrite pair_loop_inner, decide_False; auto.
  - intros i q q' j Hi Hq Hq' He Hj. rewrite !pair_loop_inner, !decide_True by auto.
    destruct (block_div s i (j mod 2 ^ s)) as [H1 H2]; [by apply Nat.mod_upper_bound|].
    apply Hlocal; auto.
    + specialize (Hb _ Hi). pose proof (Nat.mod_upper_bound j (2 ^ s) Hs). lia.
    + subst i. apply block_cases.
Qed.
End pair_loop.

(** The same counted down. *)
Lemma rd_map_down n L (body : nat -> list Z -> list Z) p j :
  (forall i p, length (body i p) = length p) ->
  (forall i p j, i < n -> j <> i -> (body i p).[j] = p.[j]) ->
  (forall i p q, i < n -> length p = L -> length q = L -> p.[i] = q.[i] -> (body i p).[i] = (body i q).[i]) ->
  length p = L -> (for_down n body p).[j] = if decide (j < n) then (body j p).[j] else p.[j].
Proof.
  intros Hlen Hframe Hlocal HL. rewrite for_down_up.
  assert (forall i, i < n -> n - 1 - (n - 1 - i) = i) as Hi by lia.
  rewrite (rd_for_up_own (fun j => if decide (j < n) then n - 1 - j else j) n L); [| | | |done].
  - destruct (decide (j < n)); [rewrite decide_True, Hi by lia|rewrite decide_False by lia]; done.
  - done.
  - intros i q k Hin Hq Hk. apply Hframe; [lia|]. intros ->. rewrite decide_True in Hk; lia.
  - intros i q q' k Hin Hq Hq' He Hk. case_decide; [|lia].
    assert (n - 1 - i = k) as -> by lia. apply Hlocal; auto; [lia..|].
    apply He. rewrite decide_True by done. lia.
Qed.

Lemma length_for_down n (body : nat -> list Z -> list Z) p :
  (forall i p, length (body i p) = length p) -> length (for_down n body p) = length p.
Proof.
  intros H. rewrite for_down_up. apply (for_up_ind (fun _ t => length t = length p)); [done|].
  intros i s _ Hs. by rewrite H.
Qed.

(** * Well-formed tables *)

Lemma Forall_rd P t : P 0%Z -> Forall P t <-> forall i, P t.[i].
Proof.
  intros H0. rewrite Forall_lookup. split.
  - intros H i. rewrite rd_lookup. destruct (t !! i) eqn:E; [by eapply H|done].
  - intros H i x E. specialize (H i). by rewrite rd_lookup, E in H.
Qed.

Lemma word_rd t i : Forall is_word t -> is_word t.[i].
Proof. intros H. rewrite Forall_rd in H by apply word_0. done. Qed.
#[export] Hint Resolve word_rd : words.

Lemma words_rd t : (forall i, is_word t.[i]) -> Forall is_word t.
Proof. apply Forall_rd, word_0. Qed.

Lemma words_wr t i x : Forall is_word t -> is_word x -> Forall is_word (wr t i x).
Proof. intros Ht Hx. apply words_rd. intros j. rewrite rd_wr. case_decide; auto with words. Qed.
#[export] Hint Resolve words_wr : words.

Lemma tt_length nVars t : is_tt nVars t -> Kit_TruthWordNum nVars <= length t.
Proof. by intros [? ?]. Qed.
Lemma tt_words nVars t : is_tt nVars t -> Forall is_word t.
Proof. by intros [? ?]. Qed.
#[export] Hint Resolve tt_length : words.
#[export] Hint Extern 2 (Forall is_word ?t) =>
  match goal with H : is_tt _ t |- _ => exact (tt_words _ _ H) end : words.

(** Two tables are equal on the minterms exactly when their words are. *)
Lemma tbit_words nVars t u :
  is_tt nVars t -> is_tt nVars u ->
  (forall m, m < nmint nVars -> tbit t m = tbit u m) <->
  (forall w, w < Kit_TruthWordNum nVars -> t.[w] = u.[w]).
Proof.
  intros [_ Ht] [_ Hu]. split; intros H.
  - intros w Hw. apply word_ext; auto with words. intros b Hb.
    specialize (H (w * 32 + b)). unfold tbit in H.
    rewrite nmint_div, Nat.div_add_l, Nat.div_small, Nat.add_0_r in H by lia.
    rewrite Nat.add_comm, Nat.Div0.mod_add, Nat.mod_small in H by lia. by apply H.
  - intros m Hm. unfold tbit. rewrite H; [done|]. by apply nmint_div.
Qed.

Lemma tt_ext nVars t u :
  is_tt nVars t -> is_tt nVars u -> length t = Kit_TruthWordNum nVars ->
  length u = Kit_TruthWordNum nVars ->
  (forall m, m < nmint nVars -> tbit t m = tbit u m) -> t = u.
Proof.
  intros Ht Hu Lt Lu H. apply list_eq_rd; [congruence|]. intros i Hi.
  rewrite (tbit_words nVars) in H by done. apply H. lia.
Qed.
