(* ===== verification/Relabel.v ===== *)
(** Minterms under permutations of the variables. *)
From S2P Require Import Prelude Words Minterm.

(** [ren n f m]: the minterm whose variable [i < n] has the value of variable [f i] of [m]. *)
Fixpoint ren (n : nat) (f : nat -> nat) (m : nat) : nat :=
  match n with
  | O => 0
  | S n => ren n f m + Nat.b2n (Nat.testbit m (f n)) * 2 ^ n
  end.

Lemma ren_lt n f m : ren n f m < 2 ^ n.
Proof.
  induction n as [|n IH]; [cbn; lia|]. cbn [ren]. rewrite Nat.pow_succ_r'.
  destruct (Nat.testbit m (f n)); cbn [Nat.b2n]; lia.
Qed.

Lemma testbit_add_pow a b n i :
  a < 2 ^ n -> Nat.testbit (a + Nat.b2n b * 2 ^ n) i =
    if i <? n then Nat.testbit a i else (i =? n) && b.
Proof.
  intros Ha. destruct (Nat.ltb_spec i n).
  - rewrite <- (Nat.mod_pow2_bits_low (a + _) n i) by done.
    rewrite Nat.Div0.mod_add, Nat.mod_small by done. done.
  - replace i with (i - n + n) at 1 by lia. rewrite <- Nat.div_pow2_bits.
    rewrite Nat.div_add, Nat.div_small by (done || (apply Nat.pow_nonzero; lia)).
    rewrite Nat.add_0_l. destruct (Nat.eqb_spec i n) as [->|].
    + rewrite Nat.sub_diag. by destruct b.
    + destruct (i - n) as [|k] eqn:E; [lia|]. destruct b; [|apply Nat.bits_0].
      change (Nat.testbit 0 k = false). apply Nat.bits_0.
Qed.

Lemma testbit_ren n f m i : Nat.testbit (ren n f m) i = (i <? n) && Nat.testbit m (f i).
Proof.
  revert i. induction n as [|n IH]; intros i; [apply Nat.bits_0|]. cbn [ren].
  rewrite testbit_add_pow by apply ren_lt. rewrite IH.
  destruct (Nat.ltb_spec i n), (Nat.ltb_spec i (S n)), (Nat.eqb_spec i n); subst; try lia; done.
Qed.

Lemma bits_eq n a b :
  a < 2 ^ n -> b < 2 ^ n -> (forall i, i < n -> Nat.testbit a i = Nat.testbit b i) -> a = b.
Proof.
  intros Ha Hb H. apply Nat.bits_inj. intros i. destruct (Nat.lt_ge_cases i n); [auto|].
  by rewrite !(testbit_high _ n).
Qed.

Lemma ren_ext n f g m : (forall i, i < n -> f i = g i) -> ren n f m = ren n g m.
Proof.
  intros H. apply (bits_eq n); [apply ren_lt..|]. intros i Hi. by rewrite !testbit_ren, H.
Qed.

Lemma ren_comp n f g m : (forall i, i < n -> f i < n) -> ren n f (ren n g m) = ren n (fun i => g (f i)) m.
Proof.
  intros H. apply (bits_eq n); [apply ren_lt..|]. intros i Hi. rewrite !testbit_ren.
  by rewrite (proj2 (Nat.ltb_lt (f i) n)) by auto.
Qed.

Lemma ren_id n m : m < 2 ^ n -> ren n (fun i => i) m = m.
Proof.
  intros H. apply (bits_eq n); [apply ren_lt|done|]. intros i Hi. rewrite testbit_ren.
  by rewrite (proj2 (Nat.ltb_lt i n)).
Qed.

(** * Neighbours *)

(** Exchange of [v] and [v + 1]. *)
Definition tr (v i : nat) : nat := if i =? v then S v else if i =? S v then v else i.

Lemma tr_tr v i : tr v (tr v i) = i.
Proof.
  unfold tr. destruct (Nat.eqb_spec i v); subst.
  - rewrite Nat.eqb_refl. by destruct (Nat.eqb_spec (S v) v); [lia|].
  - destruct (Nat.eqb_spec i (S v)); subst; [by rewrite Nat.eqb_refl|].
    by destruct (Nat.eqb_spec i v), (Nat.eqb_spec i (S v)).
Qed.

Lemma tr_lt v n i : S v < n -> i < n -> tr v i < n.
Proof. unfold tr. destruct (i =? v), (i =? S v); lia. Qed.

Lemma tr_below v i : i < v -> tr v i = i.
Proof. unfold tr. destruct (Nat.eqb_spec i v), (Nat.eqb_spec i (S v)); lia. Qed.
Lemma tr_above v i : S v < i -> tr v i = i.
Proof. unfold tr. destruct (Nat.eqb_spec i v), (Nat.eqb_spec i (S v)); lia. Qed.
Lemma tr_l v : tr v v = S v.
Proof. unfold tr. by rewrite Nat.eqb_refl. Qed.
Lemma tr_r v : tr v (S v) = v.
Proof. unfold tr. rewrite Nat.eqb_refl. by destruct (Nat.eqb_spec (S v) v); [lia|]. Qed.

(** The minterm with variables [v] and [v + 1] exchanged. *)
Definition swp (m v : nat) : nat :=
  match Nat.testbit m v, Nat.testbit m (S v) with
  | true, false => Nat.setbit (Nat.clearbit m v) (S v)
  | false, true => Nat.clearbit (Nat.setbit m v) (S v)
  | _, _ => m
  end.

Lemma swp_spec m v i : Nat.testbit (swp m v) i = Nat.testbit m (tr v i).
Proof.
  unfold swp, tr. destruct (Nat.testbit m v) eqn:E0, (Nat.testbit m (S v)) eqn:E1;
    rewrite ?setbit_if, ?clearbit_if, ?setbit_if;
    destruct (Nat.eqb_spec i v), (Nat.eqb_spec i (S v)), (Nat.eqb_spec v i), (Nat.eqb_spec (S v) i);
    subst; try lia; congruence.
Qed.

Lemma swp_lt m v n : m < 2 ^ n -> S v < n -> swp m v < 2 ^ n.
Proof.
  intros Hm Hv. apply bits_lt_pow2. intros j Hj. rewrite swp_spec, tr_above by lia.
  by apply (testbit_high m n).
Qed.

Lemma swp_ren m v n : m < 2 ^ n -> S v < n -> swp m v = ren n (tr v) m.
Proof.
  intros Hm Hv. apply (bits_eq n); [by apply swp_lt|apply ren_lt|]. intros i Hi.
  by rewrite swp_spec, testbit_ren, (proj2 (Nat.ltb_lt i n)).
Qed.

Lemma swp_ren_comp n v f m :
  S v < n -> (forall i, i < n -> f i < n) -> ren n f (swp m v) = ren n (fun i => tr v (f i)) m.
Proof.
  intros Hv Hf. apply (bits_eq n); [apply ren_lt..|]. intros i Hi.
  by rewrite !testbit_ren, swp_spec.
Qed.

(** Parts of the exchange inside and across words. *)
Lemma swp_div_lo m v : v < 4 -> swp m v / 32 = m / 32.
Proof.
  intros. apply Nat.bits_inj. intros j. change 32 with (2 ^ 5).
  rewrite !Nat.div_pow2_bits, swp_spec, tr_above by lia. done.
Qed.

Lemma swp_mod_lo m v : v < 4 -> swp m v mod 32 = swp (m mod 32) v.
Proof.
  intros. apply (bits_eq 5); [apply mod32| |].
  - apply swp_lt; [apply mod32|lia].
  - intros i Hi. change 32 with (2 ^ 5). rewrite Nat.mod_pow2_bits_low by lia.
    rewrite !swp_spec, Nat.mod_pow2_bits_low; [done|]. apply tr_lt; lia.
Qed.

Lemma swp_div_hi m v : 4 < v -> swp m v / 32 = swp (m / 32) (v - 5).
Proof.
  intros. apply Nat.bits_inj. intros j. change 32 with (2 ^ 5).
  rewrite Nat.div_pow2_bits, !swp_spec, Nat.div_pow2_bits. f_equal. unfold tr.
  destruct (Nat.eqb_spec (j + 5) v), (Nat.eqb_spec (j + 5) (S v)),
    (Nat.eqb_spec j (v - 5)), (Nat.eqb_spec j (S (v - 5))); try lia; congruence.
Qed.

Lemma swp_mod_hi m v : 4 < v -> swp m v mod 32 = m mod 32.
Proof.
  intros. apply (bits_eq 5); [apply mod32..|].
  intros i Hi. change 32 with (2 ^ 5). rewrite !Nat.mod_pow2_bits_low by lia.
  by rewrite swp_spec, tr_below by lia.
Qed.

(** Words in blocks of four: the exchange of the two middle quarters. *)
Lemma swp_quarter b c s i :
  i < 2 ^ s -> c < 4 ->
  swp (b * (4 * 2 ^ s) + c * 2 ^ s + i) s
  = b * (4 * 2 ^ s) + nth c [0; 2; 1; 3] 0 * 2 ^ s + i.
Proof.
  intros Hi Hc. set (j := b * (4 * 2 ^ s) + c * 2 ^ s + i).
  assert (2 ^ s <> 0) as Hs by (apply Nat.pow_nonzero; lia).
  assert (Nat.testbit j s = Nat.testbit c 0 /\ Nat.testbit j (S s) = Nat.testbit c 1) as [H0 H1].
  { assert (j / 2 ^ s = b * 4 + c) as Hj.
    { unfold j. replace (b * (4 * 2 ^ s) + c * 2 ^ s + i) with (i + (b * 4 + c) * 2 ^ s) by lia.
      rewrite Nat.div_add, Nat.div_small by done. done. }
    rewrite <- (Nat.add_0_l s) at 1. change (S s) with (1 + s). rewrite <- !Nat.div_pow2_bits, Hj.
    replace (b * 4 + c) with (c + b * 2 ^ 2) by (cbn; lia).
    rewrite <- !(Nat.mod_pow2_bits_low (c + b * 2 ^ 2) 2) by lia.
    rewrite Nat.Div0.mod_add, Nat.mod_small by (cbn; lia). done. }
  assert (forall x s, Nat.testbit x s = true -> Nat.clearbit x s + 2 ^ s = x) as Hc1.
  { intros x s' Hx. rewrite <- (setbit_id x s') at 2 by done. rewrite clearbit_block, setbit_block. lia. }
  assert (forall x s, Nat.testbit x s = false -> Nat.setbit x s = x + 2 ^ s) as Hs1.
  { intros x s' Hx. rewrite <- (clearbit_id x s') at 2 by done. rewrite clearbit_block, setbit_block. lia. }
  assert (2 ^ S s = 2 * 2 ^ s) as Hp by apply Nat.pow_succ_r'.
  unfold swp. rewrite H0, H1.
  destruct c as [|[|[|[|c]]]]; [| | | |lia]; cbn [Nat.testbit Nat.odd Nat.even negb Nat.div2 nth] in *.
  - unfold j. lia.
  - rewrite Hs1 by (rewrite clearbit_if; destruct (Nat.eqb_spec s (S s)); [lia|]; done).
    specialize (Hc1 j s H0). unfold j in *. lia.
  - pose proof (Hs1 j s H0) as E.
    specialize (Hc1 (Nat.setbit j s) (S s)). rewrite setbit_if in Hc1.
    destruct (Nat.eqb_spec s (S s)); [lia|]. specialize (Hc1 H1). unfold j in *. lia.
  - unfold j. lia.
Qed.
