(* ===== verification/Bubble.v ===== *)
(** Sorting by passes that exchange neighbours, as [Kit_TruthPermute] and
    [Kit_TruthSemiCanonicize] do: the number of inversions bounds the passes. *)
From S2P Require Import Prelude Relabel.

(** * Inversions *)

(** Number of pairs [i < j < n] with [f i > f j]. *)
Fixpoint inversions (n : nat) (f : nat -> Z) : Z :=
  match n with
  | O => 0
  | S n => inversions n f + cnt n (fun i => (f n <? f i)%Z)
  end%Z.

Lemma cnt_tr n k g : S k < n -> cnt n (fun i => g (tr k i)) = cnt n g.
Proof.
  induction n as [|n IH]; intros Hk; [lia|]. destruct (decide (S k = n)) as [<-|Hn].
  - cbn [cnt]. rewrite tr_l, tr_r, (cnt_ext k _ g); [lia|]. intros i Hi. by rewrite tr_below.
  - cbn [cnt]. rewrite IH, tr_above by lia. done.
Qed.

Lemma inversions_ext n f g : (forall i, i < n -> f i = g i) -> inversions n f = inversions n g.
Proof.
  induction n as [|n IH]; intros H; [done|]. cbn [inversions]. rewrite IH by auto.
  f_equal. apply cnt_ext. intros i Hi. by rewrite !H by lia.
Qed.

Lemma inversions_tr n k f :
  S k < n -> (f (S k) < f k)%Z -> inversions n (fun i => f (tr k i)) = (inversions n f - 1)%Z.
Proof.
  induction n as [|n IH]; intros Hk Hf; [lia|]. destruct (decide (S k = n)) as [<-|Hn].
  - cbn [inversions cnt]. rewrite tr_l, tr_r.
    rewrite (inversions_ext k _ f) by (intros i Hi; by rewrite tr_below).
    assert (forall c, cnt k (fun i => (c <? f (tr k i))%Z) = cnt k (fun i => (c <? f i)%Z)) as E
      by (intros; apply cnt_ext; intros i Hi; by rewrite tr_below).
    rewrite !E.
    destruct (Z.ltb_spec (f k) (f (S k))), (Z.ltb_spec (f (S k)) (f k)); cbn [Z.b2z]; lia.
  - cbn [inversions]. rewrite IH, tr_above by lia.
    rewrite (cnt_tr n k (fun i => f n <? f i)%Z) by lia. lia.
Qed.

Lemma inversions_bound n f : (0 <= inversions n f <= Z.of_nat (n * n))%Z.
Proof.
  induction n as [|n IH]; [done|]. cbn [inversions].
  pose proof (cnt_bound n (fun i => (f n <? f i)%Z)). nia.
Qed.

(** * Passes *)

Section bubble.
Context {A : Type} (n : nat) (key : A -> nat -> Z) (ok : nat -> A -> bool) (step : nat -> A -> A).
Context (I : A -> Prop).
Context (Hok : forall i s, I s -> S i < n -> ok i s = true <-> (key s i <= key s (S i))%Z).
Context (Hstep : forall i s, I s -> S i < n -> ok i s = false ->
  I (step i s) /\ forall j, j < n -> key (step i s) j = key s (tr i j)).

(** [fChange = 0; for ( i = 0; i < n-1; i++ ) { if ( ok ) continue; fChange = 1; step }] *)
Definition bubble_pass (s : A) : bool * A :=
  for_up (n - 1) (fun i '(c, s) => if ok i s then (c, s) else (true, step i s)) (false, s).

Lemma bubble_pass_spec s c s' :
  I s -> bubble_pass s = (c, s') ->
  I s' /\ (c = true -> (inversions n (key s') < inversions n (key s))%Z) /\
  (c = false -> s' = s /\ forall i, S i < n -> (key s i <= key s (S i))%Z).
Proof using Hok Hstep.
  intros Hs E. unfold bubble_pass in E.
  enough (forall r, r = (c, s') -> for_up (n - 1) (fun i '(c, s) =>
      if ok i s then (c, s) else (true, step i s)) (false, s) = r ->
    I r.2 /\ (inversions n (key r.2) <= inversions n (key s))%Z /\
    (r.1 = true -> (inversions n (key r.2) < inversions n (key s))%Z) /\
    (r.1 = false -> r.2 = s /\ forall i, i < n - 1 -> (key s i <= key s (S i))%Z)) as H.
  { specialize (H _ eq_refl E). cbn [fst snd] in H. destruct H as (H1 & _ & H2 & H3). split; [done|]. split; [done|].
    intros Hc. destruct (H3 Hc) as [-> H4]. split; [done|]. intros. apply H4. lia. }
  intros r _ <-. clear E.
  apply (for_up_ind (fun k r => I r.2 /\ (inversions n (key r.2) <= inversions n (key s))%Z /\
    (r.1 = true -> (inversions n (key r.2) < inversions n (key s))%Z) /\
    (r.1 = false -> r.2 = s /\ forall i, i < k -> (key s i <= key s (S i))%Z))).
  { cbn. repeat split; [done|lia|done|lia]. }
  intros i [c1 s1] Hi (H1 & H2 & H3 & H4). cbn in *. destruct (ok i s1) eqn:Eo; cbn.
  - split; [done|]. split; [done|]. split; [done|]. intros Hc. destruct (H4 Hc) as [-> H5].
    split; [done|]. intros j Hj. destruct (decide (j = i)) as [->|]; [|apply H5; lia].
    apply Hok; [done|lia|done].
  - destruct (Hstep i s1 H1 ltac:(lia) Eo) as [H5 H6].
    assert (~ (key s1 i <= key s1 (S i))%Z) as Hgt
      by (rewrite <- Hok by (done || lia); by rewrite Eo).
    rewrite (inversions_ext n _ _ H6), inversions_tr by lia.
    split; [done|]. split; [lia|]. split; [lia|done].
Qed.

Lemma bubble_sorts fuel s :
  I s -> n * n < fuel ->
  exists r, do_while fuel bubble_pass s = Some r /\ I r /\
    forall i, S i < n -> (key r i <= key r (S i))%Z.
Proof using Hok Hstep.
  intros Hs Hf. pose proof (inversions_bound n (key s)).
  destruct (do_while_measure bubble_pass (fun s => Z.to_nat (inversions n (key s))) I fuel s)
    as (s1 & r & Hr & H1 & H2 & H3); [done|lia| |].
  - intros s1 c s2 H1 E. destruct (bubble_pass_spec _ _ _ H1 E) as (H2 & H3 & _).
    split; [done|]. intros Hc. pose proof (inversions_bound n (key s2)). specialize (H3 Hc). lia.
  - exists r. destruct (bubble_pass_spec _ _ _ H1 H3) as (_ & _ & H4).
    destruct (H4 eq_refl) as [-> H5]. done.
Qed.
End bubble.
