(* ===== verification/TruthBasic.v ===== *)
(** The truth-table routines of [kit.h]: word-parallel connectives, predicates,
    elementary variables, bit access and counting. *)
From S2P Require Import Prelude Words Minterm.

(** * The routines *)

(** The C routines receive an output array and write its first
    [Kit_TruthWordNum(nVars)] words; they return nothing.  Here they return the
    output array after the call. *)
Definition Kit_TruthCopy (pOut pIn : list Z) (nVars : nat) : list Z :=
  for_down (Kit_TruthWordNum nVars) (fun w p => p.[w <- pIn.[w]]) pOut.
Definition Kit_TruthClear (pOut : list Z) (nVars : nat) : list Z :=
  for_down (Kit_TruthWordNum nVars) (fun w p => p.[w <- 0]) pOut.
Definition Kit_TruthFill (pOut : list Z) (nVars : nat) : list Z :=
  for_down (Kit_TruthWordNum nVars) (fun w p => p.[w <- ~~~ 0]) pOut.
Definition Kit_TruthNot (pOut pIn : list Z) (nVars : nat) : list Z :=
  for_down (Kit_TruthWordNum nVars) (fun w p => p.[w <- ~~~ pIn.[w]]) pOut.
Definition Kit_TruthAnd (pOut pIn0 pIn1 : list Z) (nVars : nat) : list Z :=
  for_down (Kit_TruthWordNum nVars) (fun w p => p.[w <- pIn0.[w] &&& pIn1.[w]]) pOut.
Definition Kit_TruthOr (pOut pIn0 pIn1 : list Z) (nVars : nat) : list Z :=
  for_down (Kit_TruthWordNum nVars) (fun w p => p.[w <- pIn0.[w] ||| pIn1.[w]]) pOut.
Definition Kit_TruthXor (pOut pIn0 pIn1 : list Z) (nVars : nat) : list Z :=
  for_down (Kit_TruthWordNum nVars) (fun w p => p.[w <- pIn0.[w] ^^^ pIn1.[w]]) pOut.
Definition Kit_TruthSharp (pOut pIn0 pIn1 : list Z) (nVars : nat) : list Z :=
  for_down (Kit_TruthWordNum nVars) (fun w p => p.[w <- pIn0.[w] &&& ~~~ pIn1.[w]]) pOut.
Definition Kit_TruthNand (pOut pIn0 pIn1 : list Z) (nVars : nat) : list Z :=
  for_down (Kit_TruthWordNum nVars) (fun w p => p.[w <- ~~~ (pIn0.[w] &&& pIn1.[w])]) pOut.

Definition Kit_TruthAndPhase (pOut pIn0 pIn1 : list Z) (nVars : nat) (fCompl0 fCompl1 : bool) : list Z :=
  if fCompl0 && fCompl1 then
    for_down (Kit_TruthWordNum nVars) (fun w p => p.[w <- ~~~ (pIn0.[w] ||| pIn1.[w])]) pOut
  else if fCompl0 && negb fCompl1 then
    for_down (Kit_TruthWordNum nVars) (fun w p => p.[w <- ~~~ pIn0.[w] &&& pIn1.[w]]) pOut
  else if negb fCompl0 && fCompl1 then
    for_down (Kit_TruthWordNum nVars) (fun w p => p.[w <- pIn0.[w] &&& ~~~ pIn1.[w]]) pOut
  else
    for_down (Kit_TruthWordNum nVars) (fun w p => p.[w <- pIn0.[w] &&& pIn1.[w]]) pOut.

Definition Kit_TruthOrPhase (pOut pIn0 pIn1 : list Z) (nVars : nat) (fCompl0 fCompl1 : bool) : list Z :=
  if fCompl0 && fCompl1 then
    for_down (Kit_TruthWordNum nVars) (fun w p => p.[w <- ~~~ (pIn0.[w] &&& pIn1.[w])]) pOut
  else if fCompl0 && negb fCompl1 then
    for_down (Kit_TruthWordNum nVars) (fun w p => p.[w <- ~~~ pIn0.[w] ||| pIn1.[w]]) pOut
  else if negb fCompl0 && fCompl1 then
    for_down (Kit_TruthWordNum nVars) (fun w p => p.[w <- pIn0.[w] ||| ~~~ pIn1.[w]]) pOut
  else
    for_down (Kit_TruthWordNum nVars) (fun w p => p.[w <- pIn0.[w] ||| pIn1.[w]]) pOut.

Definition Kit_TruthMux (pOut pIn0 pIn1 pCtrl : list Z) (nVars : nat) : list Z :=
  for_down (Kit_TruthWordNum nVars)
    (fun w p => p.[w <- (pIn0.[w] &&& ~~~ pCtrl.[w]) ||| (pIn1.[w] &&& pCtrl.[w])]) pOut.

Definition Kit_TruthMuxPhase (pOut pIn0 pIn1 pCtrl : list Z) (nVars : nat) (fComp0 : bool) : list Z :=
  if fComp0 then
    for_down (Kit_TruthWordNum nVars)
      (fun w p => p.[w <- (~~~ pIn0.[w] &&& ~~~ pCtrl.[w]) ||| (pIn1.[w] &&& pCtrl.[w])]) pOut
  else
    for_down (Kit_TruthWordNum nVars)
      (fun w p => p.[w <- (pIn0.[w] &&& ~~~ pCtrl.[w]) ||| (pIn1.[w] &&& pCtrl.[w])]) pOut.

(** The masks of the five variables inside a word. *)
Definition Masks : list Z := [0xAAAAAAAA; 0xCCCCCCCC; 0xF0F0F0F0; 0xFF00FF00; 0xFFFF0000]%Z.

Definition Kit_TruthIthVar (pTruth : list Z) (nVars iVar : nat) : list Z :=
  let nWords := if nVars <=? 5 then 1 else 2 ^ (nVars - 5) in
  if iVar <? 5 then
    for_up nWords (fun k p => p.[k <- Masks.[iVar]]) pTruth
  else
    for_up nWords (fun k p =>
      if negb (Nat.land k (2 ^ (iVar - 5)) =? 0) then p.[k <- ~~~ 0] else p.[k <- 0]) pTruth.

Definition Kit_TruthSetBit (p : list Z) (Bit : nat) : list Z :=
  p.[Bit / 32 <- p.[Bit / 32] ||| (1 <<< (Bit mod 32))].
Definition Kit_TruthXorBit (p : list Z) (Bit : nat) : list Z :=
  p.[Bit / 32 <- p.[Bit / 32] ^^^ (1 <<< (Bit mod 32))].
(** [(p[Bit>>5] & (1<<(Bit & 31))) > 0] compares as [unsigned]. *)
Definition Kit_TruthHasBit (p : list Z) (Bit : nat) : bool :=
  (0 <? (p.[Bit / 32] &&& (1 <<< (Bit mod 32))))%Z.

(** Predicates leave the loop with 0 at the first word that fails. *)
Definition Kit_TruthIsEqual (pIn0 pIn1 : list Z) (nVars : nat) : bool :=
  negb (exists_down (Kit_TruthWordNum nVars) (fun w => negb (pIn0.[w] =? pIn1.[w])%Z)).
Definition Kit_TruthIsEqualWithCare (pIn0 pIn1 pCare : list Z) (nVars : nat) : bool :=
  negb (exists_down (Kit_TruthWordNum nVars)
    (fun w => negb ((pIn0.[w] &&& pCare.[w]) =? (pIn1.[w] &&& pCare.[w]))%Z)).
Definition Kit_TruthIsOpposite (pIn0 pIn1 : list Z) (nVars : nat) : bool :=
  negb (exists_down (Kit_TruthWordNum nVars) (fun w => negb (pIn0.[w] =? ~~~ pIn1.[w])%Z)).
Definition Kit_TruthIsEqualWithPhase (pIn0 pIn1 : list Z) (nVars : nat) : bool :=
  if ((pIn0.[0] &&& 1) =? (pIn1.[0] &&& 1))%Z then
    negb (exists_down (Kit_TruthWordNum nVars) (fun w => negb (pIn0.[w] =? pIn1.[w])%Z))
  else
    negb (exists_down (Kit_TruthWordNum nVars) (fun w => negb (pIn0.[w] =? ~~~ pIn1.[w])%Z)).
Definition Kit_TruthIsConst0 (pIn : list Z) (nVars : nat) : bool :=
  negb (exists_down (Kit_TruthWordNum nVars) (fun w => negb (pIn.[w] =? 0)%Z)).
Definition Kit_TruthIsConst1 (pIn : list Z) (nVars : nat) : bool :=
  negb (exists_down (Kit_TruthWordNum nVars) (fun w => negb (pIn.[w] =? ~~~ 0)%Z)).
Definition Kit_TruthIsImply (pIn1 pIn2 : list Z) (nVars : nat) : bool :=
  negb (exists_down (Kit_TruthWordNum nVars) (fun w => negb ((pIn1.[w] &&& ~~~ pIn2.[w]) =? 0)%Z)).
Definition Kit_TruthIsDisjoint (pIn1 pIn2 : list Z) (nVars : nat) : bool :=
  negb (exists_down (Kit_TruthWordNum nVars) (fun w => negb ((pIn1.[w] &&& pIn2.[w]) =? 0)%Z)).
Definition Kit_TruthIsDisjoint3 (pIn1 pIn2 pIn3 : list Z) (nVars : nat) : bool :=
  negb (exists_down (Kit_TruthWordNum nVars)
    (fun w => negb ((pIn1.[w] &&& pIn2.[w] &&& pIn3.[w]) =? 0)%Z)).

Definition Kit_TruthCountOnes (pIn : list Z) (nVars : nat) : Z :=
  for_down (Kit_TruthWordNum nVars) (fun w Counter => (Counter + Kit_WordCountOnes pIn.[w])%Z) 0%Z.

Definition Kit_TruthFindFirstBit (pIn : list Z) (nVars : nat) : Z :=
  match find (fun w => negb (pIn.[w] =? 0)%Z) (seq 0 (Kit_TruthWordNum nVars)) with
  | Some w => (32 * Z.of_nat w + Kit_WordFindFirstBit pIn.[w])%Z
  | None => (-1)%Z
  end.
Definition Kit_TruthFindFirstZero (pIn : list Z) (nVars : nat) : Z :=
  match find (fun w => negb (~~~ pIn.[w] =? 0)%Z) (seq 0 (Kit_TruthWordNum nVars)) with
  | Some w => (32 * Z.of_nat w + Kit_WordFindFirstBit (~~~ pIn.[w]))%Z
  | None => (-1)%Z
  end.

(** * Word-parallel loops *)

Lemma rd_down_const n (f : nat -> Z) p j :
  n <= length p -> (for_down n (fun w q => wr q w (f w)) p).[j] = if decide (j < n) then f j else p.[j].
Proof.
  intros Hn. rewrite (rd_map_down n (length p)); [| | | |done].
  - case_decide; [|done]. rewrite rd_wr_eq by lia. done.
  - intros. apply length_wr.
  - intros. by apply rd_wr_ne.
  - intros i q q' Hi Hq Hq' _. by rewrite !rd_wr_eq by lia.
Qed.

Lemma rd_up_const n (f : nat -> Z) p j :
  n <= length p -> (for_up n (fun w q => wr q w (f w)) p).[j] = if decide (j < n) then f j else p.[j].
Proof.
  intros Hn. rewrite (rd_map_loop n (length p)); [| | | |done].
  - case_decide; [|done]. rewrite rd_wr_eq by lia. done.
  - intros. apply length_wr.
  - intros. by apply rd_wr_ne.
  - intros i q q' Hi Hq Hq' _. by rewrite !rd_wr_eq by lia.
Qed.

(** Reading the output array itself instead of a copy of its initial value makes no
    difference: the connectives may be called with [pOut] equal to an input. *)
Lemma down_alias n (f : nat -> Z -> Z) p :
  n <= length p ->
  for_down n (fun w q => wr q w (f w q.[w])) p = for_down n (fun w q => wr q w (f w p.[w])) p.
Proof.
  intros Hn. apply list_eq_rd.
  - rewrite !length_for_down; [done|..]; intros; apply length_wr.
  - intros i _. rewrite rd_down_const by done. rewrite (rd_map_down n (length p)); [| | | |done].
    + case_decide; [|done]. rewrite rd_wr_eq by lia. done.
    + intros. apply length_wr.
    + intros. by apply rd_wr_ne.
    + intros j q q' Hj Hq Hq' He. by rewrite !rd_wr_eq, He by lia.
Qed.

Lemma tbit_down_const nVars (f : nat -> Z) p m :
  Kit_TruthWordNum nVars <= length p -> m < nmint nVars ->
  tbit (for_down (Kit_TruthWordNum nVars) (fun w q => wr q w (f w)) p) m
  = Z.testbit (f (m / 32)) (Z.of_nat (m mod 32)).
Proof.
  intros Hp Hm. unfold tbit. rewrite rd_down_const, decide_True; [done|by apply nmint_div|done].
Qed.

Lemma is_tt_down_const nVars (f : nat -> Z) p :
  is_tt nVars p -> (forall w, is_word (f w)) ->
  is_tt nVars (for_down (Kit_TruthWordNum nVars) (fun w q => wr q w (f w)) p).
Proof.
  intros [Hl Hw] Hf. split.
  - rewrite length_for_down; [done|]. intros. apply length_wr.
  - apply words_rd. intros i. rewrite rd_down_const by done. case_decide; auto with words.
Qed.

Lemma length_down_const n (f : nat -> Z) p :
  length (for_down n (fun w q => wr q w (f w)) p) = length p.
Proof. apply length_for_down. intros. apply length_wr. Qed.

(** Proves the value of a connective at a minterm. *)
Ltac tbit_word :=
  intros; rewrite tbit_down_const by done; unfold tbit;
  rewrite ?Z.lor_spec, ?Z.land_spec, ?Z.lxor_spec, ?(testbit_wnot _ (_ mod 32)) by apply mod32;
  rewrite ?Z.lor_spec, ?Z.land_spec; try done.

Ltac is_tt_word f := unfold f; intros; apply is_tt_down_const; [done|intros; auto 10 with words].

(** ** Values of the connectives *)
Section connectives.
Context (nVars : nat) (pOut : list Z) (HpOut : Kit_TruthWordNum nVars <= length pOut).
Implicit Types (a b c : list Z) (m : nat).

Lemma tbit_Copy a m : m < nmint nVars -> tbit (Kit_TruthCopy pOut a nVars) m = tbit a m.
Proof using HpOut. unfold Kit_TruthCopy. tbit_word. Qed.
Lemma tbit_Clear m : m < nmint nVars -> tbit (Kit_TruthClear pOut nVars) m = false.
Proof using HpOut. unfold Kit_TruthClear. tbit_word. apply Z.testbit_0_l. Qed.
Lemma tbit_Fill m : m < nmint nVars -> tbit (Kit_TruthFill pOut nVars) m = true.
Proof using HpOut. unfold Kit_TruthFill. tbit_word. by rewrite Z.testbit_0_l. Qed.
Lemma tbit_Not a m : m < nmint nVars -> tbit (Kit_TruthNot pOut a nVars) m = negb (tbit a m).
Proof using HpOut. unfold Kit_TruthNot. tbit_word. Qed.
Lemma tbit_And a b m : m < nmint nVars -> tbit (Kit_TruthAnd pOut a b nVars) m = tbit a m && tbit b m.
Proof using HpOut. unfold Kit_TruthAnd. tbit_word. Qed.
Lemma tbit_Or a b m : m < nmint nVars -> tbit (Kit_TruthOr pOut a b nVars) m = tbit a m || tbit b m.
Proof using HpOut. unfold Kit_TruthOr. tbit_word. Qed.
Lemma tbit_Xor a b m : m < nmint nVars -> tbit (Kit_TruthXor pOut a b nVars) m = xorb (tbit a m) (tbit b m).
Proof using HpOut. unfold Kit_TruthXor. tbit_word. Qed.
Lemma tbit_Sharp a b m : m < nmint nVars -> tbit (Kit_TruthSharp pOut a b nVars) m = tbit a m && negb (tbit b m).
Proof using HpOut. unfold Kit_TruthSharp. tbit_word. Qed.
Lemma tbit_Nand a b m : m < nmint nVars -> tbit (Kit_TruthNand pOut a b nVars) m = negb (tbit a m && tbit b m).
Proof using HpOut. unfold Kit_TruthNand. tbit_word. Qed.

Lemma tbit_AndPhase a b f0 f1 m : m < nmint nVars ->
  tbit (Kit_TruthAndPhase pOut a b nVars f0 f1) m = xorb f0 (tbit a m) && xorb f1 (tbit b m).
Proof using HpOut.
  unfold Kit_TruthAndPhase. destruct f0, f1; cbn [andb negb]; tbit_word;
  rewrite ?xorb_true_l, ?xorb_false_l; try done. by rewrite negb_orb.
Qed.
Lemma tbit_OrPhase a b f0 f1 m : m < nmint nVars ->
  tbit (Kit_TruthOrPhase pOut a b nVars f0 f1) m = xorb f0 (tbit a m) || xorb f1 (tbit b m).
Proof using HpOut.
  unfold Kit_TruthOrPhase. destruct f0, f1; cbn [andb negb]; tbit_word;
  rewrite ?xorb_true_l, ?xorb_false_l; try done. by rewrite negb_andb.
Qed.
Lemma tbit_Mux a b c m : m < nmint nVars ->
  tbit (Kit_TruthMux pOut a b c nVars) m = if tbit c m then tbit b m else tbit a m.
Proof using HpOut.
  unfold Kit_TruthMux. tbit_word. fold (tbit a m) (tbit b m) (tbit c m).
  by destruct (tbit a m), (tbit b m), (tbit c m).
Qed.
Lemma tbit_MuxPhase a b c f0 m : m < nmint nVars ->
  tbit (Kit_TruthMuxPhase pOut a b c nVars f0) m = if tbit c m then tbit b m else xorb f0 (tbit a m).
Proof using HpOut.
  unfold Kit_TruthMuxPhase. destruct f0; tbit_word; fold (tbit a m) (tbit b m) (tbit c m);
  by destruct (tbit a m), (tbit b m), (tbit c m).
Qed.
End connectives.

(** ** The connectives keep tables well formed *)
Section wf.
Context (nVars : nat) (pOut : list Z) (HpOut : is_tt nVars pOut).
Lemma is_tt_Copy a : is_tt nVars a -> is_tt nVars (Kit_TruthCopy pOut a nVars).
Proof using HpOut. is_tt_word Kit_TruthCopy. Qed.
Lemma is_tt_Clear : is_tt nVars (Kit_TruthClear pOut nVars).
Proof using HpOut. is_tt_word Kit_TruthClear. Qed.
Lemma is_tt_Fill : is_tt nVars (Kit_TruthFill pOut nVars).
Proof using HpOut. is_tt_word Kit_TruthFill. Qed.
Lemma is_tt_Not a : is_tt nVars (Kit_TruthNot pOut a nVars).
Proof using HpOut. is_tt_word Kit_TruthNot. Qed.
Lemma is_tt_And a b : is_tt nVars a -> is_tt nVars b -> is_tt nVars (Kit_TruthAnd pOut a b nVars).
Proof using HpOut. is_tt_word Kit_TruthAnd. Qed.
Lemma is_tt_Or a b : is_tt nVars a -> is_tt nVars b -> is_tt nVars (Kit_TruthOr pOut a b nVars).
Proof using HpOut. is_tt_word Kit_TruthOr. Qed.
Lemma is_tt_Sharp a b : is_tt nVars a -> is_tt nVars (Kit_TruthSharp pOut a b nVars).
Proof using HpOut. is_tt_word Kit_TruthSharp. Qed.
End wf.

Lemma length_Copy p a n : length (Kit_TruthCopy p a n) = length p.
Proof. apply length_down_const. Qed.
Lemma length_Clear p n : length (Kit_TruthClear p n) = length p.
Proof. apply length_down_const. Qed.
Lemma length_Fill p n : length (Kit_TruthFill p n) = length p.
Proof. apply length_down_const. Qed.
Lemma length_Not p a n : length (Kit_TruthNot p a n) = length p.
Proof. apply length_down_const. Qed.
Lemma length_And p a b n : length (Kit_TruthAnd p a b n) = length p.
Proof. apply length_down_const. Qed.
Lemma length_Or p a b n : length (Kit_TruthOr p a b n) = length p.
Proof. apply length_down_const. Qed.
Lemma length_Sharp p a b n : length (Kit_TruthSharp p a b n) = length p.
Proof. apply length_down_const. Qed.
#[export] Hint Rewrite length_Copy length_Clear length_Fill length_Not length_And length_Or
  length_Sharp : kitlen.
#[export] Hint Resolve is_tt_Copy is_tt_Clear is_tt_Fill is_tt_Not is_tt_And is_tt_Or is_tt_Sharp : words.

(** ** Predicates *)

(** A loop comparing words compares the functions. *)
Lemma compare_loop nVars (F G : nat -> Z) :
  (forall w, is_word (F w)) -> (forall w, is_word (G w)) ->
  negb (exists_down (Kit_TruthWordNum nVars) (fun w => negb (F w =? G w)%Z)) = true <->
  forall m, m < nmint nVars ->
    Z.testbit (F (m / 32)) (Z.of_nat (m mod 32)) = Z.testbit (G (m / 32)) (Z.of_nat (m mod 32)).
Proof.
  intros HF HG. rewrite exists_down_up, negb_true_iff, exists_up_false. split.
  - intros H m Hm. specialize (H (m / 32)). rewrite negb_false_iff, Z.eqb_eq in H.
    rewrite H; [done|by apply nmint_div].
  - intros H w Hw. rewrite negb_false_iff, Z.eqb_eq. apply word_ext; [done..|].
    intros b Hb. specialize (H (w * 32 + b)).
    rewrite nmint_div, Nat.div_add_l, Nat.div_small, Nat.add_0_r in H by lia.
    rewrite Nat.add_comm, Nat.Div0.mod_add, Nat.mod_small in H by lia. by apply H.
Qed.

Ltac predicate :=
  intros; rewrite compare_loop by (intros; auto 10 with words);
  apply forall_proper; intros m; apply forall_proper; intros Hm; unfold tbit;
  rewrite ?Z.land_spec, ?Z.lor_spec, ?(testbit_wnot _ (_ mod 32)) by apply mod32;
  rewrite ?Z.testbit_0_l.

Section predicates.
Context (nVars : nat) (a b c : list Z).
Context (Ha : is_tt nVars a) (Hb : is_tt nVars b) (Hc : is_tt nVars c).

Lemma IsEqual_spec : Kit_TruthIsEqual a b nVars = true <->
  forall m, m < nmint nVars -> tbit a m = tbit b m.
Proof using Ha Hb. unfold Kit_TruthIsEqual. by predicate. Qed.
Lemma IsEqualWithCare_spec : Kit_TruthIsEqualWithCare a b c nVars = true <->
  forall m, m < nmint nVars -> tbit c m = true -> tbit a m = tbit b m.
Proof using Ha Hb Hc.
  unfold Kit_TruthIsEqualWithCare. predicate. fold (tbit a m) (tbit b m) (tbit c m).
  destruct (tbit a m), (tbit b m), (tbit c m); cbn; intuition congruence.
Qed.
Lemma IsOpposite_spec : Kit_TruthIsOpposite a b nVars = true <->
  forall m, m < nmint nVars -> tbit a m = negb (tbit b m).
Proof using Ha Hb. unfold Kit_TruthIsOpposite. by predicate. Qed.
Lemma IsConst0_spec : Kit_TruthIsConst0 a nVars = true <->
  forall m, m < nmint nVars -> tbit a m = false.
Proof using Ha. unfold Kit_TruthIsConst0. predicate. done. Qed.
Lemma IsConst1_spec : Kit_TruthIsConst1 a nVars = true <->
  forall m, m < nmint nVars -> tbit a m = true.
Proof using Ha. unfold Kit_TruthIsConst1. predicate. done. Qed.
Lemma IsImply_spec : Kit_TruthIsImply a b nVars = true <->
  forall m, m < nmint nVars -> tbit a m = true -> tbit b m = true.
Proof using Ha Hb.
  unfold Kit_TruthIsImply. predicate. fold (tbit a m) (tbit b m).
  destruct (tbit a m), (tbit b m); cbn; intuition congruence.
Qed.
Lemma IsDisjoint_spec : Kit_TruthIsDisjoint a b nVars = true <->
  forall m, m < nmint nVars -> tbit a m && tbit b m = false.
Proof using Ha Hb. unfold Kit_TruthIsDisjoint. by predicate. Qed.
Lemma IsDisjoint3_spec : Kit_TruthIsDisjoint3 a b c nVars = true <->
  forall m, m < nmint nVars -> tbit a m && tbit b m && tbit c m = false.
Proof using Ha Hb Hc. unfold Kit_TruthIsDisjoint3. by predicate. Qed.

Lemma tbit_0 t : Forall is_word t -> (t.[0] &&& 1)%Z = Z.b2z (tbit t 0).
Proof.
  intros Ht. unfold tbit. cbn [Nat.div Nat.modulo Nat.divmod fst snd Nat.sub Z.of_nat].
  change 1%Z with (Z.ones 1). rewrite Z.land_ones by lia. symmetry. apply Z.bit0_mod.
Qed.

(** Equality up to complement, decided by the value at minterm 0. *)
Lemma IsEqualWithPhase_spec : Kit_TruthIsEqualWithPhase a b nVars = true <->
  (forall m, m < nmint nVars -> tbit a m = tbit b m) \/
  (forall m, m < nmint nVars -> tbit a m = negb (tbit b m)).
Proof using Ha Hb.
  unfold Kit_TruthIsEqualWithPhase. rewrite (tbit_0 a), (tbit_0 b) by auto with words.
  fold (Kit_TruthIsEqual a b nVars) (Kit_TruthIsOpposite a b nVars).
  rewrite <- IsEqual_spec, <- IsOpposite_spec.
  assert (0 < nmint nVars) by (rewrite nmint_words; pose proof (WordNum_pos nVars); lia).
  destruct (Z.eqb_spec (Z.b2z (tbit a 0)) (Z.b2z (tbit b 0))) as [He|He];
    (split; [by auto|]); intros [H1|H1]; try done; exfalso.
  - rewrite IsOpposite_spec in H1. rewrite H1 in He by done. by destruct (tbit b 0).
  - rewrite IsEqual_spec in H1. by rewrite H1 in He.
Qed.
End predicates.

(** ** Elementary variables and single bits *)

Lemma tbit_IthVar nVars iVar t m :
  Kit_TruthWordNum nVars <= length t -> m < nmint nVars ->
  tbit (Kit_TruthIthVar t nVars iVar) m = Nat.testbit m iVar.
Proof.
  intros Ht Hm. unfold Kit_TruthIthVar. fold (Kit_TruthWordNum nVars).
  assert (m / 32 < Kit_TruthWordNum nVars) by by apply nmint_div.
  destruct (Nat.ltb_spec iVar 5).
  - unfold tbit. rewrite rd_up_const, decide_True by done. rewrite testbit_lo by done.
    pose proof (mod32 m) as Hb. generalize dependent (m mod 32). intros b Hb.
    do 5 (destruct iVar as [|iVar]; [word_bits b|]). lia.
  - rewrite (for_up_ext _ _ (fun k p => wr p k (if Nat.testbit k (iVar - 5) then ~~~ 0 else 0)%Z)).
    + unfold tbit. rewrite rd_up_const, decide_True by done. rewrite (testbit_hi m) by done.
      destruct (Nat.testbit (m / 32) (iVar - 5)); [|apply Z.testbit_0_l].
      rewrite testbit_wnot by apply mod32. by rewrite Z.testbit_0_l.
    + intros i s _. rewrite land_pow2, negb_involutive. by destruct (Nat.testbit i (iVar - 5)).
Qed.

Lemma is_tt_IthVar nVars iVar t : is_tt nVars t -> is_tt nVars (Kit_TruthIthVar t nVars iVar).
Proof.
  intros Ht. unfold Kit_TruthIthVar. fold (Kit_TruthWordNum nVars).
  assert (forall f, (forall k, is_word (f k)) ->
    is_tt nVars (for_up (Kit_TruthWordNum nVars) (fun k p => wr p k (f k)) t)) as H.
  { intros f Hf. split.
    - rewrite length_map_loop; [apply Ht|]. intros. apply length_wr.
    - apply words_rd. intros i. rewrite rd_up_const by apply Ht.
      case_decide; [done|]. apply word_rd, Ht. }
  destruct (iVar <? 5).
  - apply (H (fun _ => Masks.[iVar])). intros _. do 5 (destruct iVar as [|iVar]; [done|]).
    rewrite rd_ge by (cbn; lia). apply word_0.
  - rewrite (for_up_ext _ _ (fun k p => wr p k (if negb (Nat.land k (2 ^ (iVar - 5)) =? 0)%nat then ~~~ 0 else 0%Z))).
    + apply H. intros k. destruct (negb _); auto with words.
    + intros k s _. by destruct (negb _).
Qed.

Lemma HasBit_spec t m : Forall is_word t -> Kit_TruthHasBit t m = tbit t m.
Proof.
  intros Ht. unfold Kit_TruthHasBit, tbit. pose proof (mod32 m) as Hm.
  pose proof (mask_bit t.[m / 32] _ Hm) as H.
  assert (0 <= (t.[m / 32] &&& (1 <<< (m mod 32))))%Z by (apply Z.land_nonneg; left; apply word_rd; done).
  destruct (Z.testbit t.[m / 32] (Z.of_nat (m mod 32))).
  - apply Z.ltb_lt. apply Z.eqb_neq in H. lia.
  - apply Z.ltb_ge. apply Z.eqb_eq in H. lia.
Qed.

Lemma eq_div_mod m k : m = k <-> m / 32 = k / 32 /\ m mod 32 = k mod 32.
Proof.
  split; [by intros ->|]. intros [H1 H2]. rewrite (Nat.div_mod_eq m 32), (Nat.div_mod_eq k 32). lia.
Qed.

Lemma tbit_SetBit t m k : m / 32 < length t ->
  tbit (Kit_TruthSetBit t m) k = (k =? m) || tbit t k.
Proof.
  intros Hm. unfold Kit_TruthSetBit, tbit. rewrite rd_wr.
  pose proof (eq_div_mod k m). pose proof (mod32 m).
  destruct (decide (m / 32 = k / 32 /\ m / 32 < length t)) as [[He _]|Hd].
  - rewrite Z.lor_spec, testbit_pow, He, orb_comm by done. f_equal.
    destruct (Nat.eqb_spec (k mod 32) (m mod 32)), (Nat.eqb_spec k m); try done; exfalso; intuition lia.
  - destruct (Nat.eqb_spec k m) as [->|]; [|done]. exfalso. apply Hd. done.
Qed.

Lemma tbit_XorBit t m k : m / 32 < length t ->
  tbit (Kit_TruthXorBit t m) k = xorb (k =? m) (tbit t k).
Proof.
  intros Hm. unfold Kit_TruthXorBit, tbit. rewrite rd_wr.
  pose proof (eq_div_mod k m). pose proof (mod32 m).
  destruct (decide (m / 32 = k / 32 /\ m / 32 < length t)) as [[He _]|Hd].
  - rewrite Z.lxor_spec, testbit_pow, He, xorb_comm by done. f_equal.
    destruct (Nat.eqb_spec (k mod 32) (m mod 32)), (Nat.eqb_spec k m); try done; exfalso; intuition lia.
  - destruct (Nat.eqb_spec k m) as [->|]; [|by rewrite xorb_false_l]. exfalso. apply Hd. done.
Qed.

(** ** Counting and searching *)

(** Sums over words of the bits that [keep] selects inside a word. *)
Lemma cnt_words n (f : nat -> bool) :
  cnt (32 * n) f = for_up n (fun w c => (c + cnt 32 (fun b => f (w * 32 + b)%nat))%Z) 0%Z.
Proof. rewrite Nat.mul_comm. apply cnt_blocks. Qed.

Lemma tbit_at t w b : b < 32 -> tbit t (w * 32 + b) = Z.testbit t.[w] (Z.of_nat b).
Proof.
  intros Hb. unfold tbit. rewrite Nat.div_add_l, Nat.div_small, Nat.add_0_r by lia.
  by rewrite Nat.add_comm, Nat.Div0.mod_add, Nat.mod_small.
Qed.

Lemma CountOnes_spec nVars t :
  Forall is_word t -> Kit_TruthCountOnes t nVars = cnt (nmint nVars) (tbit t).
Proof.
  intros Ht. unfold Kit_TruthCountOnes. rewrite for_down_sum, nmint_words, cnt_words.
  apply for_up_ext. intros w c _. f_equal. rewrite WordCountOnes_spec by auto with words.
  apply cnt_ext. intros b Hb. by rewrite tbit_at.
Qed.

Lemma FindFirst_spec (F : nat -> Z) n (f : nat -> bool) r :
  (forall w, is_word (F w)) -> (forall w b, b < 32 -> f (w * 32 + b) = Z.testbit (F w) (Z.of_nat b)) ->
  match find (fun w => negb (F w =? 0)%Z) (seq 0 n) with
  | Some w => (32 * Z.of_nat w + Kit_WordFindFirstBit (F w))%Z
  | None => (-1)%Z
  end = r ->
  r = (-1)%Z /\ (forall m, m < 32 * n -> f m = false) \/
  (exists m, r = Z.of_nat m /\ m < 32 * n /\ f m = true /\ forall k, k < m -> f k = false).
Proof.
  intros HF Hf. assert (forall m, f m = Z.testbit (F (m / 32)) (Z.of_nat (m mod 32))) as Hm.
  { intros m. rewrite (Nat.div_mod_eq m 32) at 1. rewrite Nat.mul_comm. apply Hf, mod32. }
  assert (forall w, (F w =? 0)%Z = true -> forall b, b < 32 -> f (w * 32 + b) = false) as Hz.
  { intros w Hw b Hb. apply Z.eqb_eq in Hw. by rewrite Hf, Hw, Z.testbit_0_l. }
  destruct (find _ _) as [w|] eqn:E.
  - apply find_seq_Some in E as (Hw & Hc & Hmin). intros <-. right.
    destruct (decide (Kit_WordFindFirstBit (F w) = -1)%Z) as [Hn|Hn].
    { exfalso. apply negb_true_iff, Z.eqb_neq in Hc. apply Hc. apply word_ext; auto with words.
      intros b Hb. rewrite Z.testbit_0_l. by apply WordFindFirstBit_None. }
    pose proof (WordFindFirstBit_range (F w)).
    destruct (WordFindFirstBit_Some (F w) _ eq_refl ltac:(lia)) as (b & Hr & Hb & Ht & Hfirst).
    exists (w * 32 + b). rewrite Hr. split; [lia|]. split; [lia|]. split; [by rewrite Hf|].
    intros k Hk. destruct (decide (k / 32 = w)) as [He|He].
    + rewrite Hm, He. apply Hfirst. rewrite (Nat.div_mod_eq k 32), He in Hk. lia.
    + rewrite (Nat.div_mod_eq k 32), Nat.mul_comm. apply Hz; [|apply mod32].
      apply negb_false_iff, Hmin. split; [lia|]. apply Nat.le_neq. split; [|done].
      apply Nat.lt_succ_r, Nat.Div0.div_lt_upper_bound. lia.
  - intros <-. left. split; [done|]. intros m Hlt.
    rewrite (Nat.div_mod_eq m 32), Nat.mul_comm. apply Hz; [|apply mod32].
    rewrite find_seq_None in E. apply negb_false_iff, E. split; [lia|].
    rewrite Nat.add_0_l. apply Nat.Div0.div_lt_upper_bound. lia.
Qed.

(** * Properties *)

(** Every connective writes, at each minterm, the connective of the values of its
    inputs at that minterm, whatever the output array held. *)
Theorem connectives_correct nVars (pOut a b c : list Z) (f0 f1 : bool) m :
  Kit_TruthWordNum nVars <= length pOut -> m < nmint nVars ->
  tbit (Kit_TruthCopy pOut a nVars) m = tbit a m /\
  tbit (Kit_TruthClear pOut nVars) m = false /\
  tbit (Kit_TruthFill pOut nVars) m = true /\
  tbit (Kit_TruthNot pOut a nVars) m = negb (tbit a m) /\
  tbit (Kit_TruthAnd pOut a b nVars) m = tbit a m && tbit b m /\
  tbit (Kit_TruthOr pOut a b nVars) m = tbit a m || tbit b m /\
  tbit (Kit_TruthXor pOut a b nVars) m = xorb (tbit a m) (tbit b m) /\
  tbit (Kit_TruthSharp pOut a b nVars) m = tbit a m && negb (tbit b m) /\
  tbit (Kit_TruthNand pOut a b nVars) m = negb (tbit a m && tbit b m) /\
  tbit (Kit_TruthAndPhase pOut a b nVars f0 f1) m = xorb f0 (tbit a m) && xorb f1 (tbit b m) /\
  tbit (Kit_TruthOrPhase pOut a b nVars f0 f1) m = xorb f0 (tbit a m) || xorb f1 (tbit b m) /\
  tbit (Kit_TruthMux pOut a b c nVars) m = (if tbit c m then tbit b m else tbit a m) /\
  tbit (Kit_TruthMuxPhase pOut a b c nVars f0) m = (if tbit c m then tbit b m else xorb f0 (tbit a m)).
Proof.
  intros. rewrite tbit_Copy, tbit_Clear, tbit_Fill, tbit_Not, tbit_And, tbit_Or, tbit_Xor,
    tbit_Sharp, tbit_Nand, tbit_AndPhase, tbit_OrPhase, tbit_Mux, tbit_MuxPhase by done.
  done.
Qed.

Lemma connectives_correct_witness :
  tbit (Kit_TruthMux [0; 0]%Z [0x12345678; 0x9ABCDEF0]%Z [0xCAFE0123; 0x89ABCDEF]%Z
          [0xFF00FF00; 0xF0F0F0F0]%Z 6) 40
  = if tbit [0xFF00FF00; 0xF0F0F0F0]%Z 40
    then tbit [0xCAFE0123; 0x89ABCDEF]%Z 40 else tbit [0x12345678; 0x9ABCDEF0]%Z 40.
Proof.
  apply (connectives_correct 6 [0; 0]%Z [0x12345678; 0x9ABCDEF0]%Z [0xCAFE0123; 0x89ABCDEF]%Z
    [0xFF00FF00; 0xF0F0F0F0]%Z false false 40); vm_compute; lia.
Defined.

(** Every predicate decides the property of the functions that its name says:
    equality, equality on a care set, opposition, equality up to complement, the
    constants, implication and disjointness. *)
Theorem predicates_correct nVars (a b c : list Z) :
  is_tt nVars a -> is_tt nVars b -> is_tt nVars c ->
  (Kit_TruthIsEqual a b nVars = true <-> forall m, m < nmint nVars -> tbit a m = tbit b m) /\
  (Kit_TruthIsEqualWithCare a b c nVars = true <->
    forall m, m < nmint nVars -> tbit c m = true -> tbit a m = tbit b m) /\
  (Kit_TruthIsOpposite a b nVars = true <->
    forall m, m < nmint nVars -> tbit a m = negb (tbit b m)) /\
  (Kit_TruthIsEqualWithPhase a b nVars = true <->
    (forall m, m < nmint nVars -> tbit a m = tbit b m) \/
    (forall m, m < nmint nVars -> tbit a m = negb (tbit b m))) /\
  (Kit_TruthIsConst0 a nVars = true <-> forall m, m < nmint nVars -> tbit a m = false) /\
  (Kit_TruthIsConst1 a nVars = true <-> forall m, m < nmint nVars -> tbit a m = true) /\
  (Kit_TruthIsImply a b nVars = true <->
    forall m, m < nmint nVars -> tbit a m = true -> tbit b m = true) /\
  (Kit_TruthIsDisjoint a b nVars = true <->
    forall m, m < nmint nVars -> tbit a m && tbit b m = false) /\
  (Kit_TruthIsDisjoint3 a b c nVars = true <->
    forall m, m < nmint nVars -> tbit a m && tbit b m && tbit c m = false).
Proof.
  intros. repeat match goal with |- _ /\ _ => split end.
  - by apply IsEqual_spec.
  - by apply IsEqualWithCare_spec.
  - by apply IsOpposite_spec.
  - by apply IsEqualWithPhase_spec.
  - by apply IsConst0_spec.
  - by apply IsConst1_spec.
  - by apply IsImply_spec.
  - by apply IsDisjoint_spec.
  - by apply IsDisjoint3_spec.
Qed.

Ltac concrete_tt := split; [vm_compute; lia | repeat constructor; vm_compute; congruence].

Lemma predicates_correct_witness :
  Kit_TruthIsImply [0x80]%Z [0x88]%Z 3 = true /\
  forall m, m < nmint 3 -> tbit [0x80]%Z m = true -> tbit [0x88]%Z m = true.
Proof.
  split; [reflexivity|].
  apply (predicates_correct 3 [0x80]%Z [0x88]%Z [0]%Z); [concrete_tt..|reflexivity].
Defined.

(** Elementary variables and bit access: the table of variable [iVar] is the
    variable, a bit set or flipped is the only change, and a bit is read back. *)
Theorem bit_access_correct nVars iVar (t : list Z) m k :
  is_tt nVars t -> m < nmint nVars -> k < nmint nVars ->
  tbit (Kit_TruthIthVar t nVars iVar) m = Nat.testbit m iVar /\
  tbit (Kit_TruthSetBit t k) m = (m =? k) || tbit t m /\
  tbit (Kit_TruthXorBit t k) m = xorb (m =? k) (tbit t m) /\
  Kit_TruthHasBit t m = tbit t m /\
  Kit_TruthHasBit (Kit_TruthSetBit t m) m = true.
Proof.
  intros Ht Hm Hk. pose proof (tt_length _ _ Ht).
  assert (m / 32 < length t /\ k / 32 < length t) as [? ?].
  { rewrite nmint_div in Hm, Hk. lia. }
  split; [by apply tbit_IthVar|]. split; [by apply tbit_SetBit|]. split; [by apply tbit_XorBit|].
  split; [apply HasBit_spec, Ht|].
  rewrite HasBit_spec, tbit_SetBit, Nat.eqb_refl; [done..|].
  apply words_wr; auto with words.
Qed.

Lemma bit_access_correct_witness :
  tbit (Kit_TruthIthVar [0; 0; 0; 0]%Z 7 6) 70 = Nat.testbit 70 6.
Proof.
  apply (bit_access_correct 7 6 [0; 0; 0; 0]%Z 70 3); [concrete_tt|vm_compute; lia..].
Defined.

(** [Kit_TruthCountOnes] is the number of minterms of the function;
    [Kit_TruthFindFirstBit] and [Kit_TruthFindFirstZero] return the least minterm at
    which it is 1, or 0, and -1 exactly when there is none. *)
Theorem count_and_find_correct nVars (t : list Z) :
  is_tt nVars t ->
  Kit_TruthCountOnes t nVars = cnt (nmint nVars) (tbit t) /\
  (forall v r, (v, r) = (true, Kit_TruthFindFirstBit t nVars) \/
               (v, r) = (false, Kit_TruthFindFirstZero t nVars) ->
     r = (-1)%Z /\ (forall m, m < nmint nVars -> tbit t m = negb v) \/
     exists m, r = Z.of_nat m /\ m < nmint nVars /\ tbit t m = v /\ forall k, k < m -> tbit t k = negb v).
Proof.
  intros Ht. split; [apply CountOnes_spec, Ht|]. rewrite nmint_words. intros v r [E|E]; injection E as -> ->.
  - refine (FindFirst_spec (fun w => t.[w]) _ (tbit t) _ _ _ eq_refl); auto with words.
    intros. by apply tbit_at.
  - destruct (FindFirst_spec (fun w => ~~~ t.[w]) (Kit_TruthWordNum nVars) (fun m => negb (tbit t m)) _ (fun w => word_wnot _)
      ltac:(intros; cbv beta; by rewrite testbit_wnot, tbit_at) eq_refl)
      as [[H1 H2]|(m & H1 & H2 & H3 & H4)]; [left|right; exists m]; (split; [done|]).
    + intros m Hm. apply negb_false_iff. auto.
    + split; [done|]. split; [by apply negb_true_iff|]. intros k Hk. apply negb_false_iff. auto.
Qed.

Lemma count_and_find_correct_witness :
  Kit_TruthCountOnes [0; 0xFF]%Z 6 = 8%Z /\ Kit_TruthFindFirstBit [0; 0xF0]%Z 6 = 36%Z /\
  Kit_TruthCountOnes [0; 0xFF]%Z 6 = cnt (nmint 6) (tbit [0; 0xFF]%Z).
Proof.
  split; [reflexivity|]. split; [reflexivity|].
  apply (count_and_find_correct 6 [0; 0xFF]%Z). concrete_tt.
Defined.
