(* ===== verification/TruthCof.v ===== *)
(** Operations of [kitTruth.c] on one variable: cofactors, quantifiers,
    multiplexers and change of phase, and their extension to sets of variables.

    Every routine switches on the variable: the first five live inside a word
    and are treated by masks and shifts; variable [iVar >= 5] pairs words whose
    indices differ in bit [iVar - 5], visited in blocks of [2 * Step] words.
    Advancing the array pointer by [2 * Step] per block is written as the offset
    [k] of the block. *)
From S2P Require Import Prelude Words Minterm TruthBasic.

(** * The routines *)

Definition Kit_TruthCofactor0 (pTruth : list Z) (nVars iVar : nat) : list Z :=
  let nWords := Kit_TruthWordNum nVars in
  match iVar with
  | 0 => for_up nWords (fun i p => p.[i <- (p.[i] &&& 0x55555555) ||| ((p.[i] &&& 0x55555555) <<< 1)]) pTruth
  | 1 => for_up nWords (fun i p => p.[i <- (p.[i] &&& 0x33333333) ||| ((p.[i] &&& 0x33333333) <<< 2)]) pTruth
  | 2 => for_up nWords (fun i p => p.[i <- (p.[i] &&& 0x0F0F0F0F) ||| ((p.[i] &&& 0x0F0F0F0F) <<< 4)]) pTruth
  | 3 => for_up nWords (fun i p => p.[i <- (p.[i] &&& 0x00FF00FF) ||| ((p.[i] &&& 0x00FF00FF) <<< 8)]) pTruth
  | 4 => for_up nWords (fun i p => p.[i <- (p.[i] &&& 0x0000FFFF) ||| ((p.[i] &&& 0x0000FFFF) <<< 16)]) pTruth
  | _ =>
    let Step := 2 ^ (iVar - 5) in
    for_step nWords (2 * Step) (fun k p => for_up Step (fun i p =>
      p.[k + Step + i <- p.[k + i]]) p) pTruth
  end.

Definition Kit_TruthCofactor1 (pTruth : list Z) (nVars iVar : nat) : list Z :=
  let nWords := Kit_TruthWordNum nVars in
  match iVar with
  | 0 => for_up nWords (fun i p => p.[i <- (p.[i] &&& 0xAAAAAAAA) ||| ((p.[i] &&& 0xAAAAAAAA) >>> 1)]) pTruth
  | 1 => for_up nWords (fun i p => p.[i <- (p.[i] &&& 0xCCCCCCCC) ||| ((p.[i] &&& 0xCCCCCCCC) >>> 2)]) pTruth
  | 2 => for_up nWords (fun i p => p.[i <- (p.[i] &&& 0xF0F0F0F0) ||| ((p.[i] &&& 0xF0F0F0F0) >>> 4)]) pTruth
  | 3 => for_up nWords (fun i p => p.[i <- (p.[i] &&& 0xFF00FF00) ||| ((p.[i] &&& 0xFF00FF00) >>> 8)]) pTruth
  | 4 => for_up nWords (fun i p => p.[i <- (p.[i] &&& 0xFFFF0000) ||| ((p.[i] &&& 0xFFFF0000) >>> 16)]) pTruth
  | _ =>
    let Step := 2 ^ (iVar - 5) in
    for_step nWords (2 * Step) (fun k p => for_up Step (fun i p =>
      p.[k + i <- p.[k + Step + i]]) p) pTruth
  end.

Definition Kit_TruthCofactor0New (pOut pIn : list Z) (nVars iVar : nat) : list Z :=
  let nWords := Kit_TruthWordNum nVars in
  match iVar with
  | 0 => for_up nWords (fun i p => p.[i <- (pIn.[i] &&& 0x55555555) ||| ((pIn.[i] &&& 0x55555555) <<< 1)]) pOut
  | 1 => for_up nWords (fun i p => p.[i <- (pIn.[i] &&& 0x33333333) ||| ((pIn.[i] &&& 0x33333333) <<< 2)]) pOut
  | 2 => for_up nWords (fun i p => p.[i <- (pIn.[i] &&& 0x0F0F0F0F) ||| ((pIn.[i] &&& 0x0F0F0F0F) <<< 4)]) pOut
  | 3 => for_up nWords (fun i p => p.[i <- (pIn.[i] &&& 0x00FF00FF) ||| ((pIn.[i] &&& 0x00FF00FF) <<< 8)]) pOut
  | 4 => for_up nWords (fun i p => p.[i <- (pIn.[i] &&& 0x0000FFFF) ||| ((pIn.[i] &&& 0x0000FFFF) <<< 16)]) pOut
  | _ =>
    let Step := 2 ^ (iVar - 5) in
    for_step nWords (2 * Step) (fun k p => for_up Step (fun i p =>
      let p := p.[k + Step + i <- pIn.[k + i]] in p.[k + i <- p.[k + Step + i]]) p) pOut
  end.

Definition Kit_TruthCofactor1New (pOut pIn : list Z) (nVars iVar : nat) : list Z :=
  let nWords := Kit_TruthWordNum nVars in
  match iVar with
  | 0 => for_up nWords (fun i p => p.[i <- (pIn.[i] &&& 0xAAAAAAAA) ||| ((pIn.[i] &&& 0xAAAAAAAA) >>> 1)]) pOut
  | 1 => for_up nWords (fun i p => p.[i <- (pIn.[i] &&& 0xCCCCCCCC) ||| ((pIn.[i] &&& 0xCCCCCCCC) >>> 2)]) pOut
  | 2 => for_up nWords (fun i p => p.[i <- (pIn.[i] &&& 0xF0F0F0F0) ||| ((pIn.[i] &&& 0xF0F0F0F0) >>> 4)]) pOut
  | 3 => for_up nWords (fun i p => p.[i <- (pIn.[i] &&& 0xFF00FF00) ||| ((pIn.[i] &&& 0xFF00FF00) >>> 8)]) pOut
  | 4 => for_up nWords (fun i p => p.[i <- (pIn.[i] &&& 0xFFFF0000) ||| ((pIn.[i] &&& 0xFFFF0000) >>> 16)]) pOut
  | _ =>
    let Step := 2 ^ (iVar - 5) in
    for_step nWords (2 * Step) (fun k p => for_up Step (fun i p =>
      let p := p.[k + Step + i <- pIn.[k + Step + i]] in p.[k + i <- p.[k + Step + i]]) p) pOut
  end.

Definition Kit_TruthExist (pTruth : list Z) (nVars iVar : nat) : list Z :=
  let nWords := Kit_TruthWordNum nVars in
  match iVar with
  | 0 => for_up nWords (fun i p => p.[i <- p.[i] ||| (((p.[i] &&& 0xAAAAAAAA) >>> 1) ||| ((p.[i] &&& 0x55555555) <<< 1))]) pTruth
  | 1 => for_up nWords (fun i p => p.[i <- p.[i] ||| (((p.[i] &&& 0xCCCCCCCC) >>> 2) ||| ((p.[i] &&& 0x33333333) <<< 2))]) pTruth
  | 2 => for_up nWords (fun i p => p.[i <- p.[i] ||| (((p.[i] &&& 0xF0F0F0F0) >>> 4) ||| ((p.[i] &&& 0x0F0F0F0F) <<< 4))]) pTruth
  | 3 => for_up nWords (fun i p => p.[i <- p.[i] ||| (((p.[i] &&& 0xFF00FF00) >>> 8) ||| ((p.[i] &&& 0x00FF00FF) <<< 8))]) pTruth
  | 4 => for_up nWords (fun i p => p.[i <- p.[i] ||| (((p.[i] &&& 0xFFFF0000) >>> 16) ||| ((p.[i] &&& 0x0000FFFF) <<< 16))]) pTruth
  | _ =>
    let Step := 2 ^ (iVar - 5) in
    for_step nWords (2 * Step) (fun k p => for_up Step (fun i p =>
      let p := p.[k + i <- p.[k + i] ||| p.[k + Step + i]] in p.[k + Step + i <- p.[k + i]]) p) pTruth
  end.

Definition Kit_TruthExistNew (pRes pTruth : list Z) (nVars iVar : nat) : list Z :=
  let nWords := Kit_TruthWordNum nVars in
  match iVar with
  | 0 => for_up nWords (fun i p => p.[i <- pTruth.[i] ||| ((pTruth.[i] &&& 0xAAAAAAAA) >>> 1) ||| ((pTruth.[i] &&& 0x55555555) <<< 1)]) pRes
  | 1 => for_up nWords (fun i p => p.[i <- pTruth.[i] ||| ((pTruth.[i] &&& 0xCCCCCCCC) >>> 2) ||| ((pTruth.[i] &&& 0x33333333) <<< 2)]) pRes
  | 2 => for_up nWords (fun i p => p.[i <- pTruth.[i] ||| ((pTruth.[i] &&& 0xF0F0F0F0) >>> 4) ||| ((pTruth.[i] &&& 0x0F0F0F0F) <<< 4)]) pRes
  | 3 => for_up nWords (fun i p => p.[i <- pTruth.[i] ||| ((pTruth.[i] &&& 0xFF00FF00) >>> 8) ||| ((pTruth.[i] &&& 0x00FF00FF) <<< 8)]) pRes
  | 4 => for_up nWords (fun i p => p.[i <- pTruth.[i] ||| ((pTruth.[i] &&& 0xFFFF0000) >>> 16) ||| ((pTruth.[i] &&& 0x0000FFFF) <<< 16)]) pRes
  | _ =>
    let Step := 2 ^ (iVar - 5) in
    for_step nWords (2 * Step) (fun k p => for_up Step (fun i p =>
      let p := p.[k + i <- pTruth.[k + i] ||| pTruth.[k + Step + i]] in p.[k + Step + i <- p.[k + i]]) p) pRes
  end.

Definition Kit_TruthForall (pTruth : list Z) (nVars iVar : nat) : list Z :=
  let nWords := Kit_TruthWordNum nVars in
  match iVar with
  | 0 => for_up nWords (fun i p => p.[i <- p.[i] &&& (((p.[i] &&& 0xAAAAAAAA) >>> 1) ||| ((p.[i] &&& 0x55555555) <<< 1))]) pTruth
  | 1 => for_up nWords (fun i p => p.[i <- p.[i] &&& (((p.[i] &&& 0xCCCCCCCC) >>> 2) ||| ((p.[i] &&& 0x33333333) <<< 2))]) pTruth
  | 2 => for_up nWords (fun i p => p.[i <- p.[i] &&& (((p.[i] &&& 0xF0F0F0F0) >>> 4) ||| ((p.[i] &&& 0x0F0F0F0F) <<< 4))]) pTruth
  | 3 => for_up nWords (fun i p => p.[i <- p.[i] &&& (((p.[i] &&& 0xFF00FF00) >>> 8) ||| ((p.[i] &&& 0x00FF00FF) <<< 8))]) pTruth
  | 4 => for_up nWords (fun i p => p.[i <- p.[i] &&& (((p.[i] &&& 0xFFFF0000) >>> 16) ||| ((p.[i] &&& 0x0000FFFF) <<< 16))]) pTruth
  | _ =>
    let Step := 2 ^ (iVar - 5) in
    for_step nWords (2 * Step) (fun k p => for_up Step (fun i p =>
      let p := p.[k + i <- p.[k + i] &&& p.[k + Step + i]] in p.[k + Step + i <- p.[k + i]]) p) pTruth
  end.

Definition Kit_TruthForallNew (pRes pTruth : list Z) (nVars iVar : nat) : list Z :=
  let nWords := Kit_TruthWordNum nVars in
  match iVar with
  | 0 => for_up nWords (fun i p => p.[i <- pTruth.[i] &&& (((pTruth.[i] &&& 0xAAAAAAAA) >>> 1) ||| ((pTruth.[i] &&& 0x55555555) <<< 1))]) pRes
  | 1 => for_up nWords (fun i p => p.[i <- pTruth.[i] &&& (((pTruth.[i] &&& 0xCCCCCCCC) >>> 2) ||| ((pTruth.[i] &&& 0x33333333) <<< 2))]) pRes
  | 2 => for_up nWords (fun i p => p.[i <- pTruth.[i] &&& (((pTruth.[i] &&& 0xF0F0F0F0) >>> 4) ||| ((pTruth.[i] &&& 0x0F0F0F0F) <<< 4))]) pRes
  | 3 => for_up nWords (fun i p => p.[i <- pTruth.[i] &&& (((pTruth.[i] &&& 0xFF00FF00) >>> 8) ||| ((pTruth.[i] &&& 0x00FF00FF) <<< 8))]) pRes
  | 4 => for_up nWords (fun i p => p.[i <- pTruth.[i] &&& (((pTruth.[i] &&& 0xFFFF0000) >>> 16) ||| ((pTruth.[i] &&& 0x0000FFFF) <<< 16))]) pRes
  | _ =>
    let Step := 2 ^ (iVar - 5) in
    for_step nWords (2 * Step) (fun k p => for_up Step (fun i p =>
      let p := p.[k + i <- pTruth.[k + i] &&& pTruth.[k + Step + i]] in p.[k + Step + i <- p.[k + i]]) p) pRes
  end.

Definition Kit_TruthUniqueNew (pRes pTruth : list Z) (nVars iVar : nat) : list Z :=
  let nWords := Kit_TruthWordNum nVars in
  match iVar with
  | 0 => for_up nWords (fun i p => p.[i <- pTruth.[i] ^^^ (((pTruth.[i] &&& 0xAAAAAAAA) >>> 1) ||| ((pTruth.[i] &&& 0x55555555) <<< 1))]) pRes
  | 1 => for_up nWords (fun i p => p.[i <- pTruth.[i] ^^^ (((pTruth.[i] &&& 0xCCCCCCCC) >>> 2) ||| ((pTruth.[i] &&& 0x33333333) <<< 2))]) pRes
  | 2 => for_up nWords (fun i p => p.[i <- pTruth.[i] ^^^ (((pTruth.[i] &&& 0xF0F0F0F0) >>> 4) ||| ((pTruth.[i] &&& 0x0F0F0F0F) <<< 4))]) pRes
  | 3 => for_up nWords (fun i p => p.[i <- pTruth.[i] ^^^ (((pTruth.[i] &&& 0xFF00FF00) >>> 8) ||| ((pTruth.[i] &&& 0x00FF00FF) <<< 8))]) pRes
  | 4 => for_up nWords (fun i p => p.[i <- pTruth.[i] ^^^ (((pTruth.[i] &&& 0xFFFF0000) >>> 16) ||| ((pTruth.[i] &&& 0x0000FFFF) <<< 16))]) pRes
  | _ =>
    let Step := 2 ^ (iVar - 5) in
    for_step nWords (2 * Step) (fun k p => for_up Step (fun i p =>
      let p := p.[k + i <- pTruth.[k + i] ^^^ pTruth.[k + Step + i]] in p.[k + Step + i <- p.[k + i]]) p) pRes
  end.

Definition Kit_TruthMuxVar (pOut pCof0 pCof1 : list Z) (nVars iVar : nat) : list Z :=
  let nWords := Kit_TruthWordNum nVars in
  match iVar with
  | 0 => for_up nWords (fun i p => p.[i <- (pCof0.[i] &&& 0x55555555) ||| (pCof1.[i] &&& 0xAAAAAAAA)]) pOut
  | 1 => for_up nWords (fun i p => p.[i <- (pCof0.[i] &&& 0x33333333) ||| (pCof1.[i] &&& 0xCCCCCCCC)]) pOut
  | 2 => for_up nWords (fun i p => p.[i <- (pCof0.[i] &&& 0x0F0F0F0F) ||| (pCof1.[i] &&& 0xF0F0F0F0)]) pOut
  | 3 => for_up nWords (fun i p => p.[i <- (pCof0.[i] &&& 0x00FF00FF) ||| (pCof1.[i] &&& 0xFF00FF00)]) pOut
  | 4 => for_up nWords (fun i p => p.[i <- (pCof0.[i] &&& 0x0000FFFF) ||| (pCof1.[i] &&& 0xFFFF0000)]) pOut
  | _ =>
    let Step := 2 ^ (iVar - 5) in
    for_step nWords (2 * Step) (fun k p => for_up Step (fun i p =>
      let p := p.[k + i <- pCof0.[k + i]] in p.[k + Step + i <- pCof1.[k + Step + i]]) p) pOut
  end.

Definition Kit_TruthMuxVarPhase (pOut pCof0 pCof1 : list Z) (nVars iVar : nat) (fCompl0 : bool) : list Z :=
  if negb fCompl0 then Kit_TruthMuxVar pOut pCof0 pCof1 nVars iVar else
  let nWords := Kit_TruthWordNum nVars in
  match iVar with
  | 0 => for_up nWords (fun i p => p.[i <- (~~~ pCof0.[i] &&& 0x55555555) ||| (pCof1.[i] &&& 0xAAAAAAAA)]) pOut
  | 1 => for_up nWords (fun i p => p.[i <- (~~~ pCof0.[i] &&& 0x33333333) ||| (pCof1.[i] &&& 0xCCCCCCCC)]) pOut
  | 2 => for_up nWords (fun i p => p.[i <- (~~~ pCof0.[i] &&& 0x0F0F0F0F) ||| (pCof1.[i] &&& 0xF0F0F0F0)]) pOut
  | 3 => for_up nWords (fun i p => p.[i <- (~~~ pCof0.[i] &&& 0x00FF00FF) ||| (pCof1.[i] &&& 0xFF00FF00)]) pOut
  | 4 => for_up nWords (fun i p => p.[i <- (~~~ pCof0.[i] &&& 0x0000FFFF) ||| (pCof1.[i] &&& 0xFFFF0000)]) pOut
  | _ =>
    let Step := 2 ^ (iVar - 5) in
    for_step nWords (2 * Step) (fun k p => for_up Step (fun i p =>
      let p := p.[k + i <- ~~~ pCof0.[k + i]] in p.[k + Step + i <- pCof1.[k + Step + i]]) p) pOut
  end.

Definition Kit_TruthChangePhase (pTruth : list Z) (nVars iVar : nat) : list Z :=
  let nWords := Kit_TruthWordNum nVars in
  match iVar with
  | 0 => for_up nWords (fun i p => p.[i <- ((p.[i] &&& 0x55555555) <<< 1) ||| ((p.[i] &&& 0xAAAAAAAA) >>> 1)]) pTruth
  | 1 => for_up nWords (fun i p => p.[i <- ((p.[i] &&& 0x33333333) <<< 2) ||| ((p.[i] &&& 0xCCCCCCCC) >>> 2)]) pTruth
  | 2 => for_up nWords (fun i p => p.[i <- ((p.[i] &&& 0x0F0F0F0F) <<< 4) ||| ((p.[i] &&& 0xF0F0F0F0) >>> 4)]) pTruth
  | 3 => for_up nWords (fun i p => p.[i <- ((p.[i] &&& 0x00FF00FF) <<< 8) ||| ((p.[i] &&& 0xFF00FF00) >>> 8)]) pTruth
  | 4 => for_up nWords (fun i p => p.[i <- ((p.[i] &&& 0x0000FFFF) <<< 16) ||| ((p.[i] &&& 0xFFFF0000) >>> 16)]) pTruth
  | _ =>
    let Step := 2 ^ (iVar - 5) in
    for_step nWords (2 * Step) (fun k p => for_up Step (fun i p =>
      let Temp := p.[k + i] in
      let p := p.[k + i <- p.[k + Step + i]] in p.[k + Step + i <- Temp]) p) pTruth
  end.

(** Quantification of every variable in the mask. *)
Definition Kit_TruthExistSet (pRes pTruth : list Z) (nVars : nat) (uMask : Z) : list Z :=
  for_up nVars (fun v p =>
    if negb ((uMask &&& (1 <<< v)) =? 0)%Z then Kit_TruthExist p nVars v else p)
    (Kit_TruthCopy pRes pTruth nVars).

Definition Kit_TruthForallSet (pRes pTruth : list Z) (nVars : nat) (uMask : Z) : list Z :=
  for_up nVars (fun v p =>
    if negb ((uMask &&& (1 <<< v)) =? 0)%Z then Kit_TruthForall p nVars v else p)
    (Kit_TruthCopy pRes pTruth nVars).

(** * Values *)

(** A loop that rewrites word [w] from the words at [w]: the same from the array itself
    as from a copy of its initial value. *)
Lemma tbit_up n (f : nat -> list Z -> Z) p m :
  (forall w q q', q.[w] = q'.[w] -> f w q = f w q') -> n <= length p -> m / 32 < n ->
  tbit (for_up n (fun w q => wr q w (f w q)) p) m = Z.testbit (f (m / 32) p) (Z.of_nat (m mod 32)).
Proof.
  intros Hf Hp Hm. unfold tbit. rewrite (rd_map_loop n (length p)); [| | | |done].
  - rewrite decide_True, rd_wr_eq by (done || lia). done.
  - intros. apply length_wr.
  - intros. by apply rd_wr_ne.
  - intros i q q' Hi Hq Hq' He. rewrite !rd_wr_eq by lia. by apply Hf.
Qed.

(** Words paired by variable [iVar >= 5]. *)
Lemma blocks_hi nVars v : 5 + v < nVars -> exists c, Kit_TruthWordNum nVars = c * (2 * 2 ^ v).
Proof.
  intros H. exists (2 ^ (nVars - 6 - v)). unfold Kit_TruthWordNum.
  destruct (Nat.leb_spec nVars 5); [lia|]. change (2 * 2 ^ v) with (2 ^ S v).
  rewrite <- Nat.pow_add_r. f_equal. lia.
Qed.

Ltac rdwr :=
  repeat first [ rewrite rd_wr_eq by (rewrite ?length_wr; lia) | rewrite rd_wr_ne by lia ].

Section pairs.
Context (nVars v : nat) (B : nat -> nat -> list Z -> list Z) (p : list Z).
Context (Hlen : forall k i p, length (B k i p) = length p).
Context (Hframe : forall k i p j, j <> k + i -> j <> k + 2 ^ v + i -> (B k i p).[j] = p.[j]).
Context (Hlocal : forall k i q q' j, k + 2 ^ v + i < length p -> 0 < 2 ^ v ->
  length q = length p -> length q' = length p ->
  q.[k + i] = q'.[k + i] -> q.[k + 2 ^ v + i] = q'.[k + 2 ^ v + i] ->
  j = k + i \/ j = k + 2 ^ v + i -> (B k i q).[j] = (B k i q').[j]).

(** The value at a minterm after a loop over pairs of words: words [w0 = k + i]
    and [w1 = k + 2 ^ v + i] hold the two cofactors. *)
Lemma tbit_pairs m :
  5 + v < nVars -> Kit_TruthWordNum nVars <= length p -> m < nmint nVars ->
  exists k i, 0 < 2 ^ v /\ k + 2 ^ v + i < length p /\
    Nat.clearbit m (5 + v) / 32 = k + i /\ Nat.setbit m (5 + v) / 32 = k + 2 ^ v + i /\
    m / 32 = (if Nat.testbit m (5 + v) then k + 2 ^ v + i else k + i) /\
    tbit (for_step (Kit_TruthWordNum nVars) (2 * 2 ^ v)
            (fun k p => for_up (2 ^ v) (fun i p => B k i p) p) p) m
    = Z.testbit (B k i p).[m / 32] (Z.of_nat (m mod 32)).
Proof using Hlen Hframe Hlocal.
  intros Hv Hp Hm.
  assert (2 ^ v <> 0) as Hnz by (apply Nat.pow_nonzero; lia).
  destruct (rd_pair_loop (Kit_TruthWordNum nVars) (length p) v B) with (p := p) (w := m / 32)
    as (k & i & Hi & Hc & Hs & Hb & Hr); auto.
  - intros k i q q' j Hb. apply Hlocal; lia.
  - by apply blocks_hi.
  - by apply nmint_div.
  - exists k, i.
    assert (Nat.clearbit m (5 + v) / 32 = k + i) as Hc'
      by (rewrite clr_div_hi by lia; by rewrite (Nat.add_comm 5), Nat.add_sub, Hc).
    assert (Nat.setbit m (5 + v) / 32 = k + 2 ^ v + i) as Hs'
      by (rewrite set_div_hi by lia; by rewrite (Nat.add_comm 5), Nat.add_sub, Hs).
    clear Hc Hs. repeat (split; [done || lia|]).
    split; [|unfold tbit; by rewrite <- Hr].
    destruct (Nat.testbit m (5 + v)) eqn:E.
    + by rewrite <- Hs', setbit_id.
    + by rewrite <- Hc', clearbit_id.
Qed.
End pairs.

(** Words of the result of the loops. *)
Lemma words_up n (body : nat -> list Z -> list Z) p :
  (forall i q, Forall is_word q -> Forall is_word (body i q)) ->
  Forall is_word p -> Forall is_word (for_up n body p).
Proof. intros Hb Hp. apply (for_up_ind (fun _ => Forall is_word)); auto. Qed.

Lemma length_up n (body : nat -> list Z -> list Z) p :
  (forall i q, length (body i q) = length q) -> length (for_up n body p) = length p.
Proof.
  intros Hb. apply (for_up_ind (fun _ q => length q = length p)); [done|]. intros i s _ <-. apply Hb.
Qed.

(** Reduces a routine to its case for a variable. *)
Ltac switch f iVar :=
  unfold f; destruct iVar as [|[|[|[|[|iVar]]]]]; cbv beta iota zeta;
  try replace (S (S (S (S (S iVar)))) - 5) with iVar by lia.

Ltac length_case f iVar :=
  switch f iVar; unfold for_step;
  repeat (apply length_up; intros; rewrite ?length_wr; try done).

Ltac words_case f iVar :=
  switch f iVar; unfold for_step;
  repeat (apply words_up; intros); auto 15 with words.

(** A variable inside a word: the 32 positions, by evaluation. *)
Ltac lo_case m :=
  rewrite tbit_up by (done || (let E := fresh in intros ? ? ? E; rewrite ?E; reflexivity));
  unfold tbit;
  rewrite ?clr_div_lo, ?set_div_lo, ?clr_mod_lo, ?set_mod_lo by lia;
  try rewrite testbit_lo by lia;
  repeat match goal with |- context [?p.[m / 32]] => generalize (p.[m / 32]); intro end;
  let Hb := fresh in let b := fresh "b" in
  pose proof (mod32 m) as Hb; generalize dependent (m mod 32); intros b Hb; word_bits b.

(** A variable that pairs words. *)
Ltac hi_case m :=
  match goal with
  | |- tbit (for_step (Kit_TruthWordNum ?n) (2 * 2 ^ ?v) (fun k p => for_up (2 ^ ?v) (fun i q => @?B k i q) p) ?t) m = _ =>
    let k := fresh "k" in let i := fresh "i" in let Hc := fresh in let Hs := fresh in
    let Hd := fresh in
    destruct (tbit_pairs n v B t) with (m := m) as (k & i & ? & ? & Hc & Hs & Hd & ->);
    [ intros; rewrite ?length_wr; done
    | intros; rdwr; done
    | let E0 := fresh in let E1 := fresh in
      intros ? ? ? ? ? ? ? ? ? E0 E1 [-> | ->]; rdwr; rewrite ?E0, ?E1; done
    | lia | done | done
    | ];
    cbv beta; unfold tbit;
    change (S (S (S (S (S v))))) with (5 + v);
    rewrite ?Hc, ?Hs, ?clr_mod_hi, ?set_mod_hi by lia;
    destruct (Nat.testbit m (5 + v)); rewrite ?Hd; rdwr
  end.

(** Both, for a routine applied to variable [v]; what is left combines values. *)
Ltac by_variable f v m :=
  intros;
  match goal with H : m < nmint ?nVars |- _ =>
    assert (m / 32 < Kit_TruthWordNum nVars) by (by apply nmint_div)
  end;
  switch f v; [lo_case m .. | hi_case m];
  rewrite ?Z.lor_spec, ?Z.land_spec, ?Z.lxor_spec, ?testbit_wnot by apply mod32; try done.

Lemma length_Cofactor0 t nVars v : length (Kit_TruthCofactor0 t nVars v) = length t.
Proof. length_case Kit_TruthCofactor0 v. Qed.
Lemma words_Cofactor0 t nVars v :
  Forall is_word t -> Forall is_word (Kit_TruthCofactor0 t nVars v).
Proof. intros. words_case Kit_TruthCofactor0 v. Qed.
Lemma tbit_Cofactor0 t nVars v m :
  v < nVars -> Kit_TruthWordNum nVars <= length t -> m < nmint nVars ->
  tbit (Kit_TruthCofactor0 t nVars v) m = tbit t (Nat.clearbit m v).
Proof. by_variable Kit_TruthCofactor0 v m. Qed.

Lemma length_Cofactor1 t nVars v : length (Kit_TruthCofactor1 t nVars v) = length t.
Proof. length_case Kit_TruthCofactor1 v. Qed.
Lemma words_Cofactor1 t nVars v :
  Forall is_word t -> Forall is_word (Kit_TruthCofactor1 t nVars v).
Proof. intros. words_case Kit_TruthCofactor1 v. Qed.
Lemma tbit_Cofactor1 t nVars v m :
  v < nVars -> Kit_TruthWordNum nVars <= length t -> m < nmint nVars ->
  tbit (Kit_TruthCofactor1 t nVars v) m = tbit t (Nat.setbit m v).
Proof. by_variable Kit_TruthCofactor1 v m. Qed.

Lemma length_Cofactor0New p t nVars v : length (Kit_TruthCofactor0New p t nVars v) = length p.
Proof. length_case Kit_TruthCofactor0New v. Qed.
Lemma words_Cofactor0New p t nVars v :
  Forall is_word p -> Forall is_word t -> Forall is_word (Kit_TruthCofactor0New p t nVars v).
Proof. intros. words_case Kit_TruthCofactor0New v. Qed.
Lemma tbit_Cofactor0New p t nVars v m :
  v < nVars -> Kit_TruthWordNum nVars <= length p -> m < nmint nVars ->
  tbit (Kit_TruthCofactor0New p t nVars v) m = tbit t (Nat.clearbit m v).
Proof. by_variable Kit_TruthCofactor0New v m. Qed.

Lemma length_Cofactor1New p t nVars v : length (Kit_TruthCofactor1New p t nVars v) = length p.
Proof. length_case Kit_TruthCofactor1New v. Qed.
Lemma words_Cofactor1New p t nVars v :
  Forall is_word p -> Forall is_word t -> Forall is_word (Kit_TruthCofactor1New p t nVars v).
Proof. intros. words_case Kit_TruthCofactor1New v. Qed.
Lemma tbit_Cofactor1New p t nVars v m :
  v < nVars -> Kit_TruthWordNum nVars <= length p -> m < nmint nVars ->
  tbit (Kit_TruthCofactor1New p t nVars v) m = tbit t (Nat.setbit m v).
Proof. by_variable Kit_TruthCofactor1New v m. Qed.

Lemma length_Exist t nVars v : length (Kit_TruthExist t nVars v) = length t.
Proof. length_case Kit_TruthExist v. Qed.
Lemma words_Exist t nVars v :
  Forall is_word t -> Forall is_word (Kit_TruthExist t nVars v).
Proof. intros. words_case Kit_TruthExist v. Qed.
Lemma tbit_Exist t nVars v m :
  v < nVars -> Kit_TruthWordNum nVars <= length t -> m < nmint nVars ->
  tbit (Kit_TruthExist t nVars v) m = tbit t (Nat.clearbit m v) || tbit t (Nat.setbit m v).
Proof. by_variable Kit_TruthExist v m. Qed.

Lemma length_ExistNew p t nVars v : length (Kit_TruthExistNew p t nVars v) = length p.
Proof. length_case Kit_TruthExistNew v. Qed.
Lemma words_ExistNew p t nVars v :
  Forall is_word p -> Forall is_word t -> Forall is_word (Kit_TruthExistNew p t nVars v).
Proof. intros. words_case Kit_TruthExistNew v. Qed.
Lemma tbit_ExistNew p t nVars v m :
  v < nVars -> Kit_TruthWordNum nVars <= length p -> m < nmint nVars ->
  tbit (Kit_TruthExistNew p t nVars v) m = tbit t (Nat.clearbit m v) || tbit t (Nat.setbit m v).
Proof. by_variable Kit_TruthExistNew v m. Qed.

Lemma length_Forall t nVars v : length (Kit_TruthForall t nVars v) = length t.
Proof. length_case Kit_TruthForall v. Qed.
Lemma words_Forall t nVars v :
  Forall is_word t -> Forall is_word (Kit_TruthForall t nVars v).
Proof. intros. words_case Kit_TruthForall v. Qed.
Lemma tbit_Forall t nVars v m :
  v < nVars -> Kit_TruthWordNum nVars <= length t -> m < nmint nVars ->
  tbit (Kit_TruthForall t nVars v) m = tbit t (Nat.clearbit m v) && tbit t (Nat.setbit m v).
Proof. by_variable Kit_TruthForall v m. Qed.

Lemma length_ForallNew p t nVars v : length (Kit_TruthForallNew p t nVars v) = length p.
Proof. length_case Kit_TruthForallNew v. Qed.
Lemma words_ForallNew p t nVars v :
  Forall is_word p -> Forall is_word t -> Forall is_word (Kit_TruthForallNew p t nVars v).
Proof. intros. words_case Kit_TruthForallNew v. Qed.
Lemma tbit_ForallNew p t nVars v m :
  v < nVars -> Kit_TruthWordNum nVars <= length p -> m < nmint nVars ->
  tbit (Kit_TruthForallNew p t nVars v) m = tbit t (Nat.clearbit m v) && tbit t (Nat.setbit m v).
Proof. by_variable Kit_TruthForallNew v m. Qed.

Lemma length_UniqueNew p t nVars v : length (Kit_TruthUniqueNew p t nVars v) = length p.
Proof. length_case Kit_TruthUniqueNew v. Qed.
Lemma words_UniqueNew p t nVars v :
  Forall is_word p -> Forall is_word t -> Forall is_word (Kit_TruthUniqueNew p t nVars v).
Proof. intros. words_case Kit_TruthUniqueNew v. Qed.
Lemma tbit_UniqueNew p t nVars v m :
  v < nVars -> Kit_TruthWordNum nVars <= length p -> m < nmint nVars ->
  tbit (Kit_TruthUniqueNew p t nVars v) m = xorb (tbit t (Nat.clearbit m v)) (tbit t (Nat.setbit m v)).
Proof. by_variable Kit_TruthUniqueNew v m. Qed.

Lemma length_MuxVar p t0 t1 nVars v : length (Kit_TruthMuxVar p t0 t1 nVars v) = length p.
Proof. length_case Kit_TruthMuxVar v. Qed.
Lemma words_MuxVar p t0 t1 nVars v :
  Forall is_word p -> Forall is_word t0 -> Forall is_word t1 -> Forall is_word (Kit_TruthMuxVar p t0 t1 nVars v).
Proof. intros. words_case Kit_TruthMuxVar v. Qed.
Lemma tbit_MuxVar p t0 t1 nVars v m :
  v < nVars -> Kit_TruthWordNum nVars <= length p -> m < nmint nVars ->
  tbit (Kit_TruthMuxVar p t0 t1 nVars v) m = if Nat.testbit m v then tbit t1 m else tbit t0 m.
Proof. by_variable Kit_TruthMuxVar v m. Qed.

Lemma length_MuxVarPhase p t0 t1 f0 nVars v :
  length (Kit_TruthMuxVarPhase p t0 t1 nVars v f0) = length p.
Proof.
  unfold Kit_TruthMuxVarPhase. destruct f0; cbn [negb]; [|apply length_MuxVar].
  length_case @id v.
Qed.
Lemma words_MuxVarPhase p t0 t1 f0 nVars v :
  Forall is_word p -> Forall is_word t0 -> Forall is_word t1 ->
  Forall is_word (Kit_TruthMuxVarPhase p t0 t1 nVars v f0).
Proof.
  intros. unfold Kit_TruthMuxVarPhase. destruct f0; cbn [negb]; [|by apply words_MuxVar].
  words_case @id v.
Qed.
Lemma tbit_MuxVarPhase p t0 t1 f0 nVars v m :
  v < nVars -> Kit_TruthWordNum nVars <= length p -> m < nmint nVars ->
  tbit (Kit_TruthMuxVarPhase p t0 t1 nVars v f0) m =
    if Nat.testbit m v then tbit t1 m else xorb f0 (tbit t0 m).
Proof.
  unfold Kit_TruthMuxVarPhase. destruct f0; cbn [negb].
  - by_variable @id v m.
  - intros. rewrite tbit_MuxVar by done. by destruct (tbit t0 m).
Qed.

Lemma length_ChangePhase t nVars v : length (Kit_TruthChangePhase t nVars v) = length t.
Proof. length_case Kit_TruthChangePhase v. Qed.
Lemma words_ChangePhase t nVars v :
  Forall is_word t -> Forall is_word (Kit_TruthChangePhase t nVars v).
Proof. intros. words_case Kit_TruthChangePhase v. Qed.
Lemma tbit_ChangePhase t nVars v m :
  v < nVars -> Kit_TruthWordNum nVars <= length t -> m < nmint nVars ->
  tbit (Kit_TruthChangePhase t nVars v) m = if Nat.testbit m v then tbit t (Nat.clearbit m v) else tbit t (Nat.setbit m v).
Proof. by_variable Kit_TruthChangePhase v m. Qed.

#[export] Hint Rewrite length_Cofactor0 length_Cofactor1 length_Cofactor0New length_Cofactor1New
  length_Exist length_ExistNew length_Forall length_ForallNew length_UniqueNew length_MuxVar
  length_MuxVarPhase length_ChangePhase : kitlen.
#[export] Hint Resolve words_Cofactor0 words_Cofactor1 words_Cofactor0New words_Cofactor1New
  words_Exist words_ExistNew words_Forall words_ForallNew words_UniqueNew words_MuxVar
  words_MuxVarPhase words_ChangePhase : words.

(** ** Cofactors as tables *)

Lemma is_tt_Cofactor0 nVars v t : is_tt nVars t -> is_tt nVars (Kit_TruthCofactor0 t nVars v).
Proof. intros [? ?]. split; autorewrite with kitlen; auto with words. Qed.
Lemma is_tt_Cofactor1 nVars v t : is_tt nVars t -> is_tt nVars (Kit_TruthCofactor1 t nVars v).
Proof. intros [? ?]. split; autorewrite with kitlen; auto with words. Qed.
Lemma is_tt_Cofactor0New nVars v p t :
  is_tt nVars p -> is_tt nVars t -> is_tt nVars (Kit_TruthCofactor0New p t nVars v).
Proof. intros [? ?] [? ?]. split; autorewrite with kitlen; auto with words. Qed.
Lemma is_tt_Cofactor1New nVars v p t :
  is_tt nVars p -> is_tt nVars t -> is_tt nVars (Kit_TruthCofactor1New p t nVars v).
Proof. intros [? ?] [? ?]. split; autorewrite with kitlen; auto with words. Qed.
Lemma is_tt_ChangePhase nVars v t : is_tt nVars t -> is_tt nVars (Kit_TruthChangePhase t nVars v).
Proof. intros [? ?]. split; autorewrite with kitlen; auto with words. Qed.
#[export] Hint Resolve is_tt_Cofactor0 is_tt_Cofactor1 is_tt_Cofactor0New is_tt_Cofactor1New
  is_tt_ChangePhase : words.

Lemma clearbit_nmint nVars v m : m < nmint nVars -> Nat.clearbit m v < nmint nVars.
Proof. apply clearbit_lt. Qed.
Lemma setbit_nmint nVars v m : m < nmint nVars -> v < nVars -> Nat.setbit m v < nmint nVars.
Proof. intros. apply setbit_lt; [done|]. lia. Qed.
#[export] Hint Resolve clearbit_nmint setbit_nmint : words.

(** ** Sets of variables *)

(** [m'] differs from [m] only in variables below [k] that are in the mask. *)
Definition differ_in (k : nat) (uMask : Z) (m m' : nat) : Prop :=
  forall i, Nat.testbit m' i <> Nat.testbit m i -> i < k /\ Z.testbit uMask (Z.of_nat i) = true.

Lemma differ_in_0 uMask m m' : differ_in 0 uMask m m' <-> m' = m.
Proof.
  split; [|intros -> i; done]. intros H. apply Nat.bits_inj. intros i.
  destruct (decide (Nat.testbit m' i = Nat.testbit m i)) as [|Hn]; [done|]. apply H in Hn. lia.
Qed.

Lemma differ_in_S k uMask m m' :
  differ_in (S k) uMask m m' <->
  differ_in k uMask m m' \/ Z.testbit uMask (Z.of_nat k) = true /\
    (differ_in k uMask (Nat.clearbit m k) m' \/ differ_in k uMask (Nat.setbit m k) m').
Proof.
  split.
  - intros H. destruct (decide (Nat.testbit m' k = Nat.testbit m k)) as [He|Hn].
    + left. intros i Hi. destruct (decide (i = k)) as [->|]; [done|]. destruct (H i Hi). split; [lia|done].
    + right. split; [by apply H|]. destruct (Nat.testbit m' k) eqn:E; [right|left];
        intros i; rewrite ?setbit_if, ?clearbit_if;
        destruct (Nat.eqb_spec k i) as [<-|]; intros Hi; try congruence;
        destruct (H i Hi); (split; [lia|done]).
  - intros [H|[Hk [H|H]]] i Hi.
    + destruct (H i Hi). split; [lia|done].
    + destruct (decide (i = k)) as [->|]; [split; [lia|done]|].
      destruct (H i); [|split; [lia|done]]. rewrite clearbit_if. by destruct (Nat.eqb_spec k i); [lia|].
    + destruct (decide (i = k)) as [->|]; [split; [lia|done]|].
      destruct (H i); [|split; [lia|done]]. rewrite setbit_if. by destruct (Nat.eqb_spec k i); [lia|].
Qed.

Section quantify_set.
Context (nVars : nat) (uMask : Z) (F : list Z -> nat -> nat -> list Z) (op : bool -> bool -> bool) (b : bool).
Context (HFlen : forall t v, length (F t nVars v) = length t).
Context (HF : forall t v m, v < nVars -> Kit_TruthWordNum nVars <= length t -> m < nmint nVars ->
  tbit (F t nVars v) m = op (tbit t (Nat.clearbit m v)) (tbit t (Nat.setbit m v))).
Context (Hop : forall x y, op x y = b <-> x = b \/ y = b).
Context (Hn : nVars <= 31).

Lemma quantify_set t m :
  Kit_TruthWordNum nVars <= length t -> m < nmint nVars ->
  tbit (for_up nVars (fun v p => if negb ((uMask &&& (1 <<< v)) =? 0)%Z then F p nVars v else p) t) m = b
  <-> exists m', m' < nmint nVars /\ differ_in nVars uMask m m' /\ tbit t m' = b.
Proof using HFlen HF Hop Hn.
  intros Ht. revert m. enough (forall k, k <= nVars -> forall m, m < nmint nVars ->
    tbit (for_up k (fun v p => if negb ((uMask &&& (1 <<< v)) =? 0)%Z then F p nVars v else p) t) m = b
    <-> exists m', m' < nmint nVars /\ differ_in k uMask m m' /\ tbit t m' = b) as H by auto.
  induction k as [|k IH]; intros Hk m Hm.
  { setoid_rewrite differ_in_0. split; [by exists m|]. by intros (? & _ & -> & ?). }
  rewrite for_up_S, mask_bit, negb_involutive by lia.
  set (r := for_up k _ t) in *.
  assert (length r = length t) as Hr.
  { apply length_up. intros i q. by destruct (negb _). }
  specialize (IH ltac:(lia)). setoid_rewrite differ_in_S.
  destruct (Z.testbit uMask (Z.of_nat k)).
  - rewrite HF, Hop, !IH by (rewrite ?Hr; auto with words). split.
    + intros [(m' & ? & ? & ?)|(m' & ? & ? & ?)]; exists m'; tauto.
    + intros (m' & Hm' & [Hd|[_ [Hd|Hd]]] & Hb).
      * destruct (Nat.testbit m k) eqn:E; [right|left]; exists m'; by rewrite ?setbit_id, ?clearbit_id.
      * left. by exists m'.
      * right. by exists m'.
  - rewrite IH by done. split; intros (m' & ? & Hd & ?); exists m'; [tauto|].
    by destruct Hd as [|[? _]].
Qed.
End quantify_set.

Lemma ExistSet_spec nVars uMask p t m :
  nVars <= 31 -> Kit_TruthWordNum nVars <= length p -> m < nmint nVars ->
  tbit (Kit_TruthExistSet p t nVars uMask) m = true <->
  exists m', m' < nmint nVars /\ differ_in nVars uMask m m' /\ tbit t m' = true.
Proof.
  intros Hn Hp Hm. unfold Kit_TruthExistSet. rewrite (quantify_set _ _ _ orb true).
  - split; intros (m' & H1 & H2 & H3); exists m'; rewrite tbit_Copy in *; auto.
  - intros. apply length_Exist.
  - intros. by apply tbit_Exist.
  - apply orb_true_iff.
  - done.
  - autorewrite with kitlen. done.
  - done.
Qed.

Lemma ForallSet_spec nVars uMask p t m :
  nVars <= 31 -> Kit_TruthWordNum nVars <= length p -> m < nmint nVars ->
  tbit (Kit_TruthForallSet p t nVars uMask) m = true <->
  forall m', m' < nmint nVars -> differ_in nVars uMask m m' -> tbit t m' = true.
Proof.
  intros Hn Hp Hm. unfold Kit_TruthForallSet.
  rewrite <- not_false_iff_true. rewrite (quantify_set _ _ _ andb false).
  - split.
    + intros H m' H1 H2. destruct (tbit t m') eqn:E; [done|]. exfalso. apply H.
      exists m'. by rewrite tbit_Copy.
    + intros H (m' & H1 & H2 & H3). rewrite tbit_Copy, H in H3; done.
  - intros. apply length_Forall.
  - intros. by apply tbit_Forall.
  - apply andb_false_iff.
  - done.
  - autorewrite with kitlen. done.
  - done.
Qed.

(** * Properties *)

(** The four cofactor routines replace the value at each minterm by the value
    of the input at the minterm with the variable set to 0, or to 1. *)
Theorem cofactors_correct nVars iVar (t p : list Z) m :
  iVar < nVars -> Kit_TruthWordNum nVars <= length t -> Kit_TruthWordNum nVars <= length p ->
  m < nmint nVars ->
  tbit (Kit_TruthCofactor0 t nVars iVar) m = tbit t (Nat.clearbit m iVar) /\
  tbit (Kit_TruthCofactor1 t nVars iVar) m = tbit t (Nat.setbit m iVar) /\
  tbit (Kit_TruthCofactor0New p t nVars iVar) m = tbit t (Nat.clearbit m iVar) /\
  tbit (Kit_TruthCofactor1New p t nVars iVar) m = tbit t (Nat.setbit m iVar).
Proof.
  intros. by rewrite tbit_Cofactor0, tbit_Cofactor1, tbit_Cofactor0New, tbit_Cofactor1New.
Qed.

Lemma cofactors_correct_witness :
  tbit (Kit_TruthCofactor1 [0xCAFE0123; 0x89ABCDEF]%Z 6 5) 8 = tbit [0xCAFE0123; 0x89ABCDEF]%Z 40.
Proof.
  apply (cofactors_correct 6 5 [0xCAFE0123; 0x89ABCDEF]%Z [0; 0]%Z 8); vm_compute; lia.
Defined.

(** Shannon expansion: multiplexing the two cofactors of a function by the
    variable gives the function back, also when the first one is stored complemented,
    and the table rebuilt is the same array of words. *)
Theorem shannon_expansion nVars iVar (p q q' q'' t : list Z) f0 :
  iVar < nVars -> is_tt nVars t -> is_tt nVars p -> is_tt nVars q -> is_tt nVars q' -> is_tt nVars q'' ->
  length t = Kit_TruthWordNum nVars -> length p = Kit_TruthWordNum nVars ->
  let c0 := Kit_TruthCofactor0New q t nVars iVar in
  let c1 := Kit_TruthCofactor1New q' t nVars iVar in
  let c0' := if f0 : bool then Kit_TruthNot q'' c0 nVars else c0 in
  Kit_TruthMuxVarPhase p c0' c1 nVars iVar f0 = t /\
  Kit_TruthMuxVar p c0 c1 nVars iVar = t.
Proof.
  intros Hv Ht Hp Hq Hq' Hq'' Lt Lp c0 c1 c0'.
  assert (forall m, m < nmint nVars -> tbit c0 m = tbit t (Nat.clearbit m iVar)) as H0
    by (intros; apply tbit_Cofactor0New; [done|apply Hq|done]).
  assert (forall m, m < nmint nVars -> tbit c1 m = tbit t (Nat.setbit m iVar)) as H1
    by (intros; apply tbit_Cofactor1New; [done|apply Hq'|done]).
  assert (forall m, m < nmint nVars -> tbit c0' m = xorb f0 (tbit c0 m)) as H0'.
  { intros m Hm. unfold c0'. destruct f0; [|by destruct (tbit c0 m)].
    rewrite tbit_Not; [by destruct (tbit c0 m)|apply Hq''|done]. }
  assert (is_tt nVars c0) by (unfold c0; auto with words).
  assert (is_tt nVars c1) by (unfold c1; auto with words).
  assert (is_tt nVars c0') by (unfold c0'; destruct f0; auto with words).
  split; (apply (tt_ext nVars); [|done|by autorewrite with kitlen|done|]);
    try (split; [autorewrite with kitlen; apply Hp|]; auto 10 with words); intros m Hm.
  - rewrite tbit_MuxVarPhase, H1, H0', H0 by (done || apply Hp).
    rewrite <- xorb_assoc, xorb_nilpotent, xorb_false_l.
    destruct (Nat.testbit m iVar) eqn:E; [by rewrite setbit_id|by rewrite clearbit_id].
  - rewrite tbit_MuxVar, H1, H0 by (done || apply Hp).
    destruct (Nat.testbit m iVar) eqn:E; [by rewrite setbit_id|by rewrite clearbit_id].
Qed.

Lemma shannon_expansion_witness :
  let t := [0xCAFE0123; 0x89ABCDEF]%Z in
  Kit_TruthMuxVar [0; 0]%Z (Kit_TruthCofactor0New [7; 7]%Z t 6 2)
    (Kit_TruthCofactor1New [9; 9]%Z t 6 2) 6 2 = t.
Proof.
  intros t. apply (shannon_expansion 6 2 [0; 0]%Z [7; 7]%Z [9; 9]%Z [0; 0]%Z t false);
    first [lia | reflexivity | split; [vm_compute; lia | repeat constructor; vm_compute; congruence]].
Defined.

(** The quantifiers of one variable combine the two cofactors: disjunction for the
    existential, conjunction for the universal, exclusive sum for the unique one; the
    variable is no longer in the support of the result. *)
Theorem quantifiers_correct nVars iVar (t p : list Z) m :
  iVar < nVars -> Kit_TruthWordNum nVars <= length t -> Kit_TruthWordNum nVars <= length p ->
  m < nmint nVars ->
  let c0 := tbit t (Nat.clearbit m iVar) in
  let c1 := tbit t (Nat.setbit m iVar) in
  tbit (Kit_TruthExist t nVars iVar) m = c0 || c1 /\
  tbit (Kit_TruthExistNew p t nVars iVar) m = c0 || c1 /\
  tbit (Kit_TruthForall t nVars iVar) m = c0 && c1 /\
  tbit (Kit_TruthForallNew p t nVars iVar) m = c0 && c1 /\
  tbit (Kit_TruthUniqueNew p t nVars iVar) m = xorb c0 c1.
Proof.
  intros. by rewrite tbit_Exist, tbit_ExistNew, tbit_Forall, tbit_ForallNew, tbit_UniqueNew.
Qed.

Lemma quantifiers_correct_witness :
  tbit (Kit_TruthForall [0xCAFE0123; 0x89ABCDEF]%Z 6 5) 8
  = tbit [0xCAFE0123; 0x89ABCDEF]%Z 8 && tbit [0xCAFE0123; 0x89ABCDEF]%Z 40.
Proof.
  apply (quantifiers_correct 6 5 [0xCAFE0123; 0x89ABCDEF]%Z [0; 0]%Z 8); vm_compute; lia.
Defined.

(** Quantifying a set of variables one after the other gives the quantification over
    all assignments of the set: some (every) minterm that agrees outside the mask
    is in the function. *)
Theorem quantifier_sets_correct nVars uMask (p t : list Z) m :
  nVars <= 31 -> Kit_TruthWordNum nVars <= length p -> m < nmint nVars ->
  (tbit (Kit_TruthExistSet p t nVars uMask) m = true <->
   exists m', m' < nmint nVars /\ differ_in nVars uMask m m' /\ tbit t m' = true) /\
  (tbit (Kit_TruthForallSet p t nVars uMask) m = true <->
   forall m', m' < nmint nVars -> differ_in nVars uMask m m' -> tbit t m' = true).
Proof. intros. split; [by apply ExistSet_spec|by apply ForallSet_spec]. Qed.

Lemma quantifier_sets_correct_witness :
  tbit (Kit_TruthExistSet [0]%Z [0x80]%Z 3 5) 2 = true <->
  exists m', m' < nmint 3 /\ differ_in 3 5 2 m' /\ tbit [0x80]%Z m' = true.
Proof. apply (quantifier_sets_correct 3 5 [0]%Z [0x80]%Z 2); vm_compute; lia. Defined.

Lemma tbit_ChangePhase_flip t nVars v m :
  v < nVars -> Kit_TruthWordNum nVars <= length t -> m < nmint nVars ->
  tbit (Kit_TruthChangePhase t nVars v) m = tbit t (Nat.lxor m (2 ^ v)).
Proof.
  intros. rewrite tbit_ChangePhase by done.
  assert (Nat.lxor m (2 ^ v) = if Nat.testbit m v then Nat.clearbit m v else Nat.setbit m v) as ->.
  { apply Nat.bits_inj. intros i. rewrite Nat.lxor_spec, Nat.pow2_bits_eqb.
    destruct (Nat.testbit m v) eqn:E; rewrite ?clearbit_if, ?setbit_if;
      destruct (Nat.eqb_spec v i) as [<-|]; rewrite ?E; try done; apply xorb_false_r. }
  by destruct (Nat.testbit m v).
Qed.

(** Changing the phase of a variable complements it in every minterm, exchanges the
    two cofactors, and doing it twice restores the table. *)
Theorem change_phase_correct nVars iVar (t : list Z) :
  iVar < nVars -> is_tt nVars t -> length t = Kit_TruthWordNum nVars ->
  let t' := Kit_TruthChangePhase t nVars iVar in
  (forall m, m < nmint nVars -> tbit t' m = tbit t (Nat.lxor m (2 ^ iVar))) /\
  Kit_TruthCofactor0 t' nVars iVar = Kit_TruthCofactor1 t nVars iVar /\
  Kit_TruthCofactor1 t' nVars iVar = Kit_TruthCofactor0 t nVars iVar /\
  Kit_TruthChangePhase t' nVars iVar = t.
Proof.
  intros Hv Ht Lt t'.
  assert (is_tt nVars t') by (unfold t'; auto with words).
  assert (Kit_TruthWordNum nVars <= length t') as Ht' by (by apply tt_length).
  assert (Kit_TruthWordNum nVars <= length t) by lia.
  assert (forall m, m < nmint nVars -> tbit t' m =
    if Nat.testbit m iVar then tbit t (Nat.clearbit m iVar) else tbit t (Nat.setbit m iVar)) as Hp
    by (intros; by apply tbit_ChangePhase).
  split; [intros; by apply tbit_ChangePhase_flip|].
  repeat split; apply (tt_ext nVars); unfold t'; autorewrite with kitlen; auto with words; fold t';
    intros m Hm; rewrite ?tbit_Cofactor0, ?tbit_Cofactor1, ?(tbit_ChangePhase t'), ?Hp by auto with words.
  - by rewrite clearbit_if, Nat.eqb_refl, setbit_clearbit.
  - by rewrite setbit_if, Nat.eqb_refl, clearbit_setbit.
  - rewrite clearbit_if, setbit_if, Nat.eqb_refl, setbit_clearbit, clearbit_setbit.
    destruct (Nat.testbit m iVar) eqn:E; [by rewrite setbit_id|by rewrite clearbit_id].
Qed.

Lemma change_phase_correct_witness :
  Kit_TruthChangePhase (Kit_TruthChangePhase [0xCAFE0123; 0x89ABCDEF]%Z 6 3) 6 3
  = [0xCAFE0123; 0x89ABCDEF]%Z.
Proof.
  apply (change_phase_correct 6 3 [0xCAFE0123; 0x89ABCDEF]%Z);
    first [lia | reflexivity | split; [vm_compute; lia | repeat constructor; vm_compute; congruence]].
Defined.
