(* ===== verification/TruthPerm.v ===== *)
(** Permutations of the variables of a table: swapping neighbours, stretching and
    shrinking the support, and arbitrary permutations ([kitTruth.c]).

    The last three work on two arrays and exchange the pointers after every swap;
    the model keeps the two arrays in the roles [pIn] and [pOut] of the moment and
    returns them under their original names, with the parity of [Counter]. *)
From S2P Require Import Prelude Words Minterm Relabel Bubble TruthBasic TruthCof.

(** * The routines *)

Definition PMasks : list (list Z) :=
  [ [0x99999999; 0x22222222; 0x44444444];
    [0xC3C3C3C3; 0x0C0C0C0C; 0x30303030];
    [0xF00FF00F; 0x00F000F0; 0x0F000F00];
    [0xFF0000FF; 0x0000FF00; 0x00FF0000] ]%Z.

Definition Kit_TruthSwapAdjacentVars (pOut pIn : list Z) (nVars iVar : nat) : list Z :=
  let nWords := Kit_TruthWordNum nVars in
  if iVar <? 4 then
    let Shift := 2 ^ iVar in
    let M := nth iVar PMasks [] in
    for_up nWords (fun i p => p.[i <-
      (pIn.[i] &&& M.[0]) ||| ((pIn.[i] &&& M.[1]) <<< Shift) ||| ((pIn.[i] &&& M.[2]) >>> Shift)]) pOut
  else if 4 <? iVar then
    let Step := 2 ^ (iVar - 5) in
    for_step nWords (4 * Step) (fun k p =>
      let p := for_up Step (fun i p => p.[k + i <- pIn.[k + i]]) p in
      let p := for_up Step (fun i p => p.[k + Step + i <- pIn.[k + 2 * Step + i]]) p in
      let p := for_up Step (fun i p => p.[k + 2 * Step + i <- pIn.[k + Step + i]]) p in
      for_up Step (fun i p => p.[k + 3 * Step + i <- pIn.[k + 3 * Step + i]]) p) pOut
  else
    for_step nWords 2 (fun i p =>
      let p := p.[i <- (pIn.[i] &&& 0x0000FFFF) ||| ((pIn.[i + 1] &&& 0x0000FFFF) <<< 16)] in
      p.[i + 1 <- (pIn.[i + 1] &&& 0xFFFF0000) ||| ((pIn.[i] &&& 0xFFFF0000) >>> 16)]) pOut.

Definition Kit_TruthSwapAdjacentVars2 (pIn pOut : list Z) (nVars Start : nat) : list Z :=
  let nWords := if nVars <=? 5 then 1 else 2 ^ (nVars - 5) in
  match Start with
  | 0 => for_up nWords (fun i p => p.[i <-
      (pIn.[i] &&& 0x99999999) ||| ((pIn.[i] &&& 0x22222222) <<< 1) ||| ((pIn.[i] &&& 0x44444444) >>> 1)]) pOut
  | 1 => for_up nWords (fun i p => p.[i <-
      (pIn.[i] &&& 0xC3C3C3C3) ||| ((pIn.[i] &&& 0x0C0C0C0C) <<< 2) ||| ((pIn.[i] &&& 0x30303030) >>> 2)]) pOut
  | 2 => for_up nWords (fun i p => p.[i <-
      (pIn.[i] &&& 0xF00FF00F) ||| ((pIn.[i] &&& 0x00F000F0) <<< 4) ||| ((pIn.[i] &&& 0x0F000F00) >>> 4)]) pOut
  | 3 => for_up nWords (fun i p => p.[i <-
      (pIn.[i] &&& 0xFF0000FF) ||| ((pIn.[i] &&& 0x0000FF00) <<< 8) ||| ((pIn.[i] &&& 0x00FF0000) >>> 8)]) pOut
  | 4 => for_step nWords 2 (fun i p =>
      let p := p.[i <- (pIn.[i] &&& 0x0000FFFF) ||| ((pIn.[i + 1] &&& 0x0000FFFF) <<< 16)] in
      p.[i + 1 <- (pIn.[i + 1] &&& 0xFFFF0000) ||| ((pIn.[i] &&& 0xFFFF0000) >>> 16)]) pOut
  | _ =>
    let Step := 2 ^ (Start - 5) in
    for_step nWords (4 * Step) (fun k p =>
      let p := for_up Step (fun i p => p.[k + i <- pIn.[k + i]]) p in
      let p := for_up Step (fun i p => p.[k + Step + i <- pIn.[k + 2 * Step + i]]) p in
      let p := for_up Step (fun i p => p.[k + 2 * Step + i <- pIn.[k + Step + i]]) p in
      for_up Step (fun i p => p.[k + 3 * Step + i <- pIn.[k + 3 * Step + i]]) p) pOut
  end.

(** The two arrays in their present roles and the number of swaps. *)
Record arrays := { a_out : list Z; a_in : list Z; a_counter : nat }.

(** [Kit_TruthSwapAdjacentVars( pOut, pIn, nVars, k ); pTemp = pIn; pIn = pOut;
    pOut = pTemp; Counter++;] *)
Definition swap_step (nVars k : nat) (a : arrays) : arrays :=
  {| a_out := a_in a;
     a_in := Kit_TruthSwapAdjacentVars (a_out a) (a_in a) nVars k;
     a_counter := S (a_counter a) |}.

(** [if ( c ) Kit_TruthCopy( pOut, pIn, nVars );] *)
Definition copy_if (c : bool) (nVars : nat) (a : arrays) : arrays :=
  if c then {| a_out := Kit_TruthCopy (a_out a) (a_in a) nVars; a_in := a_in a; a_counter := a_counter a |}
  else a.

(** The arrays the caller passed as [pOut] and [pIn]. *)
Definition original_arrays (a : arrays) : list Z * list Z :=
  if Nat.odd (a_counter a) then (a_in a, a_out a) else (a_out a, a_in a).

Definition Kit_TruthStretch (pOut pIn : list Z) (nVars nVarsAll : nat) (Phase : Z) (fReturnIn : bool) :
    option (list Z * list Z) :=
  let '(a, Var) := for_down nVarsAll (fun i '(a, Var) =>
    if negb ((Phase &&& (1 <<< i)) =? 0)%Z then
      (for_range (Z.to_nat Var) i (fun k a => swap_step nVarsAll k a) a, (Var - 1)%Z)
    else (a, Var)) ({| a_out := pOut; a_in := pIn; a_counter := 0 |}, Z.of_nat nVars - 1)%Z in
  assert! (Var =? -1)%Z in
  Some (original_arrays (copy_if (xorb fReturnIn (negb (Nat.odd (a_counter a)))) nVarsAll a)).

Definition Kit_TruthShrink (pOut pIn : list Z) (nVars nVarsAll : nat) (Phase : Z) (fReturnIn : bool) :
    option (list Z * list Z) :=
  let '(a, Var) := for_up nVarsAll (fun i '(a, Var) =>
    if negb ((Phase &&& (1 <<< i)) =? 0)%Z then
      (for_down (i - Var) (fun k a => swap_step nVarsAll (Var + k) a) a, Var + 1)
    else (a, Var)) ({| a_out := pOut; a_in := pIn; a_counter := 0 |}, 0) in
  assert! Var =? nVars in
  Some (original_arrays (copy_if (xorb fReturnIn (negb (Nat.odd (a_counter a)))) nVarsAll a)).

(** One pass of [Kit_TruthPermute] over [i < nVars - 1], with [fChange]. *)
Definition permute_pass (nVars : nat) (s : arrays * list Z) : bool * (arrays * list Z) :=
  for_up (nVars - 1) (fun i '(fChange, (a, pPerm)) =>
    if (pPerm.[i] <=? pPerm.[i + 1])%Z then (fChange, (a, pPerm))
    else
      let Temp := pPerm.[i] in
      let pPerm := pPerm.[i <- pPerm.[i + 1]] in
      let pPerm := pPerm.[i + 1 <- Temp] in
      (true, (swap_step nVars i a, pPerm))) (false, s).

(** Returns the arrays [pOut], [pIn] and [pPerm]. *)
Definition Kit_TruthPermute (fuel : nat) (pOut pIn : list Z) (nVars : nat) (pPerm : list Z) (fReturnIn : bool) :
    option (list Z * list Z * list Z) :=
  '(a, pPerm) ← do_while fuel (permute_pass nVars) ({| a_out := pOut; a_in := pIn; a_counter := 0 |}, pPerm);
  Some (original_arrays (copy_if (xorb fReturnIn (negb (Nat.odd (a_counter a)))) nVars a), pPerm).

(** * Swapping neighbours *)

(** Inside a word. *)
Lemma swap_lo p t nVars iVar m :
  iVar < 4 -> Kit_TruthWordNum nVars <= length p -> m < nmint nVars ->
  tbit (Kit_TruthSwapAdjacentVars p t nVars iVar) m = tbit t (swp m iVar).
Proof.
  intros Hi Hp Hm. assert (m / 32 < Kit_TruthWordNum nVars) by by apply nmint_div.
  unfold Kit_TruthSwapAdjacentVars. rewrite (proj2 (Nat.ltb_lt iVar 4)) by done. cbv zeta.
  do 4 (destruct iVar as [|iVar];
    [rewrite tbit_up by done; unfold tbit; rewrite swp_div_lo, swp_mod_lo by lia;
     generalize (t.[m / 32]); pose proof (mod32 m); generalize dependent (m mod 32);
     intros b Hb x; word_bits b|]). lia.
Qed.

(** Half a word: variables 4 and 5. *)
Lemma swp_4 m :
  swp m 4 / 32 = (if Nat.testbit m 4 then Nat.setbit m 5 / 32 else Nat.clearbit m 5 / 32) /\
  swp m 4 mod 32 = (if Nat.testbit m 5 then Nat.setbit (m mod 32) 4 else Nat.clearbit (m mod 32) 4).
Proof.
  split.
  - apply Nat.bits_inj. intros j. change 32 with (2 ^ 5).
    destruct (Nat.testbit m 4) eqn:E4; rewrite !Nat.div_pow2_bits, swp_spec, ?setbit_if, ?clearbit_if;
      unfold tr; destruct (Nat.eqb_spec (j + 5) 4), (Nat.eqb_spec (j + 5) 5), (Nat.eqb_spec 5 (j + 5));
      try lia; congruence.
  - apply (bits_eq 5); [apply mod32| |].
    + destruct (Nat.testbit m 5); [apply setbit_lt|apply clearbit_lt]; try apply mod32; lia.
    + intros j Hj. change 32 with (2 ^ 5). rewrite Nat.mod_pow2_bits_low, swp_spec by lia.
      destruct (Nat.testbit m 5) eqn:E5; rewrite ?setbit_if, ?clearbit_if, Nat.mod_pow2_bits_low by lia;
        unfold tr; destruct (Nat.eqb_spec j 4), (Nat.eqb_spec j 5), (Nat.eqb_spec 4 j);
        subst; try lia; congruence.
Qed.

Lemma swap_mid p t nVars m :
  5 < nVars -> Kit_TruthWordNum nVars <= length p -> m < nmint nVars ->
  tbit (Kit_TruthSwapAdjacentVars p t nVars 4) m = tbit t (swp m 4).
Proof.
  intros Hn Hp Hm. unfold Kit_TruthSwapAdjacentVars. cbn [Nat.ltb Nat.leb].
  set (B := fun k i p => wr (wr p (k + i) ((t.[k + i] &&& 0x0000FFFF) ||| ((t.[k + 2 ^ 0 + i] &&& 0x0000FFFF) <<< 16)))
    (k + 2 ^ 0 + i) ((t.[k + 2 ^ 0 + i] &&& 0xFFFF0000) ||| ((t.[k + i] &&& 0xFFFF0000) >>> 16))).
  destruct (tbit_pairs nVars 0 B p) with (m := m) as (k & i & Hp0 & ? & Hc & Hs & Hd & Ht).
  - intros. unfold B. by rewrite !length_wr.
  - intros. unfold B. rdwr. done.
  - intros k i q q' j Hb Hz Hq Hq' _ _ Hj. unfold B. by destruct Hj as [-> | ->]; rdwr.
  - lia.
  - done.
  - done.
  - transitivity (tbit (for_step (Kit_TruthWordNum nVars) (2 * 2 ^ 0)
      (fun k p => for_up (2 ^ 0) (fun i p => B k i p) p) p) m).
    { f_equal. unfold for_step. apply for_up_ext. intros j s _. cbn [Nat.pow].
      rewrite for_up_S, for_up_0. unfold B. by rewrite !Nat.add_0_r. }
    rewrite Ht. clear Ht. unfold tbit.
    assert (swp m 4 / 32 = (if Nat.testbit m 4 then k + 2 ^ 0 + i else k + i) /\
            swp m 4 mod 32 = (if Nat.testbit m 5 then Nat.setbit (m mod 32) 4 else Nat.clearbit (m mod 32) 4))
      as [-> ->] by (rewrite <- Hc, <- Hs; apply swp_4).
    unfold B. rewrite (testbit_lo m 4) by lia. rewrite Hd.
    destruct (Nat.testbit m (5 + 0)) eqn:E5; change (5 + 0) with 5 in E5; rewrite E5; rdwr.
    all: assert (forall (c : bool) (x y : nat) n, Z.testbit t.[if c then x else y] n =
      if c then Z.testbit t.[x] n else Z.testbit t.[y] n) as -> by by intros [].
    all: generalize (t.[k + i]), (t.[k + 2 ^ 0 + i]); pose proof (mod32 m) as Hb;
      clear - Hb; generalize dependent (m mod 32); intros b Hb x y; word_bits b.
Qed.

(** Copying a run of words. *)
Lemma copy_block n a (f : nat -> Z) p :
  a + n <= length p ->
  length (for_up n (fun i q => wr q (a + i) (f i)) p) = length p /\
  forall j, (for_up n (fun i q => wr q (a + i) (f i)) p).[j] =
    if decide (a <= j < a + n) then f (j - a) else p.[j].
Proof.
  intros Hp. split; [apply length_up; intros; apply length_wr|].
  induction n as [|n IH]; intros j; [by rewrite decide_False by lia|].
  rewrite for_up_S. destruct (decide (j = a + n)) as [->|Hj].
  - rewrite rd_wr_eq, decide_True by (rewrite ?length_up by (intros; apply length_wr); lia).
    f_equal. lia.
  - rewrite rd_wr_ne, IH by lia.
    destruct (decide (a <= j < a + n)), (decide (a <= j < a + S n)); done || lia.
Qed.

(** The body of the loop over blocks of four runs of words. *)
Definition quarters (t : list Z) (Step k : nat) (p : list Z) : list Z :=
  let p := for_up Step (fun i p => p.[k + i <- t.[k + i]]) p in
  let p := for_up Step (fun i p => p.[k + Step + i <- t.[k + 2 * Step + i]]) p in
  let p := for_up Step (fun i p => p.[k + 2 * Step + i <- t.[k + Step + i]]) p in
  for_up Step (fun i p => p.[k + 3 * Step + i <- t.[k + 3 * Step + i]]) p.

Lemma length_quarters t Step k p : length (quarters t Step k p) = length p.
Proof. unfold quarters. rewrite !length_up; [done|..]; intros; apply length_wr. Qed.

Lemma rd_quarters t s b p j :
  b * (4 * 2 ^ s) + 4 * 2 ^ s <= length p ->
  (quarters t (2 ^ s) (b * (4 * 2 ^ s)) p).[j] =
    if decide (b * (4 * 2 ^ s) <= j < S b * (4 * 2 ^ s)) then t.[swp j s] else p.[j].
Proof.
  intros Hp. unfold quarters. set (k := b * (4 * 2 ^ s)) in *.
  assert (S b * (4 * 2 ^ s) = k + 4 * 2 ^ s) as -> by (unfold k; lia).
  destruct (copy_block (2 ^ s) k (fun i => t.[k + i]) p) as [L1 R1]; [lia|].
  set (p1 := for_up _ _ p) in *.
  destruct (copy_block (2 ^ s) (k + 2 ^ s) (fun i => t.[k + 2 * 2 ^ s + i]) p1) as [L2 R2]; [lia|].
  set (p2 := for_up _ _ p1) in *.
  destruct (copy_block (2 ^ s) (k + 2 * 2 ^ s) (fun i => t.[k + 2 ^ s + i]) p2) as [L3 R3]; [lia|].
  set (p3 := for_up _ _ p2) in *.
  destruct (copy_block (2 ^ s) (k + 3 * 2 ^ s) (fun i => t.[k + 3 * 2 ^ s + i]) p3) as [L4 R4]; [lia|].
  rewrite R4. destruct (decide (k <= j < k + 4 * 2 ^ s)) as [Hj|Hj].
  - assert (exists c i, c < 4 /\ i < 2 ^ s /\ j = k + c * 2 ^ s + i) as (c & i & Hc & Hi & ->).
    { exists ((j - k) / 2 ^ s), ((j - k) mod 2 ^ s). assert (2 ^ s <> 0) by lia.
      pose proof (Nat.div_mod_eq (j - k) (2 ^ s)). pose proof (Nat.mod_upper_bound (j - k) (2 ^ s)).
      split; [apply Nat.Div0.div_lt_upper_bound; lia|]. split; lia. }
    assert (swp (k + c * 2 ^ s + i) s = k + nth c [0; 2; 1; 3] 0 * 2 ^ s + i) as -> by by apply swp_quarter.
    destruct c as [|[|[|[|c]]]]; [| | | |lia]; cbn [nth].
    + rewrite decide_False, R3, decide_False, R2, decide_False, R1, decide_True by lia. f_equal. lia.
    + rewrite decide_False, R3, decide_False, R2, decide_True by lia. f_equal. lia.
    + rewrite decide_False, R3, decide_True by lia. f_equal. lia.
    + rewrite decide_True by lia. f_equal. lia.
  - rewrite decide_False, R3, decide_False, R2, decide_False, R1, decide_False by lia. done.
Qed.

Lemma swap_hi p t nVars iVar m :
  4 < iVar -> S iVar < nVars -> Kit_TruthWordNum nVars <= length p -> m < nmint nVars ->
  tbit (Kit_TruthSwapAdjacentVars p t nVars iVar) m = tbit t (swp m iVar).
Proof.
  intros Hi Hv Hp Hm. apply nmint_div in Hm as Hw.
  unfold Kit_TruthSwapAdjacentVars, tbit.
  destruct (Nat.ltb_spec iVar 4); [lia|]. destruct (Nat.ltb_spec 4 iVar); [|lia].
  rewrite swp_div_hi, swp_mod_hi by lia.
  f_equal. cbv zeta. set (s := iVar - 5). unfold for_step.
  rewrite (for_up_ext _ _ (fun b => quarters t (2 ^ s) (b * (4 * 2 ^ s)))) by done.
  assert (2 ^ s <> 0) as Hs by (apply Nat.pow_nonzero; lia).
  assert (exists c, Kit_TruthWordNum nVars = c * (4 * 2 ^ s)) as [c Hc].
  { exists (2 ^ (nVars - 7 - s)). unfold Kit_TruthWordNum, s.
    destruct (Nat.leb_spec nVars 5); [lia|]. replace (4 * 2 ^ (iVar - 5)) with (2 ^ (2 + (iVar - 5))) by (rewrite Nat.pow_add_r; done).
    rewrite <- Nat.pow_add_r. f_equal. lia. }
  assert ((Kit_TruthWordNum nVars + 4 * 2 ^ s - 1) / (4 * 2 ^ s) = c) as ->.
  { rewrite Hc. replace (c * (4 * 2 ^ s) + 4 * 2 ^ s - 1) with (4 * 2 ^ s - 1 + c * (4 * 2 ^ s)) by lia.
    rewrite Nat.div_add, Nat.div_small by lia. lia. }
  assert (forall b, b <= c ->
    length (for_up b (fun b => quarters t (2 ^ s) (b * (4 * 2 ^ s))) p) = length p /\
    forall j, j < b * (4 * 2 ^ s) ->
      (for_up b (fun b => quarters t (2 ^ s) (b * (4 * 2 ^ s))) p).[j] = t.[swp j s]) as HL.
  { induction b as [|b IH]; intros Hb; [split; [done|lia]|].
    destruct IH as [L R]; [lia|]. rewrite for_up_S. split; [by rewrite length_quarters|].
    intros j Hj. rewrite rd_quarters by (rewrite L; nia).
    case_decide as Hd; [done|]. apply R. lia. }
  apply HL; [done|]. lia.
Qed.

Lemma tbit_Swap p t nVars iVar m :
  S iVar < nVars -> Kit_TruthWordNum nVars <= length p -> m < nmint nVars ->
  tbit (Kit_TruthSwapAdjacentVars p t nVars iVar) m = tbit t (swp m iVar).
Proof.
  intros Hv Hp Hm. destruct (Nat.lt_trichotomy iVar 4) as [H|[->|H]].
  - by apply swap_lo.
  - apply swap_mid; lia || done.
  - by apply swap_hi.
Qed.

Lemma length_Swap p t nVars iVar : length (Kit_TruthSwapAdjacentVars p t nVars iVar) = length p.
Proof.
  unfold Kit_TruthSwapAdjacentVars, for_step.
  repeat case_match; repeat (apply length_up; intros; rewrite ?length_wr; try done).
  by apply length_quarters.
Qed.

Lemma words_Swap p t nVars iVar :
  Forall is_word p -> Forall is_word t -> Forall is_word (Kit_TruthSwapAdjacentVars p t nVars iVar).
Proof.
  intros Hp Ht.
  assert (forall v, is_word (nth iVar PMasks []).[v]) as HM.
  { intros v. apply word_rd. do 4 (destruct iVar as [|iVar]; [cbn; auto 10 with words|]). cbn. by destruct iVar. }
  unfold Kit_TruthSwapAdjacentVars, for_step.
  repeat case_match; repeat (apply words_up; intros); auto 15 with words.
Qed.

(** The second version of the routine is the same function. *)
Lemma Swap2_Swap p t nVars iVar :
  Kit_TruthSwapAdjacentVars2 t p nVars iVar = Kit_TruthSwapAdjacentVars p t nVars iVar.
Proof.
  unfold Kit_TruthSwapAdjacentVars2, Kit_TruthSwapAdjacentVars. fold (Kit_TruthWordNum nVars).
  by do 5 (destruct iVar as [|iVar]; [done|]).
Qed.
#[export] Hint Rewrite length_Swap : kitlen.
#[export] Hint Resolve words_Swap : words.

(** * Sequences of swaps *)

(** A permutation of the first [n] variables. *)
Definition is_perm (n : nat) (f : nat -> nat) : Prop :=
  (forall i, i < n -> f i < n) /\ (forall i, n <= i -> f i = i) /\
  (forall i j, i < n -> j < n -> f i = f j -> i = j).

Lemma is_perm_id n : is_perm n (fun i => i).
Proof. repeat split; auto. Qed.

Lemma is_perm_tr n k f : S k < n -> is_perm n f -> is_perm n (fun i => tr k (f i)).
Proof.
  intros Hk (H1 & H2 & H3). split; [|split].
  - intros i Hi. apply tr_lt; auto.
  - intros i Hi. rewrite H2, tr_above by lia. done.
  - intros i j Hi Hj He. apply H3; [done..|]. by rewrite <- (tr_tr k (f i)), He, tr_tr.
Qed.

(** Number of variables of a table, the padding inside the word included. *)
Definition nv (nVars : nat) : nat := Nat.max 5 nVars.

Lemma is_perm_nv nVars f i : is_perm nVars f -> i < nv nVars -> f i < nv nVars.
Proof.
  intros (H1 & H2 & _) Hi. unfold nv in *. destruct (Nat.lt_ge_cases i nVars); [specialize (H1 i)|rewrite H2]; lia.
Qed.

(** The table now in [pIn] is [t0] with variable [i] moved to position [f i]. *)
Record moved (nVars : nat) (t0 : list Z) (a : arrays) (f : nat -> nat) : Prop := {
  mv_out : is_tt nVars (a_out a);
  mv_in : is_tt nVars (a_in a);
  mv_perm : is_perm nVars f;
  mv_val : forall m, m < nmint nVars -> tbit (a_in a) m = tbit t0 (ren (nv nVars) f m)
}.

Lemma moved_init nVars o t c :
  is_tt nVars o -> is_tt nVars t -> moved nVars t {| a_out := o; a_in := t; a_counter := c |} (fun i => i).
Proof.
  intros Ho Ht. split; [done..|apply is_perm_id|]. intros m Hm. by rewrite ren_id.
Qed.

Lemma moved_ext nVars t a f g : (forall i, f i = g i) -> moved nVars t a f -> moved nVars t a g.
Proof.
  intros H [Ho Hi (P1 & P2 & P3) Hv]. split; [done..| |].
  - split; [|split]; intros *; rewrite <- ?H; auto.
  - intros m Hm. rewrite Hv by done. f_equal. apply ren_ext. auto.
Qed.

Lemma is_tt_Swap nVars p t k :
  is_tt nVars p -> is_tt nVars t -> is_tt nVars (Kit_TruthSwapAdjacentVars p t nVars k).
Proof. intros [? ?] [? ?]. split; autorewrite with kitlen; auto with words. Qed.

Lemma moved_swap nVars t a f k :
  S k < nVars -> moved nVars t a f -> moved nVars t (swap_step nVars k a) (fun i => tr k (f i)).
Proof.
  intros Hk [Ho Hi Hp Hv]. split; cbn.
  - done.
  - by apply is_tt_Swap.
  - by apply is_perm_tr.
  - intros m Hm. rewrite tbit_Swap by (done || apply Ho).
    assert (swp m k < nmint nVars) by (apply swp_lt; [done|lia]).
    rewrite Hv, swp_ren_comp by (done || unfold nv; lia || (intros; by apply is_perm_nv)). done.
Qed.

(** Moving variable [c] up to [i], and variable [i] down to [c]. *)
Definition rot_up (c i y : nat) : nat := if y =? c then i else if (c <? y) && (y <=? i) then y - 1 else y.
Definition rot_down (c i y : nat) : nat := if y =? i then c else if (c <=? y) && (y <? i) then S y else y.

(** Cases on comparisons, the inner ones first. *)
Ltac no_if a := lazymatch a with context [if _ then _ else _] => fail | _ => idtac end.
Ltac nat_cases :=
  repeat (match goal with
  | |- context [?a =? ?b] => no_if a; no_if b; destruct (Nat.eqb_spec a b)
  | |- context [?a <? ?b] => no_if a; no_if b; destruct (Nat.ltb_spec a b)
  | |- context [?a <=? ?b] => no_if a; no_if b; destruct (Nat.leb_spec a b)
  end; cbn [andb orb negb]); try lia.

Lemma moved_up nVars t a f c i :
  c <= i -> i < nVars -> moved nVars t a f ->
  moved nVars t (for_range c i (fun k a => swap_step nVars k a) a) (fun x => rot_up c i (f x)).
Proof.
  intros Hc Hi Ha.
  apply (for_range_ind (fun j a => moved nVars t a (fun x => rot_up c j (f x)))); [done| |].
  - eapply moved_ext; [|done]. intros x. cbn. unfold rot_up. nat_cases.
  - intros j s Hj Hs. apply (moved_swap _ _ _ _ j) in Hs; [|lia].
    eapply moved_ext; [|done]. intros x. cbn. unfold rot_up, tr. nat_cases.
Qed.

Lemma moved_down nVars t a f c i :
  c <= i -> i < nVars -> moved nVars t a f ->
  moved nVars t (for_down (i - c) (fun k a => swap_step nVars (c + k) a) a) (fun x => rot_down c i (f x)).
Proof.
  intros Hc Hi Ha.
  apply moved_ext with (f := fun x => rot_down (c + 0) i (f x)); [intros; by rewrite Nat.add_0_r|].
  apply (for_down_ind (fun j a => moved nVars t a (fun x => rot_down (c + j) i (f x)))).
  - eapply moved_ext; [|done]. intros x. cbn. unfold rot_down. nat_cases.
  - intros j s Hj Hs. apply (moved_swap _ _ _ _ (c + j)) in Hs; [|lia].
    eapply moved_ext; [|done]. intros x. cbn. unfold rot_down, tr. nat_cases.
Qed.

(** The array the caller asked for receives the result. *)
Lemma original_result nVars t a f (fReturnIn : bool) :
  moved nVars t a f ->
  let r := original_arrays (copy_if (xorb fReturnIn (negb (Nat.odd (a_counter a)))) nVars a) in
  is_tt nVars (if fReturnIn then r.2 else r.1) /\
  forall m, m < nmint nVars -> tbit (if fReturnIn then r.2 else r.1) m = tbit t (ren (nv nVars) f m).
Proof.
  intros [Ho Hi _ Hv]. unfold original_arrays, copy_if.
  destruct fReturnIn, (Nat.odd (a_counter a)) eqn:E; cbn; rewrite E; cbn; (split; [auto with words|]);
    intros m Hm; rewrite ?tbit_Copy by (done || apply Ho); auto.
Qed.

(** ** Positions in a phase *)

(** Number of the variables below [i] that are in the phase. *)
Definition pos (Phase : Z) (i : nat) : nat := Z.to_nat (cnt i (fun k => Z.testbit Phase (Z.of_nat k))).

Lemma pos_0 Phase : pos Phase 0 = 0.
Proof. done. Qed.

Lemma pos_S Phase i : pos Phase (S i) = pos Phase i + Nat.b2n (Z.testbit Phase (Z.of_nat i)).
Proof.
  unfold pos. cbn [cnt]. pose proof (cnt_bound i (fun k => Z.testbit Phase (Z.of_nat k))).
  destruct (Z.testbit Phase (Z.of_nat i)); cbn; lia.
Qed.

Lemma pos_le Phase i : pos Phase i <= i.
Proof. induction i as [|i IH]; [done|]. rewrite pos_S. destruct (Z.testbit _ _); cbn; lia. Qed.

Lemma pos_mono Phase i j : i <= j -> pos Phase i <= pos Phase j.
Proof. induction 1 as [|j _ IH]; [done|]. rewrite pos_S. lia. Qed.

Lemma pos_lt Phase i j : i < j -> Z.testbit Phase (Z.of_nat i) = true -> pos Phase i < pos Phase j.
Proof.
  intros Hi Hb. apply Nat.lt_le_trans with (pos Phase (S i)); [|by apply pos_mono].
  rewrite pos_S, Hb. cbn. lia.
Qed.

(** * Stretching and shrinking *)

Lemma Stretch_spec pOut pIn nVars nVarsAll Phase fReturnIn :
  nVarsAll <= 31 -> is_tt nVarsAll pOut -> is_tt nVarsAll pIn -> pos Phase nVarsAll = nVars ->
  exists r, Kit_TruthStretch pOut pIn nVars nVarsAll Phase fReturnIn = Some r /\
  let t := if fReturnIn then r.2 else r.1 in
  is_tt nVarsAll t /\ exists f, is_perm nVarsAll f /\
    (forall p, p < nVarsAll -> Z.testbit Phase (Z.of_nat p) = true -> f (pos Phase p) = p) /\
    forall m, m < nmint nVarsAll -> tbit t m = tbit pIn (ren (nv nVarsAll) f m).
Proof.
  intros Hn Ho Hi Hpos. cbv zeta. unfold Kit_TruthStretch. set (body := fun i _ => _).
  set (P := fun i (s : arrays * Z) => i <= nVarsAll ->
    s.2 = (Z.of_nat (pos Phase i) - 1)%Z /\ exists f,
      moved nVarsAll pIn s.1 f /\ (forall j, j < pos Phase i -> f j = j) /\
      forall p, i <= p < nVarsAll -> Z.testbit Phase (Z.of_nat p) = true -> f (pos Phase p) = p).
  assert (P 0 (for_down nVarsAll body
      ({| a_out := pOut; a_in := pIn; a_counter := 0 |}, Z.of_nat nVars - 1)%Z)) as HP.
  { apply for_down_ind; unfold P.
    - intros _. cbn. split; [by rewrite Hpos|]. exists (fun i => i). split; [by apply moved_init|].
      split; [done|lia].
    - intros i [a Var] Hi0 H Hi1. destruct H as (HV & f & Hf & Hlo & Hhi); [lia|].
      unfold body. cbn [fst snd] in *. rewrite mask_bit, negb_involutive by lia.
      rewrite pos_S in HV, Hlo. pose proof (pos_le Phase i).
      destruct (Z.testbit Phase (Z.of_nat i)) eqn:E; cbn [Nat.b2n fst snd] in *.
      + assert (Z.to_nat Var = pos Phase i) as -> by lia. split; [lia|].
        exists (fun x => rot_up (pos Phase i) i (f x)). split; [by apply moved_up|]. split.
        * intros j Hj. rewrite Hlo by lia. unfold rot_up. nat_cases.
        * intros p Hp Hb. destruct (decide (p = i)) as [->|].
          -- rewrite Hlo by lia. unfold rot_up. nat_cases.
          -- rewrite Hhi by (done || lia). unfold rot_up. nat_cases.
      + split; [lia|]. exists f. split; [done|]. split; [intros; apply Hlo; lia|].
        intros p Hp Hb. apply Hhi; [|done]. destruct (decide (p = i)) as [->|]; [congruence|lia]. }
  destruct HP as (HVar & f & Hf & _ & Hp); [lia|].
  destruct (for_down _ _ _) as [a Var]. cbn in Hf, HVar. subst Var. cbn [Z.eqb Pos.eqb]. eexists. split; [done|].
  destruct (original_result _ _ _ _ fReturnIn Hf) as [H1 H2]. split; [done|].
  exists f. split; [apply Hf|]. split; [|done]. intros. apply Hp; [lia|done].
Qed.

Lemma Shrink_spec pOut pIn nVars nVarsAll Phase fReturnIn :
  nVarsAll <= 31 -> is_tt nVarsAll pOut -> is_tt nVarsAll pIn -> pos Phase nVarsAll = nVars ->
  exists r, Kit_TruthShrink pOut pIn nVars nVarsAll Phase fReturnIn = Some r /\
  let t := if fReturnIn then r.2 else r.1 in
  is_tt nVarsAll t /\ exists f, is_perm nVarsAll f /\
    (forall p, p < nVarsAll -> Z.testbit Phase (Z.of_nat p) = true -> f p = pos Phase p) /\
    forall m, m < nmint nVarsAll -> tbit t m = tbit pIn (ren (nv nVarsAll) f m).
Proof.
  intros Hn Ho Hi Hpos. cbv zeta. unfold Kit_TruthShrink. set (body := fun i _ => _).
  set (P := fun i (s : arrays * nat) => i <= nVarsAll -> s.2 = pos Phase i /\ exists f,
      moved nVarsAll pIn s.1 f /\ (forall j, i <= j -> f j = j) /\
      forall p, p < i -> Z.testbit Phase (Z.of_nat p) = true -> f p = pos Phase p).
  assert (P nVarsAll (for_up nVarsAll body ({| a_out := pOut; a_in := pIn; a_counter := 0 |}, 0))) as HP.
  { apply for_up_ind; unfold P.
    - intros _. cbn. split; [done|]. exists (fun i => i). split; [by apply moved_init|]. split; [done|lia].
    - intros i [a Var] Hi0 H Hi1. destruct H as (HV & f & Hf & Hhi & Hlo); [lia|].
      unfold body. cbn [fst snd] in *. subst Var. rewrite mask_bit, negb_involutive by lia.
      rewrite pos_S. pose proof (pos_le Phase i).
      destruct (Z.testbit Phase (Z.of_nat i)) eqn:E; cbn [Nat.b2n fst snd] in *.
      + split; [lia|]. exists (fun x => rot_down (pos Phase i) i (f x)).
        split; [by apply moved_down|]. split.
        * intros j Hj. rewrite Hhi by lia. unfold rot_down. nat_cases.
        * intros p Hp Hb. destruct (decide (p = i)) as [->|].
          -- rewrite Hhi by lia. unfold rot_down. nat_cases.
          -- rewrite Hlo by (done || lia). pose proof (pos_lt Phase p i ltac:(lia) Hb).
             unfold rot_down. nat_cases.
      + split; [lia|]. exists f. split; [done|]. split; [intros; apply Hhi; lia|].
        intros p Hp Hb. apply Hlo; [|done]. destruct (decide (p = i)) as [->|]; [congruence|lia]. }
  destruct HP as (HVar & f & Hf & _ & Hp); [lia|].
  destruct (for_up _ _ _) as [a Var]. cbn in Hf, HVar. rewrite HVar, (proj2 (Nat.eqb_eq _ _) Hpos). eexists. split; [done|].
  destruct (original_result _ _ _ _ fReturnIn Hf) as [H1 H2]. split; [done|].
  exists f. split; [apply Hf|]. done.
Qed.

(** * Arbitrary permutations *)

Lemma rd_exchange p i j : S i < length p -> (wr (wr p i p.[i + 1]) (i + 1) p.[i]).[j] = p.[tr i j].
Proof.
  intros H. unfold tr. replace (i + 1) with (S i) by lia.
  destruct (Nat.eqb_spec j i) as [->|]; [by rdwr|].
  destruct (Nat.eqb_spec j (S i)) as [->|]; by rdwr.
Qed.

Section permute.
Context (nVars : nat) (pOut pIn pPerm0 : list Z).
Context (Ho : is_tt nVars pOut) (Hi : is_tt nVars pIn) (Hl : nVars <= length pPerm0).
Context (Hrange : forall x, x < nVars -> (0 <= pPerm0.[x] < Z.of_nat nVars)%Z).
Context (Hinj : forall x y, x < nVars -> y < nVars -> pPerm0.[x] = pPerm0.[y] -> x = y).

Definition perm_inv (s : arrays * list Z) : Prop :=
  length s.2 = length pPerm0 /\
  (forall x, x < nVars -> (0 <= s.2.[x] < Z.of_nat nVars)%Z) /\
  (forall x y, x < nVars -> y < nVars -> s.2.[x] = s.2.[y] -> x = y) /\
  exists f, moved nVars pIn s.1 f /\ forall x, x < nVars -> s.2.[f x] = pPerm0.[x].

Definition perm_step (i : nat) (s : arrays * list Z) : arrays * list Z :=
  (swap_step nVars i s.1, wr (wr s.2 i s.2.[i + 1]) (i + 1) s.2.[i]).

Lemma perm_step_inv i s :
  perm_inv s -> S i < nVars ->
  perm_inv (perm_step i s) /\ forall j, j < nVars -> (perm_step i s).2.[j] = s.2.[tr i j].
Proof using Hl.
  intros (H1 & H2 & H3 & f & Hf & Hv) Hlt.
  assert (forall j, (perm_step i s).2.[j] = s.2.[tr i j]) as E
    by (intros; apply rd_exchange; lia).
  split; [|auto]. repeat split.
  - cbn. by rewrite !length_wr.
  - rewrite E. apply H2, tr_lt; lia.
  - rewrite E. apply H2, tr_lt; lia.
  - intros x y Hx Hy. rewrite !E. intros He. apply H3 in He; [|apply tr_lt; lia..].
    by rewrite <- (tr_tr i x), He, tr_tr.
  - exists (fun x => tr i (f x)). split; [by apply moved_swap|].
    intros x Hx. rewrite E, tr_tr. auto.
Qed.

(** A strictly increasing arrangement of the numbers below [nVars] is the identity. *)
Lemma sorted_id (p : list Z) :
  (forall x, x < nVars -> (0 <= p.[x] < Z.of_nat nVars)%Z) ->
  (forall x y, x < nVars -> y < nVars -> p.[x] = p.[y] -> x = y) ->
  (forall i, S i < nVars -> (p.[i] <= p.[S i])%Z) ->
  forall x, x < nVars -> p.[x] = Z.of_nat x.
Proof.
  intros H1 H2 H3.
  assert (forall i, S i < nVars -> (p.[i] < p.[S i])%Z) as H4.
  { intros i H. specialize (H3 i H). destruct (decide (p.[i] = p.[S i])) as [He|]; [|lia].
    apply H2 in He; lia. }
  assert (forall x, x < nVars -> (Z.of_nat x <= p.[x])%Z) as Hlo.
  { induction x as [|x IH]; intros H; [apply (H1 0 H)|]. specialize (H4 x H). specialize (IH ltac:(lia)). lia. }
  assert (forall k x, x + k < nVars -> (p.[x] + Z.of_nat k <= p.[x + k])%Z) as Hk.
  { induction k as [|k IH]; intros x H; [rewrite Nat.add_0_r; lia|].
    rewrite Nat.add_succ_r. specialize (IH x ltac:(lia)). specialize (H4 (x + k) ltac:(lia)). lia. }
  intros x H. specialize (Hlo x H). specialize (Hk (nVars - 1 - x) x ltac:(lia)).
  specialize (H1 (x + (nVars - 1 - x)) ltac:(lia)). lia.
Qed.

Lemma Permute_spec fuel fReturnIn :
  nVars * nVars < fuel ->
  exists o i p, Kit_TruthPermute fuel pOut pIn nVars pPerm0 fReturnIn = Some (o, i, p) /\
    (forall x, x < nVars -> p.[x] = Z.of_nat x) /\
    is_tt nVars (if fReturnIn then i else o) /\
    exists f, is_perm nVars f /\ (forall x, x < nVars -> f x = Z.to_nat pPerm0.[x]) /\
      forall m, m < nmint nVars ->
        tbit (if fReturnIn then i else o) m = tbit pIn (ren (nv nVars) f m).
Proof using Ho Hi Hl Hrange Hinj.
  intros Hf. unfold Kit_TruthPermute.
  destruct (bubble_sorts nVars (fun s : arrays * list Z => fun i => s.2.[i])
    (fun i s => (s.2.[i] <=? s.2.[i + 1])%Z) perm_step perm_inv) with (fuel := fuel)
    (s := ({| a_out := pOut; a_in := pIn; a_counter := 0 |}, pPerm0))
    as ([a p] & Hr & (H1 & H2 & H3 & f & Hm & Hv) & Hs); [| | |done|].
  - intros i s _ _. rewrite Z.leb_le, Nat.add_1_r. done.
  - intros i s Hs Hlt _. by apply perm_step_inv.
  - split; [done|]. split; [done|]. split; [done|]. exists (fun i => i). split; [by apply moved_init|done].
  - assert (forall s, permute_pass nVars s = bubble_pass nVars
      (fun i s => (s.2.[i] <=? s.2.[i + 1])%Z) perm_step s) as E.
    { intros s. apply for_up_ext. intros i [c [a' p']] _. unfold perm_step. cbn [fst snd].
      by destruct (p'.[i] <=? p'.[i + 1])%Z. }
    assert (forall fuel s, do_while fuel (permute_pass nVars) s = do_while fuel (bubble_pass nVars
      (fun i s => (s.2.[i] <=? s.2.[i + 1])%Z) perm_step) s) as ->.
    { clear - E. induction fuel as [|fuel IH]; intros s; [done|]. cbn [do_while]. rewrite E.
      destruct (bubble_pass _ _ _ s) as [[|] s']; [apply IH|done]. }
    rewrite Hr. cbn [mbind option_bind].
    destruct (original_result _ _ _ _ fReturnIn Hm) as [H4 H5].
    destruct (original_arrays _) as [o i]. cbn [fst snd] in *. exists o, i, p. split; [done|].
    assert (forall x, x < nVars -> p.[x] = Z.of_nat x) as Hid by by apply sorted_id.
    split; [done|]. split; [done|]. exists f. split; [apply Hm|]. split; [|done].
    intros x Hx. specialize (Hv x Hx). rewrite Hid in Hv by (by apply Hm). lia.
Qed.
End permute.

(** * Properties *)

(** Swapping neighbours exchanges the two variables in every minterm; the second
    version of the routine computes the same array; swapping twice is the identity. *)
Theorem swap_adjacent_correct nVars iVar (p q t : list Z) :
  S iVar < nVars -> is_tt nVars p -> is_tt nVars q -> is_tt nVars t ->
  length q = Kit_TruthWordNum nVars -> length t = Kit_TruthWordNum nVars ->
  let t' := Kit_TruthSwapAdjacentVars p t nVars iVar in
  (forall m m', m < nmint nVars ->
     (forall i, Nat.testbit m' i = Nat.testbit m (tr iVar i)) -> tbit t' m = tbit t m') /\
  Kit_TruthSwapAdjacentVars2 t p nVars iVar = t' /\
  Kit_TruthSwapAdjacentVars q t' nVars iVar = t.
Proof.
  intros Hv Hp Hq Ht Lq Lt t'. split; [|split].
  - intros m m' Hm Hb. unfold t'. rewrite tbit_Swap by (done || apply Hp). f_equal.
    apply Nat.bits_inj. intros i. by rewrite swp_spec, Hb.
  - apply Swap2_Swap.
  - apply (tt_ext nVars); [by apply is_tt_Swap, is_tt_Swap|done|by rewrite length_Swap|done|].
    intros m Hm. assert (swp m iVar < nmint nVars) by (apply swp_lt; [done|lia]).
    unfold t'. rewrite !tbit_Swap by (done || apply Hp || apply Hq). f_equal.
    apply Nat.bits_inj. intros i. by rewrite !swp_spec, tr_tr.
Qed.

Lemma swap_adjacent_correct_witness :
  Kit_TruthSwapAdjacentVars [0; 0; 0; 0]%Z
    (Kit_TruthSwapAdjacentVars [0; 0; 0; 0]%Z [1; 2; 3; 0xCAFE]%Z 7 4) 7 4 = [1; 2; 3; 0xCAFE]%Z.
Proof.
  apply (swap_adjacent_correct 7 4 [0; 0; 0; 0]%Z [0; 0; 0; 0]%Z [1; 2; 3; 0xCAFE]%Z);
    first [lia | reflexivity | concrete_tt].
Defined.

(** Stretching moves variable number [j] of the input to the position of the [j]-th
    variable of the phase, and permutes the others among the remaining positions; the
    result is in the array that [fReturnIn] selects. *)
Theorem stretch_correct pOut pIn nVars nVarsAll Phase fReturnIn :
  nVarsAll <= 31 -> is_tt nVarsAll pOut -> is_tt nVarsAll pIn -> pos Phase nVarsAll = nVars ->
  exists r, Kit_TruthStretch pOut pIn nVars nVarsAll Phase fReturnIn = Some r /\
  let t := if fReturnIn then r.2 else r.1 in
  is_tt nVarsAll t /\ exists f, is_perm nVarsAll f /\
    (forall p, p < nVarsAll -> Z.testbit Phase (Z.of_nat p) = true -> f (pos Phase p) = p) /\
    forall m, m < nmint nVarsAll -> tbit t m = tbit pIn (ren (nv nVarsAll) f m).
Proof. apply Stretch_spec. Qed.

Lemma stretch_correct_witness :
  option_map fst (Kit_TruthStretch [0]%Z [0x88888888]%Z 2 4 0xA false) = Some [0xCC00CC00]%Z /\
  exists r, Kit_TruthStretch [0]%Z [0x88888888]%Z 2 4 0xA false = Some r /\ let t := r.1 in is_tt 4 t /\ exists f, is_perm 4 f /\
    (forall p, p < 4 -> Z.testbit 0xA (Z.of_nat p) = true -> f (pos 0xA p) = p) /\
    forall m, m < nmint 4 -> tbit t m = tbit [0x88888888]%Z (ren (nv 4) f m).
Proof.
  split; [reflexivity|].
  apply (stretch_correct [0]%Z [0x88888888]%Z 2 4 0xA false); first [lia | reflexivity | concrete_tt].
Defined.

(** Shrinking moves the [j]-th variable of the phase to position [j], and permutes the
    others among the positions above. *)
Theorem shrink_correct pOut pIn nVars nVarsAll Phase fReturnIn :
  nVarsAll <= 31 -> is_tt nVarsAll pOut -> is_tt nVarsAll pIn -> pos Phase nVarsAll = nVars ->
  exists r, Kit_TruthShrink pOut pIn nVars nVarsAll Phase fReturnIn = Some r /\
  let t := if fReturnIn then r.2 else r.1 in
  is_tt nVarsAll t /\ exists f, is_perm nVarsAll f /\
    (forall p, p < nVarsAll -> Z.testbit Phase (Z.of_nat p) = true -> f p = pos Phase p) /\
    forall m, m < nmint nVarsAll -> tbit t m = tbit pIn (ren (nv nVarsAll) f m).
Proof. apply Shrink_spec. Qed.

Lemma shrink_correct_witness :
  option_map snd (Kit_TruthShrink [0]%Z [0xCC00CC00]%Z 2 4 0xA true) = Some [0x88888888]%Z /\
  exists r, Kit_TruthShrink [0]%Z [0xCC00CC00]%Z 2 4 0xA true = Some r /\ let t := r.2 in is_tt 4 t /\ exists f, is_perm 4 f /\
    (forall p, p < 4 -> Z.testbit 0xA (Z.of_nat p) = true -> f p = pos 0xA p) /\
    forall m, m < nmint 4 -> tbit t m = tbit [0xCC00CC00]%Z (ren (nv 4) f m).
Proof.
  split; [reflexivity|].
  apply (shrink_correct [0]%Z [0xCC00CC00]%Z 2 4 0xA true); first [lia | reflexivity | concrete_tt].
Defined.

(** C37. Shrinking undoes stretching: a table over the first [nVars] variables, stretched to
    a phase of [nVars] variables and shrunk with the same phase, is the same function; the
    assertions on the number of variables hold. *)
Theorem stretch_shrink_roundtrip pOut pIn pAux nVars nVarsAll Phase :
  nVarsAll <= 31 -> is_tt nVarsAll pOut -> is_tt nVarsAll pIn -> is_tt nVarsAll pAux ->
  pos Phase nVarsAll = nVars ->
  (forall m m', m < nmint nVarsAll -> m' < nmint nVarsAll ->
    (forall i, i < nVars -> Nat.testbit m i = Nat.testbit m' i) -> tbit pIn m = tbit pIn m') ->
  exists t pIn' u t', Kit_TruthStretch pOut pIn nVars nVarsAll Phase false = Some (t, pIn') /\
    Kit_TruthShrink pAux t nVars nVarsAll Phase false = Some (u, t') /\
    forall m, m < nmint nVarsAll -> tbit u m = tbit pIn m.
Proof.
  intros Hn Ho Hi Ha Hpos Hsupp.
  destruct (Stretch_spec pOut pIn nVars nVarsAll Phase false Hn Ho Hi Hpos) as ([t pIn'] & -> & Ht & f & Hf & Hfp & Hfv).
  destruct (Shrink_spec pAux t nVars nVarsAll Phase false Hn Ha Ht Hpos) as ([u t'] & E & Hu & g & Hg & Hgp & Hgv).
  exists t, pIn', u, t'. split; [done|]. split; [done|]. intros m Hm. cbn [fst] in *.
  rewrite Hgv by done. pose proof (ren_lt (nv nVarsAll) g m). rewrite Hfv by done. apply Hsupp; [apply ren_lt|done|].
  intros j Hj. assert (exists p, p < nVarsAll /\ Z.testbit Phase (Z.of_nat p) = true /\ pos Phase p = j)
    as (p & Hp & Hb & <-).
  { subst nVars. clear - Hj. induction nVarsAll as [|n IH]; [rewrite pos_0 in Hj; lia|].
    rewrite pos_S in Hj. destruct (Nat.lt_ge_cases j (pos Phase n)) as [Hlt|Hge].
    - destruct (IH Hlt) as (p & ? & ? & ?). exists p. split; [lia|done].
    - exists n. destruct (Z.testbit Phase (Z.of_nat n)) eqn:E; cbn in Hj; [|lia].
      split; [lia|]. split; [done|lia]. }
  pose proof (pos_le Phase p).
  assert (pos Phase p < nv nVarsAll /\ p < nv nVarsAll) as [H1 H2] by (unfold nv; lia).
  apply Nat.ltb_lt in H1, H2. rewrite !testbit_ren, H1, Hfp, H2, Hgp by done. done.
Qed.

Lemma stretch_shrink_roundtrip_witness :
  exists t pIn' u t', Kit_TruthStretch [0]%Z [0x88888888]%Z 2 4 0xA false = Some (t, pIn') /\
    Kit_TruthShrink [0]%Z t 2 4 0xA false = Some (u, t') /\ forall m, m < nmint 4 -> tbit u m = tbit [0x88888888]%Z m.
Proof.
  apply (stretch_shrink_roundtrip [0]%Z [0x88888888]%Z [0]%Z 2 4 0xA);
    first [lia | reflexivity | concrete_tt | idtac].
  - intros m m' Hm Hm' H. specialize (H 0 ltac:(lia)) as H0. specialize (H 1 ltac:(lia)) as H1.
    clear H. change (nmint 4) with 32 in *. revert H0 H1.
    do 32 (destruct m as [|m]; [do 32 (destruct m' as [|m']; [vm_compute; congruence|]); lia|]). lia.
Defined.

(** C36. [Kit_TruthPermute] terminates within [nVars * nVars] passes over the array of the
    permutation, sorts it, and moves variable [x] of the input to position [pPerm[x]],
    in the array that [fReturnIn] selects. *)
Theorem permute_correct nVars (pOut pIn pPerm : list Z) fuel fReturnIn :
  is_tt nVars pOut -> is_tt nVars pIn -> nVars <= length pPerm ->
  (forall x, x < nVars -> (0 <= pPerm.[x] < Z.of_nat nVars)%Z) ->
  (forall x y, x < nVars -> y < nVars -> pPerm.[x] = pPerm.[y] -> x = y) ->
  nVars * nVars < fuel ->
  exists o i p, Kit_TruthPermute fuel pOut pIn nVars pPerm fReturnIn = Some (o, i, p) /\
    (forall x, x < nVars -> p.[x] = Z.of_nat x) /\
    is_tt nVars (if fReturnIn then i else o) /\
    exists f, is_perm nVars f /\ (forall x, x < nVars -> f x = Z.to_nat pPerm.[x]) /\
      forall m, m < nmint nVars ->
        tbit (if fReturnIn then i else o) m = tbit pIn (ren (nv nVars) f m).
Proof. intros. by apply Permute_spec. Qed.

Lemma permute_correct_witness :
  exists o i p, Kit_TruthPermute 10 [0]%Z [0xD8D8D8D8]%Z 3 [2; 0; 1]%Z false = Some (o, i, p) /\
    (forall x, x < 3 -> p.[x] = Z.of_nat x) /\
    is_tt 3 o /\
    exists f, is_perm 3 f /\ (forall x, x < 3 -> f x = Z.to_nat [2; 0; 1]%Z.[x]) /\
      forall m, m < nmint 3 -> tbit o m = tbit [0xD8D8D8D8]%Z (ren (nv 3) f m).
Proof.
  apply (permute_correct 3 [0]%Z [0xD8D8D8D8]%Z [2; 0; 1]%Z 10 false);
    first [concrete_tt | idtac].
  - cbn. lia.
  - intros x Hx. do 3 (destruct x as [|x]; [vm_compute; split; congruence|]). lia.
  - intros x y Hx Hy. do 3 (destruct x as [|x]; [do 3 (destruct y as [|y]; [vm_compute; congruence|]); lia|]). lia.
  - lia.
Defined.
