(* ===== verification/TruthSupp.v ===== *)
(** The support of a function and the choices made from it ([kitTruth.c]):
    membership, size and set of the support variables, vacuous variables of an
    incompletely specified function, symmetries, and the two heuristics that pick
    a cofactoring variable. *)
From S2P Require Import Prelude Words Minterm Relabel TruthBasic TruthCof.

(** * The routines *)

Definition Kit_TruthVarInSupport (pTruth : list Z) (nVars iVar : nat) : bool :=
  let nWords := Kit_TruthWordNum nVars in
  match iVar with
  | 0 => exists_up nWords (fun i => negb ((pTruth.[i] &&& 0x55555555) =? ((pTruth.[i] &&& 0xAAAAAAAA) >>> 1))%Z)
  | 1 => exists_up nWords (fun i => negb ((pTruth.[i] &&& 0x33333333) =? ((pTruth.[i] &&& 0xCCCCCCCC) >>> 2))%Z)
  | 2 => exists_up nWords (fun i => negb ((pTruth.[i] &&& 0x0F0F0F0F) =? ((pTruth.[i] &&& 0xF0F0F0F0) >>> 4))%Z)
  | 3 => exists_up nWords (fun i => negb ((pTruth.[i] &&& 0x00FF00FF) =? ((pTruth.[i] &&& 0xFF00FF00) >>> 8))%Z)
  | 4 => exists_up nWords (fun i => negb ((pTruth.[i] &&& 0x0000FFFF) =? ((pTruth.[i] &&& 0xFFFF0000) >>> 16))%Z)
  | _ =>
    let Step := 2 ^ (iVar - 5) in
    exists_step nWords (2 * Step) (fun k => exists_up Step (fun i =>
      negb (pTruth.[k + i] =? pTruth.[k + Step + i])%Z))
  end.

Definition Kit_TruthVarIsVacuous (pOnset pOffset : list Z) (nVars iVar : nat) : bool :=
  let nWords := Kit_TruthWordNum nVars in
  match iVar with
  | 0 => negb (exists_up nWords (fun i => negb
      ((((pOnset.[i] &&& (pOffset.[i] >>> 1)) ||| (pOffset.[i] &&& (pOnset.[i] >>> 1))) &&& 0x55555555) =? 0)%Z))
  | 1 => negb (exists_up nWords (fun i => negb
      ((((pOnset.[i] &&& (pOffset.[i] >>> 2)) ||| (pOffset.[i] &&& (pOnset.[i] >>> 2))) &&& 0x33333333) =? 0)%Z))
  | 2 => negb (exists_up nWords (fun i => negb
      ((((pOnset.[i] &&& (pOffset.[i] >>> 4)) ||| (pOffset.[i] &&& (pOnset.[i] >>> 4))) &&& 0x0F0F0F0F) =? 0)%Z))
  | 3 => negb (exists_up nWords (fun i => negb
      ((((pOnset.[i] &&& (pOffset.[i] >>> 8)) ||| (pOffset.[i] &&& (pOnset.[i] >>> 8))) &&& 0x00FF00FF) =? 0)%Z))
  | 4 => negb (exists_up nWords (fun i => negb
      ((((pOnset.[i] &&& (pOffset.[i] >>> 16)) ||| (pOffset.[i] &&& (pOnset.[i] >>> 16))) &&& 0x0000FFFF) =? 0)%Z))
  | _ =>
    let Step := 2 ^ (iVar - 5) in
    negb (exists_step nWords (2 * Step) (fun k => exists_up Step (fun i => negb
      (((pOnset.[k + i] &&& pOffset.[k + Step + i]) ||| (pOffset.[k + i] &&& pOnset.[k + Step + i])) =? 0)%Z)))
  end.

Definition Kit_TruthSupportSize (pTruth : list Z) (nVars : nat) : Z :=
  for_up nVars (fun i Counter => (Counter + Z.b2z (Kit_TruthVarInSupport pTruth nVars i))%Z) 0%Z.

Definition Kit_TruthSupport (pTruth : list Z) (nVars : nat) : Z :=
  for_up nVars (fun i Support =>
    if Kit_TruthVarInSupport pTruth nVars i then (Support ||| (1 <<< i))%Z else Support) 0%Z.

(** The routines below are given two arrays for the cofactors; when one is [NULL] they use
    a static array of 32 words, whose contents at the call are [uTemp0] and [uTemp1].
    They return the answer and the two arrays. *)
Definition Kit_TruthVarsSymm (uTemp0 uTemp1 pTruth : list Z) (nVars iVar0 iVar1 : nat)
    (pCof0 pCof1 : option (list Z)) : bool * list Z * list Z :=
  let pCof0 := match pCof0 with None => uTemp0 | Some p => p end in
  let pCof1 := match pCof1 with None => uTemp1 | Some p => p end in
  let pCof0 := Kit_TruthCopy pCof0 pTruth nVars in
  let pCof0 := Kit_TruthCofactor0 pCof0 nVars iVar0 in
  let pCof0 := Kit_TruthCofactor1 pCof0 nVars iVar1 in
  let pCof1 := Kit_TruthCopy pCof1 pTruth nVars in
  let pCof1 := Kit_TruthCofactor1 pCof1 nVars iVar0 in
  let pCof1 := Kit_TruthCofactor0 pCof1 nVars iVar1 in
  (Kit_TruthIsEqual pCof0 pCof1 nVars, pCof0, pCof1).

Definition Kit_TruthVarsAntiSymm (uTemp0 uTemp1 pTruth : list Z) (nVars iVar0 iVar1 : nat)
    (pCof0 pCof1 : option (list Z)) : bool * list Z * list Z :=
  let pCof0 := match pCof0 with None => uTemp0 | Some p => p end in
  let pCof1 := match pCof1 with None => uTemp1 | Some p => p end in
  let pCof0 := Kit_TruthCopy pCof0 pTruth nVars in
  let pCof0 := Kit_TruthCofactor0 pCof0 nVars iVar0 in
  let pCof0 := Kit_TruthCofactor0 pCof0 nVars iVar1 in
  let pCof1 := Kit_TruthCopy pCof1 pTruth nVars in
  let pCof1 := Kit_TruthCofactor1 pCof1 nVars iVar0 in
  let pCof1 := Kit_TruthCofactor1 pCof1 nVars iVar1 in
  (Kit_TruthIsEqual pCof0 pCof1 nVars, pCof0, pCof1).

(** Variables of [Kit_TruthMinCofSuppOverlap]: the static array, the running minimum and
    its variable, and whether the loop was left. *)
Record overlap := { ov_cof : list Z; ov_min : Z; ov_var : Z; ov_break : bool }.

Definition overlap_step (pTruth : list Z) (nVars i : nat) (s : overlap) : overlap :=
  if ov_break s then s else
  let uCofactor := Kit_TruthCopy (ov_cof s) pTruth nVars in
  let uCofactor := Kit_TruthCofactor0 uCofactor nVars i in
  let uSupp0 := Kit_TruthSupport uCofactor nVars in
  let nVars0 := Kit_WordCountOnes uSupp0 in
  let uCofactor := Kit_TruthCopy uCofactor pTruth nVars in
  let uCofactor := Kit_TruthCofactor1 uCofactor nVars i in
  let uSupp1 := Kit_TruthSupport uCofactor nVars in
  let nVars1 := Kit_WordCountOnes uSupp1 in
  let ValueCur := Kit_WordCountOnes (uSupp0 &&& uSupp1) in
  let '(ValueMin, VarMin) :=
    if (ValueCur <? ov_min s)%Z && (nVars0 <=? 5)%Z && (nVars1 <=? 5)%Z
    then (ValueCur, Z.of_nat i) else (ov_min s, ov_var s) in
  {| ov_cof := uCofactor; ov_min := ValueMin; ov_var := VarMin; ov_break := (ValueMin =? 0)%Z |}.

(** Returns [ValueMin] and what is stored in [*pVarMin]. *)
Definition Kit_TruthMinCofSuppOverlap (uCofactor pTruth : list Z) (nVars : nat) : Z * Z :=
  let s := for_up nVars (overlap_step pTruth nVars)
    {| ov_cof := uCofactor; ov_min := 32; ov_var := -1; ov_break := false |} in
  (ov_min s, ov_var s).

Definition KIT_INFINITY : Z := 100000000.

(** Returns the variable, or -1 for a constant function, and the arrays [pCof0], [pCof1]. *)
Definition Kit_TruthBestCofVar (pTruth : list Z) (nVars : nat) (pCof0 pCof1 : list Z) : Z * list Z * list Z :=
  if Kit_TruthIsConst0 pTruth nVars || Kit_TruthIsConst1 pTruth nVars then ((-1)%Z, pCof0, pCof1) else
  let '(iBestVar, _, pCof0, pCof1) :=
    for_up nVars (fun i '(iBestVar, nSuppSizeMin, pCof0, pCof1) =>
      let pCof0 := Kit_TruthCofactor0New pCof0 pTruth nVars i in
      let pCof1 := Kit_TruthCofactor1New pCof1 pTruth nVars i in
      let nSuppSizeCur0 := Kit_TruthSupportSize pCof0 nVars in
      let nSuppSizeCur1 := Kit_TruthSupportSize pCof1 nVars in
      let nSuppSizeCur := (nSuppSizeCur0 + nSuppSizeCur1)%Z in
      if (nSuppSizeCur <? nSuppSizeMin)%Z then (Z.of_nat i, nSuppSizeCur, pCof0, pCof1)
      else (iBestVar, nSuppSizeMin, pCof0, pCof1)) ((-1)%Z, KIT_INFINITY, pCof0, pCof1) in
  (iBestVar, Kit_TruthCofactor0New pCof0 pTruth nVars (Z.to_nat iBestVar),
             Kit_TruthCofactor1New pCof1 pTruth nVars (Z.to_nat iBestVar)).

(** * Loops that look for a minterm *)

Lemma word_neq x y :
  is_word x -> is_word y ->
  negb (x =? y)%Z = true <-> exists b, b < 32 /\ Z.testbit x (Z.of_nat b) <> Z.testbit y (Z.of_nat b).
Proof.
  intros Hx Hy. rewrite negb_true_iff, Z.eqb_neq. split.
  - intros Hn. destruct (exists_up 32 (fun b => xorb (Z.testbit x (Z.of_nat b)) (Z.testbit y (Z.of_nat b)))) eqn:E.
    + apply exists_up_true in E as (b & Hb & He). exists b. split; [done|]. intros Heq.
      by rewrite Heq, xorb_nilpotent in He.
    + rewrite exists_up_false in E. exfalso. apply Hn, word_ext; [done..|]. intros b Hb.
      by apply xorb_eq, E.
  - intros (b & _ & Hb) ->. done.
Qed.

Lemma word_nonzero x :
  is_word x -> negb (x =? 0)%Z = true <-> exists b, b < 32 /\ Z.testbit x (Z.of_nat b) = true.
Proof.
  intros Hx. rewrite word_neq by auto with words. setoid_rewrite Z.testbit_0_l.
  setoid_rewrite not_false_iff_true. done.
Qed.

Section search.
Context (nVars : nat) (viol : nat -> Prop).

(** Words looked at one by one. *)
Lemma search_lo c :
  (forall w, c w = true <-> exists b, b < 32 /\ viol (w * 32 + b)) ->
  exists_up (Kit_TruthWordNum nVars) c = true <-> exists m, m < nmint nVars /\ viol m.
Proof.
  intros Hc. rewrite exists_up_true. split.
  - intros (w & Hw & H). apply Hc in H as (b & Hb & H). exists (w * 32 + b).
    rewrite nmint_words. split; [nia|done].
  - intros (m & Hm & H). exists (m / 32). split; [by apply nmint_div|]. apply Hc.
    exists (m mod 32). split; [apply mod32|]. by rewrite Nat.mul_comm, <- Nat.div_mod_eq.
Qed.

(** Pairs of words: [k + i] and [k + 2 ^ v + i] are the two words paired by a variable. *)
Lemma search_hi v c :
  5 + v < nVars ->
  (forall w, Nat.testbit w v = false ->
     c w (Nat.setbit w v) = true <-> exists b, b < 32 /\ viol (w * 32 + b)) ->
  (forall m, viol m -> viol (Nat.clearbit m (5 + v))) ->
  exists_step (Kit_TruthWordNum nVars) (2 * 2 ^ v)
    (fun k => exists_up (2 ^ v) (fun i => c (k + i) (k + 2 ^ v + i))) = true <->
  exists m, m < nmint nVars /\ viol m.
Proof.
  intros Hv Hc Hcl. assert (2 ^ v <> 0) as Hs by (apply Nat.pow_nonzero; lia).
  pose proof (pair_loop_count (Kit_TruthWordNum nVars) v (blocks_hi nVars v Hv)) as Hn.
  unfold exists_step. set (q := (Kit_TruthWordNum nVars + 2 * 2 ^ v - 1) / (2 * 2 ^ v)) in *.
  rewrite exists_up_true. setoid_rewrite exists_up_true. split.
  - intros (b & Hb & i & Hi & H). set (w := b * (2 * 2 ^ v) + i).
    destruct (block_div v b i Hi) as [D _]. destruct (block_mod v b i Hi) as [M _].
    assert (Nat.clearbit w v = w) as Hcw by (rewrite clearbit_block; unfold w; rewrite D, M; done).
    assert (Nat.setbit w v = b * (2 * 2 ^ v) + 2 ^ v + i) as Hsw
      by (rewrite setbit_block; unfold w; rewrite D, M; done).
    assert (Nat.testbit w v = false) as Hw by (rewrite <- Hcw, clearbit_if, Nat.eqb_refl; done).
    fold w in H. rewrite <- Hsw, Hc in H by done. destruct H as (j & Hj & H).
    exists (w * 32 + j). split; [|done]. rewrite nmint_words. assert (w < Kit_TruthWordNum nVars); [|nia].
    unfold w. nia.
  - intros (m & Hm & H). apply Hcl in H. set (m' := Nat.clearbit m (5 + v)) in *.
    set (w := m' / 32).
    assert (Nat.testbit m' (5 + v) = false) as Hb by (unfold m'; by rewrite clearbit_if, Nat.eqb_refl).
    assert (m' < nmint nVars) as Hm' by (unfold m'; auto with words).
    assert (Nat.testbit w v = false) as Hw.
    { unfold w. rewrite testbit_hi in Hb by lia. by replace (5 + v - 5) with v in Hb by lia. }
    exists (w / (2 * 2 ^ v)). split; [apply nmint_div in Hm'; fold w in Hm'; apply Nat.Div0.div_lt_upper_bound; lia|].
    exists (w mod 2 ^ v). split; [by apply Nat.mod_upper_bound|].
    rewrite <- clearbit_block, <- setbit_block, clearbit_id by done. apply Hc; [done|].
    exists (m' mod 32). split; [apply mod32|]. unfold w. by rewrite Nat.mul_comm, <- Nat.div_mod_eq.
Qed.
End search.

(** Position [w * 32 + b] and the variables. *)
Lemma clr_at_lo w b v : v < 5 -> b < 32 -> Nat.clearbit (w * 32 + b) v = w * 32 + Nat.clearbit b v.
Proof.
  intros Hv Hb. rewrite (Nat.div_mod_eq (Nat.clearbit (w * 32 + b) v) 32).
  rewrite clr_div_lo, clr_mod_lo by done.
  rewrite Nat.div_add_l, Nat.div_small, Nat.add_0_r by lia.
  rewrite (Nat.add_comm (w * 32)), Nat.Div0.mod_add, Nat.mod_small by lia. lia.
Qed.
Lemma set_at_lo w b v : v < 5 -> b < 32 -> Nat.setbit (w * 32 + b) v = w * 32 + Nat.setbit b v.
Proof.
  intros Hv Hb. rewrite (Nat.div_mod_eq (Nat.setbit (w * 32 + b) v) 32).
  rewrite set_div_lo, set_mod_lo by done.
  rewrite Nat.div_add_l, Nat.div_small, Nat.add_0_r by lia.
  rewrite (Nat.add_comm (w * 32)), Nat.Div0.mod_add, Nat.mod_small by lia. lia.
Qed.
Lemma clr_at_hi w b v : b < 32 -> Nat.clearbit (w * 32 + b) (5 + v) = Nat.clearbit w v * 32 + b.
Proof.
  intros Hb. rewrite (Nat.div_mod_eq (Nat.clearbit (w * 32 + b) (5 + v)) 32).
  rewrite clr_div_hi, clr_mod_hi, Nat.div_add_l, Nat.div_small, Nat.add_0_r by lia.
  rewrite (Nat.add_comm (w * 32)), Nat.Div0.mod_add, Nat.mod_small by lia.
  replace (5 + v - 5) with v by lia. lia.
Qed.
Lemma set_at_hi w b v : b < 32 -> Nat.setbit (w * 32 + b) (5 + v) = Nat.setbit w v * 32 + b.
Proof.
  intros Hb. rewrite (Nat.div_mod_eq (Nat.setbit (w * 32 + b) (5 + v)) 32).
  rewrite set_div_hi, set_mod_hi, Nat.div_add_l, Nat.div_small, Nat.add_0_r by lia.
  rewrite (Nat.add_comm (w * 32)), Nat.Div0.mod_add, Nat.mod_small by lia.
  replace (5 + v - 5) with v by lia. lia.
Qed.

Lemma clear_lt32 b v : b < 32 -> Nat.clearbit b v < 32.
Proof. apply (clearbit_lt b 5). Qed.
Lemma set_lt32 b v : b < 32 -> v < 5 -> Nat.setbit b v < 32.
Proof. apply (setbit_lt b 5). Qed.

(** * Support *)

(** A variable is in the support when some minterm shows a difference. *)
Definition differs (t : list Z) (v m : nat) : Prop := tbit t (Nat.clearbit m v) <> tbit t (Nat.setbit m v).
Definition in_support (nVars : nat) (t : list Z) (v : nat) : Prop := exists m, m < nmint nVars /\ differs t v m.

Lemma clearbit_clearbit m v : Nat.clearbit (Nat.clearbit m v) v = Nat.clearbit m v.
Proof. apply clearbit_id. by rewrite clearbit_if, Nat.eqb_refl. Qed.

Lemma differs_clear t v m : differs t v m -> differs t v (Nat.clearbit m v).
Proof. unfold differs. by rewrite clearbit_clearbit, setbit_clearbit. Qed.

(** The word test of a variable below 5, from the bits of its two sides. *)
Lemma word_differs x a y v :
  v < 5 -> is_word x -> is_word y ->
  (forall b, b < 32 -> Z.testbit x (Z.of_nat b) =
     if Nat.testbit b v then false else Z.testbit a (Z.of_nat (Nat.clearbit b v))) ->
  (forall b, b < 32 -> Z.testbit y (Z.of_nat b) =
     if Nat.testbit b v then false else Z.testbit a (Z.of_nat (Nat.setbit b v))) ->
  negb (x =? y)%Z = true <->
  exists b, b < 32 /\ Z.testbit a (Z.of_nat (Nat.clearbit b v)) <> Z.testbit a (Z.of_nat (Nat.setbit b v)).
Proof.
  intros Hv Hx Hy Hbx Hby. rewrite word_neq by done. split.
  - intros (b & Hb & H). exists b. rewrite Hbx, Hby in H by done. by destruct (Nat.testbit b v).
  - intros (b & Hb & H). exists (Nat.clearbit b v). split; [by apply clear_lt32|].
    rewrite Hbx, Hby, clearbit_clearbit, setbit_clearbit, clearbit_if, Nat.eqb_refl by by apply clear_lt32.
    done.
Qed.

Lemma VarInSupport_spec nVars t v :
  v < nVars -> Forall is_word t -> Kit_TruthVarInSupport t nVars v = true <-> in_support nVars t v.
Proof.
  intros Hv Ht. unfold in_support. switch Kit_TruthVarInSupport v.
  1-5: apply search_lo; intros w; unfold differs; 
    match goal with |- context [Nat.clearbit _ ?v] => rewrite (word_differs _ t.[w] _ v) end;
    [ split; intros (b & Hb & H); exists b; (split; [done|]);
      rewrite ?clr_at_lo, ?set_at_lo, !tbit_at in * by (done || lia || apply clear_lt32, Hb || (apply set_lt32; lia)); done
    | lia | auto with words | auto with words
    | intros b Hb; generalize (t.[w]); intros x; word_bits b
    | intros b Hb; generalize (t.[w]); intros x; word_bits b ].
  apply (search_hi nVars (fun m => differs t (5 + v) m) v (fun w0 w1 => negb (t.[w0] =? t.[w1])%Z)).
  - lia.
  - intros w Hw. rewrite word_neq by auto with words. unfold differs.
    split; intros (b & Hb & H); exists b; (split; [done|]);
      rewrite clr_at_hi, set_at_hi, (clearbit_id w), !tbit_at in * by done; done.
  - intros m. apply differs_clear.
Qed.

Lemma VarInSupport_false nVars t v m :
  v < nVars -> Forall is_word t -> Kit_TruthVarInSupport t nVars v = false -> m < nmint nVars ->
  tbit t (Nat.clearbit m v) = tbit t (Nat.setbit m v).
Proof.
  intros Hv Ht Hf Hm. destruct (bool_decide (tbit t (Nat.clearbit m v) = tbit t (Nat.setbit m v))) eqn:E.
  - by apply bool_decide_eq_true in E.
  - apply bool_decide_eq_false in E. rewrite (proj2 (VarInSupport_spec nVars t v Hv Ht)) in Hf; [done|].
    by exists m.
Qed.

(** Extensionality in the function. *)
Lemma VarInSupport_ext nVars t u v :
  v < nVars -> Forall is_word t -> Forall is_word u ->
  (forall m, m < nmint nVars -> tbit t m = tbit u m) ->
  Kit_TruthVarInSupport t nVars v = Kit_TruthVarInSupport u nVars v.
Proof.
  intros Hv Ht Hu He. apply eq_true_iff_eq. rewrite !VarInSupport_spec by done.
  split; intros (m & Hm & H); exists m; (split; [done|]); unfold differs in *;
    [rewrite <- !He|rewrite !He]; auto with words.
Qed.

Lemma SupportSize_spec nVars t :
  Kit_TruthSupportSize t nVars = cnt nVars (fun v => Kit_TruthVarInSupport t nVars v).
Proof. unfold Kit_TruthSupportSize. rewrite for_up_cnt. apply Z.add_0_l. Qed.

(** [Support |= (1 << i)] collects the variables. *)
Lemma collect_bits n (c : nat -> bool) :
  n <= 31 ->
  let s := for_up n (fun i s => if c i then (s ||| (1 <<< i))%Z else s) 0%Z in
  is_word s /\ forall b, Z.testbit s (Z.of_nat b) = (b <? n) && c b.
Proof.
  intros Hn. cbv zeta. induction n as [|n IH]; [split; [apply word_0|intros; apply Z.testbit_0_l]|].
  rewrite for_up_S. destruct IH as [IHw IHb]; [lia|]. split.
  - destruct (c n); auto with words.
  - intros b. destruct (c n) eqn:E.
    + rewrite Z.lor_spec, IHb, testbit_pow by lia.
      destruct (Nat.ltb_spec b n), (Nat.ltb_spec b (S n)), (Nat.eqb_spec b n); subst; try lia;
        cbn [andb orb]; rewrite ?E, ?orb_false_r; done.
    + rewrite IHb. destruct (Nat.ltb_spec b n), (Nat.ltb_spec b (S n)); try lia; try done.
      assert (b = n) as -> by lia. by rewrite E.
Qed.

Lemma Support_spec nVars t b :
  nVars <= 31 ->
  Z.testbit (Kit_TruthSupport t nVars) (Z.of_nat b) = (b <? nVars) && Kit_TruthVarInSupport t nVars b.
Proof. intros Hn. by apply collect_bits. Qed.

Lemma word_Support nVars t : nVars <= 31 -> is_word (Kit_TruthSupport t nVars).
Proof. intros Hn. by apply collect_bits. Qed.
#[export] Hint Resolve word_Support : words.

Lemma cnt_upto n k f : n <= k -> (forall i, n <= i -> f i = false) -> cnt k f = cnt n f.
Proof.
  intros Hn Hf. apply Nat.le_exists_sub in Hn as (d & -> & _). rewrite Nat.add_comm, cnt_add.
  rewrite (cnt_false d); [lia|]. intros. apply Hf. lia.
Qed.

Lemma CountOnes_Support nVars t :
  nVars <= 31 -> Kit_WordCountOnes (Kit_TruthSupport t nVars) = Kit_TruthSupportSize t nVars.
Proof.
  intros Hn. rewrite WordCountOnes_spec by auto with words. rewrite SupportSize_spec.
  rewrite (cnt_upto nVars 32) by (lia || (intros i Hi; rewrite Support_spec by done;
    by rewrite (proj2 (Nat.ltb_ge i nVars)))).
  apply cnt_ext. intros i Hi. rewrite Support_spec by done. by rewrite (proj2 (Nat.ltb_lt i nVars)).
Qed.

(** * Vacuous variables *)

(** A care minterm where the on-set has one value of the variable and the off-set the other. *)
Definition depends (on off : list Z) (v m : nat) : Prop :=
  tbit on (Nat.clearbit m v) && tbit off (Nat.setbit m v) ||
  tbit off (Nat.clearbit m v) && tbit on (Nat.setbit m v) = true.

Lemma word_depends x a b v :
  v < 5 -> is_word x ->
  (forall i, i < 32 -> Z.testbit x (Z.of_nat i) = if Nat.testbit i v then false else
     Z.testbit a (Z.of_nat (Nat.clearbit i v)) && Z.testbit b (Z.of_nat (Nat.setbit i v)) ||
     Z.testbit b (Z.of_nat (Nat.clearbit i v)) && Z.testbit a (Z.of_nat (Nat.setbit i v))) ->
  negb (x =? 0)%Z = true <-> exists i, i < 32 /\
     Z.testbit a (Z.of_nat (Nat.clearbit i v)) && Z.testbit b (Z.of_nat (Nat.setbit i v)) ||
     Z.testbit b (Z.of_nat (Nat.clearbit i v)) && Z.testbit a (Z.of_nat (Nat.setbit i v)) = true.
Proof.
  intros Hv Hx Hb. rewrite word_nonzero by done. split.
  - intros (i & Hi & H). exists i. rewrite Hb in H by done. by destruct (Nat.testbit i v).
  - intros (i & Hi & H). exists (Nat.clearbit i v). split; [by apply clear_lt32|].
    rewrite Hb, clearbit_clearbit, setbit_clearbit, clearbit_if, Nat.eqb_refl by by apply clear_lt32.
    done.
Qed.

Lemma VarIsVacuous_loop nVars on off v :
  v < nVars -> Forall is_word on -> Forall is_word off ->
  negb (Kit_TruthVarIsVacuous on off nVars v) = true <-> exists m, m < nmint nVars /\ depends on off v m.
Proof.
  intros Hv Ht Hu. switch Kit_TruthVarIsVacuous v; rewrite negb_involutive.
  1-5: apply search_lo; intros w; unfold depends;
    match goal with |- context [Nat.clearbit _ ?v] => rewrite (word_depends _ on.[w] off.[w] v) end;
    [ split; intros (b & Hb & H); exists b; (split; [done|]);
      rewrite ?clr_at_lo, ?set_at_lo, !tbit_at in * by (done || lia || apply clear_lt32, Hb || (apply set_lt32; lia)); done
    | lia
    | apply word_land; auto with words;
      apply word_lor; apply word_land; auto with words; apply word_wshr; auto with words
    | intros b Hb; generalize (on.[w]), (off.[w]); intros x y; word_bits b ].
  apply (search_hi nVars (fun m => depends on off (5 + v) m) v
    (fun w0 w1 => negb (((on.[w0] &&& off.[w1]) ||| (off.[w0] &&& on.[w1])) =? 0)%Z)).
  - lia.
  - intros w Hw. rewrite word_nonzero by auto 10 with words. unfold depends.
    split; intros (b & Hb & H); exists b; (split; [done|]);
      rewrite clr_at_hi, set_at_hi, (clearbit_id w), !tbit_at, Z.lor_spec, !Z.land_spec in * by done; done.
  - intros m. unfold depends. by rewrite clearbit_clearbit, setbit_clearbit.
Qed.

(** * Choosing a variable *)

(** The result of a scan that keeps the first least value among the eligible ones,
    starting from [init] and variable -1. *)
Definition first_min (n : nat) (val : nat -> Z) (elig : nat -> bool) (init best var : Z) : Prop :=
  (var = -1 /\ best = init)%Z /\ (forall i, i < n -> elig i = true -> (init <= val i)%Z) \/
  exists i, var = Z.of_nat i /\ best = val i /\ i < n /\ elig i = true /\ (val i < init)%Z /\
    (forall j, j < i -> elig j = true -> (val i < val j)%Z) /\
    (forall j, j < n -> elig j = true -> (val i <= val j)%Z).

Lemma first_min_best n val elig init best var :
  first_min n val elig init best var ->
  (best <= init)%Z /\ forall i, i < n -> elig i = true -> (best <= val i)%Z.
Proof.
  intros [[[_ ->] H]|(i & _ & -> & _ & _ & H1 & _ & H2)]; (split; [lia|auto]).
Qed.

Lemma first_min_keep n val elig init best var :
  first_min n val elig init best var -> (elig n = true -> (best <= val n)%Z) ->
  first_min (S n) val elig init best var.
Proof.
  assert (forall i, i < S n -> i < n \/ i = n) as Hn by lia.
  intros [[[-> ->] H]|(i & -> & -> & Hi & He & H1 & H2 & H3)] Hb.
  - left. split; [done|]. intros i Hi. destruct (Hn i Hi) as [ | -> ]; auto.
  - right. exists i. repeat split; auto. intros j Hj. destruct (Hn j Hj) as [ | -> ]; auto.
Qed.

Lemma first_min_take n val elig init best var :
  first_min n val elig init best var -> elig n = true -> (val n < best)%Z ->
  first_min (S n) val elig init (val n) (Z.of_nat n).
Proof.
  intros Hm He Hb. destruct (first_min_best _ _ _ _ _ _ Hm) as [H1 H2].
  right. exists n. repeat split; auto; [lia| |].
  - intros j Hj Hej. specialize (H2 j Hj Hej). lia.
  - intros j Hj Hej. destruct (decide (j = n)) as [-> | ]; [lia|]. specialize (H2 j ltac:(lia) Hej). lia.
Qed.

(** ** [Kit_TruthMinCofSuppOverlap] *)

Section overlap.
Context (nVars : nat) (t : list Z) (Ht : is_tt nVars t) (Hn : nVars <= 31).

(** Support of the cofactors with respect to variable [i], and the numbers compared. *)
Definition sup0 (i v : nat) : bool := Kit_TruthVarInSupport (Kit_TruthCofactor0 t nVars i) nVars v.
Definition sup1 (i v : nat) : bool := Kit_TruthVarInSupport (Kit_TruthCofactor1 t nVars i) nVars v.
Definition ov_val (i : nat) : Z := cnt nVars (fun v => sup0 i v && sup1 i v).
Definition ov_elig (i : nat) : bool := (cnt nVars (sup0 i) <=? 5)%Z && (cnt nVars (sup1 i) <=? 5)%Z.

Lemma cnt_support u : 
  Kit_WordCountOnes (Kit_TruthSupport u nVars) = cnt nVars (fun v => Kit_TruthVarInSupport u nVars v).
Proof using Hn. rewrite CountOnes_Support by done. apply SupportSize_spec. Qed.

Lemma cnt_support_and u w :
  Kit_WordCountOnes (Kit_TruthSupport u nVars &&& Kit_TruthSupport w nVars)
  = cnt nVars (fun v => Kit_TruthVarInSupport u nVars v && Kit_TruthVarInSupport w nVars v).
Proof using Hn.
  rewrite WordCountOnes_spec by auto with words.
  assert (forall b, Z.testbit (Kit_TruthSupport u nVars &&& Kit_TruthSupport w nVars) (Z.of_nat b) =
    (b <? nVars) && (Kit_TruthVarInSupport u nVars b && Kit_TruthVarInSupport w nVars b)) as E.
  { intros b. rewrite Z.land_spec, !Support_spec by done. by destruct (b <? nVars); cbn. }
  rewrite (cnt_upto nVars 32) by (lia || (intros i Hi; rewrite E; by rewrite (proj2 (Nat.ltb_ge i nVars)))).
  apply cnt_ext. intros i Hi. rewrite E. by rewrite (proj2 (Nat.ltb_lt i nVars)).
Qed.

(** The cofactor computed in another array has the same support. *)
Lemma sup0_copy p i v : i < nVars -> v < nVars -> is_tt nVars p ->
  Kit_TruthVarInSupport (Kit_TruthCofactor0 (Kit_TruthCopy p t nVars) nVars i) nVars v = sup0 i v.
Proof using Ht.
  intros Hi Hv Hp. apply VarInSupport_ext; auto with words.
  - apply words_Cofactor0. eapply tt_words. by apply is_tt_Copy.
  - intros m Hm. rewrite !tbit_Cofactor0, tbit_Copy by
      (rewrite ?length_Copy; auto with words || apply Hp || apply Ht). done.
Qed.
Lemma sup1_copy p i v : i < nVars -> v < nVars -> is_tt nVars p ->
  Kit_TruthVarInSupport (Kit_TruthCofactor1 (Kit_TruthCopy p t nVars) nVars i) nVars v = sup1 i v.
Proof using Ht.
  intros Hi Hv Hp. apply VarInSupport_ext; auto with words.
  - apply words_Cofactor1. eapply tt_words. by apply is_tt_Copy.
  - intros m Hm. rewrite !tbit_Cofactor1, tbit_Copy by
      (rewrite ?length_Copy; auto with words || apply Hp || apply Ht). done.
Qed.

Lemma overlap_step_spec i s :
  i < nVars -> is_tt nVars (ov_cof s) ->
  first_min i ov_val ov_elig 32 (ov_min s) (ov_var s) -> (ov_break s = true -> ov_min s = 0%Z) ->
  let s' := overlap_step t nVars i s in
  is_tt nVars (ov_cof s') /\ first_min (S i) ov_val ov_elig 32 (ov_min s') (ov_var s') /\
  (ov_break s' = true -> ov_min s' = 0%Z).
Proof using Ht Hn.
  intros Hi Hc Hm Hb. unfold overlap_step.
  assert (0 <= ov_val i)%Z by apply cnt_bound.
  destruct (ov_break s) eqn:E.
  { cbv beta iota zeta. split; [done|]. split; [|by auto]. apply first_min_keep; [done|]. intros _. by rewrite Hb. }
  cbv beta iota zeta. rewrite cnt_support_and, !cnt_support.
  set (c0 := Kit_TruthCofactor0 (Kit_TruthCopy (ov_cof s) t nVars) nVars i).
  assert (is_tt nVars c0) as Hc0 by (unfold c0; auto with words).
  rewrite (cnt_ext _ _ (fun v => sup0 i v && sup1 i v))
    by (intros v Hv; unfold c0 at 1; rewrite sup0_copy, sup1_copy by done; done).
  rewrite (cnt_ext _ (fun v => Kit_TruthVarInSupport c0 nVars v) (sup0 i))
    by (intros v Hv; unfold c0; by rewrite sup0_copy).
  rewrite (cnt_ext _ (fun v => Kit_TruthVarInSupport (Kit_TruthCofactor1 _ _ _) nVars v) (sup1 i))
    by (intros v Hv; by rewrite sup1_copy).
  rewrite <- andb_assoc. fold (ov_val i) (ov_elig i).
  destruct (Z.ltb_spec (ov_val i) (ov_min s)), (ov_elig i) eqn:Ee; cbn [andb ov_cof ov_min ov_var ov_break];
    (split; [auto with words|]); rewrite Z.eqb_eq; (split; [|done]);
    first [by apply (first_min_take i ov_val ov_elig 32 _ _ Hm)
          |apply first_min_keep; [done|]; rewrite Ee; done || lia].
Qed.

Lemma MinCofSuppOverlap_spec p :
  is_tt nVars p ->
  let r := Kit_TruthMinCofSuppOverlap p t nVars in
  first_min nVars ov_val ov_elig 32 r.1 r.2.
Proof using Ht Hn.
  intros Hp. unfold Kit_TruthMinCofSuppOverlap. cbn [fst snd].
  apply (for_up_ind (fun i s => is_tt nVars (ov_cof s) /\
    first_min i ov_val ov_elig 32 (ov_min s) (ov_var s) /\ (ov_break s = true -> ov_min s = 0%Z))).
  - cbn. split; [done|]. split; [|done]. left. split; [done|lia].
  - intros i s Hi (H1 & H2 & H3). by apply overlap_step_spec.
Qed.
End overlap.

(** ** [Kit_TruthBestCofVar] *)

Section best.
Context (nVars : nat) (t : list Z) (Ht : is_tt nVars t) (Hn : nVars <= 31).

(** Sum of the support sizes of the two cofactors. *)
Definition best_val (i : nat) : Z := (cnt nVars (sup0 nVars t i) + cnt nVars (sup1 nVars t i))%Z.

Lemma size0_new p i : i < nVars -> is_tt nVars p ->
  Kit_TruthSupportSize (Kit_TruthCofactor0New p t nVars i) nVars = cnt nVars (sup0 nVars t i).
Proof using Ht.
  intros Hi Hp. rewrite SupportSize_spec. apply cnt_ext. intros v Hv.
  apply VarInSupport_ext; auto with words.
  intros m Hm. rewrite tbit_Cofactor0New, tbit_Cofactor0 by (done || apply Hp || apply Ht). done.
Qed.
Lemma size1_new p i : i < nVars -> is_tt nVars p ->
  Kit_TruthSupportSize (Kit_TruthCofactor1New p t nVars i) nVars = cnt nVars (sup1 nVars t i).
Proof using Ht.
  intros Hi Hp. rewrite SupportSize_spec. apply cnt_ext. intros v Hv.
  apply VarInSupport_ext; auto with words.
  intros m Hm. rewrite tbit_Cofactor1New, tbit_Cofactor1 by (done || apply Hp || apply Ht). done.
Qed.

Lemma BestCofVar_const p0 p1 :
  Kit_TruthIsConst0 t nVars || Kit_TruthIsConst1 t nVars = true ->
  Kit_TruthBestCofVar t nVars p0 p1 = ((-1)%Z, p0, p1).
Proof. intros H. unfold Kit_TruthBestCofVar. by rewrite H. Qed.

(** The two cofactors are computed in tables of the right size. *)
Lemma BestCofVar_run p0 p1 :
  0 < nVars -> is_tt nVars p0 -> is_tt nVars p1 ->
  Kit_TruthIsConst0 t nVars || Kit_TruthIsConst1 t nVars = false ->
  exists i q0 q1, Kit_TruthBestCofVar t nVars p0 p1 = (Z.of_nat i, Kit_TruthCofactor0New q0 t nVars i, Kit_TruthCofactor1New q1 t nVars i) /\ i < nVars /\
    is_tt nVars q0 /\ is_tt nVars q1 /\ (forall j, j < i -> (best_val i < best_val j)%Z) /\ (forall j, j < nVars -> (best_val i <= best_val j)%Z).
Proof using Ht Hn.
  intros Hpos Hp0 Hp1 Hc. unfold Kit_TruthBestCofVar. rewrite Hc. set (body := fun i _ => _).
  set (P := fun k (s : Z * Z * list Z * list Z) => let '(var, best, q0, q1) := s in
    is_tt nVars q0 /\ is_tt nVars q1 /\
    first_min k best_val (fun _ => true) KIT_INFINITY best var).
  assert (P nVars (for_up nVars body ((-1)%Z, KIT_INFINITY, p0, p1))) as HP.
  { apply for_up_ind.
    - split; [done|]. split; [done|]. left. split; [done|lia].
    - intros i [[[var best] q0] q1] Hi (H0 & H1 & Hm). unfold body.
      rewrite size0_new, size1_new by done. fold (best_val i).
      destruct (Z.ltb_spec (best_val i) best) as [Hlt|Hge].
      + split; [auto with words|]. split; [auto with words|].
        by apply (first_min_take i best_val (fun _ => true) _ _ _ Hm).
      + split; [auto with words|]. split; [auto with words|].
        by apply (first_min_keep i best_val (fun _ => true) _ _ _ Hm). }
  destruct (for_up nVars body _) as [[[var best] q0] q1]. destruct HP as (H0 & H1 & Hm).
  assert (forall j, best_val j < KIT_INFINITY)%Z as Hval.
  { intros j. unfold best_val, KIT_INFINITY.
    pose proof (cnt_bound nVars (sup0 nVars t j)). pose proof (cnt_bound nVars (sup1 nVars t j)). lia. }
  destruct Hm as [[_ Hm]|(i & -> & -> & Hi & _ & _ & Hm1 & Hm2)].
  { specialize (Hm 0 Hpos eq_refl). specialize (Hval 0). lia. }
  rewrite Nat2Z.id. exists i, q0, q1. split; [done|]. split; [done|]. split; [done|]. split; [done|]. split; auto.
Qed.

Lemma BestCofVar_spec p0 p1 :
  0 < nVars -> is_tt nVars p0 -> is_tt nVars p1 ->
  Kit_TruthIsConst0 t nVars || Kit_TruthIsConst1 t nVars = false ->
  exists i c0 c1, Kit_TruthBestCofVar t nVars p0 p1 = (Z.of_nat i, c0, c1) /\ i < nVars /\
    (forall j, j < i -> (best_val i < best_val j)%Z) /\
    (forall j, j < nVars -> (best_val i <= best_val j)%Z) /\
    (forall m, m < nmint nVars -> tbit c0 m = tbit t (Nat.clearbit m i)) /\
    (forall m, m < nmint nVars -> tbit c1 m = tbit t (Nat.setbit m i)).
Proof using Ht Hn.
  intros Hpos Hp0 Hp1 Hc. destruct (BestCofVar_run p0 p1 Hpos Hp0 Hp1 Hc) as (i & q0 & q1 & -> & Hi & H0 & H1 & Hm1 & Hm2).
  exists i, (Kit_TruthCofactor0New q0 t nVars i), (Kit_TruthCofactor1New q1 t nVars i). split; [done|]. split; [done|]. split; [done|]. split; [done|].
  split; intros m Hm; [apply tbit_Cofactor0New|apply tbit_Cofactor1New]; done || apply H0 || apply H1.
Qed.
End best.

(** * Symmetries *)

(** Minterm [m] with variables [iVar0], [iVar1] set to [x], [y]. *)
Definition two (m u v : nat) (x y : bool) : nat :=
  (if y then Nat.setbit else Nat.clearbit) ((if x then Nat.setbit else Nat.clearbit) m u) v.

Lemma testbit_two m u v x y i :
  u <> v -> Nat.testbit (two m u v x y) i = if i =? v then y else if i =? u then x else Nat.testbit m i.
Proof.
  intros Hn. unfold two. destruct x, y; rewrite ?setbit_if, ?clearbit_if, ?setbit_if;
    rewrite !(Nat.eqb_sym i); by destruct (v =? i), (u =? i).
Qed.

Lemma two_lt nVars m u v x y : m < nmint nVars -> u < nVars -> v < nVars -> two m u v x y < nmint nVars.
Proof. intros. unfold two. destruct x, y; auto with words. Qed.

Lemma two_id m u v x y : u <> v -> Nat.testbit m u = x -> Nat.testbit m v = y -> two m u v x y = m.
Proof.
  intros Hn Hx Hy. apply Nat.bits_inj. intros i. rewrite testbit_two by done.
  destruct (Nat.eqb_spec i v) as [-> | ]; [done|]. by destruct (Nat.eqb_spec i u) as [-> | ].
Qed.

Lemma two_ext m m' u v x y :
  u <> v -> (forall i, i <> u -> i <> v -> Nat.testbit m i = Nat.testbit m' i) -> two m u v x y = two m' u v x y.
Proof.
  intros Hn H. apply Nat.bits_inj. intros i. rewrite !testbit_two by done.
  destruct (Nat.eqb_spec i v) as [-> | ]; [done|]. destruct (Nat.eqb_spec i u) as [-> | ]; [done|]. auto.
Qed.

Section symmetry.
Context (nVars u v : nat) (t c0 c1 : list Z).
Context (Ht : is_tt nVars t) (H0 : is_tt nVars c0) (H1 : is_tt nVars c1).
Context (Hu : u < nVars) (Hv : v < nVars) (Hn : u <> v).

Lemma clear_set_comm m : Nat.clearbit (Nat.setbit m v) u = two m u v false true.
Proof using Hn.
  apply Nat.bits_inj. intros i. rewrite testbit_two by done. rewrite clearbit_if, setbit_if.
  rewrite !(Nat.eqb_sym i). destruct (Nat.eqb_spec u i), (Nat.eqb_spec v i); first [done | congruence].
Qed.
Lemma set_clear_comm m : Nat.setbit (Nat.clearbit m v) u = two m u v true false.
Proof using Hn.
  apply Nat.bits_inj. intros i. rewrite testbit_two by done. rewrite setbit_if, clearbit_if.
  rewrite !(Nat.eqb_sym i). destruct (Nat.eqb_spec u i), (Nat.eqb_spec v i); first [done | congruence].
Qed.
Lemma clear_clear_comm m : Nat.clearbit (Nat.clearbit m v) u = two m u v false false.
Proof using Hn.
  apply Nat.bits_inj. intros i. rewrite testbit_two by done. rewrite !clearbit_if.
  rewrite !(Nat.eqb_sym i). destruct (Nat.eqb_spec u i), (Nat.eqb_spec v i); first [done | congruence].
Qed.
Lemma set_set_comm m : Nat.setbit (Nat.setbit m v) u = two m u v true true.
Proof using Hn.
  apply Nat.bits_inj. intros i. rewrite testbit_two by done. rewrite !setbit_if.
  rewrite !(Nat.eqb_sym i). destruct (Nat.eqb_spec u i), (Nat.eqb_spec v i); first [done | congruence].
Qed.

Lemma VarsSymm_cofs :
  (Kit_TruthVarsSymm c0 c1 t nVars u v None None).1.1 = true <->
  forall m, m < nmint nVars -> tbit t (two m u v false true) = tbit t (two m u v true false).
Proof using Ht H0 H1 Hu Hv Hn.
  cbn [Kit_TruthVarsSymm fst]. rewrite IsEqual_spec by auto 10 with words.
  apply forall_proper. intros m. apply forall_proper. intros Hm.
  rewrite <- clear_set_comm, <- set_clear_comm.
  rewrite tbit_Cofactor1, tbit_Cofactor0, tbit_Cofactor0, tbit_Cofactor1, !tbit_Copy by
    (autorewrite with kitlen; first [done | apply H0 | apply H1 | auto with words]).
  done.
Qed.

Lemma VarsAntiSymm_cofs :
  (Kit_TruthVarsAntiSymm c0 c1 t nVars u v None None).1.1 = true <->
  forall m, m < nmint nVars -> tbit t (two m u v false false) = tbit t (two m u v true true).
Proof using Ht H0 H1 Hu Hv Hn.
  cbn [Kit_TruthVarsAntiSymm fst]. rewrite IsEqual_spec by auto 10 with words.
  apply forall_proper. intros m. apply forall_proper. intros Hm.
  rewrite <- clear_clear_comm, <- set_set_comm.
  rewrite !tbit_Cofactor0, !tbit_Cofactor1, !tbit_Copy by
    (autorewrite with kitlen; first [done | apply H0 | apply H1 | auto with words]).
  done.
Qed.
End symmetry.

(** [m'] is [m] with the values of the two variables exchanged, and complemented when [c]. *)
Definition exchanged (u v : nat) (c : bool) (m m' : nat) : Prop :=
  (forall i, i <> u -> i <> v -> Nat.testbit m i = Nat.testbit m' i) /\
  Nat.testbit m' u = xorb c (Nat.testbit m v) /\ Nat.testbit m' v = xorb c (Nat.testbit m u).

Lemma exchanged_two nVars u v c t :
  u < nVars -> v < nVars -> u <> v ->
  (forall m, m < nmint nVars -> tbit t (two m u v false (negb c)) = tbit t (two m u v true c)) <->
  (forall m m', m < nmint nVars -> m' < nmint nVars -> exchanged u v c m m' -> tbit t m = tbit t m').
Proof.
  intros Hu Hv Hn. split.
  - intros H m m' Hm Hm' (He & E1 & E2). specialize (H m Hm) as Hs.
    destruct (Nat.testbit m u) eqn:Eu, (Nat.testbit m v) eqn:Ev, c; cbn in E1, E2; cbn [negb] in Hs;
      first
      [ rewrite (two_ext m m') in Hs at 1 by done; rewrite !two_id in Hs by done; done
      | rewrite (two_ext m m' _ _ true) in Hs by done; rewrite !two_id in Hs by done; done
      | f_equal; apply Nat.bits_inj; intros i;
        destruct (decide (i = u)) as [-> | ]; [congruence|];
        destruct (decide (i = v)) as [-> | ]; [congruence|]; auto ].
  - intros H m Hm. apply H; [by apply two_lt..|]. split; [|split].
    + intros i Hi1 Hi2. rewrite !testbit_two by done. by destruct (Nat.eqb_spec i v), (Nat.eqb_spec i u).
    + rewrite !testbit_two, !Nat.eqb_refl by done. destruct (Nat.eqb_spec u v); [done|]. by destruct c.
    + rewrite !testbit_two, !Nat.eqb_refl by done. destruct (Nat.eqb_spec u v); [done|]. by destruct c.
Qed.

(** * Properties *)

(** A variable is reported in the support exactly when some minterm distinguishes its two
    values; the support size and the support mask count and collect those variables. *)
Theorem support_correct nVars (t : list Z) :
  nVars <= 31 -> is_tt nVars t ->
  (forall v, v < nVars -> Kit_TruthVarInSupport t nVars v = true <->
     exists m, m < nmint nVars /\ tbit t (Nat.clearbit m v) <> tbit t (Nat.setbit m v)) /\
  (forall v, Z.testbit (Kit_TruthSupport t nVars) (Z.of_nat v) =
     (v <? nVars) && Kit_TruthVarInSupport t nVars v) /\
  Kit_TruthSupportSize t nVars = cnt nVars (Kit_TruthVarInSupport t nVars) /\
  Kit_WordCountOnes (Kit_TruthSupport t nVars) = Kit_TruthSupportSize t nVars.
Proof.
  intros Hn Ht. split; [|split; [|split]].
  - intros v Hv. by apply VarInSupport_spec, Ht.
  - intros v. by apply Support_spec.
  - apply SupportSize_spec.
  - by apply CountOnes_Support.
Qed.

Lemma support_correct_witness :
  Kit_TruthSupport [0xF0F0F0F0; 0xAAAAAAAA]%Z 6 = 0x25%Z /\
  Kit_WordCountOnes (Kit_TruthSupport [0xF0F0F0F0; 0xAAAAAAAA]%Z 6) = Kit_TruthSupportSize [0xF0F0F0F0; 0xAAAAAAAA]%Z 6.
Proof.
  split; [reflexivity|]. apply (support_correct 6 [0xF0F0F0F0; 0xAAAAAAAA]%Z); [lia | concrete_tt].
Defined.

(** A variable is vacuous for an on-set and an off-set exactly when no two minterms
    that differ in it only are one in the on-set and the other in the off-set; then
    quantifying it from a disjoint on-set still avoids the off-set. *)
Theorem vacuous_correct nVars v (on off : list Z) :
  v < nVars -> is_tt nVars on -> is_tt nVars off ->
  (Kit_TruthVarIsVacuous on off nVars v = true <->
   forall m, m < nmint nVars ->
     tbit on (Nat.clearbit m v) && tbit off (Nat.setbit m v) = false /\
     tbit off (Nat.clearbit m v) && tbit on (Nat.setbit m v) = false) /\
  (Kit_TruthVarIsVacuous on off nVars v = true ->
   (forall m, m < nmint nVars -> tbit on m && tbit off m = false) ->
   forall m, m < nmint nVars -> tbit (Kit_TruthExist on nVars v) m && tbit off m = false).
Proof.
  intros Hv Hon Hoff.
  pose proof (VarIsVacuous_loop nVars on off v Hv (tt_words _ _ Hon) (tt_words _ _ Hoff)) as HL.
  assert (Kit_TruthVarIsVacuous on off nVars v = true <->
   forall m, m < nmint nVars ->
     tbit on (Nat.clearbit m v) && tbit off (Nat.setbit m v) = false /\
     tbit off (Nat.clearbit m v) && tbit on (Nat.setbit m v) = false) as H.
  { rewrite negb_true_iff in HL. split.
    - intros Ht m Hm. apply orb_false_iff, not_true_iff_false. intros Hd.
      assert (Kit_TruthVarIsVacuous on off nVars v = false) as Hf by (apply HL; by exists m). congruence.
    - intros Ha. apply not_false_iff_true. rewrite HL. intros (m & Hm & Hd).
      specialize (Ha m Hm). unfold depends in Hd. apply orb_true_iff in Hd. intuition congruence. }
  split; [done|]. intros Hvac Hdis m Hm. rewrite H in Hvac.
  rewrite tbit_Exist by (done || apply Hon). destruct (Hvac m Hm) as [H1 H2].
  pose proof (Hdis m Hm) as H3.
  destruct (Nat.testbit m v) eqn:E.
  - rewrite setbit_id in * by done. by destruct (tbit on (Nat.clearbit m v)), (tbit on m), (tbit off m).
  - rewrite clearbit_id in * by done. by destruct (tbit on (Nat.setbit m v)), (tbit on m), (tbit off m).
Qed.

Lemma vacuous_correct_witness :
  Kit_TruthVarIsVacuous [0x80808080]%Z [0x11111111]%Z 3 2 = true /\
  (forall m, m < nmint 3 ->
     tbit [0x80808080]%Z (Nat.clearbit m 2) && tbit [0x11111111]%Z (Nat.setbit m 2) = false /\
     tbit [0x11111111]%Z (Nat.clearbit m 2) && tbit [0x80808080]%Z (Nat.setbit m 2) = false).
Proof.
  split; [reflexivity|].
  apply (vacuous_correct 3 2 [0x80808080]%Z [0x11111111]%Z); [lia | concrete_tt | concrete_tt | reflexivity].
Defined.

(** The array a symmetry check works in. *)
Definition work_array (uTemp : list Z) (pCof : option (list Z)) : list Z :=
  match pCof with None => uTemp | Some p => p end.

(** Two variables are symmetric exactly when exchanging their values never changes the
    function, and antisymmetric exactly when exchanging and complementing them does
    not; given arrays and static arrays serve alike. *)
Theorem symmetry_correct nVars u v (uTemp0 uTemp1 t : list Z) pCof0 pCof1 :
  is_tt nVars t -> is_tt nVars (work_array uTemp0 pCof0) -> is_tt nVars (work_array uTemp1 pCof1) ->
  u < nVars -> v < nVars -> u <> v ->
  ((Kit_TruthVarsSymm uTemp0 uTemp1 t nVars u v pCof0 pCof1).1.1 = true <->
   forall m m', m < nmint nVars -> m' < nmint nVars -> exchanged u v false m m' -> tbit t m = tbit t m') /\
  ((Kit_TruthVarsAntiSymm uTemp0 uTemp1 t nVars u v pCof0 pCof1).1.1 = true <->
   forall m m', m < nmint nVars -> m' < nmint nVars -> exchanged u v true m m' -> tbit t m = tbit t m').
Proof.
  intros Ht H0 H1 Hu Hv Hn. rewrite <- !exchanged_two by done. split.
  - by apply (VarsSymm_cofs nVars u v t _ _ Ht H0 H1).
  - by apply (VarsAntiSymm_cofs nVars u v t _ _ Ht H0 H1).
Qed.

Lemma symmetry_correct_witness :
  (Kit_TruthVarsSymm [0]%Z [0]%Z [0xE8E8E8E8]%Z 3 0 2 None None).1.1 = true /\
  (forall m m', m < nmint 3 -> m' < nmint 3 -> exchanged 0 2 false m m' ->
     tbit [0xE8E8E8E8]%Z m = tbit [0xE8E8E8E8]%Z m').
Proof.
  split; [reflexivity|].
  apply (symmetry_correct 3 0 2 [0]%Z [0]%Z [0xE8E8E8E8]%Z None None);
    first [concrete_tt | lia | reflexivity].
Defined.

(** [Kit_TruthMinCofSuppOverlap] returns the least overlap of the supports of the two
    cofactors among the variables whose cofactors have at most five variables, and
    the first variable that attains it; 32 and -1 when there is none. *)
Theorem min_cof_overlap_correct nVars (t uCofactor : list Z) :
  nVars <= 9 -> is_tt nVars t -> is_tt nVars uCofactor ->
  let s0 := fun i v => Kit_TruthVarInSupport (Kit_TruthCofactor0 t nVars i) nVars v in
  let s1 := fun i v => Kit_TruthVarInSupport (Kit_TruthCofactor1 t nVars i) nVars v in
  let r := Kit_TruthMinCofSuppOverlap uCofactor t nVars in
  first_min nVars (fun i => cnt nVars (fun v => s0 i v && s1 i v))
    (fun i => (cnt nVars (s0 i) <=? 5)%Z && (cnt nVars (s1 i) <=? 5)%Z) 32 r.1 r.2.
Proof. intros Hn Ht Hc. apply MinCofSuppOverlap_spec; [done|lia|done]. Qed.

Lemma min_cof_overlap_correct_witness :
  let t := [0xE8E8E8E8]%Z in
  let s0 := fun i v => Kit_TruthVarInSupport (Kit_TruthCofactor0 t 3 i) 3 v in
  let s1 := fun i v => Kit_TruthVarInSupport (Kit_TruthCofactor1 t 3 i) 3 v in
  let r := Kit_TruthMinCofSuppOverlap [0]%Z t 3 in
  r = (2%Z, 0%Z) /\
  first_min 3 (fun i => cnt 3 (fun v => s0 i v && s1 i v))
    (fun i => (cnt 3 (s0 i) <=? 5)%Z && (cnt 3 (s1 i) <=? 5)%Z) 32 r.1 r.2.
Proof.
  split; [reflexivity|]. apply (min_cof_overlap_correct 3 [0xE8E8E8E8]%Z [0]%Z); first [lia | concrete_tt].
Defined.

(** [Kit_TruthBestCofVar] returns -1 for a constant; otherwise the first variable that
    minimises the sum of the support sizes of the cofactors, with its two cofactors in
    the arrays. *)
Theorem best_cof_var_correct nVars (t p0 p1 : list Z) :
  0 < nVars -> nVars <= 31 -> is_tt nVars t -> is_tt nVars p0 -> is_tt nVars p1 ->
  let val := fun i =>
    (cnt nVars (Kit_TruthVarInSupport (Kit_TruthCofactor0 t nVars i) nVars) +
     cnt nVars (Kit_TruthVarInSupport (Kit_TruthCofactor1 t nVars i) nVars))%Z in
  if Kit_TruthIsConst0 t nVars || Kit_TruthIsConst1 t nVars
  then Kit_TruthBestCofVar t nVars p0 p1 = ((-1)%Z, p0, p1)
  else exists i c0 c1, Kit_TruthBestCofVar t nVars p0 p1 = (Z.of_nat i, c0, c1) /\ i < nVars /\
    (forall j, j < i -> (val i < val j)%Z) /\
    (forall j, j < nVars -> (val i <= val j)%Z) /\
    (forall m, m < nmint nVars -> tbit c0 m = tbit t (Nat.clearbit m i)) /\
    (forall m, m < nmint nVars -> tbit c1 m = tbit t (Nat.setbit m i)).
Proof.
  intros Hp Hn Ht H0 H1 val. destruct (_ || _) eqn:E.
  - by apply BestCofVar_const.
  - by apply (BestCofVar_spec nVars t Ht Hn).
Qed.

Lemma best_cof_var_correct_witness :
  let t := [0xCAC0CAC0]%Z in
  let val := fun i =>
    (cnt 4 (Kit_TruthVarInSupport (Kit_TruthCofactor0 t 4 i) 4) +
     cnt 4 (Kit_TruthVarInSupport (Kit_TruthCofactor1 t 4 i) 4))%Z in
  exists i c0 c1, Kit_TruthBestCofVar t 4 [0]%Z [0]%Z = (Z.of_nat i, c0, c1) /\ i < 4 /\
    (forall j, j < i -> (val i < val j)%Z) /\
    (forall j, j < 4 -> (val i <= val j)%Z) /\
    (forall m, m < nmint 4 -> tbit c0 m = tbit t (Nat.clearbit m i)) /\
    (forall m, m < nmint 4 -> tbit c1 m = tbit t (Nat.setbit m i)).
Proof. apply (best_cof_var_correct 4 [0xCAC0CAC0]%Z [0]%Z [0]%Z); first [lia | concrete_tt]. Defined.
