(* ===== verification/TruthCount.v ===== *)
(** Counting minterms: of cofactors, of Boolean differences, of the two cofactors of
    every variable at once ([kitTruth.c]).

    [pTruth += 2] in the loops over pairs of words is written as the offset [2 * k]. *)
From S2P Require Import Prelude Words Minterm TruthBasic TruthCof TruthSupp.

(** * The routines *)

Definition Kit_TruthCofactor0Count (pTruth : list Z) (nVars iVar : nat) : Z :=
  let nWords := Kit_TruthWordNum nVars in
  match iVar with
  | 0 => for_up nWords (fun i Counter => (Counter + Kit_WordCountOnes (pTruth.[i] &&& 0x55555555))%Z) 0%Z
  | 1 => for_up nWords (fun i Counter => (Counter + Kit_WordCountOnes (pTruth.[i] &&& 0x33333333))%Z) 0%Z
  | 2 => for_up nWords (fun i Counter => (Counter + Kit_WordCountOnes (pTruth.[i] &&& 0x0F0F0F0F))%Z) 0%Z
  | 3 => for_up nWords (fun i Counter => (Counter + Kit_WordCountOnes (pTruth.[i] &&& 0x00FF00FF))%Z) 0%Z
  | 4 => for_up nWords (fun i Counter => (Counter + Kit_WordCountOnes (pTruth.[i] &&& 0x0000FFFF))%Z) 0%Z
  | _ =>
    let Step := 2 ^ (iVar - 5) in
    for_step nWords (2 * Step) (fun k Counter => for_up Step (fun i Counter =>
      (Counter + Kit_WordCountOnes (pTruth.[k + i]))%Z) Counter) 0%Z
  end.

Definition Kit_TruthBooleanDiffCount (pTruth : list Z) (nVars iVar : nat) : Z :=
  let nWords := Kit_TruthWordNum nVars in
  match iVar with
  | 0 => for_up nWords (fun i Counter => (Counter + Kit_WordCountOnes ((pTruth.[i] ^^^ (pTruth.[i] >>> 1)) &&& 0x55555555))%Z) 0%Z
  | 1 => for_up nWords (fun i Counter => (Counter + Kit_WordCountOnes ((pTruth.[i] ^^^ (pTruth.[i] >>> 2)) &&& 0x33333333))%Z) 0%Z
  | 2 => for_up nWords (fun i Counter => (Counter + Kit_WordCountOnes ((pTruth.[i] ^^^ (pTruth.[i] >>> 4)) &&& 0x0F0F0F0F))%Z) 0%Z
  | 3 => for_up nWords (fun i Counter => (Counter + Kit_WordCountOnes ((pTruth.[i] ^^^ (pTruth.[i] >>> 8)) &&& 0x00FF00FF))%Z) 0%Z
  | 4 => for_up nWords (fun i Counter => (Counter + Kit_WordCountOnes ((pTruth.[i] ^^^ (pTruth.[i] >>> 16)) &&& 0x0000FFFF))%Z) 0%Z
  | _ =>
    let Step := 2 ^ (iVar - 5) in
    for_step nWords (2 * Step) (fun k Counter => for_up Step (fun i Counter =>
      (Counter + Kit_WordCountOnes (pTruth.[k + i] ^^^ pTruth.[k + Step + i]))%Z) Counter) 0%Z
  end.

Definition Kit_TruthXorCount (pTruth0 pTruth1 : list Z) (nVars : nat) : Z :=
  let nWords := Kit_TruthWordNum nVars in
  for_up nWords (fun i Counter => (Counter + Kit_WordCountOnes (pTruth0.[i] ^^^ pTruth1.[i]))%Z) 0%Z.

Definition Kit_TruthCountOnesInCofs (pTruth : list Z) (nVars : nat) (pStore : list Z) : list Z :=
  let nWords := Kit_TruthWordNum nVars in
  let pStore := for_up (2 * nVars) (fun i p => p.[i <- 0]) pStore in
  if nVars <=? 5 then
    let pStore := if 0 <? nVars then
      let pStore := pStore.[2 * 0 + 0 <- Kit_WordCountOnes (pTruth.[0] &&& 0x55555555)] in
      pStore.[2 * 0 + 1 <- Kit_WordCountOnes (pTruth.[0] &&& 0xAAAAAAAA)] else pStore in
    let pStore := if 1 <? nVars then
      let pStore := pStore.[2 * 1 + 0 <- Kit_WordCountOnes (pTruth.[0] &&& 0x33333333)] in
      pStore.[2 * 1 + 1 <- Kit_WordCountOnes (pTruth.[0] &&& 0xCCCCCCCC)] else pStore in
    let pStore := if 2 <? nVars then
      let pStore := pStore.[2 * 2 + 0 <- Kit_WordCountOnes (pTruth.[0] &&& 0x0F0F0F0F)] in
      pStore.[2 * 2 + 1 <- Kit_WordCountOnes (pTruth.[0] &&& 0xF0F0F0F0)] else pStore in
    let pStore := if 3 <? nVars then
      let pStore := pStore.[2 * 3 + 0 <- Kit_WordCountOnes (pTruth.[0] &&& 0x00FF00FF)] in
      pStore.[2 * 3 + 1 <- Kit_WordCountOnes (pTruth.[0] &&& 0xFF00FF00)] else pStore in
    let pStore := if 4 <? nVars then
      let pStore := pStore.[2 * 4 + 0 <- Kit_WordCountOnes (pTruth.[0] &&& 0x0000FFFF)] in
      pStore.[2 * 4 + 1 <- Kit_WordCountOnes (pTruth.[0] &&& 0xFFFF0000)] else pStore in
    pStore
  else
    let pStore := for_up nWords (fun k pStore =>
      let Counter := Kit_WordCountOnes pTruth.[k] in
      for_range 5 nVars (fun i pStore =>
        if negb (Nat.land k (2 ^ (i - 5)) =? 0) then inc pStore (2 * i + 1) Counter
        else inc pStore (2 * i + 0) Counter) pStore) pStore in
    for_up (nWords / 2) (fun k pStore =>
      let pStore := inc pStore (2 * 0 + 0) (Kit_WordCountOnes ((pTruth.[2 * k] &&& 0x55555555) ||| ((pTruth.[2 * k + 1] &&& 0x55555555) <<< 1))) in
      let pStore := inc pStore (2 * 0 + 1) (Kit_WordCountOnes ((pTruth.[2 * k] &&& 0xAAAAAAAA) ||| ((pTruth.[2 * k + 1] &&& 0xAAAAAAAA) >>> 1))) in
      let pStore := inc pStore (2 * 1 + 0) (Kit_WordCountOnes ((pTruth.[2 * k] &&& 0x33333333) ||| ((pTruth.[2 * k + 1] &&& 0x33333333) <<< 2))) in
      let pStore := inc pStore (2 * 1 + 1) (Kit_WordCountOnes ((pTruth.[2 * k] &&& 0xCCCCCCCC) ||| ((pTruth.[2 * k + 1] &&& 0xCCCCCCCC) >>> 2))) in
      let pStore := inc pStore (2 * 2 + 0) (Kit_WordCountOnes ((pTruth.[2 * k] &&& 0x0F0F0F0F) ||| ((pTruth.[2 * k + 1] &&& 0x0F0F0F0F) <<< 4))) in
      let pStore := inc pStore (2 * 2 + 1) (Kit_WordCountOnes ((pTruth.[2 * k] &&& 0xF0F0F0F0) ||| ((pTruth.[2 * k + 1] &&& 0xF0F0F0F0) >>> 4))) in
      let pStore := inc pStore (2 * 3 + 0) (Kit_WordCountOnes ((pTruth.[2 * k] &&& 0x00FF00FF) ||| ((pTruth.[2 * k + 1] &&& 0x00FF00FF) <<< 8))) in
      let pStore := inc pStore (2 * 3 + 1) (Kit_WordCountOnes ((pTruth.[2 * k] &&& 0xFF00FF00) ||| ((pTruth.[2 * k + 1] &&& 0xFF00FF00) >>> 8))) in
      let pStore := inc pStore (2 * 4 + 0) (Kit_WordCountOnes ((pTruth.[2 * k] &&& 0x0000FFFF) ||| ((pTruth.[2 * k + 1] &&& 0x0000FFFF) <<< 16))) in
      let pStore := inc pStore (2 * 4 + 1) (Kit_WordCountOnes ((pTruth.[2 * k] &&& 0xFFFF0000) ||| ((pTruth.[2 * k + 1] &&& 0xFFFF0000) >>> 16))) in
      pStore) pStore.

Definition Kit_TruthCountOnesInCofs0 (pTruth : list Z) (nVars : nat) (pStore : list Z) : list Z :=
  let nWords := Kit_TruthWordNum nVars in
  let pStore := for_up (nVars) (fun i p => p.[i <- 0]) pStore in
  if nVars <=? 5 then
    let pStore := if 0 <? nVars then pStore.[0 <- Kit_WordCountOnes (pTruth.[0] &&& 0x55555555)] else pStore in
    let pStore := if 1 <? nVars then pStore.[1 <- Kit_WordCountOnes (pTruth.[0] &&& 0x33333333)] else pStore in
    let pStore := if 2 <? nVars then pStore.[2 <- Kit_WordCountOnes (pTruth.[0] &&& 0x0F0F0F0F)] else pStore in
    let pStore := if 3 <? nVars then pStore.[3 <- Kit_WordCountOnes (pTruth.[0] &&& 0x00FF00FF)] else pStore in
    let pStore := if 4 <? nVars then pStore.[4 <- Kit_WordCountOnes (pTruth.[0] &&& 0x0000FFFF)] else pStore in
    pStore
  else
    let pStore := for_up nWords (fun k pStore =>
      let Counter := Kit_WordCountOnes pTruth.[k] in
      for_range 5 nVars (fun i pStore =>
        if Nat.land k (2 ^ (i - 5)) =? 0 then inc pStore i Counter else pStore) pStore) pStore in
    for_up (nWords / 2) (fun k pStore =>
      let pStore := inc pStore 0 (Kit_WordCountOnes ((pTruth.[2 * k] &&& 0x55555555) ||| ((pTruth.[2 * k + 1] &&& 0x55555555) <<< 1))) in
      let pStore := inc pStore 1 (Kit_WordCountOnes ((pTruth.[2 * k] &&& 0x33333333) ||| ((pTruth.[2 * k + 1] &&& 0x33333333) <<< 2))) in
      let pStore := inc pStore 2 (Kit_WordCountOnes ((pTruth.[2 * k] &&& 0x0F0F0F0F) ||| ((pTruth.[2 * k + 1] &&& 0x0F0F0F0F) <<< 4))) in
      let pStore := inc pStore 3 (Kit_WordCountOnes ((pTruth.[2 * k] &&& 0x00FF00FF) ||| ((pTruth.[2 * k + 1] &&& 0x00FF00FF) <<< 8))) in
      let pStore := inc pStore 4 (Kit_WordCountOnes ((pTruth.[2 * k] &&& 0x0000FFFF) ||| ((pTruth.[2 * k + 1] &&& 0x0000FFFF) <<< 16))) in
      pStore) pStore.

Definition Kit_TruthCountOnesInCofsSlow (pTruth : list Z) (nVars : nat) (pStore pAux : list Z) : list Z * list Z :=
  for_up nVars (fun i '(pStore, pAux) =>
    let pAux := Kit_TruthCofactor0New pAux pTruth nVars i in
    let pStore := pStore.[2 * i + 0 <- Kit_TruthCountOnes pAux nVars / 2] in
    let pAux := Kit_TruthCofactor1New pAux pTruth nVars i in
    let pStore := pStore.[2 * i + 1 <- Kit_TruthCountOnes pAux nVars / 2] in
    (pStore, pAux)) (pStore, pAux).

(** * Counting over the two values of a variable *)

(** Minterms below [Q * (2 * 2 ^ v)] come in pairs that differ in variable [v]. *)
Lemma cnt_halves v Q f :
  cnt (Q * (2 * 2 ^ v)) f =
  (sumf Q (fun q => cnt (2 ^ v) (fun r => f (q * (2 * 2 ^ v) + r)%nat))
   + sumf Q (fun q => cnt (2 ^ v) (fun r => f (q * (2 * 2 ^ v) + 2 ^ v + r)%nat)))%Z.
Proof.
  rewrite cnt_mul, <- sumf_plus. apply sumf_ext. intros q _.
  replace (2 * 2 ^ v) with (2 ^ v + 2 ^ v) by lia. rewrite cnt_add. f_equal.
  apply cnt_ext. intros. f_equal. lia.
Qed.

Lemma pair_facts v q r : r < 2 ^ v ->
  let m0 := q * (2 * 2 ^ v) + r in let m1 := q * (2 * 2 ^ v) + 2 ^ v + r in
  Nat.testbit m0 v = false /\ Nat.testbit m1 v = true /\ Nat.setbit m0 v = m1 /\ Nat.clearbit m1 v = m0.
Proof.
  intros Hr m0 m1. destruct (block_div v q r Hr) as [D0 D1]. destruct (block_mod v q r Hr) as [M0 M1].
  fold m0 in D0, M0. fold m1 in D1, M1.
  assert (Nat.clearbit m0 v = m0) as H0 by (rewrite clearbit_block, D0, M0; done).
  assert (Nat.setbit m1 v = m1) as H1 by (rewrite setbit_block, D1, M1; done).
  split; [by rewrite <- H0, clearbit_if, Nat.eqb_refl|]. split; [by rewrite <- H1, setbit_if, Nat.eqb_refl|].
  split; [rewrite setbit_block, D0, M0; done|rewrite clearbit_block, D1, M1; done].
Qed.

(** Moving a count from one half to the other. *)
Lemma cnt_flip v Q c g :
  cnt (Q * (2 * 2 ^ v)) (fun m => negb (eqb (Nat.testbit m v) c) && g (if c then Nat.setbit m v else Nat.clearbit m v))
  = cnt (Q * (2 * 2 ^ v)) (fun m => eqb (Nat.testbit m v) c && g m).
Proof.
  rewrite !cnt_halves.
  destruct c; cbn [negb];
    [rewrite (Z.add_comm (sumf _ _))|rewrite (Z.add_comm (sumf _ _))]; f_equal;
    apply sumf_ext; intros q _; apply cnt_ext; intros r Hr;
    destruct (pair_facts v q r Hr) as (F0 & F1 & F2 & F3); rewrite ?F0, ?F1, ?F2, ?F3; done.
Qed.

(** The count of a function that repeats on the two halves. *)
Lemma cnt_same_halves v Q c g :
  cnt (Q * (2 * 2 ^ v)) (fun m => g (if c : bool then Nat.setbit m v else Nat.clearbit m v))
  = (2 * cnt (Q * (2 * 2 ^ v)) (fun m => eqb (Nat.testbit m v) c && g m))%Z.
Proof.
  rewrite (cnt_split _ _ (fun m => eqb (Nat.testbit m v) c)).
  rewrite <- Z.add_diag. f_equal; [|rewrite <- cnt_flip]; apply cnt_ext; intros m _; [|apply andb_comm].
  destruct (Nat.testbit m v) eqn:E, c; cbn [eqb];
    rewrite ?andb_true_r, ?andb_false_r, ?setbit_id, ?clearbit_id by done; done.
Qed.

Lemma nmint_halves nVars v : v < Nat.max 5 nVars -> exists Q, nmint nVars = Q * (2 * 2 ^ v).
Proof.
  intros H. exists (2 ^ (Nat.max 5 nVars - S v)). unfold nmint. change (2 * 2 ^ v) with (2 ^ S v).
  rewrite <- Nat.pow_add_r. f_equal. lia.
Qed.

(** Minterms of the function with variable [v] equal to [c]. *)
Definition cof_count (nVars : nat) (t : list Z) (v : nat) (c : bool) : Z :=
  cnt (nmint nVars) (fun m => eqb (Nat.testbit m v) c && tbit t m).

(** Summing over words. *)
Lemma cnt_by_words nVars f :
  cnt (nmint nVars) f = sumf (Kit_TruthWordNum nVars) (fun w => cnt 32 (fun b => f (w * 32 + b))).
Proof. rewrite nmint_words, Nat.mul_comm. apply cnt_mul. Qed.

Lemma testbit_at_lo w b v : v < 5 -> b < 32 -> Nat.testbit (w * 32 + b) v = Nat.testbit b v.
Proof.
  intros Hv Hb. rewrite testbit_lo by done.
  by rewrite (Nat.add_comm (w * 32)), Nat.Div0.mod_add, Nat.mod_small.
Qed.
Lemma testbit_at_hi w b v : 5 <= v -> b < 32 -> Nat.testbit (w * 32 + b) v = Nat.testbit w (v - 5).
Proof.
  intros Hv Hb. rewrite testbit_hi by done. by rewrite Nat.div_add_l, Nat.div_small, Nat.add_0_r by lia.
Qed.

Lemma CountOnes_bits x f :
  is_word x -> (forall b, b < 32 -> Z.testbit x (Z.of_nat b) = f b) -> Kit_WordCountOnes x = cnt 32 f.
Proof. intros Hx H. rewrite WordCountOnes_spec by done. by apply cnt_ext. Qed.

(** Sums over pairs of words visited in blocks. *)
Lemma sum_pairs nVars v (g : nat -> nat -> Z) :
  5 + v < nVars ->
  for_step (Kit_TruthWordNum nVars) (2 * 2 ^ v)
    (fun k c => for_up (2 ^ v) (fun i c => (c + g (k + i)%nat (k + 2 ^ v + i)%nat)%Z) c) 0%Z
  = sumf (Kit_TruthWordNum nVars) (fun w => if Nat.testbit w v then 0%Z else g w (Nat.setbit w v)).
Proof.
  intros Hv. pose proof (pair_loop_count (Kit_TruthWordNum nVars) v (blocks_hi nVars v Hv)) as Hn.
  unfold for_step. set (q := (Kit_TruthWordNum nVars + 2 * 2 ^ v - 1) / (2 * 2 ^ v)) in *.
  rewrite <- Hn. clearbody q. clear Hn Hv.
  rewrite (for_up_ext _ _ (fun b c => (c + sumf (2 ^ v) (fun i => g (b * (2 * 2 ^ v) + i)%nat (b * (2 * 2 ^ v) + 2 ^ v + i)%nat))%Z))
    by (intros; apply for_up_sumf).
  rewrite for_up_sumf, Z.add_0_l, sumf_mul. apply sumf_ext. intros b _.
  assert (forall h, sumf (2 * 2 ^ v) h = sumf (2 ^ v) h + sumf (2 ^ v) (fun i => h (2 ^ v + i)%nat))%Z as ->
    by (intros; replace (2 * 2 ^ v) with (2 ^ v + 2 ^ v) by lia; apply sumf_app).
  rewrite (sumf_zero (2 ^ v) (fun i => if Nat.testbit (b * _ + (2 ^ v + i)) v then _ else _)).
  - rewrite Z.add_0_r. apply sumf_ext. intros r Hr.
    destruct (pair_facts v b r Hr) as (F0 & F1 & F2 & F3). by rewrite F0, F2.
  - intros r Hr. destruct (pair_facts v b r Hr) as (F0 & F1 & F2 & F3).
    by rewrite Nat.add_assoc, F1.
Qed.

(** * The counters of one variable *)

(** A loop that adds the population counts of words that hold the bits of [f]. *)
Lemma count_lo nVars (h : nat -> Z) f :
  (forall w, is_word (h w)) ->
  (forall w b, b < 32 -> Z.testbit (h w) (Z.of_nat b) = f (w * 32 + b)) ->
  for_up (Kit_TruthWordNum nVars) (fun i c => (c + Kit_WordCountOnes (h i))%Z) 0%Z = cnt (nmint nVars) f.
Proof.
  intros Hw Hb. rewrite for_up_sumf, Z.add_0_l, cnt_by_words. apply sumf_ext. intros w _.
  apply CountOnes_bits; auto.
Qed.

Lemma count_hi nVars v (h : nat -> nat -> Z) f :
  5 + v < nVars ->
  (forall w w', is_word (h w w')) ->
  (forall w b, b < 32 -> Nat.testbit w v = false ->
     Z.testbit (h w (Nat.setbit w v)) (Z.of_nat b) = f (w * 32 + b)) ->
  for_step (Kit_TruthWordNum nVars) (2 * 2 ^ v)
    (fun k c => for_up (2 ^ v) (fun i c => (c + Kit_WordCountOnes (h (k + i)%nat (k + 2 ^ v + i)%nat))%Z) c) 0%Z
  = cnt (nmint nVars) (fun m => negb (Nat.testbit m (5 + v)) && f m).
Proof.
  intros Hv Hw Hb. rewrite (sum_pairs nVars v (fun w w' => Kit_WordCountOnes (h w w'))) by done.
  rewrite cnt_by_words. apply sumf_ext. intros w _.
  assert (forall b, b < 32 -> Nat.testbit (w * 32 + b) (5 + v) = Nat.testbit w v) as E
    by (intros b Hlt; rewrite testbit_at_hi by lia; f_equal; lia).
  destruct (Nat.testbit w v) eqn:Ew.
  - rewrite cnt_false; [done|]. intros b Hlt. by rewrite E.
  - rewrite (CountOnes_bits _ (fun b => f (w * 32 + b))) by auto.
    apply cnt_ext. intros b Hlt. by rewrite E.
Qed.

Lemma Cofactor0Count_spec nVars t v :
  v < nVars -> Forall is_word t ->
  Kit_TruthCofactor0Count t nVars v = cof_count nVars t v false.
Proof.
  intros Hv Ht. unfold cof_count. switch Kit_TruthCofactor0Count v.
  1-5: apply count_lo; [intros; auto with words|]; intros w b Hb;
    rewrite testbit_at_lo, tbit_at by lia; generalize (t.[w]); intros x; word_bits b.
  rewrite (count_hi nVars v (fun w _ => t.[w]) (tbit t)).
  - apply cnt_ext. intros m _. change (S (S (S (S (S v))))) with (5 + v). by destruct (Nat.testbit m (5 + v)).
  - lia.
  - intros; auto with words.
  - intros w b Hb _. by rewrite tbit_at.
Qed.

Lemma BooleanDiffCount_spec nVars t v :
  v < nVars -> Forall is_word t ->
  Kit_TruthBooleanDiffCount t nVars v =
  cnt (nmint nVars) (fun m => negb (Nat.testbit m v) && xorb (tbit t (Nat.clearbit m v)) (tbit t (Nat.setbit m v))).
Proof.
  intros Hv Ht. switch Kit_TruthBooleanDiffCount v.
  1-5: apply count_lo; [intros; apply word_land; auto with words; apply word_lxor; auto with words; by apply word_wshr, word_rd|];
    intros w b Hb; rewrite testbit_at_lo, clr_at_lo, set_at_lo, !tbit_at by
      (lia || (apply clear_lt32; lia) || (apply set_lt32; lia));
    generalize (t.[w]); intros x; word_bits b.
  change (S (S (S (S (S v))))) with (5 + v).
  rewrite (count_hi nVars v (fun w w' => t.[w] ^^^ t.[w']) 
    (fun m => xorb (tbit t (Nat.clearbit m (5 + v))) (tbit t (Nat.setbit m (5 + v))))); [done|lia| |].
  - intros; auto with words.
  - intros w b Hb Hw. rewrite clr_at_hi, set_at_hi, (clearbit_id w), !tbit_at, Z.lxor_spec by done. done.
Qed.

Lemma XorCount_spec nVars t u :
  Forall is_word t -> Forall is_word u ->
  Kit_TruthXorCount t u nVars = cnt (nmint nVars) (fun m => xorb (tbit t m) (tbit u m)).
Proof.
  intros Ht Hu. apply (count_lo nVars (fun i => t.[i] ^^^ u.[i])); [intros; auto with words|].
  intros w b Hb. by rewrite Z.lxor_spec, !tbit_at.
Qed.

(** * All variables at once *)

(** Loops whose iterations add to the elements [ix x] of an array. *)
Lemma additive_loop {J} (ix : J -> nat) (valid : J -> Prop) L n (body : nat -> list Z -> list Z) (g : nat -> J -> Z) p :
  (forall k p, k < n -> length p = L -> length (body k p) = L /\
     forall x, valid x -> (body k p).[ix x] = (p.[ix x] + g k x)%Z) ->
  length p = L ->
  length (for_up n body p) = L /\
  forall x, valid x -> (for_up n body p).[ix x] = (p.[ix x] + sumf n (fun k => g k x))%Z.
Proof.
  intros Hb Hp. induction n as [|n IH]; [split; [done|]; intros; rewrite for_up_0; cbn [sumf]; lia|].
  destruct IH as [IHl IHr]; [auto|]. rewrite for_up_S.
  destruct (Hb n (for_up n body p) ltac:(lia) IHl) as [Hl Hr]. split; [done|].
  intros j Hj. rewrite Hr, IHr by done. cbn [sumf]. lia.
Qed.

(** The word of a pair that gathers the half with [v = c] of both. *)
Lemma CountOnes_join x y h v c :
  v < 5 -> is_word h ->
  (forall b, b < 32 -> Z.testbit h (Z.of_nat b) =
     if eqb (Nat.testbit b v) c then Z.testbit x (Z.of_nat b)
     else Z.testbit y (Z.of_nat (if c then Nat.setbit b v else Nat.clearbit b v))) ->
  Kit_WordCountOnes h =
    (cnt 32 (fun b => eqb (Nat.testbit b v) c && Z.testbit x (Z.of_nat b)) +
     cnt 32 (fun b => eqb (Nat.testbit b v) c && Z.testbit y (Z.of_nat b)))%Z.
Proof.
  intros Hv Hh Hb. rewrite (CountOnes_bits h _ Hh Hb).
  assert (exists Q, 32 = Q * (2 * 2 ^ v)) as [Q ->].
  { exists (2 ^ (4 - v)). change (2 * 2 ^ v) with (2 ^ S v). rewrite <- Nat.pow_add_r.
    replace (4 - v + S v) with 5 by lia. done. }
  rewrite (cnt_split _ _ (fun b => eqb (Nat.testbit b v) c)). rewrite <- (cnt_flip v Q c (fun b => Z.testbit y (Z.of_nat b))).
  f_equal; apply cnt_ext; intros b _; destruct (eqb (Nat.testbit b v) c); cbn; rewrite ?andb_true_r, ?andb_false_r; done.
Qed.

Lemma cnt_two_words nVars f :
  5 < nVars ->
  cnt (nmint nVars) f = sumf (Kit_TruthWordNum nVars / 2) (fun k =>
    cnt 32 (fun b => f (2 * k * 32 + b)%nat) + cnt 32 (fun b => f ((2 * k + 1) * 32 + b)%nat))%Z.
Proof.
  intros Hn. rewrite cnt_by_words.
  assert (Kit_TruthWordNum nVars = Kit_TruthWordNum nVars / 2 * 2) as E.
  { destruct (blocks_hi nVars 0 Hn) as [c Hc]. rewrite Hc. change (2 * 2 ^ 0) with 2. by rewrite Nat.div_mul. }
  rewrite E at 1. rewrite sumf_mul. apply sumf_ext. intros k _. cbn [sumf].
  rewrite Z.add_0_l. f_equal; apply cnt_ext; intros b _; f_equal; lia.
Qed.

(** ** [Kit_TruthCountOnesInCofs] *)

Definition ix2 (x : nat * bool) : nat := 2 * x.1 + Nat.b2n x.2.

(** Tables of one word. *)
Lemma cofs_word nVars t v c h :
  nVars <= 5 -> v < 5 -> is_word h ->
  (forall b, b < 32 -> Z.testbit h (Z.of_nat b) = eqb (Nat.testbit b v) c && Z.testbit t.[0] (Z.of_nat b)) ->
  Kit_WordCountOnes h = cof_count nVars t v c.
Proof.
  intros Hn Hv Hh Hb. rewrite (CountOnes_bits h _ Hh Hb). unfold cof_count. rewrite cnt_by_words.
  replace (Kit_TruthWordNum nVars) with 1 by (unfold Kit_TruthWordNum; by rewrite (proj2 (Nat.leb_le nVars 5))).
  cbn [sumf]. rewrite Z.add_0_l. apply cnt_ext. intros b Hlt.
  rewrite testbit_at_lo, tbit_at by lia. done.
Qed.

(** What the first loop adds: whole words, to the variables above the fifth. *)
Definition add_hi (t : list Z) (k : nat) (x : nat * bool) : Z :=
  if decide (5 <= x.1) then if eqb (Nat.testbit k (x.1 - 5)) x.2 then Kit_WordCountOnes t.[k] else 0%Z else 0%Z.

(** What the second loop adds: halves of two words, to the first five variables. *)
Definition add_lo (t : list Z) (k : nat) (x : nat * bool) : Z :=
  if decide (x.1 < 5) then
    (cnt 32 (fun b => eqb (Nat.testbit b x.1) x.2 && Z.testbit t.[2 * k] (Z.of_nat b)) +
     cnt 32 (fun b => eqb (Nat.testbit b x.1) x.2 && Z.testbit t.[2 * k + 1] (Z.of_nat b)))%Z
  else 0%Z.

Lemma sum_add_hi nVars t v c :
  5 <= v -> Forall is_word t ->
  sumf (Kit_TruthWordNum nVars) (fun k => add_hi t k (v, c)) = cof_count nVars t v c.
Proof.
  intros Hv Ht. unfold cof_count. rewrite cnt_by_words. apply sumf_ext. intros w _.
  unfold add_hi. cbn [fst snd]. rewrite decide_True by done.
  assert (forall b, b < 32 -> eqb (Nat.testbit (w * 32 + b) v) c && tbit t (w * 32 + b) =
    eqb (Nat.testbit w (v - 5)) c && Z.testbit t.[w] (Z.of_nat b)) as E
    by (intros b Hb; by rewrite testbit_at_hi, tbit_at).
  rewrite (cnt_ext 32 _ _ E). destruct (eqb _ _); cbn [andb].
  - apply WordCountOnes_spec. auto with words.
  - by rewrite cnt_false.
Qed.

Lemma sum_add_lo nVars t v c :
  v < 5 -> 5 < nVars ->
  sumf (Kit_TruthWordNum nVars / 2) (fun k => add_lo t k (v, c)) = cof_count nVars t v c.
Proof.
  intros Hv Hn. unfold cof_count. rewrite cnt_two_words by done. apply sumf_ext. intros k _.
  unfold add_lo. cbn [fst snd]. rewrite decide_True by done.
  f_equal; apply cnt_ext; intros b Hb; by rewrite testbit_at_lo, tbit_at by lia.
Qed.

(** The five pairs of joined words, as the second loop computes them. *)
Lemma join_word x y v c :
  v < 5 -> is_word x -> is_word y ->
  Kit_WordCountOnes
    (nth (2 * v + Nat.b2n c)
     [(x &&& 0x55555555) ||| ((y &&& 0x55555555) <<< 1); (x &&& 0xAAAAAAAA) ||| ((y &&& 0xAAAAAAAA) >>> 1);
      (x &&& 0x33333333) ||| ((y &&& 0x33333333) <<< 2); (x &&& 0xCCCCCCCC) ||| ((y &&& 0xCCCCCCCC) >>> 2);
      (x &&& 0x0F0F0F0F) ||| ((y &&& 0x0F0F0F0F) <<< 4); (x &&& 0xF0F0F0F0) ||| ((y &&& 0xF0F0F0F0) >>> 4);
      (x &&& 0x00FF00FF) ||| ((y &&& 0x00FF00FF) <<< 8); (x &&& 0xFF00FF00) ||| ((y &&& 0xFF00FF00) >>> 8);
      (x &&& 0x0000FFFF) ||| ((y &&& 0x0000FFFF) <<< 16); (x &&& 0xFFFF0000) ||| ((y &&& 0xFFFF0000) >>> 16)] 0)%Z
  = (cnt 32 (fun b => eqb (Nat.testbit b v) c && Z.testbit x (Z.of_nat b)) +
     cnt 32 (fun b => eqb (Nat.testbit b v) c && Z.testbit y (Z.of_nat b)))%Z.
Proof.
  intros Hv Hx Hy. apply CountOnes_join; [done| |].
  - do 5 (destruct v as [|v]; [destruct c; cbn [nth Nat.mul Nat.add Nat.b2n];
      apply word_lor; auto with words; apply word_wshr; auto with words|]). lia.
  - intros b Hb. do 5 (destruct v as [|v]; [destruct c; cbn [nth Nat.mul Nat.add Nat.b2n]; clear Hx Hy; word_bits b|]). lia.
Qed.

(** [memset( p, 0, ... )] *)
Lemma memset_zero n p :
  n <= length p ->
  length (for_up n (fun i q => wr q i 0) p) = length p /\
  forall j, j < n -> (for_up n (fun i q => wr q i 0) p).[j] = 0%Z.
Proof.
  intros Hn. split; [apply length_up; intros; apply length_wr|].
  intros j Hj. rewrite (rd_up_const n (fun _ => 0%Z)) by done. by rewrite decide_True.
Qed.

(** Additions at fixed places. *)
Ltac by_incs :=
  rewrite !rd_inc by (rewrite ?length_inc; lia);
  repeat (case_decide; try lia); try lia.

Lemma first_loop2 nVars t L k p :
  2 * nVars <= L -> length p = L -> 5 <= nVars ->
  let p' := for_range 5 nVars (fun i q =>
    if negb (Nat.land k (2 ^ (i - 5)) =? 0) then inc q (2 * i + 1) (Kit_WordCountOnes t.[k])
    else inc q (2 * i + 0) (Kit_WordCountOnes t.[k])) p in
  length p' = L /\ forall x, x.1 < nVars -> p'.[ix2 x] = (p.[ix2 x] + add_hi t k x)%Z.
Proof.
  intros HL Hp Hn. cbv zeta.
  set (P := fun i q => length q = L /\ forall x, x.1 < nVars ->
    q.[ix2 x] = (p.[ix2 x] + if decide (x.1 < i)%nat then add_hi t k x else 0)%Z).
  assert (P nVars (for_range 5 nVars (fun i q =>
    if negb (Nat.land k (2 ^ (i - 5)) =? 0) then inc q (2 * i + 1) (Kit_WordCountOnes t.[k])
    else inc q (2 * i + 0) (Kit_WordCountOnes t.[k])) p)) as [H1 H2].
  - apply for_range_ind; [done| |].
    + split; [done|]. intros [i c] Hi. unfold add_hi. cbn [fst snd] in *.
      destruct (decide (i < 5)); [rewrite decide_False by lia|]; lia.
    + intros i q Hi [Hl Hq]. rewrite land_pow2, negb_involutive.
      assert ((if Nat.testbit k (i - 5) then inc q (2 * i + 1) (Kit_WordCountOnes t.[k])
        else inc q (2 * i + 0) (Kit_WordCountOnes t.[k])) =
        inc q (ix2 (i, Nat.testbit k (i - 5))) (Kit_WordCountOnes t.[k])) as ->
        by (by destruct (Nat.testbit k (i - 5))).
      split; [by rewrite length_inc|]. intros [j c] Hj. cbn [fst] in Hj.
      rewrite rd_inc by (rewrite Hl; unfold ix2; cbn; destruct (Nat.testbit k (i - 5)); cbn; lia).
      rewrite Hq by done. unfold ix2, add_hi. cbn [fst snd].
      destruct (decide (j = i)) as [-> | Hne].
      * rewrite (decide_False (P := i < i)), (decide_True (P := i < S i)), (decide_True (P := 5 <= i)) by lia.
        destruct (Nat.testbit k (i - 5)), c; cbn [eqb Nat.b2n]; case_decide; lia.
      * rewrite (decide_False (P := 2 * j + _ = _))
          by (destruct c, (Nat.testbit k (i - 5)); cbn [Nat.b2n]; lia).
        destruct (decide (j < i)), (decide (j < S i)); lia.
  - split; [done|]. intros x Hx. rewrite H2 by done. by rewrite decide_True.
Qed.

Lemma CountOnesInCofs_spec nVars t pStore v c :
  is_tt nVars t -> 2 * nVars <= length pStore -> v < nVars ->
  (Kit_TruthCountOnesInCofs t nVars pStore).[2 * v + Nat.b2n c] = cof_count nVars t v c.
Proof.
  intros Ht Hlen Hv. unfold Kit_TruthCountOnesInCofs.
  destruct (memset_zero (2 * nVars) pStore Hlen) as [Hl0 Hz].
  set (p0 := for_up (2 * nVars) _ pStore) in *.
  destruct (Nat.leb_spec nVars 5) as [Hn|Hn].
  - transitivity (Kit_WordCountOnes (t.[0] &&& (nth (2 * v + Nat.b2n c)
      [0x55555555; 0xAAAAAAAA; 0x33333333; 0xCCCCCCCC; 0x0F0F0F0F; 0xF0F0F0F0; 0x00FF00FF; 0xFF00FF00;
       0x0000FFFF; 0xFFFF0000] 0))%Z).
    + do 6 (destruct nVars as [|nVars]; [
        do 5 (try (destruct v as [|v]; [destruct c; cbn [Nat.ltb Nat.leb Nat.b2n nth Nat.mul Nat.add]; rdwr; done|])); lia|]).
      lia.
    + apply cofs_word; [done|lia| |].
      * do 5 (destruct v as [|v]; [destruct c; apply word_land; auto with words|]). lia.
      * intros b Hb. generalize (t.[0]). intros x. clear - Hb Hv Hn.
        do 5 (destruct v as [|v]; [destruct c; cbn [nth Nat.mul Nat.add Nat.b2n]; clear Hv; word_bits b|]). lia.
  - destruct (additive_loop ix2 (fun x => x.1 < nVars) (length pStore) (Kit_TruthWordNum nVars)
      (fun k p => for_range 5 nVars (fun i q =>
        if negb (Nat.land k (2 ^ (i - 5)) =? 0) then inc q (2 * i + 1) (Kit_WordCountOnes t.[k])
        else inc q (2 * i + 0) (Kit_WordCountOnes t.[k])) p) (add_hi t) p0) as [Hl1 H1]; [|done|].
    { intros k p _ Hp. apply first_loop2; lia. }
    set (p1 := for_up (Kit_TruthWordNum nVars) _ p0) in *. cbv zeta.
    match goal with |- context [for_up (_ / 2) ?body p1] =>
      destruct (additive_loop ix2 (fun x => x.1 < nVars) (length pStore) (Kit_TruthWordNum nVars / 2)
        body (add_lo t) p1) as [Hl2 H2]; [|done|change (2 * v + Nat.b2n c) with (ix2 (v, c)); rewrite H2 by done]
    end.
    { intros k p _ Hp. split; [rewrite !length_inc; done|]. intros [i c'] Hi. cbn [fst] in Hi.
      unfold add_lo, ix2. cbn [fst snd]. case_decide as Hlt.
      - rewrite <- join_word by auto with words.
        do 5 (destruct i as [|i]; [destruct c'; cbn [nth Nat.mul Nat.add Nat.b2n]; by_incs|]). lia.
      - by_incs. }
    rewrite H1 by done. unfold ix2 at 1. cbn [fst snd]. rewrite Hz by (destruct c; cbn; lia).
    destruct (decide (v < 5)) as [Hlt|Hge].
    + rewrite (sumf_zero _ (fun k => add_hi t k (v, c)))
        by (intros; unfold add_hi; cbn [fst]; rewrite decide_False by lia; done).
      rewrite sum_add_lo by lia. lia.
    + rewrite (sumf_zero _ (fun k => add_lo t k (v, c)))
        by (intros; unfold add_lo; cbn [fst]; rewrite decide_False by lia; done).
      rewrite sum_add_hi by (lia || auto with words). lia.
Qed.

Lemma length_CountOnesInCofs t nVars p : length (Kit_TruthCountOnesInCofs t nVars p) = length p.
Proof.
  unfold Kit_TruthCountOnesInCofs. cbv zeta.
  assert (length (for_up (2 * nVars) (fun i q => wr q i 0) p) = length p) as <-
    by (apply length_up; intros; apply length_wr).
  set (p0 := for_up (2 * nVars) _ p). clearbody p0. destruct (nVars <=? 5).
  - do 5 (case_match; rewrite ?length_wr); done.
  - rewrite !length_up; [done| |].
    + intros k q. rewrite for_range_up. apply length_up. intros i r. case_match; apply length_inc.
    + intros k q. by rewrite !length_inc.
Qed.

Lemma first_loop0 nVars t L k p :
  nVars <= L -> length p = L -> 5 <= nVars ->
  let p' := for_range 5 nVars (fun i q =>
    if Nat.land k (2 ^ (i - 5)) =? 0 then inc q i (Kit_WordCountOnes t.[k]) else q) p in
  length p' = L /\ forall j, j < nVars -> p'.[j] = (p.[j] + add_hi t k (j, false))%Z.
Proof.
  intros HL Hp Hn. cbv zeta.
  set (P := fun i q => length q = L /\ forall j, j < nVars ->
    q.[j] = (p.[j] + if decide (j < i)%nat then add_hi t k (j, false) else 0)%Z).
  assert (P nVars (for_range 5 nVars (fun i q =>
    if Nat.land k (2 ^ (i - 5)) =? 0 then inc q i (Kit_WordCountOnes t.[k]) else q) p)) as [H1 H2].
  - apply for_range_ind; [done| |].
    + split; [done|]. intros i Hi. unfold add_hi. cbn [fst snd].
      destruct (decide (i < 5)); [rewrite decide_False by lia|]; lia.
    + intros i q Hi [Hl Hq]. rewrite land_pow2.
      split; [destruct (negb _); [by rewrite length_inc|done]|]. intros j Hj.
      unfold add_hi in *. cbn [fst snd] in *. specialize (Hq j Hj).
      destruct (decide (j = i)) as [-> | Hne].
      * rewrite decide_False in Hq by lia. rewrite !decide_True by lia.
        destruct (Nat.testbit k (i - 5)); cbn [eqb negb]; [done|].
        rewrite rd_inc, decide_True by lia. lia.
      * assert ((if negb (Nat.testbit k (i - 5)) then inc q i (Kit_WordCountOnes t.[k]) else q).[j] = q.[j]) as ->.
        { destruct (negb _); [|done]. rewrite rd_inc, decide_False by lia. lia. }
        rewrite Hq. destruct (decide (j < i)), (decide (j < S i)); lia || done.
  - split; [done|]. intros x Hx. rewrite H2 by done. by rewrite decide_True.
Qed.

Lemma CountOnesInCofs0_spec nVars t pStore v :
  is_tt nVars t -> nVars <= length pStore -> v < nVars ->
  (Kit_TruthCountOnesInCofs0 t nVars pStore).[v] = cof_count nVars t v false.
Proof.
  intros Ht Hlen Hv. unfold Kit_TruthCountOnesInCofs0.
  destruct (memset_zero nVars pStore Hlen) as [Hl0 Hz].
  set (p0 := for_up nVars _ pStore) in *.
  destruct (Nat.leb_spec nVars 5) as [Hn|Hn].
  - transitivity (Kit_WordCountOnes (t.[0] &&& (nth v
      [0x55555555; 0x33333333; 0x0F0F0F0F; 0x00FF00FF; 0x0000FFFF] 0))%Z).
    + do 6 (destruct nVars as [|nVars]; [
        do 5 (try (destruct v as [|v]; [cbn [Nat.ltb Nat.leb nth]; rdwr; done|])); lia|]).
      lia.
    + apply cofs_word; [done|lia| |].
      * do 5 (destruct v as [|v]; [apply word_land; auto with words|]). lia.
      * intros b Hb. generalize (t.[0]). intros x. clear - Hb Hv Hn.
        do 5 (destruct v as [|v]; [cbn [nth]; clear Hv; word_bits b|]). lia.
  - destruct (additive_loop (fun j => j) (fun j => j < nVars) (length pStore) (Kit_TruthWordNum nVars)
      (fun k p => for_range 5 nVars (fun i q =>
        if Nat.land k (2 ^ (i - 5)) =? 0 then inc q i (Kit_WordCountOnes t.[k]) else q) p)
      (fun k j => add_hi t k (j, false)) p0) as [Hl1 H1]; [|done|].
    { intros k p _ Hp. apply first_loop0; lia. }
    set (p1 := for_up (Kit_TruthWordNum nVars) _ p0) in *. cbv zeta.
    match goal with |- context [for_up (_ / 2) ?body p1] =>
      destruct (additive_loop (fun j => j) (fun j => j < nVars) (length pStore) (Kit_TruthWordNum nVars / 2)
        body (fun k j => add_lo t k (j, false)) p1) as [Hl2 H2]; [|done|rewrite H2 by done]
    end.
    { intros k p _ Hp. split; [rewrite !length_inc; done|]. intros i Hi.
      unfold add_lo. cbn [fst snd]. case_decide as Hlt.
      - rewrite <- join_word by auto with words.
        do 5 (destruct i as [|i]; [cbn [nth Nat.mul Nat.add Nat.b2n]; by_incs|]). lia.
      - by_incs. }
    rewrite H1, Hz by lia.
    destruct (decide (v < 5)) as [Hlt|Hge].
    + rewrite (sumf_zero _ (fun k => add_hi t k (v, false)))
        by (intros; unfold add_hi; cbn [fst]; rewrite decide_False by lia; done).
      rewrite sum_add_lo by lia. lia.
    + rewrite (sumf_zero _ (fun k => add_lo t k (v, false)))
        by (intros; unfold add_lo; cbn [fst]; rewrite decide_False by lia; done).
      rewrite sum_add_hi by (lia || auto with words). lia.
Qed.

(** ** The slow version *)

Lemma CountOnes_cof nVars t v c p :
  v < nVars -> is_tt nVars t -> is_tt nVars p ->
  (Kit_TruthCountOnes (if c : bool then Kit_TruthCofactor1New p t nVars v else Kit_TruthCofactor0New p t nVars v) nVars / 2)%Z
  = cof_count nVars t v c.
Proof.
  intros Hv Ht Hp. rewrite CountOnes_spec by (destruct c; [apply words_Cofactor1New|apply words_Cofactor0New]; auto with words).
  rewrite (cnt_ext _ _ (fun m => tbit t (if c then Nat.setbit m v else Nat.clearbit m v)))
    by (intros m Hm; destruct c; [apply tbit_Cofactor1New|apply tbit_Cofactor0New]; done || apply Hp).
  unfold cof_count. destruct (nmint_halves nVars v) as [Q ->]; [lia|].
  rewrite cnt_same_halves, Z.mul_comm. by apply Z.div_mul.
Qed.

Lemma Slow_spec nVars t pStore pAux v c :
  is_tt nVars t -> is_tt nVars pAux -> 2 * nVars <= length pStore -> v < nVars ->
  (Kit_TruthCountOnesInCofsSlow t nVars pStore pAux).1.[2 * v + Nat.b2n c] = cof_count nVars t v c.
Proof.
  intros Ht Ha Hlen Hv. unfold Kit_TruthCountOnesInCofsSlow.
  set (P := fun k (s : list Z * list Z) => length s.1 = length pStore /\ is_tt nVars s.2 /\
    forall v c, v < k -> s.1.[2 * v + Nat.b2n c] = cof_count nVars t v c).
  match goal with |- (for_up _ ?body _).1.[_] = _ => set (b := body) end.
  assert (P nVars (for_up nVars b (pStore, pAux))) as (_ & _ & H); [|by apply H].
  apply for_up_ind; [split; [done|]; split; [done|lia]|].
  intros i [s a] Hi (Hl & Hta & H). cbn [fst snd] in *. unfold b.
  assert (is_tt nVars (Kit_TruthCofactor0New a t nVars i)) by auto with words.
  split; [|split]; cbn [fst snd].
  - by rewrite !length_wr.
  - auto with words.
  - intros w d Hw. destruct (decide (w = i)) as [-> | ].
    + rewrite <- (CountOnes_cof nVars t i d (if d then Kit_TruthCofactor0New a t nVars i else a))
        by (done || destruct d; done).
      destruct d; cbn [Nat.b2n]; rdwr; done.
    + destruct d; cbn [Nat.b2n]; rdwr; [by apply (H w true); lia|by apply (H w false); lia].
Qed.

(** * Properties *)

(** The counters of one variable: minterms of the negative cofactor (counted in the
    half space), minterms of the Boolean difference, and minterms where two functions
    differ. *)
Theorem variable_counts_correct nVars v (t u : list Z) :
  v < nVars -> is_tt nVars t -> is_tt nVars u ->
  Kit_TruthCofactor0Count t nVars v = cnt (nmint nVars) (fun m => negb (Nat.testbit m v) && tbit t m) /\
  Kit_TruthBooleanDiffCount t nVars v = cnt (nmint nVars) (fun m =>
    negb (Nat.testbit m v) && xorb (tbit t (Nat.clearbit m v)) (tbit t (Nat.setbit m v))) /\
  Kit_TruthXorCount t u nVars = cnt (nmint nVars) (fun m => xorb (tbit t m) (tbit u m)).
Proof.
  intros Hv Ht Hu. split; [|split].
  - rewrite Cofactor0Count_spec by auto with words. apply cnt_ext. intros m _. by destruct (Nat.testbit m v).
  - apply BooleanDiffCount_spec; auto with words.
  - apply XorCount_spec; auto with words.
Qed.

Lemma variable_counts_correct_witness :
  Kit_TruthBooleanDiffCount [0xF0F0F0F0; 0xFF00FF00]%Z 6 5 = 16%Z /\
  Kit_TruthBooleanDiffCount [0xF0F0F0F0; 0xFF00FF00]%Z 6 5 = cnt (nmint 6) (fun m =>
    negb (Nat.testbit m 5) && xorb (tbit [0xF0F0F0F0; 0xFF00FF00]%Z (Nat.clearbit m 5))
                                   (tbit [0xF0F0F0F0; 0xFF00FF00]%Z (Nat.setbit m 5))).
Proof.
  split; [reflexivity|].
  apply (variable_counts_correct 6 5 [0xF0F0F0F0; 0xFF00FF00]%Z [0; 0]%Z); first [lia | concrete_tt].
Defined.

(** One pass over the table counts the minterms of both cofactors of every variable; the
    version for negative cofactors and the slow version, which forms each cofactor and
    halves its count, store the same numbers. *)
Theorem cofactor_counts_correct nVars (t pStore pStore0 pStoreS pAux : list Z) :
  is_tt nVars t -> is_tt nVars pAux ->
  2 * nVars <= length pStore -> nVars <= length pStore0 -> 2 * nVars <= length pStoreS ->
  forall v c, v < nVars ->
    let n := cnt (nmint nVars) (fun m => eqb (Nat.testbit m v) c && tbit t m) in
    (Kit_TruthCountOnesInCofs t nVars pStore).[2 * v + Nat.b2n c] = n /\
    (Kit_TruthCountOnesInCofsSlow t nVars pStoreS pAux).1.[2 * v + Nat.b2n c] = n /\
    (c = false -> (Kit_TruthCountOnesInCofs0 t nVars pStore0).[v] = n).
Proof.
  intros Ht Ha H1 H2 H3 v c Hv. split; [by apply CountOnesInCofs_spec|]. split; [by apply Slow_spec|].
  intros ->. by apply CountOnesInCofs0_spec.
Qed.

Lemma cofactor_counts_correct_witness :
  let t := [0xF0F0F0F0; 0xFF00FF01]%Z in
  (Kit_TruthCountOnesInCofs t 6 (repeat 7%Z 12)).[2 * 5 + 1] = 17%Z /\
  (Kit_TruthCountOnesInCofs t 6 (repeat 7%Z 12)).[2 * 5 + 1] =
    cnt (nmint 6) (fun m => eqb (Nat.testbit m 5) true && tbit t m).
Proof.
  intros t. split; [reflexivity|].
  apply (cofactor_counts_correct 6 t (repeat 7%Z 12) (repeat 7%Z 6) (repeat 7%Z 12) [0; 0]%Z) with (v := 5) (c := true);
    first [concrete_tt | cbn; lia].
Defined.
