(* ===== verification/TruthBytes.v ===== *)
(** Counting minterms byte by byte: [Kit_TruthCountMinterms] with its table of counts and the
    routine that printed the table ([kitTruth.c]).

    The table is read as an array of bytes; the model takes the order of bytes of a
    little-endian machine, the one for which the table was made.  Each entry packs four
    counts, one in each byte; the sum of the entries is kept in one unsigned word and is
    emptied into the counters before a byte can overflow. *)
From S2P Require Import Prelude Words Minterm TruthBasic TruthCof TruthSupp TruthCount.

(** * The routines *)

Definition count_table : list Z :=
  [0x00000000; 0x01010101; 0x01010001; 0x02020102; 0x01000101; 0x02010202; 0x02010102; 0x03020203;
   0x01000001; 0x02010102; 0x02010002; 0x03020103; 0x02000102; 0x03010203; 0x03010103; 0x04020204;
   0x00010101; 0x01020202; 0x01020102; 0x02030203; 0x01010202; 0x02020303; 0x02020203; 0x03030304;
   0x01010102; 0x02020203; 0x02020103; 0x03030204; 0x02010203; 0x03020304; 0x03020204; 0x04030305;
   0x00010001; 0x01020102; 0x01020002; 0x02030103; 0x01010102; 0x02020203; 0x02020103; 0x03030204;
   0x01010002; 0x02020103; 0x02020003; 0x03030104; 0x02010103; 0x03020204; 0x03020104; 0x04030205;
   0x00020102; 0x01030203; 0x01030103; 0x02040204; 0x01020203; 0x02030304; 0x02030204; 0x03040305;
   0x01020103; 0x02030204; 0x02030104; 0x03040205; 0x02020204; 0x03030305; 0x03030205; 0x04040306;
   0x00000101; 0x01010202; 0x01010102; 0x02020203; 0x01000202; 0x02010303; 0x02010203; 0x03020304;
   0x01000102; 0x02010203; 0x02010103; 0x03020204; 0x02000203; 0x03010304; 0x03010204; 0x04020305;
   0x00010202; 0x01020303; 0x01020203; 0x02030304; 0x01010303; 0x02020404; 0x02020304; 0x03030405;
   0x01010203; 0x02020304; 0x02020204; 0x03030305; 0x02010304; 0x03020405; 0x03020305; 0x04030406;
   0x00010102; 0x01020203; 0x01020103; 0x02030204; 0x01010203; 0x02020304; 0x02020204; 0x03030305;
   0x01010103; 0x02020204; 0x02020104; 0x03030205; 0x02010204; 0x03020305; 0x03020205; 0x04030306;
   0x00020203; 0x01030304; 0x01030204; 0x02040305; 0x01020304; 0x02030405; 0x02030305; 0x03040406;
   0x01020204; 0x02030305; 0x02030205; 0x03040306; 0x02020305; 0x03030406; 0x03030306; 0x04040407;
   0x00000001; 0x01010102; 0x01010002; 0x02020103; 0x01000102; 0x02010203; 0x02010103; 0x03020204;
   0x01000002; 0x02010103; 0x02010003; 0x03020104; 0x02000103; 0x03010204; 0x03010104; 0x04020205;
   0x00010102; 0x01020203; 0x01020103; 0x02030204; 0x01010203; 0x02020304; 0x02020204; 0x03030305;
   0x01010103; 0x02020204; 0x02020104; 0x03030205; 0x02010204; 0x03020305; 0x03020205; 0x04030306;
   0x00010002; 0x01020103; 0x01020003; 0x02030104; 0x01010103; 0x02020204; 0x02020104; 0x03030205;
   0x01010003; 0x02020104; 0x02020004; 0x03030105; 0x02010104; 0x03020205; 0x03020105; 0x04030206;
   0x00020103; 0x01030204; 0x01030104; 0x02040205; 0x01020204; 0x02030305; 0x02030205; 0x03040306;
   0x01020104; 0x02030205; 0x02030105; 0x03040206; 0x02020205; 0x03030306; 0x03030206; 0x04040307;
   0x00000102; 0x01010203; 0x01010103; 0x02020204; 0x01000203; 0x02010304; 0x02010204; 0x03020305;
   0x01000103; 0x02010204; 0x02010104; 0x03020205; 0x02000204; 0x03010305; 0x03010205; 0x04020306;
   0x00010203; 0x01020304; 0x01020204; 0x02030305; 0x01010304; 0x02020405; 0x02020305; 0x03030406;
   0x01010204; 0x02020305; 0x02020205; 0x03030306; 0x02010305; 0x03020406; 0x03020306; 0x04030407;
   0x00010103; 0x01020204; 0x01020104; 0x02030205; 0x01010204; 0x02020305; 0x02020205; 0x03030306;
   0x01010104; 0x02020205; 0x02020105; 0x03030206; 0x02010205; 0x03020306; 0x03020206; 0x04030307;
   0x00020204; 0x01030305; 0x01030205; 0x02040306; 0x01020305; 0x02030406; 0x02030306; 0x03040407;
   0x01020205; 0x02030306; 0x02030206; 0x03040307; 0x02020306; 0x03030407; 0x03030307; 0x04040408]%Z.

Definition bit_count : list Z :=
  [0; 1; 1; 2; 1; 2; 2; 3; 1; 2; 2; 3; 2; 3; 3; 4; 1; 2; 2; 3; 2; 3; 3; 4; 2; 3; 3; 4; 3; 4; 4; 5;
   1; 2; 2; 3; 2; 3; 3; 4; 2; 3; 3; 4; 3; 4; 4; 5; 2; 3; 3; 4; 3; 4; 4; 5; 3; 4; 4; 5; 4; 5; 5; 6;
   1; 2; 2; 3; 2; 3; 3; 4; 2; 3; 3; 4; 3; 4; 4; 5; 2; 3; 3; 4; 3; 4; 4; 5; 3; 4; 4; 5; 4; 5; 5; 6;
   2; 3; 3; 4; 3; 4; 4; 5; 3; 4; 4; 5; 4; 5; 5; 6; 3; 4; 4; 5; 4; 5; 5; 6; 4; 5; 5; 6; 5; 6; 6; 7;
   1; 2; 2; 3; 2; 3; 3; 4; 2; 3; 3; 4; 3; 4; 4; 5; 2; 3; 3; 4; 3; 4; 4; 5; 3; 4; 4; 5; 4; 5; 5; 6;
   2; 3; 3; 4; 3; 4; 4; 5; 3; 4; 4; 5; 4; 5; 5; 6; 3; 4; 4; 5; 4; 5; 5; 6; 4; 5; 5; 6; 5; 6; 6; 7;
   2; 3; 3; 4; 3; 4; 4; 5; 3; 4; 4; 5; 4; 5; 5; 6; 3; 4; 4; 5; 4; 5; 5; 6; 4; 5; 5; 6; 5; 6; 6; 7;
   3; 4; 4; 5; 4; 5; 5; 6; 4; 5; 5; 6; 5; 6; 6; 7; 4; 5; 5; 6; 5; 6; 6; 7; 5; 6; 6; 7; 6; 7; 7; 8]%Z.

(** One entry of the table. *)
Definition precomp_word (i : nat) : Z :=
  let uWord := bit_count.[i] in
  let uWord := (uWord ||| (bit_count.[Z.to_nat (Z.of_nat i &&& 0x55)] <<< 8))%Z in
  let uWord := (uWord ||| (bit_count.[Z.to_nat (Z.of_nat i &&& 0x33)] <<< 16))%Z in
  (uWord ||| (bit_count.[Z.to_nat (Z.of_nat i &&& 0x0F)] <<< 24))%Z.
(** The words that the routine prints. *)
Definition Kit_TruthCountMintermsPrecomp : list Z := map precomp_word (seq 0 256).

(** [pTruthC[k]], the table seen through a pointer to bytes. *)
Definition tt_byte (pTruth : list Z) (k : nat) : Z := ((pTruth.[k / 4] >>> (8 * (k mod 4))) &&& 0xFF)%Z.

(** The variables of the first loop. *)
Record sums := { uSum : Z; nTotal : Z; sRes : list Z; sBytes : list Z }.

(** Emptying the sum into the counters; the loop and the code after it use other indices. *)
Definition flush (i0 i1 i2 : nat) (s : sums) : sums :=
  let pRes := inc (sRes s) i0 ((uSum s >>> 8) &&& 0xFF) in
  let pRes := inc pRes i1 ((uSum s >>> 16) &&& 0xFF) in
  let pRes := inc pRes i2 ((uSum s >>> 24) &&& 0xFF) in
  {| uSum := 0; nTotal := nTotal s + (uSum s &&& 0xFF); sRes := pRes; sBytes := sBytes s |}.

Definition count_byte (pTruth : list Z) (k : nat) (s : sums) : sums :=
  let entry := count_table.[Z.to_nat (tt_byte pTruth k)] in
  let s := {| uSum := wadd (uSum s) entry; nTotal := nTotal s; sRes := sRes s; sBytes := (sBytes s).[k <- entry &&& 0xFF] |} in
  if (246 <? (uSum s &&& 0xFF))%Z then flush 0 2 3 s else s.

(** The loop over the other variables: returns the last [iVar] and the two arrays. *)
Fixpoint fold_bytes (fuel nBytes iVar Step : nat) (pRes pBytes : list Z) : option (nat * list Z * list Z) :=
  match fuel with
  | O => None
  | S fuel =>
    if Step <? nBytes then
      let '(pRes, pBytes) := for_step nBytes (Step + Step) (fun i '(pRes, pBytes) =>
        (inc pRes iVar pBytes.[i], inc pBytes i pBytes.[i + Step])) (pRes, pBytes) in
      fold_bytes fuel nBytes (S iVar) (2 * Step) pRes pBytes
    else Some (iVar, pRes, pBytes)
  end.

(** Returns the total, the counters and the bytes.  [Step] doubles: the fuel is enough. *)
Definition Kit_TruthCountMinterms (pTruth : list Z) (nVars : nat) (pBytesInit : list Z) : option (Z * list Z * list Z) :=
  assert! nVars <=? 20 in
  let pRes := repeat 0%Z nVars in
  let nWords := Kit_TruthWordNum nVars in
  let nBytes := nWords * 4 in
  let s := for_up nBytes (count_byte pTruth) {| uSum := 0; nTotal := 0; sRes := pRes; sBytes := pBytesInit |} in
  let s := if negb (uSum s =? 0)%Z then flush 0 1 2 s else s in
  '(iVar, pRes, pBytes) ← fold_bytes (S nBytes) nBytes 3 1 (sRes s) (sBytes s);
  assert! (pBytes.[0] =? nTotal s)%Z in
  assert! iVar =? nVars in
  assert! forallb (fun i => (pRes.[i] =? Kit_TruthCofactor0Count pTruth nVars i)%Z) (seq 0 nVars) in
  Some (nTotal s, pRes, pBytes).

(** * The table *)

(** Ones of a byte in the positions with [p]. *)
Definition ones (p : nat -> bool) (x : Z) : Z := cnt 8 (fun i => p i && Z.testbit x (Z.of_nat i)).
Definition zero_at (v i : nat) : bool := negb (Nat.testbit i v).
Definition pack (a b c d : Z) : Z := (a + 2 ^ 8 * b + 2 ^ 16 * c + 2 ^ 24 * d)%Z.
Definition entry_of (x : Z) : Z := pack (ones (fun _ => true) x) (ones (zero_at 0) x) (ones (zero_at 1) x) (ones (zero_at 2) x).

Lemma table_entries : forallb (fun i => (count_table.[i] =? entry_of (Z.of_nat i))%Z) (seq 0 256) = true.
Proof. by vm_compute. Qed.

Lemma precomp_entries : Kit_TruthCountMintermsPrecomp = count_table.
Proof. by vm_compute. Qed.

Lemma table_entry x : (0 <= x < 256)%Z -> count_table.[Z.to_nat x] = entry_of x.
Proof.
  intros Hx. pose proof table_entries as H. rewrite forallb_forall in H.
  specialize (H (Z.to_nat x) (proj2 (in_seq 256 0 (Z.to_nat x)) ltac:(lia))). apply Z.eqb_eq in H. by rewrite H, Z2Nat.id by lia.
Qed.

Lemma ones_bound p x : (0 <= ones p x <= ones (fun _ => true) x)%Z /\ (ones (fun _ => true) x <= 8)%Z.
Proof.
  unfold ones. split; [|apply (cnt_bound 8)]. split; [apply cnt_bound|].
  rewrite (cnt_split 8 (fun i => true && Z.testbit x (Z.of_nat i)) p).
  pose proof (cnt_bound 8 (fun i => (true && Z.testbit x (Z.of_nat i)) && negb (p i))).
  rewrite (cnt_ext 8 (fun i => p i && _) (fun i => (true && Z.testbit x (Z.of_nat i)) && p i)); [lia|].
  intros. by rewrite andb_true_l, andb_comm.
Qed.

(** Taking a packed word apart. *)
Lemma unpack a b c d : (0 <= a < 256)%Z -> (0 <= b < 256)%Z -> (0 <= c < 256)%Z -> (0 <= d < 256)%Z ->
  let x := pack a b c d in
  (x &&& 0xFF)%Z = a /\ ((x >>> 8) &&& 0xFF)%Z = b /\ ((x >>> 16) &&& 0xFF)%Z = c /\ ((x >>> 24) &&& 0xFF)%Z = d.
Proof.
  intros Ha Hb Hc Hd. cbv zeta. unfold wshr, pack. change 0xFF%Z with (Z.ones 8).
  rewrite !Z.land_ones, !Z.shiftr_div_pow2 by lia.
  change (2 ^ Z.of_nat 8)%Z with 256%Z. change (2 ^ Z.of_nat 16)%Z with 65536%Z. change (2 ^ Z.of_nat 24)%Z with 16777216%Z.
  change (2 ^ 8)%Z with 256%Z. change (2 ^ 16)%Z with 65536%Z. change (2 ^ 24)%Z with 16777216%Z.
  repeat split; Z.div_mod_to_equations; lia.
Qed.

(** * Bytes of a table *)

Lemma byte_range t k : (0 <= tt_byte t k < 256)%Z.
Proof. unfold tt_byte. change 0xFF%Z with (Z.ones 8). rewrite Z.land_ones by lia. apply Z.mod_pos_bound. lia. Qed.

Lemma byte_bit t k i : i < 8 -> Z.testbit (tt_byte t k) (Z.of_nat i) = tbit t (k * 8 + i).
Proof.
  intros Hi. unfold tt_byte, tbit. change 0xFF%Z with (Z.ones 8).
  rewrite Z.land_spec, Z.ones_spec_low, andb_true_r, testbit_wshr by lia.
  pose proof (Nat.div_mod_eq k 4). pose proof (Nat.mod_upper_bound k 4 ltac:(lia)).
  assert ((k * 8 + i) / 32 = k / 4) as ->.
  { symmetry. apply (Nat.div_unique _ 32 _ (8 * (k mod 4) + i)); lia. }
  assert ((k * 8 + i) mod 32 = 8 * (k mod 4) + i) as ->.
  { symmetry. apply (Nat.mod_unique _ 32 (k / 4)); lia. }
  f_equal. lia.
Qed.

(** Ones in the first [k] bytes, among the positions with [p]. *)
Definition ones_upto (t : list Z) (p : nat -> bool) (k : nat) : Z := sumf k (fun j => ones p (tt_byte t j)).

Lemma ones_upto_cnt t p k : (forall j i, i < 8 -> p (j * 8 + i) = p i) ->
  ones_upto t p k = cnt (k * 8) (fun m => p m && tbit t m).
Proof.
  intros Hp. unfold ones_upto. rewrite cnt_mul. apply sumf_ext. intros j _. unfold ones. apply cnt_ext. intros i Hi.
  by rewrite byte_bit, Hp.
Qed.

Lemma ones_upto_bound t p k : (0 <= ones_upto t p k <= ones_upto t (fun _ => true) k)%Z.
Proof.
  unfold ones_upto. induction k as [|k IH]; [done|]. cbn [sumf]. pose proof (ones_bound p (tt_byte t k)). lia.
Qed.

Lemma ones_upto_mono t j k : j <= k -> (ones_upto t (fun _ => true) j <= ones_upto t (fun _ => true) k)%Z.
Proof.
  intros H. induction H as [|k _ IH]; [lia|]. unfold ones_upto in *. cbn [sumf].
  pose proof (ones_bound (fun _ => true) (tt_byte t k)). lia.
Qed.

(** * The first loop *)

Definition packed (t : list Z) (k : nat) : Z :=
  pack (ones_upto t (fun _ => true) k) (ones_upto t (zero_at 0) k) (ones_upto t (zero_at 1) k) (ones_upto t (zero_at 2) k).

Lemma packed_S t k : (ones_upto t (fun _ => true) (S k) <= 246)%Z ->
  wadd (packed t k) (count_table.[Z.to_nat (tt_byte t k)]) = packed t (S k).
Proof.
  intros H. rewrite table_entry by apply byte_range. unfold wadd.
  assert (packed t k + entry_of (tt_byte t k) = packed t (S k))%Z as ->.
  { unfold packed, entry_of, pack, ones_upto. cbn [sumf]. lia. }
  apply Z.mod_small. pose proof (ones_upto_bound t (zero_at 0) (S k)). pose proof (ones_upto_bound t (zero_at 1) (S k)).
  pose proof (ones_upto_bound t (zero_at 2) (S k)). unfold packed, pack.
  change (2 ^ 8)%Z with 256%Z. change (2 ^ 16)%Z with 65536%Z. change (2 ^ 24)%Z with 16777216%Z. lia.
Qed.

Lemma unpacked t k : (ones_upto t (fun _ => true) k <= 246)%Z ->
  (packed t k &&& 0xFF)%Z = ones_upto t (fun _ => true) k /\
  ((packed t k >>> 8) &&& 0xFF)%Z = ones_upto t (zero_at 0) k /\
  ((packed t k >>> 16) &&& 0xFF)%Z = ones_upto t (zero_at 1) k /\
  ((packed t k >>> 24) &&& 0xFF)%Z = ones_upto t (zero_at 2) k.
Proof.
  intros H. pose proof (ones_upto_bound t (zero_at 0) k). pose proof (ones_upto_bound t (zero_at 1) k).
  pose proof (ones_upto_bound t (zero_at 2) k). apply unpack; lia.
Qed.

(** A table with few ones is counted without emptying the sum on the way. *)
Lemma first_loop t pRes pB k : (ones_upto t (fun _ => true) k <= 246)%Z -> k <= length pB ->
  let s := for_up k (count_byte t) {| uSum := 0; nTotal := 0; sRes := pRes; sBytes := pB |} in
  uSum s = packed t k /\ nTotal s = 0%Z /\ sRes s = pRes /\ length (sBytes s) = length pB /\
  forall j, j < k -> (sBytes s).[j] = ones (fun _ => true) (tt_byte t j).
Proof.
  intros Ht Hl. cbv zeta. apply (for_up_ind (fun k s => uSum s = packed t k /\ nTotal s = 0%Z /\ sRes s = pRes /\
    length (sBytes s) = length pB /\ forall j, j < k -> (sBytes s).[j] = ones (fun _ => true) (tt_byte t j))).
  - repeat (split; [done|]). intros; lia.
  - intros i s Hi (Hu & Hn & HR & HL & HB).
    assert (ones_upto t (fun _ => true) (S i) <= 246)%Z as Hi' by (pose proof (ones_upto_mono t (S i) k ltac:(lia)); lia).
    unfold count_byte. cbn [uSum]. rewrite Hu, packed_S by done. destruct (unpacked t (S i) Hi') as [-> _].
    rewrite (proj2 (Z.ltb_ge _ _)) by done. cbn [uSum nTotal sRes sBytes].
    split; [done|]. split; [done|]. split; [done|]. split; [by rewrite length_wr|]. intros j Hj. rewrite rd_wr.
    destruct (decide (i = j /\ i < length (sBytes s))) as [[-> _]|Hne].
    + rewrite table_entry by apply byte_range. pose proof (ones_bound (zero_at 0) (tt_byte t j)).
      pose proof (ones_bound (zero_at 1) (tt_byte t j)). pose proof (ones_bound (zero_at 2) (tt_byte t j)). apply unpack; lia.
    + apply HB. destruct (decide (i = j)) as [-> | ]; [|lia]. exfalso. apply Hne. split; [done|lia].
Qed.

(** Emptying what is left after the loop. *)
Lemma last_flush t pRes pB k s : (ones_upto t (fun _ => true) k <= 246)%Z -> 3 <= length pRes ->
  uSum s = packed t k -> nTotal s = 0%Z -> sRes s = pRes -> sBytes s = pB -> (forall v, pRes.[v] = 0%Z) ->
  let s' := if negb (uSum s =? 0)%Z then flush 0 1 2 s else s in
  nTotal s' = ones_upto t (fun _ => true) k /\ sBytes s' = pB /\ length (sRes s') = length pRes /\
  forall v, (sRes s').[v] = if v <? 3 then ones_upto t (zero_at v) k else 0%Z.
Proof.
  intros Ht Hl Hu Hn HR HB H0. cbv zeta. destruct (unpacked t k Ht) as (U0 & U1 & U2 & U3). rewrite <- Hu in *.
  destruct (Z.eqb_spec (uSum s) 0) as [E|E]; cbn [negb].
  - rewrite E in *. cbn in U0, U1, U2, U3. rewrite Hn, HR, <- U0. do 3 (split; [done|]). intros v. rewrite H0.
    destruct v as [|[|[|v]]]; done.
  - unfold flush. cbn [nTotal sRes sBytes]. rewrite Hn, HR, U0, U1, U2, U3, !length_inc. do 3 (split; [done|]).
    intros v. rewrite !rd_inc by (rewrite ?length_inc; lia). rewrite H0.
    destruct (Nat.ltb_spec v 3); repeat case_decide; subst; lia.
Qed.

(** * The second loop *)

Lemma inner_loop Q st iVar pRes pB : 0 < st -> Q * (st + st) <= length pB -> iVar < length pRes ->
  let r := for_up Q (fun q '(pRes, pBytes) => (inc pRes iVar pBytes.[q * (st + st)], inc pBytes (q * (st + st)) pBytes.[q * (st + st) + st])) (pRes, pB) in
  length r.1 = length pRes /\ length r.2 = length pB /\
  (forall v, r.1.[v] = pRes.[v] + if decide (v = iVar) then sumf Q (fun q => pB.[q * (st + st)]) else 0)%Z /\
  (forall q, q < Q -> r.2.[q * (st + st)] = (pB.[q * (st + st)] + pB.[q * (st + st) + st])%Z).
Proof.
  intros Hst HQ Hv. cbv zeta. remember (st + st) as w eqn:Ew.
  set (body := fun (q : nat) '((pRes, pBytes) : list Z * list Z) => _).
  assert (let r := for_up Q body (pRes, pB) in length r.1 = length pRes /\ length r.2 = length pB /\
    (forall v, r.1.[v] = pRes.[v] + if decide (v = iVar) then sumf Q (fun q => pB.[q * w]) else 0)%Z /\
    (forall q, q < Q -> r.2.[q * w] = (pB.[q * w] + pB.[q * w + st])%Z) /\
    forall i, (forall q, q < Q -> i <> q * w) -> r.2.[i] = pB.[i]) as (? & ? & ? & ? & _); [|done].
  apply (for_up_ind (fun k r => length r.1 = length pRes /\ length r.2 = length pB /\
    (forall v, r.1.[v] = pRes.[v] + if decide (v = iVar) then sumf k (fun q => pB.[q * w]) else 0)%Z /\
    (forall q, q < k -> r.2.[q * w] = (pB.[q * w] + pB.[q * w + st])%Z) /\
    forall i, (forall q, q < k -> i <> q * w) -> r.2.[i] = pB.[i])).
  - cbn [fst snd]. split; [done|]. split; [done|]. split; [|split; [lia|done]].
    intros v. cbn [sumf]. destruct (decide _); lia.
  - intros k [R B] Hk (L1 & L2 & H1 & H2 & H3). cbn [fst snd] in *. unfold body. cbn [fst snd].
    assert (k * w + w <= Q * w) as Hkw by nia.
    assert (forall q, q < k -> k * w <> q * w /\ k * w + st <> q * w) as Hne by (intros q Hq; assert (q * w + w <= k * w) by nia; lia).
    rewrite !length_inc. split; [done|]. split; [done|]. split; [|split].
    + intros v. rewrite rd_inc, H1, H3 by (lia || (intros q Hq; by apply Hne)). cbn [sumf]. destruct (decide _); lia.
    + intros q Hq. rewrite rd_inc by lia. destruct (decide (q * w = k * w)) as [E|E].
      * assert (q = k) as -> by nia. rewrite !H3; [done|intros q Hq'; by apply Hne..].
      * rewrite H2; [lia|]. destruct (decide (q = k)) as [-> | ]; [done|lia].
    + intros i Hi. rewrite rd_inc, decide_False by (lia || apply Hi; lia). rewrite H3; [lia|]. intros q Hq. apply Hi. lia.
Qed.

Lemma for_step_exact {A} Q w (body : nat -> A -> A) a : 0 < w -> for_step (Q * w) w body a = for_up Q (fun q => body (q * w)) a.
Proof.
  intros Hw. unfold for_step. f_equal. symmetry. apply (Nat.div_unique _ _ _ (w - 1)); nia.
Qed.

(** What the loop adds to the counter of variable [3 + k]: the ones in the first half of every block. *)
Definition first_halves (r k : nat) (c : nat -> Z) : Z :=
  sumf (2 ^ (r - k - 1)) (fun q => sumf (2 ^ k) (fun j => c (q * (2 ^ k + 2 ^ k) + j)%nat)).

Lemma pow_double s : 2 ^ s + 2 ^ s = 2 ^ S s.
Proof. rewrite Nat.pow_succ_r'. lia. Qed.

Lemma fold_bytes_spec fuel r s c pRes pB :
  s <= r -> r - s < fuel -> 2 ^ r <= length pB -> 3 + r <= length pRes ->
  (forall q, q < 2 ^ (r - s) -> pB.[q * 2 ^ s] = sumf (2 ^ s) (fun j => c (q * 2 ^ s + j)%nat)) ->
  exists R B, fold_bytes fuel (2 ^ r) (3 + s) (2 ^ s) pRes pB = Some (3 + r, R, B) /\ length R = length pRes /\
    B.[0] = sumf (2 ^ r) c /\
    forall v, R.[v] = (pRes.[v] + if decide (3 + s <= v /\ v < 3 + r)%nat then first_halves r (v - 3) c else 0)%Z.
Proof.
  revert s pRes pB. induction fuel as [|fuel IH]; intros s pRes pB Hs Hf HB HR Hc; [lia|]. cbn [fold_bytes].
  pose proof (Nat.pow_nonzero 2 s ltac:(lia)) as Hp.
  destruct (Nat.ltb_spec (2 ^ s) (2 ^ r)) as [Hlt|Hge].
  - assert (s < r) as Hsr by (destruct (Nat.lt_ge_cases s r) as [|Hge]; [done|]; assert (s = r) as -> by lia; lia).
    set (Q := 2 ^ (r - s - 1)). assert (2 ^ r = Q * (2 ^ s + 2 ^ s)) as Er.
    { unfold Q. rewrite pow_double, <- Nat.pow_add_r. f_equal. lia. }
    assert (2 ^ (r - s) = Q + Q) as EQ by (unfold Q; rewrite pow_double; f_equal; lia).
    assert (forall (body : nat -> list Z * list Z -> list Z * list Z) a,
      for_step (2 ^ r) (2 ^ s + 2 ^ s) body a = for_up Q (fun q => body (q * (2 ^ s + 2 ^ s))) a) as Hstep
      by (intros; rewrite Er; apply for_step_exact; lia).
    rewrite Hstep.
    destruct (inner_loop Q (2 ^ s) (3 + s) pRes pB) as (L1 & L2 & H1 & H2); [lia|lia|lia|].
    destruct (for_up Q _ (pRes, pB)) as [R1 B1]. cbn [fst snd] in *.
    assert (forall q, q < Q -> pB.[q * (2 ^ s + 2 ^ s)] = sumf (2 ^ s) (fun j => c (q * (2 ^ s + 2 ^ s) + j)%nat)) as Hlo.
    { intros q Hq. replace (q * (2 ^ s + 2 ^ s)) with ((q + q) * 2 ^ s) by lia. apply Hc. lia. }
    destruct (IH (S s) R1 B1) as (R & B & E & LR & HB0 & HRv); [lia|lia|lia|lia| |].
    { intros q Hq. rewrite <- (pow_double s). rewrite sumf_app.
      assert (q < Q) as HqQ by (unfold Q; replace (r - s - 1) with (r - S s) by lia; lia).
      rewrite H2, Hlo by done. f_equal.
      replace (q * (2 ^ s + 2 ^ s) + 2 ^ s) with ((q + q + 1) * 2 ^ s) by lia. rewrite Hc by lia.
      apply sumf_ext. intros j _. f_equal. lia. }
    exists R, B. replace (S (3 + s)) with (3 + S s) by lia.
    split; [exact E|]. split; [congruence|]. split; [done|]. intros v. rewrite HRv, H1.
    destruct (decide (v = 3 + s)) as [-> | Hne].
    + rewrite decide_False, decide_True by lia. replace (3 + s - 3) with s by lia. unfold first_halves. fold Q.
      rewrite (sumf_ext Q (fun q => pB.[q * (2 ^ s + 2 ^ s)]) _ Hlo). lia.
    + destruct (decide (3 + S s <= v /\ v < 3 + r)); [rewrite decide_True by lia|rewrite decide_False by lia]; lia.
  - assert (s = r) as ->.
    { destruct (Nat.lt_ge_cases s r) as [H|]; [|lia]. pose proof (Nat.pow_lt_mono_r 2 s r ltac:(lia) H). lia. }
    exists pRes, pB. split; [done|]. split; [done|]. split.
    + specialize (Hc 0). rewrite Nat.sub_diag in Hc. apply Hc. cbn. lia.
    + intros v. rewrite decide_False by lia. lia.
Qed.

Lemma zero_at_block v j i : v < 3 -> zero_at v (j * 8 + i) = zero_at v i.
Proof.
  intros Hv. unfold zero_at. f_equal.
  assert (forall m, Nat.testbit (m mod 2 ^ 3) v = Nat.testbit m v) as H by (intros; by apply Nat.mod_pow2_bits_low).
  rewrite <- (H (j * 8 + i)), <- (H i). f_equal. change (2 ^ 3) with 8. by rewrite Nat.add_comm, Nat.Div0.mod_add.
Qed.

(** The counter of a variable above the third. *)
Lemma halves_cof nVars t k : 5 <= nVars -> 3 + k < nVars ->
  first_halves (nVars - 3) k (fun j => ones (fun _ => true) (tt_byte t j)) = cof_count nVars t (3 + k) false.
Proof.
  intros Hn Hk. unfold first_halves, cof_count.
  assert (nmint nVars = 2 ^ (nVars - 3 - k - 1) * (2 * 2 ^ (3 + k))) as ->.
  { unfold nmint. rewrite Nat.max_r by lia. change (2 * 2 ^ (3 + k)) with (2 ^ S (3 + k)). rewrite <- Nat.pow_add_r. f_equal. lia. }
  rewrite cnt_halves. match goal with |- _ = (_ + ?x)%Z => assert (x = 0%Z) as -> end.
  { apply sumf_zero. intros q _. rewrite (cnt_ext _ _ (fun _ => false)); [by apply cnt_false|].
    intros i Hi. destruct (pair_facts (3 + k) q i Hi) as (_ & -> & _). done. }
  rewrite Z.add_0_r. apply sumf_ext. intros q _.
  replace (2 ^ (3 + k)) with (2 ^ k * 8) by (rewrite Nat.pow_add_r; change (2 ^ 3) with 8; lia). rewrite cnt_mul.
  apply sumf_ext. intros j Hj. unfold ones. apply cnt_ext. intros i Hi. rewrite byte_bit by done. cbn [andb].
  assert (2 ^ (3 + k) = 2 ^ k * 8) as E8 by (rewrite Nat.pow_add_r; change (2 ^ 3) with 8; lia).
  destruct (pair_facts (3 + k) q (j * 8 + i)) as (Ef & _); [nia|]. rewrite E8 in Ef. rewrite Ef. cbn [eqb andb].
  f_equal. lia.
Qed.

(** The counters of the first three variables. *)
Lemma bytes_cof nVars t v : 5 <= nVars -> v < 3 -> ones_upto t (zero_at v) (2 ^ (nVars - 3)) = cof_count nVars t v false.
Proof.
  intros Hn Hv. rewrite ones_upto_cnt by (intros; by apply zero_at_block). unfold cof_count.
  assert (2 ^ (nVars - 3) * 8 = nmint nVars) as ->.
  { change 8 with (2 ^ 3). rewrite <- Nat.pow_add_r. unfold nmint. f_equal. lia. }
  apply cnt_ext. intros m _. unfold zero_at. by destruct (Nat.testbit m v).
Qed.

Lemma ones_total nVars t : 5 <= nVars -> ones_upto t (fun _ => true) (2 ^ (nVars - 3)) = cnt (nmint nVars) (tbit t).
Proof.
  intros Hn. rewrite ones_upto_cnt by done.
  assert (2 ^ (nVars - 3) * 8 = nmint nVars) as ->.
  { change 8 with (2 ^ 3). rewrite <- Nat.pow_add_r. unfold nmint. f_equal. lia. }
  by apply cnt_ext.
Qed.

Lemma bytes_num nVars : 5 <= nVars -> Kit_TruthWordNum nVars * 4 = 2 ^ (nVars - 3).
Proof.
  intros Hn. unfold Kit_TruthWordNum. destruct (Nat.leb_spec nVars 5); [by assert (nVars = 5) as -> by lia|].
  replace (nVars - 3) with (S (S (nVars - 5))) by lia. rewrite !Nat.pow_succ_r'. lia.
Qed.

Lemma CountMinterms_spec nVars t pB : 5 <= nVars <= 20 -> Forall is_word t -> 2 ^ (nVars - 3) <= length pB ->
  (cnt (nmint nVars) (tbit t) <= 246)%Z ->
  exists R B, Kit_TruthCountMinterms t nVars pB = Some (cnt (nmint nVars) (tbit t), R, B) /\ length R = nVars /\
    forall v, v < nVars -> R.[v] = cof_count nVars t v false.
Proof.
  intros Hn Ht Hl Hc. unfold Kit_TruthCountMinterms. rewrite (proj2 (Nat.leb_le _ _)), bytes_num by lia. cbv zeta.
  set (N := 2 ^ (nVars - 3)) in *. rewrite <- ones_total in Hc |- * by lia. fold N in Hc |- *.
  destruct (first_loop t (repeat 0%Z nVars) pB N Hc Hl) as (Hu & Hnt & HR & HL & HB).
  set (s := for_up N _ _) in *.
  destruct (last_flush t (repeat 0%Z nVars) (sBytes s) N s Hc) as (F1 & F2 & F3 & F4);
    [rewrite repeat_length; lia|done|done|done|done|intros v; unfold rd; apply nth_repeat|].
  set (s' := if negb (uSum s =? 0)%Z then _ else _) in *. rewrite repeat_length in F3.
  destruct (fold_bytes_spec (S N) (nVars - 3) 0 (fun j => ones (fun _ => true) (tt_byte t j)) (sRes s') (sBytes s'))
    as (R & B & E & LR & HB0 & HRv); [lia| |rewrite F2, HL; exact Hl|lia| |].
  { unfold N. pose proof (Nat.pow_gt_lin_r 2 (nVars - 3) ltac:(lia)). lia. }
  { intros q Hq. rewrite Nat.sub_0_r in Hq. change (2 ^ 0) with 1. cbn [sumf]. rewrite Nat.mul_1_r, Nat.add_0_r, F2, HB by done. lia. }
  change (fold_bytes (S N) N 3 1 (sRes s') (sBytes s')) with (fold_bytes (S N) (2 ^ (nVars - 3)) (3 + 0) (2 ^ 0) (sRes s') (sBytes s')).
  rewrite E. cbn [mbind option_bind]. rewrite F1, HB0. fold N. rewrite Z.eqb_refl.
  replace (3 + (nVars - 3)) with nVars in * by lia. rewrite Nat.eqb_refl.
  assert (forall v, v < nVars -> R.[v] = cof_count nVars t v false) as Hres.
  { intros v Hv. rewrite HRv, F4. destruct (Nat.ltb_spec v 3).
    - rewrite decide_False, Z.add_0_r by lia. by apply bytes_cof; [lia|].
    - rewrite decide_True by lia. rewrite Z.add_0_l. replace v with (3 + (v - 3)) at 2 by lia. apply halves_cof; lia. }
  replace (forallb _ (seq 0 nVars)) with true.
  - exists R, B. split; [done|]. split; [congruence|done].
  - symmetry. apply forallb_forall. intros i Hi%in_seq. rewrite Hres, Cofactor0Count_spec by (done || lia). apply Z.eqb_refl.
Qed.

(** * The overflow *)

Lemma rd_inc_ne p i x j : j <> i -> (inc p i x).[j] = p.[j].
Proof. intros H. unfold inc. by apply rd_wr_ne. Qed.

Lemma length_flush i0 i1 i2 s : length (sRes (flush i0 i1 i2 s)) = length (sRes s).
Proof. unfold flush. cbn [sRes]. by rewrite !length_inc. Qed.

(** The first loop never touches the counter of the second variable. *)
Lemma first_loop_skips t N s0 : (sRes (for_up N (count_byte t) s0)).[1] = (sRes s0).[1] /\
  length (sRes (for_up N (count_byte t) s0)) = length (sRes s0).
Proof.
  apply (for_up_ind (fun _ s => (sRes s).[1] = (sRes s0).[1] /\ length (sRes s) = length (sRes s0))); [done|].
  intros i s _ [H1 H2]. unfold count_byte. destruct (246 <? _)%Z; [|done].
  unfold flush. cbn [sRes]. rewrite !rd_inc_ne, !length_inc by done. done.
Qed.

Lemma fold_bytes_skips fuel N iVar st pRes pB r : fold_bytes fuel N iVar st pRes pB = Some r -> 2 <= iVar ->
  r.1.2.[1] = pRes.[1].
Proof.
  revert iVar st pRes pB. induction fuel as [|fuel IH]; intros iVar st pRes pB; [done|]. cbn [fold_bytes].
  destruct (st <? N); [|by intros [= <-]].
  match goal with |- context [for_step N (st + st) ?b _] => set (body := b) end.
  assert (2 <= iVar -> (for_step N (st + st) body (pRes, pB)).1.[1] = pRes.[1]) as H.
  { intros Hi. unfold for_step. apply (for_up_ind (fun _ s => s.1.[1] = pRes.[1])); [done|].
    intros i [R B] _ Hs. cbn [fst] in *. unfold body. cbn [fst]. by rewrite rd_inc_ne by lia. }
  destruct (for_step N (st + st) body (pRes, pB)) as [R B]. intros E Hi. rewrite (IH _ _ _ _ E) by lia. by apply H.
Qed.

(** * Properties *)

(** [Kit_TruthCountMinterms] for 5 to 20 variables, with a byte array of the size of the table: on a function of
    at most 246 minterms all assertions pass, the total is the number of minterms, and the counter of each variable is
    the number of minterms in its negative cofactor.  The table it uses is the one that
    [Kit_TruthCountMintermsPrecomp] prints. *)
Theorem count_minterms_correct nVars pTruth pBytes :
  5 <= nVars <= 20 -> is_tt nVars pTruth -> 2 ^ (nVars - 3) <= length pBytes ->
  (cnt (nmint nVars) (tbit pTruth) <= 246)%Z ->
  Kit_TruthCountMintermsPrecomp = count_table /\
  exists pRes pBytes', Kit_TruthCountMinterms pTruth nVars pBytes = Some (cnt (nmint nVars) (tbit pTruth), pRes, pBytes') /\
    length pRes = nVars /\
    forall v, v < nVars -> pRes.[v] = cnt (nmint nVars) (fun m => negb (Nat.testbit m v) && tbit pTruth m).
Proof.
  intros Hn [_ Ht] Hl Hc. split; [exact precomp_entries|].
  destruct (CountMinterms_spec nVars pTruth pBytes Hn Ht Hl Hc) as (R & B & E & LR & H).
  exists R, B. split; [done|]. split; [done|]. intros v Hv. rewrite H by done. unfold cof_count.
  apply cnt_ext. intros m _. by destruct (Nat.testbit m v).
Qed.

Lemma count_minterms_correct_witness :
  let t := [0xCACACACA; 0x11; 0; 0x80000000]%Z in
  option_map fst (Kit_TruthCountMinterms t 7 (repeat 0%Z 16)) = Some (19%Z, [6; 6; 9; 10; 10; 16; 18]%Z) /\
  Kit_TruthCountMintermsPrecomp = count_table /\
  exists pRes pBytes', Kit_TruthCountMinterms t 7 (repeat 0%Z 16) = Some (cnt (nmint 7) (tbit t), pRes, pBytes') /\
    length pRes = 7 /\ forall v, v < 7 -> pRes.[v] = cnt (nmint 7) (fun m => negb (Nat.testbit m v) && tbit t m).
Proof.
  intros t. split; [vm_compute; reflexivity|].
  apply (count_minterms_correct 7 t (repeat 0%Z 16)); [lia|concrete_tt|by apply Nat.leb_le|by vm_compute].
Defined.

(** Emptying the sum inside the loop adds the counts of the second and third variables to the counters of the
    third and fourth: on every function with more than 255 minterms in the negative cofactor of the second
    variable an assertion of [Kit_TruthCountMinterms] fails. *)
Theorem count_minterms_overflow nVars pTruth pBytes :
  2 <= nVars -> is_tt nVars pTruth ->
  (255 < cnt (nmint nVars) (fun m => negb (Nat.testbit m 1) && tbit pTruth m))%Z ->
  Kit_TruthCountMinterms pTruth nVars pBytes = None.
Proof.
  intros Hn [_ Ht] Hc. unfold Kit_TruthCountMinterms. destruct (nVars <=? 20); [|done]. cbv zeta.
  set (N := Kit_TruthWordNum nVars * 4). set (s0 := {| uSum := 0; nTotal := 0; sRes := repeat 0%Z nVars; sBytes := pBytes |}).
  destruct (first_loop_skips pTruth N s0) as [H1 H2]. set (s := for_up N _ s0) in *.
  set (s' := if negb (uSum s =? 0)%Z then _ else _).
  assert ((sRes s').[1] <= 255)%Z as Hs.
  { assert ((sRes s).[1] = 0)%Z as E0 by (rewrite H1; unfold s0; cbn [sRes]; unfold rd; apply nth_repeat).
    unfold s'. destruct (negb _); [|lia]. unfold flush. cbn [sRes]. rewrite rd_inc_ne by done.
    assert (1 < length (inc (sRes s) 0 ((uSum s >>> 8) &&& 0xFF)%Z)) as Hl1.
    { rewrite length_inc, H2. unfold s0. cbn [sRes]. rewrite repeat_length. lia. }
    rewrite rd_inc, rd_inc_ne, decide_True by done.
    change 0xFF%Z with (Z.ones 8). rewrite Z.land_ones by lia. pose proof (Z.mod_pos_bound (uSum s >>> 16) (2 ^ 8) ltac:(lia)). change (Z.ones 8) with 255%Z. lia. }
  destruct (fold_bytes _ _ _ _ _ _) as [[[iVar R] B]|] eqn:E; [|done]. cbn [mbind option_bind].
  apply fold_bytes_skips in E; [|lia]. cbn [fst snd] in E.
  destruct (B.[0] =? _)%Z; [|done]. destruct (iVar =? nVars); [|done].
  destruct (forallb _ (seq 0 nVars)) eqn:F; [|done]. exfalso. rewrite forallb_forall in F.
  specialize (F 1 (proj2 (in_seq nVars 0 1) ltac:(lia))). apply Z.eqb_eq in F.
  rewrite Cofactor0Count_spec in F by (done || lia). unfold cof_count in F.
  rewrite (cnt_ext _ _ (fun m => negb (Nat.testbit m 1) && tbit pTruth m)) in F by (intros m _; by destruct (Nat.testbit m 1)).
  lia.
Qed.

Lemma count_minterms_overflow_witness :
  let t := repeat 0xFFFFFFFF%Z 16 in
  cnt (nmint 9) (fun m => negb (Nat.testbit m 1) && tbit t m) = 256%Z /\
  Kit_TruthCountMinterms t 9 (repeat 0%Z 64) = None.
Proof.
  intros t. assert (cnt (nmint 9) (fun m => negb (Nat.testbit m 1) && tbit t m) = 256%Z) as E by (vm_compute; reflexivity).
  split; [exact E|]. apply (count_minterms_overflow 9 t (repeat 0%Z 64)); [lia|concrete_tt|rewrite E; lia].
Defined.
