(* ===== verification/TruthCanon.v ===== *)
(** Hashing and semi-canonicization of truth tables ([kitTruth.c]).

    [Kit_TruthSemiCanonicize] complements the output so that at most half of the
    minterms are 1, complements every variable whose positive cofactor has more ones
    than the negative one, and sorts the variables by the count of the negative
    cofactor, recording phase and permutation. *)
From S2P Require Import Prelude Words Minterm Relabel Bubble TruthBasic TruthCof TruthPerm TruthSupp TruthCount.

(** * The routines *)

Definition HashPrimes : list Z := [
    2; 3; 5; 7; 11; 13; 17; 19; 23; 29; 31; 37; 41; 43; 47; 53; 59; 61; 67; 71; 73; 79; 83; 89;
    97; 101; 103; 107; 109; 113; 127; 131; 137; 139; 149; 151; 157; 163; 167; 173; 179; 181;
    191; 193; 197; 199; 211; 223; 227; 229; 233; 239; 241; 251; 257; 263; 269; 271; 277; 281;
    283; 293; 307; 311; 313; 317; 331; 337; 347; 349; 353; 359; 367; 373; 379; 383; 389; 397;
    401; 409; 419; 421; 431; 433; 439; 443; 449; 457; 461; 463; 467; 479; 487; 491; 499; 503;
    509; 521; 523; 541; 547; 557; 563; 569; 571; 577; 587; 593; 599; 601; 607; 613; 617; 619;
    631; 641; 643; 647; 653; 659; 661; 673; 677; 683; 691; 701; 709; 719; 727; 733; 739; 743;
    751; 757; 761; 769; 773; 787; 797; 809; 811; 821; 823; 827; 829; 839; 853; 857; 859; 863;
    877; 881; 883; 887; 907; 911; 919; 929; 937; 941; 947; 953; 967; 971; 977; 983; 991; 997;
    1009; 1013; 1019; 1021; 1031; 1033; 1039; 1049; 1051; 1061; 1063; 1069; 1087; 1091; 1093;
    1097; 1103; 1109; 1117; 1123; 1129; 1151; 1153; 1163; 1171; 1181; 1187; 1193; 1201; 1213;
    1217; 1223; 1229; 1231; 1237; 1249; 1259; 1277; 1279; 1283; 1289; 1291; 1297; 1301; 1303;
    1307; 1319; 1321; 1327; 1361; 1367; 1373; 1381; 1399; 1409; 1423; 1427; 1429; 1433; 1439;
    1447; 1451; 1453; 1459; 1471; 1481; 1483; 1487; 1489; 1493; 1499; 1511; 1523; 1531; 1543;
    1549; 1553; 1559; 1567; 1571; 1579; 1583; 1597; 1601; 1607; 1609; 1613; 1619; 1621; 1627;
    1637; 1657; 1663; 1667; 1669; 1693; 1697; 1699; 1709; 1721; 1723; 1733; 1741; 1747; 1753;
    1759; 1777; 1783; 1787; 1789; 1801; 1811; 1823; 1831; 1847; 1861; 1867; 1871; 1873; 1877;
    1879; 1889; 1901; 1907; 1913; 1931; 1933; 1949; 1951; 1973; 1979; 1987; 1993; 1997; 1999;
    2003; 2011; 2017; 2027; 2029; 2039; 2053; 2063; 2069; 2081; 2083; 2087; 2089; 2099; 2111;
    2113; 2129; 2131; 2137; 2141; 2143; 2153; 2161; 2179; 2203; 2207; 2213; 2221; 2237; 2239;
    2243; 2251; 2267; 2269; 2273; 2281; 2287; 2293; 2297; 2309; 2311; 2333; 2339; 2341; 2347;
    2351; 2357; 2371; 2377; 2381; 2383; 2389; 2393; 2399; 2411; 2417; 2423; 2437; 2441; 2447;
    2459; 2467; 2473; 2477; 2503; 2521; 2531; 2539; 2543; 2549; 2551; 2557; 2579; 2591; 2593;
    2609; 2617; 2621; 2633; 2647; 2657; 2659; 2663; 2671; 2677; 2683; 2687; 2689; 2693; 2699;
    2707; 2711; 2713; 2719; 2729; 2731; 2741; 2749; 2753; 2767; 2777; 2789; 2791; 2797; 2801;
    2803; 2819; 2833; 2837; 2843; 2851; 2857; 2861; 2879; 2887; 2897; 2903; 2909; 2917; 2927;
    2939; 2953; 2957; 2963; 2969; 2971; 2999; 3001; 3011; 3019; 3023; 3037; 3041; 3049; 3061;
    3067; 3079; 3083; 3089; 3109; 3119; 3121; 3137; 3163; 3167; 3169; 3181; 3187; 3191; 3203;
    3209; 3217; 3221; 3229; 3251; 3253; 3257; 3259; 3271; 3299; 3301; 3307; 3313; 3319; 3323;
    3329; 3331; 3343; 3347; 3359; 3361; 3371; 3373; 3389; 3391; 3407; 3413; 3433; 3449; 3457;
    3461; 3463; 3467; 3469; 3491; 3499; 3511; 3517; 3527; 3529; 3533; 3539; 3541; 3547; 3557;
    3559; 3571; 3581; 3583; 3593; 3607; 3613; 3617; 3623; 3631; 3637; 3643; 3659; 3671; 3673;
    3677; 3691; 3697; 3701; 3709; 3719; 3727; 3733; 3739; 3761; 3767; 3769; 3779; 3793; 3797;
    3803; 3821; 3823; 3833; 3847; 3851; 3853; 3863; 3877; 3881; 3889; 3907; 3911; 3917; 3919;
    3923; 3929; 3931; 3943; 3947; 3967; 3989; 4001; 4003; 4007; 4013; 4019; 4021; 4027; 4049;
    4051; 4057; 4073; 4079; 4091; 4093; 4099; 4111; 4127; 4129; 4133; 4139; 4153; 4157; 4159;
    4177; 4201; 4211; 4217; 4219; 4229; 4231; 4241; 4243; 4253; 4259; 4261; 4271; 4273; 4283;
    4289; 4297; 4327; 4337; 4339; 4349; 4357; 4363; 4373; 4391; 4397; 4409; 4421; 4423; 4441;
    4447; 4451; 4457; 4463; 4481; 4483; 4493; 4507; 4513; 4517; 4519; 4523; 4547; 4549; 4561;
    4567; 4583; 4591; 4597; 4603; 4621; 4637; 4639; 4643; 4649; 4651; 4657; 4663; 4673; 4679;
    4691; 4703; 4721; 4723; 4729; 4733; 4751; 4759; 4783; 4787; 4789; 4793; 4799; 4801; 4813;
    4817; 4831; 4861; 4871; 4877; 4889; 4903; 4909; 4919; 4931; 4933; 4937; 4943; 4951; 4957;
    4967; 4969; 4973; 4987; 4993; 4999; 5003; 5009; 5011; 5021; 5023; 5039; 5051; 5059; 5077;
    5081; 5087; 5099; 5101; 5107; 5113; 5119; 5147; 5153; 5167; 5171; 5179; 5189; 5197; 5209;
    5227; 5231; 5233; 5237; 5261; 5273; 5279; 5281; 5297; 5303; 5309; 5323; 5333; 5347; 5351;
    5381; 5387; 5393; 5399; 5407; 5413; 5417; 5419; 5431; 5437; 5441; 5443; 5449; 5471; 5477;
    5479; 5483; 5501; 5503; 5507; 5519; 5521; 5527; 5531; 5557; 5563; 5569; 5573; 5581; 5591;
    5623; 5639; 5641; 5647; 5651; 5653; 5657; 5659; 5669; 5683; 5689; 5693; 5701; 5711; 5717;
    5737; 5741; 5743; 5749; 5779; 5783; 5791; 5801; 5807; 5813; 5821; 5827; 5839; 5843; 5849;
    5851; 5857; 5861; 5867; 5869; 5879; 5881; 5897; 5903; 5923; 5927; 5939; 5953; 5981; 5987;
    6007; 6011; 6029; 6037; 6043; 6047; 6053; 6067; 6073; 6079; 6089; 6091; 6101; 6113; 6121;
    6131; 6133; 6143; 6151; 6163; 6173; 6197; 6199; 6203; 6211; 6217; 6221; 6229; 6247; 6257;
    6263; 6269; 6271; 6277; 6287; 6299; 6301; 6311; 6317; 6323; 6329; 6337; 6343; 6353; 6359;
    6361; 6367; 6373; 6379; 6389; 6397; 6421; 6427; 6449; 6451; 6469; 6473; 6481; 6491; 6521;
    6529; 6547; 6551; 6553; 6563; 6569; 6571; 6577; 6581; 6599; 6607; 6619; 6637; 6653; 6659;
    6661; 6673; 6679; 6689; 6691; 6701; 6703; 6709; 6719; 6733; 6737; 6761; 6763; 6779; 6781;
    6791; 6793; 6803; 6823; 6827; 6829; 6833; 6841; 6857; 6863; 6869; 6871; 6883; 6899; 6907;
    6911; 6917; 6947; 6949; 6959; 6961; 6967; 6971; 6977; 6983; 6991; 6997; 7001; 7013; 7019;
    7027; 7039; 7043; 7057; 7069; 7079; 7103; 7109; 7121; 7127; 7129; 7151; 7159; 7177; 7187;
    7193; 7207; 7211; 7213; 7219; 7229; 7237; 7243; 7247; 7253; 7283; 7297; 7307; 7309; 7321;
    7331; 7333; 7349; 7351; 7369; 7393; 7411; 7417; 7433; 7451; 7457; 7459; 7477; 7481; 7487;
    7489; 7499; 7507; 7517; 7523; 7529; 7537; 7541; 7547; 7549; 7559; 7561; 7573; 7577; 7583;
    7589; 7591; 7603; 7607; 7621; 7639; 7643; 7649; 7669; 7673; 7681; 7687; 7691; 7699; 7703;
    7717; 7723; 7727; 7741; 7753; 7757; 7759; 7789; 7793; 7817; 7823; 7829; 7841; 7853; 7867;
    7873; 7877; 7879; 7883; 7901; 7907; 7919; 7927; 7933; 7937; 7949; 7951; 7963; 7993; 8009;
    8011; 8017; 8039; 8053; 8059; 8069; 8081; 8087; 8089; 8093; 8101; 8111; 8117; 8123; 8147;
    8161 ]%Z.

(** [HashPrimes[i] * pIn[i]] is an [unsigned] product. *)
Definition Kit_TruthHash (pIn : list Z) (nWords : nat) : Z :=
  for_up nWords (fun i uHashKey => (uHashKey ^^^ wmul HashPrimes.[i] pIn.[i])%Z) 0%Z.

(** The variables of [Kit_TruthSemiCanonicize] during the sorting. *)
Record canon := { c_arr : arrays; c_perm : list Z; c_store : list Z; c_phase : Z }.

(** [pCanonPerm[i] = i] *)
Definition init_perm (nVars : nat) (pCanonPerm : list Z) : list Z :=
  for_up nVars (fun i p => p.[i <- Z.of_nat i]) pCanonPerm.

(** [// canonicize output] *)
Definition canon_output (nVars : nat) (pIn : list Z) : Z * list Z :=
  let nWords := Kit_TruthWordNum nVars in
  let nOnes := Kit_TruthCountOnes pIn nVars in
  if (Z.of_nat (nWords * 16) <? nOnes)%Z then ((0 ||| (1 <<< nVars))%Z, Kit_TruthNot pIn pIn nVars)
  else (0%Z, pIn).

(** [// canonicize phase] *)
Definition canon_phase (nVars : nat) (pIn pStore : list Z) (uCanonPhase : Z) : list Z * list Z * Z :=
  for_up nVars (fun i '(pIn, pStore, uCanonPhase) =>
    if (pStore.[2 * i + 1] <=? pStore.[2 * i + 0])%Z then (pIn, pStore, uCanonPhase)
    else
      let uCanonPhase := (uCanonPhase ||| (1 <<< i))%Z in
      let Temp := pStore.[2 * i + 0] in
      let pStore := pStore.[2 * i + 0 <- pStore.[2 * i + 1]] in
      let pStore := pStore.[2 * i + 1 <- Temp] in
      (Kit_TruthChangePhase pIn nVars i, pStore, uCanonPhase)) (pIn, pStore, uCanonPhase).

(** The exchange of the variables [i] and [i + 1]. *)
Definition canon_step (nVars i : nat) (s : canon) : canon :=
  let Temp := (c_perm s).[i] in
  let pCanonPerm := (c_perm s).[i <- (c_perm s).[i + 1]] in
  let pCanonPerm := pCanonPerm.[i + 1 <- Temp] in
  let pStore := c_store s in
  let Temp := pStore.[2 * i] in
  let pStore := pStore.[2 * i <- pStore.[2 * (i + 1)]] in
  let pStore := pStore.[2 * (i + 1) <- Temp] in
  let Temp := pStore.[2 * i + 1] in
  let pStore := pStore.[2 * i + 1 <- pStore.[2 * (i + 1) + 1]] in
  let pStore := pStore.[2 * (i + 1) + 1 <- Temp] in
  let uCanonPhase := c_phase s in
  let uCanonPhase :=
    if negb (eqb (0 <? (uCanonPhase &&& (1 <<< i)))%Z (0 <? (uCanonPhase &&& (1 <<< (i + 1))))%Z)
    then ((uCanonPhase ^^^ (1 <<< i)) ^^^ (1 <<< (i + 1)))%Z else uCanonPhase in
  {| c_arr := swap_step nVars i (c_arr s); c_perm := pCanonPerm; c_store := pStore; c_phase := uCanonPhase |}.

(** [fChange = 0; for ( i = 0; i < nVars-1; i++ ) ...] *)
Definition canon_pass (nVars : nat) (s : canon) : bool * canon :=
  for_up (nVars - 1) (fun i '(fChange, s) =>
    if ((c_store s).[2 * (i + 1)] <=? (c_store s).[2 * i])%Z then (fChange, s)
    else (true, canon_step nVars i s)) (false, s).

(** Returns the phase and the arrays [pInOut], [pAux] and [pCanonPerm]; [pStore] is the local
    array of 32 counters. *)
Definition Kit_TruthSemiCanonicize (fuel : nat) (pInOut pAux : list Z) (nVars : nat) (pCanonPerm pStore : list Z) :
    option (Z * list Z * list Z * list Z) :=
  let pCanonPerm := init_perm nVars pCanonPerm in
  let '(uCanonPhase, pIn) := canon_output nVars pInOut in
  let pStore := Kit_TruthCountOnesInCofs pIn nVars pStore in
  let '(pIn, pStore, uCanonPhase) := canon_phase nVars pIn pStore uCanonPhase in
  s ← do_while fuel (canon_pass nVars)
    {| c_arr := {| a_out := pAux; a_in := pIn; a_counter := 0 |};
       c_perm := pCanonPerm; c_store := pStore; c_phase := uCanonPhase |};
  let '(pAux, pInOut) := original_arrays (copy_if (Nat.odd (a_counter (c_arr s))) nVars (c_arr s)) in
  Some (c_phase s, pInOut, pAux, c_perm s).

(** * Counts under permutations of the minterms *)

Lemma cnt_list n f : cnt n f = foldr (fun i c => (Z.b2z (f i) + c)%Z) 0%Z (seq 0 n).
Proof.
  rewrite cnt_sumf. induction n as [|n IH]; [done|]. cbn [sumf]. rewrite seq_S, foldr_app, IH. cbn.
  generalize (Z.b2z (f n)) as c. generalize (seq 0 n) as l.
  induction l as [|i l IHl]; intros c; cbn; [lia|]. rewrite <- IHl. lia.
Qed.

Lemma foldr_perm (g : nat -> Z) l l' :
  Permutation l l' -> foldr (fun i c => (g i + c)%Z) 0%Z l = foldr (fun i c => (g i + c)%Z) 0%Z l'.
Proof. induction 1; cbn; lia. Qed.

Lemma cnt_involution n f pi :
  (forall i, i < n -> pi i < n) -> (forall i, i < n -> pi (pi i) = i) ->
  cnt n (fun i => f (pi i)) = cnt n f.
Proof.
  intros Hlt Hinv. rewrite !cnt_list.
  transitivity (foldr (fun i c => (Z.b2z (f i) + c)%Z) 0%Z (map pi (seq 0 n))).
  { generalize (seq 0 n) as l. induction l as [|i l IH]; [done|]. cbn. by rewrite IH. }
  apply foldr_perm. apply NoDup_Permutation.
  - apply NoDup_fmap_2_strong; [|apply NoDup_seq].
    intros i j Hi Hj He. apply elem_of_seq in Hi, Hj. rewrite <- (Hinv i), <- (Hinv j), He by lia. done.
  - apply NoDup_seq.
  - intros i. rewrite !list_elem_of_In, in_map_iff, in_seq. split.
    + intros (j & <- & Hj). apply in_seq in Hj. specialize (Hlt j). lia.
    + intros Hi. exists (pi i). split; [apply Hinv; lia|]. apply in_seq. specialize (Hlt i). lia.
Qed.

(** Complementing variable [v]. *)
Lemma testbit_flip m v i : Nat.testbit (Nat.lxor m (2 ^ v)) i = xorb (Nat.testbit m i) (v =? i).
Proof. by rewrite Nat.lxor_spec, Nat.pow2_bits_eqb. Qed.

Lemma flip_lt n m v : m < 2 ^ n -> v < n -> Nat.lxor m (2 ^ v) < 2 ^ n.
Proof.
  intros Hm Hv. apply bits_lt_pow2. intros j Hj. rewrite testbit_flip, (testbit_high m n) by done.
  by destruct (Nat.eqb_spec v j); [lia|].
Qed.

Lemma flip_flip m v : Nat.lxor (Nat.lxor m (2 ^ v)) (2 ^ v) = m.
Proof. by rewrite Nat.lxor_assoc, Nat.lxor_nilpotent, Nat.lxor_0_r. Qed.

Section counts.
Context (nVars : nat) (t : list Z) (Ht : is_tt nVars t).

Lemma count_ChangePhase v w c :
  v < nVars -> cof_count nVars (Kit_TruthChangePhase t nVars v) w c = cof_count nVars t w (xorb (v =? w) c).
Proof using Ht.
  intros Hv. unfold cof_count.
  rewrite <- (cnt_involution _ (fun m => eqb (Nat.testbit m w) (xorb (v =? w) c) && tbit t m) (fun m => Nat.lxor m (2 ^ v))).
  - apply cnt_ext. intros m Hm. rewrite tbit_ChangePhase_flip by (done || apply Ht).
    rewrite testbit_flip. by destruct (v =? w), (Nat.testbit m w), c.
  - intros m Hm. apply flip_lt; [done|lia].
  - intros m Hm. apply flip_flip.
Qed.

Lemma count_Swap p v w c :
  S v < nVars -> is_tt nVars p ->
  cof_count nVars (Kit_TruthSwapAdjacentVars p t nVars v) w c = cof_count nVars t (tr v w) c.
Proof using Ht.
  intros Hv Hp. unfold cof_count.
  rewrite <- (cnt_involution _ (fun m => eqb (Nat.testbit m (tr v w)) c && tbit t m) (fun m => swp m v)).
  - apply cnt_ext. intros m Hm. rewrite tbit_Swap by (done || apply Hp). by rewrite swp_spec, tr_tr.
  - intros m Hm. apply swp_lt; [done|lia].
  - intros m Hm. apply Nat.bits_inj. intros i. by rewrite !swp_spec, tr_tr.
Qed.

Lemma count_total v : v < nVars ->
  cnt (nmint nVars) (tbit t) = (cof_count nVars t v false + cof_count nVars t v true)%Z.
Proof using.
  intros Hv. unfold cof_count. rewrite (cnt_split _ _ (fun m => negb (Nat.testbit m v))).
  f_equal; apply cnt_ext; intros m _; by destruct (tbit t m), (Nat.testbit m v).
Qed.
End counts.

Lemma cnt_negb n f : cnt n (fun i => negb (f i)) = (Z.of_nat n - cnt n f)%Z.
Proof. induction n as [|n IH]; [done|]. cbn [cnt]. rewrite IH. destruct (f n); cbn; lia. Qed.

(** * The stages *)

Lemma init_perm_spec nVars p :
  nVars <= length p ->
  length (init_perm nVars p) = length p /\ forall x, x < nVars -> (init_perm nVars p).[x] = Z.of_nat x.
Proof.
  intros Hl. split; [apply length_up; intros; apply length_wr|].
  intros x Hx. unfold init_perm. rewrite (rd_up_const nVars Z.of_nat) by done. by rewrite decide_True.
Qed.

Lemma canon_output_spec nVars t P t1 :
  is_tt nVars t -> nVars <= 31 -> canon_output nVars t = (P, t1) ->
  is_tt nVars t1 /\ is_word P /\
  (forall i, Z.testbit P (Z.of_nat i) = (i =? nVars) && Z.testbit P (Z.of_nat nVars)) /\
  (forall m, m < nmint nVars -> tbit t1 m = xorb (Z.testbit P (Z.of_nat nVars)) (tbit t m)) /\
  (2 * cnt (nmint nVars) (tbit t1) <= Z.of_nat (nmint nVars))%Z.
Proof.
  intros Ht Hn. unfold canon_output. rewrite CountOnes_spec by auto with words.
  assert (Z.of_nat (nmint nVars) = 2 * Z.of_nat (Kit_TruthWordNum nVars * 16))%Z as HN
    by (rewrite nmint_words; lia).
  destruct (Z.ltb_spec (Z.of_nat (Kit_TruthWordNum nVars * 16)) (cnt (nmint nVars) (tbit t))) as [Hc|Hc];
    intros [= <- <-].
  - assert (forall i, Z.testbit (0 ||| (1 <<< nVars)) (Z.of_nat i) = (i =? nVars)) as HP
      by (intros i; rewrite Z.lor_0_l, testbit_pow by lia; done).
    assert (forall m, m < nmint nVars -> tbit (Kit_TruthNot t t nVars) m = negb (tbit t m)) as Hv
      by (intros; apply tbit_Not; [apply Ht|done]).
    split; [auto with words|]. split; [auto with words|]. split; [|split].
    + intros i. rewrite !HP, Nat.eqb_refl. by rewrite andb_true_r.
    + intros m Hm. by rewrite Hv, HP, Nat.eqb_refl.
    + rewrite (cnt_ext _ _ _ Hv), cnt_negb. lia.
  - split; [done|]. split; [auto with words|]. split; [|split].
    + intros i. by rewrite !Z.testbit_0_l, andb_false_r.
    + intros m Hm. by rewrite Z.testbit_0_l, xorb_false_l.
    + lia.
Qed.

Lemma cof_count_ext nVars t u v c :
  (forall m, m < nmint nVars -> tbit t m = tbit u m) -> cof_count nVars t v c = cof_count nVars u v c.
Proof. intros H. apply cnt_ext. intros m Hm. by rewrite H. Qed.

Lemma total_ChangePhase nVars t v :
  v < nVars -> is_tt nVars t ->
  cnt (nmint nVars) (tbit (Kit_TruthChangePhase t nVars v)) = cnt (nmint nVars) (tbit t).
Proof.
  intros Hv Ht. rewrite (count_total nVars _ v), (count_total nVars t v), !count_ChangePhase by done.
  rewrite Nat.eqb_refl. cbn [xorb]. lia.
Qed.

Lemma total_Swap nVars p t v :
  S v < nVars -> is_tt nVars t -> is_tt nVars p ->
  cnt (nmint nVars) (tbit (Kit_TruthSwapAdjacentVars p t nVars v)) = cnt (nmint nVars) (tbit t).
Proof.
  intros Hv Ht Hp.
  rewrite (count_total nVars _ v), (count_total nVars t (S v)), !count_Swap, tr_l by (done || lia). done.
Qed.

(** The counters hold the cofactor counts of the table, whose total is [n]. *)
Definition counted (nVars : nat) (t store : list Z) (n : Z) : Prop :=
  2 * nVars <= length store /\ cnt (nmint nVars) (tbit t) = n /\
  forall v c, v < nVars -> store.[2 * v + Nat.b2n c] = cof_count nVars t v c.

(** [t] at [m] is [t0] at the minterm with the variables of the phase complemented. *)
Definition phase_of (nVars : nat) (P : Z) (m m' : nat) : Prop :=
  forall i, Nat.testbit m' i = xorb (Nat.testbit m i) ((i <? nVars) && Z.testbit P (Z.of_nat i)).

Lemma canon_phase_spec nVars t1 store P0 n :
  nVars <= 31 -> is_tt nVars t1 -> is_word P0 -> counted nVars t1 store n ->
  (forall i, i < nVars -> Z.testbit P0 (Z.of_nat i) = false) ->
  let '(t2, store2, P) := canon_phase nVars t1 store P0 in
  is_tt nVars t2 /\ is_word P /\ counted nVars t2 store2 n /\
  Z.testbit P (Z.of_nat nVars) = Z.testbit P0 (Z.of_nat nVars) /\
  (forall v, v < nVars -> (cof_count nVars t2 v true <= cof_count nVars t2 v false)%Z) /\
  (forall m m', m < nmint nVars -> m' < nmint nVars -> phase_of nVars P m m' -> tbit t2 m = tbit t1 m').
Proof.
  intros Hn Ht HP0 Hc H0. unfold canon_phase. set (body := fun i _ => _).
  set (Inv := fun k (s : list Z * list Z * Z) => let '(t2, store2, P) := s in
    is_tt nVars t2 /\ is_word P /\ counted nVars t2 store2 n /\
    (forall i, k <= i -> Z.testbit P (Z.of_nat i) = Z.testbit P0 (Z.of_nat i)) /\
    (forall v, v < k -> (cof_count nVars t2 v true <= cof_count nVars t2 v false)%Z) /\
    (forall m m', m < nmint nVars -> m' < nmint nVars -> phase_of nVars P m m' -> tbit t2 m = tbit t1 m')).
  assert (Inv nVars (for_up nVars body (t1, store, P0))) as H.
  - apply for_up_ind.
    + split; [done|]. split; [done|]. split; [done|]. split; [done|]. split; [lia|].
      intros m m' Hm Hm' Hp. f_equal. apply Nat.bits_inj. intros i. rewrite Hp.
      destruct (Nat.ltb_spec i nVars); cbn; [rewrite H0 by done|]; by rewrite xorb_false_r.
    + intros i [[t2 st] P] Hi (H1 & H2 & (H3 & H4 & H5) & H6 & H7 & H8). unfold body.
      assert (st.[2 * i + 0] = cof_count nVars t2 i false) as E0 by apply (H5 i false Hi).
      assert (st.[2 * i + 1] = cof_count nVars t2 i true) as E1 by apply (H5 i true Hi).
      destruct (Z.leb_spec st.[2 * i + 1] st.[2 * i + 0]) as [Hle|Hgt].
      * split; [done|]. split; [done|]. split; [done|]. split; [auto with lia|]. split; [|done].
        intros v Hv. destruct (decide (v = i)) as [-> | ]; [lia|apply H7; lia].
      * assert (forall j, Z.testbit (P ||| (1 <<< i)) (Z.of_nat j) = (j =? i) || Z.testbit P (Z.of_nat j)) as HP
          by (intros j; rewrite Z.lor_spec, testbit_pow by lia; apply orb_comm).
        split; [auto with words|]. split; [auto with words|]. split; [|split; [|split]].
        -- split; [by rewrite !length_wr|]. split; [by rewrite total_ChangePhase|].
           intros v c Hv. rewrite count_ChangePhase by done. destruct (Nat.eqb_spec i v) as [<- | Hne].
           ++ destruct c; cbn [Nat.b2n xorb]; rdwr; done.
           ++ rewrite xorb_false_l, <- H5 by done. destruct c; cbn [Nat.b2n]; rdwr; done.
        -- intros j Hj. rewrite HP. destruct (Nat.eqb_spec j i); [lia|]. apply H6. lia.
        -- intros v Hv. rewrite !count_ChangePhase by done.
           destruct (Nat.eqb_spec i v) as [<- | Hne]; [cbn [xorb]; lia|]. apply H7. lia.
        -- intros m m' Hm Hm' Hp. rewrite tbit_ChangePhase_flip by (done || apply H1).
           apply H8; [apply flip_lt; [done|lia]|done|]. intros j. rewrite (Hp j), HP, testbit_flip.
           rewrite (Nat.eqb_sym i j). destruct (Nat.eqb_spec j i) as [-> | ]; cbn [orb].
           ++ rewrite H6, H0, (proj2 (Nat.ltb_lt i nVars)) by lia. by destruct (Nat.testbit m i).
           ++ by rewrite xorb_false_r.
  - destruct (for_up nVars body _) as [[t2 st] P]. destruct H as (H1 & H2 & H3 & H4 & H5 & H6).
    split; [done|]. split; [done|]. split; [done|]. split; [by apply H4|]. done.
Qed.

(** ** Sorting *)

Lemma pos_mask x b : is_word x -> b < 32 -> (0 <? (x &&& (1 <<< b)))%Z = Z.testbit x (Z.of_nat b).
Proof.
  intros Hx Hb. pose proof (mask_bit x b Hb) as H.
  assert (0 <= (x &&& (1 <<< b)))%Z by (apply Z.land_nonneg; left; apply Hx).
  destruct (Z.testbit x (Z.of_nat b)).
  - apply Z.ltb_lt. apply Z.eqb_neq in H. lia.
  - apply Z.ltb_ge. apply Z.eqb_eq in H. lia.
Qed.

Lemma swap_phase_bits P i j :
  is_word P -> S i < 32 ->
  Z.testbit (if negb (eqb (0 <? (P &&& (1 <<< i)))%Z (0 <? (P &&& (1 <<< (i + 1))))%Z)
    then ((P ^^^ (1 <<< i)) ^^^ (1 <<< (i + 1)))%Z else P) (Z.of_nat j) = Z.testbit P (Z.of_nat (tr i j)).
Proof.
  intros HP Hi. rewrite !pos_mask, Nat.add_1_r by (done || lia).
  destruct (negb _) eqn:E.
  - rewrite !Z.lxor_spec, !testbit_pow by lia. unfold tr.
    destruct (Nat.eqb_spec j i) as [-> | ].
    + destruct (Nat.eqb_spec i (S i)); [lia|]. by destruct (Z.testbit P (Z.of_nat i)), (Z.testbit P (Z.of_nat (S i))).
    + destruct (Nat.eqb_spec j (S i)) as [-> | ]; [|by rewrite !xorb_false_r].
      by destruct (Z.testbit P (Z.of_nat i)), (Z.testbit P (Z.of_nat (S i))).
  - unfold tr. destruct (Nat.eqb_spec j i) as [-> | ].
    + by destruct (Z.testbit P (Z.of_nat i)), (Z.testbit P (Z.of_nat (S i))).
    + destruct (Nat.eqb_spec j (S i)) as [-> | ]; [|done].
      by destruct (Z.testbit P (Z.of_nat i)), (Z.testbit P (Z.of_nat (S i))).
Qed.

Section sorting.
Context (nVars : nat) (t2 : list Z) (P2 n : Z) (Hn : nVars <= 31).

Definition canon_inv (s : canon) : Prop :=
  is_word (c_phase s) /\ nVars <= length (c_perm s) /\
  counted nVars (a_in (c_arr s)) (c_store s) n /\
  (forall v, v < nVars ->
     (cof_count nVars (a_in (c_arr s)) v true <= cof_count nVars (a_in (c_arr s)) v false)%Z) /\
  exists f, moved nVars t2 (c_arr s) f /\
    (forall x, x < nVars -> (c_perm s).[f x] = Z.of_nat x) /\
    (forall x, Z.testbit (c_phase s) (Z.of_nat (f x)) = Z.testbit P2 (Z.of_nat x)).

(** Two counters of neighbours exchanged. *)
Lemma rd_store_exchange st i v c :
  2 * nVars <= length st -> S i < nVars -> v < nVars ->
  (c_store (canon_step nVars i {| c_arr := {| a_out := []; a_in := []; a_counter := 0 |};
     c_perm := []; c_store := st; c_phase := 0 |})).[2 * v + Nat.b2n c] = st.[2 * tr i v + Nat.b2n c].
Proof using Hn.
  intros Hl Hi Hv. cbn [canon_step c_store]. unfold tr.
  replace (2 * (i + 1)) with (2 * i + 2) by lia.
  destruct (Nat.eqb_spec v i) as [-> | ]; [|destruct (Nat.eqb_spec v (S i)) as [-> | ]];
    destruct c; cbn [Nat.b2n]; rewrite ?Nat.add_0_r;
    try replace (2 * S i) with (2 * i + 2) by lia;
    try replace (2 * i + 2 + 1) with (2 * i + 3) by lia; rdwr; done.
Qed.

Lemma canon_step_inv i s :
  canon_inv s -> S i < nVars ->
  canon_inv (canon_step nVars i s) /\
  forall v c, v < nVars -> (c_store (canon_step nVars i s)).[2 * v + Nat.b2n c] = (c_store s).[2 * tr i v + Nat.b2n c].
Proof using Hn.
  intros (H1 & H2 & (H3 & H4 & H5) & H6 & f & Hf & Hp & Hph) Hi.
  assert (forall v c, v < nVars -> (c_store (canon_step nVars i s)).[2 * v + Nat.b2n c]
    = (c_store s).[2 * tr i v + Nat.b2n c]) as Hst
    by (intros; by apply rd_store_exchange).
  assert (is_tt nVars (a_in (c_arr s))) as Hin by apply Hf.
  assert (is_tt nVars (a_out (c_arr s))) as Hout by apply Hf.
  split; [|done]. unfold canon_inv, counted.
  split; [|split; [|split; [split; [|split]|split]]]; cbn [canon_step c_store c_arr c_perm c_phase swap_step a_in].
  - case_match; auto with words.
  - by rewrite !length_wr.
  - by rewrite !length_wr.
  - by rewrite total_Swap.
  - intros v c Hv. specialize (Hst v c Hv). cbn [canon_step c_store] in Hst. rewrite Hst, count_Swap by done.
    apply H5, tr_lt; lia.
  - intros v Hv. rewrite !count_Swap by done. apply H6, tr_lt; lia.
  - exists (fun x => tr i (f x)). split; [by apply moved_swap|]. split.
    + intros x Hx. cbn [canon_step c_perm]. rewrite rd_exchange, tr_tr by lia. auto.
    + intros x. cbn [canon_step c_phase]. rewrite swap_phase_bits, tr_tr by (done || lia). auto.
Qed.

Lemma canon_sorts fuel s :
  canon_inv s -> nVars * nVars < fuel ->
  exists r, do_while fuel (canon_pass nVars) s = Some r /\ canon_inv r /\
    forall i, S i < nVars ->
      (cof_count nVars (a_in (c_arr r)) (S i) false <= cof_count nVars (a_in (c_arr r)) i false)%Z.
Proof using Hn.
  intros Hs Hf.
  destruct (bubble_sorts nVars (fun s i => (- (c_store s).[2 * i])%Z)
    (fun i s => ((c_store s).[2 * (i + 1)] <=? (c_store s).[2 * i])%Z) (canon_step nVars) canon_inv)
    with (fuel := fuel) (s := s) as (r & Hr & Hi & Hsort); [| |done|done|].
  - intros i s0 _ _. rewrite Z.leb_le, Nat.add_1_r. lia.
  - intros i s0 H0 Hi _. destruct (canon_step_inv i s0 H0 Hi) as [H1 H2]. split; [done|].
    intros j Hj. specialize (H2 j false Hj). cbn [Nat.b2n] in H2. rewrite !Nat.add_0_r in H2. by rewrite H2.
  - exists r. split; [done|]. split; [done|]. intros i Hi0. specialize (Hsort i Hi0).
    destruct Hi as (_ & _ & (_ & _ & Hst) & _).
    pose proof (Hst i false ltac:(lia)) as E0. pose proof (Hst (S i) false ltac:(lia)) as E1.
    cbn [Nat.b2n] in E0, E1. rewrite Nat.add_0_r in E0, E1. lia.
Qed.
End sorting.

Lemma SemiCanonicize_spec fuel t a nVars p st :
  nVars <= 16 -> is_tt nVars t -> is_tt nVars a -> nVars <= length p -> 2 * nVars <= length st ->
  nVars * nVars < fuel ->
  exists P t' a' p', Kit_TruthSemiCanonicize fuel t a nVars p st = Some (P, t', a', p') /\
    is_tt nVars t' /\
    (forall x, x < nVars -> exists i, i < nVars /\ p'.[i] = Z.of_nat x) /\
    (forall m m', m < nmint nVars -> m' < nmint nVars ->
       (forall i x, i < nVars -> p'.[i] = Z.of_nat x ->
          Nat.testbit m' x = xorb (Nat.testbit m i) (Z.testbit P (Z.of_nat i))) ->
       (forall i, nVars <= i -> Nat.testbit m' i = Nat.testbit m i) ->
       tbit t' m = xorb (Z.testbit P (Z.of_nat nVars)) (tbit t m')) /\
    (2 * cnt (nmint nVars) (tbit t') <= Z.of_nat (nmint nVars))%Z /\
    (forall v, v < nVars -> (cof_count nVars t' v true <= cof_count nVars t' v false)%Z) /\
    (forall i, S i < nVars -> (cof_count nVars t' (S i) false <= cof_count nVars t' i false)%Z).
Proof.
  intros Hn Ht Ha Hp Hs Hf. unfold Kit_TruthSemiCanonicize.
  destruct (init_perm_spec nVars p Hp) as [Hpl Hpx].
  destruct (canon_output nVars t) as [P1 t1] eqn:E1.
  destruct (canon_output_spec _ _ _ _ Ht ltac:(lia) E1) as (Ht1 & HP1 & Hb1 & Hv1 & Htot).
  assert (counted nVars t1 (Kit_TruthCountOnesInCofs t1 nVars st) (cnt (nmint nVars) (tbit t1))) as Hc1.
  { split; [by rewrite length_CountOnesInCofs|]. split; [done|]. intros. by apply CountOnesInCofs_spec. }
  pose proof (canon_phase_spec nVars t1 _ P1 _ ltac:(lia) Ht1 HP1 Hc1) as H2.
  destruct (canon_phase nVars t1 _ P1) as [[t2 st2] P2].
  destruct H2 as (Ht2 & HP2 & Hc2 & Hn2 & Hle2 & Hv2).
  { intros i Hi. rewrite Hb1. by destruct (Nat.eqb_spec i nVars); [lia|]. }
  destruct (canon_sorts nVars t2 P2 (cnt (nmint nVars) (tbit t1)) ltac:(lia) fuel
    {| c_arr := {| a_out := a; a_in := t2; a_counter := 0 |}; c_perm := init_perm nVars p;
       c_store := st2; c_phase := P2 |}) as (r & Hr & Hinv & Hsort); [|done|].
  { split; [done|]. split; [cbn; lia|]. split; [done|]. split; [done|].
    exists (fun i => i). split; [by apply moved_init|]. done. }
  rewrite Hr. cbn [mbind option_bind].
  destruct Hinv as (_ & _ & (_ & Htot' & _) & Hle & f & Hm & Hperm & Hph).
  destruct (original_result _ _ _ _ true Hm) as [H3 H4].
  replace (xorb true (negb (Nat.odd (a_counter (c_arr r))))) with (Nat.odd (a_counter (c_arr r))) in *
    by by destruct (Nat.odd _).
  destruct (original_arrays _) as [a' t']. cbn [fst snd] in *.
  exists (c_phase r), t', a', (c_perm r). split; [done|]. split; [done|].
  assert (forall m, m < nmint nVars -> tbit t' m = tbit (a_in (c_arr r)) m) as He
    by (intros m Hlt; rewrite H4 by done; symmetry; by apply Hm).
  destruct (mv_perm _ _ _ _ Hm) as (F1 & F2 & F3).
  split; [intros x Hx; exists (f x); auto|]. split; [|split; [|split]].
  - intros m m' Hm0 Hm1 Hb1' Hb2'. rewrite H4 by done.
    rewrite (Hv2 _ m') by (apply ren_lt || done ||
      (intros i; rewrite testbit_ren; destruct (Nat.ltb_spec i nVars) as [Hi|Hi]; cbn [andb];
       [rewrite (proj2 (Nat.ltb_lt i (nv nVars))), (Hb1' (f i) i), Hph by (unfold nv; auto; lia); done
       |rewrite Hb2', F2, xorb_false_r by done;
        destruct (Nat.ltb_spec i (nv nVars)); cbn; [done|by apply (testbit_high m (nv nVars))]])).
    rewrite Hv1 by done. f_equal. rewrite <- Hn2, <- Hph, F2; done.
  - rewrite (cnt_ext _ _ _ He), Htot'. done.
  - intros v Hv. rewrite !(cof_count_ext nVars _ _ _ _ He). auto.
  - intros i Hi. rewrite !(cof_count_ext nVars _ _ _ _ He). auto.
Qed.

(** * Hashing *)

(** Multiplication by an odd number is injective on words. *)
Lemma wmul_inj p x y : Z.odd p = true -> is_word x -> is_word y -> wmul p x = wmul p y -> x = y.
Proof.
  intros Hp Hx Hy He. unfold wmul in He. unfold is_word in *.
  assert ((p * (x - y)) mod 2 ^ 32 = 0)%Z as Hz.
  { rewrite Z.mul_sub_distr_l, Zminus_mod, He, Z.sub_diag. done. }
  apply Z.mod_divide in Hz; [|lia].
  apply Z.gauss in Hz.
  - destruct Hz as [k Hk]. lia.
  - rewrite Z.gcd_comm. apply (Z.coprime_pow_r p 2 32); [lia|]. unfold Z.coprime.
    rewrite Z.gcd_comm, <- Z.gcd_mod by lia. rewrite Zmod_odd, Hp. done.
Qed.

Lemma hash_sum pIn n :
  Kit_TruthHash pIn n = for_up n (fun i h => (h ^^^ wmul HashPrimes.[i] pIn.[i])%Z) 0%Z.
Proof. done. Qed.

Lemma is_word_hash pIn n : is_word (Kit_TruthHash pIn n).
Proof.
  rewrite hash_sum. apply (for_up_ind (fun _ => is_word)); [apply word_0|].
  intros i s _ Hs. unfold wmul. auto with words.
Qed.

(** The terms of the other words cancel. *)
Lemma hash_differ p q n i :
  i < n -> (forall j, j < n -> j <> i -> p.[j] = q.[j]) ->
  (Kit_TruthHash p n ^^^ Kit_TruthHash q n)%Z = (wmul HashPrimes.[i] p.[i] ^^^ wmul HashPrimes.[i] q.[i])%Z.
Proof.
  intros Hi Hj. rewrite !hash_sum. induction n as [|n IH]; [lia|]. rewrite !for_up_S.
  set (a := for_up n _ 0%Z) in *. set (b := for_up n (fun i h => h ^^^ wmul HashPrimes.[i] q.[i])%Z 0%Z) in *.
  assert (forall a b x y, (Z.lxor (Z.lxor a x) (Z.lxor b y) = Z.lxor (Z.lxor a b) (Z.lxor x y))%Z) as Hx.
  { intros. apply Z.bits_inj'. intros k _. rewrite !Z.lxor_spec.
    by destruct (Z.testbit a0 k), (Z.testbit b0 k), (Z.testbit x k), (Z.testbit y k). }
  rewrite Hx. destruct (decide (i = n)) as [-> | Hne].
  - assert (a = b) as ->; [|by rewrite Z.lxor_nilpotent, Z.lxor_0_l].
    apply for_up_ext. intros j s Hlt. rewrite Hj by lia. done.
  - rewrite (Hj n), Z.lxor_nilpotent, Z.lxor_0_r by lia. apply IH; [lia|]. intros. apply Hj; lia.
Qed.

Lemma HashPrimes_odd i : 1 <= i < 1024 -> Z.odd HashPrimes.[i] = true.
Proof.
  intros Hi. assert (forallb (fun i => Z.odd HashPrimes.[i]) (seq 1 1023) = true) as H by (vm_compute; done).
  rewrite forallb_forall in H. apply H, in_seq. lia.
Qed.

(** The numbers [lo], [lo + 1], ... *)
Fixpoint zrange (lo : Z) (n : nat) : list Z :=
  match n with
  | O => []
  | S n => lo :: zrange (lo + 1) n
  end.

(** Trial division by the numbers up to 91, enough below [91 * 91]. *)
Definition is_prime (p : Z) : bool :=
  forallb (fun d => (p <=? d)%Z || negb (p mod d =? 0)%Z) (zrange 2 90).

Lemma HashPrimes_primes :
  length HashPrimes = 1024 /\ forallb is_prime HashPrimes = true /\
  forall j, S j < 1024 -> (HashPrimes.[j] < HashPrimes.[S j])%Z.
Proof.
  split; [vm_compute; reflexivity|]. split; [vm_compute; reflexivity|]. intros j Hj.
  assert (forallb (fun j => HashPrimes.[j] <? HashPrimes.[S j])%Z (seq 0 1023) = true) as H
    by (vm_compute; done).
  rewrite forallb_forall in H. apply Z.ltb_lt, H, in_seq. lia.
Qed.

(** * Properties *)

(** C31. Semi-canonicization terminates within [nVars * nVars] passes.  The table it leaves
    is the input with the variables permuted by [pCanonPerm], complemented by the low
    bits of the returned phase, and the output complemented by bit [nVars]; it has at
    most half of its minterms at 1, no variable has more ones in its positive cofactor
    than in its negative one, and the negative counts are sorted downwards. *)
Theorem semi_canonicize_correct fuel (t a : list Z) nVars (p st : list Z) :
  nVars <= 16 -> is_tt nVars t -> is_tt nVars a -> nVars <= length p -> 2 * nVars <= length st ->
  nVars * nVars < fuel ->
  exists P t' a' p', Kit_TruthSemiCanonicize fuel t a nVars p st = Some (P, t', a', p') /\
    is_tt nVars t' /\
    (forall x, x < nVars -> exists i, i < nVars /\ p'.[i] = Z.of_nat x) /\
    (forall m m', m < nmint nVars -> m' < nmint nVars ->
       (forall i x, i < nVars -> p'.[i] = Z.of_nat x ->
          Nat.testbit m' x = xorb (Nat.testbit m i) (Z.testbit P (Z.of_nat i))) ->
       (forall i, nVars <= i -> Nat.testbit m' i = Nat.testbit m i) ->
       tbit t' m = xorb (Z.testbit P (Z.of_nat nVars)) (tbit t m')) /\
    (2 * cnt (nmint nVars) (tbit t') <= Z.of_nat (nmint nVars))%Z /\
    (forall v, v < nVars -> (cof_count nVars t' v true <= cof_count nVars t' v false)%Z) /\
    (forall i, S i < nVars -> (cof_count nVars t' (S i) false <= cof_count nVars t' i false)%Z).
Proof. apply SemiCanonicize_spec. Qed.

Lemma semi_canonicize_correct_witness :
  let st := repeat 0%Z 32 in
  (exists a' p', Kit_TruthSemiCanonicize 10 [0xFEFEFEFE]%Z [0]%Z 3 [0; 0; 0]%Z st = Some (8, [0x01010101], a', p')%Z) /\
  exists P t' a' p', Kit_TruthSemiCanonicize 10 [0xFEFEFEFE]%Z [0]%Z 3 [0; 0; 0]%Z st = Some (P, t', a', p') /\
    is_tt 3 t' /\
    (forall x, x < 3 -> exists i, i < 3 /\ p'.[i] = Z.of_nat x) /\
    (forall m m', m < nmint 3 -> m' < nmint 3 ->
       (forall i x, i < 3 -> p'.[i] = Z.of_nat x ->
          Nat.testbit m' x = xorb (Nat.testbit m i) (Z.testbit P (Z.of_nat i))) ->
       (forall i, 3 <= i -> Nat.testbit m' i = Nat.testbit m i) ->
       tbit t' m = xorb (Z.testbit P (Z.of_nat 3)) (tbit [0xFEFEFEFE]%Z m')) /\
    (2 * cnt (nmint 3) (tbit t') <= Z.of_nat (nmint 3))%Z /\
    (forall v, v < 3 -> (cof_count 3 t' v true <= cof_count 3 t' v false)%Z) /\
    (forall i, S i < 3 -> (cof_count 3 t' (S i) false <= cof_count 3 t' i false)%Z).
Proof.
  intros st. split; [eexists; eexists; reflexivity|].
  apply (semi_canonicize_correct 10 [0xFEFEFEFE]%Z [0]%Z 3 [0; 0; 0]%Z st); first [concrete_tt | cbn; lia].
Defined.

(** The hash table holds 1024 primes in increasing order; the hash is a 32-bit word, and
    two tables that differ in exactly one word, other than the first, have different
    hash values. *)
Theorem hash_correct (p q : list Z) nWords i :
  1 <= i < nWords -> nWords <= 1024 -> Forall is_word p -> Forall is_word q ->
  (forall j, j < nWords -> j <> i -> p.[j] = q.[j]) -> p.[i] <> q.[i] ->
  (length HashPrimes = 1024 /\ forallb is_prime HashPrimes = true /\
   forall j, S j < 1024 -> (HashPrimes.[j] < HashPrimes.[S j])%Z) /\
  is_word (Kit_TruthHash p nWords) /\
  Kit_TruthHash p nWords <> Kit_TruthHash q nWords.
Proof.
  intros Hi Hn Hp Hq Hj Hne. split; [apply HashPrimes_primes|]. split; [apply is_word_hash|]. intros He.
  apply Hne, (wmul_inj HashPrimes.[i]); auto with words; [apply HashPrimes_odd; lia|].
  pose proof (hash_differ p q nWords i ltac:(lia) Hj) as Hd. rewrite He, Z.lxor_nilpotent in Hd.
  by apply Z.lxor_eq.
Qed.

Lemma hash_correct_witness :
  Kit_TruthHash [5; 7]%Z 2 <> Kit_TruthHash [5; 9]%Z 2.
Proof.
  apply (hash_correct [5; 7]%Z [5; 9]%Z 2 1).
  - lia.
  - lia.
  - repeat constructor; vm_compute; congruence.
  - repeat constructor; vm_compute; congruence.
  - intros j Hj Hne. do 2 (destruct j as [|j]; [try done; lia|]). lia.
  - vm_compute. congruence.
Defined.
