(* ===== verification/VecInt.v ===== *)
(** The part of [Vec_Int_t] ([vecInt.h]) that the cover computations use as a memory
    manager: a buffer whose regions are handed out in order and never returned.

    [Vec_IntFetch] returns a pointer to a fresh region of the buffer.  The regions are
    disjoint, so a region is modelled by a list of its own, whose first contents are the
    words that the buffer holds at its place, whatever they are; what is kept of the buffer
    is its size and capacity, on which success depends, and [pArray], its first contents and,
    once a cover has been moved there, the cubes. *)
From S2P Require Import Prelude Words.

Record Vec_Int_t := { nCap : Z; nSize : Z; pArray : list Z }.

Definition Vec_IntGrow (p : Vec_Int_t) (nCapMin : Z) : Vec_Int_t :=
  if (nCapMin <=? nCap p)%Z then p
  else {| nCap := nCapMin; nSize := nSize p; pArray := pArray p |}.

Definition Vec_IntClear (p : Vec_Int_t) : Vec_Int_t :=
  {| nCap := nCap p; nSize := 0; pArray := pArray p |}.

Definition Vec_IntShrink (p : Vec_Int_t) (nSizeNew : Z) : option Vec_Int_t :=
  assert! (nSizeNew <=? nSize p)%Z in
  Some {| nCap := nCap p; nSize := nSizeNew; pArray := pArray p |}.

(** [None] is the null pointer: for no words at all, and when the capacity is exceeded (the
    size has then been advanced all the same).  The number of words is a number of cubes or
    of words of a table wherever it is called, so that it is not negative.  The integers of
    the buffer are read as unsigned words. *)
Definition Vec_IntFetch (p : Vec_Int_t) (nWords : Z) : option (list Z) * Vec_Int_t :=
  if (nWords =? 0)%Z then (None, p)
  else
    let p := {| nCap := nCap p; nSize := (nSize p + nWords)%Z; pArray := pArray p |} in
    if (nCap p <? nSize p)%Z then (None, p)
    else (Some (map (fun i => ((pArray p).[Z.to_nat (nSize p - nWords) + i] mod 2 ^ 32)%Z) (seq 0 (Z.to_nat nWords))), p).

(** [memmove( p->pArray, pData, ... )] followed by [Vec_IntShrink] to the number of words that were moved; they were
    fetched from the buffer before, so that its size is not smaller. *)
Definition Vec_IntMoveTo (p : Vec_Int_t) (pData : list Z) : Vec_Int_t :=
  {| nCap := nCap p; nSize := Z.of_nat (length pData); pArray := pData |}.

(** * Lemmas *)

(** [p'] is [p] after fetching [n] words. *)
Definition fetched (p p' : Vec_Int_t) (n : Z) : Prop :=
  nCap p' = nCap p /\ pArray p' = pArray p /\ nSize p' = (nSize p + n)%Z.

Lemma fetched_0 p : fetched p p 0.
Proof. repeat split. lia. Qed.

Lemma fetched_trans p p' p'' m n : fetched p p' m -> fetched p' p'' n -> fetched p p'' (m + n).
Proof. intros (H1 & H2 & H3) (H4 & H5 & H6). repeat split; [congruence..|lia]. Qed.

Lemma Vec_IntFetch_fetched p n r p' : Vec_IntFetch p n = (r, p') -> fetched p p' n.
Proof.
  unfold Vec_IntFetch. destruct (Z.eqb_spec n 0) as [-> | ]; [intros [= <- <-]; apply fetched_0|].
  cbn [nCap nSize]. by destruct (_ <? _)%Z; intros [= <- <-].
Qed.

Lemma Vec_IntFetch_Some p n :
  (0 < n)%Z -> (nSize p + n <= nCap p)%Z ->
  exists r p', Vec_IntFetch p n = (Some r, p') /\ length r = Z.to_nat n.
Proof.
  intros Hn Hc. unfold Vec_IntFetch. destruct (Z.eqb_spec n 0); [lia|]. cbn [nCap nSize].
  destruct (Z.ltb_spec (nCap p) (nSize p + n)); [lia|]. eexists _, _. split; [done|]. by rewrite length_map, length_seq.
Qed.

Lemma Vec_IntFetch_None p n p' :
  (0 < n)%Z -> Vec_IntFetch p n = (None, p') -> (nCap p < nSize p + n)%Z.
Proof.
  intros Hn. unfold Vec_IntFetch. destruct (Z.eqb_spec n 0); [lia|]. cbn [nCap nSize].
  by destruct (Z.ltb_spec (nCap p) (nSize p + n)).
Qed.

Lemma Vec_IntFetch_region p n r p' :
  Vec_IntFetch p n = (Some r, p') -> length r = Z.to_nat n /\ Forall is_word r /\ (nSize p + n <= nCap p)%Z.
Proof.
  unfold Vec_IntFetch. destruct (n =? 0)%Z; [done|]. cbn [nCap nSize].
  destruct (Z.ltb_spec (nCap p) (nSize p + n)); intros [= <- _]. split; [by rewrite length_map, length_seq|]. split; [|done].
  apply List.Forall_map, List.Forall_forall. intros i _. unfold is_word. apply Z.mod_pos_bound. lia.
Qed.
