(* ===== verification/VecArray.v ===== *)
(** Arrays of integers that grow ([vecInt.h]): creating, reading, pushing, inserting, removing
    and searching.

    The buffer of [nCap] integers is the list of its first words; the others have not been
    written yet and have no place in the list.  A write at the end of the list adds a word.
    Entries are C [int]s: no routine here computes with them, except the sums, whose
    overflow is not modelled. *)
From S2P Require Import Prelude VecInt.

Definition ABC_INT_MAX : Z := 2147483647.

(** [pArray[i] = x] *)
Definition put (a : list Z) (i : nat) (x : Z) : list Z :=
  if i <? length a then a.[i <- x] else a ++ repeat 0%Z (i - length a) ++ [x].

Definition with_array (p : Vec_Int_t) (a : list Z) : Vec_Int_t := {| nCap := nCap p; nSize := nSize p; pArray := a |}.
Definition with_size (p : Vec_Int_t) (n : Z) : Vec_Int_t := {| nCap := nCap p; nSize := n; pArray := pArray p |}.

(** The number of entries as a natural number, and the entry at a place. *)
Definition vsize (p : Vec_Int_t) : nat := Z.to_nat (nSize p).
Definition ent (p : Vec_Int_t) (i : nat) : Z := (pArray p).[i].

(** * Creation *)

Definition Vec_IntAlloc (nCap : Z) : Vec_Int_t :=
  let nCap := if (0 <? nCap)%Z && (nCap <? 16)%Z then 16%Z else nCap in
  {| VecInt.nCap := nCap; nSize := 0; pArray := [] |}.

Definition Vec_IntStart (nSize : nat) : Vec_Int_t :=
  let p := with_size (Vec_IntAlloc (Z.of_nat nSize)) (Z.of_nat nSize) in
  with_array p (repeat 0%Z nSize).

(** All bytes [0xff]. *)
Definition Vec_IntStartFull (nSize : nat) : Vec_Int_t :=
  let p := with_size (Vec_IntAlloc (Z.of_nat nSize)) (Z.of_nat nSize) in
  with_array p (repeat (-1)%Z nSize).

Definition Vec_IntStartRange (First : Z) (Range : nat) : Vec_Int_t :=
  let p := with_size (Vec_IntAlloc (Z.of_nat Range)) (Z.of_nat Range) in
  with_array p (for_up Range (fun i a => put a i (First + Z.of_nat i)%Z) (pArray p)).

Definition Vec_IntStartNatural (nSize : nat) : Vec_Int_t :=
  let p := with_size (Vec_IntAlloc (Z.of_nat nSize)) (Z.of_nat nSize) in
  with_array p (for_up nSize (fun i a => put a i (Z.of_nat i)) (pArray p)).

(** * Entries *)

Definition in_size (p : Vec_Int_t) (i : Z) : bool := (0 <=? i)%Z && (i <? nSize p)%Z.

Definition Vec_IntEntry (p : Vec_Int_t) (i : Z) : option Z :=
  if in_size p i then Some (ent p (Z.to_nat i)) else None.
Definition Vec_IntWriteEntry (p : Vec_Int_t) (i Entry : Z) : option Vec_Int_t :=
  if in_size p i then Some (with_array p (put (pArray p) (Z.to_nat i) Entry)) else None.
Definition Vec_IntAddToEntry (p : Vec_Int_t) (i Addition : Z) : option (Z * Vec_Int_t) :=
  if in_size p i then
    let x := (ent p (Z.to_nat i) + Addition)%Z in
    Some (x, with_array p (put (pArray p) (Z.to_nat i) x))
  else None.
Definition Vec_IntUpdateEntry (p : Vec_Int_t) (i Value : Z) : option Vec_Int_t :=
  e ← Vec_IntEntry p i; if (e <? Value)%Z then Vec_IntWriteEntry p i Value else Some p.
Definition Vec_IntDowndateEntry (p : Vec_Int_t) (i Value : Z) : option Vec_Int_t :=
  e ← Vec_IntEntry p i; if (Value <? e)%Z then Vec_IntWriteEntry p i Value else Some p.
Definition Vec_IntEntryLast (p : Vec_Int_t) : option Z :=
  if (0 <? nSize p)%Z then Some (ent p (vsize p - 1)) else None.

(** * Filling *)

Definition Vec_IntFill (p : Vec_Int_t) (nSize : nat) (Fill : Z) : Vec_Int_t :=
  let p := Vec_IntGrow p (Z.of_nat nSize) in
  with_size (with_array p (for_up nSize (fun i a => put a i Fill) (pArray p))) (Z.of_nat nSize).
Definition Vec_IntFillTwo (p : Vec_Int_t) (nSize : nat) (FillEven FillOdd : Z) : Vec_Int_t :=
  let p := Vec_IntGrow p (Z.of_nat nSize) in
  with_size (with_array p (for_up nSize (fun i a => put a i (if Nat.odd i then FillOdd else FillEven)) (pArray p)))
    (Z.of_nat nSize).
Definition Vec_IntFillNatural (p : Vec_Int_t) (nSize : nat) : Vec_Int_t :=
  let p := Vec_IntGrow p (Z.of_nat nSize) in
  with_size (with_array p (for_up nSize (fun i a => put a i (Z.of_nat i)) (pArray p))) (Z.of_nat nSize).

(** [p->nCap < ABC_INT_MAX/2 ? 2 * p->nCap : ABC_INT_MAX] *)
Definition doubled (p : Vec_Int_t) : Z :=
  if (nCap p <? ABC_INT_MAX / 2)%Z then (2 * nCap p)%Z else ABC_INT_MAX.

Definition Vec_IntFillExtra (p : Vec_Int_t) (nSize : Z) (Fill : Z) : Vec_Int_t :=
  if (nSize <=? VecInt.nSize p)%Z then p else
  let p :=
    if (2 * nCap p <? nSize)%Z then Vec_IntGrow p nSize
    else if (nCap p <? nSize)%Z then Vec_IntGrow p (doubled p)
    else p in
  with_size (with_array p (for_range (vsize p) (Z.to_nat nSize) (fun i a => put a i Fill) (pArray p))) nSize.

(** The entry and the array, which may have grown. *)
Definition Vec_IntGetEntry (p : Vec_Int_t) (i : Z) : option (Z * Vec_Int_t) :=
  let p := Vec_IntFillExtra p (i + 1) 0 in e ← Vec_IntEntry p i; Some (e, p).
Definition Vec_IntGetEntryFull (p : Vec_Int_t) (i : Z) : option (Z * Vec_Int_t) :=
  let p := Vec_IntFillExtra p (i + 1) (-1) in e ← Vec_IntEntry p i; Some (e, p).
Definition Vec_IntSetEntry (p : Vec_Int_t) (i Entry : Z) : option Vec_Int_t :=
  let p := Vec_IntFillExtra p (i + 1) 0 in Vec_IntWriteEntry p i Entry.
Definition Vec_IntSetEntryFull (p : Vec_Int_t) (i Entry : Z) : option Vec_Int_t :=
  let p := Vec_IntFillExtra p (i + 1) (-1) in Vec_IntWriteEntry p i Entry.

(** * Pushing *)

(** The growth that the pushing routines begin with. *)
Definition make_room (p : Vec_Int_t) : Vec_Int_t :=
  if (nSize p =? nCap p)%Z then
    if (nCap p <? 16)%Z then Vec_IntGrow p 16 else Vec_IntGrow p (doubled p)
  else p.

Definition Vec_IntPush (p : Vec_Int_t) (Entry : Z) : Vec_Int_t :=
  let p := make_room p in
  with_size (with_array p (put (pArray p) (vsize p) Entry)) (nSize p + 1).
Definition Vec_IntPushReturn (p : Vec_Int_t) (Entry : Z) : Z * Vec_Int_t := (Entry, Vec_IntPush p Entry).
Definition Vec_IntPushTwo (p : Vec_Int_t) (Entry1 Entry2 : Z) : Vec_Int_t :=
  Vec_IntPush (Vec_IntPush p Entry1) Entry2.
Definition Vec_IntPushThree (p : Vec_Int_t) (Entry1 Entry2 Entry3 : Z) : Vec_Int_t :=
  Vec_IntPush (Vec_IntPush (Vec_IntPush p Entry1) Entry2) Entry3.
Definition Vec_IntPushFour (p : Vec_Int_t) (Entry1 Entry2 Entry3 Entry4 : Z) : Vec_Int_t :=
  Vec_IntPush (Vec_IntPush (Vec_IntPush (Vec_IntPush p Entry1) Entry2) Entry3) Entry4.
Definition Vec_IntPushArray (p : Vec_Int_t) (pEntries : list Z) (nEntries : nat) : Vec_Int_t :=
  for_up nEntries (fun i p => Vec_IntPush p pEntries.[i]) p.

Definition Vec_IntPushFirst (p : Vec_Int_t) (Entry : Z) : Vec_Int_t :=
  let p := make_room p in
  let p := with_size p (nSize p + 1) in
  let a := for_down (vsize p - 1) (fun i a => put a (i + 1) a.[i]) (pArray p) in
  with_array p (put a 0 Entry).

(** [for ( i = p->nSize-2; i >= 0; i-- ) if ( c ) p->pArray[i+1] = p->pArray[i]; else break;]
    for [k = i + 1] entries: the array and the place where the loop stops. *)
Fixpoint shift_while (c : Z -> bool) (k : nat) (a : list Z) : list Z * nat :=
  match k with
  | O => (a, 0)
  | S i => if c a.[i] then shift_while c i (put a (i + 1) a.[i]) else (a, k)
  end.

(** The insertion routines differ by the entries that [Entry] goes before. *)
Definition push_before (c : Z -> bool) (p : Vec_Int_t) (Entry : Z) : Vec_Int_t :=
  let p := make_room p in
  let p := with_size p (nSize p + 1) in
  let '(a, i) := shift_while c (vsize p - 1) (pArray p) in
  with_array p (put a i Entry).

Definition Vec_IntPushOrder (p : Vec_Int_t) (Entry : Z) : Vec_Int_t :=
  push_before (fun x => (Entry <? x)%Z) p Entry.
Definition Vec_IntPushOrderReverse (p : Vec_Int_t) (Entry : Z) : Vec_Int_t :=
  push_before (fun x => (x <? Entry)%Z) p Entry.
(** For entries that are places of [vCost]. *)
Definition Vec_IntPushOrderCost (p : Vec_Int_t) (Entry : Z) (vCost : Vec_Int_t) : Vec_Int_t :=
  push_before (fun x => (ent vCost (Z.to_nat Entry) <? ent vCost (Z.to_nat x))%Z) p Entry.

(** [for ( i = from; i < p->nSize; i++ ) if ( p->pArray[i] == Entry ) break;] *)
Definition first_place (p : Vec_Int_t) (from : nat) (Entry : Z) : option nat :=
  find (fun i => (ent p i =? Entry)%Z) (seq from (vsize p - from)).

Definition Vec_IntPushUnique (p : Vec_Int_t) (Entry : Z) : bool * Vec_Int_t :=
  if first_place p 0 Entry is Some _ then (true, p) else (false, Vec_IntPush p Entry).
Definition Vec_IntPushUniqueOrder (p : Vec_Int_t) (Entry : Z) : bool * Vec_Int_t :=
  if first_place p 0 Entry is Some _ then (true, p) else (false, Vec_IntPushOrder p Entry).
Definition Vec_IntPushUniqueOrderCost (p : Vec_Int_t) (Entry : Z) (vCost : Vec_Int_t) : bool * Vec_Int_t :=
  if first_place p 0 Entry is Some _ then (true, p) else (false, Vec_IntPushOrderCost p Entry vCost).

(** * Removing and inserting *)

Definition Vec_IntPop (p : Vec_Int_t) : option (Z * Vec_Int_t) :=
  if (0 <? nSize p)%Z then Some (ent p (vsize p - 1), with_size p (nSize p - 1)) else None.

Definition Vec_IntFind (p : Vec_Int_t) (Entry : Z) : Z :=
  if first_place p 0 Entry is Some i then Z.of_nat i else (-1)%Z.

(** [for ( i++; i < p->nSize; i++ ) p->pArray[i-1] = p->pArray[i]; p->nSize--;] *)
Definition remove_place (p : Vec_Int_t) (i : nat) : Vec_Int_t :=
  with_size (with_array p (for_range (i + 1) (vsize p) (fun i a => put a (i - 1) a.[i]) (pArray p))) (nSize p - 1).

Definition Vec_IntRemove (p : Vec_Int_t) (Entry : Z) : bool * Vec_Int_t :=
  if first_place p 0 Entry is Some i then (true, remove_place p i) else (false, p).
Definition Vec_IntRemove1 (p : Vec_Int_t) (Entry : Z) : bool * Vec_Int_t :=
  if first_place p 1 Entry is Some i then (true, remove_place p i) else (false, p).

Definition Vec_IntDrop (p : Vec_Int_t) (i : Z) : option Vec_Int_t :=
  if in_size p i then
    let p := with_size p (nSize p - 1) in
    Some (with_array p (for_range (Z.to_nat i) (vsize p) (fun k a => put a k a.[k + 1]) (pArray p)))
  else None.

Definition Vec_IntInsert (p : Vec_Int_t) (iHere Entry : Z) : option Vec_Int_t :=
  if (0 <=? iHere)%Z && (iHere <=? nSize p)%Z then
    let p := Vec_IntPush p 0 in
    let here := Z.to_nat iHere in
    let a := for_down (vsize p - 1 - here) (fun i a => put a (here + i + 1) a.[here + i]) (pArray p) in
    Some (with_array p (put a here Entry))
  else None.

Definition Vec_IntReverseOrder (p : Vec_Int_t) : Vec_Int_t :=
  with_array p (for_up (vsize p / 2) (fun i a =>
    let Temp := a.[i] in
    let a := put a i a.[vsize p - 1 - i] in
    put a (vsize p - 1 - i) Temp) (pArray p)).

Definition Vec_IntRemoveOdd (p : Vec_Int_t) : option Vec_Int_t :=
  if Z.even (nSize p) then
    let p := with_size p (nSize p / 2) in
    Some (with_array p (for_up (vsize p) (fun i a => put a i a.[2 * i]) (pArray p)))
  else None.
Definition Vec_IntRemoveEven (p : Vec_Int_t) : option Vec_Int_t :=
  if Z.even (nSize p) then
    let p := with_size p (nSize p / 2) in
    Some (with_array p (for_up (vsize p) (fun i a => put a i a.[2 * i + 1]) (pArray p)))
  else None.

(** * Searching and counting *)

Definition Vec_IntFindMax (p : Vec_Int_t) : Z :=
  if (nSize p =? 0)%Z then 0%Z
  else for_range 1 (vsize p) (fun i Best => if (Best <? ent p i)%Z then ent p i else Best) (ent p 0).
Definition Vec_IntArgMax (p : Vec_Int_t) : Z :=
  if (nSize p =? 0)%Z then (-1)%Z
  else (for_range 1 (vsize p) (fun i '(Best, Arg) =>
    if (Best <? ent p i)%Z then (ent p i, Z.of_nat i) else (Best, Arg)) (ent p 0, 0%Z)).2.
Definition Vec_IntFindMin (p : Vec_Int_t) : Z :=
  if (nSize p =? 0)%Z then 0%Z
  else for_range 1 (vsize p) (fun i Best => if (ent p i <? Best)%Z then ent p i else Best) (ent p 0).
Definition Vec_IntArgMin (p : Vec_Int_t) : Z :=
  if (nSize p =? 0)%Z then 0%Z
  else (for_range 1 (vsize p) (fun i '(Best, Arg) =>
    if (ent p i <? Best)%Z then (ent p i, Z.of_nat i) else (Best, Arg)) (ent p 0, 0%Z)).2.

(** [for ( i = 0; i < p->nSize; i++ ) Counter += ...;] *)
Definition sum_entries (f : Z -> Z) (p : Vec_Int_t) : Z :=
  for_up (vsize p) (fun i Counter => (Counter + f (ent p i))%Z) 0%Z.
Definition Vec_IntSum (p : Vec_Int_t) : Z := sum_entries (fun x => x) p.
Definition Vec_IntCountEntry (p : Vec_Int_t) (Entry : Z) : Z := sum_entries (fun x => Z.b2z (x =? Entry)%Z) p.
Definition Vec_IntCountLarger (p : Vec_Int_t) (Entry : Z) : Z := sum_entries (fun x => Z.b2z (Entry <? x)%Z) p.
Definition Vec_IntCountSmaller (p : Vec_Int_t) (Entry : Z) : Z := sum_entries (fun x => Z.b2z (x <? Entry)%Z) p.
Definition Vec_IntCountPositive (p : Vec_Int_t) : Z := sum_entries (fun x => Z.b2z (0 <? x)%Z) p.
Definition Vec_IntCountZero (p : Vec_Int_t) : Z := sum_entries (fun x => Z.b2z (x =? 0)%Z) p.
Definition Vec_IntAddPositive (p : Vec_Int_t) : Z := sum_entries (fun x => if (0 <? x)%Z then x else 0%Z) p.

Definition Vec_IntEqual (p1 p2 : Vec_Int_t) : bool :=
  (nSize p1 =? nSize p2)%Z && forallb (fun i => (ent p1 i =? ent p2 i)%Z) (seq 0 (vsize p1)).
Definition Vec_IntContained (pSmall pLarge : Vec_Int_t) : bool :=
  forallb (fun i => existsb (fun k => (ent pSmall i =? ent pLarge k)%Z) (seq 0 (vsize pLarge))) (seq 0 (vsize pSmall)).

(** * Making arrays from arrays *)

(** [Vec_IntForEachEntry( p, Entry, i ) ...] with a body that can fail an assertion. *)
Definition for_each {A} (p : Vec_Int_t) (body : nat -> Z -> A -> option A) (a : A) : option A :=
  for_up (vsize p) (fun i s => s ← s; body i (ent p i) s) (Some a).

Definition Vec_IntInvert (p : Vec_Int_t) (Fill : Z) : option Vec_Int_t :=
  let vRes := Vec_IntAlloc 0 in
  if (nSize p =? 0)%Z then Some vRes else
  let vRes := Vec_IntFill vRes (Z.to_nat (Vec_IntFindMax p + 1)) Fill in
  for_each p (fun i Entry vRes =>
    if negb (Entry =? Fill)%Z then Vec_IntWriteEntry vRes Entry (Z.of_nat i) else Some vRes) vRes.

Definition Vec_IntCondense (p : Vec_Int_t) (Fill : Z) : Vec_Int_t :=
  for_up (vsize p) (fun i vRes => if negb (ent p i =? Fill)%Z then Vec_IntPush vRes (ent p i) else vRes)
    (Vec_IntAlloc (nSize p)).

Definition Vec_IntCountCommon (p1 p2 : Vec_Int_t) : option Z :=
  let '(p1, p2) := if (nSize p1 <? nSize p2)%Z then (p2, p1) else (p1, p2) in
  vTemp ← Vec_IntInvert p2 (-1);
  let vTemp := Vec_IntFillExtra vTemp (Vec_IntFindMax p1 + 1) (-1) in
  for_each p1 (fun _ Entry Counter =>
    e ← Vec_IntEntry vTemp Entry; Some (if (0 <=? e)%Z then (Counter + 1)%Z else Counter)) 0%Z.

Definition Vec_IntAppend (vVec1 vVec2 : Vec_Int_t) : Vec_Int_t :=
  for_up (vsize vVec2) (fun i v => Vec_IntPush v (ent vVec2 i)) vVec1.
Definition Vec_IntClearAppend (vVec1 vVec2 : Vec_Int_t) : Vec_Int_t :=
  for_up (vsize vVec2) (fun i v => Vec_IntPush v (ent vVec2 i)) (Vec_IntClear vVec1).
Definition Vec_IntAppendSkip (vVec1 vVec2 : Vec_Int_t) (iVar : nat) : Vec_Int_t :=
  for_up (vsize vVec2) (fun i v => if negb (i =? iVar) then Vec_IntPush v (ent vVec2 i) else v) vVec1.
Definition Vec_IntAppendMinus (vVec1 vVec2 : Vec_Int_t) (fMinus : bool) : Vec_Int_t :=
  for_up (vsize vVec2) (fun i v => Vec_IntPush v (if fMinus then - ent vVec2 i else ent vVec2 i)%Z) (Vec_IntClear vVec1).

(** * Arrays that hold a list *)

(** The invariant of an array and the entries it holds. *)
Record vec (p : Vec_Int_t) (xs : list Z) : Prop := {
  vec_size : nSize p = Z.of_nat (length xs);
  vec_room : length xs <= length (pArray p);
  vec_ent : forall i, i < length xs -> ent p i = xs.[i];
  vec_cap : (Z.of_nat (length xs) <= nCap p <= ABC_INT_MAX)%Z;
}.

Lemma rd_app l r j : (l ++ r).[j] = if j <? length l then l.[j] else r.[j - length l].
Proof. unfold rd. destruct (Nat.ltb_spec j (length l)); [by apply app_nth1|by apply app_nth2]. Qed.
Lemma rd_take k l j : (take k l).[j] = if j <? k then l.[j] else 0%Z.
Proof. rewrite !rd_lookup, lookup_take. destruct (Nat.ltb_spec j k); [by rewrite decide_True|by rewrite decide_False by lia]. Qed.
Lemma rd_past l j : length l <= j -> l.[j] = 0%Z.
Proof. intros H. rewrite rd_lookup, lookup_ge_None_2 by done. done. Qed.
Lemma rd_cons x l j : (x :: l).[j] = if j =? 0 then x else l.[j - 1].
Proof. destruct j as [|j]; [done|]. cbn. by rewrite Nat.sub_0_r. Qed.
Create Rewrite HintDb rd.
#[export] Hint Rewrite rd_app rd_take rd_drop rd_cons : rd.

Lemma rd_in l i : i < length l -> l !! i = Some l.[i].
Proof. intros Hi. rewrite rd_lookup. by destruct (lookup_lt_is_Some_2 l i Hi) as [x ->]. Qed.

Lemma elem_rd l x : x ∈ l <-> exists i, i < length l /\ l.[i] = x.
Proof.
  rewrite list_elem_of_lookup. split; intros (i & H).
  - exists i. split; [by eapply lookup_lt_Some|]. by rewrite rd_lookup, H.
  - destruct H as [Hi <-]. exists i. by apply rd_in.
Qed.

Lemma length_put a i x : length (put a i x) = Nat.max (length a) (S i).
Proof.
  unfold put. destruct (Nat.ltb_spec i (length a)); [rewrite length_wr; lia|].
  rewrite !length_app, repeat_length. cbn. lia.
Qed.

Lemma rd_put a i x j : (put a i x).[j] = if j =? i then x else a.[j].
Proof.
  unfold put. destruct (Nat.ltb_spec i (length a)).
  - destruct (Nat.eqb_spec j i) as [-> | ]; [by apply rd_wr_eq|by apply rd_wr_ne].
  - rewrite !rd_app, repeat_length. destruct (Nat.ltb_spec j (length a)), (Nat.eqb_spec j i); try lia.
    + subst j. destruct (Nat.ltb_spec (i - length a) (i - length a)); [lia|]. by rewrite Nat.sub_diag.
    + rewrite (rd_past a) by done. destruct (Nat.ltb_spec (j - length a) (i - length a)).
      * unfold rd. by rewrite nth_repeat.
      * apply rd_past. cbn. lia.
Qed.

Lemma vec_list p xs : vec p xs -> take (vsize p) (pArray p) = xs.
Proof.
  intros [H1 H2 H3 _]. unfold vsize. rewrite H1, Nat2Z.id. apply list_eq_rd.
  - rewrite length_take. lia.
  - intros i Hi. rewrite length_take in Hi. rewrite rd_take, (proj2 (Nat.ltb_lt _ _)) by lia. apply H3. lia.
Qed.

Lemma vec_length p xs : vec p xs -> vsize p = length xs.
Proof. intros [H _ _ _]. unfold vsize. lia. Qed.

(** Goals on places: rewrite, split the comparisons, and compare the places. *)
Ltac by_places :=
  autorewrite with rd; cbn [length];
  repeat match goal with
  | |- context [?x <? ?y] => destruct (Nat.ltb_spec x y)
  | |- context [?x =? ?y] => destruct (Nat.eqb_spec x y)
  end; try done; try lia; try (f_equal; lia).

(** * Growing and pushing *)

Lemma Grow_vec p xs n : vec p xs -> (n <= ABC_INT_MAX)%Z ->
  vec (Vec_IntGrow p n) xs /\ pArray (Vec_IntGrow p n) = pArray p /\ nSize (Vec_IntGrow p n) = nSize p /\
  (n <= nCap (Vec_IntGrow p n))%Z.
Proof.
  intros [H1 H2 H3 H4] Hn. unfold Vec_IntGrow. destruct (Z.leb_spec n (nCap p)); [done|].
  split; [|done]. constructor; cbn [nSize pArray nCap]; [done..|lia].
Qed.

Lemma make_room_vec p xs : vec p xs -> (Z.of_nat (length xs) < ABC_INT_MAX)%Z ->
  vec (make_room p) xs /\ pArray (make_room p) = pArray p /\ nSize (make_room p) = nSize p /\
  (nSize p < nCap (make_room p))%Z.
Proof.
  intros H Hn. pose proof H as [H1 _ _ H4]. unfold make_room.
  destruct (Z.eqb_spec (nSize p) (nCap p)) as [E|E]; [|repeat (split; [done|]); lia].
  assert (exists n, (if (nCap p <? 16)%Z then Vec_IntGrow p 16 else Vec_IntGrow p (doubled p)) = Vec_IntGrow p n /\
    (nCap p < n <= ABC_INT_MAX)%Z) as (n & -> & Hlt & Hmax).
  { destruct (Z.ltb_spec (nCap p) 16); eexists; (split; [done|]); [unfold ABC_INT_MAX in *; lia|].
    unfold doubled, ABC_INT_MAX in *. change (2147483647 / 2)%Z with 1073741823%Z.
    destruct (Z.ltb_spec (nCap p) 1073741823); lia. }
  destruct (Grow_vec p xs n H Hmax) as (G1 & G2 & G3 & G4). repeat (split; [done|]). lia.
Qed.

(** The routines that make the list [ys] from the list [xs], writing only inside the buffer. *)
Lemma vec_changed p a ys n :
  n = Z.of_nat (length ys) -> length ys <= length a -> (n <= nCap p <= ABC_INT_MAX)%Z ->
  (forall i, i < length ys -> a.[i] = ys.[i]) -> vec {| nCap := nCap p; nSize := n; pArray := a |} ys.
Proof. intros -> Hl Hc H. by constructor. Qed.

Lemma Push_vec p xs e : vec p xs -> (Z.of_nat (length xs) < ABC_INT_MAX)%Z -> vec (Vec_IntPush p e) (xs ++ [e]).
Proof.
  intros H Hn. destruct (make_room_vec p xs H Hn) as (R & _ & _ & R4). unfold Vec_IntPush.
  rewrite (vec_length _ _ R). pose proof (vec_size _ _ H). destruct R as [R1 R2 R3 R5].
  apply vec_changed; cbn [nCap nSize pArray with_array].
  - rewrite length_app. cbn. lia.
  - rewrite length_app, length_put. cbn. lia.
  - lia.
  - intros i Hi. rewrite length_app in Hi. cbn in Hi. rewrite rd_put. unfold ent in R3.
    by_places. by apply R3.
Qed.

(** Entries of an array that holds a list. *)
Lemma Entry_vec p xs i : vec p xs -> i < length xs -> Vec_IntEntry p (Z.of_nat i) = Some xs.[i].
Proof.
  intros [H1 _ H3 _] Hi. unfold Vec_IntEntry, in_size. rewrite H1.
  rewrite (proj2 (Z.leb_le 0 _)), (proj2 (Z.ltb_lt _ _)) by lia. cbn [andb]. by rewrite Nat2Z.id, H3.
Qed.

Lemma WriteEntry_vec p xs i e : vec p xs -> i < length xs ->
  exists q, Vec_IntWriteEntry p (Z.of_nat i) e = Some q /\ vec q (xs.[i <- e]) /\ nCap q = nCap p /\ nSize q = nSize p.
Proof.
  intros H Hi. pose proof H as [H1 H2 H3 H4]. unfold Vec_IntWriteEntry, in_size. rewrite H1.
  rewrite (proj2 (Z.leb_le 0 _)), (proj2 (Z.ltb_lt _ _)) by lia. cbn [andb]. rewrite Nat2Z.id. eexists. split; [done|].
  split; [|done]. unfold with_array. apply vec_changed.
  - by rewrite length_wr.
  - rewrite length_wr, length_put. lia.
  - lia.
  - intros j Hj. rewrite length_wr in Hj. rewrite rd_put. unfold ent in H3.
    destruct (Nat.eqb_spec j i) as [->|]; [by rewrite rd_wr_eq|]. by rewrite rd_wr_ne, H3.
Qed.

Lemma Fill_vec p xs n e : vec p xs -> (Z.of_nat n <= ABC_INT_MAX)%Z -> vec (Vec_IntFill p n e) (repeat e n).
Proof.
  intros H Hn. destruct (Grow_vec p xs (Z.of_nat n) H Hn) as ([G1 G2 G3 G4] & _ & _ & G5).
  unfold Vec_IntFill, with_size. cbn [with_array pArray nCap]. set (a := pArray (Vec_IntGrow p (Z.of_nat n))).
  assert (forall k, k <= n -> (k <= length (for_up k (fun i a => put a i e) a)) /\ forall j, j < k -> (for_up k (fun i a => put a i e) a).[j] = e) as Hf.
  { induction k as [|k IH]; intros Hk; [split; [lia|lia]|]. rewrite for_up_S. destruct IH as [IL IR]; [lia|]. split; [rewrite length_put; lia|].
    intros j Hj. rewrite rd_put. destruct (Nat.eqb_spec j k); [done|]. apply IR. lia. }
  destruct (Hf n ltac:(lia)) as [Hl Hr]. apply (vec_changed (Vec_IntGrow p (Z.of_nat n))).
  - by rewrite repeat_length.
  - by rewrite repeat_length.
  - pose proof G4. lia.
  - intros j Hj. rewrite repeat_length in Hj. rewrite Hr by done. unfold rd. by rewrite nth_repeat_lt.
Qed.

(** Pushing one entry after the other. *)
Lemma push_all_vec (f : nat -> Z) n p xs :
  vec p xs -> (Z.of_nat (length xs + n) <= ABC_INT_MAX)%Z ->
  vec (for_up n (fun i p => Vec_IntPush p (f i)) p) (xs ++ map f (seq 0 n)).
Proof.
  intros H Hn. assert (forall k, k <= n -> vec (for_up k (fun i p => Vec_IntPush p (f i)) p) (xs ++ map f (seq 0 k))) as HK;
    [|by apply HK].
  induction k as [|k IH]; intros Hk; [by rewrite app_nil_r|].
  rewrite for_up_S, seq_S, map_app, app_assoc. apply Push_vec; [apply IH; lia|].
  rewrite length_app, length_map, length_seq. lia.
Qed.

(** Moving the entries behind a place up by one. *)
Lemma shift_up a from n j :
  (for_down n (fun i a => put a (from + i + 1) a.[from + i]) a).[j] =
    if (from <? j) && (j <=? from + n) then a.[j - 1] else a.[j].
Proof.
  revert a. induction n as [|n IH]; intros a.
  - unfold for_down. cbn [seq rev fold_left]. destruct (Nat.ltb_spec from j), (Nat.leb_spec j (from + 0)); done || lia.
  - rewrite for_down_S, IH, !rd_put.
    destruct (Nat.ltb_spec from j), (Nat.leb_spec j (from + n)), (Nat.leb_spec j (from + S n)), (Nat.eqb_spec (j - 1) (from + n + 1)),
      (Nat.eqb_spec j (from + n + 1)); cbn [andb]; try lia; try done. f_equal. lia.
Qed.

(** Moving them down by one. *)
Lemma shift_down a lo hi j : 1 <= lo ->
  (for_range lo hi (fun i a => put a (i - 1) a.[i]) a).[j] =
    if (lo - 1 <=? j) && (j + 1 <? hi) then a.[j + 1] else a.[j].
Proof.
  intros Hlo. destruct (Nat.le_gt_cases hi lo) as [Hle|Hlt].
  { rewrite for_range_empty by done. destruct (Nat.leb_spec (lo - 1) j), (Nat.ltb_spec (j + 1) hi); done || lia. }
  revert j. apply (for_range_ind (fun k s => forall j, s.[j] = if (lo - 1 <=? j) && (j + 1 <? k) then a.[j + 1] else a.[j])).
  - lia.
  - intros j. destruct (Nat.leb_spec (lo - 1) j), (Nat.ltb_spec (j + 1) lo); done || lia.
  - intros k s Hk IH j. rewrite rd_put, !IH.
    destruct (Nat.eqb_spec j (k - 1)), (Nat.leb_spec (lo - 1) j), (Nat.leb_spec (lo - 1) k), (Nat.ltb_spec (j + 1) k),
      (Nat.ltb_spec (j + 1) (S k)), (Nat.ltb_spec (k + 1) k); cbn [andb]; try lia; try done. f_equal. lia.
Qed.

(** * Inserting *)

(** What stands at the places of a list with one more entry. *)
Lemma rd_inserted (xs : list Z) i e j : i <= length xs ->
  (take i xs ++ e :: drop i xs).[j] = if j <? i then xs.[j] else if j =? i then e else xs.[j - 1].
Proof.
  intros Hi. autorewrite with rd. rewrite length_take, Nat.min_l by done. by_places.
Qed.
Lemma length_inserted (xs : list Z) i e : length (take i xs ++ e :: drop i xs) = S (length xs).
Proof. rewrite length_app, length_take. cbn [length]. rewrite length_drop. lia. Qed.

(** ... and with one entry less. *)
Lemma rd_removed (xs : list Z) i j : i < length xs ->
  (take i xs ++ drop (S i) xs).[j] = if j <? i then xs.[j] else xs.[j + 1].
Proof.
  intros Hi. autorewrite with rd. rewrite length_take, Nat.min_l by lia. by_places.
Qed.
Lemma length_removed (xs : list Z) i : i < length xs -> length (take i xs ++ drop (S i) xs) = length xs - 1.
Proof. intros Hi. rewrite length_app, length_take, length_drop. lia. Qed.

Lemma length_for_put (f : nat -> list Z -> Z) (at_ : nat -> nat) l (a : list Z) : 
  length a <= length (fold_left (fun s i => put s (at_ i) (f i s)) l a).
Proof.
  revert a. induction l as [|i l IH]; intros a; [done|]. cbn [fold_left].
  etransitivity; [|apply IH]. rewrite length_put. lia.
Qed.

Lemma PushFirst_vec p xs e : vec p xs -> (Z.of_nat (length xs) < ABC_INT_MAX)%Z -> vec (Vec_IntPushFirst p e) (e :: xs).
Proof.
  intros H Hn. destruct (make_room_vec p xs H Hn) as (R & E & _ & R4). unfold Vec_IntPushFirst, vsize.
  pose proof (vec_size _ _ H). destruct R as [R1 R2 R3 R5]. cbn [with_size nSize]. rewrite R1, E in *.
  replace (Z.to_nat (Z.of_nat (length xs) + 1) - 1) with (length xs) by lia.
  apply vec_changed; cbn [nCap nSize pArray length with_size with_array].
  - lia.
  - rewrite length_put. clear -R2. unfold for_down.
    destruct xs as [|x xs]; [cbn; lia|]. cbn [length]. rewrite seq_S, rev_app_distr. cbn [rev app fold_left Nat.add].
    etransitivity; [|apply Nat.le_max_l].
    etransitivity; [|apply (length_for_put (fun i s => s.[i]) (fun i => i + 1))]. rewrite length_put. lia.
  - lia.
  - intros i Hi. rewrite rd_put, (shift_up _ 0), rd_cons, E. unfold ent in R3. rewrite E in R3.
    destruct (Nat.eqb_spec i 0), (Nat.ltb_spec 0 i), (Nat.leb_spec i (0 + length xs)); cbn [andb]; try lia; try done.
    apply R3. lia.
Qed.

Lemma shift_while_spec c k a :
  let r := shift_while c k a in
  r.2 <= k /\ (forall j, r.2 <= j < k -> c a.[j] = true) /\ (0 < r.2 -> c a.[r.2 - 1] = false) /\
  (forall j, (r.1).[j] = if (r.2 <? j) && (j <=? k) then a.[j - 1] else a.[j]) /\
  length a <= length r.1 /\ (r.2 < k -> S k <= length r.1).
Proof.
  cbv zeta. revert a. induction k as [|k IH]; intros a; cbn [shift_while].
  - cbn [fst snd]. repeat (split; [lia|]). split; [|lia]. intros j.
    destruct (Nat.ltb_spec 0 j), (Nat.leb_spec j 0); done || lia.
  - destruct (c a.[k]) eqn:Ec; cbn [fst snd].
    + specialize (IH (put a (k + 1) a.[k])). destruct (shift_while c k _) as [r i]. cbn [fst snd] in *.
      destruct IH as (I1 & I2 & I3 & I4 & I5 & I6). rewrite length_put in I5.
      split; [lia|]. split; [|split; [|split; [|split; [lia|intros; lia]]]].
      * intros j Hj. destruct (Nat.eq_dec j k) as [-> | Hne]; [done|].
        specialize (I2 j ltac:(lia)). rewrite rd_put in I2. by rewrite (proj2 (Nat.eqb_neq _ _)) in I2 by lia.
      * intros Hi. specialize (I3 Hi). rewrite rd_put in I3. by rewrite (proj2 (Nat.eqb_neq _ _)) in I3 by lia.
      * intros j. rewrite I4, !rd_put.
        destruct (Nat.ltb_spec i j), (Nat.leb_spec j k), (Nat.leb_spec j (S k)), (Nat.eqb_spec (j - 1) (k + 1)),
          (Nat.eqb_spec j (k + 1)); cbn [andb]; try lia; try done. f_equal. lia.
    + split; [lia|]. split; [intros; lia|]. split; [intros _; by replace (S k - 1) with k by lia|].
      split; [|split; [lia|intros; lia]]. intros j. destruct (Nat.ltb_spec (S k) j), (Nat.leb_spec j (S k)); done || lia.
Qed.

(** The entry goes before the longest suffix of entries with [c]. *)
Lemma push_before_vec c p xs e : vec p xs -> (Z.of_nat (length xs) < ABC_INT_MAX)%Z ->
  exists i, i <= length xs /\ vec (push_before c p e) (take i xs ++ e :: drop i xs) /\
    (forall x, x ∈ drop i xs -> c x = true) /\ (0 < i -> c xs.[i - 1] = false).
Proof.
  intros H Hn. destruct (make_room_vec p xs H Hn) as (R & E & _ & R4). unfold push_before, vsize.
  pose proof (vec_size _ _ H). destruct R as [R1 R2 R3 R5]. cbn [with_size nSize pArray]. unfold ent in R3. rewrite R1, E in *.
  replace (Z.to_nat (Z.of_nat (length xs) + 1) - 1) with (length xs) by lia.
  pose proof (shift_while_spec c (length xs) (pArray p)) as S. cbv zeta in S.
  destruct (shift_while c (length xs) (pArray p)) as [a i]. cbn [fst snd] in S. destruct S as (S1 & S2 & S3 & S4 & S5 & S6).
  exists i. split; [done|]. split; [|split].
  - apply vec_changed; cbn [nCap nSize pArray with_size with_array].
    + rewrite length_inserted. lia.
    + rewrite length_inserted, length_put. destruct (Nat.eq_dec i (length xs)); [lia|]. specialize (S6 ltac:(lia)). lia.
    + lia.
    + intros j Hj. rewrite length_inserted in Hj. rewrite rd_inserted, rd_put, S4 by done.
      destruct (Nat.eqb_spec j i), (Nat.ltb_spec i j), (Nat.leb_spec j (length xs)), (Nat.ltb_spec j i); cbn [andb];
        try lia; try done; apply R3; lia.
  - intros x Hx. apply elem_rd in Hx as (j & Hj & <-). rewrite length_drop in Hj. rewrite rd_drop, <- R3 by lia. apply S2. lia.
  - intros Hi. rewrite <- R3 by lia. auto.
Qed.

(** * Removing *)

Lemma length_range_put (f : nat -> list Z -> Z) (at_ : nat -> nat) lo hi (a : list Z) :
  length a <= length (for_range lo hi (fun i s => put s (at_ i) (f i s)) a).
Proof. apply length_for_put. Qed.

Lemma remove_place_vec p xs i : vec p xs -> i < length xs -> vec (remove_place p i) (take i xs ++ drop (S i) xs).
Proof.
  intros H Hi. unfold remove_place, with_size, with_array. rewrite (vec_length _ _ H).
  destruct H as [H1 H2 H3 H4]. cbn [nSize nCap pArray]. apply vec_changed.
  - rewrite length_removed; lia.
  - rewrite length_removed by done. etransitivity; [|apply (length_range_put (fun i s => s.[i]) (fun i => i - 1))]. lia.
  - lia.
  - intros j Hj. rewrite length_removed in Hj by done. rewrite rd_removed, shift_down by lia.
    replace (i + 1 - 1) with i by lia. unfold ent in H3.
    destruct (Nat.leb_spec i j), (Nat.ltb_spec (j + 1) (length xs)), (Nat.ltb_spec j i); cbn [andb]; try lia; apply H3; lia.
Qed.

Lemma Drop_vec p xs i : vec p xs -> i < length xs ->
  Vec_IntDrop p (Z.of_nat i) = Some (remove_place p i).
Proof.
  intros H Hi. destruct H as [H1 H2 H3 H4]. unfold Vec_IntDrop, in_size, remove_place, with_size, with_array, vsize.
  cbn [nSize nCap pArray].
  rewrite (proj2 (Z.leb_le _ _)), (proj2 (Z.ltb_lt _ _)), Nat2Z.id by lia. cbn [andb]. do 2 f_equal.
  rewrite !for_range_up, H1. replace (Z.to_nat (Z.of_nat (length xs) - 1) - i) with (Z.to_nat (Z.of_nat (length xs)) - (i + 1)) by lia.
  apply for_up_ext. intros k s _. replace (i + 1 + k - 1) with (i + k) by lia. by replace (i + 1 + k) with (i + k + 1) by lia.
Qed.

(** The first place of an entry from a given place on. *)
Lemma first_place_spec p xs from e : vec p xs ->
  match first_place p from e with
  | Some i => from <= i < length xs /\ xs.[i] = e /\ forall j, from <= j < i -> xs.[j] <> e
  | None => forall j, from <= j < length xs -> xs.[j] <> e
  end.
Proof.
  intros H. unfold first_place. rewrite (vec_length _ _ H).
  assert (forall n from, from + n = length xs ->
    match find (fun i => (ent p i =? e)%Z) (seq from n) with
    | Some i => from <= i < length xs /\ xs.[i] = e /\ forall j, from <= j < i -> xs.[j] <> e
    | None => forall j, from <= j < length xs -> xs.[j] <> e
    end) as HF.
  { induction n as [|n IH]; intros f Hf; cbn [seq find]; [intros j Hj; lia|].
    rewrite (vec_ent _ _ H) by lia. destruct (Z.eqb_spec xs.[f] e) as [E|E].
    - split; [lia|]. split; [done|]. intros; lia.
    - specialize (IH (S f) ltac:(lia)).
      assert (forall j, f <= j -> (S f <= j -> xs.[j] <> e) -> xs.[j] <> e) as HS.
      { intros j Hj Hne. destruct (Nat.eq_dec j f) as [-> | ]; [done|]. apply Hne. lia. }
      destruct (find _ _) as [i|].
      + destruct IH as (I1 & I2 & I3). split; [lia|]. split; [done|]. intros j Hj. apply HS; [lia|]. intros. apply I3. lia.
      + intros j Hj. apply HS; [lia|]. intros. apply IH. lia. }
  destruct (Nat.le_gt_cases from (length xs)).
  - apply HF. lia.
  - replace (length xs - from) with 0 by lia. cbn. intros; lia.
Qed.

Lemma first_place_in p xs e : vec p xs -> first_place p 0 e = None <-> ~ e ∈ xs.
Proof.
  intros H. pose proof (first_place_spec p xs 0 e H) as S. rewrite elem_rd. destruct (first_place p 0 e) as [i|].
  - split; [done|]. intros Hn. exfalso. apply Hn. exists i. destruct S as (S1 & S2 & _). split; [lia|done].
  - split; [|done]. intros _ (i & Hi & He). apply (S i); [lia|done].
Qed.

Lemma Insert_vec p xs i e : vec p xs -> (Z.of_nat (length xs) < ABC_INT_MAX)%Z -> i <= length xs ->
  exists p', Vec_IntInsert p (Z.of_nat i) e = Some p' /\ vec p' (take i xs ++ e :: drop i xs).
Proof.
  intros H Hn Hi. unfold Vec_IntInsert. rewrite (vec_size _ _ H).
  rewrite (proj2 (Z.leb_le _ _)), (proj2 (Z.leb_le _ _)), Nat2Z.id by lia. cbn [andb]. eexists. split; [done|].
  pose proof (Push_vec p xs 0 H Hn) as P. set (q := Vec_IntPush p 0) in *. rewrite (vec_length _ _ P), length_app.
  cbn [length]. replace (length xs + 1 - 1 - i) with (length xs - i) by lia.
  destruct P as [P1 P2 P3 P4]. rewrite length_app in *. cbn [length] in *. unfold with_array. apply vec_changed.
  - rewrite length_inserted. lia.
  - rewrite length_inserted, length_put.
    pose proof (length_for_put (fun k s => s.[i + k]) (fun k => i + k + 1) (rev (seq 0 (length xs - i))) (pArray q)).
    unfold for_down. lia.
  - lia.
  - intros j Hj. rewrite length_inserted in Hj. rewrite rd_inserted, rd_put, shift_up by done. unfold ent in P3.
    destruct (Nat.eqb_spec j i), (Nat.ltb_spec i j), (Nat.leb_spec j (i + (length xs - i))), (Nat.ltb_spec j i); cbn [andb]; try lia; try done.
    + rewrite P3, rd_app by lia. by_places.
    + rewrite P3, rd_app by lia. by_places.
Qed.

(** * Reversing and halving *)

Lemma Reverse_vec p xs : vec p xs -> vec (Vec_IntReverseOrder p) (rev xs).
Proof.
  intros H. unfold Vec_IntReverseOrder. rewrite (vec_length _ _ H). destruct H as [H1 H2 H3 H4]. set (n := length xs) in *.
  assert (n / 2 + n / 2 <= n <= n / 2 + n / 2 + 1) as Hn
    by (pose proof (Nat.div_mod_eq n 2); pose proof (Nat.mod_upper_bound n 2); lia).
  match goal with |- context [for_up (n / 2) ?b _] => set (body := b) end.
  assert (n <= length (for_up (n / 2) body (pArray p)) /\ forall j, j < n ->
    (for_up (n / 2) body (pArray p)).[j] = if (j <? n / 2) || (n <=? j + n / 2) then xs.[n - 1 - j] else xs.[j]) as [HL HE].
  { apply (for_up_ind (fun k s => n <= length s /\ forall j, j < n ->
      s.[j] = if (j <? k) || (n <=? j + k) then xs.[n - 1 - j] else xs.[j])).
    - split; [done|]. intros j Hj. destruct (Nat.ltb_spec j 0), (Nat.leb_spec n (j + 0)); try lia. cbn [orb]. by apply H3.
    - intros k s Hk [IL IH]. unfold body. rewrite !length_put. split; [lia|]. intros j Hj. rewrite !rd_put.
      destruct (Nat.eqb_spec j (n - 1 - k)); [|destruct (Nat.eqb_spec j k)].
      + rewrite IH by lia. destruct (Nat.ltb_spec k k), (Nat.leb_spec n (k + k)), (Nat.ltb_spec j (S k)), (Nat.leb_spec n (j + S k));
          cbn [orb]; try lia; f_equal; lia.
      + rewrite IH by lia. destruct (Nat.ltb_spec (n - 1 - k) k), (Nat.leb_spec n (n - 1 - k + k)), (Nat.ltb_spec j (S k)), (Nat.leb_spec n (j + S k));
          cbn [orb]; try lia; f_equal; lia.
      + rewrite IH by lia. destruct (Nat.ltb_spec j k), (Nat.leb_spec n (j + k)), (Nat.ltb_spec j (S k)), (Nat.leb_spec n (j + S k));
          cbn [orb]; try lia; done. }
  unfold with_array. apply vec_changed.
  - by rewrite length_rev.
  - by rewrite length_rev.
  - lia.
  - intros j Hj. rewrite length_rev in Hj. rewrite HE by done.
    assert ((rev xs).[j] = xs.[n - 1 - j]) as ->.
    { unfold rd. rewrite rev_nth by done. f_equal. lia. }
    destruct (Nat.ltb_spec j (n / 2)), (Nat.leb_spec n (j + n / 2)); cbn [orb]; try done. f_equal. lia.
Qed.

(** * Properties *)

(** C39. Editing an array that holds a list, with fewer than the greatest number of entries: every routine keeps the
    invariant (the size within the capacity, the capacity within an [int]) and changes the list as its name says.
    Pushing adds at the end, at the front or at a place; popping returns the last entry; dropping a place and
    removing the first entry of a value take one entry out, the removal from place 1 skips the first entry; a value
    is found at its first place; pushing a value that is there changes nothing; reversing reverses. *)
Theorem vec_editing_correct p xs e i :
  vec p xs -> (Z.of_nat (length xs) < ABC_INT_MAX)%Z ->
  vec (Vec_IntPush p e) (xs ++ [e]) /\
  vec (Vec_IntPushFirst p e) (e :: xs) /\
  (i <= length xs -> exists p', Vec_IntInsert p (Z.of_nat i) e = Some p' /\ vec p' (take i xs ++ e :: drop i xs)) /\
  (i < length xs -> exists p', Vec_IntDrop p (Z.of_nat i) = Some p' /\ vec p' (take i xs ++ drop (S i) xs)) /\
  (forall ys y, xs = ys ++ [y] -> exists p', Vec_IntPop p = Some (y, p') /\ vec p' ys) /\
  (e ∉ xs -> Vec_IntFind p e = (-1)%Z /\ Vec_IntRemove p e = (false, p) /\ Vec_IntPushUnique p e = (false, Vec_IntPush p e)) /\
  (forall ys zs, xs = ys ++ e :: zs -> e ∉ ys ->
     Vec_IntFind p e = Z.of_nat (length ys) /\ Vec_IntPushUnique p e = (true, p) /\
     (exists p', Vec_IntRemove p e = (true, p') /\ vec p' (ys ++ zs)) /\
     (ys <> [] -> exists p', Vec_IntRemove1 p e = (true, p') /\ vec p' (ys ++ zs))) /\
  vec (Vec_IntReverseOrder p) (rev xs).
Proof.
  intros H Hn. split; [by apply Push_vec|]. split; [by apply PushFirst_vec|]. split; [by apply Insert_vec|].
  split; [intros Hi; exists (remove_place p i); split; [by eapply Drop_vec|by apply remove_place_vec]|].
  split; [|split; [|split; [|by apply Reverse_vec]]].
  - intros ys y ->. unfold Vec_IntPop. pose proof (vec_length _ _ H) as L. pose proof H as [H1 H2 H3 H4].
    rewrite length_app in *. cbn [length] in *. rewrite H1, (proj2 (Z.ltb_lt _ _)), L, H3 by lia.
    replace (length ys + 1 - 1) with (length ys) by lia.
    eexists. split; [by rewrite rd_app, (proj2 (Nat.ltb_ge _ _)), Nat.sub_diag by lia|].
    apply vec_changed; [lia|lia|lia|]. intros j Hj. unfold ent in H3. rewrite H3, rd_app, (proj2 (Nat.ltb_lt _ _)) by lia. done.
  - intros He. apply (first_place_in p xs e H) in He. unfold Vec_IntFind, Vec_IntRemove, Vec_IntPushUnique. by rewrite He.
  - intros ys zs -> He.
    assert (forall from, from <= length ys -> first_place p from e = Some (length ys)) as HF.
    { intros from Hf. pose proof (first_place_spec p _ from e H) as S. 
      assert ((ys ++ e :: zs).[length ys] = e) as Ee by (rewrite rd_app, (proj2 (Nat.ltb_ge _ _)), Nat.sub_diag by lia; done).
      destruct (first_place p from e) as [k|].
      - destruct S as (S1 & S2 & S3). f_equal. destruct (Nat.lt_trichotomy k (length ys)) as [Hk|[Hk|Hk]]; [|done|].
        + exfalso. apply He, elem_rd. exists k. split; [done|]. by rewrite rd_app, (proj2 (Nat.ltb_lt _ _)) in S2.
        + exfalso. by apply (S3 (length ys)).
      - exfalso. apply (S (length ys)); [|done]. rewrite length_app. cbn. lia. }
    assert (vec (remove_place p (length ys)) (ys ++ zs)) as HR.
    { pose proof (remove_place_vec p _ (length ys) H) as R. rewrite length_app in R. specialize (R ltac:(cbn; lia)).
      rewrite take_app_length in R. replace (S (length ys)) with (length ys + 1) in R by lia.
      rewrite drop_app_add' in R by done. done. }
    unfold Vec_IntFind, Vec_IntRemove, Vec_IntRemove1, Vec_IntPushUnique. rewrite HF by lia.
    split; [done|]. split; [done|]. split; [by eexists|]. intros Hne. rewrite HF; [by eexists|].
    destruct ys; [done|]. cbn. lia.
Qed.

Lemma vec_editing_correct_witness :
  let p := Vec_IntPush (Vec_IntPush (Vec_IntPush (Vec_IntAlloc 0) 7) 5) 7 in
  nCap p = 16%Z /\ pArray (Vec_IntReverseOrder (Vec_IntRemove1 p 7).2) = [5; 7; 7]%Z /\
  vec (Vec_IntPushFirst p 9) [9; 7; 5; 7]%Z.
Proof.
  intros p. split; [reflexivity|]. split; [reflexivity|].
  apply (vec_editing_correct p [7; 5; 7]%Z 9 0).
  - constructor; [reflexivity|by apply Nat.leb_le| |cbn; split; discriminate].
    intros [|[|[|i]]] Hi; cbn in Hi; reflexivity || lia.
  - reflexivity.
Defined.
