(* ===== verification/VecOrder.v ===== *)
(** Arrays of integers kept in an order ([vecInt.h]): insertion in order, the tests for an order,
    and the selection sorts. *)
From S2P Require Import Prelude VecInt VecArray.

(** * Tests *)

(** [for ( i = 1; i < p->nSize; i++ ) if ( c ) return 0;  return 1;] with the entries before and at [i]. *)
Definition adjacent (c : Z -> Z -> bool) (p : Vec_Int_t) : bool :=
  forallb (fun i => negb (c (ent p (i - 1)) (ent p i))) (seq 1 (vsize p - 1)).

Definition Vec_IntIsOrdered (p : Vec_Int_t) (fReverse : bool) : bool :=
  if fReverse then adjacent (fun x y => (x <? y)%Z) p else adjacent (fun x y => (y <? x)%Z) p.
Definition Vec_IntIsOrderedCost (p vCost : Vec_Int_t) (fReverse : bool) : bool :=
  let cost x := ent vCost (Z.to_nat x) in
  if fReverse then adjacent (fun x y => (cost x <? cost y)%Z) p else adjacent (fun x y => (cost y <? cost x)%Z) p.
Definition Vec_IntIsSorted (p : Vec_Int_t) (fReverse : bool) : bool :=
  adjacent (fun x y => if fReverse then (x <? y)%Z else (y <? x)%Z) p.

(** * Selection sorts *)

(** [temp = pArray[i]; pArray[i] = pArray[j]; pArray[j] = temp;] *)
Definition swap (a : list Z) (i j : nat) : list Z :=
  let temp := a.[i] in let a := a.[i <- a.[j]] in a.[j <- temp].

(** [best_i = i; for ( j = i+1; j < nSize; j++ ) if ( c ) best_i = j;] *)
Definition best (c : nat -> nat -> bool) (i nSize : nat) : nat :=
  for_range (i + 1) nSize (fun j best_i => if c j best_i then j else best_i) i.

Definition select_sort (c : Z -> Z -> bool) (pArray : list Z) (nSize : nat) : list Z :=
  for_up (nSize - 1) (fun i a => swap a i (best (fun j b => c a.[j] a.[b]) i nSize)) pArray.

Definition Vec_IntSelectSort (pArray : list Z) (nSize : nat) : list Z :=
  select_sort (fun x y => (x <? y)%Z) pArray nSize.
Definition Vec_IntSelectSortReverse (pArray : list Z) (nSize : nat) : list Z :=
  select_sort (fun x y => (y <? x)%Z) pArray nSize.
Definition Vec_IntSelectSortCost (pArray : list Z) (nSize : nat) (vCosts : Vec_Int_t) : list Z :=
  select_sort (fun x y => (ent vCosts (Z.to_nat x) <? ent vCosts (Z.to_nat y))%Z) pArray nSize.
Definition Vec_IntSelectSortCostReverse (pArray : list Z) (nSize : nat) (vCosts : Vec_Int_t) : list Z :=
  select_sort (fun x y => (ent vCosts (Z.to_nat y) <? ent vCosts (Z.to_nat x))%Z) pArray nSize.

(** The two arrays are exchanged together. *)
Definition select_sort2 (c : Z -> Z -> bool) (pArray : list Z) (nSize : nat) (pCosts : list Z) : list Z * list Z :=
  for_up (nSize - 1) (fun i '(a, k) =>
    let best_i := best (fun j b => c k.[j] k.[b]) i nSize in (swap a i best_i, swap k i best_i)) (pArray, pCosts).
Definition Vec_IntSelectSortCost2 (pArray : list Z) (nSize : nat) (pCosts : list Z) : list Z * list Z :=
  select_sort2 (fun x y => (x <? y)%Z) pArray nSize pCosts.
Definition Vec_IntSelectSortCost2Reverse (pArray : list Z) (nSize : nat) (pCosts : list Z) : list Z * list Z :=
  select_sort2 (fun x y => (y <? x)%Z) pArray nSize pCosts.

(** * Ordered lists *)

(** The first [n] entries are in the order [R]. *)
Definition ordered (R : Z -> Z -> Prop) (n : nat) (xs : list Z) : Prop := forall i j, i < j -> j < n -> R xs.[i] xs.[j].

Lemma adjacent_spec (c : Z -> Z -> bool) (R : Z -> Z -> Prop) p xs : vec p xs -> Transitive R ->
  (forall x y, c x y = false <-> R x y) -> adjacent c p = true <-> ordered R (length xs) xs.
Proof.
  intros H HT Hc. unfold adjacent. rewrite (vec_length _ _ H), forallb_forall.
  assert (forall i, 1 <= i < length xs -> negb (c (ent p (i - 1)) (ent p i)) = true <-> R xs.[i - 1] xs.[i]) as HE.
  { intros i Hi. by rewrite !(vec_ent _ _ H), negb_true_iff, Hc by lia. }
  split.
  - intros HA i j Hij Hj. induction Hij as [|j Hij IH].
    + specialize (HA (S i) (proj2 (in_seq (length xs - 1) 1 (S i)) ltac:(lia))). apply HE in HA; [|lia]. by replace (S i - 1) with i in HA by lia.
    + transitivity xs.[j]; [apply IH; lia|].
      specialize (HA (S j) (proj2 (in_seq (length xs - 1) 1 (S j)) ltac:(lia))). apply HE in HA; [|lia]. by replace (S j - 1) with j in HA by lia.
  - intros HO i Hi. apply in_seq in Hi. apply HE; [lia|]. apply HO; lia.
Qed.

Lemma ordered_insert R xs i e : Transitive R -> ordered R (length xs) xs -> i <= length xs ->
  (forall x, x ∈ drop i xs -> R e x) -> (0 < i -> R xs.[i - 1] e) ->
  ordered R (S (length xs)) (take i xs ++ e :: drop i xs).
Proof.
  intros HT HO Hi Ha Hb j k Hjk Hk. rewrite !rd_inserted by done.
  assert (forall x, i <= x < length xs -> R e xs.[x]) as Ha'.
  { intros x Hx. apply Ha, elem_rd. exists (x - i). rewrite length_drop, rd_drop. split; [lia|f_equal; lia]. }
  assert (forall x, x < i -> R xs.[x] e) as Hb'.
  { intros x Hx. destruct (Nat.eq_dec x (i - 1)) as [-> | ]; [apply Hb; lia|].
    transitivity xs.[i - 1]; [apply HO; lia|apply Hb; lia]. }
  destruct (Nat.ltb_spec j i), (Nat.ltb_spec k i), (Nat.eqb_spec j i), (Nat.eqb_spec k i); try lia.
  - apply HO; lia.
  - by apply Hb'.
  - apply HO; lia.
  - apply Ha'. lia.
  - apply HO; lia.
Qed.

Lemma inserted_perm (xs : list Z) i e : take i xs ++ e :: drop i xs ≡ₚ e :: xs.
Proof. rewrite <- (take_drop i xs) at 3. symmetry. apply Permutation_middle. Qed.

Lemma push_before_ordered c (R : Z -> Z -> Prop) p xs e :
  vec p xs -> (Z.of_nat (length xs) < ABC_INT_MAX)%Z -> Transitive R ->
  (forall x, c x = true -> R e x) -> (forall x, c x = false -> R x e) -> ordered R (length xs) xs ->
  exists ys, vec (push_before c p e) ys /\ ys ≡ₚ e :: xs /\ ordered R (length ys) ys.
Proof.
  intros H Hn HT Ht Hf HO. destruct (push_before_vec c p xs e H Hn) as (i & Hi & Hv & Ha & Hb).
  eexists. split; [exact Hv|]. split; [apply inserted_perm|]. rewrite length_inserted. apply ordered_insert; [done..| |]; auto.
Qed.

(** * The selection sorts *)

Lemma length_swap a i j : length (swap a i j) = length a.
Proof. unfold swap. by rewrite !length_wr. Qed.

Lemma rd_swap a i j k : i < length a -> j < length a ->
  (swap a i j).[k] = if k =? j then a.[i] else if k =? i then a.[j] else a.[k].
Proof.
  intros Hi Hj. unfold swap.
  destruct (Nat.eqb_spec k j) as [-> | ]; [by rewrite rd_wr_eq by by rewrite length_wr|].
  rewrite rd_wr_ne by done. destruct (Nat.eqb_spec k i) as [-> | ]; [by rewrite rd_wr_eq|by rewrite rd_wr_ne].
Qed.

Lemma swap_perm a i j : i < length a -> j < length a -> swap a i j ≡ₚ a.
Proof. intros Hi Hj. apply Permutation_insert_swap; by apply rd_in. Qed.

Lemma swap_zip_perm a k i j : length a = length k -> i < length a -> j < length a ->
  zip (swap a i j) (swap k i j) ≡ₚ zip a k.
Proof.
  intros Hl Hi Hj. unfold swap, wr. rewrite <- !insert_zip_with.
  apply (Permutation_insert_swap (zip a k) i j (a.[i], k.[i]) (a.[j], k.[j]));
    apply lookup_zip_with_Some; eexists _, _; (split; [done|]); split; apply rd_in; lia.
Qed.

Section sort.
Context (c : Z -> Z -> bool) (R : Z -> Z -> Prop) {HT : Transitive R}.
Context (Hc : forall x y, c x y = true -> R x y) (Hnc : forall x y, c x y = false -> R y x).

Lemma best_spec (a : list Z) i n : i < n ->
  let b := best (fun j b => c a.[j] a.[b]) i n in i <= b < n /\ forall j, i <= j < n -> j = b \/ R a.[b] a.[j].
Proof using HT Hc Hnc.
  intros Hi. cbv zeta. unfold best.
  apply (for_range_ind (fun k b => i <= b < k /\ forall j, i <= j < k -> j = b \/ R a.[b] a.[j])).
  - lia.
  - split; [lia|]. intros j Hj. left. lia.
  - intros k b Hk [Hb IH]. destruct (c a.[k] a.[b]) eqn:E.
    + split; [lia|]. intros j Hj. destruct (Nat.eq_dec j k) as [-> | ]; [by left|]. right.
      destruct (IH j ltac:(lia)) as [-> | IHj]; [by apply Hc|]. etransitivity; [by apply Hc|done].
    + split; [lia|]. intros j Hj. destruct (Nat.eq_dec j k) as [-> | ]; [right; by apply Hnc|]. apply IH. lia.
Qed.

(** One step of either sort. *)
Definition sorted_upto (n i : nat) (a : list Z) : Prop :=
  forall x y, x < i -> x < y -> y < n -> R a.[x] a.[y].

Lemma select_step n i a : n <= length a -> i < n - 1 -> sorted_upto n i a ->
  let b := best (fun j b => c a.[j] a.[b]) i n in b < length a /\ sorted_upto n (S i) (swap a i b).
Proof using HT Hc Hnc.
  intros Hl Hi HS. cbv zeta. destruct (best_spec a i n ltac:(lia)) as [Hb HB]. set (b := best _ i n) in *.
  split; [lia|]. intros x y Hx Hxy Hy. rewrite !rd_swap by lia.
  destruct (Nat.eq_dec x i) as [-> | Hne].
  - rewrite Nat.eqb_refl. assert (forall z, i <= z < n -> z <> b -> R a.[b] a.[z]) as HZ
      by (intros z Hz Hzb; destruct (HB z Hz); done).
    destruct (Nat.eqb_spec i b) as [Eb|Eb].
    + rewrite Eb. destruct (Nat.eqb_spec y b); [lia|]. destruct (Nat.eqb_spec y b); [lia|]. apply HZ; lia.
    + destruct (Nat.eqb_spec y b); [apply HZ; lia|]. destruct (Nat.eqb_spec y i); [lia|]. apply HZ; lia.
  - assert (x < i) as Hxi by lia. destruct (Nat.eqb_spec x b), (Nat.eqb_spec x i); try lia.
    destruct (Nat.eqb_spec y b); [apply HS; lia|]. destruct (Nat.eqb_spec y i); apply HS; lia.
Qed.

Lemma sorted_upto_all n a : sorted_upto n (n - 1) a -> ordered R n a.
Proof using. intros H i j Hij Hj. apply H; lia. Qed.

Lemma select_sort_spec a n : n <= length a ->
  select_sort c a n ≡ₚ a /\ ordered R n (select_sort c a n).
Proof using HT Hc Hnc.
  intros Hn. unfold select_sort.
  assert (forall k, k <= n - 1 -> let s := for_up k (fun i a => swap a i (best (fun j b => c a.[j] a.[b]) i n)) a in
    s ≡ₚ a /\ length s = length a /\ sorted_upto n k s) as H.
  { intros k Hk. cbv zeta. revert Hk. induction k as [|k IH]; intros Hk.
    - repeat (split; [done|]). intros x y Hx. lia.
    - rewrite for_up_S. destruct (IH ltac:(lia)) as (P & L & S).
      destruct (select_step n k _ (eq_ind_r (fun x => n <= x) Hn L) ltac:(lia) S) as [B S'].
      rewrite length_swap. split; [|done]. rewrite swap_perm by lia. done. }
  destruct (H (n - 1) (le_n _)) as (P & _ & S). split; [done|]. by apply sorted_upto_all.
Qed.

Lemma select_sort2_spec a k n : length a = length k -> n <= length k ->
  let r := select_sort2 c a n k in
  zip r.1 r.2 ≡ₚ zip a k /\ length r.1 = length a /\ length r.2 = length k /\ ordered R n r.2.
Proof using HT Hc Hnc.
  intros Hl Hn. cbv zeta. unfold select_sort2.
  match goal with |- context [for_up _ ?f _] => set (body := f) end.
  assert (forall i, i <= n - 1 -> let r := for_up i body (a, k) in
    zip r.1 r.2 ≡ₚ zip a k /\ length r.1 = length a /\ length r.2 = length k /\ sorted_upto n i r.2) as H.
  { intros i Hi. cbv zeta. revert Hi. induction i as [|i IH]; intros Hi.
    - repeat (split; [done|]). intros x y Hx. lia.
    - rewrite for_up_S. destruct (IH ltac:(lia)) as (P & L1 & L2 & S). destruct (for_up i body (a, k)) as [a' k'].
      cbn [fst snd] in *. unfold body. destruct (select_step n i k' ltac:(lia) ltac:(lia) S) as [B S'].
      cbn [fst snd]. rewrite !length_swap. split; [|done]. rewrite swap_zip_perm by lia. done. }
  destruct (H (n - 1) (le_n _)) as (P & L1 & L2 & S). repeat (split; [done|]). by apply sorted_upto_all.
Qed.
End sort.

(** * Properties *)

(** Order.  The tests decide whether the entries, or their costs, are in order.  Inserting in order into an
    array in that order (increasing, decreasing, or by cost) adds the entry and keeps the order; inserting a
    value only when it is new leaves the array unchanged otherwise.  The selection sorts permute the
    array, the last two together with the array of costs, and put the first entries in order. *)
Theorem vec_order_correct p xs e (vCost : Vec_Int_t) (ks : list Z) fReverse :
  vec p xs -> (Z.of_nat (length xs) < ABC_INT_MAX)%Z -> length ks = length xs ->
  let cost x := ent vCost (Z.to_nat x) in
  let R := if fReverse : bool then Z.ge else Z.le in
  let Rc x y := R (cost x) (cost y) in
  let sort := if fReverse then Vec_IntSelectSortReverse else Vec_IntSelectSort in
  let sortc := if fReverse then Vec_IntSelectSortCostReverse else Vec_IntSelectSortCost in
  let sort2 := if fReverse then Vec_IntSelectSortCost2Reverse else Vec_IntSelectSortCost2 in
  (Vec_IntIsOrdered p fReverse = true <-> ordered R (length xs) xs) /\
  (Vec_IntIsSorted p fReverse = true <-> ordered R (length xs) xs) /\
  (Vec_IntIsOrderedCost p vCost fReverse = true <-> ordered Rc (length xs) xs) /\
  (ordered R (length xs) xs -> exists ys, ys ≡ₚ e :: xs /\ ordered R (length ys) ys /\
     vec ((if fReverse then Vec_IntPushOrderReverse else Vec_IntPushOrder) p e) ys) /\
  (ordered (fun x y => cost x <= cost y)%Z (length xs) xs -> exists ys, ys ≡ₚ e :: xs /\
     ordered (fun x y => cost x <= cost y)%Z (length ys) ys /\ vec (Vec_IntPushOrderCost p e vCost) ys) /\
  (e ∈ xs -> Vec_IntPushUniqueOrder p e = (true, p) /\ Vec_IntPushUniqueOrderCost p e vCost = (true, p)) /\
  (e ∉ xs -> Vec_IntPushUniqueOrder p e = (false, Vec_IntPushOrder p e) /\
             Vec_IntPushUniqueOrderCost p e vCost = (false, Vec_IntPushOrderCost p e vCost)) /\
  (sort xs (length xs) ≡ₚ xs /\ ordered R (length xs) (sort xs (length xs))) /\
  (sortc xs (length xs) vCost ≡ₚ xs /\ ordered Rc (length xs) (sortc xs (length xs) vCost)) /\
  (let r := sort2 xs (length xs) ks in zip r.1 r.2 ≡ₚ zip xs ks /\ ordered R (length xs) r.2).
Proof.
  intros H Hn Hk. cbv zeta.
  assert (Transitive Z.ge) as HG by (intros x y z; lia).
  set (cost := fun x => ent vCost (Z.to_nat x)).
  assert (forall R, Transitive R -> Transitive (fun x y => R (cost x) (cost y))) as HTc by (intros R HR x y z; apply HR).
  split; [|split; [|split; [|split; [|split; [|split; [|split; [|split; [|split]]]]]]]].
  - unfold Vec_IntIsOrdered. destruct fReverse; apply adjacent_spec; try done; try apply _; intros; rewrite Z.ltb_ge; lia.
  - unfold Vec_IntIsSorted. destruct fReverse; apply adjacent_spec; try done; try apply _; intros; rewrite Z.ltb_ge; lia.
  - unfold Vec_IntIsOrderedCost. fold cost.
    destruct fReverse; apply adjacent_spec; try done; try (apply HTc; apply _); intros; rewrite Z.ltb_ge; unfold cost; lia.
  - intros HO. destruct fReverse.
    + destruct (push_before_ordered (fun x => (x <? e)%Z) Z.ge p xs e H Hn HG) as (ys & H1 & H2 & H3); [..|by exists ys].
      * intros x Hx. apply Z.ltb_lt in Hx. lia.
      * intros x Hx. apply Z.ltb_ge in Hx. lia.
      * done.
    + destruct (push_before_ordered (fun x => (e <? x)%Z) Z.le p xs e H Hn _) as (ys & H1 & H2 & H3); [..|by exists ys].
      * intros x Hx. apply Z.ltb_lt in Hx. lia.
      * intros x Hx. apply Z.ltb_ge in Hx. lia.
      * done.
  - intros HO. destruct (push_before_ordered (fun x => (cost e <? cost x)%Z) (fun x y => cost x <= cost y)%Z p xs e H Hn
      (HTc Z.le _)) as (ys & H1 & H2 & H3); [..|by exists ys].
    + intros x Hx. apply Z.ltb_lt in Hx. lia.
    + intros x Hx. apply Z.ltb_ge in Hx. lia.
    + done.
  - intros He. unfold Vec_IntPushUniqueOrder, Vec_IntPushUniqueOrderCost.
    destruct (first_place p 0 e) eqn:E; [done|]. by apply (first_place_in p xs e H) in E.
  - intros He. unfold Vec_IntPushUniqueOrder, Vec_IntPushUniqueOrderCost.
    apply (first_place_in p xs e H) in He. by rewrite He.
  - destruct fReverse; apply select_sort_spec; try done; try apply _;
      intros x y; rewrite ?Z.ltb_lt, ?Z.ltb_ge; lia.
  - destruct fReverse; apply select_sort_spec; try done; try (apply HTc; apply _);
      intros x y; unfold cost; rewrite ?Z.ltb_lt, ?Z.ltb_ge; lia.
  - destruct fReverse.
    + edestruct (select_sort2_spec (fun x y => (y <? x)%Z) Z.ge) as (P & _ & _ & O); [..|split; [exact P|exact O]];
        try done; try lia; intros x y; rewrite ?Z.ltb_lt, ?Z.ltb_ge; lia.
    + edestruct (select_sort2_spec (fun x y => (x <? y)%Z) Z.le) as (P & _ & _ & O); [..|split; [exact P|exact O]];
        try done; try lia; intros x y; rewrite ?Z.ltb_lt, ?Z.ltb_ge; lia.
Qed.

Lemma vec_order_correct_witness :
  let p := Vec_IntPush (Vec_IntPush (Vec_IntPush (Vec_IntAlloc 0) 2) 5) 9 in
  pArray (Vec_IntPushOrder p 6) = [2; 5; 6; 9]%Z /\ Vec_IntSelectSort [5; 2; 9; 2]%Z 4 = [2; 2; 5; 9]%Z /\
  (Vec_IntIsOrdered p false = true <-> ordered Z.le 3 [2; 5; 9]%Z).
Proof.
  intros p. split; [reflexivity|]. split; [reflexivity|].
  apply (vec_order_correct p [2; 5; 9]%Z 6 p [0; 0; 0]%Z false).
  - constructor; [reflexivity|by apply Nat.leb_le| |cbn; split; discriminate].
    intros [|[|[|i]]] Hi; cbn in Hi; reflexivity || lia.
  - reflexivity.
  - reflexivity.
Defined.
