(* ===== verification/VecSets.v ===== *)
(** Sets of integers as increasing arrays ([vecInt.h]): the routines that walk two arrays
    together.

    Every one of them is the loop [two_loop], which compares the entries under two pointers
    and advances one or both.  A pointer into an array is the number of its entry. *)
From S2P Require Import Prelude VecInt VecArray VecOrder.

(** * The loop *)

(** [while ( pBeg1 < pEnd1 && pBeg2 < pEnd2 ) if ( *pBeg1 == *pBeg2 ) ... else if ( *pBeg1 < *pBeg2 ) ...
    else ...], for the comparison [cmp] of the entries in the state. *)
Fixpoint two_loop {A} (fuel n1 n2 : nat) (cmp : nat -> nat -> A -> comparison)
    (both left right : nat -> nat -> A -> A) (i j : nat) (a : A) : nat * nat * A :=
  match fuel with
  | O => (i, j, a)
  | S fuel =>
    if (i <? n1) && (j <? n2) then
      match cmp i j a with
      | Eq => two_loop fuel n1 n2 cmp both left right (S i) (S j) (both i j a)
      | Lt => two_loop fuel n1 n2 cmp both left right (S i) j (left i j a)
      | Gt => two_loop fuel n1 n2 cmp both left right i (S j) (right i j a)
      end
    else (i, j, a)
  end.

(** Each turn advances a pointer. *)
Definition walk {A} (n1 n2 : nat) cmp both left right (a : A) : nat * nat * A :=
  two_loop (n1 + n2) n1 n2 cmp both left right 0 0 a.

Definition keep {A} (i j : nat) (a : A) : A := a.

(** * The routines *)

Definition Vec_IntTwoCountCommon (vArr1 vArr2 : Vec_Int_t) : Z :=
  (walk (vsize vArr1) (vsize vArr2) (fun i j _ => (ent vArr1 i ?= ent vArr2 j)%Z)
    (fun _ _ Counter => (Counter + 1)%Z) keep keep 0%Z).2.

(** The number of common entries and the array [vArr]. *)
Definition Vec_IntTwoFindCommon (vArr1 vArr2 vArr : Vec_Int_t) : Z * Vec_Int_t :=
  let vArr := (walk (vsize vArr1) (vsize vArr2) (fun i j _ => (ent vArr1 i ?= ent vArr2 j)%Z)
    (fun i _ vArr => Vec_IntPush vArr (ent vArr1 i)) keep keep (Vec_IntClear vArr)).2 in
  (nSize vArr, vArr).
Definition Vec_IntTwoFindCommonReverse (vArr1 vArr2 vArr : Vec_Int_t) : Z * Vec_Int_t :=
  let vArr := (walk (vsize vArr1) (vsize vArr2) (fun i j _ => (ent vArr2 j ?= ent vArr1 i)%Z)
    (fun i _ vArr => Vec_IntPush vArr (ent vArr1 i)) keep keep (Vec_IntClear vArr)).2 in
  (nSize vArr, vArr).

(** An array and the pointer [pBegNew] that its entries are moved to. *)
Definition move (from : nat) (s : list Z * nat) : list Z * nat := let '(a, k) := s in (put a k a.[from], S k).
(** [while ( pBeg < pEnd ) *pBegNew++ = *pBeg++;] *)
Definition move_rest (from n : nat) (s : list Z * nat) : list Z * nat := for_range from n move s.
(** [Vec_IntShrink( vArr, pBegNew - vArr->pArray );] *)
Definition shrink_to (v : Vec_Int_t) (s : list Z * nat) : option Vec_Int_t := Vec_IntShrink (with_array v s.1) (Z.of_nat s.2).

(** The number of common entries and the three arrays. *)
Definition Vec_IntTwoRemoveCommon (vArr1 vArr2 vArr : Vec_Int_t) : option (Z * Vec_Int_t * Vec_Int_t * Vec_Int_t) :=
  let '(i, j, (s1, s2, vArr)) := walk (vsize vArr1) (vsize vArr2)
    (fun i j '(s1, s2, _) => (s1.1.[i] ?= s2.1.[j])%Z)
    (fun i _ '(s1, s2, vArr) => (s1, s2, Vec_IntPush vArr s1.1.[i]))
    (fun i _ '(s1, s2, vArr) => (move i s1, s2, vArr))
    (fun _ j '(s1, s2, vArr) => (s1, move j s2, vArr))
    ((pArray vArr1, 0), (pArray vArr2, 0), Vec_IntClear vArr) in
  let s1 := move_rest i (vsize vArr1) s1 in
  let s2 := move_rest j (vsize vArr2) s2 in
  vArr1 ← shrink_to vArr1 s1;
  vArr2 ← shrink_to vArr2 s2;
  Some (nSize vArr, vArr1, vArr2, vArr).

Definition Vec_IntTwoRemove (vArr1 vArr2 : Vec_Int_t) : option (Z * Vec_Int_t) :=
  let '(i, _, s1) := walk (vsize vArr1) (vsize vArr2) (fun i j s1 => (s1.1.[i] ?= ent vArr2 j)%Z)
    keep (fun i _ s1 => move i s1) keep (pArray vArr1, 0) in
  vArr1 ← shrink_to vArr1 (move_rest i (vsize vArr1) s1);
  Some (nSize vArr1, vArr1).

(** The final assertion [vArr1->nSize >= pBeg - vArr1->pArray]. *)
Definition checked_size (v : Vec_Int_t) (s : list Z * nat) : option Vec_Int_t :=
  if (Z.of_nat s.2 <=? nSize v)%Z then Some (with_size (with_array v s.1) (Z.of_nat s.2)) else None.

Definition Vec_IntTwoMerge1 (vArr1 vArr2 : Vec_Int_t) : option Vec_Int_t :=
  checked_size vArr1 (walk (vsize vArr1) (vsize vArr2) (fun i j s => (s.1.[i] ?= ent vArr2 j)%Z)
    (fun i _ s => move i s) keep keep (pArray vArr1, 0)).2.

Definition Vec_IntTwoRemove1 (vArr1 vArr2 : Vec_Int_t) : option Vec_Int_t :=
  let '(i, _, s) := walk (vsize vArr1) (vsize vArr2) (fun i j s => (s.1.[i] ?= ent vArr2 j)%Z)
    keep (fun i _ s => move i s) keep (pArray vArr1, 0) in
  checked_size vArr1 (move_rest i (vsize vArr1) s).

(** [*pBeg++ = x] *)
Definition append1 (x : Z) (s : list Z * nat) : list Z * nat := let '(a, k) := s in (put a k x, S k).

Definition Vec_IntTwoMerge2Int (vArr1 vArr2 vArr : Vec_Int_t) : option Vec_Int_t :=
  let '(i, j, s) := walk (vsize vArr1) (vsize vArr2) (fun i j _ => (ent vArr1 i ?= ent vArr2 j)%Z)
    (fun i _ s => append1 (ent vArr1 i) s) (fun i _ s => append1 (ent vArr1 i) s) (fun _ j s => append1 (ent vArr2 j) s)
    (pArray vArr, 0) in
  let s := for_range i (vsize vArr1) (fun i s => append1 (ent vArr1 i) s) s in
  let s := for_range j (vsize vArr2) (fun j s => append1 (ent vArr2 j) s) s in
  let vArr := with_size (with_array vArr s.1) (Z.of_nat s.2) in
  if ((nSize vArr <=? nCap vArr) && (nSize vArr1 <=? nSize vArr) && (nSize vArr2 <=? nSize vArr))%Z
  then Some vArr else None.

Definition Vec_IntTwoMerge (vArr1 vArr2 : Vec_Int_t) : option Vec_Int_t :=
  Vec_IntTwoMerge2Int vArr1 vArr2 (Vec_IntAlloc (nSize vArr1 + nSize vArr2)).
Definition Vec_IntTwoMerge2 (vArr1 vArr2 vArr : Vec_Int_t) : option Vec_Int_t :=
  Vec_IntTwoMerge2Int vArr1 vArr2 (Vec_IntGrow vArr (nSize vArr1 + nSize vArr2)).

(** The common entries, the other entries of the first and those of the second array. *)
Definition Vec_IntTwoSplit (vArr1 vArr2 vArr vArr1n vArr2n : Vec_Int_t) : Vec_Int_t * Vec_Int_t * Vec_Int_t :=
  let '(i, j, (vArr, vArr1n, vArr2n)) := walk (vsize vArr1) (vsize vArr2) (fun i j _ => (ent vArr1 i ?= ent vArr2 j)%Z)
    (fun i _ '(v, v1, v2) => (Vec_IntPush v (ent vArr1 i), v1, v2))
    (fun i _ '(v, v1, v2) => (v, Vec_IntPush v1 (ent vArr1 i), v2))
    (fun _ j '(v, v1, v2) => (v, v1, Vec_IntPush v2 (ent vArr2 j))) (vArr, vArr1n, vArr2n) in
  let vArr1n := for_range i (vsize vArr1) (fun i v => Vec_IntPush v (ent vArr1 i)) vArr1n in
  let vArr2n := for_range j (vsize vArr2) (fun j v => Vec_IntPush v (ent vArr2 j)) vArr2n in
  (vArr, vArr1n, vArr2n).

(** * The rule of the loop *)

Section walk.
Context (R : Z -> Z -> Prop) {HR : StrictOrder R} (xs ys : list Z).
Context (Hx : ordered R (length xs) xs) (Hy : ordered R (length ys) ys).

(** What is behind one pointer comes before what is ahead of the other. *)
Record front (i j : nat) : Prop := {
  front_i : i <= length xs;
  front_j : j <= length ys;
  front_xy : forall x y, x < i -> j <= y < length ys -> R xs.[x] ys.[y];
  front_yx : forall x y, y < j -> i <= x < length xs -> R ys.[y] xs.[x];
}.

Lemma front_eq i j : front i j -> i < length xs -> j < length ys -> xs.[i] = ys.[j] -> front (S i) (S j).
Proof using Hx Hy.
  intros [H1 H2 H3 H4] Hi Hj E. constructor; [lia..| |].
  - intros x y Hxi Hyj. destruct (Nat.eq_dec x i) as [-> | ]; [rewrite E; apply Hy; lia|apply H3; lia].
  - intros x y Hyj Hxi. destruct (Nat.eq_dec y j) as [-> | ]; [rewrite <- E; apply Hx; lia|apply H4; lia].
Qed.

Lemma front_lt i j : front i j -> i < length xs -> j < length ys -> R xs.[i] ys.[j] -> front (S i) j.
Proof using HR Hx Hy.
  intros [H1 H2 H3 H4] Hi Hj E. constructor; [lia..| |].
  - intros x y Hxi Hyj. destruct (Nat.eq_dec x i) as [-> | ]; [|apply H3; lia].
    destruct (Nat.eq_dec y j) as [-> | ]; [done|]. etransitivity; [exact E|]. apply Hy; lia.
  - intros x y Hyj Hxi. apply H4; lia.
Qed.

Lemma front_gt i j : front i j -> i < length xs -> j < length ys -> R ys.[j] xs.[i] -> front i (S j).
Proof using HR Hx Hy.
  intros [H1 H2 H3 H4] Hi Hj E. constructor; [lia..| |].
  - intros x y Hxi Hyj. apply H3; lia.
  - intros x y Hyj Hxi. destruct (Nat.eq_dec y j) as [-> | ]; [|apply H4; lia].
    destruct (Nat.eq_dec x i) as [-> | ]; [done|]. etransitivity; [exact E|]. apply Hx; lia.
Qed.

(** An entry that is before the other array's next entry, or past its end, is not in it. *)
Lemma front_not_y i j x : front i j -> i <= x < length xs -> (j < length ys -> R xs.[x] ys.[j]) -> xs.[x] ∉ ys.
Proof using HR Hy.
  intros [H1 H2 H3 H4] Hxi E Hin. apply elem_rd in Hin as (y & Hyl & Ey).
  destruct (Nat.lt_ge_cases y j) as [Hlt|Hge].
  - specialize (H4 x y Hlt Hxi). rewrite Ey in H4. by apply (StrictOrder_Irreflexive xs.[x]).
  - specialize (E ltac:(lia)). destruct (Nat.eq_dec y j) as [-> | ].
    + rewrite Ey in E. by apply (StrictOrder_Irreflexive xs.[x]).
    + assert (R ys.[j] ys.[y]) as H by (apply Hy; lia). rewrite Ey in H.
      apply (StrictOrder_Irreflexive xs.[x]). etransitivity; [exact E|done].
Qed.

Lemma front_not_x i j y : front i j -> j <= y < length ys -> (i < length xs -> R ys.[y] xs.[i]) -> ys.[y] ∉ xs.
Proof using HR Hx.
  intros [H1 H2 H3 H4] Hyj E Hin. apply elem_rd in Hin as (x & Hxl & Ex).
  destruct (Nat.lt_ge_cases x i) as [Hlt|Hge].
  - specialize (H3 x y Hlt Hyj). rewrite Ex in H3. by apply (StrictOrder_Irreflexive ys.[y]).
  - specialize (E ltac:(lia)). destruct (Nat.eq_dec x i) as [-> | ].
    + rewrite Ex in E. by apply (StrictOrder_Irreflexive ys.[y]).
    + assert (R xs.[i] xs.[x]) as H by (apply Hx; lia). rewrite Ex in H.
      apply (StrictOrder_Irreflexive ys.[y]). etransitivity; [exact E|done].
Qed.

Lemma walk_rule {A} (I : nat -> nat -> A -> Prop) cmp both left right a :
  (forall i j a, I i j a -> i < length xs -> j < length ys ->
     CompareSpec (xs.[i] = ys.[j]) (R xs.[i] ys.[j]) (R ys.[j] xs.[i]) (cmp i j a)) ->
  I 0 0 a ->
  (forall i j a, front i j -> I i j a -> i < length xs -> j < length ys -> xs.[i] = ys.[j] -> xs.[i] ∈ ys -> I (S i) (S j) (both i j a)) ->
  (forall i j a, front i j -> I i j a -> i < length xs -> j < length ys -> R xs.[i] ys.[j] -> xs.[i] ∉ ys -> I (S i) j (left i j a)) ->
  (forall i j a, front i j -> I i j a -> i < length xs -> j < length ys -> R ys.[j] xs.[i] -> ys.[j] ∉ xs -> I i (S j) (right i j a)) ->
  exists i j a', walk (length xs) (length ys) cmp both left right a = (i, j, a') /\ I i j a' /\ front i j /\
    (forall x, i <= x < length xs -> xs.[x] ∉ ys) /\ (forall y, j <= y < length ys -> ys.[y] ∉ xs) /\
    (i = length xs \/ j = length ys).
Proof using HR Hx Hy.
  intros Hcmp H0 HE HL HG. unfold walk.
  assert (forall fuel i j a, front i j -> I i j a -> length xs + length ys <= fuel + i + j ->
    exists i' j' a', two_loop fuel (length xs) (length ys) cmp both left right i j a = (i', j', a') /\ I i' j' a' /\ front i' j' /\
      (forall x, i' <= x < length xs -> xs.[x] ∉ ys) /\ (forall y, j' <= y < length ys -> ys.[y] ∉ xs) /\
      (i' = length xs \/ j' = length ys)) as H.
  { intros fuel. induction fuel as [|fuel IH]; intros i j b HF HI Hf; cbn [two_loop]; pose proof HF as [F1 F2 _ _].
    - exists i, j, b. repeat (split; [done|]). split; [intros; lia|]. split; [intros; lia|lia].
    - destruct (Nat.ltb_spec i (length xs)) as [Hi|Hi]; cbn [andb].
      2:{ exists i, j, b. repeat (split; [done|]). split; [intros; lia|]. split; [|lia]. intros y Hyj. apply (front_not_x i j); [done..|lia]. }
      destruct (Nat.ltb_spec j (length ys)) as [Hj|Hj].
      2:{ exists i, j, b. repeat (split; [done|]). split; [|split; [intros; lia|lia]]. intros x Hxi. apply (front_not_y i j); [done..|lia]. }
      destruct (Hcmp i j b HI Hi Hj) as [E|E|E]; apply IH; try lia.
      + by apply front_eq.
      + apply HE; try done. rewrite E. apply elem_rd. by exists j.
      + by apply front_lt.
      + apply HL; try done. by apply (front_not_y i j).
      + by apply front_gt.
      + apply HG; try done. by apply (front_not_x i j). }
  apply H; [constructor; intros; lia|done|lia].
Qed.
End walk.

(** The comparison of increasing and of decreasing arrays. *)
Lemma compare_lt x y : CompareSpec (x = y) (x < y)%Z (y < x)%Z (x ?= y)%Z.
Proof. apply Z.compare_spec. Qed.
Lemma compare_gt x y : CompareSpec (x = y) (Z.gt x y) (Z.gt y x) (y ?= x)%Z.
Proof. destruct (Z.compare_spec y x); constructor; lia. Qed.

(** * Filtering *)

Definition inb (l : list Z) (x : Z) : bool := bool_decide (x ∈ l).
Definition notin (l : list Z) (x : Z) : bool := negb (inb l x).
Definition commons (xs ys : list Z) : list Z := List.filter (inb ys) xs.
Definition minus (xs ys : list Z) : list Z := List.filter (notin ys) xs.

Lemma inb_true l x : x ∈ l -> inb l x = true.
Proof. apply bool_decide_eq_true_2. Qed.
Lemma inb_false l x : x ∉ l -> inb l x = false.
Proof. apply bool_decide_eq_false_2. Qed.

Lemma take_next (xs : list Z) i : i < length xs -> take (S i) xs = take i xs ++ [xs.[i]].
Proof. intros Hi. apply take_S_r. by apply rd_in. Qed.

Lemma filter_next f (xs : list Z) i : i < length xs ->
  List.filter f (take (S i) xs) = List.filter f (take i xs) ++ if f xs.[i] then [xs.[i]] else [].
Proof. intros Hi. rewrite take_next, List.filter_app by done. cbn. by destruct (f _). Qed.

Lemma filter_none f (l : list Z) : (forall x, x ∈ l -> f x = false) -> List.filter f l = [].
Proof.
  induction l as [|x l IH]; intros H; [done|]. cbn. rewrite H by (apply elem_of_cons; by left).
  apply IH. intros y Hy. apply H, elem_of_cons. by right.
Qed.
Lemma filter_all f (l : list Z) : (forall x, x ∈ l -> f x = true) -> List.filter f l = l.
Proof.
  induction l as [|x l IH]; intros H; [done|]. cbn. rewrite H by (apply elem_of_cons; by left).
  f_equal. apply IH. intros y Hy. apply H, elem_of_cons. by right.
Qed.

Lemma in_drop (xs : list Z) i x : x ∈ drop i xs -> exists k, i <= k < length xs /\ xs.[k] = x.
Proof.
  intros H. apply elem_rd in H as (k & Hk & <-). rewrite length_drop in Hk. rewrite rd_drop. exists (i + k). split; [lia|done].
Qed.

(** When no entry from place [i] on passes. *)
Lemma filter_rest_none f (xs : list Z) i : (forall x, i <= x < length xs -> f xs.[x] = false) ->
  List.filter f xs = List.filter f (take i xs).
Proof.
  intros H. rewrite <- (take_drop i xs) at 1. rewrite List.filter_app, (filter_none f (drop i xs)); [apply app_nil_r|].
  intros x (k & Hk & <-)%in_drop. by apply H.
Qed.

(** * Entries moved to the front of their own array *)

(** The entries that pass, of the first [i], are at the front; the others are where they were. *)
Definition moved (f : Z -> bool) (xs : list Z) (i : nat) (s : list Z * nat) : Prop :=
  s.2 = length (List.filter f (take i xs)) /\ (forall m, m < s.2 -> (s.1).[m] = (List.filter f (take i xs)).[m]) /\
  (forall m, i <= m < length xs -> (s.1).[m] = xs.[m]) /\ length xs <= length s.1.

Lemma moved_0 f p xs : vec p xs -> moved f xs 0 (pArray p, 0).
Proof.
  intros [H1 H2 H3 H4]. repeat split; cbn [fst snd]; [lia| |done]. intros m Hm. apply H3. lia.
Qed.

Lemma moved_at f xs i s m : moved f xs i s -> i <= m < length xs -> (s.1).[m] = xs.[m].
Proof. intros (_ & _ & H & _). apply H. Qed.

Lemma moved_skip f xs i s : moved f xs i s -> i < length xs -> f xs.[i] = false -> moved f xs (S i) s.
Proof.
  intros (H1 & H2 & H3 & H4) Hi Hf. unfold moved. rewrite filter_next, Hf, app_nil_r by done.
  repeat (split; [done|]). split; [|done]. intros m Hm. apply H3. lia.
Qed.

Lemma length_filter_take f (xs : list Z) i : i <= length xs -> length (List.filter f (take i xs)) <= i.
Proof. intros Hi. pose proof (filter_length_le f (take i xs)) as H. rewrite length_take in H. lia. Qed.

Lemma moved_move f xs i s : moved f xs i s -> i < length xs -> f xs.[i] = true -> moved f xs (S i) (move i s).
Proof.
  destruct s as [a k]. intros (H1 & H2 & H3 & H4) Hi Hf. cbn [fst snd] in *. unfold moved, move. cbn [fst snd].
  pose proof (length_filter_take f xs i ltac:(lia)). rewrite filter_next, Hf by done. split; [|split; [|split]].
  - rewrite length_app. cbn. lia.
  - intros m Hm. rewrite rd_put, rd_app, rd_cons. rewrite <- H1.
    destruct (Nat.eqb_spec m k), (Nat.ltb_spec m k), (Nat.eqb_spec (m - k) 0); try lia.
    + apply H3. lia.
    + by apply H2.
  - intros m Hm. rewrite rd_put. destruct (Nat.eqb_spec m k); [lia|]. apply H3. lia.
  - rewrite length_put. lia.
Qed.

Lemma moved_rest f xs i s : moved f xs i s -> i <= length xs -> (forall m, i <= m < length xs -> f xs.[m] = true) ->
  moved f xs (length xs) (move_rest i (length xs) s).
Proof.
  intros H Hi Hf. unfold move_rest. apply (for_range_ind (fun k s => moved f xs k s)); [done..|].
  intros k s' Hk HM. apply moved_move; [done|lia|apply Hf; lia].
Qed.

(** Shrinking the array to the entries moved. *)
Lemma moved_vec f p xs s : vec p xs -> moved f xs (length xs) s ->
  vec {| nCap := nCap p; nSize := Z.of_nat s.2; pArray := s.1 |} (List.filter f xs).
Proof.
  intros [H1 H2 H3 H4] (M1 & M2 & _ & M4). rewrite take_ge in M1, M2 by done.
  pose proof (filter_length_le f xs). apply vec_changed; [lia|lia|lia|]. intros m Hm. apply M2. lia.
Qed.

(** * What each routine computes *)

Section two.
Context (p q : Vec_Int_t) (xs ys : list Z) (Hp : vec p xs) (Hq : vec q ys).

(** The entries under the pointers. *)
Lemma two_cmp (R : Z -> Z -> Prop) (cmp : Z -> Z -> comparison) i j :
  (forall x y, CompareSpec (x = y) (R x y) (R y x) (cmp x y)) -> i < length xs -> j < length ys ->
  CompareSpec (xs.[i] = ys.[j]) (R xs.[i] ys.[j]) (R ys.[j] xs.[i]) (cmp (ent p i) (ent q j)).
Proof using Hp Hq. intros H Hi Hj. rewrite (vec_ent p xs Hp), (vec_ent q ys Hq) by done. apply H. Qed.

Lemma vec_small (xs' : list Z) : length xs' < length xs -> (Z.of_nat (length xs') < ABC_INT_MAX)%Z.
Proof using Hp. destruct Hp. lia. Qed.

(** The common entries pushed onto an array that is cleared first. *)
Lemma collect_commons (R : Z -> Z -> Prop) {HR : StrictOrder R} (cmp : Z -> Z -> comparison) v :
  (forall x y, CompareSpec (x = y) (R x y) (R y x) (cmp x y)) -> ordered R (length xs) xs -> ordered R (length ys) ys ->
  vec v [] ->
  vec (walk (vsize p) (vsize q) (fun i j _ => cmp (ent p i) (ent q j))
    (fun i _ v => Vec_IntPush v (ent p i)) keep keep v).2 (commons xs ys).
Proof using Hp Hq.
  intros Hc Hx Hy Hv. rewrite (vec_length p xs Hp), (vec_length q ys Hq).
  destruct (walk_rule R xs ys Hx Hy (fun i j v => vec v (commons (take i xs) ys))
    (fun i j _ => cmp (ent p i) (ent q j)) (fun i _ v => Vec_IntPush v (ent p i)) keep keep v) as (i & j & v' & -> & HV & _ & Hn & _).
  - intros; by apply two_cmp.
  - done.
  - intros i j w _ HV Hi Hj _ Hin. unfold commons. rewrite filter_next, inb_true, (vec_ent p xs Hp) by done.
    apply Push_vec; [done|]. apply vec_small. unfold commons. pose proof (length_filter_take (inb ys) xs i). lia.
  - intros i j w _ HV Hi Hj _ Hin. unfold commons, keep. by rewrite filter_next, inb_false, app_nil_r.
  - done.
  - cbn [snd]. unfold commons in *. rewrite (filter_rest_none _ xs i); [done|]. intros x Hxi. by apply inb_false, Hn.
Qed.

Context (Hx : ordered Z.lt (length xs) xs) (Hy : ordered Z.lt (length ys) ys).

Lemma TwoCountCommon_spec : Vec_IntTwoCountCommon p q = Z.of_nat (length (commons xs ys)).
Proof using Hp Hq Hx Hy.
  unfold Vec_IntTwoCountCommon. rewrite (vec_length p xs Hp), (vec_length q ys Hq).
  destruct (walk_rule Z.lt xs ys Hx Hy (fun i j (c : Z) => c = Z.of_nat (length (commons (take i xs) ys)))
    (fun i j _ => (ent p i ?= ent q j)%Z) (fun _ _ c => (c + 1)%Z) keep keep 0%Z) as (i & j & c & -> & HV & _ & Hn & _).
  - intros; apply (two_cmp Z.lt); [apply compare_lt|done..].
  - done.
  - intros i j w _ -> Hi Hj _ Hin. unfold commons. rewrite filter_next, inb_true, length_app by done. cbn. lia.
  - intros i j w _ -> Hi Hj _ Hin. unfold commons, keep. by rewrite filter_next, inb_false, app_nil_r.
  - done.
  - cbn [snd]. rewrite HV. unfold commons. rewrite (filter_rest_none _ xs i); [done|]. intros x Hxi. by apply inb_false, Hn.
Qed.

(** The entries of the first array that are not in the second, moved to its front. *)
Lemma move_minus s0 : s0 = (pArray p, 0) ->
  let '(i, _, s1) := walk (vsize p) (vsize q) (fun i j s1 => (s1.1.[i] ?= ent q j)%Z) keep (fun i _ s1 => move i s1) keep s0 in
  moved (notin ys) xs (length xs) (move_rest i (length xs) s1).
Proof using Hp Hq Hx Hy.
  intros ->. rewrite (vec_length p xs Hp), (vec_length q ys Hq).
  destruct (walk_rule Z.lt xs ys Hx Hy (fun i j s => moved (notin ys) xs i s)
    (fun i j s1 => (s1.1.[i] ?= ent q j)%Z) keep (fun i _ s1 => move i s1) keep (pArray p, 0)) as (i & j & s & -> & HV & HF & Hn & _).
  - intros i j a HM Hi Hj. rewrite (moved_at _ _ _ _ i HM), (vec_ent q ys Hq) by lia. apply compare_lt.
  - by apply moved_0.
  - intros i j w _ HM Hi Hj _ Hin. apply moved_skip; [done..|]. unfold notin. by rewrite inb_true.
  - intros i j w _ HM Hi Hj _ Hin. apply moved_move; [done..|]. unfold notin. by rewrite inb_false.
  - done.
  - apply moved_rest; [done|apply HF|]. intros m Hm. unfold notin. by rewrite inb_false by by apply Hn.
Qed.

Lemma checked_moved f s : moved f xs (length xs) s -> exists p', checked_size p s = Some p' /\ vec p' (List.filter f xs).
Proof using Hp.
  intros H. unfold checked_size. pose proof (moved_vec f p xs s Hp H) as HV. pose proof H as (H1 & _).
  rewrite take_ge in H1 by done. pose proof (filter_length_le f xs). rewrite (vec_size p xs Hp), (proj2 (Z.leb_le _ _)) by lia.
  by eexists.
Qed.

Lemma shrink_moved p0 xs0 (Hp0 : vec p0 xs0) f s : moved f xs0 (length xs0) s -> exists p', shrink_to p0 s = Some p' /\ vec p' (List.filter f xs0).
Proof using.
  intros H. unfold shrink_to, Vec_IntShrink. pose proof (moved_vec f p0 xs0 s Hp0 H) as HV. pose proof H as (H1 & _). pose proof (vec_size p0 xs0 Hp0) as Sz.
  rewrite take_ge in H1 by done. pose proof (filter_length_le f xs0). unfold with_array. cbn [nSize]. rewrite (proj2 (Z.leb_le _ _)) by lia. by eexists.
Qed.

Lemma TwoRemove_spec : exists p', Vec_IntTwoRemove p q = Some (Z.of_nat (length (minus xs ys)), p') /\ vec p' (minus xs ys).
Proof using Hp Hq Hx Hy.
  unfold Vec_IntTwoRemove. pose proof (move_minus _ eq_refl) as H. destruct (walk _ _ _ _ _ _ _) as [[i j] s1].
  rewrite (vec_length p xs Hp). apply (shrink_moved p xs Hp) in H as (p' & -> & H). exists p'. split; [|exact H]. cbn [mbind option_bind]. do 2 f_equal. apply H.
Qed.

Lemma TwoRemove1_spec : exists p', Vec_IntTwoRemove1 p q = Some p' /\ vec p' (minus xs ys).
Proof using Hp Hq Hx Hy.
  unfold Vec_IntTwoRemove1. pose proof (move_minus _ eq_refl) as H. destruct (walk _ _ _ _ _ _ _) as [[i j] s1].
  rewrite (vec_length p xs Hp). by apply checked_moved in H.
Qed.

Lemma TwoMerge1_spec : exists p', Vec_IntTwoMerge1 p q = Some p' /\ vec p' (commons xs ys).
Proof using Hp Hq Hx Hy.
  unfold Vec_IntTwoMerge1. rewrite (vec_length p xs Hp), (vec_length q ys Hq).
  destruct (walk_rule Z.lt xs ys Hx Hy (fun i j s => moved (inb ys) xs i s)
    (fun i j s1 => (s1.1.[i] ?= ent q j)%Z) (fun i _ s1 => move i s1) keep keep (pArray p, 0)) as (i & j & s & -> & HM & HF & Hn & _).
  - intros i j a HM Hi Hj. rewrite (moved_at _ _ _ _ i HM), (vec_ent q ys Hq) by lia. apply compare_lt.
  - by apply moved_0.
  - intros i j w _ HM Hi Hj _ Hin. apply moved_move; [done..|]. by rewrite inb_true.
  - intros i j w _ HM Hi Hj _ Hin. apply moved_skip; [done..|]. by rewrite inb_false.
  - done.
  - cbn [snd]. apply checked_moved. destruct HF as [F1 _ _ _]. revert HM. 
    assert (forall k, i <= k <= length xs -> moved (inb ys) xs i s -> moved (inb ys) xs k s) as HK; [|apply HK; lia].
    intros k [Hik Hk] HM. induction Hik as [|k Hik IH]; [done|]. apply moved_skip; [apply IH; lia|lia|].
    apply inb_false, Hn. lia.
Qed.

Lemma TwoRemoveCommon_spec v : vec (Vec_IntClear v) [] ->
  exists p' q' v', Vec_IntTwoRemoveCommon p q v = Some (Z.of_nat (length (commons xs ys)), p', q', v') /\
    vec p' (minus xs ys) /\ vec q' (minus ys xs) /\ vec v' (commons xs ys).
Proof using Hp Hq Hx Hy.
  intros Hv. unfold Vec_IntTwoRemoveCommon. rewrite (vec_length p xs Hp), (vec_length q ys Hq).
  match goal with |- context [walk _ _ ?c ?b ?l ?r ?a] => destruct (walk_rule Z.lt xs ys Hx Hy
    (fun i j '(s1, s2, v) => moved (notin ys) xs i s1 /\ moved (notin xs) ys j s2 /\ vec v (commons (take i xs) ys)) c b l r a)
    as (i & j & [[s1 s2] v'] & -> & (H1 & H2 & H3) & HF & Hn & Hm & _) end.
  - intros i j [[s1 s2] w] (H1 & H2 & _) Hi Hj. rewrite (moved_at _ _ _ _ i H1), (moved_at _ _ _ _ j H2) by lia. apply compare_lt.
  - split; [by apply moved_0|]. split; [by apply moved_0|done].
  - intros i j [[s1 s2] w] _ (H1 & H2 & H3) Hi Hj E Hin. rewrite (moved_at _ _ _ _ i H1) by lia.
    split; [apply moved_skip; [done..|]; unfold notin; by rewrite inb_true|].
    split; [apply moved_skip; [done..|]; unfold notin; rewrite <- E, inb_true; [done|]; apply elem_rd; by exists i|].
    unfold commons. rewrite filter_next, inb_true by done. apply Push_vec; [done|]. apply vec_small.
    pose proof (length_filter_take (inb ys) xs i). unfold commons in *. lia.
  - intros i j [[s1 s2] w] _ (H1 & H2 & H3) Hi Hj E Hin.
    split; [apply moved_move; [done..|]; unfold notin; by rewrite inb_false|]. split; [done|].
    unfold commons. by rewrite filter_next, inb_false, app_nil_r.
  - intros i j [[s1 s2] w] _ (H1 & H2 & H3) Hi Hj E Hin. split; [done|]. split; [|done].
    apply moved_move; [done..|]. unfold notin. by rewrite inb_false.
  - pose proof HF as [F1 F2 _ _].
    assert (vec v' (commons xs ys)) as HV.
    { unfold commons in *. rewrite (filter_rest_none _ xs i); [done|]. intros x Hxi. by apply inb_false, Hn. }
    destruct (shrink_moved p xs Hp (notin ys) (move_rest i (length xs) s1)) as (p' & -> & Vp).
    { apply moved_rest; [done..|]. intros m Hmm. unfold notin. by rewrite inb_false by by apply Hn. }
    destruct (shrink_moved q ys Hq (notin xs) (move_rest j (length ys) s2)) as (q' & -> & Vq).
    { apply moved_rest; [done..|]. intros m Hmm. unfold notin. by rewrite inb_false by by apply Hm. }
    exists p', q', v'. cbn [mbind option_bind]. by rewrite (vec_size _ _ HV).
Qed.

(** Appended entries. *)
Definition wrote (l : list Z) (s : list Z * nat) : Prop :=
  s.2 = length l /\ (forall m, m < length l -> (s.1).[m] = l.[m]) /\ length l <= length s.1.

Lemma wrote_append l s x : wrote l s -> wrote (l ++ [x]) (append1 x s).
Proof using.
  destruct s as [a k]. intros (H1 & H2 & H3). cbn [fst snd] in *. unfold wrote, append1. cbn [fst snd].
  rewrite length_app. cbn [length]. split; [lia|]. split.
  - intros m Hm. rewrite rd_put, rd_app, rd_cons, H1.
    destruct (Nat.eqb_spec m (length l)), (Nat.ltb_spec m (length l)), (Nat.eqb_spec (m - length l) 0); try lia. by apply H2.
  - rewrite length_put. lia.
Qed.

(** The merged entries so far: increasing, made of the entries passed, before all that are ahead. *)
Record merged (i j : nat) (s : list Z * nat) (l : list Z) : Prop := {
  mer_wrote : wrote l s;
  mer_order : ordered Z.lt (length l) l;
  mer_in : forall z, z ∈ l <-> z ∈ take i xs \/ z ∈ take j ys;
  mer_i : i <= length l; mer_j : j <= length l; mer_len : length l <= i + j;
}.

Lemma ordered_snoc l x : ordered Z.lt (length l) l -> (forall z, z ∈ l -> z < x)%Z -> ordered Z.lt (length (l ++ [x])) (l ++ [x]).
Proof using.
  intros H Hz m n Hmn Hn. rewrite length_app in Hn. cbn in Hn. rewrite !rd_app, (proj2 (Nat.ltb_lt m _)) by lia.
  destruct (Nat.ltb_spec n (length l)); [by apply H|]. replace (n - length l) with 0 by lia. cbn.
  apply Hz, elem_rd. exists m. split; [lia|done].
Qed.

Lemma in_take_next (zs : list Z) i z : i < length zs -> z ∈ take (S i) zs <-> z ∈ take i zs \/ z = zs.[i].
Proof using. intros Hi. by rewrite take_next, elem_of_app, list_elem_of_singleton. Qed.

Lemma in_take (zs : list Z) i z : z ∈ take i zs <-> exists k, k < i /\ k < length zs /\ zs.[k] = z.
Proof using.
  rewrite elem_rd, length_take. split; intros (k & Hk & E).
  - rewrite rd_take, (proj2 (Nat.ltb_lt _ _)) in E by lia. exists k. split; [lia|]. split; [lia|done].
  - destruct E as [Hk' <-]. exists k. split; [lia|]. by rewrite rd_take, (proj2 (Nat.ltb_lt _ _)) by lia.
Qed.

(** Everything that was passed is before the entry [x]. *)
Lemma passed_before i j s l x : merged i j s l ->
  (forall k, k < i -> k < length xs -> (xs.[k] < x)%Z) -> (forall k, k < j -> k < length ys -> (ys.[k] < x)%Z) ->
  forall z, z ∈ l -> (z < x)%Z.
Proof using.
  intros H H1 H2 z Hz. apply (mer_in _ _ _ _ H) in Hz as [Hz|Hz]; apply in_take in Hz as (k & Hk & Hkl & <-); auto.
Qed.

Lemma merge_x i j s l : merged i j s l -> front Z.lt xs ys i j -> i < length xs -> 
  merged (S i) j (append1 xs.[i] s) (l ++ [xs.[i]]).
Proof using Hx.
  intros H HF Hi. pose proof H as [M1 M2 M3 M4 M5 M6]. constructor; try (rewrite length_app; cbn; lia).
  - by apply wrote_append.
  - apply ordered_snoc; [done|]. apply (passed_before i j s l); [done|..].
    + intros k Hk Hkl. by apply Hx.
    + intros k Hk Hkl. apply (front_yx _ _ _ _ _ HF); lia.
  - intros z. rewrite elem_of_app, M3, list_elem_of_singleton, in_take_next by done. tauto.
Qed.

Lemma merge_y i j s l : merged i j s l -> front Z.lt xs ys i j -> j < length ys -> 
  merged i (S j) (append1 ys.[j] s) (l ++ [ys.[j]]).
Proof using Hy.
  intros H HF Hj. pose proof H as [M1 M2 M3 M4 M5 M6]. constructor; try (rewrite length_app; cbn; lia).
  - by apply wrote_append.
  - apply ordered_snoc; [done|]. apply (passed_before i j s l); [done|..].
    + intros k Hk Hkl. apply (front_xy _ _ _ _ _ HF); lia.
    + intros k Hk Hkl. by apply Hy.
  - intros z. rewrite elem_of_app, M3, list_elem_of_singleton, in_take_next by done. tauto.
Qed.

Lemma TwoMerge2Int_spec v : (Z.of_nat (length xs + length ys) <= nCap v <= ABC_INT_MAX)%Z ->
  exists v' zs, Vec_IntTwoMerge2Int p q v = Some v' /\ vec v' zs /\ ordered Z.lt (length zs) zs /\
    forall z, z ∈ zs <-> z ∈ xs \/ z ∈ ys.
Proof using Hp Hq Hx Hy.
  intros Hcap. unfold Vec_IntTwoMerge2Int. rewrite (vec_length p xs Hp), (vec_length q ys Hq).
  match goal with |- context [walk _ _ ?c ?b ?f ?g ?a] => destruct (walk_rule Z.lt xs ys Hx Hy
    (fun i j s => exists l, merged i j s l) c b f g a) as (i & j & s & -> & [l HM] & HF & _ & _ & Hend) end.
  - intros; apply (two_cmp Z.lt); [apply compare_lt|done..].
  - exists []. constructor; try (cbn; lia); [repeat split; cbn; intros; lia|intros ? ? ? ?; cbn in *; lia|].
    intros z. rewrite !take_0, !elem_of_nil. tauto.
  - intros i j s HF [l H] Hi Hj E _. exists (l ++ [xs.[i]]). rewrite (vec_ent p xs Hp) by done.
    pose proof (merge_x i j s l H HF Hi) as [M1 M2 M3 M4 M5 M6]. pose proof (mer_j _ _ _ _ H).
    assert (length (l ++ [xs.[i]]) = S (length l)) as EL by (rewrite length_app; cbn; lia).
    constructor; [done|done| |lia|lia|lia].
    intros z. rewrite M3, (in_take_next ys) by done. rewrite <- E, !in_take_next by done. tauto.
  - intros i j s HF [l H] Hi Hj _ _. exists (l ++ [xs.[i]]). rewrite (vec_ent p xs Hp) by done. by apply merge_x.
  - intros i j s HF [l H] Hi Hj _ _. exists (l ++ [ys.[j]]). rewrite (vec_ent q ys Hq) by done. by apply merge_y.
  - pose proof HF as [F1 F2 F3 F4].
    assert (exists l, merged (length xs) j (for_range i (length xs) (fun i s => append1 (ent p i) s) s) l /\ front Z.lt xs ys (length xs) j)
      as (l' & HM' & HF').
    { destruct Hend as [-> | ->]; [rewrite for_range_empty by done; by exists l|].
      apply (for_range_ind (fun k s => exists l, merged k (length ys) s l /\ front Z.lt xs ys k (length ys))); [done|by exists l|].
      intros k s' Hk (l0 & H & HF0). exists (l0 ++ [xs.[k]]). rewrite (vec_ent p xs Hp) by lia.
      split; [apply merge_x; [done..|lia]|]. destruct HF0 as [G1 G2 G3 G4]. constructor; [lia|lia|intros; lia|].
      intros x y Hyj Hxk. apply G4; lia. }
    assert (exists l, merged (length xs) (length ys) (for_range j (length ys) (fun j s => append1 (ent q j) s)
      (for_range i (length xs) (fun i s => append1 (ent p i) s) s)) l /\ front Z.lt xs ys (length xs) (length ys)) as (zs & HZ & _).
    { apply (for_range_ind (fun k s => exists l, merged (length xs) k s l /\ front Z.lt xs ys (length xs) k)); [done|by exists l'|].
      intros k s' Hk (l0 & H & HF0). exists (l0 ++ [ys.[k]]). rewrite (vec_ent q ys Hq) by lia.
      split; [apply merge_y; [done..|lia]|]. destruct HF0 as [G1 G2 G3 G4]. constructor; [lia|lia| |intros; lia].
      intros x y Hxi Hyk. apply G3; lia. }
    clear HM HF HM' HF' Hend. set (s' := for_range j _ _ _) in *. destruct HZ as [(W1 & W2 & W3) M2 M3 M4 M5 M6].
    cbv zeta. unfold with_size, with_array. cbn [nSize nCap pArray]. rewrite (vec_size p xs Hp), (vec_size q ys Hq), W1.
    rewrite !(proj2 (Z.leb_le _ _)) by lia. cbn [andb]. eexists _, zs. split; [done|]. split; [by apply vec_changed; lia || done|].
    split; [done|]. intros z. by rewrite M3, !take_ge.
Qed.

Lemma TwoSplit_spec v v1 v2 : vec v [] -> vec v1 [] -> vec v2 [] ->
  let '(v, v1, v2) := Vec_IntTwoSplit p q v v1 v2 in
  vec v (commons xs ys) /\ vec v1 (minus xs ys) /\ vec v2 (minus ys xs).
Proof using Hp Hq Hx Hy.
  intros H0 H1 H2. unfold Vec_IntTwoSplit. rewrite (vec_length p xs Hp), (vec_length q ys Hq).
  assert (forall (f : Z -> bool) (zs : list Z) k, k < length zs -> length zs <= length xs \/ length zs <= length ys ->
    (Z.of_nat (length (List.filter f (take k zs))) < ABC_INT_MAX)%Z) as Hsmall.
  { intros f zs k Hk Hz. pose proof (length_filter_take f zs k ltac:(lia)). pose proof (vec_cap p xs Hp).
    pose proof (vec_cap q ys Hq). lia. }
  match goal with |- context [walk _ _ ?c ?b ?f ?g ?a] => destruct (walk_rule Z.lt xs ys Hx Hy
    (fun i j '(v, v1, v2) => vec v (commons (take i xs) ys) /\ vec v1 (minus (take i xs) ys) /\ vec v2 (minus (take j ys) xs)) c b f g a)
    as (i & j & [[w w1] w2] & -> & (I0 & I1 & I2) & HF & Hn & Hm & _) end.
  - intros; apply (two_cmp Z.lt); [apply compare_lt|done..].
  - done.
  - intros i j [[w w1] w2] _ (I0 & I1 & I2) Hi Hj E Hin. rewrite (vec_ent p xs Hp) by done. unfold commons, minus, notin in *.
    rewrite !filter_next, <- E by done. rewrite (inb_true ys) by done. rewrite (inb_true xs) by (apply elem_rd; by exists i).
    cbn [negb]. rewrite !app_nil_r. split; [|done]. apply Push_vec; [done|]. apply Hsmall; lia.
  - intros i j [[w w1] w2] _ (I0 & I1 & I2) Hi Hj E Hin. rewrite (vec_ent p xs Hp) by done. unfold commons, minus, notin in *.
    rewrite !filter_next by done. rewrite (inb_false ys) by done. cbn [negb]. rewrite app_nil_r. split; [done|]. split; [|done].
    apply Push_vec; [done|]. apply Hsmall; lia.
  - intros i j [[w w1] w2] _ (I0 & I1 & I2) Hi Hj E Hin. rewrite (vec_ent q ys Hq) by done. unfold commons, minus, notin in *.
    rewrite !filter_next by done. rewrite (inb_false xs) by done. cbn [negb]. split; [done|]. split; [done|].
    apply Push_vec; [done|]. apply Hsmall; lia.
  - destruct HF as [F1 F2 _ _]. split; [|split].
    + unfold commons in *. rewrite (filter_rest_none _ xs i); [done|]. intros x Hxi. by apply inb_false, Hn.
    + unfold minus in *. replace (List.filter (notin ys) xs) with (List.filter (notin ys) (take (length xs) xs)) by by rewrite take_ge.
      apply (for_range_ind (fun k v => vec v (List.filter (notin ys) (take k xs)))); [done..|].
      intros k s Hk HV. rewrite filter_next by lia. unfold notin at 2. rewrite (inb_false ys) by (apply Hn; lia). cbn [negb].
      rewrite (vec_ent p xs Hp) by lia. apply Push_vec; [done|]. apply Hsmall; lia.
    + unfold minus in *. replace (List.filter (notin xs) ys) with (List.filter (notin xs) (take (length ys) ys)) by by rewrite take_ge.
      apply (for_range_ind (fun k v => vec v (List.filter (notin xs) (take k ys)))); [done..|].
      intros k s Hk HV. rewrite filter_next by lia. unfold notin at 2. rewrite (inb_false xs) by (apply Hm; lia). cbn [negb].
      rewrite (vec_ent q ys Hq) by lia. apply Push_vec; [done|]. apply Hsmall; lia.
Qed.
End two.

Lemma Clear_vec p xs : vec p xs -> vec (Vec_IntClear p) [].
Proof. intros [H1 H2 H3 H4]. constructor; cbn; try lia. Qed.

Lemma Alloc_vec n : (n <= ABC_INT_MAX)%Z -> (0 <= n)%Z -> vec (Vec_IntAlloc n) [] /\ (n <= nCap (Vec_IntAlloc n))%Z.
Proof.
  intros Hn H0. unfold Vec_IntAlloc. destruct (Z.ltb_spec 0 n), (Z.ltb_spec n 16); cbn [andb];
    (split; [constructor; cbn; unfold ABC_INT_MAX in *; lia|cbn; lia]).
Qed.

(** * Properties *)

(** C38. Two increasing arrays [p] and [q] as sets: the routines compute the common entries, the entries of one that are
    not in the other, and the union, all increasing and within the capacity, pass their assertions, and leave in place
    what they keep.  The reverse routine does it for two decreasing arrays. *)
Theorem vec_sets_correct p q v xs ys zs :
  vec p xs -> vec q ys -> vec v zs -> (Z.of_nat (length xs + length ys) <= ABC_INT_MAX)%Z ->
  ordered Z.lt (length xs) xs -> ordered Z.lt (length ys) ys ->
  let common := List.filter (fun x => bool_decide (x ∈ ys)) xs in
  let rest1 := List.filter (fun x => negb (bool_decide (x ∈ ys))) xs in
  let rest2 := List.filter (fun y => negb (bool_decide (y ∈ xs))) ys in
  let union r := exists u us, r = Some u /\ vec u us /\ ordered Z.lt (length us) us /\ forall z, z ∈ us <-> z ∈ xs \/ z ∈ ys in
  Vec_IntTwoCountCommon p q = Z.of_nat (length common) /\
  (exists u, Vec_IntTwoFindCommon p q v = (Z.of_nat (length common), u) /\ vec u common) /\
  (exists p' q' u, Vec_IntTwoRemoveCommon p q v = Some (Z.of_nat (length common), p', q', u) /\
     vec p' rest1 /\ vec q' rest2 /\ vec u common) /\
  (exists p', Vec_IntTwoRemove p q = Some (Z.of_nat (length rest1), p') /\ vec p' rest1) /\
  (exists p', Vec_IntTwoRemove1 p q = Some p' /\ vec p' rest1) /\
  (exists p', Vec_IntTwoMerge1 p q = Some p' /\ vec p' common) /\
  union (Vec_IntTwoMerge p q) /\ union (Vec_IntTwoMerge2 p q v) /\
  (let '(u, u1, u2) := Vec_IntTwoSplit p q (Vec_IntClear v) (Vec_IntClear v) (Vec_IntClear v) in
     vec u common /\ vec u1 rest1 /\ vec u2 rest2) /\
  (forall p' q' xs' ys', vec p' xs' -> vec q' ys' -> ordered Z.gt (length xs') xs' -> ordered Z.gt (length ys') ys' ->
     let common' := List.filter (fun x => bool_decide (x ∈ ys')) xs' in
     exists u, Vec_IntTwoFindCommonReverse p' q' v = (Z.of_nat (length common'), u) /\ vec u common').
Proof.
  intros Hp Hq Hv Hn Hx Hy. cbv zeta. pose proof (Clear_vec v zs Hv) as Hc.
  split; [by apply TwoCountCommon_spec|]. split; [|split; [by apply TwoRemoveCommon_spec|]].
  - pose proof (collect_commons p q xs ys Hp Hq Z.lt Z.compare (Vec_IntClear v) compare_lt Hx Hy Hc) as H.
    unfold Vec_IntTwoFindCommon. rewrite (vec_size _ _ H). eexists. split; [done|exact H].
  - split; [by apply TwoRemove_spec|]. split; [by apply TwoRemove1_spec|]. split; [by apply TwoMerge1_spec|].
    pose proof (vec_size p xs Hp) as Sp. pose proof (vec_size q ys Hq) as Sq. split; [|split; [|split; [by apply TwoSplit_spec|]]].
    + apply TwoMerge2Int_spec; [done..|]. rewrite Sp, Sq, <- Nat2Z.inj_add.
      destruct (Alloc_vec (Z.of_nat (length xs + length ys)) Hn ltac:(lia)) as [A1 A2]. pose proof (vec_cap _ _ A1). lia.
    + apply TwoMerge2Int_spec; [done..|]. rewrite Sp, Sq, <- Nat2Z.inj_add.
      destruct (Grow_vec v zs (Z.of_nat (length xs + length ys)) Hv Hn) as (G1 & _ & _ & G4). pose proof (vec_cap _ _ G1). lia.
    + intros p' q' xs' ys' Hp' Hq' Hx' Hy'. cbv zeta.
      assert (StrictOrder Z.gt) as HG by (split; [intros x Hxx; lia|intros x y z; lia]).
      pose proof (collect_commons p' q' xs' ys' Hp' Hq' Z.gt (fun x y => (y ?= x)%Z) (Vec_IntClear v) compare_gt Hx' Hy' Hc) as H.
      unfold Vec_IntTwoFindCommonReverse. rewrite (vec_size _ _ H). eexists. split; [done|exact H].
Qed.

Lemma vec_sets_correct_witness :
  let p := Vec_IntPush (Vec_IntPush (Vec_IntPush (Vec_IntAlloc 0) 2) 5) 9 in
  let q := Vec_IntPush (Vec_IntPush (Vec_IntAlloc 0) 5) 7 in
  option_map pArray (Vec_IntTwoMerge p q) = Some [2; 5; 7; 9]%Z /\
  Vec_IntTwoCountCommon p q = Z.of_nat (length (List.filter (fun x => bool_decide (x ∈ [5; 7]%Z)) [2; 5; 9]%Z)).
Proof.
  intros p q. split; [reflexivity|].
  assert (vec p [2; 5; 9]%Z) as Hp.
  { constructor; [reflexivity|by apply Nat.leb_le| |cbn; split; discriminate].
    intros [|[|[|i]]] Hi; cbn in Hi; reflexivity || lia. }
  apply (vec_sets_correct p q p [2; 5; 9]%Z [5; 7]%Z [2; 5; 9]%Z).
  - exact Hp.
  - constructor; [reflexivity|by apply Nat.leb_le| |cbn; split; discriminate].
    intros [|[|i]] Hi; cbn in Hi; reflexivity || lia.
  - exact Hp.
  - done.
  - intros [|[|[|i]]] [|[|[|j]]] Hij Hj; cbn in *; reflexivity || lia.
  - intros [|[|i]] [|[|j]] Hij Hj; cbn in *; reflexivity || lia.
Defined.
