(* ===== verification/Cube.v ===== *)
(** Cubes, covers and their meaning ([kit.h]).

    A cube is an unsigned word with two bits per variable.  In the covers of [kitIsop.c]
    bit [2v] is the negative and bit [2v+1] the positive literal of variable [v]; the
    factoring code works on the inverse encoding (see [Sop]). *)
From S2P Require Import Prelude Words.

(** * Data and inline routines *)

Record Kit_Sop_t := { nLits : Z; nCubes : Z; pCubes : list Z }.

Definition Kit_CubeHasLit (uCube : Z) (i : nat) : bool := (0 <? (uCube &&& (1 <<< i)))%Z.
Definition Kit_CubeSetLit (uCube : Z) (i : nat) : Z := (uCube ||| (1 <<< i))%Z.
Definition Kit_CubeXorLit (uCube : Z) (i : nat) : Z := (uCube ^^^ (1 <<< i))%Z.
Definition Kit_CubeRemLit (uCube : Z) (i : nat) : Z := (uCube &&& ~~~ (1 <<< i))%Z.

Definition Kit_CubeContains (uLarge uSmall : Z) : bool := ((uLarge &&& uSmall) =? uSmall)%Z.
Definition Kit_CubeSharp (uCube uMask : Z) : Z := (uCube &&& ~~~ uMask)%Z.
(** The shift is by [32 - nVar], for [0 < nVar <= 32]. *)
Definition Kit_CubeMask (nVar : nat) : Z := ((~~~ 0) >>> (32 - nVar))%Z.

Definition Kit_CubeIsMarked (uCube : Z) : bool := Kit_CubeHasLit uCube 31.
Definition Kit_CubeMark (uCube : Z) : Z := Kit_CubeSetLit uCube 31.
Definition Kit_CubeUnmark (uCube : Z) : Z := Kit_CubeRemLit uCube 31.

(** * Bits of cubes *)

Lemma HasLit_spec c i : is_word c -> i < 32 -> Kit_CubeHasLit c i = Z.testbit c (Z.of_nat i).
Proof.
  intros Hc Hi. unfold Kit_CubeHasLit. pose proof (mask_bit c i Hi) as H.
  assert (0 <= (c &&& (1 <<< i)))%Z by (apply Z.land_nonneg; left; apply Hc).
  destruct (Z.testbit c (Z.of_nat i)).
  - apply Z.ltb_lt. apply Z.eqb_neq in H. lia.
  - apply Z.ltb_ge. apply Z.eqb_eq in H. lia.
Qed.

Lemma testbit_SetLit c i j : i < 32 ->
  Z.testbit (Kit_CubeSetLit c i) (Z.of_nat j) = (j =? i) || Z.testbit c (Z.of_nat j).
Proof. intros Hi. unfold Kit_CubeSetLit. rewrite Z.lor_spec, testbit_pow by done. apply orb_comm. Qed.

Lemma testbit_Sharp c d j : j < 32 ->
  Z.testbit (Kit_CubeSharp c d) (Z.of_nat j) = Z.testbit c (Z.of_nat j) && negb (Z.testbit d (Z.of_nat j)).
Proof. intros Hj. unfold Kit_CubeSharp. by rewrite Z.land_spec, testbit_wnot. Qed.

Lemma RemLit_Sharp c i : Kit_CubeRemLit c i = Kit_CubeSharp c (1 <<< i).
Proof. done. Qed.

Lemma testbit_RemLit c i j : i < 32 -> j < 32 ->
  Z.testbit (Kit_CubeRemLit c i) (Z.of_nat j) = negb (j =? i) && Z.testbit c (Z.of_nat j).
Proof. intros Hi Hj. rewrite RemLit_Sharp, testbit_Sharp, testbit_pow by done. apply andb_comm. Qed.

Lemma Contains_spec c d :
  is_word c -> is_word d ->
  Kit_CubeContains c d = true <->
  forall i, i < 32 -> Z.testbit d (Z.of_nat i) = true -> Z.testbit c (Z.of_nat i) = true.
Proof.
  intros Hc Hd. unfold Kit_CubeContains. rewrite Z.eqb_eq. split.
  - intros H i Hi Hb. rewrite <- H, Z.land_spec in Hb. apply andb_true_iff in Hb. apply Hb.
  - intros H. apply word_ext; auto with words. intros b Hb. rewrite Z.land_spec.
    specialize (H b Hb). destruct (Z.testbit d (Z.of_nat b)); [rewrite H by done; done|].
    by rewrite andb_false_r.
Qed.

Lemma word_SetLit c i : is_word c -> is_word (Kit_CubeSetLit c i).
Proof. intros. unfold Kit_CubeSetLit. auto with words. Qed.
Lemma word_RemLit c i : is_word c -> is_word (Kit_CubeRemLit c i).
Proof. intros. unfold Kit_CubeRemLit. auto with words. Qed.
Lemma word_Sharp c d : is_word c -> is_word (Kit_CubeSharp c d).
Proof. intros. unfold Kit_CubeSharp. auto with words. Qed.
#[export] Hint Resolve word_SetLit word_RemLit word_Sharp : words.

(** Number of literals of a cube. *)
Definition lits (c : Z) : Z := cnt 32 (fun i => Z.testbit c (Z.of_nat i)).

(** * Meaning of covers *)

(** [cube_eval c m]: minterm [m] satisfies every literal of the cube, bit [2v] being the
    negative literal of [v]. *)
Definition cube_eval (c : Z) (m : nat) : bool :=
  forallb (fun v => negb (Z.testbit c (Z.of_nat (2 * v)) && Nat.testbit m v) &&
                    negb (Z.testbit c (Z.of_nat (2 * v + 1)) && negb (Nat.testbit m v))) (seq 0 16).

Definition cover_eval (cs : list Z) (m : nat) : bool := existsb (fun c => cube_eval c m) cs.

Lemma cube_eval_true c m :
  cube_eval c m = true <-> forall v, v < 16 ->
    (Z.testbit c (Z.of_nat (2 * v)) = true -> Nat.testbit m v = false) /\
    (Z.testbit c (Z.of_nat (2 * v + 1)) = true -> Nat.testbit m v = true).
Proof.
  unfold cube_eval. rewrite forallb_forall. split.
  - intros H v Hv. specialize (H v (proj2 (in_seq 16 0 v) ltac:(lia))).
    destruct (Z.testbit c (Z.of_nat (2 * v))), (Z.testbit c (Z.of_nat (2 * v + 1))), (Nat.testbit m v);
      cbn in H; done.
  - intros H v Hv. apply in_seq in Hv. destruct (H v ltac:(lia)) as [H0 H1].
    destruct (Z.testbit c (Z.of_nat (2 * v))), (Z.testbit c (Z.of_nat (2 * v + 1))), (Nat.testbit m v);
      cbn; intuition congruence.
Qed.

Lemma cover_eval_true cs m : cover_eval cs m = true <-> exists c, In c cs /\ cube_eval c m = true.
Proof. apply existsb_exists. Qed.

Lemma cover_eval_app cs ds m : cover_eval (cs ++ ds) m = cover_eval cs m || cover_eval ds m.
Proof. apply existsb_app. Qed.

Lemma cube_eval_0 m : cube_eval 0 m = true.
Proof. apply cube_eval_true. intros v Hv. by rewrite !Z.testbit_0_l. Qed.

(** The cube mentions only variables below [n]. *)
Definition cube_in (n : nat) (c : Z) : Prop :=
  is_word c /\ forall i, 2 * n <= i -> Z.testbit c (Z.of_nat i) = false.

Lemma cube_in_0 n : cube_in n 0.
Proof. split; [apply word_0|]. intros. apply Z.testbit_0_l. Qed.

Lemma cube_in_mono n k c : n <= k -> cube_in n c -> cube_in k c.
Proof. intros H [Hw Hc]. split; [done|]. intros. apply Hc. lia. Qed.

(** Adding a literal of variable [v] to a cube over the variables below it. *)
Lemma cube_in_lit v (b : bool) c : v < 16 -> cube_in v c -> cube_in (S v) (c ||| (1 <<< (2 * v + Nat.b2n b))).
Proof.
  intros Hv [Hw Hc]. split; [auto with words|]. intros i Hi.
  rewrite Z.lor_spec, testbit_pow, Hc by (destruct b; cbn; lia).
  destruct (Nat.eqb_spec i (2 * v + Nat.b2n b)); [destruct b; cbn in *; lia|done].
Qed.

Lemma cube_eval_ext n c m m' :
  cube_in n c -> (forall i, i < n -> Nat.testbit m i = Nat.testbit m' i) -> cube_eval c m = cube_eval c m'.
Proof.
  intros [_ Hc] H. apply eq_true_iff_eq. rewrite !cube_eval_true.
  apply forall_proper. intros v. apply forall_proper. intros Hv.
  destruct (Nat.lt_ge_cases v n) as [Hlt|Hge]; [by rewrite H|].
  rewrite !Hc by lia. split; intros _; split; done.
Qed.

Lemma cube_eval_lit v (b : bool) c m :
  v < 16 -> cube_in v c ->
  cube_eval (c ||| (1 <<< (2 * v + Nat.b2n b))) m = cube_eval c m && eqb (Nat.testbit m v) b.
Proof.
  intros Hv [_ Hc]. apply eq_true_iff_eq. rewrite andb_true_iff, eqb_true_iff, !cube_eval_true.
  assert (forall j, Z.testbit (c ||| (1 <<< (2 * v + Nat.b2n b))) (Z.of_nat j) =
    (j =? 2 * v + Nat.b2n b) || Z.testbit c (Z.of_nat j)) as E
    by (intros; rewrite Z.lor_spec, testbit_pow by (destruct b; cbn; lia); apply orb_comm).
  split.
  - intros H. split.
    + intros w Hw. specialize (H w Hw). rewrite !E, !orb_true_iff in H. tauto.
    + specialize (H v Hv). rewrite !E in H. destruct b; cbn [Nat.b2n] in *.
      * destruct H as [_ H]. rewrite Nat.eqb_refl in H. auto.
      * destruct H as [H _]. rewrite Nat.add_0_r, Nat.eqb_refl in H. auto.
  - intros [H He] w Hw. specialize (H w Hw). rewrite !E, !orb_true_iff, !Nat.eqb_eq.
    destruct (decide (w = v)) as [-> | Hne].
    + rewrite !Hc by lia. destruct b; cbn [Nat.b2n] in *; split; intros [?|?]; done || lia.
    + destruct b; cbn [Nat.b2n] in *; split; intros [?|?]; try lia; tauto.
Qed.
