(* ===== verification/Minato.v ===== *)
(** The Minato-Morreale recursion on Boolean functions: what the two recursive routines of
    [kitIsop.c] compute, apart from words, tables and memory.

    A function is a map from minterms to Booleans.  [isop n on dc cs] states that the
    cover [cs] lies between the on-set and the upper bound [dc], mentions only variables
    below [n], that every cube is needed (some minterm of the on-set is covered by no other
    cube) and that every literal is needed (changing its variable in some minterm of the
    cube leaves [dc]): the cover is irredundant and its cubes are prime. *)
From S2P Require Import Prelude Words Minterm Cube.

(** * Functions of the first variables *)

Definition depends_below (n : nat) (f : nat -> bool) : Prop :=
  forall m m', (forall i, i < n -> Nat.testbit m i = Nat.testbit m' i) -> f m = f m'.

Definition cof (v : nat) (b : bool) (f : nat -> bool) (m : nat) : bool :=
  f (if b then Nat.setbit m v else Nat.clearbit m v).

(** Minterm [m] with variable [v] changed. *)
Definition flipv (m v : nat) : nat := if Nat.testbit m v then Nat.clearbit m v else Nat.setbit m v.

Lemma flipv_if m v j : Nat.testbit (flipv m v) j = if v =? j then negb (Nat.testbit m v) else Nat.testbit m j.
Proof.
  unfold flipv. destruct (Nat.testbit m v); rewrite ?clearbit_if, ?setbit_if; done.
Qed.

Lemma cof_bit v (b : bool) m j :
  Nat.testbit (if b then Nat.setbit m v else Nat.clearbit m v) j = if v =? j then b else Nat.testbit m j.
Proof. destruct b; [apply setbit_if|apply clearbit_if]. Qed.

Lemma cof_id v (f : nat -> bool) m : cof v (Nat.testbit m v) f m = f m.
Proof.
  unfold cof. destruct (Nat.testbit m v) eqn:E; [by rewrite setbit_id|by rewrite clearbit_id].
Qed.

Lemma depends_cof v b f : depends_below (S v) f -> depends_below v (cof v b f).
Proof.
  intros H m m' Hm. apply H. intros i Hi. rewrite !cof_bit.
  destruct (Nat.eqb_spec v i); [done|]. apply Hm. lia.
Qed.

Lemma depends_mono n k f : n <= k -> depends_below n f -> depends_below k f.
Proof. intros Hk H m m' Hm. apply H. intros. apply Hm. lia. Qed.

Lemma depends_fewer k n f :
  k <= n -> depends_below n f -> (forall v m, k <= v < n -> cof v false f m = cof v true f m) ->
  depends_below k f.
Proof.
  intros Hk. induction Hk as [|n Hk IH]; intros Hd Hv; [done|].
  apply IH; [|intros; apply Hv; lia]. intros m m' Hm.
  rewrite <- (cof_id n f m), <- (cof_id n f m').
  assert (forall b, cof n b f m' = cof n (Nat.testbit m n) f m') as Hb.
  { intros b. destruct b, (Nat.testbit m n); rewrite ?Hv by lia; done. }
  rewrite Hb. by apply (depends_cof n _ f Hd).
Qed.

Lemma depends_cube n c : cube_in n c -> depends_below n (cube_eval c).
Proof. intros Hc m m' Hm. by apply (cube_eval_ext n). Qed.

(** * Irredundant covers of prime cubes *)

(** Number of cubes of the cover that contain the minterm. *)
Definition times_covered (cs : list Z) (m : nat) : nat := length (List.filter (fun c => cube_eval c m) cs).

Lemma times_covered_app cs ds m : times_covered (cs ++ ds) m = times_covered cs m + times_covered ds m.
Proof. unfold times_covered. by rewrite List.filter_app, length_app. Qed.

Lemma times_covered_0 cs m : times_covered cs m = 0 <-> cover_eval cs m = false.
Proof.
  unfold times_covered, cover_eval in *. induction cs as [|c cs IH]; [done|]. cbn [List.filter existsb].
  by destruct (cube_eval c m).
Qed.

Record isop (n : nat) (on dc : nat -> bool) (cs : list Z) : Prop := {
  isop_lower : forall m, on m = true -> cover_eval cs m = true;
  isop_upper : forall m, cover_eval cs m = true -> dc m = true;
  isop_in : Forall (cube_in n) cs;
  isop_irredundant : Forall (fun c => exists m,
    on m = true /\ cube_eval c m = true /\ times_covered cs m = 1) cs;
  isop_prime : Forall (fun c => forall v,
    Z.testbit c (Z.of_nat (2 * v)) || Z.testbit c (Z.of_nat (2 * v + 1)) = true ->
    exists m, cube_eval c m = true /\ dc (flipv m v) = false) cs;
}.

Lemma isop_nil n on dc : (forall m, on m = false) -> isop n on dc [].
Proof. intros H. constructor; [intros m; rewrite H; done|done|constructor..]. Qed.

Lemma isop_one n on dc : (forall m, dc m = true) -> (exists m, on m = true) -> isop n on dc [0%Z].
Proof.
  intros H [m Hm]. assert (forall k, cover_eval [0%Z] k = true) as Hc
    by (intros; unfold cover_eval; cbn [existsb]; by rewrite cube_eval_0).
  constructor; auto; (constructor; [|constructor]).
  - apply cube_in_0.
  - exists m. split; [done|]. split; [apply cube_eval_0|].
    unfold times_covered. cbn [List.filter]. by rewrite cube_eval_0.
  - intros v. by rewrite !Z.testbit_0_l.
Qed.

Lemma isop_mono n k on dc cs : n <= k -> isop n on dc cs -> isop k on dc cs.
Proof.
  intros Hk [H1 H2 H3 H4 H5]. constructor; auto. revert H3. apply List.Forall_impl.
  intros c. by apply cube_in_mono.
Qed.

Lemma isop_ext n on on' dc dc' cs :
  (forall m, on m = on' m) -> (forall m, dc m = dc' m) -> isop n on dc cs -> isop n on' dc' cs.
Proof.
  intros Ho Hd [H1 H2 H3 H4 H5]. constructor; [intros m; rewrite <- Ho; auto|intros m Hm; rewrite <- Hd; auto|done| | ].
  - revert H4. apply List.Forall_impl. intros c (m & ? & ?). exists m. by rewrite <- Ho.
  - revert H5. apply List.Forall_impl. intros c H v Hv. destruct (H v Hv) as (m & ? & ?). exists m. by rewrite <- Hd.
Qed.

Lemma isop_cons_of_on n on dc cs m : isop n on dc cs -> on m = true -> 0 < length cs.
Proof. intros H Hm. apply (isop_lower _ _ _ _ H) in Hm. destruct cs; [done|]. cbn. lia. Qed.

(** * Adding a literal *)

Definition with_lit (v : nat) (b : bool) (c : Z) : Z := (c ||| (1 <<< (2 * v + Nat.b2n b)))%Z.

Lemma cover_with_lit v b cs m :
  v < 16 -> Forall (cube_in v) cs ->
  cover_eval (map (with_lit v b) cs) m = cover_eval cs m && eqb (Nat.testbit m v) b.
Proof.
  intros Hv. induction 1 as [|c cs Hc Hcs IH]; [done|]. unfold cover_eval in *. cbn [map existsb].
  rewrite IH. unfold with_lit at 1. rewrite cube_eval_lit by done.
  by destruct (cube_eval c m), (existsb _ cs), (eqb _ _).
Qed.

Lemma times_with_lit v b cs m :
  v < 16 -> Forall (cube_in v) cs ->
  times_covered (map (with_lit v b) cs) m = if eqb (Nat.testbit m v) b then times_covered cs m else 0.
Proof.
  intros Hv. unfold times_covered. induction 1 as [|c cs Hc Hcs IH]; [by destruct (eqb _ _)|].
  cbn [map List.filter]. unfold with_lit at 1. rewrite cube_eval_lit by done.
  destruct (eqb (Nat.testbit m v) b) eqn:E; rewrite ?andb_true_r, ?andb_false_r; [|done].
  destruct (cube_eval c m); cbn [length]; by rewrite IH.
Qed.

(** * One step of the recursion *)

Section step.
(** The three covers of the branches on variable [v]. *)
Context (v : nat) (on dc : nat -> bool) (cs0 cs1 cs2 : list Z).
Context (Hv : v < 16).
Context (H0 : isop v (fun m => cof v false on m && negb (cof v true dc m)) (cof v false dc) cs0).
Context (H1 : isop v (fun m => cof v true on m && negb (cof v false dc m)) (cof v true dc) cs1).
Context (H2 : isop v (fun m => cof v false on m && negb (cover_eval cs0 m)
                              || cof v true on m && negb (cover_eval cs1 m))
                    (fun m => cof v false dc m && cof v true dc m) cs2).

Definition merged : list Z := map (with_lit v false) cs0 ++ map (with_lit v true) cs1 ++ cs2.

Lemma cover_merged m :
  cover_eval merged m = cover_eval (if Nat.testbit m v then cs1 else cs0) m || cover_eval cs2 m.
Proof using Hv H0 H1.
  unfold merged. rewrite !cover_eval_app, !cover_with_lit by (done || apply isop_in in H0, H1; done).
  by destruct (Nat.testbit m v), (cover_eval cs0 m), (cover_eval cs1 m), (cover_eval cs2 m).
Qed.

Lemma times_merged m :
  times_covered merged m = times_covered (if Nat.testbit m v then cs1 else cs0) m + times_covered cs2 m.
Proof using Hv H0 H1.
  unfold merged. rewrite !times_covered_app, !times_with_lit by (done || apply isop_in in H0, H1; done).
  destruct (Nat.testbit m v); cbn [eqb]; lia.
Qed.

(** Covers over the variables below [v] do not see the value of [v]. *)
Lemma cover_chg cs b m :
  Forall (cube_in v) cs ->
  cover_eval cs (if b : bool then Nat.setbit m v else Nat.clearbit m v) = cover_eval cs m.
Proof.
  intros Hcs. unfold cover_eval. induction Hcs as [|c cs Hc Hcs IH]; [done|]. cbn [existsb].
  rewrite IH. f_equal. apply (cube_eval_ext v); [done|]. intros i Hi. rewrite cof_bit.
  by destruct (Nat.eqb_spec v i); [lia|].
Qed.

Lemma times_chg cs b m :
  Forall (cube_in v) cs ->
  times_covered cs (if b : bool then Nat.setbit m v else Nat.clearbit m v) = times_covered cs m.
Proof.
  intros Hcs. unfold times_covered. induction Hcs as [|c cs Hc Hcs IH]; [done|]. cbn [List.filter].
  replace (cube_eval c (if b then Nat.setbit m v else Nat.clearbit m v)) with (cube_eval c m).
  - destruct (cube_eval c m); cbn [length]; by rewrite IH.
  - apply (cube_eval_ext v); [done|]. intros i Hi. rewrite cof_bit. by destruct (Nat.eqb_spec v i); [lia|].
Qed.

Lemma merged_lower m : on m = true -> cover_eval merged m = true.
Proof using Hv H0 H1 H2.
  intros Hm. rewrite cover_merged. apply orb_true_iff.
  destruct (cover_eval (if Nat.testbit m v then cs1 else cs0) m) eqn:E; [by left|right].
  apply (isop_lower _ _ _ _ H2), orb_true_iff. rewrite <- (cof_id v) in Hm.
  destruct (Nat.testbit m v); [right|left]; by rewrite Hm, E.
Qed.

Lemma merged_upper m : cover_eval merged m = true -> dc m = true.
Proof using Hv H0 H1 H2.
  rewrite cover_merged, orb_true_iff, <- (cof_id v dc). intros [H|H].
  - destruct (Nat.testbit m v); [by apply (isop_upper _ _ _ _ H1)|by apply (isop_upper _ _ _ _ H0)].
  - apply (isop_upper _ _ _ _ H2), andb_true_iff in H. by destruct H, (Nat.testbit m v).
Qed.

(** The essential minterm of a cube of one side, moved to that side. *)
Lemma merged_essential (b : bool) c m :
  cube_in v c -> cof v b on m = true -> cof v (negb b) dc m = false -> cube_eval c m = true ->
  times_covered (if b then cs1 else cs0) m = 1 ->
  exists m, on m = true /\ cube_eval (with_lit v b c) m = true /\ times_covered merged m = 1.
Proof using Hv H0 H1 H2.
  intros Hc Ho Hd He Ht. set (m' := if b then Nat.setbit m v else Nat.clearbit m v).
  assert (Nat.testbit m' v = b) as Hb by (unfold m'; by rewrite cof_bit, Nat.eqb_refl).
  exists m'. split; [done|]. split.
  - unfold with_lit. rewrite cube_eval_lit, Hb, eqb_reflx, andb_true_r by done.
    rewrite <- He. apply (cube_eval_ext v); [done|]. intros i Hi. unfold m'. rewrite cof_bit.
    by destruct (Nat.eqb_spec v i); [lia|].
  - pose proof (isop_in _ _ _ _ H0). pose proof (isop_in _ _ _ _ H1). pose proof (isop_in _ _ _ _ H2) as Hi2.
    rewrite times_merged, Hb. unfold m'. rewrite !times_chg by (destruct b; done). rewrite Ht.
    enough (cover_eval cs2 m = false) as E by (apply times_covered_0 in E; lia).
    apply not_true_iff_false. intros E. apply (isop_upper _ _ _ _ H2), andb_true_iff in E as [E0 E1].
    destruct b; cbn [negb] in Hd; congruence.
Qed.

Lemma merged_essential2 c : In c cs2 ->
  exists m, on m = true /\ cube_eval c m = true /\ times_covered merged m = 1.
Proof using Hv H0 H1 H2.
  intros Hc. pose proof (isop_in _ _ _ _ H0). pose proof (isop_in _ _ _ _ H1).
  pose proof (isop_in _ _ _ _ H2) as Hi2.
  pose proof (isop_irredundant _ _ _ _ H2) as Hi. rewrite List.Forall_forall in Hi, Hi2.
  destruct (Hi c Hc) as (m & Ho & He & Ht).
  assert (exists b : bool, cof v b on m = true /\ cover_eval (if b then cs1 else cs0) m = false) as (b & Hb1 & Hb2).
  { apply orb_true_iff in Ho as [Ho|Ho]; apply andb_true_iff in Ho as [Ho Hn]; apply negb_true_iff in Hn;
      [by exists false|by exists true]. }
  set (m' := if b then Nat.setbit m v else Nat.clearbit m v).
  assert (Nat.testbit m' v = b) as Hb by (unfold m'; by rewrite cof_bit, Nat.eqb_refl).
  exists m'. split; [done|]. split.
  - rewrite <- He. apply (cube_eval_ext v); [by apply Hi2|]. intros i Hlt. unfold m'. rewrite cof_bit.
    by destruct (Nat.eqb_spec v i); [lia|].
  - rewrite times_merged, Hb. unfold m'. rewrite !times_chg by (destruct b; done || by apply List.Forall_forall).
    apply times_covered_0 in Hb2. lia.
Qed.

(** The essential minterms of the cubes of one side, as the recursion provides them. *)
Lemma side_essential (b : bool) c : In c (if b then cs1 else cs0) ->
  cube_in v c /\ exists m, cof v b on m = true /\ cof v (negb b) dc m = false /\
    cube_eval c m = true /\ times_covered (if b then cs1 else cs0) m = 1.
Proof using H0 H1.
  intros Hc. destruct b.
  - pose proof (isop_in _ _ _ _ H1) as Hi. pose proof (isop_irredundant _ _ _ _ H1) as Hr.
    rewrite List.Forall_forall in Hi, Hr. split; [by apply Hi|]. destruct (Hr c Hc) as (m & Ho & He).
    apply andb_true_iff in Ho as [Ho Hn]. apply negb_true_iff in Hn. by exists m.
  - pose proof (isop_in _ _ _ _ H0) as Hi. pose proof (isop_irredundant _ _ _ _ H0) as Hr.
    rewrite List.Forall_forall in Hi, Hr. split; [by apply Hi|]. destruct (Hr c Hc) as (m & Ho & He).
    apply andb_true_iff in Ho as [Ho Hn]. apply negb_true_iff in Hn. by exists m.
Qed.

Lemma cube_with_lit (b : bool) c m : cube_in v c -> cube_eval c m = true ->
  cube_eval (with_lit v b c) (if b then Nat.setbit m v else Nat.clearbit m v) = true.
Proof using Hv.
  intros Hc He. unfold with_lit. rewrite cube_eval_lit, cof_bit, Nat.eqb_refl, eqb_reflx, andb_true_r by done.
  rewrite <- He. apply (cube_eval_ext v); [done|]. intros i Hi. rewrite cof_bit.
  by destruct (Nat.eqb_spec v i); [lia|].
Qed.

Lemma flip_chg (b : bool) m w :
  w <> v -> flipv (if b then Nat.setbit m v else Nat.clearbit m v) w
  = (if b then Nat.setbit (flipv m w) v else Nat.clearbit (flipv m w) v).
Proof.
  intros Hw. apply Nat.bits_inj. intros j. rewrite flipv_if, !cof_bit, flipv_if.
  destruct (Nat.eqb_spec v w), (Nat.eqb_spec w j), (Nat.eqb_spec v j); subst; done.
Qed.

Lemma flip_same (b : bool) m :
  flipv (if b then Nat.setbit m v else Nat.clearbit m v) v
  = (if negb b then Nat.setbit m v else Nat.clearbit m v).
Proof.
  apply Nat.bits_inj. intros j. rewrite flipv_if, !cof_bit, Nat.eqb_refl.
  by destruct (Nat.eqb_spec v j).
Qed.

(** Whether variable [w] has a literal in the cube. *)
Lemma lit_with_lit (b : bool) c w :
  w <> v -> Z.testbit (with_lit v b c) (Z.of_nat (2 * w)) || Z.testbit (with_lit v b c) (Z.of_nat (2 * w + 1))
  = Z.testbit c (Z.of_nat (2 * w)) || Z.testbit c (Z.of_nat (2 * w + 1)).
Proof using Hv.
  intros Hw. unfold with_lit. rewrite !Z.lor_spec, !testbit_pow by (destruct b; cbn; lia).
  destruct (Nat.eqb_spec (2 * w) (2 * v + Nat.b2n b)), (Nat.eqb_spec (2 * w + 1) (2 * v + Nat.b2n b));
    try (destruct b; cbn in *; lia). by rewrite !orb_false_r.
Qed.

Lemma merged_prime_side (b : bool) c w : In c (if b then cs1 else cs0) ->
  Z.testbit (with_lit v b c) (Z.of_nat (2 * w)) || Z.testbit (with_lit v b c) (Z.of_nat (2 * w + 1)) = true ->
  exists m, cube_eval (with_lit v b c) m = true /\ dc (flipv m w) = false.
Proof using Hv H0 H1 H2.
  intros Hc Hw. destruct (side_essential b c Hc) as (Hin & m & Ho & Hd & He & _).
  destruct (decide (w = v)) as [-> | Hne].
  - exists (if b then Nat.setbit m v else Nat.clearbit m v). split; [by apply cube_with_lit|].
    by rewrite flip_same.
  - rewrite lit_with_lit in Hw by done.
    assert (exists m, cube_eval c m = true /\ cof v b dc (flipv m w) = false) as (m2 & He2 & Hd2).
    { destruct b; [pose proof (isop_prime _ _ _ _ H1) as Hp|pose proof (isop_prime _ _ _ _ H0) as Hp];
        rewrite List.Forall_forall in Hp; by apply Hp. }
    exists (if b then Nat.setbit m2 v else Nat.clearbit m2 v). split; [by apply cube_with_lit|].
    by rewrite flip_chg.
Qed.

Lemma merged_prime2 c w : In c cs2 ->
  Z.testbit c (Z.of_nat (2 * w)) || Z.testbit c (Z.of_nat (2 * w + 1)) = true ->
  exists m, cube_eval c m = true /\ dc (flipv m w) = false.
Proof using Hv H0 H1 H2.
  intros Hc Hw. pose proof (isop_in _ _ _ _ H2) as Hi. pose proof (isop_prime _ _ _ _ H2) as Hp.
  rewrite List.Forall_forall in Hi, Hp. destruct (Hi c Hc) as [_ Hin].
  assert (w <> v) as Hne by (intros ->; rewrite !Hin in Hw by lia; done).
  destruct (Hp c Hc w Hw) as (m & He & Hd).
  assert (exists b, cof v b dc (flipv m w) = false) as (b & Hb).
  { apply andb_false_iff in Hd as [Hd|Hd]; eauto. }
  exists (if b then Nat.setbit m v else Nat.clearbit m v). split; [|by rewrite flip_chg].
  rewrite <- He. apply (cube_eval_ext v); [by apply Hi|]. intros i Hlt. rewrite cof_bit.
  by destruct (Nat.eqb_spec v i); [lia|].
Qed.

Lemma merged_isop : isop (S v) on dc merged.
Proof using All.
  assert (forall b, Forall (cube_in (S v)) (map (with_lit v b) (if b : bool then cs1 else cs0))) as Hin.
  { intros b. apply List.Forall_map, List.Forall_forall. intros c Hc. unfold with_lit.
    apply cube_in_lit; [done|]. by apply (side_essential b). }
  constructor; [apply merged_lower|apply merged_upper|..];
    (apply Forall_app; split; [|apply Forall_app; split]).
  - apply (Hin false).
  - apply (Hin true).
  - pose proof (isop_in _ _ _ _ H2) as Hi. revert Hi. apply List.Forall_impl. intros c. by apply cube_in_mono; lia.
  - apply List.Forall_map, List.Forall_forall. intros c Hc.
    destruct (side_essential false c Hc) as (? & m & ? & ? & ? & ?). by apply (merged_essential false c m).
  - apply List.Forall_map, List.Forall_forall. intros c Hc.
    destruct (side_essential true c Hc) as (? & m & ? & ? & ? & ?). by apply (merged_essential true c m).
  - apply List.Forall_forall. apply merged_essential2.
  - apply List.Forall_map, List.Forall_forall. intros c Hc w. apply (merged_prime_side false), Hc.
  - apply List.Forall_map, List.Forall_forall. intros c Hc w. apply (merged_prime_side true), Hc.
  - apply List.Forall_forall. intros c Hc w. by apply merged_prime2.
Qed.
End step.
