(* ===== verification/Isop.v ===== *)
(** [kitIsop.c]: irredundant sums of products from truth tables.

    The recursive routines return the table of the cover, the cover and the memory manager.
    [None] is a failed assertion, a copy from the null pointer or fuel that ran out, which
    the theorems exclude; running out of memory is a result, the cover with [nCubes = -1]. *)
From S2P Require Import Prelude Words Minterm TruthBasic TruthCof TruthSupp VecInt Cube Minato.

(** * The routines *)

Definition KIT_ISOP_MEM_LIMIT : Z := Z.shiftl 1 20.

(** [pcRes->nCubes = -1]; the other fields are not written. *)
Definition sop_fail : Kit_Sop_t := {| nLits := 0; nCubes := -1; pCubes := [] |}.
Definition sop_empty : Kit_Sop_t := {| nLits := 0; nCubes := 0; pCubes := [] |}.

(** [for ( Var = nVars-1; Var >= 0; Var-- ) if ( c ) break; assert( Var >= 0 );] *)
Definition topmost (c : nat -> bool) (nVars : nat) : option nat := find c (rev (seq 0 nVars)).

(** [for ( i = 0; i < from->nCubes; i++ ) pCubes[k++] = from->pCubes[i] | lit;] *)
Definition add_cubes (from : Kit_Sop_t) (lit : Z) (s : list Z * nat) : list Z * nat :=
  for_up (Z.to_nat (nCubes from)) (fun i '(p, k) => (p.[k <- (pCubes from).[i] ||| lit], S k)) s.

(** The resulting cover of a step on variable [Var], in a fresh region of the memory. *)
Definition create_cover (Var : nat) (pcRes0 pcRes1 pcRes2 : Kit_Sop_t) (vStore : Vec_Int_t)
  : Kit_Sop_t * Vec_Int_t :=
  let nLits := (nLits pcRes0 + nLits pcRes1 + nLits pcRes2 + nCubes pcRes0 + nCubes pcRes1)%Z in
  let nCubes := (nCubes pcRes0 + nCubes pcRes1 + nCubes pcRes2)%Z in
  match Vec_IntFetch vStore nCubes with
  | (None, vStore) => (sop_fail, vStore)
  | (Some p, vStore) =>
    let s := (p, 0) in
    let s := add_cubes pcRes0 (1 <<< (2 * Var + 0)) s in
    let s := add_cubes pcRes1 (1 <<< (2 * Var + 1)) s in
    let s := add_cubes pcRes2 0 s in
    ({| Cube.nLits := nLits; Cube.nCubes := nCubes; pCubes := s.1 |}, vStore)
  end.

(** [pcRes->nCubes = 1; pcRes->pCubes = Vec_IntFetch( vStore, 1 ); ... pCubes[0] = 0;] *)
Definition tautology_cover (vStore : Vec_Int_t) : Kit_Sop_t * Vec_Int_t :=
  match Vec_IntFetch vStore 1 with
  | (None, vStore) => (sop_fail, vStore)
  | (Some p, vStore) => ({| nLits := 0; nCubes := 1; pCubes := p.[0 <- 0] |}, vStore)
  end.

Definition sop_failed (pcRes : Kit_Sop_t) : bool := (nCubes pcRes =? -1)%Z.

(** [uMasks] of [Kit_TruthIsop5_rec]. *)
Definition uMasks : list Z := [0xAAAAAAAA; 0xCCCCCCCC; 0xF0F0F0F0; 0xFF00FF00; 0xFFFF0000]%Z.

Fixpoint Kit_TruthIsop5_rec (fuel : nat) (uOn uOnDc : Z) (nVars : nat) (vStore : Vec_Int_t)
  : option (Z * Kit_Sop_t * Vec_Int_t) :=
  match fuel with
  | O => None
  | S fuel =>
    assert! nVars <=? 5 in
    assert! ((uOn &&& ~~~ uOnDc) =? 0)%Z in
    if (uOn =? 0)%Z then Some (0%Z, sop_empty, vStore)
    else if (uOnDc =? 0xFFFFFFFF)%Z then
      let '(pcRes, vStore) := tautology_cover vStore in
      if sop_failed pcRes then Some (0%Z, pcRes, vStore) else Some (0xFFFFFFFF%Z, pcRes, vStore)
    else
      assert! 0 <? nVars in
      match topmost (fun Var => Kit_TruthVarInSupport [uOn] 5 Var || Kit_TruthVarInSupport [uOnDc] 5 Var) nVars with
      | None => None
      | Some Var =>
        let uOn0 := (Kit_TruthCofactor0 [uOn] (Var + 1) Var).[0] in
        let uOn1 := (Kit_TruthCofactor1 [uOn] (Var + 1) Var).[0] in
        let uOnDc0 := (Kit_TruthCofactor0 [uOnDc] (Var + 1) Var).[0] in
        let uOnDc1 := (Kit_TruthCofactor1 [uOnDc] (Var + 1) Var).[0] in
        '(uRes0, pcRes0, vStore) ← Kit_TruthIsop5_rec fuel (uOn0 &&& ~~~ uOnDc1) uOnDc0 Var vStore;
        if sop_failed pcRes0 then Some (0%Z, sop_fail, vStore) else
        '(uRes1, pcRes1, vStore) ← Kit_TruthIsop5_rec fuel (uOn1 &&& ~~~ uOnDc0) uOnDc1 Var vStore;
        if sop_failed pcRes1 then Some (0%Z, sop_fail, vStore) else
        '(uRes2, pcRes2, vStore) ←
          Kit_TruthIsop5_rec fuel ((uOn0 &&& ~~~ uRes0) ||| (uOn1 &&& ~~~ uRes1)) (uOnDc0 &&& uOnDc1) Var vStore;
        if sop_failed pcRes2 then Some (0%Z, sop_fail, vStore) else
        let '(pcRes, vStore) := create_cover Var pcRes0 pcRes1 pcRes2 vStore in
        if sop_failed pcRes then Some (0%Z, pcRes, vStore) else
        let uRes2 := (uRes2 ||| ((uRes0 &&& ~~~ uMasks.[Var]) ||| (uRes1 &&& uMasks.[Var])))%Z in
        Some (uRes2, pcRes, vStore)
      end
  end.

(** [NULL] results are the empty table. *)
Fixpoint Kit_TruthIsop_rec (fuel : nat) (puOn puOnDc : list Z) (nVars : nat) (vStore : Vec_Int_t)
  : option (list Z * Kit_Sop_t * Vec_Int_t) :=
  match fuel with
  | O => None
  | S fuel =>
    let nWordsAll := Kit_TruthWordNum nVars in
    match Vec_IntFetch vStore (Z.of_nat nWordsAll) with
    | (None, vStore) => Some ([], sop_fail, vStore)
    | (Some pTemp, vStore) =>
      if Kit_TruthIsConst0 puOn nVars then
        Some (Kit_TruthClear pTemp nVars, sop_empty, vStore)
      else if Kit_TruthIsConst1 puOnDc nVars then
        let '(pcRes, vStore) := tautology_cover vStore in
        if sop_failed pcRes then Some ([], pcRes, vStore)
        else Some (Kit_TruthFill pTemp nVars, pcRes, vStore)
      else
        assert! 0 <? nVars in
        match topmost (fun Var => Kit_TruthVarInSupport puOn nVars Var || Kit_TruthVarInSupport puOnDc nVars Var) nVars with
        | None => None
        | Some Var =>
          if Var <? 5 then
            '(uRes, pcRes, vStore) ← Kit_TruthIsop5_rec (S (Var + 1)) puOn.[0] puOnDc.[0] (Var + 1) vStore;
            Some (for_up nWordsAll (fun i p => p.[i <- uRes]) pTemp, pcRes, vStore)
          else
            let nWords := Kit_TruthWordNum Var in
            let puOn0 := puOn in
            let puOn1 := drop nWords puOn in
            let puOnDc0 := puOnDc in
            let puOnDc1 := drop nWords puOnDc in
            let pTemp0 := take nWords pTemp in
            let pTemp1 := drop nWords pTemp in
            let pTemp0 := Kit_TruthSharp pTemp0 puOn0 puOnDc1 Var in
            '(puRes0, pcRes0, vStore) ← Kit_TruthIsop_rec fuel pTemp0 puOnDc0 Var vStore;
            if sop_failed pcRes0 then Some ([], sop_fail, vStore) else
            let pTemp1 := Kit_TruthSharp pTemp1 puOn1 puOnDc0 Var in
            '(puRes1, pcRes1, vStore) ← Kit_TruthIsop_rec fuel pTemp1 puOnDc1 Var vStore;
            if sop_failed pcRes1 then Some ([], sop_fail, vStore) else
            let pTemp0 := Kit_TruthSharp pTemp0 puOn0 puRes0 Var in
            let pTemp1 := Kit_TruthSharp pTemp1 puOn1 puRes1 Var in
            let pTemp0 := Kit_TruthOr pTemp0 pTemp0 pTemp1 Var in
            let pTemp1 := Kit_TruthAnd pTemp1 puOnDc0 puOnDc1 Var in
            '(puRes2, pcRes2, vStore) ← Kit_TruthIsop_rec fuel pTemp0 pTemp1 Var vStore;
            if sop_failed pcRes2 then Some ([], sop_fail, vStore) else
            let '(pcRes, vStore) := create_cover Var pcRes0 pcRes1 pcRes2 vStore in
            if sop_failed pcRes then Some ([], pcRes, vStore) else
            let pTemp0 := Kit_TruthOr pTemp0 puRes0 puRes2 Var in
            let pTemp1 := Kit_TruthOr pTemp1 puRes1 puRes2 Var in
            let pTemp := pTemp0 ++ pTemp1 in
            let nWords := 2 * nWords in
            let pTemp := for_range 1 (nWordsAll / nWords) (fun i =>
              for_up nWords (fun k p => p.[i * nWords + k <- p.[k]])) pTemp in
            Some (pTemp, pcRes, vStore)
        end
    end
  end.

(** The routines that a program calls return the answer (0 or 1 for the polarity of the
    cover, -1 for a failure), the memory holding the cover in its first words, and the
    table, which is complemented in place and restored. *)
Definition sop_constant (pcRes : Kit_Sop_t) : bool :=
  (nCubes pcRes =? 0)%Z || ((nCubes pcRes =? 1)%Z && ((pCubes pcRes).[0] =? 0)%Z).

Definition sop_cheaper (pcRes pcRes2 : Kit_Sop_t) : bool :=
  (nCubes pcRes2 <? nCubes pcRes)%Z || ((nCubes pcRes =? nCubes pcRes2)%Z && (nLits pcRes2 <? nLits pcRes)%Z).

Definition vec_failed (vMemory : Vec_Int_t) : Vec_Int_t :=
  {| nCap := nCap vMemory; nSize := -1; pArray := pArray vMemory |}.

(** [vMemory->pArray[0] = 0; Vec_IntShrink( vMemory, nCubes );] with [nCubes] 0 or 1. *)
Definition Vec_IntConstant (vMemory : Vec_Int_t) (nCubes : Z) : Vec_Int_t :=
  Vec_IntMoveTo vMemory (repeat 0%Z (Z.to_nat nCubes)).

Definition Kit_TruthIsop (puTruth : list Z) (nVars : nat) (vMemory : Vec_Int_t) (fTryBoth : bool)
  : option (Z * Vec_Int_t * list Z) :=
  assert! nVars <=? 16 in
  let vMemory := Vec_IntGrow (Vec_IntClear vMemory) KIT_ISOP_MEM_LIMIT in
  '(pResult, pcRes, vMemory) ← Kit_TruthIsop_rec (S nVars) puTruth puTruth nVars vMemory;
  if sop_failed pcRes then Some ((-1)%Z, vec_failed vMemory, puTruth) else
  assert! Kit_TruthIsEqual puTruth pResult nVars in
  if sop_constant pcRes then Some (0%Z, Vec_IntConstant vMemory (nCubes pcRes), puTruth) else
  if fTryBoth then
    let puTruth := Kit_TruthNot puTruth puTruth nVars in
    '(pResult, pcRes2, vMemory) ← Kit_TruthIsop_rec (S nVars) puTruth puTruth nVars vMemory;
    if (0 <=? nCubes pcRes2)%Z then
      assert! Kit_TruthIsEqual puTruth pResult nVars in
      let puTruth := Kit_TruthNot puTruth puTruth nVars in
      if sop_cheaper pcRes pcRes2
      then Some (1%Z, Vec_IntMoveTo vMemory (pCubes pcRes2), puTruth)
      else Some (0%Z, Vec_IntMoveTo vMemory (pCubes pcRes), puTruth)
    else
      let puTruth := Kit_TruthNot puTruth puTruth nVars in
      Some (0%Z, Vec_IntMoveTo vMemory (pCubes pcRes), puTruth)
  else Some (0%Z, Vec_IntMoveTo vMemory (pCubes pcRes), puTruth).

Definition Kit_TruthIsop2 (puTruth0 puTruth1 : list Z) (nVars : nat) (vMemory : Vec_Int_t)
    (fTryBoth fReturnTt : bool) : option (Z * Vec_Int_t * list Z * list Z) :=
  assert! nVars <=? 16 in
  let vMemory := Vec_IntGrow (Vec_IntClear vMemory) KIT_ISOP_MEM_LIMIT in
  let puTruth0 := Kit_TruthNot puTruth0 puTruth0 nVars in
  '(pResult, pcRes, vMemory) ← Kit_TruthIsop_rec (S nVars) puTruth1 puTruth0 nVars vMemory;
  let puTruth0 := Kit_TruthNot puTruth0 puTruth0 nVars in
  if sop_failed pcRes then Some ((-1)%Z, vec_failed vMemory, puTruth0, puTruth1) else
  assert! Kit_TruthIsImply puTruth1 pResult nVars in
  let puTruth0 := Kit_TruthNot puTruth0 puTruth0 nVars in
  assert! Kit_TruthIsImply pResult puTruth0 nVars in
  let puTruth0 := Kit_TruthNot puTruth0 puTruth0 nVars in
  if sop_constant pcRes then Some (0%Z, Vec_IntConstant vMemory (nCubes pcRes), puTruth0, puTruth1) else
  '(RetValue, pcRes, pResult, vMemory, puTruth1) ←
    if fTryBoth then
      let puTruth1 := Kit_TruthNot puTruth1 puTruth1 nVars in
      '(pResult, pcRes2, vMemory) ← Kit_TruthIsop_rec (S nVars) puTruth0 puTruth1 nVars vMemory;
      let puTruth1 := Kit_TruthNot puTruth1 puTruth1 nVars in
      if (0 <=? nCubes pcRes2)%Z then
        assert! Kit_TruthIsImply puTruth0 pResult nVars in
        let puTruth1 := Kit_TruthNot puTruth1 puTruth1 nVars in
        assert! Kit_TruthIsImply pResult puTruth1 nVars in
        let puTruth1 := Kit_TruthNot puTruth1 puTruth1 nVars in
        if sop_cheaper pcRes pcRes2
        then Some (1%Z, pcRes2, pResult, vMemory, puTruth1)
        else Some (0%Z, pcRes, pResult, vMemory, puTruth1)
      else Some (0%Z, pcRes, pResult, vMemory, puTruth1)
    else Some (0%Z, pcRes, pResult, vMemory, puTruth1);
  if fReturnTt then
    match pResult with
    | [] => None
    | _ => Some (RetValue, Vec_IntMoveTo vMemory (take (Kit_TruthWordNum nVars) pResult), puTruth0, puTruth1)
    end
  else Some (RetValue, Vec_IntMoveTo vMemory (pCubes pcRes), puTruth0, puTruth1).

(** * Merging covers *)

Lemma fill_from n (g : nat -> Z) p k :
  k + n <= length p ->
  for_up n (fun i '(p, k) => (p.[k <- g i], S k)) (p, k) = (take k p ++ map g (seq 0 n) ++ drop (k + n) p, k + n).
Proof.
  induction n as [|n IH]; intros Hl.
  - cbn [seq map app]. by rewrite Nat.add_0_r, take_drop.
  - rewrite for_up_S, IH by lia. f_equal; [|lia]. rewrite seq_S, map_app.
    destruct (lookup_lt_is_Some_2 p (k + n)) as [x Hx]; [lia|]. rewrite (drop_S p x) by done.
    unfold wr. replace (k + n) with (length (take k p ++ map g (seq 0 n)) + 0)
      by (rewrite length_app, length_take, length_map, length_seq; lia).
    rewrite app_assoc, insert_app_r. cbn. rewrite <- !app_assoc. cbn.
    rewrite length_app, length_take, length_map, length_seq. do 4 f_equal. lia.
Qed.

Lemma map_rd_seq (f : Z -> Z) l : map (fun i => f l.[i]) (seq 0 (length l)) = map f l.
Proof.
  induction l as [|x l IH]; [done|]. cbn [length seq map]. f_equal. by rewrite <- seq_shift, map_map.
Qed.

Lemma add_cubes_spec from lit p k :
  nCubes from = Z.of_nat (length (pCubes from)) -> k + length (pCubes from) <= length p ->
  add_cubes from lit (p, k) =
    (take k p ++ map (fun c => c ||| lit) (pCubes from) ++ drop (k + length (pCubes from)) p,
     k + length (pCubes from)).
Proof.
  intros Hn Hl. unfold add_cubes. rewrite Hn, Nat2Z.id.
  rewrite (fill_from _ (fun i => (pCubes from).[i] ||| lit)) by done.
  by rewrite (map_rd_seq (fun c => c ||| lit)).
Qed.

Lemma lor_0_map cs : map (fun c => c ||| 0)%Z cs = cs.
Proof. induction cs as [|c cs IH]; [done|]. cbn [map]. by rewrite Z.lor_0_r, IH. Qed.

(** The cover is what the fields of the record say. *)
Definition sop_wf (pc : Kit_Sop_t) : Prop :=
  nCubes pc = Z.of_nat (length (pCubes pc)) /\ nLits pc = zsum (map lits (pCubes pc)).

Lemma zsum_app l k : zsum (l ++ k) = (zsum l + zsum k)%Z.
Proof. induction l as [|x l IH]; [done|]. cbn. unfold zsum in IH. rewrite IH. unfold zsum. lia. Qed.

Lemma lits_with_lit v b c : v < 16 -> cube_in v c -> lits (with_lit v b c) = (lits c + 1)%Z.
Proof.
  intros Hv [_ Hc]. set (k := 2 * v + Nat.b2n b). assert (k < 32) by (subst k; destruct b; cbn; lia).
  assert (forall n, cnt n (fun i => Z.testbit (with_lit v b c) (Z.of_nat i))
    = (cnt n (fun i => Z.testbit c (Z.of_nat i)) + if (k <? n)%nat then 1 else 0)%Z) as E.
  { induction n as [|n IH]; [done|]. cbn [cnt]. rewrite IH. unfold with_lit. fold k.
    rewrite Z.lor_spec, testbit_pow by done.
    destruct (Nat.ltb_spec k n), (Nat.ltb_spec k (S n)), (Nat.eqb_spec n k); try lia;
      rewrite ?orb_false_r, ?orb_true_r; [lia| |lia].
    rewrite (Hc n) by (subst n k; lia). cbn. lia. }
  unfold lits. rewrite E. by destruct (Nat.ltb_spec k 32); [|lia].
Qed.

Lemma zsum_with_lit v b cs : v < 16 -> Forall (cube_in v) cs ->
  zsum (map lits (map (with_lit v b) cs)) = (zsum (map lits cs) + Z.of_nat (length cs))%Z.
Proof.
  intros Hv. induction 1 as [|c cs Hc Hcs IH]; [done|]. unfold zsum in *. cbn [map foldr length].
  rewrite IH, lits_with_lit by done. lia.
Qed.

(** * What a call leaves *)

(** The memory has grown by at most [M] words. *)
Definition grown (V V' : Vec_Int_t) (M : Z) : Prop :=
  nCap V' = nCap V /\ pArray V' = pArray V /\ (nSize V <= nSize V' <= nSize V + M)%Z.

Lemma grown_trans V V' V'' M N : grown V V' M -> grown V' V'' N -> grown V V'' (M + N).
Proof. intros (? & ? & ?) (? & ? & ?). repeat split; try congruence; lia. Qed.

Lemma grown_mono V V' M N : grown V V' M -> (M <= N)%Z -> grown V V' N.
Proof. intros (? & ? & ?) ?. repeat split; try done; lia. Qed.

Lemma fetched_grown V V' n : (0 <= n)%Z -> fetched V V' n -> grown V V' n.
Proof. intros Hn (? & ? & ?). repeat split; try done; lia. Qed.

Definition pow3 (n : nat) : Z := (3 ^ Z.of_nat n)%Z.
Lemma pow3_S n : pow3 (S n) = (3 * pow3 n)%Z.
Proof. unfold pow3. rewrite Nat2Z.inj_succ, Z.pow_succ_r by lia. done. Qed.
Lemma pow3_pos n : (0 < pow3 n)%Z.
Proof. apply Z.pow_pos_nonneg; lia. Qed.
Lemma pow3_mono n k : n <= k -> (pow3 n <= pow3 k)%Z.
Proof. intros. apply Z.pow_le_mono_r; lia. Qed.

Definition sop_ok (n : nat) (on dc : nat -> bool) (pc : Kit_Sop_t) : Prop :=
  isop n on dc (pCubes pc) /\ sop_wf pc /\ (nCubes pc <= pow3 n)%Z.

Lemma sop_ok_ext n on on' dc dc' pc :
  (forall m, on m = on' m) -> (forall m, dc m = dc' m) -> sop_ok n on dc pc -> sop_ok n on' dc' pc.
Proof. intros Ho Hd (H1 & H2). split; [by apply (isop_ext n on on' dc dc')|done]. Qed.

Lemma sop_ok_mono n k on dc pc : n <= k -> sop_ok n on dc pc -> sop_ok k on dc pc.
Proof.
  intros Hk (H1 & H2 & H3). split; [by apply (isop_mono n)|]. split; [done|].
  pose proof (pow3_mono n k Hk). lia.
Qed.

Lemma sop_ok_not_failed n on dc pc : sop_ok n on dc pc -> sop_failed pc = false.
Proof. intros (_ & [H _] & _). unfold sop_failed. apply Z.eqb_neq. lia. Qed.

Lemma create_cover_spec v on dc pc0 pc1 pc2 V :
  v < 16 ->
  sop_ok v (fun m => cof v false on m && negb (cof v true dc m)) (cof v false dc) pc0 ->
  sop_ok v (fun m => cof v true on m && negb (cof v false dc m)) (cof v true dc) pc1 ->
  sop_ok v (fun m => cof v false on m && negb (cover_eval (pCubes pc0) m)
                  || cof v true on m && negb (cover_eval (pCubes pc1) m))
           (fun m => cof v false dc m && cof v true dc m) pc2 ->
  (exists m, on m = true) ->
  exists pc V', create_cover v pc0 pc1 pc2 V = (pc, V') /\ grown V V' (pow3 (S v)) /\
    (sop_failed pc = true /\ (nCap V < nSize V + pow3 (S v))%Z \/
     sop_ok (S v) on dc pc /\ pCubes pc = merged v (pCubes pc0) (pCubes pc1) (pCubes pc2)).
Proof.
  intros Hv (I0 & [Hn0 Hl0] & Hb0) (I1 & [Hn1 Hl1] & Hb1) (I2 & [Hn2 Hl2] & Hb2) [m Hm].
  pose proof (merged_isop v on dc _ _ _ Hv I0 I1 I2) as HI.
  pose proof (isop_cons_of_on _ _ _ _ m HI Hm) as Hpos.
  pose proof (isop_in _ _ _ _ I0) as Hi0. pose proof (isop_in _ _ _ _ I1) as Hi1.
  assert (Z.of_nat (length (merged v (pCubes pc0) (pCubes pc1) (pCubes pc2))) = nCubes pc0 + nCubes pc1 + nCubes pc2)%Z as Hlen
    by (unfold merged; rewrite !length_app, !length_map; lia).
  unfold create_cover. pose proof (pow3_S v) as H3.
  destruct (Vec_IntFetch V (nCubes pc0 + nCubes pc1 + nCubes pc2)) as [[p|] V'] eqn:EF.
  - pose proof (Vec_IntFetch_fetched _ _ _ _ EF) as Hf. destruct (Vec_IntFetch_region _ _ _ _ EF) as [Hr _].
    eexists _, V'. split; [done|].
    split; [apply (grown_mono _ _ (nCubes pc0 + nCubes pc1 + nCubes pc2)); [apply fetched_grown; [lia|done]|lia]|].
    assert (length p = length (pCubes pc0) + length (pCubes pc1) + length (pCubes pc2)) as Hlp
      by (rewrite Hr; lia).
    right. rewrite !add_cubes_spec;
      repeat (rewrite ?length_app, ?length_take, ?length_drop, ?length_map); try (done || lia).
    set (c0 := map _ (pCubes pc0)). set (c1 := map _ (pCubes pc1)). set (c2 := map _ (pCubes pc2)). cbn [fst].
    assert (length c0 = length (pCubes pc0)) as L0 by apply length_map.
    assert (length c1 = length (pCubes pc1)) as L1 by apply length_map.
    assert (length c2 = length (pCubes pc2)) as L2 by apply length_map.
    match goal with |- context [Build_Kit_Sop_t _ _ ?l] => assert (l = merged v (pCubes pc0) (pCubes pc1) (pCubes pc2)) as El end.
    { rewrite !take_0. cbn [app Nat.add].
      rewrite <- L0, <- L1, <- L2. rewrite !take_app_length.
      replace (length c0 + length c1) with (length (c0 ++ c1)) by apply length_app.
      rewrite (app_assoc c0 c1), !take_app_length.
      rewrite (drop_ge _ (length (c0 ++ c1) + length c2)).
      - subst c0 c1 c2. rewrite lor_0_map. unfold merged. rewrite app_nil_r, <- app_assoc. done.
      - rewrite !length_app, !length_drop, !length_app, !length_drop. lia. }
    rewrite El. cbn [pCubes]. split; [|done].
    split; [done|]. split; [split; cbn [Cube.nCubes Cube.nLits pCubes]; [lia|]|cbn [Cube.nCubes]; lia].
    unfold merged. rewrite !map_app, !zsum_app, !zsum_with_lit by done. lia.
  - pose proof (Vec_IntFetch_fetched _ _ _ _ EF) as Hf. apply Vec_IntFetch_None in EF; [|lia].
    exists sop_fail, V'. split; [done|].
    split; [apply (grown_mono _ _ (nCubes pc0 + nCubes pc1 + nCubes pc2)); [apply fetched_grown; [lia|done]|lia]|].
    left. split; [done|lia].
Qed.

Lemma tautology_cover_spec n on dc V :
  (forall m, dc m = true) -> (exists m, on m = true) ->
  exists pc V', tautology_cover V = (pc, V') /\ grown V V' 1 /\
    (sop_failed pc = true /\ (nCap V < nSize V + 1)%Z \/ sop_ok n on dc pc /\ pCubes pc = [0%Z]).
Proof.
  intros Hd Hm. unfold tautology_cover. destruct (Vec_IntFetch V 1) as [[p|] V'] eqn:EF;
    pose proof (Vec_IntFetch_fetched _ _ _ _ EF) as Hf; eexists _, V'; (split; [done|]);
    (split; [by apply fetched_grown|]).
  - right. destruct (Vec_IntFetch_region _ _ _ _ EF) as [Hl _]. destruct p as [|w [|w' p]]; [done| |done]. pose proof (pow3_pos n).
    split; [|done]. split; [by apply isop_one|]. split; [done|]. cbn [nCubes]. lia.
  - left. apply Vec_IntFetch_None in EF; [|lia]. done.
Qed.

Lemma sop_empty_ok n on dc : (forall m, on m = false) -> sop_ok n on dc sop_empty.
Proof.
  intros H. split; [by apply isop_nil|]. split; [done|]. pose proof (pow3_pos n). cbn. lia.
Qed.

(** * Words as functions *)

Definition wfun (x : Z) (m : nat) : bool := Z.testbit x (Z.of_nat (m mod 32)).

Lemma wfun_land x y m : wfun (x &&& y) m = wfun x m && wfun y m.
Proof. apply Z.land_spec. Qed.
Lemma wfun_lor x y m : wfun (x ||| y) m = wfun x m || wfun y m.
Proof. apply Z.lor_spec. Qed.
Lemma wfun_wnot x m : wfun (~~~ x) m = negb (wfun x m).
Proof. apply testbit_wnot, mod32. Qed.
Lemma wfun_0 m : wfun 0 m = false.
Proof. apply Z.testbit_0_l. Qed.
Lemma wfun_ones m : wfun 0xFFFFFFFF m = true.
Proof. apply testbit_ones_word, mod32. Qed.

Lemma wfun_ext x y : is_word x -> is_word y -> (forall m, wfun x m = wfun y m) -> x = y.
Proof.
  intros Hx Hy H. apply word_ext; [done..|]. intros b Hb. specialize (H b). unfold wfun in H.
  by rewrite Nat.mod_small in H.
Qed.

Lemma tbit_word x m : m < 32 -> tbit [x] m = wfun x m.
Proof. intros Hm. unfold tbit, wfun. by rewrite Nat.div_small by done. Qed.

Lemma wfun_mod x m : wfun x (m mod 32) = wfun x m.
Proof. unfold wfun. by rewrite Nat.Div0.mod_mod. Qed.

Lemma wfun_at0 t m : wfun t.[0] m = tbit t (m mod 32).
Proof. unfold wfun, tbit. rewrite Nat.div_small by apply mod32. by rewrite Nat.Div0.mod_mod. Qed.

Lemma wfun_nonzero x : is_word x -> x <> 0%Z -> exists m, wfun x m = true.
Proof.
  intros Hx Hn. destruct (exists_up 32 (wfun x)) eqn:E; [apply exists_up_true in E as (m & _ & Hm); eauto|].
  contradict Hn. apply wfun_ext; auto with words. intros m. rewrite wfun_0, <- wfun_mod.
  apply (proj1 (exists_up_false _ _) E), mod32.
Qed.

Lemma wfun_mod_chg (b : bool) v x m : v < 5 ->
  wfun x (if b then Nat.setbit (m mod 32) v else Nat.clearbit (m mod 32) v) = cof v b (wfun x) m.
Proof.
  intros Hv. unfold cof. rewrite <- (wfun_mod x (if b then Nat.setbit m v else _)).
  destruct b; [rewrite (set_mod_lo m v)|rewrite (clr_mod_lo m v)]; done || lia.
Qed.

Lemma is_tt_word x n : n <= 5 -> is_word x -> is_tt n [x].
Proof.
  intros Hn Hx. split; [|by constructor]. unfold Kit_TruthWordNum. destruct (Nat.leb_spec n 5); cbn; lia.
Qed.

Lemma nmint_5 n : n <= 5 -> nmint n = 32.
Proof. intros. unfold nmint. by rewrite Nat.max_l. Qed.

Lemma wfun_Cofactor0 x v m : v < 5 -> is_word x ->
  wfun (Kit_TruthCofactor0 [x] (v + 1) v).[0] m = cof v false (wfun x) m.
Proof.
  intros Hv Hx. pose proof (is_tt_word x (v + 1) ltac:(lia) Hx) as Ht. pose proof (mod32 m).
  rewrite wfun_at0, tbit_Cofactor0 by (rewrite ?nmint_5 by lia; done || lia || apply Ht).
  rewrite tbit_word by (apply clear_lt32; done). by apply (wfun_mod_chg false).
Qed.

Lemma wfun_Cofactor1 x v m : v < 5 -> is_word x ->
  wfun (Kit_TruthCofactor1 [x] (v + 1) v).[0] m = cof v true (wfun x) m.
Proof.
  intros Hv Hx. pose proof (is_tt_word x (v + 1) ltac:(lia) Hx) as Ht. pose proof (mod32 m).
  rewrite wfun_at0, tbit_Cofactor1 by (rewrite ?nmint_5 by lia; done || lia || apply Ht).
  rewrite tbit_word by (apply set_lt32; done || lia). by apply (wfun_mod_chg true).
Qed.

Lemma word_Cofactor0 x n v : is_word x -> is_word (Kit_TruthCofactor0 [x] n v).[0].
Proof. intros. apply word_rd, words_Cofactor0. by constructor. Qed.
Lemma word_Cofactor1 x n v : is_word x -> is_word (Kit_TruthCofactor1 [x] n v).[0].
Proof. intros. apply word_rd, words_Cofactor1. by constructor. Qed.

Lemma wfun_vacuous x v m : v < 5 -> is_word x -> Kit_TruthVarInSupport [x] 5 v = false ->
  cof v false (wfun x) m = cof v true (wfun x) m.
Proof.
  intros Hv Hx H. apply (VarInSupport_false 5 [x] v (m mod 32)) in H;
    [|done|by constructor|rewrite nmint_5 by lia; apply mod32].
  pose proof (mod32 m). rewrite !tbit_word in H by (done || by apply clear_lt32 || by apply set_lt32).
  by rewrite (wfun_mod_chg false), (wfun_mod_chg true) in H.
Qed.

Lemma wfun_uMasks v m : v < 5 -> wfun uMasks.[v] m = Nat.testbit m v.
Proof.
  intros Hv. rewrite testbit_lo by done. unfold wfun. pose proof (mod32 m) as Hm. revert Hm.
  generalize (m mod 32) as b. intros b Hb. do 5 (destruct v as [|v]; [enum_nat b 32; reflexivity|]). lia.
Qed.

Lemma word_uMasks v : is_word uMasks.[v].
Proof. apply word_rd. unfold uMasks. repeat (constructor; [auto with words|]). constructor. Qed.
#[export] Hint Resolve word_Cofactor0 word_Cofactor1 word_uMasks : words.

(** * The topmost variable *)

Lemma topmost_Some c n v : topmost c n = Some v <-> v < n /\ c v = true /\ forall j, v < j < n -> c j = false.
Proof.
  unfold topmost. induction n as [|n IH].
  { cbn. split; [done|lia]. }
  rewrite seq_S, rev_app_distr. cbn [rev app find Nat.add]. destruct (c n) eqn:E.
  - split.
    + intros [= <-]. split; [lia|]. split; [done|]. intros. lia.
    + intros (Hv & Hc & Hm). f_equal. destruct (decide (v = n)) as [|Hn]; [done|].
      rewrite Hm in E; [done|lia].
  - rewrite IH. split; intros (Hv & Hc & Hm); (split; [|split; [done|]]).
    + lia.
    + intros j Hj. destruct (decide (j = n)) as [-> | ]; [done|]. apply Hm. lia.
    + destruct (decide (v = n)) as [-> | ]; [congruence|lia].
    + intros j Hj. apply Hm. lia.
Qed.

Lemma topmost_None c n : topmost c n = None <-> forall j, j < n -> c j = false.
Proof.
  unfold topmost. split.
  - intros H j Hj. eapply find_none in H; [done|]. apply -> in_rev. apply in_seq. lia.
  - intros H. destruct (find c _) eqn:E; [|done]. apply find_some in E as [Hi Hc].
    apply in_rev, in_seq in Hi. rewrite H in Hc; [done|lia].
Qed.

(** The variables of two functions found by a sound support test [c]. *)
Lemma topmost_depends (on dc : nat -> bool) c n :
  depends_below n on -> depends_below n dc ->
  (forall v m, v < n -> c v = false -> cof v false on m = cof v true on m /\ cof v false dc m = cof v true dc m) ->
  match topmost c n with
  | Some v => v < n /\ depends_below (S v) on /\ depends_below (S v) dc
  | None => depends_below 0 on /\ depends_below 0 dc
  end.
Proof.
  intros Ho Hd Hc. destruct (topmost c n) as [v|] eqn:E.
  - apply topmost_Some in E as (Hv & _ & Hm). split; [done|].
    split; (apply (depends_fewer (S v) n); [lia|done|intros w m Hw]); apply Hc; (lia || apply Hm; lia).
  - rewrite topmost_None in E.
    split; (apply (depends_fewer 0 n); [lia|done|intros w m Hw]); apply Hc; (lia || apply E; lia).
Qed.

(** * [Kit_TruthIsop5_rec] *)

(** Either the cover is right and [r] is its function, or the capacity was too small for
    [M] more words. *)
Definition outcome (n : nat) (on dc : nat -> bool) (V V' : Vec_Int_t) (pc : Kit_Sop_t) (r : nat -> bool) (M : Z) : Prop :=
  grown V V' M /\
  (sop_failed pc = true /\ (nCap V < nSize V + M)%Z \/
   sop_ok n on dc pc /\ forall m, r m = cover_eval (pCubes pc) m).

Lemma outcome_ok n on dc V V' pc r M :
  sop_failed pc = false -> outcome n on dc V V' pc r M -> sop_ok n on dc pc /\ forall m, r m = cover_eval (pCubes pc) m.
Proof. intros Hf [_ [[H _]|H]]; [congruence|done]. Qed.

(** A failure after [M] words of the [N] have been used. *)
Lemma outcome_fail n on dc V V1 V' r M N :
  grown V V1 M -> grown V1 V' N -> (nCap V1 < nSize V1 + N)%Z ->
  forall P, (M + N <= P)%Z -> outcome n on dc V V' sop_fail r P.
Proof.
  intros H1 H2 Hc P HP. split; [eapply grown_mono; [by eapply grown_trans|lia]|].
  left. split; [done|]. destruct H1 as (E & _ & ?). rewrite E in Hc. lia.
Qed.

Definition mem5 (n : nat) : Z := ((Z.of_nat n + 1) * pow3 n)%Z.

Lemma mem5_S n : mem5 (S n) = (3 * mem5 n + pow3 (S n))%Z.
Proof. unfold mem5. rewrite pow3_S. lia. Qed.

Lemma mem5_mono n k : n <= k -> (mem5 n <= mem5 k)%Z.
Proof. intros. unfold mem5. pose proof (pow3_mono n k). pose proof (pow3_pos n). nia. Qed.

Lemma mem5_pos n : (1 <= mem5 n)%Z.
Proof. unfold mem5. pose proof (pow3_pos n). nia. Qed.

Lemma subset_word x y :
  is_word x -> (forall m, wfun x m = true -> wfun y m = true) -> (x &&& ~~~ y)%Z = 0%Z.
Proof.
  intros Hx H. apply wfun_ext; auto with words. intros m. rewrite wfun_land, wfun_wnot, wfun_0.
  specialize (H m). destruct (wfun x m); [by rewrite H|done].
Qed.

(** A function without variables and its upper bound. *)
Lemma constant_case (on dc : nat -> bool) m0 m1 :
  depends_below 0 on -> depends_below 0 dc -> (forall m, on m = true -> dc m = true) ->
  on m0 = true -> dc m1 = false -> False.
Proof.
  intros Ho Hd Hle H0 H1. apply Hle in H0. rewrite (Hd m0 m1) in H0 by lia. congruence.
Qed.

Lemma depends_and n f g : depends_below n f -> depends_below n g -> depends_below n (fun m => f m && g m).
Proof. intros Hf Hg m m' H. by rewrite (Hf m m' H), (Hg m m' H). Qed.
Lemma depends_or n f g : depends_below n f -> depends_below n g -> depends_below n (fun m => f m || g m).
Proof. intros Hf Hg m m' H. by rewrite (Hf m m' H), (Hg m m' H). Qed.
Lemma depends_neg n f : depends_below n f -> depends_below n (fun m => negb (f m)).
Proof. intros Hf m m' H. by rewrite (Hf m m' H). Qed.
Lemma depends_ext n f g : (forall m, f m = g m) -> depends_below n f -> depends_below n g.
Proof. intros E Hf m m' H. rewrite <- !E. by apply Hf. Qed.
Lemma depends_cover n cs : Forall (cube_in n) cs -> depends_below n (cover_eval cs).
Proof.
  intros Hcs m m' H. unfold cover_eval. induction Hcs as [|c cs Hc Hcs IH]; [done|]. cbn [existsb].
  by rewrite IH, (cube_eval_ext n c m m').
Qed.

Lemma outcome_ext n on on' dc dc' V V' pc r M :
  (forall m, on m = on' m) -> (forall m, dc m = dc' m) ->
  outcome n on dc V V' pc r M -> outcome n on' dc' V V' pc r M.
Proof.
  intros Ho Hd [Hg [H|[Ho' Hr]]]; (split; [done|]); [by left|right].
  split; [by apply (sop_ok_ext n on on' dc dc')|done].
Qed.

(** The function that the cover of a step represents. *)
Lemma step_function v on dc pc0 pc1 pc2 (r0 r1 r2 r : nat -> bool) :
  v < 16 ->
  sop_ok v (fun m => cof v false on m && negb (cof v true dc m)) (cof v false dc) pc0 ->
  sop_ok v (fun m => cof v true on m && negb (cof v false dc m)) (cof v true dc) pc1 ->
  (forall m, r0 m = cover_eval (pCubes pc0) m) -> (forall m, r1 m = cover_eval (pCubes pc1) m) ->
  (forall m, r2 m = cover_eval (pCubes pc2) m) ->
  (forall m, r m = (if Nat.testbit m v then r1 m else r0 m) || r2 m) ->
  forall m, r m = cover_eval (merged v (pCubes pc0) (pCubes pc1) (pCubes pc2)) m.
Proof.
  intros Hv (I0 & _) (I1 & _) E0 E1 E2 E m. rewrite (cover_merged v on dc) by done.
  rewrite E, E2. by destruct (Nat.testbit m v); rewrite ?E0, ?E1.
Qed.

Lemma depends_land n x y : depends_below n (wfun x) -> depends_below n (wfun y) -> depends_below n (wfun (x &&& y)).
Proof. intros Hx Hy m m' H. by rewrite !wfun_land, (Hx m m' H), (Hy m m' H). Qed.
Lemma depends_lor n x y : depends_below n (wfun x) -> depends_below n (wfun y) -> depends_below n (wfun (x ||| y)).
Proof. intros Hx Hy m m' H. by rewrite !wfun_lor, (Hx m m' H), (Hy m m' H). Qed.
Lemma depends_wnot n x : depends_below n (wfun x) -> depends_below n (wfun (~~~ x)).
Proof. intros Hx m m' H. by rewrite !wfun_wnot, (Hx m m' H). Qed.

(** What is assumed of the arguments of a call. *)
Record isop5_pre (n : nat) (uOn uOnDc : Z) : Prop := {
  pre5_on : is_word uOn;
  pre5_dc : is_word uOnDc;
  pre5_on_dep : depends_below n (wfun uOn);
  pre5_dc_dep : depends_below n (wfun uOnDc);
  pre5_le : forall m, wfun uOn m = true -> wfun uOnDc m = true;
}.

(** The two calls on the cofactors. *)
Lemma pre5_cofactors v uOn uOnDc :
  v < 5 -> isop5_pre (S v) uOn uOnDc ->
  isop5_pre v ((Kit_TruthCofactor0 [uOn] (v + 1) v).[0] &&& ~~~ (Kit_TruthCofactor1 [uOnDc] (v + 1) v).[0])
              (Kit_TruthCofactor0 [uOnDc] (v + 1) v).[0] /\
  isop5_pre v ((Kit_TruthCofactor1 [uOn] (v + 1) v).[0] &&& ~~~ (Kit_TruthCofactor0 [uOnDc] (v + 1) v).[0])
              (Kit_TruthCofactor1 [uOnDc] (v + 1) v).[0].
Proof.
  intros Hv [Ho Hd Do Dd Hle].
  assert (forall x, is_word x -> depends_below (S v) (wfun x) ->
    depends_below v (wfun (Kit_TruthCofactor0 [x] (v + 1) v).[0]) /\
    depends_below v (wfun (Kit_TruthCofactor1 [x] (v + 1) v).[0])) as Hc.
  { intros x Hx Dx. split; (eapply depends_ext; [intros m; symmetry; by apply wfun_Cofactor0 || by apply wfun_Cofactor1|]);
      by apply depends_cof. }
  destruct (Hc _ Ho Do) as [Ho0 Ho1]. destruct (Hc _ Hd Dd) as [Hd0 Hd1].
  split; constructor; auto with words.
  - by apply depends_land, depends_wnot.
  - intros m. rewrite wfun_land, !wfun_Cofactor0 by done. intros [H _]%andb_true_iff. by apply Hle.
  - by apply depends_land, depends_wnot.
  - intros m. rewrite wfun_land, !wfun_Cofactor1 by done. intros [H _]%andb_true_iff. by apply Hle.
Qed.

(** The call on what the two cofactors left uncovered. *)
Lemma pre5_rest v on0 on1 dc0 dc1 r0 r1 :
  is_word on0 -> is_word on1 -> is_word dc0 -> is_word dc1 ->
  depends_below v (wfun on0) -> depends_below v (wfun on1) -> depends_below v (wfun dc0) ->
  depends_below v (wfun dc1) -> depends_below v (wfun r0) -> depends_below v (wfun r1) ->
  (forall m, wfun on0 m = true -> wfun dc0 m = true) -> (forall m, wfun on1 m = true -> wfun dc1 m = true) ->
  (forall m, wfun on0 m && negb (wfun dc1 m) = true -> wfun r0 m = true) ->
  (forall m, wfun on1 m && negb (wfun dc0 m) = true -> wfun r1 m = true) ->
  isop5_pre v ((on0 &&& ~~~ r0) ||| (on1 &&& ~~~ r1)) (dc0 &&& dc1).
Proof.
  intros ? ? ? ? ? ? ? ? ? ? L0 L1 C0 C1. constructor; auto with words.
  - by apply depends_lor; apply depends_land; try apply depends_wnot.
  - by apply depends_land.
  - intros m. rewrite wfun_lor, !wfun_land, !wfun_wnot.
    specialize (C0 m); specialize (C1 m).
    intros [HH|HH]%orb_true_iff; apply andb_true_iff in HH as [Ha Hn]; apply negb_true_iff in Hn; apply andb_true_iff.
    + split; [by apply L0|]. apply not_false_iff_true. intros Hf. rewrite Ha, Hf, Hn in C0. by specialize (C0 eq_refl).
    + split; [|by apply L1]. apply not_false_iff_true. intros Hf. rewrite Ha, Hf, Hn in C1. by specialize (C1 eq_refl).
Qed.

(** A recursive call: [P] is the precondition of its arguments and [G] what the memory [V]
    has grown by so far.  The case that the call fails is closed. *)
Ltac rec_call IH V P G r pc V' W S R G' :=
  let O := fresh "O" in let Ef := fresh "Efail" in let G1 := fresh "Grow" in let C := fresh "C" in
  destruct (IH _ _ V P) as (r & pc & V' & -> & W & O); cbn [mbind option_bind];
  destruct (sop_failed pc) eqn:Ef;
  [ eexists _, _, _; split; [done|]; split; [done|]; destruct O as [G1 [[_ C]|[S _]]];
    [ apply (outcome_fail _ _ _ _ _ _ _ _ _ G G1 C); lia
    | apply sop_ok_not_failed in S; congruence ]
  | destruct (outcome_ok _ _ _ _ _ _ _ _ Ef O) as [S R]; destruct O as [G1 _];
    pose proof (grown_trans _ _ _ _ _ G G1) as G' ].

(** The three covers of a step, with what is known of them. *)
Lemma step_covers v on dc pc0 pc1 pc2 (f0 f1 g0 g1 h2 d2 r0 r1 : nat -> bool) :
  sop_ok v f0 g0 pc0 -> sop_ok v f1 g1 pc1 -> sop_ok v h2 d2 pc2 ->
  (forall m, f0 m = cof v false on m && negb (cof v true dc m)) -> (forall m, g0 m = cof v false dc m) ->
  (forall m, f1 m = cof v true on m && negb (cof v false dc m)) -> (forall m, g1 m = cof v true dc m) ->
  (forall m, h2 m = cof v false on m && negb (r0 m) || cof v true on m && negb (r1 m)) ->
  (forall m, d2 m = cof v false dc m && cof v true dc m) ->
  (forall m, r0 m = cover_eval (pCubes pc0) m) -> (forall m, r1 m = cover_eval (pCubes pc1) m) ->
  sop_ok v (fun m => cof v false on m && negb (cof v true dc m)) (cof v false dc) pc0 /\
  sop_ok v (fun m => cof v true on m && negb (cof v false dc m)) (cof v true dc) pc1 /\
  sop_ok v (fun m => cof v false on m && negb (cover_eval (pCubes pc0) m)
                  || cof v true on m && negb (cover_eval (pCubes pc1) m))
           (fun m => cof v false dc m && cof v true dc m) pc2.
Proof.
  intros S0 S1 S2 E1 E2 E3 E4 E5 E6 R0 R1.
  split; [by apply (sop_ok_ext _ _ _ _ _ _ E1 E2)|]. split; [by apply (sop_ok_ext _ _ _ _ _ _ E3 E4)|].
  revert S2. apply sop_ok_ext; [|done]. intros m. by rewrite E5, R0, R1.
Qed.

Lemma isop5_step fuel n v uOn uOnDc V :
  (forall uOn uOnDc V, isop5_pre v uOn uOnDc ->
     exists r pc V', Kit_TruthIsop5_rec fuel uOn uOnDc v V = Some (r, pc, V') /\ is_word r /\
       outcome v (wfun uOn) (wfun uOnDc) V V' pc (wfun r) (mem5 v)) ->
  v < n <= 5 -> isop5_pre (S v) uOn uOnDc -> uOn <> 0%Z -> uOnDc <> 0xFFFFFFFF%Z ->
  topmost (fun Var => Kit_TruthVarInSupport [uOn] 5 Var || Kit_TruthVarInSupport [uOnDc] 5 Var) n = Some v ->
  exists r pc V', Kit_TruthIsop5_rec (S fuel) uOn uOnDc n V = Some (r, pc, V') /\ is_word r /\
    outcome n (wfun uOn) (wfun uOnDc) V V' pc (wfun r) (mem5 n).
Proof.
  intros IH Hv Hpre Hn0 Hn1 Ht. pose proof Hpre as [Ho Hd Do Dd Hle].
  cbn [Kit_TruthIsop5_rec]. rewrite (proj2 (Nat.leb_le n 5)) by lia.
  rewrite (subset_word _ _ Ho Hle), Z.eqb_refl.
  rewrite (proj2 (Z.eqb_neq _ _) Hn0), (proj2 (Z.eqb_neq _ _) Hn1), (proj2 (Nat.ltb_lt 0 n)), Ht by lia.
  set (on0 := (Kit_TruthCofactor0 [uOn] (v + 1) v).[0]). set (on1 := (Kit_TruthCofactor1 [uOn] (v + 1) v).[0]).
  set (dc0 := (Kit_TruthCofactor0 [uOnDc] (v + 1) v).[0]). set (dc1 := (Kit_TruthCofactor1 [uOnDc] (v + 1) v).[0]).
  assert (forall m, wfun on0 m = cof v false (wfun uOn) m) as Fo0 by (intros; apply wfun_Cofactor0; done || lia).
  assert (forall m, wfun on1 m = cof v true (wfun uOn) m) as Fo1 by (intros; apply wfun_Cofactor1; done || lia).
  assert (forall m, wfun dc0 m = cof v false (wfun uOnDc) m) as Fd0 by (intros; apply wfun_Cofactor0; done || lia).
  assert (forall m, wfun dc1 m = cof v true (wfun uOnDc) m) as Fd1 by (intros; apply wfun_Cofactor1; done || lia).
  destruct (pre5_cofactors v uOn uOnDc ltac:(lia) Hpre) as [P0 P1]. fold on0 on1 dc0 dc1 in P0, P1.
  assert (mem5 (S v) <= mem5 n)%Z as HM by (apply mem5_mono; lia). rewrite mem5_S in HM.
  pose proof (pow3_pos (S v)).
  assert (grown V V 0) as G by (by repeat split; lia). pose proof (mem5_pos v).
  rec_call IH V P0 G r0 pc0 V1 W0 S0 R0 G0.
  rec_call IH V1 P1 G0 r1 pc1 V2 W1 S1 R1 G1.
  assert (isop5_pre v ((on0 &&& ~~~ r0) ||| (on1 &&& ~~~ r1)) (dc0 &&& dc1)) as P2.
  { destruct P0 as [_ ? ? ? L0], P1 as [_ ? ? ? L1], S0 as [I0 _], S1 as [I1 _].
    apply pre5_rest; auto with words; try (unfold on0, on1; auto with words; fail).
    - eapply depends_ext; [intros m; symmetry; apply Fo0|]. by apply depends_cof.
    - eapply depends_ext; [intros m; symmetry; apply Fo1|]. by apply depends_cof.
    - eapply depends_ext; [intros m; symmetry; apply R0|]. apply depends_cover, (isop_in _ _ _ _ I0).
    - eapply depends_ext; [intros m; symmetry; apply R1|]. apply depends_cover, (isop_in _ _ _ _ I1).
    - intros m. rewrite Fo0, Fd0. apply Hle.
    - intros m. rewrite Fo1, Fd1. apply Hle.
    - intros m Hm. rewrite R0. apply (isop_lower _ _ _ _ I0). by rewrite wfun_land, wfun_wnot.
    - intros m Hm. rewrite R1. apply (isop_lower _ _ _ _ I1). by rewrite wfun_land, wfun_wnot. }
  rec_call IH V2 P2 G1 r2 pc2 V3 W2 S2 R2 G2.
  destruct (step_covers v (wfun uOn) (wfun uOnDc) pc0 pc1 pc2 _ _ _ _ _ _ (wfun r0) (wfun r1) S0 S1 S2)
    as (T0 & T1 & T2); [intros m; rewrite ?wfun_lor, ?wfun_land, ?wfun_wnot, ?Fo0, ?Fo1, ?Fd0, ?Fd1; done..|done|done|].
  destruct (create_cover_spec v (wfun uOn) (wfun uOnDc) pc0 pc1 pc2 V3 ltac:(lia) T0 T1 T2 (wfun_nonzero _ Ho Hn0))
    as (pc & V4 & -> & G3 & [[Ef C]|[So Em]]); cbn beta iota.
  { rewrite Ef. eexists _, _, _. split; [done|]. split; [done|].
    split; [eapply grown_mono; [exact (grown_trans _ _ _ _ _ G2 G3)|lia]|]. left. split; [done|].
    destruct G2 as (E & _ & ?). rewrite E in C. lia. }
  rewrite (sop_ok_not_failed _ _ _ _ So). eexists _, _, _. split; [done|]. split; [auto 10 with words|].
  split; [eapply grown_mono; [exact (grown_trans _ _ _ _ _ G2 G3)|lia]|]. right. split; [apply (sop_ok_mono (S v)); done || lia|].
  rewrite Em. apply (step_function v (wfun uOn) (wfun uOnDc) pc0 pc1 pc2 (wfun r0) (wfun r1) (wfun r2)); try done; [lia|].
  intros m. rewrite !wfun_lor, !wfun_land, wfun_wnot, wfun_uMasks by lia.
  by destruct (wfun r0 m), (wfun r1 m), (wfun r2 m), (Nat.testbit m v).
Qed.

Lemma Isop5_rec_spec fuel n uOn uOnDc V :
  n < fuel -> n <= 5 -> isop5_pre n uOn uOnDc ->
  exists r pc V', Kit_TruthIsop5_rec fuel uOn uOnDc n V = Some (r, pc, V') /\ is_word r /\
    outcome n (wfun uOn) (wfun uOnDc) V V' pc (wfun r) (mem5 n).
Proof.
  revert n uOn uOnDc V. induction fuel as [|fuel IH]; intros n uOn uOnDc V Hf Hn Hpre; [lia|].
  pose proof Hpre as [Ho Hd Do Dd Hle]. pose proof (mem5_pos n).
  destruct (decide (uOn = 0)%Z) as [-> | Hn0].
  { cbn [Kit_TruthIsop5_rec]. rewrite (proj2 (Nat.leb_le n 5)) by lia.
    rewrite (subset_word _ _ Ho Hle). cbn [Z.eqb]. eexists _, _, _. split; [done|]. split; [auto with words|].
    split; [by repeat split; lia|]. right. split; [apply sop_empty_ok, wfun_0|]. intros. apply wfun_0. }
  destruct (decide (uOnDc = 0xFFFFFFFF)%Z) as [-> | Hn1].
  { cbn [Kit_TruthIsop5_rec]. rewrite (proj2 (Nat.leb_le n 5)) by lia.
    rewrite (subset_word _ _ Ho Hle), Z.eqb_refl, (proj2 (Z.eqb_neq _ _) Hn0).
    destruct (tautology_cover_spec n (wfun uOn) (wfun 0xFFFFFFFF) V wfun_ones (wfun_nonzero _ Ho Hn0))
      as (pc & V' & -> & G & [[E C]|[So Em]]).
    - rewrite Z.eqb_refl, E. eexists _, _, _. split; [done|]. split; [auto with words|].
      split; [by eapply grown_mono|]. left. split; [done|lia].
    - rewrite Z.eqb_refl, (sop_ok_not_failed _ _ _ _ So). eexists _, _, _. split; [done|]. split; [auto with words|].
      split; [by eapply grown_mono|]. right. split; [done|]. intros m. rewrite Em, wfun_ones.
      unfold cover_eval. cbn [existsb]. by rewrite cube_eval_0. }
  pose proof (topmost_depends (wfun uOn) (wfun uOnDc)
    (fun Var => Kit_TruthVarInSupport [uOn] 5 Var || Kit_TruthVarInSupport [uOnDc] 5 Var) n Do Dd) as Ht.
  destruct (topmost _ n) as [v|] eqn:Et.
  - destruct Ht as (Hv & Do' & Dd').
    { intros w m Hw [H1 H2]%orb_false_iff. split; apply wfun_vacuous; done || lia. }
    apply (isop5_step fuel n v); try done. intros. apply IH; [lia..|done].
  - destruct Ht as (Do' & Dd').
    { intros w m Hw [H1 H2]%orb_false_iff. split; apply wfun_vacuous; done || lia. }
    destruct (wfun_nonzero _ Ho Hn0) as [m0 H0].
    destruct (wfun_nonzero (~~~ uOnDc)) as [m1 H1]; [auto with words| |].
    + contradict Hn1. apply wfun_ext; auto with words. intros m.
      pose proof (wfun_wnot uOnDc m) as E. rewrite Hn1, wfun_0 in E. rewrite wfun_ones. by destruct (wfun uOnDc m).
    + rewrite wfun_wnot in H1. apply negb_true_iff in H1.
      destruct (constant_case (wfun uOn) (wfun uOnDc) m0 m1); done.
Qed.

(** * Tables as functions *)

Definition tfun (n : nat) (t : list Z) (m : nat) : bool := tbit t (m mod nmint n).

Lemma nmint_pos n : 0 < nmint n.
Proof. unfold nmint. apply Nat.neq_0_lt_0, Nat.pow_nonzero. lia. Qed.
Lemma mod_nmint m n : m mod nmint n < nmint n.
Proof. apply Nat.mod_upper_bound. pose proof (nmint_pos n). lia. Qed.
Lemma tfun_small n t m : m < nmint n -> tfun n t m = tbit t m.
Proof. intros. unfold tfun. by rewrite Nat.mod_small. Qed.

Lemma mod_nmint_bit m n i : i < Nat.max 5 n -> Nat.testbit (m mod nmint n) i = Nat.testbit m i.
Proof. intros. unfold nmint. by rewrite Nat.mod_pow2_bits_low. Qed.

(** Two minterms that agree on the variables of a table are the same index. *)
Lemma mod_nmint_eq n m m' : (forall i, i < Nat.max 5 n -> Nat.testbit m i = Nat.testbit m' i) -> m mod nmint n = m' mod nmint n.
Proof.
  intros H. apply Nat.bits_inj. intros i. destruct (Nat.lt_ge_cases i (Nat.max 5 n)).
  - by rewrite !mod_nmint_bit, H.
  - unfold nmint. by rewrite !Nat.mod_pow2_bits_high.
Qed.

Lemma tfun_depends n t : depends_below (Nat.max 5 n) (tfun n t).
Proof. intros m m' H. unfold tfun. by rewrite (mod_nmint_eq n m m'). Qed.

Lemma mod_nmint_chg (b : bool) n m v : v < Nat.max 5 n ->
  (if b then Nat.setbit m v else Nat.clearbit m v) mod nmint n =
  (if b then Nat.setbit (m mod nmint n) v else Nat.clearbit (m mod nmint n) v).
Proof.
  intros Hv. rewrite <- (Nat.mod_small (if b then Nat.setbit (m mod nmint n) v else _) (nmint n)).
  - apply mod_nmint_eq. intros i Hi. rewrite !cof_bit, mod_nmint_bit by done. done.
  - pose proof (mod_nmint m n). destruct b; [by apply setbit_lt|by apply clearbit_lt].
Qed.

Lemma tfun_vacuous n t v m : v < n -> Forall is_word t -> Kit_TruthVarInSupport t n v = false ->
  cof v false (tfun n t) m = cof v true (tfun n t) m.
Proof.
  intros Hv Ht H. apply (VarInSupport_false n t v (m mod nmint n)) in H; [|done|done|apply mod_nmint].
  unfold cof, tfun. rewrite (mod_nmint_chg false), (mod_nmint_chg true) by lia. done.
Qed.

Lemma tfun_Sharp n p a b m : Kit_TruthWordNum n <= length p ->
  tfun n (Kit_TruthSharp p a b n) m = tfun n a m && negb (tfun n b m).
Proof. intros. by apply tbit_Sharp, mod_nmint. Qed.
Lemma tfun_Or n p a b m : Kit_TruthWordNum n <= length p ->
  tfun n (Kit_TruthOr p a b n) m = tfun n a m || tfun n b m.
Proof. intros. by apply tbit_Or, mod_nmint. Qed.
Lemma tfun_And n p a b m : Kit_TruthWordNum n <= length p ->
  tfun n (Kit_TruthAnd p a b n) m = tfun n a m && tfun n b m.
Proof. intros. by apply tbit_And, mod_nmint. Qed.

Lemma is_tt_zeros n k : Kit_TruthWordNum n <= k -> is_tt n (repeat 0%Z k).
Proof.
  intros Hk. split; [by rewrite repeat_length|]. apply List.Forall_forall. intros x Hx.
  apply repeat_spec in Hx as ->. apply word_0.
Qed.

Lemma WordNum_hi v : 5 <= v -> Kit_TruthWordNum v = 2 ^ (v - 5).
Proof.
  intros Hv. unfold Kit_TruthWordNum. destruct (Nat.leb_spec v 5); [|done].
  by replace v with 5 by lia.
Qed.

Lemma WordNum_lt v n : 5 <= v -> v < n -> exists c, Kit_TruthWordNum n = c * (2 * Kit_TruthWordNum v) /\ 0 < c.
Proof.
  intros Hv Hn. rewrite !WordNum_hi by lia. exists (2 ^ (n - S v)). split.
  - change (2 * 2 ^ (v - 5)) with (2 ^ S (v - 5)). rewrite <- Nat.pow_add_r. f_equal. lia.
  - apply Nat.neq_0_lt_0, Nat.pow_nonzero. lia.
Qed.

Lemma WordNum_double v n : 5 <= v -> v < n -> 2 * Kit_TruthWordNum v <= Kit_TruthWordNum n.
Proof. intros Hv Hn. destruct (WordNum_lt v n Hv Hn) as (c & -> & Hc). nia. Qed.

Lemma is_tt_half0 v n t : 5 <= v -> v < n -> is_tt n t -> is_tt v t.
Proof. intros Hv Hn [Hl Hw]. split; [|done]. pose proof (WordNum_double v n Hv Hn). lia. Qed.
Lemma is_tt_half1 v n t : 5 <= v -> v < n -> is_tt n t -> is_tt v (drop (Kit_TruthWordNum v) t).
Proof.
  intros Hv Hn [Hl Hw]. pose proof (WordNum_double v n Hv Hn). split; [rewrite length_drop; lia|].
  by apply Forall_drop.
Qed.

Lemma nmint_hi v : 5 <= v -> nmint v = 2 ^ v.
Proof. intros. unfold nmint. by rewrite Nat.max_r. Qed.

Lemma tbit_drop k t m : tbit (drop k t) m = tbit t (k * 32 + m).
Proof.
  unfold tbit. rewrite rd_drop, Nat.div_add_l, (Nat.add_comm (k * 32)), Nat.Div0.mod_add by lia. done.
Qed.

Lemma tfun_half0 v n t m : 5 <= v -> v < n -> depends_below (S v) (tfun n t) ->
  tfun v t m = cof v false (tfun n t) m.
Proof.
  intros Hv Hn Hd. transitivity (tfun n t (m mod nmint v)).
  - rewrite (tfun_small n); [done|]. pose proof (mod_nmint m v). rewrite !nmint_hi in * by lia.
    eapply Nat.lt_le_trans; [done|]. apply Nat.pow_le_mono_r; lia.
  - apply Hd. intros i Hi. rewrite clearbit_if. destruct (Nat.eqb_spec v i) as [<- | ].
    + rewrite nmint_hi by done. by rewrite Nat.mod_pow2_bits_high.
    + apply mod_nmint_bit. lia.
Qed.

Lemma tfun_half1 v n t m : 5 <= v -> v < n -> depends_below (S v) (tfun n t) ->
  tfun v (drop (Kit_TruthWordNum v) t) m = cof v true (tfun n t) m.
Proof.
  intros Hv Hn Hd. unfold tfun at 1. rewrite tbit_drop. pose proof (mod_nmint m v) as Hm.
  assert (Kit_TruthWordNum v * 32 + m mod nmint v = Nat.setbit (m mod nmint v) v) as E.
  { rewrite setbit_block. rewrite nmint_words in Hm. rewrite nmint_hi in * by done.
    rewrite <- (nmint_hi v), nmint_words in * by done. rewrite (Nat.div_small _ (2 * _)) by lia.
    rewrite (Nat.mod_small (m mod _)) by lia. lia. }
  rewrite E, <- (tfun_small n).
  - apply Hd. intros i Hi. rewrite !setbit_if. destruct (Nat.eqb_spec v i); [done|].
    apply mod_nmint_bit. lia.
  - rewrite !nmint_hi in * by lia. apply setbit_lt; [|lia]. eapply Nat.lt_le_trans; [done|].
    apply Nat.pow_le_mono_r; lia.
Qed.

(** The two halves of a table put together. *)
Lemma tfun_halves v p0 p1 m : 5 <= v -> length p0 = Kit_TruthWordNum v ->
  tfun (S v) (p0 ++ p1) m = if Nat.testbit m v then tfun v p1 m else tfun v p0 m.
Proof.
  intros Hv Hl. assert (depends_below (S v) (tfun (S v) (p0 ++ p1))) as Hd.
  { replace (S v) with (Nat.max 5 (S v)) at 1 by lia. apply tfun_depends. }
  rewrite <- (cof_id v). destruct (Nat.testbit m v).
  - rewrite <- tfun_half1 by (done || lia). by rewrite <- Hl, drop_app_length.
  - rewrite <- tfun_half0 by (done || lia). unfold tfun, tbit. f_equal.
    unfold rd. apply app_nth1. rewrite Hl. apply nmint_div, mod_nmint.
Qed.

Lemma tfun_const n t k m : (forall i, i < Kit_TruthWordNum n -> t.[i] = k) -> tfun n t m = wfun k m.
Proof.
  intros H. unfold tfun, tbit, wfun. rewrite H by apply nmint_div, mod_nmint. do 2 f_equal.
  apply Nat.bits_inj. intros i. change 32 with (2 ^ 5). destruct (Nat.lt_ge_cases i 5).
  - rewrite !Nat.mod_pow2_bits_low by done. apply mod_nmint_bit. lia.
  - by rewrite !Nat.mod_pow2_bits_high.
Qed.

(** ** Copying the first block of words over the table *)

Lemma copy_one_block W i p s :
  0 < i -> i * W + W <= length s -> (forall j, j < W -> s.[j] = p.[j]) ->
  let s' := for_up W (fun k q => wr q (i * W + k) q.[k]) s in
  length s' = length s /\ forall w, s'.[w] = if decide (i * W <= w < i * W + W) then p.[w - i * W] else s.[w].
Proof.
  intros Hi Hl Hp. cbv zeta.
  assert (forall n, n <= W ->
    let s' := for_up n (fun k q => wr q (i * W + k) q.[k]) s in
    length s' = length s /\ forall w, s'.[w] = if decide (i * W <= w < i * W + n) then p.[w - i * W] else s.[w]) as H.
  { induction n as [|n IH]; intros Hn; cbv zeta.
    { split; [done|]. intros w. rewrite decide_False by lia. done. }
    destruct IH as [IHl IHr]; [lia|]. rewrite for_up_S. split; [by rewrite length_wr|].
    intros w. rewrite rd_wr, IHl, (IHr n), (decide_False (P := i * W <= n < i * W + n)) by nia.
    destruct (decide (i * W + n = w /\ i * W + n < length s)) as [[<- _]|Hne].
    - rewrite decide_True by lia. rewrite Hp by lia. f_equal. lia.
    - rewrite IHr. destruct (decide (i * W <= w < i * W + n)).
      + by rewrite decide_True by lia.
      + rewrite decide_False; [done|]. intros ?. apply Hne. lia. }
  by apply H.
Qed.

Lemma copy_blocks W c p :
  0 < W -> 0 < c -> c * W <= length p ->
  let p' := for_range 1 c (fun i => for_up W (fun k q => wr q (i * W + k) q.[k])) p in
  length p' = length p /\ forall w, w < c * W -> p'.[w] = p.[w mod W].
Proof.
  intros HW Hc Hl. cbv zeta.
  assert (forall s i, (length s = length p /\ forall w, s.[w] = if decide (w < i * W) then p.[w mod W] else p.[w]) ->
    0 < i < c -> let s' := for_up W (fun k q => wr q (i * W + k) q.[k]) s in
    length s' = length p /\ forall w, s'.[w] = if decide (w < S i * W) then p.[w mod W] else p.[w]) as Hstep.
  { intros s i [Ls Hs] Hi. cbv zeta. destruct (copy_one_block W i p s) as [L' R']; [lia|nia| |].
    - intros j Hj. rewrite Hs, decide_True by nia. by rewrite Nat.mod_small.
    - split; [congruence|]. intros w. rewrite R', Hs.
      destruct (decide (i * W <= w < i * W + W)).
      + rewrite decide_True by lia. f_equal. apply (Nat.mod_unique _ _ i); lia.
      + destruct (decide (w < i * W)); [by rewrite decide_True by lia|by rewrite decide_False by lia]. }
  assert (length (for_range 1 c (fun i => for_up W (fun k q => wr q (i * W + k) q.[k])) p) = length p /\
    forall w, (for_range 1 c (fun i => for_up W (fun k q => wr q (i * W + k) q.[k])) p).[w]
      = if decide (w < c * W) then p.[w mod W] else p.[w]) as [H1 H2].
  { refine (for_range_ind (fun i s => length s = length p /\ forall w, s.[w] = if decide (w < i * W) then p.[w mod W] else p.[w])
      1 c _ p _ _ _).
    - lia.
    - split; [done|]. intros w. rewrite Nat.mul_1_l. case_decide; [by rewrite Nat.mod_small|done].
    - intros i s Hi Hs. apply Hstep; [done|lia]. }
  split; [done|]. intros w Hw. by rewrite H2, decide_True.
Qed.

Lemma tfun_copied v n p p' m :
  5 <= v -> v < n -> (forall w, w < Kit_TruthWordNum n -> p'.[w] = p.[w mod (2 * Kit_TruthWordNum v)]) ->
  tfun n p' m = tfun (S v) p m.
Proof.
  intros Hv Hn H. unfold tfun, tbit. rewrite H by apply nmint_div, mod_nmint.
  assert (2 * Kit_TruthWordNum v = 2 ^ (S v - 5)) as ->.
  { rewrite WordNum_hi by done. replace (S v - 5) with (S (v - 5)) by lia. done. }
  f_equal; [f_equal|f_equal]; apply Nat.bits_inj; intros i; change 32 with (2 ^ 5).
  - destruct (Nat.lt_ge_cases i (S v - 5)).
    + rewrite Nat.mod_pow2_bits_low, !Nat.div_pow2_bits, !mod_nmint_bit by lia. done.
    + rewrite Nat.mod_pow2_bits_high, Nat.div_pow2_bits by done. unfold nmint.
      by rewrite Nat.mod_pow2_bits_high by lia.
  - destruct (Nat.lt_ge_cases i 5).
    + rewrite !Nat.mod_pow2_bits_low by done. by rewrite !mod_nmint_bit by lia.
    + by rewrite !Nat.mod_pow2_bits_high.
Qed.

(** * [Kit_TruthIsop_rec] *)

(** Memory that a call on [n] variables can use. *)
Fixpoint mem (n : nat) : Z :=
  match n with
  | O => Z.of_nat (Kit_TruthWordNum 0) + mem5 0
  | S k => Z.of_nat (Kit_TruthWordNum (S k)) + 3 * mem k + pow3 (S k)
  end%Z.

Lemma mem_bounds n : (Z.of_nat (Kit_TruthWordNum n) + mem5 n <= mem n)%Z /\ (forall k, k <= n -> (mem k <= mem n)%Z).
Proof.
  induction n as [|n [IH1 IH2]].
  - split; [cbn; lia|]. intros k Hk. by replace k with 0 by lia.
  - pose proof (mem5_pos n). pose proof (pow3_pos (S n)). cbn [mem]. split; [rewrite mem5_S; lia|].
    intros k Hk. destruct (decide (k = S n)) as [-> | ]; [cbn [mem]; lia|].
    specialize (IH2 k ltac:(lia)). lia.
Qed.

Lemma mem_step v n : v < n -> (Z.of_nat (Kit_TruthWordNum n) + 3 * mem v + pow3 (S v) <= mem n)%Z.
Proof.
  destruct n as [|n]; intros Hv; [lia|]. cbn [mem]. destruct (mem_bounds n) as [_ H].
  specialize (H v ltac:(lia)). pose proof (pow3_mono (S v) (S n)). lia.
Qed.

Record isop_pre (n : nat) (puOn puOnDc : list Z) : Prop := {
  pre_on : is_tt n puOn;
  pre_dc : is_tt n puOnDc;
  pre_on_dep : depends_below n (tfun n puOn);
  pre_dc_dep : depends_below n (tfun n puOnDc);
  pre_le : forall m, tfun n puOn m = true -> tfun n puOnDc m = true;
}.

(** The result of a call, its memory and its table. *)
Definition isop_post (n : nat) (puOn puOnDc : list Z) (V : Vec_Int_t) (o : option (list Z * Kit_Sop_t * Vec_Int_t)) : Prop :=
  exists r pc V', o = Some (r, pc, V') /\ (sop_failed pc = false -> is_tt n r /\ length r = Kit_TruthWordNum n) /\
    outcome n (tfun n puOn) (tfun n puOnDc) V V' pc (tfun n r) (mem n).

Lemma depends_tfun5 n t : 5 <= n -> depends_below n (tfun n t).
Proof. intros. replace n with (Nat.max 5 n) at 1 by lia. apply tfun_depends. Qed.

Lemma tfun_const1 n t m : is_tt n t -> Kit_TruthIsConst1 t n = true -> tfun n t m = true.
Proof. intros Ht H. by apply (proj1 (IsConst1_spec n t Ht) H), mod_nmint. Qed.
Lemma tfun_const0 n t m : is_tt n t -> Kit_TruthIsConst0 t n = true -> tfun n t m = false.
Proof. intros Ht H. by apply (proj1 (IsConst0_spec n t Ht) H), mod_nmint. Qed.

Lemma tfun_nonzero n t : is_tt n t -> Kit_TruthIsConst0 t n = false -> exists m, tfun n t m = true.
Proof.
  intros Ht H. destruct (exists_up (nmint n) (tbit t)) eqn:E.
  - apply exists_up_true in E as (m & Hm & Hb). exists m. by rewrite tfun_small.
  - rewrite (proj2 (IsConst0_spec n t Ht)) in H; [done|]. by apply exists_up_false.
Qed.
Lemma tfun_nonone n t : is_tt n t -> Kit_TruthIsConst1 t n = false -> exists m, tfun n t m = false.
Proof.
  intros Ht H. destruct (exists_up (nmint n) (fun m => negb (tbit t m))) eqn:E.
  - apply exists_up_true in E as (m & Hm & Hb). exists m. rewrite tfun_small by done. by apply negb_true_iff.
  - rewrite (proj2 (IsConst1_spec n t Ht)) in H; [done|]. intros m Hm.
    apply negb_false_iff. by apply (proj1 (exists_up_false _ _) E).
Qed.

(** The calls on the halves of the tables. *)
Section halves.
Context (v n : nat) (puOn puOnDc : list Z) (Hv : 5 <= v) (Hn : v < n).
Context (Hpre : isop_pre n puOn puOnDc).
Context (Do : depends_below (S v) (tfun n puOn)) (Dd : depends_below (S v) (tfun n puOnDc)).
Let W := Kit_TruthWordNum v.

Lemma pre_half0 p : is_tt v p -> isop_pre v (Kit_TruthSharp p puOn (drop W puOnDc) v) puOnDc.
Proof using All.
  intros Hp. destruct Hpre as [Ho Hd _ _ Hle]. constructor.
  - apply is_tt_Sharp; [done|by apply (is_tt_half0 v n)].
  - by apply (is_tt_half0 v n).
  - by apply depends_tfun5.
  - by apply depends_tfun5.
  - intros m. rewrite tfun_Sharp by apply Hp. rewrite (tfun_half0 v n puOn), (tfun_half0 v n puOnDc) by done.
    intros [H _]%andb_true_iff. by apply Hle.
Qed.

Lemma pre_half1 p : is_tt v p -> isop_pre v (Kit_TruthSharp p (drop W puOn) puOnDc v) (drop W puOnDc).
Proof using All.
  intros Hp. destruct Hpre as [Ho Hd _ _ Hle]. constructor.
  - apply is_tt_Sharp; [done|by apply (is_tt_half1 v n)].
  - by apply (is_tt_half1 v n).
  - by apply depends_tfun5.
  - by apply depends_tfun5.
  - intros m. rewrite tfun_Sharp by apply Hp. unfold W. rewrite (tfun_half1 v n puOn), (tfun_half1 v n puOnDc) by done.
    intros [H _]%andb_true_iff. by apply Hle.
Qed.

Lemma pre_rest p0 p1 a b r0 r1 :
  is_tt v p0 -> is_tt v p1 -> is_tt v a -> is_tt v b ->
  (forall m, tfun v a m = cof v false (tfun n puOn) m && negb (r0 m)) ->
  (forall m, tfun v b m = cof v true (tfun n puOn) m && negb (r1 m)) ->
  (forall m, cof v false (tfun n puOn) m && negb (cof v true (tfun n puOnDc) m) = true -> r0 m = true) ->
  (forall m, cof v true (tfun n puOn) m && negb (cof v false (tfun n puOnDc) m) = true -> r1 m = true) ->
  isop_pre v (Kit_TruthOr p0 a b v) (Kit_TruthAnd p1 puOnDc (drop W puOnDc) v).
Proof using All.
  intros Hp0 Hp1 Ha Hb Ea Eb C0 C1. destruct Hpre as [Ho Hd _ _ Hle]. constructor.
  - by apply is_tt_Or.
  - apply is_tt_And; [done|by apply (is_tt_half0 v n)|by apply (is_tt_half1 v n)].
  - by apply depends_tfun5.
  - by apply depends_tfun5.
  - intros m. rewrite tfun_Or by apply Hp0. rewrite tfun_And by apply Hp1. unfold W.
    rewrite (tfun_half0 v n puOnDc), (tfun_half1 v n puOnDc) by done. rewrite Ea, Eb.
    specialize (C0 m); specialize (C1 m).
    intros [HH|HH]%orb_true_iff; apply andb_true_iff in HH as [HH Hz]; apply negb_true_iff in Hz; apply andb_true_iff.
    + split; [by apply Hle|]. apply not_false_iff_true. intros Hf. rewrite HH, Hf, Hz in C0. by specialize (C0 eq_refl).
    + split; [|by apply Hle]. apply not_false_iff_true. intros Hf. rewrite HH, Hf, Hz in C1. by specialize (C1 eq_refl).
Qed.
End halves.

(** The table of a step: the halves joined with the rest and copied over the table. *)
Lemma assembled_table v n b0 b1 r0 r1 r2 :
  5 <= v -> v < n -> is_tt v b0 -> is_tt v b1 -> is_tt v r0 -> is_tt v r1 -> is_tt v r2 ->
  length b0 = Kit_TruthWordNum v -> length b1 = Kit_TruthWordNum n - Kit_TruthWordNum v ->
  let nWords := 2 * Kit_TruthWordNum v in
  let p := for_range 1 (Kit_TruthWordNum n / nWords) (fun i =>
      for_up nWords (fun k p => p.[i * nWords + k <- p.[k]])) (Kit_TruthOr b0 r0 r2 v ++ Kit_TruthOr b1 r1 r2 v) in
  is_tt n p /\ length p = Kit_TruthWordNum n /\
  forall m, tfun n p m = (if Nat.testbit m v then tfun v r1 m else tfun v r0 m) || tfun v r2 m.
Proof.
  intros Hv Hn Hb0 Hb1 T0 T1 T2 Lb0 Lb1. cbv zeta. set (Wd := Kit_TruthWordNum v). set (All := Kit_TruthWordNum n) in *.
  assert (2 * Wd <= All) as HW by by apply WordNum_double. pose proof (WordNum_pos v).
  set (c0 := Kit_TruthOr b0 r0 r2 v). set (c1 := Kit_TruthOr b1 r1 r2 v).
  assert (length (c0 ++ c1) = All) as Lc by (rewrite length_app; unfold c0, c1; rewrite !length_Or; lia).
  assert (is_tt v c0 /\ is_tt v c1) as [Hc0 Hc1] by (split; by apply is_tt_Or).
  destruct (WordNum_lt v n Hv Hn) as (c & Ec & Hc). fold All Wd in Ec.
  assert (All / (2 * Wd) = c) as -> by (rewrite Ec; apply Nat.div_mul; unfold Wd; lia).
  destruct (copy_blocks (2 * Wd) c (c0 ++ c1)) as [Lr Rr]; [unfold Wd; lia|done|lia|].
  rewrite <- Ec in Rr. split; [|split; [by rewrite Lr|]].
  - split; [by rewrite Lr, Lc|]. apply words_rd. intros i.
    destruct (Nat.lt_ge_cases i All) as [Hi|Hi].
    + rewrite Rr by done. apply word_rd, Forall_app. split; [apply Hc0|apply Hc1].
    + rewrite rd_ge; [apply word_0|]. rewrite Lr. lia.
  - intros m. rewrite (tfun_copied v n (c0 ++ c1)) by done.
    rewrite tfun_halves by (done || by unfold c0; rewrite length_Or).
    unfold c0, c1. rewrite !tfun_Or by (apply Hb0 || apply Hb1). by destruct (Nat.testbit m v).
Qed.

(** The branch on a variable of the fifth on, once its region has been fetched. *)
Lemma isop_step_hi fuel n v puOn puOnDc V V0 pT :
  length pT = Kit_TruthWordNum n -> Forall is_word pT ->
  (forall puOn puOnDc V, isop_pre v puOn puOnDc -> isop_post v puOn puOnDc V (Kit_TruthIsop_rec fuel puOn puOnDc v V)) ->
  5 <= v < n -> n <= 16 -> isop_pre n puOn puOnDc ->
  depends_below (S v) (tfun n puOn) -> depends_below (S v) (tfun n puOnDc) ->
  Kit_TruthIsConst0 puOn n = false -> Kit_TruthIsConst1 puOnDc n = false ->
  Vec_IntFetch V (Z.of_nat (Kit_TruthWordNum n)) = (Some pT, V0) ->
  topmost (fun Var => Kit_TruthVarInSupport puOn n Var || Kit_TruthVarInSupport puOnDc n Var) n = Some v ->
  isop_post n puOn puOnDc V (Kit_TruthIsop_rec (S fuel) puOn puOnDc n V).
Proof.
  intros HlT HwT IH [Hv Hn] Hn16 Hpre Do Dd Hc0 Hc1 HF Ht. pose proof Hpre as [Ho Hd _ _ Hle].
  cbn [Kit_TruthIsop_rec]. rewrite HF, Hc0, Hc1, (proj2 (Nat.ltb_lt 0 n)), Ht by lia.
  rewrite (proj2 (Nat.ltb_ge v 5)) by done.
  pose proof (fetched_grown _ _ _ (Nat2Z.is_nonneg _) (Vec_IntFetch_fetched _ _ _ _ HF)) as Gf.
  pose proof (mem_step v n Hn) as HM. pose proof (pow3_pos (S v)).
  assert (0 <= mem v)%Z by (destruct (mem_bounds v) as [HB _]; pose proof (mem5_pos v); lia).
  set (Wd := Kit_TruthWordNum v). set (All := Kit_TruthWordNum n) in *.
  assert (2 * Wd <= All) as HW by by apply WordNum_double.
  set (p0 := take Wd pT). set (p1 := drop Wd pT).
  assert (is_tt v p0 /\ length p0 = Wd) as [Hp0 Lp0].
  { assert (length p0 = Wd) as L by (unfold p0; rewrite length_take; lia). split; [|done].
    split; [unfold Wd in L; lia|]. by apply Forall_take. }
  assert (is_tt v p1 /\ length p1 = All - Wd) as [Hp1 Lp1].
  { assert (length p1 = All - Wd) as L by (unfold p1; rewrite length_drop; lia). split; [|done].
    split; [unfold Wd, All in *; lia|]. by apply Forall_drop. }
  pose proof (pre_half0 v n puOn puOnDc Hv Hn Hpre Do Dd p0 Hp0) as P0.
  pose proof (pre_half1 v n puOn puOnDc Hv Hn Hpre Do Dd p1 Hp1) as P1. fold Wd in P0, P1.
  assert (forall m, tfun v puOn m = cof v false (tfun n puOn) m) as Fo0 by (intros; by apply tfun_half0).
  assert (forall m, tfun v (drop Wd puOn) m = cof v true (tfun n puOn) m) as Fo1 by (intros; by apply tfun_half1).
  assert (forall m, tfun v puOnDc m = cof v false (tfun n puOnDc) m) as Fd0 by (intros; by apply tfun_half0).
  assert (forall m, tfun v (drop Wd puOnDc) m = cof v true (tfun n puOnDc) m) as Fd1 by (intros; by apply tfun_half1).
  set (q0 := Kit_TruthSharp p0 puOn (drop Wd puOnDc) v) in *.
  set (q1 := Kit_TruthSharp p1 (drop Wd puOn) puOnDc v) in *.
  assert (forall m, tfun v q0 m = cof v false (tfun n puOn) m && negb (cof v true (tfun n puOnDc) m)) as Fq0
    by (intros; unfold q0; rewrite tfun_Sharp, Fo0, Fd1 by apply Hp0; done).
  assert (forall m, tfun v q1 m = cof v true (tfun n puOn) m && negb (cof v false (tfun n puOnDc) m)) as Fq1
    by (intros; unfold q1; rewrite tfun_Sharp, Fo1, Fd0 by apply Hp1; done).
  rec_call IH V0 P0 Gf r0 pc0 V1 W0 S0 R0 G0. destruct (W0 eq_refl) as [T0 L0].
  rec_call IH V1 P1 G0 r1 pc1 V2 W1 S1 R1 G1. destruct (W1 eq_refl) as [T1 L1].
  assert (is_tt v q0 /\ length q0 = Wd) as [Hq0 Lq0] by (split; [apply P0|unfold q0; by rewrite length_Sharp]).
  assert (is_tt v q1 /\ length q1 = All - Wd) as [Hq1 Lq1] by (split; [apply P1|unfold q1; by rewrite length_Sharp]).
  assert (is_tt v (drop Wd puOn)) as To1 by by apply (is_tt_half1 v n).
  set (a0 := Kit_TruthSharp q0 puOn r0 v). set (a1 := Kit_TruthSharp q1 (drop Wd puOn) r1 v).
  assert (is_tt v a0) as Ha0 by (apply is_tt_Sharp; [done|by apply (is_tt_half0 v n)]).
  assert (is_tt v a1) as Ha1 by by apply is_tt_Sharp.
  assert (length a0 = Wd) as La0 by (unfold a0; by rewrite length_Sharp).
  assert (length a1 = All - Wd) as La1 by (unfold a1; by rewrite length_Sharp).
  assert (forall m, tfun v a0 m = cof v false (tfun n puOn) m && negb (tfun v r0 m)) as Fa0
    by (intros; unfold a0; rewrite tfun_Sharp, Fo0 by apply Hq0; done).
  assert (forall m, tfun v a1 m = cof v true (tfun n puOn) m && negb (tfun v r1 m)) as Fa1
    by (intros; unfold a1; rewrite tfun_Sharp, Fo1 by apply Hq1; done).
  assert (isop_pre v (Kit_TruthOr a0 a0 a1 v) (Kit_TruthAnd a1 puOnDc (drop Wd puOnDc) v)) as P2.
  { apply (pre_rest v n puOn puOnDc Hv Hn Hpre Do Dd a0 a1 a0 a1 (tfun v r0) (tfun v r1)); try done.
    - intros m Hm. rewrite R0. apply (isop_lower _ _ _ _ (proj1 S0)). by rewrite Fq0.
    - intros m Hm. rewrite R1. apply (isop_lower _ _ _ _ (proj1 S1)). by rewrite Fq1. }
  rec_call IH V2 P2 G1 r2 pc2 V3 W2 S2 R2 G2. destruct (W2 eq_refl) as [T2 L2].
  set (b0 := Kit_TruthOr a0 a0 a1 v) in *. set (b1 := Kit_TruthAnd a1 puOnDc (drop Wd puOnDc) v) in *.
  assert (length b0 = Wd) as Lb0 by (unfold b0; by rewrite length_Or).
  assert (length b1 = All - Wd) as Lb1 by (unfold b1; by rewrite length_And).
  destruct P2 as [Hb0 Hb1 _ _ _].
  destruct (step_covers v (tfun n puOn) (tfun n puOnDc) pc0 pc1 pc2 _ _ _ _ _ _ (tfun v r0) (tfun v r1) S0 S1 S2)
    as (U0 & U1 & U2); [done..| | |done|done|].
  { intros m. unfold b0. rewrite tfun_Or by apply Ha0. by rewrite Fa0, Fa1. }
  { intros m. unfold b1. rewrite tfun_And by apply Ha1. by rewrite Fd0, Fd1. }
  destruct (create_cover_spec v (tfun n puOn) (tfun n puOnDc) pc0 pc1 pc2 V3 ltac:(lia) U0 U1 U2 (tfun_nonzero _ _ Ho Hc0))
    as (pc & V4 & -> & G3 & [[Ef C]|[So Em]]); cbn beta iota.
  { rewrite Ef. eexists _, _, _. split; [done|]. split; [congruence|].
    split; [eapply grown_mono; [exact (grown_trans _ _ _ _ _ G2 G3)|lia]|]. left. split; [done|].
    destruct G2 as (E & _ & ?). rewrite E in C. lia. }
  rewrite (sop_ok_not_failed _ _ _ _ So). eexists _, _, _. split; [done|].
  destruct (assembled_table v n b0 b1 r0 r1 r2) as (Tp & Lp & Fp); [done..|].
  split; [done|].
  split; [eapply grown_mono; [exact (grown_trans _ _ _ _ _ G2 G3)|lia]|]. right.
  split; [apply (sop_ok_mono (S v)); done || lia|].
  rewrite Em. apply (step_function v (tfun n puOn) (tfun n puOnDc) pc0 pc1 pc2 (tfun v r0) (tfun v r1) (tfun v r2)); done || lia.
Qed.

(** The branch on the variables inside a word. *)
Lemma isop_step_lo fuel n v puOn puOnDc V V0 pT :
  length pT = Kit_TruthWordNum n -> Forall is_word pT ->
  v < 5 -> v < n -> isop_pre n puOn puOnDc ->
  depends_below (S v) (tfun n puOn) -> depends_below (S v) (tfun n puOnDc) ->
  Kit_TruthIsConst0 puOn n = false -> Kit_TruthIsConst1 puOnDc n = false ->
  Vec_IntFetch V (Z.of_nat (Kit_TruthWordNum n)) = (Some pT, V0) ->
  topmost (fun Var => Kit_TruthVarInSupport puOn n Var || Kit_TruthVarInSupport puOnDc n Var) n = Some v ->
  isop_post n puOn puOnDc V (Kit_TruthIsop_rec (S fuel) puOn puOnDc n V).
Proof.
  intros HlT HwT Hv Hn Hpre Do Dd Hc0 Hc1 HF Ht. pose proof Hpre as [Ho Hd _ _ Hle].
  cbn [Kit_TruthIsop_rec]. rewrite HF, Hc0, Hc1, (proj2 (Nat.ltb_lt 0 n)), Ht by lia.
  rewrite (proj2 (Nat.ltb_lt v 5)) by done.
  pose proof (fetched_grown _ _ _ (Nat2Z.is_nonneg _) (Vec_IntFetch_fetched _ _ _ _ HF)) as Gf.
  assert (forall t m, depends_below (S v) (tfun n t) -> wfun t.[0] m = tfun n t m) as F0.
  { intros t m D. rewrite wfun_at0, <- (tfun_small n).
    - apply D. intros i Hi. rewrite (testbit_lo m) by lia. done.
    - pose proof (mod32 m). pose proof (WordNum_pos n). rewrite nmint_words. lia. }
  destruct (Isop5_rec_spec (S (v + 1)) (v + 1) puOn.[0] puOnDc.[0] V0) as (r & pc & V' & -> & Wr & O); [lia..| |].
  { constructor; auto with words; try apply word_rd; try apply Ho; try apply Hd.
    - rewrite Nat.add_1_r. eapply depends_ext; [intros m; symmetry; by apply F0|done].
    - rewrite Nat.add_1_r. eapply depends_ext; [intros m; symmetry; by apply F0|done].
    - intros m. rewrite !F0 by done. apply Hle. }
  cbn [mbind option_bind]. eexists _, _, _. split; [done|].
  assert (length (for_up (Kit_TruthWordNum n) (fun i p => wr p i r) pT) = Kit_TruthWordNum n) as Lr.
  { rewrite length_up; [exact HlT|]. intros. apply length_wr. }
  assert (forall i, i < Kit_TruthWordNum n ->
    (for_up (Kit_TruthWordNum n) (fun i p => wr p i r) pT).[i] = r) as Rr.
  { intros i Hi. rewrite (rd_up_const _ (fun _ => r)) by lia. by rewrite decide_True. }
  split.
  { intros _. split; [|done]. split; [by rewrite Lr|]. apply words_rd. intros i.
    destruct (Nat.lt_ge_cases i (Kit_TruthWordNum n)); [by rewrite Rr|rewrite rd_ge by lia; apply word_0]. }
  apply (outcome_ext _ _ _ _ _ _ _ _ _ _ (fun m => F0 puOn m Do) (fun m => F0 puOnDc m Dd)) in O.
  destruct O as [G O]. destruct (mem_bounds n) as [HM _]. pose proof (mem5_mono (v + 1) n ltac:(lia)).
  split; [eapply grown_mono; [exact (grown_trans _ _ _ _ _ Gf G)|lia]|].
  destruct O as [[Ef C]|[So Em]]; [left|right].
  - split; [done|]. destruct Gf as (E & _ & ?). rewrite E in C. lia.
  - split; [apply (sop_ok_mono (v + 1)); done || lia|]. intros m. by rewrite (tfun_const n _ r), Em.
Qed.

Lemma Isop_rec_spec fuel n puOn puOnDc V :
  n < fuel -> n <= 16 -> isop_pre n puOn puOnDc ->
  isop_post n puOn puOnDc V (Kit_TruthIsop_rec fuel puOn puOnDc n V).
Proof.
  revert n puOn puOnDc V. induction fuel as [|fuel IH]; intros n puOn puOnDc V Hf Hn Hpre; [lia|].
  pose proof Hpre as [Ho Hd Do Dd Hle]. destruct (mem_bounds n) as [HM _]. pose proof (mem5_pos n).
  pose proof (WordNum_pos n) as HW.
  destruct (Vec_IntFetch V (Z.of_nat (Kit_TruthWordNum n))) as [[pT|] V0] eqn:HF.
  2:{ cbn [Kit_TruthIsop_rec]. rewrite HF. eexists _, _, _. split; [done|]. split; [done|].
      pose proof (fetched_grown _ _ _ (Nat2Z.is_nonneg _) (Vec_IntFetch_fetched _ _ _ _ HF)) as Gf.
      apply Vec_IntFetch_None in HF; [|lia]. split; [eapply grown_mono; [done|lia]|]. left. split; [done|lia]. }
  destruct (Vec_IntFetch_region _ _ _ _ HF) as (HlT & HwT & _). rewrite Nat2Z.id in HlT.
  pose proof (fetched_grown _ _ _ (Nat2Z.is_nonneg _) (Vec_IntFetch_fetched _ _ _ _ HF)) as Gf.
  assert (is_tt n pT) as Tz by (split; [lia|done]).
  destruct (Kit_TruthIsConst0 puOn n) eqn:Hc0.
  { cbn [Kit_TruthIsop_rec]. rewrite HF, Hc0. eexists _, _, _. split; [done|]. split.
    - intros _. split; [by apply is_tt_Clear|]. by rewrite length_Clear.
    - split; [eapply grown_mono; [done|lia]|]. right. split.
      + apply sop_empty_ok. intros m. by apply tfun_const0.
      + intros m. apply tbit_Clear; [apply Tz|apply mod_nmint]. }
  destruct (Kit_TruthIsConst1 puOnDc n) eqn:Hc1.
  { cbn [Kit_TruthIsop_rec]. rewrite HF, Hc0, Hc1.
    destruct (tautology_cover_spec n (tfun n puOn) (tfun n puOnDc) V0) as (pc & V' & -> & G & [[Ef C]|[So Em]]);
      [intros m; by apply tfun_const1|by apply tfun_nonzero|..]; cbn beta iota.
    - rewrite Ef. eexists _, _, _. split; [done|]. split; [congruence|].
      split; [eapply grown_mono; [exact (grown_trans _ _ _ _ _ Gf G)|lia]|]. left. split; [done|].
      destruct Gf as (E & _ & ?). rewrite E in C. lia.
    - rewrite (sop_ok_not_failed _ _ _ _ So). eexists _, _, _. split; [done|]. split.
      + intros _. split; [by apply is_tt_Fill|]. by rewrite length_Fill.
      + split; [eapply grown_mono; [exact (grown_trans _ _ _ _ _ Gf G)|lia]|]. right. split; [done|].
        intros m. rewrite Em. unfold cover_eval. cbn [existsb]. rewrite cube_eval_0.
        apply tbit_Fill; [apply Tz|apply mod_nmint]. }
  pose proof (topmost_depends (tfun n puOn) (tfun n puOnDc)
    (fun Var => Kit_TruthVarInSupport puOn n Var || Kit_TruthVarInSupport puOnDc n Var) n Do Dd) as Ht.
  destruct (topmost _ n) as [v|] eqn:Et.
  - destruct Ht as (Hv & Do' & Dd').
    { intros w m Hw [H1 H2]%orb_false_iff. split; apply tfun_vacuous; done || apply Ho || apply Hd. }
    destruct (Nat.lt_ge_cases v 5).
    + by apply (isop_step_lo fuel n v _ _ _ V0 pT).
    + apply (isop_step_hi fuel n v _ _ _ V0 pT); try done. intros. apply IH; done || lia.
  - destruct Ht as (Do' & Dd').
    { intros w m Hw [H1 H2]%orb_false_iff. split; apply tfun_vacuous; done || apply Ho || apply Hd. }
    destruct (tfun_nonzero _ _ Ho Hc0) as [m0 H0]. destruct (tfun_nonone _ _ Hd Hc1) as [m1 H1].
    destruct (constant_case (tfun n puOn) (tfun n puOnDc) m0 m1); done.
Qed.

(** * The routines that a program calls *)

Lemma wnot_wnot x : is_word x -> (~~~ ~~~ x)%Z = x.
Proof.
  intros Hx. apply word_ext; auto with words. intros b Hb. rewrite !testbit_wnot by done. apply negb_involutive.
Qed.

Lemma Not_Not n t : is_tt n t -> Kit_TruthNot (Kit_TruthNot t t n) (Kit_TruthNot t t n) n = t.
Proof.
  intros [Hl Hw]. apply list_eq_rd; [by rewrite !length_Not|]. intros i _. unfold Kit_TruthNot at 1.
  assert (forall i, (Kit_TruthNot t t n).[i] = if decide (i < Kit_TruthWordNum n) then (~~~ t.[i])%Z else t.[i]) as E
    by (intros; unfold Kit_TruthNot; by rewrite (rd_down_const _ (fun w => ~~~ t.[w])%Z)).
  rewrite (rd_down_const _ (fun w => ~~~ (Kit_TruthNot t t n).[w])%Z) by by rewrite length_Not. rewrite E.
  case_decide; [|done]. apply wnot_wnot. by apply word_rd.
Qed.

Lemma tfun_Not n t m : is_tt n t -> tfun n (Kit_TruthNot t t n) m = negb (tfun n t m).
Proof. intros Ht. apply tbit_Not; [apply Ht|apply mod_nmint]. Qed.

Lemma sop_failed_iff n on dc pc : sop_ok n on dc pc -> (0 <=? nCubes pc)%Z = true.
Proof. intros (_ & [H _] & _). apply Z.leb_le. lia. Qed.

Lemma failed_neg pc : sop_failed pc = true -> (0 <=? nCubes pc)%Z = false.
Proof. unfold sop_failed. rewrite Z.eqb_eq. intros ->. done. Qed.

Lemma constant_cubes n on dc pc :
  sop_ok n on dc pc -> sop_constant pc = true -> repeat 0%Z (Z.to_nat (nCubes pc)) = pCubes pc.
Proof.
  intros (_ & [Hn _] & _) H. unfold sop_constant in H. rewrite Hn, Nat2Z.id in *.
  apply orb_true_iff in H as [H|H].
  - apply Z.eqb_eq in H. destruct (pCubes pc); [done|cbn in H; lia].
  - apply andb_true_iff in H as [H H0]. apply Z.eqb_eq in H, H0.
    destruct (pCubes pc) as [|c [|d cs]]; cbn in *; [lia|by subst|lia].
Qed.

(** One call by the routines below: no assertion of the recursion fails, and unless the
    memory is exhausted the cover is right and the table is its function. *)
Lemma isop_call n on dc V :
  n <= 16 -> isop_pre n on dc ->
  exists r pc V', Kit_TruthIsop_rec (S n) on dc n V = Some (r, pc, V') /\ grown V V' (mem n) /\
    (sop_failed pc = true /\ (nCap V < nSize V + mem n)%Z \/
     sop_ok n (tfun n on) (tfun n dc) pc /\ is_tt n r /\ length r = Kit_TruthWordNum n /\
     forall m, tfun n r m = cover_eval (pCubes pc) m).
Proof.
  intros Hn Hpre. destruct (Isop_rec_spec (S n) n on dc V) as (r & pc & V' & E & Hr & G & [H|[So Hf]]); [lia|done..| |];
    exists r, pc, V'; (split; [done|]); (split; [done|]); [by left|right].
  split; [done|]. destruct Hr as [? ?]; [by eapply sop_ok_not_failed|]. done.
Qed.

(** The memory that the routines start with. *)
Definition fresh (vMemory : Vec_Int_t) : Vec_Int_t := Vec_IntGrow (Vec_IntClear vMemory) KIT_ISOP_MEM_LIMIT.

Lemma fresh_room V : nSize (fresh V) = 0%Z /\ (KIT_ISOP_MEM_LIMIT <= nCap (fresh V))%Z.
Proof.
  unfold fresh, Vec_IntGrow. destruct (Z.leb_spec KIT_ISOP_MEM_LIMIT (nCap (Vec_IntClear V))); cbn in *; lia.
Qed.

Lemma isop_pre_self n t : is_tt n t -> depends_below n (tfun n t) -> isop_pre n t t.
Proof. intros. by constructor. Qed.

Lemma isop_pre_Not n t : is_tt n t -> depends_below n (tfun n t) -> isop_pre n (Kit_TruthNot t t n) (Kit_TruthNot t t n).
Proof.
  intros Ht Hd. apply isop_pre_self; [by apply is_tt_Not|].
  eapply depends_ext; [intros m; symmetry; by apply tfun_Not|]. by apply depends_neg.
Qed.

(** The answer 1 is given for a cover of the complement. *)
Definition in_phase (r : Z) (f : nat -> bool) (m : nat) : bool := xorb (r =? 1)%Z (f m).

Lemma isop_equal n f cs m : isop n f f cs -> f m = cover_eval cs m.
Proof.
  intros [H1 H2 _ _ _]. destruct (cover_eval cs m) eqn:E; [by apply H2|].
  apply not_true_iff_false. intros H. rewrite H1 in E; done.
Qed.

(** The irredundant prime cover of a constant function. *)
Lemma isop_of_constant n f b cs : n <= 16 -> isop n f f cs -> (forall m, f m = b) -> cs = [] \/ cs = [0%Z].
Proof.
  intros Hn [H1 _ H3 H4 H5] Hf. destruct cs as [|c cs]; [by left|right].
  pose proof H4 as H4'. inversion_clear H4 as [|? ? (m & Hm & _ & Ht) _].
  assert (forall d, In d (c :: cs) -> d = 0%Z) as Hz.
  { intros d Hd. rewrite List.Forall_forall in H3, H5. destruct (H3 d Hd) as [Hw Hin].
    apply word_ext; [done|apply word_0|]. intros i Hi. rewrite Z.testbit_0_l. apply not_true_iff_false. intros Hb.
    destruct (H5 d Hd (i / 2)) as (m' & _ & Hm'); [|congruence].
    pose proof (Nat.div_mod_eq i 2). pose proof (Nat.mod_upper_bound i 2 ltac:(lia)). apply orb_true_iff.
    destruct (i mod 2) as [|[|]] eqn:E; [left|right|lia].
    - by replace (2 * (i / 2)) with i by lia.
    - by replace (2 * (i / 2) + 1) with i by lia. }
  rewrite (Hz c) in * by by left. destruct cs as [|d cs]; [done|]. exfalso.
  rewrite (Hz d) in Ht by by right; left. unfold times_covered in Ht. cbn [List.filter] in Ht.
  rewrite !cube_eval_0 in Ht. done.
Qed.

Lemma sop_not_constant n on dc pc : sop_ok n on dc pc -> sop_constant pc = false -> pCubes pc <> [] /\ pCubes pc <> [0%Z].
Proof.
  intros (_ & [Hn _] & _) H. unfold sop_constant in H. rewrite Hn in H. split; intros E; rewrite E in H; done.
Qed.

(** When the direct cover is not constant, neither is the function, nor the cover of the complement. *)
Lemma complement_not_constant n f g pc cs : n <= 16 -> sop_ok n f f pc -> sop_constant pc = false ->
  isop n g g cs -> (forall m, g m = negb (f m)) -> cs <> [] /\ cs <> [0%Z].
Proof.
  intros Hn So Hc Hi Hg. destruct (sop_not_constant _ _ _ _ So Hc) as [N1 N2].
  assert (forall b, ~ forall m, g m = b) as Hno.
  { intros b Hb. destruct (isop_of_constant n f (negb b) (pCubes pc) Hn (proj1 So)) as [E|E]; [|done..].
    intros m. rewrite <- (Hb m), Hg. by rewrite negb_involutive. }
  split; intros ->; [apply (Hno false)|apply (Hno true)]; intros m; rewrite (isop_equal _ _ _ m Hi); [done|].
  unfold cover_eval. cbn [existsb]. by rewrite cube_eval_0.
Qed.

Lemma Isop_spec n t V fTryBoth :
  n <= 16 -> is_tt n t -> depends_below n (tfun n t) ->
  exists r V', Kit_TruthIsop t n V fTryBoth = Some (r, V', t) /\
    (r = (-1)%Z /\ nSize V' = (-1)%Z /\ (nCap (fresh V) < mem n)%Z \/
     (r = 0%Z \/ r = 1%Z /\ fTryBoth = true) /\ nSize V' = Z.of_nat (length (pArray V')) /\
     isop n (in_phase r (tfun n t)) (in_phase r (tfun n t)) (pArray V') /\
     (r = 1%Z -> pArray V' <> [] /\ pArray V' <> [0%Z])).
Proof.
  intros Hn Ht Hd. unfold Kit_TruthIsop. rewrite (proj2 (Nat.leb_le n 16)) by done. fold (fresh V).
  destruct (fresh_room V) as [R1 R2].
  destruct (isop_call n t t (fresh V) Hn (isop_pre_self n t Ht Hd)) as (p & pc & V1 & -> & G1 & H1).
  cbn [mbind option_bind]. destruct H1 as [[Ef C]|(So & Hp & _ & Hf)].
  { rewrite Ef. eexists _, _. split; [done|]. left. cbn. repeat split. lia. }
  rewrite (sop_ok_not_failed _ _ _ _ So).
  rewrite (proj2 (IsEqual_spec n t p Ht Hp)).
  2:{ intros m Hm. rewrite <- !(tfun_small n) by done. rewrite Hf. exact (isop_equal _ _ _ m (proj1 So)). }
  assert (isop n (in_phase 0 (tfun n t)) (in_phase 0 (tfun n t)) (pCubes pc)) as I0.
  { apply (isop_ext n (tfun n t) _ (tfun n t)); try apply So; intros m; unfold in_phase; by destruct (tfun n t m). }
  destruct (sop_constant pc) eqn:Ec.
  { eexists _, _. split; [done|]. right. split; [by left|]. unfold Vec_IntConstant. cbn [nSize pArray Vec_IntMoveTo].
    split; [done|]. by rewrite (constant_cubes _ _ _ _ So Ec). }
  destruct fTryBoth; [|eexists _, _; split; [done|]; right; split; [by left|by split]].
  assert (is_tt n (Kit_TruthNot t t n)) as Htn by by apply is_tt_Not.
  destruct (isop_call n _ _ V1 Hn (isop_pre_Not n t Ht Hd)) as (p2 & pc2 & V2 & -> & G2 & H2).
  cbn [mbind option_bind]. rewrite Not_Not by done.
  destruct H2 as [[Ef C]|(So2 & Hp2 & _ & Hf2)].
  { rewrite (failed_neg _ Ef). eexists _, _. split; [done|]. right. split; [by left|by split]. }
  rewrite (sop_failed_iff _ _ _ _ So2).
  rewrite (proj2 (IsEqual_spec n _ p2 Htn Hp2)).
  2:{ intros m Hm. rewrite <- !(tfun_small n) by done. rewrite Hf2. exact (isop_equal _ _ _ m (proj1 So2)). }
  destruct (sop_cheaper pc pc2); eexists _, _; (split; [done|]); right.
  - split; [by right|]. split; [done|]. split; [|intros _; eapply complement_not_constant; [exact Hn|exact So|done|apply So2|intros m; by apply tfun_Not]].
    apply (isop_ext n (tfun n (Kit_TruthNot t t n)) _ (tfun n (Kit_TruthNot t t n))); try apply So2;
      intros m; rewrite tfun_Not by done; unfold in_phase; by destruct (tfun n t m).
  - split; [by left|by split].
Qed.

Lemma mem_limit n V : n <= 10 -> (mem n <= nCap (fresh V))%Z.
Proof.
  intros Hn. destruct (mem_bounds 10) as [_ H]. specialize (H n Hn). destruct (fresh_room V) as [_ H2].
  assert (mem 10 <= KIT_ISOP_MEM_LIMIT)%Z by (by vm_compute). lia.
Qed.

(** C22. [Kit_TruthIsop] returns, whatever the memory it is given holds, and leaves the table as it was.
    Up to 10 variables it does not run out of memory; when it answers 0 (or 1, only if both
    polarities are tried), the memory holds an irredundant cover of prime cubes whose function is
    exactly the function of the table (or its complement). *)
Theorem truth_isop_correct nVars (puTruth : list Z) (vMemory : Vec_Int_t) (fTryBoth : bool) :
  nVars <= 16 -> is_tt nVars puTruth -> depends_below nVars (tfun nVars puTruth) ->
  exists r V', Kit_TruthIsop puTruth nVars vMemory fTryBoth = Some (r, V', puTruth) /\
    (r = (-1)%Z /\ nSize V' = (-1)%Z /\ 10 < nVars \/
     (r = 0%Z \/ r = 1%Z /\ fTryBoth = true) /\ nSize V' = Z.of_nat (length (pArray V')) /\
     (forall m, m < nmint nVars -> cover_eval (pArray V') m = xorb (r =? 1)%Z (tbit puTruth m)) /\
     isop nVars (in_phase r (tfun nVars puTruth)) (in_phase r (tfun nVars puTruth)) (pArray V')).
Proof.
  intros Hn Ht Hd. destruct (Isop_spec nVars puTruth vMemory fTryBoth Hn Ht Hd) as (r & V' & E & H).
  exists r, V'. split; [done|]. destruct H as [(-> & Hs & Hc)|(Hr & Hs & Hi & _)]; [left|right].
  - split; [done|]. split; [done|]. apply Nat.nle_gt. intros Hle.
    pose proof (mem_limit nVars vMemory Hle). lia.
  - split; [done|]. split; [done|]. split; [|done]. intros m Hm.
    rewrite <- (isop_equal _ _ _ m Hi). unfold in_phase. by rewrite tfun_small.
Qed.

Lemma truth_isop_correct_witness :
  Kit_TruthIsop [0x96969696]%Z 3 {| nCap := 0; nSize := 0; pArray := [] |} false =
    Some (0%Z, {| nCap := 1048576; nSize := 4; pArray := [0x16; 0x19; 0x25; 0x2a] |}%Z, [0x96969696]%Z) /\
  exists r V', Kit_TruthIsop [0x96969696]%Z 3 {| nCap := 0; nSize := 0; pArray := [] |} false = Some (r, V', [0x96969696]%Z) /\
    (r = (-1)%Z /\ nSize V' = (-1)%Z /\ 10 < 3 \/
     (r = 0%Z \/ r = 1%Z /\ false = true) /\ nSize V' = Z.of_nat (length (pArray V')) /\
     (forall m, m < nmint 3 -> cover_eval (pArray V') m = xorb (r =? 1)%Z (tbit [0x96969696]%Z m)) /\
     isop 3 (in_phase r (tfun 3 [0x96969696]%Z)) (in_phase r (tfun 3 [0x96969696]%Z)) (pArray V')).
Proof.
  split; [vm_compute; reflexivity|].
  apply (truth_isop_correct 3 [0x96969696]%Z {| nCap := 0; nSize := 0; pArray := [] |} false).
  - lia.
  - concrete_tt.
  - apply (depends_fewer 3 5); [lia|apply (tfun_depends 3)|].
    intros v m Hv. apply (tfun_vacuous 5 [0x96969696]%Z); [lia|repeat constructor; vm_compute; congruence|].
    assert (v = 3 \/ v = 4) as [-> | ->] by lia; reflexivity.
Defined.

(** ** Incompletely specified functions *)

Lemma isop_pre_bounds n a b :
  is_tt n a -> is_tt n b -> depends_below n (tfun n a) -> depends_below n (tfun n b) ->
  (forall m, tfun n b m = true -> tfun n a m = false) -> isop_pre n b (Kit_TruthNot a a n).
Proof.
  intros Ha Hb Da Db H. constructor; [done|by apply is_tt_Not|done| |].
  - eapply depends_ext; [intros m; symmetry; by apply tfun_Not|]. by apply depends_neg.
  - intros m Hm. by rewrite tfun_Not, H.
Qed.

Lemma isop_between n a b (pc : Kit_Sop_t) p :
  is_tt n a -> is_tt n b -> is_tt n p -> sop_ok n (tfun n b) (tfun n (Kit_TruthNot a a n)) pc ->
  (forall m, tfun n p m = cover_eval (pCubes pc) m) ->
  Kit_TruthIsImply b p n = true /\ Kit_TruthIsImply p (Kit_TruthNot a a n) n = true.
Proof.
  intros Ha Hb Hp (I & _) Hf. pose proof (is_tt_Not n a Ha a) as Hna.
  split; apply IsImply_spec; try done; intros m Hm; rewrite <- !(tfun_small n) by done.
  - rewrite Hf. apply (isop_lower _ _ _ _ I).
  - rewrite Hf. apply (isop_upper _ _ _ _ I).
Qed.

Definition is_isop2 (n : nat) (r : Z) (t0 t1 : list Z) (cs : list Z) : Prop :=
  let '(on, off) := if (r =? 1)%Z then (tfun n t0, tfun n t1) else (tfun n t1, tfun n t0) in
  isop n on (fun m => negb (off m)) cs.

Lemma Isop2_spec n t0 t1 V fTryBoth fReturnTt :
  n <= 16 -> is_tt n t0 -> is_tt n t1 -> depends_below n (tfun n t0) -> depends_below n (tfun n t1) ->
  (forall m, tfun n t1 m = true -> tfun n t0 m = false) -> fReturnTt && fTryBoth = false ->
  exists r V', Kit_TruthIsop2 t0 t1 n V fTryBoth fReturnTt = Some (r, V', t0, t1) /\
    (r = (-1)%Z /\ nSize V' = (-1)%Z /\ (nCap (fresh V) < mem n)%Z \/
     (r = 0%Z \/ r = 1%Z /\ fTryBoth = true) /\ nSize V' = Z.of_nat (length (pArray V')) /\
     exists cs, is_isop2 n r t0 t1 cs /\
       (pArray V' = cs \/ fReturnTt = true /\ is_tt n (pArray V') /\
         forall m, m < nmint n -> tbit (pArray V') m = cover_eval cs m)).
Proof.
  intros Hn H0 H1 D0 D1 Hdis Hfl. unfold Kit_TruthIsop2. rewrite (proj2 (Nat.leb_le n 16)) by done. fold (fresh V).
  destruct (fresh_room V) as [R1 R2].
  destruct (isop_call n t1 (Kit_TruthNot t0 t0 n) (fresh V) Hn) as (p & pc & V1 & -> & G1 & HH1);
    [by apply isop_pre_bounds|].
  cbn [mbind option_bind]. rewrite !Not_Not by done. destruct HH1 as [[Ef C]|(So & Hp & Lp & Hf)].
  { rewrite Ef. eexists _, _. split; [done|]. left. cbn. repeat split. lia. }
  rewrite (sop_ok_not_failed _ _ _ _ So).
  destruct (isop_between n t0 t1 pc p) as [-> ->]; [done..|].
  assert (is_isop2 n 0 t0 t1 (pCubes pc)) as I0.
  { unfold is_isop2. cbn [Z.eqb]. apply (isop_ext n (tfun n t1) _ (tfun n (Kit_TruthNot t0 t0 n))); [done| |apply So].
    intros m. by apply tfun_Not. }
  destruct (sop_constant pc) eqn:Ec.
  { eexists _, _. split; [done|]. right. split; [by left|]. unfold Vec_IntConstant. cbn [nSize pArray Vec_IntMoveTo].
    split; [done|]. rewrite (constant_cubes _ _ _ _ So Ec). eauto. }
  destruct fTryBoth; cbn [mbind option_bind].
  2:{ destruct fReturnTt; [|eexists _, _; split; [done|]; right; split; [by left|split; [done|eauto]]].
      assert (p <> []) as Hne by (intros ->; pose proof (WordNum_pos n); cbn in Lp; lia).
      destruct p as [|x p]; [done|]. rewrite <- Lp, take_ge by lia.
      eexists _, _. split; [done|]. right. split; [by left|]. split; [done|]. exists (pCubes pc). split; [done|].
      right. split; [done|]. split; [done|]. intros m Hm. rewrite <- (tfun_small n) by done. apply Hf. }
  destruct fReturnTt; [done|].
  destruct (isop_call n t0 (Kit_TruthNot t1 t1 n) V1 Hn) as (p2 & pc2 & V2 & -> & G2 & H2).
  { apply isop_pre_bounds; try done. intros m Hm. apply not_true_iff_false. intros Ht. rewrite Hdis in Hm; done. }
  cbn [mbind option_bind]. pose proof (is_tt_Not n t1 H1 t1).
  rewrite !Not_Not by done. destruct H2 as [[Ef C]|(So2 & Hp2 & _ & Hf2)].
  { rewrite (failed_neg _ Ef). cbn [mbind option_bind].
    eexists _, _. split; [done|]. right. split; [by left|split; [done|eauto]]. }
  rewrite (sop_failed_iff _ _ _ _ So2).
  destruct (isop_between n t1 t0 pc2 p2) as [-> ->]; [done..|].
  destruct (sop_cheaper pc pc2); cbn [mbind option_bind]; eexists _, _; (split; [done|]); right.
  - split; [by right|]. split; [done|]. exists (pCubes pc2). split; [|by left].
    unfold is_isop2. cbn [Z.eqb Pos.eqb]. apply (isop_ext n (tfun n t0) _ (tfun n (Kit_TruthNot t1 t1 n))); [done| |apply So2].
    intros m. by apply tfun_Not.
  - split; [by left|]. split; [done|]. exists (pCubes pc). split; [done|by left].
Qed.

(** [Kit_TruthIsop2] for an off-set and a disjoint on-set: it returns and restores both tables, does not
    run out of memory up to 10 variables, and leaves an irredundant cover of prime cubes between the on-set
    and the complement of the off-set (with the sets exchanged when it answers 1), or, when the table is asked
    for and one polarity tried, either a constant cover or the table of such a cover. *)
Theorem truth_isop2_correct nVars (puTruth0 puTruth1 : list Z) (vMemory : Vec_Int_t) (fTryBoth fReturnTt : bool) :
  nVars <= 16 -> is_tt nVars puTruth0 -> is_tt nVars puTruth1 ->
  depends_below nVars (tfun nVars puTruth0) -> depends_below nVars (tfun nVars puTruth1) ->
  (forall m, m < nmint nVars -> tbit puTruth1 m = true -> tbit puTruth0 m = false) ->
  fReturnTt && fTryBoth = false ->
  exists r V', Kit_TruthIsop2 puTruth0 puTruth1 nVars vMemory fTryBoth fReturnTt = Some (r, V', puTruth0, puTruth1) /\
    (r = (-1)%Z /\ nSize V' = (-1)%Z /\ 10 < nVars \/
     (r = 0%Z \/ r = 1%Z /\ fTryBoth = true) /\ nSize V' = Z.of_nat (length (pArray V')) /\
     exists cs, is_isop2 nVars r puTruth0 puTruth1 cs /\
       (pArray V' = cs \/ fReturnTt = true /\ is_tt nVars (pArray V') /\
         forall m, m < nmint nVars -> tbit (pArray V') m = cover_eval cs m)).
Proof.
  intros Hn H0 H1 D0 D1 Hdis Hfl.
  destruct (Isop2_spec nVars puTruth0 puTruth1 vMemory fTryBoth fReturnTt) as (r & V' & E & H); try done.
  { intros m. apply Hdis, mod_nmint. }
  exists r, V'. split; [done|]. destruct H as [(-> & Hs & Hc)|H]; [left|by right].
  split; [done|]. split; [done|]. apply Nat.nle_gt. intros Hle. pose proof (mem_limit nVars vMemory Hle). lia.
Qed.

Lemma truth_isop2_correct_witness :
  Kit_TruthIsop2 [0x0000FFFE]%Z [0xFF000001]%Z 5 {| nCap := 0; nSize := 0; pArray := [] |} false false =
    Some (0%Z, {| nCap := 1048576; nSize := 2; pArray := [0x200; 0x55] |}%Z, [0x0000FFFE]%Z, [0xFF000001]%Z) /\
  exists r V', Kit_TruthIsop2 [0x0000FFFE]%Z [0xFF000001]%Z 5 {| nCap := 0; nSize := 0; pArray := [] |} false false
      = Some (r, V', [0x0000FFFE]%Z, [0xFF000001]%Z) /\
    (r = (-1)%Z /\ nSize V' = (-1)%Z /\ 10 < 5 \/
     (r = 0%Z \/ r = 1%Z /\ false = true) /\ nSize V' = Z.of_nat (length (pArray V')) /\
     exists cs, is_isop2 5 r [0x0000FFFE]%Z [0xFF000001]%Z cs /\
       (pArray V' = cs \/ false = true /\ is_tt 5 (pArray V') /\
         forall m, m < nmint 5 -> tbit (pArray V') m = cover_eval cs m)).
Proof.
  split; [vm_compute; reflexivity|].
  apply (truth_isop2_correct 5 [0x0000FFFE]%Z [0xFF000001]%Z {| nCap := 0; nSize := 0; pArray := [] |} false false).
  - lia.
  - concrete_tt.
  - concrete_tt.
  - apply depends_tfun5. lia.
  - apply depends_tfun5. lia.
  - intros m Hm. change (nmint 5) with 32 in Hm. enum_nat m 32; reflexivity || (intros; discriminate).
  - reflexivity.
Defined.

(** When the table is asked for and both polarities are tried, the table returned is that of the
    complemented polarity even if the answer is 0. *)
Lemma isop2_table_of_other_polarity :
  exists V', Kit_TruthIsop2 [0x7FFFFFFF]%Z [0x80000000]%Z 5 {| nCap := 0; nSize := 0; pArray := [] |} true true
    = Some (0%Z, V', [0x7FFFFFFF]%Z, [0x80000000]%Z) /\ pArray V' = [0x7FFFFFFF]%Z.
Proof. eexists. split; vm_compute; reflexivity. Qed.
