(* ===== verification/Graph.v ===== *)
(** [kitGraph.c] and the graph routines of [kit.h]: and-graphs with complemented edges.

    A graph keeps its leaves (the variables) in the first [nLeaves] nodes and one and-gate
    in each later node; an edge names a node and says whether it is complemented.  The
    array of nodes is the list of the [nSize] nodes in use; its allocated size [nCap] is
    kept as a number.  The fields of a node that serve other packages (the latch counts,
    [Level]) are not modelled. *)
From S2P Require Import Prelude Words Isop.

(** * Data *)

Record Kit_Edge_t := { fCompl : bool; Node : Z }.

Record Kit_Node_t := {
  eEdge0 : Kit_Edge_t; eEdge1 : Kit_Edge_t;
  pFunc : Z;
  fNodeOr : bool; fCompl0 : bool; fCompl1 : bool;
}.

Record Kit_Graph_t := {
  fConst : bool;
  nLeaves : nat; nSize : nat; nCap : nat;
  pNodes : list Kit_Node_t;
  eRoot : Kit_Edge_t;
}.

(** The node filled with zeros. *)
Definition zero_edge : Kit_Edge_t := {| fCompl := false; Node := 0 |}.
Definition zero_node : Kit_Node_t :=
  {| eEdge0 := zero_edge; eEdge1 := zero_edge; pFunc := 0; fNodeOr := false; fCompl0 := false; fCompl1 := false |}.

(** The node number has 30 bits, the complement bit is one bit. *)
Definition Kit_EdgeCreate (Node fCompl : Z) : Kit_Edge_t :=
  {| fCompl := Z.odd fCompl; Node := Node &&& 0x3FFFFFFF |}.
Definition Kit_EdgeToInt (eEdge : Kit_Edge_t) : Z := ((Node eEdge <<< 1) ||| Z.b2z (fCompl eEdge))%Z.
Definition Kit_IntToEdge (Edge : Z) : Kit_Edge_t := Kit_EdgeCreate (Edge >>> 1) (Edge &&& 1).
(** The bit fields of the union: the complement bit first. *)
Definition Kit_EdgeToInt_ (m : Kit_Edge_t) : Z := (Z.b2z (fCompl m) ||| (Node m <<< 1))%Z.
Definition Kit_IntToEdge_ (m : Z) : Kit_Edge_t := {| fCompl := Z.testbit m 0; Node := (m >>> 1) &&& 0x3FFFFFFF |}.

Definition edge_not (e : Kit_Edge_t) : Kit_Edge_t := {| fCompl := negb (fCompl e); Node := Node e |}.

Definition Kit_GraphIsConst (pGraph : Kit_Graph_t) : bool := fConst pGraph.
Definition Kit_GraphIsConst0 (pGraph : Kit_Graph_t) : bool := fConst pGraph && fCompl (eRoot pGraph).
Definition Kit_GraphIsConst1 (pGraph : Kit_Graph_t) : bool := fConst pGraph && negb (fCompl (eRoot pGraph)).
Definition Kit_GraphIsComplement (pGraph : Kit_Graph_t) : bool := fCompl (eRoot pGraph).
Definition Kit_GraphIsVar (pGraph : Kit_Graph_t) : bool := (Node (eRoot pGraph) <? Z.of_nat (nLeaves pGraph))%Z.

Definition Kit_GraphSetRoot (pGraph : Kit_Graph_t) (eRoot : Kit_Edge_t) : Kit_Graph_t :=
  {| fConst := fConst pGraph; nLeaves := nLeaves pGraph; nSize := nSize pGraph; nCap := nCap pGraph;
     pNodes := pNodes pGraph; eRoot := eRoot |}.
Definition Kit_GraphComplement (pGraph : Kit_Graph_t) : Kit_Graph_t :=
  Kit_GraphSetRoot pGraph (edge_not (eRoot pGraph)).

Definition Kit_GraphLeaveNum (pGraph : Kit_Graph_t) : nat := nLeaves pGraph.
Definition Kit_GraphNodeNum (pGraph : Kit_Graph_t) : nat := nSize pGraph - nLeaves pGraph.
Definition Kit_GraphNode (pGraph : Kit_Graph_t) (i : nat) : Kit_Node_t := nth i (pNodes pGraph) zero_node.
Definition Kit_GraphNodeLast (pGraph : Kit_Graph_t) : Kit_Node_t := Kit_GraphNode pGraph (nSize pGraph - 1).

(** Pointers to nodes are the numbers of the nodes; the node of an edge. *)
Definition edge_node (e : Kit_Edge_t) : nat := Z.to_nat (Node e).
Definition Kit_GraphNodeIsVar (pGraph : Kit_Graph_t) (pNode : nat) : bool := pNode <? nLeaves pGraph.
Definition Kit_GraphVarInt (pGraph : Kit_Graph_t) : option nat :=
  assert! Kit_GraphIsVar pGraph in Some (edge_node (eRoot pGraph)).
Definition Kit_GraphNodeFanin0 (pGraph : Kit_Graph_t) (pNode : nat) : option nat :=
  if Kit_GraphNodeIsVar pGraph pNode then None else Some (edge_node (eEdge0 (Kit_GraphNode pGraph pNode))).
Definition Kit_GraphNodeFanin1 (pGraph : Kit_Graph_t) (pNode : nat) : option nat :=
  if Kit_GraphNodeIsVar pGraph pNode then None else Some (edge_node (eEdge1 (Kit_GraphNode pGraph pNode))).

(** * The routines *)

Definition Kit_GraphCreate (nLeaves : nat) : Kit_Graph_t :=
  {| fConst := false; nLeaves := nLeaves; nSize := nLeaves; nCap := 2 * nLeaves + 50;
     pNodes := repeat zero_node nLeaves; eRoot := zero_edge |}.
Definition Kit_GraphCreateConst0 : Kit_Graph_t :=
  {| fConst := true; nLeaves := 0; nSize := 0; nCap := 0; pNodes := []; eRoot := {| fCompl := true; Node := 0 |} |}.
Definition Kit_GraphCreateConst1 : Kit_Graph_t :=
  {| fConst := true; nLeaves := 0; nSize := 0; nCap := 0; pNodes := []; eRoot := zero_edge |}.
Definition Kit_GraphCreateLeaf (iLeaf nLeaves : nat) (fCompl : Z) : option Kit_Graph_t :=
  assert! iLeaf <? nLeaves in
  Some (Kit_GraphSetRoot (Kit_GraphCreate nLeaves) (Kit_EdgeCreate (Z.of_nat iLeaf) fCompl)).

(** The new node is the last one. *)
Definition Kit_GraphAppendNode (pGraph : Kit_Graph_t) : Kit_Graph_t :=
  let nCap := if nSize pGraph =? nCap pGraph then 2 * nCap pGraph else nCap pGraph in
  {| fConst := fConst pGraph; nLeaves := nLeaves pGraph; nSize := S (nSize pGraph); nCap := nCap;
     pNodes := pNodes pGraph ++ [zero_node]; eRoot := eRoot pGraph |}.

(** [*pNode = nd], for the node number [i]. *)
Definition write_node (pGraph : Kit_Graph_t) (i : nat) (nd : Kit_Node_t) : Kit_Graph_t :=
  {| fConst := fConst pGraph; nLeaves := nLeaves pGraph; nSize := nSize pGraph; nCap := nCap pGraph;
     pNodes := <[i := nd]> (pNodes pGraph); eRoot := eRoot pGraph |}.

Definition Kit_GraphAddNodeAnd (pGraph : Kit_Graph_t) (e0 e1 : Kit_Edge_t) : Kit_Edge_t * Kit_Graph_t :=
  let pGraph := Kit_GraphAppendNode pGraph in
  let pGraph := write_node pGraph (nSize pGraph - 1)
    {| eEdge0 := e0; eEdge1 := e1; pFunc := 0; fNodeOr := false; fCompl0 := fCompl e0; fCompl1 := fCompl e1 |} in
  (Kit_EdgeCreate (Z.of_nat (nSize pGraph) - 1) 0, pGraph).

Definition Kit_GraphAddNodeOr (pGraph : Kit_Graph_t) (e0 e1 : Kit_Edge_t) : Kit_Edge_t * Kit_Graph_t :=
  let pGraph := Kit_GraphAppendNode pGraph in
  let pGraph := write_node pGraph (nSize pGraph - 1)
    {| eEdge0 := edge_not e0; eEdge1 := edge_not e1; pFunc := 0; fNodeOr := true;
       fCompl0 := fCompl e0; fCompl1 := fCompl e1 |} in
  (Kit_EdgeCreate (Z.of_nat (nSize pGraph) - 1) 1, pGraph).

Definition Kit_GraphAddNodeXor (pGraph : Kit_Graph_t) (e0 e1 : Kit_Edge_t) (Type_ : Z) : Kit_Edge_t * Kit_Graph_t :=
  if (Type_ =? 0)%Z then
    let e0 := edge_not e0 in
    let '(eNode0, pGraph) := Kit_GraphAddNodeAnd pGraph e0 e1 in
    let e0 := edge_not e0 in
    let e1 := edge_not e1 in
    let '(eNode1, pGraph) := Kit_GraphAddNodeAnd pGraph e0 e1 in
    Kit_GraphAddNodeOr pGraph eNode0 eNode1
  else
    let '(eNode0, pGraph) := Kit_GraphAddNodeAnd pGraph e0 e1 in
    let e0 := edge_not e0 in
    let e1 := edge_not e1 in
    let '(eNode1, pGraph) := Kit_GraphAddNodeAnd pGraph e0 e1 in
    let '(eNode, pGraph) := Kit_GraphAddNodeOr pGraph eNode0 eNode1 in
    (edge_not eNode, pGraph).

Definition Kit_GraphAddNodeMux (pGraph : Kit_Graph_t) (eC eT eE : Kit_Edge_t) (Type_ : Z) : Kit_Edge_t * Kit_Graph_t :=
  if (Type_ =? 0)%Z then
    let '(eNode0, pGraph) := Kit_GraphAddNodeAnd pGraph eC eT in
    let eC := edge_not eC in
    let '(eNode1, pGraph) := Kit_GraphAddNodeAnd pGraph eC eE in
    Kit_GraphAddNodeOr pGraph eNode0 eNode1
  else
    let eT := edge_not eT in
    let eE := edge_not eE in
    let '(eNode0, pGraph) := Kit_GraphAddNodeAnd pGraph eC eT in
    let eC := edge_not eC in
    let '(eNode1, pGraph) := Kit_GraphAddNodeAnd pGraph eC eE in
    let '(eNode, pGraph) := Kit_GraphAddNodeOr pGraph eNode0 eNode1 in
    (edge_not eNode, pGraph).

(** [pNode->pFunc = x] *)
Definition set_func (pGraph : Kit_Graph_t) (i : nat) (x : Z) : Kit_Graph_t :=
  let nd := Kit_GraphNode pGraph i in
  write_node pGraph i {| eEdge0 := eEdge0 nd; eEdge1 := eEdge1 nd; pFunc := x;
    fNodeOr := fNodeOr nd; fCompl0 := fCompl0 nd; fCompl1 := fCompl1 nd |}.

(** One iteration of the loop over the internal nodes: the graph and [uTruth]. *)
Definition node_truth (i : nat) (s : Kit_Graph_t * Z) : Kit_Graph_t * Z :=
  let '(pGraph, _) := s in
  let pNode := Kit_GraphNode pGraph i in
  let uTruth0 := pFunc (Kit_GraphNode pGraph (edge_node (eEdge0 pNode))) in
  let uTruth1 := pFunc (Kit_GraphNode pGraph (edge_node (eEdge1 pNode))) in
  let uTruth0 := if fCompl (eEdge0 pNode) then (~~~ uTruth0)%Z else uTruth0 in
  let uTruth1 := if fCompl (eEdge1 pNode) then (~~~ uTruth1)%Z else uTruth1 in
  let uTruth := uTruth0 &&& uTruth1 in
  (set_func pGraph i uTruth, uTruth).

(** Returns the truth table and the graph, whose nodes hold theirs. *)
Definition Kit_GraphToTruth (pGraph : Kit_Graph_t) : option (Z * Kit_Graph_t) :=
  assert! Kit_GraphLeaveNum pGraph <=? nSize pGraph in
  assert! Kit_GraphLeaveNum pGraph <=? 5 in
  if Kit_GraphIsConst pGraph then
    Some (if Kit_GraphIsComplement pGraph then 0%Z else (~~~ 0)%Z, pGraph)
  else if Kit_GraphIsVar pGraph then
    v ← Kit_GraphVarInt pGraph;
    Some (if Kit_GraphIsComplement pGraph then (~~~ uMasks.[v])%Z else uMasks.[v], pGraph)
  else
    let pGraph := for_up (nLeaves pGraph) (fun i g => set_func g i uMasks.[i]) pGraph in
    let '(pGraph, uTruth) := for_range (nLeaves pGraph) (nSize pGraph) node_truth (pGraph, 0%Z) in
    Some (if Kit_GraphIsComplement pGraph then (~~~ uTruth)%Z else uTruth, pGraph).

(** The depth of a leaf below a node, -100 when it is not there.  The recursion follows
    the edges; the theorems give enough fuel. *)
Fixpoint Kit_GraphLeafDepth_rec (fuel : nat) (pGraph : Kit_Graph_t) (pNode pLeaf : nat) : option Z :=
  match fuel with
  | O => None
  | S fuel =>
    if pNode =? pLeaf then Some 0%Z
    else if Kit_GraphNodeIsVar pGraph pNode then Some (-100)%Z
    else
      n0 ← Kit_GraphNodeFanin0 pGraph pNode;
      n1 ← Kit_GraphNodeFanin1 pGraph pNode;
      Depth0 ← Kit_GraphLeafDepth_rec fuel pGraph n0 pLeaf;
      Depth1 ← Kit_GraphLeafDepth_rec fuel pGraph n1 pLeaf;
      let Depth := Z.max Depth0 Depth1 in
      Some (if (Depth =? -100)%Z then (-100)%Z else (Depth + 1)%Z)
  end.

Fixpoint Kit_GraphLevelNum_rec (fuel : nat) (pGraph : Kit_Graph_t) (pNode : nat) : option Z :=
  match fuel with
  | O => None
  | S fuel =>
    if Kit_GraphNodeIsVar pGraph pNode then Some 0%Z
    else
      n0 ← Kit_GraphNodeFanin0 pGraph pNode;
      n1 ← Kit_GraphNodeFanin1 pGraph pNode;
      Depth0 ← Kit_GraphLevelNum_rec fuel pGraph n0;
      Depth1 ← Kit_GraphLevelNum_rec fuel pGraph n1;
      Some (1 + Z.max Depth0 Depth1)%Z
  end.

(** * Well-formed graphs and their functions *)

Definition edge_in (n : nat) (e : Kit_Edge_t) : Prop := (0 <= Node e < Z.of_nat n)%Z.

Record wf_graph (g : Kit_Graph_t) : Prop := {
  wf_const : fConst g = false;
  wf_size : nSize g = length (pNodes g);
  wf_cap : nSize g <= nCap g;
  wf_room : 0 < nCap g;
  wf_leaves : nLeaves g <= nSize g;
  wf_edges : forall i nd, nLeaves g <= i -> pNodes g !! i = Some nd -> edge_in i (eEdge0 nd) /\ edge_in i (eEdge1 nd);
}.

Fixpoint node_val (fuel : nat) (g : Kit_Graph_t) (m i : nat) : bool :=
  match fuel with
  | O => false
  | S fuel =>
    if i <? nLeaves g then Nat.testbit m i
    else
      let nd := Kit_GraphNode g i in
      xorb (fCompl (eEdge0 nd)) (node_val fuel g m (edge_node (eEdge0 nd))) &&
      xorb (fCompl (eEdge1 nd)) (node_val fuel g m (edge_node (eEdge1 nd)))
  end.

(** The function of a node and of an edge. *)
Definition node_eval (g : Kit_Graph_t) (m i : nat) : bool := node_val (S i) g m i.
Definition edge_eval (g : Kit_Graph_t) (m : nat) (e : Kit_Edge_t) : bool :=
  xorb (fCompl e) (node_eval g m (edge_node e)).

Lemma node_at g i : i < length (pNodes g) -> pNodes g !! i = Some (Kit_GraphNode g i).
Proof. intros Hi. unfold Kit_GraphNode. destruct (nth_lookup_or_length (pNodes g) i zero_node); [done|lia]. Qed.

Lemma edge_in_node n e : edge_in n e -> edge_node e < n.
Proof. unfold edge_in, edge_node. lia. Qed.

Lemma edge_in_mono n k e : n <= k -> edge_in n e -> edge_in k e.
Proof. unfold edge_in. lia. Qed.

Lemma edge_in_not n e : edge_in n (edge_not e) <-> edge_in n e.
Proof. done. Qed.

Lemma wf_node g i : wf_graph g -> nLeaves g <= i -> i < nSize g ->
  edge_in i (eEdge0 (Kit_GraphNode g i)) /\ edge_in i (eEdge1 (Kit_GraphNode g i)).
Proof.
  intros Hw Hl Hs. apply (wf_edges g Hw i _ Hl). apply node_at. by rewrite <- (wf_size g Hw).
Qed.

(** More fuel than the number of the node changes nothing. *)
Lemma node_val_fuel g m i f : wf_graph g -> i < nSize g -> i < f -> node_val f g m i = node_eval g m i.
Proof.
  intros Hw. revert f. induction i as [i IH] using lt_wf_ind. intros f Hi Hf.
  destruct f as [|f]; [lia|]. unfold node_eval. cbn [node_val].
  destruct (Nat.ltb_spec i (nLeaves g)) as [|Hl]; [done|].
  destruct (wf_node g i Hw Hl Hi) as [H0%edge_in_node H1%edge_in_node].
  by rewrite !(IH (edge_node _)) by lia.
Qed.

Lemma node_eval_leaf g m i : i < nLeaves g -> node_eval g m i = Nat.testbit m i.
Proof. intros Hi. unfold node_eval. cbn [node_val]. by rewrite (proj2 (Nat.ltb_lt _ _) Hi). Qed.

Lemma node_eval_and g m i : wf_graph g -> nLeaves g <= i -> i < nSize g ->
  node_eval g m i = edge_eval g m (eEdge0 (Kit_GraphNode g i)) && edge_eval g m (eEdge1 (Kit_GraphNode g i)).
Proof.
  intros Hw Hl Hi. unfold node_eval. cbn [node_val]. rewrite (proj2 (Nat.ltb_ge _ _) Hl).
  destruct (wf_node g i Hw Hl Hi) as [H0%edge_in_node H1%edge_in_node].
  unfold edge_eval. by rewrite !node_val_fuel by (done || lia).
Qed.

Lemma edge_eval_not g m e : edge_eval g m (edge_not e) = negb (edge_eval g m e).
Proof.
  unfold edge_eval, edge_not, edge_node. cbn [fCompl Node]. by destruct (fCompl e), (node_eval g m (Z.to_nat (Node e))).
Qed.

(** A graph with more nodes. *)
Record extends (g g' : Kit_Graph_t) : Prop := {
  ext_leaves : nLeaves g' = nLeaves g;
  ext_root : eRoot g' = eRoot g;
  ext_nodes : forall i, i < nSize g -> Kit_GraphNode g' i = Kit_GraphNode g i;
  ext_size : nSize g <= nSize g';
}.

Lemma extends_refl g : extends g g.
Proof. by constructor. Qed.

Lemma extends_trans g1 g2 g3 : extends g1 g2 -> extends g2 g3 -> extends g1 g3.
Proof.
  intros [? ? H1 ?] [? ? H2 ?]. constructor; try congruence; [|lia].
  intros i Hi. rewrite H2, H1 by lia. done.
Qed.

Lemma node_eval_extends g g' m i : wf_graph g -> wf_graph g' -> extends g g' -> i < nSize g ->
  node_eval g' m i = node_eval g m i.
Proof.
  intros Hw Hw' He. induction i as [i IH] using lt_wf_ind. intros Hi. pose proof He as [El _ En Es].
  destruct (Nat.lt_ge_cases i (nLeaves g)) as [Hl|Hl].
  - by rewrite !node_eval_leaf by lia.
  - rewrite !node_eval_and, En by (done || lia).
    destruct (wf_node g i Hw Hl Hi) as [H0%edge_in_node H1%edge_in_node].
    unfold edge_eval. by rewrite !IH by lia.
Qed.

Lemma edge_eval_extends g g' m e : wf_graph g -> wf_graph g' -> extends g g' -> edge_in (nSize g) e ->
  edge_eval g' m e = edge_eval g m e.
Proof. intros ? ? ? He%edge_in_node. unfold edge_eval. by rewrite (node_eval_extends g g'). Qed.

(** * Adding nodes *)

Definition new_node (g : Kit_Graph_t) (nd : Kit_Node_t) : Kit_Graph_t :=
  let g := Kit_GraphAppendNode g in write_node g (nSize g - 1) nd.

Lemma new_node_nodes g nd : wf_graph g -> pNodes (new_node g nd) = pNodes g ++ [nd] /\ nSize (new_node g nd) = S (nSize g).
Proof.
  intros Hw. unfold new_node, Kit_GraphAppendNode, write_node. cbn [nSize pNodes]. split; [|done].
  replace (S (nSize g) - 1) with (length (pNodes g) + 0) by (rewrite <- (wf_size g Hw); lia).
  by rewrite insert_app_r.
Qed.

Lemma new_node_wf g nd : wf_graph g -> edge_in (nSize g) (eEdge0 nd) -> edge_in (nSize g) (eEdge1 nd) ->
  wf_graph (new_node g nd) /\ extends g (new_node g nd) /\ Kit_GraphNode (new_node g nd) (nSize g) = nd.
Proof.
  intros Hw H0 H1. destruct (new_node_nodes g nd Hw) as [En Es]. pose proof (wf_size g Hw) as Hs.
  pose proof (wf_leaves g Hw). pose proof (wf_cap g Hw). pose proof (wf_room g Hw).
  split; [|split].
  - constructor.
    + apply Hw.
    + rewrite En, Es, length_app. cbn. lia.
    + rewrite Es. unfold new_node, Kit_GraphAppendNode, write_node. cbn [nCap].
      destruct (Nat.eqb_spec (nSize g) (nCap g)); lia.
    + unfold new_node, Kit_GraphAppendNode, write_node. cbn [nCap]. destruct (_ =? _); lia.
    + rewrite Es. cbn. lia.
    + intros i nd' Hl Hi. rewrite En in Hi. apply lookup_app_Some in Hi as [Hi|[Hi Hi']].
      * by apply (wf_edges g Hw).
      * apply list_lookup_singleton_Some in Hi' as [Hi' <-]. replace i with (nSize g) by lia. done.
  - constructor; [done|done| |lia]. intros i Hi. unfold Kit_GraphNode. rewrite En. apply app_nth1. lia.
  - unfold Kit_GraphNode. rewrite En, app_nth2 by lia. by replace (nSize g - length (pNodes g)) with 0 by lia.
Qed.

(** An edge as the routines create it, for fewer than [2 ^ 30] nodes. *)
Lemma EdgeCreate_small i c : (0 <= i < 2 ^ 30)%Z -> Kit_EdgeCreate i c = {| fCompl := Z.odd c; Node := i |}.
Proof.
  intros Hi. unfold Kit_EdgeCreate. f_equal. change 0x3FFFFFFF%Z with (Z.ones 30).
  rewrite Z.land_ones by lia. by apply Z.mod_small.
Qed.

(** What an operation that adds at most [k] nodes promises: the old edges keep their
    functions, the new edge has the function [f]. *)
Definition adds (g : Kit_Graph_t) (k : nat) (f : nat -> bool) (r : Kit_Edge_t * Kit_Graph_t) : Prop :=
  wf_graph r.2 /\ extends g r.2 /\ nSize r.2 <= nSize g + k /\ edge_in (nSize r.2) r.1 /\
  forall m, edge_eval r.2 m r.1 = f m.

Definition small (g : Kit_Graph_t) (k : nat) : Prop := (Z.of_nat (nSize g + k) <= 2 ^ 30)%Z.

Lemma AddNodeAnd_spec g e0 e1 :
  wf_graph g -> small g 1 -> edge_in (nSize g) e0 -> edge_in (nSize g) e1 ->
  adds g 1 (fun m => edge_eval g m e0 && edge_eval g m e1) (Kit_GraphAddNodeAnd g e0 e1).
Proof.
  intros Hw Hr H0 H1. unfold Kit_GraphAddNodeAnd.
  match goal with |- context [write_node _ _ ?nd] => set (n := nd) end. fold (new_node g n).
  destruct (new_node_wf g n Hw H0 H1) as (Hw' & He & Hn). destruct (new_node_nodes g n Hw) as [_ Es].
  cbv zeta. rewrite Es. unfold small in Hr. rewrite EdgeCreate_small by lia.
  split; [done|]. split; [done|]. cbn [fst snd]. split; [lia|]. split; [unfold edge_in; cbn [Node]; lia|].
  intros m. unfold edge_eval at 1. unfold edge_node. cbn [fCompl Node].
  replace (Z.to_nat (Z.of_nat (S (nSize g)) - 1)) with (nSize g) by lia.
  pose proof (wf_leaves g Hw). rewrite node_eval_and, Hn by (done || (cbn; lia)). cbn [xorb Z.odd].
  rewrite !(edge_eval_extends g (new_node g n)) by done. by destruct (_ && _).
Qed.

Lemma AddNodeOr_spec g e0 e1 :
  wf_graph g -> small g 1 -> edge_in (nSize g) e0 -> edge_in (nSize g) e1 ->
  adds g 1 (fun m => edge_eval g m e0 || edge_eval g m e1) (Kit_GraphAddNodeOr g e0 e1).
Proof.
  intros Hw Hr H0 H1. unfold Kit_GraphAddNodeOr.
  match goal with |- context [write_node _ _ ?nd] => set (n := nd) end. fold (new_node g n).
  destruct (new_node_wf g n Hw H0 H1) as (Hw' & He & Hn). destruct (new_node_nodes g n Hw) as [_ Es].
  cbv zeta. rewrite Es. unfold small in Hr. rewrite EdgeCreate_small by lia.
  split; [done|]. split; [done|]. cbn [fst snd]. split; [lia|]. split; [unfold edge_in; cbn [Node]; lia|].
  intros m. unfold edge_eval at 1. unfold edge_node. cbn [fCompl Node].
  replace (Z.to_nat (Z.of_nat (S (nSize g)) - 1)) with (nSize g) by lia.
  pose proof (wf_leaves g Hw). rewrite node_eval_and, Hn by (done || (cbn; lia)). cbn [xorb Z.odd].
  rewrite !(edge_eval_extends g (new_node g n)) by done. subst n. cbn [eEdge0 eEdge1].
  rewrite !edge_eval_not. by destruct (edge_eval g m e0), (edge_eval g m e1).
Qed.

(** Two operations in sequence. *)
Lemma adds_edge g k f r e : wf_graph g -> adds g k f r -> edge_in (nSize g) e ->
  edge_in (nSize r.2) e /\ forall m, edge_eval r.2 m e = edge_eval g m e.
Proof.
  intros Hw (Hw' & He & _) Hi. split; [eapply edge_in_mono; [by apply He|done]|].
  intros m. by apply edge_eval_extends.
Qed.

Lemma adds_trans g k f e g' k' f' r :
  wf_graph g -> adds g k f (e, g') -> adds g' k' f' r -> adds g (k + k') f' r.
Proof.
  intros Hw (Hw' & He & Hs & _) (Hw'' & He' & Hs' & Hin & Hf). cbn [fst snd] in *.
  split; [done|]. split; [by eapply extends_trans|]. split; [lia|]. done.
Qed.

Lemma adds_ext g k f f' r : (forall m, f m = f' m) -> adds g k f r -> adds g k f' r.
Proof. intros E (?&?&?&?&H). repeat (split; [done|]). intros m. by rewrite H. Qed.

Lemma adds_not g k f r : adds g k f r -> adds g k (fun m => negb (f m)) (edge_not r.1, r.2).
Proof.
  intros (?&?&?&?&H). repeat (split; [done|]). intros m. cbn [fst snd]. by rewrite edge_eval_not, H.
Qed.

Lemma small_le g k j : j <= k -> small g k -> small g j.
Proof. unfold small. lia. Qed.
Lemma small_after g k f r j : adds g k f r -> small g (k + j) -> small r.2 j.
Proof. unfold small. intros (_ & _ & H & _) ?. lia. Qed.

(** Two and-gates joined by an or-gate. *)
Lemma and_and_or g a b c d :
  wf_graph g -> small g 3 ->
  edge_in (nSize g) a -> edge_in (nSize g) b -> edge_in (nSize g) c -> edge_in (nSize g) d ->
  adds g 3 (fun m => edge_eval g m a && edge_eval g m b || edge_eval g m c && edge_eval g m d)
    (let '(n0, g) := Kit_GraphAddNodeAnd g a b in
     let '(n1, g) := Kit_GraphAddNodeAnd g c d in Kit_GraphAddNodeOr g n0 n1).
Proof.
  intros Hw Hs Ha Hb Hc Hd.
  pose proof (AddNodeAnd_spec g a b Hw (small_le g 3 1 ltac:(lia) Hs) Ha Hb) as A0.
  destruct (Kit_GraphAddNodeAnd g a b) as [n0 g0] eqn:E0.
  destruct (adds_edge _ _ _ _ c Hw A0 Hc) as [Hc' Ec]. destruct (adds_edge _ _ _ _ d Hw A0 Hd) as [Hd' Ed].
  cbn [fst snd] in *. pose proof A0 as (Hw0 & _ & _ & Hn0 & F0). cbn [fst snd] in *.
  pose proof (small_after _ _ _ _ 2 A0 Hs) as Hs0. cbn [snd] in Hs0.
  pose proof (AddNodeAnd_spec g0 c d Hw0 (small_le g0 2 1 ltac:(lia) Hs0) Hc' Hd') as A1.
  destruct (Kit_GraphAddNodeAnd g0 c d) as [n1 g1] eqn:E1.
  destruct (adds_edge _ _ _ _ n0 Hw0 A1 Hn0) as [Hn0' En0].
  pose proof A1 as (Hw1 & _ & _ & Hn1 & F1). cbn [fst snd] in *.
  pose proof (small_after _ _ _ _ 1 A1 Hs0) as Hs1. cbn [snd] in Hs1.
  pose proof (AddNodeOr_spec g1 n0 n1 Hw1 Hs1 Hn0' Hn1) as A2.
  eapply adds_ext; [|exact (adds_trans _ _ _ _ _ _ _ _ Hw A0 (adds_trans _ _ _ _ _ _ _ _ Hw0 A1 A2))].
  intros m. cbv beta. by rewrite En0, F0, F1, Ec, Ed.
Qed.

Lemma AddNodeXor_spec g e0 e1 t :
  wf_graph g -> small g 3 -> edge_in (nSize g) e0 -> edge_in (nSize g) e1 ->
  adds g 3 (fun m => xorb (edge_eval g m e0) (edge_eval g m e1)) (Kit_GraphAddNodeXor g e0 e1 t).
Proof.
  intros Hw Hs H0 H1. unfold Kit_GraphAddNodeXor. destruct (t =? 0)%Z.
  - eapply adds_ext; [|apply (and_and_or g (edge_not e0) e1 (edge_not (edge_not e0)) (edge_not e1)); done].
    intros m. cbv beta. rewrite !edge_eval_not. by destruct (edge_eval g m e0), (edge_eval g m e1).
  - pose proof (and_and_or g e0 e1 (edge_not e0) (edge_not e1) Hw Hs H0 H1 H0 H1) as A. revert A.
    destruct (Kit_GraphAddNodeAnd g e0 e1) as [n0 g0]. cbv zeta.
    destruct (Kit_GraphAddNodeAnd g0 _ _) as [n1 g1]. destruct (Kit_GraphAddNodeOr g1 n0 n1) as [n g2].
    intros A%adds_not. cbn [fst snd] in A. eapply adds_ext; [|exact A].
    intros m. cbv beta. rewrite !edge_eval_not. by destruct (edge_eval g m e0), (edge_eval g m e1).
Qed.

Lemma AddNodeMux_spec g c e0 e1 t :
  wf_graph g -> small g 3 -> edge_in (nSize g) c -> edge_in (nSize g) e0 -> edge_in (nSize g) e1 ->
  adds g 3 (fun m => if edge_eval g m c then edge_eval g m e0 else edge_eval g m e1) (Kit_GraphAddNodeMux g c e0 e1 t).
Proof.
  intros Hw Hs Hc H0 H1. unfold Kit_GraphAddNodeMux. destruct (t =? 0)%Z.
  - eapply adds_ext; [|apply (and_and_or g c e0 (edge_not c) e1); done].
    intros m. cbv beta. rewrite !edge_eval_not. by destruct (edge_eval g m c), (edge_eval g m e0), (edge_eval g m e1).
  - pose proof (and_and_or g c (edge_not e0) (edge_not c) (edge_not e1) Hw Hs Hc H0 Hc H1) as A. revert A. cbv zeta.
    destruct (Kit_GraphAddNodeAnd g c (edge_not e0)) as [n0 g0].
    destruct (Kit_GraphAddNodeAnd g0 _ _) as [n1 g1]. destruct (Kit_GraphAddNodeOr g1 n0 n1) as [n g2].
    intros A%adds_not. cbn [fst snd] in A. eapply adds_ext; [|exact A].
    intros m. cbv beta. rewrite !edge_eval_not. by destruct (edge_eval g m c), (edge_eval g m e0), (edge_eval g m e1).
Qed.

Lemma wf_Create n : wf_graph (Kit_GraphCreate n).
Proof.
  constructor; cbn [Kit_GraphCreate fConst nSize pNodes nCap nLeaves]; rewrite ?repeat_length; try done; try lia.
  intros i nd Hi Hn. apply lookup_lt_Some in Hn. rewrite repeat_length in Hn. lia.
Qed.

(** * The truth table of a graph *)

Lemma length_set_func g i x : length (pNodes (set_func g i x)) = length (pNodes g).
Proof. apply length_insert. Qed.

Lemma node_set_func g i x j : i < length (pNodes g) ->
  Kit_GraphNode (set_func g i x) j =
    if decide (j = i) then
      let nd := Kit_GraphNode g i in
      {| eEdge0 := eEdge0 nd; eEdge1 := eEdge1 nd; pFunc := x; fNodeOr := fNodeOr nd;
         fCompl0 := fCompl0 nd; fCompl1 := fCompl1 nd |}
    else Kit_GraphNode g j.
Proof.
  intros Hi. unfold set_func, write_node, Kit_GraphNode at 1. cbn [pNodes].
  rewrite nth_lookup, list_lookup_insert. destruct (decide (j = i)) as [-> | Hne].
  - by rewrite decide_True.
  - rewrite decide_False by (intros [? _]; congruence). by rewrite <- nth_lookup.
Qed.

(** [g'] is [g] with other truth tables in its nodes. *)
Definition same_graph (g g' : Kit_Graph_t) : Prop :=
  nLeaves g' = nLeaves g /\ nSize g' = nSize g /\ eRoot g' = eRoot g /\ length (pNodes g') = length (pNodes g) /\
  forall j, eEdge0 (Kit_GraphNode g' j) = eEdge0 (Kit_GraphNode g j) /\
            eEdge1 (Kit_GraphNode g' j) = eEdge1 (Kit_GraphNode g j).

Lemma same_set_func g g' i x : same_graph g g' -> i < length (pNodes g) -> same_graph g (set_func g' i x).
Proof.
  intros (H1 & H2 & H3 & H4 & H5) Hi. unfold same_graph. rewrite length_set_func.
  repeat (split; [done|]). intros j. rewrite node_set_func by lia.
  destruct (decide (j = i)) as [-> | ]; apply H5.
Qed.

(** The first [i] nodes hold the truth tables of their functions. *)
Definition tables_upto (g g' : Kit_Graph_t) (i : nat) : Prop :=
  same_graph g g' /\ forall j, j < i ->
    is_word (pFunc (Kit_GraphNode g' j)) /\ forall m, wfun (pFunc (Kit_GraphNode g' j)) m = node_eval g m j.

Lemma leaf_tables g : wf_graph g -> nLeaves g <= 5 ->
  tables_upto g (for_up (nLeaves g) (fun i g => set_func g i uMasks.[i]) g) (nLeaves g).
Proof.
  intros Hw H5. pose proof (wf_leaves g Hw) as Hl. pose proof (wf_size g Hw) as Hs.
  apply (for_up_ind (fun i g' => tables_upto g g' i)).
  - split; [|intros; lia]. by repeat split.
  - intros i s Hi [Hsame Ht]. split; [apply same_set_func; [done|lia]|].
    pose proof Hsame as (_ & _ & _ & Hlen & _). intros j Hj. rewrite node_set_func by lia.
    destruct (decide (j = i)) as [-> | ]; [|apply Ht; lia]. cbn [pFunc].
    split; [auto with words|]. intros m. rewrite wfun_uMasks, node_eval_leaf by lia. done.
Qed.

Lemma wfun_compl (c : bool) x m : wfun (if c then (~~~ x)%Z else x) m = xorb c (wfun x m).
Proof. destruct c; [by rewrite wfun_wnot|by destruct (wfun x m)]. Qed.
Lemma word_compl (c : bool) x : is_word x -> is_word (if c then (~~~ x)%Z else x).
Proof. destruct c; auto with words. Qed.

Lemma node_truth_step g g' i u :
  wf_graph g -> tables_upto g g' i -> nLeaves g <= i -> i < nSize g ->
  let r := node_truth i (g', u) in tables_upto g r.1 (S i) /\ r.2 = pFunc (Kit_GraphNode r.1 i).
Proof.
  intros Hw [Hsame Ht] Hl Hi. cbv zeta. unfold node_truth.
  pose proof Hsame as (_ & _ & _ & Hlen & He). pose proof (wf_size g Hw) as Hs.
  destruct (He i) as [-> ->]. destruct (wf_node g i Hw Hl Hi) as [H0%edge_in_node H1%edge_in_node].
  destruct (Ht _ H0) as [W0 F0]. destruct (Ht _ H1) as [W1 F1]. cbn [fst snd].
  split; [|rewrite node_set_func, decide_True by (done || lia); done].
  split; [apply same_set_func; [done|lia]|]. intros j Hj. rewrite node_set_func by lia.
  destruct (decide (j = i)) as [-> | ]; [|apply Ht; lia]. cbn [pFunc].
  split; [apply word_land; by apply word_compl|]. intros m.
  rewrite wfun_land, !wfun_compl, F0, F1, (node_eval_and g m i) by done. done.
Qed.

Lemma all_tables g : wf_graph g -> nLeaves g <= 5 ->
  let s := for_range (nLeaves g) (nSize g) node_truth
    (for_up (nLeaves g) (fun i g => set_func g i uMasks.[i]) g, 0%Z) in
  tables_upto g s.1 (nSize g) /\ (nLeaves g < nSize g -> s.2 = pFunc (Kit_GraphNode s.1 (nSize g - 1))).
Proof.
  intros Hw H5. cbv zeta. pose proof (wf_leaves g Hw) as Hl.
  apply (for_range_ind (fun i s => tables_upto g s.1 i /\ (nLeaves g < i -> s.2 = pFunc (Kit_GraphNode s.1 (i - 1))))).
  - done.
  - split; [by apply leaf_tables|lia].
  - intros i [g' u] Hi [Ht _]. destruct (node_truth_step g g' i u Hw Ht) as [H1 H2]; [lia..|].
    split; [done|]. intros _. by replace (S i - 1) with i by lia.
Qed.

Lemma GraphToTruth_spec g :
  wf_graph g -> nLeaves g <= 5 -> edge_in (nSize g) (eRoot g) ->
  edge_node (eRoot g) < nLeaves g \/ edge_node (eRoot g) = nSize g - 1 ->
  exists u g', Kit_GraphToTruth g = Some (u, g') /\ same_graph g g' /\ is_word u /\
    forall m, wfun u m = edge_eval g m (eRoot g).
Proof.
  intros Hw H5 Hr Hroot. pose proof (edge_in_node _ _ Hr) as Hr'. unfold Kit_GraphToTruth, Kit_GraphLeaveNum.
  rewrite (proj2 (Nat.leb_le _ _) (wf_leaves g Hw)), (proj2 (Nat.leb_le _ _) H5).
  unfold Kit_GraphIsConst. rewrite (wf_const g Hw). unfold Kit_GraphIsComplement, Kit_GraphVarInt.
  destruct (Kit_GraphIsVar g) eqn:Ev; unfold Kit_GraphIsVar in Ev.
  - apply Z.ltb_lt in Ev. cbn [mbind option_bind]. eexists _, _. split; [done|]. split; [by repeat split|].
    split; [apply word_compl; auto with words|]. intros m. unfold edge_in in Hr.
    assert (edge_node (eRoot g) < nLeaves g) by (unfold edge_node; lia).
    rewrite wfun_compl, wfun_uMasks by lia. unfold edge_eval. by rewrite node_eval_leaf.
  - apply Z.ltb_ge in Ev. assert (edge_node (eRoot g) = nSize g - 1 /\ nLeaves g < nSize g) as [Hn Hlt]
      by (unfold edge_node, edge_in in *; lia).
    destruct (all_tables g Hw H5) as [[Hsame Ht] Hu].
    assert (nLeaves (for_up (nLeaves g) (fun i g => set_func g i uMasks.[i]) g) = nLeaves g /\
      nSize (for_up (nLeaves g) (fun i g => set_func g i uMasks.[i]) g) = nSize g /\
      eRoot (for_up (nLeaves g) (fun i g => set_func g i uMasks.[i]) g) = eRoot g) as (E1 & E2 & E3).
    { destruct (leaf_tables g Hw H5) as [(? & ? & ? & _) _]. done. }
    cbv zeta. rewrite E1, E2. destruct (for_range _ _ _ _) as [g' u] eqn:E. cbn [fst snd] in *.
    destruct (Ht (nSize g - 1)) as [W F]; [lia|]. rewrite <- Hu in W, F by done.
    pose proof Hsame as (_ & _ & Hroot' & _). rewrite Hroot'.
    eexists _, _. split; [done|]. split; [done|]. split; [by apply word_compl|]. intros m.
    rewrite wfun_compl, F. unfold edge_eval. by rewrite Hn.
Qed.

(** * Depths *)

(** A path of [k] edges from a node down to another. *)
Inductive path (g : Kit_Graph_t) : nat -> nat -> nat -> Prop :=
| path_nil i : path g i i 0
| path_fanin0 i j k : nLeaves g <= i -> path g (edge_node (eEdge0 (Kit_GraphNode g i))) j k -> path g i j (S k)
| path_fanin1 i j k : nLeaves g <= i -> path g (edge_node (eEdge1 (Kit_GraphNode g i))) j k -> path g i j (S k).

Lemma path_below g i j k : wf_graph g -> i < nSize g -> path g i j k -> j + k <= i.
Proof.
  intros Hw Hi H. induction H as [i|i j k Hl _ IH|i j k Hl _ IH]; [lia| |];
    destruct (wf_node g i Hw Hl Hi) as [H0%edge_in_node H1%edge_in_node]; specialize (IH ltac:(lia)); lia.
Qed.

(** [d] is the length of a longest path to a node with [P], or [none] when there is none. *)
Definition longest (g : Kit_Graph_t) (P : nat -> Prop) (none : Z) (i : nat) (d : Z) : Prop :=
  (d = none /\ forall j k, P j -> ~ path g i j k) \/
  (exists j k, P j /\ path g i j k /\ d = Z.of_nat k) /\ forall j k, P j -> path g i j k -> (Z.of_nat k <= d)%Z.

Lemma longest_step g P i d0 d1 :
  nLeaves g <= i -> ~ P i ->
  longest g P (-100) (edge_node (eEdge0 (Kit_GraphNode g i))) d0 ->
  longest g P (-100) (edge_node (eEdge1 (Kit_GraphNode g i))) d1 ->
  longest g P (-100) i (if (Z.max d0 d1 =? -100)%Z then -100 else Z.max d0 d1 + 1)%Z.
Proof.
  intros Hl HP L0 L1.
  assert (forall j k, P j -> path g i j k -> exists k', k = S k' /\
    (path g (edge_node (eEdge0 (Kit_GraphNode g i))) j k' \/ path g (edge_node (eEdge1 (Kit_GraphNode g i))) j k')) as Hinv.
  { intros j k Hj H. inversion H; subst; [done|eauto..]. }
  destruct L0 as [[-> N0]|[(j0 & k0 & P0 & Q0 & ->) M0]], L1 as [[-> N1]|[(j1 & k1 & P1 & Q1 & ->) M1]].
  - left. split; [done|]. intros j k Hj H. destruct (Hinv j k Hj H) as (k' & _ & [H'|H']); [by eapply N0|by eapply N1].
  - right. destruct (Z.eqb_spec (Z.max (-100) (Z.of_nat k1)) (-100)); [lia|]. split.
    + exists j1, (S k1). split; [done|]. split; [by apply path_fanin1|]. lia.
    + intros j k Hj H. destruct (Hinv j k Hj H) as (k' & -> & [H'|H']); [by apply N0 in H'|].
      specialize (M1 j k' Hj H'). lia.
  - right. destruct (Z.eqb_spec (Z.max (Z.of_nat k0) (-100)) (-100)); [lia|]. split.
    + exists j0, (S k0). split; [done|]. split; [by apply path_fanin0|]. lia.
    + intros j k Hj H. destruct (Hinv j k Hj H) as (k' & -> & [H'|H']); [|by apply N1 in H'].
      specialize (M0 j k' Hj H'). lia.
  - right. destruct (Z.eqb_spec (Z.max (Z.of_nat k0) (Z.of_nat k1)) (-100)); [lia|]. split.
    + destruct (Z.max_spec (Z.of_nat k0) (Z.of_nat k1)) as [[_ ->]|[_ ->]].
      * exists j1, (S k1). split; [done|]. split; [by apply path_fanin1|]. lia.
      * exists j0, (S k0). split; [done|]. split; [by apply path_fanin0|]. lia.
    + intros j k Hj H. destruct (Hinv j k Hj H) as (k' & -> & [H'|H']);
        [specialize (M0 j k' Hj H')|specialize (M1 j k' Hj H')]; lia.
Qed.

Lemma LeafDepth_spec fuel g i j : wf_graph g -> i < nSize g -> i < fuel -> j < nLeaves g ->
  exists d, Kit_GraphLeafDepth_rec fuel g i j = Some d /\ longest g (eq j) (-100) i d.
Proof.
  intros Hw Hi Hf Hj. revert i Hi Hf. induction fuel as [|fuel IH]; intros i Hi Hf; [lia|].
  cbn [Kit_GraphLeafDepth_rec]. destruct (Nat.eqb_spec i j) as [-> | Hne].
  { eexists. split; [done|]. right. split; [exists j, 0; repeat split; constructor|].
    intros ? k <- H. apply path_below in H; [lia|done..]. }
  unfold Kit_GraphNodeFanin0, Kit_GraphNodeFanin1, Kit_GraphNodeIsVar. destruct (Nat.ltb_spec i (nLeaves g)) as [Hl|Hl].
  { eexists. split; [done|]. left. split; [done|]. intros ? k <- H. inversion H; subst; [done|lia..]. }
  destruct (wf_node g i Hw Hl Hi) as [H0%edge_in_node H1%edge_in_node]. cbn [mbind option_bind].
  destruct (IH (edge_node (eEdge0 (Kit_GraphNode g i)))) as (d0 & -> & L0); [lia..|].
  destruct (IH (edge_node (eEdge1 (Kit_GraphNode g i)))) as (d1 & -> & L1); [lia..|].
  cbn [mbind option_bind]. eexists. split; [done|]. by apply longest_step.
Qed.

(** A longest path to a leaf always exists. *)
Definition level (g : Kit_Graph_t) (i : nat) (d : Z) : Prop :=
  (exists j k, j < nLeaves g /\ path g i j k /\ d = Z.of_nat k) /\
  forall j k, j < nLeaves g -> path g i j k -> (Z.of_nat k <= d)%Z.

Lemma LevelNum_spec fuel g i : wf_graph g -> i < nSize g -> i < fuel ->
  exists d, Kit_GraphLevelNum_rec fuel g i = Some d /\ level g i d.
Proof.
  intros Hw. revert i. induction fuel as [|fuel IH]; intros i Hi Hf; [lia|].
  cbn [Kit_GraphLevelNum_rec]. unfold Kit_GraphNodeFanin0, Kit_GraphNodeFanin1, Kit_GraphNodeIsVar.
  destruct (Nat.ltb_spec i (nLeaves g)) as [Hl|Hl].
  { eexists. split; [done|]. split; [exists i, 0; repeat split; [done|constructor]|].
    intros j k Hj H. inversion H; subst; lia. }
  destruct (wf_node g i Hw Hl Hi) as [H0%edge_in_node H1%edge_in_node]. cbn [mbind option_bind].
  destruct (IH (edge_node (eEdge0 (Kit_GraphNode g i)))) as (d0 & -> & (j0 & k0 & L0 & P0 & ->) & M0); [lia..|].
  destruct (IH (edge_node (eEdge1 (Kit_GraphNode g i)))) as (d1 & -> & (j1 & k1 & L1 & P1 & ->) & M1); [lia..|].
  cbn [mbind option_bind]. eexists. split; [done|]. split.
  - destruct (Z.max_spec (Z.of_nat k0) (Z.of_nat k1)) as [[_ ->]|[_ ->]].
    + exists j1, (S k1). split; [done|]. split; [by apply path_fanin1|lia].
    + exists j0, (S k0). split; [done|]. split; [by apply path_fanin0|lia].
  - intros j k Hj H. inversion H as [|? ? k' _ H'|? ? k' _ H']; subst; [lia| |];
      [specialize (M0 j k' Hj H')|specialize (M1 j k' Hj H')]; lia.
Qed.

(** * Edges as integers *)

Lemma edge_to_int e : (0 <= Node e < 2 ^ 30)%Z ->
  Kit_EdgeToInt e = (2 * Node e + Z.b2z (fCompl e))%Z /\ Kit_EdgeToInt_ e = Kit_EdgeToInt e.
Proof.
  intros He. split; [|apply Z.lor_comm]. unfold Kit_EdgeToInt, wshl.
  change 0xFFFFFFFF%Z with (Z.ones 32). rewrite Z.land_ones, Z.shiftl_mul_pow2 by lia.
  change (2 ^ Z.of_nat 1)%Z with 2%Z. rewrite Z.mod_small by lia. rewrite (Z.mul_comm _ 2).
  symmetry. apply Z.add_nocarry_lor. apply Z.bits_inj'. intros i Hi. rewrite Z.land_spec, Z.testbit_0_l.
  destruct (decide (i = 0)%Z) as [-> | ].
  - rewrite Z.testbit_even_0. done.
  - destruct (fCompl e); cbn [Z.b2z]; [|by rewrite Z.testbit_0_l, andb_false_r].
    change 1%Z with (2 ^ 0)%Z at 1. rewrite Z.pow2_bits_false by lia. apply andb_false_r.
Qed.

Lemma int_to_edge e : (0 <= Node e < 2 ^ 30)%Z ->
  Kit_IntToEdge (Kit_EdgeToInt e) = e /\ Kit_IntToEdge_ (Kit_EdgeToInt_ e) = e.
Proof.
  intros He. destruct (edge_to_int e He) as [E E']. rewrite E', E. unfold Kit_IntToEdge, Kit_IntToEdge_, wshr.
  rewrite Z.shiftr_div_pow2 by lia. change (2 ^ Z.of_nat 1)%Z with 2%Z.
  assert ((2 * Node e + Z.b2z (fCompl e)) / 2 = Node e)%Z as ->
    by (symmetry; apply (Z.div_unique _ _ _ (Z.b2z (fCompl e))); destruct (fCompl e); cbn [Z.b2z]; lia).
  assert (Z.odd ((2 * Node e + Z.b2z (fCompl e)) &&& 1) = fCompl e) as Ho.
  { change 1%Z with (Z.ones 1) at 1. rewrite Z.land_ones by lia. change (2 ^ 1)%Z with 2%Z.
    destruct (fCompl e); cbn [Z.b2z].
    - by rewrite Z.add_comm, Z.mul_comm, Z.mod_add by lia.
    - by rewrite Z.add_comm, Z.mul_comm, Z.mod_add by lia. }
  split.
  - rewrite EdgeCreate_small, Ho by lia. by destruct e.
  - change 0x3FFFFFFF%Z with (Z.ones 30). rewrite Z.land_ones, Z.mod_small by lia.
    rewrite Z.bit0_odd. replace (Z.odd (2 * Node e + Z.b2z (fCompl e))) with (fCompl e); [by destruct e|].
    rewrite Z.add_comm, Z.odd_add_mul_2. by destruct (fCompl e).
Qed.

(** * Properties *)

(** C28. Adding gates: in a well-formed graph with room for three more nodes below [2^30], the and-, or-,
    exclusive-or- and multiplexer routines return an edge with that function of their arguments (for either
    decomposition of the last two), keep the graph well formed and change no earlier node. *)
Theorem graph_gates_correct g (eC e0 e1 : Kit_Edge_t) (Type_ : Z) :
  wf_graph g -> small g 3 -> edge_in (nSize g) eC -> edge_in (nSize g) e0 -> edge_in (nSize g) e1 ->
  adds g 1 (fun m => edge_eval g m e0 && edge_eval g m e1) (Kit_GraphAddNodeAnd g e0 e1) /\
  adds g 1 (fun m => edge_eval g m e0 || edge_eval g m e1) (Kit_GraphAddNodeOr g e0 e1) /\
  adds g 3 (fun m => xorb (edge_eval g m e0) (edge_eval g m e1)) (Kit_GraphAddNodeXor g e0 e1 Type_) /\
  adds g 3 (fun m => if edge_eval g m eC then edge_eval g m e0 else edge_eval g m e1)
    (Kit_GraphAddNodeMux g eC e0 e1 Type_).
Proof.
  intros Hw Hs HC H0 H1. pose proof (small_le g 3 1 ltac:(lia) Hs).
  split; [by apply AddNodeAnd_spec|]. split; [by apply AddNodeOr_spec|].
  split; [by apply AddNodeXor_spec|by apply AddNodeMux_spec].
Qed.

Lemma graph_gates_correct_witness :
  let g := Kit_GraphCreate 3 in
  let e i := Kit_EdgeCreate i 0 in
  nSize (Kit_GraphAddNodeMux g (e 2%Z) (e 1%Z) (e 0%Z) 1).2 = 6 /\
  adds g 3 (fun m => if edge_eval g m (e 2%Z) then edge_eval g m (e 1%Z) else edge_eval g m (e 0%Z))
    (Kit_GraphAddNodeMux g (e 2%Z) (e 1%Z) (e 0%Z) 1).
Proof.
  split; [reflexivity|].
  apply (graph_gates_correct (Kit_GraphCreate 3) (Kit_EdgeCreate 2 0) (Kit_EdgeCreate 1 0) (Kit_EdgeCreate 0 0) 1);
    [apply wf_Create|unfold small; cbn; lia|unfold edge_in; vm_compute; split; congruence..].
Defined.

(** C27. [Kit_GraphToTruth] of a well-formed graph of at most five leaves whose root is a leaf or the last node
    passes its assertions, keeps the graph, and returns the word whose bit [m] is the value of the root
    at minterm [m]; a constant graph gives the constant. *)
Theorem graph_to_truth_correct g :
  nLeaves g <= nSize g -> nLeaves g <= 5 ->
  (fConst g = false -> wf_graph g /\ edge_in (nSize g) (eRoot g) /\
     (edge_node (eRoot g) < nLeaves g \/ edge_node (eRoot g) = nSize g - 1)) ->
  exists u g', Kit_GraphToTruth g = Some (u, g') /\ same_graph g g' /\ is_word u /\
    forall m, m < 32 -> Z.testbit u (Z.of_nat m) =
      if fConst g then negb (fCompl (eRoot g)) else edge_eval g m (eRoot g).
Proof.
  intros Hl H5 H. destruct (fConst g) eqn:Ec.
  - unfold Kit_GraphToTruth, Kit_GraphLeaveNum, Kit_GraphIsConst, Kit_GraphIsComplement.
    rewrite (proj2 (Nat.leb_le _ _) Hl), (proj2 (Nat.leb_le _ _) H5), Ec.
    eexists _, _. split; [done|]. split; [by repeat split|].
    split; [destruct (fCompl _); auto with words|]. intros m Hm.
    destruct (fCompl _); [apply Z.testbit_0_l|by apply testbit_ones_word].
  - destruct (H eq_refl) as (Hw & Hr & Hroot).
    destruct (GraphToTruth_spec g Hw H5 Hr Hroot) as (u & g' & E & Hs & Hu & F).
    exists u, g'. repeat (split; [done|]). intros m Hm. rewrite <- F. unfold wfun. by rewrite Nat.mod_small.
Qed.

Lemma graph_to_truth_correct_witness :
  let r := Kit_GraphAddNodeMux (Kit_GraphCreate 3) (Kit_EdgeCreate 2 0) (Kit_EdgeCreate 1 0) (Kit_EdgeCreate 0 0) 0 in
  let g := Kit_GraphSetRoot r.2 r.1 in
  option_map fst (Kit_GraphToTruth g) = Some 0xCACACACA%Z /\
  exists u g', Kit_GraphToTruth g = Some (u, g') /\ same_graph g g' /\ is_word u /\
    forall m, m < 32 -> Z.testbit u (Z.of_nat m) =
      if fConst g then negb (fCompl (eRoot g)) else edge_eval g m (eRoot g).
Proof.
  intros r g. split; [vm_compute; reflexivity|].
  apply (graph_to_truth_correct g); [vm_compute; lia|vm_compute; lia|]. intros _. split; [|split].
  - destruct (AddNodeMux_spec (Kit_GraphCreate 3) (Kit_EdgeCreate 2 0) (Kit_EdgeCreate 1 0) (Kit_EdgeCreate 0 0) 0) as (Hw & _).
    + apply wf_Create.
    + unfold small. cbn. lia.
    + unfold edge_in. vm_compute. split; congruence.
    + unfold edge_in. vm_compute. split; congruence.
    + unfold edge_in. vm_compute. split; congruence.
    + destruct Hw. by constructor.
  - unfold edge_in. vm_compute. split; congruence.
  - right. reflexivity.
Defined.

(** The depth routines terminate on a well-formed graph with fuel above the number of the node: the
    level of a node is the length of a longest path to a leaf; the depth of a leaf below a node is the length
    of a longest path to that leaf, and -100 exactly when there is none. *)
Theorem graph_depths_correct g i j fuel :
  wf_graph g -> i < nSize g -> i < fuel -> j < nLeaves g ->
  (exists d, Kit_GraphLevelNum_rec fuel g i = Some d /\ level g i d) /\
  exists d, Kit_GraphLeafDepth_rec fuel g i j = Some d /\ longest g (eq j) (-100) i d.
Proof. intros Hw Hi Hf Hj. split; [by apply LevelNum_spec|by apply LeafDepth_spec]. Qed.

Lemma graph_depths_correct_witness :
  let g := (Kit_GraphAddNodeAnd (Kit_GraphCreate 2) (Kit_EdgeCreate 0 1) (Kit_EdgeCreate 0 0)).2 in
  Kit_GraphLeafDepth_rec 3 g 2 1 = Some (-100)%Z /\
  exists d, Kit_GraphLeafDepth_rec 3 g 2 1 = Some d /\ longest g (eq 1) (-100) 2 d.
Proof.
  intros g. split; [reflexivity|]. apply (graph_depths_correct g 2 1 3); [|vm_compute; lia..].
  apply (AddNodeAnd_spec (Kit_GraphCreate 2)); [apply wf_Create|unfold small; cbn; lia|..];
    unfold edge_in; vm_compute; split; congruence.
Defined.

(** An edge with a 30-bit node number survives the two encodings as an integer, which agree. *)
Theorem edge_encoding_roundtrip e : (0 <= Node e < 2 ^ 30)%Z ->
  Kit_IntToEdge (Kit_EdgeToInt e) = e /\ Kit_IntToEdge_ (Kit_EdgeToInt_ e) = e /\
  Kit_EdgeToInt_ e = Kit_EdgeToInt e /\ Kit_EdgeToInt e = (2 * Node e + Z.b2z (fCompl e))%Z.
Proof.
  intros He. destruct (int_to_edge e He) as [H1 H2]. destruct (edge_to_int e He) as [H3 H4]. done.
Qed.

Lemma edge_encoding_roundtrip_witness :
  Kit_IntToEdge (Kit_EdgeToInt {| fCompl := true; Node := 5 |}) = {| fCompl := true; Node := 5 |}.
Proof. apply (edge_encoding_roundtrip {| fCompl := true; Node := 5 |}). cbn. lia. Defined.
