(* ===== verification/Sop.v ===== *)
(** [kitSop.c]: covers as arrays of cubes, division by literals, cubes and covers, and the
    level-zero kernel.

    Here a cube is a set of literals: nothing depends on which variable and phase a bit
    stands for.  A cover is a record with the number of cubes in use and the storage they
    are written to, a region of the memory manager [vMemory].  [None] is a failed
    assertion, a cover whose storage is the null pointer because the memory is exhausted,
    or fuel that ran out; the theorems exclude the three. *)
From S2P Require Import Prelude Words TruthSupp VecInt Cube Isop.

(** * Inline routines of [kit.h] *)

Definition Kit_SopCubeNum (cSop : Kit_Sop_t) : Z := nCubes cSop.
Definition Kit_SopCube (cSop : Kit_Sop_t) (i : nat) : Z := (pCubes cSop).[i].
Definition Kit_SopShrink (cSop : Kit_Sop_t) (nCubesNew : Z) : Kit_Sop_t :=
  {| nLits := nLits cSop; nCubes := nCubesNew; pCubes := pCubes cSop |}.
Definition Kit_SopPushCube (cSop : Kit_Sop_t) (uCube : Z) : Kit_Sop_t :=
  {| nLits := nLits cSop; nCubes := (nCubes cSop + 1)%Z; pCubes := (pCubes cSop).[Z.to_nat (nCubes cSop) <- uCube] |}.
Definition Kit_SopWriteCube (cSop : Kit_Sop_t) (uCube : Z) (i : nat) : Kit_Sop_t :=
  {| nLits := nLits cSop; nCubes := nCubes cSop; pCubes := (pCubes cSop).[i <- uCube] |}.

(** [cResult->nCubes = 0; cResult->pCubes = Vec_IntFetch( vMemory, n );]  For no cubes the
    null pointer is never followed. *)
Definition new_cover (vMemory : Vec_Int_t) (n : Z) : option (Kit_Sop_t * Vec_Int_t) :=
  match Vec_IntFetch vMemory n with
  | (Some p, vMemory) => Some ({| nLits := 0; nCubes := 0; pCubes := p |}, vMemory)
  | (None, vMemory) =>
    if (n =? 0)%Z then Some ({| nLits := 0; nCubes := 0; pCubes := [] |}, vMemory) else None
  end.

(** [Kit_SopForEachCube]: the loop over the cubes also stops at a zero cube.  The cover is
    read from the state, which the body may change; [k] bounds the iterations. *)
Fixpoint sop_loop {A} (get : A -> Kit_Sop_t) (body : nat -> Z -> A -> option A) (k i : nat) (a : A) : option A :=
  match k with
  | O => Some a
  | S k =>
    let uCube := Kit_SopCube (get a) i in
    if (Z.of_nat i <? nCubes (get a))%Z && negb (uCube =? 0)%Z then
      a ← body i uCube a; sop_loop get body k (S i) a
    else Some a
  end.
Definition Kit_SopForEachCube {A} (get : A -> Kit_Sop_t) (body : nat -> Z -> A -> option A) (a : A) : option A :=
  sop_loop get body (Z.to_nat (nCubes (get a))) 0 a.

(** The same loop with a body that only breaks: the final value of the counter. *)
Definition first_cube (cSop : Kit_Sop_t) (c : nat -> Z -> bool) : nat :=
  match find (fun i => (Kit_SopCube cSop i =? 0)%Z || c i (Kit_SopCube cSop i)) (seq 0 (Z.to_nat (nCubes cSop))) with
  | Some i => i
  | None => Z.to_nat (nCubes cSop)
  end.

(** * The routines *)

Definition Kit_SopCreate (vInput : list Z) (nVars : nat) (vMemory : Vec_Int_t) : option (Kit_Sop_t * Vec_Int_t) :=
  '(cResult, vMemory) ← new_cover vMemory (Z.of_nat (length vInput));
  Some (for_up (length vInput) (fun i cResult => Kit_SopPushCube cResult vInput.[i]) cResult, vMemory).

(** The input may be the first words of the memory itself. *)
Definition Kit_SopCreateInverse (vInput : list Z) (nLits : nat) (vMemory : Vec_Int_t) : option (Kit_Sop_t * Vec_Int_t) :=
  '(cResult, vMemory) ← new_cover vMemory (Z.of_nat (length vInput));
  Some (for_up (length vInput) (fun i cResult =>
    let uCube := vInput.[i] in
    let uMask := ((uCube ||| (uCube >>> 1)) &&& 0x55555555)%Z in
    let uMask := (uMask ||| (uMask <<< 1))%Z in
    Kit_SopPushCube cResult (uCube ^^^ uMask)) cResult, vMemory).

Definition Kit_SopDup (cSop : Kit_Sop_t) (vMemory : Vec_Int_t) : option (Kit_Sop_t * Vec_Int_t) :=
  '(cResult, vMemory) ← new_cover vMemory (Kit_SopCubeNum cSop);
  s ← Kit_SopForEachCube fst (fun _ uCube '(cSop, cResult) => Some (cSop, Kit_SopPushCube cResult uCube)) (cSop, cResult);
  Some (s.2, vMemory).

Definition Kit_SopDivideByLiteralQuo (cSop : Kit_Sop_t) (iLit : nat) : option Kit_Sop_t :=
  '(cSop, k) ← Kit_SopForEachCube fst (fun _ uCube '(cSop, k) =>
    Some (if Kit_CubeHasLit uCube iLit then (Kit_SopWriteCube cSop (Kit_CubeRemLit uCube iLit) k, S k) else (cSop, k)))
    (cSop, 0);
  Some (Kit_SopShrink cSop (Z.of_nat k)).

(** Returns the quotient, the remainder and the memory. *)
Definition Kit_SopDivideByCube (cSop cDiv : Kit_Sop_t) (vMemory : Vec_Int_t) : option (Kit_Sop_t * Kit_Sop_t * Vec_Int_t) :=
  assert! (Kit_SopCubeNum cDiv =? 1)%Z in
  let uDiv := Kit_SopCube cDiv 0 in
  '(vQuo, vMemory) ← new_cover vMemory (Kit_SopCubeNum cSop);
  '(vRem, vMemory) ← new_cover vMemory (Kit_SopCubeNum cSop);
  s ← Kit_SopForEachCube (fun s => s.1.1) (fun _ uCube '(cSop, vQuo, vRem) =>
    Some (if Kit_CubeContains uCube uDiv then (cSop, Kit_SopPushCube vQuo (Kit_CubeSharp uCube uDiv), vRem)
          else (cSop, vQuo, Kit_SopPushCube vRem uCube))) (cSop, vQuo, vRem);
  Some (s.1.2, s.2, vMemory).

(** The inner search of [Kit_SopDivideInternal]: the first cube of the cover that is not
    taken and is the product of the divisor cube and the quotient cube. *)
Definition matching_cube (cSop : Kit_Sop_t) (uDiv2 uQuo : Z) : nat :=
  first_cube cSop (fun _ uCube2 =>
    negb (Kit_CubeIsMarked uCube2) &&
    (Kit_CubeContains uCube2 uDiv2 && (uQuo =? Kit_CubeSharp uCube2 uDiv2)%Z)).

(** The body of its last loop over the divisor: marks the cube that matches. *)
Definition mark_match (k : nat) (uQuo : Z) (k2 : nat) (uDiv2 : Z) (s : Kit_Sop_t * Kit_Sop_t) : option (Kit_Sop_t * Kit_Sop_t) :=
  let '(cSop, cDiv) := s in
  if k2 =? k then Some (cSop, cDiv) else
  let i2 := matching_cube cSop uDiv2 uQuo in
  assert! (Z.of_nat i2 <? Kit_SopCubeNum cSop)%Z in
  Some (Kit_SopWriteCube cSop (Kit_CubeMark (Kit_SopCube cSop i2)) i2, cDiv).

(** The body of its outer loop, on the cover and the quotient. *)
Definition divide_cube (cDiv : Kit_Sop_t) (i : nat) (uCube : Z) (s : Kit_Sop_t * Kit_Sop_t) : option (Kit_Sop_t * Kit_Sop_t) :=
  let '(cSop, vQuo) := s in
  if Kit_CubeIsMarked uCube then Some s else
  let k := first_cube cDiv (fun _ uDiv => Kit_CubeContains uCube uDiv) in
  if (Z.of_nat k =? Kit_SopCubeNum cDiv)%Z then Some s else
  let uQuo := Kit_CubeSharp uCube (Kit_SopCube cDiv k) in
  let k2 := first_cube cDiv (fun k2 uDiv2 =>
    negb (k2 =? k) && (Z.of_nat (matching_cube cSop uDiv2 uQuo) =? Kit_SopCubeNum cSop)%Z) in
  if negb (Z.of_nat k2 =? Kit_SopCubeNum cDiv)%Z then Some s else
  let vQuo := Kit_SopPushCube vQuo uQuo in
  let cSop := Kit_SopWriteCube cSop (Kit_CubeMark uCube) i in
  cSop ← Kit_SopForEachCube snd (mark_match k uQuo) (cSop, cDiv);
  Some (cSop.1, vQuo).

(** Returns the cover (whose marks are gone), the quotient, the remainder and the memory. *)
Definition Kit_SopDivideInternal (cSop cDiv : Kit_Sop_t) (vMemory : Vec_Int_t)
  : option (Kit_Sop_t * Kit_Sop_t * Kit_Sop_t * Vec_Int_t) :=
  assert! (Kit_SopCubeNum cDiv <=? Kit_SopCubeNum cSop)%Z in
  if (Kit_SopCubeNum cDiv =? 1)%Z then
    '(vQuo, vRem, vMemory) ← Kit_SopDivideByCube cSop cDiv vMemory;
    Some (cSop, vQuo, vRem, vMemory)
  else
    '(vQuo, vMemory) ← new_cover vMemory (Kit_SopCubeNum cSop / Kit_SopCubeNum cDiv);
    '(cSop, vQuo) ← Kit_SopForEachCube fst (divide_cube cDiv) (cSop, vQuo);
    let nCubesRem := (Kit_SopCubeNum cSop - Kit_SopCubeNum vQuo * Kit_SopCubeNum cDiv)%Z in
    '(vRem, vMemory) ← new_cover vMemory nCubesRem;
    '(cSop, vRem) ← Kit_SopForEachCube fst (fun i uCube '(cSop, vRem) =>
      Some (if negb (Kit_CubeIsMarked uCube) then (cSop, Kit_SopPushCube vRem uCube)
            else (Kit_SopWriteCube cSop (Kit_CubeUnmark uCube) i, vRem))) (cSop, vRem);
    assert! (nCubesRem =? Kit_SopCubeNum vRem)%Z in
    Some (cSop, vQuo, vRem, vMemory).

Definition Kit_SopCommonCube (cSop : Kit_Sop_t) : option Z :=
  s ← Kit_SopForEachCube fst (fun _ uCube '(cSop, uMask) => Some (cSop, (uMask &&& uCube)%Z)) (cSop, (~~~ 0)%Z);
  Some s.2.

Definition Kit_SopMakeCubeFree (cSop : Kit_Sop_t) : option Kit_Sop_t :=
  uMask ← Kit_SopCommonCube cSop;
  if (uMask =? 0)%Z then Some cSop
  else Kit_SopForEachCube id (fun i uCube cSop => Some (Kit_SopWriteCube cSop (Kit_CubeSharp uCube uMask) i)) cSop.

Definition Kit_SopIsCubeFree (cSop : Kit_Sop_t) : option bool :=
  uMask ← Kit_SopCommonCube cSop; Some (uMask =? 0)%Z.

Definition Kit_SopCommonCubeCover (cSop : Kit_Sop_t) (vMemory : Vec_Int_t) : option (Kit_Sop_t * Vec_Int_t) :=
  assert! (0 <? Kit_SopCubeNum cSop)%Z in
  '(cResult, vMemory) ← new_cover vMemory 1;
  uMask ← Kit_SopCommonCube cSop;
  Some (Kit_SopPushCube cResult uMask, vMemory).

(** Number of cubes with the literal. *)
Definition count_literal (cSop : Kit_Sop_t) (i : nat) : option Z :=
  s ← Kit_SopForEachCube fst (fun _ uCube '(cSop, nLitsCur) =>
    Some (cSop, if Kit_CubeHasLit uCube i then (nLitsCur + 1)%Z else nLitsCur)) (cSop, 0%Z);
  Some s.2.

Fixpoint any_literal (cSop : Kit_Sop_t) (ls : list nat) : option Z :=
  match ls with
  | [] => Some (-1)%Z
  | i :: ls =>
    nLitsCur ← count_literal cSop i;
    if (1 <? nLitsCur)%Z then Some (Z.of_nat i) else any_literal cSop ls
  end.
Definition Kit_SopAnyLiteral (cSop : Kit_Sop_t) (nLits : nat) : option Z := any_literal cSop (seq 0 nLits).

(** Loops over the literals that keep a best value and its literal; the flag [fUseFirst]
    is 1 in both routines, so that the first of equal literals is kept. *)
Definition Kit_SopWorstLiteral (cSop : Kit_Sop_t) (nLits : nat) : option Z :=
  '(iMin, nLitsMin) ← for_up nLits (fun i s =>
    '(iMin, nLitsMin) ← s;
    nLitsCur ← count_literal cSop i;
    if (nLitsCur <? 2)%Z then Some (iMin, nLitsMin)
    else if (nLitsCur <? nLitsMin)%Z then Some (Z.of_nat i, nLitsCur)
    else Some (iMin, nLitsMin)) (Some (-1, 1000000)%Z);
  Some (if (nLitsMin <? 1000000)%Z then iMin else -1)%Z.

Definition Kit_SopBestLiteral (cSop : Kit_Sop_t) (nLits : nat) (uMask : Z) : option Z :=
  '(iMax, nLitsMax) ← for_up nLits (fun i s =>
    '(iMax, nLitsMax) ← s;
    if negb (Kit_CubeHasLit uMask i) then Some (iMax, nLitsMax)
    else
      nLitsCur ← count_literal cSop i;
      if (nLitsCur <? 2)%Z then Some (iMax, nLitsMax)
      else if (nLitsMax <? nLitsCur)%Z then Some (Z.of_nat i, nLitsCur)
      else Some (iMax, nLitsMax)) (Some (-1, -1)%Z);
  Some (if (0 <=? nLitsMax)%Z then iMax else -1)%Z.

Fixpoint Kit_SopDivisorZeroKernel_rec (fuel : nat) (cSop : Kit_Sop_t) (nLits : nat) : option Kit_Sop_t :=
  match fuel with
  | O => None
  | S fuel =>
    iLit ← Kit_SopWorstLiteral cSop nLits;
    if (iLit =? -1)%Z then Some cSop
    else
      cSop ← Kit_SopDivideByLiteralQuo cSop (Z.to_nat iLit);
      cSop ← Kit_SopMakeCubeFree cSop;
      Kit_SopDivisorZeroKernel_rec fuel cSop nLits
  end.

(** [None] in the answer is 0: there is no divisor other than trivial. *)
Definition Kit_SopDivisor (fuel : nat) (cSop : Kit_Sop_t) (nLits : nat) (vMemory : Vec_Int_t)
  : option (option Kit_Sop_t * Vec_Int_t) :=
  if (Kit_SopCubeNum cSop <=? 1)%Z then Some (None, vMemory)
  else
    iLit ← Kit_SopAnyLiteral cSop nLits;
    if (iLit =? -1)%Z then Some (None, vMemory)
    else
      '(cResult, vMemory) ← Kit_SopDup cSop vMemory;
      cResult ← Kit_SopDivisorZeroKernel_rec fuel cResult nLits;
      assert! (0 <? Kit_SopCubeNum cResult)%Z in
      Some (Some cResult, vMemory).

(** A shift by -1, when there is no literal, is a failure here. *)
Definition Kit_SopBestLiteralCover (cSop : Kit_Sop_t) (uCube : Z) (nLits : nat) (vMemory : Vec_Int_t)
  : option (Kit_Sop_t * Vec_Int_t) :=
  iLitBest ← Kit_SopBestLiteral cSop nLits uCube;
  '(cResult, vMemory) ← new_cover vMemory 1;
  assert! (0 <=? iLitBest)%Z in
  Some (Kit_SopPushCube cResult (Kit_CubeSetLit 0 (Z.to_nat iLitBest)), vMemory).

(** * Covers as lists of cubes *)

(** The cubes in use are [cs]. *)
Definition rep (s : Kit_Sop_t) (cs : list Z) : Prop :=
  nCubes s = Z.of_nat (length cs) /\ take (length cs) (pCubes s) = cs.

Definition nonzero (cs : list Z) : Prop := Forall (fun c => c <> 0%Z) cs.

Lemma rep_room s cs : rep s cs -> length cs <= length (pCubes s).
Proof. intros [_ H]. apply (f_equal length) in H. rewrite length_take in H. lia. Qed.

Lemma rep_num s cs : rep s cs -> Z.to_nat (nCubes s) = length cs.
Proof. intros [H _]. lia. Qed.

Lemma rep_lookup s cs i : rep s cs -> i < length cs -> cs !! i = Some (Kit_SopCube s i).
Proof.
  intros [_ H] Hi. rewrite <- H at 1. rewrite lookup_take, decide_True by done.
  unfold Kit_SopCube. rewrite rd_lookup.
  destruct (pCubes s !! i) eqn:E; [done|]. apply lookup_ge_None in E.
  apply (f_equal length) in H. rewrite length_take in H. lia.
Qed.

Lemma rep_cube s cs i u : rep s cs -> cs !! i = Some u -> Kit_SopCube s i = u.
Proof. intros H Hi. pose proof (lookup_lt_Some _ _ _ Hi). rewrite (rep_lookup s cs) in Hi by done. congruence. Qed.

Lemma rep_write s cs i u : rep s cs -> i < length cs -> rep (Kit_SopWriteCube s u i) (<[i := u]> cs).
Proof.
  intros [H1 H2] Hi. split; cbn [Kit_SopWriteCube nCubes pCubes]; rewrite length_insert; [done|].
  unfold wr. by rewrite take_insert_lt, H2.
Qed.

Lemma rep_push s cs u : rep s cs -> length cs < length (pCubes s) ->
  rep (Kit_SopPushCube s u) (cs ++ [u]) /\ length (pCubes (Kit_SopPushCube s u)) = length (pCubes s).
Proof.
  intros [H1 H2] Hl. split; [|apply length_wr]. split; cbn [Kit_SopPushCube nCubes pCubes].
  - rewrite length_app, H1. cbn. lia.
  - rewrite H1, Nat2Z.id, length_app. cbn [length]. unfold wr.
    rewrite Nat.add_1_r. erewrite take_S_r by (apply list_lookup_insert_eq; lia).
    by rewrite take_insert_ge, H2 by lia.
Qed.

Lemma rep_shrink s cs k : rep s cs -> k <= length cs -> rep (Kit_SopShrink s (Z.of_nat k)) (take k cs).
Proof.
  intros [H1 H2] Hk. split; cbn [Kit_SopShrink nCubes pCubes]; rewrite length_take; [lia|].
  rewrite <- H2 at 2. by rewrite take_take.
Qed.

(** Running a loop that visits every cube. *)
Lemma each_rule {A} (get : A -> Kit_Sop_t) body (I : nat -> A -> Prop) n a :
  nCubes (get a) = Z.of_nat n -> I 0 a ->
  (forall i a, i < n -> I i a -> nCubes (get a) = Z.of_nat n /\ Kit_SopCube (get a) i <> 0%Z /\
     exists a', body i (Kit_SopCube (get a) i) a = Some a' /\ I (S i) a') ->
  exists a', Kit_SopForEachCube get body a = Some a' /\ I n a'.
Proof.
  intros Hn H0 HS. unfold Kit_SopForEachCube. rewrite Hn, Nat2Z.id.
  assert (forall k i a, i + k = n -> I i a -> exists a', sop_loop get body k i a = Some a' /\ I n a') as H; [|by apply H].
  induction k as [|k IH]; intros i b Hi Hb; cbn [sop_loop].
  - exists b. split; [done|]. by replace n with i by lia.
  - destruct (HS i b ltac:(lia) Hb) as (Hn' & Hz & b' & Eb & Hb').
    rewrite Hn', (proj2 (Z.ltb_lt _ _)), (proj2 (Z.eqb_neq _ _) Hz) by lia. cbn [andb negb].
    rewrite Eb. cbn [mbind option_bind]. apply IH; [lia|done].
Qed.

Lemma nonzero_lookup cs i u : nonzero cs -> cs !! i = Some u -> u <> 0%Z.
Proof. intros H Hi. by apply (Forall_lookup_1 _ _ _ _ H Hi). Qed.

(** A loop that accumulates over the cubes. *)
Lemma each_fold {B} s cs (f : B -> Z -> B) x :
  rep s cs -> nonzero cs ->
  Kit_SopForEachCube fst (fun _ u '(s, x) => Some (s, f x u)) (s, x) = Some (s, fold_left f cs x).
Proof.
  intros Hr Hz.
  destruct (each_rule fst (fun _ u '(s, x) => Some (s, f x u)) (fun i a => a = (s, fold_left f (take i cs) x))
    (length cs) (s, x)) as (a' & -> & ->); [apply Hr|done| |by rewrite take_ge].
  intros i a Hi ->. cbn [fst]. split; [apply Hr|]. pose proof (rep_lookup s cs i Hr Hi) as E.
  split; [by eapply nonzero_lookup|]. eexists. split; [done|].
  by rewrite (take_S_r _ _ _ E), fold_left_app.
Qed.

(** The counter after a loop that breaks at the first cube with [c]. *)
Lemma first_cube_spec s cs c : rep s cs -> nonzero cs ->
  (first_cube s c = length cs /\ forall i u, cs !! i = Some u -> c i u = false) \/
  (exists u, cs !! first_cube s c = Some u /\ c (first_cube s c) u = true /\
     forall j v, j < first_cube s c -> cs !! j = Some v -> c j v = false).
Proof.
  intros Hr Hz. unfold first_cube. rewrite (rep_num s cs Hr).
  destruct (find _ _) as [i|] eqn:E.
  - apply find_seq_Some in E as (Hi & Hc & Hm). right. pose proof (rep_lookup s cs i Hr ltac:(lia)) as Eu.
    eexists. split; [done|]. split.
    + apply orb_true_iff in Hc as [Hc%Z.eqb_eq|Hc]; [|done]. by apply (nonzero_lookup _ _ _ Hz) in Eu.
    + intros j v Hj Ev. specialize (Hm j ltac:(lia)). apply orb_false_iff in Hm as [_ Hm].
      by rewrite (rep_cube s cs j v Hr Ev) in Hm.
  - left. split; [done|]. intros i u Eu. pose proof (lookup_lt_Some _ _ _ Eu).
    eapply find_seq_None in E; [|split; [apply Nat.le_0_l|done]].
    apply orb_false_iff in E as [_ E]. by rewrite (rep_cube s cs i u Hr Eu) in E.
Qed.

(** A new cover: empty, with room for [n] cubes. *)
Lemma new_cover_spec V n :
  (nSize V + Z.of_nat n <= nCap V)%Z ->
  exists s V', new_cover V (Z.of_nat n) = Some (s, V') /\ rep s [] /\ length (pCubes s) = n /\ fetched V V' (Z.of_nat n).
Proof.
  intros Hc. unfold new_cover. destruct n as [|n].
  - cbn. eexists _, V. split; [done|]. split; [done|]. split; [done|]. apply fetched_0.
  - destruct (Vec_IntFetch_Some V (Z.of_nat (S n)) ltac:(lia) Hc) as (r & V' & E & Hl). rewrite E.
    eexists _, V'. split; [done|]. split; [done|]. split; [|by eapply Vec_IntFetch_fetched].
    cbn [pCubes]. lia.
Qed.

(** * The simple routines *)

Definition words (cs : list Z) : Prop := Forall is_word cs.

Lemma push_all (f : nat -> Z) n s cs :
  rep s cs -> length cs + n <= length (pCubes s) ->
  rep (for_up n (fun i s => Kit_SopPushCube s (f i)) s) (cs ++ map f (seq 0 n)).
Proof.
  intros Hr Hl.
  assert (forall k, k <= n -> rep (for_up k (fun i s => Kit_SopPushCube s (f i)) s) (cs ++ map f (seq 0 k)) /\
    length (pCubes (for_up k (fun i s => Kit_SopPushCube s (f i)) s)) = length (pCubes s)) as H; [|by apply H].
  induction k as [|k IH]; intros Hk; [by rewrite app_nil_r|].
  destruct (IH ltac:(lia)) as [IH1 IH2]. rewrite for_up_S.
  destruct (rep_push _ _ (f k) IH1) as [P1 P2]; [rewrite length_app, length_map, length_seq; lia|].
  rewrite seq_S, map_app, app_assoc. split; [done|]. by rewrite P2.
Qed.

Lemma SopCreate_spec vInput nVars V :
  (nSize V + Z.of_nat (length vInput) <= nCap V)%Z ->
  exists s V', Kit_SopCreate vInput nVars V = Some (s, V') /\ rep s vInput /\ fetched V V' (Z.of_nat (length vInput)).
Proof.
  intros Hc. unfold Kit_SopCreate. destruct (new_cover_spec V _ Hc) as (s & V' & -> & Hr & Hl & Hf).
  cbn [mbind option_bind]. eexists _, _. split; [done|]. split; [|done].
  pose proof (push_all (fun i => vInput.[i]) (length vInput) s [] Hr) as H. cbn in H.
  rewrite (map_rd_seq (fun c => c)), map_id in H. apply H. lia.
Qed.

(** The cube with the two literals of every variable exchanged. *)
Definition inverse_cube (uCube : Z) : Z :=
  let uMask := ((uCube ||| (uCube >>> 1)) &&& 0x55555555)%Z in
  let uMask := (uMask ||| (uMask <<< 1))%Z in uCube ^^^ uMask.

Lemma SopCreateInverse_spec vInput nLits V :
  (nSize V + Z.of_nat (length vInput) <= nCap V)%Z ->
  exists s V', Kit_SopCreateInverse vInput nLits V = Some (s, V') /\ rep s (map inverse_cube vInput) /\
    fetched V V' (Z.of_nat (length vInput)).
Proof.
  intros Hc. unfold Kit_SopCreateInverse. destruct (new_cover_spec V _ Hc) as (s & V' & -> & Hr & Hl & Hf).
  cbn [mbind option_bind]. eexists _, _. split; [done|]. split; [|done].
  pose proof (push_all (fun i => inverse_cube vInput.[i]) (length vInput) s [] Hr) as H. cbn in H.
  rewrite (map_rd_seq inverse_cube) in H. apply H. lia.
Qed.

Lemma fold_push cs : forall s ds, rep s ds -> length ds + length cs <= length (pCubes s) ->
  rep (fold_left Kit_SopPushCube cs s) (ds ++ cs).
Proof.
  induction cs as [|c cs IH]; intros s ds Hr Hl; [by rewrite app_nil_r|]. cbn [fold_left length] in *.
  destruct (rep_push s ds c Hr) as [P1 P2]; [lia|].
  replace (ds ++ c :: cs) with ((ds ++ [c]) ++ cs) by by rewrite <- app_assoc.
  apply IH; [done|]. rewrite length_app, P2. cbn. lia.
Qed.

Lemma SopDup_spec s cs V : rep s cs -> nonzero cs -> (nSize V + Z.of_nat (length cs) <= nCap V)%Z ->
  exists s' V', Kit_SopDup s V = Some (s', V') /\ rep s' cs /\ fetched V V' (Z.of_nat (length cs)).
Proof.
  intros Hr Hz Hc. unfold Kit_SopDup, Kit_SopCubeNum. rewrite (proj1 Hr).
  destruct (new_cover_spec V _ Hc) as (s0 & V' & -> & Hr0 & Hl & Hf). cbn [mbind option_bind].
  rewrite (each_fold s cs Kit_SopPushCube s0 Hr Hz). cbn [mbind option_bind snd].
  eexists _, _. split; [done|]. split; [|done]. apply (fold_push cs s0 []); [done|]. cbn. lia.
Qed.

Definition quo_lit (i : nat) (cs : list Z) : list Z :=
  map (fun c => Kit_CubeRemLit c i) (List.filter (fun c => Kit_CubeHasLit c i) cs).

Lemma DivideByLiteralQuo_spec s cs i : rep s cs -> nonzero cs ->
  exists s', Kit_SopDivideByLiteralQuo s i = Some s' /\ rep s' (quo_lit i cs).
Proof.
  intros Hr Hz. unfold Kit_SopDivideByLiteralQuo.
  destruct (each_rule fst (fun _ uCube '(cSop, k) =>
    Some (if Kit_CubeHasLit uCube i then (Kit_SopWriteCube cSop (Kit_CubeRemLit uCube i) k, S k) else (cSop, k)))
    (fun j '(s', k) => nCubes s' = Z.of_nat (length cs) /\ length (pCubes s') = length (pCubes s) /\
       k = length (quo_lit i (take j cs)) /\ k <= j /\ take k (pCubes s') = quo_lit i (take j cs) /\
       forall l u, j <= l -> cs !! l = Some u -> Kit_SopCube s' l = u) (length cs) (s, 0)) as ([s' k] & -> & H).
  - apply Hr.
  - split; [apply Hr|]. repeat (split; [done|]). intros l u _ El. by apply (rep_cube s cs).
  - intros j [s' k] Hj (Hn & Hl & Hk & Hle & Ht & Hrest). cbn [fst]. split; [done|].
    destruct (lookup_lt_is_Some_2 cs j Hj) as [u Eu]. rewrite (Hrest j u) by done.
    split; [by eapply nonzero_lookup|]. eexists. split; [done|]. pose proof (rep_room s cs Hr).
    assert (quo_lit i (take (S j) cs) = quo_lit i (take j cs) ++ quo_lit i [u]) as Eq.
    { unfold quo_lit. by rewrite (take_S_r _ _ _ Eu), List.filter_app, map_app. }
    rewrite Eq. unfold quo_lit at 2 4. cbn [List.filter].
    destruct (Kit_CubeHasLit u i); cbn [map]; rewrite ?app_nil_r, ?length_app.
    + cbn [Kit_SopWriteCube nCubes pCubes length]. rewrite length_wr. repeat (split; [done || lia|]).
      split.
      * unfold wr. erewrite take_S_r by (apply list_lookup_insert_eq; lia). by rewrite take_insert_ge, Ht by lia.
      * intros l v Hlv Ev. unfold Kit_SopCube. cbn [Kit_SopWriteCube pCubes]. rewrite rd_wr_ne by lia. apply (Hrest l v); [lia|done].
    + repeat (split; [done || lia|]). intros l v Hlv Ev. apply (Hrest l v); [lia|done].
  - destruct H as (Hn & Hl & Hk & Hle & Ht & _). cbn [mbind option_bind]. eexists. split; [done|].
    rewrite (take_ge cs) in Hk, Ht by done. split; cbn [Kit_SopShrink nCubes pCubes]; [by rewrite Hk|]. by rewrite <- Hk.
Qed.

Lemma DivideByCube_spec s cs sd d V :
  rep s cs -> nonzero cs -> rep sd [d] -> (nSize V + 2 * Z.of_nat (length cs) <= nCap V)%Z ->
  exists sq sr V', Kit_SopDivideByCube s sd V = Some (sq, sr, V') /\
    rep sq (map (fun c => Kit_CubeSharp c d) (List.filter (fun c => Kit_CubeContains c d) cs)) /\
    rep sr (List.filter (fun c => negb (Kit_CubeContains c d)) cs) /\ fetched V V' (2 * Z.of_nat (length cs)).
Proof.
  intros Hr Hz Hd Hc. unfold Kit_SopDivideByCube, Kit_SopCubeNum. rewrite (proj1 Hd), (proj1 Hr). cbn [length Z.of_nat Z.eqb].
  rewrite (rep_cube sd [d] 0 d Hd eq_refl).
  destruct (new_cover_spec V (length cs)) as (sq & V1 & -> & Hq & Lq & F1); [lia|]. cbn [mbind option_bind].
  destruct (new_cover_spec V1 (length cs)) as (sr & V2 & -> & Hr2 & Lr & F2);
    [destruct F1 as (E1 & _ & E2); lia|]. cbn [mbind option_bind].
  set (Q := fun cs => map (fun c => Kit_CubeSharp c d) (List.filter (fun c => Kit_CubeContains c d) cs)).
  set (R := fun cs => List.filter (fun c => negb (Kit_CubeContains c d)) cs).
  assert (forall l, length (Q l) <= length l /\ length (R l) <= length l) as HL.
  { intros l. unfold Q, R. rewrite length_map. split; apply filter_length_le. }
  destruct (each_rule (fun s : Kit_Sop_t * Kit_Sop_t * Kit_Sop_t => s.1.1) (fun _ uCube '(cSop, vQuo, vRem) =>
    Some (if Kit_CubeContains uCube d then (cSop, Kit_SopPushCube vQuo (Kit_CubeSharp uCube d), vRem)
          else (cSop, vQuo, Kit_SopPushCube vRem uCube)))
    (fun i '(s', q, r) => s' = s /\ rep q (Q (take i cs)) /\ rep r (R (take i cs)) /\
       length (pCubes q) = length cs /\ length (pCubes r) = length cs) (length cs) (s, sq, sr)) as ([[s' q] r] & -> & H).
  - apply Hr.
  - done.
  - intros i [[s' q] r] Hi (-> & Pq & Pr & Llq & Llr). cbn [fst]. split; [apply Hr|].
    pose proof (rep_lookup s cs i Hr Hi) as Eu. set (u := Kit_SopCube s i) in *.
    split; [by eapply nonzero_lookup|]. eexists. split; [done|].
    assert (Q (take (S i) cs) = Q (take i cs) ++ Q [u]) as ->
      by (unfold Q; by rewrite (take_S_r _ _ _ Eu), List.filter_app, map_app).
    assert (R (take (S i) cs) = R (take i cs) ++ R [u]) as ->
      by (unfold R; by rewrite (take_S_r _ _ _ Eu), List.filter_app).
    destruct (HL (take i cs)) as [HQ HR]. rewrite length_take in HQ, HR.
    unfold Q at 2, R at 2. cbn [List.filter].
    destruct (Kit_CubeContains u d); cbn [map negb]; rewrite ?app_nil_r.
    + destruct (rep_push q _ (Kit_CubeSharp u d) Pq) as [? ->]; [lia|]. done.
    + destruct (rep_push r _ u Pr) as [? ->]; [lia|]. done.
  - destruct H as (_ & Pq & Pr & _). rewrite take_ge in Pq, Pr by done. cbn [mbind option_bind].
    eexists _, _, _. split; [done|]. split; [done|]. split; [done|].
    replace (2 * Z.of_nat (length cs))%Z with (Z.of_nat (length cs) + Z.of_nat (length cs))%Z by lia.
    by eapply fetched_trans.
Qed.

(** The literals that all cubes have. *)
Definition common (cs : list Z) : Z := fold_left Z.land cs (~~~ 0)%Z.

Lemma CommonCube_spec s cs : rep s cs -> nonzero cs -> Kit_SopCommonCube s = Some (common cs).
Proof.
  intros Hr Hz. unfold Kit_SopCommonCube. by rewrite (each_fold s cs Z.land (~~~ 0)%Z Hr Hz).
Qed.

Lemma fold_land_bit cs x i : Z.testbit (fold_left Z.land cs x) i = Z.testbit x i && forallb (fun c => Z.testbit c i) cs.
Proof.
  revert x. induction cs as [|c cs IH]; intros x; cbn [fold_left forallb]; [by rewrite andb_true_r|].
  rewrite IH, Z.land_spec. by rewrite andb_assoc.
Qed.

Lemma common_bit cs i : i < 32 ->
  Z.testbit (common cs) (Z.of_nat i) = forallb (fun c => Z.testbit c (Z.of_nat i)) cs.
Proof. intros Hi. unfold common. rewrite fold_land_bit, testbit_wnot by done. by rewrite Z.testbit_0_l. Qed.

Lemma word_common cs : words cs -> is_word (common cs).
Proof.
  unfold common. intros H. generalize (word_wnot 0). generalize (~~~ 0)%Z as x.
  induction H as [|c cs Hc Hcs IH]; intros x Hx; [done|]. cbn [fold_left]. apply IH. by apply word_land.
Qed.

Definition cube_free (cs : list Z) : list Z := map (fun c => Kit_CubeSharp c (common cs)) cs.

Lemma Sharp_0 c : is_word c -> Kit_CubeSharp c 0 = c.
Proof.
  intros Hc. apply word_ext; auto with words. intros b Hb. rewrite testbit_Sharp, Z.testbit_0_l by done.
  apply andb_true_r.
Qed.

Lemma map_words (f : Z -> Z) cs : words cs -> (forall c, is_word c -> f c = c) -> map f cs = cs.
Proof. intros H Hf. induction H as [|c cs Hc Hcs IH]; [done|]. cbn [map]. by rewrite IH, Hf. Qed.

Lemma MakeCubeFree_spec s cs : rep s cs -> nonzero cs -> words cs ->
  exists s', Kit_SopMakeCubeFree s = Some s' /\ rep s' (cube_free cs).
Proof.
  intros Hr Hz Hw. unfold Kit_SopMakeCubeFree. rewrite (CommonCube_spec s cs Hr Hz). cbn [mbind option_bind].
  unfold cube_free. destruct (Z.eqb_spec (common cs) 0) as [-> | Hne].
  { exists s. split; [done|]. rewrite map_words; [done|done|]. apply Sharp_0. }
  set (f := fun c => Kit_CubeSharp c (common cs)).
  destruct (each_rule id (fun i uCube cSop => Some (Kit_SopWriteCube cSop (f uCube) i))
    (fun i s' => rep s' (map f (take i cs) ++ drop i cs)) (length cs) s) as (s' & E & H).
  - apply Hr.
  - by rewrite take_0, drop_0.
  - intros i s' Hi Hs. destruct (lookup_lt_is_Some_2 cs i Hi) as [u Eu].
    assert ((map f (take i cs) ++ drop i cs) !! i = Some u) as Ei.
    { rewrite lookup_app_r by (rewrite length_map, length_take; lia). rewrite length_map, length_take, lookup_drop.
      rewrite Nat.min_l by lia. rewrite <- Eu. f_equal. lia. }
    unfold id. rewrite (rep_cube _ _ _ _ Hs Ei). split.
    { rewrite (proj1 Hs), length_app, length_map, length_take, length_drop. lia. }
    split; [by eapply nonzero_lookup|]. eexists. split; [done|].
    pose proof (rep_write s' _ i (f u) Hs) as Hw'. rewrite length_app, length_map, length_take, length_drop in Hw'.
    specialize (Hw' ltac:(lia)). rewrite (take_S_r _ _ _ Eu), map_app, <- app_assoc. cbn [map app].
    rewrite (drop_S cs u i Eu) in Hw'.
    replace i with (length (map f (take i cs)) + 0) in Hw' at 2 by (rewrite length_map, length_take; lia).
    by rewrite insert_app_r in Hw'.
  - rewrite take_ge, drop_ge, app_nil_r in H by done. by exists s'.
Qed.

(** * Choosing a literal *)

(** Number of cubes with literal [i]. *)
Definition occ (cs : list Z) (i : nat) : Z := Z.of_nat (length (List.filter (fun c => Kit_CubeHasLit c i) cs)).

Lemma count_literal_spec s cs i : rep s cs -> nonzero cs -> count_literal s i = Some (occ cs i).
Proof.
  intros Hr Hz. unfold count_literal.
  rewrite (each_fold s cs (fun n u => if Kit_CubeHasLit u i then (n + 1)%Z else n) 0%Z Hr Hz). cbn [mbind option_bind snd].
  f_equal. unfold occ. clear.
  assert (forall x, fold_left (fun n u => if Kit_CubeHasLit u i then (n + 1)%Z else n) cs x =
    (x + Z.of_nat (length (List.filter (fun c => Kit_CubeHasLit c i) cs)))%Z) as H; [|apply H].
  induction cs as [|c cs IH]; intros x; [cbn; lia|]. cbn [fold_left List.filter].
  rewrite IH. destruct (Kit_CubeHasLit c i); cbn [length]; lia.
Qed.

Lemma any_literal_spec s cs n0 n : rep s cs -> nonzero cs ->
  (any_literal s (seq n0 n) = Some (-1)%Z /\ forall i, n0 <= i < n0 + n -> (occ cs i <= 1)%Z) \/
  exists i, any_literal s (seq n0 n) = Some (Z.of_nat i) /\ n0 <= i < n0 + n /\ (1 < occ cs i)%Z /\
    forall j, n0 <= j < i -> (occ cs j <= 1)%Z.
Proof.
  intros Hr Hz. revert n0. induction n as [|n IH]; intros n0; cbn [seq any_literal].
  - left. split; [done|lia].
  - rewrite (count_literal_spec s cs n0 Hr Hz). cbn [mbind option_bind].
    destruct (Z.ltb_spec 1 (occ cs n0)).
    + right. exists n0. repeat split; try lia.
    + destruct (IH (S n0)) as [[-> H1]|(i & -> & Hi & Ho & Hm)].
      * left. split; [done|]. intros i Hi. destruct (decide (i = n0)) as [-> | ]; [done|]. apply H1. lia.
      * right. exists i. repeat split; try done; try lia. intros j Hj.
        destruct (decide (j = n0)) as [-> | ]; [done|]. apply Hm. lia.
Qed.

Lemma WorstLiteral_spec s cs nLits : rep s cs -> nonzero cs ->
  exists best var, Kit_SopWorstLiteral s nLits = Some (if (best <? 1000000)%Z then var else -1)%Z /\
    first_min nLits (occ cs) (fun i => 2 <=? occ cs i)%Z 1000000 best var.
Proof.
  intros Hr Hz. unfold Kit_SopWorstLiteral.
  match goal with |- context [for_up nLits ?b _] => set (body := b) end.
  assert (exists best var, for_up nLits body (Some (-1, 1000000)%Z) = Some (var, best) /\
    first_min nLits (occ cs) (fun i => 2 <=? occ cs i)%Z 1000000 best var) as (best & var & -> & H);
    [|by exists best, var].
  apply (for_up_ind (fun n s' => exists best var, s' = Some (var, best) /\
    first_min n (occ cs) (fun i => 2 <=? occ cs i)%Z 1000000 best var)).
  - eexists _, _. split; [done|]. left. split; [done|lia].
  - intros i _ Hi (best & var & -> & H). unfold body. cbn [mbind option_bind].
    rewrite (count_literal_spec s cs i Hr Hz). cbn [mbind option_bind].
    destruct (Z.ltb_spec (occ cs i) 2); [|destruct (Z.ltb_spec (occ cs i) best)]; eexists _, _; (split; [done|]).
    + apply first_min_keep; [done|]. intros E%Z.leb_le. lia.
    + eapply first_min_take; [done|by apply Z.leb_le|done].
    + by apply first_min_keep.
Qed.

Lemma BestLiteral_spec s cs nLits uMask : rep s cs -> nonzero cs ->
  exists best var, Kit_SopBestLiteral s nLits uMask = Some (if (best <=? 0)%Z then var else -1)%Z /\
    first_min nLits (fun i => - occ cs i)%Z (fun i => Kit_CubeHasLit uMask i && (2 <=? occ cs i)%Z) 1 best var.
Proof.
  intros Hr Hz. unfold Kit_SopBestLiteral.
  match goal with |- context [for_up nLits ?b _] => set (body := b) end.
  assert (exists best var, for_up nLits body (Some (-1, -1)%Z) = Some (var, - best)%Z /\
    first_min nLits (fun i => - occ cs i)%Z (fun i => Kit_CubeHasLit uMask i && (2 <=? occ cs i)%Z) 1 best var)
    as (best & var & -> & H).
  2:{ exists best, var. split; [|done]. cbn [mbind option_bind]. do 2 f_equal. f_equal.
      destruct (Z.leb_spec 0 (- best)), (Z.leb_spec best 0); done || lia. }
  apply (for_up_ind (fun n s' => exists best var, s' = Some (var, - best)%Z /\
    first_min n (fun i => - occ cs i)%Z (fun i => Kit_CubeHasLit uMask i && (2 <=? occ cs i)%Z) 1 best var)).
  - exists 1%Z, (-1)%Z. split; [done|]. left. split; [done|]. intros; lia.
  - intros i _ Hi (best & var & -> & H). unfold body. cbn [mbind option_bind].
    destruct (Kit_CubeHasLit uMask i) eqn:El; cbn [negb].
    2:{ eexists best, _; split; [done|]. apply first_min_keep; [done|]. by rewrite El. }
    rewrite (count_literal_spec s cs i Hr Hz). cbn [mbind option_bind].
    destruct (Z.ltb_spec (occ cs i) 2).
    { eexists best, _; split; [done|]. apply first_min_keep; [done|]. rewrite El. intros E%Z.leb_le. lia. }
    destruct (Z.ltb_spec (- best) (occ cs i)).
    + exists (- occ cs i)%Z, (Z.of_nat i). split; [by rewrite Z.opp_involutive|].
      eapply (first_min_take i (fun i => - occ cs i)%Z); [done| |lia]. rewrite El. by apply Z.leb_le.
    + eexists best, _; split; [done|]. apply first_min_keep; [done|]. intros. lia.
Qed.

(** * Properties *)

(** Choosing a literal in a cover of non-zero cubes: [Kit_SopAnyLiteral] returns the first literal
    that is in two cubes or more, [Kit_SopWorstLiteral] the first of those that are in the fewest cubes,
    [Kit_SopBestLiteral] the first of those allowed by the mask that are in the most cubes; each returns
    -1 when there is none. *)
Theorem literal_choice_correct s cs nLits uMask :
  rep s cs -> nonzero cs -> (Z.of_nat (length cs) < 1000000)%Z ->
  let often i := i < nLits /\ (2 <= occ cs i)%Z in
  let allowed i := often i /\ Kit_CubeHasLit uMask i = true in
  (exists r, Kit_SopAnyLiteral s nLits = Some r /\
     ((r = (-1)%Z /\ forall i, ~ often i) \/
      exists i, r = Z.of_nat i /\ often i /\ forall j, j < i -> ~ often j)) /\
  (exists r, Kit_SopWorstLiteral s nLits = Some r /\
     ((r = (-1)%Z /\ forall i, ~ often i) \/
      exists i, r = Z.of_nat i /\ often i /\
        forall j, often j -> (occ cs i <= occ cs j)%Z /\ (j < i -> (occ cs i < occ cs j)%Z))) /\
  (exists r, Kit_SopBestLiteral s nLits uMask = Some r /\
     ((r = (-1)%Z /\ forall i, ~ allowed i) \/
      exists i, r = Z.of_nat i /\ allowed i /\
        forall j, allowed j -> (occ cs j <= occ cs i)%Z /\ (j < i -> (occ cs j < occ cs i)%Z))).
Proof.
  intros Hr Hz Hl. cbv zeta.
  assert (forall i, (occ cs i <= Z.of_nat (length cs))%Z) as Hocc
    by (intros i; unfold occ; pose proof (filter_length_le (fun c => Kit_CubeHasLit c i) cs); lia).
  split; [|split].
  - unfold Kit_SopAnyLiteral. destruct (any_literal_spec s cs 0 nLits Hr Hz) as [[-> H]|(i & -> & Hi & Ho & H)];
      (eexists; split; [done|]).
    + left. split; [done|]. intros i [Hi Ho]. specialize (H i ltac:(lia)). lia.
    + right. exists i. split; [done|]. split; [lia|]. intros j Hj [_ Ho']. specialize (H j ltac:(lia)). lia.
  - destruct (WorstLiteral_spec s cs nLits Hr Hz) as (best & var & -> & H). eexists. split; [done|].
    destruct H as [[[-> ->] H]|(i & -> & -> & Hi & He & H1 & H2 & H3)].
    + left. split; [done|]. intros i [Hi Ho]. specialize (H i Hi). rewrite Z.leb_le in H. specialize (Hocc i). lia.
    + right. rewrite (proj2 (Z.ltb_lt _ _)) by done. exists i. apply Z.leb_le in He. split; [done|]. split; [done|].
      intros j [Hj Ho]. apply Z.leb_le in Ho. split; [by apply H3|]. intros Hji. by apply H2.
  - destruct (BestLiteral_spec s cs nLits uMask Hr Hz) as (best & var & -> & H). eexists. split; [done|].
    destruct H as [[[-> ->] H]|(i & -> & -> & Hi & He & H1 & H2 & H3)].
    + left. split; [done|]. intros i [[Hi Ho] Hm]. specialize (H i Hi). rewrite Hm in H. apply Z.leb_le in Ho.
      specialize (H Ho). rewrite Z.leb_le in Ho. lia.
    + right. apply andb_true_iff in He as [Hm Ho]. apply Z.leb_le in Ho.
      rewrite (proj2 (Z.leb_le _ _)) by lia. exists i. split; [done|]. split; [done|].
      intros j [[Hj Hoj] Hmj]. assert (Kit_CubeHasLit uMask j && (2 <=? occ cs j)%Z = true) as E
        by (rewrite Hmj; by apply Z.leb_le).
      split; [specialize (H3 j Hj E); lia|]. intros Hji. specialize (H2 j Hji E). lia.
Qed.

Lemma literal_choice_correct_witness :
  let s := {| nLits := 0; nCubes := 4; pCubes := [0x5; 0x9; 0x6; 0x4]%Z |} in
  Kit_SopAnyLiteral s 4 = Some 0%Z /\ Kit_SopBestLiteral s 4 0xF = Some 2%Z /\ occ [0x5; 0x9; 0x6; 0x4]%Z 2 = 3%Z /\
  exists r, Kit_SopAnyLiteral s 4 = Some r /\
     ((r = (-1)%Z /\ forall i, ~ (i < 4 /\ (2 <= occ [0x5; 0x9; 0x6; 0x4]%Z i)%Z)) \/
      exists i, r = Z.of_nat i /\ (i < 4 /\ (2 <= occ [0x5; 0x9; 0x6; 0x4]%Z i)%Z) /\
        forall j, j < i -> ~ (j < 4 /\ (2 <= occ [0x5; 0x9; 0x6; 0x4]%Z j)%Z)).
Proof.
  intros s. split; [reflexivity|]. split; [reflexivity|]. split; [reflexivity|].
  apply (literal_choice_correct s [0x5; 0x9; 0x6; 0x4]%Z 4 0xF); [by split|by repeat constructor|cbn; lia].
Defined.

(** The routines that divide a cover of non-zero cubes or change it in place, with enough memory: division
    by a literal leaves the cubes with the literal, without it; division by a cube gives the cubes that contain
    it, without its literals, and the others as remainder; the common cube has the literals of all cubes, and
    making the cover free of cubes removes them. *)
Theorem cover_division_correct s cs sd d i V :
  rep s cs -> nonzero cs -> words cs -> i < 32 -> rep sd [d] ->
  (nSize V + 2 * Z.of_nat (length cs) <= nCap V)%Z ->
  (exists s', Kit_SopDivideByLiteralQuo s i = Some s' /\
     rep s' (map (fun c => Z.clearbit c (Z.of_nat i)) (List.filter (fun c => Z.testbit c (Z.of_nat i)) cs))) /\
  (exists sq sr V', Kit_SopDivideByCube s sd V = Some (sq, sr, V') /\
     rep sq (map (fun c => Z.ldiff c d) (List.filter (fun c => (Z.land c d =? d)%Z) cs)) /\
     rep sr (List.filter (fun c => negb (Z.land c d =? d)%Z) cs)) /\
  (exists u, Kit_SopCommonCube s = Some u /\ Kit_SopIsCubeFree s = Some (u =? 0)%Z /\
     (forall b, b < 32 -> Z.testbit u (Z.of_nat b) = true <-> forall c, c ∈ cs -> Z.testbit c (Z.of_nat b) = true) /\
     exists s', Kit_SopMakeCubeFree s = Some s' /\ rep s' (map (fun c => Z.ldiff c u) cs)).
Proof.
  intros Hr Hz Hw Hi Hsd Hm.
  assert (forall u v, is_word u -> Kit_CubeSharp u v = Z.ldiff u v) as HS.
  { intros u v Hu. apply Z.bits_inj'. intros b Hb. unfold Kit_CubeSharp.
    rewrite Z.land_spec, testbit_wnot_Z, Z.ldiff_spec by done.
    destruct (Z.ltb_spec b 32); [done|]. by rewrite (word_high u). }
  assert (forall c, In c cs -> is_word c) as Hin by (intros c Hc; unfold words in Hw; rewrite List.Forall_forall in Hw; auto).
  split; [|split].
  - destruct (DivideByLiteralQuo_spec s cs i Hr Hz) as (s' & -> & H). exists s'. split; [done|].
    replace (map _ _) with (quo_lit i cs); [done|]. unfold quo_lit.
    rewrite (filter_ext_in (fun c => Kit_CubeHasLit c i) (fun c => Z.testbit c (Z.of_nat i)))
      by (intros c Hc; apply HasLit_spec; auto).
    apply map_ext_in. intros c [Hc _]%filter_In. rewrite RemLit_Sharp, HS by auto.
    apply Z.bits_inj'. intros b Hb. rewrite <- (Z2Nat.id b) by done.
    rewrite Z.ldiff_spec, testbit_pow, Z.clearbit_eqb by lia. f_equal. f_equal.
    destruct (Nat.eqb_spec (Z.to_nat b) i), (Z.eqb_spec (Z.of_nat i) (Z.of_nat (Z.to_nat b))); done || lia.
  - destruct (DivideByCube_spec s cs sd d V Hr Hz Hsd Hm) as (sq & sr & V' & -> & H1 & H2 & _).
    exists sq, sr, V'. split; [done|]. split; [|exact H2].
    replace (map _ _) with (map (fun c => Kit_CubeSharp c d) (List.filter (fun c => Kit_CubeContains c d) cs)); [done|].
    apply map_ext_in. intros c [Hc _]%filter_In. auto.
  - exists (common cs). split; [by apply CommonCube_spec|]. unfold Kit_SopIsCubeFree.
    rewrite (CommonCube_spec s cs Hr Hz). split; [done|]. split.
    + intros b Hb. rewrite common_bit, forallb_forall by done. by setoid_rewrite list_elem_of_In.
    + destruct (MakeCubeFree_spec s cs Hr Hz Hw) as (s' & -> & H). exists s'. split; [done|].
      replace (map _ _) with (cube_free cs); [done|]. apply map_ext_in. intros c Hc. auto.
Qed.

Lemma cover_division_correct_witness :
  let s := {| nLits := 0; nCubes := 3; pCubes := [0x5; 0x9; 0x11]%Z |} in
  let sd := {| nLits := 0; nCubes := 1; pCubes := [0x4]%Z |} in
  Kit_SopCommonCube s = Some 1%Z /\
  exists s', Kit_SopDivideByLiteralQuo s 0 = Some s' /\
     rep s' (map (fun c => Z.clearbit c 0) (List.filter (fun c => Z.testbit c 0) [0x5; 0x9; 0x11]%Z)).
Proof.
  intros s sd. split; [reflexivity|].
  apply (cover_division_correct s [0x5; 0x9; 0x11]%Z sd 4 0 {| nCap := 6; nSize := 0; pArray := [] |});
    [by split|by repeat constructor|by repeat constructor|lia|by split|cbn; lia].
Defined.
