(* ===== verification/Divide.v ===== *)
(** Division of covers: [Kit_SopDivideInternal] against its specification.

    A cover [S] whose cubes do not contain one another is split as a multiset into the
    products of the cubes of the quotient with the cubes of the divisor, and the cubes of
    the remainder. *)
From S2P Require Import Prelude Words VecInt Cube Isop Sop.

(** * Cubes as sets of literals *)

Definition sub (c d : Z) : Prop := Z.land d c = c.
Definition disj (c d : Z) : Prop := Z.land c d = 0%Z.

Lemma Contains_sub u d : Kit_CubeContains u d = true <-> sub d u.
Proof. apply Z.eqb_eq. Qed.

Lemma Sharp_ldiff u d : is_word u -> Kit_CubeSharp u d = Z.ldiff u d.
Proof.
  intros Hu. apply Z.bits_inj'. intros i Hi. unfold Kit_CubeSharp.
  rewrite Z.land_spec, testbit_wnot_Z, Z.ldiff_spec by done.
  destruct (Z.ltb_spec i 32); [done|]. by rewrite (word_high u).
Qed.

(** Equations and inclusions of sets, bit by bit. *)
Ltac bits_at i :=
  repeat match goal with
  | H : sub _ _ |- _ => apply (f_equal (fun x => Z.testbit x i)) in H
  | H : disj _ _ |- _ => apply (f_equal (fun x => Z.testbit x i)) in H
  | H : @eq Z _ _ |- _ => apply (f_equal (fun x => Z.testbit x i)) in H
  end;
  repeat first [rewrite Z.lor_spec in * | rewrite Z.land_spec in * | rewrite Z.ldiff_spec in * | rewrite Z.testbit_0_l in *];
  repeat match goal with
  | |- context [Z.testbit ?x i] => destruct (Z.testbit x i)
  | H : context [Z.testbit ?x i] |- _ => destruct (Z.testbit x i)
  end; cbn in *; try done.
Ltac by_bits :=
  let i := fresh "i" in
  unfold sub, disj in *; apply Z.bits_inj; intros i; bits_at i.

Lemma product_sub q d : sub d (Z.lor q d).
Proof. by_bits. Qed.
Lemma product_ldiff q d : disj q d -> Z.ldiff (Z.lor q d) d = q.
Proof. intros H. by_bits. Qed.
Lemma ldiff_product u d : sub d u -> Z.lor (Z.ldiff u d) d = u.
Proof. intros H. by_bits. Qed.
Lemma ldiff_disj u d : disj (Z.ldiff u d) d.
Proof. by_bits. Qed.
Lemma product_inj q d d' : disj q d -> disj q d' -> Z.lor q d = Z.lor q d' -> d = d'.
Proof. intros H1 H2 H3. by_bits. Qed.
Lemma product_inj_l q q' d : disj q d -> disj q' d -> Z.lor q d = Z.lor q' d -> q = q'.
Proof. intros H1 H2 H3. by_bits. Qed.
Lemma sub_refl c : sub c c.
Proof. by_bits. Qed.
Lemma sub_trans c d e : sub c d -> sub d e -> sub c e.
Proof. intros H1 H2. by_bits. Qed.
Lemma sub_0 c : sub 0 c.
Proof. by_bits. Qed.
Lemma sub_lor_l q q' d : sub q q' -> sub (Z.lor q d) (Z.lor q' d).
Proof. intros H. by_bits. Qed.
Lemma sub_lor_r q d d' : sub d d' -> sub (Z.lor q d) (Z.lor q d').
Proof. intros H. by_bits. Qed.

(** The test of [Kit_SopDivideInternal]. *)
Lemma product_test u q d : is_word u ->
  Kit_CubeContains u d && (q =? Kit_CubeSharp u d)%Z = true <-> u = Z.lor q d /\ disj q d.
Proof.
  intros Hu. rewrite andb_true_iff, Contains_sub, Z.eqb_eq, Sharp_ldiff by done. split.
  - intros [Hs ->]. split; [by rewrite ldiff_product|apply ldiff_disj].
  - intros [-> Hd]. split; [apply product_sub|by rewrite product_ldiff].
Qed.

(** * Covers without contained cubes *)

Definition antichain (cs : list Z) : Prop :=
  forall i j c d, cs !! i = Some c -> cs !! j = Some d -> sub c d -> i = j.

Lemma antichain_nodup cs : antichain cs -> NoDup cs.
Proof. intros H. apply NoDup_alt. intros i j c Hi Hj. eapply H; [done..|apply sub_refl]. Qed.

Lemma antichain_in cs c d : antichain cs -> c ∈ cs -> d ∈ cs -> sub c d -> c = d.
Proof.
  intros H [i Hi]%list_elem_of_lookup [j Hj]%list_elem_of_lookup Hs.
  assert (i = j) as -> by by eapply H. congruence.
Qed.

Lemma antichain_intro cs : NoDup cs -> (forall c d, c ∈ cs -> d ∈ cs -> sub c d -> c = d) -> antichain cs.
Proof.
  intros Hn H i j c d Hi Hj Hs. assert (c = d) as ->
    by (apply H; [by eapply list_elem_of_lookup_2..|done]).
  by eapply NoDup_lookup.
Qed.

Lemma antichain_nonzero cs : antichain cs -> 2 <= length cs -> nonzero cs.
Proof.
  intros H Hl. apply Forall_lookup. intros i c Hi ->.
  assert (exists j d, cs !! j = Some d /\ i <> j) as (j & d & Hj & Hne).
  { destruct (decide (i = 0)) as [-> | ].
    - destruct (lookup_lt_is_Some_2 cs 1) as [d Hd]; [lia|]. exists 1, d. split; [done|lia].
    - destruct (lookup_lt_is_Some_2 cs 0) as [d Hd]; [lia|]. exists 0, d. split; [done|lia]. }
  apply Hne. eapply H; [done..|apply sub_0].
Qed.

(** Cubes that leave the mark bit free. *)
Definition clean (c : Z) : Prop := is_word c /\ Z.testbit c 31 = false.

Lemma clean_marked c : clean c -> Kit_CubeIsMarked c = false.
Proof. intros [Hw H]. unfold Kit_CubeIsMarked. rewrite HasLit_spec; [exact H|done|lia]. Qed.

Lemma Mark_marked c : is_word c -> Kit_CubeIsMarked (Kit_CubeMark c) = true.
Proof.
  intros Hw. unfold Kit_CubeIsMarked, Kit_CubeMark. rewrite HasLit_spec by (lia || auto with words).
  by rewrite testbit_SetLit by lia.
Qed.

Lemma Unmark_Mark c : clean c -> Kit_CubeUnmark (Kit_CubeMark c) = c.
Proof.
  intros [Hw H]. unfold Kit_CubeUnmark, Kit_CubeMark. apply word_ext; auto with words. intros b Hb.
  rewrite testbit_RemLit, testbit_SetLit by lia. destruct (Nat.eqb_spec b 31) as [-> | ]; [by symmetry|done].
Qed.

Lemma Mark_nonzero c : is_word c -> Kit_CubeMark c <> 0%Z.
Proof. intros Hw E. pose proof (Mark_marked c Hw) as H. rewrite E in H. done. Qed.

(** * Marked covers *)

(** [L] is [S] with some cubes marked; [free L] are the others. *)
Definition marks (S L : list Z) : Prop := Forall2 (fun c l => l = c \/ l = Kit_CubeMark c) S L.
Definition free (L : list Z) : list Z := List.filter (fun u => negb (Kit_CubeIsMarked u)) L.

Lemma marks_refl S : marks S S.
Proof. induction S as [|c S IH]; constructor; auto. Qed.

Lemma free_clean S : Forall clean S -> free S = S.
Proof.
  intros H. induction H as [|c S Hc HS IH]; [done|]. unfold free in *. cbn [List.filter].
  by rewrite (clean_marked c Hc), IH.
Qed.

Lemma marks_word S L : marks S L -> Forall clean S -> words L.
Proof.
  intros H. induction H as [|c l S L Hl _ IH]; intros Hc; [constructor|]. inversion_clear Hc as [|? ? [Hw _] HS].
  constructor; [destruct Hl as [-> | ->]; [done|unfold Kit_CubeMark; auto with words]|by apply IH].
Qed.

Lemma marks_nonzero S L : marks S L -> Forall clean S -> nonzero S -> nonzero L.
Proof.
  intros H. induction H as [|c l S L Hl _ IH]; intros Hc Hz; [constructor|].
  inversion_clear Hc as [|? ? [Hw _] HS]. inversion_clear Hz.
  constructor; [destruct Hl as [-> | ->]; [done|by apply Mark_nonzero]|by apply IH].
Qed.

(** An unmarked cube is the one of the cover. *)
Lemma marks_free S L i u : marks S L -> Forall clean S -> L !! i = Some u -> Kit_CubeIsMarked u = false ->
  S !! i = Some u.
Proof.
  intros H Hc Hi Hu. destruct (Forall2_lookup_r _ _ _ _ _ H Hi) as (c & Hs & [-> | ->]); [done|].
  rewrite Mark_marked in Hu; [done|]. apply (Forall_lookup_1 _ _ _ _ Hc Hs).
Qed.

Lemma free_in L u : u ∈ free L <-> u ∈ L /\ Kit_CubeIsMarked u = false.
Proof. unfold free. rewrite !list_elem_of_In, filter_In, negb_true_iff. done. Qed.

Lemma mark_one S L i u : marks S L -> Forall clean S -> L !! i = Some u -> Kit_CubeIsMarked u = false ->
  marks S (<[i := Kit_CubeMark u]> L) /\ free L ≡ₚ u :: free (<[i := Kit_CubeMark u]> L).
Proof.
  intros H Hc Hi Hu. pose proof (marks_free S L i u H Hc Hi Hu) as Hs. split.
  - rewrite <- (list_insert_id S i u Hs). apply Forall2_insert; [done|by right].
  - pose proof (lookup_lt_Some _ _ _ Hi). assert (clean u) as Hcu by by apply (Forall_lookup_1 _ _ _ _ Hc Hs).
    rewrite <- (take_drop_middle L i u Hi) at 1. rewrite insert_take_drop by done.
    unfold free. rewrite !List.filter_app. cbn [List.filter].
    rewrite Hu, Mark_marked by apply Hcu. cbn [negb]. symmetry. apply Permutation_middle.
Qed.

(** * The result of a division *)

Definition products (Q D : list Z) : list Z := concat (map (fun q => map (Z.lor q) D) Q).

Definition divided (S D Q R : list Z) : Prop :=
  S ≡ₚ products Q D ++ R /\ forall q d, q ∈ Q -> d ∈ D -> disj q d.

Lemma products_snoc Q q D : products (Q ++ [q]) D = products Q D ++ map (Z.lor q) D.
Proof. unfold products. rewrite map_app, concat_app. cbn. by rewrite app_nil_r. Qed.

Lemma length_products Q D : length (products Q D) = length Q * length D.
Proof.
  unfold products. induction Q as [|q Q IH]; [done|]. cbn [map concat length]. rewrite length_app, length_map, IH. lia.
Qed.

Lemma in_products Q D c : c ∈ products Q D <-> exists q d, q ∈ Q /\ d ∈ D /\ c = Z.lor q d.
Proof.
  unfold products. rewrite list_elem_of_In, in_concat. setoid_rewrite in_map_iff.
  setoid_rewrite <- list_elem_of_In. split.
  - intros (l & (q & <- & Hq) & Hc). apply list_elem_of_In, in_map_iff in Hc as (d & <- & Hd).
    apply list_elem_of_In in Hd. eauto.
  - intros (q & d & Hq & Hd & ->). eexists. split; [by exists q|]. apply list_elem_of_In, in_map, list_elem_of_In. done.
Qed.

(** A quotient that is known to exist: what makes the computed quotient not empty. *)
Definition cofactor (S D : list Z) (q : Z) : Prop := forall d, d ∈ D -> disj q d /\ Z.lor q d ∈ S.

(** * The loop *)

Section divide.
Context (S D : list Z) (cDiv : Kit_Sop_t).
Context (HS : antichain S) (HSc : Forall clean S) (HSz : nonzero S).
Context (HD : rep cDiv D) (HDz : nonzero D) (HDn : NoDup D) (HD2 : 2 <= length D).

(** Searching for a product among the cubes that are not taken. *)
Lemma matching_cube_spec cSop L d q :
  rep cSop L -> marks S L ->
  (matching_cube cSop d q = length L /\ ~ (Z.lor q d ∈ free L /\ disj q d)) \/
  (L !! matching_cube cSop d q = Some (Z.lor q d) /\ Kit_CubeIsMarked (Z.lor q d) = false /\ disj q d).
Proof using All.
  intros Hr Hm. pose proof (marks_word S L Hm HSc) as Hw. pose proof (marks_nonzero S L Hm HSc HSz) as Hz.
  unfold matching_cube. match goal with |- context [first_cube _ ?c] => set (f := c) end.
  assert (forall i u, L !! i = Some u -> f i u = true <-> Kit_CubeIsMarked u = false /\ u = Z.lor q d /\ disj q d) as Hf.
  { intros i u Hi. unfold f. rewrite andb_true_iff, negb_true_iff, product_test; [done|].
    by apply (Forall_lookup_1 _ _ _ _ Hw Hi). }
  destruct (first_cube_spec cSop L f Hr Hz) as [[-> Hn]|(u & Hu & Hc & _)].
  - left. split; [done|]. intros [Hin Hd]. apply free_in in Hin as [Hin Hu].
    apply list_elem_of_lookup in Hin as [i Hi]. specialize (Hn i _ Hi).
    apply not_true_iff_false in Hn. apply Hn. by apply (Hf i).
  - right. apply Hf in Hc as (Hmu & -> & Hd); [|done]. done.
Qed.

(** The first [j] cubes of the divisor without the one of number [k]. *)
Fixpoint others (k j : nat) : list Z :=
  match j with
  | O => []
  | Datatypes.S j => others k j ++ if j =? k then [] else [Kit_SopCube cDiv j]
  end.

Lemma others_perm k d j : D !! k = Some d -> j <= length D ->
  (if k <? j then d :: others k j else others k j) ≡ₚ take j D.
Proof using All.
  intros Hk. induction j as [|j IH]; intros Hj; [done|]. specialize (IH ltac:(lia)). cbn [others].
  pose proof (rep_lookup cDiv D j HD ltac:(lia)) as Ej. rewrite (take_S_r _ _ _ Ej).
  destruct (Nat.ltb_spec k (Datatypes.S j)), (Nat.ltb_spec k j), (Nat.eqb_spec j k); try lia.
  - by rewrite app_comm_cons, IH.
  - subst j. rewrite app_nil_r, IH. assert (Kit_SopCube cDiv k = d) as -> by congruence. apply Permutation_cons_append.
  - by rewrite IH.
Qed.

Lemma others_in k j e : j <= length D -> e ∈ others k j <-> exists i, i < j /\ i <> k /\ D !! i = Some e.
Proof using All.
  induction j as [|j IH]; intros Hj; cbn [others].
  - rewrite elem_of_nil. split; [done|intros (i & ? & _); lia].
  - rewrite elem_of_app, IH by lia. pose proof (rep_lookup cDiv D j HD ltac:(lia)) as Ej. split.
    + intros [(i & Hi & Hne & He)|He]; [exists i; split; [lia|done]|].
      destruct (Nat.eqb_spec j k); [by apply elem_of_nil in He|]. apply list_elem_of_singleton in He as ->.
      exists j. split; [lia|done].
    + intros (i & Hi & Hne & He). destruct (decide (i = j)) as [-> | ].
      * right. rewrite (proj2 (Nat.eqb_neq j k) Hne). apply list_elem_of_singleton. congruence.
      * left. exists i. split; [lia|done].
Qed.

(** Marking the cubes of one quotient cube. *)
Lemma mark_products k q d cSop L :
  rep cSop L -> marks S L -> D !! k = Some d ->
  (forall d', d' ∈ D -> disj q d' /\ (d' <> d -> Z.lor q d' ∈ free L)) ->
  exists cSop' L', Kit_SopForEachCube snd (mark_match k q) (cSop, cDiv) = Some (cSop', cDiv) /\
    rep cSop' L' /\ marks S L' /\ length L' = length L /\ free L ≡ₚ map (Z.lor q) (others k (length D)) ++ free L'.
Proof using All.
  intros Hr Hm Hk Hq.
  destruct (each_rule snd (mark_match k q) (fun j '(s', dv) => dv = cDiv /\ exists L', rep s' L' /\ marks S L' /\
    length L' = length L /\ free L ≡ₚ map (Z.lor q) (others k j) ++ free L') (length D) (cSop, cDiv))
    as ([s' dv] & -> & -> & L' & H).
  - apply HD.
  - split; [done|]. by exists L.
  - intros j [s' dv] Hj (-> & L' & Hr' & Hm' & Hl & HP). cbn [snd]. split; [apply HD|].
    pose proof (rep_lookup cDiv D j HD Hj) as Ej. set (e := Kit_SopCube cDiv j) in *.
    split; [by eapply nonzero_lookup|]. unfold mark_match. cbn [others]. destruct (Nat.eqb_spec j k) as [Ejk|Hne].
    { eexists. split; [done|]. split; [done|]. exists L'. by rewrite app_nil_r. }
    assert (e ∈ D) as HeD by by eapply list_elem_of_lookup_2.
    assert (e <> d) as Hed by (intros ->; apply Hne; by eapply NoDup_lookup).
    destruct (Hq e HeD) as [Hdq Hin]. specialize (Hin Hed).
    destruct (matching_cube_spec s' L' e q Hr' Hm') as [[_ Hno]|(Hi2 & Hu & _)].
    { exfalso. apply Hno. split; [|done]. rewrite HP in Hin. apply elem_of_app in Hin as [Hin|Hin]; [|done].
      exfalso. apply list_elem_of_In, in_map_iff in Hin as (e' & He & Hin%list_elem_of_In).
      apply others_in in Hin as (i & Hi & _ & Hie); [|lia].
      assert (e' = e) as -> by (apply (product_inj q); [apply Hq; by eapply list_elem_of_lookup_2|done|done]).
      assert (i = j) by by eapply NoDup_lookup. lia. }
    set (i2 := matching_cube s' e q) in *. pose proof (lookup_lt_Some _ _ _ Hi2) as Hlt.
    unfold Kit_SopCubeNum. rewrite (proj1 Hr'), (proj2 (Z.ltb_lt _ _)) by lia. rewrite (rep_cube s' L' i2 _ Hr' Hi2).
    eexists. split; [done|]. split; [done|]. exists (<[i2 := Kit_CubeMark (Z.lor q e)]> L').
    destruct (mark_one S L' i2 _ Hm' HSc Hi2 Hu) as [M1 M2].
    split; [by apply rep_write|]. split; [done|]. split; [by rewrite length_insert|].
    rewrite HP, map_app, <- app_assoc. by rewrite M2.
  - cbn in H. destruct H as (Hr' & Hm' & Hl & HP). exists s', L'. done.
Qed.

(** One iteration of the outer loop on a quotient [Q]: either nothing happens, and then the cube does
    not start a cofactor of an untouched cover, or a cube is added to the quotient. *)
Lemma divide_cube_spec cSop vQuo L Q i u :
  rep cSop L -> marks S L -> rep vQuo Q -> L !! i = Some u ->
  (length D <= length (free L) -> length Q < length (pCubes vQuo)) ->
  (divide_cube cDiv i u (cSop, vQuo) = Some (cSop, vQuo) /\
     forall q, L = S -> D !! 0 = Some (Z.ldiff u q) -> disj q (Z.ldiff u q) -> sub q u -> ~ cofactor S D q) \/
  exists cSop' L' vQuo' q, divide_cube cDiv i u (cSop, vQuo) = Some (cSop', vQuo') /\
    rep cSop' L' /\ marks S L' /\ length L' = length L /\ rep vQuo' (Q ++ [q]) /\
    length (pCubes vQuo') = length (pCubes vQuo) /\
    (forall d, d ∈ D -> disj q d) /\ free L ≡ₚ map (Z.lor q) D ++ free L'.
Proof using All.
  intros Hr Hm HQ Hi Hroom. unfold divide_cube.
  pose proof (marks_word S L Hm HSc) as Hw. assert (is_word u) as Hwu by by apply (Forall_lookup_1 _ _ _ _ Hw Hi).
  destruct (Kit_CubeIsMarked u) eqn:Hu.
  { left. split; [done|]. intros q ->. rewrite clean_marked in Hu; [done|]. apply (Forall_lookup_1 _ _ _ _ HSc Hi). }
  unfold Kit_SopCubeNum. rewrite (proj1 HD), (proj1 Hr).
  destruct (first_cube_spec cDiv D (fun _ uDiv => Kit_CubeContains u uDiv) HD HDz) as [[-> Hno]|(d & Hk & Hdu & Hmin)].
  { rewrite Z.eqb_refl. left. split; [done|]. intros q _ H0 _ Hq. specialize (Hno _ _ H0).
    apply not_true_iff_false in Hno. exfalso. apply Hno, Contains_sub. clear -Hq. by_bits. }
  set (k := first_cube cDiv (fun _ uDiv => Kit_CubeContains u uDiv)) in *. pose proof (lookup_lt_Some _ _ _ Hk) as Hkl.
  rewrite (proj2 (Z.eqb_neq _ _)) by lia. rewrite (rep_cube cDiv D k d HD Hk), Sharp_ldiff by done.
  apply Contains_sub in Hdu. set (q := Z.ldiff u d) in *.
  assert (Z.lor q d = u) as Equ by by apply ldiff_product.
  match goal with |- context [first_cube cDiv ?c] => set (c2 := c) end.
  assert (forall j e, D !! j = Some e -> c2 j e = false -> e = d \/ disj q e /\ Z.lor q e ∈ free L) as Hc2.
  { intros j e He Hf. unfold c2 in Hf. apply andb_false_iff in Hf as [Hf|Hf].
    - apply negb_false_iff, Nat.eqb_eq in Hf as ->. left. congruence.
    - right. destruct (matching_cube_spec cSop L e q Hr Hm) as [[E _]|(E & Hm2 & Hd2)].
      + rewrite E, Z.eqb_refl in Hf. done.
      + split; [done|]. apply free_in. split; [by eapply list_elem_of_lookup_2|done]. }
  destruct (first_cube_spec cDiv D c2 HD HDz) as [[-> Hall]|(e & Hk2 & Hc & _)].
  - rewrite Z.eqb_refl. cbn [negb]. right.
    destruct (mark_one S L i u Hm HSc Hi Hu) as [M1 M2].
    assert (forall d', d' ∈ D -> disj q d') as Hdis.
    { intros d' [j Hj]%list_elem_of_lookup. destruct (Hc2 j d' Hj (Hall j d' Hj)) as [-> | [H _]]; [apply ldiff_disj|done]. }
    destruct (mark_products k q d (Kit_SopWriteCube cSop (Kit_CubeMark u) i) (<[i := Kit_CubeMark u]> L))
      as (cSop' & L' & E & Hr' & Hm' & Hl' & HP); [apply rep_write; [done|by eapply lookup_lt_Some]|done|done| |].
    { intros d' Hd'. split; [by apply Hdis|]. intros Hne. apply list_elem_of_lookup in Hd' as [j Hj].
      destruct (Hc2 j d' Hj (Hall j d' Hj)) as [-> | [H1 H2]]; [done|].
      rewrite M2 in H2. apply elem_of_cons in H2 as [H2|H2]; [|done].
      exfalso. apply Hne. apply (product_inj q); [done|apply ldiff_disj|congruence]. }
    fold q in E. rewrite E. cbn [mbind option_bind fst].
    assert (free L ≡ₚ map (Z.lor q) D ++ free L') as HPD.
    { rewrite M2, HP. pose proof (others_perm k d (length D) Hk (le_n _)) as HO.
      rewrite (proj2 (Nat.ltb_lt _ _) Hkl), take_ge in HO by done.
      transitivity (map (Z.lor q) (d :: others k (length D)) ++ free L'); [cbn [map app]; by rewrite Equ|by rewrite HO]. }
    assert (length D <= length (free L)) as HDL by (rewrite HPD, length_app, length_map; lia).
    destruct (rep_push vQuo Q q HQ (Hroom HDL)) as [PQ LQ].
    eexists _, L', _, q. split; [done|]. rewrite length_insert in Hl'. done.
  - set (k2 := first_cube cDiv c2) in *. pose proof (lookup_lt_Some _ _ _ Hk2) as Hk2l.
    rewrite (proj2 (Z.eqb_neq _ _)) by lia. cbn [negb]. left. split; [done|].
    intros q0 -> H0 Hd0 Hs0 Hcof.
    assert (k = 0) as Hk0.
    { destruct (decide (k = 0)) as [|Hne]; [done|]. specialize (Hmin 0 _ ltac:(lia) H0). cbv beta in Hmin.
      apply not_true_iff_false in Hmin. exfalso. apply Hmin, Contains_sub. clear. by_bits. }
    rewrite Hk0, H0 in Hk. injection Hk as Hd.
    assert (q = q0) as Eq by (unfold q; rewrite <- Hd; clear -Hs0; by_bits).
    unfold c2 in Hc. apply andb_true_iff in Hc as [_ Hc]. apply Z.eqb_eq in Hc.
    destruct (Hcof e) as [He1 He2]; [by eapply list_elem_of_lookup_2|].
    destruct (matching_cube_spec cSop S e q Hr Hm) as [[_ Hno]|(Hi2 & _)].
    + apply Hno. rewrite free_clean, Eq by done. done.
    + apply lookup_lt_Some in Hi2. lia.
Qed.
End divide.

(** * The whole division *)

(** The last loop: the cubes that are not marked go to the remainder and the marks are removed. *)
Definition collect (i : nat) (uCube : Z) (s : Kit_Sop_t * Kit_Sop_t) : option (Kit_Sop_t * Kit_Sop_t) :=
  let '(cSop, vRem) := s in
  Some (if negb (Kit_CubeIsMarked uCube) then (cSop, Kit_SopPushCube vRem uCube)
        else (Kit_SopWriteCube cSop (Kit_CubeUnmark uCube) i, vRem)).

Lemma collect_spec S L cSop vRem :
  Forall clean S -> nonzero S -> marks S L -> rep cSop L -> rep vRem [] -> length (free L) <= length (pCubes vRem) ->
  exists cSop' vRem', Kit_SopForEachCube fst collect (cSop, vRem) = Some (cSop', vRem') /\ rep cSop' S /\ rep vRem' (free L).
Proof.
  intros HSc HSz Hm Hr Hv Hl. pose proof (Forall2_length Hm) as HL.
  pose proof (marks_nonzero S L Hm HSc HSz) as Hz.
  destruct (each_rule fst collect (fun i '(s', r) => rep s' (take i S ++ drop i L) /\ rep r (free (take i L)) /\
    length (pCubes r) = length (pCubes vRem)) (length S) (cSop, vRem)) as ([s' r] & -> & H).
  - cbn [fst]. rewrite (proj1 Hr). lia.
  - by rewrite !take_0, drop_0.
  - intros i [s' r] Hi (Hs' & Hr' & Hlr). cbn [fst].
    destruct (lookup_lt_is_Some_2 L i) as [u Eu]; [lia|]. destruct (lookup_lt_is_Some_2 S i Hi) as [c Ec].
    assert ((take i S ++ drop i L) !! i = Some u) as Ei.
    { rewrite lookup_app_r by (rewrite length_take; lia). rewrite length_take, lookup_drop, Nat.min_l by lia.
      rewrite <- Eu. f_equal. lia. }
    rewrite (rep_cube _ _ _ _ Hs' Ei). split; [rewrite (proj1 Hs'), length_app, length_take, length_drop; lia|].
    split; [by eapply nonzero_lookup|]. eexists. split; [done|].
    assert (free (take (Datatypes.S i) L) = free (take i L) ++ free [u]) as ->
      by (unfold free; by rewrite (take_S_r _ _ _ Eu), List.filter_app).
    assert (length (free (take i L)) + length (free [u]) <= length (free L)) as Hlen.
    { rewrite <- (take_drop_middle L i u Eu) at 2. unfold free. rewrite !List.filter_app, !length_app.
      cbn [List.filter]. destruct (negb _); cbn [length]; lia. }
    rewrite (take_S_r _ _ _ Ec), <- app_assoc. cbn [app]. rewrite (drop_S L u i Eu) in Hs'.
    unfold free at 2 in Hlen. unfold free at 2. cbn [List.filter] in *.
    destruct (Kit_CubeIsMarked u) eqn:Hu; cbn [negb] in *.
    + rewrite app_nil_r. split; [|done].
      assert (u = Kit_CubeMark c) as ->.
      { destruct (Forall2_lookup_lr _ _ _ _ _ _ Hm Ec Eu) as [-> | ]; [|done].
        rewrite clean_marked in Hu; [done|]. apply (Forall_lookup_1 _ _ _ _ HSc Ec). }
      rewrite Unmark_Mark by apply (Forall_lookup_1 _ _ _ _ HSc Ec).
      pose proof (rep_write s' _ i c Hs') as Hw. rewrite length_app, length_take in Hw. cbn [length] in Hw.
      specialize (Hw ltac:(lia)). replace i with (length (take i S) + 0) in Hw at 2 by (rewrite length_take; lia).
      by rewrite insert_app_r in Hw.
    + cbn [length] in Hlen. destruct (rep_push r _ u Hr') as [P1 P2]; [lia|]. split; [|split; [done|congruence]].
      by rewrite <- (marks_free S L i u Hm HSc Eu Hu), Ec in Ec || (pose proof (marks_free S L i u Hm HSc Eu Hu) as E'; rewrite Ec in E'; injection E' as ->; done).
  - destruct H as (H1 & H2 & _). rewrite HL, take_ge in H2 by lia. rewrite take_ge, drop_ge, app_nil_r in H1 by lia. by exists s', r.
Qed.

Lemma DivideInternal_spec S D cSop cDiv V :
  antichain S -> Forall clean S -> nonzero S -> rep cSop S ->
  rep cDiv D -> nonzero D -> NoDup D -> 2 <= length D <= length S ->
  (nSize V + 2 * Z.of_nat (length S) <= nCap V)%Z ->
  exists cSop' vQuo vRem V' Q R,
    Kit_SopDivideInternal cSop cDiv V = Some (cSop', vQuo, vRem, V') /\
    rep cSop' S /\ rep vQuo Q /\ rep vRem R /\ divided S D Q R /\
    grown V V' (2 * Z.of_nat (length S)) /\ (forall q, cofactor S D q -> Q <> []).
Proof.
  intros HS HSc HSz Hr HD HDz HDn [HD2 HDl] Hmem. unfold Kit_SopDivideInternal, Kit_SopCubeNum.
  rewrite (proj1 HD), (proj1 Hr), (proj2 (Z.leb_le _ _)), (proj2 (Z.eqb_neq _ _)) by lia.
  rewrite <- Nat2Z.inj_div. set (room := length S / length D).
  assert (room <= length S) as Hroom by (apply Nat.Div0.div_le_upper_bound; nia).
  destruct (new_cover_spec V room) as (vQuo & V1 & -> & HQ & LQ & F1); [lia|]. cbn [mbind option_bind].
  destruct (each_rule fst (divide_cube cDiv) (fun i '(s', vq) => exists L Q, rep s' L /\ marks S L /\
      length L = length S /\ rep vq Q /\ length (pCubes vq) = room /\ S ≡ₚ products Q D ++ free L /\
      (forall q d, q ∈ Q -> d ∈ D -> disj q d) /\ (Q = [] -> L = S) /\
      forall q d j, cofactor S D q -> D !! 0 = Some d -> S !! j = Some (Z.lor q d) -> j < i -> Q <> [])
    (length S) (cSop, vQuo)) as ([s' vq] & -> & L & Q & Hr' & Hm & Hl & HQ' & _ & HP & Hdis & _ & Hprog).
  - apply Hr.
  - exists S, []. repeat (split; [done || apply marks_refl|]). split; [by rewrite free_clean|].
    split; [by intros ? ? ?%elem_of_nil|]. split; [done|lia].
  - intros i [s' vq] Hi (L & Q & Hr' & Hm & Hl & HQ' & Hlq & HP & Hdis & Hun & Hprog). cbn [fst].
    split; [rewrite (proj1 Hr'); lia|]. destruct (lookup_lt_is_Some_2 L i) as [u Eu]; [lia|].
    rewrite (rep_cube s' L i u Hr' Eu). split; [eapply nonzero_lookup; [by eapply marks_nonzero|done]|].
    destruct (divide_cube_spec S D cDiv HS HSc HSz HD HDz HDn HD2 s' vq L Q i u Hr' Hm HQ' Eu)
      as [[E Hno]|(s2 & L2 & vq2 & q & E & Hr2 & Hm2 & Hl2 & HQ2 & Hlq2 & Hd2 & HP2)].
    { intros HDF. rewrite Hlq. apply (f_equal length) in HP || apply Permutation_length in HP.
      rewrite length_app, length_products in HP. unfold room.
      apply Nat.div_le_lower_bound; [lia|]. nia. }
    + exists (s', vq). split; [done|]. exists L, Q. repeat (split; [done|]).
      intros q d j Hcof Hd0 Hj Hlt. destruct (decide (j = i)) as [-> | ]; [|by apply (Hprog q d j); [..|lia]].
      intros HQ0. specialize (Hun HQ0). subst L. rewrite Hj in Eu. injection Eu as <-.
      assert (disj q d) as Hqd by (apply Hcof; by eapply list_elem_of_lookup_2).
      assert (Z.ldiff (Z.lor q d) q = d) as Eld by (clear -Hqd; by_bits).
      apply (Hno q eq_refl); rewrite ?Eld; [done|done| |done]. clear. by_bits.
    + exists (s2, vq2). split; [done|]. exists L2, (Q ++ [q]). rewrite products_snoc, <- app_assoc.
      split; [done|]. split; [done|]. split; [congruence|]. split; [done|]. split; [congruence|].
      split; [by rewrite HP, HP2|]. split.
      * intros q' d [Hq'|Hq']%elem_of_app Hd; [by apply Hdis|]. apply list_elem_of_singleton in Hq' as ->. by apply Hd2.
      * assert (Q ++ [q] <> []) as Hne by (intros [_ ?]%app_eq_nil; done). split; [by intros|by intros].
  - cbn [mbind option_bind]. rewrite (proj1 Hr'), (proj1 HQ').
    pose proof (Permutation_length HP) as HPl. rewrite length_app, length_products in HPl.
    assert (Z.of_nat (length L) - Z.of_nat (length Q) * Z.of_nat (length D) = Z.of_nat (length (free L)))%Z as -> by nia.
    destruct (new_cover_spec V1 (length (free L))) as (vRem & V2 & -> & HR & LR & F2).
    { destruct F1 as (E1 & _ & E2). rewrite E1, E2. unfold room in *.
      assert (length (free L) + length S / length D <= 2 * length S) by lia. lia. }
    cbn [mbind option_bind].
    destruct (collect_spec S L s' vRem HSc HSz Hm Hr' HR) as (s2 & vr & E & Hs2 & Hvr); [lia|].
    fold collect. rewrite E. cbn [mbind option_bind]. rewrite (proj1 Hvr), Z.eqb_refl.
    exists s2, vq, vr, V2, Q, (free L). split; [done|]. do 3 (split; [done|]). split; [by split|]. split.
    + eapply grown_mono; [eapply grown_trans; [by eapply fetched_grown; [|exact F1]; lia|by eapply fetched_grown; [|exact F2]; lia]|].
      nia.
    + intros q Hcof. destruct (lookup_lt_is_Some_2 D 0) as [d Ed]; [lia|].
      destruct (Hcof d) as [_ Hin]; [by eapply list_elem_of_lookup_2|]. apply list_elem_of_lookup in Hin as [j Hj].
      apply (Hprog q d j Hcof Ed Hj). by eapply lookup_lt_Some.
Qed.

(** * Properties *)

(** [antichain] as a computation. *)
Definition antichainb (cs : list Z) : bool :=
  forallb (fun i => forallb (fun j => (i =? j) || negb (Z.land cs.[j] cs.[i] =? cs.[i])%Z) (seq 0 (length cs))) (seq 0 (length cs)).

Lemma antichainb_true cs : antichainb cs = true -> antichain cs.
Proof.
  unfold antichainb. rewrite forallb_forall. intros H i j c d Hi Hj Hs.
  pose proof (lookup_lt_Some _ _ _ Hi). pose proof (lookup_lt_Some _ _ _ Hj).
  specialize (H i (proj2 (in_seq (length cs) 0 i) ltac:(lia))). rewrite forallb_forall in H.
  specialize (H j (proj2 (in_seq (length cs) 0 j) ltac:(lia))). rewrite !rd_lookup, Hi, Hj in H. cbn in H.
  apply orb_true_iff in H as [H|H]; [by apply Nat.eqb_eq|].
  apply negb_true_iff, Z.eqb_neq in H. by destruct (H Hs).
Qed.

(** C24. [Kit_SopDivideInternal] on covers with enough memory passes its assertions.  When no cube of the cover
    contains another, the divisor has at least two different cubes and the mark bit is free, the cover is, as a
    multiset, the products of the quotient and the divisor plus the remainder, no quotient cube shares a literal
    with the divisor, the marks are gone from the cover at the end, and the quotient is not empty whenever some
    cube times every cube of the divisor is in the cover; at most two words per cube are taken from the memory. *)
Theorem divide_internal_correct cSop S cDiv D vMemory :
  rep cSop S -> antichain S -> Forall clean S -> nonzero S ->
  rep cDiv D -> nonzero D -> NoDup D -> 2 <= length D <= length S ->
  (nSize vMemory + 2 * Z.of_nat (length S) <= nCap vMemory)%Z ->
  exists cSop' cQuo cRem vMemory' Q R,
    Kit_SopDivideInternal cSop cDiv vMemory = Some (cSop', cQuo, cRem, vMemory') /\
    rep cSop' S /\ rep cQuo Q /\ rep cRem R /\
    S ≡ₚ products Q D ++ R /\ (forall q d, q ∈ Q -> d ∈ D -> Z.land q d = 0%Z) /\
    (forall q, cofactor S D q -> Q <> []) /\ grown vMemory vMemory' (2 * Z.of_nat (length S)).
Proof.
  intros Hr HS Hc Hz HD HDz HDn Hl Hm.
  destruct (DivideInternal_spec S D cSop cDiv vMemory HS Hc Hz Hr HD HDz HDn Hl Hm)
    as (s' & vq & vr & V' & Q & R & E & H1 & H2 & H3 & [H4 H5] & H6 & H7).
  by exists s', vq, vr, V', Q, R.
Qed.

Lemma divide_internal_correct_witness :
  let S := [0x5; 0x9; 0x6; 0xA; 0x10]%Z in
  let D := [0x4; 0x8]%Z in
  let cSop := {| nLits := 0; nCubes := 5; pCubes := S |} in
  let cDiv := {| nLits := 0; nCubes := 2; pCubes := D |} in
  let V := {| nCap := 10; nSize := 0; pArray := [] |} in
  option_map (fun r => pCubes r.1.1.2) (Kit_SopDivideInternal cSop cDiv V) = Some [0x1; 0x2]%Z /\
  exists cSop' cQuo cRem vMemory' Q R,
    Kit_SopDivideInternal cSop cDiv V = Some (cSop', cQuo, cRem, vMemory') /\
    rep cSop' S /\ rep cQuo Q /\ rep cRem R /\
    S ≡ₚ products Q D ++ R /\ (forall q d, q ∈ Q -> d ∈ D -> Z.land q d = 0%Z) /\
    (forall q, cofactor S D q -> Q <> []) /\ grown V vMemory' (2 * Z.of_nat (length S)).
Proof.
  intros S D cSop cDiv V. split; [reflexivity|].
  apply (divide_internal_correct cSop S cDiv D V).
  - by split.
  - apply antichainb_true. reflexivity.
  - by repeat constructor.
  - by repeat constructor.
  - by split.
  - by repeat constructor.
  - apply NoDup_ListNoDup. by repeat constructor; cbn; intuition congruence.
  - cbn. lia.
  - cbn. lia.
Defined.
