(* ===== verification/Kernel.v ===== *)
(** Kernels: [Kit_SopDivisorZeroKernel_rec] and [Kit_SopDivisor].

    A kernel of a cover [S] is a cover whose products with one cube, the co-kernel, are
    cubes of [S]; it has level zero when no literal occurs in two of its cubes. *)
From S2P Require Import Prelude Words TruthSupp VecInt Cube Isop Sop Divide.

(** * Sizes *)

(** Number of literals of a cube and of a cover. *)
Definition size (c : Z) : nat := length (List.filter (fun i => Z.testbit c (Z.of_nat i)) (seq 0 32)).
Fixpoint sizes (cs : list Z) : nat :=
  match cs with
  | [] => 0
  | c :: cs => size c + sizes cs
  end.

Lemma filter_split {A} (f g h : A -> bool) l :
  (forall x, f x = g x || h x) -> (forall x, g x && h x = false) ->
  length (List.filter f l) = length (List.filter g l) + length (List.filter h l).
Proof.
  intros Hf Hgh. induction l as [|x l IH]; [done|]. cbn [List.filter]. rewrite Hf. specialize (Hgh x).
  destruct (g x), (h x); cbn [orb length] in *; try done; lia.
Qed.

Lemma size_product q d : disj q d -> size (Z.lor q d) = size q + size d.
Proof.
  intros H. apply filter_split; intros i; [apply Z.lor_spec|]. rewrite <- Z.land_spec, H. apply Z.testbit_0_l.
Qed.

Lemma size_ldiff u d : sub d u -> size u = size (Z.ldiff u d) + size d.
Proof.
  intros H. rewrite <- (size_product _ d) by apply ldiff_disj. by rewrite ldiff_product.
Qed.

Lemma size_pos c i : i < 32 -> Z.testbit c (Z.of_nat i) = true -> 0 < size c.
Proof.
  intros Hi Hc. unfold size. assert (In i (List.filter (fun i => Z.testbit c (Z.of_nat i)) (seq 0 32))) as H.
  { apply filter_In. split; [apply in_seq; lia|done]. }
  destruct (List.filter _ _); [done|]. cbn. lia.
Qed.

Lemma size_nonzero c : is_word c -> c <> 0%Z -> 0 < size c.
Proof.
  intros Hw Hn. destruct (exists_up 32 (fun i => Z.testbit c (Z.of_nat i))) eqn:E.
  - apply exists_up_true in E as (i & Hi & Hc). by eapply size_pos.
  - contradict Hn. apply word_ext; auto with words. intros b Hb. rewrite Z.testbit_0_l.
    by apply (proj1 (exists_up_false _ _) E).
Qed.

Lemma sizes_app cs ds : sizes (cs ++ ds) = sizes cs + sizes ds.
Proof. induction cs as [|c cs IH]; [done|]. cbn [app sizes]. lia. Qed.

Lemma sizes_perm cs ds : cs ≡ₚ ds -> sizes cs = sizes ds.
Proof. induction 1; cbn [sizes]; lia. Qed.

(** * Antichains under division *)

Lemma antichain_filter f cs : antichain cs -> antichain (List.filter f cs).
Proof.
  intros H. apply antichain_intro.
  - apply NoDup_ListNoDup, NoDup_filter, NoDup_ListNoDup. by apply antichain_nodup.
  - intros c d Hc Hd Hs. apply list_elem_of_In, filter_In in Hc as [Hc _], Hd as [Hd _].
    apply (antichain_in cs); [done|by apply list_elem_of_In..|done].
Qed.

Lemma antichain_map f cs : antichain cs ->
  (forall c d, c ∈ cs -> d ∈ cs -> sub (f c) (f d) -> sub c d) -> antichain (map f cs).
Proof.
  intros H Hf i j c d Hi Hj Hs. apply list_lookup_fmap_Some in Hi as (c' & -> & Hi), Hj as (d' & -> & Hj).
  apply (H i j c' d'); [done..|]. apply Hf; [by eapply list_elem_of_lookup_2..|done].
Qed.

(** Removing a common cube. *)
Definition without (m : Z) (cs : list Z) : list Z := map (fun c => Z.ldiff c m) cs.

Lemma antichain_without m cs : antichain cs -> (forall c, c ∈ cs -> sub m c) -> antichain (without m cs).
Proof.
  intros H Hm. apply antichain_map; [done|]. intros c d Hc Hd Hs. apply Hm in Hc, Hd. clear H Hm. by_bits.
Qed.

Lemma cofactor_without S m cs q : cofactor S cs q -> (forall c, c ∈ cs -> sub m c) ->
  cofactor S (without m cs) (Z.lor q m).
Proof.
  intros H Hm d Hd. unfold without in Hd. apply list_elem_of_In, in_map_iff in Hd as (c & <- & Hc%list_elem_of_In).
  destruct (H c Hc) as [H1 H2]. apply Hm in Hc. split.
  - clear H H2 Hm. by_bits.
  - replace (Z.lor (Z.lor q m) (Z.ldiff c m)) with (Z.lor q c); [done|]. clear H H2 Hm. by_bits.
Qed.

Lemma cofactor_filter S f cs q : cofactor S cs q -> cofactor S (List.filter f cs) q.
Proof. intros H d Hd. apply H. apply list_elem_of_In, filter_In in Hd as [Hd _]. by apply list_elem_of_In. Qed.

Lemma clean_ldiff c m : clean c -> clean (Z.ldiff c m).
Proof.
  intros [Hw Hc]. split.
  - rewrite <- Sharp_ldiff by done. auto with words.
  - by rewrite Z.ldiff_spec, Hc.
Qed.

Lemma clean_word c : clean c -> is_word c.
Proof. by intros [H _]. Qed.

Lemma cleans_words cs : Forall clean cs -> words cs.
Proof. apply List.Forall_impl. apply clean_word. Qed.

Lemma clean_without m cs : Forall clean cs -> Forall clean (without m cs).
Proof.
  intros H. unfold without. apply List.Forall_map. revert H. apply List.Forall_impl. intros c. apply clean_ldiff.
Qed.

Lemma forall_filter {A} (P : A -> Prop) f l : Forall P l -> Forall P (List.filter f l).
Proof. rewrite !List.Forall_forall. intros H x [Hx _]%filter_In. auto. Qed.

Lemma quo_lit_without i cs : words cs ->
  quo_lit i cs = without (1 <<< i) (List.filter (fun c => Kit_CubeHasLit c i) cs).
Proof.
  intros Hw. unfold quo_lit, without. apply map_ext_in. intros c [Hc _]%filter_In.
  rewrite RemLit_Sharp, Sharp_ldiff; [done|]. unfold words in Hw. rewrite List.Forall_forall in Hw. auto.
Qed.

Lemma lit_sub c i : is_word c -> i < 32 -> Kit_CubeHasLit c i = true -> sub (1 <<< i) c.
Proof.
  intros Hw Hi H. rewrite HasLit_spec in H by done. unfold sub. apply Z.bits_inj'. intros b Hb.
  rewrite Z.land_spec. rewrite <- (Z2Nat.id b) by done. rewrite testbit_pow by done.
  destruct (Nat.eqb_spec (Z.to_nat b) i) as [-> | ]; [by rewrite H|apply andb_false_r].
Qed.

Lemma cube_free_without cs : words cs -> cube_free cs = without (common cs) cs.
Proof.
  intros Hw. unfold cube_free, without. apply map_ext_in. intros c Hc. apply Sharp_ldiff.
  unfold words in Hw. rewrite List.Forall_forall in Hw. auto.
Qed.

Lemma common_sub cs c : words cs -> c ∈ cs -> sub (common cs) c.
Proof.
  intros Hw Hc. unfold sub. assert (is_word c) by (unfold words in Hw; rewrite List.Forall_forall in Hw; by apply Hw, list_elem_of_In).
  apply word_ext; [apply word_land; [done|by apply word_common]|by apply word_common|].
  intros b Hb. rewrite Z.land_spec, common_bit by done.
  destruct (forallb _ cs) eqn:E; [|apply andb_false_r]. rewrite forallb_forall in E.
  by rewrite E by by apply list_elem_of_In.
Qed.

Lemma sizes_without m cs : (forall c, c ∈ cs -> sub m c) -> sizes cs = sizes (without m cs) + length cs * size m.
Proof.
  induction cs as [|c cs IH]; intros Hm; [done|]. unfold without in *. cbn [map sizes length].
  rewrite IH by (intros; apply Hm; by apply elem_of_cons; right).
  rewrite (size_ldiff c m) by (apply Hm; apply elem_of_cons; by left). lia.
Qed.

Lemma sizes_filter f cs : sizes (List.filter f cs) <= sizes cs.
Proof.
  induction cs as [|c cs IH]; [done|]. cbn [List.filter].
  destruct (f c); cbn [sizes]; lia.
Qed.

(** * The level-zero kernel *)

(** What the recursion keeps: the cover is what is left of all cubes of [S] that have the cube [q]. *)
Record kernel_of (S : list Z) (q : Z) (cs : list Z) : Prop := {
  ker_antichain : antichain cs;
  ker_clean : Forall clean cs;
  ker_size : 2 <= length cs;
  ker_le : length cs <= length S;
  ker_cofactor : cofactor S cs q;
  ker_whole : forall c, c ∈ S -> sub q c -> Z.ldiff c q ∈ cs;
}.

Lemma kernel_nonzero S q cs : kernel_of S q cs -> nonzero cs.
Proof. intros H. apply antichain_nonzero; apply H. Qed.

Lemma ldiff_ldiff c q m : Z.ldiff (Z.ldiff c q) m = Z.ldiff c (Z.lor q m).
Proof. by_bits. Qed.

Lemma lor_sub_l q m c : sub (Z.lor q m) c -> sub q c.
Proof. intros H. by_bits. Qed.

Lemma kernel_without S q m cs : kernel_of S q cs -> (forall c, c ∈ cs -> sub m c) -> kernel_of S (Z.lor q m) (without m cs).
Proof.
  intros [H1 H2 H3 H4 H5 H6] Hm. constructor.
  - by apply antichain_without.
  - by apply clean_without.
  - unfold without. by rewrite length_map.
  - unfold without. by rewrite length_map.
  - by apply cofactor_without.
  - intros c Hc Hs. rewrite <- ldiff_ldiff. apply (list_elem_of_fmap_2 (fun c => Z.ldiff c m)), H6; [done|].
    by eapply lor_sub_l.
Qed.

Lemma occ_length cs i : length (List.filter (fun c => Kit_CubeHasLit c i) cs) = Z.to_nat (occ cs i).
Proof. unfold occ. lia. Qed.

(** Division by a literal of two cubes or more. *)
Lemma kernel_literal S q cs i :
  kernel_of S q cs -> i < 32 -> (2 <= occ cs i)%Z ->
  let fs := List.filter (fun c => Kit_CubeHasLit c i) cs in
  (forall c, c ∈ fs -> sub (1 <<< i) c) /\ kernel_of S (Z.lor q (1 <<< i)) (without (1 <<< i) fs).
Proof.
  intros [H1 H2 H3 H4 H5 H6] Hi Ho fs. pose proof (cleans_words cs H2) as Hw.
  assert (forall c, c ∈ cs -> is_word c) as Hcw.
  { intros c Hc. unfold words in Hw. rewrite List.Forall_forall in Hw. by apply Hw, list_elem_of_In. }
  assert (length fs = Z.to_nat (occ cs i)) as Lf by apply occ_length.
  assert (length fs <= length cs) as Lfc by apply filter_length_le.
  assert (forall c, c ∈ fs -> sub (1 <<< i) c) as Hfs.
  { intros c Hc. apply list_elem_of_In, filter_In in Hc as [Hc Hlit]. apply lit_sub; [|done|done].
    by apply Hcw, list_elem_of_In. }
  split; [done|]. constructor.
  - apply antichain_without; [by apply antichain_filter|done].
  - by apply clean_without, forall_filter.
  - unfold without. rewrite length_map. lia.
  - unfold without. rewrite length_map. lia.
  - apply cofactor_without; [by apply cofactor_filter|done].
  - intros c Hc Hs. pose proof (H6 c Hc (lor_sub_l _ _ _ Hs)) as Hd. rewrite <- ldiff_ldiff.
    apply (list_elem_of_fmap_2 (fun c => Z.ldiff c (1 <<< i))), list_elem_of_In, filter_In. split; [by apply list_elem_of_In|].
    rewrite HasLit_spec by auto. rewrite Z.ldiff_spec.
    (* the literal is not in [q], since a cube that is left has it *)
    destruct fs as [|d fs'] eqn:Ef; [exfalso; cbn in Lf; lia|].
    assert (d ∈ fs) as Hdf by (rewrite Ef; apply elem_of_cons; by left).
    pose proof Hdf as Hdc. apply list_elem_of_In, filter_In in Hdc as [Hdc%list_elem_of_In Hdl].
    rewrite HasLit_spec in Hdl by auto. destruct (H5 d Hdc) as [Hq _].
    apply (f_equal (fun x => Z.testbit x (Z.of_nat i))) in Hq, Hs.
    rewrite !Z.land_spec, ?Z.lor_spec, testbit_pow, Nat.eqb_refl, ?Z.testbit_0_l in * by lia.
    rewrite Hdl in Hq. destruct (Z.testbit q _), (Z.testbit c _); done.
Qed.

(** One step: division by the literal and removal of the common cube. *)
Lemma kernel_step S q cs s i :
  kernel_of S q cs -> rep s cs -> i < 32 -> (2 <= occ cs i)%Z ->
  exists s1 s2 cs' q', Kit_SopDivideByLiteralQuo s i = Some s1 /\ Kit_SopMakeCubeFree s1 = Some s2 /\
    rep s2 cs' /\ kernel_of S q' cs' /\ sizes cs' < sizes cs /\ q' <> 0%Z /\ common cs' = 0%Z /\
    sub q q'.
Proof.
  intros HK Hr Hi Ho. pose proof (cleans_words cs (ker_clean _ _ _ HK)) as Hw.
  destruct (DivideByLiteralQuo_spec s cs i Hr (kernel_nonzero _ _ _ HK)) as (s1 & E1 & Hr1).
  rewrite quo_lit_without in Hr1 by done. destruct (kernel_literal S q cs i HK Hi Ho) as [Hfs HK1].
  set (fs := List.filter (fun c => Kit_CubeHasLit c i) cs) in *. set (cs1 := without (1 <<< i) fs) in *.
  pose proof (cleans_words cs1 (ker_clean _ _ _ HK1)) as Hw1.
  destruct (MakeCubeFree_spec s1 cs1 Hr1 (kernel_nonzero _ _ _ HK1) Hw1) as (s2 & E2 & Hr2).
  assert (forall c, c ∈ cs1 -> sub (common cs1) c) as Hcm by (intros c Hc; by apply common_sub).
  rewrite cube_free_without in Hr2 by done.
  pose proof (kernel_without S _ (common cs1) cs1 HK1 Hcm) as HK2.
  eexists _, _, _, _. do 3 (split; [done|]). split; [exact HK2|].
  assert (Z.testbit (1 <<< i) (Z.of_nat i) = true) as Hbit by (rewrite testbit_pow by lia; apply Nat.eqb_refl).
  split; [|split; [|split]].
  - pose proof (sizes_filter (fun c => Kit_CubeHasLit c i) cs) as Hs1. fold fs in Hs1.
    pose proof (sizes_without (1 <<< i) fs Hfs) as Hs2. fold cs1 in Hs2.
    pose proof (sizes_without (common cs1) cs1 Hcm) as Hs3.
    pose proof (size_pos (1 <<< i) i Hi Hbit). pose proof (ker_size _ _ _ HK1) as L1.
    unfold cs1, without in L1. rewrite length_map in L1. nia.
  - intros E. apply (f_equal (fun x => Z.testbit x (Z.of_nat i))) in E.
    rewrite !Z.lor_spec, Hbit, Z.testbit_0_l, orb_true_r in E. done.
  - pose proof (cleans_words _ (ker_clean _ _ _ HK2)) as Hw2.
    apply word_ext; [by apply word_common|apply word_0|]. intros b Hb. rewrite common_bit, Z.testbit_0_l by done.
    apply not_true_iff_false. rewrite forallb_forall. intros Hall.
    destruct cs1 as [|c cs1'] eqn:Ec; [apply ker_size in HK1; cbn in HK1; lia|]. rewrite <- Ec in *.
    assert (In (Z.ldiff c (common cs1)) (without (common cs1) cs1)) as Hin
      by (unfold without; apply (in_map (fun c => Z.ldiff c (common cs1))); rewrite Ec; by left).
    apply Hall in Hin. rewrite Z.ldiff_spec, common_bit in Hin by done. apply andb_true_iff in Hin as [_ Hin].
    apply negb_true_iff in Hin. rewrite <- not_true_iff_false, forallb_forall in Hin. apply Hin.
    intros d Hd. specialize (Hall (Z.ldiff d (common cs1)) (in_map (fun c => Z.ldiff c (common cs1)) _ _ Hd)).
    rewrite Z.ldiff_spec in Hall. by apply andb_true_iff in Hall as [Hall _].
  - clear. by_bits.
Qed.

(** No literal below [nLits] is in two cubes. *)
Definition level_zero (nLits : nat) (cs : list Z) : Prop := forall i, i < nLits -> (occ cs i <= 1)%Z.

Lemma occ_le cs i : (occ cs i <= Z.of_nat (length cs))%Z.
Proof. unfold occ. pose proof (filter_length_le (fun c => Kit_CubeHasLit c i) cs). lia. Qed.

Lemma WorstLiteral_cases s cs nLits : rep s cs -> nonzero cs -> (Z.of_nat (length cs) < 1000000)%Z ->
  (Kit_SopWorstLiteral s nLits = Some (-1)%Z /\ level_zero nLits cs) \/
  exists i, Kit_SopWorstLiteral s nLits = Some (Z.of_nat i) /\ i < nLits /\ (2 <= occ cs i)%Z /\
    forall j, j < nLits -> (2 <= occ cs j)%Z -> (occ cs i <= occ cs j)%Z.
Proof.
  intros Hr Hz Hl. destruct (WorstLiteral_spec s cs nLits Hr Hz) as (best & var & -> & H).
  destruct H as [[[-> ->] H]|(i & -> & -> & Hi & He & H1 & H2 & H3)].
  - left. split; [done|]. intros i Hi. specialize (H i Hi). rewrite Z.leb_le in H.
    pose proof (occ_le cs i). lia.
  - right. exists i. rewrite (proj2 (Z.ltb_lt _ _)) by done. apply Z.leb_le in He.
    do 3 (split; [done|]). intros j Hj Hjo. apply H3; [done|]. by apply Z.leb_le.
Qed.

Lemma ZeroKernel_spec fuel S q cs s nLits :
  nLits <= 32 -> (Z.of_nat (length S) < 1000000)%Z -> sizes cs < fuel -> kernel_of S q cs -> rep s cs ->
  exists s' cs' q', Kit_SopDivisorZeroKernel_rec fuel s nLits = Some s' /\ rep s' cs' /\ kernel_of S q' cs' /\
    level_zero nLits cs' /\ sub q q' /\ (common cs = 0%Z -> common cs' = 0%Z) /\
    (~ level_zero nLits cs -> q' <> 0%Z /\ common cs' = 0%Z).
Proof.
  intros Hn HS. revert q cs s. induction fuel as [|fuel IH]; intros q cs s Hf HK Hr; [lia|].
  cbn [Kit_SopDivisorZeroKernel_rec].
  destruct (WorstLiteral_cases s cs nLits Hr (kernel_nonzero _ _ _ HK)) as [[-> Hz]|(i & -> & Hi & Ho & _)];
    [apply ker_le in HK; lia| |]; cbn [mbind option_bind].
  - rewrite Z.eqb_refl. exists s, cs, q. do 4 (split; [done|]). split; [apply sub_refl|]. done.
  - rewrite (proj2 (Z.eqb_neq _ _)), Nat2Z.id by lia.
    destruct (kernel_step S q cs s i HK Hr ltac:(lia) Ho) as (s1 & s2 & cs2 & q2 & -> & E2 & Hr2 & HK2 & Hlt & Hq2 & Hc2 & Hs2).
    cbn [mbind option_bind]. rewrite E2. cbn [mbind option_bind].
    destruct (IH q2 cs2 s2) as (s3 & cs3 & q3 & E3 & Hr3 & HK3 & Hz3 & Hs3 & Hc3 & _); [lia|done|done|].
    specialize (Hc3 Hc2). exists s3, cs3, q3. do 4 (split; [done|]). split; [by eapply sub_trans|].
    split; [done|]. intros _. split; [|done]. intros ->. apply Hq2. clear -Hs3. by_bits.
Qed.

(** * The divisor *)

Lemma kernel_of_refl S : antichain S -> Forall clean S -> 2 <= length S -> kernel_of S 0 S.
Proof.
  intros H1 H2 H3. constructor; [done..| |].
  - intros d Hd. rewrite Z.lor_0_l. split; [|done]. clear. by_bits.
  - intros c Hc _. by rewrite Z.ldiff_0_r.
Qed.

Lemma Divisor_spec fuel S s nLits V :
  nLits <= 32 -> (Z.of_nat (length S) < 1000000)%Z -> sizes S < fuel ->
  antichain S -> Forall clean S -> nonzero S -> rep s S -> (nSize V + Z.of_nat (length S) <= nCap V)%Z ->
  (Kit_SopDivisor fuel s nLits V = Some (None, V) /\ (length S <= 1 \/ level_zero nLits S)) \/
  exists s' V' K q, Kit_SopDivisor fuel s nLits V = Some (Some s', V') /\ rep s' K /\
    kernel_of S q K /\ level_zero nLits K /\ q <> 0%Z /\ common K = 0%Z /\ fetched V V' (Z.of_nat (length S)) /\
    exists i, i < nLits /\ (2 <= occ S i)%Z.
Proof.
  intros Hn Hl Hf HS HSc HSz Hr Hm. unfold Kit_SopDivisor, Kit_SopCubeNum. rewrite (proj1 Hr).
  destruct (Z.leb_spec (Z.of_nat (length S)) 1); [left; split; [done|left; lia]|].
  unfold Kit_SopAnyLiteral. destruct (any_literal_spec s S 0 nLits Hr HSz) as [[-> H1]|(i & -> & Hi & Ho & _)];
    cbn [mbind option_bind].
  { rewrite Z.eqb_refl. left. split; [done|]. right. intros i Hi. apply H1. lia. }
  rewrite (proj2 (Z.eqb_neq _ _)) by lia.
  destruct (SopDup_spec s S V Hr HSz Hm) as (s1 & V1 & -> & Hr1 & Hf1). cbn [mbind option_bind].
  destruct (ZeroKernel_spec fuel S 0 S s1 nLits Hn Hl Hf) as (s2 & K & q & -> & Hr2 & HK & Hz & _ & _ & Hk);
    [apply kernel_of_refl; [done..|lia]|done|]. cbn [mbind option_bind].
  destruct Hk as [Hq Hc]; [intros Hz'; specialize (Hz' i ltac:(lia)); lia|].
  rewrite (proj1 Hr2), (proj2 (Z.ltb_lt _ _)) by (apply ker_size in HK; lia).
  right. exists s2, V1, K, q. repeat (split; [done|]). exists i. split; lia.
Qed.

(** * Properties *)

(** C26. [Kit_SopDivisor] on a cover in which no cube contains another, with fuel above the number of its literals
    and memory for a copy: the recursion ends; it returns 0 exactly when the cover has at most one cube or no
    literal in two cubes; otherwise the divisor is a level-zero kernel: for a non-empty co-kernel cube [q] its
    cubes are exactly the whole quotient of the cover by [q] (the product of [q] with every cube of the divisor
    is a cube of the cover and shares no literal, and every cube of the cover that has [q] leaves its other
    literals as a cube of the divisor), it has at least two cubes, none contains another, they have no literal
    in common, and no literal is in two of them. *)
Theorem divisor_correct fuel cSop S nLits vMemory :
  nLits <= 32 -> (Z.of_nat (length S) < 1000000)%Z -> sizes S < fuel ->
  rep cSop S -> antichain S -> Forall clean S -> nonzero S ->
  (nSize vMemory + Z.of_nat (length S) <= nCap vMemory)%Z ->
  exists r vMemory', Kit_SopDivisor fuel cSop nLits vMemory = Some (r, vMemory') /\
    (r = None <-> length S <= 1 \/ forall i, i < nLits -> (occ S i <= 1)%Z) /\
    forall cDiv, r = Some cDiv -> exists K q, rep cDiv K /\ 2 <= length K <= length S /\ antichain K /\
      common K = 0%Z /\ (forall i, i < nLits -> (occ K i <= 1)%Z) /\
      q <> 0%Z /\ (forall d, d ∈ K -> Z.land q d = 0%Z /\ Z.lor q d ∈ S) /\
      forall c, c ∈ S -> Z.land c q = q -> Z.ldiff c q ∈ K.
Proof.
  intros Hn Hl Hf Hr HS Hc Hz Hm.
  destruct (Divisor_spec fuel S cSop nLits vMemory Hn Hl Hf HS Hc Hz Hr Hm)
    as [[E H]|(s' & V' & K & q & E & H1 & H2 & H3 & H4 & H5 & H6 & i & Hi & Ho)].
  - exists None, vMemory. by repeat split.
  - exists (Some s'), V'. split; [done|]. split.
    + split; [by intros [=]|]. intros [H|H]; exfalso; [destruct H2; lia|].
      specialize (H i Hi). lia.
    + intros cDiv [= <-]. exists K, q. destruct H2 as [A1 _ A3 A4 A5 A6].
      do 7 (split; [done|]). exact A6.
Qed.

Lemma divisor_correct_witness :
  let S := [0x5; 0x9; 0x6; 0xA; 0x10]%Z in
  let cSop := {| nLits := 0; nCubes := 5; pCubes := S |} in
  let V := {| nCap := 5; nSize := 0; pArray := [] |} in
  option_map (fun r => option_map (fun s => (nCubes s, pCubes s)) r.1) (Kit_SopDivisor 20 cSop 5 V) =
    Some (Some (2%Z, [0x4; 0x8; 0x6; 0xA; 0x10]%Z)) /\
  exists r vMemory', Kit_SopDivisor 20 cSop 5 V = Some (r, vMemory') /\
    (r = None <-> length S <= 1 \/ forall i, i < 5 -> (occ S i <= 1)%Z) /\
    forall cDiv, r = Some cDiv -> exists K q, rep cDiv K /\ 2 <= length K <= length S /\ antichain K /\
      common K = 0%Z /\ (forall i, i < 5 -> (occ K i <= 1)%Z) /\
      q <> 0%Z /\ (forall d, d ∈ K -> Z.land q d = 0%Z /\ Z.lor q d ∈ S) /\
      forall c, c ∈ S -> Z.land c q = q -> Z.ldiff c q ∈ K.
Proof.
  intros S cSop V. split; [reflexivity|].
  apply (divisor_correct 20 cSop S 5 V).
  - lia.
  - cbn. lia.
  - by apply Nat.ltb_lt.
  - by split.
  - apply antichainb_true. reflexivity.
  - by repeat constructor.
  - by repeat constructor.
  - cbn. lia.
Defined.
