(* ===== verification/Factor.v ===== *)
(** [kitFactor.c]: algebraic factoring of a cover into an and-graph.

    The bits of a cube stand for literals in the inverse encoding: bit [2v] is the positive
    and bit [2v+1] the negative literal of variable [v].  The graph and the memory manager
    are passed from call to call; [None] is a failed assertion, a null pointer followed, or
    fuel that ran out. *)
From S2P Require Import Prelude Words VecInt Cube Isop Graph Sop Divide Kernel.

(** * The routines *)

Definition KIT_FACTOR_MEM_LIMIT : Z := (2 ^ 20)%Z.

(** The loop that finds the splitting point: the place of literal number [nLits1]. *)
Fixpoint split_point (uCube : Z) (nLits1 nLits : nat) (i k : nat) : nat :=
  match k with
  | O => i
  | S k =>
    if Kit_CubeHasLit uCube i then
      if nLits =? nLits1 then i else split_point uCube nLits1 (S nLits) (S i) k
    else split_point uCube nLits1 nLits (S i) k
  end.

Fixpoint Kit_SopFactorTrivialCube_rec (fuel : nat) (pFForm : Kit_Graph_t) (uCube : Z) (nStart nFinish : nat)
  : option (Kit_Edge_t * Kit_Graph_t) :=
  match fuel with
  | O => None
  | S fuel =>
    assert! negb (uCube =? 0)%Z in
    let '(iLit, nLits) := for_range nStart nFinish (fun i '(iLit, nLits) =>
      if Kit_CubeHasLit uCube i then (Z.of_nat i, S nLits) else (iLit, nLits)) ((-1)%Z, 0) in
    assert! negb (iLit =? -1)%Z in
    if nLits =? 1 then Some (Kit_EdgeCreate (iLit / 2) (iLit mod 2), pFForm)
    else
      let nLits1 := nLits / 2 in
      let i := split_point uCube nLits1 0 nStart (nFinish - nStart) in
      '(eNode1, pFForm) ← Kit_SopFactorTrivialCube_rec fuel pFForm uCube nStart i;
      '(eNode2, pFForm) ← Kit_SopFactorTrivialCube_rec fuel pFForm uCube i nFinish;
      Some (Kit_GraphAddNodeAnd pFForm eNode1 eNode2)
  end.

(** Both parts of a split are shorter than the interval: this fuel is enough. *)
Definition Kit_SopFactorTrivialCube (pFForm : Kit_Graph_t) (uCube : Z) (nLits : nat) : option (Kit_Edge_t * Kit_Graph_t) :=
  Kit_SopFactorTrivialCube_rec (S nLits) pFForm uCube 0 nLits.

(** [pCubes + nCubes1] drops the first cubes. *)
Fixpoint Kit_SopFactorTrivial_rec (fuel : nat) (pFForm : Kit_Graph_t) (pCubes : list Z) (nCubes nLits : nat)
  : option (Kit_Edge_t * Kit_Graph_t) :=
  match fuel with
  | O => None
  | S fuel =>
    if nCubes =? 1 then Kit_SopFactorTrivialCube_rec (S nLits) pFForm pCubes.[0] 0 nLits
    else
      let nCubes1 := nCubes / 2 in
      let nCubes2 := nCubes - nCubes1 in
      '(eNode1, pFForm) ← Kit_SopFactorTrivial_rec fuel pFForm pCubes nCubes1 nLits;
      '(eNode2, pFForm) ← Kit_SopFactorTrivial_rec fuel pFForm (drop nCubes1 pCubes) nCubes2 nLits;
      Some (Kit_GraphAddNodeOr pFForm eNode1 eNode2)
  end.

Definition Kit_SopFactorTrivial (pFForm : Kit_Graph_t) (cSop : Kit_Sop_t) (nLits : nat) : option (Kit_Edge_t * Kit_Graph_t) :=
  let nCubes := Z.to_nat (nCubes cSop) in
  Kit_SopFactorTrivial_rec (S nCubes) pFForm (pCubes cSop) nCubes nLits.

(** The leaf case calls the main recursion, its first argument. *)
Definition Kit_SopFactorLF_rec
  (factor : Kit_Graph_t -> Kit_Sop_t -> nat -> Vec_Int_t -> option (Kit_Edge_t * Kit_Graph_t * Vec_Int_t))
  (pFForm : Kit_Graph_t) (cSop cSimple : Kit_Sop_t) (nLits : nat) (vMemory : Vec_Int_t)
  : option (Kit_Edge_t * Kit_Graph_t * Vec_Int_t) :=
  assert! (Kit_SopCubeNum cSimple =? 1)%Z in
  '(cDiv, vMemory) ← Kit_SopBestLiteralCover cSop (Kit_SopCube cSimple 0) nLits vMemory;
  '(cQuo, cRem, vMemory) ← Kit_SopDivideByCube cSop cDiv vMemory;
  '(eNodeDiv, pFForm) ← Kit_SopFactorTrivialCube pFForm (Kit_SopCube cDiv 0) nLits;
  '(eNodeQuo, pFForm, vMemory) ← factor pFForm cQuo nLits vMemory;
  let '(eNodeAnd, pFForm) := Kit_GraphAddNodeAnd pFForm eNodeDiv eNodeQuo in
  if (Kit_SopCubeNum cRem =? 0)%Z then Some (eNodeAnd, pFForm, vMemory) else
  '(eNodeRem, pFForm, vMemory) ← factor pFForm cRem nLits vMemory;
  Some (Kit_GraphAddNodeOr pFForm eNodeAnd eNodeRem, vMemory).

Fixpoint Kit_SopFactor_rec (fuel : nat) (pFForm : Kit_Graph_t) (cSop : Kit_Sop_t) (nLits : nat) (vMemory : Vec_Int_t)
  : option (Kit_Edge_t * Kit_Graph_t * Vec_Int_t) :=
  match fuel with
  | O => None
  | S fuel =>
    assert! (0 <? Kit_SopCubeNum cSop)%Z in
    '(cDiv, vMemory) ← Kit_SopDivisor fuel cSop nLits vMemory;
    match cDiv with
    | None => r ← Kit_SopFactorTrivial pFForm cSop nLits; Some (r, vMemory)
    | Some cDiv =>
      '(cSop, cQuo, cRem, vMemory) ← Kit_SopDivideInternal cSop cDiv vMemory;
      assert! (0 <? Kit_SopCubeNum cQuo)%Z in
      if (Kit_SopCubeNum cQuo =? 1)%Z then
        Kit_SopFactorLF_rec (Kit_SopFactor_rec fuel) pFForm cSop cQuo nLits vMemory
      else
        cQuo ← Kit_SopMakeCubeFree cQuo;
        '(cSop, cDiv, cRem, vMemory) ← Kit_SopDivideInternal cSop cQuo vMemory;
        fFree ← Kit_SopIsCubeFree cDiv;
        if (fFree : bool) then
          '(eNodeDiv, pFForm, vMemory) ← Kit_SopFactor_rec fuel pFForm cDiv nLits vMemory;
          '(eNodeQuo, pFForm, vMemory) ← Kit_SopFactor_rec fuel pFForm cQuo nLits vMemory;
          let '(eNodeAnd, pFForm) := Kit_GraphAddNodeAnd pFForm eNodeDiv eNodeQuo in
          if (Kit_SopCubeNum cRem =? 0)%Z then Some (eNodeAnd, pFForm, vMemory) else
          '(eNodeRem, pFForm, vMemory) ← Kit_SopFactor_rec fuel pFForm cRem nLits vMemory;
          Some (Kit_GraphAddNodeOr pFForm eNodeAnd eNodeRem, vMemory)
        else
          '(cCom, vMemory) ← Kit_SopCommonCubeCover cDiv vMemory;
          Kit_SopFactorLF_rec (Kit_SopFactor_rec fuel) pFForm cSop cCom nLits vMemory
    end
  end.

(** [vCover] are the entries of the cover, which may be the first words of [vMemory]. *)
Definition Kit_SopFactor (fuel : nat) (vCover : list Z) (fCompl : bool) (nVars : nat) (vMemory : Vec_Int_t)
  : option (Kit_Graph_t * Vec_Int_t) :=
  assert! nVars <? 16 in
  if length vCover =? 0 then Some (Kit_GraphCreateConst0, vMemory)
  else if (length vCover =? 1) && (vCover.[0] =? 0)%Z then Some (Kit_GraphCreateConst1, vMemory)
  else
    let vMemory := Vec_IntGrow vMemory KIT_FACTOR_MEM_LIMIT in
    '(cSop, vMemory) ← Kit_SopCreateInverse vCover (2 * nVars) vMemory;
    let pFForm := Kit_GraphCreate nVars in
    '(eRoot, pFForm, vMemory) ← Kit_SopFactor_rec fuel pFForm cSop (2 * nVars) vMemory;
    let pFForm := Kit_GraphSetRoot pFForm eRoot in
    let pFForm := if fCompl then Kit_GraphComplement pFForm else pFForm in
    Some (pFForm, vMemory).

(** * Building gates one after the other *)

(** The edge is one whose truth table [Kit_GraphToTruth] can read: a leaf, without new nodes, or the last node. *)
Definition at_end (g : Kit_Graph_t) (r : Kit_Edge_t * Kit_Graph_t) : Prop :=
  edge_node r.1 < nLeaves r.2 /\ nSize r.2 = nSize g \/ edge_node r.1 = nSize r.2 - 1.

Definition builds (g : Kit_Graph_t) (k : nat) (f : nat -> bool) (r : Kit_Edge_t * Kit_Graph_t) : Prop :=
  adds g k f r /\ at_end g r.

Lemma builds_ext g k f f' r : (forall m, f m = f' m) -> builds g k f r -> builds g k f' r.
Proof. intros E [H1 H2]. split; [by eapply adds_ext|done]. Qed.

Lemma builds_mono g k k' f r : k <= k' -> builds g k f r -> builds g k' f r.
Proof. intros E [(A & B & C & D & F) G]. split; [|done]. repeat (split; [done || lia|]). done. Qed.

Lemma And_at_end g g' e0 e1 : small g 1 -> at_end g' (Kit_GraphAddNodeAnd g e0 e1).
Proof.
  unfold small. intros H. right. unfold Kit_GraphAddNodeAnd. cbn [fst snd nSize write_node Kit_GraphAppendNode].
  rewrite EdgeCreate_small by lia. unfold edge_node. cbn [Node]. lia.
Qed.

Lemma Or_at_end g g' e0 e1 : small g 1 -> at_end g' (Kit_GraphAddNodeOr g e0 e1).
Proof.
  unfold small. intros H. right. unfold Kit_GraphAddNodeOr. cbn [fst snd nSize write_node Kit_GraphAppendNode].
  rewrite EdgeCreate_small by lia. unfold edge_node. cbn [Node]. lia.
Qed.

Lemma builds_wf g k f r : builds g k f r -> wf_graph r.2.
Proof. intros [[H _] _]. done. Qed.

Lemma builds_leaves g k f r : builds g k f r -> nLeaves r.2 = nLeaves g.
Proof. intros [(_ & H & _) _]. apply H. Qed.

Lemma builds_small g k f r j : builds g k f r -> small g (k + j) -> small r.2 j.
Proof. intros [H _]. by apply (small_after _ _ f). Qed.

(** Two builds and the gate that joins them. *)
Lemma builds_two g k0 k1 f0 f1 e0 g0 e1 g1 :
  wf_graph g -> builds g k0 f0 (e0, g0) -> builds g0 k1 f1 (e1, g1) -> small g (k0 + k1 + 1) ->
  builds g (k0 + k1 + 1) (fun m => f0 m && f1 m) (Kit_GraphAddNodeAnd g1 e0 e1) /\
  builds g (k0 + k1 + 1) (fun m => f0 m || f1 m) (Kit_GraphAddNodeOr g1 e0 e1).
Proof.
  intros Hw [A0 _] [A1 _] Hs. pose proof A0 as (Hw0 & _ & _ & Hi0 & F0). pose proof A1 as (Hw1 & _ & _ & Hi1 & F1).
  cbn [fst snd] in *. destruct (adds_edge _ _ _ _ e0 Hw0 A1 Hi0) as [Hi0' E0]. cbn [fst snd] in *.
  pose proof (adds_trans _ _ _ _ _ _ _ _ Hw A0 A1) as A. rewrite <- Nat.add_assoc in Hs.
  assert (small g1 1) as Hs1 by (apply (small_after _ _ _ _ 1 A); by rewrite <- Nat.add_assoc).
  split; (split; [|by (apply And_at_end || apply Or_at_end)]).
  - eapply adds_ext; [|apply (adds_trans _ _ _ _ _ _ _ _ Hw A (AddNodeAnd_spec g1 e0 e1 Hw1 Hs1 Hi0' Hi1))].
    intros m. cbv beta. by rewrite E0, F0, F1.
  - eapply adds_ext; [|apply (adds_trans _ _ _ _ _ _ _ _ Hw A (AddNodeOr_spec g1 e0 e1 Hw1 Hs1 Hi0' Hi1))].
    intros m. cbv beta. by rewrite E0, F0, F1.
Qed.

(** * Cubes in the inverse encoding *)

Definition lit_sat (m i : nat) : bool := xorb (Nat.odd i) (Nat.testbit m (i / 2)).

(** The literals of the cube in an interval hold. *)
Definition range_sat (c : Z) (lo hi : nat) (m : nat) : bool :=
  forallb (fun i => negb (Z.testbit c (Z.of_nat i)) || lit_sat m i) (seq lo (hi - lo)).
Definition cube_sat (c : Z) (m : nat) : bool := range_sat c 0 32 m.
Definition cover_sat (cs : list Z) (m : nat) : bool := existsb (fun c => cube_sat c m) cs.

(** Number of literals in an interval. *)
Definition range_size (c : Z) (lo hi : nat) : nat :=
  length (List.filter (fun i => Z.testbit c (Z.of_nat i)) (seq lo (hi - lo))).

Lemma seq_split lo mid hi : lo <= mid <= hi -> seq lo (hi - lo) = seq lo (mid - lo) ++ seq mid (hi - mid).
Proof. intros H. replace (hi - lo) with ((mid - lo) + (hi - mid)) by lia. rewrite seq_app. do 2 f_equal; lia. Qed.

Lemma range_sat_split c lo mid hi m : lo <= mid <= hi ->
  range_sat c lo hi m = range_sat c lo mid m && range_sat c mid hi m.
Proof. intros H. unfold range_sat. by rewrite (seq_split lo mid hi), forallb_app. Qed.

Lemma range_size_split c lo mid hi : lo <= mid <= hi -> range_size c lo hi = range_size c lo mid + range_size c mid hi.
Proof. intros H. unfold range_size. by rewrite (seq_split lo mid hi), List.filter_app, length_app. Qed.

Lemma range_sat_none c lo hi m : range_size c lo hi = 0 -> range_sat c lo hi m = true.
Proof.
  unfold range_size, range_sat. intros H%length_zero_iff_nil. apply forallb_forall. intros i Hi.
  destruct (Z.testbit c (Z.of_nat i)) eqn:E; [|done].
  assert (In i []) as []. rewrite <- H. by apply filter_In.
Qed.

Lemma range_size_S c lo hi : lo <= hi -> range_size c lo (S hi) = range_size c lo hi + Nat.b2n (Z.testbit c (Z.of_nat hi)).
Proof.
  intros H. rewrite (range_size_split c lo hi (S hi)) by lia. f_equal. unfold range_size.
  replace (S hi - hi) with 1 by lia. cbn [seq List.filter]. by destruct (Z.testbit _ _).
Qed.

Lemma range_sat_S c lo hi m : lo <= hi ->
  range_sat c lo (S hi) m = range_sat c lo hi m && (negb (Z.testbit c (Z.of_nat hi)) || lit_sat m hi).
Proof.
  intros H. rewrite (range_sat_split c lo hi (S hi)) by lia. f_equal. unfold range_sat.
  replace (S hi - hi) with 1 by lia. cbn [seq forallb]. apply andb_true_r.
Qed.

(** * One cube *)

(** What the counting loop computes: the number of literals and the last of them. *)
Lemma count_lits u a b : is_word u -> a <= b <= 32 ->
  exists iLit, for_range a b (fun i '(iLit, nLits) =>
      if Kit_CubeHasLit u i then (Z.of_nat i, S nLits) else (iLit, nLits)) ((-1)%Z, 0) = (iLit, range_size u a b) /\
    (range_size u a b = 0 \/ exists i, iLit = Z.of_nat i /\ a <= i < b /\
       (range_size u a b = 1 -> forall m, range_sat u a b m = lit_sat m i)).
Proof.
  intros Hw [Hab Hb].
  match goal with |- context [for_range a b ?f _] => set (body := f) end.
  apply (for_range_ind (fun n s => exists iLit, s = (iLit, range_size u a n) /\
    (range_size u a n = 0 \/ exists i, iLit = Z.of_nat i /\ a <= i < n /\
       (range_size u a n = 1 -> forall m, range_sat u a n m = lit_sat m i))) a b body ((-1)%Z, 0) Hab).
  - exists (-1)%Z. unfold range_size. rewrite Nat.sub_diag. cbn. auto.
  - intros i _ Hi (iLit & -> & H). unfold body. rewrite HasLit_spec by (done || lia).
    rewrite range_size_S by lia. setoid_rewrite range_sat_S; [|lia].
    destruct (Z.testbit u (Z.of_nat i)); cbn [Nat.b2n negb orb]; eexists; (split; [f_equal; lia|]).
    + right. exists i. split; [done|]. split; [lia|]. intros E m. by rewrite range_sat_none by lia.
    + rewrite Nat.add_0_r. destruct H as [H|(l & -> & Hl & H)]; [by left|]. right. exists l.
      split; [done|]. split; [lia|]. intros E m. by rewrite andb_true_r, H.
Qed.

(** The splitting loop stops at literal number [n1] of the interval. *)
Lemma split_point_spec u n1 i k n :
  is_word u -> i + k <= 32 -> n <= n1 < n + range_size u i (i + k) ->
  let j := split_point u n1 n i k in i <= j < i + k /\ n + range_size u i j = n1.
Proof.
  intros Hw. revert i n. induction k as [|k IH]; intros i n Hi Hn; cbv zeta.
  { unfold range_size in Hn. replace (i + 0 - i) with 0 in Hn by lia. cbn in Hn. lia. }
  cbn [split_point]. rewrite HasLit_spec by (done || lia).
  assert (forall e, S i <= e -> range_size u i e = Nat.b2n (Z.testbit u (Z.of_nat i)) + range_size u (S i) e) as Hs.
  { intros e He. rewrite (range_size_split u i (S i) e) by lia. f_equal. rewrite range_size_S by lia.
    unfold range_size. by rewrite Nat.sub_diag. }
  rewrite Hs in Hn by lia. replace (i + S k) with (S i + k) in Hn by lia.
  destruct (Z.testbit u (Z.of_nat i)) eqn:E; cbn [Nat.b2n] in *; [destruct (Nat.eqb_spec n n1)|].
  - split; [lia|]. unfold range_size. rewrite Nat.sub_diag. cbn. lia.
  - destruct (IH (S i) (S n)) as [H1 H2]; [lia|lia|]. cbv zeta in *. split; [lia|]. rewrite Hs by lia. lia.
  - destruct (IH (S i) n) as [H1 H2]; [lia|lia|]. cbv zeta in *. split; [lia|]. rewrite Hs by lia. lia.
Qed.

Lemma lit_edge g i : wf_graph g -> i / 2 < nLeaves g -> small g 0 ->
  builds g 0 (fun m => lit_sat m i) (Kit_EdgeCreate (Z.of_nat i / 2) (Z.of_nat i mod 2), g).
Proof.
  intros Hw Hi Hs. pose proof (wf_leaves g Hw). unfold small in Hs.
  change 2%Z with (Z.of_nat 2). rewrite <- Nat2Z.inj_div, <- Nat2Z.inj_mod. change (Z.of_nat 2) with 2%Z in *.
  rewrite EdgeCreate_small by lia.
  split; [|left; split; [unfold edge_node; cbn [fst snd Node]; lia|done]].
  split; [done|]. split; [apply extends_refl|]. cbn [fst snd]. split; [lia|]. split; [unfold edge_in; cbn [Node]; lia|].
  intros m. unfold edge_eval, edge_node. cbn [fCompl Node]. rewrite Nat2Z.id, node_eval_leaf by done.
  unfold lit_sat. f_equal.
  pose proof (Nat.div_mod_eq i 2) as Ed. pose proof (Nat.mod_upper_bound i 2 ltac:(lia)).
  replace (Nat.odd i) with (Nat.odd (2 * (i / 2) + i mod 2)) by (f_equal; lia).
  rewrite Nat.odd_add, Nat.odd_mul. cbn [Nat.odd Nat.even negb andb].
  destruct (i mod 2) as [|[|]]; [done|done|lia].
Qed.

Lemma range_size_nonzero u a b : 0 < range_size u a b -> u <> 0%Z.
Proof.
  intros H ->. contradict H. unfold range_size. apply Nat.le_ngt, Nat.le_0_r, length_zero_iff_nil.
  induction (seq a (b - a)) as [|i l IH]; [done|]. cbn [List.filter]. by rewrite Z.testbit_0_l.
Qed.

Lemma TrivialCube_rec_spec fuel g u a b :
  is_word u -> a <= b <= 32 -> b <= 2 * nLeaves g -> 0 < range_size u a b -> b - a < fuel ->
  wf_graph g -> small g (range_size u a b - 1) ->
  exists r, Kit_SopFactorTrivialCube_rec fuel g u a b = Some r /\ builds g (range_size u a b - 1) (range_sat u a b) r.
Proof.
  intros Hu. revert g a b. induction fuel as [|fuel IH]; intros g a b Hab Hb Hn Hf Hw Hs; [lia|].
  cbn [Kit_SopFactorTrivialCube_rec]. rewrite (proj2 (Z.eqb_neq u 0)) by by eapply range_size_nonzero. cbn [negb].
  destruct (count_lits u a b Hu Hab) as (iLit & -> & [H0|(i & -> & Hi & H1)]); [lia|].
  rewrite (proj2 (Z.eqb_neq (Z.of_nat i) (-1))) by lia. cbn [negb].
  destruct (Nat.eqb_spec (range_size u a b) 1) as [E|Hne].
  - eexists. split; [done|]. rewrite E. eapply builds_ext; [|apply lit_edge; [done| |by rewrite E in Hs]].
    + intros m. by rewrite H1.
    + apply Nat.Div0.div_lt_upper_bound. lia.
  - set (n := range_size u a b) in *. assert (0 < n / 2 < n) as Hh
      by (split; [apply Nat.div_str_pos; lia|apply Nat.div_lt; lia]).
    destruct (split_point_spec u (n / 2) a (b - a) 0 Hu) as [Hj1 Hj2]; [lia|replace (a + (b - a)) with b by lia; fold n; lia|].
    cbv zeta in Hj1, Hj2. set (j := split_point u (n / 2) 0 a (b - a)) in *.
    pose proof (range_size_split u a j b ltac:(lia)) as Hsp. fold n in Hsp.
    assert (a < j) as Haj. { destruct (decide (a = j)) as [Ej|]; [|lia]. rewrite <- Ej in Hj2. unfold range_size in Hj2. rewrite Nat.sub_diag in Hj2. cbn [seq List.filter length Nat.add] in Hj2. lia. }
    destruct (IH g a j) as ([e0 g0] & -> & B0); [lia|lia|lia|lia|done|by apply (small_le g (n - 1)); [lia|]|].
    cbn [mbind option_bind].
    destruct (IH g0 j b) as ([e1 g1] & -> & B1); [lia| |lia|lia|by apply (builds_wf _ _ _ _ B0)| |].
    { pose proof (builds_leaves _ _ _ _ B0) as El. cbn [snd] in El. lia. }
    { apply (builds_small _ _ _ _ _ B0). apply (small_le g (n - 1)); [lia|done]. }
    cbn [mbind option_bind]. eexists. split; [done|].
    destruct (builds_two _ _ _ _ _ _ _ _ _ Hw B0 B1) as [B _]; [by apply (small_le g (n - 1)); [lia|]|].
    replace (n - 1) with (range_size u a j - 1 + (range_size u j b - 1) + 1) by lia.
    eapply builds_ext; [|exact B]. intros m. by rewrite (range_sat_split u a j b) by lia.
Qed.

(** A cube over the first [nLits] literals. *)
Definition lits_below (nLits : nat) (c : Z) : Prop :=
  is_word c /\ forall i, nLits <= i -> Z.testbit c (Z.of_nat i) = false.

Lemma range_none c lo hi : (forall i, lo <= i < hi -> Z.testbit c (Z.of_nat i) = false) -> range_size c lo hi = 0.
Proof.
  intros H. unfold range_size. apply length_zero_iff_nil. destruct (List.filter _ _) as [|i l] eqn:E; [done|].
  assert (In i (i :: l)) as Hi by by left. rewrite <- E in Hi. apply filter_In in Hi as [Hi Hc].
  apply in_seq in Hi. rewrite H in Hc; [done|lia].
Qed.

Lemma size_range c : size c = range_size c 0 32.
Proof. unfold size, range_size. by rewrite Nat.sub_0_r. Qed.

Lemma below_size n c : n <= 32 -> lits_below n c -> range_size c 0 n = size c.
Proof.
  intros Hn [_ H]. rewrite size_range, (range_size_split c 0 n 32) by lia.
  rewrite (range_none c n 32); [lia|]. intros i Hi. apply H. lia.
Qed.

Lemma below_sat n c m : n <= 32 -> lits_below n c -> range_sat c 0 n m = cube_sat c m.
Proof.
  intros Hn [_ H]. unfold cube_sat. rewrite (range_sat_split c 0 n 32) by lia.
  rewrite (range_sat_none c n 32); [by rewrite andb_true_r|]. apply range_none. intros i Hi. apply H. lia.
Qed.

Lemma TrivialCube_spec g u nLits :
  lits_below nLits u -> nLits <= 32 -> nLits <= 2 * nLeaves g -> u <> 0%Z -> wf_graph g -> small g (size u - 1) ->
  exists r, Kit_SopFactorTrivialCube_rec (S nLits) g u 0 nLits = Some r /\ builds g (size u - 1) (cube_sat u) r.
Proof.
  intros Hu Hn Hl Hz Hw Hs. pose proof (below_size nLits u Hn Hu) as E. rewrite <- E in *.
  destruct (TrivialCube_rec_spec (S nLits) g u 0 nLits) as (r & -> & B); [apply Hu|lia|done| |lia|done|done|].
  { rewrite E. apply size_nonzero; [apply Hu|done]. }
  eexists. split; [done|]. eapply builds_ext; [|exact B]. intros m. by apply below_sat.
Qed.

(** * A cover, cube by cube *)

Lemma cover_sat_app cs ds m : cover_sat (cs ++ ds) m = cover_sat cs m || cover_sat ds m.
Proof. apply existsb_app. Qed.

Lemma sizes_pos cs : Forall is_word cs -> nonzero cs -> length cs <= sizes cs.
Proof.
  intros Hw. induction Hw as [|c cs Hc Hcs IH]; intros Hz; [done|]. inversion_clear Hz as [|? ? Hn Hz'].
  cbn [length sizes]. pose proof (size_nonzero c Hc Hn). specialize (IH Hz'). lia.
Qed.

Lemma sizes_one c : sizes [c] = size c.
Proof. apply Nat.add_0_r. Qed.

Lemma Trivial_rec_one fuel g p c nLits :
  take 1 p = [c] -> lits_below nLits c -> c <> 0%Z -> nLits <= 32 -> nLits <= 2 * nLeaves g -> wf_graph g -> small g (size c - 1) ->
  exists r, Kit_SopFactorTrivial_rec (S fuel) g p 1 nLits = Some r /\ builds g (size c - 1) (cube_sat c) r.
Proof.
  intros Hp Hc Hz Hn Hl Hw Hs. destruct (TrivialCube_spec g c nLits Hc Hn Hl Hz Hw Hs) as (r & E & B).
  exists r. split; [|done]. cbn [Kit_SopFactorTrivial_rec]. rewrite Nat.eqb_refl.
  assert (p.[0] = c) as ->; [|exact E]. destruct p as [|c' p]; [done|]. cbn in Hp. by injection Hp.
Qed.

Lemma Trivial_rec_spec fuel g p cs nLits :
  take (length cs) p = cs -> cs <> [] -> length cs < fuel ->
  Forall (lits_below nLits) cs -> nonzero cs -> nLits <= 32 -> nLits <= 2 * nLeaves g -> wf_graph g -> small g (sizes cs - 1) ->
  exists r, Kit_SopFactorTrivial_rec fuel g p (length cs) nLits = Some r /\ builds g (sizes cs - 1) (cover_sat cs) r.
Proof.
  revert g p cs. induction fuel as [|fuel IH]; intros g p cs Hp Hne Hf Hc Hz Hn Hl Hw Hs; [lia|].
  destruct (decide (length cs = 1)) as [E|E].
  - rewrite E in *. destruct cs as [|c [|]]; [done| |done]. inversion_clear Hc. inversion_clear Hz. rewrite sizes_one in *.
    destruct (Trivial_rec_one fuel g p c nLits) as (r & E' & B); [done..|]. exists r. split; [exact E'|].
    eapply builds_ext; [|exact B]. intros m. cbn [cover_sat existsb]. by rewrite orb_false_r.
  - cbn [Kit_SopFactorTrivial_rec]. rewrite (proj2 (Nat.eqb_neq _ _) E). set (n := length cs) in *. assert (0 < n) as Hn0 by (unfold n; destruct cs; [done|cbn; lia]).
    assert (0 < n / 2 < n) as Hh by (split; [apply Nat.div_str_pos; lia|apply Nat.div_lt; lia]).
    pose proof (take_drop (n / 2) cs) as Esp. set (c0 := take (n / 2) cs) in *. set (c1 := drop (n / 2) cs) in *.
    assert (length c0 = n / 2) as L0 by (unfold c0; rewrite length_take; lia).
    assert (length c1 = n - n / 2) as L1 by (unfold c1; rewrite length_drop; lia).
    assert (sizes cs = sizes c0 + sizes c1) as Es by (rewrite <- Esp; apply sizes_app).
    rewrite <- Esp in Hc, Hz. apply Forall_app in Hc as [Hc0 Hc1], Hz as [Hz0 Hz1].
    assert (forall cs, Forall (lits_below nLits) cs -> Forall is_word cs) as Hbw
      by (intros l; apply List.Forall_impl; by intros ? [? _]).
    pose proof (sizes_pos c0 (Hbw _ Hc0) Hz0). pose proof (sizes_pos c1 (Hbw _ Hc1) Hz1).
    rewrite <- L1, <- L0.
    destruct (IH g p c0) as ([e0 g0] & -> & B0); [|by (intros E0; rewrite E0 in L0; cbn [length] in L0; lia)|lia|done..| |].
    { rewrite L0. unfold c0. rewrite <- Hp, take_take. f_equal. lia. }
    { by apply (small_le g (sizes cs - 1)); [lia|]. }
    cbn [mbind option_bind]. pose proof (builds_leaves _ _ _ _ B0) as El. cbn [snd] in El.
    destruct (IH g0 (drop (length c0) p) c1) as ([e1 g1] & -> & B1);
      [|by (intros E0; rewrite E0 in L1; cbn [length] in L1; lia)|lia|done..|lia|by apply (builds_wf _ _ _ _ B0)| |].
    { rewrite L0, L1. unfold c1. rewrite <- Hp. by rewrite skipn_firstn_comm. }
    { apply (builds_small _ _ _ _ _ B0). apply (small_le g (sizes cs - 1)); [lia|done]. }
    cbn [mbind option_bind]. eexists. split; [done|].
    destruct (builds_two _ _ _ _ _ _ _ _ _ Hw B0 B1) as [_ B]; [by apply (small_le g (sizes cs - 1)); [lia|]|].
    replace (sizes cs - 1) with (sizes c0 - 1 + (sizes c1 - 1) + 1) by lia.
    eapply builds_ext; [|exact B]. intros m. cbv beta. by rewrite <- cover_sat_app, Esp.
Qed.

Lemma FactorTrivial_spec g s cs nLits :
  rep s cs -> cs <> [] -> Forall (lits_below nLits) cs -> nonzero cs -> nLits <= 32 -> nLits <= 2 * nLeaves g ->
  wf_graph g -> small g (sizes cs - 1) ->
  exists r, Kit_SopFactorTrivial g s nLits = Some r /\ builds g (sizes cs - 1) (cover_sat cs) r.
Proof.
  intros Hr Hne Hc Hz Hn Hl Hw Hs. unfold Kit_SopFactorTrivial. rewrite (rep_num s cs Hr).
  apply Trivial_rec_spec; try done; [apply Hr|lia].
Qed.

(** * The covers of the recursion *)

Lemma perm_in (cs ds : list Z) c : cs ≡ₚ ds -> c ∈ cs <-> c ∈ ds.
Proof. intros H. by rewrite H. Qed.

Record good (nLits : nat) (S : list Z) : Prop := {
  good_antichain : antichain S;
  good_below : Forall (lits_below nLits) S;
  good_nonzero : nonzero S;
}.

Lemma below_in nLits S c : Forall (lits_below nLits) S -> c ∈ S -> lits_below nLits c.
Proof. rewrite List.Forall_forall. intros H Hc. by apply H, list_elem_of_In. Qed.

Lemma below_words nLits S : Forall (lits_below nLits) S -> words S.
Proof. apply List.Forall_impl. by intros c [? _]. Qed.

Lemma below_clean nLits S : nLits <= 30 -> Forall (lits_below nLits) S -> Forall clean S.
Proof. intros Hn. apply List.Forall_impl. intros c [Hw H]. split; [done|]. apply (H 31). lia. Qed.

Lemma below_sub nLits c d : lits_below nLits d -> is_word c -> sub c d -> lits_below nLits c.
Proof.
  intros [_ Hd] Hc Hs. split; [done|]. intros i Hi. unfold sub in Hs. rewrite <- Hs, Z.land_spec, Hd by done. done.
Qed.

(** A part of a good cover. *)
Lemma good_part nLits S T : good nLits S -> NoDup T -> (forall c, c ∈ T -> c ∈ S) -> good nLits T.
Proof.
  intros [H1 H2 H3] Hn Hin. constructor.
  - apply antichain_intro; [done|]. intros c d Hc Hd. apply (antichain_in S); auto.
  - apply List.Forall_forall. intros c Hc%list_elem_of_In. eapply below_in; eauto.
  - apply List.Forall_forall. intros c Hc%list_elem_of_In ->. unfold nonzero in H3. rewrite List.Forall_forall in H3.
    apply (H3 0%Z); [by apply list_elem_of_In, Hin|done].
Qed.

(** Removing a common part from two cubes or more. *)
Lemma good_without nLits S m : antichain S -> Forall (lits_below nLits) S -> 2 <= length S -> (forall c, c ∈ S -> sub m c) ->
  good nLits (without m S).
Proof.
  intros Ha Hb Hl Hm. assert (antichain (without m S)) as H by by apply antichain_without. constructor; [done| |].
  - unfold without. apply List.Forall_map. revert Hb. apply List.Forall_impl. intros c [Hw Hc]. split.
    + rewrite <- Sharp_ldiff by done. auto with words.
    + intros i Hi. by rewrite Z.ldiff_spec, Hc.
  - apply antichain_nonzero; [done|]. unfold without. by rewrite length_map.
Qed.

Lemma products_nodup Q D : D <> [] -> NoDup (products Q D) -> NoDup Q.
Proof.
  intros HD. induction Q as [|q Q IH]; intros H; [constructor|]. unfold products in H. cbn [map concat] in H.
  apply list.NoDup_app in H as (_ & H1 & H2). constructor; [|by apply IH].
  intros Hq. destruct D as [|d D]; [done|]. apply (H1 (Z.lor q d)); [by left|].
  apply (in_products Q (d :: D)). exists q, d. split; [done|]. split; [by left|done].
Qed.

Lemma sizes_products Q D : (forall q d, q ∈ Q -> d ∈ D -> disj q d) ->
  sizes (products Q D) = length D * sizes Q + length Q * sizes D.
Proof.
  unfold products. induction Q as [|q Q IH]; intros H; [cbn; lia|]. cbn [map concat sizes length].
  rewrite sizes_app, IH by (intros; apply H; [by right|done]).
  assert (sizes (map (Z.lor q) D) = length D * size q + sizes D) as ->; [|lia].
  assert (forall d, d ∈ D -> disj q d) as Hq by (intros; apply H; [by left|done]). clear -Hq.
  induction D as [|d D IH]; [done|]. cbn [map sizes length]. rewrite IH by (intros; apply Hq; by right).
  rewrite size_product by (apply Hq; by left). lia.
Qed.

Lemma occ_products S Q D R q i : S ≡ₚ products Q D ++ R -> words S -> i < 32 -> q ∈ Q -> Z.testbit q (Z.of_nat i) = true ->
  (Z.of_nat (length D) <= occ S i)%Z.
Proof.
  intros HP Hw Hi Hq Hb. unfold occ. apply inj_le.
  set (f := fun c => Kit_CubeHasLit c i).
  assert (length (List.filter f S) = length (List.filter f (products Q D)) + length (List.filter f R)) as ->.
  { rewrite <- length_app, <- List.filter_app. clear -HP. induction HP; cbn [List.filter]; try congruence;
      repeat match goal with |- context [f ?x] => destruct (f x) end; cbn [length]; congruence. }
  assert (forall d, d ∈ D -> f (Z.lor q d) = true) as Hf.
  { intros d Hd. unfold f. rewrite HasLit_spec, Z.lor_spec, Hb; [done| |done].
    unfold words in Hw. rewrite List.Forall_forall in Hw. apply Hw, list_elem_of_In, (perm_in _ _ _ HP), elem_of_app.
    left. apply in_products. eauto. }
  clear -Hq Hf. assert (length D <= length (List.filter f (products Q D))); [|lia].
  unfold products. induction Q as [|q' Q IH]; [by apply elem_of_nil in Hq|]. cbn [map concat].
  rewrite List.filter_app, length_app. apply elem_of_cons in Hq as [<-|Hq]; [|specialize (IH Hq); lia].
  assert (length (List.filter f (map (Z.lor q) D)) = length D) as ->; [|lia]. clear IH.
  induction D as [|d D IH]; [done|]. cbn [map List.filter]. rewrite Hf by by left. cbn [length]. f_equal. apply IH.
  intros; apply Hf. by right.
Qed.

(** * Functions of products and quotients *)

Lemma cube_sat_lor c d m : cube_sat (Z.lor c d) m = cube_sat c m && cube_sat d m.
Proof.
  unfold cube_sat, range_sat. induction (seq 0 (32 - 0)) as [|i l IH]; [done|]. cbn [forallb].
  rewrite IH, Z.lor_spec.
  generalize (forallb (fun i => negb (Z.testbit c (Z.of_nat i)) || lit_sat m i) l) (forallb (fun i => negb (Z.testbit d (Z.of_nat i)) || lit_sat m i) l). intros A B.
  clear IH. by destruct (Z.testbit c (Z.of_nat i)), (Z.testbit d (Z.of_nat i)), (lit_sat m i), A, B.
Qed.

Lemma cover_sat_products Q D m : cover_sat (products Q D) m = cover_sat Q m && cover_sat D m.
Proof.
  unfold products. induction Q as [|q Q IH]; [done|]. cbn [map concat]. rewrite cover_sat_app, IH.
  assert (cover_sat (map (Z.lor q) D) m = cube_sat q m && cover_sat D m) as ->.
  { clear IH. induction D as [|d D IH]; [by destruct (cube_sat q m)|]. cbn [map]. unfold cover_sat in *. cbn [existsb].
    rewrite IH, cube_sat_lor. by destruct (cube_sat q m), (cube_sat d m). }
  assert (cover_sat (q :: Q) m = cube_sat q m || cover_sat Q m) as -> by done.
  clear IH. by destruct (cube_sat q m), (cover_sat Q m), (cover_sat D m).
Qed.

Lemma cover_sat_perm cs ds m : cs ≡ₚ ds -> cover_sat cs m = cover_sat ds m.
Proof.
  intros H. apply eq_true_iff_eq. unfold cover_sat. rewrite !existsb_exists. setoid_rewrite <- list_elem_of_In.
  split; intros (c & Hc & Hs); exists c; split; try done; by apply (perm_in _ _ _ H).
Qed.

Lemma divided_sat S D Q R m : divided S D Q R -> cover_sat S m = cover_sat Q m && cover_sat D m || cover_sat R m.
Proof. intros [H _]. by rewrite (cover_sat_perm _ _ _ H), cover_sat_app, cover_sat_products. Qed.

(** The sum of the measures of the covers of the recursion goes down. *)
Definition mu (cs : list Z) : nat := sizes cs + length cs.

Lemma mu_app cs ds : mu (cs ++ ds) = mu cs + mu ds.
Proof. unfold mu. rewrite sizes_app, length_app. lia. Qed.

Lemma mu_perm cs ds : cs ≡ₚ ds -> mu cs = mu ds.
Proof. intros H. unfold mu. by rewrite (sizes_perm _ _ H), (Permutation_length H). Qed.

Lemma nonempty_in (cs : list Z) : cs <> [] -> exists c, c ∈ cs.
Proof. destruct cs as [|c cs]; [done|]. intros _. exists c. by left. Qed.

Section divided.
Context (nLits : nat) (S D Q R : list Z).
Context (HS : good nLits S) (HD : D <> []) (H : divided S D Q R).

Lemma divided_in q d : q ∈ Q -> d ∈ D -> Z.lor q d ∈ S.
Proof using H.
  intros Hq Hd. apply (perm_in _ _ _ (proj1 H)), elem_of_app. left. apply in_products. eauto.
Qed.

Lemma divided_nodup : NoDup Q /\ NoDup R.
Proof using All.
  pose proof (antichain_nodup S (good_antichain _ _ HS)) as Hn. rewrite (proj1 H) in Hn.
  apply list.NoDup_app in Hn as (H1 & _ & H2). split; [|done]. by eapply products_nodup.
Qed.

Lemma divided_rem : good nLits R.
Proof using All.
  apply (good_part nLits S); [done|apply divided_nodup|]. intros c Hc.
  apply (perm_in _ _ _ (proj1 H)), elem_of_app. by right.
Qed.

Lemma divided_antichain : antichain Q.
Proof using All.
  apply antichain_intro; [apply divided_nodup|]. intros q q' Hq Hq' Hs.
  destruct (nonempty_in D HD) as [d Hd].
  apply (product_inj_l q q' d); [by apply H..|]. apply (antichain_in S); [apply HS|by apply divided_in..|].
  by apply sub_lor_l.
Qed.

Lemma divided_below : Forall (lits_below nLits) Q.
Proof using All.
  apply List.Forall_forall. intros q Hq%list_elem_of_In.
  destruct (nonempty_in D HD) as [d Hd].
  pose proof (below_in nLits S _ (good_below _ _ HS) (divided_in q d Hq Hd)) as [Hw Hb].
  rewrite <- (product_ldiff q d) by by apply H. split.
  - rewrite <- Sharp_ldiff by done. auto with words.
  - intros i Hi. by rewrite Z.ldiff_spec, Hb.
Qed.

Lemma divided_length : length Q * length D + length R = length S.
Proof using H. by rewrite (Permutation_length (proj1 H)), length_app, length_products. Qed.

Lemma divided_mu : mu S = length D * sizes Q + length Q * sizes D + length Q * length D + mu R.
Proof using H.
  rewrite (mu_perm _ _ (proj1 H)), mu_app. unfold mu at 1. rewrite sizes_products, length_products by apply H. lia.
Qed.

(** A cube of the quotient with a literal: the literal is in as many cubes as there are in the divisor. *)
Lemma divided_literal q : q ∈ Q -> q <> 0%Z -> exists i, i < nLits /\ i < 32 /\ Z.testbit q (Z.of_nat i) = true /\ (Z.of_nat (length D) <= occ S i)%Z.
Proof using All.
  intros Hq Hz. pose proof (below_in nLits Q q divided_below Hq) as [Hw Hb].
  destruct (exists_up 32 (fun i => Z.testbit q (Z.of_nat i))) eqn:E.
  - apply exists_up_true in E as (i & Hi & Hc). exists i. split.
    { destruct (Nat.lt_ge_cases i nLits) as [|Hge]; [done|]. by rewrite Hb in Hc. }
    split; [done|]. split; [done|]. eapply occ_products; [apply H|by eapply below_words, HS|done..].
  - contradict Hz. apply word_ext; auto with words. intros b Hb'. rewrite Z.testbit_0_l.
    by apply (proj1 (exists_up_false _ _) E).
Qed.

(** When some cube that is not empty is a cofactor, no cube of the quotient is empty. *)
Lemma divided_nonzero x : cofactor S D x -> x <> 0%Z -> nonzero Q.
Proof using All.
  intros Hx Hne. apply List.Forall_forall. intros q Hq%list_elem_of_In ->. apply Hne.
  destruct (nonempty_in D HD) as [d Hd].
  destruct (Hx d Hd) as [Hxd Hin].
  assert (d = Z.lor x d) as Ed.
  { apply (antichain_in S); [apply HS| |done|apply product_sub]. by apply (divided_in 0 d Hq Hd). }
  clear -Hxd Ed. by_bits.
Qed.
End divided.

(** The quotient made free of cubes has a cofactor that is not empty: the second division does not
    end with an empty quotient. *)
Lemma free_quotient nLits S q K Q R :
  good nLits S -> kernel_of S q K -> divided S K Q R -> 2 <= length Q ->
  good nLits (without (common Q) Q) /\ exists x, x <> 0%Z /\ cofactor S (without (common Q) Q) x.
Proof.
  intros HS HK HD Hl. assert (K <> []) as HKn by (intros ->; apply ker_size in HK; cbn in HK; lia).
  pose proof (divided_below nLits S K Q R HS HKn HD) as Hb.
  pose proof (divided_antichain nLits S K Q R HS HKn HD) as Ha.
  assert (forall c, c ∈ Q -> sub (common Q) c) as Hm by (intros c; apply common_sub; by eapply below_words).
  split; [by apply good_without|]. destruct (nonempty_in K HKn) as [k Hk]. exists (Z.lor k (common Q)). split.
  - intros E. apply Z.lor_eq_0_l in E as ->. pose proof (kernel_nonzero _ _ _ HK) as Hz. unfold nonzero in Hz.
    rewrite List.Forall_forall in Hz. apply (Hz 0%Z); [by apply list_elem_of_In|done].
  - apply cofactor_without; [|done]. intros c Hc. unfold disj. rewrite Z.land_comm, Z.lor_comm. split; [by apply HD|].
    by apply (divided_in S K Q R).
Qed.

(** The quotient of the first division is not the empty cube alone. *)
Lemma single_quotient nLits S q K c R : good nLits S -> kernel_of S q K -> q <> 0%Z -> divided S K [c] R -> c <> 0%Z.
Proof.
  intros HS HK Hq HD. assert (K <> []) as HKn by (intros ->; apply ker_size in HK; cbn in HK; lia).
  pose proof (divided_nonzero nLits S K [c] R HS HKn HD q (ker_cofactor _ _ _ HK) Hq) as Hz. by inversion_clear Hz.
Qed.

(** A cover that is free of cubes has two cubes or more. *)
Lemma cube_free_length cs : words cs -> nonzero cs -> cs <> [] -> common cs = 0%Z -> 2 <= length cs.
Proof.
  intros Hw Hz Hn Hc. destruct cs as [|c [|? ?]]; [done| |cbn; lia]. exfalso. inversion_clear Hz as [|? ? Hz' _]. apply Hz'.
  inversion_clear Hw as [|? ? Hw' _]. apply word_ext; auto with words. intros b Hb. rewrite Z.testbit_0_l.
  rewrite <- (Z.testbit_0_l (Z.of_nat b)), <- Hc, common_bit by done. cbn. by rewrite andb_true_r.
Qed.

(** * Division by a literal *)

Definition with_lit (l : nat) (cs : list Z) : list Z := List.filter (fun c => Kit_CubeHasLit c l) cs.
Definition without_lit (l : nat) (cs : list Z) : list Z := List.filter (fun c => negb (Kit_CubeHasLit c l)) cs.

Lemma lit_word l : l < 32 -> is_word (1 <<< l).
Proof. intros Hl. apply (word_SetLit 0 l), word_0. Qed.

Lemma contains_lit c l : is_word c -> l < 32 -> Kit_CubeContains c (1 <<< l) = Kit_CubeHasLit c l.
Proof.
  intros Hc Hl. rewrite HasLit_spec by done. apply eq_true_iff_eq. rewrite Contains_spec by (done || by apply lit_word).
  split.
  - intros H. apply (H l Hl). rewrite testbit_pow by done. apply Nat.eqb_refl.
  - intros H i Hi. rewrite testbit_pow by done. by intros ->%Nat.eqb_eq.
Qed.

Lemma range_one c lo hi l : lo <= l < hi -> (forall i, lo <= i < hi -> Z.testbit c (Z.of_nat i) = (i =? l)) ->
  range_size c lo hi = 1 /\ forall m, range_sat c lo hi m = lit_sat m l.
Proof.
  intros Hl H. assert (range_size c (S l) hi = 0) as E1.
  { apply range_none. intros i Hi. rewrite H by lia. apply Nat.eqb_neq. lia. }
  assert (range_size c lo l = 0) as E0.
  { apply range_none. intros i Hi. rewrite H by lia. apply Nat.eqb_neq. lia. }
  rewrite (range_size_split c lo (S l) hi), range_size_S, H, Nat.eqb_refl, E0, E1 by lia. split; [done|]. intros m.
  rewrite (range_sat_split c lo (S l) hi), range_sat_S, H, Nat.eqb_refl by lia.
  rewrite !range_sat_none by done. cbn [negb orb andb]. by rewrite andb_true_r.
Qed.

Lemma lit_cube l : l < 32 -> size (1 <<< l) = 1 /\ forall m, cube_sat (1 <<< l) m = lit_sat m l.
Proof.
  intros Hl. rewrite size_range. apply range_one; [lia|]. intros i Hi. by apply testbit_pow.
Qed.

Lemma split_lit l cs : cs ≡ₚ with_lit l cs ++ without_lit l cs.
Proof.
  unfold with_lit, without_lit. induction cs as [|c cs IH]; [done|]. cbn [List.filter].
  destruct (Kit_CubeHasLit c l); cbn [negb app]; [by f_equiv|]. rewrite IH at 1. apply Permutation_middle.
Qed.

Lemma cover_sat_without x cs m : (forall c, c ∈ cs -> sub x c) -> cover_sat cs m = cube_sat x m && cover_sat (without x cs) m.
Proof.
  intros H. unfold without, cover_sat. induction cs as [|c cs IH]; [by destruct (cube_sat x m)|]. cbn [map existsb].
  rewrite IH by (intros; apply H; by right).
  rewrite <- (ldiff_product c x) at 1 by (apply H; by left). rewrite cube_sat_lor.
  by destruct (cube_sat x m), (cube_sat (Z.ldiff c x) m).
Qed.

Lemma literal_split nLits S l : good nLits S -> l < 32 -> (2 <= occ S l)%Z ->
  let Q := without (1 <<< l) (with_lit l S) in let R := without_lit l S in
  good nLits Q /\ good nLits R /\ 2 <= length Q /\ length Q + length R = length S /\ sizes Q + sizes R + 2 <= sizes S /\
  forall m, cover_sat S m = lit_sat m l && cover_sat Q m || cover_sat R m.
Proof.
  intros HS Hl Ho. cbv zeta. pose proof (below_words _ _ (good_below _ _ HS)) as Hw.
  assert (2 <= length (with_lit l S)) as H2 by (unfold with_lit; rewrite occ_length; lia).
  assert (forall c, c ∈ with_lit l S -> sub (1 <<< l) c) as Hsub.
  { intros c [Hc Hb]%list_elem_of_In%filter_In. apply lit_sub; [|done|done]. unfold words in Hw. rewrite List.Forall_forall in Hw. auto. }
  assert (forall f c, c ∈ List.filter f S -> c ∈ S) as Hin by (intros f c [Hc _]%list_elem_of_In%filter_In; by apply list_elem_of_In).
  assert (forall f, NoDup (List.filter f S)) as Hnd
    by (intros f; apply NoDup_ListNoDup, NoDup_filter, NoDup_ListNoDup, antichain_nodup, HS).
  assert (good nLits (with_lit l S)) as HW by (apply (good_part nLits S); [done|apply Hnd|apply Hin]).
  assert (length (without (1 <<< l) (with_lit l S)) = length (with_lit l S)) as EL by apply length_map.
  pose proof (split_lit l S) as HP. destruct (lit_cube l Hl) as [E1 E2].
  split; [apply good_without; [apply HW|apply HW|done|done]|].
  split; [apply (good_part nLits S); [done|apply Hnd|apply Hin]|]. split; [lia|]. split; [|split].
  - rewrite EL, <- length_app. by rewrite <- HP.
  - rewrite (sizes_perm _ _ HP), sizes_app, (sizes_without _ _ Hsub), E1. lia.
  - intros m. by rewrite (cover_sat_perm _ _ _ HP), cover_sat_app, (cover_sat_without _ _ _ Hsub), E2.
Qed.

(** * The recursion *)

Lemma BestLiteral_cases s cs nLits u i : rep s cs -> nonzero cs -> i < nLits -> Kit_CubeHasLit u i = true -> (2 <= occ cs i)%Z ->
  exists l, Kit_SopBestLiteral s nLits u = Some (Z.of_nat l) /\ l < nLits /\ (2 <= occ cs l)%Z.
Proof.
  intros Hr Hz Hi Hb Ho. destruct (BestLiteral_spec s cs nLits u Hr Hz) as (best & var & -> & H).
  destruct H as [[[-> ->] H]|(l & -> & -> & Hl & He & H1 & H2 & H3)].
  - specialize (H i Hi). rewrite Hb in H. cbn [andb] in H. rewrite Z.leb_le in H. specialize (H Ho). lia.
  - exists l. apply andb_true_iff in He as [_ He]. apply Z.leb_le in He. rewrite (proj2 (Z.leb_le _ _)) by lia. done.
Qed.

Lemma mu_pos S : S <> [] -> 0 < mu S.
Proof. unfold mu. destruct S; [done|cbn [length]; lia]. Qed.

Lemma good_sizes n S : good n S -> S <> [] -> 0 < sizes S.
Proof.
  intros HS HSn. pose proof (sizes_pos S (below_words _ _ (good_below _ _ HS)) (good_nonzero _ _ HS)).
  destruct S; [done|cbn [length] in *; lia].
Qed.

Section recursion.
Context (nLits N : nat) (Hn : nLits <= 30) (HN : (Z.of_nat N < 1000000)%Z).

(** Memory for a call that is given [cs], in terms of the largest length of a cover. *)
Definition need (cs : list Z) : Z := Z.of_nat ((7 * N + 2) * mu cs).

Lemma need_nonneg cs : (0 <= need cs)%Z.
Proof using. apply Nat2Z.is_nonneg. Qed.

(** The graph has the leaves of all literals and room for [k] nodes. *)
Definition ready (g : Kit_Graph_t) (k : nat) : Prop := wf_graph g /\ nLits <= 2 * nLeaves g /\ small g k.

Lemma ready_after g k f r j : builds g k f r -> ready g (k + j) -> ready r.2 j.
Proof.
  intros B (_ & H2 & H3). split; [by eapply builds_wf|]. split; [by rewrite (builds_leaves _ _ _ _ B)|].
  by eapply builds_small.
Qed.

Lemma ready_le g j k : j <= k -> ready g k -> ready g j.
Proof. intros H (H1 & H2 & H3). split; [done|]. split; [done|]. by eapply small_le. Qed.

(** What the recursive calls are used for. *)
Definition factors (factor : Kit_Graph_t -> Kit_Sop_t -> nat -> Vec_Int_t -> option (Kit_Edge_t * Kit_Graph_t * Vec_Int_t))
  (T : list Z) : Prop :=
  forall g s V, rep s T -> ready g (sizes T - 1) -> (VecInt.nSize V + need T <= VecInt.nCap V)%Z ->
  exists r V', factor g s nLits V = Some (r, V') /\ builds g (sizes T - 1) (cover_sat T) r /\ grown V V' (need T).

(** The end of both routines: the and-gate, and the or-gate with the remainder if there is one. *)
Lemma finish factor g k0 k1 f0 f1 e0 g0 e1 g1 s R V :
  ready g (k0 + k1 + 1 + sizes R) -> builds g k0 f0 (e0, g0) -> builds g0 k1 f1 (e1, g1) -> rep s R ->
  (R <> [] -> 0 < sizes R /\ factors factor R) -> (VecInt.nSize V + need R <= VecInt.nCap V)%Z ->
  exists r V',
    (let '(eNodeAnd, pFForm) := Kit_GraphAddNodeAnd g1 e0 e1 in
     if (Kit_SopCubeNum s =? 0)%Z then Some (eNodeAnd, pFForm, V) else
     '(eNodeRem, pFForm, vMemory) ← factor pFForm s nLits V;
     Some (Kit_GraphAddNodeOr pFForm eNodeAnd eNodeRem, vMemory)) = Some (r, V') /\
    builds g (k0 + k1 + 1 + sizes R) (fun m => f0 m && f1 m || cover_sat R m) r /\ grown V V' (need R).
Proof using All.
  intros Hg B0 B1 Hr HR Hm. destruct (builds_two g k0 k1 f0 f1 e0 g0 e1 g1) as [B _]; [apply Hg|done|done| |].
  { apply (small_le g (k0 + k1 + 1 + sizes R)); [lia|apply Hg]. }
  destruct (Kit_GraphAddNodeAnd g1 e0 e1) as [ea ga]. unfold Kit_SopCubeNum. rewrite (proj1 Hr).
  destruct (decide (R = [])) as [-> | HRn].
  - cbn [length Z.of_nat Z.eqb]. eexists _, V. split; [done|]. split.
    + change (sizes []) with 0. rewrite Nat.add_0_r. eapply builds_ext; [|exact B]. intros m. cbn. by rewrite orb_false_r.
    + unfold need, grown. change (mu []) with 0. rewrite Nat.mul_0_r. split; [done|]. split; [done|]. lia.
  - rewrite (proj2 (Z.eqb_neq _ _)) by (destruct R; [done|cbn; lia]). destruct (HR HRn) as [HRp HF].
    destruct (HF ga s V Hr) as ([er gr] & V' & -> & B2 & G); [|done|].
    { apply (ready_after _ _ _ _ _ B). eapply ready_le; [|exact Hg]. lia. }
    cbn [mbind option_bind]. eexists _, V'. split; [done|]. split; [|done].
    destruct (builds_two _ _ _ _ _ _ _ _ _ (proj1 Hg) B B2) as [_ B3].
    { eapply small_le; [|apply Hg]. lia. }
    replace (k0 + k1 + 1 + sizes R) with (k0 + k1 + 1 + (sizes R - 1) + 1) by lia. exact B3.
Qed.

Lemma BestLiteralCover_spec s S u i V : rep s S -> nonzero S -> i < nLits -> Kit_CubeHasLit u i = true -> (2 <= occ S i)%Z ->
  (VecInt.nSize V + 1 <= VecInt.nCap V)%Z ->
  exists l sl V', Kit_SopBestLiteralCover s u nLits V = Some (sl, V') /\ l < nLits /\ (2 <= occ S l)%Z /\
    rep sl [1 <<< l] /\ grown V V' 1.
Proof using All.
  intros Hr Hz Hi Hb Ho Hm. unfold Kit_SopBestLiteralCover.
  destruct (BestLiteral_cases s S nLits u i Hr Hz Hi Hb Ho) as (l & -> & Hl & Ho'). cbn [mbind option_bind].
  destruct (new_cover_spec V 1) as (sl & V' & E & Hr' & Hl' & Hf); [lia|]. change (Z.of_nat 1) with 1%Z in *. rewrite E.
  cbn [mbind option_bind]. rewrite (proj2 (Z.leb_le _ _)), Nat2Z.id by lia.
  destruct (rep_push sl [] (Kit_CubeSetLit 0 l) Hr') as [P _]; [cbn; lia|].
  eexists l, _, V'. do 3 (split; [done|]). split; [exact P|]. apply fetched_grown; [lia|done].
Qed.

Lemma FactorLF_spec factor S g s sa a i V :
  good nLits S -> length S <= N -> (forall T, good nLits T -> T <> [] -> length T <= N -> mu T < mu S -> factors factor T) ->
  i < nLits -> is_word a -> Z.testbit a (Z.of_nat i) = true -> (2 <= occ S i)%Z ->
  rep s S -> rep sa [a] -> ready g (sizes S - 1) ->
  (VecInt.nSize V + (1 + 2 * Z.of_nat N + Z.of_nat ((7 * N + 2) * (mu S - 1))) <= VecInt.nCap V)%Z ->
  exists r V', Kit_SopFactorLF_rec factor g s sa nLits V = Some (r, V') /\ builds g (sizes S - 1) (cover_sat S) r /\
    grown V V' (1 + 2 * Z.of_nat N + Z.of_nat ((7 * N + 2) * (mu S - 1))).
Proof using All.
  intros HS HSN IH Hi Ha Hb Ho Hr Hra Hg. remember ((7 * N + 2) * (mu S - 1)) as M eqn:EM. intros Hm.
  unfold Kit_SopFactorLF_rec, Kit_SopCubeNum at 1. rewrite (proj1 Hra).
  cbn [length Z.of_nat Z.eqb Pos.eqb Pos.of_succ_nat]. rewrite (rep_cube sa [a] 0 a Hra eq_refl).
  destruct (BestLiteralCover_spec s S a i V Hr (good_nonzero _ _ HS) Hi) as (l & sl & V1 & -> & Hl & Hol & Hrl & G1);
    [by rewrite HasLit_spec by (done || lia)|done|lia|]. cbn [mbind option_bind].
  destruct (DivideByCube_spec s S sl (1 <<< l) V1 Hr (good_nonzero _ _ HS) Hrl) as (sq & sr & V2 & -> & Hq & HR & F2);
    [destruct G1 as (EG & _ & ?); rewrite EG; lia|]. cbn [mbind option_bind]. rewrite (rep_cube sl _ 0 _ Hrl eq_refl).
  pose proof (below_words _ _ (good_below _ _ HS)) as Hw.
  destruct (literal_split nLits S l HS ltac:(lia) Hol) as (GQ & GR & LQ & LQR & Hmu & Hsat). cbv zeta in *.
  set (Q := without (1 <<< l) (with_lit l S)) in *. set (R := without_lit l S) in *.
  assert (forall c, In c S -> Kit_CubeContains c (1 <<< l) = Kit_CubeHasLit c l) as EC.
  { intros c Hc. apply contains_lit; [|lia]. unfold words in Hw. rewrite List.Forall_forall in Hw. auto. }
  rewrite (filter_ext_in (fun c => Kit_CubeContains c (1 <<< l)) (fun c => Kit_CubeHasLit c l)) in Hq by exact EC.
  rewrite (filter_ext_in (fun c => negb (Kit_CubeContains c (1 <<< l))) (fun c => negb (Kit_CubeHasLit c l))) in HR
    by (intros c Hc; by rewrite EC).
  fold R in HR.
  assert (rep sq Q) as Hq'.
  { replace Q with (map (fun c => Kit_CubeSharp c (1 <<< l)) (List.filter (fun c => Kit_CubeHasLit c l) S)); [done|].
    apply map_ext_in. intros c [Hc _]%filter_In. apply Sharp_ldiff. unfold words in Hw. rewrite List.Forall_forall in Hw. auto. }
  clear Hq. assert (Q <> []) as HQn by (intros E; rewrite E in LQ; cbn in LQ; lia). pose proof (good_sizes _ Q GQ HQn) as SQ.
  assert (mu Q + mu R + 2 <= mu S) as Hmu' by (unfold mu; lia).
  apply fetched_grown in F2; [|lia]. pose proof (grown_trans _ _ _ _ _ G1 F2) as G2.
  pose proof (need_nonneg R). pose proof (need_nonneg Q).
  assert (need Q + need R <= Z.of_nat M)%Z as Hneed
    by (rewrite EM; unfold need; rewrite <- Nat2Z.inj_add, <- Nat.mul_add_distr_l; apply inj_le, Nat.mul_le_mono_l; lia).
  destruct (lit_cube l ltac:(lia)) as [Es El].
  destruct (TrivialCube_spec g (1 <<< l) nLits) as ([e0 g0] & E0 & B0); [| lia|apply Hg| |apply Hg| |].
  { split; [apply lit_word; lia|]. intros b Hb'. rewrite testbit_pow by lia. apply Nat.eqb_neq. lia. }
  { intros E. rewrite E in Es. done. }
  { rewrite Es. eapply small_le; [|apply Hg]. lia. }
  unfold Kit_SopFactorTrivialCube. rewrite E0. cbn [mbind option_bind]. rewrite Es in B0. cbn [Nat.sub] in B0.
  destruct (IH Q GQ HQn ltac:(lia) ltac:(lia) g0 sq V2 Hq') as ([e1 g1] & V3 & E1 & B1 & G3).
  { apply (ready_after _ _ _ _ (sizes Q - 1) B0). eapply ready_le; [|exact Hg]. lia. }
  { destruct G2 as (EG & _ & ?). rewrite EG. lia. }
  rewrite E1. cbn [mbind option_bind]. pose proof (grown_trans _ _ _ _ _ G2 G3) as G4.
  destruct (finish factor g 0 (sizes Q - 1) (cube_sat (1 <<< l)) (cover_sat Q) e0 g0 e1 g1 sr R V3) as (r & V4 & E4 & B4 & G5);
    [eapply ready_le; [|exact Hg]; lia|done|done|done| | |].
  { intros HRn. split; [by eapply good_sizes|]. apply IH; [done|done|lia|lia]. }
  { destruct G4 as (EG & _ & ?). rewrite EG. lia. }
  rewrite E4. exists r, V4. split; [done|]. split.
  - apply (builds_mono g (0 + (sizes Q - 1) + 1 + sizes R)); [lia|]. eapply builds_ext; [|exact B4].
    intros m. cbv beta. by rewrite Hsat, El.
  - eapply grown_mono; [exact (grown_trans _ _ _ _ _ G4 G5)|]. lia.
Qed.

(** The general case: divisor, quotient and remainder are factored one after the other. *)
Lemma factor_parts factor S D Q R g sD sQ sR V :
  good nLits S -> length S <= N -> (forall T, good nLits T -> T <> [] -> length T <= N -> mu T < mu S -> factors factor T) ->
  divided S Q D R -> good nLits D -> good nLits Q -> 2 <= length D -> 2 <= length Q ->
  rep sD D -> rep sQ Q -> rep sR R -> ready g (sizes S - 1) ->
  (VecInt.nSize V + Z.of_nat ((7 * N + 2) * (mu S - 1)) <= VecInt.nCap V)%Z ->
  exists r V',
    ('(eNodeDiv, pFForm, vMemory) ← factor g sD nLits V;
     '(eNodeQuo, pFForm, vMemory) ← factor pFForm sQ nLits vMemory;
     let '(eNodeAnd, pFForm) := Kit_GraphAddNodeAnd pFForm eNodeDiv eNodeQuo in
     if (Kit_SopCubeNum sR =? 0)%Z then Some (eNodeAnd, pFForm, vMemory) else
     '(eNodeRem, pFForm, vMemory) ← factor pFForm sR nLits vMemory;
     Some (Kit_GraphAddNodeOr pFForm eNodeAnd eNodeRem, vMemory)) = Some (r, V') /\
    builds g (sizes S - 1) (cover_sat S) r /\ grown V V' (Z.of_nat ((7 * N + 2) * (mu S - 1))).
Proof using All.
  intros HS HSN IH HP HD HQ LD LQ Hrd Hrq Hrr Hg Hm.
  assert (Q <> [] /\ D <> []) as [HQn HDn] by (split; intros E; rewrite E in *; cbn [length] in *; lia).
  pose proof (divided_rem nLits S Q D R HS HQn HP) as HR. pose proof (divided_length S Q D R HP) as HL.
  pose proof (divided_mu S Q D R HP) as Hmu.
  pose proof (sizes_pos D (below_words _ _ (good_below _ _ HD)) (good_nonzero _ _ HD)) as SD.
  pose proof (sizes_pos Q (below_words _ _ (good_below _ _ HQ)) (good_nonzero _ _ HQ)) as SQ.
  assert (sizes S = length Q * sizes D + length D * sizes Q + sizes R) as Hsz by (unfold mu in Hmu; lia).
  assert (sizes D + sizes Q + sizes R + 1 <= sizes S) as Hls by (rewrite Hsz; clear -LD LQ SD SQ; nia).
  assert (mu D + mu Q + mu R + 1 <= mu S) as Hle by (rewrite Hmu; unfold mu at 1 2; clear -LD LQ SD SQ; nia).
  assert (length D <= N /\ length Q <= N /\ length R <= N) as (ND & NQ & NR) by (clear -HL LD LQ HSN; nia).
  pose proof (need_nonneg R). pose proof (need_nonneg D). pose proof (need_nonneg Q).
   
  assert (need D + need Q + need R <= Z.of_nat ((7 * N + 2) * (mu S - 1)))%Z as Hneed
    by (unfold need; rewrite <- !Nat2Z.inj_add, <- !Nat.mul_add_distr_l; apply inj_le, Nat.mul_le_mono_l; lia).
  remember ((7 * N + 2) * (mu S - 1)) as M eqn:EM.
  destruct (IH D HD HDn ND ltac:(lia) g sD V Hrd) as ([e0 g0] & V1 & -> & B0 & G1); [eapply ready_le; [|exact Hg]; lia|lia|].
  cbn [mbind option_bind].
  destruct (IH Q HQ HQn NQ ltac:(lia) g0 sQ V1 Hrq) as ([e1 g1] & V2 & -> & B1 & G2).
  { apply (ready_after _ _ _ _ (sizes Q - 1) B0). eapply ready_le; [|exact Hg]. lia. }
  { destruct G1 as (EG & _ & ?). rewrite EG. lia. }
  cbn [mbind option_bind]. pose proof (grown_trans _ _ _ _ _ G1 G2) as G3.
  destruct (finish factor g (sizes D - 1) (sizes Q - 1) (cover_sat D) (cover_sat Q) e0 g0 e1 g1 sR R V2) as (r & V3 & E & B2 & G4);
    [eapply ready_le; [|exact Hg]; lia|done|done|done| | |].
  { intros HRn. split; [by eapply good_sizes|]. apply IH; [done|done|done|lia]. }
  { destruct G3 as (EG & _ & ?). rewrite EG. lia. }
  rewrite E. exists r, V3. split; [done|]. split.
  - eapply builds_mono; [|eapply builds_ext; [|exact B2]]; [lia|]. intros m. cbv beta. by rewrite (divided_sat _ _ _ _ m HP).
  - eapply grown_mono; [exact (grown_trans _ _ _ _ _ G3 G4)|]. lia.
Qed.

Lemma need_S S : S <> [] -> need S = (7 * Z.of_nat N + 2 + Z.of_nat ((7 * N + 2) * (mu S - 1)))%Z.
Proof using All. intros H. pose proof (mu_pos S H). unfold need. replace (mu S) with (1 + (mu S - 1)) at 1 by lia. lia. Qed.

(** The part of the recursion that follows the first division with two or more cubes in the quotient. *)
Lemma second_division factor S q K Q0 R0 g s sQ0 V :
  good nLits S -> length S <= N -> (forall T, good nLits T -> T <> [] -> length T <= N -> mu T < mu S -> factors factor T) ->
  kernel_of S q K -> divided S K Q0 R0 -> 2 <= length Q0 -> rep s S -> rep sQ0 Q0 -> ready g (sizes S - 1) ->
  (VecInt.nSize V + (2 + 4 * Z.of_nat N + Z.of_nat ((7 * N + 2) * (mu S - 1))) <= VecInt.nCap V)%Z ->
  exists r V',
    (cQuo ← Kit_SopMakeCubeFree sQ0;
     '(cSop, cDiv, cRem, vMemory) ← Kit_SopDivideInternal s cQuo V;
     fFree ← Kit_SopIsCubeFree cDiv;
     if (fFree : bool) then
       '(eNodeDiv, pFForm, vMemory) ← factor g cDiv nLits vMemory;
       '(eNodeQuo, pFForm, vMemory) ← factor pFForm cQuo nLits vMemory;
       let '(eNodeAnd, pFForm) := Kit_GraphAddNodeAnd pFForm eNodeDiv eNodeQuo in
       if (Kit_SopCubeNum cRem =? 0)%Z then Some (eNodeAnd, pFForm, vMemory) else
       '(eNodeRem, pFForm, vMemory) ← factor pFForm cRem nLits vMemory;
       Some (Kit_GraphAddNodeOr pFForm eNodeAnd eNodeRem, vMemory)
     else
       '(cCom, vMemory) ← Kit_SopCommonCubeCover cDiv vMemory;
       Kit_SopFactorLF_rec factor g cSop cCom nLits vMemory) = Some (r, V') /\
    builds g (sizes S - 1) (cover_sat S) r /\ grown V V' (2 + 4 * Z.of_nat N + Z.of_nat ((7 * N + 2) * (mu S - 1))).
Proof using All.
  intros HS HSN IH HK HP0 LQ0 Hr Hr0 Hg. remember ((7 * N + 2) * (mu S - 1)) as M eqn:EM. intros Hm.
  assert (K <> []) as HKn by (intros ->; apply ker_size in HK; cbn in HK; lia).
  assert (Forall (lits_below nLits) Q0) as B0 by (eapply divided_below; [exact HS|exact HKn|exact HP0]).
  assert (antichain Q0) as A0 by (eapply divided_antichain; [exact HS|exact HKn|exact HP0]).
  destruct (MakeCubeFree_spec sQ0 Q0 Hr0 (antichain_nonzero Q0 A0 LQ0) (below_words _ _ B0)) as (sQ & -> & Hrq).
  rewrite cube_free_without in Hrq by by eapply below_words. cbn [mbind option_bind].
  destruct (free_quotient nLits S q K Q0 R0 HS HK HP0 LQ0) as (HQ & x & Hx & Hcof).
  assert (length (without (common Q0) Q0) = length Q0) as EL by apply length_map.
  set (Q := without (common Q0) Q0) in *. assert (Q <> []) as HQn by (intros E; rewrite E in EL; cbn [length] in EL; lia).
  pose proof (divided_length _ _ _ _ HP0) as HL0. pose proof (ker_size _ _ _ HK) as LK.
  assert (length Q <= length S) as LQ by (clear -HL0 LK EL LQ0; nia).
  destruct (DivideInternal_spec S Q s sQ V) as (s' & sD & sR & V1 & D & R & -> & Hr' & Hrd & Hrr & HP & G1 & Hne);
    [apply HS|by eapply below_clean, HS|apply HS|done|done|apply HQ|by eapply antichain_nodup, HQ|lia|lia|].
  cbn [mbind option_bind]. specialize (Hne x Hcof).
  pose proof (divided_nonzero nLits S Q D R HS HQn HP x Hcof Hx) as HDz.
  pose proof (divided_below nLits S Q D R HS HQn HP) as HDb.
  pose proof (divided_antichain nLits S Q D R HS HQn HP) as HDa.
  assert (grown V V1 (2 * Z.of_nat N)) as G1' by (eapply grown_mono; [exact G1|lia]).
  unfold Kit_SopIsCubeFree. rewrite (CommonCube_spec sD D Hrd HDz). cbn [mbind option_bind].
  destruct (Z.eqb_spec (common D) 0) as [Hc|Hc].
  - pose proof (cube_free_length D (below_words _ _ HDb) HDz Hne Hc) as LD.
    destruct (factor_parts factor S D Q R g sD sQ sR V1) as (r & V2 & -> & B & G2); try done; [lia| |].
    { rewrite <- EM. destruct G1' as (EG & _ & ?). rewrite EG. lia. }
    rewrite <- EM in G2. exists r, V2. split; [done|]. split; [done|]. eapply grown_mono; [exact (grown_trans _ _ _ _ _ G1' G2)|lia].
  - unfold Kit_SopCommonCubeCover, Kit_SopCubeNum. rewrite (proj1 Hrd), (proj2 (Z.ltb_lt _ _)) by (destruct D; [done|cbn [length]; lia]).
    destruct (new_cover_spec V1 1) as (sc & V2 & E & Hrc & Lc & Hf); [destruct G1' as (EG & _ & ?); rewrite EG; lia|].
    change (Z.of_nat 1) with 1%Z in *. rewrite E. cbn [mbind option_bind]. rewrite (CommonCube_spec sD D Hrd HDz).
    cbn [mbind option_bind]. destruct (rep_push sc [] (common D) Hrc) as [P _]; [cbn [length]; lia|].
    destruct (nonempty_in D Hne) as [d Hd].
    assert (is_word (common D)) as Wc by (apply word_common; by eapply below_words).
    assert (exists i, i < 32 /\ Z.testbit (common D) (Z.of_nat i) = true) as (i & Hi & Hb).
    { destruct (exists_up 32 (fun i => Z.testbit (common D) (Z.of_nat i))) eqn:Ee.
      - by apply exists_up_true in Ee as (i & Hi & Hb); exists i.
      - contradict Hc. apply word_ext; auto with words. intros b Hb. rewrite Z.testbit_0_l. by apply (proj1 (exists_up_false _ _) Ee). }
    assert (Z.testbit d (Z.of_nat i) = true) as Hdb.
    { rewrite common_bit, forallb_forall in Hb by done. by apply Hb, list_elem_of_In. }
    apply fetched_grown in Hf; [|lia]. pose proof (grown_trans _ _ _ _ _ G1' Hf) as G2.
    destruct (FactorLF_spec factor S g s' (Kit_SopPushCube sc (common D)) (common D) i V2) as (r & V3 & -> & B & G3); try done.
    { destruct (Nat.lt_ge_cases i nLits) as [|Hge]; [done|]. destruct (below_in _ _ _ HDb Hd) as [_ Hdn]. by rewrite Hdn in Hdb. }
    { pose proof (occ_products S D Q R d i (proj1 HP) (below_words _ _ (good_below _ _ HS)) Hi Hd Hdb). lia. }
    { rewrite <- EM. destruct G2 as (EG & _ & ?). rewrite EG. lia. }
    rewrite <- EM in G3. exists r, V3. split; [done|]. split; [done|]. eapply grown_mono; [exact (grown_trans _ _ _ _ _ G2 G3)|lia].
Qed.

(** The main recursion. *)
Lemma Factor_rec_spec fuel S : good nLits S -> S <> [] -> length S <= N -> mu S < fuel -> factors (Kit_SopFactor_rec fuel) S.
Proof using All.
  revert S. induction fuel as [|fuel IH]; intros S HS HSn HSN Hf; [lia|]. intros g s V Hr Hg. rewrite (need_S S HSn). intros Hm.
  pose proof (Nat2Z.is_nonneg ((7 * N + 2) * (mu S - 1))) as HM.
  assert (forall T, good nLits T -> T <> [] -> length T <= N -> mu T < mu S -> factors (Kit_SopFactor_rec fuel) T) as IH'
    by (intros; apply IH; [done..|lia]). clear IH.
  cbn [Kit_SopFactor_rec]. unfold Kit_SopCubeNum at 1. rewrite (proj1 Hr), (proj2 (Z.ltb_lt _ _)) by (destruct S; [done|cbn [length]; lia]).
  assert (Forall clean S) as HSc by by eapply below_clean, HS.
  assert (sizes S < fuel) as Hsf by (pose proof (mu_pos S HSn); unfold mu in *; destruct S; [done|cbn [length] in *; lia]).
  destruct (Divisor_spec fuel S s nLits V ltac:(lia) ltac:(lia) Hsf (good_antichain _ _ HS) HSc (good_nonzero _ _ HS) Hr)
    as [[-> _]|(sK & V1 & K & q & -> & HrK & HK & _ & Hq & _ & F1 & _)]; [lia| |]; cbn [mbind option_bind].
  - destruct (FactorTrivial_spec g s S nLits Hr HSn (good_below _ _ HS) (good_nonzero _ _ HS) ltac:(lia)) as (r & -> & B);
      [apply Hg|apply Hg|eapply small_le; [|apply Hg]; unfold mu; lia|]. cbn [mbind option_bind].
    exists r, V. split; [done|]. split; [eapply builds_mono; [|exact B]; unfold mu; lia|].
    split; [done|]. split; [done|]. lia.
  - apply fetched_grown in F1; [|lia]. pose proof (ker_size _ _ _ HK) as LK. pose proof (ker_le _ _ _ HK) as LKS.
    destruct (DivideInternal_spec S K s sK V1) as (s' & sQ & sR & V2 & Q & R & -> & Hr' & Hrq & _ & HP & G2 & Hne);
      [apply HS|done|apply HS|done|done|by eapply kernel_nonzero|apply antichain_nodup, HK|lia|destruct F1 as (EG & _ & ?); rewrite EG; lia|].
    cbn [mbind option_bind]. specialize (Hne q (ker_cofactor _ _ _ HK)).
    pose proof (grown_trans _ _ _ _ _ F1 G2) as G3. assert (grown V V2 (3 * Z.of_nat N)) as G4 by (eapply grown_mono; [exact G3|lia]).
    unfold Kit_SopCubeNum at 1 2. rewrite (proj1 Hrq), (proj2 (Z.ltb_lt _ _)) by (destruct Q; [done|cbn [length]; lia]).
    destruct (Z.eqb_spec (Z.of_nat (length Q)) 1) as [E1|E1].
    + destruct Q as [|c [|]]; [done| |cbn [length] in E1; lia].
      assert (K <> []) as HKn by (intros E; rewrite E in LK; cbn [length] in LK; lia).
      destruct (divided_literal nLits S K [c] R HS HKn HP c) as (i & Hi & _ & Hb & Ho); [by left|by eapply single_quotient|].
      assert (is_word c) as Hw.
      { apply (below_in nLits [c] c); [by eapply divided_below|by left]. }
      destruct (FactorLF_spec (Kit_SopFactor_rec fuel) S g s' sQ c i V2) as (r & V3 & E & B & G5); try done; [lia| |].
      { destruct G4 as (EG & _ & ?). rewrite EG. lia. }
      rewrite E. exists r, V3. split; [done|]. split; [done|]. eapply grown_mono; [exact (grown_trans _ _ _ _ _ G4 G5)|lia].
    + destruct (second_division (Kit_SopFactor_rec fuel) S q K Q R g s' sQ V2) as (r & V3 & E & B & G5); try done.
      { destruct Q; [done|]. cbn [length] in *. lia. }
      { destruct G4 as (EG & _ & ?). rewrite EG. lia. }
      rewrite E. exists r, V3. split; [done|]. split; [done|]. eapply grown_mono; [exact (grown_trans _ _ _ _ _ G4 G5)|lia].
Qed.
End recursion.

(** * From a cover to its factored form *)

(** Some minterm satisfies the cube: it has no two literals of one variable. *)
Definition consistent (c : Z) : Prop := is_word c /\ exists m, cube_eval c m = true.

Lemma consistent_pair c v : consistent c -> v < 16 ->
  Z.testbit c (Z.of_nat (2 * v)) && Z.testbit c (Z.of_nat (2 * v + 1)) = false.
Proof.
  intros [_ [m Hm]] Hv. apply (proj1 (cube_eval_true c m)) with (v := v) in Hm as [H0 H1]; [|done].
  destruct (Z.testbit c (Z.of_nat (2 * v))), (Z.testbit c (Z.of_nat (2 * v + 1))); try done.
  rewrite H0 in H1 by done. by specialize (H1 eq_refl).
Qed.

Lemma evens_bit b : b < 32 -> Z.testbit 0x55555555 (Z.of_nat b) = Nat.even b.
Proof. intros Hb. do 32 (destruct b as [|b]; [done|]). lia. Qed.

Lemma testbit_shift1 x b : b < 31 -> Z.testbit (x <<< 1) (Z.of_nat (b + 1)) = Z.testbit x (Z.of_nat b).
Proof.
  intros Hb. rewrite testbit_wshl by lia. rewrite (proj2 (Z.ltb_lt _ _)), (proj2 (Z.leb_le _ _)) by lia.
  cbn [andb]. f_equal. lia.
Qed.

Lemma even_bits v : Nat.even (2 * v) = true /\ Nat.even (2 * v + 1) = false.
Proof.
  assert (Nat.even (2 * v) = true) as E by (apply Nat.even_spec; by exists v). split; [done|].
  by rewrite Nat.even_add, E.
Qed.

Lemma inverse_bits c v : v < 16 ->
  Z.testbit (inverse_cube c) (Z.of_nat (2 * v)) =
    negb (Z.testbit c (Z.of_nat (2 * v))) && Z.testbit c (Z.of_nat (2 * v + 1)) /\
  Z.testbit (inverse_cube c) (Z.of_nat (2 * v + 1)) =
    negb (Z.testbit c (Z.of_nat (2 * v + 1))) && Z.testbit c (Z.of_nat (2 * v)).
Proof.
  intros Hv. destruct (even_bits v) as [E0 E1].
  set (M := ((c ||| (c >>> 1)) &&& 0x55555555)%Z).
  assert (Z.testbit M (Z.of_nat (2 * v)) = Z.testbit c (Z.of_nat (2 * v)) || Z.testbit c (Z.of_nat (2 * v + 1))) as M0.
  { unfold M. rewrite Z.land_spec, evens_bit, E0, andb_true_r, Z.lor_spec, testbit_wshr by lia. do 2 f_equal. lia. }
  assert (Z.testbit M (Z.of_nat (2 * v + 1)) = false) as M1.
  { unfold M. by rewrite Z.land_spec, evens_bit, E1, andb_false_r by lia. }
  assert (Z.testbit (M <<< 1) (Z.of_nat (2 * v)) = false) as M2.
  { destruct v as [|v]; [by rewrite testbit_wshl|]. replace (2 * S v) with ((2 * v + 1) + 1) by lia.
    rewrite testbit_shift1 by lia. unfold M. rewrite Z.land_spec, evens_bit by lia. destruct (even_bits v) as [_ ->]. apply andb_false_r. }
  change (inverse_cube c) with (c ^^^ (M ||| (M <<< 1)))%Z.
  rewrite !Z.lxor_spec, !Z.lor_spec, testbit_shift1, M0, M1, M2 by lia.
  by destruct (Z.testbit c (Z.of_nat (2 * v))), (Z.testbit c (Z.of_nat (2 * v + 1))).
Qed.

Lemma word_inverse c : is_word c -> is_word (inverse_cube c).
Proof. intros H. unfold inverse_cube. auto 10 with words. Qed.

(** The pairs of bits of a cube. *)
Lemma pairs_sat c k m : range_sat c 0 (2 * k) m =
  forallb (fun v => (negb (Z.testbit c (Z.of_nat (2 * v))) || Nat.testbit m v) &&
                    (negb (Z.testbit c (Z.of_nat (2 * v + 1))) || negb (Nat.testbit m v))) (seq 0 k).
Proof.
  induction k as [|k IH]; [done|]. rewrite seq_S, forallb_app. cbn [forallb Nat.add]. rewrite <- IH.
  replace (2 * S k) with (S (S (2 * k))) by lia. rewrite !range_sat_S by lia.
  replace (2 * k + 1) with (S (2 * k)) by lia. rewrite andb_true_r, andb_assoc. f_equal; [f_equal|]; f_equal.
  - unfold lit_sat. rewrite <- Nat.negb_even. rewrite (proj1 (even_bits k)), (Nat.mul_comm 2 k), Nat.div_mul by lia.
    by destruct (Nat.testbit m k).
  - unfold lit_sat. replace (S (2 * k)) with (2 * k + 1) by lia. rewrite <- Nat.negb_even, (proj2 (even_bits k)).
    rewrite (Nat.mul_comm 2 k), Nat.div_add_l by lia. change (1 / 2) with 0. by rewrite Nat.add_0_r.
Qed.

Lemma inverse_sat c m : consistent c -> cube_sat (inverse_cube c) m = cube_eval c m.
Proof.
  intros Hc. unfold cube_sat. change 32 with (2 * 16). rewrite pairs_sat. unfold cube_eval.
  apply eq_true_iff_eq. rewrite !forallb_forall. apply forall_proper. intros v. apply forall_proper. intros Hv%in_seq.
  destruct (inverse_bits c v) as [-> ->]; [lia|]. pose proof (consistent_pair c v Hc ltac:(lia)) as Hp.
  by destruct (Z.testbit c (Z.of_nat (2 * v))), (Z.testbit c (Z.of_nat (2 * v + 1))), (Nat.testbit m v).
Qed.

Lemma pair_word b : b < 32 -> exists v, v < 16 /\ (b = 2 * v \/ b = 2 * v + 1).
Proof. intros Hb. exists (b / 2). split; [apply Nat.Div0.div_lt_upper_bound; lia|]. pose proof (Nat.div_mod_eq b 2). pose proof (Nat.mod_upper_bound b 2 ltac:(lia)). lia. Qed.

Lemma inverse_sub c d : consistent c -> consistent d -> sub (inverse_cube c) (inverse_cube d) -> sub c d.
Proof.
  intros Hc Hd Hs. apply word_ext; [apply word_land; [apply Hd|apply Hc]|apply Hc|]. intros b Hb. rewrite Z.land_spec.
  destruct (pair_word b Hb) as (v & Hv & Eb). pose proof (consistent_pair c v Hc Hv) as Pc. pose proof (consistent_pair d v Hd Hv) as Pd.
  destruct (inverse_bits c v Hv) as [C0 C1], (inverse_bits d v Hv) as [D0 D1].
  pose proof (f_equal (fun x => Z.testbit x (Z.of_nat (2 * v))) Hs) as H0. pose proof (f_equal (fun x => Z.testbit x (Z.of_nat (2 * v + 1))) Hs) as H1.
  cbv beta in H0, H1. rewrite Z.land_spec, C0, D0 in H0. rewrite Z.land_spec, C1, D1 in H1. clear -Pc Pd H0 H1 Eb.
  destruct Eb as [-> | ->];
  destruct (Z.testbit c (Z.of_nat (2 * v))), (Z.testbit c (Z.of_nat (2 * v + 1))), (Z.testbit d (Z.of_nat (2 * v))), (Z.testbit d (Z.of_nat (2 * v + 1))); done.
Qed.

Lemma inverse_below n c : n <= 16 -> cube_in n c -> lits_below (2 * n) (inverse_cube c).
Proof.
  intros Hn [Hw Hc]. split; [by apply word_inverse|]. intros i Hi.
  destruct (Nat.lt_ge_cases i 32) as [Hi'|Hi']; [|apply word_high; [by apply word_inverse|lia]].
  destruct (pair_word i Hi') as (v & Hv & Ei). destruct (inverse_bits c v Hv) as [I0 I1].
  rewrite (Hc (2 * v)), (Hc (2 * v + 1)) in I0, I1 by lia. by destruct Ei as [-> | ->].
Qed.

Lemma inverse_cover n cs : n <= 16 -> Forall (cube_in n) cs -> Forall consistent cs -> antichain cs -> cs <> [0%Z] ->
  good (2 * n) (map inverse_cube cs) /\ forall m, cover_sat (map inverse_cube cs) m = cover_eval cs m.
Proof.
  intros Hn Hin Hc Ha H0. assert (forall c, c ∈ cs -> consistent c) as Hcs
    by (intros c; rewrite list_elem_of_In; by apply List.Forall_forall).
  assert (antichain (map inverse_cube cs)) as HA.
  { apply antichain_map; [done|]. intros c d Hc' Hd. apply inverse_sub; auto. }
  split; [constructor|].
  - done.
  - apply List.Forall_map. revert Hin. apply List.Forall_impl. intros c. by apply inverse_below.
  - destruct (Nat.le_gt_cases 2 (length cs)) as [H2|H2]; [apply antichain_nonzero; [done|by rewrite length_map]|].
    destruct cs as [|c [|]]; [constructor| |cbn in H2; lia]. constructor; [|constructor]. intros E.
    apply H0. f_equal. assert (consistent c) as Hcc by (apply Hcs; by left). apply word_ext; [apply Hcc|apply word_0|].
    intros b Hb. rewrite Z.testbit_0_l. destruct (pair_word b Hb) as (v & Hv & Eb). destruct (inverse_bits c v Hv) as [I0 I1].
    rewrite E, !Z.testbit_0_l in I0, I1. pose proof (consistent_pair c v Hcc Hv) as Pc.
    destruct Eb as [-> | ->]; destruct (Z.testbit c (Z.of_nat (2 * v))), (Z.testbit c (Z.of_nat (2 * v + 1))); done.
  - intros m. unfold cover_sat, cover_eval. clear -Hcs. induction cs as [|c cs IH]; [done|]. cbn [map existsb].
    rewrite inverse_sat by (apply Hcs; by left). f_equal. apply IH. intros d Hd. apply Hcs. by right.
Qed.

(** The literals of a cube are as many after the exchange, and at most one for each variable. *)
Lemma inverse_size c : consistent c -> size (inverse_cube c) = size c.
Proof.
  intros Hc. rewrite !size_range. change 32 with (2 * 16).
  assert (forall k, k <= 16 -> range_size (inverse_cube c) 0 (2 * k) = range_size c 0 (2 * k)) as H; [|by apply H].
  induction k as [|k IH]; intros Hk; [done|]. replace (2 * S k) with (S (S (2 * k))) by lia.
  rewrite !range_size_S, IH by lia. replace (S (2 * k)) with (2 * k + 1) by lia.
  destruct (inverse_bits c k) as [-> ->]; [lia|]. pose proof (consistent_pair c k Hc ltac:(lia)) as Hp.
  destruct (Z.testbit c (Z.of_nat (2 * k))), (Z.testbit c (Z.of_nat (2 * k + 1))); done || (cbn; lia).
Qed.

Lemma consistent_size n c : n <= 16 -> consistent c -> cube_in n c -> size c <= n.
Proof.
  intros Hn Hc [_ Hin]. rewrite size_range, (range_size_split c 0 (2 * n) 32) by lia.
  rewrite (range_none c (2 * n) 32) by (intros i Hi; apply Hin; lia). rewrite Nat.add_0_r. clear Hin.
  induction n as [|n IH]; [done|]. replace (2 * S n) with (S (S (2 * n))) by lia. rewrite !range_size_S by lia.
  specialize (IH ltac:(lia)). replace (S (2 * n)) with (2 * n + 1) by lia.
  pose proof (consistent_pair c n Hc ltac:(lia)) as Hp.
  destruct (Z.testbit c (Z.of_nat (2 * n))), (Z.testbit c (Z.of_nat (2 * n + 1))); [done|cbn [Nat.b2n]; lia..].
Qed.

Lemma inverse_mu cs : Forall consistent cs -> mu (map inverse_cube cs) = mu cs /\ sizes (map inverse_cube cs) = sizes cs.
Proof.
  intros H. unfold mu. rewrite length_map. assert (sizes (map inverse_cube cs) = sizes cs) as ->; [|done].
  induction H as [|c cs Hc Hcs IH]; [done|]. cbn [map sizes]. by rewrite IH, inverse_size.
Qed.

(** The value of a graph at a minterm, and the graphs whose truth table can be computed. *)
Definition graph_eval (g : Kit_Graph_t) (m : nat) : bool :=
  if fConst g then negb (fCompl (eRoot g)) else edge_eval g m (eRoot g).
Definition readable (g : Kit_Graph_t) : Prop :=
  fConst g = false -> wf_graph g /\ edge_in (nSize g) (eRoot g) /\
    (edge_node (eRoot g) < nLeaves g /\ nSize g = nLeaves g \/ edge_node (eRoot g) = nSize g - 1).

Lemma edge_eval_root g r m e : edge_eval (Kit_GraphSetRoot g r) m e = edge_eval g m e.
Proof.
  unfold edge_eval, node_eval. f_equal. generalize (S (edge_node e)) as k. generalize (edge_node e) as i.
  intros i k. revert i. induction k as [|k IH]; intros i; [done|]. cbn [node_val]. rewrite !IH. done.
Qed.

Lemma wf_root g r : wf_graph g -> wf_graph (Kit_GraphSetRoot g r).
Proof. intros [? ? ? ? ? ?]. by constructor. Qed.

(** Setting the root, complemented or not. *)
Lemma set_root g k f r (c : bool) : builds g k f r -> nSize g = nLeaves g ->
  let g' := if c then Kit_GraphComplement (Kit_GraphSetRoot r.2 r.1) else Kit_GraphSetRoot r.2 r.1 in
  readable g' /\ fConst g' = false /\ nLeaves g' = nLeaves g /\ nSize g' <= nSize g + k /\
  forall m, graph_eval g' m = xorb c (f m).
Proof.
  intros [(Hw & He & Hs & Hi & Hf) Hend] Hg. cbv zeta.
  assert (edge_node r.1 < nLeaves r.2 /\ nSize r.2 = nLeaves r.2 \/ edge_node r.1 = nSize r.2 - 1) as Hend'
    by (destruct Hend as [[H1 H2]|]; [left; pose proof (ext_leaves _ _ He); split; [done|lia]|by right]).
  assert (forall e, readable (Kit_GraphSetRoot (Kit_GraphSetRoot r.2 r.1) e) <->
    (edge_in (nSize r.2) e /\ (edge_node e < nLeaves r.2 /\ nSize r.2 = nLeaves r.2 \/ edge_node e = nSize r.2 - 1))) as HR.
  { intros e. unfold readable. cbn [Kit_GraphSetRoot fConst nSize nLeaves eRoot]. rewrite (wf_const _ Hw). split.
    - intros H. by apply H.
    - intros H _. split; [by apply wf_root, wf_root|done]. }
  assert (Kit_GraphSetRoot r.2 r.1 = Kit_GraphSetRoot (Kit_GraphSetRoot r.2 r.1) r.1) as ES by done.
  destruct c; unfold Kit_GraphComplement.
  - split; [by apply HR|]. cbn [Kit_GraphSetRoot fConst nSize nLeaves eRoot].
    split; [apply (wf_const _ Hw)|]. split; [apply He|]. split; [done|]. intros m. unfold graph_eval.
    cbn [Kit_GraphSetRoot fConst eRoot]. rewrite (wf_const _ Hw).
    change (edge_eval (Kit_GraphSetRoot (Kit_GraphSetRoot r.2 r.1) (edge_not r.1)) m (edge_not r.1) = xorb true (f m)).
    by rewrite !edge_eval_root, edge_eval_not, Hf.
  - split; [rewrite ES; by apply HR|]. cbn [Kit_GraphSetRoot fConst nSize nLeaves eRoot].
    split; [apply (wf_const _ Hw)|]. split; [apply He|]. split; [done|]. intros m. unfold graph_eval.
    cbn [Kit_GraphSetRoot fConst eRoot]. rewrite (wf_const _ Hw).
    change (edge_eval (Kit_GraphSetRoot r.2 r.1) m r.1 = xorb false (f m)). rewrite edge_eval_root, Hf. by destruct (f m).
Qed.

Definition is_constant (cs : list Z) : bool := (length cs =? 0) || ((length cs =? 1) && (cs.[0] =? 0)%Z).

Lemma SopFactor_spec fuel cs (c : bool) nVars V :
  nVars < 16 -> Forall (cube_in nVars) cs -> Forall consistent cs -> antichain cs -> mu cs < fuel ->
  (0 <= VecInt.nSize V)%Z -> (VecInt.nSize V + Z.of_nat (length cs + (7 * length cs + 2) * mu cs) <= KIT_FACTOR_MEM_LIMIT)%Z ->
  exists g V', Kit_SopFactor fuel cs c nVars V = Some (g, V') /\ readable g /\ fConst g = is_constant cs /\
    (fConst g = false -> nLeaves g = nVars /\ nSize g <= nVars + (sizes cs - 1)) /\ (fConst g = true -> nSize g = 0) /\
    nLeaves g <= nSize g /\ nLeaves g <= nVars /\
    forall m, graph_eval g m = xorb (c && negb (is_constant cs)) (cover_eval cs m).
Proof.
  intros Hn Hin Hc Ha Hf H0 Hm. unfold Kit_SopFactor, is_constant. rewrite (proj2 (Nat.ltb_lt _ _) Hn).
  destruct (Nat.eqb_spec (length cs) 0) as [E0|E0]; cbn [orb].
  { destruct cs; [|done]. eexists _, V. do 6 (split; [done|]). split; [cbn; lia|]. intros m. by rewrite andb_false_r. }
  destruct ((length cs =? 1) && (cs.[0] =? 0)%Z) eqn:E1.
  { apply andb_true_iff in E1 as [E1%Nat.eqb_eq E2%Z.eqb_eq]. destruct cs as [|x [|]]; [done| |done]. cbn in E2. subst x.
    eexists _, V. do 6 (split; [done|]). split; [cbn; lia|]. intros m. rewrite andb_false_r. unfold cover_eval. cbn [existsb]. by rewrite cube_eval_0. }
  assert (cs <> [0%Z]) as Hne by (intros ->; done).
  destruct (inverse_cover nVars cs ltac:(lia) Hin Hc Ha Hne) as [HG Hsat]. destruct (inverse_mu cs Hc) as [Emu Esz].
  set (V0 := Vec_IntGrow V KIT_FACTOR_MEM_LIMIT).
  assert (KIT_FACTOR_MEM_LIMIT <= VecInt.nCap V0 /\ VecInt.nSize V0 = VecInt.nSize V)%Z as [HC0 HS0].
  { unfold V0, Vec_IntGrow. destruct (Z.leb_spec KIT_FACTOR_MEM_LIMIT (VecInt.nCap V)); [done|]. split; [apply Z.le_refl|done]. }
  pose proof (Nat2Z.is_nonneg ((7 * length cs + 2) * mu cs)) as Hpos.
  destruct (SopCreateInverse_spec cs (2 * nVars) V0) as (s & V1 & -> & Hr & HF); [lia|]. cbn [mbind option_bind].
  destruct HF as (F1 & _ & F2).
  assert (map inverse_cube cs <> []) as Hne' by (intros E%(f_equal length); rewrite length_map in E; done).
  assert (Z.of_nat (length cs) < 1000000)%Z as HN.
  { unfold KIT_FACTOR_MEM_LIMIT in Hm. assert (2 * length cs <= (7 * length cs + 2) * mu cs) by (unfold mu; nia). lia. }
  destruct (Factor_rec_spec (2 * nVars) (length cs) ltac:(lia) HN fuel (map inverse_cube cs) HG Hne') with
    (g := Kit_GraphCreate nVars) (s := s) (V := V1) as (r & V2 & -> & B & G2); [by rewrite length_map|by rewrite Emu|done| | |].
  { split; [apply wf_Create|]. cbn [Kit_GraphCreate nLeaves]. split; [done|]. unfold small. cbn [Kit_GraphCreate nSize].
    rewrite Esz. unfold KIT_FACTOR_MEM_LIMIT in Hm. assert (sizes cs <= (7 * length cs + 2) * mu cs) by (unfold mu; nia). lia. }
  { unfold need. rewrite Emu, F1, F2. lia. }
  rewrite Esz in B. destruct r as [e g]. cbn [mbind option_bind].
  destruct (set_root _ _ _ _ c B eq_refl) as (R1 & R2 & R3 & R4 & R5). cbn [fst snd] in *.
  eexists _, V2. split; [done|]. split; [exact R1|]. split; [exact R2|]. cbn [Kit_GraphCreate nLeaves nSize] in *.
  split; [by intros _|]. split; [by rewrite R2|]. split; [apply wf_leaves, R1, R2|]. split; [by rewrite R3|].
  intros m. rewrite R5, Hsat. cbn [negb]. by rewrite andb_true_r.
Qed.

(** * Properties *)

(** C8. [Kit_SopFactor] on a cover of at most 15 variables in which no cube contains another and every cube can be
    satisfied, with fuel above the number of its literals and cubes: while the memory limit leaves
    [n + (7 n + 2) * (literals + n)] words for [n] cubes, no assertion fails and no memory request is refused.  The
    result is a well-formed graph that can be read back, with fewer gates than the cover has literals, whose
    function is that of the cover, complemented when asked; the constant covers give the constant graphs, which
    are never complemented. *)
Theorem sop_factor_correct fuel vCover (fCompl : bool) nVars vMemory :
  nVars < 16 -> Forall (cube_in nVars) vCover -> Forall consistent vCover -> antichain vCover -> mu vCover < fuel ->
  (0 <= VecInt.nSize vMemory)%Z ->
  (VecInt.nSize vMemory + Z.of_nat (length vCover + (7 * length vCover + 2) * mu vCover) <= KIT_FACTOR_MEM_LIMIT)%Z ->
  exists g vMemory', Kit_SopFactor fuel vCover fCompl nVars vMemory = Some (g, vMemory') /\ readable g /\
    fConst g = is_constant vCover /\
    (fConst g = false -> nLeaves g = nVars /\ Kit_GraphNodeNum g < sizes vCover) /\
    forall m, graph_eval g m = xorb (fCompl && negb (is_constant vCover)) (cover_eval vCover m).
Proof.
  intros Hn Hin Hc Ha Hf H0 Hm.
  destruct (SopFactor_spec fuel vCover fCompl nVars vMemory Hn Hin Hc Ha Hf H0 Hm) as (g & V' & E & R1 & R2 & R3 & _ & _ & _ & R4).
  exists g, V'. do 3 (split; [done|]). split; [|done]. intros Hg. destruct (R3 Hg) as [H1 H2]. split; [done|].
  unfold Kit_GraphNodeNum. rewrite H1. assert (0 < sizes vCover); [|lia].
  rewrite Hg in R2. symmetry in R2. unfold is_constant in R2. apply orb_false_iff in R2 as [Hl Hz].
  destruct vCover as [|c cs]; [done|]. cbn [sizes]. inversion_clear Hc as [|? ? [Hw _] _].
  destruct (decide (c = 0%Z)) as [-> | Hc0]; [|pose proof (size_nonzero c Hw Hc0); lia].
  destruct cs as [|d cs]; [done|]. exfalso. assert (0 = 1) as Ei; [|done].
  apply (Ha 0 1 0%Z d); [done|done|apply sub_0].
Qed.

Lemma sop_factor_correct_witness :
  let vCover := [0x22; 0x82; 0x28; 0x88; 0x200]%Z in
  let V := {| VecInt.nCap := 0; VecInt.nSize := 5; pArray := [] |} in
  option_map (fun r => (Kit_GraphNodeNum r.1, nLeaves r.1)) (Kit_SopFactor 20 vCover true 5 V) = Some (4, 5) /\
  exists g vMemory', Kit_SopFactor 20 vCover true 5 V = Some (g, vMemory') /\ readable g /\
    fConst g = is_constant vCover /\
    (fConst g = false -> nLeaves g = 5 /\ Kit_GraphNodeNum g < sizes vCover) /\
    forall m, graph_eval g m = xorb (true && negb (is_constant vCover)) (cover_eval vCover m).
Proof.
  intros vCover V. split; [reflexivity|].
  apply (sop_factor_correct 20 vCover true 5 V).
  - lia.
  - repeat apply List.Forall_cons; try apply List.Forall_nil; (split; [done|intros i Hi; apply Z.bits_above_log2; cbn; lia]).
  - repeat apply List.Forall_cons; try apply List.Forall_nil; (split; [done|]); [exists 5|exists 9|exists 6|exists 10|exists 16]; reflexivity.
  - apply antichainb_true. reflexivity.
  - by apply Nat.ltb_lt.
  - done.
  - by apply Z.leb_le.
Defined.
