(* ===== verification/Flow.v ===== *)
(** The flows of [kitGraph.c] from a truth table to a factored form: [Kit_TruthIsop] followed
    by [Kit_SopFactor] on the cover it leaves at the beginning of the memory. *)
From S2P Require Import Prelude Words Minterm TruthBasic TruthCof TruthSupp VecInt Cube Minato Isop Graph Sop Divide Kernel Factor.

(** * The routines *)

(** The null pointer is [None] inside the answer.  The cover is the contents of the memory
    up to its size, read again after the memory has grown. *)
Definition Kit_TruthToGraph (fuel : nat) (pTruth : list Z) (nVars : nat) (vMemory : Vec_Int_t)
  : option (option Kit_Graph_t * Vec_Int_t * list Z) :=
  '(RetValue, vMemory, pTruth) ← Kit_TruthIsop pTruth nVars vMemory true;
  if (RetValue =? -1)%Z then Some (None, vMemory, pTruth)
  else if (2 ^ 16 <? VecInt.nSize vMemory)%Z then Some (None, vMemory, pTruth)
  else
    assert! (RetValue =? 0)%Z || (RetValue =? 1)%Z in
    '(pGraph, vMemory) ← Kit_SopFactor fuel (take (Z.to_nat (VecInt.nSize vMemory)) (pArray vMemory)) (RetValue =? 1)%Z nVars vMemory;
    Some (Some pGraph, vMemory, pTruth).

Definition Kit_TruthToGraph2 (fuel : nat) (pTruth0 pTruth1 : list Z) (nVars : nat) (vMemory : Vec_Int_t)
  : option (option Kit_Graph_t * Vec_Int_t * list Z * list Z) :=
  '(RetValue, vMemory, pTruth0, pTruth1) ← Kit_TruthIsop2 pTruth0 pTruth1 nVars vMemory false false;
  if (RetValue =? -1)%Z then Some (None, vMemory, pTruth0, pTruth1)
  else if (2 ^ 16 <? VecInt.nSize vMemory)%Z then Some (None, vMemory, pTruth0, pTruth1)
  else
    assert! (RetValue =? 0)%Z || (RetValue =? 1)%Z in
    '(pGraph, vMemory) ← Kit_SopFactor fuel (take (Z.to_nat (VecInt.nSize vMemory)) (pArray vMemory)) (RetValue =? 1)%Z nVars vMemory;
    Some (Some pGraph, vMemory, pTruth0, pTruth1).

(** In a constant graph the last node is the one before the first, which counts as a leaf. *)
Definition level_of_last (pGraph : Kit_Graph_t) : option Z :=
  if nSize pGraph =? 0 then Some 0%Z else Kit_GraphLevelNum_rec (nSize pGraph) pGraph (nSize pGraph - 1).

Definition Kit_TruthStats (fuel : nat) (pTruth : list Z) (nVars : nat) (vMemory : Vec_Int_t)
  : option (Z * Vec_Int_t * list Z) :=
  '(pGraph, vMemory, pTruth) ← Kit_TruthToGraph fuel pTruth nVars vMemory;
  pGraph ← pGraph;
  let nNodes := Z.of_nat (Kit_GraphNodeNum pGraph) in
  nLevels ← level_of_last pGraph;
  Some ((nLevels <<< 16) ||| nNodes, vMemory, pTruth)%Z.

Definition Kit_TruthLitNum (fuel : nat) (pTruth : list Z) (nVars : nat) (vMemory : Vec_Int_t)
  : option (Z * Vec_Int_t * list Z) :=
  '(RetValue, vMemory, pTruth) ← Kit_TruthIsop pTruth nVars vMemory true;
  if (RetValue =? -1)%Z || (2 ^ 16 <? VecInt.nSize vMemory)%Z then Some ((-1)%Z, vMemory, pTruth)
  else
    assert! (RetValue =? 0)%Z || (RetValue =? 1)%Z in
    '(pGraph, vMemory) ← Kit_SopFactor fuel (take (Z.to_nat (VecInt.nSize vMemory)) (pArray vMemory)) (RetValue =? 1)%Z nVars vMemory;
    Some ((1 + Z.of_nat (Kit_GraphNodeNum pGraph))%Z, vMemory, pTruth).

(** * Irredundant covers *)

(** A minterm that is covered once belongs to one cube. *)
Lemma private_cube cs m i j c d : times_covered cs m = 1 -> cs !! i = Some c -> cs !! j = Some d ->
  cube_eval c m = true -> cube_eval d m = true -> i = j.
Proof.
  assert (forall i j c d, i < j -> cs !! i = Some c -> cs !! j = Some d -> cube_eval c m = true ->
    cube_eval d m = true -> 2 <= times_covered cs m) as H.
  { clear i j c d. intros i j c d Hij Hi Hj Hc Hd. rewrite <- (take_drop j cs), times_covered_app.
    assert (forall l x, In x l -> cube_eval x m = true -> 1 <= times_covered l m) as H1.
    { intros l x Hx Ex. unfold times_covered. assert (In x (List.filter (fun c => cube_eval c m) l)) as H by by apply filter_In.
      destruct (List.filter _ _); [done|cbn; lia]. }
    assert (1 <= times_covered (take j cs) m).
    { apply (H1 _ c); [|done]. apply list_elem_of_In, (list_elem_of_lookup_2 _ i). by rewrite lookup_take, decide_True. }
    assert (1 <= times_covered (drop j cs) m).
    { apply (H1 _ d); [|done]. apply list_elem_of_In, (list_elem_of_lookup_2 _ 0). by rewrite lookup_drop, Nat.add_0_r. }
    lia. }
  intros Ht Hi Hj Hc Hd. destruct (Nat.lt_trichotomy i j) as [Hlt|[|Hlt]]; [|done|].
  - specialize (H i j c d Hlt Hi Hj Hc Hd). lia.
  - specialize (H j i d c Hlt Hj Hi Hd Hc). lia.
Qed.

Lemma sub_eval c d m : sub c d -> cube_eval d m = true -> cube_eval c m = true.
Proof.
  intros Hs. rewrite !cube_eval_true. intros H v Hv. destruct (H v Hv) as [H0 H1]. unfold sub in Hs.
  rewrite <- Hs, !Z.land_spec, !andb_true_iff. split; intros [? _]; auto.
Qed.

Section irredundant.
Context (n : nat) (on dc : nat -> bool) (cs : list Z) (Hn : n <= 16) (H : isop n on dc cs).

Lemma isop_private i c : cs !! i = Some c -> exists m, cube_eval c m = true /\ times_covered cs m = 1.
Proof using All.
  intros Hi. destruct (Forall_lookup_1 _ _ _ _ (isop_irredundant _ _ _ _ H) Hi) as (m & _ & Hm). by exists m.
Qed.

Lemma isop_consistent : Forall consistent cs.
Proof using All.
  apply Forall_lookup. intros i c Hi. split; [by apply (Forall_lookup_1 _ _ _ _ (isop_in _ _ _ _ H) Hi)|].
  destruct (isop_private i c Hi) as (m & Hm & _). by exists m.
Qed.

Lemma isop_antichain : antichain cs.
Proof using All.
  intros i j c d Hi Hj Hs. destruct (isop_private j d Hj) as (m & Hm & Ht).
  apply (private_cube cs m i j c d); [done..| |done]. by apply (sub_eval c d).
Qed.

(** One private minterm for each cube. *)
Lemma choose_all {A B} (P : A -> B -> Prop) (l : list A) : Forall (fun x => exists y, P x y) l -> exists ys, Forall2 P l ys.
Proof using.
  induction 1 as [|x l [y Hy] _ [ys IH]]; [by exists []|]. exists (y :: ys). by constructor.
Qed.

Lemma isop_length : length cs <= 2 ^ n.
Proof using All.
  destruct (choose_all (fun c m => m < 2 ^ n /\ cube_eval c m = true /\ times_covered cs m = 1) cs) as [ms Hms].
  { apply Forall_lookup. intros i c Hi. destruct (isop_private i c Hi) as (m & Hm & Ht).
    assert (forall k, k < n -> Nat.testbit (m mod 2 ^ n) k = Nat.testbit m k) as Hb
      by (intros; by apply Nat.mod_pow2_bits_low).
    exists (m mod 2 ^ n). split; [apply Nat.mod_upper_bound, Nat.pow_nonzero; lia|].
    assert (forall c, In c cs -> cube_eval c (m mod 2 ^ n) = cube_eval c m) as He.
    { intros d Hd. apply (cube_eval_ext n); [|done]. pose proof (isop_in _ _ _ _ H) as Hin. rewrite List.Forall_forall in Hin. auto. }
    split; [rewrite He; [done|by eapply list_elem_of_In, list_elem_of_lookup_2]|]. unfold times_covered in *.
    by rewrite (filter_ext_in _ (fun c => cube_eval c m)) by exact He. }
  assert (NoDup ms) as Hnd.
  { apply NoDup_alt. intros i j m Hi Hj. destruct (Forall2_lookup_r _ _ _ _ _ Hms Hi) as (c & Hc & _ & Ec & Et).
    destruct (Forall2_lookup_r _ _ _ _ _ Hms Hj) as (d & Hd & _ & Ed & _). by apply (private_cube cs m i j c d). }
  rewrite (Forall2_length Hms). rewrite <- (length_seq (2 ^ n) 0). apply NoDup_incl_length; [by apply NoDup_ListNoDup|].
  intros m Hm%list_elem_of_In. apply list_elem_of_lookup in Hm as [i Hi].
  destruct (Forall2_lookup_r _ _ _ _ _ Hms Hi) as (c & _ & Hlt & _). apply in_seq. lia.
Qed.

Lemma isop_mu : mu cs <= 2 ^ n * (n + 1).
Proof using All.
  transitivity (length cs * (n + 1)); [|apply Nat.mul_le_mono_r, isop_length].
  assert (forall c, c ∈ cs -> size c <= n) as Hsz.
  { intros c [i Hi]%list_elem_of_lookup. apply consistent_size; [done|by apply (Forall_lookup_1 _ _ _ _ isop_consistent Hi)|].
    by apply (Forall_lookup_1 _ _ _ _ (isop_in _ _ _ _ H) Hi). }
  unfold mu. clear -Hsz. induction cs as [|c l IH]; [done|]. cbn [sizes length].
  assert (sizes l + length l <= length l * (n + 1)) by (apply IH; intros; apply Hsz; by right).
  assert (size c <= n) by (apply Hsz; by left). lia.
Qed.
End irredundant.

(** * The flows *)

(** Enough fuel for the factoring of an irredundant cover. *)
Definition flow_fuel (nVars : nat) : nat := S (2 ^ nVars * (nVars + 1)).

(** Up to seven variables the memory limit leaves enough words. *)
Lemma flow_room n (cs : list Z) : n <= 7 -> length cs <= 2 ^ n -> mu cs <= 2 ^ n * (n + 1) ->
  (Z.of_nat (length cs) + Z.of_nat (length cs + (7 * length cs + 2) * mu cs) <= KIT_FACTOR_MEM_LIMIT)%Z.
Proof.
  intros Hn Hl Hm. assert (2 ^ n <= 2 ^ 7) as H7 by (apply Nat.pow_le_mono_r; lia). change (2 ^ 7) with 128 in H7.
  assert (2 ^ n * (n + 1) <= 128 * 8) as H8 by (apply Nat.mul_le_mono; lia).
  assert ((7 * length cs + 2) * mu cs <= 898 * 1024) as H9 by (apply Nat.mul_le_mono; lia).
  apply (Z.le_trans _ (Z.of_nat (128 + (128 + 898 * 1024)))); [rewrite <- Nat2Z.inj_add; apply inj_le; lia|].
  unfold KIT_FACTOR_MEM_LIMIT. rewrite !Nat2Z.inj_add, Nat2Z.inj_mul. by vm_compute.
Qed.

(** What the flows return for the cover [cs]. *)
Record factored (nVars : nat) (cs : list Z) (c : bool) (g : Kit_Graph_t) : Prop := {
  fac_readable : readable g;
  fac_const : fConst g = is_constant cs;
  fac_empty : fConst g = true -> nSize g = 0;
  fac_leaves : nLeaves g <= nSize g /\ nLeaves g <= nVars;
  fac_gates : fConst g = false -> nLeaves g = nVars /\ nSize g <= nVars + (sizes cs - 1);
  fac_eval : forall m, graph_eval g m = xorb (c && negb (is_constant cs)) (cover_eval cs m);
}.

Lemma factor_isop n on dc cs (c : bool) fuel V : n <= 7 -> isop n on dc cs -> 2 ^ n * (n + 1) < fuel ->
  VecInt.nSize V = Z.of_nat (length cs) ->
  exists g V', Kit_SopFactor fuel cs c n V = Some (g, V') /\ factored n cs c g.
Proof.
  intros Hn Hi Hf Hs. pose proof (isop_mu n on dc cs ltac:(lia) Hi) as Hm. pose proof (isop_length n on dc cs ltac:(lia) Hi) as Hl.
  destruct (SopFactor_spec fuel cs c n V) as (g & V' & E & H1 & H2 & H3 & H4 & H5 & H6 & H7);
    [lia|apply Hi|by apply (isop_consistent n on dc); [lia|]|by apply (isop_antichain n on dc); [lia|]|lia|lia|rewrite Hs; by apply (flow_room n)|].
  exists g, V'. split; [done|]. by constructor.
Qed.

Lemma small_cover (cs : list Z) n : n <= 7 -> length cs <= 2 ^ n -> (2 ^ 16 <? Z.of_nat (length cs))%Z = false.
Proof.
  intros Hn Hl. assert (2 ^ n <= 2 ^ 7) as H7 by (apply Nat.pow_le_mono_r; lia). change (2 ^ 7) with 128 in H7.
  apply Z.ltb_ge. lia.
Qed.

Lemma TruthToGraph_spec fuel n t V : n <= 7 -> is_tt n t -> depends_below n (tfun n t) -> 2 ^ n * (n + 1) < fuel ->
  exists g V' cs c, Kit_TruthToGraph fuel t n V = Some (Some g, V', t) /\ factored n cs c g /\
    length cs <= 2 ^ n /\ mu cs <= 2 ^ n * (n + 1) /\ (forall m, graph_eval g m = tfun n t m) /\
    Kit_TruthLitNum fuel t n V = Some ((1 + Z.of_nat (Kit_GraphNodeNum g))%Z, V', t).
Proof.
  intros Hn Ht Hd Hf. unfold Kit_TruthToGraph, Kit_TruthLitNum.
  destruct (Isop_spec n t V true ltac:(lia) Ht Hd) as (r & V1 & -> & [(-> & _ & Hc)|(Hr & Hs & Hi & Hnc)]).
  { pose proof (mem_limit n V ltac:(lia)). lia. }
  cbn [mbind option_bind]. set (cs := pArray V1) in *.
  pose proof (isop_mu n _ _ cs ltac:(lia) Hi) as Hm. pose proof (isop_length n _ _ cs ltac:(lia) Hi) as Hl.
  rewrite Hs, (small_cover cs n Hn Hl), Nat2Z.id, take_ge by done.
  assert (exists g V', Kit_SopFactor fuel cs (r =? 1)%Z n V1 = Some (g, V') /\ factored n cs (r =? 1)%Z g) as (g & V' & E & HF)
    by (by eapply factor_isop).
  exists g, V', cs, (r =? 1)%Z. rewrite E.
  assert (forall m, graph_eval g m = tfun n t m) as He.
  { intros m. rewrite (fac_eval _ _ _ _ HF), <- (isop_equal _ _ _ m Hi). unfold in_phase.
    destruct Hr as [-> | [-> _]]; [by destruct (tfun n t m)|]. destruct (Hnc eq_refl) as [N0 N1].
    assert (is_constant cs = false) as ->; [|by destruct (tfun n t m)].
    unfold is_constant. destruct cs as [|c [|]]; [done| |done]. cbn. apply Z.eqb_neq. by intros ->. }
  destruct Hr as [-> | [-> _]]; cbn [Z.eqb orb]; by repeat (split; [done|]).
Qed.

Lemma TruthToGraph2_spec fuel nVars pTruth0 pTruth1 vMemory :
  nVars <= 7 -> is_tt nVars pTruth0 -> is_tt nVars pTruth1 ->
  depends_below nVars (tfun nVars pTruth0) -> depends_below nVars (tfun nVars pTruth1) ->
  (forall m, m < nmint nVars -> tbit pTruth1 m = true -> tbit pTruth0 m = false) -> 2 ^ nVars * (nVars + 1) < fuel ->
  exists g vMemory' cs c, Kit_TruthToGraph2 fuel pTruth0 pTruth1 nVars vMemory = Some (Some g, vMemory', pTruth0, pTruth1) /\
    factored nVars cs c g /\ mu cs <= 2 ^ nVars * (nVars + 1) /\
    forall m, m < nmint nVars -> (tbit pTruth1 m = true -> graph_eval g m = true) /\ (tbit pTruth0 m = true -> graph_eval g m = false).
Proof.
  intros Hn H0 H1 D0 D1 Hdis Hf. unfold Kit_TruthToGraph2.
  destruct (Isop2_spec nVars pTruth0 pTruth1 vMemory false false ltac:(lia) H0 H1 D0 D1) as (r & V1 & -> & H); [|done|].
  { intros m. unfold tfun. apply Hdis, mod_nmint. }
  destruct H as [(-> & _ & Hc)|([-> | [_ ?]] & Hs & cs & Hi & [Hp|[? _]])]; [| |done|done|done].
  { pose proof (mem_limit nVars vMemory ltac:(lia)). lia. }
  cbn [mbind option_bind Z.eqb orb]. unfold is_isop2 in Hi. cbn [Z.eqb] in Hi. rewrite Hp in *.
  pose proof (isop_length nVars _ _ cs ltac:(lia) Hi) as Hl. rewrite Hs, (small_cover cs nVars Hn Hl), Nat2Z.id, take_ge by done.
  destruct (factor_isop nVars _ _ cs false fuel V1 Hn Hi Hf Hs) as (g & V' & -> & HF). cbn [mbind option_bind].
  exists g, V', cs, false. split; [done|]. split; [done|]. split; [apply (isop_mu nVars _ _ cs ltac:(lia) Hi)|]. intros m Hm.
  rewrite (fac_eval _ _ _ _ HF). cbn [andb xorb]. rewrite <- !(tfun_small nVars) by done. split.
  - intros E. apply (isop_lower _ _ _ _ Hi) in E. by destruct (cover_eval cs m).
  - intros E. destruct (cover_eval cs m) eqn:Ec; [|done]. apply (isop_upper _ _ _ _ Hi) in Ec. rewrite E in Ec. done.
Qed.

Lemma GraphToTruth_readable g : readable g -> nLeaves g <= nSize g -> nLeaves g <= 5 ->
  exists u g', Kit_GraphToTruth g = Some (u, g') /\ is_word u /\ forall m, m < 32 -> Z.testbit u (Z.of_nat m) = graph_eval g m.
Proof.
  intros Hr Hl H5. unfold graph_eval. destruct (fConst g) eqn:Ec.
  - unfold Kit_GraphToTruth, Kit_GraphLeaveNum, Kit_GraphIsConst, Kit_GraphIsComplement.
    rewrite (proj2 (Nat.leb_le _ _) Hl), (proj2 (Nat.leb_le _ _) H5), Ec.
    eexists _, _. split; [done|]. split; [destruct (fCompl _); auto with words|]. intros m Hm.
    destruct (fCompl _); [apply Z.testbit_0_l|by apply testbit_ones_word].
  - destruct (Hr Ec) as (Hw & Hin & Hroot).
    destruct (GraphToTruth_spec g Hw H5 Hin) as (u & g' & E & _ & Hu & F); [by destruct Hroot as [[? _]|]; auto|].
    exists u, g'. split; [done|]. split; [done|]. intros m Hm. rewrite <- F. unfold wfun. by rewrite Nat.mod_small.
Qed.

Lemma level_of_last_spec g : readable g -> nLeaves g <= nSize g -> fConst g = false ->
  exists d, level_of_last g = Some d /\ (nSize g <> 0 -> level g (nSize g - 1) d).
Proof.
  intros Hr Hl Hc. destruct (Hr Hc) as (Hw & _). unfold level_of_last.
  destruct (Nat.eqb_spec (nSize g) 0) as [E|E]; [by eexists|].
  destruct (LevelNum_spec (nSize g) g (nSize g - 1) Hw) as (d & -> & H); [lia..|]. by exists d.
Qed.

(** A concrete word that does not depend on the fourth and fifth variables. *)
Ltac three_variables t :=
  apply (depends_fewer 3 5); [lia|apply (tfun_depends 3)|];
  let v := fresh "v" in let m := fresh "m" in let Hv := fresh "Hv" in
  intros v m Hv; apply (tfun_vacuous 5 t); [lia|repeat constructor; vm_compute; congruence|];
  let H := fresh "H" in
  assert (v = 3 \/ v = 4) as H by lia; destruct H as [-> | ->]; reflexivity.

(** * Properties *)

(** C6. [Kit_TruthToGraph] up to seven variables, with fuel for [2 ^ n * (n + 1)] literals and cubes, on a table of
    a function of the variables and whatever the memory holds: neither memory limit is met, no assertion fails, the
    table is restored, and the result is a well-formed graph whose value at every minterm is the bit of the table.
    Up to five variables [Kit_GraphToTruth] of the result is the first word of the table. *)
Theorem truth_to_graph_correct fuel pTruth nVars vMemory :
  nVars <= 7 -> is_tt nVars pTruth -> depends_below nVars (tfun nVars pTruth) -> 2 ^ nVars * (nVars + 1) < fuel ->
  exists g vMemory', Kit_TruthToGraph fuel pTruth nVars vMemory = Some (Some g, vMemory', pTruth) /\
    readable g /\ (fConst g = false -> nLeaves g = nVars) /\
    (forall m, m < nmint nVars -> graph_eval g m = tbit pTruth m) /\
    (nVars <= 5 -> exists g', Kit_GraphToTruth g = Some (pTruth.[0], g')).
Proof.
  intros Hn Ht Hd Hf. destruct (TruthToGraph_spec fuel nVars pTruth vMemory Hn Ht Hd Hf) as (g & V' & cs & c & E & HF & _ & _ & He & _).
  exists g, V'. split; [done|]. split; [apply HF|]. split; [intros Hc; by apply HF|].
  assert (forall m, m < nmint nVars -> graph_eval g m = tbit pTruth m) as Hb
    by (intros m Hm; by rewrite He, tfun_small).
  split; [done|]. intros H5. destruct (GraphToTruth_readable g) as (u & g' & Eu & Hu & Hm); [apply HF|by apply (fac_leaves _ _ _ _ HF)|pose proof (proj2 (fac_leaves _ _ _ _ HF)); lia|].
  exists g'. rewrite Eu. do 2 f_equal.
  assert (0 < length pTruth) as Hl by (destruct Ht as [Hl _]; unfold Kit_TruthWordNum in Hl; destruct (nVars <=? 5) eqn:E5; [lia|apply Nat.leb_gt in E5; lia]).
  apply word_ext; [done|apply word_rd, Ht|]. intros b Hb'. assert (32 <= nmint nVars) by (by apply (Nat.pow_le_mono_r 2 5); lia).
  rewrite Hm, Hb by lia. unfold tbit. by rewrite Nat.div_small, Nat.mod_small.
Qed.

Lemma truth_to_graph_correct_witness :
  let V := {| VecInt.nCap := 0; VecInt.nSize := 0; pArray := [] |} in
  option_map (fun r => option_map (fun g => (nLeaves g, Kit_GraphNodeNum g)) r.1.1) (Kit_TruthToGraph 33 [0xCACACACA]%Z 3 V) = Some (Some (3, 3)) /\
  exists g vMemory', Kit_TruthToGraph 33 [0xCACACACA]%Z 3 V = Some (Some g, vMemory', [0xCACACACA]%Z) /\
    readable g /\ (fConst g = false -> nLeaves g = 3) /\
    (forall m, m < nmint 3 -> graph_eval g m = tbit [0xCACACACA]%Z m) /\
    (3 <= 5 -> exists g', Kit_GraphToTruth g = Some (0xCACACACA%Z, g')).
Proof.
  intros V. split; [vm_compute; reflexivity|].
  apply (truth_to_graph_correct 33 [0xCACACACA]%Z 3 V).
  - lia.
  - concrete_tt.
  - three_variables [0xCACACACA]%Z.
  - by apply Nat.ltb_lt.
Defined.

(** [Kit_TruthToGraph2] up to seven variables, on the tables of an off-set and of an on-set that do not meet, with
    the same fuel: both tables are restored and the result is a graph that is true on the on-set and false on the
    off-set. *)
Theorem truth_to_graph2_correct fuel pTruth0 pTruth1 nVars vMemory :
  nVars <= 7 -> is_tt nVars pTruth0 -> is_tt nVars pTruth1 ->
  depends_below nVars (tfun nVars pTruth0) -> depends_below nVars (tfun nVars pTruth1) ->
  (forall m, m < nmint nVars -> tbit pTruth1 m = true -> tbit pTruth0 m = false) -> 2 ^ nVars * (nVars + 1) < fuel ->
  exists g vMemory', Kit_TruthToGraph2 fuel pTruth0 pTruth1 nVars vMemory = Some (Some g, vMemory', pTruth0, pTruth1) /\
    readable g /\ (fConst g = false -> nLeaves g = nVars) /\
    forall m, m < nmint nVars -> (tbit pTruth1 m = true -> graph_eval g m = true) /\ (tbit pTruth0 m = true -> graph_eval g m = false).
Proof.
  intros Hn H0 H1 D0 D1 Hdis Hf.
  destruct (TruthToGraph2_spec fuel nVars pTruth0 pTruth1 vMemory Hn H0 H1 D0 D1 Hdis Hf) as (g & V' & cs & c & E & HF & _ & He).
  exists g, V'. split; [done|]. split; [apply HF|]. split; [intros Hc; by apply HF|done].
Qed.

Lemma truth_to_graph2_correct_witness :
  let V := {| VecInt.nCap := 0; VecInt.nSize := 0; pArray := [] |} in
  option_map (fun r => option_map Kit_GraphNodeNum r.1.1.1) (Kit_TruthToGraph2 33 [0x07070707]%Z [0x88888888]%Z 3 V) = Some (Some 1) /\
  exists g vMemory', Kit_TruthToGraph2 33 [0x07070707]%Z [0x88888888]%Z 3 V = Some (Some g, vMemory', [0x07070707]%Z, [0x88888888]%Z) /\
    readable g /\ (fConst g = false -> nLeaves g = 3) /\
    forall m, m < nmint 3 -> (tbit [0x88888888]%Z m = true -> graph_eval g m = true) /\
      (tbit [0x07070707]%Z m = true -> graph_eval g m = false).
Proof.
  intros V. split; [vm_compute; reflexivity|].
  apply (truth_to_graph2_correct 33 [0x07070707]%Z [0x88888888]%Z 3 V).
  - lia.
  - concrete_tt.
  - concrete_tt.
  - three_variables [0x07070707]%Z.
  - three_variables [0x88888888]%Z.
  - intros m Hm. change (nmint 3) with 32 in Hm. do 32 (destruct m as [|m]; [done|]). lia.
  - by apply Nat.ltb_lt.
Defined.

(** C33. [Kit_TruthStats] and [Kit_TruthLitNum] under the same conditions, with [g] the graph [Kit_TruthToGraph]
    builds from the table, the factored form of its cover: it is a graph of the function of the table with fewer
    than [2 ^ 16] gates, the literal count is one more than the number of its gates, and the packed statistics
    are the number of its gates in the lower sixteen bits and, above them, the length of a longest path from its
    last node to a leaf. *)
Theorem truth_statistics_correct fuel pTruth nVars vMemory :
  0 < nVars <= 7 -> is_tt nVars pTruth -> depends_below nVars (tfun nVars pTruth) -> 2 ^ nVars * (nVars + 1) < fuel ->
  exists g d vMemory', Kit_TruthToGraph fuel pTruth nVars vMemory = Some (Some g, vMemory', pTruth) /\
    readable g /\ (forall m, m < nmint nVars -> graph_eval g m = tbit pTruth m) /\
    (fConst g = true -> d = 0%Z) /\ (fConst g = false -> level g (nSize g - 1) d) /\
    Kit_TruthStats fuel pTruth nVars vMemory = Some ((d <<< 16) ||| Z.of_nat (Kit_GraphNodeNum g), vMemory', pTruth)%Z /\
    (Z.of_nat (Kit_GraphNodeNum g) < 2 ^ 16)%Z /\
    Kit_TruthLitNum fuel pTruth nVars vMemory = Some (1 + Z.of_nat (Kit_GraphNodeNum g), vMemory', pTruth)%Z.
Proof.
  intros [Hn0 Hn] Ht Hd Hf. destruct (TruthToGraph_spec fuel nVars pTruth vMemory Hn Ht Hd Hf) as (g & V' & cs & c & E & HF & Hl & Hm & He & EL).
  unfold Kit_TruthStats. rewrite E. cbn [mbind option_bind]. destruct (fac_leaves _ _ _ _ HF) as [Hls Hln].
  assert (Kit_GraphNodeNum g <= mu cs) as Hg.
  { destruct (fConst g) eqn:Ec; [|destruct (fac_gates _ _ _ _ HF Ec); unfold Kit_GraphNodeNum, mu; lia].
    unfold Kit_GraphNodeNum. rewrite (fac_empty _ _ _ _ HF Ec). lia. }
  assert (2 ^ nVars * (nVars + 1) <= 128 * 8) as H8
    by (apply Nat.mul_le_mono; [change 128 with (2 ^ 7); apply Nat.pow_le_mono_r; lia|lia]).
  assert (Z.of_nat (Kit_GraphNodeNum g) < 2 ^ 16)%Z as Hg16 by lia.
  assert (exists d, level_of_last g = Some d /\ (fConst g = true -> d = 0%Z) /\ (fConst g = false -> level g (nSize g - 1) d)) as (d & -> & H1 & H2).
  { destruct (fConst g) eqn:Ec.
    - exists 0%Z. unfold level_of_last. by rewrite (fac_empty _ _ _ _ HF Ec).
    - destruct (level_of_last_spec g (fac_readable _ _ _ _ HF) Hls Ec) as (d & -> & Hlev). exists d.
      split; [done|]. split; [done|]. intros _. apply Hlev. destruct (fac_gates _ _ _ _ HF Ec). lia. }
  exists g, d, V'. split; [done|]. split; [apply HF|]. split; [intros m Hm'; by rewrite He, tfun_small|]. by repeat (split; [done|]).
Qed.

Lemma truth_statistics_correct_witness :
  let V := {| VecInt.nCap := 0; VecInt.nSize := 0; pArray := [] |} in
  option_map (fun r => r.1.1) (Kit_TruthStats 33 [0xCACACACA]%Z 3 V) = Some 0x20003%Z /\
  exists g d vMemory', Kit_TruthToGraph 33 [0xCACACACA]%Z 3 V = Some (Some g, vMemory', [0xCACACACA]%Z) /\
    readable g /\ (forall m, m < nmint 3 -> graph_eval g m = tbit [0xCACACACA]%Z m) /\
    (fConst g = true -> d = 0%Z) /\ (fConst g = false -> level g (nSize g - 1) d) /\
    Kit_TruthStats 33 [0xCACACACA]%Z 3 V = Some ((d <<< 16) ||| Z.of_nat (Kit_GraphNodeNum g), vMemory', [0xCACACACA]%Z)%Z /\
    (Z.of_nat (Kit_GraphNodeNum g) < 2 ^ 16)%Z /\
    Kit_TruthLitNum 33 [0xCACACACA]%Z 3 V = Some (1 + Z.of_nat (Kit_GraphNodeNum g), vMemory', [0xCACACACA]%Z)%Z.
Proof.
  intros V. split; [vm_compute; reflexivity|].
  apply (truth_statistics_correct 33 [0xCACACACA]%Z 3 V).
  - lia.
  - concrete_tt.
  - three_variables [0xCACACACA]%Z.
  - by apply Nat.ltb_lt.
Defined.
