(* ===== verification/Pla.v ===== *)
(** [kitPla.c]: covers as text, one line for each cube, and their conversions to and from
    covers of words and truth tables.  A line has a character for each variable (0, 1 or -), a space, the phase
    character and the end of the line.

    A C string is the list of its characters up to the final null character and beyond; reading
    past the end of the list gives the null character.  Strings that the routines allocate
    are results.  The entries of an integer array that a routine fills are a list (see
    [VecArray] for the array itself). *)
From Stdlib Require Import Ascii.
From S2P Require Import Prelude Words Minterm TruthBasic TruthCof TruthSupp VecInt Cube Minato Isop Graph Sop Divide Kernel Factor Flow.

(** * Characters *)

Definition text := list ascii.
Definition NUL : ascii := "000"%char.
Definition NL : ascii := "010"%char.
Definition ch (s : text) (i : nat) : ascii := nth i s NUL.

Notation "c =c d" := (Ascii.eqb c d) (at level 70, no associativity) : kit_scope.

(** * The routines *)

Definition Kit_PlaIsConst0 (pSop : text) : bool := (ch pSop 0 =c " ") && (ch pSop 1 =c "0").
Definition Kit_PlaIsConst1 (pSop : text) : bool := (ch pSop 0 =c " ") && (ch pSop 1 =c "1").
Definition Kit_PlaIsBuf (pSop : text) : bool :=
  if negb (ch pSop 4 =c NUL) then false
  else (ch pSop 0 =c "1") && (ch pSop 2 =c "1") || (ch pSop 0 =c "0") && (ch pSop 2 =c "0").
Definition Kit_PlaIsInv (pSop : text) : bool :=
  if negb (ch pSop 4 =c NUL) then false
  else (ch pSop 0 =c "0") && (ch pSop 2 =c "1") || (ch pSop 0 =c "1") && (ch pSop 2 =c "0").

(** [i] is [pCur - pSop]. *)
Fixpoint first_line (pCur : text) (i : nat) : Z :=
  match pCur with
  | [] => -1
  | c :: pCur => if c =c NL then (Z.of_nat i - 2)%Z else if c =c NUL then -1 else first_line pCur (S i)
  end%Z.
Definition Kit_PlaGetVarNum (pSop : text) : Z := first_line pSop 0.

Fixpoint count_lines (pCur : text) : Z :=
  match pCur with
  | [] => 0
  | c :: pCur => if c =c NUL then 0 else (Z.b2z (c =c NL) + count_lines pCur)%Z
  end%Z.
(** The null pointer is [None]. *)
Definition Kit_PlaGetCubeNum (pSop : option text) : Z :=
  match pSop with None => 0%Z | Some pSop => count_lines pSop end.

(** [prev] is the character before [pCur]. *)
Fixpoint line_end (prev : option ascii) (pCur : text) : option bool :=
  match pCur with
  | [] => None
  | c :: pCur =>
    if c =c NUL then None
    else if c =c NL then (p ← prev; Some ((p =c "0") || (p =c "n")))
    else line_end (Some c) pCur
  end.
Definition Kit_PlaIsComplement (pSop : text) : option bool := line_end None pSop.

Definition flip_char (c : ascii) : option ascii :=
  if c =c "0" then Some "1"%char else if c =c "1" then Some "0"%char
  else if c =c "x" then Some "n"%char else if c =c "n" then Some "x"%char else None.
Fixpoint complement_from (fuel i : nat) (pSop : text) : option text :=
  match fuel with
  | O => None
  | S fuel =>
    if ch pSop i =c NUL then Some pSop
    else if ch pSop i =c NL then
      assert! 0 <? i in
      c ← flip_char (ch pSop (i - 1));
      complement_from fuel (S i) (<[i - 1 := c]> pSop)
    else complement_from fuel (S i) pSop
  end.
Definition Kit_PlaComplement (pSop : text) : option text := complement_from (S (length pSop)) 0 pSop.

Definition Kit_PlaStart (nCubes nVars : nat) : text :=
  let Length := nCubes * (nVars + 3) in
  let pSopCover := repeat "-"%char Length ++ [NUL] in
  for_up nCubes (fun i pSopCover =>
    let pCube := i * (nVars + 3) in
    let pSopCover := <[pCube + (nVars + 0) := " "%char]> pSopCover in
    let pSopCover := <[pCube + (nVars + 1) := "1"%char]> pSopCover in
    <[pCube + (nVars + 2) := NL]> pSopCover) pSopCover.

(** [3 & (Entry >> (k << 1))] *)
Definition Literal (Entry : Z) (k : nat) : Z := ((Entry >>> (2 * k)) &&& 3)%Z.

Definition Kit_PlaCreateFromIsop (nVars : nat) (vCover : list Z) : option text :=
  assert! 0 <? length vCover in
  for_up (length vCover) (fun i pSop =>
    let pCube := i * (nVars + 3) in
    for_up nVars (fun k pSop =>
      pSop ← pSop;
      if (Literal vCover.[i] k =? 1)%Z then Some (<[pCube + k := "0"%char]> pSop)
      else if (Literal vCover.[i] k =? 2)%Z then Some (<[pCube + k := "1"%char]> pSop)
      else if negb (Literal vCover.[i] k =? 0)%Z then None else Some pSop) pSop)
    (Some (Kit_PlaStart (length vCover) nVars)).

Definition read_literal (c : ascii) (Entry : Z) : option Z :=
  if c =c "0" then Some ((Entry <<< 2) ||| 1)%Z
  else if c =c "1" then Some ((Entry <<< 2) ||| 2)%Z
  else if c =c "-" then Some (Entry <<< 2)%Z else None.
Fixpoint read_cubes (fuel : nat) (pSop : text) (nVars pCube : nat) (vCover : list Z) : option (list Z) :=
  match fuel with
  | O => None
  | S fuel =>
    if ch pSop pCube =c NUL then Some vCover
    else
      Entry ← for_down nVars (fun k Entry => Entry ← Entry; read_literal (ch pSop (pCube + k)) Entry) (Some 0%Z);
      read_cubes fuel pSop nVars (pCube + (nVars + 3)) (vCover ++ [Entry])
  end.
Definition Kit_PlaToIsop (pSop : text) : option (list Z) :=
  let nVars := Kit_PlaGetVarNum pSop in
  assert! (0 <? nVars)%Z in
  read_cubes (S (length pSop)) pSop (Z.to_nat nVars) 0 [].

Definition const0_text : text := [" "; "0"; NL; NUL]%char.
Definition const1_text : text := [" "; "1"; NL; NUL]%char.

Fixpoint strlen (s : text) : nat :=
  match s with
  | [] => 0
  | c :: s => if c =c NUL then 0 else S (strlen s)
  end.

Definition Kit_PlaStoreSop (pSop : text) : text := take (strlen pSop) pSop ++ [NUL].

Definition Kit_PlaFromTruth (pTruth : list Z) (nVars : nat) (vCover : Vec_Int_t) : option (text * Vec_Int_t * list Z) :=
  if Kit_TruthIsConst0 pTruth nVars then Some (Kit_PlaStoreSop const0_text, vCover, pTruth)
  else if Kit_TruthIsConst1 pTruth nVars then Some (Kit_PlaStoreSop const1_text, vCover, pTruth)
  else
    '(RetValue, vCover, pTruth) ← Kit_TruthIsop pTruth nVars vCover false;
    assert! (RetValue =? 0)%Z || (RetValue =? 1)%Z in
    pSop ← Kit_PlaCreateFromIsop nVars (take (Z.to_nat (VecInt.nSize vCover)) (pArray vCover));
    pSop ← (if negb (RetValue =? 0)%Z then Kit_PlaComplement pSop else Some pSop);
    Some (pSop, vCover, pTruth).

(** The string array is emptied and returned. *)
Definition Kit_PlaFromIsop (nVars : nat) (vCover : list Z) : option text :=
  assert! 0 <? length vCover in
  vStr ← for_up (length vCover) (fun i vStr =>
    vStr ← for_up nVars (fun k vStr =>
      vStr ← vStr;
      if (Literal vCover.[i] k =? 1)%Z then Some (vStr ++ ["0"%char])
      else if (Literal vCover.[i] k =? 2)%Z then Some (vStr ++ ["1"%char])
      else if (Literal vCover.[i] k =? 0)%Z then Some (vStr ++ ["-"%char])
      else None) vStr;
    let vStr := vStr ++ [" "%char] in
    let vStr := vStr ++ ["1"%char] in
    Some (vStr ++ [NL])) (Some []);
  Some (vStr ++ [NUL]).

(** Words of 64 bits. *)
Definition wnot64 (x : Z) : Z := Z.ldiff (2 ^ 64 - 1) x.
Definition Truth6 : list Z :=
  [0xAAAAAAAAAAAAAAAA; 0xCCCCCCCCCCCCCCCC; 0xF0F0F0F0F0F0F0F0; 0xFF00FF00FF00FF00;
   0xFFFF0000FFFF0000; 0xFFFFFFFF00000000; 0x0000000000000000; 0xFFFFFFFFFFFFFFFF]%Z.

Fixpoint or_cubes (fuel : nat) (pSop : text) (nVars lit : nat) (valueOr : Z) : option Z :=
  match fuel with
  | O => None
  | S fuel =>
    valueAnd ← for_up nVars (fun v valueAnd =>
      valueAnd ← valueAnd;
      if ch pSop (lit + v) =c "1" then Some (valueAnd &&& Truth6.[v])%Z
      else if ch pSop (lit + v) =c "0" then Some (valueAnd &&& wnot64 Truth6.[v])%Z
      else if negb (ch pSop (lit + v) =c "-") then None else Some valueAnd) (Some Truth6.[7]);
    let lit := lit + nVars in
    let valueOr := (valueOr ||| valueAnd)%Z in
    assert! ch pSop lit =c " " in
    let lit := S (S lit) in
    assert! ch pSop lit =c NL in
    let lit := S lit in
    if ch pSop lit =c NUL then Some valueOr else or_cubes fuel pSop nVars lit valueOr
  end.
Definition Kit_PlaToTruth6 (pSop : text) (nVars : nat) : option Z :=
  assert! nVars <? 7 in
  valueOr ← or_cubes (S (length pSop)) pSop nVars 0 Truth6.[6];
  fCompl ← Kit_PlaIsComplement pSop;
  Some (if fCompl : bool then wnot64 valueOr else valueOr).

(** The table as one word of 64 bits. *)
Definition double_word (pTruth : list Z) : Z := (pTruth.[0] ||| Z.shiftl pTruth.[1] 32)%Z.

Definition Kit_PlaFromTruthNew (pTruth : list Z) (nVars : nat) (vCover : Vec_Int_t) : option (text * Vec_Int_t * list Z) :=
  '(RetValue, vCover, pTruth) ← Kit_TruthIsop pTruth nVars vCover true;
  assert! (RetValue =? 0)%Z || (RetValue =? 1)%Z in
  let nSize := VecInt.nSize vCover in
  if (nSize =? 0)%Z || ((nSize =? 1)%Z && ((pArray vCover).[0] =? 0)%Z) then
    assert! (RetValue =? 0)%Z in
    Some (if (nSize =? 0)%Z then const0_text else const1_text, vCover, pTruth)
  else
    pResult ← Kit_PlaFromIsop nVars (take (Z.to_nat nSize) (pArray vCover));
    pResult ← (if negb (RetValue =? 0)%Z then Kit_PlaComplement pResult else Some pResult);
    if nVars <? 6 then
      u ← Kit_PlaToTruth6 pResult nVars;
      assert! (pTruth.[0] =? u &&& 0xFFFFFFFF)%Z in Some (pResult, vCover, pTruth)
    else if nVars =? 6 then
      u ← Kit_PlaToTruth6 pResult nVars;
      assert! (double_word pTruth =? u)%Z in Some (pResult, vCover, pTruth)
    else Some (pResult, vCover, pTruth).

(** The message and the return without a table are the first answer. *)
Definition Kit_PlaToTruth (pSop : text) (nVars : nat) (vVars : list (list Z)) (pTemp pTruth : list Z) : list Z * list Z :=
  if negb (strlen pSop mod (nVars + 3) =? 0) then (pTemp, pTruth)
  else
    let pTruth := Kit_TruthClear pTruth nVars in
    let nCubes := strlen pSop / (nVars + 3) in
    let '(pTemp, pTruth, fCompl) := for_up nCubes (fun c '(pTemp, pTruth, fCompl) =>
      let p := c * (nVars + 3) in
      let fCompl := ch pSop (p + (nVars + 1)) =c "0" in
      let pTemp := Kit_TruthFill pTemp nVars in
      let pTemp := for_up nVars (fun v pTemp =>
        if ch pSop (p + v) =c "1" then Kit_TruthAnd pTemp pTemp (nth v vVars []) nVars
        else if ch pSop (p + v) =c "0" then Kit_TruthSharp pTemp pTemp (nth v vVars []) nVars
        else pTemp) pTemp in
      (pTemp, Kit_TruthOr pTruth pTruth pTemp nVars, fCompl)) (pTemp, pTruth, false) in
    (pTemp, if fCompl : bool then Kit_TruthNot pTruth pTruth nVars else pTruth).

(** * The text of a cover *)

Definition lit_char (c : Z) (k : nat) : ascii :=
  if Z.testbit c (Z.of_nat (2 * k)) then "0"%char
  else if Z.testbit c (Z.of_nat (2 * k + 1)) then "1"%char else "-"%char.

(** A line ends in the phase character [o]. *)
Definition cube_text (o : ascii) (n : nat) (c : Z) : text := map (lit_char c) (seq 0 n) ++ [" "%char; o; NL].
Definition cover_text (o : ascii) (n : nat) (cs : list Z) : text := concat (map (cube_text o n) cs) ++ [NUL].

(** Characters that are neither the end of a line nor the end of the text. *)
Definition plain (c : ascii) : Prop := (c =c NUL) = false /\ (c =c NL) = false.

Lemma plain_lit c k : plain (lit_char c k).
Proof. unfold lit_char. by destruct (Z.testbit _ _); [|destruct (Z.testbit _ _)]. Qed.

Lemma plain_lits c l : Forall plain (map (lit_char c) l).
Proof. induction l as [|k l IH]; constructor; [apply plain_lit|done]. Qed.

Lemma length_cube_text o n c : length (cube_text o n c) = n + 3.
Proof. unfold cube_text. rewrite length_app, length_map, length_seq. done. Qed.

Lemma length_lines o n cs : length (concat (map (cube_text o n) cs)) = length cs * (n + 3).
Proof. induction cs as [|c cs IH]; [done|]. cbn [map concat length]. rewrite length_app, length_cube_text, IH. lia. Qed.

Lemma ch_app_r a b i : ch (a ++ b) (length a + i) = ch b i.
Proof. unfold ch. rewrite app_nth2 by lia. f_equal. lia. Qed.

Lemma ch_mid a c b i : i = length a -> ch (a ++ c :: b) i = c.
Proof. intros ->. unfold ch. by rewrite nth_middle. Qed.

Lemma insert_mid {A} i (x y : A) a b : i = length a -> <[i := x]> (a ++ y :: b) = a ++ x :: b.
Proof. intros ->. rewrite <- (Nat.add_0_r (length a)) at 1. by rewrite insert_app_r. Qed.

Lemma cover_text_cons o n c cs : cover_text o n (c :: cs) = (map (lit_char c) (seq 0 n) ++ [" "%char; o]) ++ NL :: cover_text o n cs.
Proof. unfold cover_text, cube_text. cbn [map concat]. by rewrite <- !app_assoc. Qed.

(** The two bits of a literal. *)
Lemma Literal_bits c k : Literal c k = (Z.b2z (Z.testbit c (Z.of_nat (2 * k))) + 2 * Z.b2z (Z.testbit c (Z.of_nat (2 * k + 1))))%Z.
Proof.
  assert (Z.testbit (Literal c k) 0 = Z.testbit c (Z.of_nat (2 * k))) as E0.
  { unfold Literal. rewrite Z.land_spec, testbit_wshr, andb_true_r by done. done. }
  assert (Z.testbit (Literal c k) 1 = Z.testbit c (Z.of_nat (2 * k + 1))) as E1.
  { unfold Literal. rewrite Z.land_spec, testbit_wshr, andb_true_r by done. f_equal. lia. }
  assert (0 <= Literal c k < 4)%Z as Hr.
  { unfold Literal. change 3%Z with (Z.ones 2). rewrite Z.land_ones by lia. by apply Z.mod_pos_bound. }
  rewrite <- E0, <- E1. assert (Literal c k = 0 \/ Literal c k = 1 \/ Literal c k = 2 \/ Literal c k = 3)%Z as H by lia.
  by destruct H as [-> | [-> | [-> | ->]]].
Qed.

(** The choice of a character by [Kit_PlaFromIsop] and [Kit_PlaCreateFromIsop]. *)
Lemma Literal_cases c k : consistent c -> k < 16 ->
  Literal c k = 1%Z /\ lit_char c k = "0"%char \/ Literal c k = 2%Z /\ lit_char c k = "1"%char \/
  Literal c k = 0%Z /\ lit_char c k = "-"%char.
Proof.
  intros Hc Hk. pose proof (consistent_pair c k Hc Hk) as H. rewrite Literal_bits. unfold lit_char.
  destruct (Z.testbit c (Z.of_nat (2 * k))), (Z.testbit c (Z.of_nat (2 * k + 1))); cbn; auto. done.
Qed.

(** Covers of don't-care literals. *)
Definition blank (n : nat) : text := repeat "-"%char n ++ [" "%char; "1"%char; NL].

Lemma length_blanks n m : length (concat (repeat (blank n) m)) = m * (n + 3).
Proof. induction m as [|m IH]; [done|]. cbn [repeat concat]. rewrite length_app, IH. unfold blank. rewrite length_app, repeat_length. cbn. lia. Qed.

Lemma Start_spec n m : Kit_PlaStart m n = concat (repeat (blank n) m) ++ [NUL].
Proof.
  unfold Kit_PlaStart. match goal with |- for_up m ?b _ = _ => set (body := b) end.
  assert (for_up m body (repeat "-"%char (m * (n + 3)) ++ [NUL]) =
    concat (repeat (blank n) m) ++ repeat "-"%char ((m - m) * (n + 3)) ++ [NUL]) as ->; [|by rewrite Nat.sub_diag].
  apply (for_up_ind (fun i s => s = concat (repeat (blank n) i) ++ repeat "-"%char ((m - i) * (n + 3)) ++ [NUL]));
    [by rewrite Nat.sub_0_r|].
  intros i s Hi ->. unfold body. change (repeat (blank n) (S i)) with (blank n :: repeat (blank n) i). rewrite repeat_cons, concat_app. cbn [concat]. rewrite app_nil_r.
  replace ((m - i) * (n + 3)) with (n + S (S (S ((m - S i) * (n + 3))))) by (replace (m - i) with (S (m - S i)) by lia; lia).
  rewrite repeat_app. cbn [repeat]. rewrite <- (app_assoc (repeat _ n)). cbn [app].
  set (pre := concat (repeat (blank n) i)). pose proof (length_blanks n i) as Lp. fold pre in Lp.
  rewrite (app_assoc pre (repeat _ n)). set (pn := pre ++ repeat "-"%char n).
  assert (length pn = i * (n + 3) + n) as Ln by (unfold pn; rewrite length_app, repeat_length; lia).
  rewrite (insert_mid _ _ _ pn) by lia.
  change (pn ++ " "%char :: "-"%char :: "-"%char :: ?r) with (pn ++ [" "%char] ++ "-"%char :: "-"%char :: r).
  rewrite (app_assoc pn [" "%char]), (insert_mid _ _ _ (pn ++ [" "%char])) by (rewrite length_app; cbn; lia).
  change ((pn ++ [" "%char]) ++ "1"%char :: "-"%char :: ?r) with ((pn ++ [" "%char]) ++ ["1"%char] ++ "-"%char :: r).
  rewrite (app_assoc (pn ++ _) ["1"%char]), (insert_mid _ _ _ ((pn ++ [" "%char]) ++ ["1"%char])) by (rewrite !length_app; cbn; lia).
  unfold pn, blank. by rewrite <- !app_assoc.
Qed.
Section writing.
Context (n : nat) (cs : list Z) (Hn : n <= 16) (Hc : Forall consistent cs) (Hne : cs <> []).

Lemma cs_consistent i c : cs !! i = Some c -> consistent c.
Proof using All. intros Hi. by apply (Forall_lookup_1 _ _ _ _ Hc Hi). Qed.

Lemma cs_rd i c : cs !! i = Some c -> cs.[i] = c.
Proof using All. intros Hi. by rewrite rd_lookup, Hi. Qed.

Lemma nonempty_true : (0 <? length cs) = true.
Proof using All. apply Nat.ltb_lt. destruct cs; [done|cbn; lia]. Qed.

Lemma FromIsop_spec : Kit_PlaFromIsop n cs = Some (cover_text "1" n cs).
Proof using All.
  unfold Kit_PlaFromIsop. rewrite nonempty_true.
  match goal with |- context [for_up (length cs) ?b _] => set (body := b) end.
  assert (for_up (length cs) body (Some []) = Some (concat (map (cube_text "1" n) cs))) as ->; [|done].
  rewrite <- (take_ge cs (length cs)) at 2 by done.
  apply (for_up_ind (fun i s => s = Some (concat (map (cube_text "1" n) (take i cs))))); [done|].
  intros i _ Hi ->. destruct (lookup_lt_is_Some_2 cs i Hi) as [c Ei]. unfold body. cbn [mbind option_bind].
  rewrite (cs_rd i c Ei). set (pre := concat _).
  match goal with |- context [for_up n ?b _] => set (inner := b) end.
  assert (for_up n inner (Some pre) = Some (pre ++ map (lit_char c) (seq 0 n))) as ->.
  { assert (forall k, k <= n -> for_up k inner (Some pre) = Some (pre ++ map (lit_char c) (seq 0 k))) as H; [|by apply H].
    induction k as [|k IH]; intros Hk; [cbn; by rewrite app_nil_r|]. rewrite for_up_S, IH by lia. unfold inner. cbn [mbind option_bind].
    rewrite seq_S, map_app, app_assoc. cbn [map Nat.add].
    destruct (Literal_cases c k (cs_consistent i c Ei) ltac:(lia)) as [[-> ->]|[[-> ->]|[-> ->]]]; done. }
  cbn [mbind option_bind]. rewrite (take_S_r _ _ _ Ei), map_app, concat_app. fold pre. cbn [map concat].
  unfold cube_text. by rewrite app_nil_r, <- !app_assoc.
Qed.


Lemma CreateFromIsop_spec : Kit_PlaCreateFromIsop n cs = Some (cover_text "1" n cs).
Proof using All.
  unfold Kit_PlaCreateFromIsop. rewrite nonempty_true, Start_spec.
  match goal with |- for_up (length cs) ?b _ = _ => set (body := b) end.
  set (rest := fun m => concat (repeat (blank n) m) ++ [NUL]).
  assert (for_up (length cs) body (Some (rest (length cs))) =
    Some (concat (map (cube_text "1" n) (take (length cs) cs)) ++ rest (length cs - length cs))) as E.
  2:{ rewrite Nat.sub_diag, take_ge in E by done. exact E. }
  apply (for_up_ind (fun i s => s = Some (concat (map (cube_text "1" n) (take i cs)) ++ rest (length cs - i)))).
  { by rewrite Nat.sub_0_r. }
  intros i _ Hi ->. destruct (lookup_lt_is_Some_2 cs i Hi) as [c Ei]. unfold body. rewrite (cs_rd i c Ei).
  pose proof (length_lines "1" n (take i cs)) as Lp. rewrite length_take, Nat.min_l in Lp by lia.
  rewrite (take_S_r _ _ _ Ei), map_app, concat_app. cbn [map concat]. rewrite app_nil_r.
  set (pre := concat (map (cube_text "1" n) (take i cs))) in *.
  assert (rest (length cs - i) = repeat "-"%char n ++ [" "%char; "1"%char; NL] ++ rest (length cs - S i)) as ->.
  { unfold rest. replace (length cs - i) with (S (length cs - S i)) by lia. cbn [repeat concat]. unfold blank. by rewrite <- !app_assoc. }
  set (post := [" "%char; "1"%char; NL] ++ rest (length cs - S i)).
  match goal with |- for_up n ?b _ = _ => set (inner := b) end.
  assert (for_up n inner (Some (pre ++ repeat "-"%char n ++ post)) =
    Some ((pre ++ map (lit_char c) (seq 0 n)) ++ repeat "-"%char (n - n) ++ post)) as ->.
  2:{ rewrite Nat.sub_diag. unfold post, cube_text. cbn [repeat app]. by rewrite <- !app_assoc. }
  apply (for_up_ind (fun k s => s = Some ((pre ++ map (lit_char c) (seq 0 k)) ++ repeat "-"%char (n - k) ++ post))).
  { by rewrite Nat.sub_0_r, app_nil_r. }
  intros k _ Hk ->. unfold inner. cbn [mbind option_bind]. rewrite seq_S, map_app. cbn [map Nat.add].
  replace (n - k) with (S (n - S k)) by lia. cbn [repeat app].
  assert (length (pre ++ map (lit_char c) (seq 0 k)) = i * (n + 3) + k) as Ln by (rewrite length_app, length_map, length_seq; lia).
  destruct (Literal_cases c k (cs_consistent i c Ei) ltac:(lia)) as [[-> ->]|[[-> ->]|[-> ->]]]; cbn [Z.eqb Pos.eqb negb];
    unfold text; rewrite ?insert_mid by lia; rewrite <- !app_assoc; done.
Qed.
End writing.

(** * Walking over a text *)

Lemma first_line_plain l r i : Forall plain l -> first_line (l ++ NL :: r) i = (Z.of_nat (i + length l) - 2)%Z.
Proof.
  intros H. revert i. induction H as [|c l [H1 H2] _ IH]; intros i; cbn [app first_line length]; [by rewrite Nat.add_0_r|].
  rewrite H2, H1, IH. do 2 f_equal. lia.
Qed.

Lemma plain_line o n c : plain o -> Forall plain (map (lit_char c) (seq 0 n) ++ [" "%char; o]).
Proof. intros Ho. apply Forall_app. split; [apply plain_lits|]. constructor; [done|]. by constructor. Qed.

Lemma GetVarNum_spec o n c cs : plain o -> Kit_PlaGetVarNum (cover_text o n (c :: cs)) = Z.of_nat n.
Proof.
  intros Ho. unfold Kit_PlaGetVarNum. rewrite cover_text_cons, first_line_plain by by apply plain_line.
  rewrite length_app, length_map, length_seq. cbn [length]. lia.
Qed.

Lemma count_lines_plain l r : Forall plain l -> count_lines (l ++ r) = count_lines r.
Proof. intros H. induction H as [|c l [H1 H2] _ IH]; [done|]. cbn [app count_lines]. by rewrite H1, H2, IH. Qed.

Lemma GetCubeNum_spec o n cs : plain o -> Kit_PlaGetCubeNum (Some (cover_text o n cs)) = Z.of_nat (length cs).
Proof.
  intros Ho. cbn [Kit_PlaGetCubeNum]. induction cs as [|c cs IH]; [done|].
  rewrite cover_text_cons, count_lines_plain by by apply plain_line. cbn [count_lines length].
  change (NL =c NUL) with false. change (NL =c NL) with true. cbv iota. rewrite IH. cbn [Z.b2z]. lia.
Qed.

Lemma line_end_plain l p o r : Forall plain (l ++ [o]) ->
  line_end p (l ++ [o] ++ NL :: r) = Some ((o =c "0") || (o =c "n")).
Proof.
  intros H. apply Forall_app in H as [H Ho]. destruct (Forall_inv Ho) as [H1 H2]. revert p.
  induction H as [|c l [G1 G2] _ IH]; intros p; cbn [app line_end]; [rewrite H1, H2; done|]. rewrite G1, G2. apply IH.
Qed.

Lemma IsComplement_spec o n c cs : plain o -> Kit_PlaIsComplement (cover_text o n (c :: cs)) = Some ((o =c "0") || (o =c "n")).
Proof.
  intros Ho. unfold Kit_PlaIsComplement. rewrite cover_text_cons.
  pose proof (plain_line o n c Ho) as H. change [" "%char; o] with ([" "%char] ++ [o]) in *. rewrite app_assoc in *.
  rewrite <- (app_assoc _ [o]). by apply line_end_plain.
Qed.

(** Complementing changes the phase character of every line. *)
Lemma complement_plain fuel a l r : Forall plain l ->
  complement_from (length l + fuel) (length a) (a ++ l ++ r) = complement_from fuel (length (a ++ l)) ((a ++ l) ++ r).
Proof.
  intros H. revert a. induction H as [|c l [H1 H2] _ IH]; intros a; [by rewrite app_nil_r|].
  cbn [length Nat.add complement_from app]. rewrite (ch_mid a) by done. rewrite H1, H2.
  replace (a ++ c :: l ++ r) with ((a ++ [c]) ++ l ++ r) by by rewrite <- app_assoc.
  replace (S (length a)) with (length (a ++ [c])) by (rewrite length_app; cbn; lia).
  rewrite IH. by rewrite <- app_assoc.
Qed.

Lemma complement_lines o o' n cs fuel a : plain o -> flip_char o = Some o' -> length cs * (n + 3) < fuel ->
  complement_from fuel (length a) (a ++ cover_text o n cs) = Some (a ++ cover_text o' n cs).
Proof.
  intros Ho Hf. revert fuel a. induction cs as [|c cs IH]; intros fuel a Hl.
  - destruct fuel as [|fuel]; [cbn in Hl; lia|]. cbn [complement_from]. unfold cover_text. cbn [map concat app]. by rewrite (ch_mid a).
  - rewrite !cover_text_cons. set (l := map (lit_char c) (seq 0 n) ++ [" "%char]).
    assert (length l = n + 1) as Ll by (unfold l; rewrite length_app, length_map, length_seq; done).
    assert (forall x, map (lit_char c) (seq 0 n) ++ [" "%char; x] = l ++ [x]) as El by (intros x; unfold l; by rewrite <- app_assoc).
    cbn [length] in Hl. replace fuel with (length (l ++ [o]) + S (fuel - (n + 3))) by (rewrite length_app, Ll; cbn; lia).
    rewrite !El, complement_plain by (rewrite <- El; by apply plain_line). cbn [complement_from].
    rewrite (ch_mid (a ++ l ++ [o])) by done. change (NL =c NUL) with false. change (NL =c NL) with true. cbv iota.
    replace ((a ++ l ++ [o]) ++ NL :: cover_text o n cs) with ((a ++ l) ++ o :: NL :: cover_text o n cs) by by rewrite <- !app_assoc.
    assert (length (a ++ l ++ [o]) = S (length (a ++ l))) as -> by (rewrite !length_app; cbn; lia).
    cbn [Nat.sub Nat.ltb Nat.leb]. rewrite Nat.sub_0_r, (ch_mid (a ++ l)), Hf by done. cbn [mbind option_bind].
    rewrite (insert_mid _ _ _ (a ++ l)) by done.
    replace ((a ++ l) ++ o' :: NL :: cover_text o n cs) with ((a ++ l ++ [o'; NL]) ++ cover_text o n cs) by by rewrite <- !app_assoc.
    replace (S (S (length (a ++ l)))) with (length (a ++ l ++ [o'; NL])) by (rewrite !length_app; cbn; lia).
    rewrite IH by lia. f_equal. by rewrite <- !app_assoc.
Qed.

Lemma length_cover_text o n cs : length (cover_text o n cs) = S (length cs * (n + 3)).
Proof. unfold cover_text. rewrite length_app, length_lines. cbn. lia. Qed.

Lemma Complement_spec o o' n cs : plain o -> flip_char o = Some o' ->
  Kit_PlaComplement (cover_text o n cs) = Some (cover_text o' n cs).
Proof.
  intros Ho Hf. unfold Kit_PlaComplement. apply (complement_lines o o' n cs _ []); [done|done|]. rewrite length_cover_text. lia.
Qed.

(** ** The characters of a line *)

Section line.
Context (o : ascii) (n : nat) (c : Z) (cs : list Z) (a : text).
Let s : text := a ++ cover_text o n (c :: cs).

Lemma ch_lit k : k < n -> ch s (length a + k) = lit_char c k.
Proof using.
  intros Hk. unfold s. rewrite ch_app_r, cover_text_cons, <- app_assoc. unfold ch.
  rewrite app_nth1 by (rewrite length_map, length_seq; done).
  rewrite (nth_indep _ NUL (lit_char c 0)) by (rewrite length_map, length_seq; done).
  by rewrite map_nth, seq_nth.
Qed.

Lemma ch_tail j : ch s (length a + (n + j)) = ch (" "%char :: o :: NL :: cover_text o n cs) j.
Proof using.
  unfold s. rewrite ch_app_r, cover_text_cons, <- app_assoc.
  assert (n + j = length (map (lit_char c) (seq 0 n)) + j) as -> by by rewrite length_map, length_seq. by rewrite ch_app_r.
Qed.

Lemma ch_next : ch s (length a + (n + 3)) = ch (cover_text o n cs) 0.
Proof using. by rewrite ch_tail. Qed.

Lemma ch_first : (ch s (length a) =c NUL) = false.
Proof using.
  rewrite <- (Nat.add_0_r (length a)). destruct (Nat.eq_dec n 0) as [E|E].
  - pose proof (ch_tail 0) as H. rewrite E in H at 1. change (0 + 0) with 0 in H. by rewrite H.
  - rewrite ch_lit by lia. apply plain_lit.
Qed.

Lemma line_assoc : s = (a ++ cube_text o n c) ++ cover_text o n cs.
Proof using. unfold s, cover_text. cbn [map concat]. by rewrite <- !app_assoc. Qed.

Lemma length_line : length (a ++ cube_text o n c) = length a + (n + 3).
Proof using. by rewrite length_app, length_cube_text. Qed.
End line.

(** ** Reading a cover back *)

Lemma read_lit c k : consistent c -> k < 16 -> read_literal (lit_char c k) (c >>> (2 * S k)) = Some (c >>> (2 * k))%Z.
Proof.
  intros Hc Hk. assert (((c >>> (2 * S k)) <<< 2) ||| Literal c k = c >>> (2 * k))%Z as E.
  { apply Z.bits_inj'. intros i Hi. unfold Literal. rewrite Z.lor_spec, testbit_wshl, Z.land_spec, !(testbit_wshr c _ i) by lia.
    change 3%Z with (Z.ones 2). rewrite Z.testbit_ones by lia. destruct (Z.ltb_spec i 32) as [H|H].
    - destruct (Z.leb_spec (Z.of_nat 2) i).
      + rewrite testbit_wshr by lia. replace (i - Z.of_nat 2 + Z.of_nat (2 * S k))%Z with (i + Z.of_nat (2 * k))%Z by lia.
        rewrite (proj2 (Z.ltb_ge i 2)) by lia. by rewrite !andb_false_r, orb_false_r.
      + rewrite (proj2 (Z.leb_le 0 i)), (proj2 (Z.ltb_lt i 2)) by lia. by rewrite andb_true_r.
    - rewrite (proj2 (Z.ltb_ge i 2)), !andb_false_r by lia. cbn [andb orb].
      symmetry. apply (word_high c); [apply Hc|lia]. }
  rewrite <- E. unfold read_literal.
  destruct (Literal_cases c k Hc Hk) as [[-> ->]|[[-> ->]|[-> ->]]]; [done..|]. by rewrite Z.lor_0_r.
Qed.

Lemma read_line o n c cs a : consistent c -> cube_in n c -> n <= 16 ->
  for_down n (fun k Entry => Entry ← Entry; read_literal (ch (a ++ cover_text o n (c :: cs)) (length a + k)) Entry) (Some 0%Z) = Some c.
Proof.
  intros Hc [Hw Hin] Hn. match goal with |- for_down n ?b _ = _ => set (body := b) end.
  assert (0%Z = c >>> (2 * n))%Z as ->.
  { symmetry. apply Z.bits_inj'. intros i Hi. rewrite testbit_wshr, Z.testbit_0_l by done.
    replace (i + Z.of_nat (2 * n))%Z with (Z.of_nat (Z.to_nat i + 2 * n)) by lia. apply Hin. lia. }
  change c with (c >>> (2 * 0))%Z at 2.
  apply (for_down_ind (fun k s => s = Some (c >>> (2 * k))%Z)); [done|].
  intros k _ Hk ->. unfold body. cbn [mbind option_bind]. rewrite ch_lit by done. apply read_lit; [done|lia].
Qed.

Lemma read_cubes_spec o n cs fuel a acc : n <= 16 -> Forall consistent cs -> Forall (cube_in n) cs -> length cs < fuel ->
  read_cubes fuel (a ++ cover_text o n cs) n (length a) acc = Some (acc ++ cs).
Proof.
  intros Hn Hc Hi. revert fuel a acc. induction cs as [|c cs IH]; intros fuel a acc Hf; (destruct fuel as [|fuel]; [cbn in Hf; lia|]);
    cbn [read_cubes].
  - unfold cover_text. cbn [map concat app]. rewrite (ch_mid a) by done. by rewrite app_nil_r.
  - apply Forall_cons_iff in Hc as [Hc Hcs]. apply Forall_cons_iff in Hi as [Hi Hics].
    rewrite ch_first, read_line by done. cbn [mbind option_bind].
    rewrite line_assoc, <- length_cube_text with (o := o) (c := c), <- length_app, IH by (auto; cbn in Hf; lia).
    by rewrite <- app_assoc.
Qed.

Lemma ToIsop_spec o n c cs : plain o -> 0 < n <= 16 -> Forall consistent (c :: cs) -> Forall (cube_in n) (c :: cs) ->
  Kit_PlaToIsop (cover_text o n (c :: cs)) = Some (c :: cs).
Proof.
  intros Ho Hn Hc Hi. unfold Kit_PlaToIsop. rewrite GetVarNum_spec, (proj2 (Z.ltb_lt 0 _)), Nat2Z.id by (done || lia).
  apply (read_cubes_spec o n (c :: cs) _ [] []); [lia|done..|]. rewrite length_cover_text. lia.
Qed.

(** ** The value of a cube from its literals *)

Definition lit_eval (c : Z) (m v : nat) : bool :=
  if lit_char c v =c "0" then negb (Nat.testbit m v) else if lit_char c v =c "1" then Nat.testbit m v else true.

Lemma lit_eval_bits c m v : consistent c -> v < 16 ->
  lit_eval c m v = negb (Z.testbit c (Z.of_nat (2 * v)) && Nat.testbit m v) &&
                   negb (Z.testbit c (Z.of_nat (2 * v + 1)) && negb (Nat.testbit m v)).
Proof.
  intros Hc Hv. pose proof (consistent_pair c v Hc Hv) as H. unfold lit_eval, lit_char.
  destruct (Z.testbit c (Z.of_nat (2 * v))), (Z.testbit c (Z.of_nat (2 * v + 1))), (Nat.testbit m v); done.
Qed.

Lemma cube_eval_lits n c m : n <= 16 -> consistent c -> cube_in n c -> cube_eval c m = forallb (lit_eval c m) (seq 0 n).
Proof.
  intros Hn Hc [_ Hi]. unfold cube_eval. replace 16 with (n + (16 - n)) by lia. rewrite seq_app, forallb_app.
  rewrite (proj2 (forallb_forall _ (seq (0 + n) _))).
  2:{ intros v Hv%in_seq. by rewrite !Hi by lia. }
  rewrite andb_true_r. apply eq_true_iff_eq. rewrite !forallb_forall.
  apply forall_proper. intros v. split; intros H Hv; specialize (H Hv); apply in_seq in Hv; rewrite lit_eval_bits in * by (done || lia); done.
Qed.

(** * Words of 64 bits *)

(** The word holds the values of the function at the first 64 minterms. *)
Definition bits64 (x : Z) (f : nat -> bool) : Prop :=
  forall i, (0 <= i)%Z -> Z.testbit x i = (i <? 64)%Z && f (Z.to_nat i).

Lemma bits64_ext x f g : (forall m, m < 64 -> f m = g m) -> bits64 x f -> bits64 x g.
Proof.
  intros E H i Hi. rewrite H by done. destruct (Z.ltb_spec i 64); [|done]. cbn [andb]. apply E. lia.
Qed.

Lemma bits64_and x y f g : bits64 x f -> bits64 y g -> bits64 (x &&& y) (fun m => f m && g m).
Proof. intros H1 H2 i Hi. rewrite Z.land_spec, H1, H2 by done. by destruct (i <? 64)%Z. Qed.

Lemma bits64_or x y f g : bits64 x f -> bits64 y g -> bits64 (x ||| y) (fun m => f m || g m).
Proof. intros H1 H2 i Hi. rewrite Z.lor_spec, H1, H2 by done. by destruct (i <? 64)%Z. Qed.

Lemma bits64_not x f : bits64 x f -> bits64 (wnot64 x) (fun m => negb (f m)).
Proof.
  intros H i Hi. unfold wnot64. change (2 ^ 64 - 1)%Z with (Z.ones 64). rewrite Z.ldiff_spec, Z.testbit_ones, H by lia.
  rewrite (proj2 (Z.leb_le 0 i)) by done. by destruct (i <? 64)%Z, (f (Z.to_nat i)).
Qed.

Lemma bits64_of x f : (0 <= x < 2 ^ 64)%Z -> forallb (fun m => Bool.eqb (Z.testbit x (Z.of_nat m)) (f m)) (seq 0 64) = true -> bits64 x f.
Proof.
  intros Hx Hf i Hi. destruct (Z.ltb_spec i 64) as [H|H]; cbn [andb].
  - rewrite forallb_forall in Hf. specialize (Hf (Z.to_nat i)). rewrite Z2Nat.id in Hf by done.
    by apply eqb_prop, Hf, in_seq; lia.
  - destruct (Z.eq_dec x 0%Z) as [->|Hx0]; [apply Z.testbit_0_l|]. apply Z.bits_above_log2; [lia|].
    apply Z.log2_lt_pow2; [lia|]. apply (Z.lt_le_trans _ (2 ^ 64)); [lia|]. apply Z.pow_le_mono_r; lia.
Qed.

Lemma bits64_var v : v < 6 -> bits64 Truth6.[v] (fun m => Nat.testbit m v).
Proof. intros Hv. do 6 (destruct v as [|v]; [by apply bits64_of|]). lia. Qed.

Lemma bits64_one : bits64 Truth6.[7] (fun _ => true).
Proof. by apply bits64_of. Qed.

Lemma bits64_zero : bits64 Truth6.[6] (fun _ => false).
Proof. by apply bits64_of. Qed.

(** ** [Kit_PlaToTruth6] *)

Lemma and_line o n c cs a : consistent c -> cube_in n c -> n <= 6 ->
  exists x, for_up n (fun v valueAnd =>
      valueAnd ← valueAnd;
      if ch (a ++ cover_text o n (c :: cs)) (length a + v) =c "1" then Some (valueAnd &&& Truth6.[v])%Z
      else if ch (a ++ cover_text o n (c :: cs)) (length a + v) =c "0" then Some (valueAnd &&& wnot64 Truth6.[v])%Z
      else if negb (ch (a ++ cover_text o n (c :: cs)) (length a + v) =c "-") then None else Some valueAnd) (Some Truth6.[7]) = Some x /\
    bits64 x (cube_eval c).
Proof.
  intros Hc Hi Hn. match goal with |- context [for_up n ?b _] => set (body := b) end.
  assert (exists x, for_up n body (Some Truth6.[7]) = Some x /\ bits64 x (fun m => forallb (lit_eval c m) (seq 0 n))) as (x & E & H).
  { apply (for_up_ind (fun k s => exists x, s = Some x /\ bits64 x (fun m => forallb (lit_eval c m) (seq 0 k))));
      [eexists; split; [done|apply bits64_one]|].
    intros k _ Hk (x & -> & H). unfold body. cbn [mbind option_bind]. rewrite ch_lit by done.
    pose proof (bits64_var k ltac:(lia)) as Hv.
    destruct (Literal_cases c k Hc ltac:(lia)) as [[_ E]|[[_ E]|[_ E]]]; rewrite E; (eexists; split; [done|]);
      [pose proof (bits64_and _ _ _ _ H (bits64_not _ _ Hv)) as G|pose proof (bits64_and _ _ _ _ H Hv) as G|pose proof H as G];
      (eapply bits64_ext; [|exact G]); intros m Hm; rewrite seq_S, forallb_app; cbn [forallb Nat.add]; unfold lit_eval at 3; rewrite E; cbn;
      by rewrite ?andb_true_r. }
  exists x. split; [done|]. eapply bits64_ext; [|exact H]. intros m _. symmetry. by apply cube_eval_lits; [lia|..].
Qed.

Lemma or_cubes_spec o n c cs : n <= 6 -> Forall consistent (c :: cs) -> Forall (cube_in n) (c :: cs) ->
  forall fuel a x f, length cs < fuel -> bits64 x f ->
  exists y, or_cubes fuel (a ++ cover_text o n (c :: cs)) n (length a) x = Some y /\
    bits64 y (fun m => f m || cover_eval (c :: cs) m).
Proof.
  intros Hn. revert c. induction cs as [|d cs IH]; intros c Hc Hi fuel a x f Hf Hx; (destruct fuel as [|fuel]; [lia|]);
    apply Forall_cons_iff in Hc as [Hc Hcs]; apply Forall_cons_iff in Hi as [Hi His]; cbn [or_cubes];
    match goal with |- context [cover_text o n (c :: ?l)] => destruct (and_line o n c l a Hc Hi Hn) as (y & -> & Hy) end; cbn [mbind option_bind];
    pose proof (bits64_or _ _ _ _ Hx Hy) as Hxy;
    replace (length a + n) with (length a + (n + 0)) by lia;
    replace (S (S (length a + (n + 0)))) with (length a + (n + 2)) by lia;
    replace (S (length a + (n + 2))) with (length a + (n + 3)) by lia; rewrite !ch_tail.
  - eexists. split; [done|]. eapply bits64_ext; [|exact Hxy]. intros m _. unfold cover_eval. cbn [existsb]. by rewrite orb_false_r.
  - change (ch (" "%char :: ?r) 0) with " "%char. change (ch (" "%char :: o :: NL :: ?r) 2) with NL.
    change (ch (" "%char :: o :: NL :: ?r) 3) with (ch ([] ++ r) (@length ascii [])). rewrite ch_first. cbn [app].
    change (" " =c " ") with true. change (NL =c NL) with true. cbv iota.
    rewrite line_assoc, <- (length_line o n c a).
    destruct (IH d Hcs His fuel (a ++ cube_text o n c) _ _ ltac:(cbn in Hf; lia) Hxy) as (z & -> & Hz).
    exists z. split; [done|]. eapply bits64_ext; [|exact Hz]. intros m _. unfold cover_eval. cbn [existsb]. by rewrite <- orb_assoc.
Qed.

Definition complemented (o : ascii) : bool := (o =c "0") || (o =c "n").

Lemma ToTruth6_spec o n c cs : plain o -> n <= 6 -> Forall consistent (c :: cs) -> Forall (cube_in n) (c :: cs) ->
  exists u, Kit_PlaToTruth6 (cover_text o n (c :: cs)) n = Some u /\
    bits64 u (fun m => xorb (complemented o) (cover_eval (c :: cs) m)).
Proof.
  intros Ho Hn Hc Hi. unfold Kit_PlaToTruth6. rewrite (proj2 (Nat.ltb_lt n 7)) by lia.
  destruct (or_cubes_spec o n c cs Hn Hc Hi (S (length (cover_text o n (c :: cs)))) [] _ _ ltac:(rewrite length_cover_text; cbn; lia) bits64_zero)
    as (y & E & Hy). cbn [app length] in E. cbn [length]. rewrite E. cbn [mbind option_bind].
  rewrite IsComplement_spec by done. fold (complemented o). eexists. split; [done|].
  destruct (complemented o); [apply bits64_not in Hy|]; exact Hy.
Qed.

(** ** [Kit_PlaToTruth] *)

Lemma lines_split o n cs i c : cs !! i = Some c ->
  cover_text o n cs = concat (map (cube_text o n) (take i cs)) ++ cover_text o n (c :: drop (S i) cs) /\
  length (concat (map (cube_text o n) (take i cs))) = i * (n + 3).
Proof.
  intros Hi. split.
  - rewrite <- (take_drop_middle cs i c) at 1 by done. unfold cover_text. by rewrite map_app, concat_app, <- app_assoc.
  - rewrite length_lines, length_take, Nat.min_l; [done|]. apply lookup_lt_Some in Hi. lia.
Qed.

Lemma strlen_app l r : Forall (fun c => (c =c NUL) = false) l -> strlen (l ++ r) = length l + strlen r.
Proof. induction 1 as [|c l H _ IH]; [done|]. cbn [app strlen length]. rewrite H, IH. lia. Qed.

Lemma strlen_cover o n cs : plain o -> strlen (cover_text o n cs) = length cs * (n + 3).
Proof.
  intros Ho. induction cs as [|c cs IH]; [done|]. rewrite cover_text_cons, strlen_app.
  - rewrite length_app, length_map, length_seq. cbn [length strlen]. change (NL =c NUL) with false. cbv iota. rewrite IH. lia.
  - eapply List.Forall_impl; [|by apply plain_line]. by intros x [H _].
Qed.

Section to_truth.
Context (o : ascii) (n : nat) (vVars : list (list Z)).
Context (Ho : plain o) (Hn : n <= 16).
Context (Hvt : forall v, v < n -> is_tt n (nth v vVars [])).
Context (Hvb : forall v m, v < n -> m < nmint n -> tbit (nth v vVars []) m = Nat.testbit m v).

Lemma temp_line c cs a p : consistent c -> cube_in n c -> is_tt n p ->
  let q := for_up n (fun v pTemp =>
        if ch (a ++ cover_text o n (c :: cs)) (length a + v) =c "1" then Kit_TruthAnd pTemp pTemp (nth v vVars []) n
        else if ch (a ++ cover_text o n (c :: cs)) (length a + v) =c "0" then Kit_TruthSharp pTemp pTemp (nth v vVars []) n
        else pTemp) (Kit_TruthFill p n) in
  is_tt n q /\ forall m, m < nmint n -> tbit q m = cube_eval c m.
Proof using All.
  intros Hc Hi Hp q. subst q. match goal with |- context [for_up n ?b _] => set (body := b) end.
  assert (is_tt n (for_up n body (Kit_TruthFill p n)) /\
    forall m, m < nmint n -> tbit (for_up n body (Kit_TruthFill p n)) m = forallb (lit_eval c m) (seq 0 n)) as [H1 H2].
  { apply (for_up_ind (fun k q => is_tt n q /\ forall m, m < nmint n -> tbit q m = forallb (lit_eval c m) (seq 0 k))).
    { split; [by apply is_tt_Fill|]. intros m Hm. apply tbit_Fill; [apply Hp|done]. }
    intros k q Hk [Hq H]. unfold body. rewrite ch_lit by done.
    destruct (Literal_cases c k Hc ltac:(lia)) as [[_ E]|[[_ E]|[_ E]]]; rewrite E; cbn [Ascii.eqb Bool.eqb];
      (split; [by auto using is_tt_Sharp, is_tt_And|]); intros m Hm; rewrite seq_S, forallb_app; cbn [forallb Nat.add];
      unfold lit_eval at 2; rewrite E; cbn; rewrite ?andb_true_r.
    - rewrite tbit_Sharp, H, Hvb by (done || apply Hq). done.
    - rewrite tbit_And, H, Hvb by (done || apply Hq). done.
    - by apply H. }
  split; [done|]. intros m Hm. rewrite H2 by done. symmetry. by apply cube_eval_lits.
Qed.

Lemma ToTruth_spec cs pTemp pTruth : Forall consistent cs -> Forall (cube_in n) cs -> cs <> [] ->
  is_tt n pTemp -> is_tt n pTruth ->
  exists pTemp' pTruth', Kit_PlaToTruth (cover_text o n cs) n vVars pTemp pTruth = (pTemp', pTruth') /\
    is_tt n pTruth' /\ forall m, m < nmint n -> tbit pTruth' m = xorb (o =c "0") (cover_eval cs m).
Proof using All.
  intros Hc Hi Hne H1 H2. unfold Kit_PlaToTruth. rewrite strlen_cover, Nat.Div0.mod_mul, Nat.div_mul by (done || lia). cbn [Nat.eqb negb].
  match goal with |- context [for_up (length cs) ?b ?i] => set (body := b); set (init := i) end.
  assert (exists p q f, for_up (length cs) body init = (p, q, f) /\ is_tt n p /\ is_tt n q /\
    (forall m, m < nmint n -> tbit q m = cover_eval (take (length cs) cs) m) /\ (length cs <> 0 -> f = (o =c "0"))) as (p & q & f & -> & _ & Hq & Hm & Hf).
  { apply (for_up_ind (fun i s => exists p q f, s = (p, q, f) /\ is_tt n p /\ is_tt n q /\
      (forall m, m < nmint n -> tbit q m = cover_eval (take i cs) m) /\ (i <> 0 -> f = (o =c "0")))).
    { exists pTemp, (Kit_TruthClear pTruth n), false. split; [done|]. split; [done|]. split; [by apply is_tt_Clear|].
      split; [|done]. intros m Hm. apply tbit_Clear; [apply H2|done]. }
    intros i s Hl (p & q & f & -> & Hp & Hq & Hm & _). unfold body. destruct (lookup_lt_is_Some_2 cs i Hl) as [c Ei].
    destruct (lines_split o n cs i c Ei) as [Es El]. rewrite Es, <- El.
    pose proof (Forall_lookup_1 _ _ _ _ Hc Ei) as Cc. pose proof (Forall_lookup_1 _ _ _ _ Hi Ei) as Ci.
    match goal with |- context [cover_text o n (c :: ?l)] => pose proof (temp_line c l (concat (map (cube_text o n) (take i cs))) p Cc Ci Hp) as Ht end.
    cbv zeta in Ht. rewrite ch_tail. destruct Ht as [Ht Hb].
    eexists _, _, _. split; [done|]. split; [exact Ht|]. split; [by apply is_tt_Or|]. split; [|by intros _].
    intros m Hlt. rewrite tbit_Or, Hm, Hb by (done || apply Hq). rewrite (take_S_r _ _ _ Ei), cover_eval_app.
    unfold cover_eval at 3. cbn [existsb]. by rewrite orb_false_r. }
  rewrite take_ge in Hm by done. eexists _, _. split; [done|]. rewrite Hf by by destruct cs.
  destruct (o =c "0"); [split; [by apply is_tt_Not|]; intros m Hlt; rewrite tbit_Not, Hm by (done || apply Hq)|split; [done|]; intros m Hlt; rewrite Hm by done];
    by destruct (cover_eval cs m).
Qed.
End to_truth.

(** * From a table to text *)

(** The text of a constant or of an irredundant cover of the function in the phase of the last character. *)
Inductive text_of (n : nat) (f : nat -> bool) : text -> Prop :=
  | text_const0 : (forall m, f m = false) -> text_of n f const0_text
  | text_const1 : (forall m, f m = true) -> text_of n f const1_text
  | text_cover (fCompl : bool) (cs : list Z) :
      isop n (fun m => xorb fCompl (f m)) (fun m => xorb fCompl (f m)) cs -> cs <> [] ->
      text_of n f (cover_text (if fCompl then "0" else "1")%char n cs).

Lemma cover_of_phase n r f V : n <= 16 -> (r = 0%Z \/ r = 1%Z) -> VecInt.nSize V = Z.of_nat (length (pArray V)) ->
  isop n (in_phase r f) (in_phase r f) (pArray V) -> pArray V <> [] ->
  Kit_PlaFromIsop n (take (Z.to_nat (VecInt.nSize V)) (pArray V)) = Some (cover_text "1" n (pArray V)) /\
  Kit_PlaCreateFromIsop n (take (Z.to_nat (VecInt.nSize V)) (pArray V)) = Some (cover_text "1" n (pArray V)) /\
  (if negb (r =? 0)%Z then Kit_PlaComplement (cover_text "1" n (pArray V)) else Some (cover_text "1" n (pArray V))) =
    Some (cover_text (if (r =? 1)%Z then "0" else "1")%char n (pArray V)).
Proof.
  intros Hn Hr Hs Hi Hne. rewrite Hs, Nat2Z.id, take_ge by done.
  pose proof (isop_consistent n _ _ _ Hn Hi) as Hc.
  rewrite FromIsop_spec, CreateFromIsop_spec by done. split; [done|]. split; [done|].
  destruct Hr as [-> | ->]; [done|]. by apply Complement_spec.
Qed.

Lemma FromTruth_spec n t V : n <= 10 -> is_tt n t -> depends_below n (tfun n t) ->
  exists s V', Kit_PlaFromTruth t n V = Some (s, V', t) /\ text_of n (tfun n t) s.
Proof.
  intros Hn Ht Hd. unfold Kit_PlaFromTruth.
  destruct (Kit_TruthIsConst0 t n) eqn:E0; [eexists _, _; split; [done|]; apply text_const0; intros m; by apply tfun_const0|].
  destruct (Kit_TruthIsConst1 t n) eqn:E1; [eexists _, _; split; [done|]; apply text_const1; intros m; by apply tfun_const1|].
  destruct (Isop_spec n t V false ltac:(lia) Ht Hd) as (r & V1 & -> & [(-> & _ & Hc)|([-> | [_ ?]] & Hs & Hi & _)]); [| |done].
  { pose proof (mem_limit n V Hn). lia. }
  cbn [mbind option_bind]. change ((0 =? 0)%Z || (0 =? 1)%Z) with true. cbv iota.
  assert (pArray V1 <> []) as Hne.
  { intros E. destruct (tfun_nonzero n t Ht E0) as [m Hm]. apply (isop_lower _ _ _ _ Hi m) in Hm. by rewrite E in Hm. }
  destruct (cover_of_phase n 0 _ V1 ltac:(lia) (or_introl eq_refl) Hs Hi Hne) as (_ & -> & E). cbn [mbind option_bind].
  rewrite E. cbn [mbind option_bind]. eexists _, _. split; [done|]. by apply (text_cover n _ false).
Qed.

(** The last check of [Kit_PlaFromTruthNew]. *)
Lemma word_of_bits64 n t u : n <= 5 -> is_tt n t -> bits64 u (tfun n t) -> (t.[0] =? u &&& 0xFFFFFFFF)%Z = true.
Proof.
  intros Hn Ht Hu. apply Z.eqb_eq, Z.bits_inj'. intros i Hi. rewrite Z.land_spec, Hu by done.
  change 0xFFFFFFFF%Z with (Z.ones 32). rewrite Z.testbit_ones, (proj2 (Z.leb_le 0 i)) by lia. cbn [andb].
  destruct (Z.ltb_spec i 32) as [H|H].
  - rewrite (proj2 (Z.ltb_lt i 64)), andb_true_r by lia. cbn [andb].
    rewrite tfun_small by (rewrite nmint_5 by done; lia). unfold tbit.
    rewrite Nat.div_small, Nat.mod_small, Z2Nat.id by lia. done.
  - rewrite andb_false_r. apply word_high; [apply word_rd, Ht|lia].
Qed.

Lemma double_word_of_bits64 t u : is_tt 6 t -> bits64 u (tfun 6 t) -> (double_word t =? u)%Z = true.
Proof.
  intros Ht Hu. apply Z.eqb_eq, Z.bits_inj'. intros i Hi. unfold double_word. rewrite Z.lor_spec, Z.shiftl_spec, Hu by done.
  assert (forall k, is_word t.[k]) as Hw by (intros; apply word_rd, Ht).
  destruct (Z.ltb_spec i 64) as [H|H]; cbn [andb].
  - rewrite tfun_small by (change (nmint 6) with 64; lia). unfold tbit. destruct (Z.ltb_spec i 32) as [L|L].
    + rewrite (Z.testbit_neg_r _ (i - 32)), orb_false_r by lia. rewrite Nat.div_small, Nat.mod_small, Z2Nat.id by lia. done.
    + rewrite (word_high _ i) by done. cbn [orb]. replace (Z.to_nat i) with (1 * 32 + Z.to_nat (i - 32)) by lia.
      rewrite Nat.div_add_l, Nat.div_small, (Nat.add_comm (1 * 32) (Z.to_nat _)), Nat.Div0.mod_add, Nat.mod_small, Z2Nat.id by lia. done.
  - rewrite !word_high by (done || lia). done.
Qed.

Lemma FromTruthNew_spec n t V : n <= 10 -> is_tt n t -> depends_below n (tfun n t) ->
  exists s V', Kit_PlaFromTruthNew t n V = Some (s, V', t) /\ text_of n (tfun n t) s.
Proof.
  intros Hn Ht Hd. unfold Kit_PlaFromTruthNew.
  destruct (Isop_spec n t V true ltac:(lia) Ht Hd) as (r & V1 & -> & [(-> & _ & Hc)|(Hr & Hs & Hi & Hnc)]).
  { pose proof (mem_limit n V Hn). lia. }
  cbn [mbind option_bind]. assert (r = 0%Z \/ r = 1%Z) as Hr2 by (destruct Hr as [|[? _]]; auto).
  assert ((r =? 0)%Z || (r =? 1)%Z = true) as -> by (by destruct Hr2 as [-> | ->]).
  destruct (_ || _) eqn:Ec.
  - assert (pArray V1 = [] /\ VecInt.nSize V1 = 0%Z \/ pArray V1 = [0%Z] /\ VecInt.nSize V1 = 1%Z) as Hcases.
    { rewrite Hs in Ec. rewrite Hs. destruct (pArray V1) as [|c [|d l]]; [by left| |].
      - cbn in Ec. apply Z.eqb_eq in Ec. right. cbn in Ec. by rewrite Ec.
      - exfalso. apply orb_true_iff in Ec as [Ec|Ec]; [|apply andb_true_iff in Ec as [Ec _]]; apply Z.eqb_eq in Ec; cbn [length] in Ec; lia. }
    assert (r = 0%Z) as -> by (destruct Hr2 as [|Hr1]; [done|]; destruct (Hnc Hr1); destruct Hcases as [[]|[]]; done).
    cbn [Z.eqb]. destruct Hcases as [[Ep ->]|[Ep ->]]; cbn [Z.eqb Pos.eqb]; (eexists _, _; split; [done|]);
      [apply text_const0|apply text_const1]; intros m; pose proof (isop_equal _ _ _ m Hi) as E; rewrite Ep in E;
      unfold in_phase in E; cbn [Z.eqb xorb] in E.
    + by destruct (tfun n t m).
    + unfold cover_eval in E. cbn [existsb] in E. rewrite cube_eval_0 in E. by destruct (tfun n t m).
  - assert (pArray V1 <> []) as Hne by (intros E; rewrite Hs, E in Ec; done).
    destruct (cover_of_phase n r _ V1 ltac:(lia) Hr2 Hs Hi Hne) as (-> & _ & E). cbn [mbind option_bind].
    rewrite E. cbn [mbind option_bind]. set (o := (if (r =? 1)%Z then "0" else "1")%char).
    assert (plain o) as Ho by (by destruct Hr2 as [-> | ->]).
    assert (text_of n (tfun n t) (cover_text o n (pArray V1))) as Hto by (by apply (text_cover n _ (r =? 1)%Z)).
    assert (n <= 6 -> exists u, Kit_PlaToTruth6 (cover_text o n (pArray V1)) n = Some u /\ bits64 u (tfun n t)) as H6.
    { intros H6. destruct (pArray V1) as [|c cs] eqn:Ep; [done|].
      destruct (ToTruth6_spec o n c cs Ho H6) as (u & Eu & Hu); [by apply (isop_consistent n _ _ _ ltac:(lia) Hi)|apply Hi|].
      exists u. split; [done|]. eapply bits64_ext; [|exact Hu]. intros m _. cbn beta. rewrite <- (isop_equal _ _ _ m Hi). unfold in_phase, o.
      destruct Hr2 as [-> | ->]; by destruct (tfun n t m). }
    destruct (Nat.ltb_spec n 6) as [L|L]; [|destruct (Nat.eqb_spec n 6) as [->|]; [|by eexists _, _]];
      destruct H6 as (u & -> & Hu); try lia; cbn [mbind option_bind].
    + rewrite (word_of_bits64 n) by (done || lia). by eexists _, _.
    + rewrite double_word_of_bits64 by done. by eexists _, _.
Qed.

(** * Properties *)

Definition phase_char (fCompl : bool) : ascii := if fCompl then "0"%char else "1"%char.

(** What a reader finds in the text of a function: a constant or an irredundant cover with its phase. *)
Definition reads_as (n : nat) (f : nat -> bool) (s : text) : Prop :=
  Kit_PlaIsConst0 s = true /\ (forall m, f m = false) \/
  Kit_PlaIsConst1 s = true /\ (forall m, f m = true) \/
  exists fCompl cs, Kit_PlaIsComplement s = Some fCompl /\ Kit_PlaToIsop s = Some cs /\
    Kit_PlaGetVarNum s = Z.of_nat n /\ Kit_PlaGetCubeNum (Some s) = Z.of_nat (length cs) /\
    isop n (fun m => xorb fCompl (f m)) (fun m => xorb fCompl (f m)) cs.

Lemma text_reads_as n f s : 0 < n <= 16 -> text_of n f s -> reads_as n f s.
Proof.
  intros Hn [H|H|c cs Hi Hne]; [by left|by right; left|right; right]. destruct cs as [|d cs]; [done|].
  exists c, (d :: cs). assert (plain (if c then "0" else "1")%char) as Ho by by destruct c.
  rewrite IsComplement_spec, GetVarNum_spec, GetCubeNum_spec, ToIsop_spec; try done;
    [by destruct c|by apply (isop_consistent n _ _ _ ltac:(lia) Hi)|apply Hi].
Qed.

(** C23. [Kit_PlaFromTruth] and [Kit_PlaFromTruthNew] on a table of one to ten variables, whatever the memory holds:
    they return a text, no assertion fails (the last checks of [Kit_PlaFromTruthNew] by [Kit_PlaToTruth6] included),
    and the table is restored.  The text is a constant, exactly when the function of the table is, or the other
    routines read from it a phase and an irredundant cover of prime cubes whose function in that phase is the function of the
    table. *)
Theorem pla_from_truth_correct nVars pTruth vCover :
  0 < nVars <= 10 -> is_tt nVars pTruth -> depends_below nVars (tfun nVars pTruth) ->
  (exists s vCover', Kit_PlaFromTruth pTruth nVars vCover = Some (s, vCover', pTruth) /\ reads_as nVars (tfun nVars pTruth) s) /\
  (exists s vCover', Kit_PlaFromTruthNew pTruth nVars vCover = Some (s, vCover', pTruth) /\ reads_as nVars (tfun nVars pTruth) s).
Proof.
  intros Hn Ht Hd. split.
  - destruct (FromTruth_spec nVars pTruth vCover) as (s & V & E & H); [lia|done..|].
    exists s, V. split; [done|]. apply text_reads_as; [lia|done].
  - destruct (FromTruthNew_spec nVars pTruth vCover) as (s & V & E & H); [lia|done..|].
    exists s, V. split; [done|]. apply text_reads_as; [lia|done].
Qed.

Lemma pla_from_truth_correct_witness :
  let V := {| VecInt.nCap := 0; VecInt.nSize := 0; pArray := [] |} in let t := [0xEAEAEAEA]%Z in
  option_map (fun r => r.1.1) (Kit_PlaFromTruth t 3 V) = Some ["-"; "1"; "1"; " "; "1"; NL; "1"; "-"; "-"; " "; "1"; NL; NUL]%char /\
  (exists s V', Kit_PlaFromTruth t 3 V = Some (s, V', t) /\ reads_as 3 (tfun 3 t) s) /\
  (exists s V', Kit_PlaFromTruthNew t 3 V = Some (s, V', t) /\ reads_as 3 (tfun 3 t) s).
Proof.
  intros V t. split; [vm_compute; reflexivity|].
  apply (pla_from_truth_correct 3 t V); [lia|concrete_tt|three_variables [0xEAEAEAEA]%Z].
Defined.

(** C35. The text of a cover of cubes over [1] to [16] variables: both writers give the same text; the numbers of
    variables and cubes, the phase and the cover are read back from it; complementing it changes only the phase that
    is read, and complementing it twice gives the text again. *)
Theorem pla_cover_roundtrip nVars vCover :
  0 < nVars <= 16 -> vCover <> [] -> Forall consistent vCover -> Forall (cube_in nVars) vCover ->
  exists s s', Kit_PlaFromIsop nVars vCover = Some s /\ Kit_PlaCreateFromIsop nVars vCover = Some s /\
    Kit_PlaComplement s = Some s' /\ Kit_PlaComplement s' = Some s /\
    (Kit_PlaIsComplement s = Some false /\ Kit_PlaIsComplement s' = Some true) /\
    (Kit_PlaToIsop s = Some vCover /\ Kit_PlaToIsop s' = Some vCover) /\
    (Kit_PlaGetVarNum s = Z.of_nat nVars /\ Kit_PlaGetVarNum s' = Z.of_nat nVars) /\
    (Kit_PlaGetCubeNum (Some s) = Z.of_nat (length vCover) /\ Kit_PlaGetCubeNum (Some s') = Z.of_nat (length vCover)).
Proof.
  intros Hn Hne Hc Hi. exists (cover_text "1" nVars vCover), (cover_text "0" nVars vCover).
  rewrite FromIsop_spec, CreateFromIsop_spec by (done || lia). split; [done|]. split; [done|].
  split; [by apply Complement_spec|]. split; [by apply Complement_spec|]. destruct vCover as [|c cs]; [done|].
  rewrite !IsComplement_spec, !ToIsop_spec, !GetVarNum_spec, !GetCubeNum_spec by done. done.
Qed.

(** Concrete cubes. *)
Ltac concrete_cubes := repeat apply List.Forall_cons; try apply List.Forall_nil; (split; [done|intros i Hi; apply Z.bits_above_log2; cbn; lia]).

Lemma pla_cover_roundtrip_witness :
  Kit_PlaFromIsop 3 [0x6; 0x20]%Z = Some ["1"; "0"; "-"; " "; "1"; NL; "-"; "-"; "1"; " "; "1"; NL; NUL]%char /\
  exists s s', Kit_PlaFromIsop 3 [0x6; 0x20]%Z = Some s /\ Kit_PlaCreateFromIsop 3 [0x6; 0x20]%Z = Some s /\
    Kit_PlaComplement s = Some s' /\ Kit_PlaComplement s' = Some s /\
    (Kit_PlaIsComplement s = Some false /\ Kit_PlaIsComplement s' = Some true) /\
    (Kit_PlaToIsop s = Some [0x6; 0x20]%Z /\ Kit_PlaToIsop s' = Some [0x6; 0x20]%Z) /\
    (Kit_PlaGetVarNum s = Z.of_nat 3 /\ Kit_PlaGetVarNum s' = Z.of_nat 3) /\
    (Kit_PlaGetCubeNum (Some s) = Z.of_nat 2 /\ Kit_PlaGetCubeNum (Some s') = Z.of_nat 2).
Proof.
  split; [reflexivity|]. apply (pla_cover_roundtrip 3 [0x6; 0x20]%Z); [lia|done| |concrete_cubes].
  repeat apply List.Forall_cons; try apply List.Forall_nil; (split; [done|]); [exists 1|exists 4]; reflexivity.
Defined.

(** C34. Both evaluations of the text of a cover in phase [o], for cubes with at most one literal of each variable:
    [Kit_PlaToTruth6], up to six variables, gives the 64 values of the cover, complemented for the phases 0 and n;
    [Kit_PlaToTruth] with the tables of the elementary variables gives the values of the cover at all minterms,
    complemented for the phase 0 only. *)
Theorem pla_evaluation_correct (o : ascii) nVars cs vVars pTemp pTruth :
  plain o -> nVars <= 16 -> cs <> [] -> Forall consistent cs -> Forall (cube_in nVars) cs ->
  (forall v, v < nVars -> is_tt nVars (nth v vVars [])) ->
  (forall v m, v < nVars -> m < nmint nVars -> tbit (nth v vVars []) m = Nat.testbit m v) ->
  is_tt nVars pTemp -> is_tt nVars pTruth ->
  (nVars <= 6 -> exists u, Kit_PlaToTruth6 (cover_text o nVars cs) nVars = Some u /\
    bits64 u (fun m => xorb (complemented o) (cover_eval cs m))) /\
  exists pTemp' pTruth', Kit_PlaToTruth (cover_text o nVars cs) nVars vVars pTemp pTruth = (pTemp', pTruth') /\
    is_tt nVars pTruth' /\ forall m, m < nmint nVars -> tbit pTruth' m = xorb (o =c "0") (cover_eval cs m).
Proof.
  intros Ho Hn Hne Hc Hi Hv Hb H1 H2. split; [|by apply ToTruth_spec].
  intros H6. destruct cs as [|c cs]; [done|]. by apply ToTruth6_spec.
Qed.

Lemma pla_evaluation_correct_witness :
  let vars := [[0xAAAAAAAA]; [0xCCCCCCCC]]%Z in
  Kit_PlaToTruth (cover_text "0" 2 [0x6]%Z) 2 vars [0]%Z [0]%Z = ([0x22222222], [0xDDDDDDDD])%Z /\
  (2 <= 6 -> exists u, Kit_PlaToTruth6 (cover_text "0" 2 [0x6]%Z) 2 = Some u /\
    bits64 u (fun m => xorb (complemented "0") (cover_eval [0x6]%Z m))) /\
  exists pTemp' pTruth', Kit_PlaToTruth (cover_text "0" 2 [0x6]%Z) 2 vars [0]%Z [0]%Z = (pTemp', pTruth') /\
    is_tt 2 pTruth' /\ forall m, m < nmint 2 -> tbit pTruth' m = xorb ("0" =c "0") (cover_eval [0x6]%Z m).
Proof.
  intros vars. split; [reflexivity|].
  apply (pla_evaluation_correct "0" 2 [0x6]%Z vars [0]%Z [0]%Z); [done|lia|done| |concrete_cubes| | |concrete_tt..].
  - repeat constructor; [done|]. exists 1. reflexivity.
  - intros v Hv. do 2 (destruct v as [|v]; [concrete_tt|]). lia.
  - intros v m Hv Hm. change (nmint 2) with 32 in Hm.
    do 2 (destruct v as [|v]; [do 32 (destruct m as [|m]; [reflexivity|]); lia|]). lia.
Defined.

(** The texts of the constants are not covers: the routines that evaluate or read a cover of some variables fail an assertion or
    leave the table as it was. *)
Lemma constants_not_read nVars s vVars pTemp pTruth : 0 < nVars <= 6 -> s = const0_text \/ s = const1_text ->
  Kit_PlaToIsop s = None /\ Kit_PlaToTruth6 s nVars = None /\ Kit_PlaToTruth s nVars vVars pTemp pTruth = (pTemp, pTruth).
Proof. intros Hn [-> | ->]; do 7 (destruct nVars as [|nVars]; [done || lia|]); lia. Qed.

(** [Kit_PlaIsBuf] and [Kit_PlaIsInv] on the text of a nonempty cover over at least one variable: they answer
    true exactly for one cube of one variable whose function, in the phase of the text, is the variable (its complement). *)
Theorem pla_buffer_correct (fCompl : bool) nVars c cs :
  0 < nVars <= 16 -> Forall consistent (c :: cs) -> Forall (cube_in nVars) (c :: cs) ->
  (Kit_PlaIsBuf (cover_text (phase_char fCompl) nVars (c :: cs)) = true <->
    nVars = 1 /\ cs = [] /\ forall m, xorb fCompl (cover_eval (c :: cs) m) = Nat.testbit m 0) /\
  (Kit_PlaIsInv (cover_text (phase_char fCompl) nVars (c :: cs)) = true <->
    nVars = 1 /\ cs = [] /\ forall m, xorb fCompl (cover_eval (c :: cs) m) = negb (Nat.testbit m 0)).
Proof.
  intros Hn Hc Hi. set (s := cover_text _ _ _). set (o := phase_char fCompl).
  destruct (decide (nVars = 1 /\ cs = [])) as [[-> ->]|Hno].
  - apply List.Forall_cons_iff in Hc as [Hc _]. apply List.Forall_cons_iff in Hi as [Hi _].
    assert (forall m, cover_eval [c] m = lit_eval c m 0) as E.
    { intros m. unfold cover_eval. cbn [existsb]. rewrite (cube_eval_lits 1), orb_false_r by (done || lia). cbn [seq forallb]. by rewrite andb_true_r. }
    assert (s = [lit_char c 0; " "%char; o; NL; NUL]) as -> by done.
    unfold Kit_PlaIsBuf, Kit_PlaIsInv. cbn [ch nth]. setoid_rewrite E. unfold lit_eval, ch, o. cbn [nth].
    pose proof (Literal_cases c 0 Hc ltac:(lia)) as HL. split; (split; [intros H; split; [done|]; split; [done|]; intros m|intros (_ & _ & H); pose proof (H 0) as H0; pose proof (H 1) as H1]);
      destruct HL as [[_ Ec]|[[_ Ec]|[_ Ec]]]; rewrite Ec in *; destruct fCompl; first [done | by destruct (Nat.testbit m 0)].
  - assert ((ch s 4 =c NUL) = false) as E.
    { pose proof (fun k => ch_lit o nVars c cs [] k) as Hl. pose proof (ch_tail o nVars c cs []) as Ht. cbn [app length Nat.add] in Hl, Ht.
      fold o in s. fold s in Hl, Ht. destruct (Nat.lt_ge_cases 4 nVars) as [H|H]; [rewrite Hl by done; apply plain_lit|].
      assert (nVars = 1 \/ nVars = 2 \/ nVars = 3 \/ nVars = 4) as Hcase by lia.
      destruct Hcase as [-> | [-> | [-> | ->]]]; 
        [|change 4 with (2 + 2); by rewrite Ht|change 4 with (3 + 1); rewrite Ht; by destruct fCompl|change 4 with (4 + 0); by rewrite Ht].
      destruct cs as [|d l]; [by destruct Hno|]. change 4 with (1 + 3). rewrite Ht. apply (ch_first o 1 d l []). }
    unfold Kit_PlaIsBuf, Kit_PlaIsInv. rewrite E. cbn [negb]. split; (split; [done|]); intros (-> & -> & _); by destruct Hno.
Qed.

Lemma pla_buffer_correct_witness :
  Kit_PlaIsBuf (cover_text (phase_char true) 1 [0x1]%Z) = true /\
  (Kit_PlaIsBuf (cover_text (phase_char true) 1 [0x1]%Z) = true <->
    1 = 1 /\ @nil Z = [] /\ forall m, xorb true (cover_eval [0x1]%Z m) = Nat.testbit m 0) /\
  (Kit_PlaIsInv (cover_text (phase_char true) 1 [0x1]%Z) = true <->
    1 = 1 /\ @nil Z = [] /\ forall m, xorb true (cover_eval [0x1]%Z m) = negb (Nat.testbit m 0)).
Proof.
  split; [reflexivity|]. apply (pla_buffer_correct true 1 0x1%Z []); [lia| |concrete_cubes].
  repeat constructor; [done|]. exists 0. reflexivity.
Defined.
