(* ===== verification/AndMan.v ===== *)
(** Literals ([abc_global.h]), and the interface of a manager of an and-inverter graph: what a
    client that builds gates may rely on.  The gates made of and-gates are defined and proved
    here for every manager.

    A literal is twice the number of a node plus a complement bit.  Numbers of nodes and
    literals are C [int]s; the managers limit the number of nodes so that they do not
    overflow. *)
From S2P Require Import Prelude.

(** * Literals *)

Definition Abc_Var2Lit (Var : Z) (c : bool) : option Z := assert! (0 <=? Var)%Z in Some (Var + Var + Z.b2z c)%Z.
Definition Abc_Lit2Var (Lit : Z) : option Z := assert! (0 <=? Lit)%Z in Some (Z.shiftr Lit 1).
Definition Abc_LitIsCompl (Lit : Z) : option bool := assert! (0 <=? Lit)%Z in Some (Z.land Lit 1 =? 1)%Z.
Definition Abc_LitNot (Lit : Z) : option Z := assert! (0 <=? Lit)%Z in Some (Lit ^^^ 1)%Z.
Definition Abc_LitNotCond (Lit : Z) (c : bool) : option Z := assert! (0 <=? Lit)%Z in Some (Lit ^^^ Z.b2z c)%Z.
Definition Abc_LitRegular (Lit : Z) : option Z := assert! (0 <=? Lit)%Z in Some (Z.ldiff Lit 1).

(** ** Parts of literals *)

Definition lit_var (l : Z) : nat := Z.to_nat (Z.shiftr l 1).
Definition lit_bit (l : Z) : bool := Z.testbit l 0.

Lemma lit_lxor l c : (0 <= l)%Z -> lit_var (l ^^^ Z.b2z c) = lit_var l /\ lit_bit (l ^^^ Z.b2z c) = xorb c (lit_bit l) /\ (0 <= l ^^^ Z.b2z c)%Z.
Proof.
  intros Hl. unfold lit_var, lit_bit. rewrite Z.shiftr_lxor, Z.lxor_spec. split; [|split].
  - destruct c; cbn [Z.b2z]; rewrite ?Z.shiftr_0_l; change (Z.shiftr 1 1) with 0%Z; by rewrite Z.lxor_0_r.
  - by destruct c, (Z.testbit l 0).
  - apply Z.lxor_nonneg. destruct c; cbn; lia.
Qed.

Lemma lit_parts l : (0 <= l)%Z -> l = (2 * Z.of_nat (lit_var l) + Z.b2z (lit_bit l))%Z.
Proof.
  intros Hl. unfold lit_var, lit_bit. rewrite Z2Nat.id by by apply Z.shiftr_nonneg. rewrite Z.bit0_odd.
  exact (Z.div2_odd l).
Qed.

Lemma lit_eq l k : (0 <= l)%Z -> (0 <= k)%Z -> lit_var l = lit_var k -> lit_bit l = lit_bit k -> l = k.
Proof. intros Hl Hk Hv Hb. rewrite (lit_parts l), (lit_parts k) by done. by rewrite Hv, Hb. Qed.

Lemma Lit2Var_ok l : (0 <= l)%Z -> Abc_Lit2Var l = Some (Z.of_nat (lit_var l)).
Proof.
  intros Hl. unfold Abc_Lit2Var, lit_var. rewrite (proj2 (Z.leb_le 0 l)) by done.
  by rewrite Z2Nat.id by by apply Z.shiftr_nonneg.
Qed.

Lemma LitIsCompl_ok l : (0 <= l)%Z -> Abc_LitIsCompl l = Some (lit_bit l).
Proof.
  intros Hl. unfold Abc_LitIsCompl, lit_bit. rewrite (proj2 (Z.leb_le 0 l)) by done. f_equal.
  change 1%Z with (Z.ones 1) at 1. rewrite Z.land_ones, Z.bit0_odd, Zmod_odd by lia. change (2 ^ 1)%Z with 2%Z.
  by destruct (Z.odd l).
Qed.

Lemma lit_of_var v : (0 <= v)%Z -> lit_var (Z.shiftl v 1) = Z.to_nat v /\ lit_bit (Z.shiftl v 1) = false /\ (0 <= Z.shiftl v 1)%Z.
Proof.
  intros Hv. unfold lit_var, lit_bit. rewrite Z.shiftr_shiftl_l, Z.shiftl_spec_low, Z.shiftl_nonneg by lia. by rewrite Z.shiftl_0_r.
Qed.

Lemma lit_order l k : (0 <= l)%Z -> (0 <= k)%Z -> (l < k)%Z -> lit_var l <= lit_var k.
Proof. intros Hl Hk H. rewrite (lit_parts l), (lit_parts k) in H by done. destruct (lit_bit l), (lit_bit k); cbn in H; lia. Qed.

(** Literals of one variable are equal or complements. *)
Lemma same_var l k : (0 <= l)%Z -> (0 <= k)%Z -> lit_var l = lit_var k -> l = k \/ l = (k ^^^ 1)%Z.
Proof.
  intros Hl Hk Hv. destruct (lit_lxor k true Hk) as (E1 & E2 & E3). cbn [Z.b2z] in *.
  destruct (Bool.bool_dec (lit_bit l) (lit_bit k)) as [E|E]; [left; by apply lit_eq|right].
  apply lit_eq; [done..|congruence|]. rewrite E2. destruct (lit_bit l), (lit_bit k); done.
Qed.

Lemma LitNot_ok l : (0 <= l)%Z -> Abc_LitNot l = Some (l ^^^ 1)%Z.
Proof. intros H. unfold Abc_LitNot. by rewrite (proj2 (Z.leb_le 0 l)). Qed.

Lemma var_lit v (c : bool) : (0 <= v)%Z -> lit_var (v + v + Z.b2z c) = Z.to_nat v /\ lit_bit (v + v + Z.b2z c) = c.
Proof.
  intros Hv. assert (0 <= v + v + Z.b2z c)%Z as H0 by (destruct c; cbn; lia). pose proof (lit_parts _ H0) as Hp.
  destruct (lit_bit (v + v + Z.b2z c)), c; cbn [Z.b2z] in *; (split; [lia|]); try done; lia.
Qed.

Lemma Var2Lit_ok i : Abc_Var2Lit (Z.of_nat i) false = Some (Z.of_nat i + Z.of_nat i)%Z.
Proof. unfold Abc_Var2Lit. rewrite (proj2 (Z.leb_le 0 _)) by lia. cbn [Z.b2z]. by rewrite Z.add_0_r. Qed.

(** The gates made of and-gates, for each of the routines [And]. *)
Section gates.
Context {M : Type} (And : M -> Z -> Z -> option (Z * M)).
Definition or_gate (p : M) (iLit0 iLit1 : Z) : option (Z * M) :=
  n0 ← Abc_LitNot iLit0; n1 ← Abc_LitNot iLit1;
  '(r, p) ← And p n0 n1;
  r ← Abc_LitNot r; Some (r, p).
Definition mux_gate (p : M) (iCtrl iData1 iData0 : Z) : option (Z * M) :=
  n ← Abc_LitNot iCtrl;
  '(iTemp0, p) ← And p n iData0;
  '(iTemp1, p) ← And p iCtrl iData1;
  n0 ← Abc_LitNot iTemp0; n1 ← Abc_LitNot iTemp1;
  '(r, p) ← And p n0 n1;
  r ← Abc_LitNotCond r true; Some (r, p).
Definition maj_gate (p : M) (iData0 iData1 iData2 : Z) : option (Z * M) :=
  '(iTemp0, p) ← or_gate p iData1 iData2;
  '(iTemp1, p) ← And p iData0 iTemp0;
  '(iTemp2, p) ← And p iData1 iData2;
  or_gate p iTemp1 iTemp2.
Definition xor_gate (p : M) (iLit0 iLit1 : Z) : option (Z * M) :=
  n ← Abc_LitNot iLit1; mux_gate p iLit0 n iLit1.
End gates.


(** * The interface *)

(** The operations of a manager, for one of its and-routines. *)
Class AndOps (M : Type) := {
  am_const1 : M -> Z;
  am_and : M -> Z -> Z -> option (Z * M);
}.

(** What they promise.  [am_ok p] is the invariant, [am_lit p l] says that [l] is a literal of the
    graph, [am_value x p l] is its value when the inputs have the values [x], and [am_room p n] that
    the graph can take [n] more gates.  A gate keeps the literals and their values. *)
Class AndManager (M : Type) `{!AndOps M} := {
  am_ok : M -> Prop;
  am_lit : M -> Z -> Prop;
  am_value : (nat -> bool) -> M -> Z -> bool;
  am_room : M -> nat -> Prop;
  am_room_le p m n : m <= n -> am_room p n -> am_room p m;
  am_lit_nonneg p l : am_lit p l -> (0 <= l)%Z;
  am_not p l : am_lit p l -> am_lit p (l ^^^ 1)%Z /\ forall x, am_value x p (l ^^^ 1)%Z = negb (am_value x p l);
  am_const1_ok p : am_ok p -> am_lit p (am_const1 p) /\ forall x, am_value x p (am_const1 p) = true;
  am_and_ok p n l0 l1 : am_ok p -> am_room p (S n) -> am_lit p l0 -> am_lit p l1 ->
    exists l p', am_and p l0 l1 = Some (l, p') /\ am_ok p' /\ am_room p' n /\
      (am_lit p' l /\ forall x, am_value x p' l = am_value x p l0 && am_value x p l1) /\
      (forall k, am_lit p k -> am_lit p' k /\ forall x, am_value x p' k = am_value x p k);
}.

Section manager.
Context {M : Type} `{AndManager M}.
Implicit Types p q r : M.

(** The literals of [p] are literals of [q] with the same values. *)
Definition am_grows p q : Prop := forall k, am_lit p k -> am_lit q k /\ forall x, am_value x q k = am_value x p k.
(** The literal [l] of [q] has the value [f]. *)
Definition am_is q (l : Z) (f : (nat -> bool) -> bool) : Prop := am_lit q l /\ forall x, am_value x q l = f x.
(** A routine that adds at most [n] gates and returns a literal of the value [f]. *)
Definition am_builds p (n : nat) (f : (nat -> bool) -> bool) (o : option (Z * M)) : Prop :=
  forall m, am_room p (n + m) -> exists l q, o = Some (l, q) /\ am_ok q /\ am_room q m /\ am_is q l f /\ am_grows p q.

#[global] Instance am_grows_preorder : PreOrder am_grows.
Proof using.
  split; [by intros p k|]. intros p q r H1 H2 k Hk. destruct (H1 k Hk) as [L1 V1]. destruct (H2 k L1) as [L2 V2].
  split; [done|]. intros x. by rewrite V2.
Qed.

Lemma am_is_grows p q l f : am_grows p q -> am_is p l f -> am_is q l f.
Proof using. intros Hg [L V]. destruct (Hg l L) as [L' V']. split; [done|]. intros x. by rewrite V'. Qed.

Lemma am_is_ext q l f g : (forall x, f x = g x) -> am_is q l f -> am_is q l g.
Proof using. intros E [L V]. split; [done|]. intros x. by rewrite V. Qed.

Lemma am_is_not q l f : am_is q l f -> am_is q (l ^^^ 1)%Z (fun x => negb (f x)).
Proof using. intros [L V]. destruct (am_not q l L) as [L' V']. split; [done|]. intros x. by rewrite V', V. Qed.

Lemma am_LitNot q l f : am_is q l f -> Abc_LitNot l = Some (l ^^^ 1)%Z.
Proof using. intros [L%am_lit_nonneg _]. unfold Abc_LitNot. by rewrite (proj2 (Z.leb_le 0 l)). Qed.

Lemma am_LitNotCond q l f c : am_is q l f ->
  exists l', Abc_LitNotCond l c = Some l' /\ am_is q l' (fun x => xorb c (f x)).
Proof using.
  intros Hl. unfold Abc_LitNotCond. rewrite (proj2 (Z.leb_le 0 l)) by apply (am_lit_nonneg q l), Hl.
  eexists. split; [done|]. destruct c; cbn [Z.b2z].
  - apply (am_is_ext q _ (fun x => negb (f x))); [by intros x; destruct (f x)|]. by apply am_is_not.
  - rewrite Z.lxor_0_r. apply (am_is_ext q _ f); [by intros x; destruct (f x)|done].
Qed.

Lemma am_and_builds p l0 l1 f0 f1 : am_ok p -> am_is p l0 f0 -> am_is p l1 f1 ->
  am_builds p 1 (fun x => f0 x && f1 x) (am_and p l0 l1).
Proof using.
  intros Hok [L0 V0] [L1 V1] m Hr. destruct (am_and_ok p m l0 l1 Hok Hr L0 L1) as (l & q & E & Hq & Rq & [Ll Vl] & Hg).
  exists l, q. do 3 (split; [done|]). split; [|done]. split; [done|]. intros x. by rewrite Vl, V0, V1.
Qed.

Lemma or_gate_builds p l0 l1 f0 f1 : am_ok p -> am_is p l0 f0 -> am_is p l1 f1 ->
  am_builds p 1 (fun x => f0 x || f1 x) (or_gate am_and p l0 l1).
Proof using.
  intros Hok H0 H1 m Hr. unfold or_gate. rewrite (am_LitNot p l0 f0), (am_LitNot p l1 f1) by done. cbn [mbind option_bind].
  destruct (am_and_builds p _ _ _ _ Hok (am_is_not _ _ _ H0) (am_is_not _ _ _ H1) m Hr) as (l & q & -> & Hq & Rq & Hl & Hg).
  cbn [mbind option_bind]. rewrite (am_LitNot q l _ Hl). cbn [mbind option_bind]. eexists _, q. split; [done|]. do 2 (split; [done|]). split; [|done].
  apply am_is_not in Hl. eapply am_is_ext; [|exact Hl]. intros x. cbn. by destruct (f0 x), (f1 x).
Qed.

(** One more gate after a routine. *)
Lemma am_then p q m l f n g o : am_ok q -> am_room q (n + m) -> am_grows p q -> am_builds q n g o ->
  am_is q l f -> exists l' r, o = Some (l', r) /\ am_ok r /\ am_room r m /\ am_is r l' g /\ am_is r l f /\ am_grows p r.
Proof using.
  intros Hq Hr Hg Hb Hl. destruct (Hb m Hr) as (l' & r & E & Hr' & Rr & Hl' & Hg').
  exists l', r. do 4 (split; [done|]). split; [by apply (am_is_grows q)|]. by etransitivity.
Qed.

Lemma mux_gate_builds p lc l1 l0 fc f1 f0 : am_ok p -> am_is p lc fc -> am_is p l1 f1 -> am_is p l0 f0 ->
  am_builds p 3 (fun x => if fc x then f1 x else f0 x) (mux_gate am_and p lc l1 l0).
Proof using.
  intros Hok Hc H1 H0 m Hr. unfold mux_gate. rewrite (am_LitNot p lc fc) by done. cbn [mbind option_bind].
  destruct (am_and_builds p _ _ _ _ Hok (am_is_not _ _ _ Hc) H0 (2 + m) Hr) as (t0 & q & -> & Hq & Rq & T0 & Gq). cbn [mbind option_bind].
  destruct (am_then p q (1 + m) t0 _ 1 _ _ Hq Rq Gq
    (am_and_builds q _ _ _ _ Hq (am_is_grows _ _ _ _ Gq Hc) (am_is_grows _ _ _ _ Gq H1)) T0) as (t1 & r & -> & Hr' & Rr & T1 & T0' & Gr).
  cbn [mbind option_bind]. rewrite (am_LitNot r t0 _ T0'), (am_LitNot r t1 _ T1). cbn [mbind option_bind].
  destruct (am_and_builds r _ _ _ _ Hr' (am_is_not _ _ _ T0') (am_is_not _ _ _ T1) m Rr) as (t & s & -> & Hs & Rs & T & Gs).
  cbn [mbind option_bind]. destruct (am_LitNotCond s t _ true T) as (l & -> & Hl). cbn [mbind option_bind]. exists l, s. split; [done|]. do 2 (split; [done|]).
  split; [|by etransitivity]. eapply am_is_ext; [|exact Hl]. intros x. cbn. by destruct (fc x), (f1 x), (f0 x).
Qed.

Lemma xor_gate_builds p l0 l1 f0 f1 : am_ok p -> am_is p l0 f0 -> am_is p l1 f1 ->
  am_builds p 3 (fun x => xorb (f0 x) (f1 x)) (xor_gate am_and p l0 l1).
Proof using.
  intros Hok H0 H1 m Hr. unfold xor_gate. rewrite (am_LitNot p l1 f1) by done. cbn [mbind option_bind].
  destruct (mux_gate_builds p _ _ _ _ _ _ Hok H0 (am_is_not _ _ _ H1) H1 m Hr) as (l & q & E & Hq & Rq & Hl & Hg).
  exists l, q. do 3 (split; [done|]). split; [|done]. eapply am_is_ext; [|exact Hl]. intros x. cbn. by destruct (f0 x), (f1 x).
Qed.

Lemma maj_gate_builds p l0 l1 l2 f0 f1 f2 : am_ok p -> am_is p l0 f0 -> am_is p l1 f1 -> am_is p l2 f2 ->
  am_builds p 4 (fun x => f0 x && (f1 x || f2 x) || f1 x && f2 x) (maj_gate am_and p l0 l1 l2).
Proof using.
  intros Hok H0 H1 H2 m Hr. unfold maj_gate.
  destruct (or_gate_builds p _ _ _ _ Hok H1 H2 (3 + m) Hr) as (t0 & q & -> & Hq & Rq & T0 & Gq). cbn [mbind option_bind].
  destruct (am_and_builds q _ _ _ _ Hq (am_is_grows _ _ _ _ Gq H0) T0 (2 + m) Rq) as (t1 & r & -> & Hr' & Rr & T1 & Gr). cbn [mbind option_bind].
  assert (am_grows p r) as Gpr by by etransitivity.
  destruct (am_then p r (1 + m) t1 _ 1 _ _ Hr' Rr Gpr
    (am_and_builds r _ _ _ _ Hr' (am_is_grows _ _ _ _ Gpr H1) (am_is_grows _ _ _ _ Gpr H2)) T1) as (t2 & s & -> & Hs & Rs & T2 & T1' & Gs).
  cbn [mbind option_bind].
  destruct (or_gate_builds s _ _ _ _ Hs T1' T2 m Rs) as (l & t & E & Ht & Rt & Hl & Gt).
  exists l, t. do 3 (split; [done|]). split; [done|]. by etransitivity.
Qed.
End manager.
