(* ===== verification/Gia.v ===== *)
(** The and-inverter graphs of the scalable package ([gia.h], [giaMan.c]): objects, the manager
    that grows them, and the value of a literal.

    The manager of this model
    keeps the fields that the construction of a graph reads: it has no fanout data, no sweeper,
    no simulation, no supports and no multiplexer nodes ([pFanData], [fSweeper], [fBuiltInSim],
    [vSuppWords] and [pMuxes] are null), so the code that only maintains them is left out.
    Numbers of objects and literals are C [int]s; the limit of [2 ^ 29] objects keeps them far
    from an overflow. *)
From S2P Require Import Prelude VecInt VecArray AndMan.

(** * Objects and the manager *)

Definition GIA_NONE : Z := 0x1FFFFFFF.
(** A field of 29 bits. *)
Definition diff29 (d : Z) : Z := (d &&& 0x1FFFFFFF)%Z.

Record Gia_Obj_t := { iDiff0 : Z; fCompl0 : bool; fTerm : bool; iDiff1 : Z; fCompl1 : bool }.
Definition zero_obj : Gia_Obj_t := {| iDiff0 := 0; fCompl0 := false; fTerm := false; iDiff1 := 0; fCompl1 := false |}.

(** [nObjs] is the length of [pObjs]; the objects that are allocated and not used are zero. *)
Record Gia_Man_t := {
  nObjsAlloc : Z; pObjs : list Gia_Obj_t;
  nXors : Z; nBufs : Z; nRegs : Z;
  vCis : Vec_Int_t; vCos : Vec_Int_t;
  vHash : Vec_Int_t; vHTable : Vec_Int_t;
  fGiaSimple : bool;
  nHashHit : Z; nHashMiss : Z;
}.
Definition nObjs (p : Gia_Man_t) : Z := Z.of_nat (length (pObjs p)).

Definition set_alloc (p : Gia_Man_t) (n : Z) : Gia_Man_t :=
  {| nObjsAlloc := n; pObjs := pObjs p; nXors := nXors p; nBufs := nBufs p; nRegs := nRegs p; vCis := vCis p; vCos := vCos p;
     vHash := vHash p; vHTable := vHTable p; fGiaSimple := fGiaSimple p; nHashHit := nHashHit p; nHashMiss := nHashMiss p |}.
Definition set_objs (p : Gia_Man_t) (os : list Gia_Obj_t) : Gia_Man_t :=
  {| nObjsAlloc := nObjsAlloc p; pObjs := os; nXors := nXors p; nBufs := nBufs p; nRegs := nRegs p; vCis := vCis p; vCos := vCos p;
     vHash := vHash p; vHTable := vHTable p; fGiaSimple := fGiaSimple p; nHashHit := nHashHit p; nHashMiss := nHashMiss p |}.
Definition set_counts (p : Gia_Man_t) (x b : Z) : Gia_Man_t :=
  {| nObjsAlloc := nObjsAlloc p; pObjs := pObjs p; nXors := x; nBufs := b; nRegs := nRegs p; vCis := vCis p; vCos := vCos p;
     vHash := vHash p; vHTable := vHTable p; fGiaSimple := fGiaSimple p; nHashHit := nHashHit p; nHashMiss := nHashMiss p |}.
Definition set_terms (p : Gia_Man_t) (cis cos : Vec_Int_t) : Gia_Man_t :=
  {| nObjsAlloc := nObjsAlloc p; pObjs := pObjs p; nXors := nXors p; nBufs := nBufs p; nRegs := nRegs p; vCis := cis; vCos := cos;
     vHash := vHash p; vHTable := vHTable p; fGiaSimple := fGiaSimple p; nHashHit := nHashHit p; nHashMiss := nHashMiss p |}.
Definition set_hash (p : Gia_Man_t) (h t : Vec_Int_t) : Gia_Man_t :=
  {| nObjsAlloc := nObjsAlloc p; pObjs := pObjs p; nXors := nXors p; nBufs := nBufs p; nRegs := nRegs p; vCis := vCis p; vCos := vCos p;
     vHash := h; vHTable := t; fGiaSimple := fGiaSimple p; nHashHit := nHashHit p; nHashMiss := nHashMiss p |}.
Definition count_hash (p : Gia_Man_t) (hit miss : Z) : Gia_Man_t :=
  {| nObjsAlloc := nObjsAlloc p; pObjs := pObjs p; nXors := nXors p; nBufs := nBufs p; nRegs := nRegs p; vCis := vCis p; vCos := vCos p;
     vHash := vHash p; vHTable := vHTable p; fGiaSimple := fGiaSimple p; nHashHit := nHashHit p + hit; nHashMiss := nHashMiss p + miss |}%Z.

Definition Gia_ManCiNum (p : Gia_Man_t) : Z := VecInt.nSize (vCis p).
Definition Gia_ManCoNum (p : Gia_Man_t) : Z := VecInt.nSize (vCos p).
Definition Gia_ManObjNum (p : Gia_Man_t) : Z := nObjs p.
Definition Gia_ManAndNum (p : Gia_Man_t) : Z := (nObjs p - VecInt.nSize (vCis p) - VecInt.nSize (vCos p) - 1)%Z.
Definition Gia_ManPiNum (p : Gia_Man_t) : Z := (VecInt.nSize (vCis p) - nRegs p)%Z.
Definition Gia_ManXorNum (p : Gia_Man_t) : Z := nXors p.
Definition Gia_ManBufNum (p : Gia_Man_t) : Z := nBufs p.

Definition Gia_ManObj (p : Gia_Man_t) (v : Z) : option Gia_Obj_t :=
  assert! (0 <=? v)%Z && (v <? nObjs p)%Z in pObjs p !! Z.to_nat v.

Definition Gia_ObjIsTerm (pObj : Gia_Obj_t) : bool := fTerm pObj.
Definition Gia_ObjIsCi (pObj : Gia_Obj_t) : bool := fTerm pObj && (iDiff0 pObj =? GIA_NONE)%Z.
Definition Gia_ObjIsCo (pObj : Gia_Obj_t) : bool := fTerm pObj && negb (iDiff0 pObj =? GIA_NONE)%Z.
Definition Gia_ObjIsAnd (pObj : Gia_Obj_t) : bool := negb (fTerm pObj) && negb (iDiff0 pObj =? GIA_NONE)%Z.
Definition Gia_ObjIsXor (pObj : Gia_Obj_t) : bool := Gia_ObjIsAnd pObj && (iDiff0 pObj <? iDiff1 pObj)%Z.
Definition Gia_ObjIsBuf (pObj : Gia_Obj_t) : bool :=
  (iDiff0 pObj =? iDiff1 pObj)%Z && negb (iDiff0 pObj =? GIA_NONE)%Z && negb (fTerm pObj).
Definition Gia_ObjIsConst0 (pObj : Gia_Obj_t) : bool := (iDiff0 pObj =? GIA_NONE)%Z && (iDiff1 pObj =? GIA_NONE)%Z.

Definition Gia_ObjFaninId0 (pObj : Gia_Obj_t) (ObjId : Z) : Z := (ObjId - iDiff0 pObj)%Z.
Definition Gia_ObjFaninId1 (pObj : Gia_Obj_t) (ObjId : Z) : Z := (ObjId - iDiff1 pObj)%Z.
Definition Gia_ObjFaninLit0 (pObj : Gia_Obj_t) (ObjId : Z) : option Z := Abc_Var2Lit (Gia_ObjFaninId0 pObj ObjId) (fCompl0 pObj).
Definition Gia_ObjFaninLit1 (pObj : Gia_Obj_t) (ObjId : Z) : option Z := Abc_Var2Lit (Gia_ObjFaninId1 pObj ObjId) (fCompl1 pObj).

(** * Construction *)

Definition Gia_ManStart (nObjsMax : Z) : option Gia_Man_t :=
  assert! (0 <? nObjsMax)%Z in
  Some {| nObjsAlloc := nObjsMax;
          pObjs := [{| iDiff0 := GIA_NONE; fCompl0 := false; fTerm := false; iDiff1 := GIA_NONE; fCompl1 := false |}];
          nXors := 0; nBufs := 0; nRegs := 0; vCis := Vec_IntAlloc (nObjsMax / 20); vCos := Vec_IntAlloc (nObjsMax / 20);
          vHash := {| nCap := 0; nSize := 0; pArray := [] |}; vHTable := {| nCap := 0; nSize := 0; pArray := [] |};
          fGiaSimple := false; nHashHit := 0; nHashMiss := 0 |}.

(** The end of the program at the hard limit is [None]. *)
Definition extend_objs (p : Gia_Man_t) : option Gia_Man_t :=
  if (nObjs p =? nObjsAlloc p)%Z then
    let nObjNew := Z.min (2 * nObjsAlloc p) (2 ^ 29) in
    assert! negb (nObjs p =? 2 ^ 29)%Z in
    assert! (nObjs p <? nObjNew)%Z in
    assert! (0 <? nObjsAlloc p)%Z in
    Some (set_alloc p nObjNew)
  else Some p.

Definition Gia_ManAppendObj (p : Gia_Man_t) : option (Z * Gia_Man_t) :=
  p ← extend_objs p;
  let p := if negb (VecInt.nSize (vHTable p) =? 0)%Z then set_hash p (Vec_IntPush (vHash p) 0) (vHTable p) else p in
  Some (nObjs p, set_objs p (pObjs p ++ [zero_obj])).

Definition set_obj (p : Gia_Man_t) (v : Z) (o : Gia_Obj_t) : Gia_Man_t := set_objs p (<[Z.to_nat v := o]> (pObjs p)).

Definition Gia_ManAppendCi (p : Gia_Man_t) : option (Z * Gia_Man_t) :=
  '(pObj, p) ← Gia_ManAppendObj p;
  let p := set_obj p pObj {| iDiff0 := GIA_NONE; fCompl0 := false; fTerm := true; iDiff1 := diff29 (VecInt.nSize (vCis p)); fCompl1 := false |} in
  let p := set_terms p (Vec_IntPush (vCis p) pObj) (vCos p) in
  Some (Z.shiftl pObj 1, p).

(** The object of a gate with these fanins. *)
Definition gate_obj (pObj iLit0 iLit1 : Z) : option Gia_Obj_t :=
  v0 ← Abc_Lit2Var iLit0; c0 ← Abc_LitIsCompl iLit0;
  v1 ← Abc_Lit2Var iLit1; c1 ← Abc_LitIsCompl iLit1;
  Some {| iDiff0 := diff29 (pObj - v0); fCompl0 := c0; fTerm := false; iDiff1 := diff29 (pObj - v1); fCompl1 := c1 |}%Z.

Definition Gia_ManAppendAnd (p : Gia_Man_t) (iLit0 iLit1 : Z) : option (Z * Gia_Man_t) :=
  '(pObj, p) ← Gia_ManAppendObj p;
  v0 ← Abc_Lit2Var iLit0; assert! (v0 <? Gia_ManObjNum p)%Z in
  v1 ← Abc_Lit2Var iLit1; assert! (v1 <? Gia_ManObjNum p)%Z in
  assert! fGiaSimple p || negb (v0 =? v1)%Z in
  o ← (if (iLit0 <? iLit1)%Z then gate_obj pObj iLit0 iLit1 else gate_obj pObj iLit1 iLit0);
  Some (Z.shiftl pObj 1, set_obj p pObj o).

Definition Gia_ManAppendXorReal (p : Gia_Man_t) (iLit0 iLit1 : Z) : option (Z * Gia_Man_t) :=
  '(pObj, p) ← Gia_ManAppendObj p;
  v0 ← Abc_Lit2Var iLit0; assert! (v0 <? Gia_ManObjNum p)%Z in
  v1 ← Abc_Lit2Var iLit1; assert! (v1 <? Gia_ManObjNum p)%Z in
  assert! negb (v0 =? v1)%Z in
  o ← (if (v1 <? v0)%Z then gate_obj pObj iLit0 iLit1 else gate_obj pObj iLit1 iLit0);
  let p := set_obj p pObj o in
  Some (Z.shiftl pObj 1, set_counts p (nXors p + 1) (nBufs p))%Z.

Definition Gia_ManAppendBuf (p : Gia_Man_t) (iLit : Z) : option (Z * Gia_Man_t) :=
  '(pObj, p) ← Gia_ManAppendObj p;
  v ← Abc_Lit2Var iLit; assert! (v <? Gia_ManObjNum p)%Z in
  o ← gate_obj pObj iLit iLit;
  let p := set_obj p pObj o in
  Some (Z.shiftl pObj 1, set_counts p (nXors p) (nBufs p + 1))%Z.

Definition Gia_ManAppendCo (p : Gia_Man_t) (iLit0 : Z) : option (Z * Gia_Man_t) :=
  v ← Abc_Lit2Var iLit0; assert! (v <? Gia_ManObjNum p)%Z in
  o ← Gia_ManObj p v; assert! negb (Gia_ObjIsCo o) in
  '(pObj, p) ← Gia_ManAppendObj p;
  c ← Abc_LitIsCompl iLit0;
  let p := set_obj p pObj {| iDiff0 := diff29 (pObj - v); fCompl0 := c; fTerm := true;
                             iDiff1 := diff29 (VecInt.nSize (vCos p)); fCompl1 := false |} in
  let p := set_terms p (vCis p) (Vec_IntPush (vCos p) pObj) in
  Some (Z.shiftl pObj 1, p).

Definition Gia_ManAppendOr := or_gate Gia_ManAppendAnd.
Definition Gia_ManAppendMux := mux_gate Gia_ManAppendAnd.
Definition Gia_ManAppendMaj := maj_gate Gia_ManAppendAnd.
Definition Gia_ManAppendXor := xor_gate Gia_ManAppendAnd.

(** The simplifications of an and-gate and of an exclusive-or gate: the literal, or nothing. *)
Definition and_simple (iLit0 iLit1 : Z) : option (option Z) :=
  if (iLit0 <? 2)%Z then Some (Some (if negb (iLit0 =? 0)%Z then iLit1 else 0%Z))
  else if (iLit1 <? 2)%Z then Some (Some (if negb (iLit1 =? 0)%Z then iLit0 else 0%Z))
  else if (iLit0 =? iLit1)%Z then Some (Some iLit1)
  else n ← Abc_LitNot iLit1; if (iLit0 =? n)%Z then Some (Some 0%Z) else Some None.

Definition Gia_ManAppendAnd2 (p : Gia_Man_t) (iLit0 iLit1 : Z) : option (Z * Gia_Man_t) :=
  r ← (if negb (fGiaSimple p) then and_simple iLit0 iLit1 else Some None);
  match r with
  | Some r => Some (r, p)
  | None => Gia_ManAppendAnd p iLit0 iLit1
  end.
Definition Gia_ManAppendOr2 := or_gate Gia_ManAppendAnd2.
Definition Gia_ManAppendMux2 := mux_gate Gia_ManAppendAnd2.
Definition Gia_ManAppendMaj2 := maj_gate Gia_ManAppendAnd2.
Definition Gia_ManAppendXor2 := xor_gate Gia_ManAppendAnd2.

Definition xor_simple (iLit0 iLit1 : Z) : option (option Z) :=
  if (iLit0 <? 2)%Z then (if negb (iLit0 =? 0)%Z then n ← Abc_LitNot iLit1; Some (Some n) else Some (Some iLit1))
  else if (iLit1 <? 2)%Z then (if negb (iLit1 =? 0)%Z then n ← Abc_LitNot iLit0; Some (Some n) else Some (Some iLit0))
  else if (iLit0 =? iLit1)%Z then Some (Some 0%Z)
  else n ← Abc_LitNot iLit1; if (iLit0 =? n)%Z then Some (Some 1%Z) else Some None.

Definition Gia_ManAppendXorReal2 (p : Gia_Man_t) (iLit0 iLit1 : Z) : option (Z * Gia_Man_t) :=
  r ← (if negb (fGiaSimple p) then xor_simple iLit0 iLit1 else Some None);
  match r with
  | Some r => Some (r, p)
  | None => Gia_ManAppendXorReal p iLit0 iLit1
  end.

(** * The value of a graph *)

Definition const_obj : Gia_Obj_t := {| iDiff0 := GIA_NONE; fCompl0 := false; fTerm := false; iDiff1 := GIA_NONE; fCompl1 := false |}.

(** The value of the next object, after the values of the objects before it, when the inputs have the values [x]. *)
Definition obj_value (x : nat -> bool) (vals : list bool) (o : Gia_Obj_t) : bool :=
  let fanin d := nth (Z.to_nat (Z.of_nat (length vals) - d)) vals false in
  if Gia_ObjIsCi o then x (Z.to_nat (iDiff1 o))
  else if Gia_ObjIsCo o then xorb (fCompl0 o) (fanin (iDiff0 o))
  else if (iDiff0 o =? GIA_NONE)%Z then false
  else if Gia_ObjIsXor o then xorb (xorb (fCompl0 o) (fanin (iDiff0 o))) (xorb (fCompl1 o) (fanin (iDiff1 o)))
  else xorb (fCompl0 o) (fanin (iDiff0 o)) && xorb (fCompl1 o) (fanin (iDiff1 o)).

Definition values (x : nat -> bool) (os : list Gia_Obj_t) : list bool :=
  fold_left (fun vals o => vals ++ [obj_value x vals o]) os [].

Definition gia_value (x : nat -> bool) (p : Gia_Man_t) (l : Z) : bool :=
  xorb (lit_bit l) (nth (lit_var l) (values x (pObjs p)) false).

(** A literal of the graph. *)
Definition gia_lit (p : Gia_Man_t) (l : Z) : Prop := (0 <= l < 2 * nObjs p)%Z.

Lemma values_snoc x os o : values x (os ++ [o]) = values x os ++ [obj_value x (values x os) o].
Proof. unfold values. by rewrite fold_left_app. Qed.

Lemma length_values x os : length (values x os) = length os.
Proof.
  induction os as [|o os IH] using rev_ind; [done|]. rewrite values_snoc, !length_app, IH. done.
Qed.

Lemma values_prefix x os os' : exists vs, values x (os ++ os') = values x os ++ vs.
Proof.
  induction os' as [|o os' [vs IH]] using rev_ind; [exists []; by rewrite !app_nil_r|].
  rewrite app_assoc, values_snoc, IH. eexists. by rewrite <- app_assoc.
Qed.

Lemma lit_var_lt p l : gia_lit p l -> lit_var l < length (pObjs p).
Proof.
  unfold gia_lit, lit_var, nObjs. rewrite Z.shiftr_div_pow2 by lia. change (2 ^ 1)%Z with 2%Z. intros H.
  assert (l / 2 < Z.of_nat (length (pObjs p)))%Z by (apply Z.div_lt_upper_bound; lia). pose proof (Z.div_pos l 2). lia.
Qed.

(** Objects added at the end change no value. *)
Definition gia_grows (p q : Gia_Man_t) : Prop := exists os, pObjs q = pObjs p ++ os.

Lemma gia_grows_ok p q l : gia_grows p q -> gia_lit p l -> gia_lit q l /\ forall x, gia_value x q l = gia_value x p l.
Proof.
  intros [os E] Hl. pose proof (lit_var_lt p l Hl) as Hv. split.
  - unfold gia_lit, nObjs in *. rewrite E, length_app. lia.
  - intros x. unfold gia_value. rewrite E. destruct (values_prefix x (pObjs p) os) as [vs ->].
    rewrite app_nth1; [done|]. by rewrite length_values.
Qed.

(** * The invariant of the manager *)

(** The numbers of the objects of one kind, in order. *)
Fixpoint places (f : Gia_Obj_t -> bool) (i : nat) (os : list Gia_Obj_t) : list Z :=
  match os with
  | [] => []
  | o :: os => if f o then Z.of_nat i :: places f (S i) os else places f (S i) os
  end.

Lemma places_snoc f i os o : places f i (os ++ [o]) = places f i os ++ (if f o then [Z.of_nat (i + length os)] else []).
Proof.
  revert i. induction os as [|a os IH]; intros i; cbn [places app length].
  - rewrite Nat.add_0_r. by destruct (f o).
  - rewrite IH. replace (S i + length os) with (i + S (length os)) by lia. by destruct (f a).
Qed.

Lemma places_length f i os : length (places f i os) <= length os.
Proof. revert i. induction os as [|a os IH]; intros i; cbn [places length]; [lia|]. specialize (IH (S i)). destruct (f a); cbn; lia. Qed.

(** The fanins of an object come before it. *)
Definition obj_ok (i : nat) (o : Gia_Obj_t) : Prop :=
  Gia_ObjIsCi o = true \/
  (iDiff0 o <> GIA_NONE /\ (1 <= iDiff0 o <= Z.of_nat i)%Z /\ (Gia_ObjIsCo o = false -> (1 <= iDiff1 o <= Z.of_nat i)%Z)).

Record gia_ok (p : Gia_Man_t) : Prop := {
  ok_const : pObjs p !! 0 = Some const_obj;
  ok_obj i o : pObjs p !! i = Some o -> 0 < i -> obj_ok i o;
  ok_alloc : (nObjs p <= nObjsAlloc p <= 2 ^ 29)%Z;
  ok_cis : vec (vCis p) (places Gia_ObjIsCi 0 (pObjs p));
  ok_cos : vec (vCos p) (places Gia_ObjIsCo 0 (pObjs p));
  ok_ci k i o : places Gia_ObjIsCi 0 (pObjs p) !! k = Some (Z.of_nat i) -> pObjs p !! i = Some o -> iDiff1 o = Z.of_nat k;
  ok_hash : exists hs, vec (vHash p) hs /\ (VecInt.nSize (vHTable p) <> 0%Z -> length hs = length (pObjs p));
}.

(** [q] is [p] with one more object, before the lists of terminals are updated. *)
Record appended (p q : Gia_Man_t) (o : Gia_Obj_t) : Prop := {
  app_objs : pObjs q = pObjs p ++ [o];
  app_alloc : (nObjs q <= nObjsAlloc q <= 2 ^ 29)%Z;
  app_table : vHTable q = vHTable p;
  app_simple : fGiaSimple q = fGiaSimple p;
  app_hash hs : vec (vHash p) hs -> (VecInt.nSize (vHTable p) <> 0%Z -> length hs = length (pObjs p)) ->
    vec (vHash q) (if (VecInt.nSize (vHTable p) =? 0)%Z then hs else hs ++ [0%Z]);
}.

Lemma AppendObj_spec p : gia_ok p -> (nObjs p < 2 ^ 29)%Z ->
  exists q, Gia_ManAppendObj p = Some (nObjs p, q) /\ vCis q = vCis p /\ vCos q = vCos p /\
    nObjs q = (nObjs p + 1)%Z /\ forall o, appended p (set_obj q (nObjs p) o) o.
Proof.
  intros Hok Hn. pose proof (ok_alloc p Hok) as Ha. unfold Gia_ManAppendObj.
  assert (exists n, extend_objs p = Some (set_alloc p n) /\ (nObjs p < n <= 2 ^ 29)%Z) as (n & -> & Hnn).
  { assert (0 < nObjs p)%Z as H0.
    { pose proof (ok_const p Hok) as Hc. apply lookup_lt_Some in Hc. unfold nObjs. lia. }
    unfold extend_objs. destruct (Z.eqb_spec (nObjs p) (nObjsAlloc p)) as [E|E].
    - cbv zeta. rewrite (proj2 (Z.eqb_neq _ _)), (proj2 (Z.ltb_lt (nObjs p) _)), (proj2 (Z.ltb_lt 0 _)) by lia.
      eexists. split; [done|]. lia.
    - exists (nObjsAlloc p). split; [by destruct p|]. lia. }
  cbn [mbind option_bind]. cbv zeta.
  match goal with |- context [nObjs ?e] => match e with context [negb] => set (p2 := e) end end.
  assert (pObjs p2 = pObjs p /\ nObjsAlloc p2 = n /\ vCis p2 = vCis p /\ vCos p2 = vCos p /\ vHTable p2 = vHTable p /\ fGiaSimple p2 = fGiaSimple p)
    as (E1 & E2 & E3 & E4 & E5 & E6) by (unfold p2; by destruct (negb _)).
  exists (set_objs p2 (pObjs p2 ++ [zero_obj])). split; [unfold nObjs; by rewrite E1|]. split; [done|]. split; [done|].
  assert (nObjs (set_objs p2 (pObjs p2 ++ [zero_obj])) = nObjs p + 1)%Z as El.
  { unfold nObjs. cbn [set_objs pObjs]. rewrite length_app, E1. cbn. lia. }
  split; [done|]. intros o. constructor; unfold set_obj; cbn [set_objs pObjs nObjsAlloc vHTable fGiaSimple vHash]; [| |done|done|].
  - rewrite E1. unfold nObjs. rewrite Nat2Z.id. rewrite <- (Nat.add_0_r (length (pObjs p))). by rewrite insert_app_r.
  - unfold nObjs in *. cbn [set_objs pObjs] in *. rewrite length_insert, E2. lia.
  - intros hs Hv Hl. unfold p2. destruct (Z.eqb_spec (VecInt.nSize (vHTable p)) 0) as [E|E]; cbn [negb set_alloc vHTable].
    + rewrite E. done.
    + rewrite (proj2 (Z.eqb_neq _ _)) by done. cbn [set_hash vHash set_alloc].
      apply Push_vec; [done|]. rewrite (Hl E). unfold nObjs, ABC_INT_MAX in *. lia.
Qed.

Lemma places_lt f i os k z : places f i os !! k = Some z -> (z < Z.of_nat (i + length os))%Z.
Proof.
  revert i k. induction os as [|o os IH]; intros i k; [done|]. cbn [places length]. destruct (f o); [destruct k as [|k]|].
  - intros [= <-]. lia.
  - intros H. apply (IH (S i) k) in H. lia.
  - intros H. apply (IH (S i) k) in H. lia.
Qed.

Lemma appended_grows p q o : appended p q o -> gia_grows p q.
Proof. intros H. exists [o]. by apply app_objs. Qed.

Lemma appended_nObjs p q o : appended p q o -> nObjs q = (nObjs p + 1)%Z.
Proof. intros H. unfold nObjs. rewrite (app_objs _ _ _ H), length_app. cbn. lia. Qed.

(** Adding an object keeps the invariant when the lists of terminals follow. *)
Lemma appended_ok p q o : gia_ok p -> appended p q o -> obj_ok (length (pObjs p)) o ->
  vec (vCis q) (places Gia_ObjIsCi 0 (pObjs q)) -> vec (vCos q) (places Gia_ObjIsCo 0 (pObjs q)) ->
  (Gia_ObjIsCi o = true -> iDiff1 o = VecInt.nSize (vCis p)) -> gia_ok q.
Proof.
  intros Hok Ha Ho Hci Hco Hd. pose proof (app_objs _ _ _ Ha) as E. constructor; [| | | | | |].
  - rewrite E. by apply lookup_app_l_Some, ok_const.
  - intros i o' Hi H0. rewrite E in Hi. apply lookup_app_Some in Hi as [Hi|[Hi Hi']]; [by apply (ok_obj p)|].
    destruct (i - length (pObjs p)) as [|k] eqn:Ek; [|done]. injection Hi' as <-. by replace i with (length (pObjs p)) by lia.
  - apply (app_alloc _ _ _ Ha).
  - done.
  - done.
  - intros k i o' Hk Hi. rewrite E in Hk, Hi. rewrite places_snoc in Hk.
    apply lookup_app_Some in Hk as [Hk|[Hk1 Hk]].
    + pose proof (places_lt _ _ _ _ _ Hk) as Hlt. rewrite lookup_app_l in Hi by lia. by apply (ok_ci p Hok k i).
    + destruct (Gia_ObjIsCi o) eqn:Eo; [|done]. destruct (k - _) as [|j] eqn:Ek; [|by destruct j].
      injection Hk as Hk. assert (i = length (pObjs p)) as -> by lia. rewrite lookup_app_r, Nat.sub_diag in Hi by done. injection Hi as <-.
      rewrite Hd by done. rewrite (vec_size _ _ (ok_cis p Hok)). lia.
  - destruct (ok_hash p Hok) as (hs & Hv & Hl). eexists. split; [by apply (app_hash _ _ _ Ha)|].
    rewrite (app_table _ _ _ Ha). intros Hne. rewrite (proj2 (Z.eqb_neq _ _)) by done. rewrite E, !length_app, Hl by done. done.
Qed.

Lemma diff29_id d : (0 <= d < 2 ^ 29)%Z -> diff29 d = d.
Proof.
  intros H. unfold diff29. change 0x1FFFFFFF%Z with (Z.ones 29). rewrite Z.land_ones by lia. by apply Z.mod_small.
Qed.

Definition gate (id : nat) (l0 l1 : Z) : Gia_Obj_t :=
  {| iDiff0 := Z.of_nat id - Z.of_nat (lit_var l0); fCompl0 := lit_bit l0; fTerm := false;
     iDiff1 := Z.of_nat id - Z.of_nat (lit_var l1); fCompl1 := lit_bit l1 |}%Z.

Lemma gate_obj_spec id l0 l1 : (Z.of_nat id < 2 ^ 29)%Z -> (0 <= l0)%Z -> (0 <= l1)%Z -> lit_var l0 < id -> lit_var l1 < id ->
  gate_obj (Z.of_nat id) l0 l1 = Some (gate id l0 l1).
Proof.
  intros Hid H0 H1 V0 V1. unfold gate_obj. rewrite !Lit2Var_ok, !LitIsCompl_ok by done. cbn [mbind option_bind].
  unfold gate. rewrite !diff29_id by lia. done.
Qed.

Lemma gate_fanins id l0 l1 : (0 <= l0)%Z -> (0 <= l1)%Z ->
  Gia_ObjFaninLit0 (gate id l0 l1) (Z.of_nat id) = Some l0 /\ Gia_ObjFaninLit1 (gate id l0 l1) (Z.of_nat id) = Some l1.
Proof.
  intros H0 H1. unfold Gia_ObjFaninLit0, Gia_ObjFaninLit1, Gia_ObjFaninId0, Gia_ObjFaninId1, Abc_Var2Lit, gate. cbn [iDiff0 iDiff1 fCompl0 fCompl1].
  rewrite !(proj2 (Z.leb_le 0 _)) by lia. pose proof (lit_parts l0 H0). pose proof (lit_parts l1 H1). split; f_equal; lia.
Qed.

Lemma gate_ok id l0 l1 : (Z.of_nat id < 2 ^ 29 - 1)%Z -> lit_var l0 < id -> lit_var l1 < id ->
  obj_ok id (gate id l0 l1) /\ Gia_ObjIsCi (gate id l0 l1) = false /\ Gia_ObjIsCo (gate id l0 l1) = false /\ Gia_ObjIsAnd (gate id l0 l1) = true.
Proof.
  intros Hid V0 V1. assert (iDiff0 (gate id l0 l1) <> GIA_NONE) as Hn by (cbn; unfold GIA_NONE; lia). split; [|split; [done|split; [done|]]].
  - right. split; [done|]. cbn [iDiff0 iDiff1 gate]. split; [lia|]. intros _. lia.
  - unfold Gia_ObjIsAnd. cbn [fTerm gate negb andb]. by rewrite (proj2 (Z.eqb_neq _ _)).
Qed.

(** The value of a gate: a conjunction when its first fanin is not after the second, and an exclusive or otherwise. *)
Lemma gate_value x p l0 l1 : (nObjs p < 2 ^ 29 - 1)%Z -> gia_lit p l0 -> gia_lit p l1 ->
  let id := length (pObjs p) in
  obj_value x (values x (pObjs p)) (gate id l0 l1) =
    if lit_var l1 <? lit_var l0 then xorb (gia_value x p l0) (gia_value x p l1) else gia_value x p l0 && gia_value x p l1.
Proof.
  intros Hn H0%lit_var_lt H1%lit_var_lt id. destruct (gate_ok id l0 l1) as (_ & Eci & Eco & Ea); [unfold nObjs in Hn; lia|done..|].
  unfold obj_value. rewrite Eci, Eco. unfold Gia_ObjIsXor. rewrite Ea. unfold Gia_ObjIsAnd in Ea. cbn [fTerm gate negb andb] in Ea.
  apply negb_true_iff in Ea. cbn [iDiff0 iDiff1 fCompl0 fCompl1 gate andb] in *. rewrite Ea, length_values. fold id.
  replace (Z.to_nat (Z.of_nat id - (Z.of_nat id - Z.of_nat (lit_var l0)))) with (lit_var l0) by lia.
  replace (Z.to_nat (Z.of_nat id - (Z.of_nat id - Z.of_nat (lit_var l1)))) with (lit_var l1) by lia.
  unfold gia_value. destruct (Nat.ltb_spec (lit_var l1) (lit_var l0)); [rewrite (proj2 (Z.ltb_lt _ _)) by lia|rewrite (proj2 (Z.ltb_ge _ _)) by lia]; done.
Qed.

(** The value and the validity of the literal of the new object. *)
Lemma new_literal p q o : appended p q o ->
  gia_lit q (Z.shiftl (nObjs p) 1) /\ forall x, gia_value x q (Z.shiftl (nObjs p) 1) = obj_value x (values x (pObjs p)) o.
Proof.
  intros Ha. split.
  - unfold gia_lit. rewrite (appended_nObjs _ _ _ Ha), Z.shiftl_mul_pow2 by lia. unfold nObjs. lia.
  - intros x. unfold gia_value. destruct (lit_of_var (nObjs p)) as (-> & -> & _); [unfold nObjs; lia|].
    rewrite (app_objs _ _ _ Ha), values_snoc. unfold nObjs. rewrite Nat2Z.id, xorb_false_l, <- (length_values x). apply nth_middle.
Qed.

(** ** Gates *)

(** A routine that adds the gate of two literals. *)
Definition adds_gate (p : Gia_Man_t) (l0 l1 : Z) (r : option (Z * Gia_Man_t)) (f : bool -> bool -> bool) : Prop :=
  exists q o, r = Some (Z.shiftl (nObjs p) 1, q) /\ appended p q o /\ gia_ok q /\ o = gate (length (pObjs p)) l0 l1 /\
    vCis q = vCis p /\ vCos q = vCos p /\
    forall x, gia_value x q (Z.shiftl (nObjs p) 1) = f (gia_value x p l0) (gia_value x p l1).

Lemma gate_added p q l0 l1 f : gia_ok p -> (nObjs p < 2 ^ 29 - 1)%Z -> gia_lit p l0 -> gia_lit p l1 ->
  appended p q (gate (length (pObjs p)) l0 l1) -> vCis q = vCis p -> vCos q = vCos p ->
  (forall a b, f a b = if lit_var l1 <? lit_var l0 then xorb a b else a && b) ->
  adds_gate p l0 l1 (Some (Z.shiftl (nObjs p) 1, q)) f.
Proof.
  intros Hok Hn H0 H1 Ha Hci Hco Hf. exists q, (gate (length (pObjs p)) l0 l1). split; [done|]. split; [done|].
  destruct (gate_ok (length (pObjs p)) l0 l1) as (Ho & Eci & Eco & _); [unfold nObjs in Hn; lia|by apply lit_var_lt..|].
  split; [|split; [done|split; [done|split; [done|]]]].
  - apply (appended_ok p q _ Hok Ha Ho); [| |by rewrite Eci].
    + rewrite Hci, (app_objs _ _ _ Ha), places_snoc, Eci, app_nil_r. by apply ok_cis.
    + rewrite Hco, (app_objs _ _ _ Ha), places_snoc, Eco, app_nil_r. by apply ok_cos.
  - intros x. rewrite (proj2 (new_literal p q _ Ha)), gate_value by done. by rewrite Hf.
Qed.

Ltac literal_bounds :=
  repeat match goal with
  | H : gia_lit ?p ?l |- _ =>
    lazymatch goal with
    | _ : (0 <= l)%Z, _ : lit_var l < length (pObjs p) |- _ => fail
    | _ => assert (0 <= l)%Z by apply H; pose proof (lit_var_lt p l H)
    end
  end.

Lemma AppendAnd_spec p l0 l1 : gia_ok p -> (nObjs p < 2 ^ 29 - 1)%Z -> gia_lit p l0 -> gia_lit p l1 ->
  fGiaSimple p = true \/ lit_var l0 <> lit_var l1 ->
  adds_gate p (Z.min l0 l1) (Z.max l0 l1) (Gia_ManAppendAnd p l0 l1) andb.
Proof.
  intros Hok Hn H0 H1 Hs. literal_bounds. unfold Gia_ManAppendAnd.
  destruct (AppendObj_spec p Hok) as (q & -> & Ci & Co & Eq & Ha); [lia|]. cbn [mbind option_bind].
  rewrite !Lit2Var_ok by done. cbn [mbind option_bind]. unfold Gia_ManObjNum. rewrite Eq.
  rewrite !(proj2 (Z.ltb_lt _ _)) by (unfold nObjs; lia).
  assert (fGiaSimple q || negb (Z.of_nat (lit_var l0) =? Z.of_nat (lit_var l1))%Z = true) as ->.
  { pose proof (app_simple _ _ _ (Ha const_obj)) as Es. cbn [fGiaSimple set_obj set_objs] in Es. rewrite Es.
    destruct Hs as [-> | Hs]; [done|]. rewrite (proj2 (Z.eqb_neq _ _)) by lia. by rewrite orb_true_r. }
  assert ((if (l0 <? l1)%Z then gate_obj (nObjs p) l0 l1 else gate_obj (nObjs p) l1 l0) =
    Some (gate (length (pObjs p)) (Z.min l0 l1) (Z.max l0 l1))) as ->.
  { unfold nObjs. destruct (Z.ltb_spec l0 l1); [rewrite Z.min_l, Z.max_r by lia|rewrite Z.min_r, Z.max_l by lia];
      by rewrite gate_obj_spec by (unfold nObjs in Hn; lia). }
  cbn [mbind option_bind]. apply gate_added; try done.
  - destruct (Z.min_spec l0 l1) as [[_ ->]|[_ ->]]; done.
  - destruct (Z.max_spec l0 l1) as [[_ ->]|[_ ->]]; done.
  - intros a b. rewrite (proj2 (Nat.ltb_ge _ _)); [done|]. destruct (Z.lt_trichotomy l0 l1) as [Hlt|[->|Hlt]].
    + rewrite Z.min_l, Z.max_r by lia. by apply lit_order.
    + by rewrite Z.min_id, Z.max_id.
    + rewrite Z.min_r, Z.max_l by lia. by apply lit_order.
Qed.

(** The counters of gates play no part. *)
Lemma appended_counts p q o x b : appended p q o -> appended p (set_counts q x b) o.
Proof. intros [H1 H2 H3 H4 H5]. by constructor. Qed.

Lemma gia_ok_counts q x b : gia_ok q -> gia_ok (set_counts q x b).
Proof. intros [H1 H2 H3 H4 H5 H6 H7]. by constructor. Qed.

Lemma adds_gate_counts p l0 l1 f q x b : adds_gate p l0 l1 (Some (Z.shiftl (nObjs p) 1, q)) f ->
  adds_gate p l0 l1 (Some (Z.shiftl (nObjs p) 1, set_counts q x b)) f.
Proof.
  intros (q' & o & [= <-] & Ha & Hok & Eo & Ci & Co & Hv). exists (set_counts q x b), o. split; [done|].
  split; [by apply appended_counts|]. split; [by apply gia_ok_counts|]. by do 3 (split; [done|]).
Qed.

Lemma AppendXorReal_spec p l0 l1 : gia_ok p -> (nObjs p < 2 ^ 29 - 1)%Z -> gia_lit p l0 -> gia_lit p l1 -> lit_var l0 <> lit_var l1 ->
  let b := lit_var l1 <? lit_var l0 in
  adds_gate p (if b then l0 else l1) (if b then l1 else l0) (Gia_ManAppendXorReal p l0 l1) xorb.
Proof.
  intros Hok Hn H0 H1 Hs b. literal_bounds. unfold Gia_ManAppendXorReal.
  destruct (AppendObj_spec p Hok) as (q & -> & Ci & Co & Eq & Ha); [lia|]. cbn [mbind option_bind].
  rewrite !Lit2Var_ok by done. cbn [mbind option_bind]. unfold Gia_ManObjNum. rewrite Eq.
  rewrite (proj2 (Z.eqb_neq _ _)), (proj2 (Z.ltb_lt _ (nObjs p + 1))), (proj2 (Z.ltb_lt _ (nObjs p + 1))) by (unfold nObjs; lia).
  assert ((Z.of_nat (lit_var l1) <? Z.of_nat (lit_var l0))%Z = b) as ->
    by (unfold b; destruct (Nat.ltb_spec (lit_var l1) (lit_var l0)); [apply Z.ltb_lt|apply Z.ltb_ge]; lia).
  assert ((if b then gate_obj (nObjs p) l0 l1 else gate_obj (nObjs p) l1 l0) =
    Some (gate (length (pObjs p)) (if b then l0 else l1) (if b then l1 else l0))) as ->
    by (unfold nObjs; destruct b; by rewrite gate_obj_spec by (unfold nObjs in Hn; lia)).
  cbn [mbind option_bind]. apply adds_gate_counts, gate_added; try done; [by destruct b..|].
  intros x y. rewrite (proj2 (Nat.ltb_lt _ _)); [done|]. unfold b. destruct (Nat.ltb_spec (lit_var l1) (lit_var l0)); lia.
Qed.

Lemma AppendBuf_spec p l : gia_ok p -> (nObjs p < 2 ^ 29 - 1)%Z -> gia_lit p l ->
  adds_gate p l l (Gia_ManAppendBuf p l) (fun a b => if lit_var l <? lit_var l then xorb a b else a && b).
Proof.
  intros Hok Hn H0. literal_bounds. unfold Gia_ManAppendBuf.
  destruct (AppendObj_spec p Hok) as (q & -> & Ci & Co & Eq & Ha); [lia|]. cbn [mbind option_bind].
  rewrite !Lit2Var_ok by done. cbn [mbind option_bind]. unfold Gia_ManObjNum. rewrite Eq.
  rewrite (proj2 (Z.ltb_lt _ _)) by (unfold nObjs; lia). change (gate_obj (nObjs p) l l) with (gate_obj (Z.of_nat (length (pObjs p))) l l). rewrite gate_obj_spec by (unfold nObjs in Hn; lia).
  cbn [mbind option_bind]. by apply adds_gate_counts, gate_added.
Qed.

(** ** Terminals *)

Lemma AppendCi_spec p : gia_ok p -> (nObjs p < 2 ^ 29)%Z ->
  exists q o, Gia_ManAppendCi p = Some (Z.shiftl (nObjs p) 1, q) /\ appended p q o /\ gia_ok q /\
    Gia_ManCiNum q = (Gia_ManCiNum p + 1)%Z /\ Gia_ManCoNum q = Gia_ManCoNum p /\
    forall x, gia_value x q (Z.shiftl (nObjs p) 1) = x (Z.to_nat (Gia_ManCiNum p)).
Proof.
  intros Hok Hn. unfold Gia_ManAppendCi.
  destruct (AppendObj_spec p Hok Hn) as (q & -> & Ci & Co & Eq & Ha). cbn [mbind option_bind].
  pose proof (ok_cis p Hok) as Hci. pose proof (places_length Gia_ObjIsCi 0 (pObjs p)) as Hl.
  pose proof (vec_size _ _ Hci) as Hs. rewrite Ci. rewrite diff29_id by (rewrite Hs; unfold nObjs in Hn; lia).
  set (o := {| iDiff0 := GIA_NONE; fCompl0 := _; fTerm := _; iDiff1 := _; fCompl1 := _ |}). specialize (Ha o).
  set (q1 := set_obj q (nObjs p) o) in *.
  eexists _, o. split; [done|].
  assert (appended p (set_terms q1 (Vec_IntPush (vCis q1) (nObjs p)) (vCos q1)) o) as Ha'
    by (destruct Ha as [A1 A2 A3 A4 A5]; by constructor).
  split; [done|].
  assert (vec (Vec_IntPush (vCis p) (nObjs p)) (places Gia_ObjIsCi 0 (pObjs p) ++ [nObjs p])) as Hpush
    by (apply Push_vec; [done|unfold nObjs, ABC_INT_MAX in *; lia]).
  change (vCis q1) with (vCis q). change (vCos q1) with (vCos q). rewrite Ci, Co.
  change (vCis q1) with (vCis q) in Ha'. change (vCos q1) with (vCos q) in Ha'. rewrite Ci, Co in Ha'.
  split; [|split; [|split; [done|]]].
  - apply (appended_ok p _ o Hok Ha'); [by left| | |done]; rewrite (app_objs _ _ _ Ha'), places_snoc; cbn [vCis vCos set_terms].
    + exact Hpush.
    + rewrite app_nil_r. by apply ok_cos.
  - unfold Gia_ManCiNum. cbn [vCis set_terms]. rewrite (vec_size _ _ Hpush), Hs, length_app. cbn. lia.
  - intros x. by rewrite (proj2 (new_literal p _ o Ha')).
Qed.

Lemma AppendCo_spec p l : gia_ok p -> (nObjs p < 2 ^ 29 - 1)%Z -> gia_lit p l ->
  (forall o, pObjs p !! lit_var l = Some o -> Gia_ObjIsCo o = false) ->
  exists q o, Gia_ManAppendCo p l = Some (Z.shiftl (nObjs p) 1, q) /\ appended p q o /\ gia_ok q /\
    Gia_ManCiNum q = Gia_ManCiNum p /\ Gia_ManCoNum q = (Gia_ManCoNum p + 1)%Z /\
    forall x, gia_value x q (Z.shiftl (nObjs p) 1) = gia_value x p l.
Proof.
  intros Hok Hn H0 Hd. literal_bounds. unfold Gia_ManAppendCo. rewrite Lit2Var_ok by done. cbn [mbind option_bind].
  unfold Gia_ManObjNum. rewrite (proj2 (Z.ltb_lt _ _)) by (unfold nObjs; lia). unfold Gia_ManObj.
  rewrite (proj2 (Z.leb_le 0 _)), (proj2 (Z.ltb_lt _ _)) by (unfold nObjs; lia). cbn [andb]. rewrite Nat2Z.id.
  destruct (lookup_lt_is_Some_2 (pObjs p) (lit_var l)) as [d Ed]; [done|]. rewrite Ed. cbn [mbind option_bind]. rewrite (Hd d Ed). cbn [negb].
  destruct (AppendObj_spec p Hok) as (q & -> & Ci & Co & Eq & Ha); [lia|]. cbn [mbind option_bind]. rewrite LitIsCompl_ok by done.
  cbn [mbind option_bind]. pose proof (ok_cos p Hok) as Hco. pose proof (places_length Gia_ObjIsCo 0 (pObjs p)) as Hl.
  pose proof (vec_size _ _ Hco) as Hs. rewrite Co. rewrite !diff29_id by (rewrite ?Hs; unfold nObjs in *; lia).
  set (o := {| iDiff0 := (nObjs p - _)%Z; fCompl0 := _; fTerm := _; iDiff1 := _; fCompl1 := _ |}). specialize (Ha o).
  set (q1 := set_obj q (nObjs p) o) in *. eexists _, o. split; [done|].
  change (vCis q1) with (vCis q). change (vCos q1) with (vCos q). rewrite Ci, Co.
  assert (appended p (set_terms q1 (vCis p) (Vec_IntPush (vCos p) (nObjs p))) o) as Ha'
    by (destruct Ha as [A1 A2 A3 A4 A5]; by constructor).
  split; [done|].
  assert (iDiff0 o <> GIA_NONE) as Hne by (cbn; unfold GIA_NONE, nObjs in *; lia).
  assert (Gia_ObjIsCi o = false) as Eci by (unfold Gia_ObjIsCi; by rewrite (proj2 (Z.eqb_neq _ _))).
  assert (Gia_ObjIsCo o = true) as Eco by (unfold Gia_ObjIsCo; by rewrite (proj2 (Z.eqb_neq _ _))).
  assert (vec (Vec_IntPush (vCos p) (nObjs p)) (places Gia_ObjIsCo 0 (pObjs p) ++ [nObjs p])) as Hpush
    by (apply Push_vec; [done|unfold nObjs, ABC_INT_MAX in *; lia]).
  split; [|split; [done|split; [|]]].
  - apply (appended_ok p _ o Hok Ha'); [|rewrite (app_objs _ _ _ Ha'), places_snoc..|by rewrite Eci]; cbn [vCis vCos set_terms].
    + right. split; [done|]. split; [cbn; unfold nObjs; lia|]. by rewrite Eco.
    + rewrite Eci, app_nil_r. by apply ok_cis.
    + rewrite Eco. exact Hpush.
  - unfold Gia_ManCoNum. cbn [vCos set_terms]. rewrite (vec_size _ _ Hpush), Hs, length_app. cbn. lia.
  - intros x. rewrite (proj2 (new_literal p _ o Ha')). unfold obj_value. rewrite Eci, Eco. cbn [fCompl0 iDiff0 o].
    rewrite length_values. unfold gia_value. do 2 f_equal. unfold nObjs. lia.
Qed.

(** ** Constants and simplifications *)

Lemma ok_pos p : gia_ok p -> (0 < nObjs p)%Z.
Proof. intros Hok. pose proof (ok_const p Hok) as H. apply lookup_lt_Some in H. unfold nObjs. lia. Qed.

Lemma const_value x p : gia_ok p -> gia_value x p 0 = false /\ gia_value x p 1 = true.
Proof.
  intros Hok. pose proof (ok_const p Hok) as Hc. destruct (pObjs p) as [|o os] eqn:E; [done|]. injection Hc as ->.
  unfold gia_value. rewrite E. destruct (values_prefix x [const_obj] os) as [vs Ev]. cbn [app] in Ev. by rewrite Ev.
Qed.

Lemma const_lit p : gia_ok p -> gia_lit p 0 /\ gia_lit p 1.
Proof. intros H%ok_pos. unfold gia_lit. lia. Qed.

Lemma gia_not p l : gia_lit p l -> gia_lit p (l ^^^ 1)%Z /\ forall x, gia_value x p (l ^^^ 1)%Z = negb (gia_value x p l).
Proof.
  intros H. assert (0 <= l)%Z as H0 by apply H. pose proof (lit_var_lt p l H) as Hv.
  destruct (lit_lxor l true H0) as (E1 & E2 & E3). cbn [Z.b2z] in *. split.
  - pose proof (lit_parts _ E3) as Hp. rewrite E1 in Hp. unfold gia_lit, nObjs. destruct (lit_bit (l ^^^ 1)%Z); cbn [Z.b2z] in Hp; lia.
  - intros x. unfold gia_value. rewrite E1, E2. by destruct (lit_bit l), (nth (lit_var l) (values x (pObjs p)) false).
Qed.

(** What the simplification of a gate with the function [f] answers. *)
Definition simplifies (p : Gia_Man_t) (l0 l1 : Z) (f : bool -> bool -> bool) (r : option (option Z)) : Prop :=
  match r with
  | Some (Some l) => gia_lit p l /\ forall x, gia_value x p l = f (gia_value x p l0) (gia_value x p l1)
  | Some None => (2 <= l0)%Z /\ (2 <= l1)%Z /\ lit_var l0 <> lit_var l1
  | None => False
  end.

Ltac constant_literal l :=
  let H := fresh in assert (l = 0 \/ l = 1)%Z as H by lia; destruct H as [-> | ->]; cbn [Z.eqb negb].

Lemma and_simple_spec p l0 l1 : gia_ok p -> gia_lit p l0 -> gia_lit p l1 -> simplifies p l0 l1 andb (and_simple l0 l1).
Proof.
  intros Hok H0 H1. literal_bounds. destruct (const_lit p Hok) as [L0 L1]. unfold and_simple.
  assert (forall x, gia_value x p 0 = false /\ gia_value x p 1 = true) as Hc by (intros x; by apply const_value).
  destruct (Z.ltb_spec l0 2); [|destruct (Z.ltb_spec l1 2); [|destruct (Z.eqb_spec l0 l1) as [->|Hne]]].
  - constant_literal l0; (split; [done|]); intros x; destruct (Hc x) as [E0 E1]; by rewrite ?E0, ?E1.
  - constant_literal l1; (split; [done|]); intros x; destruct (Hc x) as [E0 E1]; rewrite ?E0, ?E1; by destruct (gia_value x p l0).
  - split; [done|]. intros x. by destruct (gia_value x p l1).
  - rewrite LitNot_ok by done. cbn [mbind option_bind]. destruct (Z.eqb_spec l0 (l1 ^^^ 1)) as [E|E].
    + split; [done|]. intros x. destruct (Hc x) as [-> _]. rewrite E, (proj2 (gia_not p l1 H1)). by destruct (gia_value x p l1).
    + split; [done|]. split; [done|]. intros Hv. by destruct (same_var l0 l1).
Qed.

Lemma xor_simple_spec p l0 l1 : gia_ok p -> gia_lit p l0 -> gia_lit p l1 -> simplifies p l0 l1 xorb (xor_simple l0 l1).
Proof.
  intros Hok H0 H1. literal_bounds. destruct (const_lit p Hok) as [L0 L1]. unfold xor_simple.
  assert (forall x, gia_value x p 0 = false /\ gia_value x p 1 = true) as Hc by (intros x; by apply const_value).
  destruct (gia_not p l0 H0) as [N0 V0]. destruct (gia_not p l1 H1) as [N1 V1]. rewrite !LitNot_ok by done.
  destruct (Z.ltb_spec l0 2); [|destruct (Z.ltb_spec l1 2); [|destruct (Z.eqb_spec l0 l1) as [->|Hne]]].
  - constant_literal l0; cbn [mbind option_bind]; (split; [done|]); intros x; destruct (Hc x) as [E0 E1]; rewrite ?V1, ?E0, ?E1; by destruct (gia_value x p l1).
  - constant_literal l1; cbn [mbind option_bind]; (split; [done|]); intros x; destruct (Hc x) as [E0 E1]; rewrite ?V0, ?E0, ?E1; by destruct (gia_value x p l0).
  - split; [done|]. intros x. destruct (Hc x) as [-> _]. by destruct (gia_value x p l1).
  - cbn [mbind option_bind]. destruct (Z.eqb_spec l0 (l1 ^^^ 1)) as [E|E].
    + split; [done|]. intros x. destruct (Hc x) as [_ ->]. rewrite E, V1. by destruct (gia_value x p l1).
    + split; [done|]. split; [done|]. intros Hv. by destruct (same_var l0 l1).
Qed.

(** * The manager as an implementation of the interface *)

Definition gia_room (p : Gia_Man_t) (n : nat) : Prop := (nObjs p + Z.of_nat n < 2 ^ 29)%Z.

(** A gate routine: the literal of the function, and a graph that grows. *)
Definition builds (ok : Gia_Man_t -> Prop) (p : Gia_Man_t) (l0 l1 : Z) (f : bool -> bool -> bool) (r : option (Z * Gia_Man_t)) : Prop :=
  forall n, gia_room p (S n) -> exists l q, r = Some (l, q) /\ ok q /\ gia_room q n /\
    (gia_lit q l /\ forall x, gia_value x q l = f (gia_value x p l0) (gia_value x p l1)) /\
    gia_grows p q /\ vCis q = vCis p /\ vCos q = vCos p /\ fGiaSimple q = fGiaSimple p.

Lemma adds_gate_builds p l0 l1 r f g k0 k1 : gia_ok p -> adds_gate p l0 l1 r f ->
  (forall x, f (gia_value x p l0) (gia_value x p l1) = g (gia_value x p k0) (gia_value x p k1)) -> builds gia_ok p k0 k1 g r.
Proof.
  intros Hok (q & o & -> & Ha & Hq & _ & Ci & Co & Hv) Hf n Hn. exists (Z.shiftl (nObjs p) 1), q. split; [done|]. split; [done|].
  split; [unfold gia_room in *; rewrite (appended_nObjs _ _ _ Ha); lia|]. split; [split; [apply (new_literal p q o Ha)|]|].
  - intros x. by rewrite Hv, Hf.
  - split; [by apply (appended_grows p q o)|]. split; [done|]. split; [done|]. apply (app_simple _ _ _ Ha).
Qed.

Lemma min_max_value x p l0 l1 : gia_value x p (Z.min l0 l1) && gia_value x p (Z.max l0 l1) = gia_value x p l0 && gia_value x p l1.
Proof.
  destruct (Z.le_ge_cases l0 l1); [by rewrite Z.min_l, Z.max_r by lia|rewrite Z.min_r, Z.max_l by lia; apply andb_comm].
Qed.

Lemma simplified_builds p l0 l1 f l : gia_ok p -> simplifies p l0 l1 f (Some (Some l)) -> builds gia_ok p l0 l1 f (Some (l, p)).
Proof.
  intros Hok [Hl Hv] n Hn. exists l, p. split; [done|]. split; [done|]. split; [unfold gia_room in *; lia|].
  split; [done|]. split; [exists []; by rewrite app_nil_r|done].
Qed.

Lemma AppendAnd_builds p l0 l1 : gia_ok p -> gia_lit p l0 -> gia_lit p l1 -> fGiaSimple p = true \/ lit_var l0 <> lit_var l1 ->
  builds gia_ok p l0 l1 andb (Gia_ManAppendAnd p l0 l1).
Proof.
  intros Hok H0 H1 Hs n Hn. assert (nObjs p < 2 ^ 29 - 1)%Z as Hlt by (unfold gia_room in Hn; lia).
  revert n Hn. apply (adds_gate_builds p _ _ _ _ _ _ _ Hok (AppendAnd_spec p l0 l1 Hok Hlt H0 H1 Hs)).
  intros x. apply min_max_value.
Qed.

Lemma AppendAnd2_builds p l0 l1 : gia_ok p -> gia_lit p l0 -> gia_lit p l1 -> builds gia_ok p l0 l1 andb (Gia_ManAppendAnd2 p l0 l1).
Proof.
  intros Hok H0 H1. unfold Gia_ManAppendAnd2. destruct (fGiaSimple p) eqn:Es; cbn [negb mbind option_bind].
  - apply AppendAnd_builds; auto.
  - pose proof (and_simple_spec p l0 l1 Hok H0 H1) as Hs. destruct (and_simple l0 l1) as [[l|]|]; cbn [mbind option_bind]; [| |done].
    + by apply simplified_builds.
    + apply AppendAnd_builds; [done..|]. right. apply Hs.
Qed.

Lemma AppendXorReal2_builds p l0 l1 : gia_ok p -> gia_lit p l0 -> gia_lit p l1 ->
  (fGiaSimple p = true -> lit_var l0 <> lit_var l1) -> builds gia_ok p l0 l1 xorb (Gia_ManAppendXorReal2 p l0 l1).
Proof.
  intros Hok H0 H1 Hs n Hn. assert (nObjs p < 2 ^ 29 - 1)%Z as Hlt by (unfold gia_room in Hn; lia). revert n Hn.
  change (builds gia_ok p l0 l1 xorb (Gia_ManAppendXorReal2 p l0 l1)).
  assert (lit_var l0 <> lit_var l1 -> builds gia_ok p l0 l1 xorb (Gia_ManAppendXorReal p l0 l1)) as HX.
  { intros Hv. apply (adds_gate_builds p _ _ _ _ _ _ _ Hok (AppendXorReal_spec p l0 l1 Hok Hlt H0 H1 Hv)).
    intros x. destruct (_ <? _); [done|apply xorb_comm]. }
  unfold Gia_ManAppendXorReal2. destruct (fGiaSimple p) eqn:Es; cbn [negb mbind option_bind]; [exact (HX (Hs eq_refl))|].
  pose proof (xor_simple_spec p l0 l1 Hok H0 H1) as Hx. destruct (xor_simple l0 l1) as [[l|]|]; cbn [mbind option_bind]; [| |done].
  - by apply simplified_builds.
  - apply HX. apply Hx.
Qed.

(** Two and-routines, for managers in any mode and in the simple mode. *)
Definition append_ops : AndOps Gia_Man_t := {| am_const1 _ := 1%Z; am_and := Gia_ManAppendAnd2 |}.
Definition simple_ops : AndOps Gia_Man_t := {| am_const1 _ := 1%Z; am_and := Gia_ManAppendAnd |}.

#[refine] Definition append_manager : @AndManager Gia_Man_t append_ops :=
  {| am_ok := gia_ok; am_lit := gia_lit; am_value := gia_value; am_room := gia_room |}.
Proof.
  - intros p m n Hm. unfold gia_room. lia.
  - intros p l H. apply H.
  - exact gia_not.
  - intros p Hok. split; [by apply const_lit|]. intros x. by apply const_value.
  - intros p n l0 l1 Hok Hr H0 H1. destruct (AppendAnd2_builds p l0 l1 Hok H0 H1 n Hr) as (l & q & E & Hq & Rq & Hl & Hg & _).
    exists l, q. do 4 (split; [done|]). intros k. by apply gia_grows_ok.
Defined.

#[refine] Definition simple_manager : @AndManager Gia_Man_t simple_ops :=
  {| am_ok p := gia_ok p /\ fGiaSimple p = true; am_lit := gia_lit; am_value := gia_value; am_room := gia_room |}.
Proof.
  - intros p m n Hm. unfold gia_room. lia.
  - intros p l H. apply H.
  - exact gia_not.
  - intros p [Hok _]. split; [by apply const_lit|]. intros x. by apply const_value.
  - intros p n l0 l1 [Hok Hs] Hr H0 H1.
    destruct (AppendAnd_builds p l0 l1 Hok H0 H1 (or_introl Hs) n Hr) as (l & q & E & Hq & Rq & Hl & Hg & _ & _ & Es).
    exists l, q. split; [done|]. split; [by rewrite Es|]. do 2 (split; [done|]). intros k. by apply gia_grows_ok.
Defined.

Lemma ManStart_ok n : (0 < n <= 2 ^ 29)%Z -> exists p, Gia_ManStart n = Some p /\ gia_ok p /\ nObjs p = 1%Z /\ Gia_ManAndNum p = 0%Z /\ fGiaSimple p = false.
Proof.
  intros Hn. unfold Gia_ManStart. rewrite (proj2 (Z.ltb_lt 0 n)) by lia. eexists. split; [done|]. split; [|done].
  assert (forall m, (0 <= m <= 2 ^ 29)%Z -> vec (Vec_IntAlloc m) []) as Hv.
  { intros m Hm. constructor; cbn; [done|lia|lia|]. destruct (_ && _); unfold ABC_INT_MAX; lia. }
  assert (0 <= n / 20 <= 2 ^ 29)%Z by (split; [apply Z.div_pos; lia|apply Z.div_le_upper_bound; lia]).
  constructor; cbn [pObjs nObjs nObjsAlloc vCis vCos vHash vHTable VecInt.nSize]; [done| |unfold nObjs; cbn; lia|by apply Hv..| |].
  - intros [|i] o Hi H0; [lia|]. by destruct i.
  - by intros k i o Hk.
  - exists []. split; [|done]. by constructor; cbn; unfold ABC_INT_MAX; try lia.
Qed.

(** A routine that adds at most [n] objects and returns the literal [l] of the function [f]. *)
Definition gia_adds (ok : Gia_Man_t -> Prop) (p : Gia_Man_t) (n : Z) (f : (nat -> bool) -> bool) (l : Z) (q : Gia_Man_t) : Prop :=
  ok q /\ gia_lit q l /\ (forall x, gia_value x q l = f x) /\
  (forall k, gia_lit p k -> gia_lit q k /\ forall x, gia_value x q k = gia_value x p k) /\ (nObjs q <= nObjs p + n)%Z.

Lemma append_builds p n f o : (nObjs p + Z.of_nat n < 2 ^ 29)%Z -> @am_builds Gia_Man_t _ append_manager p n f o ->
  exists l q, o = Some (l, q) /\ gia_adds gia_ok p (Z.of_nat n) f l q.
Proof.
  intros Hn Hb. destruct (Hb (Z.to_nat (2 ^ 29 - 1 - nObjs p - Z.of_nat n))) as (l & q & E & Hq & Rq & [Hl Hv] & Hg);
    cbn in *; unfold gia_room in *; [lia|]. exists l, q. split; [done|]. do 4 (split; [done|]). lia.
Qed.

(** A manager with [n] inputs, for examples. *)
Definition with_inputs (n : nat) : option Gia_Man_t :=
  for_up n (fun _ p => p ← p; '(_, p) ← Gia_ManAppendCi p; Some p) (Gia_ManStart 16).

Lemma with_inputs_ok n : (Z.of_nat n < 2 ^ 29 - 1)%Z -> exists p, with_inputs n = Some p /\ gia_ok p /\ nObjs p = Z.of_nat (S n).
Proof.
  intros Hn. apply (for_up_ind (fun i s => exists p, s = Some p /\ gia_ok p /\ nObjs p = Z.of_nat (S i))).
  - destruct (ManStart_ok 16) as (p & E & Hok & Hp & _); [lia|]. by exists p.
  - intros i s Hi (p & -> & Hok & Hp). cbn [mbind option_bind].
    destruct (AppendCi_spec p Hok) as (q & o & -> & Ha & Hq & _); [lia|]. cbn [mbind option_bind]. exists q.
    split; [done|]. split; [done|]. rewrite (appended_nObjs _ _ _ Ha). lia.
Qed.

(** * Properties *)

(** C29. Gates made of and-gates, in a manager with the invariant, in either mode and with four objects to spare:
    each routine returns a literal whose value, for all values of the inputs, is that of the gate; the invariant holds
    again, the literals that the graph had keep their values, and the number of objects grows by at most one for
    each and-gate of the construction. *)
Theorem gia_gates_correct p l0 l1 l2 : gia_ok p -> (nObjs p + 4 < 2 ^ 29)%Z -> gia_lit p l0 -> gia_lit p l1 -> gia_lit p l2 ->
  let v l x := gia_value x p l in
  let adds n f r := exists l q, r = Some (l, q) /\ gia_adds gia_ok p n f l q in
  adds 1%Z (fun x => v l0 x && v l1 x) (Gia_ManAppendAnd2 p l0 l1) /\
  adds 1%Z (fun x => v l0 x || v l1 x) (Gia_ManAppendOr2 p l0 l1) /\
  adds 3%Z (fun x => if v l0 x then v l1 x else v l2 x) (Gia_ManAppendMux2 p l0 l1 l2) /\
  adds 4%Z (fun x => v l0 x && (v l1 x || v l2 x) || v l1 x && v l2 x) (Gia_ManAppendMaj2 p l0 l1 l2) /\
  adds 3%Z (fun x => xorb (v l0 x) (v l1 x)) (Gia_ManAppendXor2 p l0 l1) /\
  (fGiaSimple p = false \/ lit_var l0 <> lit_var l1 -> adds 1%Z (fun x => xorb (v l0 x) (v l1 x)) (Gia_ManAppendXorReal2 p l0 l1)).
Proof.
  intros Hok Hn H0 H1 H2 v adds. pose (O := append_ops). pose (A := append_manager).
  assert (forall l, gia_lit p l -> @am_is _ _ A p l (v l)) as Hv by (intros l Hl; by split).
  split; [|split; [|split; [|split; [|split]]]].
  - apply (append_builds p 1); [lia|]. apply (@am_and_builds _ _ A); auto.
  - apply (append_builds p 1); [lia|]. apply (@or_gate_builds _ _ A); auto.
  - apply (append_builds p 3); [lia|]. apply (@mux_gate_builds _ _ A); auto.
  - apply (append_builds p 4); [lia|]. apply (@maj_gate_builds _ _ A); auto.
  - apply (append_builds p 3); [lia|]. apply (@xor_gate_builds _ _ A); auto.
  - intros Hs. destruct (AppendXorReal2_builds p l0 l1 Hok H0 H1) with (n := Z.to_nat (2 ^ 29 - 2 - nObjs p)) as (l & q & E & Hq & Rq & Hl & Hg & _);
      [destruct Hs; congruence|unfold gia_room; lia|]. exists l, q. split; [done|]. split; [done|]. split; [apply Hl|]. split; [apply Hl|].
    split; [intros k; by apply gia_grows_ok|]. unfold gia_room in Rq. lia.
Qed.

Lemma gia_gates_correct_witness : exists p, with_inputs 2 = Some p /\
  option_map fst (Gia_ManAppendXor2 p 2 4) = Some 11%Z /\ Gia_ManAppendAnd2 p 3 2 = Some (0%Z, p) /\
  (let v l x := gia_value x p l in
  let adds n f r := exists l q, r = Some (l, q) /\ gia_adds gia_ok p n f l q in
  adds 1%Z (fun x => v 2%Z x && v 4%Z x) (Gia_ManAppendAnd2 p 2 4) /\
  adds 1%Z (fun x => v 2%Z x || v 4%Z x) (Gia_ManAppendOr2 p 2 4) /\
  adds 3%Z (fun x => if v 2%Z x then v 4%Z x else v 3%Z x) (Gia_ManAppendMux2 p 2 4 3) /\
  adds 4%Z (fun x => v 2%Z x && (v 4%Z x || v 3%Z x) || v 4%Z x && v 3%Z x) (Gia_ManAppendMaj2 p 2 4 3) /\
  adds 3%Z (fun x => xorb (v 2%Z x) (v 4%Z x)) (Gia_ManAppendXor2 p 2 4) /\
  (fGiaSimple p = false \/ lit_var 2 <> lit_var 4 -> adds 1%Z (fun x => xorb (v 2%Z x) (v 4%Z x)) (Gia_ManAppendXorReal2 p 2 4))).
Proof.
  destruct (with_inputs_ok 2) as (p & E & Hok & Hn); [done|]. exists p. split; [done|].
  assert (option_map fst (Gia_ManAppendXor2 p 2 4) = Some 11%Z /\ Gia_ManAppendAnd2 p 3 2 = Some (0%Z, p)) as [E1 E2].
  { vm_compute in E. injection E as <-. split; reflexivity. }
  split; [exact E1|]. split; [exact E2|].
  apply (gia_gates_correct p 2 4 3); [done|rewrite Hn; lia|unfold gia_lit; rewrite Hn; lia..].
Defined.
