(* ===== verification/GiaHash.v ===== *)
(** Structural hashing of and-inverter graphs ([giaHash.c]): the table of the gates that the graph has,
    with chains through [vHash], and the construction of gates that looks them up.

    A pointer into one of the two arrays is a place.  The manager of this model has no
    multiplexer nodes and no additional hashing ([pMuxes] and [fAddStrash] are zero).  [GiaHash] also
    models the choice of the sizes of tables ([Abc_PrimeCudd], [abc_global.h]). *)
From Stdlib Require Import Znumtheory.
From S2P Require Import Prelude VecInt VecArray AndMan Gia.

(** * Loops that stop *)

(** At most [2 ^ k] steps of a loop, until it answers. *)
Fixpoint upto2 {A B} (k : nat) (step : A -> A + B) (a : A) : A + B :=
  match k with
  | O => step a
  | S k => match upto2 k step a with inl a => upto2 k step a | inr b => inr b end
  end.

(** * Sizes of tables *)

(** The search for a divisor, [None] when [2 ^ 16] candidates are not enough. *)
Definition no_divisor (p : Z) : option bool :=
  match upto2 16 (fun i => if (i * i <=? p)%Z then if (p mod i =? 0)%Z then inr false else inl (i + 2)%Z else inr true) 3%Z with
  | inr pn => Some pn
  | inl _ => None
  end.
(** [p] is an unsigned number. *)
Definition Abc_PrimeCudd (p : Z) : option Z :=
  match upto2 32 (fun p =>
    if Z.odd p then
      match no_divisor p with
      | Some true => inr (Some p)
      | Some false => inl ((p + 1) mod 2 ^ 32)%Z
      | None => inr None
      end
    else inl ((p + 1) mod 2 ^ 32)%Z) p with
  | inr r => r
  | inl _ => None
  end.

(** * Places *)

(** The head of a chain in [vHTable] or the link of a node in [vHash]. *)
Inductive place := Head (b : Z) | Link (i : Z).

Definition read_place (p : Gia_Man_t) (pPlace : place) : option Z :=
  match pPlace with
  | Head b => Vec_IntEntry (vHTable p) b
  | Link i => Vec_IntEntry (vHash p) i
  end.
Definition write_place (p : Gia_Man_t) (pPlace : place) (x : Z) : option Gia_Man_t :=
  match pPlace with
  | Head b => t ← Vec_IntWriteEntry (vHTable p) b x; Some (set_hash p (vHash p) t)
  | Link i => h ← Vec_IntWriteEntry (vHash p) i x; Some (set_hash p h (vHTable p))
  end.

(** * The table *)

(** Arithmetic of words that wraps, the products of [int]s included; a table without entries is a division by zero. *)
Definition Gia_ManHashOne (iLit0 iLit1 iLitC TableSize : Z) : option Z :=
  v0 ← Abc_Lit2Var iLit0; v1 ← Abc_Lit2Var iLit1;
  c0 ← Abc_LitIsCompl iLit0; c1 ← Abc_LitIsCompl iLit1;
  let Key := ((iLitC * 2011 + v0 * 7937 + v1 * 2971 + Z.b2z c0 * 911 + Z.b2z c1 * 353) mod 2 ^ 32)%Z in
  assert! (0 <? TableSize)%Z in Some (Key mod TableSize)%Z.

Fixpoint find_from (fuel : nat) (p : Gia_Man_t) (iLit0 iLit1 : Z) (pPlace : place) : option place :=
  match fuel with
  | O => None
  | S fuel =>
    iThis ← read_place p pPlace;
    if (iThis =? 0)%Z then Some pPlace
    else
      pThis ← Gia_ManObj p iThis;
      f0 ← Gia_ObjFaninLit0 pThis iThis;
      f1 ← Gia_ObjFaninLit1 pThis iThis;
      if (f0 =? iLit0)%Z && (f1 =? iLit1)%Z then Some pPlace else find_from fuel p iLit0 iLit1 (Link iThis)
  end.
Definition Gia_ManHashFind (p : Gia_Man_t) (iLit0 iLit1 iLitC : Z) : option place :=
  b ← Gia_ManHashOne iLit0 iLit1 iLitC (VecInt.nSize (vHTable p));
  assert! (VecInt.nSize (vHash p) =? Gia_ManObjNum p)%Z in
  assert! (iLit0 <? iLit1)%Z in
  c1 ← Abc_LitIsCompl iLit1;
  assert! (iLitC =? -1)%Z || negb c1 in
  find_from (S (length (pObjs p))) p iLit0 iLit1 (Head b).

Definition Gia_ManHashLookupInt (p : Gia_Man_t) (iLit0 iLit1 : Z) : option Z :=
  pPlace ← (if (iLit1 <? iLit0)%Z then Gia_ManHashFind p iLit1 iLit0 (-1) else Gia_ManHashFind p iLit0 iLit1 (-1));
  iThis ← read_place p pPlace;
  Abc_Var2Lit iThis false.

Definition Gia_ManHashAlloc (p : Gia_Man_t) : option Gia_Man_t :=
  assert! (VecInt.nSize (vHTable p) =? 0)%Z in
  n ← Abc_PrimeCudd (if negb (Gia_ManAndNum p =? 0)%Z then (Gia_ManAndNum p + 1000)%Z else nObjsAlloc p);
  let t := Vec_IntFill (vHTable p) (Z.to_nat n) 0 in
  let h := Vec_IntGrow (vHash p) (Z.max (VecInt.nSize t) (Gia_ManObjNum p)) in
  Some (set_hash p (Vec_IntFill h (Z.to_nat (Gia_ManObjNum p)) 0) t).

(** Puts a node that the table does not have into it. *)
Definition insert_node (p : Gia_Man_t) (i : Z) : option Gia_Man_t :=
  pObj ← Gia_ManObj p i;
  f0 ← Gia_ObjFaninLit0 pObj i;
  f1 ← Gia_ObjFaninLit1 pObj i;
  pPlace ← Gia_ManHashFind p f0 f1 (-1);
  iThis ← read_place p pPlace;
  assert! (iThis =? 0)%Z in
  write_place p pPlace i.

Definition Gia_ManHashStart (p : Gia_Man_t) : option Gia_Man_t :=
  p ← Gia_ManHashAlloc p;
  for_up (length (pObjs p)) (fun i p =>
    p ← p;
    pObj ← Gia_ManObj p (Z.of_nat i);
    if Gia_ObjIsAnd pObj then insert_node p (Z.of_nat i) else Some p) (Some p).

Definition Vec_IntErase (p : Vec_Int_t) : Vec_Int_t := {| nCap := 0; nSize := 0; pArray := [] |}.
Definition Gia_ManHashStop (p : Gia_Man_t) : Gia_Man_t := set_hash p (Vec_IntErase (vHash p)) (Vec_IntErase (vHTable p)).

(** Moves the nodes of a chain of the old table. *)
Fixpoint rehash_chain (fuel : nat) (p : Gia_Man_t) (iThis iNext Counter : Z) : option (Gia_Man_t * Z) :=
  match fuel with
  | O => None
  | S fuel =>
    if (iThis =? 0)%Z then Some (p, Counter)
    else
      h ← Vec_IntWriteEntry (vHash p) iThis 0;
      p ← insert_node (set_hash p h (vHTable p)) iThis;
      let iThis := iNext in
      iNext ← Vec_IntEntry (vHash p) iThis;
      rehash_chain fuel p iThis iNext (Counter + 1)%Z
  end.

Definition Gia_ManHashResize (p : Gia_Man_t) : option Gia_Man_t :=
  let vOld := vHTable p in
  assert! (0 <? VecInt.nSize vOld)%Z in
  n ← Abc_PrimeCudd (2 * Gia_ManAndNum p)%Z;
  let p := set_hash p (vHash p) (Vec_IntFill {| nCap := 0; nSize := 0; pArray := [] |} (Z.to_nat n) 0) in
  '(p, Counter) ← for_each vOld (fun _ iThis '(p, Counter) =>
    iNext ← Vec_IntEntry (vHash p) iThis;
    rehash_chain (S (length (pObjs p))) p iThis iNext Counter) (p, 0%Z);
  assert! (Counter =? Gia_ManAndNum p - Gia_ManBufNum p)%Z in
  Some p.

(** * Gates *)

(** The lookup and the construction of a gate with ordered literals. *)
Definition hash_ordered (p : Gia_Man_t) (iLit0 iLit1 : Z) : option (Z * Gia_Man_t) :=
  pPlace ← Gia_ManHashFind p iLit0 iLit1 (-1);
  iThis ← read_place p pPlace;
  if negb (iThis =? 0)%Z then
    r ← Abc_Var2Lit iThis false;
    Some (r, count_hash p 1 0)
  else
    let p := count_hash p 0 1 in
    let fRoom := (VecInt.nSize (vHash p) <? nCap (vHash p))%Z in
    '(iNode, p) ← Gia_ManAppendAnd p iLit0 iLit1;
    pPlace ← (if fRoom then Some pPlace
              else
                pPlace ← Gia_ManHashFind p iLit0 iLit1 (-1);
                iThis ← read_place p pPlace;
                assert! (iThis =? 0)%Z in Some pPlace);
    v ← Abc_Lit2Var iNode;
    p ← write_place p pPlace v;
    iThis ← read_place p pPlace;
    r ← Abc_Var2Lit iThis false;
    Some (r, p).

Definition Gia_ManHashAnd (p : Gia_Man_t) (iLit0 iLit1 : Z) : option (Z * Gia_Man_t) :=
  r ← and_simple iLit0 iLit1;
  match r with
  | Some r => Some (r, p)
  | None =>
    if fGiaSimple p then
      assert! (VecInt.nSize (vHTable p) =? 0)%Z in
      Gia_ManAppendAnd p iLit0 iLit1
    else
      p ← (if (Z.land (nObjs p) 0xFF =? 0)%Z && (2 * VecInt.nSize (vHTable p) <? Gia_ManAndNum p)%Z
           then Gia_ManHashResize p else Some p);
      let '(iLit0, iLit1) := if (iLit1 <? iLit0)%Z then (iLit1, iLit0) else (iLit0, iLit1) in
      hash_ordered p iLit0 iLit1
  end.

Definition Gia_ManHashAndTry (p : Gia_Man_t) (iLit0 iLit1 : Z) : option Z :=
  r ← and_simple iLit0 iLit1;
  match r with
  | Some r => Some r
  | None =>
    let '(iLit0, iLit1) := if (iLit1 <? iLit0)%Z then (iLit1, iLit0) else (iLit0, iLit1) in
    pPlace ← Gia_ManHashFind p iLit0 iLit1 (-1);
    iThis ← read_place p pPlace;
    if negb (iThis =? 0)%Z then Abc_Var2Lit iThis false else Some (-1)%Z
  end.

Definition Gia_ManHashOr := or_gate Gia_ManHashAnd.
Definition Gia_ManHashMaj := maj_gate Gia_ManHashAnd.

(** The arguments of a call are evaluated from left to right: the order matters in the simple mode only, where it is not
    fixed by the language. *)
Definition Gia_ManHashXor (p : Gia_Man_t) (iLit0 iLit1 : Z) : option (Z * Gia_Man_t) :=
  if fGiaSimple p then
    n1 ← Abc_LitNot iLit1; n0 ← Abc_LitNot iLit0;
    '(a, p) ← Gia_ManHashAnd p iLit0 n1;
    '(b, p) ← Gia_ManHashAnd p n0 iLit1;
    Gia_ManHashOr p a b
  else
    c0 ← Abc_LitIsCompl iLit0; c1 ← Abc_LitIsCompl iLit1;
    let fCompl := xorb c0 c1 in
    r0 ← Abc_LitRegular iLit0; r1 ← Abc_LitRegular iLit1;
    n0 ← Abc_LitNot r0; n1 ← Abc_LitNot r1;
    '(iTemp0, p) ← Gia_ManHashAnd p r0 n1;
    '(iTemp1, p) ← Gia_ManHashAnd p r1 n0;
    m0 ← Abc_LitNot iTemp0; m1 ← Abc_LitNot iTemp1;
    '(r, p) ← Gia_ManHashAnd p m0 m1;
    r ← Abc_LitNotCond r (negb fCompl); Some (r, p).

Definition Gia_ManHashMux (p : Gia_Man_t) (iCtrl iData1 iData0 : Z) : option (Z * Gia_Man_t) :=
  if fGiaSimple p then
    n ← Abc_LitNot iCtrl;
    '(a, p) ← Gia_ManHashAnd p iCtrl iData1;
    '(b, p) ← Gia_ManHashAnd p n iData0;
    Gia_ManHashOr p a b
  else
    nc ← Abc_LitNot iCtrl;
    let '(iCtrl, iData1, iData0) := if (iData1 <? iData0)%Z then (nc, iData0, iData1) else (iCtrl, iData1, iData0) in
    c1 ← Abc_LitIsCompl iData1;
    n0 ← Abc_LitNot iData0; n1 ← Abc_LitNot iData1;
    let '(fCompl, iData1, iData0) := if c1 : bool then (true, n1, n0) else (false, iData1, iData0) in
    n ← Abc_LitNot iCtrl;
    '(iTemp0, p) ← Gia_ManHashAnd p n iData0;
    '(iTemp1, p) ← Gia_ManHashAnd p iCtrl iData1;
    m0 ← Abc_LitNot iTemp0; m1 ← Abc_LitNot iTemp1;
    '(r, p) ← Gia_ManHashAnd p m0 m1;
    r ← Abc_LitNotCond r (negb fCompl); Some (r, p).

(** * Loops that stop: the rule *)

(** [inv n a] holds with at most [n] steps left. *)
Lemma upto2_spec {A B} (step : A -> A + B) (inv : Z -> A -> Prop) (Q : B -> Prop) :
  (forall n a, inv n a -> (0 <= n)%Z /\ match step a with inr b => Q b | inl a' => (0 < n)%Z /\ inv (n - 1)%Z a' end) ->
  forall k n a, inv n a -> (n < 2 ^ Z.of_nat k)%Z -> exists b, upto2 k step a = inr b /\ Q b.
Proof.
  intros Hs. assert (forall k n a, inv n a -> (exists b, upto2 k step a = inr b /\ Q b) \/
    (exists a', upto2 k step a = inl a' /\ inv (n - 2 ^ Z.of_nat k)%Z a')) as H.
  { induction k as [|k IH]; intros n a Hi; cbn [upto2].
    - destruct (Hs n a Hi) as [_ H]. destruct (step a) as [a'|b]; [right|left; by exists b]. exists a'. split; [done|]. apply H.
    - destruct (IH n a Hi) as [(b & -> & Hb)|(a' & -> & Ha)]; [left; by exists b|].
      destruct (IH _ a' Ha) as [H|(a2 & -> & H2)]; [by left|right]. exists a2. split; [done|].
      replace (n - 2 ^ Z.of_nat (S k))%Z with (n - 2 ^ Z.of_nat k - 2 ^ Z.of_nat k)%Z; [done|].
      rewrite Nat2Z.inj_succ, Z.pow_succ_r by lia. lia. }
  intros k n a Hi Hn. destruct (H k n a Hi) as [Hb|(a' & _ & Ha)]; [done|].
  apply Hs in Ha as [Ha _]. lia.
Qed.

(** * Sizes of tables *)

(** No odd number from 3 to the square root divides [p]. *)
Definition no_odd_divisor (p : Z) : Prop := forall d, (3 <= d)%Z -> Z.odd d = true -> (d * d <= p)%Z -> ~ (d | p)%Z.

Lemma no_divisor_spec p : (0 <= p <= 2 ^ 30)%Z -> exists b, no_divisor p = Some b /\ (b = true <-> no_odd_divisor p).
Proof.
  intros Hp. unfold no_divisor. match goal with |- context [upto2 16 ?s 3%Z] => set (step := s) end.
  destruct (upto2_spec step (fun n i => exists j, (i = 3 + 2 * j)%Z /\ (n = 2 ^ 15 - j)%Z /\ (0 <= j <= 2 ^ 15)%Z /\
    forall d, (3 <= d < i)%Z -> Z.odd d = true -> ~ (d | p)%Z) (fun b => b = true <-> no_odd_divisor p)) with (k := 16) (n := (2 ^ 15)%Z) (a := 3%Z)
    as (b & -> & Hb); [| |done|by exists b].
  - intros n i (j & Ei & En & Hj & Hd). split; [lia|]. unfold step. destruct (Z.leb_spec (i * i) p) as [Hle|Hgt].
    + destruct (Z.eqb_spec (p mod i) 0) as [E|E].
      * split; [done|]. intros Hno. exfalso. apply (Hno i); [lia| |done|].
        -- rewrite Ei, Z.odd_add, Z.odd_mul. done.
        -- apply Z.mod_divide; [lia|done].
      * split; [nia|]. exists (j + 1)%Z. split; [lia|]. split; [lia|]. split; [nia|]. intros d Hlt Ho.
        destruct (Z.eq_dec d i) as [->|Hne]; [intros Hdiv; apply E, Z.mod_divide; [lia|done]|].
        destruct (Z.eq_dec d (i + 1)%Z) as [->|Hne']; [|apply Hd; [lia|done]].
        rewrite Ei in Ho. replace (3 + 2 * j + 1)%Z with (2 * (j + 2))%Z in Ho by lia. by rewrite Z.odd_mul in Ho.
    + split; [|done]. intros _ d H3 Ho Hsq. apply Hd; [nia|done].
  - exists 0%Z. split; [lia|]. split; [lia|]. split; [lia|]. lia.
Qed.

(** A prime above every size that is asked for. *)
Lemma last_size : no_divisor 33554467 = Some true.
Proof. vm_compute. reflexivity. Qed.

(** What [Abc_PrimeCudd] returns. *)
Definition table_size (q : Z) : Prop := Z.odd q = true /\ no_odd_divisor q.

Lemma PrimeCudd_spec p : (0 <= p <= 33554467)%Z ->
  exists q, Abc_PrimeCudd p = Some q /\ (p <= q <= 33554467)%Z /\ table_size q /\ forall r, (p <= r < q)%Z -> ~ table_size r.
Proof.
  intros Hp. unfold Abc_PrimeCudd. match goal with |- context [upto2 32 ?s p] => set (step := s) end.
  destruct (upto2_spec step (fun n r => (n = 33554467 - r)%Z /\ (p <= r <= 33554467)%Z /\ forall t, (p <= t < r)%Z -> ~ table_size t)
    (fun o => exists q, o = Some q /\ (p <= q <= 33554467)%Z /\ table_size q /\ forall r, (p <= r < q)%Z -> ~ table_size r))
    with (k := 32) (n := (33554467 - p)%Z) (a := p) as (b & -> & q & -> & H); [| |lia|by exists q].
  - intros n r (En & Hr & Ht). split; [lia|]. unfold step. destruct (no_divisor_spec r) as (b & Eb & Hb); [lia|].
    assert (r <> 33554467%Z -> ~ table_size r -> (0 < n)%Z /\ (n - 1 = 33554467 - (r + 1) mod 2 ^ 32)%Z /\
      (p <= (r + 1) mod 2 ^ 32 <= 33554467)%Z /\ forall t, (p <= t < (r + 1) mod 2 ^ 32)%Z -> ~ table_size t) as Hnext.
    { intros Hne Hnt. rewrite Z.mod_small by lia. split; [lia|]. split; [lia|]. split; [lia|]. intros t Hlt.
      destruct (Z.eq_dec t r) as [->|]; [done|]. apply Ht. lia. }
    destruct (Z.odd r) eqn:Eo.
    + rewrite Eb. destruct b.
      * exists r. split; [done|]. split; [done|]. split; [|done]. split; [done|]. by apply Hb.
      * apply Hnext; [intros ->; rewrite last_size in Eb; discriminate Eb|]. intros [_ Hno]. apply Hb in Hno. discriminate Hno.
    + apply Hnext; [intros ->; discriminate Eo|]. intros [Ho _]. congruence.
  - split; [lia|]. split; [lia|]. lia.
Qed.

Lemma table_size_prime q : (2 < q)%Z -> table_size q <-> prime q.
Proof.
  intros Hq. split.
  - intros [Ho Hno]. apply prime_alt. split; [lia|]. intros d Hd [e He].
    assert (forall x, (x | q)%Z -> Z.odd x = true) as Hodd.
    { intros x [y ->]. rewrite Z.odd_mul in Ho. by apply andb_true_iff in Ho as [_ Ho]. }
    assert (forall x, (1 < x)%Z -> (x | q)%Z -> (3 <= x)%Z) as H3.
    { intros x Hx Hdiv. destruct (Z.eq_dec x 2%Z) as [->|]; [by apply Hodd in Hdiv|lia]. }
    assert (d | q)%Z as Dd by (by exists e). assert (e | q)%Z as De by (exists d; lia).
    assert (1 < e)%Z by nia. destruct (Z.le_ge_cases d e).
    + apply (Hno d); [apply H3; [lia|done]|by apply Hodd|nia|done].
    + apply (Hno e); [apply H3; [lia|done]|by apply Hodd|nia|done].
  - intros Hp. split.
    + destruct (Z.odd q) eqn:Eo; [done|]. exfalso. rewrite <- Z.negb_even in Eo. apply negb_false_iff, Z.even_spec in Eo as [k Hk].
      apply prime_alt in Hp as [_ Hp]. apply (Hp 2%Z); [lia|]. exists k. lia.
    + intros d Hd _ Hsq Hdiv. apply prime_alt in Hp as [_ Hp]. apply (Hp d); [nia|done].
Qed.

(** * Chains *)

(** The links [hs] lead from [x] through the nodes [c] to the end. *)
Fixpoint seg (hs : list Z) (x : Z) (c : list nat) : Prop :=
  match c with
  | [] => x = 0%Z
  | j :: c => x = Z.of_nat j /\ 0 < j < length hs /\ seg hs hs.[j] c
  end.

Lemma seg_unique hs x c d : seg hs x c -> seg hs x d -> c = d.
Proof.
  revert x d. induction c as [|j c IH]; intros x [|k d]; cbn [seg]; [done|lia|lia|].
  intros (-> & H1 & H2) (E & _ & H3). assert (j = k) as -> by lia. f_equal. by apply (IH hs.[k]).
Qed.

Lemma seg_app hs x c d : seg hs x (c ++ d) -> exists y, seg hs y d.
Proof.
  revert x. induction c as [|j c IH]; intros x; [by exists x|]. intros (_ & _ & H). by apply (IH hs.[j]).
Qed.

(** A chain does not come back. *)
Lemma seg_nodup hs x c : seg hs x c -> NoDup c.
Proof.
  intros H. apply NoDup_alt. assert (forall i k j, i < k -> c !! i = Some j -> c !! k = Some j -> False) as Hlt.
  { intros i k j Hik Hi Hk.
    assert (forall n, c !! n = Some j -> seg hs hs.[j] (drop (S n) c)) as Hd.
    { intros n Hn. rewrite <- (take_drop_middle c n j) in H by done. apply seg_app in H as (y & -> & _ & H). done. }
    pose proof (seg_unique hs hs.[j] _ _ (Hd i Hi) (Hd k Hk)) as E. apply (f_equal length) in E. rewrite !length_drop in E.
    apply lookup_lt_Some in Hi, Hk. lia. }
  intros i k j Hi Hk. destruct (Nat.lt_trichotomy i k) as [Hik|[->|Hik]]; [exfalso; by apply (Hlt i k j)|done|exfalso; by apply (Hlt k i j)].
Qed.

Lemma seg_bound hs x c j : seg hs x c -> j ∈ c -> 0 < j < length hs.
Proof.
  revert x. induction c as [|k c IH]; intros x H Hj; [by apply not_elem_of_nil in Hj|]. destruct H as (_ & Hk & H).
  apply elem_of_cons in Hj as [->|Hj]; [done|]. by apply (IH hs.[k]).
Qed.

Lemma seg_length hs x c : seg hs x c -> length c <= length hs.
Proof.
  intros H. rewrite <- (length_seq (length hs) 0). apply NoDup_incl_length.
  - apply NoDup_ListNoDup, (seg_nodup hs x c H).
  - intros j Hj%list_elem_of_In. apply in_seq. pose proof (seg_bound hs x c j H Hj). lia.
Qed.

(** Changes of links elsewhere. *)
Lemma seg_frame hs hs' x c : seg hs x c -> length hs <= length hs' -> (forall j, j ∈ c -> hs'.[j] = hs.[j]) -> seg hs' x c.
Proof.
  revert x. induction c as [|j c IH]; intros x; [done|]. intros (-> & Hj & H) Hl He. split; [done|]. split; [lia|].
  rewrite He by by left. apply IH; [done|done|]. intros k Hk. apply He. by right.
Qed.

(** The place of the end of a chain that begins at a place. *)
Fixpoint place_after (pl : place) (c : list nat) : place :=
  match c with
  | [] => pl
  | j :: c => place_after (Link (Z.of_nat j)) c
  end.

Lemma place_after_snoc pl c j : place_after pl (c ++ [j]) = Link (Z.of_nat j).
Proof. revert pl. induction c as [|k c IH]; intros pl; [done|]. apply IH. Qed.

(** A node at the end of a chain. *)
Lemma seg_snoc hs x c e i : seg hs x (c ++ [e]) -> i ∉ c ++ [e] -> 0 < i < length hs -> hs.[i] = 0%Z ->
  seg (hs.[e <- Z.of_nat i]) x ((c ++ [e]) ++ [i]).
Proof.
  intros H Hni Hi H0. pose proof (seg_nodup _ _ _ H) as Hnd. revert x H Hni Hnd.
  induction c as [|j c IH]; intros x H Hni Hnd; cbn [app] in *.
  - destruct H as (-> & He & _). split; [done|]. rewrite length_wr. split; [done|]. rewrite rd_wr_eq by lia.
    split; [done|]. rewrite length_wr. split; [done|]. rewrite rd_wr_ne; [done|]. intros ->. apply Hni. by left.
  - destruct H as (-> & Hj & H). inversion_clear Hnd as [|? ? Hj2 Hnd']. apply not_elem_of_cons in Hni as [Hij Hni].
    split; [done|]. rewrite length_wr. split; [done|]. rewrite rd_wr_ne by (intros ->; apply Hj2, elem_of_app; right; by left).
    by apply IH.
Qed.

(** * The table *)

Definition bucket (T : nat) (l0 l1 : Z) : nat :=
  Z.to_nat (((-1 * 2011 + Z.of_nat (lit_var l0) * 7937 + Z.of_nat (lit_var l1) * 2971 +
    Z.b2z (lit_bit l0) * 911 + Z.b2z (lit_bit l1) * 353) mod 2 ^ 32) mod Z.of_nat T).

Lemma HashOne_ok T l0 l1 : 0 < T -> (0 <= l0)%Z -> (0 <= l1)%Z ->
  Gia_ManHashOne l0 l1 (-1) (Z.of_nat T) = Some (Z.of_nat (bucket T l0 l1)) /\ bucket T l0 l1 < T.
Proof.
  intros HT H0 H1. unfold Gia_ManHashOne. rewrite !Lit2Var_ok, !LitIsCompl_ok by done. cbn [mbind option_bind].
  rewrite (proj2 (Z.ltb_lt 0 _)) by lia. unfold bucket. set (k := (_ mod 2 ^ 32)%Z).
  pose proof (Z.mod_pos_bound k (Z.of_nat T) ltac:(lia)). split; [by rewrite Z2Nat.id by lia|lia].
Qed.

(** The gate [i] has these fanins. *)
Definition node_lits (p : Gia_Man_t) (i : nat) (l0 l1 : Z) : Prop :=
  exists o, pObjs p !! i = Some o /\ Gia_ObjIsAnd o = true /\
    Gia_ObjFaninLit0 o (Z.of_nat i) = Some l0 /\ Gia_ObjFaninLit1 o (Z.of_nat i) = Some l1 /\ (0 <= l0 < l1)%Z.

Lemma node_lits_unique p i l0 l1 k0 k1 : node_lits p i l0 l1 -> node_lits p i k0 k1 -> l0 = k0 /\ l1 = k1.
Proof. intros (o & E & _ & F0 & F1 & _) (o' & E' & _ & G0 & G1 & _). rewrite E in E'. injection E' as <-. split; congruence. Qed.

(** The lists that the two arrays hold. *)
Record table_holds (p : Gia_Man_t) (tab hs : list Z) : Prop := {
  arr_table : vec (vHTable p) tab;
  arr_hash : vec (vHash p) hs;
  arr_length : length hs = length (pObjs p);
  arr_pos : 0 < length tab;
}.

(** The chain of every bucket has exactly the nodes of [D] with this key. *)
Definition chained (p : Gia_Man_t) (tab hs : list Z) (D : nat -> Prop) : Prop :=
  (forall i, D i -> exists l0 l1, node_lits p i l0 l1) /\
  forall b, b < length tab -> exists c, seg hs tab.[b] c /\
    forall i, i ∈ c <-> D i /\ exists l0 l1, node_lits p i l0 l1 /\ bucket (length tab) l0 l1 = b.

Definition hashed (p : Gia_Man_t) (D : nat -> Prop) : Prop := exists tab hs, table_holds p tab hs /\ chained p tab hs D.

Lemma read_link p tab hs j : table_holds p tab hs -> j < length hs -> read_place p (Link (Z.of_nat j)) = Some hs.[j].
Proof. intros [_ H _ _] Hj. by apply Entry_vec. Qed.
Lemma read_head p tab hs b : table_holds p tab hs -> b < length tab -> read_place p (Head (Z.of_nat b)) = Some tab.[b].
Proof. intros [H _ _ _] Hb. by apply Entry_vec. Qed.

Lemma find_from_spec p tab hs l0 l1 : table_holds p tab hs -> forall fuel pl x c,
  read_place p pl = Some x -> seg hs x c -> (forall i, i ∈ c -> exists k0 k1, node_lits p i k0 k1) -> length c < fuel ->
  exists c1 c2, c = c1 ++ c2 /\ find_from fuel p l0 l1 pl = Some (place_after pl c1) /\
    (forall i, i ∈ c1 -> ~ node_lits p i l0 l1) /\
    match c2 with
    | [] => read_place p (place_after pl c1) = Some 0%Z
    | j :: _ => read_place p (place_after pl c1) = Some (Z.of_nat j) /\ node_lits p j l0 l1
    end.
Proof.
  intros Ha. induction fuel as [|fuel IH]; intros pl x c Hr Hs Hc Hf; [lia|]. cbn [find_from]. rewrite Hr. cbn [mbind option_bind].
  destruct c as [|j c].
  - cbn in Hs. subst x. exists [], []. split; [done|]. split; [done|]. split; [|done]. intros i Hi. by apply not_elem_of_nil in Hi.
  - destruct Hs as (-> & Hj & Hs). rewrite (proj2 (Z.eqb_neq _ 0)) by lia.
    destruct (Hc j) as (k0 & k1 & Hk); [by left|]. pose proof Hk as (o & Eo & Ho & F0 & F1 & Hlt).
    unfold Gia_ManObj. pose proof (lookup_lt_Some _ _ _ Eo). rewrite (proj2 (Z.leb_le 0 _)), (proj2 (Z.ltb_lt _ _)) by (unfold nObjs; lia).
    cbn [andb]. rewrite Nat2Z.id, Eo. cbn [mbind option_bind]. rewrite F0, F1. cbn [mbind option_bind].
    destruct ((k0 =? l0)%Z && (k1 =? l1)%Z) eqn:E.
    + apply andb_true_iff in E as [->%Z.eqb_eq ->%Z.eqb_eq]. exists [], (j :: c). split; [done|]. split; [done|]. split; [|done].
      intros i Hi. by apply not_elem_of_nil in Hi.
    + destruct (IH (Link (Z.of_nat j)) hs.[j] c) as (c1 & c2 & -> & Ef & Hno & H2); [by apply (read_link p tab hs); [|lia]|done| |cbn in Hf; lia|].
      { intros i Hi. apply Hc. by right. }
      exists (j :: c1), c2. split; [done|]. split; [done|]. split; [|done]. intros i [->|Hi]%elem_of_cons; [|by apply Hno].
      intros Hn. destruct (node_lits_unique p j k0 k1 l0 l1 Hk Hn) as [-> ->]. by rewrite !Z.eqb_refl in E.
Qed.

(** The answer of a lookup: a node of the table, or the end of the chain of its bucket. *)
Definition found (p : Gia_Man_t) (D : nat -> Prop) (l0 l1 : Z) (pl : place) : Prop :=
  exists j, read_place p pl = Some (Z.of_nat j) /\ 0 < j /\ D j /\ node_lits p j l0 l1.
Definition at_end (tab hs : list Z) (l0 l1 : Z) (pl : place) : Prop :=
  exists c, seg hs tab.[bucket (length tab) l0 l1] c /\ pl = place_after (Head (Z.of_nat (bucket (length tab) l0 l1))) c.

Lemma HashFind_spec p tab hs D l0 l1 : table_holds p tab hs -> chained p tab hs D -> (0 <= l0 < l1)%Z ->
  exists pl, Gia_ManHashFind p l0 l1 (-1) = Some pl /\
    (found p D l0 l1 pl \/ read_place p pl = Some 0%Z /\ (forall j, D j -> ~ node_lits p j l0 l1) /\ at_end tab hs l0 l1 pl).
Proof.
  intros Ha [HD Hc] Hl. pose proof Ha as [Ht Hh Hlen Hpos]. unfold Gia_ManHashFind.
  rewrite (vec_size _ _ Ht). destruct (HashOne_ok (length tab) l0 l1 Hpos) as [-> Hb]; [lia..|]. cbn [mbind option_bind].
  rewrite (vec_size _ _ Hh), Hlen. unfold Gia_ManObjNum, nObjs. rewrite Z.eqb_refl, (proj2 (Z.ltb_lt l0 l1)), LitIsCompl_ok by lia.
  cbn [mbind option_bind Z.eqb Pos.eqb orb]. set (b := bucket (length tab) l0 l1) in *.
  destruct (Hc b Hb) as (c & Hs & Hin).
  destruct (find_from_spec p tab hs l0 l1 Ha (S (length (pObjs p))) (Head (Z.of_nat b)) tab.[b] c) as (c1 & c2 & Ec & -> & Hno & H2);
    [by apply (read_head p tab hs)|done| |pose proof (seg_length _ _ _ Hs); lia|].
  { intros i (_ & l & k & H & _)%Hin. by exists l, k. }
  eexists. split; [done|]. destruct c2 as [|j c2].
  - right. rewrite app_nil_r in Ec. subst c1. split; [done|]. split; [|by exists c].
    intros j Dj Hj. apply (Hno j); [|done]. apply Hin. split; [done|]. by exists l0, l1.
  - left. destruct H2 as [Hr Hj]. assert (j ∈ c) as Hjc by (rewrite Ec; apply elem_of_app; right; by left).
    exists j. split; [done|]. split; [by apply (seg_bound _ _ _ _ Hs Hjc)|]. split; [by apply Hin|done].
Qed.

(** Links at the end of a chain. *)
Definition changed_after (D : nat -> Prop) (hs hs' : list Z) : Prop :=
  length hs' = length hs /\ forall j, ~ D j -> hs'.[j] = hs.[j].

Lemma link_spec p tab hs D l0 l1 pl i : table_holds p tab hs -> chained p tab hs D -> at_end tab hs l0 l1 pl ->
  node_lits p i l0 l1 -> ~ D i -> 0 < i -> hs.[i] = 0%Z ->
  exists q tab' hs', write_place p pl (Z.of_nat i) = Some q /\ q = set_hash p (vHash q) (vHTable q) /\ table_holds q tab' hs' /\
    length tab' = length tab /\ changed_after D hs hs' /\ nCap (vHash q) = nCap (vHash p) /\
    read_place q pl = Some (Z.of_nat i) /\ chained q tab' hs' (fun j => D j \/ j = i).
Proof.
  intros Ha [HD Hc] (c & Hs & Epl) Hi HDi H0 Hz. pose proof Ha as [Ht Hh Hlen Hpos].
  assert (0 <= l0)%Z as N0 by (destruct Hi as (o & _ & _ & _ & _ & H); lia). assert (0 <= l1)%Z as N1 by (destruct Hi as (o & _ & _ & _ & _ & H); lia).
  destruct (HashOne_ok (length tab) l0 l1 Hpos N0 N1) as [_ Hb]. set (b := bucket (length tab) l0 l1) in *.
  destruct (Hc b Hb) as (c' & Hs' & Hin). rewrite (seg_unique _ _ _ _ Hs' Hs) in Hin. clear c' Hs'.
  assert (i ∉ c) as Hic by (intros [? _]%Hin; done).
  assert (i < length hs) as Hih by (rewrite Hlen; destruct Hi as (o & Eo & _); by apply lookup_lt_Some in Eo).
  assert (exists q tab' hs', write_place p pl (Z.of_nat i) = Some q /\ q = set_hash p (vHash q) (vHTable q) /\ table_holds q tab' hs' /\
    length tab' = length tab /\ changed_after D hs hs' /\ nCap (vHash q) = nCap (vHash p) /\ read_place q pl = Some (Z.of_nat i) /\
    seg hs' tab'.[b] (c ++ [i]) /\ (forall a d, a <> b -> a < length tab -> (forall k, k ∈ d -> ~ k ∈ c) -> seg hs tab.[a] d -> seg hs' tab'.[a] d))
    as (q & tab' & hs' & Ew & Eq & Haq & Hlt & Hch & Hcap & Hrd & Hnew & Hold).
  { destruct c as [|e c0 _] using rev_ind.
    - subst pl. cbn [place_after write_place]. destruct (WriteEntry_vec _ _ b (Z.of_nat i) Ht Hb) as (t & -> & Vt & _).
      cbn [mbind option_bind]. eexists _, (tab.[b <- Z.of_nat i]), hs. split; [done|]. split; [done|].
      split; [constructor; [done|done|done|by rewrite length_wr]|]. rewrite length_wr. split; [done|]. split; [by split|]. split; [done|].
      split; [cbn [read_place vHTable set_hash]; rewrite (Entry_vec _ _ b Vt) by (by rewrite length_wr); by rewrite rd_wr_eq|].
      cbn [app seg]. rewrite rd_wr_eq by done. split; [done|]. intros a d Hab _ _ Hsd. by rewrite rd_wr_ne by done.
    - assert (e ∈ c0 ++ [e]) as He by (apply elem_of_app; right; by left). pose proof (seg_bound _ _ _ _ Hs He) as Hel.
      subst pl. rewrite place_after_snoc. cbn [write_place]. destruct (WriteEntry_vec _ _ e (Z.of_nat i) Hh) as (h & -> & Vh & Ec & _); [lia|].
      cbn [mbind option_bind]. eexists _, tab, (hs.[e <- Z.of_nat i]). split; [done|]. split; [done|].
      split; [constructor; [done|done|by rewrite length_wr|done]|]. split; [done|].
      split; [split; [by rewrite length_wr|]; intros j Dj; apply rd_wr_ne; intros ->; by apply Dj, Hin|]. split; [exact Ec|].
      split; [cbn [read_place vHash set_hash]; rewrite (Entry_vec _ _ e Vh) by (rewrite length_wr; lia); by rewrite rd_wr_eq by lia|].
      split; [by apply seg_snoc|]. intros a d _ _ Hdis Hsd. apply (seg_frame hs); [done|by rewrite length_wr|].
      intros k Hk. apply rd_wr_ne. intros ->. by apply (Hdis k Hk). }
  exists q, tab', hs'. do 7 (split; [done|]).
  assert (forall j k0 k1, node_lits q j k0 k1 <-> node_lits p j k0 k1) as Hn by (intros; by rewrite Eq).
  split.
  - intros j [Dj| ->]; [destruct (HD j Dj) as (k0 & k1 & H)|exists l0, l1]; [exists k0, k1|]; by apply Hn.
  - rewrite Hlt. intros a Hal. destruct (Nat.eq_dec a b) as [->|Hab].
    + exists (c ++ [i]). split; [done|]. intros j. rewrite elem_of_app, list_elem_of_singleton, Hin. split.
      * intros [(Dj & k0 & k1 & Hk & Eb)| ->]; [split; [by left|]; exists k0, k1; by rewrite Hn|].
        split; [by right|]. exists l0, l1. by rewrite Hn.
      * intros ([Dj| ->] & k0 & k1 & Hk & Eb); [left|by right]. split; [done|]. exists k0, k1. by rewrite <- Hn.
    + destruct (Hc a Hal) as (d & Hsd & Hd). exists d. split.
      * apply Hold; [done..| |done]. intros k (_ & k0 & k1 & Hk & Ea)%Hd (_ & m0 & m1 & Hm & Em)%Hin.
        destruct (node_lits_unique _ _ _ _ _ _ Hk Hm) as [-> ->]. congruence.
      * intros j. rewrite Hd. split.
        -- intros (Dj & k0 & k1 & Hk & Ea). split; [by left|]. exists k0, k1. by rewrite Hn.
        -- intros ([Dj| ->] & k0 & k1 & Hk & Ea); [split; [done|]; exists k0, k1; by rewrite <- Hn|].
           apply Hn in Hk. destruct (node_lits_unique _ _ _ _ _ _ Hk Hi) as [-> ->]. done.
Qed.

(** ** Putting nodes into the table *)

Lemma node_lits_obj p i l0 l1 : node_lits p i l0 l1 -> exists o, Gia_ManObj p (Z.of_nat i) = Some o /\
  Gia_ObjFaninLit0 o (Z.of_nat i) = Some l0 /\ Gia_ObjFaninLit1 o (Z.of_nat i) = Some l1 /\ Gia_ObjIsAnd o = true /\ (0 <= l0 < l1)%Z.
Proof.
  intros (o & Eo & Ho & F0 & F1 & Hl). exists o. split; [|done]. unfold Gia_ManObj.
  pose proof (lookup_lt_Some _ _ _ Eo). rewrite (proj2 (Z.leb_le 0 _)), (proj2 (Z.ltb_lt _ _)) by (unfold nObjs; lia).
  cbn [andb]. by rewrite Nat2Z.id.
Qed.

Lemma insert_spec p tab hs D l0 l1 i : table_holds p tab hs -> chained p tab hs D -> node_lits p i l0 l1 -> ~ D i -> 0 < i -> hs.[i] = 0%Z ->
  (forall j, D j -> ~ node_lits p j l0 l1) ->
  exists q tab' hs', insert_node p (Z.of_nat i) = Some q /\ q = set_hash p (vHash q) (vHTable q) /\ table_holds q tab' hs' /\
    length tab' = length tab /\ changed_after D hs hs' /\ chained q tab' hs' (fun j => D j \/ j = i).
Proof.
  intros Ha Hc Hi HD H0 Hz Hno. destruct (node_lits_obj p i l0 l1 Hi) as (o & Eo & F0 & F1 & _ & Hl).
  unfold insert_node. rewrite Eo. cbn [mbind option_bind]. rewrite F0, F1. cbn [mbind option_bind].
  destruct (HashFind_spec p tab hs D l0 l1 Ha Hc Hl) as (pl & -> & [(j & _ & _ & Dj & Hj)|(Er & _ & He)]); [by destruct (Hno j Dj)|].
  cbn [mbind option_bind]. rewrite Er. cbn [mbind option_bind Z.eqb].
  destruct (link_spec p tab hs D l0 l1 pl i Ha Hc He Hi HD H0 Hz) as (q & tab' & hs' & E & Eq & Haq & Hl' & Hch & _ & _ & Hcq).
  exists q, tab', hs'. done.
Qed.

(** Links of other nodes play no part. *)
Lemma chained_frame p q tab hs hs' D : chained p tab hs D -> (forall i l0 l1, D i -> node_lits p i l0 l1 <-> node_lits q i l0 l1) ->
  length hs <= length hs' -> (forall j, D j -> hs'.[j] = hs.[j]) -> chained q tab hs' D.
Proof.
  intros [HD Hc] Hn Hl He. split.
  - intros i Di. destruct (HD i Di) as (l0 & l1 & H). exists l0, l1. by apply Hn.
  - intros b Hb. destruct (Hc b Hb) as (c & Hs & Hin). exists c. split.
    + apply (seg_frame hs); [done|done|]. intros j [Dj _]%Hin. by apply He.
    + intros i. rewrite Hin. split; intros (Di & l0 & l1 & Hi & Eb); (split; [done|]); exists l0, l1; (split; [by apply Hn|done]).
Qed.

Lemma chained_ext p tab hs D E : (forall i, D i <-> E i) -> chained p tab hs D -> chained p tab hs E.
Proof.
  intros H [HD Hc]. split; [intros i Ei; by apply HD, H|]. intros b Hb. destruct (Hc b Hb) as (c & Hs & Hin).
  exists c. split; [done|]. intros i. rewrite Hin. by rewrite H.
Qed.

(** No two gates have the same fanins. *)
Definition no_twins (p : Gia_Man_t) : Prop := forall i j l0 l1, node_lits p i l0 l1 -> node_lits p j l0 l1 -> i = j.

Definition is_and (p : Gia_Man_t) (i : nat) : Prop := exists o, pObjs p !! i = Some o /\ Gia_ObjIsAnd o = true.

(** The invariant of a manager with a table. *)
Record hash_ok (p : Gia_Man_t) : Prop := {
  hok_gia : gia_ok p;
  hok_simple : fGiaSimple p = false;
  hok_bufs : nBufs p = 0%Z;
  hok_table : hashed p (is_and p);
  hok_twins : no_twins p;
}.

Lemma gia_ok_set_hash p h t hs : gia_ok p -> vec h hs -> (VecInt.nSize t <> 0%Z -> length hs = length (pObjs p)) -> gia_ok (set_hash p h t).
Proof. intros [H1 H2 H3 H4 H5 H6 _] Hv Hl. constructor; try done. by exists hs. Qed.

Lemma is_and_pos p i : gia_ok p -> is_and p i -> 0 < i.
Proof.
  intros Hok (o & Eo & Ho). destruct i as [|i]; [|lia]. rewrite (ok_const p Hok) in Eo. injection Eo as <-. done.
Qed.

(** ** Moving the nodes to another table *)

Lemma rehash_chain_spec p0 : no_twins p0 -> forall fuel p tab hs D c x n,
  (forall i l0 l1, node_lits p i l0 l1 <-> node_lits p0 i l0 l1) -> length (pObjs p) = length (pObjs p0) ->
  table_holds p tab hs -> chained p tab hs D -> seg hs x c -> 0 < length hs -> (forall i, i ∈ c -> ~ D i /\ exists l0 l1, node_lits p0 i l0 l1) ->
  length c < fuel ->
  exists q tab' hs', rehash_chain fuel p x hs.[Z.to_nat x] n = Some (q, n + Z.of_nat (length c))%Z /\ q = set_hash p (vHash q) (vHTable q) /\
    table_holds q tab' hs' /\ length tab' = length tab /\ length hs' = length hs /\ (forall j, ~ D j -> j ∉ c -> hs'.[j] = hs.[j]) /\
    chained q tab' hs' (fun j => D j \/ j ∈ c).
Proof.
  intros Htw. induction fuel as [|fuel IH]; intros p tab hs D c x n Hn Hlen Ha Hc Hs Hl Hin Hf; [lia|]. cbn [rehash_chain].
  destruct c as [|j c].
  - cbn in Hs. subst x. exists p, tab, hs. cbn [length]. rewrite Z.add_0_r. split; [done|]. split; [by destruct p|].
    do 4 (split; [done|]). eapply chained_ext; [|exact Hc]. intros i. split; [by left|]. intros [Di|Hi]; [done|by apply not_elem_of_nil in Hi].
  - pose proof (seg_nodup _ _ _ Hs) as Hnd. inversion_clear Hnd as [|? ? Hjc Hndc]. destruct Hs as (-> & Hj & Hs).
    rewrite (proj2 (Z.eqb_neq _ 0)) by lia. rewrite Nat2Z.id. pose proof Ha as [Ht Hh Hlh Hpos].
    destruct (WriteEntry_vec _ _ j 0 Hh) as (h & -> & Vh & _); [lia|]. cbn [mbind option_bind].
    destruct (Hin j) as [Dj (l0 & l1 & Hj0)]; [by left|].
    set (p1 := set_hash p h (vHTable p)). set (hs1 := hs.[j <- 0]) in *.
    assert (table_holds p1 tab hs1) as Ha1 by (constructor; [done|done|unfold hs1; by rewrite length_wr|done]).
    assert (chained p1 tab hs1 D) as Hc1.
    { apply (chained_frame p p1 tab hs hs1 D Hc); [done|unfold hs1; by rewrite length_wr|]. intros k Dk. apply rd_wr_ne. by intros ->. }
    destruct (insert_spec p1 tab hs1 D l0 l1 j Ha1 Hc1) as (p2 & tab2 & hs2 & -> & E2 & Ha2 & Hl2 & [Hl2' Hch] & Hc2);
      [by apply Hn|done|lia|unfold hs1; apply rd_wr_eq; lia| |].
    { intros k Dk Hk. apply Dj. assert (node_lits p0 k l0 l1) as Hk0 by by apply Hn. by rewrite (Htw j k l0 l1). }
    cbn [mbind option_bind].
    assert (length hs2 = length hs) as El2 by (rewrite Hl2'; unfold hs1; apply length_wr).
    assert (forall k, ~ D k -> k <> j -> hs2.[k] = hs.[k]) as Hk2.
    { intros k Dk Hkj. rewrite Hch by done. unfold hs1. by rewrite rd_wr_ne. }
    assert (seg hs2 hs.[j] c) as Hs2.
    { apply (seg_frame hs); [done|lia|]. intros k Hk. apply Hk2; [apply Hin; by right|by intros ->]. }
    assert (Vec_IntEntry (vHash p2) hs.[j] = Some hs2.[Z.to_nat hs.[j]]) as ->.
    { assert (exists k, hs.[j] = Z.of_nat k /\ k < length hs2) as (k & -> & Hk).
      { destruct c as [|k c]; [exists 0; split; [apply Hs|lia]|]. destruct Hs as (-> & Hk & _). exists k. split; [done|lia]. }
      rewrite Nat2Z.id. apply Entry_vec; [apply Ha2|done]. }
    cbn [mbind option_bind].
    destruct (IH p2 tab2 hs2 (fun k => D k \/ k = j) c hs.[j] (n + 1)%Z) as (q & tab' & hs' & -> & Eq & Haq & Hlq & Hlh' & Hfr & Hcq).
    + intros i m0 m1. rewrite E2. apply Hn.
    + by rewrite E2.
    + done.
    + done.
    + done.
    + lia.
    + intros i Hi. destruct (Hin i) as [Di Hi0]; [by right|]. split; [|done]. intros [?| ->]; done.
    + cbn in Hf. lia.
    + exists q, tab', hs'. split; [f_equal; f_equal; cbn [length]; lia|]. split; [rewrite Eq, E2; done|]. split; [done|].
      split; [lia|]. split; [lia|]. split.
      * intros k Dk Hk. apply not_elem_of_cons in Hk as [Hkj Hkc]. rewrite Hfr; [by apply Hk2| |done]. intros [?| ->]; done.
      * eapply chained_ext; [|exact Hcq]. intros i. rewrite elem_of_cons. tauto.
Qed.

(** ** The number of gates *)

Lemma elem_places f k os z : z ∈ places f k os <-> exists i o, os !! i = Some o /\ f o = true /\ z = Z.of_nat (k + i).
Proof.
  revert k. induction os as [|a os IH]; intros k; cbn [places].
  - split; [intros H; by apply not_elem_of_nil in H|intros (i & o & H & _); by destruct i].
  - assert (z ∈ places f (S k) os <-> exists i o, (a :: os) !! (S i) = Some o /\ f o = true /\ z = Z.of_nat (k + S i)) as Hr.
    { rewrite IH. split; intros (i & o & H1 & H2 & ->); exists i, o; (split; [done|split; [done|lia]]). }
    destruct (f a) eqn:Ea; [rewrite elem_of_cons|]; rewrite Hr; split.
    + intros [->|(i & o & H)]; [exists 0, a; by rewrite Nat.add_0_r|by exists (S i), o].
    + intros ([|i] & o & H1 & H2 & ->); [left; lia|right; by exists i, o].
    + intros (i & o & H). by exists (S i), o.
    + intros ([|i] & o & H1 & H2 & ->); [injection H1 as <-; congruence|by exists i, o].
Qed.

Lemma places_ge f k os z : z ∈ places f k os -> (Z.of_nat k <= z)%Z.
Proof. rewrite elem_places. intros (i & o & _ & _ & ->). lia. Qed.

Lemma places_nodup f k os : NoDup (places f k os).
Proof.
  revert k. induction os as [|a os IH]; intros k; cbn [places]; [constructor|]. destruct (f a); [constructor|]; [|apply IH..].
  intros H%places_ge. lia.
Qed.

Lemma kinds_length k os : (forall i o, os !! i = Some o -> 0 < k + i -> obj_ok (k + i) o) ->
  length os = length (places Gia_ObjIsCi k os) + length (places Gia_ObjIsCo k os) + length (places Gia_ObjIsAnd k os) +
    (if k =? 0 then length (places (fun o => negb (Gia_ObjIsCi o || Gia_ObjIsCo o || Gia_ObjIsAnd o)) 0 (take 1 os)) else 0).
Proof.
  revert k. induction os as [|a os IH]; intros k H; [by destruct (k =? 0)|].
  assert (forall i o, os !! i = Some o -> 0 < S k + i -> obj_ok (S k + i) o) as H'.
  { intros i o Hi _. replace (S k + i) with (k + S i) by lia. apply H; [done|lia]. }
  specialize (IH (S k) H'). cbn [Nat.eqb] in IH. change (take 1 (a :: os)) with [a]. cbn [places length].
  assert (0 < k -> Gia_ObjIsCi a || Gia_ObjIsCo a || Gia_ObjIsAnd a = true) as Hkind.
  { intros Hk. destruct (H 0 a eq_refl) as [->|[Hne _]]; [lia|done|]. unfold Gia_ObjIsCi, Gia_ObjIsCo, Gia_ObjIsAnd.
    rewrite (proj2 (Z.eqb_neq _ _) Hne). by destruct (fTerm a). }
  assert ((Gia_ObjIsCi a && Gia_ObjIsCo a) || (Gia_ObjIsCi a && Gia_ObjIsAnd a) || (Gia_ObjIsCo a && Gia_ObjIsAnd a) = false) as Hdis.
  { unfold Gia_ObjIsCi, Gia_ObjIsCo, Gia_ObjIsAnd. by destruct (fTerm a), (iDiff0 a =? GIA_NONE)%Z. }
  destruct (Nat.eqb_spec k 0) as [->|Hk]; [|specialize (Hkind ltac:(lia))];
    destruct (Gia_ObjIsCi a), (Gia_ObjIsCo a), (Gia_ObjIsAnd a); try done; cbn [length orb negb]; lia.
Qed.

Lemma AndNum_places p : gia_ok p -> Gia_ManAndNum p = Z.of_nat (length (places Gia_ObjIsAnd 0 (pObjs p))).
Proof.
  intros Hok. unfold Gia_ManAndNum, nObjs. rewrite (vec_size _ _ (ok_cis p Hok)), (vec_size _ _ (ok_cos p Hok)).
  pose proof (kinds_length 0 (pObjs p)) as H. rewrite H.
  - pose proof (ok_const p Hok) as Hc. destruct (pObjs p) as [|o os]; [done|]. injection Hc as ->. change (take 1 (const_obj :: os)) with [const_obj]. cbn. lia.
  - intros i o Hi H0. by apply (ok_obj p Hok).
Qed.

Lemma AndNum_count p (moved : list nat) : gia_ok p -> NoDup moved -> (forall i, i ∈ moved <-> is_and p i) ->
  Gia_ManAndNum p = Z.of_nat (length moved).
Proof.
  intros Hok Hnd Hin. rewrite AndNum_places by done. f_equal.
  assert (places Gia_ObjIsAnd 0 (pObjs p) ≡ₚ map Z.of_nat moved) as Hp.
  { apply NoDup_Permutation; [apply places_nodup| |].
    - apply NoDup_fmap; [intros a b; apply Nat2Z.inj|done].
    - intros z. rewrite elem_places, list_elem_of_In, in_map_iff. setoid_rewrite <- list_elem_of_In. split.
      + intros (i & o & Ho & Ha & ->). exists i. split; [done|]. apply Hin. by exists o.
      + intros (i & <- & (o & Ho & Ha)%Hin). by exists i, o. }
  by rewrite Hp, length_map.
Qed.

(** ** Resizing *)

(** The steps of the loop over the old table. *)
Definition resize_state (p0 : Gia_Man_t) (T : nat) (tabo : list Z) (n : nat) (b : nat) (s : option (Gia_Man_t * Z)) : Prop :=
  exists p tab hs moved, s = Some (p, Z.of_nat (length moved)) /\ p = set_hash p0 (vHash p) (vHTable p) /\ table_holds p tab hs /\ length tab = T /\
    length hs = n /\ NoDup moved /\ (forall i, i ∈ moved <-> exists l0 l1, node_lits p0 i l0 l1 /\ bucket (length tabo) l0 l1 < b) /\
    chained p tab hs (fun i => i ∈ moved) /\
    forall a, b <= a -> a < length tabo -> exists c, seg hs tabo.[a] c /\
      forall i, i ∈ c <-> exists l0 l1, node_lits p0 i l0 l1 /\ bucket (length tabo) l0 l1 = a.

Lemma resize_step p0 T tabo n b s : no_twins p0 -> length (pObjs p0) = n -> 0 < n -> b < length tabo -> resize_state p0 T tabo n b s ->
  resize_state p0 T tabo n (S b) (s ← s; (fun '(p, Counter) =>
    iNext ← Vec_IntEntry (vHash p) tabo.[b];
    rehash_chain (S (length (pObjs p))) p tabo.[b] iNext Counter) s).
Proof.
  intros Htw Hn0 Hpos Hb (p & tab & hs & moved & -> & Ep & Ha & HT & Hn & Hnd & Hin & Hc & Hrest). cbn [mbind option_bind].
  destruct (Hrest b ltac:(lia) Hb) as (c & Hs & Hcin).
  assert (exists k, tabo.[b] = Z.of_nat k /\ k < length hs) as (k & Ek & Hk).
  { destruct c as [|k c]; [exists 0; split; [apply Hs|lia]|]. destruct Hs as (-> & Hk & _). exists k. split; [done|lia]. }
  rewrite Ek, (Entry_vec _ _ k (arr_hash _ _ _ Ha)) by done. cbn [mbind option_bind].
  replace hs.[k] with hs.[Z.to_nat (Z.of_nat k)] by by rewrite Nat2Z.id. rewrite <- Ek.
  destruct (rehash_chain_spec p0 Htw (S (length (pObjs p))) p tab hs (fun i => i ∈ moved) c tabo.[b] (Z.of_nat (length moved)))
    as (q & tab' & hs' & -> & Eq & Haq & Hlt & Hlh & Hfr & Hcq).
  - intros i l0 l1. by rewrite Ep.
  - by rewrite Ep.
  - done.
  - done.
  - done.
  - lia.
  - intros i (l0 & l1 & Hi & Eb)%Hcin. split; [|by exists l0, l1]. intros (m0 & m1 & Hi' & Hlt)%Hin.
    destruct (node_lits_unique _ _ _ _ _ _ Hi Hi') as [-> ->]. lia.
  - pose proof (seg_length _ _ _ Hs). rewrite <- (arr_length _ _ _ Ha). lia.
  - exists q, tab', hs', (moved ++ c). split; [by rewrite length_app, Nat2Z.inj_add|]. split; [rewrite Eq, Ep; done|].
    split; [done|]. split; [lia|]. split; [lia|]. split; [|split; [|split]].
    + apply list.NoDup_app. split; [done|]. split; [|by apply (seg_nodup _ _ _ Hs)].
      intros i (l0 & l1 & Hi & Hlt')%Hin (m0 & m1 & Hi' & Eb)%Hcin. destruct (node_lits_unique _ _ _ _ _ _ Hi Hi') as [-> ->]. lia.
    + intros i. rewrite elem_of_app, Hin, Hcin. split.
      * intros [(l0 & l1 & Hi & Hl)|(l0 & l1 & Hi & Hl)]; exists l0, l1; (split; [done|lia]).
      * intros (l0 & l1 & Hi & Hl). destruct (Nat.eq_dec (bucket (length tabo) l0 l1) b); [right|left]; exists l0, l1; (split; [done|lia]).
    + eapply chained_ext; [|exact Hcq]. intros i. cbn beta. by rewrite elem_of_app.
    + intros a Ha1 Ha2. destruct (Hrest a ltac:(lia) Ha2) as (d & Hsd & Hd). exists d. split; [|done].
      apply (seg_frame hs); [done|lia|]. intros j (l0 & l1 & Hj & Eb)%Hd. apply Hfr.
      * intros (m0 & m1 & Hj' & Hlt')%Hin. destruct (node_lits_unique _ _ _ _ _ _ Hj Hj') as [-> ->]. lia.
      * intros (m0 & m1 & Hj' & Eb')%Hcin. destruct (node_lits_unique _ _ _ _ _ _ Hj Hj') as [-> ->]. lia.
Qed.

Lemma HashResize_spec p : hash_ok p -> (Gia_ManAndNum p <= 2 ^ 24)%Z ->
  exists q, Gia_ManHashResize p = Some q /\ q = set_hash p (vHash q) (vHTable q) /\ hash_ok q /\
    exists n, VecInt.nSize (vHTable q) = n /\ (2 * Gia_ManAndNum p <= n)%Z /\ table_size n.
Proof.
  intros [Hok Hsim Hbuf (tabo & hs & Ha & Hc) Htw] Hsz. pose proof Ha as [Ht Hh Hlh Hpos]. unfold Gia_ManHashResize.
  rewrite (vec_size _ _ Ht), (proj2 (Z.ltb_lt 0 _)) by lia.
  assert (0 <= Gia_ManAndNum p)%Z as Hnn by (rewrite AndNum_places by done; lia).
  destruct (PrimeCudd_spec (2 * Gia_ManAndNum p)) as (n & -> & Hn & [Hodd Hno] & _); [lia|]. cbn [mbind option_bind].
  assert (0 < n)%Z as Hn0 by (assert (n <> 0)%Z by (by intros ->); lia).
  set (t := Vec_IntFill _ _ _). set (p1 := set_hash p (vHash p) t).
  assert (vec t (repeat 0%Z (Z.to_nat n))) as Vt.
  { apply (Fill_vec _ []); [|unfold ABC_INT_MAX; lia]. by constructor; cbn; unfold ABC_INT_MAX; try lia. }
  destruct Hc as [HD Hc].
  assert (0 < length (pObjs p)) as Hlen by (pose proof (ok_pos p Hok); unfold nObjs in *; lia).
  assert (resize_state p (Z.to_nat n) tabo (length (pObjs p)) 0 (Some (p1, 0%Z))) as H0.
  { exists p1, (repeat 0%Z (Z.to_nat n)), hs, []. split; [done|]. split; [done|].
    split; [constructor; [done|done|done|rewrite repeat_length; lia]|]. split; [apply repeat_length|]. split; [done|]. split; [constructor|].
    split; [intros i; split; [intros H; by apply not_elem_of_nil in H|intros (l0 & l1 & _ & H); lia]|]. split.
    - split; [intros i H; by apply not_elem_of_nil in H|]. intros b Hb. exists []. rewrite repeat_length in Hb. split.
      + unfold rd. by rewrite nth_repeat_lt.
      + intros i. split; [intros H; by apply not_elem_of_nil in H|intros [H _]; by apply not_elem_of_nil in H].
    - intros a _ Hal. destruct (Hc a Hal) as (c & Hs & Hin). exists c. split; [done|]. intros i. rewrite Hin. split; [by intros [_ H]|].
      intros (l0 & l1 & Hi & Eb). split; [|by exists l0, l1]. destruct Hi as (o & Eo & Ho & _). by exists o. }
  unfold for_each. rewrite (vec_length _ _ Ht). match goal with |- context [for_up (length tabo) ?b _] => set (body := b) end.
  assert (resize_state p (Z.to_nat n) tabo (length (pObjs p)) (length tabo) (for_up (length tabo) body (Some (p1, 0%Z))))
    as (q & tab' & hs' & moved & -> & Eq & Haq & Hlt & Hlh' & Hnd & Hin & Hcq & _).
  { apply (for_up_ind (resize_state p (Z.to_nat n) tabo (length (pObjs p)))); [done|]. intros b s Hb Hst.
    apply (resize_step p (Z.to_nat n) tabo (length (pObjs p)) b s) in Hst; [|done..]. unfold body.
    rewrite (vec_ent _ _ Ht) by done. exact Hst. }
  cbn [mbind option_bind].
  assert (forall i, i ∈ moved <-> is_and p i) as Hmv.
  { intros i. rewrite Hin. split; [intros (l0 & l1 & (o & Eo & Ho & _) & _); by exists o|]. intros Hi. destruct (HD i Hi) as (l0 & l1 & Hl).
    exists l0, l1. split; [done|]. destruct (node_lits_obj _ _ _ _ Hl) as (o & _ & _ & _ & _ & Hlt').
    apply HashOne_ok; [done|lia|lia]. }
  assert (Gia_ManAndNum q = Z.of_nat (length moved)) as Ecnt by (rewrite Eq; by apply (AndNum_count p moved)).
  assert (Gia_ManBufNum q = 0%Z) as Ebuf by by rewrite Eq.
  rewrite Ecnt, Ebuf, Z.sub_0_r, Z.eqb_refl. exists q. split; [done|]. split; [done|].
  split; [|exists n; rewrite (vec_size _ _ (arr_table _ _ _ Haq)), Hlt, Z2Nat.id by lia; split; [done|split; [lia|by split]]].
  rewrite Eq. constructor; [|done|done| |done].
  - apply (gia_ok_set_hash p _ _ hs' Hok); [apply Haq|done].
  - exists tab', hs'. split; [rewrite <- Eq; exact Haq|]. rewrite <- Eq. eapply chained_ext; [|exact Hcq]. intros i. rewrite Hmv. by rewrite Eq.
Qed.

(** ** Starting the table *)

Definition asked_size (p : Gia_Man_t) : Z := if negb (Gia_ManAndNum p =? 0)%Z then (Gia_ManAndNum p + 1000)%Z else nObjsAlloc p.

Lemma HashAlloc_spec p : gia_ok p -> vec (vHTable p) [] -> (asked_size p <= 33554467)%Z ->
  exists q tab, Gia_ManHashAlloc p = Some q /\ q = set_hash p (vHash q) (vHTable q) /\
    gia_ok q /\ table_holds q tab (repeat 0%Z (length (pObjs p))) /\ chained q tab (repeat 0%Z (length (pObjs p))) (fun _ => False).
Proof.
  intros Hok Ht Hsz. unfold Gia_ManHashAlloc. rewrite (vec_size _ _ Ht). cbn [length Z.of_nat Z.eqb]. fold (asked_size p).
  pose proof (ok_alloc p Hok) as Ha. pose proof (ok_pos p Hok) as Hpos.
  assert (0 <= asked_size p)%Z as H0 by (unfold asked_size; rewrite AndNum_places by done; destruct (negb _); lia).
  destruct (PrimeCudd_spec (asked_size p)) as (n & -> & Hn & [Hodd _] & _); [lia|]. cbn [mbind option_bind].
  assert (0 < n)%Z as Hn0 by (assert (n <> 0)%Z by (by intros ->); lia).
  destruct (ok_hash p Hok) as (hs & Hv & _).
  set (t := Vec_IntFill (vHTable p) _ _). assert (vec t (repeat 0%Z (Z.to_nat n))) as Vt
    by (apply (Fill_vec _ []); [done|unfold ABC_INT_MAX; lia]).
  destruct (Grow_vec (vHash p) hs (Z.max (VecInt.nSize t) (Gia_ManObjNum p)) Hv) as (Vg & _).
  { rewrite (vec_size _ _ Vt), repeat_length. unfold Gia_ManObjNum, ABC_INT_MAX in *. lia. }
  set (h := Vec_IntFill _ (Z.to_nat (Gia_ManObjNum p)) 0). assert (vec h (repeat 0%Z (length (pObjs p)))) as Vh.
  { unfold h, Gia_ManObjNum, nObjs. rewrite Nat2Z.id. apply (Fill_vec _ hs); [done|]. unfold nObjs, ABC_INT_MAX in *. lia. }
  eexists _, (repeat 0%Z (Z.to_nat n)). split; [done|]. split; [done|].
  split; [apply (gia_ok_set_hash p h t _ Hok Vh); intros _; apply repeat_length|].
  split; [constructor; [done|done|apply repeat_length|rewrite repeat_length; lia]|]. split; [done|].
  intros b Hb. rewrite repeat_length in Hb. exists []. split; [unfold rd; by rewrite nth_repeat_lt|].
  intros i. split; [intros H; by apply not_elem_of_nil in H|by intros [? _]].
Qed.

(** Gates that a table can hold. *)
Definition hashable (p : Gia_Man_t) : Prop := (forall i, is_and p i -> exists l0 l1, node_lits p i l0 l1) /\ no_twins p.

Lemma HashStart_spec p : gia_ok p -> fGiaSimple p = false -> nBufs p = 0%Z -> vec (vHTable p) [] -> (asked_size p <= 33554467)%Z -> hashable p ->
  exists q, Gia_ManHashStart p = Some q /\ q = set_hash p (vHash q) (vHTable q) /\ hash_ok q.
Proof.
  intros Hok Hsim Hbuf Ht Hsz [Hl Htw]. unfold Gia_ManHashStart.
  destruct (HashAlloc_spec p Hok Ht Hsz) as (p1 & tab & -> & E1 & Hok1 & Ha1 & Hc1). cbn [mbind option_bind].
  assert (pObjs p1 = pObjs p) as -> by by rewrite E1.
  match goal with |- context [for_up _ ?b _] => set (body := b) end.
  set (inv := fun k (s : option Gia_Man_t) => exists q tab hs, s = Some q /\ q = set_hash p (vHash q) (vHTable q) /\ table_holds q tab hs /\
    chained q tab hs (fun i => is_and p i /\ i < k) /\ forall j, ~ (is_and p j /\ j < k) -> hs.[j] = 0%Z).
  assert (inv (length (pObjs p)) (for_up (length (pObjs p)) body (Some p1))) as (q & tab' & hs' & -> & Eq & Haq & Hcq & _).
  { apply (for_up_ind inv).
    - exists p1, tab, (repeat 0%Z (length (pObjs p))). split; [done|]. split; [done|]. split; [done|]. split.
      + eapply chained_ext; [|exact Hc1]. intros i. cbn. split; [done|lia].
      + intros j _. apply nth_repeat.
    - intros k s Hk (q & tab' & hs' & -> & Eq & Haq & Hcq & Hz). unfold body. cbn [mbind option_bind].
      destruct (lookup_lt_is_Some_2 _ _ Hk) as [o Eo].
      assert (Gia_ManObj q (Z.of_nat k) = Some o) as ->.
      { unfold Gia_ManObj. assert (pObjs q = pObjs p) as Ep by by rewrite Eq. unfold nObjs. rewrite Ep.
        rewrite (proj2 (Z.leb_le 0 _)), (proj2 (Z.ltb_lt _ _)) by lia. cbn [andb]. by rewrite Nat2Z.id. }
      cbn [mbind option_bind].
      destruct (Gia_ObjIsAnd o) eqn:Eand.
      + assert (is_and p k) as Hak by by exists o. destruct (Hl k Hak) as (l0 & l1 & Hk0).
        destruct (insert_spec q tab' hs' _ l0 l1 k Haq Hcq) as (q2 & tab2 & hs2 & -> & E2 & Ha2 & _ & [_ Hch] & Hc2).
        * by rewrite Eq.
        * lia.
        * by apply (is_and_pos p).
        * apply Hz. lia.
        * intros j [_ Hj] Hj0. assert (j = k) as -> by (apply (Htw j k l0 l1); [by rewrite Eq in Hj0|done]). lia.
        * exists q2, tab2, hs2. split; [done|]. split; [rewrite E2, Eq; done|]. split; [done|]. split.
          -- eapply chained_ext; [|exact Hc2]. intros i. cbn. split; [intros [[? ?]| ->]; split; [done|lia|done|lia]|].
             intros [? ?]. destruct (Nat.eq_dec i k); [by right|left; split; [done|lia]].
          -- intros j Hj. rewrite Hch; [apply Hz|]; intros [? ?]; apply Hj; (split; [done|lia]).
      + exists q, tab', hs'. split; [done|]. split; [done|]. split; [done|].
        assert (forall i, is_and p i /\ i < k <-> is_and p i /\ i < S k) as He.
        { intros i. split; intros [Hi Hlt]; (split; [done|]); [lia|]. destruct (Nat.eq_dec i k) as [->|]; [|lia].
          destruct Hi as (o' & Eo' & Ho'). rewrite Eo in Eo'. injection Eo' as <-. congruence. }
        split; [by eapply chained_ext; [exact He|]|]. intros j Hj. apply Hz. by rewrite He. }
  exists q. split; [done|]. split; [done|]. rewrite Eq. constructor; [|done|done| |done].
  - apply (gia_ok_set_hash p _ _ hs' Hok); [apply Haq|]. intros _. rewrite (arr_length _ _ _ Haq). by rewrite Eq.
  - exists tab', hs'. split; [rewrite <- Eq; exact Haq|]. rewrite <- Eq. eapply chained_ext; [|exact Hcq]. intros i. cbn. split.
    + intros [H _]. by rewrite Eq.
    + intros H. rewrite Eq in H. split; [done|]. destruct H as (o & Eo & _). by apply lookup_lt_Some in Eo.
Qed.

(** ** Gates *)

Lemma nth_values x os i o : os !! i = Some o -> nth i (values x os) false = obj_value x (values x (take i os)) o.
Proof.
  intros Hi. pose proof (lookup_lt_Some _ _ _ Hi) as Hl. rewrite <- (take_drop_middle os i o) at 1 by done.
  replace (take i os ++ o :: drop (S i) os) with ((take i os ++ [o]) ++ drop (S i) os) by by rewrite <- app_assoc.
  destruct (values_prefix x (take i os ++ [o]) (drop (S i) os)) as [vs ->]. rewrite values_snoc, <- app_assoc.
  rewrite app_nth2; rewrite length_values, length_take, Nat.min_l by lia; [|lia]. by rewrite Nat.sub_diag.
Qed.

Lemma take_value x os i j : i <= length os -> j < i -> nth j (values x (take i os)) false = nth j (values x os) false.
Proof.
  intros Hi Hj. rewrite <- (take_drop i os) at 2. destruct (values_prefix x (take i os) (drop i os)) as [vs ->].
  by rewrite app_nth1 by (rewrite length_values, length_take; lia).
Qed.

(** The value of a gate of the table. *)
Lemma node_value p i l0 l1 : gia_ok p -> node_lits p i l0 l1 ->
  gia_lit p (Z.of_nat i + Z.of_nat i) /\ gia_lit p l0 /\ gia_lit p l1 /\
  forall x, gia_value x p (Z.of_nat i + Z.of_nat i) = gia_value x p l0 && gia_value x p l1.
Proof.
  intros Hok (o & Eo & Ho & F0 & F1 & Hl). pose proof (lookup_lt_Some _ _ _ Eo) as Hi.
  assert (0 < i) as Hpos by (apply (is_and_pos p); [done|by exists o]).
  unfold Gia_ObjIsAnd in Ho. apply andb_true_iff in Ho as [Ht Hne]. apply negb_true_iff in Ht, Hne.
  assert (Gia_ObjIsCi o = false /\ Gia_ObjIsCo o = false) as [Eci Eco] by (unfold Gia_ObjIsCi, Gia_ObjIsCo; by rewrite Ht).
  destruct (ok_obj p Hok i o Eo Hpos) as [?|(_ & D0 & D1)]; [congruence|]. specialize (D1 Eco).
  unfold Gia_ObjFaninLit0, Gia_ObjFaninLit1, Gia_ObjFaninId0, Gia_ObjFaninId1, Abc_Var2Lit in F0, F1.
  rewrite (proj2 (Z.leb_le 0 _)) in F0 by lia. rewrite (proj2 (Z.leb_le 0 _)) in F1 by lia. injection F0 as F0. injection F1 as F1.
  destruct (var_lit (Z.of_nat i - iDiff0 o) (fCompl0 o)) as [V0 B0]; [lia|]. destruct (var_lit (Z.of_nat i - iDiff1 o) (fCompl1 o)) as [V1 B1]; [lia|].
  rewrite F0 in V0, B0. rewrite F1 in V1, B1.
  assert (lit_var l0 < i /\ lit_var l1 < i) as [L0 L1] by lia.
  assert (forall l, (0 <= l)%Z -> lit_var l < i -> gia_lit p l) as Hlit.
  { intros l H0 Hv. pose proof (lit_parts l H0). unfold gia_lit, nObjs. destruct (lit_bit l); cbn [Z.b2z] in *; lia. }
  destruct (var_lit (Z.of_nat i) false) as [Vi Bi]; [lia|]. cbn [Z.b2z] in Vi, Bi. rewrite Z.add_0_r in Vi, Bi. rewrite Nat2Z.id in Vi.
  split; [unfold gia_lit, nObjs; lia|]. split; [apply Hlit; [lia|done]|]. split; [apply Hlit; [lia|done]|].
  intros x. unfold gia_value at 1. rewrite Vi, Bi, xorb_false_l, (nth_values x _ i o Eo). unfold obj_value. rewrite Eci, Eco, Hne.
  unfold Gia_ObjIsXor. assert ((iDiff0 o <? iDiff1 o)%Z = false) as ->.
  { apply Z.ltb_ge. destruct (fCompl0 o), (fCompl1 o); cbn [Z.b2z] in *; lia. }
  rewrite andb_false_r, length_values, length_take, Nat.min_l by lia.
  rewrite <- V0, <- V1, !take_value by lia. unfold gia_value. by rewrite B0, B1.
Qed.

Lemma node_lits_grow p q i l0 l1 os : pObjs q = pObjs p ++ os -> i < length (pObjs p) -> node_lits p i l0 l1 <-> node_lits q i l0 l1.
Proof. intros E Hi. unfold node_lits. rewrite E. by setoid_rewrite lookup_app_l. Qed.

Lemma is_and_lt p i : is_and p i -> i < length (pObjs p).
Proof. intros (o & Eo & _). by apply lookup_lt_Some in Eo. Qed.

(** A new gate, before it is in the table. *)
(** And-gates do not change the number of buffers. *)
Lemma AppendObj_bufs p i q : Gia_ManAppendObj p = Some (i, q) -> nBufs q = nBufs p.
Proof.
  unfold Gia_ManAppendObj. intros (p1 & E & H)%bind_Some. injection H as _ <-.
  assert (nBufs p1 = nBufs p) as Ep.
  { unfold extend_objs in E. cbv zeta in E. repeat (case_match; try done); by injection E as <-. }
  cbn [nBufs set_objs]. by case_match.
Qed.

Lemma AppendAnd_bufs p l0 l1 l q : Gia_ManAppendAnd p l0 l1 = Some (l, q) -> nBufs q = nBufs p.
Proof.
  unfold Gia_ManAppendAnd. intros ([i p1] & E%AppendObj_bufs & H)%bind_Some. rewrite <- E.
  apply bind_Some in H as (v0 & _ & H). case_match; [|done]. apply bind_Some in H as (v1 & _ & H). case_match; [|done].
  case_match; [|done]. apply bind_Some in H as (o & _ & H). by injection H as _ <-.
Qed.

Lemma append_hashed p q tab hs a b : gia_ok p -> (nObjs p < 2 ^ 29 - 1)%Z -> gia_lit p a -> gia_lit p b -> (a < b)%Z ->
  table_holds p tab hs -> chained p tab hs (is_and p) -> appended p q (gate (length (pObjs p)) a b) ->
  vHash q = vHash q -> table_holds q tab (hs ++ [0%Z]) /\ chained q tab (hs ++ [0%Z]) (is_and p) /\ node_lits q (length (pObjs p)) a b /\
    (forall i, is_and q i <-> is_and p i \/ i = length (pObjs p)).
Proof.
  intros Hok Hn Ha Hb Hab [Ht Hh Hlh Hpos] Hc Happ _. pose proof (app_objs _ _ _ Happ) as E. literal_bounds.
  destruct (gate_ok (length (pObjs p)) a b) as (_ & _ & _ & Hand); [unfold nObjs in Hn; lia|done..|].
  split; [|split; [|split]].
  - constructor; [by rewrite (app_table _ _ _ Happ)| |by rewrite E, !length_app, Hlh|done].
    pose proof (app_hash _ _ _ Happ hs Hh (fun _ => Hlh)) as Hvh. rewrite (vec_size _ _ Ht) in Hvh.
    rewrite (proj2 (Z.eqb_neq _ 0)) in Hvh by lia. exact Hvh.
  - apply (chained_frame p q tab hs _ _ Hc).
    + intros i l0 l1 Hi. apply (node_lits_grow p q i l0 l1 _ E). by apply is_and_lt.
    + rewrite length_app. lia.
    + intros j Hj%is_and_lt. unfold rd. apply app_nth1. lia.
  - exists (gate (length (pObjs p)) a b). split; [rewrite E; by rewrite lookup_app_r, Nat.sub_diag|]. split; [done|].
    destruct (gate_fanins (length (pObjs p)) a b) as [-> ->]; [done..|]. do 2 (split; [done|]). lia.
  - intros i. unfold is_and. rewrite E. split.
    + intros (o & Ho & Ha'). apply lookup_app_Some in Ho as [Ho|[Hl Ho]]; [left; by exists o|right].
      destruct (i - length (pObjs p)) as [|k] eqn:Ek; [lia|done].
    + intros [(o & Ho & Ha')| ->]; [exists o; split; [by apply lookup_app_l_Some|done]|].
      eexists. split; [by rewrite lookup_app_r, Nat.sub_diag|done].
Qed.

Lemma hash_ok_count p a b : hash_ok p -> hash_ok (count_hash p a b).
Proof.
  intros [[H1 H2 H3 H4 H5 H6 H7] Hs Hb (tab & hs & [A1 A2 A3 A4] & Hc) Ht]. constructor; [by constructor|done|done| |done].
  exists tab, hs. split; [by constructor|done].
Qed.

(** What [Gia_ManHashAnd] leaves: the gate of the two literals, or what they simplify to. *)
Record hash_and (p : Gia_Man_t) (l0 l1 l : Z) (q : Gia_Man_t) : Prop := {
  ha_ok : hash_ok q;
  ha_grows : gia_grows p q;
  ha_objs : (nObjs p <= nObjs q <= nObjs p + 1)%Z;
  ha_cis : vCis q = vCis p;
  ha_cos : vCos q = vCos p;
  ha_lit : match and_simple l0 l1 with
           | Some (Some k) => l = k /\ q = p
           | _ => exists i, l = (Z.of_nat i + Z.of_nat i)%Z /\ node_lits q i (Z.min l0 l1) (Z.max l0 l1)
           end;
  ha_new : pObjs q = pObjs p \/ l = (nObjs p + nObjs p)%Z;
}.

(** A new node with fanins that no other node has keeps the nodes different. *)
Lemma twins_append p q id a b os : no_twins p -> pObjs q = pObjs p ++ os -> (forall i, is_and q i <-> is_and p i \/ i = id) ->
  node_lits q id a b -> (forall j, is_and p j -> ~ node_lits p j a b) -> no_twins q.
Proof.
  intros Htw E Hand Hnode Hno i j l0 l1 Hi Hj.
  assert (forall k m0 m1, node_lits q k m0 m1 -> k <> id -> is_and p k /\ node_lits p k m0 m1) as Hold.
  { intros k m0 m1 Hk Hne. assert (is_and q k) as Hkq by (destruct Hk as (o & Eo & Ho & _); by exists o).
    apply Hand in Hkq as [Hkp|?]; [|done]. split; [done|]. apply (node_lits_grow p q k m0 m1 os E); [by apply is_and_lt|done]. }
  destruct (Nat.eq_dec i id) as [->|Hi'], (Nat.eq_dec j id) as [->|Hj']; [done| | |].
  - destruct (node_lits_unique _ _ _ _ _ _ Hi Hnode) as [-> ->]. destruct (Hold j a b Hj Hj') as [Hjp Hjn]. by destruct (Hno j Hjp).
  - destruct (node_lits_unique _ _ _ _ _ _ Hj Hnode) as [-> ->]. destruct (Hold i a b Hi Hi') as [Hip Hin]. by destruct (Hno i Hip).
  - apply (Htw i j l0 l1); by apply Hold.
Qed.

Lemma hash_ordered_spec p a b : hash_ok p -> (nObjs p < 2 ^ 29 - 1)%Z -> gia_lit p a -> gia_lit p b -> (a < b)%Z -> lit_var a <> lit_var b ->
  exists i q, hash_ordered p a b = Some (Z.of_nat i + Z.of_nat i, q)%Z /\ hash_ok q /\ gia_grows p q /\ (nObjs p <= nObjs q <= nObjs p + 1)%Z /\
    vCis q = vCis p /\ vCos q = vCos p /\ node_lits q i a b /\ (pObjs q = pObjs p \/ i = length (pObjs p)).
Proof.
  intros Hp Hn Ha Hb Hab Hv. pose proof Hp as [Hok Hsim Hbuf (tab & hs & Har & Hc) Htw]. literal_bounds. unfold hash_ordered.
  destruct (HashFind_spec p tab hs (is_and p) a b Har Hc) as (pl & -> & [(j & Hr & Hj & _ & Hnode)|(Hr & Hno & He)]); [lia| |];
    cbn [mbind option_bind]; rewrite Hr; cbn [mbind option_bind].
  - rewrite (proj2 (Z.eqb_neq _ 0)) by lia. cbn [negb]. rewrite Var2Lit_ok. cbn [mbind option_bind].
    exists j, (count_hash p 1 0). split; [done|]. split; [by apply hash_ok_count|]. split; [exists []; by rewrite app_nil_r|].
    split; [change (nObjs (count_hash p 1 0)) with (nObjs p); lia|]. do 3 (split; [done|]). by left.
  - cbn [Z.eqb negb]. set (p1 := count_hash p 0 1).
    assert (hash_ok p1) as Hp1 by by apply hash_ok_count.
    assert (table_holds p1 tab hs) as Har1 by (destruct Har as [A1 A2 A3 A4]; by constructor).
    set (fRoom := (_ <? _)%Z).
    destruct (AppendAnd_spec p1 a b (hok_gia _ Hp1) Hn Ha Hb (or_intror Hv)) as (q & o & EA & Happ & Hq & -> & Ci & Co & _). rewrite EA.
    cbn [mbind option_bind]. rewrite Z.min_l, Z.max_r in Happ by lia.
    destruct (append_hashed p1 q tab hs a b (hok_gia _ Hp1) Hn Ha Hb Hab Har1 Hc Happ eq_refl) as (Haq & Hcq & Hnode & Hand).
    set (id := length (pObjs p)) in *. change (length (pObjs p1)) with id in *. change (is_and p1) with (is_and p) in *.
    set (hs' := hs ++ [0%Z]) in *.
    assert (forall j, is_and p j -> ~ node_lits q j a b) as Hnoq.
    { intros j Hj Hjn. apply (Hno j Hj). apply (node_lits_grow p q j a b _ (app_objs _ _ _ Happ)); [by apply is_and_lt|done]. }
    assert (exists pl', (if fRoom then Some pl else
              pPlace ← Gia_ManHashFind q a b (-1);
              iThis ← read_place q pPlace;
              assert! (iThis =? 0)%Z in Some pPlace) = Some pl' /\ at_end tab hs' a b pl') as (pl' & -> & He').
    { destruct fRoom.
      - exists pl. split; [done|]. destruct He as (c & Hs & ->). exists c. split; [|done]. apply (seg_frame hs); [done|unfold hs'; rewrite length_app; lia|].
        intros j Hj%(seg_bound _ _ _ _ Hs). unfold hs', rd. apply app_nth1. lia.
      - destruct (HashFind_spec q tab hs' (is_and p) a b Haq Hcq) as (pl' & -> & [(j & _ & _ & Dj & Hj)|(Hr' & _ & He')]); [lia|by destruct (Hnoq j Dj)|].
        cbn [mbind option_bind]. rewrite Hr'. cbn [mbind option_bind Z.eqb]. by exists pl'. }
    cbn [mbind option_bind]. change (nObjs p1) with (Z.of_nat id).
    destruct (lit_of_var (Z.of_nat id)) as (Ev & _ & Hnn); [lia|]. rewrite Lit2Var_ok by done. rewrite Ev, Nat2Z.id. cbn [mbind option_bind].
    assert (0 < id) as Hid by (pose proof (ok_pos p Hok); unfold nObjs in *; lia).
    destruct (link_spec q tab hs' (is_and p) a b pl' id Haq Hcq He' Hnode) as (r & tab2 & hs2 & -> & Er & Har2 & _ & _ & _ & Hrd & Hc2);
      [by intros Hj%is_and_lt; unfold id in Hj; lia|done| |].
    { pose proof (arr_length _ _ _ Har) as El. unfold hs', rd. rewrite app_nth2 by (unfold id; lia). by rewrite El, Nat.sub_diag. }
    cbn [mbind option_bind]. rewrite Hrd. cbn [mbind option_bind]. rewrite Var2Lit_ok. cbn [mbind option_bind].
    assert (pObjs r = pObjs q) as Eor by by rewrite Er.
    exists id, r. split; [done|]. split; [|split; [|split; [|split; [|split; [|split; [|by right]]]]]].
    + rewrite Er. constructor.
      * apply (gia_ok_set_hash q _ _ hs2 Hq); [apply Har2|]. intros _. by rewrite (arr_length _ _ _ Har2), Eor.
      * cbn [fGiaSimple set_hash]. by rewrite (app_simple _ _ _ Happ).
      * cbn [nBufs set_hash]. by rewrite (AppendAnd_bufs _ _ _ _ _ EA).
      * exists tab2, hs2. rewrite <- Er. split; [done|]. eapply chained_ext; [|exact Hc2]. intros i. cbn. rewrite <- Hand. unfold is_and. by rewrite Eor.
      * apply (twins_append p q id a b _ Htw (app_objs _ _ _ Happ) Hand Hnode Hno).
    + exists [gate id a b]. rewrite Eor. apply (app_objs _ _ _ Happ).
    + unfold nObjs. rewrite Eor. pose proof (appended_nObjs _ _ _ Happ) as E. unfold nObjs in E. change (pObjs p1) with (pObjs p) in E. lia.
    + rewrite Er. exact Ci.
    + rewrite Er. exact Co.
    + rewrite Er. exact Hnode.
Qed.

Lemma AndNum_le p : gia_ok p -> (0 <= Gia_ManAndNum p <= nObjs p)%Z.
Proof. intros Hok. rewrite AndNum_places by done. pose proof (places_length Gia_ObjIsAnd 0 (pObjs p)). unfold nObjs. lia. Qed.

Lemma HashAnd_spec p l0 l1 : hash_ok p -> (nObjs p < 2 ^ 24)%Z -> gia_lit p l0 -> gia_lit p l1 ->
  exists l q, Gia_ManHashAnd p l0 l1 = Some (l, q) /\ hash_and p l0 l1 l q.
Proof.
  intros Hp Hn H0 H1. unfold Gia_ManHashAnd. pose proof (and_simple_spec p l0 l1 (hok_gia p Hp) H0 H1) as Hs.
  destruct (and_simple l0 l1) as [[k|]|] eqn:Es; [| |done]; cbn [mbind option_bind].
  - exists k, p. split; [done|]. constructor; [done|exists []; by rewrite app_nil_r|lia|done|done|by rewrite Es|by left].
  - rewrite (hok_simple p Hp). destruct Hs as (_ & _ & Hv).
    assert (exists r, (if (Z.land (nObjs p) 0xFF =? 0)%Z && (2 * VecInt.nSize (vHTable p) <? Gia_ManAndNum p)%Z
           then Gia_ManHashResize p else Some p) = Some r /\ r = set_hash p (vHash r) (vHTable r) /\ hash_ok r) as (r & -> & Er & Hr).
    { destruct (_ && _); [|exists p; split; [done|split; [by destruct p|done]]].
      destruct (HashResize_spec p Hp) as (r & E & Er & Hr & _); [pose proof (AndNum_le p (hok_gia p Hp)); lia|]. by exists r. }
    cbn [mbind option_bind]. set (a := Z.min l0 l1). set (b := Z.max l0 l1).
    assert ((if (l1 <? l0)%Z then (l1, l0) else (l0, l1)) = (a, b)) as ->.
    { unfold a, b. destruct (Z.ltb_spec l1 l0); [by rewrite Z.min_r, Z.max_l by lia|by rewrite Z.min_l, Z.max_r by lia]. }
    assert (l0 <> l1) as Hne by (by intros ->).
    assert (pObjs r = pObjs p /\ vCis r = vCis p /\ vCos r = vCos p) as (Eo & Eci & Eco) by by rewrite Er.
    assert (nObjs r = nObjs p) as En by (unfold nObjs; by rewrite Eo).
    assert (forall l, gia_lit p l -> gia_lit r l) as Hl by (intros l; unfold gia_lit; by rewrite En).
    destruct (hash_ordered_spec r a b Hr) as (i & q & -> & Hq & [os Hg] & Hnq & Ci & Co & Hi & Hnew).
    + lia.
    + apply Hl. unfold a. by destruct (Z.min_spec l0 l1) as [[_ ->]|[_ ->]].
    + apply Hl. unfold b. by destruct (Z.max_spec l0 l1) as [[_ ->]|[_ ->]].
    + lia.
    + unfold a, b. destruct (Z.lt_ge_cases l0 l1); [by rewrite Z.min_l, Z.max_r by lia|rewrite Z.min_r, Z.max_l by lia; congruence].
    + exists (Z.of_nat i + Z.of_nat i)%Z, q. split; [done|]. constructor; [done|exists os; by rewrite Hg, Eo|lia|congruence|congruence|rewrite Es; by exists i|].
      destruct Hnew as [Hnew|Hnew]; [left; congruence|right]. unfold nObjs. rewrite Hnew, Eo. lia.
Qed.

(** The value of the literal. *)
Lemma hash_and_value p l0 l1 l q : hash_ok p -> gia_lit p l0 -> gia_lit p l1 -> hash_and p l0 l1 l q ->
  gia_lit q l /\ forall x, gia_value x q l = gia_value x p l0 && gia_value x p l1.
Proof.
  intros Hp H0 H1 H. pose proof (and_simple_spec p l0 l1 (hok_gia p Hp) H0 H1) as Hs. pose proof (ha_lit _ _ _ _ _ H) as Hl.
  destruct (and_simple l0 l1) as [[k|]|]; [destruct Hl as [-> ->]; exact Hs| |done].
  destruct Hl as (i & -> & Hi). destruct (node_value q i _ _ (hok_gia q (ha_ok _ _ _ _ _ H)) Hi) as (L & _ & _ & Hv).
  split; [done|]. intros x. rewrite Hv, min_max_value.
  destruct (gia_grows_ok p q l0 (ha_grows _ _ _ _ _ H) H0) as [_ ->]. by destruct (gia_grows_ok p q l1 (ha_grows _ _ _ _ _ H) H1) as [_ ->].
Qed.

(** * The manager with a table as an implementation of the interface *)

Definition hash_room (p : Gia_Man_t) (n : nat) : Prop := (nObjs p + Z.of_nat n <= 2 ^ 24)%Z.

Definition hash_ops : AndOps Gia_Man_t := {| am_const1 _ := 1%Z; am_and := Gia_ManHashAnd |}.

#[refine] Definition hash_manager : @AndManager Gia_Man_t hash_ops :=
  {| am_ok := hash_ok; am_lit := gia_lit; am_value := gia_value; am_room := hash_room |}.
Proof.
  - intros p m n Hm. unfold hash_room. lia.
  - intros p l H. apply H.
  - exact gia_not.
  - intros p Hp. split; [by apply const_lit, hok_gia|]. intros x. by apply const_value, hok_gia.
  - intros p n l0 l1 Hp Hr H0 H1. destruct (HashAnd_spec p l0 l1 Hp) as (l & q & E & H); [unfold hash_room in Hr; lia|done..|].
    exists l, q. split; [done|]. split; [apply H|]. split; [pose proof (ha_objs _ _ _ _ _ H); unfold hash_room in *; lia|].
    split; [by apply (hash_and_value p l0 l1)|]. intros k. apply gia_grows_ok, H.
Defined.

Lemma hash_builds p n f o : (nObjs p + Z.of_nat n <= 2 ^ 24)%Z -> @am_builds Gia_Man_t _ hash_manager p n f o ->
  exists l q, o = Some (l, q) /\ gia_adds hash_ok p (Z.of_nat n) f l q.
Proof.
  intros Hn Hb. destruct (Hb (Z.to_nat (2 ^ 24 - nObjs p - Z.of_nat n))) as (l & q & E & Hq & Rq & [Hl Hv] & Hg);
    cbn in *; unfold hash_room in *; [lia|]. exists l, q. split; [done|]. do 4 (split; [done|]). lia.
Qed.

(** ** Other gates *)

Section hash_gates.
#[local] Existing Instance hash_ops.
#[local] Existing Instance hash_manager.

Lemma LitRegular_is (p : Gia_Man_t) l f : am_is p l f ->
  exists c r, Abc_LitIsCompl l = Some c /\ Abc_LitRegular l = Some r /\ am_is p r (fun x => xorb c (f x)).
Proof using.
  intros Hl. assert (0 <= l)%Z as H0 by by apply (am_lit_nonneg p), Hl. exists (lit_bit l), (l ^^^ Z.b2z (lit_bit l))%Z.
  split; [by apply LitIsCompl_ok|]. split.
  - unfold Abc_LitRegular. rewrite (proj2 (Z.leb_le 0 l)) by done. f_equal. apply Z.bits_inj'. intros i Hi.
    rewrite Z.ldiff_spec, Z.lxor_spec. unfold lit_bit. destruct (Z.eq_dec i 0%Z) as [->|Hne].
    + rewrite Z.b2z_bit0. change (Z.testbit 1 0) with true. by destruct (Z.testbit l 0).
    + rewrite (Z.bits_above_log2 1 i) by (cbn; lia). rewrite (Z.bits_above_log2 (Z.b2z _) i) by (destruct (Z.testbit l 0); cbn; lia).
      by destruct (Z.testbit l i).
  - destruct (lit_bit l); cbn [Z.b2z].
    + apply (am_is_ext p _ (fun x => negb (f x))); [by intros x; destruct (f x)|]. by apply am_is_not.
    + rewrite Z.lxor_0_r. apply (am_is_ext p _ f); [by intros x; destruct (f x)|done].
Qed.

(** Three and-gates: a conjunction of the complements of two conjunctions. *)
Lemma nand_pair_builds (p : Gia_Man_t) a b c d fa fb fc fd (s : bool) : am_ok p -> am_is p a fa -> am_is p b fb -> am_is p c fc -> am_is p d fd ->
  am_builds p 3 (fun x => xorb s (negb (fa x && fb x) && negb (fc x && fd x)))
    ('(iTemp0, p) ← Gia_ManHashAnd p a b;
     '(iTemp1, p) ← Gia_ManHashAnd p c d;
     m0 ← Abc_LitNot iTemp0; m1 ← Abc_LitNot iTemp1;
     '(r, p) ← Gia_ManHashAnd p m0 m1;
     r ← Abc_LitNotCond r s; Some (r, p)).
Proof using.
  intros Hok Ha Hb Hc Hd m Hr. change Gia_ManHashAnd with (am_and (M := Gia_Man_t)).
  destruct (am_and_builds p a b _ _ Hok Ha Hb (2 + m) Hr) as (t0 & q & E0 & Hq & Rq & T0 & Gq). rewrite E0. cbn [mbind option_bind].
  destruct (am_then p q (1 + m) t0 _ 1 _ _ Hq Rq Gq
    (am_and_builds q c d _ _ Hq (am_is_grows _ _ _ _ Gq Hc) (am_is_grows _ _ _ _ Gq Hd)) T0) as (t1 & r & E1 & Hr' & Rr & T1 & T0' & Gr).
  rewrite E1. cbn [mbind option_bind]. rewrite (am_LitNot r t0 _ T0'), (am_LitNot r t1 _ T1). cbn [mbind option_bind].
  destruct (am_and_builds r _ _ _ _ Hr' (am_is_not _ _ _ T0') (am_is_not _ _ _ T1) m Rr) as (t & u & E2 & Hu & Ru & T & Gu).
  rewrite E2. cbn [mbind option_bind]. destruct (am_LitNotCond u t _ s T) as (l & -> & Hl). cbn [mbind option_bind].
  exists l, u. split; [done|]. do 2 (split; [done|]). split; [done|by etransitivity].
Qed.

Lemma HashXor_builds (p : Gia_Man_t) l0 l1 f0 f1 : am_ok p -> am_is p l0 f0 -> am_is p l1 f1 ->
  am_builds p 3 (fun x => xorb (f0 x) (f1 x)) (Gia_ManHashXor p l0 l1).
Proof using.
  intros Hok H0 H1 m Hr. unfold Gia_ManHashXor. rewrite (hok_simple p Hok).
  destruct (LitRegular_is p l0 f0 H0) as (c0 & r0 & -> & -> & R0). destruct (LitRegular_is p l1 f1 H1) as (c1 & r1 & -> & -> & R1).
  cbn [mbind option_bind]. rewrite (am_LitNot p r0 _ R0), (am_LitNot p r1 _ R1). cbn [mbind option_bind].
  destruct (nand_pair_builds p _ _ _ _ _ _ _ _ (negb (xorb c0 c1)) Hok R0 (am_is_not _ _ _ R1) R1 (am_is_not _ _ _ R0) m Hr)
    as (l & q & E & Hq & Rq & Hl & Hg).
  exists l, q. split; [exact E|]. do 2 (split; [done|]). split; [|done]. eapply am_is_ext; [|exact Hl].
  intros x. cbn. by destruct c0, c1, (f0 x), (f1 x).
Qed.

Lemma HashMux_builds (p : Gia_Man_t) lc l1 l0 fc f1 f0 : am_ok p -> am_is p lc fc -> am_is p l1 f1 -> am_is p l0 f0 ->
  am_builds p 3 (fun x => if fc x then f1 x else f0 x) (Gia_ManHashMux p lc l1 l0).
Proof using.
  intros Hok Hc H1 H0 m Hr. unfold Gia_ManHashMux. rewrite (hok_simple p Hok), (am_LitNot p lc _ Hc). cbn [mbind option_bind].
  assert (exists kc k1 k0 gc g1 g0, (if (l1 <? l0)%Z then ((lc ^^^ 1)%Z, l0, l1) else (lc, l1, l0)) = (kc, k1, k0) /\
    am_is p kc gc /\ am_is p k1 g1 /\ am_is p k0 g0 /\ forall x, (if gc x then g1 x else g0 x) = if fc x then f1 x else f0 x)
    as (kc & k1 & k0 & gc & g1 & g0 & -> & Kc & K1 & K0 & Hg).
  { destruct (l1 <? l0)%Z; [exists (lc ^^^ 1)%Z, l0, l1, (fun x => negb (fc x)), f0, f1|exists lc, l1, l0, fc, f1, f0]; (split; [done|]).
    - split; [by apply am_is_not|]. do 2 (split; [done|]). intros x. by destruct (fc x).
    - done. }
  destruct (LitRegular_is p k1 g1 K1) as (c1 & _ & -> & _). cbn [mbind option_bind].
  rewrite (am_LitNot p k0 _ K0), (am_LitNot p k1 _ K1). cbn [mbind option_bind].
  assert (exists j1 j0, (if c1 then (true, (k1 ^^^ 1)%Z, (k0 ^^^ 1)%Z) else (false, k1, k0)) = (c1, j1, j0) /\
    am_is p j1 (fun x => xorb c1 (g1 x)) /\ am_is p j0 (fun x => xorb c1 (g0 x))) as (j1 & j0 & -> & J1 & J0).
  { destruct c1; eexists _, _; (split; [done|]); split.
    - apply (am_is_ext p _ (fun x => negb (g1 x))); [by intros x; destruct (g1 x)|by apply am_is_not].
    - apply (am_is_ext p _ (fun x => negb (g0 x))); [by intros x; destruct (g0 x)|by apply am_is_not].
    - apply (am_is_ext p _ g1); [by intros x; destruct (g1 x)|done].
    - apply (am_is_ext p _ g0); [by intros x; destruct (g0 x)|done]. }
  rewrite (am_LitNot p kc _ Kc). cbn [mbind option_bind].
  destruct (nand_pair_builds p _ _ _ _ _ _ _ _ (negb c1) Hok (am_is_not _ _ _ Kc) J0 Kc J1 m Hr) as (l & q & E & Hq & Rq & Hl & Hgr).
  exists l, q. split; [exact E|]. do 2 (split; [done|]). split; [|done]. eapply am_is_ext; [|exact Hl].
  intros x. cbn. rewrite <- Hg. by destruct c1, (gc x), (g1 x), (g0 x).
Qed.
End hash_gates.

(** ** Lookups *)

Lemma HashAndTry_spec p l0 l1 : hash_ok p -> gia_lit p l0 -> gia_lit p l1 ->
  exists l, Gia_ManHashAndTry p l0 l1 = Some l /\
    match and_simple l0 l1 with
    | Some (Some k) => l = k
    | _ => (exists i, l = (Z.of_nat i + Z.of_nat i)%Z /\ node_lits p i (Z.min l0 l1) (Z.max l0 l1)) \/
           l = (-1)%Z /\ forall i, ~ node_lits p i (Z.min l0 l1) (Z.max l0 l1)
    end.
Proof.
  intros Hp H0 H1. unfold Gia_ManHashAndTry. pose proof (and_simple_spec p l0 l1 (hok_gia p Hp) H0 H1) as Hs.
  destruct (and_simple l0 l1) as [[k|]|]; [by exists k| |done]. cbn [mbind option_bind]. destruct Hs as (_ & _ & Hv). literal_bounds.
  assert ((if (l1 <? l0)%Z then (l1, l0) else (l0, l1)) = (Z.min l0 l1, Z.max l0 l1)) as ->
    by (destruct (Z.ltb_spec l1 l0); [by rewrite Z.min_r, Z.max_l by lia|by rewrite Z.min_l, Z.max_r by lia]).
  destruct (hok_table p Hp) as (tab & hs & Ha & Hc). assert (l0 <> l1) as Hne by by intros ->.
  destruct (HashFind_spec p tab hs (is_and p) (Z.min l0 l1) (Z.max l0 l1) Ha Hc) as (pl & -> & [(j & Hr & Hj & _ & Hnode)|(Hr & Hno & _)]); [lia| |];
    cbn [mbind option_bind]; rewrite Hr; cbn [mbind option_bind].
  - rewrite (proj2 (Z.eqb_neq _ 0)) by lia. cbn [negb]. rewrite Var2Lit_ok. eexists. split; [done|]. left. by exists j.
  - cbn [Z.eqb negb]. eexists. split; [done|]. right. split; [done|]. intros i Hi. apply (Hno i); [|done].
    destruct Hi as (o & Eo & Ho & _). by exists o.
Qed.

(** The literal 0 stands for a gate that the table does not have. *)
Lemma HashLookupInt_spec p l0 l1 : hash_ok p -> gia_lit p l0 -> gia_lit p l1 -> l0 <> l1 ->
  exists l, Gia_ManHashLookupInt p l0 l1 = Some l /\
    ((exists i, 0 < i /\ l = (Z.of_nat i + Z.of_nat i)%Z /\ node_lits p i (Z.min l0 l1) (Z.max l0 l1)) \/
     l = 0%Z /\ forall i, ~ node_lits p i (Z.min l0 l1) (Z.max l0 l1)).
Proof.
  intros Hp H0 H1 Hne. unfold Gia_ManHashLookupInt. literal_bounds.
  assert ((if (l1 <? l0)%Z then Gia_ManHashFind p l1 l0 (-1) else Gia_ManHashFind p l0 l1 (-1)) =
    Gia_ManHashFind p (Z.min l0 l1) (Z.max l0 l1) (-1)) as ->
    by (destruct (Z.ltb_spec l1 l0); [by rewrite Z.min_r, Z.max_l by lia|by rewrite Z.min_l, Z.max_r by lia]).
  destruct (hok_table p Hp) as (tab & hs & Ha & Hc).
  destruct (HashFind_spec p tab hs (is_and p) (Z.min l0 l1) (Z.max l0 l1) Ha Hc) as (pl & -> & [(j & Hr & Hj & _ & Hnode)|(Hr & Hno & _)]); [lia| |];
    cbn [mbind option_bind]; rewrite Hr; cbn [mbind option_bind].
  - rewrite Var2Lit_ok. eexists. split; [done|]. left. by exists j.
  - eexists. split; [done|]. right. split; [done|]. intros i Hi. apply (Hno i); [|done]. destruct Hi as (o & Eo & Ho & _). by exists o.
Qed.

(** ** Canonicity *)

Lemma lxor_1_1 l : (l ^^^ 1 ^^^ 1)%Z = l.
Proof. by rewrite Z.lxor_assoc, Z.lxor_nilpotent, Z.lxor_0_r. Qed.

Lemma and_simple_comm l0 l1 : (0 <= l0)%Z -> (0 <= l1)%Z -> and_simple l0 l1 = and_simple l1 l0.
Proof.
  intros H0 H1. unfold and_simple. rewrite !LitNot_ok by done. cbn [mbind option_bind].
  destruct (Z.ltb_spec l0 2), (Z.ltb_spec l1 2); try done.
  - constant_literal l0; constant_literal l1; done.
  - destruct (Z.eqb_spec l0 l1) as [->|Hne]; [by rewrite Z.eqb_refl|]. rewrite (proj2 (Z.eqb_neq l1 l0)) by done.
    destruct (Z.eqb_spec l0 (l1 ^^^ 1)) as [->|E]; [by rewrite lxor_1_1, Z.eqb_refl|].
    rewrite (proj2 (Z.eqb_neq _ _)); [done|]. intros ->. by rewrite lxor_1_1 in E.
Qed.

Lemma node_lits_grows p q i l0 l1 : gia_grows p q -> node_lits p i l0 l1 -> node_lits q i l0 l1.
Proof.
  intros [os E] Hi. apply (node_lits_grow p q i l0 l1 os E); [|done]. destruct Hi as (o & Eo & _). by apply lookup_lt_Some in Eo.
Qed.

(** A gate asked for again, in either order of the literals, is the same gate. *)
Lemma HashAnd_again p l0 l1 l q r k0 k1 : hash_ok p -> gia_lit p l0 -> gia_lit p l1 -> hash_and p l0 l1 l q ->
  hash_ok r -> gia_grows q r -> (nObjs r < 2 ^ 24)%Z -> k0 = l0 /\ k1 = l1 \/ k0 = l1 /\ k1 = l0 ->
  exists s, Gia_ManHashAnd r k0 k1 = Some (l, s) /\ hash_and r k0 k1 l s /\ pObjs s = pObjs r.
Proof.
  intros Hp H0 H1 H Hr Hg Hn Hk. literal_bounds.
  assert (and_simple k0 k1 = and_simple l0 l1 /\ Z.min k0 k1 = Z.min l0 l1 /\ Z.max k0 k1 = Z.max l0 l1) as (Es & Emin & Emax).
  { destruct Hk as [[-> ->]|[-> ->]]; [done|]. by rewrite (Z.min_comm l1), (Z.max_comm l1), and_simple_comm. }
  assert (forall l, gia_lit p l -> gia_lit r l) as Hlit.
  { intros m Hm. apply (gia_grows_ok q r m Hg), (gia_grows_ok p q m (ha_grows _ _ _ _ _ H) Hm). }
  destruct (HashAnd_spec r k0 k1 Hr Hn) as (m & s & E & Hs); [destruct Hk as [[-> ->]|[-> ->]]; auto..|].
  pose proof (ha_lit _ _ _ _ _ H) as Hl. pose proof (ha_lit _ _ _ _ _ Hs) as Hm.
  rewrite Es, Emin, Emax in Hm. pose proof (and_simple_spec p l0 l1 (hok_gia p Hp) H0 H1) as Hsp.
  destruct (and_simple l0 l1) as [[k|]|]; [| |done].
  - destruct Hl as [-> _], Hm as [-> ->]. by exists r.
  - destruct Hl as (i & -> & Hi), Hm as (j & -> & Hj).
    assert (i = j) as <-.
    { apply (hok_twins s (ha_ok _ _ _ _ _ Hs) i j (Z.min l0 l1) (Z.max l0 l1)); [|done].
      apply (node_lits_grows r s); [apply Hs|]. by apply (node_lits_grows q r). }
    exists s. split; [done|]. split; [done|]. destruct (ha_new _ _ _ _ _ Hs) as [|Hnew]; [done|].
    destruct Hi as (o & Hi%lookup_lt_Some & _), Hg as [os Eos]. unfold nObjs in Hnew. rewrite Eos, length_app in Hnew. lia.
Qed.

(** * Starting and stopping *)

Lemma start_hash_ok n p : (0 < n <= 33554467)%Z -> Gia_ManStart n = Some p -> exists q, Gia_ManHashAlloc p = Some q /\ hash_ok q /\ nObjs q = 1%Z.
Proof.
  intros Hn E. destruct (ManStart_ok n) as (p' & E' & Hok & Ho & Hand & Hsim); [lia|]. rewrite E in E'. injection E' as <-.
  unfold Gia_ManStart in E. rewrite (proj2 (Z.ltb_lt 0 n)) in E by lia. injection E as Ep.
  destruct (HashAlloc_spec p Hok) as (q & tab & Eq & E1 & Hq & Ha & Hc).
  - rewrite <- Ep. constructor; cbn; unfold ABC_INT_MAX; try done; lia.
  - unfold asked_size. rewrite Hand. cbn [Z.eqb negb]. rewrite <- Ep. cbn. lia.
  - exists q. split; [done|]. assert (pObjs q = [const_obj]) as Eo by (rewrite E1, <- Ep; done).
    assert (forall i, ~ is_and q i) as Hno.
    { intros i (o & Hi & Hoa). rewrite Eo in Hi. destruct i as [|i]; [injection Hi as <-; done|done]. }
    split; [|unfold nObjs; by rewrite Eo]. constructor; [done|rewrite E1; done|rewrite E1, <- Ep; done| |].
    + exists tab, (repeat 0%Z (length (pObjs p))). split; [done|]. eapply chained_ext; [|exact Hc]. intros i. split; [done|]. by intros Hi%Hno.
    + intros i j l0 l1 (o & Hi & Hoa & _). exfalso. apply (Hno i). by exists o.
Qed.

Lemma AppendCi_bufs p l q : Gia_ManAppendCi p = Some (l, q) -> nBufs q = nBufs p.
Proof. unfold Gia_ManAppendCi. intros ([i p1] & E%AppendObj_bufs & H)%bind_Some. rewrite <- E. by injection H as _ <-. Qed.

(** Inputs keep the table. *)
Lemma AppendCi_hash_ok p q l : hash_ok p -> (nObjs p < 2 ^ 29)%Z -> Gia_ManAppendCi p = Some (l, q) -> hash_ok q.
Proof.
  intros Hp Hn E. pose proof Hp as [Hok Hsim Hbuf (tab & hs & Har & Hc) Htw].
  destruct (AppendCi_spec p Hok Hn) as (q' & o & E' & Happ & Hq & _). rewrite E in E'. injection E' as -> <-.
  pose proof (app_objs _ _ _ Happ) as Eo.
  assert (Gia_ObjIsAnd o = false) as Ho.
  { unfold Gia_ManAppendCi in E. destruct (AppendObj_spec p Hok Hn) as (q1 & E1 & _ & _ & _ & Ha1). rewrite E1 in E. cbn [mbind option_bind] in E.
    injection E as E. pose proof (app_objs _ _ _ Happ) as Eo'. rewrite <- E in Eo'. cbn [pObjs set_terms] in Eo'.
    rewrite (app_objs _ _ _ (Ha1 _)) in Eo'. apply app_inj_2 in Eo' as [_ Eo']; [|done]. by injection Eo' as <-. }
  assert (forall i, is_and q i <-> is_and p i) as Hand.
  { intros i. unfold is_and. rewrite Eo. split; intros (o' & Hi & Ho').
    - apply lookup_app_Some in Hi as [Hi|[_ Hi]]; [by exists o'|]. destruct (i - _) as [|k]; [injection Hi as <-; congruence|done].
    - exists o'. split; [by apply lookup_app_l_Some|done]. }
  assert (forall i l0 l1, node_lits q i l0 l1 <-> node_lits p i l0 l1) as Hnl.
  { intros i l0 l1. split.
    - intros Hi. assert (is_and q i) as Hqi by (destruct Hi as (o' & H1 & H2 & _); by exists o').
      apply Hand, is_and_lt in Hqi. by apply (node_lits_grow p q i l0 l1 _ Eo).
    - apply node_lits_grows. by exists [o]. }
  constructor; [done|by rewrite (app_simple _ _ _ Happ)| | |intros i j l0 l1; rewrite !Hnl; apply Htw].
  - by rewrite (AppendCi_bufs _ _ _ E).
  - pose proof Har as [Ht Hh Hlh Hpos]. exists tab, (hs ++ [0%Z]). split.
    + constructor; [by rewrite (app_table _ _ _ Happ)| |by rewrite Eo, !length_app, Hlh|done].
      pose proof (app_hash _ _ _ Happ hs Hh (fun _ => Hlh)) as Hvh. rewrite (vec_size _ _ Ht) in Hvh.
      rewrite (proj2 (Z.eqb_neq _ 0)) in Hvh by lia. exact Hvh.
    + apply (chained_ext _ _ _ (is_and p)); [by intros i; rewrite Hand|]. apply (chained_frame p q tab hs _ _ Hc).
      * intros i l0 l1 _. by rewrite Hnl.
      * rewrite length_app. lia.
      * intros j Hj%is_and_lt. unfold rd. apply app_nth1. lia.
Qed.

(** What a lookup answers: the literal of the node with these fanins, or 0 when there is none. *)
Definition looked_up (p : Gia_Man_t) (l0 l1 l : Z) : Prop :=
  (exists i, 0 < i /\ l = (Z.of_nat i + Z.of_nat i)%Z /\ node_lits p i (Z.min l0 l1) (Z.max l0 l1)) \/
  l = 0%Z /\ forall i, ~ node_lits p i (Z.min l0 l1) (Z.max l0 l1).

Lemma looked_up_objs p q l0 l1 l : pObjs q = pObjs p -> looked_up p l0 l1 l -> looked_up q l0 l1 l.
Proof. intros E. unfold looked_up, node_lits. by rewrite E. Qed.

(** The primes above 2 and the odd numbers without an odd divisor. *)
Lemma small_table_size r : (0 <= r <= 3)%Z -> table_size r <-> (r = 1 \/ r = 3)%Z.
Proof.
  intros Hr. assert (r = 0 \/ r = 1 \/ r = 2 \/ r = 3)%Z as [->|[->|[->| ->]]] by lia; split; try (intros [Ho _]; done); try lia;
    intros _; (split; [done|]); intros d H3 _ Hd; nia.
Qed.

(** A manager with [n] inputs and a table, for examples. *)
Definition hashed_inputs (n : nat) : option Gia_Man_t :=
  p ← Gia_ManStart 16; p ← Gia_ManHashAlloc p;
  for_up n (fun _ p => p ← p; '(_, p) ← Gia_ManAppendCi p; Some p) (Some p).

Lemma hashed_inputs_ok n : (Z.of_nat n < 2 ^ 24)%Z -> exists p, hashed_inputs n = Some p /\ hash_ok p /\ nObjs p = Z.of_nat (S n).
Proof.
  intros Hn. unfold hashed_inputs. destruct (ManStart_ok 16) as (p & E & _); [lia|].
  destruct (start_hash_ok 16 p) as (q & Eq & Hq & Hnq); [lia|done|]. rewrite E. cbn [mbind option_bind]. rewrite Eq. cbn [mbind option_bind].
  apply (for_up_ind (fun i s => exists p, s = Some p /\ hash_ok p /\ nObjs p = Z.of_nat (S i))); [by exists q|].
  intros i s Hi (r & -> & Hr & Hnr). cbn [mbind option_bind].
  destruct (AppendCi_spec r (hok_gia r Hr)) as (t & o & Et & Ha & _); [lia|]. rewrite Et. cbn [mbind option_bind]. exists t.
  split; [done|]. split; [apply (AppendCi_hash_ok r t _ Hr ltac:(lia) Et)|]. rewrite (appended_nObjs _ _ _ Ha). lia.
Qed.

(** A graph of two gates without a table, for an example. *)
Definition two_gates : option Gia_Man_t :=
  p ← with_inputs 2; '(_, p) ← Gia_ManAppendAnd2 p 2 4; '(_, p) ← Gia_ManAppendAnd2 p 3 6; Some p.

Lemma two_gates_ok : exists p, two_gates = Some p /\ gia_ok p /\ hashable p.
Proof.
  destruct (with_inputs_ok 2) as (p0 & E0 & Hp0 & Hn0); [done|].
  destruct (AppendAnd2_builds p0 2 4 Hp0) with (n := 1) as (k1 & p1 & E1 & Hp1 & Hr1 & [Hl1 _] & _);
    [unfold gia_lit; rewrite Hn0; lia..|unfold gia_room; rewrite Hn0; lia|].
  assert (nObjs p1 = 4%Z) as Hn1 by (vm_compute in E0; injection E0 as <-; vm_compute in E1; by injection E1 as _ <-).
  destruct (AppendAnd2_builds p1 3 6 Hp1) with (n := 0) as (k2 & p & E2 & Hp & _);
    [unfold gia_lit; rewrite Hn1; lia..|unfold gia_room; rewrite Hn1; lia|].
  exists p. unfold two_gates. rewrite E0. cbn [mbind option_bind]. rewrite E1. cbn [mbind option_bind]. rewrite E2. cbn [mbind option_bind].
  split; [done|]. split; [done|].
  assert (pObjs p = [const_obj; {| iDiff0 := GIA_NONE; fCompl0 := false; fTerm := true; iDiff1 := 0; fCompl1 := false |};
    {| iDiff0 := GIA_NONE; fCompl0 := false; fTerm := true; iDiff1 := 1; fCompl1 := false |}; gate 3 2 4; gate 4 3 6]) as Eo.
  { vm_compute in E0. injection E0 as <-. vm_compute in E1. injection E1 as _ <-. vm_compute in E2. by injection E2 as _ <-. }
  assert (forall i a b, node_lits p i a b -> i = 3 /\ a = 2%Z \/ i = 4 /\ a = 3%Z) as Hnl.
  { intros i a b (o & Hi & Ho & F0 & _). rewrite Eo in Hi. destruct i as [|[|[|[|[|i]]]]]; try (injection Hi as <-); try done; [left|right];
      (split; [done|]); vm_compute in F0; congruence. }
  split.
  - intros i (o & Hi & Ho). unfold node_lits. rewrite Eo in *. destruct i as [|[|[|[|[|i]]]]]; try (injection Hi as <-); try done;
      [exists 2%Z, 4%Z|exists 3%Z, 6%Z]; eexists; (split; [reflexivity|]); repeat (split; [done|]); lia.
  - intros i j a b Hi%Hnl Hj%Hnl. lia.
Qed.

(** * Properties *)

(** The size of a table: the search ends for every number up to 33554467.  Above 2 it is the least prime that is
    not below the number; for 0 and 1 it is 1, and for 2 it is 3. *)
Theorem table_size_correct p : (0 <= p <= 33554467)%Z ->
  exists q, Abc_PrimeCudd p = Some q /\ (p <= q <= 33554467)%Z /\
    (2 < p -> prime q /\ forall r, p <= r < q -> ~ prime r)%Z /\ (p <= 1 -> q = 1)%Z /\ (p = 2 -> q = 3)%Z.
Proof.
  intros Hp. destruct (PrimeCudd_spec p Hp) as (q & E & Hq & Ht & Hmin). exists q. split; [done|]. split; [done|].
  split; [|split].
  - intros H2. split; [apply table_size_prime; [lia|done]|]. intros r Hr Hpr. apply (Hmin r Hr), table_size_prime; [lia|done].
  - intros H1. destruct (Z.le_gt_cases q 1) as [Hle|Hgt]; [|exfalso; apply (Hmin 1%Z); [lia|]; apply small_table_size; lia].
    apply small_table_size in Ht; lia.
  - intros ->. destruct (Z.le_gt_cases q 3) as [Hle|Hgt]; [|exfalso; apply (Hmin 3%Z); [lia|]; apply small_table_size; lia].
    apply small_table_size in Ht; lia.
Qed.

Lemma table_size_correct_witness : (0 <= 1000 <= 33554467)%Z /\ Abc_PrimeCudd 1000 = Some 1009%Z /\
  exists q, Abc_PrimeCudd 1000 = Some q /\ (1000 <= q <= 33554467)%Z /\
    (2 < 1000 -> prime q /\ forall r, 1000 <= r < q -> ~ prime r)%Z /\ (1000 <= 1 -> q = 1)%Z /\ (1000 = 2 -> q = 3)%Z.
Proof. split; [lia|]. split; [vm_compute; reflexivity|]. apply (table_size_correct 1000). lia. Defined.

(** C20. [Gia_ManHashAnd] in a manager with a table and fewer than [2 ^ 24] objects.  It returns a literal of the
    conjunction of its arguments and keeps the invariant: the table holds exactly the and-gates of the graph and no two
    of them have the same fanins.  At most one gate is added and all older literals keep their values.  The graph is
    canonical: whenever the graph has grown, a call with the same literals, in either order, returns the same literal
    and adds no object; and the lookup without construction finds it too. *)
Theorem hash_and_correct p l0 l1 : hash_ok p -> (nObjs p < 2 ^ 24)%Z -> gia_lit p l0 -> gia_lit p l1 ->
  exists l q, Gia_ManHashAnd p l0 l1 = Some (l, q) /\
    gia_adds hash_ok p 1 (fun x => gia_value x p l0 && gia_value x p l1) l q /\ vCis q = vCis p /\ vCos q = vCos p /\
    forall r, hash_ok r -> gia_grows q r -> Gia_ManHashAndTry r l0 l1 = Some l /\
      ((nObjs r < 2 ^ 24)%Z -> exists s t, Gia_ManHashAnd r l0 l1 = Some (l, s) /\ pObjs s = pObjs r /\
        Gia_ManHashAnd r l1 l0 = Some (l, t) /\ pObjs t = pObjs r).
Proof.
  intros Hp Hn H0 H1. destruct (HashAnd_spec p l0 l1 Hp Hn H0 H1) as (l & q & E & H). exists l, q. split; [done|].
  destruct (hash_and_value p l0 l1 l q Hp H0 H1 H) as [Hl Hv]. split; [|split; [apply H|split; [apply H|]]].
  - split; [apply H|]. split; [done|]. split; [done|]. split; [|apply H]. intros k. by apply gia_grows_ok, H.
  - intros r Hr Hg. split.
    + assert (forall m, gia_lit p m -> gia_lit r m) as Hlit
        by (intros m Hm; apply (gia_grows_ok q r m Hg), (gia_grows_ok p q m (ha_grows _ _ _ _ _ H) Hm)).
      destruct (HashAndTry_spec r l0 l1 Hr (Hlit _ H0) (Hlit _ H1)) as (k & -> & Hk). f_equal. pose proof (ha_lit _ _ _ _ _ H) as Hlt.
      destruct (and_simple l0 l1) as [[k'|]|]; [destruct Hlt as [-> _]; done|..].
      all: destruct Hlt as (i & -> & Hi%(node_lits_grows q r _ _ _ Hg)); destruct Hk as [(j & -> & Hj)|[_ Hno]]; [|by destruct (Hno i)].
      all: assert (i = j) as ->; [by apply (hok_twins r Hr i j _ _ Hi Hj)|done].
    + intros Hnr. destruct (HashAnd_again p l0 l1 l q r l0 l1 Hp H0 H1 H Hr Hg Hnr) as (s & Es & _ & Eo); [by left|].
      destruct (HashAnd_again p l0 l1 l q r l1 l0 Hp H0 H1 H Hr Hg Hnr) as (t & Et & _ & Eo'); [by right|]. by exists s, t.
Qed.

Lemma hash_and_correct_witness : exists p, hashed_inputs 2 = Some p /\
  (option_map fst (Gia_ManHashAnd p 2 4) = Some 6%Z /\ Gia_ManHashAndTry p 2 4 = Some (-1)%Z) /\
  exists l q, Gia_ManHashAnd p 2 4 = Some (l, q) /\
    gia_adds hash_ok p 1 (fun x => gia_value x p 2 && gia_value x p 4) l q /\ vCis q = vCis p /\ vCos q = vCos p /\
    forall r, hash_ok r -> gia_grows q r -> Gia_ManHashAndTry r 2 4 = Some l /\
      ((nObjs r < 2 ^ 24)%Z -> exists s t, Gia_ManHashAnd r 2 4 = Some (l, s) /\ pObjs s = pObjs r /\
        Gia_ManHashAnd r 4 2 = Some (l, t) /\ pObjs t = pObjs r).
Proof.
  destruct (hashed_inputs_ok 2) as (p & E & Hp & Hn); [done|]. exists p. split; [done|].
  split; [vm_compute in E; injection E as <-; vm_compute; split; reflexivity|].
  apply (hash_and_correct p 2 4); [done|rewrite Hn; lia|unfold gia_lit; rewrite Hn; lia..].
Defined.

(** C30. The other gates of a manager with a table: disjunction, majority, exclusive or and multiplexer, with their
    special cases for complemented arguments and their order, return literals of their functions, keep the invariant
    and the values of older literals, and add at most one, four, three and three objects. *)
Theorem hash_gates_correct p l0 l1 l2 : hash_ok p -> (nObjs p + 4 <= 2 ^ 24)%Z -> gia_lit p l0 -> gia_lit p l1 -> gia_lit p l2 ->
  let v l x := gia_value x p l in
  let adds n f r := exists l q, r = Some (l, q) /\ gia_adds hash_ok p n f l q in
  adds 1%Z (fun x => v l0 x || v l1 x) (Gia_ManHashOr p l0 l1) /\
  adds 4%Z (fun x => v l0 x && (v l1 x || v l2 x) || v l1 x && v l2 x) (Gia_ManHashMaj p l0 l1 l2) /\
  adds 3%Z (fun x => xorb (v l0 x) (v l1 x)) (Gia_ManHashXor p l0 l1) /\
  adds 3%Z (fun x => if v l0 x then v l1 x else v l2 x) (Gia_ManHashMux p l0 l1 l2).
Proof.
  intros Hok Hn H0 H1 H2 v adds.
  assert (forall l, gia_lit p l -> @am_is _ _ hash_manager p l (v l)) as Hv by (intros l Hl; by split).
  split; [|split; [|split]].
  - apply (hash_builds p 1); [lia|]. apply (@or_gate_builds _ _ hash_manager); auto.
  - apply (hash_builds p 4); [lia|]. apply (@maj_gate_builds _ _ hash_manager); auto.
  - apply (hash_builds p 3); [lia|]. apply HashXor_builds; auto.
  - apply (hash_builds p 3); [lia|]. apply HashMux_builds; auto.
Qed.

Lemma hash_gates_correct_witness : exists p, hashed_inputs 2 = Some p /\
  option_map fst (Gia_ManHashXor p 2 5) = Some 10%Z /\ option_map fst (Gia_ManHashMux p 2 4 3) = Some 9%Z /\
  let v l x := gia_value x p l in
  let adds n f r := exists l q, r = Some (l, q) /\ gia_adds hash_ok p n f l q in
  adds 1%Z (fun x => v 2%Z x || v 4%Z x) (Gia_ManHashOr p 2 4) /\
  adds 4%Z (fun x => v 2%Z x && (v 4%Z x || v 3%Z x) || v 4%Z x && v 3%Z x) (Gia_ManHashMaj p 2 4 3) /\
  adds 3%Z (fun x => xorb (v 2%Z x) (v 4%Z x)) (Gia_ManHashXor p 2 4) /\
  adds 3%Z (fun x => if v 2%Z x then v 4%Z x else v 3%Z x) (Gia_ManHashMux p 2 4 3).
Proof.
  destruct (hashed_inputs_ok 2) as (p & E & Hp & Hn); [done|]. exists p. split; [done|].
  assert (option_map fst (Gia_ManHashXor p 2 5) = Some 10%Z /\ option_map fst (Gia_ManHashMux p 2 4 3) = Some 9%Z) as [E1 E2].
  { vm_compute in E. injection E as <-. vm_compute. split; reflexivity. }
  split; [exact E1|]. split; [exact E2|]. apply (hash_gates_correct p 2 4 3); [done|rewrite Hn; lia|unfold gia_lit; rewrite Hn; lia..].
Defined.

(** C25. The table of a graph built without one, whose and-gates have ordered fanins, no two the same: [Gia_ManHashStart]
    and then [Gia_ManHashResize] pass their assertions, change only the two arrays of the table and give the invariant;
    the new table has at least twice as many entries as gates; before and after, a lookup answers the gate with the
    given fanins, in either order, or 0 when the graph has none.  [Gia_ManHashStop] empties both arrays. *)
Theorem hash_table_correct p : gia_ok p -> fGiaSimple p = false -> nBufs p = 0%Z -> vec (vHTable p) [] -> hashable p ->
  (Gia_ManAndNum p <= 2 ^ 24)%Z -> (nObjsAlloc p <= 33554467)%Z ->
  exists q r, Gia_ManHashStart p = Some q /\ q = set_hash p (vHash q) (vHTable q) /\ hash_ok q /\
    Gia_ManHashResize q = Some r /\ r = set_hash p (vHash r) (vHTable r) /\ hash_ok r /\
    (2 * Gia_ManAndNum p <= VecInt.nSize (vHTable r))%Z /\
    (forall l0 l1, gia_lit p l0 -> gia_lit p l1 -> l0 <> l1 ->
      exists l, Gia_ManHashLookupInt q l0 l1 = Some l /\ Gia_ManHashLookupInt r l0 l1 = Some l /\ looked_up p l0 l1 l) /\
    exists e, Gia_ManHashStop r = set_hash p e e /\ vec e [].
Proof.
  intros Hok Hsim Hbuf Ht Hh Ha Hal. destruct (HashStart_spec p Hok Hsim Hbuf Ht) as (q & E & Eq & Hq); [|done|].
  { unfold asked_size. pose proof (AndNum_le p Hok). destruct (_ =? _)%Z; cbn [negb]; lia. }
  assert (Gia_ManAndNum q = Gia_ManAndNum p) as En by by rewrite Eq.
  destruct (HashResize_spec q Hq) as (r & Er & Er' & Hr & n & Hn & Hsz & _); [by rewrite En|].
  exists q, r. split; [done|]. split; [done|]. split; [done|]. split; [done|]. split; [by rewrite Er', Eq|]. split; [done|].
  split; [by rewrite Hn, <- En|]. assert (pObjs q = pObjs p) as Eo by by rewrite Eq. assert (pObjs r = pObjs p) as Eo' by by rewrite Er', Eq.
  split; [|exists (Vec_IntErase (vHash p)); split; [rewrite Er', Eq; done|by constructor; cbn; unfold ABC_INT_MAX; try lia]].
  intros l0 l1 H0 H1 Hne.
  destruct (HashLookupInt_spec q l0 l1 Hq) as (l & El & Hl); [by unfold gia_lit, nObjs; rewrite Eo..|done|].
  destruct (HashLookupInt_spec r l0 l1 Hr) as (k & Ek & Hk); [by unfold gia_lit, nObjs; rewrite Eo'..|done|].
  apply (looked_up_objs q p _ _ _ (eq_sym Eo)) in Hl. apply (looked_up_objs r p _ _ _ (eq_sym Eo')) in Hk.
  exists l. split; [done|]. split; [|done]. rewrite Ek. f_equal.
  destruct Hl as [(i & _ & -> & Hi)|[-> Hno]], Hk as [(j & _ & -> & Hj)|[-> Hno']]; [|by destruct (Hno' i)|by destruct (Hno j)|done].
  destruct Hh as [_ Htw]. by rewrite (Htw i j _ _ Hi Hj).
Qed.

Lemma hash_table_correct_witness : exists p, two_gates = Some p /\
  (q ← Gia_ManHashStart p; q ← Gia_ManHashResize q; a ← Gia_ManHashLookupInt q 6 3; b ← Gia_ManHashLookupInt q 2 5; Some (a, b)) = Some (8, 0)%Z /\
  exists q r, Gia_ManHashStart p = Some q /\ q = set_hash p (vHash q) (vHTable q) /\ hash_ok q /\
    Gia_ManHashResize q = Some r /\ r = set_hash p (vHash r) (vHTable r) /\ hash_ok r /\
    (2 * Gia_ManAndNum p <= VecInt.nSize (vHTable r))%Z /\
    (forall l0 l1, gia_lit p l0 -> gia_lit p l1 -> l0 <> l1 ->
      exists l, Gia_ManHashLookupInt q l0 l1 = Some l /\ Gia_ManHashLookupInt r l0 l1 = Some l /\ looked_up p l0 l1 l) /\
    exists e, Gia_ManHashStop r = set_hash p e e /\ vec e [].
Proof.
  destruct two_gates_ok as (p & E & Hok & Hh). exists p. split; [done|].
  assert (fGiaSimple p = false /\ nBufs p = 0%Z /\ vHTable p = {| nCap := 0; nSize := 0; pArray := [] |} /\ Gia_ManAndNum p = 2%Z /\ nObjsAlloc p = 16%Z /\
    (q ← Gia_ManHashStart p; q ← Gia_ManHashResize q; a ← Gia_ManHashLookupInt q 6 3; b ← Gia_ManHashLookupInt q 2 5; Some (a, b)) = Some (8, 0)%Z)
    as (E1 & E2 & E3 & E4 & E5 & E6) by (vm_compute in E; injection E as <-; repeat (split; [reflexivity|]); vm_compute; reflexivity).
  split; [exact E6|]. apply (hash_table_correct p); [done|done|done|rewrite E3; by constructor; cbn; unfold ABC_INT_MAX; try lia|done|rewrite E4; lia|rewrite E5; lia].
Defined.
