(* ===== verification/GraphGia.v ===== *)
(** From a factored form to an and-inverter graph ([kitHop.c]): [Kit_GraphToGia] builds one and-gate for each
    gate of the factored form, on the literals of the leaves; [Kit_TruthToGia] does so for the factored form of a
    truth table.

    The routine over the gates is written once, for an and-routine; its theorem holds for every manager
    ([AndManager]), and the two and-routines that [kitHop.c] chooses from are instances.  A literal is kept in the
    field [pFunc] of its node, as in the code. *)
From S2P Require Import Prelude Words Minterm TruthBasic TruthSupp VecInt VecArray Minato Isop Graph Factor Flow AndMan Gia GiaHash.

(** * The routines *)

Section gates_of_graph.
Context {M : Type} (And : M -> Z -> Z -> option (Z * M)).

(** One iteration of the loop over the internal nodes. *)
Definition node_gate (i : nat) (s : option (Kit_Graph_t * M)) : option (Kit_Graph_t * M) :=
  '(pGraph, pMan) ← s;
  let pNode := Kit_GraphNode pGraph i in
  pAnd0 ← Abc_LitNotCond (pFunc (Kit_GraphNode pGraph (edge_node (eEdge0 pNode)))) (fCompl (eEdge0 pNode));
  pAnd1 ← Abc_LitNotCond (pFunc (Kit_GraphNode pGraph (edge_node (eEdge1 pNode)))) (fCompl (eEdge1 pNode));
  '(iFunc, pMan) ← And pMan pAnd0 pAnd1;
  Some (set_func pGraph i iFunc, pMan).

(** Without gates there is no last node: the null pointer is read. *)
Definition graph_gates (pMan : M) (pGraph : Kit_Graph_t) : option (Z * M) :=
  if Kit_GraphIsConst pGraph then r ← Abc_LitNotCond 1 (Kit_GraphIsComplement pGraph); Some (r, pMan)
  else if Kit_GraphIsVar pGraph then
    v ← Kit_GraphVarInt pGraph;
    r ← Abc_LitNotCond (pFunc (Kit_GraphNode pGraph v)) (Kit_GraphIsComplement pGraph); Some (r, pMan)
  else
    assert! nLeaves pGraph <? nSize pGraph in
    '(pGraph, pMan) ← for_range (nLeaves pGraph) (nSize pGraph) node_gate (Some (pGraph, pMan));
    r ← Abc_LitNotCond (pFunc (Kit_GraphNode pGraph (nSize pGraph - 1))) (Kit_GraphIsComplement pGraph); Some (r, pMan).
End gates_of_graph.

Definition Kit_GraphToGiaInternal (pMan : Gia_Man_t) (pGraph : Kit_Graph_t) (fHash : bool) : option (Z * Gia_Man_t) :=
  graph_gates (if fHash then Gia_ManHashAnd else Gia_ManAppendAnd2) pMan pGraph.

(** A pointer to an object is its number. *)
Definition Gia_ManCi (p : Gia_Man_t) (v : Z) : option Z := i ← Vec_IntEntry (vCis p) v; _ ← Gia_ManObj p i; Some i.
Definition Gia_ManPi (p : Gia_Man_t) (v : Z) : option Z := assert! (v <? Gia_ManPiNum p)%Z in Gia_ManCi p v.
(** The literal of an object, not complemented. *)
Definition Gia_Obj2Lit (p : Gia_Man_t) (pObj : Z) : option Z :=
  assert! (0 <=? pObj)%Z && (pObj <? nObjs p)%Z in Abc_Var2Lit pObj false.

(** The literal of the leaf [i]: without a vector of leaves, of the primary input. *)
Definition leaf_literal (pMan : Gia_Man_t) (vLeaves : option Vec_Int_t) (i : nat) : option Z :=
  match vLeaves with
  | Some vLeaves => Vec_IntEntry vLeaves (Z.of_nat i)
  | None => pObj ← Gia_ManPi pMan (Z.of_nat i); Gia_Obj2Lit pMan pObj
  end.
Definition Kit_GraphToGia (pMan : Gia_Man_t) (pGraph : Kit_Graph_t) (vLeaves : option Vec_Int_t) (fHash : bool) : option (Z * Gia_Man_t) :=
  pGraph ← for_up (nLeaves pGraph) (fun i pGraph =>
    pGraph ← pGraph; iFunc ← leaf_literal pMan vLeaves i; Some (set_func pGraph i iFunc)) (Some pGraph);
  Kit_GraphToGiaInternal pMan pGraph fHash.

(** The memory of the caller, or a new vector that is freed. *)
Definition own_memory (vMemory : option Vec_Int_t) : Vec_Int_t := default (Vec_IntAlloc 0) vMemory.

(** After a failed conversion the null pointer is read.  The answer is the literal, the manager, the memory and the table. *)
Definition Kit_TruthToGia (fuel : nat) (pMan : Gia_Man_t) (pTruth : list Z) (nVars : nat) (vMemory vLeaves : option Vec_Int_t) (fHash : bool)
  : option (Z * Gia_Man_t * option Vec_Int_t * list Z) :=
  '(pGraph, V, pTruth) ← Kit_TruthToGraph fuel pTruth nVars (own_memory vMemory);
  pGraph ← pGraph;
  '(iLit, pMan) ← Kit_GraphToGia pMan pGraph vLeaves fHash;
  Some (iLit, pMan, if vMemory is Some _ then Some V else None, pTruth).
Definition Kit_TruthToGia2 (fuel : nat) (pMan : Gia_Man_t) (pTruth0 pTruth1 : list Z) (nVars : nat) (vMemory vLeaves : option Vec_Int_t) (fHash : bool)
  : option (Z * Gia_Man_t * option Vec_Int_t * list Z * list Z) :=
  '(pGraph, V, pTruth0, pTruth1) ← Kit_TruthToGraph2 fuel pTruth0 pTruth1 nVars (own_memory vMemory);
  pGraph ← pGraph;
  '(iLit, pMan) ← Kit_GraphToGia pMan pGraph vLeaves fHash;
  Some (iLit, pMan, if vMemory is Some _ then Some V else None, pTruth0, pTruth1).

Definition Kit_IsopNodeNum (fuel : nat) (pTruth0 pTruth1 : list Z) (nVars : nat) (vMemory : option Vec_Int_t)
  : option (Z * option Vec_Int_t * list Z * list Z) :=
  '(pGraph, V, pTruth0, pTruth1) ← Kit_TruthToGraph2 fuel pTruth0 pTruth1 nVars (own_memory vMemory);
  pGraph ← pGraph;
  Some (Z.of_nat (Kit_GraphNodeNum pGraph), if vMemory is Some _ then Some V else None, pTruth0, pTruth1).

(** * The gates of a factored form, in any manager *)

Section any_manager.
Context {M : Type} `{AndManager M}.
Implicit Types (p q : M) (g : Kit_Graph_t) (mt : (nat -> bool) -> nat).

(** The first [i] nodes of [g'] hold literals of their functions in [g], when the leaves have the values of the bits of [mt x]. *)
Definition gates_upto g g' mt q (i : nat) : Prop :=
  same_graph g g' /\ forall j, j < i -> am_is q (pFunc (Kit_GraphNode g' j)) (fun x => node_eval g (mt x) j).

Lemma node_gate_step g mt g' p q m i : wf_graph g -> gates_upto g g' mt q i -> nLeaves g <= i < nSize g -> am_ok q -> am_room q (S m) -> am_grows p q ->
  exists g2 q2, node_gate am_and i (Some (g', q)) = Some (g2, q2) /\ gates_upto g g2 mt q2 (S i) /\ am_ok q2 /\ am_room q2 m /\ am_grows p q2.
Proof using.
  intros Hw [Hsame Ht] Hi Hq Hr Hg. unfold node_gate. cbn [mbind option_bind].
  pose proof Hsame as (_ & _ & _ & Hlen & He). pose proof (wf_size g Hw) as Hs.
  destruct (He i) as [-> ->]. destruct (wf_node g i Hw) as [H0%edge_in_node H1%edge_in_node]; [lia..|].
  destruct (am_LitNotCond q _ _ (fCompl (eEdge0 (Kit_GraphNode g i))) (Ht _ H0)) as (a0 & -> & A0). cbn [mbind option_bind].
  destruct (am_LitNotCond q _ _ (fCompl (eEdge1 (Kit_GraphNode g i))) (Ht _ H1)) as (a1 & -> & A1). cbn [mbind option_bind].
  destruct (am_and_builds q _ _ _ _ Hq A0 A1 m Hr) as (l & q2 & -> & Hq2 & R2 & Hl & Hg2). cbn [mbind option_bind].
  eexists _, q2. split; [done|]. split; [|do 2 (split; [done|]); by etransitivity]. split; [apply same_set_func; [done|lia]|].
  intros j Hj. rewrite node_set_func by lia. destruct (decide (j = i)) as [-> | ]; cbn [pFunc].
  - eapply am_is_ext; [|exact Hl]. intros x. cbv beta. by rewrite (node_eval_and g (mt x) i) by (done || lia).
  - apply (am_is_grows q); [done|]. apply Ht. lia.
Qed.

Lemma all_gates g mt g' p m : wf_graph g -> gates_upto g g' mt p (nLeaves g) -> am_ok p -> am_room p (nSize g - nLeaves g + m) ->
  exists g2 q, for_range (nLeaves g) (nSize g) (node_gate am_and) (Some (g', p)) = Some (g2, q) /\
    gates_upto g g2 mt q (nSize g) /\ am_ok q /\ am_room q m /\ am_grows p q.
Proof using.
  intros Hw Ht Hp Hr. pose proof (wf_leaves g Hw) as Hl.
  assert (exists g2 q, for_range (nLeaves g) (nSize g) (node_gate am_and) (Some (g', p)) = Some (g2, q) /\
    gates_upto g g2 mt q (nSize g) /\ am_ok q /\ am_room q (nSize g - nSize g + m) /\ am_grows p q) as Hall.
  { apply (for_range_ind (fun i s => exists g2 q, s = Some (g2, q) /\ gates_upto g g2 mt q i /\ am_ok q /\ am_room q (nSize g - i + m) /\ am_grows p q)); [done|by exists g', p|].
    intros i s Hi (g2 & q & -> & T & Hq & R & Hg). replace (nSize g - i + m) with (S (nSize g - S i + m)) in R by lia.
    by apply (node_gate_step g mt g2 p q _ i). }
  by rewrite Nat.sub_diag in Hall.
Qed.

(** The literal of the 1 is the constant of the managers that the graphs are converted to. *)
Lemma graph_gates_builds g mt g' p : (forall p, am_const1 p = 1%Z) -> readable g -> same_graph g g' -> fConst g' = fConst g -> am_ok p ->
  (forall j, j < nLeaves g -> am_is p (pFunc (Kit_GraphNode g' j)) (fun x => Nat.testbit (mt x) j)) ->
  am_builds p (Kit_GraphNodeNum g) (fun x => graph_eval g (mt x)) (graph_gates am_and p g').
Proof using.
  intros H1 Hr Hsame Hc Hp Hleaf m Hroom. unfold Kit_GraphNodeNum in Hroom. pose proof Hsame as (EL & ES & ER & Hlen & _).
  unfold graph_gates, graph_eval, Kit_GraphIsConst, Kit_GraphIsComplement, Kit_GraphVarInt.
  assert (am_room p m) as Hm by (apply (am_room_le p m (nSize g - nLeaves g + m)); [lia|done]).
  rewrite Hc. destruct (fConst g) eqn:Ec.
  { destruct (am_const1_ok p Hp) as [L1 V1]. rewrite H1 in L1, V1.
    destruct (am_LitNotCond p 1 (fun _ => true) (fCompl (eRoot g'))) as (l & -> & Hl); [by split|]. cbn [mbind option_bind].
    exists l, p. do 3 (split; [done|]). split; [|done]. rewrite ER in Hl. eapply am_is_ext; [|exact Hl].
    intros x. cbn. by destruct (fCompl (eRoot g)). }
  destruct (Hr Ec) as (Hw & Hroot & Hlast). destruct (Kit_GraphIsVar g') eqn:Ev; unfold Kit_GraphIsVar in Ev; rewrite ER, EL in Ev.
  - apply Z.ltb_lt in Ev. cbn [mbind option_bind]. rewrite ER.
    assert (edge_node (eRoot g) < nLeaves g) as Hlt by (unfold edge_in, edge_node in *; lia).
    destruct (am_LitNotCond p _ _ (fCompl (eRoot g)) (Hleaf _ Hlt)) as (l & -> & Hl). cbn [mbind option_bind].
    exists l, p. do 3 (split; [done|]). split; [|done]. eapply am_is_ext; [|exact Hl]. intros x. unfold edge_eval. by rewrite node_eval_leaf.
  - apply Z.ltb_ge in Ev. assert (edge_node (eRoot g) = nSize g - 1 /\ nLeaves g < nSize g) as [Hn Hlt]
      by (unfold edge_node, edge_in in *; lia).
    rewrite EL, ES, (proj2 (Nat.ltb_lt _ _) Hlt).
    destruct (all_gates g mt g' p m Hw) as (g2 & q & -> & [(_ & ES2 & ER2 & _) Ht] & Hq & Rq & Hg); [|done..|].
    { split; [done|]. intros j Hj. eapply am_is_ext; [|by apply Hleaf]. intros x. cbv beta. by rewrite node_eval_leaf. }
    cbn [mbind option_bind]. rewrite ES2, ER2.
    destruct (am_LitNotCond q _ _ (fCompl (eRoot g)) (Ht (nSize g - 1) ltac:(lia))) as (l & -> & Hl). cbn [mbind option_bind].
    exists l, q. do 3 (split; [done|]). split; [|done]. eapply am_is_ext; [|exact Hl]. intros x. unfold edge_eval. by rewrite Hn.
Qed.
End any_manager.

(** * The two and-routines *)

(** What [fHash] chooses: the routine, the invariant and the number of objects that the manager may not reach. *)
Definition gia_ops (fHash : bool) : AndOps Gia_Man_t := if fHash then hash_ops else append_ops.
Definition gia_manager (fHash : bool) : @AndManager Gia_Man_t (gia_ops fHash) :=
  match fHash with true => hash_manager | false => append_manager end.
Definition gia_good (fHash : bool) (p : Gia_Man_t) : Prop := if fHash then hash_ok p else gia_ok p.
Definition gia_limit (fHash : bool) : Z := if fHash then (2 ^ 24 + 1)%Z else (2 ^ 29)%Z.

Lemma gia_good_ok fHash p : gia_good fHash p -> gia_ok p.
Proof. destruct fHash; [apply hok_gia|done]. Qed.

(** The interface, read for the two routines. *)
Lemma gia_builds fHash p n f o : (nObjs p + Z.of_nat n < gia_limit fHash)%Z ->
  @am_builds Gia_Man_t _ (gia_manager fHash) p n f o -> exists l q, o = Some (l, q) /\ gia_adds (gia_good fHash) p (Z.of_nat n) f l q.
Proof.
  intros Hn Hb. destruct fHash; [apply hash_builds|apply append_builds]; try done; cbn [gia_limit] in Hn; lia.
Qed.

(** The minterm whose first variables have the values [bs]. *)
Fixpoint minterm (bs : list bool) : nat :=
  match bs with
  | [] => 0
  | b :: bs => Nat.b2n b + 2 * minterm bs
  end.

Lemma minterm_testbit bs i : Nat.testbit (minterm bs) i = nth i bs false.
Proof.
  revert i. induction bs as [|b bs IH]; intros i; cbn [minterm nth]; [rewrite Nat.bits_0; by destruct i|].
  rewrite Nat.add_comm. destruct i as [|i]; [apply Nat.testbit_0_r|]. rewrite Nat.testbit_succ_r. apply IH.
Qed.

Lemma minterm_lt bs : minterm bs < 2 ^ length bs.
Proof. induction bs as [|b bs IH]; cbn [minterm length]; [cbn; lia|]. rewrite Nat.pow_succ_r'. destruct b; cbn [Nat.b2n]; lia. Qed.

(** The literals of the leaves. *)
Definition leaves_of (p : Gia_Man_t) (vLeaves : option Vec_Int_t) (ls : list Z) : Prop :=
  forall i l, ls !! i = Some l -> leaf_literal p vLeaves i = Some l /\ gia_lit p l.

Lemma leaf_loop p vLeaves ls g : leaves_of p vLeaves ls -> nLeaves g <= length ls -> nLeaves g <= length (pNodes g) ->
  exists g', for_up (nLeaves g) (fun i g => g ← g; iFunc ← leaf_literal p vLeaves i; Some (set_func g i iFunc)) (Some g) = Some g' /\
    same_graph g g' /\ fConst g' = fConst g /\ forall j, j < nLeaves g -> ls !! j = Some (pFunc (Kit_GraphNode g' j)).
Proof.
  intros Hls Hl Hn.
  apply (for_up_ind (fun i s => exists g', s = Some g' /\ same_graph g g' /\ fConst g' = fConst g /\
    forall j, j < i -> ls !! j = Some (pFunc (Kit_GraphNode g' j)))).
  - exists g. split; [done|]. split; [by repeat split|]. split; [done|lia].
  - intros i s Hi (g' & -> & Hs & Hc & Hj). cbn [mbind option_bind].
    destruct (lookup_lt_is_Some_2 ls i) as [l El]; [lia|]. destruct (Hls i l El) as [-> _]. cbn [mbind option_bind].
    eexists. split; [done|]. split; [apply same_set_func; [done|lia]|]. split; [done|].
    pose proof Hs as (_ & _ & _ & Hlen & _). intros j Hji. rewrite node_set_func by lia.
    destruct (decide (j = i)) as [->|]; [done|]. apply Hj. lia.
Qed.

Lemma GraphToGia_spec fHash p g vLeaves ls : readable g -> nLeaves g <= length (pNodes g) -> nLeaves g <= length ls -> leaves_of p vLeaves ls ->
  gia_good fHash p -> (nObjs p + Z.of_nat (Kit_GraphNodeNum g) < gia_limit fHash)%Z ->
  exists l q, Kit_GraphToGia p g vLeaves fHash = Some (l, q) /\
    gia_adds (gia_good fHash) p (Z.of_nat (Kit_GraphNodeNum g)) (fun x => graph_eval g (minterm (map (gia_value x p) ls))) l q.
Proof.
  intros Hr Hlen Hl Hls Hp Hroom. destruct (leaf_loop p vLeaves ls g Hls Hl Hlen) as (g' & E & Hs & Hc & Hj).
  unfold Kit_GraphToGia. rewrite E. cbn [mbind option_bind]. apply gia_builds; [done|].
  replace (Kit_GraphToGiaInternal p g' fHash) with (graph_gates (@am_and _ (gia_ops fHash)) p g') by by destruct fHash.
  apply (@graph_gates_builds _ _ (gia_manager fHash) g (fun x => minterm (map (gia_value x p) ls))); [by destruct fHash|done..|by destruct fHash|].
  intros j Hlt. destruct (Hls j _ (Hj j Hlt)) as [_ Hlit].
  assert (forall x, gia_value x p (pFunc (Kit_GraphNode g' j)) = Nat.testbit (minterm (map (gia_value x p) ls)) j) as Hv.
  { intros x. rewrite minterm_testbit. symmetry. apply nth_lookup_Some. rewrite list_lookup_fmap. by rewrite (Hj j Hlt). }
  destruct fHash; by split.
Qed.

Lemma factored_leaves n cs c g : factored n cs c g -> nLeaves g <= length (pNodes g) /\ nLeaves g <= n.
Proof.
  intros HF. split; [|by apply (fac_leaves _ _ _ _ HF)]. destruct (fac_leaves _ _ _ _ HF) as [Hl _]. destruct (fConst g) eqn:Ec.
  - rewrite (fac_empty _ _ _ _ HF Ec) in Hl. lia.
  - destruct (fac_readable _ _ _ _ HF Ec) as [Hw _]. by rewrite <- (wf_size g Hw).
Qed.

(** Primary inputs. *)
Lemma input_leaf p i : gia_ok p -> (0 <= nRegs p)%Z -> (Z.of_nat i < Gia_ManPiNum p)%Z ->
  exists l, leaf_literal p None i = Some l /\ gia_lit p l /\ forall x, gia_value x p l = x i.
Proof.
  intros Hok Hr Hi. pose proof (ok_cis p Hok) as Hv. pose proof (vec_size _ _ Hv) as Hs.
  assert (i < length (places Gia_ObjIsCi 0 (pObjs p))) as Hlt by (unfold Gia_ManPiNum in Hi; lia).
  destruct (lookup_lt_is_Some_2 _ _ Hlt) as [z Ez]. pose proof (list_elem_of_lookup_2 _ _ _ Ez) as Hin.
  apply elem_places in Hin as (k & o & Eo & Hci & ->). rewrite Nat.add_0_l in Ez. pose proof (lookup_lt_Some _ _ _ Eo) as Hk.
  exists (Z.of_nat k + Z.of_nat k)%Z. assert (gia_lit p (Z.of_nat k + Z.of_nat k)) as Hlit by (unfold gia_lit, nObjs; lia).
  split; [|split; [done|]].
  - unfold leaf_literal, Gia_ManPi. rewrite (proj2 (Z.ltb_lt _ _) Hi). unfold Gia_ManCi. rewrite (Entry_vec _ _ i Hv Hlt).
    assert ((places Gia_ObjIsCi 0 (pObjs p)).[i] = Z.of_nat k) as -> by (unfold rd; by apply nth_lookup_Some).
    cbn [mbind option_bind]. unfold Gia_ManObj, Gia_Obj2Lit. rewrite (proj2 (Z.leb_le 0 _)), (proj2 (Z.ltb_lt _ _)) by (unfold nObjs; lia).
    cbn [andb]. rewrite Nat2Z.id, Eo. cbn [mbind option_bind]. rewrite (proj2 (Z.leb_le 0 _)), (proj2 (Z.ltb_lt _ _)) by (unfold nObjs; lia). apply Var2Lit_ok.
  - intros x. unfold gia_value. destruct (var_lit (Z.of_nat k) false) as [Ev Eb]; [lia|]. cbn [Z.b2z] in Ev, Eb. rewrite Z.add_0_r in Ev, Eb.
    rewrite Ev, Eb, Nat2Z.id, (nth_values x _ k o Eo), xorb_false_l. unfold obj_value. rewrite Hci.
    rewrite (ok_ci p Hok i k o Ez Eo). by rewrite Nat2Z.id.
Qed.

(** Nothing is added to a full manager: the program ends. *)
Lemma AppendObj_full p : gia_ok p -> nObjs p = (2 ^ 29)%Z -> Gia_ManAppendObj p = None.
Proof.
  intros Hok E. pose proof (ok_alloc p Hok). unfold Gia_ManAppendObj, extend_objs. assert (nObjsAlloc p = 2 ^ 29)%Z as -> by lia. by rewrite E.
Qed.

(** The gates of a factored form are fewer than the literals of its cover. *)
Lemma factored_gates n cs c g : factored n cs c g -> Kit_GraphNodeNum g <= mu cs.
Proof.
  intros HF. unfold Kit_GraphNodeNum, mu. destruct (fConst g) eqn:Ec.
  - rewrite (fac_empty _ _ _ _ HF Ec). lia.
  - destruct (fac_gates _ _ _ _ HF Ec). lia.
Qed.

(** The minterm of the leaves, in the range of a table. *)
Lemma minterm_range n (bs : list bool) : length bs = n -> minterm bs < nmint n.
Proof. intros <-. eapply Nat.lt_le_trans; [apply minterm_lt|]. apply Nat.pow_le_mono_r; lia. Qed.

(** A manager with three inputs and a table, and with the literals of the inputs. *)
Lemma three_leaves p : hashed_inputs 3 = Some p -> leaves_of p None [2; 4; 6]%Z.
Proof.
  intros E. vm_compute in E. injection E as <-. intros i l Hi.
  destruct i as [|[|[|i]]]; [injection Hi as <-..|done]; (split; [reflexivity|by split]).
Qed.

(** * Properties *)

(** Inputs and outputs: [Gia_ManAppendCi] returns a literal with the value of the next input, [Gia_ManAppendCo] an
    object with the value of its driver, which is not an output itself; both keep the invariant and the values of older
    literals and count the terminal.  The literal of the primary input [i] has the value of the input [i].  A manager
    with [2 ^ 29] objects takes no further object. *)
Theorem gia_terminals_correct p l : gia_ok p -> (nObjs p < 2 ^ 29 - 1)%Z -> gia_lit p l ->
  (forall o, pObjs p !! lit_var l = Some o -> Gia_ObjIsCo o = false) ->
  (exists q, Gia_ManAppendCi p = Some (Z.shiftl (nObjs p) 1, q) /\ gia_adds gia_ok p 1 (fun x => x (Z.to_nat (Gia_ManCiNum p))) (Z.shiftl (nObjs p) 1) q /\
    Gia_ManCiNum q = (Gia_ManCiNum p + 1)%Z /\ Gia_ManCoNum q = Gia_ManCoNum p) /\
  (exists q, Gia_ManAppendCo p l = Some (Z.shiftl (nObjs p) 1, q) /\ gia_adds gia_ok p 1 (fun x => gia_value x p l) (Z.shiftl (nObjs p) 1) q /\
    Gia_ManCiNum q = Gia_ManCiNum p /\ Gia_ManCoNum q = (Gia_ManCoNum p + 1)%Z) /\
  (forall i, (0 <= nRegs p)%Z -> (Z.of_nat i < Gia_ManPiNum p)%Z ->
    exists k, leaf_literal p None i = Some k /\ gia_lit p k /\ forall x, gia_value x p k = x i) /\
  forall r, gia_ok r -> nObjs r = (2 ^ 29)%Z -> Gia_ManAppendCi r = None /\ Gia_ManAppendAnd r 2 4 = None.
Proof.
  intros Hok Hn Hl Hd. split; [|split; [|split]].
  - destruct (AppendCi_spec p Hok) as (q & o & E & Ha & Hq & Hci & Hco & Hv); [lia|]. exists q. split; [done|]. split; [|done].
    split; [done|]. split; [by apply (new_literal p q o)|]. split; [done|]. split; [intros k; by apply gia_grows_ok, (appended_grows p q o)|].
    rewrite (appended_nObjs _ _ _ Ha). lia.
  - destruct (AppendCo_spec p l Hok Hn Hl Hd) as (q & o & E & Ha & Hq & Hci & Hco & Hv). exists q. split; [done|]. split; [|done].
    split; [done|]. split; [by apply (new_literal p q o)|]. split; [done|]. split; [intros k; by apply gia_grows_ok, (appended_grows p q o)|].
    rewrite (appended_nObjs _ _ _ Ha). lia.
  - intros i Hr Hi. by apply input_leaf.
  - intros r Hr E. unfold Gia_ManAppendCi, Gia_ManAppendAnd. by rewrite AppendObj_full.
Qed.

Lemma gia_terminals_correct_witness : exists p, with_inputs 3 = Some p /\ leaf_literal p None 2 = Some 6%Z /\
  ((exists q, Gia_ManAppendCi p = Some (Z.shiftl (nObjs p) 1, q) /\ gia_adds gia_ok p 1 (fun x => x (Z.to_nat (Gia_ManCiNum p))) (Z.shiftl (nObjs p) 1) q /\
    Gia_ManCiNum q = (Gia_ManCiNum p + 1)%Z /\ Gia_ManCoNum q = Gia_ManCoNum p) /\
  (exists q, Gia_ManAppendCo p 5 = Some (Z.shiftl (nObjs p) 1, q) /\ gia_adds gia_ok p 1 (fun x => gia_value x p 5) (Z.shiftl (nObjs p) 1) q /\
    Gia_ManCiNum q = Gia_ManCiNum p /\ Gia_ManCoNum q = (Gia_ManCoNum p + 1)%Z) /\
  (forall i, (0 <= nRegs p)%Z -> (Z.of_nat i < Gia_ManPiNum p)%Z ->
    exists k, leaf_literal p None i = Some k /\ gia_lit p k /\ forall x, gia_value x p k = x i) /\
  forall r, gia_ok r -> nObjs r = (2 ^ 29)%Z -> Gia_ManAppendCi r = None /\ Gia_ManAppendAnd r 2 4 = None).
Proof.
  destruct (with_inputs_ok 3) as (p & E & Hok & Hn); [done|]. exists p. split; [done|].
  split; [vm_compute in E; injection E as <-; reflexivity|].
  apply (gia_terminals_correct p 5); [done|rewrite Hn; lia|unfold gia_lit; rewrite Hn; lia|].
  intros o Ho. vm_compute in E. injection E as <-. vm_compute in Ho. by injection Ho as <-.
Defined.

(** C7. [Kit_TruthToGia] up to seven variables, on a table of a function of the variables, with valid leaf literals (a
    vector, or the primary inputs), whatever the memory and with or without the table of gates: no assertion fails, the
    table is restored, and the literal returned has, for all values of the inputs, the value of the table at the
    minterm of the values of the leaves.  The invariant of the manager holds again, older literals keep their values,
    and the objects added are no more than the literal count of [Kit_TruthLitNum] less one. *)
Theorem truth_to_gia_correct fuel fHash pMan pTruth nVars vMemory vLeaves ls :
  nVars <= 7 -> is_tt nVars pTruth -> depends_below nVars (tfun nVars pTruth) -> 2 ^ nVars * (nVars + 1) < fuel ->
  gia_good fHash pMan -> leaves_of pMan vLeaves ls -> length ls = nVars ->
  (nObjs pMan + Z.of_nat (2 ^ nVars * (nVars + 1)) < gia_limit fHash)%Z ->
  exists l q vm k vm', Kit_TruthToGia fuel pMan pTruth nVars vMemory vLeaves fHash = Some (l, q, vm, pTruth) /\
    Kit_TruthLitNum fuel pTruth nVars (own_memory vMemory) = Some (k, vm', pTruth) /\
    gia_adds (gia_good fHash) pMan (k - 1) (fun x => tbit pTruth (minterm (map (gia_value x pMan) ls))) l q.
Proof.
  intros Hn Ht Hd Hf Hp Hls Hlen Hroom.
  destruct (TruthToGraph_spec fuel nVars pTruth (own_memory vMemory) Hn Ht Hd Hf) as (g & V' & cs & c & E & HF & _ & Hmu & He & Hlit).
  destruct (factored_leaves _ _ _ _ HF) as [Hl1 Hl2]. pose proof (factored_gates _ _ _ _ HF) as Hg.
  destruct (GraphToGia_spec fHash pMan g vLeaves ls) as (l & q & Eg & HA); [apply HF|done|lia|done|done|lia|].
  unfold Kit_TruthToGia. rewrite E. cbn [mbind option_bind]. rewrite Eg. cbn [mbind option_bind].
  eexists l, q, _, _, V'. split; [done|]. split; [exact Hlit|]. destruct HA as (H1 & H2 & H3 & H4 & H5).
  split; [done|]. split; [done|]. split; [|split; [done|lia]].
  intros x. rewrite H3, He. apply tfun_small, minterm_range. by rewrite length_map.
Qed.

Lemma truth_to_gia_correct_witness : exists p, hashed_inputs 3 = Some p /\
  option_map (fun r => r.1.1.1) (Kit_TruthToGia 33 p [0xCACACACA]%Z 3 None None true) = Some 13%Z /\
  exists l q vm k vm', Kit_TruthToGia 33 p [0xCACACACA]%Z 3 None None true = Some (l, q, vm, [0xCACACACA]%Z) /\
    Kit_TruthLitNum 33 [0xCACACACA]%Z 3 (own_memory None) = Some (k, vm', [0xCACACACA]%Z) /\
    gia_adds (gia_good true) p (k - 1) (fun x => tbit [0xCACACACA]%Z (minterm (map (gia_value x p) [2; 4; 6]%Z))) l q.
Proof.
  destruct (hashed_inputs_ok 3) as (p & E & Hp & Hn); [done|]. exists p. split; [done|].
  split; [vm_compute in E; injection E as <-; vm_compute; reflexivity|].
  apply (truth_to_gia_correct 33 true p [0xCACACACA]%Z 3 None None [2; 4; 6]%Z).
  - lia.
  - concrete_tt.
  - three_variables [0xCACACACA]%Z.
  - by apply Nat.ltb_lt.
  - exact Hp.
  - by apply three_leaves.
  - done.
  - rewrite Hn. unfold gia_limit. cbn. lia.
Defined.

(** C32. [Kit_TruthToGia2] between the tables of an off-set and of an on-set that do not meet, under the same conditions:
    the literal returned is true where the leaves are in the on-set and false where they are in the off-set; the objects
    added are no more than the answer of [Kit_IsopNodeNum] for the two tables. *)
Theorem truth_to_gia2_correct fuel fHash pMan pTruth0 pTruth1 nVars vMemory vLeaves ls :
  nVars <= 7 -> is_tt nVars pTruth0 -> is_tt nVars pTruth1 ->
  depends_below nVars (tfun nVars pTruth0) -> depends_below nVars (tfun nVars pTruth1) ->
  (forall m, m < nmint nVars -> tbit pTruth1 m = true -> tbit pTruth0 m = false) -> 2 ^ nVars * (nVars + 1) < fuel ->
  gia_good fHash pMan -> leaves_of pMan vLeaves ls -> length ls = nVars ->
  (nObjs pMan + Z.of_nat (2 ^ nVars * (nVars + 1)) < gia_limit fHash)%Z ->
  exists l q vm k vm' f, Kit_TruthToGia2 fuel pMan pTruth0 pTruth1 nVars vMemory vLeaves fHash = Some (l, q, vm, pTruth0, pTruth1) /\
    Kit_IsopNodeNum fuel pTruth0 pTruth1 nVars vMemory = Some (k, vm', pTruth0, pTruth1) /\
    gia_adds (gia_good fHash) pMan k f l q /\
    forall x, let m := minterm (map (gia_value x pMan) ls) in
      (tbit pTruth1 m = true -> f x = true) /\ (tbit pTruth0 m = true -> f x = false).
Proof.
  intros Hn H0 H1 D0 D1 Hdis Hf Hp Hls Hlen Hroom.
  destruct (TruthToGraph2_spec fuel nVars pTruth0 pTruth1 (own_memory vMemory) Hn H0 H1 D0 D1 Hdis Hf) as (g & V' & cs & c & E & HF & Hmu & He).
  destruct (factored_leaves _ _ _ _ HF) as [Hl1 Hl2]. pose proof (factored_gates _ _ _ _ HF) as Hg.
  destruct (GraphToGia_spec fHash pMan g vLeaves ls) as (l & q & Eg & HA); [apply HF|done|lia|done|done|lia|].
  unfold Kit_TruthToGia2, Kit_IsopNodeNum. rewrite E. cbn [mbind option_bind]. rewrite Eg. cbn [mbind option_bind].
  eexists l, q, _, _, _, _. split; [done|]. split; [done|]. split; [exact HA|].
  intros x. apply He, minterm_range. by rewrite length_map.
Qed.

Lemma truth_to_gia2_correct_witness : exists p, hashed_inputs 3 = Some p /\
  option_map (fun r => r.1.1.1.1) (Kit_TruthToGia2 33 p [0x07070707]%Z [0x88888888]%Z 3 None None false) = Some 8%Z /\
  exists l q vm k vm' f, Kit_TruthToGia2 33 p [0x07070707]%Z [0x88888888]%Z 3 None None false = Some (l, q, vm, [0x07070707]%Z, [0x88888888]%Z) /\
    Kit_IsopNodeNum 33 [0x07070707]%Z [0x88888888]%Z 3 None = Some (k, vm', [0x07070707]%Z, [0x88888888]%Z) /\
    gia_adds (gia_good false) p k f l q /\
    forall x, let m := minterm (map (gia_value x p) [2; 4; 6]%Z) in
      (tbit [0x88888888]%Z m = true -> f x = true) /\ (tbit [0x07070707]%Z m = true -> f x = false).
Proof.
  destruct (hashed_inputs_ok 3) as (p & E & Hp & Hn); [done|]. exists p. split; [done|].
  split; [vm_compute in E; injection E as <-; vm_compute; reflexivity|].
  apply (truth_to_gia2_correct 33 false p [0x07070707]%Z [0x88888888]%Z 3 None None [2; 4; 6]%Z).
  - lia.
  - concrete_tt.
  - concrete_tt.
  - three_variables [0x07070707]%Z.
  - three_variables [0x88888888]%Z.
  - intros m Hm. do 32 (destruct m as [|m]; [vm_compute; congruence|]). unfold nmint in Hm. cbn in Hm. lia.
  - by apply Nat.ltb_lt.
  - apply hok_gia, Hp.
  - by apply three_leaves.
  - done.
  - rewrite Hn. unfold gia_limit. cbn. lia.
Defined.
