(* ===== verification/Resub.v ===== *)
(** Factored forms as lists of gates ([kitHop.c], [giaDecs.c]): [Kit_IsopResub] writes the factored form between two
    tables as pairs of literals, and [Gia_ResubToTruth6] evaluates such a list in a word of 64 bits.

    The literals 0 and 1 are the constants, the variable [v] has the number [v + 2] and the gates follow the variables;
    the last entry is the literal of the result.  A pair in decreasing order would be an exclusive or, so that the
    writer orders the two literals. *)
From S2P Require Import Prelude Words Minterm TruthBasic TruthCof TruthSupp VecInt VecArray Cube Minato Isop Graph Sop Divide Kernel Factor Flow Pla AndMan GraphGia.

(** * The routines *)

(** The two literals of a gate, in increasing order. *)
Definition gate_pair (pGraph : Kit_Graph_t) (pNode : nat) : option (Z * Z) :=
  pFan0 ← Kit_GraphNodeFanin0 pGraph pNode;
  pFan1 ← Kit_GraphNodeFanin1 pGraph pNode;
  iLit0 ← Abc_Var2Lit (Z.of_nat pFan0) (fCompl (eEdge0 (Kit_GraphNode pGraph pNode)));
  iLit1 ← Abc_Var2Lit (Z.of_nat pFan1) (fCompl (eEdge1 (Kit_GraphNode pGraph pNode)));
  Some (if (iLit1 <? iLit0)%Z then (iLit1, iLit0) else (iLit0, iLit1)).

Definition Kit_IsopResubInt (pGraph : Kit_Graph_t) (vRes : Vec_Int_t) : option Vec_Int_t :=
  assert! Kit_GraphLeaveNum pGraph <=? nSize pGraph in
  if Kit_GraphIsConst pGraph then Some (Vec_IntPush vRes (Z.b2z (Kit_GraphIsConst1 pGraph)))
  else if Kit_GraphIsVar pGraph then
    v ← Kit_GraphVarInt pGraph;
    l ← Abc_Var2Lit (Z.of_nat v) (Kit_GraphIsComplement pGraph);
    Some (Vec_IntPush vRes (4 + l))
  else
    vRes ← for_range (nLeaves pGraph) (nSize pGraph) (fun i vRes =>
      vRes ← vRes; '(iLit0, iLit1) ← gate_pair pGraph i; Some (Vec_IntPushTwo vRes (4 + iLit0) (4 + iLit1))) (Some vRes);
    assert! (nLeaves pGraph <? nSize pGraph) && (edge_node (eRoot pGraph) =? nSize pGraph - 1) in
    l ← Abc_Var2Lit (Z.of_nat (nSize pGraph - 1)) (Kit_GraphIsComplement pGraph);
    Some (Vec_IntPush vRes (4 + l)).

Definition Kit_IsopResub (fuel : nat) (pTruth0 pTruth1 : list Z) (nVars : nat) (vMemory : option Vec_Int_t)
  : option (Vec_Int_t * option Vec_Int_t * list Z * list Z) :=
  '(pGraph, V, pTruth0, pTruth1) ← Kit_TruthToGraph2 fuel pTruth0 pTruth1 nVars (own_memory vMemory);
  pGraph ← pGraph;
  let nNodes := Z.of_nat (Kit_GraphNodeNum pGraph) in
  vRes ← Kit_IsopResubInt pGraph (Vec_IntAlloc (2 * nNodes + 1));
  assert! (VecInt.nSize vRes =? 2 * nNodes + 1)%Z in
  Some (vRes, if vMemory is Some _ then Some V else None, pTruth0, pTruth1).

Definition Gia_ResubVarNum (vResub : Vec_Int_t) : option Z :=
  last ← Vec_IntEntryLast vResub;
  if (VecInt.nSize vResub =? 1)%Z then Some (Z.b2z (2 <=? last)%Z)
  else Some (Z.quot last 2 - Z.quot (VecInt.nSize vResub) 2 - 1)%Z.

(** The elementary tables [s_Truths6] are the first six entries of [Truth6]. *)
Fixpoint Gia_ResubToTruth6_rec (fuel : nat) (vResub : Vec_Int_t) (iNode nVars : Z) : option Z :=
  match fuel with
  | O => None
  | S fuel =>
    assert! (0 <=? iNode)%Z && (nVars <=? 6)%Z in
    if (iNode <? nVars)%Z then Some Truth6.[Z.to_nat iNode]
    else
      k0 ← Abc_Var2Lit (iNode - nVars) false; iLit0 ← Vec_IntEntry vResub k0;
      k1 ← Abc_Var2Lit (iNode - nVars) true; iLit1 ← Vec_IntEntry vResub k1;
      v0 ← Abc_Lit2Var iLit0; Res0 ← Gia_ResubToTruth6_rec fuel vResub (v0 - 2) nVars;
      v1 ← Abc_Lit2Var iLit1; Res1 ← Gia_ResubToTruth6_rec fuel vResub (v1 - 2) nVars;
      c0 ← Abc_LitIsCompl iLit0; let Res0 := if c0 : bool then wnot64 Res0 else Res0 in
      c1 ← Abc_LitIsCompl iLit1; let Res1 := if c1 : bool then wnot64 Res1 else Res1 in
      Some (if (iLit1 <? iLit0)%Z then Z.lxor Res0 Res1 else Z.land Res0 Res1)
  end.

(** The nodes of a list of gates are fewer than its entries and variables together. *)
Definition Gia_ResubToTruth6 (vResub : Vec_Int_t) : option Z :=
  iRoot ← Vec_IntEntryLast vResub;
  if (iRoot <? 2)%Z then Some (if negb (iRoot =? 0)%Z then (2 ^ 64 - 1)%Z else 0%Z)
  else
    assert! negb (iRoot =? 2)%Z && negb (iRoot =? 3)%Z in
    v ← Abc_Lit2Var iRoot;
    nVars ← Gia_ResubVarNum vResub;
    Res ← Gia_ResubToTruth6_rec (Z.to_nat v) vResub (v - 2) nVars;
    c ← Abc_LitIsCompl iRoot;
    Some (if c : bool then wnot64 Res else Res).

(** * What the list holds *)

Lemma Var2Lit_compl i (c : bool) : Abc_Var2Lit (Z.of_nat i) c = Some (Z.of_nat i + Z.of_nat i + Z.b2z c)%Z.
Proof. unfold Abc_Var2Lit. by rewrite (proj2 (Z.leb_le 0 _)) by lia. Qed.

(** The literal of an edge, and its value. *)
Lemma edge_lit g e m : let l := (Z.of_nat (edge_node e) + Z.of_nat (edge_node e) + Z.b2z (fCompl e))%Z in
  (0 <= l)%Z /\ lit_var l = edge_node e /\ xorb (lit_bit l) (node_eval g m (lit_var l)) = edge_eval g m e.
Proof.
  cbv zeta. destruct (var_lit (Z.of_nat (edge_node e)) (fCompl e)) as [-> ->]; [lia|]. rewrite Nat2Z.id. split; [destruct (fCompl e); cbn; lia|done].
Qed.

(** The pair is in order, names earlier nodes, and its conjunction is the function of the node. *)
Definition pair_of (g : Kit_Graph_t) (i : nat) (a b : Z) : Prop :=
  (0 <= a <= b)%Z /\ lit_var a < i /\ lit_var b < i /\
  forall m, node_eval g m i = xorb (lit_bit a) (node_eval g m (lit_var a)) && xorb (lit_bit b) (node_eval g m (lit_var b)).

Lemma gate_pair_spec g i : wf_graph g -> nLeaves g <= i < nSize g -> exists a b, gate_pair g i = Some (a, b) /\ pair_of g i a b.
Proof.
  intros Hw [Hl Hi]. unfold gate_pair, Kit_GraphNodeFanin0, Kit_GraphNodeFanin1, Kit_GraphNodeIsVar.
  rewrite (proj2 (Nat.ltb_ge _ _) Hl). cbn [mbind option_bind]. rewrite !Var2Lit_compl. cbn [mbind option_bind].
  destruct (wf_node g i Hw Hl Hi) as [H0%edge_in_node H1%edge_in_node].
  pose proof (fun m => edge_lit g (eEdge0 (Kit_GraphNode g i)) m) as L0. pose proof (fun m => edge_lit g (eEdge1 (Kit_GraphNode g i)) m) as L1.
  pose proof (fun m => node_eval_and g m i Hw Hl Hi) as Hand. cbv zeta in L0, L1.
  set (a := (Z.of_nat (edge_node (eEdge0 _)) + _ + _)%Z) in *. set (b := (Z.of_nat (edge_node (eEdge1 _)) + _ + _)%Z) in *.
  destruct (L0 0) as (A0 & A1 & _), (L1 0) as (B0 & B1 & _).
  assert (forall m, node_eval g m i = xorb (lit_bit a) (node_eval g m (lit_var a)) && xorb (lit_bit b) (node_eval g m (lit_var b))) as Hm.
  { intros m. destruct (L0 m) as (_ & _ & ->), (L1 m) as (_ & _ & ->). apply Hand. }
  destruct (Z.ltb_spec b a); eexists _, _; (split; [done|]); (split; [lia|]); (split; [lia|]); (split; [lia|]); [|exact Hm].
  intros m. by rewrite Hm, andb_comm.
Qed.

(** The entries of the gates up to [i]. *)
Definition gates_of (g : Kit_Graph_t) (i : nat) (xs : list Z) : Prop :=
  forall k a b, nLeaves g <= k < i -> gate_pair g k = Some (a, b) -> xs.[2 * (k - nLeaves g)] = (4 + a)%Z /\ xs.[2 * (k - nLeaves g) + 1] = (4 + b)%Z.

Lemma gates_of_app g i xs ys : gates_of g i xs -> 2 * (i - nLeaves g) <= length xs -> gates_of g i (xs ++ ys).
Proof. intros H Hl k a b Hk E. destruct (H k a b Hk E) as [<- <-]. split; unfold rd; by rewrite app_nth1 by lia. Qed.

Lemma gates_loop g v : wf_graph g -> vec v [] -> (2 * Z.of_nat (nSize g) < ABC_INT_MAX - 4)%Z ->
  exists v' xs, for_range (nLeaves g) (nSize g) (fun i vRes =>
      vRes ← vRes; '(iLit0, iLit1) ← gate_pair g i; Some (Vec_IntPushTwo vRes (4 + iLit0) (4 + iLit1))) (Some v) = Some v' /\
    vec v' xs /\ length xs = 2 * (nSize g - nLeaves g) /\ gates_of g (nSize g) xs.
Proof.
  intros Hw Hv Hn. pose proof (wf_leaves g Hw) as Hle.
  apply (for_range_ind (fun i s => exists v' xs, s = Some v' /\ vec v' xs /\ length xs = 2 * (i - nLeaves g) /\ gates_of g i xs)); [done| |].
  - exists v, []. split; [done|]. split; [done|]. split; [cbn; lia|]. intros k a b Hk. lia.
  - intros i s Hi (v' & xs & -> & Hv' & Hl & Hg). cbn [mbind option_bind].
    destruct (gate_pair_spec g i Hw) as (a & b & E & _); [lia|]. rewrite E. cbn [mbind option_bind].
    eexists _, ((xs ++ [(4 + a)%Z]) ++ [(4 + b)%Z]). split; [done|]. split; [unfold Vec_IntPushTwo; repeat apply Push_vec; rewrite ?length_app; cbn [length]; try done; lia|].
    split; [rewrite !length_app; cbn [length]; lia|]. rewrite <- app_assoc. intros k c d Hk Ek.
    destruct (decide (k = i)) as [->|Hne]; [|apply (gates_of_app g i xs _ Hg); [lia..|done]].
    rewrite E in Ek. injection Ek as <- <-. split; unfold rd; rewrite app_nth2 by lia.
    + by replace (2 * (i - nLeaves g) - length xs) with 0 by lia.
    + by replace (2 * (i - nLeaves g) + 1 - length xs) with 1 by lia.
Qed.

(** The list of a graph: the gates and then the root. *)
Definition list_of (g : Kit_Graph_t) (xs : list Z) : Prop :=
  length xs = 2 * Kit_GraphNodeNum g + 1 /\
  if fConst g then xs = [Z.b2z (negb (fCompl (eRoot g)))]
  else (xs.[2 * Kit_GraphNodeNum g] = 4 + (Z.of_nat (edge_node (eRoot g)) + Z.of_nat (edge_node (eRoot g)) + Z.b2z (fCompl (eRoot g))))%Z /\
    gates_of g (nSize g) xs.

Lemma ResubInt_spec g v : readable g -> nLeaves g <= nSize g -> (fConst g = true -> nSize g = 0) -> vec v [] -> (2 * Z.of_nat (nSize g) < ABC_INT_MAX - 4)%Z ->
  exists v' xs, Kit_IsopResubInt g v = Some v' /\ vec v' xs /\ list_of g xs.
Proof.
  intros Hr Hl Hc Hv Hn. unfold Kit_IsopResubInt, Kit_GraphLeaveNum, list_of, Kit_GraphNodeNum, Kit_GraphIsConst, Kit_GraphIsVar, Kit_GraphIsComplement.
  rewrite (proj2 (Nat.leb_le _ _) Hl). destruct (fConst g) eqn:Ec.
  { eexists _, [_]. split; [done|]. unfold Kit_GraphIsConst1. rewrite Ec. split; [apply (Push_vec v []); [done|cbn; unfold ABC_INT_MAX; lia]|].
    split; [by rewrite Hc|done]. }
  destruct (Hr Ec) as (Hw & Hin & Hroot). destruct (Z.ltb_spec (Node (eRoot g)) (Z.of_nat (nLeaves g))) as [Ev|Ev].
  - unfold Kit_GraphVarInt, Kit_GraphIsVar. rewrite (proj2 (Z.ltb_lt _ _) Ev). cbn [mbind option_bind]. rewrite Var2Lit_compl. cbn [mbind option_bind].
    assert (nSize g = nLeaves g) as En by (destruct Hroot as [[_ ?]|E]; [done|]; unfold edge_in, edge_node in *; lia).
    eexists _, [_]. split; [done|]. split; [apply (Push_vec v []); [done|cbn; unfold ABC_INT_MAX; lia]|]. split; [cbn; lia|].
    split; [unfold Kit_GraphNodeNum; by rewrite En, Nat.sub_diag|]. intros k a b Hk. lia.
  - assert (edge_node (eRoot g) = nSize g - 1 /\ nLeaves g < nSize g) as [Er Hlt] by (unfold edge_in, edge_node in *; lia).
    destruct (gates_loop g v Hw Hv Hn) as (v' & xs & -> & Hv' & Hlen & Hg). cbn [mbind option_bind].
    rewrite (proj2 (Nat.ltb_lt _ _) Hlt), (proj2 (Nat.eqb_eq _ _) Er). cbn [andb]. rewrite Var2Lit_compl. cbn [mbind option_bind].
    eexists _, (xs ++ [_]). split; [done|]. split; [apply Push_vec; [done|lia]|]. split; [rewrite length_app; cbn; lia|]. rewrite Er.
    split; [unfold rd, Kit_GraphNodeNum; rewrite app_nth2, Hlen, Nat.sub_diag by lia; done|]. apply gates_of_app; [done|lia].
Qed.

Lemma EntryLast_vec p xs : vec p xs -> xs <> [] -> Vec_IntEntryLast p = Some xs.[length xs - 1].
Proof.
  intros [H1 _ H3 _] Hne. assert (0 < length xs) by (destruct xs; [done|cbn; lia]). unfold Vec_IntEntryLast, vsize.
  rewrite H1, (proj2 (Z.ltb_lt _ _)) by lia. f_equal. replace (Z.to_nat (Z.of_nat (length xs))) with (length xs) by lia. apply H3. lia.
Qed.

(** * Reading the list *)

(** The evaluation of a node, with fuel above its number. *)
Lemma ToTruth6_rec_spec g v xs : wf_graph g -> nLeaves g <= 6 -> vec v xs -> gates_of g (nSize g) xs -> 2 * (nSize g - nLeaves g) <= length xs ->
  forall fuel i, i < nSize g -> i < fuel ->
  exists u, Gia_ResubToTruth6_rec fuel v (Z.of_nat i) (Z.of_nat (nLeaves g)) = Some u /\ bits64 u (fun m => node_eval g m i).
Proof.
  intros Hw H6 Hv Hg Hlen fuel. induction fuel as [|fuel IH]; intros i Hi Hf; [lia|]. cbn [Gia_ResubToTruth6_rec].
  rewrite (proj2 (Z.leb_le 0 _)), (proj2 (Z.leb_le _ 6)) by lia. cbn [andb].
  destruct (Z.ltb_spec (Z.of_nat i) (Z.of_nat (nLeaves g))) as [Hl|Hl].
  { exists Truth6.[i]. split; [by rewrite Nat2Z.id|]. eapply bits64_ext; [|apply bits64_var; lia]. intros m _. by rewrite node_eval_leaf by lia. }
  destruct (gate_pair_spec g i Hw) as (a & b & E & Hab & Ha & Hb & Hval); [lia|]. destruct (Hg i a b) as [E0 E1]; [lia|done|].
  rewrite <- Nat2Z.inj_sub by lia. rewrite !Var2Lit_compl. cbn [mbind option_bind Z.b2z].
  replace (Z.of_nat (i - nLeaves g) + Z.of_nat (i - nLeaves g) + 0)%Z with (Z.of_nat (2 * (i - nLeaves g))) by lia.
  replace (Z.of_nat (i - nLeaves g) + Z.of_nat (i - nLeaves g) + 1)%Z with (Z.of_nat (2 * (i - nLeaves g) + 1)) by lia.
  rewrite !(Entry_vec v xs) by (done || lia). cbn [mbind option_bind]. rewrite E0, E1.
  assert (forall l, (0 <= l)%Z -> lit_var (4 + l) = lit_var l + 2 /\ lit_bit (4 + l) = lit_bit l) as Hsh.
  { intros l H0. pose proof (lit_parts l H0). pose proof (lit_parts (4 + l) ltac:(lia)).
    destruct (lit_bit l), (lit_bit (4 + l)); cbn [Z.b2z] in *; (split; [lia|]); done || lia. }
  destruct (Hsh a), (Hsh b); [lia..|]. rewrite !Lit2Var_ok, !LitIsCompl_ok by lia. cbn [mbind option_bind].
  replace (Z.of_nat (lit_var (4 + a)) - 2)%Z with (Z.of_nat (lit_var a)) by lia.
  replace (Z.of_nat (lit_var (4 + b)) - 2)%Z with (Z.of_nat (lit_var b)) by lia.
  destruct (IH (lit_var a)) as (u0 & -> & U0); [lia..|]. destruct (IH (lit_var b)) as (u1 & -> & U1); [lia..|]. cbn [mbind option_bind].
  rewrite (proj2 (Z.ltb_ge _ _)) by lia. eexists. split; [done|].
  assert (forall (c : bool) u f, bits64 u f -> bits64 (if c then wnot64 u else u) (fun m => xorb c (f m))) as Hc.
  { intros [] u f Hu; [by apply bits64_not|]. eapply bits64_ext; [|exact Hu]. intros m _. by destruct (f m). }
  eapply bits64_ext; [|apply (bits64_and _ _ _ _ (Hc (lit_bit (4 + a)) _ _ U0) (Hc (lit_bit (4 + b)) _ _ U1))].
  intros m _. cbv beta. rewrite Hval. congruence.
Qed.

(** The root is a variable other than the first one. *)
Definition later_variable (g : Kit_Graph_t) : Prop := fConst g = false /\ nSize g = nLeaves g /\ 0 < edge_node (eRoot g).

Lemma ResubToTruth6_spec g v xs : readable g -> nLeaves g <= 6 -> nLeaves g <= nSize g -> vec v xs -> list_of g xs ->
  (later_variable g /\ Gia_ResubToTruth6 v = None) \/
  (~ later_variable g /\ exists u, Gia_ResubToTruth6 v = Some u /\ bits64 u (graph_eval g)).
Proof.
  intros Hr H6 Hle Hv [Hlen Hlist]. unfold Gia_ResubToTruth6, Gia_ResubVarNum, later_variable, graph_eval.
  rewrite (EntryLast_vec v xs Hv) by (intros ->; cbn in Hlen; lia). cbn [mbind option_bind]. destruct (fConst g) eqn:Ec.
  { right. split; [by intros [? _]|]. subst xs. cbn. destruct (fCompl (eRoot g)); cbn; eexists; (split; [done|]); [apply bits64_zero|apply bits64_one]. }
  destruct (Hr Ec) as (Hw & Hin & Hroot). destruct Hlist as [Elast Hg]. rewrite Hlen, Nat.add_sub, Elast.
  set (l := (Z.of_nat _ + _ + _)%Z) in *. assert (0 <= l)%Z as Hl0 by (unfold l; destruct (fCompl (eRoot g)); cbn; lia).
  rewrite (proj2 (Z.ltb_ge _ _)), !(proj2 (Z.eqb_neq _ _)) by lia. cbn [negb andb].
  assert (lit_var (4 + l) = edge_node (eRoot g) + 2 /\ lit_bit (4 + l) = fCompl (eRoot g)) as [Ev Eb].
  { destruct (var_lit (Z.of_nat (edge_node (eRoot g) + 2)) (fCompl (eRoot g))) as [V B]; [lia|]. rewrite Nat2Z.id in V.
    replace (4 + l)%Z with (Z.of_nat (edge_node (eRoot g) + 2) + Z.of_nat (edge_node (eRoot g) + 2) + Z.b2z (fCompl (eRoot g)))%Z by (unfold l; lia). done. }
  rewrite Lit2Var_ok, LitIsCompl_ok by lia. cbn [mbind option_bind]. rewrite Ev, Eb, Nat2Z.id.
  replace (Z.of_nat (edge_node (eRoot g) + 2) - 2)%Z with (Z.of_nat (edge_node (eRoot g))) by lia.
  rewrite (vec_size _ _ Hv), Hlen. pose proof (edge_in_node _ _ Hin) as Hn.
  assert (forall u, bits64 u (fun m => node_eval g m (edge_node (eRoot g))) ->
    bits64 (if fCompl (eRoot g) then wnot64 u else u) (fun m => edge_eval g m (eRoot g))) as Hfin.
  { intros u Hu. unfold edge_eval. destruct (fCompl (eRoot g)); [by apply bits64_not|].
    eapply bits64_ext; [|exact Hu]. intros m _. cbv beta. symmetry. apply xorb_false_l. }
  unfold Kit_GraphNodeNum in *. destruct (Nat.eq_dec (nSize g) (nLeaves g)) as [En|En].
  - rewrite En, Nat.sub_diag, (proj2 (Z.leb_le 2 _)) by lia. change (Z.of_nat (2 * 0 + 1) =? 1)%Z with true. cbn [mbind option_bind Z.b2z].
    replace (edge_node (eRoot g) + 2) with (S (edge_node (eRoot g) + 1)) by lia. cbn [Gia_ResubToTruth6_rec].
    rewrite (proj2 (Z.leb_le 0 _)) by lia. change (1 <=? 6)%Z with true. cbn [andb].
    destruct (Z.ltb_spec (Z.of_nat (edge_node (eRoot g))) 1) as [H0|H0].
    + right. split; [lia|]. cbn [mbind option_bind]. eexists. split; [done|]. apply Hfin.
      replace (Z.to_nat (Z.of_nat (edge_node (eRoot g)))) with (edge_node (eRoot g)) by lia.
      eapply bits64_ext; [|apply bits64_var; lia]. intros m _. by rewrite node_eval_leaf by lia.
    + left. split; [lia|]. unfold Abc_Var2Lit. rewrite (proj2 (Z.leb_le 0 _)) by lia. cbn [mbind option_bind].
      assert (forall k, (1 <= k)%Z -> Vec_IntEntry v k = None) as Hnone.
      { intros k Hk. unfold Vec_IntEntry, in_size. rewrite (vec_size _ _ Hv), Hlen, (proj2 (Z.ltb_ge _ _)) by (rewrite En; cbn; lia). by rewrite andb_false_r. }
      rewrite (Hnone (_ + Z.b2z true)%Z) by (cbn; lia). cbn [mbind option_bind].
      by destruct (Vec_IntEntry v (_ + Z.b2z false)%Z).
  - right. split; [lia|]. rewrite (proj2 (Z.eqb_neq _ 1)) by lia. cbn [mbind option_bind].
    assert (edge_node (eRoot g) = nSize g - 1) as Er by (destruct Hroot as [[_ ?]|?]; lia).
    assert (Z.quot (4 + l) 2 = Z.of_nat (edge_node (eRoot g)) + 2)%Z as ->.
    { symmetry. apply (Z.quot_unique _ _ _ (Z.b2z (fCompl (eRoot g)))); unfold l; destruct (fCompl (eRoot g)); cbn [Z.b2z]; lia. }
    assert (Z.quot (Z.of_nat (2 * (nSize g - nLeaves g) + 1)) 2 = Z.of_nat (nSize g - nLeaves g)) as ->.
    { symmetry. apply (Z.quot_unique _ _ _ 1); lia. }
    replace (Z.of_nat (edge_node (eRoot g)) + 2 - Z.of_nat (nSize g - nLeaves g) - 1)%Z with (Z.of_nat (nLeaves g)) by lia.
    destruct (ToTruth6_rec_spec g v xs Hw H6 Hv Hg ltac:(lia) (edge_node (eRoot g) + 2) (edge_node (eRoot g))) as (u & -> & Hu); [lia..|].
    cbn [mbind option_bind]. eexists. split; [done|]. by apply Hfin.
Qed.

(** The test for a variable other than the first on the number of gates and the last entry. *)
Lemma later_variable_last g v xs : readable g -> nLeaves g <= nSize g -> vec v xs -> list_of g xs ->
  exists r, Vec_IntEntryLast v = Some r /\ (later_variable g <-> (Z.of_nat (Kit_GraphNodeNum g) =? 0)%Z && (6 <=? r)%Z = true).
Proof.
  intros Hr Hle Hv [Hlen Hlist]. eexists. split; [apply (EntryLast_vec v xs Hv); intros ->; cbn in Hlen; lia|].
  unfold later_variable, Kit_GraphNodeNum in *. rewrite Hlen, Nat.add_sub. destruct (fConst g) eqn:Ec.
  - subst xs. split; [by intros [? _]|]. rewrite andb_true_iff. intros [Hz%Z.eqb_eq H6%Z.leb_le]. exfalso. cbn [length] in Hlen.
    revert H6. replace (2 * (nSize g - nLeaves g)) with 0 by lia. unfold rd. cbn [nth]. destruct (fCompl (eRoot g)); cbn; lia.
  - destruct Hlist as [-> _]. rewrite andb_true_iff, Z.eqb_eq, Z.leb_le. split.
    + intros (_ & E & H0). split; [lia|]. destruct (fCompl (eRoot g)); cbn [Z.b2z]; lia.
    + intros [E H6]. split; [done|]. split; [lia|]. destruct (fCompl (eRoot g)); cbn [Z.b2z] in H6; lia.
Qed.

(** * Properties *)

(** C40. [Kit_IsopResub] between two disjoint tables of up to six variables: no assertion fails, and the list has one entry
    more than twice the number of gates that [Kit_IsopNodeNum] announces.  [Gia_ResubToTruth6] of the list is a word
    that is 1 on the on-set and 0 on the off-set, with one exception: when the list is a single literal of a variable
    other than the first, it reads past the end and an assertion fails. *)
Theorem isop_resub_correct fuel pTruth0 pTruth1 nVars vMemory :
  nVars <= 6 -> is_tt nVars pTruth0 -> is_tt nVars pTruth1 ->
  depends_below nVars (tfun nVars pTruth0) -> depends_below nVars (tfun nVars pTruth1) ->
  (forall m, m < nmint nVars -> tbit pTruth1 m = true -> tbit pTruth0 m = false) -> 2 ^ nVars * (nVars + 1) < fuel ->
  exists vRes vm k vm' r, Kit_IsopResub fuel pTruth0 pTruth1 nVars vMemory = Some (vRes, vm, pTruth0, pTruth1) /\
    Kit_IsopNodeNum fuel pTruth0 pTruth1 nVars vMemory = Some (k, vm', pTruth0, pTruth1) /\
    VecInt.nSize vRes = (2 * k + 1)%Z /\ Vec_IntEntryLast vRes = Some r /\
    if (k =? 0)%Z && (6 <=? r)%Z then Gia_ResubToTruth6 vRes = None
    else exists u, Gia_ResubToTruth6 vRes = Some u /\ forall m, m < nmint nVars ->
      (tbit pTruth1 m = true -> Z.testbit u (Z.of_nat m) = true) /\ (tbit pTruth0 m = true -> Z.testbit u (Z.of_nat m) = false).
Proof.
  intros Hn H0 H1 D0 D1 Hdis Hf.
  destruct (TruthToGraph2_spec fuel nVars pTruth0 pTruth1 (own_memory vMemory)) as (g & V' & cs & c & E & HF & Hmu & He); [lia|done..|].
  destruct (fac_leaves _ _ _ _ HF) as [Hle Hln]. pose proof (factored_gates _ _ _ _ HF) as Hg. unfold Kit_GraphNodeNum in Hg.
  assert (2 ^ nVars * (nVars + 1) <= 2 ^ 6 * 7) as Hb by (apply Nat.mul_le_mono; [apply Nat.pow_le_mono_r; lia|lia]). change (2 ^ 6 * 7) with 448 in Hb.
  destruct (ResubInt_spec g (Vec_IntAlloc (2 * Z.of_nat (Kit_GraphNodeNum g) + 1))) as (v & xs & Ev & Hv & Hl);
    [apply HF|done|apply HF| |unfold ABC_INT_MAX; lia|].
  { constructor; cbn; [done|lia|lia|]. unfold Kit_GraphNodeNum. destruct (_ && _); unfold ABC_INT_MAX; lia. }
  destruct (later_variable_last g v xs (fac_readable _ _ _ _ HF) Hle Hv Hl) as (r & Er & Hlv).
  unfold Kit_IsopResub, Kit_IsopNodeNum. rewrite E. cbn [mbind option_bind]. rewrite Ev. cbn [mbind option_bind].
  assert (VecInt.nSize v = 2 * Z.of_nat (Kit_GraphNodeNum g) + 1)%Z as Es by (rewrite (vec_size _ _ Hv), (proj1 Hl); lia).
  rewrite Es, Z.eqb_refl. eexists v, _, _, _, r. split; [done|]. split; [done|]. split; [done|]. split; [done|].
  destruct (ResubToTruth6_spec g v xs (fac_readable _ _ _ _ HF) ltac:(lia) Hle Hv Hl) as [[Hl1 En]|[Hl1 (u & Eu & Hu)]].
  - by rewrite (proj1 Hlv Hl1).
  - destruct (_ && _) eqn:Eb; [by pose proof (proj2 Hlv eq_refl)|]. exists u. split; [done|]. intros m Hm.
    assert (nmint nVars <= 64) as H64 by (by apply (Nat.pow_le_mono_r 2 _ 6); lia).
    rewrite Hu, Nat2Z.id, (proj2 (Z.ltb_lt _ _)) by lia. cbn [andb]. by apply He.
Qed.

Lemma isop_resub_correct_witness :
  option_map (fun r => (take 3 (pArray r.1.1.1), Gia_ResubToTruth6 r.1.1.1)) (Kit_IsopResub 33 [0x07070707]%Z [0x88888888]%Z 3 None) =
    Some ([4; 6; 10], Some 0x8888888888888888)%Z /\
  option_map (fun r => Gia_ResubToTruth6 r.1.1.1) (Kit_IsopResub 33 [0x33333333]%Z [0xCCCCCCCC]%Z 3 None) = Some None /\
  exists vRes vm k vm' r, Kit_IsopResub 33 [0x07070707]%Z [0x88888888]%Z 3 None = Some (vRes, vm, [0x07070707], [0x88888888])%Z /\
    Kit_IsopNodeNum 33 [0x07070707]%Z [0x88888888]%Z 3 None = Some (k, vm', [0x07070707], [0x88888888])%Z /\
    VecInt.nSize vRes = (2 * k + 1)%Z /\ Vec_IntEntryLast vRes = Some r /\
    if (k =? 0)%Z && (6 <=? r)%Z then Gia_ResubToTruth6 vRes = None
    else exists u, Gia_ResubToTruth6 vRes = Some u /\ forall m, m < nmint 3 ->
      (tbit [0x88888888]%Z m = true -> Z.testbit u (Z.of_nat m) = true) /\ (tbit [0x07070707]%Z m = true -> Z.testbit u (Z.of_nat m) = false).
Proof.
  split; [vm_compute; reflexivity|]. split; [vm_compute; reflexivity|].
  apply (isop_resub_correct 33 [0x07070707]%Z [0x88888888]%Z 3 None).
  - lia.
  - concrete_tt.
  - concrete_tt.
  - three_variables [0x07070707]%Z.
  - three_variables [0x88888888]%Z.
  - intros m Hm. change (nmint 3) with 32 in Hm. do 32 (destruct m as [|m]; [done|]). lia.
  - by apply Nat.ltb_lt.
Defined.
