(* ===== verification/Cloud.v ===== *)
(** The decision diagrams of [cloud.h] and [cloud.c]: the manager, its unique table with open addressing, and the
    routines that make nodes and start the manager again.

    A pointer is an address; bit 0 of the address complements the function.  The table is one block of memory at the
    address [dd_tUnique], which the allocator chooses, and a node of it takes 24 bytes.  A slot is in use when its
    signature is the one of the manager, so that a new signature empties the table at once.  The first slot holds the
    constant 1 and the variables keep their slots for ever.  [table_ok] is the invariant: the diagrams are ordered and
    reduced, no two slots hold the same node, and a search that starts at the hash of a node meets it before an empty
    slot.  The counters of hits, misses, steps and bytes, which nothing reads, are left out. *)
From S2P Require Import Prelude Words.

(** * Data *)

Record CloudNode := mkCloudNode { cloudS : Z; cloudV : Z; cloudE : Z; cloudT : Z }.
Record CloudCacheEntry2 := mkEntry2 { entS : Z; entA : Z; entB : Z; entR : Z }.
Inductive CloudOper := CLOUD_OPER_AND | CLOUD_OPER_XOR | CLOUD_OPER_BDIFF | CLOUD_OPER_LEQ.

Record CloudManager := mkCloud {
  dd_nVars : nat;
  dd_bitsNode : nat;
  dd_bitsCache : list Z;
  dd_shiftUnique : nat;
  dd_shiftCache : list Z;
  dd_nNodesAlloc : nat;
  dd_nNodesLimit : nat;
  dd_nNodesCur : nat;
  dd_nSignCur : Z;
  dd_tUnique : Z;
  dd_nodes : list CloudNode; (* the block at tUnique *)
  dd_one : Z;
  dd_zero : Z;
  dd_vars : list Z;
  dd_ppNodes : option (list Z); (* the null pointer is None *)
  dd_tCaches : list (option (list CloudCacheEntry2)) }.

Definition CLOUD_CONST_INDEX : Z := 0x0fffffff.
Definition CLOUD_MARK_ON : Z := 0x10000000.
Definition CLOUD_MARK_OFF : Z := 0xefffffff.
Definition CLOUD_NODE_BITS : nat := 23.
Definition CacheOperNum : nat := 4.
Definition CacheLogRatioDefault : list Z := [2; 8; 8; 8]%Z.
Definition CacheSize : list Z := [2; 2; 2; 2]%Z.
Definition oper_index (oper : CloudOper) : nat :=
  match oper with CLOUD_OPER_AND => 0 | CLOUD_OPER_XOR => 1 | CLOUD_OPER_BDIFF => 2 | CLOUD_OPER_LEQ => 3 end.
Definition sizeof_CloudNode : Z := 24.

(** The fields that change after the start. *)
Definition with_nodes (dd : CloudManager) (nodes : list CloudNode) : CloudManager :=
  mkCloud (dd_nVars dd) (dd_bitsNode dd) (dd_bitsCache dd) (dd_shiftUnique dd) (dd_shiftCache dd) (dd_nNodesAlloc dd) (dd_nNodesLimit dd)
    (dd_nNodesCur dd) (dd_nSignCur dd) (dd_tUnique dd) nodes (dd_one dd) (dd_zero dd) (dd_vars dd) (dd_ppNodes dd) (dd_tCaches dd).
Definition with_nNodesCur (dd : CloudManager) (n : nat) : CloudManager :=
  mkCloud (dd_nVars dd) (dd_bitsNode dd) (dd_bitsCache dd) (dd_shiftUnique dd) (dd_shiftCache dd) (dd_nNodesAlloc dd) (dd_nNodesLimit dd)
    n (dd_nSignCur dd) (dd_tUnique dd) (dd_nodes dd) (dd_one dd) (dd_zero dd) (dd_vars dd) (dd_ppNodes dd) (dd_tCaches dd).
Definition with_nSignCur (dd : CloudManager) (sign : Z) : CloudManager :=
  mkCloud (dd_nVars dd) (dd_bitsNode dd) (dd_bitsCache dd) (dd_shiftUnique dd) (dd_shiftCache dd) (dd_nNodesAlloc dd) (dd_nNodesLimit dd)
    (dd_nNodesCur dd) sign (dd_tUnique dd) (dd_nodes dd) (dd_one dd) (dd_zero dd) (dd_vars dd) (dd_ppNodes dd) (dd_tCaches dd).
Definition with_vars (dd : CloudManager) (vars : list Z) : CloudManager :=
  mkCloud (dd_nVars dd) (dd_bitsNode dd) (dd_bitsCache dd) (dd_shiftUnique dd) (dd_shiftCache dd) (dd_nNodesAlloc dd) (dd_nNodesLimit dd)
    (dd_nNodesCur dd) (dd_nSignCur dd) (dd_tUnique dd) (dd_nodes dd) (dd_one dd) (dd_zero dd) vars (dd_ppNodes dd) (dd_tCaches dd).
Definition with_ppNodes (dd : CloudManager) (pp : option (list Z)) : CloudManager :=
  mkCloud (dd_nVars dd) (dd_bitsNode dd) (dd_bitsCache dd) (dd_shiftUnique dd) (dd_shiftCache dd) (dd_nNodesAlloc dd) (dd_nNodesLimit dd)
    (dd_nNodesCur dd) (dd_nSignCur dd) (dd_tUnique dd) (dd_nodes dd) (dd_one dd) (dd_zero dd) (dd_vars dd) pp (dd_tCaches dd).
Definition with_caches (dd : CloudManager) (bits shifts : list Z) (caches : list (option (list CloudCacheEntry2))) : CloudManager :=
  mkCloud (dd_nVars dd) (dd_bitsNode dd) bits (dd_shiftUnique dd) shifts (dd_nNodesAlloc dd) (dd_nNodesLimit dd)
    (dd_nNodesCur dd) (dd_nSignCur dd) (dd_tUnique dd) (dd_nodes dd) (dd_one dd) (dd_zero dd) (dd_vars dd) (dd_ppNodes dd) caches.

(** * Pointers *)

Definition Cloud_Regular (p : Z) : Z := Z.land p (Z.lnot 1).
Definition Cloud_Not (p : Z) : Z := Z.lxor p 1.
Definition Cloud_NotCond (p : Z) (c : bool) : Z := Z.lxor p (Z.b2z c).
Definition Cloud_IsComplement (p : Z) : bool := (Z.land p 1 =? 1)%Z.

Definition CLOUD_ASSERT (dd : CloudManager) (p : Z) : bool :=
  (dd_tUnique dd <=? p)%Z && (p <? dd_tUnique dd + sizeof_CloudNode * Z.of_nat (dd_nNodesAlloc dd))%Z.

(** The address of a slot, and the slot at an address. *)
Definition pnode (dd : CloudManager) (i : nat) : Z := (dd_tUnique dd + sizeof_CloudNode * Z.of_nat i)%Z.
Definition place (dd : CloudManager) (p : Z) : option nat :=
  let o := (p - dd_tUnique dd)%Z in
  if (0 <=? o)%Z && (o mod sizeof_CloudNode =? 0)%Z && (o / sizeof_CloudNode <? Z.of_nat (dd_nNodesAlloc dd))%Z
  then Some (Z.to_nat (o / sizeof_CloudNode)) else None.
Definition node_of (dd : CloudManager) (p : Z) : option CloudNode := i ← place dd p; dd_nodes dd !! i.

Definition Cloud_V (dd : CloudManager) (p : Z) : option Z := option_map cloudV (node_of dd (Cloud_Regular p)).
Definition cloudIsConstant (n : CloudNode) : bool := (Z.land (cloudV n) CLOUD_MARK_OFF =? CLOUD_CONST_INDEX)%Z.
Definition Cloud_IsConstant (dd : CloudManager) (p : Z) : option bool := option_map cloudIsConstant (node_of dd (Cloud_Regular p)).

Definition DD_P1 : Z := 12582917.
Definition DD_P2 : Z := 4256249.
Definition DD_P3 : Z := 741457.
Definition cloudHashCudd2 (f g : Z) (s : nat) : Z :=
  wshr (wmul (wadd (wmul (f mod 2 ^ 32) DD_P1) (g mod 2 ^ 32)) DD_P2) s.
Definition cloudHashCudd3 (f g h : Z) (s : nat) : Z :=
  wshr (wmul (wadd (wmul (wadd (wmul (f mod 2 ^ 32) DD_P1) (g mod 2 ^ 32)) DD_P2) (h mod 2 ^ 32)) DD_P3) s.

(** * Making nodes *)

(** The search of [cloudMakeNode]: the slot where it ends, and whether the node is there. *)
Fixpoint find_entry (fuel : nat) (dd : CloudManager) (v t e : Z) (entryUnique : nat) : option (bool * nat) :=
  match fuel with
  | O => None
  | S fuel =>
    n ← dd_nodes dd !! entryUnique;
    if (cloudS n =? dd_nSignCur dd)%Z then
      if (cloudV n =? v)%Z && (cloudT n =? t)%Z && (cloudE n =? e)%Z then Some (true, entryUnique)
      else find_entry fuel dd v t e (if S entryUnique =? dd_nNodesAlloc dd then 1 else S entryUnique)
    else Some (false, entryUnique)
  end.

(** The null pointer is 0. *)
Definition cloudMakeNode (dd : CloudManager) (v t e : Z) : option (Z * CloudManager) :=
  assert! CLOUD_ASSERT dd t in
  assert! CLOUD_ASSERT dd e in
  assert! (0 <=? v)%Z && (v <? Z.of_nat (dd_nVars dd))%Z in
  vt ← Cloud_V dd t;
  ve ← Cloud_V dd e;
  assert! (v <? vt)%Z && (v <? ve)%Z in
  assert! negb (Cloud_IsComplement t) in
  assert! negb (t =? 0)%Z && negb (e =? 0)%Z in
  '(found, entryUnique) ← find_entry (dd_nNodesAlloc dd) dd v t e (Z.to_nat (cloudHashCudd3 v t e (dd_shiftUnique dd)));
  if found : bool then Some (pnode dd entryUnique, dd)
  else
    let dd := with_nNodesCur dd (S (dd_nNodesCur dd)) in
    if dd_nNodesCur dd =? dd_nNodesLimit dd then Some (0%Z, dd)
    else Some (pnode dd entryUnique, with_nodes dd (<[entryUnique := mkCloudNode (dd_nSignCur dd) v e t]> (dd_nodes dd))).

(** A node whose positive edge may be complemented, as it is made by [Cloud_MakeNode] and by [cloudBddAnd]. *)
Definition make_either (dd : CloudManager) (v t e : Z) : option (Z * CloudManager) :=
  if Cloud_IsComplement t then
    '(pRes, dd) ← cloudMakeNode dd v (Cloud_Not t) (Cloud_Not e);
    Some (if negb (pRes =? 0)%Z then Cloud_Not pRes else pRes, dd)
  else cloudMakeNode dd v t e.

Definition Cloud_MakeNode (dd : CloudManager) (v t e : Z) : option (Z * CloudManager) :=
  assert! CLOUD_ASSERT dd t in
  assert! CLOUD_ASSERT dd e in
  vt ← Cloud_V dd t;
  ve ← Cloud_V dd e;
  assert! (v <? vt)%Z && (v <? ve)%Z in
  make_either dd v t e.

(** * The life of a manager *)

(** The nodes of [calloc].  The address of the table is the allocator's; [1 << 31] does not fit an [int]. *)
Definition zero_cloud_node : CloudNode := mkCloudNode 0 0 0 0.
Definition Cloud_Init (nVars nBits : nat) (tUnique : Z) : option CloudManager :=
  assert! (Z.of_nat nVars <=? 100000)%Z in
  assert! nBits <? 32 in
  let nBits := if nBits =? 0 then CLOUD_NODE_BITS else nBits in
  assert! nBits <? 30 in
  let bits := map (fun r => Z.of_nat nBits - r)%Z CacheLogRatioDefault in
  let dd := mkCloud nVars nBits bits (32 - (nBits + 1)) (map (fun b => 32 - b)%Z bits) (2 ^ (nBits + 1)) (2 ^ nBits) 1 1 tUnique
    (<[0 := mkCloudNode 1 CLOUD_CONST_INDEX 0 0]> (replicate (2 ^ (nBits + 1)) zero_cloud_node))
    tUnique (Cloud_Not tUnique) [] None (replicate CacheOperNum None) in
  for_up nVars (fun i dd =>
    dd ← dd;
    '(p, dd) ← cloudMakeNode dd (Z.of_nat i) (dd_one dd) (dd_zero dd);
    Some (with_vars dd (dd_vars dd ++ [p]))) (Some dd).

(** [p->s++] on unsigned signatures. *)
Definition next_sign (s : Z) : Z := wadd s 1.
Definition bump (dd : CloudManager) (p : Z) : option CloudManager :=
  i ← place dd p;
  n ← dd_nodes dd !! i;
  Some (with_nodes dd (<[i := mkCloudNode (next_sign (cloudS n)) (cloudV n) (cloudE n) (cloudT n)]> (dd_nodes dd))).

Definition Cloud_Restart (dd : CloudManager) : option CloudManager :=
  n ← node_of dd (dd_one dd);
  assert! (cloudS n =? dd_nSignCur dd)%Z in
  let dd := with_nSignCur dd (next_sign (dd_nSignCur dd)) in
  dd ← bump dd (dd_one dd);
  dd ← for_up (dd_nVars dd) (fun i dd => dd ← dd; p ← dd_vars dd !! i; bump dd p) (Some dd);
  Some (with_nNodesCur dd (1 + dd_nVars dd)).

(** Every operation has a cache of two arguments. *)
Definition zero_entry : CloudCacheEntry2 := mkEntry2 0 0 0 0.
Definition cloudCacheAllocate (dd : CloudManager) (oper : CloudOper) : option CloudManager :=
  let k := oper_index oper in
  bits ← dd_bitsCache dd !! k;
  assert! (0 <=? bits)%Z && (bits <? 31)%Z in
  assert! (CacheSize.[k] =? 2)%Z in
  Some (with_caches dd (dd_bitsCache dd) (dd_shiftCache dd)
    (<[k := Some (replicate (Z.to_nat (2 ^ bits)) zero_entry)]> (dd_tCaches dd))).

Definition Cloud_CacheAllocate (dd : CloudManager) (oper : CloudOper) (logratio : Z) : option CloudManager :=
  assert! (0 <? logratio)%Z in
  assert! (logratio <? Z.of_nat (dd_bitsNode dd))%Z in
  let k := oper_index oper in
  let bits := (Z.of_nat (dd_bitsNode dd) - logratio)%Z in
  cloudCacheAllocate (with_caches dd (<[k := bits]> (dd_bitsCache dd)) (<[k := (32 - bits)%Z]> (dd_shiftCache dd)) (dd_tCaches dd)) oper.

(** * Pointers to slots *)

(** The pointer to the slot [i], complemented or not. *)
Definition ptr (dd : CloudManager) (i : nat) (c : bool) : Z := (pnode dd i + Z.b2z c)%Z.

Record geometry (dd : CloudManager) : Prop := {
  geo_bits : 3 <= dd_bitsNode dd <= 29;
  geo_alloc : dd_nNodesAlloc dd = 2 ^ S (dd_bitsNode dd);
  geo_limit : dd_nNodesLimit dd = 2 ^ dd_bitsNode dd;
  geo_shift : dd_shiftUnique dd = 31 - dd_bitsNode dd;
  geo_nodes : length (dd_nodes dd) = dd_nNodesAlloc dd;
  geo_base : (0 < dd_tUnique dd)%Z;
  geo_even : Z.even (dd_tUnique dd) = true;
  geo_one : dd_one dd = ptr dd 0 false;
  geo_zero : dd_zero dd = ptr dd 0 true;
  geo_vars : (Z.of_nat (dd_nVars dd) <= 100000)%Z }.

(** An address and its complement bit. *)
Lemma double_bits h (c : bool) j : (0 <= j)%Z -> Z.testbit (2 * h + Z.b2z c) j = if (j =? 0)%Z then c else Z.testbit h (j - 1).
Proof.
  intros Hj. destruct (Z.eqb_spec j 0) as [->|H]; [rewrite Z.add_comm; apply Z.add_b2z_double_bit0|].
  replace j with (Z.succ (j - 1)) at 1 by lia. by rewrite Z.testbit_succ_r by lia.
Qed.

Lemma double_land h (c : bool) : Z.land (2 * h + Z.b2z c) (Z.lnot 1) = (2 * h)%Z /\ Z.land (2 * h + Z.b2z c) 1 = Z.b2z c.
Proof.
  split; apply Z.bits_inj'; intros j Hj; rewrite Z.land_spec, double_bits by done.
  - pose proof (double_bits h false j Hj) as E. cbn [Z.b2z] in E. rewrite Z.add_0_r in E. rewrite E, Z.lnot_spec by done.
    change 1%Z with (2 * 0 + Z.b2z true)%Z. rewrite double_bits, Z.bits_0 by done. destruct (j =? 0)%Z; [by destruct c|apply andb_true_r].
  - change (Z.testbit 1 j) with (Z.testbit (2 * 0 + Z.b2z true) j). replace (Z.b2z c) with (2 * 0 + Z.b2z c)%Z at 1 by lia. rewrite !double_bits, Z.bits_0 by done.
    destruct (j =? 0)%Z; [by destruct c|apply andb_false_r].
Qed.

Lemma double_lxor h (c b : bool) : Z.lxor (2 * h + Z.b2z c) (Z.b2z b) = (2 * h + Z.b2z (xorb c b))%Z.
Proof.
  apply Z.bits_inj'. intros j Hj. replace (Z.b2z b) with (2 * 0 + Z.b2z b)%Z by lia. rewrite Z.lxor_spec, !double_bits, Z.bits_0 by done.
  destruct (j =? 0)%Z; [done|apply xorb_false_r].
Qed.

Section pointers.
Context (dd : CloudManager) (G : geometry dd).

Lemma ptr_double i : exists h, forall c, ptr dd i c = (2 * h + Z.b2z c)%Z.
Proof.
  pose proof (geo_even dd G) as [h E]%Z.even_spec. exists (h + 12 * Z.of_nat i)%Z. intros c. unfold ptr, pnode, sizeof_CloudNode. lia.
Qed.

Lemma ptr_compl i c : Cloud_IsComplement (ptr dd i c) = c.
Proof. destruct (ptr_double i) as [h E]. unfold Cloud_IsComplement. rewrite E, (proj2 (double_land h c)). by destruct c. Qed.

Lemma ptr_regular i c : Cloud_Regular (ptr dd i c) = ptr dd i false.
Proof. destruct (ptr_double i) as [h E]. unfold Cloud_Regular. rewrite !E, (proj1 (double_land h c)). cbn. lia. Qed.

Lemma ptr_notcond i c b : Cloud_NotCond (ptr dd i c) b = ptr dd i (xorb c b).
Proof. destruct (ptr_double i) as [h E]. unfold Cloud_NotCond. by rewrite !E, double_lxor. Qed.

Lemma ptr_not i c : Cloud_Not (ptr dd i c) = ptr dd i (negb c).
Proof. change (Cloud_Not (ptr dd i c)) with (Cloud_NotCond (ptr dd i c) true). rewrite ptr_notcond. by destruct c. Qed.

Lemma ptr_inj i c j b : ptr dd i c = ptr dd j b <-> i = j /\ c = b.
Proof.
  split; [|by intros [-> ->]]. intros E. assert (c = b) as Ec by (rewrite <- (ptr_compl i c), <- (ptr_compl j b); congruence).
  split; [|done]. subst b. unfold ptr, pnode, sizeof_CloudNode in E. lia.
Qed.

Lemma ptr_eqb i c j b : (ptr dd i c =? ptr dd j b)%Z = (i =? j) && eqb c b.
Proof.
  apply eq_true_iff_eq. by rewrite Z.eqb_eq, ptr_inj, andb_true_iff, Nat.eqb_eq, eqb_true_iff.
Qed.

Lemma ptr_nonzero i c : ptr dd i c <> 0%Z /\ (ptr dd i c =? 0)%Z = false.
Proof.
  assert (ptr dd i c <> 0)%Z; [|split; [done|by apply Z.eqb_neq]].
  pose proof (geo_base dd G). unfold ptr, pnode, sizeof_CloudNode. destruct c; cbn [Z.b2z]; lia.
Qed.

Lemma ptr_place i : i < dd_nNodesAlloc dd -> place dd (ptr dd i false) = Some i.
Proof.
  intros Hi. unfold place, ptr, pnode. cbn [Z.b2z].
  replace (dd_tUnique dd + sizeof_CloudNode * Z.of_nat i + 0 - dd_tUnique dd)%Z with (Z.of_nat i * sizeof_CloudNode)%Z by lia.
  rewrite Z.mod_mul, Z.div_mul, (proj2 (Z.leb_le _ _)), (proj2 (Z.ltb_lt _ _)) by (unfold sizeof_CloudNode; lia). cbn [andb Z.eqb].
  by rewrite Nat2Z.id.
Qed.

Lemma ptr_node i c n : dd_nodes dd !! i = Some n -> node_of dd (Cloud_Regular (ptr dd i c)) = Some n.
Proof.
  intros E. unfold node_of. rewrite ptr_regular, ptr_place; [done|]. rewrite <- (geo_nodes dd G). by apply lookup_lt_Some in E.
Qed.

Lemma ptr_in i c : i < dd_nNodesAlloc dd -> CLOUD_ASSERT dd (ptr dd i c) = true.
Proof.
  intros Hi. unfold CLOUD_ASSERT, ptr, pnode, sizeof_CloudNode.
  rewrite (proj2 (Z.leb_le _ _)), (proj2 (Z.ltb_lt _ _)) by (destruct c; cbn [Z.b2z]; lia). done.
Qed.
End pointers.

(** * The invariant of the table *)

(** The slots in use, and the pointers to them. *)
Definition node_at (dd : CloudManager) (i : nat) : option CloudNode :=
  n ← dd_nodes dd !! i; if (cloudS n =? dd_nSignCur dd)%Z then Some n else None.
Definition live (dd : CloudManager) (p : Z) : Prop := exists i c n, p = ptr dd i c /\ node_at dd i = Some n.
Definition is_regular (p : Z) : Prop := Cloud_IsComplement p = false.

(** The variable at the top of a function; the constant is below every variable. *)
Definition level (dd : CloudManager) (p : Z) : Z := default 0%Z (Cloud_V dd p).

(** A node that is ordered and reduced, with its positive edge not complemented. *)
Record reduced (dd : CloudManager) (n : CloudNode) : Prop := {
  red_var : (0 <= cloudV n < Z.of_nat (dd_nVars dd))%Z;
  red_t : live dd (cloudT n);
  red_e : live dd (cloudE n);
  red_regular : is_regular (cloudT n);
  red_differ : cloudT n <> cloudE n;
  red_order : (cloudV n < level dd (cloudT n))%Z /\ (cloudV n < level dd (cloudE n))%Z }.

(** The slot after [k] steps of a search from [h], and a search that only meets slots of a set on the way to [i]. *)
Definition probe (N h k : nat) : nat := if h + k <? N then h + k else h + k - N + 1.
Definition reaches (N : nat) (P : nat -> Prop) (h i : nat) : Prop := exists k, k < N /\ probe N h k = i /\ forall j, j < k -> P (probe N h j).
Definition hash_of (dd : CloudManager) (v t e : Z) : nat := Z.to_nat (cloudHashCudd3 v t e (dd_shiftUnique dd)).

(** The slots that a new signature keeps: the constant and the variables. *)
Definition kept (dd : CloudManager) (i : nat) : Prop := i = 0 \/ ptr dd i false ∈ dd_vars dd.

Record table_ok (dd : CloudManager) : Prop := {
  tab_geo : geometry dd;
  tab_sign : (1 <= dd_nSignCur dd < 2 ^ 32)%Z;
  tab_signs : forall i n, dd_nodes dd !! i = Some n -> (0 <= cloudS n <= dd_nSignCur dd)%Z;
  tab_const : exists n, node_at dd 0 = Some n /\ cloudV n = CLOUD_CONST_INDEX;
  tab_nodes : forall i n, node_at dd i = Some n -> i <> 0 -> reduced dd n;
  tab_chain : forall i n, node_at dd i = Some n -> i <> 0 ->
    reaches (dd_nNodesAlloc dd) (fun j => is_Some (node_at dd j)) (hash_of dd (cloudV n) (cloudT n) (cloudE n)) i;
  tab_unique : forall i j n n', node_at dd i = Some n -> node_at dd j = Some n' -> i <> 0 -> j <> 0 ->
    cloudV n = cloudV n' -> cloudT n = cloudT n' -> cloudE n = cloudE n' -> i = j;
  tab_vars : forall x p, dd_vars dd !! x = Some p -> exists i, p = ptr dd i false /\ i <> 0 /\
    node_at dd i = Some (mkCloudNode (dd_nSignCur dd) (Z.of_nat x) (dd_zero dd) (dd_one dd)) /\
    reaches (dd_nNodesAlloc dd) (kept dd) (hash_of dd (Z.of_nat x) (dd_one dd) (dd_zero dd)) i }.

(** The slots in use are counted, and the limit is not reached; a manager that has refused a node is at the limit. *)
Definition in_use (dd : CloudManager) (i : nat) : bool := if node_at dd i is Some _ then true else false.
Definition counted (dd : CloudManager) : Prop :=
  cnt (dd_nNodesAlloc dd) (in_use dd) = Z.of_nat (dd_nNodesCur dd) /\ dd_nNodesCur dd < dd_nNodesLimit dd.

(** * Searching the table *)

Lemma cnt_all n f : (forall i, i < n -> f i = true) -> cnt n f = Z.of_nat n.
Proof. induction n as [|n IH]; intros H; [done|]. cbn [cnt]. rewrite IH, H by auto. cbn [Z.b2z]. lia. Qed.

Lemma cnt_insert n f g i : i < n -> f i = false -> g i = true -> (forall j, j < n -> j <> i -> g j = f j) -> cnt n g = (cnt n f + 1)%Z.
Proof.
  intros Hi Hf Hg Hj. induction n as [|n IH]; [lia|]. cbn [cnt]. destruct (decide (i = n)) as [->|Hne].
  - rewrite Hf, Hg, (cnt_ext n g f) by (intros; apply Hj; lia). cbn. lia.
  - rewrite (Hj n), IH by (lia || intros; apply Hj; lia). lia.
Qed.

Lemma probe_step N h k : h < N -> S k < N -> probe N h (S k) = if S (probe N h k) =? N then 1 else S (probe N h k).
Proof.
  intros Hh Hk. unfold probe. destruct (Nat.ltb_spec (h + k) N), (Nat.ltb_spec (h + S k) N), (Nat.eqb_spec (S (h + k)) N); try lia.
  destruct (Nat.eqb_spec (S (h + k - N + 1)) N); lia.
Qed.

Lemma probe_lt N h k : h < N -> k < N -> probe N h k < N.
Proof. intros Hh Hk. unfold probe. destruct (Nat.ltb_spec (h + k) N); lia. Qed.

(** A search of [N] steps meets every slot but perhaps the first. *)
Lemma probe_all N h i : h < N -> 0 < i < N -> exists k, k < N /\ probe N h k = i.
Proof.
  intros Hh Hi. unfold probe. destruct (le_lt_dec h i).
  - exists (i - h). split; [lia|]. destruct (Nat.ltb_spec (h + (i - h)) N); lia.
  - exists (N - h + i - 1). split; [lia|]. destruct (Nat.ltb_spec (h + (N - h + i - 1)) N); lia.
Qed.

Definition matches (v t e : Z) (n : CloudNode) : bool := (cloudV n =? v)%Z && (cloudT n =? t)%Z && (cloudE n =? e)%Z.

Lemma matches_true v t e n : matches v t e n = true <-> cloudV n = v /\ cloudT n = t /\ cloudE n = e.
Proof. unfold matches. rewrite !andb_true_iff, !Z.eqb_eq. tauto. Qed.

Lemma node_at_lookup dd i n : node_at dd i = Some n -> dd_nodes dd !! i = Some n /\ cloudS n = dd_nSignCur dd.
Proof.
  unfold node_at. destruct (dd_nodes dd !! i) as [m|]; [|done]. cbn [mbind option_bind].
  destruct (Z.eqb_spec (cloudS m) (dd_nSignCur dd)); [|done]. by intros [= ->].
Qed.

Lemma node_at_lt dd i n : geometry dd -> node_at dd i = Some n -> i < dd_nNodesAlloc dd.
Proof. intros G [E _]%node_at_lookup. rewrite <- (geo_nodes dd G). by apply lookup_lt_Some in E. Qed.

Lemma empty_slot dd : table_ok dd -> (cnt (dd_nNodesAlloc dd) (in_use dd) < Z.of_nat (dd_nNodesAlloc dd))%Z ->
  exists i, 0 < i < dd_nNodesAlloc dd /\ node_at dd i = None.
Proof.
  intros T Hc. destruct (find (fun i => negb (in_use dd i)) (seq 0 (dd_nNodesAlloc dd))) as [i|] eqn:E.
  - apply find_seq_Some in E as (Hi & Hn & _). exists i. unfold in_use in Hn. destruct (node_at dd i) eqn:En; [done|]. split; [|done].
    destruct (decide (i = 0)) as [->|]; [|lia]. destruct (tab_const dd T) as (n & Ec & _). congruence.
  - rewrite cnt_all in Hc; [lia|]. intros i Hi. pose proof (proj1 (find_seq_None _ _ _) E i ltac:(lia)) as Hn.
    by apply negb_false_iff.
Qed.

(** What a search has met before slot [i]. *)
Definition passes (dd : CloudManager) (v t e : Z) (h k : nat) : Prop :=
  forall j, j < k -> exists n, node_at dd (probe (dd_nNodesAlloc dd) h j) = Some n /\ matches v t e n = false.

Lemma find_entry_from dd v t e h : table_ok dd -> h < dd_nNodesAlloc dd -> (exists i, 0 < i < dd_nNodesAlloc dd /\ node_at dd i = None) ->
  forall fuel k, fuel + k = dd_nNodesAlloc dd -> passes dd v t e h k ->
  exists b k', find_entry fuel dd v t e (probe (dd_nNodesAlloc dd) h k) = Some (b, probe (dd_nNodesAlloc dd) h k') /\ k' < dd_nNodesAlloc dd /\ passes dd v t e h k' /\
    if b : bool then exists n, node_at dd (probe (dd_nNodesAlloc dd) h k') = Some n /\ matches v t e n = true
    else node_at dd (probe (dd_nNodesAlloc dd) h k') = None.
Proof.
  intros T Hh (z & Hz & Ez). pose proof (tab_geo dd T) as G. set (N := dd_nNodesAlloc dd) in *.
  assert (forall k, passes dd v t e h k -> k < N) as Hlt.
  { intros k Hp. destruct (probe_all N h z Hh Hz) as (j & Hj & E). destruct (le_lt_dec N k); [|done].
    destruct (Hp j) as (n & En & _); [lia|]. fold N in En. congruence. }
  intros fuel. induction fuel as [|fuel IH]; intros k Hk Hp; [specialize (Hlt k Hp); lia|]. cbn [find_entry].
  pose proof (probe_lt N h k Hh ltac:(lia)) as Hi. set (i := probe N h k) in *.
  destruct (dd_nodes dd !! i) as [n|] eqn:En; [|apply lookup_ge_None in En; rewrite (geo_nodes dd G) in En; fold N in En; lia].
  cbn [mbind option_bind]. assert (node_at dd i = if (cloudS n =? dd_nSignCur dd)%Z then Some n else None) as Ea by (unfold node_at; by rewrite En).
  destruct (Z.eqb_spec (cloudS n) (dd_nSignCur dd)) as [Es|Es].
  - destruct (matches v t e n) eqn:Em; unfold matches in Em; rewrite Em.
    + exists true, k. split; [done|]. split; [lia|]. split; [done|]. by exists n.
    + assert (passes dd v t e h (S k)) as Hp'.
      { intros j Hj. destruct (decide (j = k)) as [->|]; [by exists n|apply Hp; lia]. }
      pose proof (Hlt _ Hp') as HS. fold N. unfold i. rewrite <- probe_step by done. apply IH; [lia|done].
  - exists false, k. split; [done|]. split; [lia|]. done.
Qed.

(** Two searches from the same slot: one that does not meet a node does not end before or after it. *)
Lemma passes_unmet dd v t e h k i n : table_ok dd -> passes dd v t e h k -> node_at dd (probe (dd_nNodesAlloc dd) h k) = None ->
  node_at dd i = Some n -> matches v t e n = true -> reaches (dd_nNodesAlloc dd) (fun j => is_Some (node_at dd j)) h i -> False.
Proof.
  intros T Hp Hk En Em (m & Hm & Ei & Ha). destruct (lt_eq_lt_dec k m) as [ [Hlt| ->]|Hgt].
  - destruct (Ha k Hlt) as [x Ex]. congruence.
  - congruence.
  - destruct (Hp m Hgt) as (x & Ex & Ef). rewrite Ei in Ex. congruence.
Qed.

(** * Adding a node *)

(** What the routines that make nodes do not change. *)
Definition frame (dd : CloudManager) :=
  (dd_nVars dd, dd_bitsNode dd, dd_shiftUnique dd, dd_nNodesAlloc dd, dd_nNodesLimit dd, dd_nSignCur dd, dd_tUnique dd, dd_one dd, dd_zero dd, dd_vars dd).
Definition caches_of (dd : CloudManager) := (dd_bitsCache dd, dd_shiftCache dd, dd_tCaches dd).
Record grows (dd dd' : CloudManager) : Prop := {
  grow_frame : frame dd' = frame dd;
  grow_nodes : forall i n, node_at dd i = Some n -> node_at dd' i = Some n;
  grow_cur : dd_nNodesCur dd <= dd_nNodesCur dd' }.

#[export] Instance grows_preorder : PreOrder grows.
Proof.
  split.
  - by split.
  - intros a b c [F1 N1 C1] [F2 N2 C2]. split; [congruence|auto|lia].
Qed.

Ltac same_frame F := unfold frame in F; injection F as Hnv Hbits Hshift Halloc Hlimit Hsign Hbase Hone Hzero Hvars.

Lemma live_ptr dd i c n : node_at dd i = Some n -> live dd (ptr dd i c).
Proof. intros E. by exists i, c, n. Qed.

Lemma level_ptr dd i c n : geometry dd -> node_at dd i = Some n -> level dd (ptr dd i c) = cloudV n.
Proof. intros G [E _]%node_at_lookup. unfold level, Cloud_V. by rewrite (ptr_node dd G i c n E). Qed.

Lemma V_live dd p : geometry dd -> live dd p -> Cloud_V dd p = Some (level dd p).
Proof. intros G (i & c & n & -> & [E _]%node_at_lookup). unfold level, Cloud_V. by rewrite (ptr_node dd G i c n E). Qed.

Lemma live_in dd p : geometry dd -> live dd p -> CLOUD_ASSERT dd p = true /\ p <> 0%Z.
Proof.
  intros G (i & c & n & -> & E). split; [by eapply ptr_in, node_at_lt|apply (ptr_nonzero dd G)].
Qed.

Lemma grows_ptr dd dd' i c : grows dd dd' -> ptr dd' i c = ptr dd i c.
Proof. intros [F _ _]. same_frame F. unfold ptr, pnode. congruence. Qed.

Lemma grows_live dd dd' p : grows dd dd' -> live dd p -> live dd' p.
Proof. intros H (i & c & n & -> & E). rewrite <- (grows_ptr dd dd') by done. eapply live_ptr, grow_nodes; eauto. Qed.

Lemma grows_level dd dd' p : geometry dd -> geometry dd' -> grows dd dd' -> live dd p -> level dd' p = level dd p.
Proof.
  intros G G' H (i & c & n & -> & E). rewrite (level_ptr dd i c n G E), <- (grows_ptr dd dd' i c H).
  apply (level_ptr dd'); [done|]. by eapply grow_nodes.
Qed.

Lemma reduced_grows dd dd' n : geometry dd -> geometry dd' -> grows dd dd' -> reduced dd n -> reduced dd' n.
Proof.
  intros G G' H [R1 R2 R3 R4 R5 [R6 R7]]. pose proof (grow_frame _ _ H) as F. same_frame F.
  split; [by rewrite Hnv|by eapply grows_live..|done|done|]. by rewrite !(grows_level dd dd') by done.
Qed.

Lemma reaches_mono N (P Q : nat -> Prop) h i : (forall j, P j -> Q j) -> reaches N P h i -> reaches N Q h i.
Proof. intros H (k & Hk & E & Ha). exists k. split; [done|]. split; [done|]. auto. Qed.

Lemma hash_lt dd v t e : geometry dd -> hash_of dd v t e < dd_nNodesAlloc dd.
Proof.
  intros G. unfold hash_of, cloudHashCudd3, wshr. rewrite (geo_alloc dd G), (geo_shift dd G). pose proof (geo_bits dd G) as Hb.
  set (x := wmul _ _). assert (0 <= x < 2 ^ 32)%Z as Hx by (apply Z.mod_pos_bound; lia). rewrite Z.shiftr_div_pow2 by lia.
  assert (x / 2 ^ Z.of_nat (31 - dd_bitsNode dd) < 2 ^ Z.of_nat (S (dd_bitsNode dd)))%Z as Hd.
  { apply Z.div_lt_upper_bound; [lia|]. rewrite <- Z.pow_add_r by lia.
    replace (Z.of_nat (31 - dd_bitsNode dd) + Z.of_nat (S (dd_bitsNode dd)))%Z with 32%Z by lia. lia. }
  assert (0 <= x / 2 ^ Z.of_nat (31 - dd_bitsNode dd))%Z by (apply Z.div_pos; lia).
  apply Nat2Z.inj_lt. rewrite Z2Nat.id by done. by rewrite Nat2Z.inj_pow.
Qed.

Lemma frame_live dd dd' p : frame dd' = frame dd -> (forall i, is_Some (node_at dd i) -> is_Some (node_at dd' i)) -> live dd p -> live dd' p.
Proof.
  intros F H (i & c & n & -> & E). destruct (H i) as [m Em]; [by rewrite E|]. exists i, c, m. same_frame F. split; [|done]. unfold ptr, pnode. congruence.
Qed.

Definition add_node (dd : CloudManager) (i : nat) (n : CloudNode) : CloudManager :=
  with_nodes (with_nNodesCur dd (S (dd_nNodesCur dd))) (<[i := n]> (dd_nodes dd)).

Section add_node.
Context (dd : CloudManager) (T : table_ok dd) (n : CloudNode) (k : nat).
Let h := hash_of dd (cloudV n) (cloudT n) (cloudE n).
Let i := probe (dd_nNodesAlloc dd) h k.
Context (Hk : k < dd_nNodesAlloc dd) (Hp : passes dd (cloudV n) (cloudT n) (cloudE n) h k) (Hi : node_at dd i = None).
Context (Hs : cloudS n = dd_nSignCur dd) (Hr : reduced dd n).

Lemma add_node_at j : node_at (add_node dd i n) j = if decide (j = i) then Some n else node_at dd j.
Proof using T Hk Hs.
  unfold node_at, add_node, with_nodes, with_nNodesCur. cbn [dd_nodes dd_nSignCur].
  assert (i < length (dd_nodes dd)) as Hl by (rewrite (geo_nodes dd (tab_geo dd T)); apply probe_lt; [apply hash_lt, T|done]).
  destruct (decide (j = i)) as [->|Hne].
  - rewrite list_lookup_insert_eq by done. cbn. by rewrite (proj2 (Z.eqb_eq _ _) Hs).
  - by rewrite list_lookup_insert_ne.
Qed.

Lemma add_node_grows : grows dd (add_node dd i n).
Proof using T Hk Hs Hi.
  split; [done| |cbn; lia]. intros j m E. rewrite add_node_at. destruct (decide (j = i)) as [->|]; [congruence|done].
Qed.

Lemma add_node_geometry : geometry (add_node dd i n).
Proof using T. destruct (tab_geo dd T). split; cbn; try done. by rewrite length_insert. Qed.

Lemma add_node_new : i <> 0.
Proof using T Hi. intros E. destruct (tab_const dd T) as (m & Em & _). congruence. Qed.

Lemma add_node_ok : table_ok (add_node dd i n).
Proof using T Hk Hp Hi Hs Hr.
  pose proof add_node_geometry as G. pose proof add_node_grows as Hg. pose proof (tab_geo dd T) as G0. pose proof add_node_new as Hi0.
  assert (forall j, is_Some (node_at dd j) -> is_Some (node_at (add_node dd i n) j)) as Hsome.
  { intros j [m Em]. exists m. by apply (grow_nodes _ _ Hg). }
  split; [done|apply T| | | | | |].
  - intros j m. unfold add_node. cbn [dd_nodes with_nodes dd_nSignCur with_nNodesCur]. rewrite list_lookup_insert.
    case_decide as Hd; [intros [= <-]; rewrite Hs; pose proof (tab_sign dd T); lia|]. apply (tab_signs dd T).
  - destruct (tab_const dd T) as (m & Em & Ec). exists m. split; [by apply (grow_nodes _ _ Hg)|done].
  - intros j m. rewrite add_node_at. case_decide as Hd; intros E Hj.
    + injection E as <-. by apply (reduced_grows dd).
    + apply (reduced_grows dd); [done..|]. by apply (tab_nodes dd T j).
  - intros j m. rewrite add_node_at. case_decide as Hd; intros E Hj.
    + injection E as <-. subst j. exists k. split; [done|]. split; [done|]. intros j Hj'. destruct (Hp j Hj') as (x & Ex & _).
      apply Hsome. by exists x.
    + eapply reaches_mono; [exact Hsome|]. by apply (tab_chain dd T j).
  - assert (forall j m, node_at dd j = Some m -> j <> 0 -> cloudV m = cloudV n -> cloudT m = cloudT n -> cloudE m = cloudE n -> False) as Hno.
    { intros j m E Hj EV ET EE. pose proof (tab_chain dd T j m E Hj) as Hc. rewrite EV, ET, EE in Hc.
      apply (passes_unmet dd (cloudV n) (cloudT n) (cloudE n) h k j m T Hp Hi E); [by apply matches_true|done]. }
    intros j j' m m'. rewrite !add_node_at. do 2 case_decide; intros E E' Hj Hj' EV ET EE; [congruence| | |by apply (tab_unique dd T j j' m m')].
    + injection E as <-. by destruct (Hno j' m' E' Hj').
    + injection E' as <-. by destruct (Hno j m E Hj).
  - intros x p Ep. destruct (tab_vars dd T x p Ep) as (j & Ej & Hj & En & Hc). exists j. split; [done|]. split; [done|].
    split; [by apply (grow_nodes _ _ Hg)|done].
Qed.

Lemma add_node_counted : counted dd -> S (dd_nNodesCur dd) < dd_nNodesLimit dd -> counted (add_node dd i n).
Proof using T Hk Hs Hi.
  intros [Hc _] Hlt. split; [|done]. cbn [dd_nNodesCur add_node with_nodes with_nNodesCur dd_nNodesAlloc].
  rewrite (cnt_insert _ (in_use dd) _ i); [lia|..].
  - apply probe_lt; [apply hash_lt, T|done].
  - unfold in_use. by rewrite Hi.
  - unfold in_use. by rewrite add_node_at, decide_True.
  - intros j _ Hne. unfold in_use. by rewrite add_node_at, decide_False.
Qed.
End add_node.

(** A manager whose limit has just been reached: nothing but the counter has changed. *)
Definition refused (dd dd' : CloudManager) : Prop := S (dd_nNodesCur dd) = dd_nNodesLimit dd /\ dd' = with_nNodesCur dd (dd_nNodesLimit dd).

(** A node with the contents asked for. *)
Definition node_ptr (dd : CloudManager) (p v t e : Z) : Prop :=
  exists i, p = ptr dd i false /\ i <> 0 /\ node_at dd i = Some (mkCloudNode (dd_nSignCur dd) v e t).

(** No slot is taken but the one of the node. *)
Definition only_new (dd dd' : CloudManager) (p : Z) : Prop := forall j m, node_at dd' j = Some m -> node_at dd j = Some m \/ p = ptr dd' j false.

Lemma matched_node dd i n v t e : node_at dd i = Some n -> matches v t e n = true -> n = mkCloudNode (dd_nSignCur dd) v e t.
Proof. intros [_ Es]%node_at_lookup (EV & ET & EE)%matches_true. destruct n. cbn in *. congruence. Qed.

(** The search of [cloudMakeNode], and what follows it. *)
Lemma makeNode_search dd v t e : table_ok dd -> counted dd -> reduced dd (mkCloudNode (dd_nSignCur dd) v e t) ->
  exists b k, let i := probe (dd_nNodesAlloc dd) (hash_of dd v t e) k in
    k < dd_nNodesAlloc dd /\ passes dd v t e (hash_of dd v t e) k /\
    (if b : bool then exists n, node_at dd i = Some n /\ matches v t e n = true else node_at dd i = None) /\
    cloudMakeNode dd v t e = if b then Some (ptr dd i false, dd)
      else if S (dd_nNodesCur dd) =? dd_nNodesLimit dd then Some (0%Z, with_nNodesCur dd (S (dd_nNodesCur dd)))
      else Some (ptr dd i false, add_node dd i (mkCloudNode (dd_nSignCur dd) v e t)).
Proof.
  intros T [Hc Hl] R. pose proof (tab_geo dd T) as G. pose proof R as [Rv Rt Re Rr Rd [R1 R2]]. cbn [cloudV cloudT cloudE] in Rv, Rt, Re, Rr, Rd, R1, R2.
  unfold cloudMakeNode. destruct (live_in dd t G Rt) as [-> Ht%Z.eqb_neq]. destruct (live_in dd e G Re) as [-> He%Z.eqb_neq].
  rewrite (proj2 (Z.leb_le _ _)), (proj2 (Z.ltb_lt _ _)), !V_live by (done || lia). cbn [andb mbind option_bind].
  rewrite !(proj2 (Z.ltb_lt _ _)), Rr, Ht, He by done. cbn [andb negb].
  pose proof (hash_lt dd v t e G) as Hh. fold (hash_of dd v t e).
  destruct (empty_slot dd T) as (z & Hz); [rewrite Hc, (geo_alloc dd G); pose proof (geo_limit dd G); cbn [Nat.pow]; lia|].
  destruct (find_entry_from dd v t e (hash_of dd v t e) T Hh (ex_intro _ z Hz) (dd_nNodesAlloc dd) 0) as (b & k & Ef & Hk & Hp & Hb); [lia|intros j Hj; lia|].
  replace (probe (dd_nNodesAlloc dd) (hash_of dd v t e) 0) with (hash_of dd v t e) in Ef by (unfold probe; destruct (Nat.ltb_spec (hash_of dd v t e + 0) (dd_nNodesAlloc dd)); lia).
  rewrite Ef. cbn [mbind option_bind]. exists b, k. cbv zeta. do 3 (split; [done|]). unfold ptr. rewrite Z.add_0_r. done.
Qed.

Lemma matched_ptr dd i n v t e : table_ok dd -> (v < CLOUD_CONST_INDEX)%Z -> node_at dd i = Some n -> matches v t e n = true -> node_ptr dd (ptr dd i false) v t e.
Proof.
  intros T Hv En Em. pose proof (matched_node _ _ _ _ _ _ En Em) as ->. exists i. split; [done|]. split; [|done]. intros ->.
  destruct (tab_const dd T) as (m & Em' & Ec). rewrite En in Em'. injection Em' as <-. cbn in Ec. lia.
Qed.

Lemma cloudMakeNode_spec dd v t e : table_ok dd -> counted dd -> reduced dd (mkCloudNode (dd_nSignCur dd) v e t) ->
  exists p dd', cloudMakeNode dd v t e = Some (p, dd') /\
    (p = 0%Z /\ refused dd dd' \/
     p <> 0%Z /\ table_ok dd' /\ counted dd' /\ grows dd dd' /\ caches_of dd' = caches_of dd /\ dd_ppNodes dd' = dd_ppNodes dd /\
       dd_nNodesCur dd' <= S (dd_nNodesCur dd) /\ node_ptr dd' p v t e /\ only_new dd dd' p).
Proof.
  intros T C R. pose proof (tab_geo dd T) as G. destruct (makeNode_search dd v t e T C R) as (b & k & Hk & Hp & Hb & ->).
  set (i := probe _ _ k) in *. set (n := mkCloudNode _ _ _ _) in *. destruct b.
  - destruct Hb as (m & En & Em). eexists _, dd. split; [done|]. right. split; [apply (ptr_nonzero dd G)|]. do 5 (split; [done|]). split; [lia|].
    split; [|by intros j x; left]. apply (matched_ptr dd i m v t e T); [|done..].
    pose proof (red_var dd n R). pose proof (geo_vars dd G). unfold CLOUD_CONST_INDEX. cbn in *. lia.
  - destruct (Nat.eqb_spec (S (dd_nNodesCur dd)) (dd_nNodesLimit dd)) as [E|E]; eexists _, _; (split; [done|]).
    + left. split; [done|]. split; [done|]. by rewrite E.
    + right. split; [apply (ptr_nonzero dd G)|]. split; [exact (add_node_ok dd T n k Hk Hp Hb eq_refl R)|].
      split; [apply (add_node_counted dd T n k Hk Hb eq_refl); [done|destruct C; lia]|].
      split; [exact (add_node_grows dd T n k Hk Hb eq_refl)|]. split; [done|]. split; [done|]. split; [cbn; lia|].
      split; [|intros j m; rewrite (add_node_at dd T n k Hk eq_refl); case_decide; [subst j; by right|by left]].
      exists i. split; [done|]. split; [exact (add_node_new dd T n k Hb)|].
      exact (eq_trans (add_node_at dd T n k Hk eq_refl _) (decide_True _ _ eq_refl)).
Qed.

(** A node that is there is found. *)
Lemma cloudMakeNode_found dd v t e p : table_ok dd -> counted dd -> reduced dd (mkCloudNode (dd_nSignCur dd) v e t) -> node_ptr dd p v t e ->
  cloudMakeNode dd v t e = Some (p, dd).
Proof.
  intros T C R (j & -> & Hj & Ej). destruct (makeNode_search dd v t e T C R) as (b & k & Hk & Hp & Hb & ->).
  assert (matches v t e (mkCloudNode (dd_nSignCur dd) v e t) = true) as Em by by apply matches_true. destruct b.
  - destruct Hb as (n & En & Hm). do 3 f_equal. pose proof (matched_node _ _ _ _ _ _ En Hm) as ->.
    apply (tab_unique dd T _ j _ _ En Ej); try done. intros E0. rewrite E0 in En. destruct (tab_const dd T) as (m & Em' & Ec). rewrite En in Em'.
    injection Em' as <-. pose proof (red_var dd _ R) as Hv. pose proof (geo_vars dd (tab_geo dd T)). unfold CLOUD_CONST_INDEX in Ec. cbn in *. lia.
  - exfalso. pose proof (tab_chain dd T j _ Ej Hj) as Hr. by apply (passes_unmet dd v t e _ k j _ T Hp Hb Ej Em).
Qed.

(** * Nodes of either polarity *)

(** [p] branches on [v] into [t] and [e]. *)
Definition branches (dd : CloudManager) (p v t e : Z) : Prop :=
  exists i c n, p = ptr dd i c /\ i <> 0 /\ node_at dd i = Some n /\ cloudV n = v /\ t = Cloud_NotCond (cloudT n) c /\ e = Cloud_NotCond (cloudE n) c.

(** What a successful construction leaves. *)
Record made (dd dd' : CloudManager) : Prop := {
  made_ok : table_ok dd';
  made_counted : counted dd';
  made_grows : grows dd dd';
  made_caches : caches_of dd' = caches_of dd;
  made_ppNodes : dd_ppNodes dd' = dd_ppNodes dd;
  made_cur : dd_nNodesCur dd' <= S (dd_nNodesCur dd) }.

Lemma live_notcond dd p c : geometry dd -> live dd p -> live dd (Cloud_NotCond p c) /\ level dd (Cloud_NotCond p c) = level dd p.
Proof.
  intros G (i & b & n & -> & E). rewrite (ptr_notcond dd G). split; [by eapply live_ptr|]. by rewrite !(level_ptr dd i _ n G E).
Qed.

Lemma live_not dd p : geometry dd -> live dd p -> live dd (Cloud_Not p) /\ level dd (Cloud_Not p) = level dd p.
Proof. apply (live_notcond dd p true). Qed.

Lemma not_inj p q : Cloud_Not p = Cloud_Not q -> p = q.
Proof. unfold Cloud_Not. intros E. apply (f_equal (fun x => Z.lxor x 1)) in E. by rewrite !Z.lxor_assoc, Z.lxor_nilpotent, !Z.lxor_0_r in E. Qed.

Lemma notcond_false p : Cloud_NotCond p false = p.
Proof. apply Z.lxor_0_r. Qed.

Lemma not_not p : Cloud_Not (Cloud_Not p) = p.
Proof. unfold Cloud_Not. by rewrite Z.lxor_assoc, Z.lxor_nilpotent, Z.lxor_0_r. Qed.

Lemma make_either_spec dd v t e : table_ok dd -> counted dd -> (0 <= v < Z.of_nat (dd_nVars dd))%Z -> live dd t -> live dd e -> t <> e ->
  (v < level dd t)%Z -> (v < level dd e)%Z ->
  exists p dd', make_either dd v t e = Some (p, dd') /\ (p = 0%Z /\ refused dd dd' \/ p <> 0%Z /\ made dd dd' /\ branches dd' p v t e).
Proof.
  intros T C Hv Ht He Hne L1 L2. pose proof (tab_geo dd T) as G. unfold make_either. destruct (Cloud_IsComplement t) eqn:Ec.
  - destruct (live_not dd t G Ht) as [Ht' Lt]. destruct (live_not dd e G He) as [He' Le].
    destruct (cloudMakeNode_spec dd v (Cloud_Not t) (Cloud_Not e) T C) as (p & dd' & -> & H).
    { split; cbn; [done..| |by intros ?%not_inj|lia]. destruct Ht as (i & c & n & -> & _). unfold is_regular. rewrite (ptr_not dd G), (ptr_compl dd G) in *. by subst c. }
    cbn [mbind option_bind]. eexists _, dd'. split; [done|]. destruct H as [[-> H]|(Hp & T' & C' & Hg & Hca & Hpp & Hcur & (i & -> & Hi & En) & _)]; [by left|right].
    rewrite (proj2 (Z.eqb_neq _ _) Hp). cbn [negb]. rewrite (ptr_not dd' (tab_geo dd' T')). split; [apply (ptr_nonzero dd'), T'|]. split; [done|].
    eexists i, true, _. split; [done|]. split; [done|]. split; [done|]. cbn [cloudV cloudT cloudE].
    change (Cloud_NotCond ?x true) with (Cloud_Not x). by rewrite !not_not.
  - destruct (cloudMakeNode_spec dd v t e T C) as (p & dd' & -> & H); [by split|].
    eexists _, dd'. split; [done|]. destruct H as [H|(Hp & T' & C' & Hg & Hca & Hpp & Hcur & (i & -> & Hi & En) & _)]; [by left|right].
    split; [done|]. split; [done|]. eexists i, false, _. split; [done|]. split; [done|]. split; [done|]. cbn. by rewrite !notcond_false.
Qed.

Lemma make_either_found dd p v t e : table_ok dd -> counted dd -> (0 <= v < Z.of_nat (dd_nVars dd))%Z -> live dd t -> live dd e -> t <> e ->
  (v < level dd t)%Z -> (v < level dd e)%Z -> branches dd p v t e -> make_either dd v t e = Some (p, dd).
Proof.
  intros T C Hv Ht He Hne L1 L2 (i & c & n & -> & Hi & En & Ev & Et & Ee). pose proof (tab_geo dd T) as G.
  pose proof (tab_nodes dd T i n En Hi) as R. pose proof (red_regular dd n R) as Rr. pose proof (proj2 (node_at_lookup _ _ _ En)) as Es.
  assert (Cloud_IsComplement t = c) as Ec.
  { destruct (red_t dd n R) as (x & cx & ? & Ex & _). unfold is_regular in Rr. rewrite Ex in Et, Rr. rewrite (ptr_compl dd G) in Rr. subst cx.
    by rewrite Et, (ptr_notcond dd G), (ptr_compl dd G). }
  assert (n = mkCloudNode (dd_nSignCur dd) v (cloudE n) (cloudT n)) as E by (destruct n; cbn in *; congruence).
  assert (node_ptr dd (ptr dd i false) v (cloudT n) (cloudE n)) as N by (exists i; do 2 (split; [done|]); by rewrite <- E).
  rewrite E in R. pose proof (cloudMakeNode_found dd v (cloudT n) (cloudE n) _ T C R N) as Hf. unfold make_either. rewrite Ec. destruct c.
  - rewrite Et, Ee. change (Cloud_NotCond ?x true) with (Cloud_Not x). rewrite !not_not, Hf. cbn [mbind option_bind].
    rewrite (proj2 (ptr_nonzero dd G i false)). cbn [negb]. by rewrite (ptr_not dd G).
  - by rewrite Et, Ee, !notcond_false.
Qed.

Lemma MakeNode_either dd v t e : table_ok dd -> live dd t -> live dd e -> (v < level dd t)%Z -> (v < level dd e)%Z ->
  Cloud_MakeNode dd v t e = make_either dd v t e.
Proof.
  intros T Ht He L1 L2. pose proof (tab_geo dd T) as G. unfold Cloud_MakeNode.
  rewrite (proj1 (live_in dd t G Ht)), (proj1 (live_in dd e G He)), !V_live by done. cbn [mbind option_bind].
  by rewrite !(proj2 (Z.ltb_lt _ _)).
Qed.

Lemma MakeNode_spec dd v t e : table_ok dd -> counted dd -> (0 <= v < Z.of_nat (dd_nVars dd))%Z -> live dd t -> live dd e -> t <> e ->
  (v < level dd t)%Z -> (v < level dd e)%Z ->
  exists p dd', Cloud_MakeNode dd v t e = Some (p, dd') /\ (p = 0%Z /\ refused dd dd' \/ p <> 0%Z /\ made dd dd' /\ branches dd' p v t e).
Proof. intros T C Hv Ht He Hne L1 L2. rewrite MakeNode_either by done. by apply make_either_spec. Qed.
