(* ===== verification/CloudInit.v ===== *)
(** The start and the restart of a manager of decision diagrams ([cloud.c]): [Cloud_Init] establishes the invariant, and
    [Cloud_Restart] empties the table but for the constant and the variables, which keep their slots. *)
From S2P Require Import Prelude Words Cloud.

(** * The restart *)

Definition kept_upto (dd : CloudManager) (x i : nat) : Prop := i = 0 \/ ptr dd i false ∈ take x (dd_vars dd).
#[export] Instance kept_upto_dec dd x i : Decision (kept_upto dd x i).
Proof. apply or_dec; [apply Nat.eq_dec|apply _]. Defined.

Lemma kept_upto_0 dd i : kept_upto dd 0 i <-> i = 0.
Proof. unfold kept_upto. rewrite take_0. split; [intros [?|H]; [done|by apply elem_of_nil in H]|by left]. Qed.

Lemma kept_upto_all dd i : kept_upto dd (length (dd_vars dd)) i <-> kept dd i.
Proof. unfold kept_upto, kept. by rewrite firstn_all. Qed.

Lemma kept_upto_S dd x i p : dd_vars dd !! x = Some p -> kept_upto dd (S x) i <-> kept_upto dd x i \/ ptr dd i false = p.
Proof.
  intros E. unfold kept_upto. rewrite (take_S_r _ _ _ E), elem_of_app, list_elem_of_singleton. tauto.
Qed.

Definition bumped (n : CloudNode) : CloudNode := mkCloudNode (next_sign (cloudS n)) (cloudV n) (cloudE n) (cloudT n).

Lemma next_sign_lt s : (0 <= s < 2 ^ 32 - 1)%Z -> next_sign s = (s + 1)%Z.
Proof. intros H. unfold next_sign, wadd. apply Z.mod_small. lia. Qed.

Section restart.
Context (dd : CloudManager) (T : table_ok dd).
Let G := tab_geo dd T.

Lemma var_slot x p : dd_vars dd !! x = Some p -> exists i, p = ptr dd i false /\ i <> 0 /\ i < dd_nNodesAlloc dd /\
  node_at dd i = Some (mkCloudNode (dd_nSignCur dd) (Z.of_nat x) (dd_zero dd) (dd_one dd)).
Proof.
  intros E. destruct (tab_vars dd T x p E) as (i & Ei & Hi & En & _). exists i. do 2 (split; [done|]). split; [by eapply node_at_lt|done].
Qed.

Lemma var_slot_inj x y p : dd_vars dd !! x = Some p -> dd_vars dd !! y = Some p -> x = y.
Proof.
  intros Ex Ey. destruct (var_slot x p Ex) as (i & -> & _ & _ & En). destruct (var_slot y _ Ey) as (j & Ej & _ & _ & En').
  apply (ptr_inj dd G) in Ej as [<- _]. rewrite En in En'. injection En' as E. lia.
Qed.

Lemma var_not_kept x i : dd_vars dd !! x = Some (ptr dd i false) -> ~ kept_upto dd x i.
Proof.
  intros E [->|H].
  - destruct (var_slot x _ E) as (i & Ei & Hi & _). apply (ptr_inj dd G) in Ei as [<- _]. done.
  - apply list_elem_of_lookup in H as [y Ey]. apply lookup_take_Some in Ey as [Ey' Hy].
    pose proof (var_slot_inj x y _ E Ey'). lia.
Qed.

(** The nodes after [x] variables have the new signature. *)
Definition bumped_upto (x : nat) (nodes : list CloudNode) : Prop :=
  forall i, nodes !! i = if decide (kept_upto dd x i) then bumped <$> dd_nodes dd !! i else dd_nodes dd !! i.

Lemma bump_step x nodes i p sign : bumped_upto x nodes -> dd_vars dd !! x = Some p -> p = ptr dd i false ->
  exists nodes', bump (with_nodes (with_nSignCur dd sign) nodes) p = Some (with_nodes (with_nSignCur dd sign) nodes') /\ bumped_upto (S x) nodes'.
Proof.
  intros Hb E ->. destruct (var_slot x _ E) as (j & Ej & Hi & Hl & En). apply (ptr_inj dd G) in Ej as [<- _].
  apply node_at_lookup in En as [En _]. pose proof (var_not_kept x i E) as Hk.
  assert (nodes !! i = dd_nodes dd !! i) as Ei by (by rewrite Hb, decide_False).
  unfold bump. change (place (with_nodes (with_nSignCur dd sign) nodes)) with (place dd).
  rewrite (ptr_place dd i Hl). cbn [mbind option_bind dd_nodes with_nodes with_nSignCur]. rewrite Ei, En. cbn [mbind option_bind].
  eexists. split; [done|]. intros j. rewrite list_lookup_insert.
  assert (i < length nodes) by (apply lookup_lt_is_Some; rewrite Ei, En; eauto).
  destruct (decide (kept_upto dd (S x) j)) as [Hj|Hj]; rewrite (kept_upto_S _ _ _ _ E) in Hj; rewrite (ptr_inj dd G) in Hj.
  - case_decide as Hd; [destruct Hd as [-> _]; by rewrite En|]. rewrite Hb. destruct Hj as [Hj|[-> _]]; [by rewrite decide_True|tauto].
  - rewrite decide_False by (intros [-> _]; tauto). by rewrite Hb, decide_False by tauto.
Qed.

Lemma kept_count x : x <= length (dd_vars dd) -> cnt (dd_nNodesAlloc dd) (fun i => bool_decide (kept_upto dd x i)) = (1 + Z.of_nat x)%Z.
Proof.
  induction x as [|x IH]; intros Hx.
  - rewrite (cnt_insert _ (fun _ => false) _ 0); [by rewrite cnt_false| |done| |].
    + rewrite (geo_alloc dd G). pose proof (Nat.pow_nonzero 2 (S (dd_bitsNode dd))). lia.
    + apply bool_decide_true. by left.
    + intros j _ Hj. apply bool_decide_false. by rewrite kept_upto_0.
  - destruct (lookup_lt_is_Some_2 (dd_vars dd) x Hx) as [p E]. destruct (var_slot x p E) as (i & Ei & _ & Hl & _).
    rewrite (cnt_insert _ (fun i => bool_decide (kept_upto dd x i)) _ i Hl), IH; [lia|lia|..].
    + apply bool_decide_false, var_not_kept. by rewrite E, Ei.
    + apply bool_decide_true. apply (kept_upto_S _ _ _ _ E). by right.
    + intros j _ Hj. apply bool_decide_ext. rewrite (kept_upto_S _ _ _ _ E), Ei, (ptr_inj dd G). tauto.
Qed.
End restart.

#[export] Instance kept_dec dd i : Decision (kept dd i).
Proof. apply or_dec; [apply Nat.eq_dec|apply _]. Defined.

(** The node of a variable. *)
Lemma literal_reduced dd x n : geometry dd -> node_at dd 0 = Some n -> cloudV n = CLOUD_CONST_INDEX -> x < dd_nVars dd ->
  reduced dd (mkCloudNode (dd_nSignCur dd) (Z.of_nat x) (dd_zero dd) (dd_one dd)).
Proof.
  intros G En Ev Hx. pose proof (geo_vars dd G) as Hv. split; cbn [cloudV cloudT cloudE].
  - lia.
  - rewrite (geo_one dd G). by apply (live_ptr dd 0 false n).
  - rewrite (geo_zero dd G). by apply (live_ptr dd 0 true n).
  - rewrite (geo_one dd G). apply (ptr_compl dd G).
  - rewrite (geo_one dd G), (geo_zero dd G). by intros [_ ?]%(ptr_inj dd G).
  - rewrite (geo_one dd G), (geo_zero dd G), !(level_ptr dd 0 _ n G En), Ev. unfold CLOUD_CONST_INDEX. lia.
Qed.

(** What a restart leaves: the nodes that are kept, with the next signature. *)
Record restarted (dd dd' : CloudManager) : Prop := {
  re_ok : table_ok dd';
  re_counted : counted dd';
  re_sign : dd_nSignCur dd' = (dd_nSignCur dd + 1)%Z;
  re_cur : dd_nNodesCur dd' = 1 + dd_nVars dd;
  re_frame : frame (with_nSignCur dd (dd_nSignCur dd')) = frame dd';
  re_caches : caches_of dd' = caches_of dd;
  re_ppNodes : dd_ppNodes dd' = dd_ppNodes dd;
  re_nodes : forall i, node_at dd' i = if decide (kept dd i) then bumped <$> node_at dd i else None }.

Section restart_ok.
Context (dd : CloudManager) (T : table_ok dd) (Hlen : length (dd_vars dd) = dd_nVars dd).
Context (Hsign : (dd_nSignCur dd < 2 ^ 32 - 1)%Z) (nodes : list CloudNode) (Hb : bumped_upto dd (dd_nVars dd) nodes).
Let G := tab_geo dd T.
Let dd' := with_nNodesCur (with_nodes (with_nSignCur dd (dd_nSignCur dd + 1)) nodes) (1 + dd_nVars dd).

Lemma restart_lookup i : nodes !! i = if decide (kept dd i) then bumped <$> dd_nodes dd !! i else dd_nodes dd !! i.
Proof.
  rewrite Hb. destruct (decide (kept dd i)) as [H|H]; rewrite <- kept_upto_all, Hlen in H; [by rewrite decide_True|by rewrite decide_False].
Qed.

Lemma kept_live i : kept dd i -> exists n, node_at dd i = Some n /\ cloudS n = dd_nSignCur dd.
Proof.
  intros [->|H].
  - destruct (tab_const dd T) as (n & En & _). exists n. split; [done|]. by apply (node_at_lookup _ _ _ En).
  - apply list_elem_of_lookup in H as [x E]. destruct (var_slot dd T x _ E) as (j & Ej & _ & _ & En). apply (ptr_inj dd G) in Ej as [<- _]. by eexists.
Qed.

Lemma restart_at i : node_at dd' i = if decide (kept dd i) then bumped <$> node_at dd i else None.
Proof.
  unfold node_at at 1. cbn [dd_nodes dd' with_nNodesCur with_nodes dd_nSignCur with_nSignCur]. rewrite restart_lookup.
  destruct (decide (kept dd i)) as [H|H].
  - destruct (kept_live i H) as (n & En & Es). rewrite En. apply node_at_lookup in En as [-> _]. cbn.
    rewrite Es, next_sign_lt, Z.eqb_refl by (pose proof (tab_sign dd T); lia). done.
  - destruct (dd_nodes dd !! i) as [n|] eqn:En; [|done]. cbn [mbind option_bind].
    pose proof (tab_signs dd T i n En). destruct (Z.eqb_spec (cloudS n) (dd_nSignCur dd + 1)); [lia|done].
Qed.

Lemma restart_at_Some i n : node_at dd' i = Some n -> kept dd i /\ exists m, node_at dd i = Some m /\ n = bumped m.
Proof.
  rewrite restart_at. case_decide as H; [|done]. destruct (node_at dd i) as [m|]; [|done]. intros [= <-]. eauto.
Qed.

Lemma restart_kept i : kept dd i -> is_Some (node_at dd' i).
Proof. intros H. rewrite restart_at, decide_True by done. destruct (kept_live i H) as (n & -> & _). by eexists. Qed.

Lemma restart_geometry : geometry dd'.
Proof.
  destruct G. split; cbn [dd' with_nNodesCur with_nodes with_nSignCur dd_nVars dd_bitsNode dd_nNodesAlloc dd_nNodesLimit dd_shiftUnique dd_nodes dd_tUnique dd_one dd_zero]; try done.
  apply Nat.le_antisymm.
  - apply Nat.nlt_ge. intros Hl. apply lookup_lt_is_Some in Hl as [n E]. rewrite restart_lookup in E.
    assert (dd_nodes dd !! dd_nNodesAlloc dd = None) as En by (apply lookup_ge_None; lia). rewrite En in E. by case_decide.
  - apply Nat.nlt_ge. intros Hl. assert (nodes !! length nodes = None) as E by (by apply lookup_ge_None). rewrite restart_lookup in E.
    destruct (lookup_lt_is_Some_2 (dd_nodes dd) (length nodes)) as [n En]; [congruence|]. rewrite En in E. by case_decide.
Qed.

Lemma kept_var i n : kept dd i -> i <> 0 -> node_at dd i = Some n -> exists x, dd_vars dd !! x = Some (ptr dd i false) /\
  n = mkCloudNode (dd_nSignCur dd) (Z.of_nat x) (dd_zero dd) (dd_one dd) /\
  reaches (dd_nNodesAlloc dd) (kept dd) (hash_of dd (Z.of_nat x) (dd_one dd) (dd_zero dd)) i.
Proof.
  intros [?|H] Hi En; [done|]. apply list_elem_of_lookup in H as [x E]. exists x. split; [done|].
  destruct (tab_vars dd T x _ E) as (j & Ej & _ & En' & Hc). apply (ptr_inj dd G) in Ej as [<- _]. split; [congruence|done].
Qed.

Lemma restart_const : exists n, node_at dd' 0 = Some n /\ cloudV n = CLOUD_CONST_INDEX.
Proof.
  destruct (tab_const dd T) as (n & En & Ev). exists (bumped n). rewrite restart_at, decide_True, En by by left. done.
Qed.

Lemma restart_table : table_ok dd'.
Proof.
  pose proof restart_geometry as G'. split; [done| | |apply restart_const| | | |].
  - cbn [dd' with_nNodesCur with_nodes dd_nSignCur with_nSignCur]. pose proof (tab_sign dd T). lia.
  - intros i n. cbn [dd' with_nNodesCur with_nodes dd_nSignCur with_nSignCur dd_nodes]. rewrite restart_lookup.
    destruct (dd_nodes dd !! i) as [m|] eqn:Em; [|by case_decide]. pose proof (tab_signs dd T i m Em).
    case_decide; intros [= <-]; [|lia]. cbn [bumped cloudS]. rewrite next_sign_lt by lia. lia.
  - intros i n E Hi. apply restart_at_Some in E as (Hk & m & Em & ->). destruct (kept_var i m Hk Hi Em) as (x & Ex & -> & _).
    unfold bumped. cbn [cloudS cloudV cloudE cloudT]. rewrite next_sign_lt by (pose proof (tab_sign dd T); lia). destruct restart_const as (c & Ec & Ev). apply (literal_reduced dd' x c G' Ec Ev).
    cbn. rewrite <- Hlen. by apply lookup_lt_Some in Ex.
  - intros i n E Hi. apply restart_at_Some in E as (Hk & m & Em & ->). destruct (kept_var i m Hk Hi Em) as (x & Ex & -> & Hc).
    eapply reaches_mono; [|exact Hc]. apply restart_kept.
  - intros i j n n' (_ & m & Em & ->)%restart_at_Some (_ & m' & Em' & ->)%restart_at_Some. apply (tab_unique dd T i j m m' Em Em').
  - intros x p Ex. destruct (tab_vars dd T x p Ex) as (i & Ei & Hi & En & Hc). exists i. split; [done|]. split; [done|]. split; [|done].
    assert (kept dd i) as Hk by (right; apply list_elem_of_lookup; exists x; by rewrite <- Ei).
    rewrite restart_at, decide_True, En by done.
    unfold bumped. cbn. by rewrite next_sign_lt by (pose proof (tab_sign dd T); lia).
Qed.

Lemma restart_counted : 1 + dd_nVars dd < dd_nNodesLimit dd -> counted dd'.
Proof.
  intros Hl. split; [|done]. cbn [dd' with_nNodesCur with_nodes dd_nNodesCur with_nSignCur dd_nNodesAlloc].
  rewrite <- Hlen, Nat2Z.inj_add. etransitivity; [|apply (kept_count dd T); lia]. apply cnt_ext. intros i _. unfold in_use.
  destruct (node_at dd' i) as [n|] eqn:E; symmetry.
  - apply bool_decide_true. rewrite kept_upto_all. by apply (restart_at_Some _ _ E).
  - apply bool_decide_false. rewrite kept_upto_all. intros H. destruct (restart_kept i H) as [n En]. congruence.
Qed.
End restart_ok.

Lemma Restart_spec dd : table_ok dd -> length (dd_vars dd) = dd_nVars dd -> (dd_nSignCur dd < 2 ^ 32 - 1)%Z -> 1 + dd_nVars dd < dd_nNodesLimit dd ->
  exists dd', Cloud_Restart dd = Some dd' /\ restarted dd dd'.
Proof.
  intros T Hlen Hs Hl. pose proof (tab_geo dd T) as G. unfold Cloud_Restart. destruct (tab_const dd T) as (n & En & Ev).
  pose proof (node_at_lookup _ _ _ En) as [En' Es]. assert (0 < dd_nNodesAlloc dd) as H0 by (by eapply node_at_lt in En).
  assert (node_of dd (dd_one dd) = Some n) as ->.
  { unfold node_of. by rewrite (geo_one dd G), (ptr_place dd 0 H0). }
  cbn [mbind option_bind]. rewrite Es, Z.eqb_refl. rewrite next_sign_lt by (pose proof (tab_sign dd T); lia).
  set (sign := (dd_nSignCur dd + 1)%Z). change (dd_one (with_nSignCur dd sign)) with (dd_one dd).
  assert (exists nodes, bump (with_nSignCur dd sign) (dd_one dd) = Some (with_nodes (with_nSignCur dd sign) nodes) /\ bumped_upto dd 0 nodes) as (nodes0 & -> & Hb0).
  { unfold bump. change (place (with_nSignCur dd sign)) with (place dd). rewrite (geo_one dd G), (ptr_place dd 0 H0).
    cbn [mbind option_bind dd_nodes with_nSignCur]. rewrite En'. cbn [mbind option_bind]. eexists. split; [done|]. intros i. rewrite list_lookup_insert.
    rewrite (geo_nodes dd G). destruct (decide (kept_upto dd 0 i)) as [H|H]; rewrite kept_upto_0 in H.
    - subst i. by rewrite decide_True, En'.
    - by rewrite decide_False by (intros [? _]; congruence). }
  cbn [mbind option_bind dd_nVars with_nodes with_nSignCur].
  assert (exists nodes, for_up (dd_nVars dd) (fun i s => s ← s; p ← dd_vars s !! i; bump s p) (Some (with_nodes (with_nSignCur dd sign) nodes0)) =
    Some (with_nodes (with_nSignCur dd sign) nodes) /\ bumped_upto dd (dd_nVars dd) nodes) as (nodes & -> & Hb).
  { apply (for_up_ind (fun x s => exists nodes, s = Some (with_nodes (with_nSignCur dd sign) nodes) /\ bumped_upto dd x nodes)); [by eexists|].
    intros x s Hx (nodes & -> & Hb). cbn [mbind option_bind dd_vars with_nodes with_nSignCur].
    destruct (lookup_lt_is_Some_2 (dd_vars dd) x) as [p E]; [by rewrite Hlen|]. rewrite E. cbn [mbind option_bind].
    destruct (var_slot dd T x p E) as (i & Ei & _). destruct (bump_step dd T x nodes i p sign Hb E Ei) as (nodes' & -> & Hb'). by eexists. }
  cbn [mbind option_bind dd_nVars with_nodes with_nSignCur]. eexists. split; [done|]. split; try done.
  - by apply restart_table.
  - by apply restart_counted.
  - by apply restart_at.
Qed.

(** * The start *)

Lemma with_vars_ok dd vs : table_ok dd ->
  (forall x p, vs !! x = Some p -> exists i, p = ptr dd i false /\ i <> 0 /\
    node_at dd i = Some (mkCloudNode (dd_nSignCur dd) (Z.of_nat x) (dd_zero dd) (dd_one dd)) /\
    reaches (dd_nNodesAlloc dd) (kept (with_vars dd vs)) (hash_of dd (Z.of_nat x) (dd_one dd) (dd_zero dd)) i) -> table_ok (with_vars dd vs).
Proof.
  intros [G T1 T2 T3 T4 T5 T6 _] H. split; [by destruct G|done|exact T2|exact T3| |exact T5|exact T6|exact H].
  intros i n E Hi. by destruct (T4 i n E Hi).
Qed.

(** While the variables are made, every slot in use is kept. *)
Record starting (dd0 : CloudManager) (x : nat) (dd : CloudManager) : Prop := {
  st_ok : table_ok dd;
  st_counted : counted dd;
  st_len : length (dd_vars dd) = x;
  st_kept : forall j n, node_at dd j = Some n -> kept dd j;
  st_frame : frame (with_vars dd []) = frame dd0;
  st_caches : caches_of dd = caches_of dd0;
  st_ppNodes : dd_ppNodes dd = dd_ppNodes dd0 }.

(** Then their number is known. *)
Lemma starting_cur dd0 x dd : starting dd0 x dd -> dd_nNodesCur dd = 1 + x.
Proof.
  intros [T C Hl Hk _ _]. apply Nat2Z.inj. rewrite <- (proj1 C), <- Hl, Nat2Z.inj_add. etransitivity; [|exact (kept_count dd T (length (dd_vars dd)) (le_n _))].
  apply cnt_ext. intros i _. unfold in_use. destruct (node_at dd i) as [n|] eqn:E; symmetry.
  - apply bool_decide_true. rewrite kept_upto_all. by eapply Hk.
  - apply bool_decide_false. rewrite kept_upto_all. intros H. destruct (kept_live dd T i H) as (n & En & _). congruence.
Qed.

Lemma start_step dd0 x dd : starting dd0 x dd -> x < dd_nVars dd0 -> 1 + dd_nVars dd0 < dd_nNodesLimit dd0 ->
  exists p dd', cloudMakeNode dd (Z.of_nat x) (dd_one dd) (dd_zero dd) = Some (p, dd') /\ starting dd0 (S x) (with_vars dd' (dd_vars dd' ++ [p])).
Proof.
  intros S Hx Hl. pose proof (starting_cur _ _ _ S) as Hcur. destruct S as [T C Hlen Hk F Hca Hpp]. pose proof (tab_geo dd T) as G. destruct (tab_const dd T) as (c & Ec & Ev).
  unfold frame in F. cbn [with_vars dd_nVars dd_bitsNode dd_shiftUnique dd_nNodesAlloc dd_nNodesLimit dd_nSignCur dd_tUnique dd_one dd_zero dd_vars] in F.
  injection F as F1 F2 F3 F4 F5 F6 F7 F8 F9 F10.
  destruct (cloudMakeNode_spec dd (Z.of_nat x) (dd_one dd) (dd_zero dd) T C) as (p & dd' & -> & H).
  { apply (literal_reduced dd x c G Ec Ev). lia. }
  exists p, dd'. split; [done|]. destruct H as [[_ [H _]]|(Hp & T' & C' & Hg & Hc & Hpp' & _ & (i & -> & Hi & En) & Hn)]; [lia|].
  pose proof (grow_frame _ _ Hg) as F. same_frame F. pose proof (tab_geo dd' T') as G'. set (dd2 := with_vars dd' (dd_vars dd' ++ [ptr dd' i false])).
  assert (forall j n, node_at dd' j = Some n -> kept dd2 j) as Hk2.
  { intros j n Ej. destruct (Hn j n Ej) as [Eo|E].
    - destruct (Hk j n Eo) as [->|Hin]; [by left|right]. cbn [dd2 with_vars dd_vars]. rewrite elem_of_app. left.
      rewrite Hvars. change (ptr dd2 j false) with (ptr dd' j false). by rewrite (grows_ptr dd dd').
    - right. cbn [dd2 with_vars dd_vars]. rewrite elem_of_app, list_elem_of_singleton. right. by rewrite E. }
  split.
  - apply with_vars_ok; [done|]. intros y q Ey. apply lookup_app_Some in Ey as [Ey|[Hy Ey]].
    + destruct (tab_vars dd' T' y q Ey) as (j & Ej & Hj & Ej' & Hr). exists j. do 3 (split; [done|]). eapply reaches_mono; [|exact Hr].
      intros z [->|Hz]; [by left|right]. cbn [with_vars dd_vars]. rewrite elem_of_app. by left.
    + apply list_lookup_singleton_Some in Ey as [Ey <-]. assert (y = x) as -> by (rewrite Hvars in Ey, Hy; lia). exists i. do 2 (split; [done|]). rewrite Hone, Hzero. split; [done|].
      pose proof (tab_chain dd' T' i _ En Hi) as Hr. cbn [cloudV cloudT cloudE] in Hr. eapply reaches_mono; [|exact Hr]. intros j [n Ej]. by eapply Hk2.
  - done.
  - cbn. rewrite length_app, Hvars, Hlen. cbn. lia.
  - exact Hk2.
  - unfold frame. cbn. congruence.
  - etransitivity; [|exact Hca]. exact Hc.
  - cbn. congruence.
Qed.

(** A manager that works: with its variables, and the limit not reached. *)
Record cloud_ok (dd : CloudManager) : Prop := {
  ok_table : table_ok dd;
  ok_counted : counted dd;
  ok_vars : length (dd_vars dd) = dd_nVars dd;
  ok_room : 1 + dd_nVars dd < dd_nNodesLimit dd }.

Definition node_bits (nBits : nat) : nat := if nBits =? 0 then CLOUD_NODE_BITS else nBits.

Lemma Init_spec nVars nBits tUnique : (Z.of_nat nVars <= 100000)%Z -> 3 <= node_bits nBits <= 29 -> 1 + nVars < 2 ^ node_bits nBits ->
  (0 < tUnique)%Z -> Z.even tUnique = true ->
  exists dd, Cloud_Init nVars nBits tUnique = Some dd /\ cloud_ok dd /\ dd_nVars dd = nVars /\ dd_bitsNode dd = node_bits nBits /\
    dd_nSignCur dd = 1%Z /\ dd_nNodesCur dd = 1 + nVars /\
    dd_bitsCache dd = map (fun r => Z.of_nat (node_bits nBits) - r)%Z CacheLogRatioDefault /\
    dd_shiftCache dd = map (fun b => 32 - b)%Z (dd_bitsCache dd) /\ dd_tCaches dd = replicate 4 None /\ dd_ppNodes dd = None.
Proof.
  intros Hv Hb Hl Hu He. unfold Cloud_Init. rewrite (proj2 (Z.leb_le _ _) Hv). fold (node_bits nBits).
  assert (nBits < 32) as -> % Nat.ltb_lt by (unfold node_bits in Hb; destruct (Nat.eqb_spec nBits 0); lia). set (b := node_bits nBits) in *.
  rewrite (proj2 (Nat.ltb_lt b 30)) by lia. set (dd0 := mkCloud _ _ _ _ _ _ _ _ _ _ _ _ _ _ _ _).
  assert (0 < 2 ^ (b + 1)) as Hp by (pose proof (Nat.pow_nonzero 2 (b + 1)); lia).
  assert (geometry dd0) as G.
  { split; cbn; try done; [by rewrite Nat.add_1_r|lia| | |]; [by rewrite length_insert, length_replicate|unfold ptr, pnode; cbn; lia|].
    apply Z.even_spec in He as [q Eq]. unfold ptr, pnode, Cloud_Not. cbn [dd_tUnique]. change 1%Z with (Z.b2z true) at 1.
    replace tUnique with (2 * q + Z.b2z false)%Z at 1 by (cbn; lia). rewrite double_lxor. cbn. lia. }
  assert (forall i, node_at dd0 i = if i =? 0 then Some (mkCloudNode 1 CLOUD_CONST_INDEX 0 0) else None) as Hat.
  { intros i. unfold node_at. cbn [dd0 dd_nodes dd_nSignCur]. rewrite list_lookup_insert, length_replicate. destruct i as [|i].
    - by rewrite decide_True.
    - rewrite decide_False by (by intros [? _]). destruct (replicate _ _ !! S i) as [n|] eqn:E; [|done].
      by apply lookup_replicate in E as [-> _]. }
  assert (starting dd0 0 dd0) as Hs.
  { split; try done.
    - split; [done|cbn; lia| | | | | |].
      + intros i n. cbn [dd0 dd_nodes dd_nSignCur]. rewrite list_lookup_insert. case_decide; [intros [= <-]; cbn; lia|].
        intros [-> _]%lookup_replicate. cbn. lia.
      + eexists. rewrite Hat. by cbn.
      + intros i n. rewrite Hat. destruct (Nat.eqb_spec i 0); done.
      + intros i n. rewrite Hat. destruct (Nat.eqb_spec i 0); done.
      + intros i j n n'. rewrite Hat. destruct (Nat.eqb_spec i 0); done.
      + by intros x p.
    - split; [|cbn; lia]. cbn [dd0 dd_nNodesAlloc dd_nNodesCur].
      rewrite (cnt_insert _ (fun _ => false) _ 0); [by rewrite cnt_false|done|done|unfold in_use; by rewrite Hat|].
      intros j _ Hj. unfold in_use. rewrite Hat. by destruct (Nat.eqb_spec j 0).
    - intros j n. rewrite Hat. destruct (Nat.eqb_spec j 0); [by left|done]. }
  assert (exists dd, for_up nVars (fun i s => s ← s; '(p, s) ← cloudMakeNode s (Z.of_nat i) (dd_one s) (dd_zero s); Some (with_vars s (dd_vars s ++ [p]))) (Some dd0) = Some dd /\
    starting dd0 nVars dd) as (dd & -> & S).
  { apply (for_up_ind (fun x s => exists dd, s = Some dd /\ starting dd0 x dd)); [by eexists|]. intros x s Hx (dd & -> & S). cbn [mbind option_bind].
    destruct (start_step dd0 x dd S) as (p & dd' & -> & S'); [done|cbn; lia|]. by eexists. }
  exists dd. split; [done|]. pose proof (starting_cur _ _ _ S) as Hcur. destruct S as [T C Hlen _ F Hca Hpp].
  unfold frame in F. cbn in F. injection F as F1 F2 F3 F4 F5 F6 F7 F8 F9. unfold caches_of in Hca. cbn in Hca. injection Hca as Ha1 Ha2 Ha3.
  split; [split; [done|done|lia|rewrite F1, F5; lia]|]. split; [done|]. split; [done|]. split; [done|]. split; [lia|]. rewrite Ha1, Ha2. done.
Qed.
