(* ===== verification/CloudBdd.v ===== *)
(** The functions of decision diagrams and the operations of [cloud.c] on them: equal functions have equal pointers, and
    [Cloud_bddAnd], [Cloud_bddOr] and [Cloud_bddXor], with their cache, compute the function that their name says or
    report that the limit is reached. *)
From S2P Require Import Prelude Words Cloud CloudInit.

(** * The routines *)

(** The entry of the cache of the conjunction for two arguments. *)
Definition and_entry (dd : CloudManager) (f g : Z) : option nat :=
  s ← dd_shiftCache dd !! oper_index CLOUD_OPER_AND;
  assert! (0 <=? s)%Z && (s <? 32)%Z in
  Some (Z.to_nat (cloudHashCudd2 f g (Z.to_nat s))).

Definition and_cache (dd : CloudManager) : option (list CloudCacheEntry2) := mjoin (dd_tCaches dd !! oper_index CLOUD_OPER_AND).

Definition cloudCacheLookup2 (p : CloudCacheEntry2) (sign f g : Z) : Z :=
  if (entS p =? sign)%Z && (entA p =? f)%Z && (entB p =? g)%Z then entR p else 0%Z.

Definition and_insert (dd : CloudManager) (cacheEntry : nat) (f g r : Z) : option CloudManager :=
  c ← and_cache dd;
  Some (with_caches dd (dd_bitsCache dd) (dd_shiftCache dd)
    (<[oper_index CLOUD_OPER_AND := Some (<[cacheEntry := mkEntry2 (dd_nSignCur dd) f g r]> c)]> (dd_tCaches dd))).

(** The cofactors of a function by the variable of its node: positive and negative. *)
Definition node_cofactors (f : Z) (n : CloudNode) : Z * Z :=
  if Cloud_IsComplement f then (Cloud_Not (cloudT n), Cloud_Not (cloudE n)) else (cloudT n, cloudE n).

Fixpoint cloudBddAnd (fuel : nat) (dd : CloudManager) (f g : Z) : option (Z * CloudManager) :=
  match fuel with
  | O => None
  | S fuel =>
    assert! (f <=? g)%Z in
    let F := Cloud_Regular f in
    let G := Cloud_Regular g in
    if (F =? G)%Z then Some (if (f =? g)%Z then f else dd_zero dd, dd)
    else if (F =? dd_one dd)%Z then Some (if (f =? dd_one dd)%Z then g else f, dd)
    else
      cacheEntry ← and_entry dd f g;
      entry ← (c ← and_cache dd; c !! cacheEntry);
      let r := cloudCacheLookup2 entry (dd_nSignCur dd) f g in
      if negb (r =? 0)%Z then Some (r, dd)
      else
        nF ← node_of dd F;
        nG ← node_of dd G;
        let '(var, (fv, fnv)) := if (cloudV nF <=? cloudV nG)%Z then (cloudV nF, node_cofactors f nF) else (cloudV nG, (f, f)) in
        let '(gv, gnv) := if (cloudV nG <=? cloudV nF)%Z then node_cofactors g nG else (g, g) in
        '(t, dd) ← (if (fv <=? gv)%Z then cloudBddAnd fuel dd fv gv else cloudBddAnd fuel dd gv fv);
        if (t =? 0)%Z then Some (0%Z, dd)
        else
          '(e, dd) ← (if (fnv <=? gnv)%Z then cloudBddAnd fuel dd fnv gnv else cloudBddAnd fuel dd gnv fnv);
          if (e =? 0)%Z then Some (0%Z, dd)
          else
            '(r, dd) ← (if (t =? e)%Z then Some (t, dd) else make_either dd var t e);
            if (r =? 0)%Z then Some (0%Z, dd)
            else
              dd ← and_insert dd cacheEntry f g r;
              Some (r, dd)
  end.

(** A recursive call goes below a variable. *)
Definition cloudBddAnd_gate (dd : CloudManager) (f g : Z) : option (Z * CloudManager) :=
  if (f <=? g)%Z then cloudBddAnd (S (dd_nVars dd)) dd f g else cloudBddAnd (S (dd_nVars dd)) dd g f.

Definition and_allocated (dd : CloudManager) : option CloudManager :=
  match and_cache dd with None => cloudCacheAllocate dd CLOUD_OPER_AND | Some _ => Some dd end.

Definition Cloud_bddAnd (dd : CloudManager) (f g : Z) : option (Z * CloudManager) :=
  if (Cloud_Regular f =? 0)%Z || (Cloud_Regular g =? 0)%Z then Some (0%Z, dd)
  else
    assert! CLOUD_ASSERT dd f in
    assert! CLOUD_ASSERT dd g in
    dd ← and_allocated dd;
    cloudBddAnd_gate dd f g.

Definition Cloud_bddOr (dd : CloudManager) (f g : Z) : option (Z * CloudManager) :=
  if (Cloud_Regular f =? 0)%Z || (Cloud_Regular g =? 0)%Z then Some (0%Z, dd)
  else
    assert! CLOUD_ASSERT dd f in
    assert! CLOUD_ASSERT dd g in
    dd ← and_allocated dd;
    '(res, dd) ← cloudBddAnd_gate dd (Cloud_Not f) (Cloud_Not g);
    Some (Cloud_NotCond res (negb (res =? 0)%Z), dd).

Definition Cloud_bddXor (dd : CloudManager) (f g : Z) : option (Z * CloudManager) :=
  if (Cloud_Regular f =? 0)%Z || (Cloud_Regular g =? 0)%Z then Some (0%Z, dd)
  else
    assert! CLOUD_ASSERT dd f in
    assert! CLOUD_ASSERT dd g in
    dd ← and_allocated dd;
    '(t0, dd) ← cloudBddAnd_gate dd f (Cloud_Not g);
    if (t0 =? 0)%Z then Some (0%Z, dd)
    else
      '(t1, dd) ← cloudBddAnd_gate dd (Cloud_Not f) g;
      if (t1 =? 0)%Z then Some (0%Z, dd)
      else Cloud_bddOr dd t0 t1.

(** * The function of a pointer *)

(** [a] gives the variables their values; a path passes every variable once. *)
Fixpoint cval_rec (fuel : nat) (dd : CloudManager) (a : nat -> bool) (p : Z) : bool :=
  match fuel with
  | O => false
  | S fuel =>
    match node_of dd (Cloud_Regular p) with
    | None => false
    | Some n => xorb (Cloud_IsComplement p)
        (if cloudIsConstant n then true else cval_rec fuel dd a (if a (Z.to_nat (cloudV n)) then cloudT n else cloudE n))
    end
  end.
Definition cval (dd : CloudManager) (a : nat -> bool) (p : Z) : bool := cval_rec (S (dd_nVars dd)) dd a p.
Definition rank (dd : CloudManager) (p : Z) : nat := Z.to_nat (Z.of_nat (dd_nVars dd) - level dd p).

(** A branching pointer of a good table. *)
Record node_view (dd : CloudManager) (p v t e : Z) : Prop := {
  nv_branches : branches dd p v t e;
  nv_var : (0 <= v < Z.of_nat (dd_nVars dd))%Z;
  nv_t : live dd t;
  nv_e : live dd e;
  nv_differ : t <> e;
  nv_level : level dd p = v;
  nv_below : (v < level dd t)%Z /\ (v < level dd e)%Z }.

Lemma branches_live dd p v t e : branches dd p v t e -> live dd p.
Proof. intros (i & c & n & -> & _ & En & _). by eapply live_ptr. Qed.

Lemma notcond_inj p q c : Cloud_NotCond p c = Cloud_NotCond q c -> p = q.
Proof. destruct c; [apply not_inj|by rewrite !notcond_false]. Qed.

Lemma level_const dd c : table_ok dd -> level dd (ptr dd 0 c) = CLOUD_CONST_INDEX /\ live dd (ptr dd 0 c).
Proof.
  intros T. destruct (tab_const dd T) as (n & En & Ev). split; [|by eapply live_ptr]. by rewrite (level_ptr dd 0 c n (tab_geo dd T) En).
Qed.

Lemma branches_view dd p v t e : table_ok dd -> branches dd p v t e -> node_view dd p v t e.
Proof.
  intros T B. pose proof B as (i & c & n & -> & Hi & En & Ev & -> & ->). pose proof (tab_geo dd T) as G.
  destruct (tab_nodes dd T i n En Hi) as [R1 R2 R3 R4 R5 [R6 R7]]. rewrite Ev in *.
  destruct (live_notcond dd (cloudT n) c G R2) as [L1 L2]. destruct (live_notcond dd (cloudE n) c G R3) as [L3 L4].
  split; try done; [by intros ?%notcond_inj|by rewrite (level_ptr dd i c n G En)|by rewrite L2, L4].
Qed.

Lemma live_view dd p : table_ok dd -> live dd p -> (exists c, p = ptr dd 0 c) \/ exists v t e, node_view dd p v t e.
Proof.
  intros T (i & c & n & -> & En). destruct (decide (i = 0)) as [->|Hi]; [left; by exists c|right].
  exists (cloudV n), (Cloud_NotCond (cloudT n) c), (Cloud_NotCond (cloudE n) c).
  apply (branches_view _ _ _ _ _ T). by exists i, c, n.
Qed.

Lemma view_rank dd p v t e : node_view dd p v t e -> rank dd t < rank dd p /\ rank dd e < rank dd p.
Proof. intros [_ Hv _ _ _ Hl [L1 L2]]. unfold rank. rewrite Hl. lia. Qed.

(** Induction on a pointer. *)
Lemma live_ind dd (T : table_ok dd) (P : Z -> Prop) : (forall c, P (ptr dd 0 c)) ->
  (forall p v t e, node_view dd p v t e -> P t -> P e -> P p) -> forall p, live dd p -> P p.
Proof.
  intros Hc Hn. assert (forall k p, rank dd p < k -> live dd p -> P p) as H; [|intros p Hl; apply (H (S (rank dd p))); [lia|done]].
  intros k. induction k as [|k IH]; intros p Hk Hl; [lia|]. destruct (live_view dd p T Hl) as [[c ->]|(v & t & e & V)]; [apply Hc|].
  destruct (view_rank _ _ _ _ _ V). apply (Hn p v t e V); apply IH; try lia; apply V.
Qed.

Lemma cval_rec_const k dd a c : table_ok dd -> cval_rec (S k) dd a (ptr dd 0 c) = negb c.
Proof.
  intros T. destruct (tab_const dd T) as (n & [En _]%node_at_lookup & Ev). cbn [cval_rec]. pose proof (tab_geo dd T) as G.
  rewrite (ptr_node dd G 0 c n En), (ptr_compl dd G). unfold cloudIsConstant. rewrite Ev. by destruct c.
Qed.

Lemma not_constant dd n : table_ok dd -> (0 <= cloudV n < Z.of_nat (dd_nVars dd))%Z -> cloudIsConstant n = false.
Proof.
  intros T Hv. pose proof (geo_vars dd (tab_geo dd T)). unfold cloudIsConstant. apply Z.eqb_neq. intros E.
  apply (f_equal (fun x => Z.testbit x 27)) in E. rewrite Z.land_spec in E. change (Z.testbit CLOUD_CONST_INDEX 27) with true in E.
  apply andb_true_iff in E as [E _]. rewrite (bits_high 27 (cloudV n)) in E by (change (2 ^ 27)%Z with 134217728%Z; lia).
  done.
Qed.


Lemma rank_notcond dd p c : table_ok dd -> live dd p -> rank dd (Cloud_NotCond p c) = rank dd p.
Proof. intros T Hl. unfold rank. by rewrite (proj2 (live_notcond dd p c (tab_geo dd T) Hl)). Qed.

(** More fuel than the rank makes no difference. *)
Lemma cval_rec_notcond k dd a p c : table_ok dd -> live dd p -> rank dd p < k -> cval_rec k dd a (Cloud_NotCond p c) = xorb c (cval_rec k dd a p).
Proof.
  intros T (i & b & n & -> & [En _]%node_at_lookup) Hk. destruct k as [|k]; [lia|]. pose proof (tab_geo dd T) as G.
  rewrite (ptr_notcond dd G). cbn [cval_rec]. rewrite !(ptr_node dd G i _ n En), !(ptr_compl dd G), <- xorb_assoc, (xorb_comm c b). done.
Qed.

Lemma cval_rec_branch k dd a p v t e : table_ok dd -> node_view dd p v t e -> rank dd p < S k ->
  cval_rec (S k) dd a p = if a (Z.to_nat v) then cval_rec k dd a t else cval_rec k dd a e.
Proof.
  intros T V Hk. destruct (view_rank _ _ _ _ _ V) as [K1 K2]. pose proof V as [B _ _ _ _ _ _]. pose proof (tab_geo dd T) as G.
  destruct B as (i & c & n & -> & Hi & En & <- & -> & ->). destruct (tab_nodes dd T i n En Hi) as [R1 R2 R3 _ _ _].
  rewrite !rank_notcond in K1, K2 by done.
  rewrite !cval_rec_notcond by (done || lia). pose proof (node_at_lookup _ _ _ En) as [En' _].
  cbn [cval_rec]. rewrite (ptr_node dd G i c n En'), (ptr_compl dd G), (not_constant dd n T R1). by destruct (a _).
Qed.

Lemma cval_rec_enough dd a : table_ok dd -> forall p, live dd p -> forall k k', rank dd p < k -> rank dd p < k' -> cval_rec k dd a p = cval_rec k' dd a p.
Proof.
  intros T. apply (live_ind dd T (fun p => forall k k', rank dd p < k -> rank dd p < k' -> cval_rec k dd a p = cval_rec k' dd a p)); [intros c|intros p v t e V IHt IHe].
  - intros [|k] [|k'] H H'; try lia. by rewrite !cval_rec_const.
  - intros [|k] [|k'] H H'; try lia. rewrite !(cval_rec_branch _ dd a p v t e T V) by done. destruct (view_rank _ _ _ _ _ V).
    rewrite (IHt k k'), (IHe k k') by lia. done.
Qed.

Lemma rank_fuel dd p : table_ok dd -> live dd p -> rank dd p < S (dd_nVars dd).
Proof.
  intros T Hl. unfold rank. assert (0 <= level dd p)%Z; [|lia]. destruct (live_view dd p T Hl) as [[c ->]|(v & t & e & V)].
  - rewrite (proj1 (level_const dd c T)). done.
  - rewrite (nv_level _ _ _ _ _ V). apply V.
Qed.

Lemma cval_const dd a c : table_ok dd -> cval dd a (ptr dd 0 c) = negb c.
Proof. apply cval_rec_const. Qed.

Lemma cval_notcond dd a p c : table_ok dd -> live dd p -> cval dd a (Cloud_NotCond p c) = xorb c (cval dd a p).
Proof. intros T Hl. apply cval_rec_notcond; [done|done|by apply rank_fuel]. Qed.

Lemma cval_not dd a p : table_ok dd -> live dd p -> cval dd a (Cloud_Not p) = negb (cval dd a p).
Proof. intros T Hl. by apply (cval_notcond dd a p true). Qed.

Lemma cval_branch dd a p v t e : table_ok dd -> node_view dd p v t e -> cval dd a p = if a (Z.to_nat v) then cval dd a t else cval dd a e.
Proof.
  intros T V. unfold cval at 1. rewrite (cval_rec_branch _ dd a p v t e T V) by (apply rank_fuel; [done|by eapply branches_live, V]).
  destruct (view_rank _ _ _ _ _ V). pose proof (rank_fuel dd p T (branches_live _ _ _ _ _ (nv_branches _ _ _ _ _ V))).
  destruct (a _); unfold cval; apply cval_rec_enough; try done; try apply V; try lia; apply rank_fuel; try done; apply V.
Qed.

(** Only the variables from the level on matter. *)
Lemma cval_irrel dd p : table_ok dd -> live dd p -> forall a a', (forall x, (level dd p <= Z.of_nat x)%Z -> x < dd_nVars dd -> a x = a' x) -> cval dd a p = cval dd a' p.
Proof.
  intros T. revert p. apply (live_ind dd T (fun p => forall a a', (forall x, (level dd p <= Z.of_nat x)%Z -> x < dd_nVars dd -> a x = a' x) -> cval dd a p = cval dd a' p)); [intros c|intros p v t e V IHt IHe]; intros a a' H.
  - by rewrite !cval_const.
  - rewrite !(cval_branch dd _ p v t e T V). destruct V as [_ Hv _ _ _ Hlev [L1 L2]]. rewrite Hlev in H. rewrite (H (Z.to_nat v)) by lia.
    rewrite (IHt a a'), (IHe a a'); [done|..]; intros x Hx; apply H; lia.
Qed.

Lemma branches_unique dd p q v t e : table_ok dd -> branches dd p v t e -> branches dd q v t e -> p = q.
Proof.
  intros T (i & c & n & -> & Hi & En & Ev & Et & Ee) (j & b & m & -> & Hj & Em & Ev' & Et' & Ee'). pose proof (tab_geo dd T) as G.
  destruct (tab_nodes dd T i n En Hi) as [_ (x & cx & ? & Ex & _) _ Rn _ _]. destruct (tab_nodes dd T j m Em Hj) as [_ (y & cy & ? & Ey & _) _ Rm _ _].
  unfold is_regular in Rn, Rm. assert (c = b) as <-.
  { rewrite Ex in Rn, Et. rewrite Ey in Rm, Et'. rewrite (ptr_compl dd G) in Rn, Rm. subst cx cy. rewrite (ptr_notcond dd G) in Et, Et'.
    rewrite Et in Et'. by apply (ptr_inj dd G) in Et' as [_ ?]. }
  f_equal. apply (tab_unique dd T i j n m En Em Hi Hj); [congruence|apply (notcond_inj _ _ c); congruence..].
Qed.

(** Equal functions have equal pointers. *)
Definition same_function (dd : CloudManager) (p q : Z) : Prop := forall a, cval dd a p = cval dd a q.
Definition set_var (a : nat -> bool) (v : Z) (b : bool) : nat -> bool := fun x => if (Z.of_nat x =? v)%Z then b else a x.

Lemma view_cofactor dd p v t e (b : bool) a : table_ok dd -> node_view dd p v t e -> cval dd (set_var a v b) p = cval dd a (if b then t else e).
Proof.
  intros T V. rewrite (cval_branch _ _ _ _ _ _ T V). destruct V as [_ Hv Ht He _ _ [L1 L2]].
  unfold set_var at 1. rewrite Z2Nat.id, Z.eqb_refl by lia.
  destruct b; apply cval_irrel; try done; intros x Hx _; unfold set_var; destruct (Z.eqb_spec (Z.of_nat x) v); lia || done.
Qed.

Lemma below_cofactor dd q v (b : bool) a : table_ok dd -> live dd q -> (v < level dd q)%Z -> cval dd (set_var a v b) q = cval dd a q.
Proof.
  intros T Hq L. apply cval_irrel; [done..|]. intros x Hx _. unfold set_var. destruct (Z.eqb_spec (Z.of_nat x) v); [lia|done].
Qed.

Lemma canonical_below dd p v t e q n : table_ok dd -> node_view dd p v t e -> live dd q -> (v < level dd q)%Z ->
  rank dd p + rank dd q < S n -> (forall x y, live dd x -> live dd y -> rank dd x + rank dd y < n -> same_function dd x y -> x = y) ->
  same_function dd p q -> False.
Proof.
  intros T V Hq L Hn IH H. destruct (view_rank _ _ _ _ _ V).
  assert (forall b : bool, same_function dd (if b then t else e) q) as Hb.
  { intros b a. rewrite <- (view_cofactor dd p v t e b a T V), H. by apply below_cofactor. }
  apply (nv_differ _ _ _ _ _ V). rewrite (IH t q), (IH e q); try done; try apply V; try lia; [apply (Hb false)|apply (Hb true)].
Qed.

Lemma canonical dd p q : table_ok dd -> live dd p -> live dd q -> same_function dd p q -> p = q.
Proof.
  intros T. remember (S (rank dd p + rank dd q)) as n eqn:En. assert (rank dd p + rank dd q < n) as Hn by lia. clear En.
  revert p q Hn. induction n as [|n IH]; [lia|]. intros p q Hn Hp Hq H.
  assert (forall x y, live dd x -> live dd y -> rank dd x + rank dd y < n -> same_function dd x y -> x = y) as IH' by (intros; by apply IH).
  pose proof (geo_vars dd (tab_geo dd T)) as Hnv.
  destruct (live_view dd p T Hp) as [[c ->]|(v & t & e & V)], (live_view dd q T Hq) as [[c' ->]|(v' & t' & e' & V')].
  - specialize (H (fun _ => true)). rewrite !cval_const in H by done. f_equal. by destruct c, c'.
  - destruct (canonical_below dd q v' t' e' (ptr dd 0 c) n T V' Hp); [|lia|done|by intros a; rewrite H].
    rewrite (proj1 (level_const dd c T)). pose proof (nv_var _ _ _ _ _ V'). unfold CLOUD_CONST_INDEX. lia.
  - destruct (canonical_below dd p v t e (ptr dd 0 c') n T V Hq); [|lia|done|done].
    rewrite (proj1 (level_const dd c' T)). pose proof (nv_var _ _ _ _ _ V). unfold CLOUD_CONST_INDEX. lia.
  - destruct (Z.lt_trichotomy v v') as [L|[<-|L]].
    + destruct (canonical_below dd p v t e q n T V Hq); [|done..]. by rewrite (nv_level _ _ _ _ _ V').
    + destruct (view_rank _ _ _ _ _ V), (view_rank _ _ _ _ _ V').
      assert (forall b : bool, same_function dd (if b then t else e) (if b then t' else e')) as Hb.
      { intros b a. by rewrite <- (view_cofactor dd p v t e b a T V), <- (view_cofactor dd q v t' e' b a T V'). }
      assert (t = t') as <- by (apply IH; [lia|apply V|apply V'|apply (Hb true)]).
      assert (e = e') as <- by (apply IH; [lia|apply V|apply V'|apply (Hb false)]).
      apply (branches_unique dd p q v t e T); [apply V|apply V'].
    + destruct (canonical_below dd q v' t' e' p n T V' Hp); [|lia|done|by intros a; rewrite H]. by rewrite (nv_level _ _ _ _ _ V).
Qed.

(** Growing the table changes no function. *)
Lemma grows_branches dd dd' p v t e : grows dd dd' -> branches dd p v t e -> branches dd' p v t e.
Proof.
  intros Hg (i & c & n & -> & Hi & En & H). exists i, c, n. split; [by rewrite (grows_ptr dd dd')|]. split; [done|]. split; [by apply (grow_nodes _ _ Hg)|done].
Qed.

Lemma grows_cval dd dd' a p : table_ok dd -> table_ok dd' -> grows dd dd' -> live dd p -> cval dd' a p = cval dd a p.
Proof.
  intros T T' Hg. revert p. apply (live_ind dd T (fun p => cval dd' a p = cval dd a p)); [intros c|intros p v t e V IHt IHe].
  - rewrite <- (grows_ptr dd dd' 0 c Hg) at 1. by rewrite !cval_const.
  - rewrite (cval_branch dd a p v t e T V), <- IHt, <- IHe. apply cval_branch; [done|]. apply branches_view; [done|]. eapply grows_branches, V. done.
Qed.

(** * The cache *)

(** An entry with the current signature holds a conjunction, which branches no earlier than its arguments. *)
Definition entry_ok (dd : CloudManager) (ce : CloudCacheEntry2) : Prop :=
  (0 <= entS ce <= dd_nSignCur dd)%Z /\
  (entS ce = dd_nSignCur dd -> live dd (entA ce) /\ live dd (entB ce) /\ live dd (entR ce) /\
    (Z.min (level dd (entA ce)) (level dd (entB ce)) <= level dd (entR ce))%Z /\
    forall a, cval dd a (entR ce) = cval dd a (entA ce) && cval dd a (entB ce)).

Record cache_ok (dd : CloudManager) : Prop := {
  ca_len : length (dd_tCaches dd) = CacheOperNum;
  ca_bits : exists b, (1 <= b <= 29)%Z /\ dd_bitsCache dd !! 0 = Some b /\ dd_shiftCache dd !! 0 = Some (32 - b)%Z /\
    forall c, and_cache dd = Some c -> length c = Z.to_nat (2 ^ b);
  ca_entries : forall c i ce, and_cache dd = Some c -> c !! i = Some ce -> entry_ok dd ce }.

(** The table is the same when the frame and the nodes are. *)
Lemma same_reduced dd dd' n : frame dd' = frame dd -> dd_nodes dd' = dd_nodes dd -> reduced dd n -> reduced dd' n.
Proof. destruct dd, dd'. unfold frame. cbn. intros F ->. injection F as -> -> -> -> -> -> -> -> -> ->. by intros []. Qed.

Lemma same_table_ok dd dd' : frame dd' = frame dd -> dd_nodes dd' = dd_nodes dd -> table_ok dd -> table_ok dd'.
Proof.
  intros F N T. pose proof (same_reduced dd dd') as R. destruct dd, dd'. unfold frame in *. cbn in F, N, R. subst.
  injection F as -> -> -> -> -> -> -> -> -> ->. destruct T as [G T1 T2 T3 T4 T5 T6 T7]. split; try done; [by destruct G|].
  intros i n E Hi. apply R; [done..|]. by eapply T4.
Qed.

Lemma same_grows dd dd' : frame dd' = frame dd -> dd_nodes dd' = dd_nodes dd -> dd_nNodesCur dd <= dd_nNodesCur dd' -> grows dd dd'.
Proof. intros F N C. split; [done| |done]. intros i n. same_frame F. unfold node_at. by rewrite N, Hsign. Qed.

Lemma entry_ok_grows dd dd' ce : table_ok dd -> table_ok dd' -> grows dd dd' -> entry_ok dd ce -> entry_ok dd' ce.
Proof.
  intros T T' Hg [H1 H2]. pose proof (grow_frame _ _ Hg) as F. same_frame F. split; [by rewrite Hsign|]. rewrite Hsign. intros E.
  destruct (H2 E) as (La & Lb & Lr & Hl & Hc). split; [by eapply grows_live|]. split; [by eapply grows_live|]. split; [by eapply grows_live|].
  rewrite !(grows_level dd dd') by (done || apply T || apply T'). split; [done|]. intros a. by rewrite !(grows_cval dd dd').
Qed.

Lemma same_caches dd dd' : caches_of dd' = caches_of dd -> dd_bitsCache dd' = dd_bitsCache dd /\ dd_shiftCache dd' = dd_shiftCache dd /\ and_cache dd' = and_cache dd /\ dd_tCaches dd' = dd_tCaches dd.
Proof. unfold caches_of, and_cache. intros E. injection E as E1 E2 E3. by rewrite E1, E2, E3. Qed.

Lemma cache_ok_grows dd dd' : table_ok dd -> table_ok dd' -> grows dd dd' -> caches_of dd' = caches_of dd -> cache_ok dd -> cache_ok dd'.
Proof.
  intros T T' Hg (E1 & E2 & E3 & E4)%same_caches [C1 C2 C3]. split; [congruence|by rewrite E1, E2, E3|]. rewrite E3. intros c i ce Hc Hi.
  apply (entry_ok_grows dd); [done..|]. by eapply C3.
Qed.

Lemma and_entry_spec dd f g c : cache_ok dd -> and_cache dd = Some c -> exists k ce, and_entry dd f g = Some k /\ c !! k = Some ce /\ entry_ok dd ce.
Proof.
  intros [_ (b & Hb & _ & Es & Hl) He] Ec. unfold and_entry. cbn [oper_index]. rewrite Es. cbn [mbind option_bind].
  rewrite (proj2 (Z.leb_le _ _)), (proj2 (Z.ltb_lt _ _)) by lia. cbn [andb].
  set (k := Z.to_nat _). assert (k < length c) as Hk.
  { rewrite (Hl c Ec). unfold k, cloudHashCudd2, wshr. set (x := wmul _ _). assert (0 <= x < 2 ^ 32)%Z as Hx by (apply Z.mod_pos_bound; lia).
    rewrite Z2Nat.id, Z.shiftr_div_pow2 by lia. assert (x / 2 ^ (32 - b) < 2 ^ b)%Z as Hd.
    { apply Z.div_lt_upper_bound; [lia|]. rewrite <- Z.pow_add_r by lia. replace (32 - b + b)%Z with 32%Z by lia. lia. }
    apply Z2Nat.inj_lt; [apply Z.div_pos; lia|lia|done]. }
  destruct (lookup_lt_is_Some_2 c k Hk) as [ce E]. exists k, ce. split; [done|]. split; [done|]. by eapply He.
Qed.

(** Writing a right entry keeps the cache. *)
Lemma and_insert_spec dd k f g r c : table_ok dd -> cache_ok dd -> and_cache dd = Some c -> live dd f -> live dd g -> live dd r ->
  (Z.min (level dd f) (level dd g) <= level dd r)%Z -> (forall a, cval dd a r = cval dd a f && cval dd a g) ->
  exists dd', and_insert dd k f g r = Some dd' /\ table_ok dd' /\ cache_ok dd' /\ grows dd dd' /\ is_Some (and_cache dd') /\
    dd_ppNodes dd' = dd_ppNodes dd /\ dd_nNodesCur dd' = dd_nNodesCur dd /\ (counted dd -> counted dd').
Proof.
  intros T [C1 (b & Hb & Eb & Es & Hl) C3] Ec Hf Hg Hr Hlev Hval. unfold and_insert. rewrite Ec. cbn [mbind option_bind oper_index].
  set (dd' := with_caches _ _ _ _). exists dd'. assert (table_ok dd') as T' by (by apply (same_table_ok dd)).
  assert (and_cache dd' = Some (<[k := mkEntry2 (dd_nSignCur dd) f g r]> c)) as Ec'.
  { unfold and_cache. cbn [dd' with_caches dd_tCaches oper_index]. rewrite list_lookup_insert_eq; [done|]. rewrite C1. unfold CacheOperNum. lia. }
  assert (grows dd dd') as Hgr by (by apply same_grows).
  split; [done|]. split; [done|]. split; [|split; [done|split; [by rewrite Ec'|done]]]. split.
  - cbn. by rewrite length_insert.
  - exists b. do 3 (split; [done|]). intros c' E. rewrite Ec' in E. injection E as <-. rewrite length_insert. by apply Hl.
  - intros c' i ce E. rewrite Ec' in E. injection E as <-. rewrite list_lookup_insert. case_decide.
    + intros [= <-]. apply (entry_ok_grows dd); [done..|]. cbn. split; [cbn; pose proof (tab_sign dd T); lia|done].
    + intros Hi. apply (entry_ok_grows dd); [done..|]. by eapply C3.
Qed.

(** * Conjunction *)

(** A manager after an operation, with the result: the null pointer at the limit, or a function that branches no
    earlier than [l]. *)
Record worked (dd dd' : CloudManager) : Prop := {
  wk_table : table_ok dd';
  wk_cache : cache_ok dd';
  wk_grows : grows dd dd';
  wk_alloc : is_Some (and_cache dd');
  wk_ppNodes : dd_ppNodes dd' = dd_ppNodes dd }.

Definition result (dd : CloudManager) (h : (nat -> bool) -> bool) (l : Z) (r : Z) (dd' : CloudManager) : Prop :=
  worked dd dd' /\ (r = 0%Z /\ dd_nNodesCur dd' = dd_nNodesLimit dd' \/
    r <> 0%Z /\ counted dd' /\ live dd' r /\ (l <= level dd' r)%Z /\ forall a, cval dd' a r = h a).

Lemma worked_trans dd dd1 dd2 : worked dd dd1 -> worked dd1 dd2 -> worked dd dd2.
Proof. intros [_ _ G1 _ P1] [T2 C2 G2 A2 P2]. split; [done|done|by etransitivity|done|congruence]. Qed.

Lemma worked_refl dd : table_ok dd -> cache_ok dd -> is_Some (and_cache dd) -> worked dd dd.
Proof. by split. Qed.

Lemma level_le_const dd p : table_ok dd -> live dd p -> (0 <= level dd p <= CLOUD_CONST_INDEX)%Z.
Proof.
  intros T Hl. destruct (live_view dd p T Hl) as [[c ->]|(v & t & e & V)].
  - rewrite (proj1 (level_const dd c T)). by split.
  - rewrite (nv_level _ _ _ _ _ V). pose proof (nv_var _ _ _ _ _ V). pose proof (geo_vars dd (tab_geo dd T)). unfold CLOUD_CONST_INDEX. lia.
Qed.

Lemma live_nonzero dd p : table_ok dd -> live dd p -> p <> 0%Z.
Proof. intros T Hl. by apply (live_in dd p (tab_geo dd T)). Qed.

(** A function and its cofactors by a variable no later than its own. *)
Record cofactor_of (dd : CloudManager) (p v pv pnv : Z) : Prop := {
  cf_live : live dd pv /\ live dd pnv;
  cf_level : (v < level dd pv)%Z /\ (v < level dd pnv)%Z;
  cf_val : forall a, cval dd a p = if a (Z.to_nat v) then cval dd a pv else cval dd a pnv }.

Lemma cofactor_grows dd dd' p v pv pnv : table_ok dd -> table_ok dd' -> grows dd dd' -> live dd p -> cofactor_of dd p v pv pnv -> cofactor_of dd' p v pv pnv.
Proof.
  intros T T' Hg Hp [[L1 L2] [V1 V2] H]. split; [split; by eapply grows_live| |].
  - rewrite !(grows_level dd dd') by (done || apply T || apply T'). done.
  - intros a. by rewrite !(grows_cval dd dd').
Qed.

Lemma view_cofactors dd i c n : table_ok dd -> i <> 0 -> node_at dd i = Some n ->
  let p := ptr dd i c in let '(pv, pnv) := node_cofactors p n in node_view dd p (cloudV n) pv pnv.
Proof.
  intros T Hi En. cbv zeta. pose proof (tab_geo dd T) as G. unfold node_cofactors. rewrite (ptr_compl dd G).
  assert (node_view dd (ptr dd i c) (cloudV n) (Cloud_NotCond (cloudT n) c) (Cloud_NotCond (cloudE n) c)) as H by (apply branches_view; [done|by exists i, c, n]).
  destruct c; [exact H|]. by rewrite !notcond_false in H.
Qed.

(** The two cases of the cofactoring code. *)
Lemma choose_cofactors dd i c n v : table_ok dd -> i <> 0 -> node_at dd i = Some n -> (v <= cloudV n)%Z ->
  let p := ptr dd i c in forall pv pnv, (pv, pnv) = (if (cloudV n <=? v)%Z then node_cofactors p n else (p, p)) -> cofactor_of dd p v pv pnv.
Proof.
  intros T Hi En Hv p pv pnv E. pose proof (view_cofactors dd i c n T Hi En) as V. cbv zeta in V. fold p in V.
  destruct (Z.leb_spec (cloudV n) v) as [L|L].
  - assert (v = cloudV n) as -> by lia. rewrite <- E in V. destruct (nv_below _ _ _ _ _ V). split; [split; apply V|done|]. intros a. by apply cval_branch.
  - injection E as -> ->. assert (live dd p) as Hp by (by eapply live_ptr). assert (level dd p = cloudV n) as El by (by apply (level_ptr dd i c n (tab_geo dd T))).
    split; [done|lia|]. intros a. by destruct (a _).
Qed.

(** The operation on two arguments in either order, at a given fuel. *)
Definition ordered_and (fuel : nat) (dd : CloudManager) (f g : Z) : option (Z * CloudManager) :=
  if (f <=? g)%Z then cloudBddAnd fuel dd f g else cloudBddAnd fuel dd g f.

Definition and_right (fuel : nat) : Prop := forall dd f g, table_ok dd -> counted dd -> cache_ok dd -> is_Some (and_cache dd) ->
  live dd f -> live dd g -> (Z.max 0 (Z.of_nat (dd_nVars dd) - Z.min (level dd f) (level dd g)) < Z.of_nat fuel)%Z -> (f <= g)%Z ->
  exists r dd', cloudBddAnd fuel dd f g = Some (r, dd') /\
    result dd (fun a => cval dd a f && cval dd a g) (Z.min (level dd f) (level dd g)) r dd'.

Lemma ordered_and_spec fuel dd f g : and_right fuel -> table_ok dd -> counted dd -> cache_ok dd -> is_Some (and_cache dd) ->
  live dd f -> live dd g -> (Z.max 0 (Z.of_nat (dd_nVars dd) - Z.min (level dd f) (level dd g)) < Z.of_nat fuel)%Z ->
  exists r dd', ordered_and fuel dd f g = Some (r, dd') /\
    result dd (fun a => cval dd a f && cval dd a g) (Z.min (level dd f) (level dd g)) r dd'.
Proof.
  intros IH T C Ca Ha Hf Hg Hk. unfold ordered_and. destruct (Z.leb_spec f g) as [L|L]; [by apply IH|].
  destruct (IH dd g f) as (r & dd' & E & W & H); [done..|lia|lia|]. exists r, dd'. split; [done|]. split; [done|].
  destruct H as [H|(H1 & H2 & H3 & H4 & H5)]; [by left|right]. split; [done|]. split; [done|]. split; [done|]. split; [lia|]. intros a. by rewrite H5, andb_comm.
Qed.

Lemma refused_worked dd dd' : table_ok dd -> cache_ok dd -> is_Some (and_cache dd) -> refused dd dd' -> worked dd dd' /\ dd_nNodesCur dd' = dd_nNodesLimit dd'.
Proof.
  intros T Ca Ha [Hc ->]. assert (table_ok (with_nNodesCur dd (dd_nNodesLimit dd))) as T' by (by apply (same_table_ok dd)).
  assert (grows dd (with_nNodesCur dd (dd_nNodesLimit dd))) as Hg by (apply same_grows; [done|done|cbn; lia]).
  split; [|done]. split; [done|by apply (cache_ok_grows dd)|done|done|done].
Qed.

Lemma made_worked dd dd' : table_ok dd -> cache_ok dd -> is_Some (and_cache dd) -> made dd dd' -> worked dd dd'.
Proof.
  intros T Ca Ha [T' C' Hg Hc Hp _]. split; [done|by apply (cache_ok_grows dd)|done| |done].
  destruct (same_caches _ _ Hc) as (_ & _ & -> & _). done.
Qed.

(** Two cofactors become a function. *)
Definition join (dd : CloudManager) (v t e : Z) : option (Z * CloudManager) := if (t =? e)%Z then Some (t, dd) else make_either dd v t e.

Lemma join_spec dd v t e : table_ok dd -> counted dd -> cache_ok dd -> is_Some (and_cache dd) -> (0 <= v < Z.of_nat (dd_nVars dd))%Z ->
  live dd t -> live dd e -> (v < level dd t)%Z -> (v < level dd e)%Z ->
  exists r dd', join dd v t e = Some (r, dd') /\ result dd (fun a => if a (Z.to_nat v) then cval dd a t else cval dd a e) v r dd'.
Proof.
  intros T C Ca Ha Hv Ht He L1 L2. unfold join. destruct (Z.eqb_spec t e) as [->|Hne].
  - exists e, dd. split; [done|]. split; [done|]. right. split; [by apply (live_nonzero dd)|]. split; [done|]. split; [done|]. split; [lia|].
    intros a. by destruct (a _).
  - destruct (make_either_spec dd v t e T C Hv Ht He Hne L1 L2) as (r & dd' & -> & H). exists r, dd'. split; [done|].
    destruct H as [[-> Hr]|(Hr & M & B)].
    + destruct (refused_worked dd dd' T Ca Ha Hr). split; [done|by left].
    + pose proof (made_worked dd dd' T Ca Ha M) as W. pose proof M as [T' C' Hg _ _ _]. pose proof (branches_view _ _ _ _ _ T' B) as V.
      split; [done|right]. split; [done|]. split; [done|]. split; [by eapply branches_live|]. split; [rewrite (nv_level _ _ _ _ _ V); lia|].
      intros a. rewrite (cval_branch _ _ _ _ _ _ T' V). by rewrite !(grows_cval dd dd').
Qed.

Lemma lookup2_spec dd ce f g : entry_ok dd ce -> cloudCacheLookup2 ce (dd_nSignCur dd) f g <> 0%Z ->
  let r := cloudCacheLookup2 ce (dd_nSignCur dd) f g in
  live dd r /\ (Z.min (level dd f) (level dd g) <= level dd r)%Z /\ forall a, cval dd a r = cval dd a f && cval dd a g.
Proof.
  intros [_ H]. unfold cloudCacheLookup2. cbv zeta. destruct (Z.eqb_spec (entS ce) (dd_nSignCur dd)) as [Es|]; [|done].
  destruct (Z.eqb_spec (entA ce) f) as [<-|]; [|done]. destruct (Z.eqb_spec (entB ce) g) as [<-|]; [|done]. cbn [andb]. intros _.
  destruct (H Es) as (_ & _ & H3 & H4 & H5). done.
Qed.

Lemma result_ext dd h h' l r dd' : (forall a, h a = h' a) -> result dd h l r dd' -> result dd h' l r dd'.
Proof. intros H [W [?|(H1 & H2 & H3 & H4 & H5)]]; (split; [done|]); [by left|right]. do 4 (split; [done|]). intros a. by rewrite H5. Qed.

(** What one step of the recursion needs of the cofactors. *)
Lemma and_step fuel dd k f g v fv fnv gv gnv : and_right fuel -> table_ok dd -> counted dd -> cache_ok dd -> is_Some (and_cache dd) ->
  live dd f -> live dd g -> (0 <= v < Z.of_nat (dd_nVars dd))%Z -> v = Z.min (level dd f) (level dd g) ->
  cofactor_of dd f v fv fnv -> cofactor_of dd g v gv gnv -> (Z.of_nat (dd_nVars dd) - v < Z.of_nat (S fuel))%Z ->
  exists r dd', ('(t, dd) ← ordered_and fuel dd fv gv;
      if (t =? 0)%Z then Some (0%Z, dd)
      else
        '(e, dd) ← ordered_and fuel dd fnv gnv;
        if (e =? 0)%Z then Some (0%Z, dd)
        else
          '(r, dd) ← join dd v t e;
          if (r =? 0)%Z then Some (0%Z, dd)
          else dd ← and_insert dd k f g r; Some (r, dd)) = Some (r, dd') /\
    result dd (fun a => cval dd a f && cval dd a g) v r dd'.
Proof.
  intros IH T C Ca Ha Hf Hg Hv Ev Cf Cg Hk. pose proof Cf as [[F1 F2] [F3 F4] F5]. pose proof Cg as [[G1 G2] [G3 G4] G5].
  destruct (ordered_and_spec fuel dd fv gv IH) as (t & d1 & -> & W1 & R1); [done..|lia|]. cbn [mbind option_bind].
  destruct R1 as [[-> N1]|(Nt & C1 & L1 & V1 & E1)]; [exists 0%Z, d1; split; [done|split; [done|by left]]|]. rewrite (proj2 (Z.eqb_neq _ _) Nt).
  pose proof W1 as [T1 Ca1 H1 A1 P1]. assert (dd_nVars d1 = dd_nVars dd) as Hn1 by (pose proof (grow_frame _ _ H1) as F; by same_frame F).
  pose proof (cofactor_grows dd d1 f v fv fnv T T1 H1 Hf Cf) as [[_ F2'] [_ F4'] F5'].
  pose proof (cofactor_grows dd d1 g v gv gnv T T1 H1 Hg Cg) as [[_ G2'] [_ G4'] G5'].
  destruct (ordered_and_spec fuel d1 fnv gnv IH) as (e & d2 & -> & W2 & R2); [done..|rewrite Hn1; lia|]. cbn [mbind option_bind].
  pose proof (worked_trans _ _ _ W1 W2) as W12.
  destruct R2 as [[-> N2]|(Ne & C2 & L2 & V2 & E2)]; [exists 0%Z, d2; split; [done|split; [done|by left]]|]. rewrite (proj2 (Z.eqb_neq _ _) Ne).
  pose proof W2 as [T2 Ca2 H2 A2 P2]. assert (dd_nVars d2 = dd_nVars d1) as Hn2 by (pose proof (grow_frame _ _ H2) as F; by same_frame F).
  destruct (join_spec d2 v t e T2 C2 Ca2 A2) as (r & d3 & -> & W3 & R3);
    [rewrite Hn2, Hn1; done|by eapply grows_live|done|rewrite (grows_level d1 d2) by (done || apply T1 || apply T2); lia|lia|].
  cbn [mbind option_bind]. pose proof (worked_trans _ _ _ W12 W3) as W13.
  destruct R3 as [[-> N3]|(Nr & C3 & L3 & V3 & E3)]; [exists 0%Z, d3; split; [done|split; [done|by left]]|]. rewrite (proj2 (Z.eqb_neq _ _) Nr).
  pose proof W13 as [T3 Ca3 H3 [c Ec] P3].
  assert (forall a, cval d3 a r = cval dd a f && cval dd a g) as Hval.
  { intros a. rewrite E3, (grows_cval d1 d2), E1, E2, !(grows_cval dd d1), F5, G5 by done. by destruct (a _). }
  destruct (and_insert_spec d3 k f g r c T3 Ca3 Ec) as (d4 & -> & T4 & Ca4 & H4 & A4 & P4 & N4 & C4);
    [by eapply grows_live|by eapply grows_live|done| | |].
  { rewrite !(grows_level dd d3) by (done || apply T || apply T3). lia. }
  { intros a. by rewrite Hval, !(grows_cval dd d3). }
  cbn [mbind option_bind]. exists r, d4. split; [done|]. split.
  - split; [done|done|by etransitivity|done|congruence].
  - right. split; [done|]. split; [by apply C4|]. split; [by eapply grows_live|].
    split; [by rewrite (grows_level d3 d4) by (done || apply T3 || apply T4)|]. intros a. by rewrite (grows_cval d3 d4).
Qed.

Lemma bddAnd_right fuel : and_right fuel.
Proof.
  induction fuel as [|fuel IH]; intros dd f g T C Ca Ha Hf Hg Hk Hle; [lia|].
  pose proof (tab_geo dd T) as G. pose proof (worked_refl dd T Ca Ha) as W0.
  assert (forall r, live dd r -> (Z.min (level dd f) (level dd g) <= level dd r)%Z -> (forall a, cval dd a r = cval dd a f && cval dd a g) ->
    result dd (fun a => cval dd a f && cval dd a g) (Z.min (level dd f) (level dd g)) r dd) as Hdone.
  { intros r Hr Hl Hv. split; [done|right]. split; [by apply (live_nonzero dd)|done]. }
  destruct Hf as (i & c & nF & Ef & EnF). destruct Hg as (j & b & nG & Eg & EnG).
  assert (live dd f) as Hf by (by exists i, c, nF). assert (live dd g) as Hg by (by exists j, b, nG).
  cbn [cloudBddAnd]. rewrite (proj2 (Z.leb_le _ _) Hle). cbv zeta.
  assert (Cloud_Regular f = ptr dd i false) as RF by (by rewrite Ef, (ptr_regular dd G)).
  assert (Cloud_Regular g = ptr dd j false) as RG by (by rewrite Eg, (ptr_regular dd G)).
  rewrite RF, RG, (ptr_eqb dd G). replace (ptr dd i false =? dd_one dd)%Z with (i =? 0) by (by rewrite (geo_one dd G), (ptr_eqb dd G), andb_true_r).
  cbn [eqb]. rewrite andb_true_r.
  destruct (Nat.eqb_spec i j) as [->|Hij].
  { destruct (Z.eqb_spec f g) as [E|Hne]; eexists _, dd; (split; [done|]); apply Hdone.
    - done.
    - rewrite E. lia.
    - intros a. rewrite E. by destruct (cval dd a g).
    - rewrite (geo_zero dd G). by apply level_const.
    - rewrite (geo_zero dd G), (proj1 (level_const dd true T)). pose proof (level_le_const dd f T Hf). lia.
    - intros a. rewrite (geo_zero dd G), cval_const by done. assert (g = Cloud_Not f) as ->.
      { rewrite Ef, Eg, (ptr_not dd G). f_equal. destruct c, b; done || (by destruct Hne; rewrite Ef, Eg). }
      rewrite cval_not by done. by destruct (cval dd a f). }
  destruct (Nat.eqb_spec i 0) as [->|Hi].
  { replace (f =? dd_one dd)%Z with (negb c) by (rewrite (geo_one dd G), Ef, (ptr_eqb dd G); by destruct c). pose proof (level_le_const dd g T Hg). pose proof (level_le_const dd f T Hf).
    destruct c; cbn [negb]; eexists _, dd; (split; [done|]); apply Hdone; try done; try lia.
    - intros a. rewrite Ef, cval_const by done. done.
    - intros a. rewrite Ef, cval_const by done. done. }
  assert (j <> 0) as Hj.
  { intros ->. rewrite Ef, Eg in Hle. unfold ptr, pnode, sizeof_CloudNode in Hle. destruct c, b; cbn in Hle; lia. }
  destruct Ha as [ca Eca]. destruct (and_entry_spec dd f g ca Ca Eca) as (k & ce & -> & Ek & Hce). cbn [mbind option_bind]. rewrite Eca. cbn [mbind option_bind].
  rewrite Ek. cbn [mbind option_bind]. destruct (Z.eqb_spec (cloudCacheLookup2 ce (dd_nSignCur dd) f g) 0) as [E0|Hne]; cbn [negb].
  2: { pose proof (lookup2_spec dd ce f g Hce Hne) as (H1 & H2 & H3). eexists _, dd. split; [done|]. by apply Hdone. }
  pose proof (node_at_lookup _ _ _ EnF) as [EF _]. pose proof (node_at_lookup _ _ _ EnG) as [EG _].
  pose proof (ptr_node dd G i false nF EF) as NF. pose proof (ptr_node dd G j false nG EG) as NG. rewrite (ptr_regular dd G) in NF, NG.
  rewrite NF, NG. cbn [mbind option_bind].
  assert (level dd f = cloudV nF) as LF by (rewrite Ef; by apply (level_ptr dd i c)). assert (level dd g = cloudV nG) as LG by (rewrite Eg; by apply (level_ptr dd j b)).
  pose proof (red_var dd nF (tab_nodes dd T i nF EnF Hi)) as VF. pose proof (red_var dd nG (tab_nodes dd T j nG EnG Hj)) as VG.
  set (v := Z.min (level dd f) (level dd g)) in *.
  pose proof (choose_cofactors dd i c nF v T Hi EnF ltac:(lia)) as HF. pose proof (choose_cofactors dd j b nG v T Hj EnG ltac:(lia)) as HG. cbv zeta in HF, HG. rewrite <- Ef in HF. rewrite <- Eg in HG.
  assert ((cloudV nF <=? cloudV nG)%Z = (cloudV nF <=? v)%Z) as -> by (apply eq_true_iff_eq; rewrite !Z.leb_le; lia).
  assert ((cloudV nG <=? cloudV nF)%Z = (cloudV nG <=? v)%Z) as -> by (apply eq_true_iff_eq; rewrite !Z.leb_le; lia).
  destruct (if (cloudV nG <=? v)%Z then node_cofactors g nG else (g, g)) as [gv gnv] eqn:Egc.
  assert (exists fv fnv, (if (cloudV nF <=? v)%Z then (cloudV nF, node_cofactors f nF) else (cloudV nG, (f, f))) = (v, (fv, fnv)) /\
    (fv, fnv) = if (cloudV nF <=? v)%Z then node_cofactors f nF else (f, f)) as (fv & fnv & -> & Efc).
  { destruct (Z.leb_spec (cloudV nF) v).
    - destruct (node_cofactors f nF) as [x y] eqn:E. exists x, y. split; [|done]. f_equal. lia.
    - exists f, f. split; [|done]. f_equal. lia. }
  apply (and_step fuel dd k f g v fv fnv gv gnv IH T C Ca); [by rewrite Eca|done|done|lia|done|by apply HF|by apply HG|lia].
Qed.

(** * The operations *)

Lemma gate_spec dd f g : table_ok dd -> counted dd -> cache_ok dd -> is_Some (and_cache dd) -> live dd f -> live dd g ->
  exists r dd', cloudBddAnd_gate dd f g = Some (r, dd') /\
    result dd (fun a => cval dd a f && cval dd a g) (Z.min (level dd f) (level dd g)) r dd'.
Proof.
  intros T C Ca Ha Hf Hg. apply (ordered_and_spec (S (dd_nVars dd)) dd f g (bddAnd_right _)); try done.
  pose proof (level_le_const dd f T Hf). pose proof (level_le_const dd g T Hg). lia.
Qed.

Lemma allocated_spec dd : table_ok dd -> cache_ok dd -> exists dd', and_allocated dd = Some dd' /\ worked dd dd' /\ (counted dd -> counted dd').
Proof.
  intros T Ca. unfold and_allocated. destruct (and_cache dd) as [c|] eqn:Ec; [exists dd; split; [done|split; [|done]]; apply worked_refl; [done..|by eexists]|].
  destruct Ca as [C1 (b & Hb & Eb & Es & Hl) C3]. unfold cloudCacheAllocate. cbn [oper_index]. rewrite Eb. cbn [mbind option_bind].
  rewrite (proj2 (Z.leb_le _ _)), (proj2 (Z.ltb_lt _ _)) by lia. change (CacheSize.[0] =? 2)%Z with true. cbn [andb].
  set (dd' := with_caches _ _ _ _). exists dd'. split; [done|]. assert (table_ok dd') as T' by (by apply (same_table_ok dd)).
  assert (and_cache dd' = Some (replicate (Z.to_nat (2 ^ b)) zero_entry)) as Ec'.
  { unfold and_cache. cbn [dd' with_caches dd_tCaches oper_index]. rewrite list_lookup_insert_eq; [done|]. rewrite C1. unfold CacheOperNum. lia. }
  split; [|done]. split; [done| |by apply same_grows|by rewrite Ec'|done]. split.
  - cbn. by rewrite length_insert.
  - exists b. do 3 (split; [done|]). intros c E. rewrite Ec' in E. injection E as <-. by rewrite length_replicate.
  - intros c i ce E. rewrite Ec' in E. injection E as <-. intros [-> _]%lookup_replicate. pose proof (tab_sign dd T). split; cbn; lia.
Qed.

Lemma regular_nonzero dd p : table_ok dd -> live dd p -> (Cloud_Regular p =? 0)%Z = false.
Proof. intros T (i & c & n & -> & _). rewrite (ptr_regular dd (tab_geo dd T)). apply (ptr_nonzero dd (tab_geo dd T)). Qed.

(** The result of an operation seen from before the allocation of the cache. *)
Lemma result_before dd d1 h h' l l' r dd' : worked dd d1 -> (forall a, h' a = h a) -> l' = l -> result d1 h l r dd' -> result dd h' l' r dd'.
Proof.
  intros W Hh -> [W1 [?|(H1 & H2 & H3 & H4 & H5)]]; (split; [by eapply worked_trans|]); [by left|right]. do 4 (split; [done|]). intros a. by rewrite H5, Hh.
Qed.

(** A call of the gate on arguments of an earlier manager, complemented or not. *)
Lemma gate_later dd d1 f g c b : table_ok dd -> worked dd d1 -> counted d1 -> live dd f -> live dd g ->
  exists r dd', cloudBddAnd_gate d1 (Cloud_NotCond f c) (Cloud_NotCond g b) = Some (r, dd') /\
    worked d1 dd' /\ result dd (fun a => xorb c (cval dd a f) && xorb b (cval dd a g)) (Z.min (level dd f) (level dd g)) r dd'.
Proof.
  intros T W C1 Hf Hg. pose proof W as [T1 Ca1 H1 A1 _]. pose proof (tab_geo dd T) as G. pose proof (tab_geo d1 T1) as G1.
  destruct (live_notcond d1 f c G1 (grows_live _ _ _ H1 Hf)) as [Lf Vf]. destruct (live_notcond d1 g b G1 (grows_live _ _ _ H1 Hg)) as [Lg Vg].
  destruct (gate_spec d1 (Cloud_NotCond f c) (Cloud_NotCond g b) T1 C1 Ca1 A1 Lf Lg) as (r & dd' & -> & R).
  exists r, dd'. split; [done|]. split; [apply R|]. eapply result_before; [exact W| |..|exact R].
  - intros a. cbv beta. rewrite !cval_notcond, !(grows_cval dd d1) by (done || by eapply grows_live). done.
  - by rewrite Vf, Vg, !(grows_level dd d1).
Qed.

Lemma bddAnd_spec dd f g : table_ok dd -> counted dd -> cache_ok dd -> live dd f -> live dd g ->
  exists r dd', Cloud_bddAnd dd f g = Some (r, dd') /\
    result dd (fun a => cval dd a f && cval dd a g) (Z.min (level dd f) (level dd g)) r dd'.
Proof.
  intros T C Ca Hf Hg. unfold Cloud_bddAnd. rewrite !(regular_nonzero dd) by done. cbn [orb]. pose proof (tab_geo dd T) as G.
  rewrite (proj1 (live_in dd f G Hf)), (proj1 (live_in dd g G Hg)). destruct (allocated_spec dd T Ca) as (d1 & -> & W1 & C1). cbn [mbind option_bind].
  destruct (gate_later dd d1 f g false false T W1 (C1 C) Hf Hg) as (r & dd' & E & _ & R). rewrite !notcond_false in E. rewrite E.
  exists r, dd'. split; [done|]. eapply result_ext; [|exact R]. intros a. cbv beta. by rewrite !xorb_false_l.
Qed.

Lemma bddOr_spec dd f g : table_ok dd -> counted dd -> cache_ok dd -> live dd f -> live dd g ->
  exists r dd', Cloud_bddOr dd f g = Some (r, dd') /\
    result dd (fun a => cval dd a f || cval dd a g) (Z.min (level dd f) (level dd g)) r dd'.
Proof.
  intros T C Ca Hf Hg. unfold Cloud_bddOr. rewrite !(regular_nonzero dd) by done. cbn [orb]. pose proof (tab_geo dd T) as G.
  rewrite (proj1 (live_in dd f G Hf)), (proj1 (live_in dd g G Hg)). destruct (allocated_spec dd T Ca) as (d1 & -> & W1 & C1). cbn [mbind option_bind].
  destruct (gate_later dd d1 f g true true T W1 (C1 C) Hf Hg) as (r & dd' & E & _ & W & R). change (Cloud_Not ?p) with (Cloud_NotCond p true). rewrite E. cbn [mbind option_bind].
  eexists _, dd'. split; [done|]. split; [done|]. destruct R as [[-> R]|(R1 & R2 & R3 & R4 & R5)]; [left; split; [done|done]|right].
  rewrite (proj2 (Z.eqb_neq _ _) R1). cbn [negb]. destruct (live_notcond dd' r true (tab_geo dd' (wk_table _ _ W)) R3) as [L V].
  split; [by apply (live_nonzero dd'); [apply W|]|]. split; [done|]. split; [done|]. split; [by rewrite V|].
  intros a. rewrite cval_notcond, R5 by (done || apply W). by destruct (cval dd a f), (cval dd a g).
Qed.

Lemma bddXor_spec dd f g : table_ok dd -> counted dd -> cache_ok dd -> live dd f -> live dd g ->
  exists r dd', Cloud_bddXor dd f g = Some (r, dd') /\
    result dd (fun a => xorb (cval dd a f) (cval dd a g)) (Z.min (level dd f) (level dd g)) r dd'.
Proof.
  intros T C Ca Hf Hg. unfold Cloud_bddXor. rewrite !(regular_nonzero dd) by done. cbn [orb]. pose proof (tab_geo dd T) as G.
  rewrite (proj1 (live_in dd f G Hf)), (proj1 (live_in dd g G Hg)). destruct (allocated_spec dd T Ca) as (d1 & -> & W1 & C1). cbn [mbind option_bind].
  destruct (gate_later dd d1 f g false true T W1 (C1 C) Hf Hg) as (t0 & d2 & E & _ & W2 & R2). rewrite notcond_false in E.
  change (Cloud_Not ?p) with (Cloud_NotCond p true). rewrite E. cbn [mbind option_bind].
  destruct R2 as [[-> N2]|(N2 & C2 & L2 & V2 & E2)]; [exists 0%Z, d2; split; [done|split; [done|by left]]|]. rewrite (proj2 (Z.eqb_neq _ _) N2).
  destruct (gate_later dd d2 f g true false T W2 C2 Hf Hg) as (t1 & d3 & E' & W23 & W3 & R3). rewrite notcond_false in E'. rewrite E'. cbn [mbind option_bind].
  destruct R3 as [[-> N3]|(N3 & C3 & L3 & V3 & E3)]; [exists 0%Z, d3; split; [done|split; [done|by left]]|]. rewrite (proj2 (Z.eqb_neq _ _) N3).
  pose proof W2 as [T2 _ _ _ _]. pose proof W3 as [T3 Ca3 H3 _ _]. pose proof (wk_grows _ _ W23) as H23.
  destruct (bddOr_spec d3 t0 t1 T3 C3 Ca3) as (r & dd' & E4 & R4); [by eapply grows_live|done|]. exists r, dd'. split; [done|].
  destruct R4 as [W4 R4]. split; [by eapply worked_trans|]. destruct R4 as [R4|(N4 & C4 & L4 & V4 & E4')]; [by left|right]. do 3 (split; [done|]). split.
  - rewrite (grows_level d2 d3) in V4 by (done || apply T2 || apply T3). lia.
  - intros a. rewrite E4', E3, (grows_cval d2 d3), E2 by done. by destruct (cval dd a f), (cval dd a g).
Qed.

