(* ===== verification/CloudRun.v ===== *)
(** Managers of decision diagrams in use ([cloud.c]): what holds after the start, after every operation and after a
    restart, and the runs of a client as a step relation. *)
From stdpp Require Import relations.
From S2P Require Import Prelude Words Cloud CloudInit CloudBdd.

(** * A manager in use *)

(** [working] is the state between calls; [usable] allows for an operation that has met the limit. *)
Definition usable (dd : CloudManager) : Prop :=
  table_ok dd /\ cache_ok dd /\ length (dd_vars dd) = dd_nVars dd /\ 1 + dd_nVars dd < dd_nNodesLimit dd.
Definition working (dd : CloudManager) : Prop := usable dd /\ counted dd.

Lemma usable_grows dd dd' : usable dd -> table_ok dd' -> cache_ok dd' -> grows dd dd' -> usable dd'.
Proof.
  intros (_ & _ & Hl & Hr) T' C' Hg. pose proof (grow_frame _ _ Hg) as F. same_frame F. do 2 (split; [done|]). by rewrite Hvars, Hnv, Hlimit.
Qed.

Lemma start_cache dd b : 3 <= b <= 29 -> dd_bitsCache dd = map (fun r => Z.of_nat b - r)%Z CacheLogRatioDefault ->
  dd_shiftCache dd = map (fun b => 32 - b)%Z (dd_bitsCache dd) -> dd_tCaches dd = replicate 4 None -> cache_ok dd.
Proof.
  intros Hb E1 E2 E3. assert (and_cache dd = None) as Ec by (unfold and_cache; by rewrite E3).
  split; [by rewrite E3|exists (Z.of_nat b - 2)%Z; rewrite E2, E1|by rewrite Ec]. split; [lia|]. do 2 (split; [done|]). by rewrite Ec.
Qed.

Lemma restart_cache dd dd' : table_ok dd -> cache_ok dd -> restarted dd dd' -> cache_ok dd'.
Proof.
  intros T [C1 C2 C3] R. destruct (same_caches _ _ (re_caches _ _ R)) as (E1 & E2 & E3 & E4). split; [congruence|by rewrite E1, E2, E3|].
  rewrite E3. intros c i ce Hc Hi. destruct (C3 c i ce Hc Hi) as [H _]. pose proof (re_sign _ _ R) as Es. split; rewrite Es; lia.
Qed.

Lemma restart_frame dd dd' : restarted dd dd' -> dd_nVars dd' = dd_nVars dd /\ dd_vars dd' = dd_vars dd /\ dd_nNodesLimit dd' = dd_nNodesLimit dd.
Proof. intros R. pose proof (re_frame _ _ R) as F. unfold frame in F. cbn in F. injection F as E1 E2 E3 E4 E5 E6 E7 E8 E9. done. Qed.

Lemma restart_working dd : usable dd -> (dd_nSignCur dd < 2 ^ 32 - 1)%Z -> exists dd', Cloud_Restart dd = Some dd' /\ working dd' /\ restarted dd dd'.
Proof.
  intros (T & C & Hl & Hr) Hs. destruct (Restart_spec dd T Hl Hs Hr) as (dd' & -> & R). exists dd'. split; [done|]. split; [|done].
  destruct (restart_frame dd dd' R) as (E1 & E2 & E3). split; [split; [apply R|split; [by apply (restart_cache dd)|]]|apply R]. by rewrite E1, E2, E3.
Qed.

(** The variables are the literals. *)
Lemma var_cval dd x p : table_ok dd -> dd_vars dd !! x = Some p -> live dd p /\ forall a, cval dd a p = a x.
Proof.
  intros T E. destruct (tab_vars dd T x p E) as (i & -> & Hi & En & _). split; [by eapply live_ptr|]. intros a.
  assert (branches dd (ptr dd i false) (Z.of_nat x) (dd_one dd) (dd_zero dd)) as B.
  { exists i, false. eexists. do 3 (split; [done|]). cbn [cloudV cloudT cloudE]. by rewrite !notcond_false. }
  rewrite (cval_branch _ _ _ _ _ _ T (branches_view _ _ _ _ _ T B)), Nat2Z.id, (geo_one dd (tab_geo dd T)), (geo_zero dd (tab_geo dd T)), !cval_const by done.
  by destruct (a x).
Qed.

(** The null pointer is the answer at the limit only. *)
Definition answers (dd : CloudManager) (h : (nat -> bool) -> bool) (r : Z) (dd' : CloudManager) : Prop :=
  usable dd' /\ grows dd dd' /\
  (r = 0%Z /\ dd_nNodesCur dd' = dd_nNodesLimit dd' \/ r <> 0%Z /\ working dd' /\ live dd' r /\ forall a, cval dd' a r = h a).

Lemma result_answers dd h l r dd' : usable dd -> result dd h l r dd' -> answers dd h r dd'.
Proof.
  intros U [W R]. assert (usable dd') as U' by (apply (usable_grows dd); [done|apply W..]). split; [done|]. split; [apply W|].
  destruct R as [R|(R1 & R2 & R3 & _ & R5)]; [by left|right]. split; [done|]. split; [by split|]. done.
Qed.

(** The operations by name. *)
Inductive cloud_op := op_and | op_or | op_xor.
Definition run_op (op : cloud_op) : CloudManager -> Z -> Z -> option (Z * CloudManager) :=
  match op with op_and => Cloud_bddAnd | op_or => Cloud_bddOr | op_xor => Cloud_bddXor end.
Definition op_fun (op : cloud_op) : bool -> bool -> bool := match op with op_and => andb | op_or => orb | op_xor => xorb end.

Lemma run_op_spec op dd f g : working dd -> live dd f -> live dd g ->
  exists r dd', run_op op dd f g = Some (r, dd') /\ answers dd (fun a => op_fun op (cval dd a f) (cval dd a g)) r dd'.
Proof.
  intros [U C] Hf Hg. pose proof U as (T & Ca & _). destruct op; cbn [run_op op_fun].
  - destruct (bddAnd_spec dd f g T C Ca Hf Hg) as (r & dd' & E & R). exists r, dd'. split; [done|]. by eapply result_answers.
  - destruct (bddOr_spec dd f g T C Ca Hf Hg) as (r & dd' & E & R). exists r, dd'. split; [done|]. by eapply result_answers.
  - destruct (bddXor_spec dd f g T C Ca Hf Hg) as (r & dd' & E & R). exists r, dd'. split; [done|]. by eapply result_answers.
Qed.

Lemma canonical_iff dd p q : table_ok dd -> live dd p -> live dd q -> p = q <-> forall a, cval dd a p = cval dd a q.
Proof. intros T Hp Hq. split; [by intros ->|]. by apply canonical. Qed.

Lemma Init_working nVars nBits tUnique : (Z.of_nat nVars <= 100000)%Z -> 3 <= node_bits nBits <= 29 -> 1 + nVars < 2 ^ node_bits nBits ->
  (0 < tUnique)%Z -> Z.even tUnique = true ->
  exists dd, Cloud_Init nVars nBits tUnique = Some dd /\ working dd /\ dd_nVars dd = nVars /\ dd_nSignCur dd = 1%Z /\ dd_nNodesCur dd = 1 + nVars /\
    dd_nNodesLimit dd = 2 ^ node_bits nBits /\ dd_ppNodes dd = None.
Proof.
  intros Hv Hb Hl Hu He. destruct (Init_spec nVars nBits tUnique Hv Hb Hl Hu He) as (dd & -> & [T C Hvars Hroom] & H1 & H2 & H3 & H4 & H5 & H6 & H7 & H8).
  exists dd. split; [done|]. split; [split; [|done]; split; [done|split; [by apply (start_cache dd (node_bits nBits))|done]]|].
  do 3 (split; [done|]). split; [|done]. by rewrite (geo_limit dd (tab_geo dd T)), H2.
Qed.

(** * Runs *)

(** A client holds pointers, each with the function that it stands for.  It asks for a variable, complements, combines
    two of its pointers, and starts again, at the limit or before. *)
Definition handles := list (Z * ((nat -> bool) -> bool)).
Inductive cloud_step : CloudManager * handles -> CloudManager * handles -> Prop :=
  | step_var dd hs x p : dd_vars dd !! x = Some p -> cloud_step (dd, hs) (dd, (p, fun a => a x) :: hs)
  | step_not dd hs p h : (p, h) ∈ hs -> cloud_step (dd, hs) (dd, (Cloud_Not p, fun a => negb (h a)) :: hs)
  | step_op op dd hs p h q k r dd' : (p, h) ∈ hs -> (q, k) ∈ hs -> run_op op dd p q = Some (r, dd') -> r <> 0%Z ->
      cloud_step (dd, hs) (dd', (r, fun a => op_fun op (h a) (k a)) :: hs)
  | step_full op dd hs p h q k dd' dd2 : (p, h) ∈ hs -> (q, k) ∈ hs -> run_op op dd p q = Some (0%Z, dd') ->
      (dd_nSignCur dd' < 2 ^ 32 - 1)%Z -> Cloud_Restart dd' = Some dd2 -> cloud_step (dd, hs) (dd2, [])
  | step_restart dd hs dd2 : (dd_nSignCur dd < 2 ^ 32 - 1)%Z -> Cloud_Restart dd = Some dd2 -> cloud_step (dd, hs) (dd2, []).

(** The invariant of a run. *)
Definition handles_ok (s : CloudManager * handles) : Prop :=
  working s.1 /\ forall p h, (p, h) ∈ s.2 -> live s.1 p /\ forall a, cval s.1 a p = h a.

Lemma handles_op dd hs op p h q k : handles_ok (dd, hs) -> (p, h) ∈ hs -> (q, k) ∈ hs ->
  exists r dd', run_op op dd p q = Some (r, dd') /\ answers dd (fun a => op_fun op (h a) (k a)) r dd'.
Proof.
  intros [W H] Hp Hq. destruct (H p h Hp) as [Lp Vp], (H q k Hq) as [Lq Vq]. destruct (run_op_spec op dd p q W Lp Lq) as (r & dd' & E & U & G & R).
  exists r, dd'. split; [done|]. split; [done|]. split; [done|]. destruct R as [R|(R1 & R2 & R3 & R4)]; [by left|right].
  do 3 (split; [done|]). intros a. by rewrite R4, Vp, Vq.
Qed.

Lemma restart_handles dd dd2 : usable dd -> (dd_nSignCur dd < 2 ^ 32 - 1)%Z -> Cloud_Restart dd = Some dd2 -> handles_ok (dd2, []).
Proof.
  intros U Hs E. destruct (restart_working dd U Hs) as (dd' & E' & W & _). assert (dd2 = dd') as -> by congruence. split; [done|]. by intros p h ?%elem_of_nil.
Qed.

Lemma cloud_step_ok s s' : cloud_step s s' -> handles_ok s -> handles_ok s'.
Proof.
  intros St. destruct St as [dd hs x p E|dd hs p h Hp|op dd hs p h q k r dd' Hp Hq E Hr|op dd hs p h q k dd' dd2 Hp Hq E Hs ER|dd hs dd2 Hs ER]; intros H.
  - pose proof H as [[[T _] _] H']. split; [apply H|]. intros p' h' [Heq|Hin]%elem_of_cons; [|by apply H']. injection Heq as -> ->. by apply var_cval.
  - pose proof H as [[[T _] _] H']. destruct (H' p h Hp) as [Lp Vp]. split; [apply H|]. intros p' h' [Heq|Hin]%elem_of_cons; [|by apply H']. injection Heq as -> ->.
    split; [by apply live_not; [apply T|]|]. intros a. cbn [fst]. by rewrite cval_not, Vp.
  - destruct (handles_op dd hs op p h q k H Hp Hq) as (r' & d' & E' & A). assert (r' = r /\ d' = dd') as [-> ->] by (split; congruence).
    destruct A as (U & G & [[-> _]|(_ & W & L & V)]); [done|]. split; [done|]. intros p' h' [Heq|Hin]%elem_of_cons; [by injection Heq as -> ->|].
    destruct H as [[[T _] _] H']. destruct (H' p' h' Hin) as [Lp Vp]. split; [by eapply grows_live|]. intros a. cbn [fst]. rewrite (grows_cval dd dd'); [done|done|apply W|done|done].
  - destruct (handles_op dd hs op p h q k H Hp Hq) as (r' & d' & E' & A). assert (d' = dd') as -> by congruence. by apply (restart_handles dd'); [apply A|..].
  - by apply (restart_handles dd); [apply H|..].
Qed.

(** A manager of three variables and sixteen nodes. *)
Lemma three_started : exists dd, Cloud_Init 3 4 4096 = Some dd /\ working dd /\ live dd (dd_one dd) /\ live dd (dd_zero dd) /\
  level dd (dd_one dd) = CLOUD_CONST_INDEX /\ level dd (dd_zero dd) = CLOUD_CONST_INDEX /\ dd_zero dd <> dd_one dd /\ dd_nVars dd = 3.
Proof.
  destruct (Init_working 3 4 4096) as (dd & E & W & Hn & _); [lia|cbn; lia|cbn; lia|lia|done|]. exists dd. split; [done|]. split; [done|].
  destruct W as [[T _] _]. pose proof (tab_geo dd T) as G. rewrite (geo_one dd G), (geo_zero dd G).
  do 2 (split; [by apply level_const|]). do 2 (split; [by apply level_const|]). split; [|done]. by intros [_ ?]%(ptr_inj dd G).
Qed.

(** * Properties *)

(** C11. [Cloud_MakeNode] for a variable above the two different functions passes its assertions and its search ends.  It
    answers the null pointer, leaving the nodes as they are, when the number of nodes reaches the limit; otherwise the
    pointer that branches into the two functions, and every other pointer keeps its function.  The same call then finds
    the same node and changes nothing. *)
Theorem make_node_correct dd v t e : working dd -> (0 <= v < Z.of_nat (dd_nVars dd))%Z -> live dd t -> live dd e -> t <> e ->
  (v < level dd t)%Z -> (v < level dd e)%Z ->
  exists p dd', Cloud_MakeNode dd v t e = Some (p, dd') /\
    (p = 0%Z /\ S (dd_nNodesCur dd) = dd_nNodesLimit dd /\ usable dd' /\ dd_nodes dd' = dd_nodes dd \/
     p <> 0%Z /\ working dd' /\ dd_nNodesCur dd' <= S (dd_nNodesCur dd) /\ level dd' p = v /\ live dd' p /\
       (forall a, cval dd' a p = if a (Z.to_nat v) then cval dd a t else cval dd a e) /\
       (forall a q, live dd q -> live dd' q /\ cval dd' a q = cval dd a q) /\ Cloud_MakeNode dd' v t e = Some (p, dd')).
Proof.
  intros [U C] Hv Ht He Hne L1 L2. pose proof U as (T & Ca & _). destruct (MakeNode_spec dd v t e T C Hv Ht He Hne L1 L2) as (p & dd' & E & H).
  exists p, dd'. split; [done|]. destruct H as [[-> [Hc ->]]|(Hp & [T' C' Hg Hca Hpp Hcur] & B)]; [left|right].
  - assert (grows dd (with_nNodesCur dd (dd_nNodesLimit dd))) as Hg by (apply same_grows; [done|done|cbn; lia]).
    assert (table_ok (with_nNodesCur dd (dd_nNodesLimit dd))) as T' by (by apply (same_table_ok dd)).
    split; [done|]. split; [done|]. split; [|done]. apply (usable_grows dd); [done|done|by apply (cache_ok_grows dd)|done].
  - pose proof (branches_view _ _ _ _ _ T' B) as V. split; [done|].
    split; [split; [apply (usable_grows dd); [done|done|by apply (cache_ok_grows dd)|done]|done]|]. split; [done|]. split; [apply V|].
    split; [by eapply branches_live|]. split; [intros a; by rewrite (cval_branch _ _ _ _ _ _ T' V), !(grows_cval dd dd')|].
    split; [intros a q Hq; split; [by eapply grows_live|by rewrite (grows_cval dd dd')]|].
    rewrite MakeNode_either by (done || apply V). apply make_either_found; done || apply V.
Qed.

Lemma make_node_correct_witness :
  (d ← Cloud_Init 3 4 4096; z ← dd_vars d !! 2; '(r, d) ← Cloud_MakeNode d 1 (Cloud_Not z) z; Some (level d r, cval d (fun x => x =? 1) r, dd_nNodesCur d)) =
    Some (1%Z, true, 5) /\
  exists dd p dd', Cloud_Init 3 4 4096 = Some dd /\ Cloud_MakeNode dd 1 (dd_zero dd) (dd_one dd) = Some (p, dd') /\
    (p = 0%Z /\ S (dd_nNodesCur dd) = dd_nNodesLimit dd /\ usable dd' /\ dd_nodes dd' = dd_nodes dd \/
     p <> 0%Z /\ working dd' /\ dd_nNodesCur dd' <= S (dd_nNodesCur dd) /\ level dd' p = 1%Z /\ live dd' p /\
       (forall a, cval dd' a p = if a (Z.to_nat 1) then cval dd a (dd_zero dd) else cval dd a (dd_one dd)) /\
       (forall a q, live dd q -> live dd' q /\ cval dd' a q = cval dd a q) /\ Cloud_MakeNode dd' 1 (dd_zero dd) (dd_one dd) = Some (p, dd')).
Proof.
  split; [vm_compute; reflexivity|]. destruct three_started as (dd & E & W & L1 & L0 & V1 & V0 & Hne & Hn). exists dd.
  destruct (make_node_correct dd 1 (dd_zero dd) (dd_one dd) W) as (p & dd' & H1 & H2).
  - rewrite Hn. lia.
  - exact L0.
  - exact L1.
  - exact Hne.
  - rewrite V0. reflexivity.
  - rewrite V1. reflexivity.
  - exists p, dd'. split; [exact E|]. split; [exact H1|exact H2].
Defined.

(** C10. [Cloud_bddAnd], [Cloud_bddOr] and [Cloud_bddXor] on any two functions end, pass their assertions, and answer the
    null pointer with the limit reached, or the pointer of the conjunction, disjunction or difference; every other
    pointer keeps its function.  A null argument gives the null pointer. *)
Theorem cloud_operations_correct op dd f g : working dd -> live dd f -> live dd g ->
  (exists r dd', run_op op dd f g = Some (r, dd') /\ usable dd' /\ (forall a q, live dd q -> live dd' q /\ cval dd' a q = cval dd a q) /\
    (r = 0%Z /\ dd_nNodesCur dd' = dd_nNodesLimit dd' \/
     r <> 0%Z /\ working dd' /\ live dd' r /\ forall a, cval dd' a r = op_fun op (cval dd a f) (cval dd a g))) /\
  run_op op dd 0 g = Some (0%Z, dd) /\ run_op op dd f 0 = Some (0%Z, dd).
Proof.
  intros W Hf Hg. split; [|by destruct op; cbn [run_op]; unfold Cloud_bddAnd, Cloud_bddOr, Cloud_bddXor; change (Cloud_Regular 0 =? 0)%Z with true; rewrite orb_true_r]. destruct (run_op_spec op dd f g W Hf Hg) as (r & dd' & E & U & G & R).
  exists r, dd'. split; [done|]. split; [done|]. split; [|done]. intros a q Hq. split; [by eapply grows_live|].
  destruct W as [[T _] _]. by rewrite (grows_cval dd dd'); [|done|apply U|..].
Qed.

Lemma cloud_operations_correct_witness :
  (d ← Cloud_Init 3 4 4096; x ← dd_vars d !! 0; y ← dd_vars d !! 1; '(r, d) ← Cloud_bddXor d x y;
   Some (map (fun a => cval d a r) [fun i => false; fun i => i =? 0; fun i => i =? 1; fun i => true])) = Some [false; true; true; false] /\
  exists dd, Cloud_Init 3 4 4096 = Some dd /\
    ((exists r dd', run_op op_xor dd (dd_one dd) (dd_zero dd) = Some (r, dd') /\ usable dd' /\
      (forall a q, live dd q -> live dd' q /\ cval dd' a q = cval dd a q) /\
      (r = 0%Z /\ dd_nNodesCur dd' = dd_nNodesLimit dd' \/
       r <> 0%Z /\ working dd' /\ live dd' r /\ forall a, cval dd' a r = op_fun op_xor (cval dd a (dd_one dd)) (cval dd a (dd_zero dd)))) /\
     run_op op_xor dd 0 (dd_zero dd) = Some (0%Z, dd) /\ run_op op_xor dd (dd_one dd) 0 = Some (0%Z, dd)).
Proof.
  split; [vm_compute; reflexivity|]. destruct three_started as (dd & E & W & L1 & L0 & _). exists dd. split; [exact E|].
  apply (cloud_operations_correct op_xor dd (dd_one dd) (dd_zero dd) W L1 L0).
Defined.

(** C12. [Cloud_Init] for at most 100000 variables that fit the table, of at least 8 nodes, makes a manager that works, with a
    node for every variable.  [Cloud_Restart] makes a manager work again, whether or not the limit had been met, with the
    constant and the variables as its only nodes, until the signature of 32 bits is used up. *)
Theorem cloud_life_correct nVars nBits tUnique : (Z.of_nat nVars <= 100000)%Z -> 3 <= node_bits nBits <= 29 -> 1 + nVars < 2 ^ node_bits nBits ->
  (0 < tUnique)%Z -> Z.even tUnique = true ->
  exists dd, Cloud_Init nVars nBits tUnique = Some dd /\ working dd /\ dd_nNodesCur dd = 1 + nVars /\ length (dd_vars dd) = nVars /\
    (forall x p, dd_vars dd !! x = Some p -> live dd p /\ forall a, cval dd a p = a x) /\
    forall d, usable d -> (dd_nSignCur d < 2 ^ 32 - 1)%Z ->
      exists d', Cloud_Restart d = Some d' /\ working d' /\ dd_nNodesCur d' = 1 + dd_nVars d /\ dd_vars d' = dd_vars d /\
        (forall x p, dd_vars d !! x = Some p -> live d' p /\ forall a, cval d' a p = a x) /\
        forall i, is_Some (node_at d' i) <-> kept d i.
Proof.
  intros Hv Hb Hl Hu He. destruct (Init_working nVars nBits tUnique Hv Hb Hl Hu He) as (dd & -> & W & Hn & _ & Hc & _).
  exists dd. split; [done|]. split; [done|]. split; [done|]. pose proof W as [(T & _ & Hlen & _) _]. split; [lia|]. split; [intros x p; by apply var_cval|].
  intros d U Hs. destruct (restart_working d U Hs) as (d' & -> & W' & R). exists d'. destruct (restart_frame d d' R) as (_ & E2 & _).
  do 2 (split; [done|]). split; [apply R|]. split; [done|]. pose proof W' as [[T' _] _]. split; [intros x p; rewrite <- E2; by apply var_cval|].
  intros i. rewrite (re_nodes _ _ R). case_decide as H; [|split; [by intros [? ?]|done]]. split; [done|]. intros _.
  destruct U as [Td _]. destruct (kept_live d Td i H) as (n & -> & _). by eexists.
Qed.

Lemma cloud_life_correct_witness :
  (d ← Cloud_Init 3 4 4096; x ← dd_vars d !! 0; y ← dd_vars d !! 1; '(r, d) ← Cloud_bddAnd d x y; d' ← Cloud_Restart d;
   Some (dd_nNodesCur d, dd_nNodesCur d', bool_decide (dd_vars d = dd_vars d'))) = Some (5, 4, true) /\
  exists dd, Cloud_Init 3 4 4096 = Some dd /\ working dd /\ dd_nNodesCur dd = 1 + 3 /\ length (dd_vars dd) = 3 /\
    (forall x p, dd_vars dd !! x = Some p -> live dd p /\ forall a, cval dd a p = a x) /\
    forall d, usable d -> (dd_nSignCur d < 2 ^ 32 - 1)%Z ->
      exists d', Cloud_Restart d = Some d' /\ working d' /\ dd_nNodesCur d' = 1 + dd_nVars d /\ dd_vars d' = dd_vars d /\
        (forall x p, dd_vars d !! x = Some p -> live d' p /\ forall a, cval d' a p = a x) /\
        forall i, is_Some (node_at d' i) <-> kept d i.
Proof.
  split; [vm_compute; reflexivity|]. apply (cloud_life_correct 3 4 4096).
  - lia.
  - cbn. lia.
  - cbn. lia.
  - lia.
  - reflexivity.
Defined.

(** C9. Any run of a client is safe: after any sequence of calls and restarts, no assertion of a further operation or
    restart fails, every pointer that the client holds stands for its function, and two of them are equal exactly when
    the functions are. *)
Theorem cloud_runs_safe nVars nBits tUnique d0 s : (Z.of_nat nVars <= 100000)%Z -> 3 <= node_bits nBits <= 29 -> 1 + nVars < 2 ^ node_bits nBits ->
  (0 < tUnique)%Z -> Z.even tUnique = true -> Cloud_Init nVars nBits tUnique = Some d0 -> rtc cloud_step (d0, []) s ->
  (forall p h q k, (p, h) ∈ s.2 -> (q, k) ∈ s.2 -> (forall a, cval s.1 a p = h a) /\ (p = q <-> forall a, h a = k a) /\
    forall op, exists r dd', run_op op s.1 p q = Some (r, dd') /\ (r = 0%Z -> dd_nNodesCur dd' = dd_nNodesLimit dd') /\
      ((dd_nSignCur dd' < 2 ^ 32 - 1)%Z -> is_Some (Cloud_Restart dd'))) /\
  ((dd_nSignCur s.1 < 2 ^ 32 - 1)%Z -> is_Some (Cloud_Restart s.1)).
Proof.
  intros Hv Hb Hl Hu He E St. assert (handles_ok s) as H.
  { destruct (Init_working nVars nBits tUnique Hv Hb Hl Hu He) as (dd & E' & W & _). assert (d0 = dd) as -> by congruence.
    assert (handles_ok (dd, [])) as H0 by (split; [done|]; by intros p h ?%elem_of_nil). revert H0. clear E E'.
    induction St as [|x y z Hxy _ IH]; intros H0; [done|]. apply IH. by eapply cloud_step_ok. }
  assert (forall d, usable d -> (dd_nSignCur d < 2 ^ 32 - 1)%Z -> is_Some (Cloud_Restart d)) as HR.
  { intros d U Hs. destruct (restart_working d U Hs) as (d' & -> & _). by eexists. }
  pose proof H as [W Hh]. split; [|apply HR, W]. intros p h q k Hp Hq. destruct (Hh p h Hp) as [Lp Vp], (Hh q k Hq) as [Lq Vq].
  split; [done|]. split.
  - destruct W as [[T _] _]. rewrite (canonical_iff _ p q T Lp Lq). split; intros Heq a; [by rewrite <- Vp, <- Vq|by rewrite Vp, Vq].
  - intros op. destruct (run_op_spec op s.1 p q W Lp Lq) as (r & dd' & -> & U & _ & R). exists r, dd'. split; [done|]. split; [|by apply HR].
    by destruct R as [[_ R]|[R _]].
Qed.

Lemma cloud_runs_safe_witness : exists d0 p q s, Cloud_Init 3 4 4096 = Some d0 /\ rtc cloud_step (d0, []) s /\
  s.2 = [(q, fun a => negb (a 0)); (p, fun a => a 0)] /\
  (forall p h q k, (p, h) ∈ s.2 -> (q, k) ∈ s.2 -> (forall a, cval s.1 a p = h a) /\ (p = q <-> forall a, h a = k a) /\
    forall op, exists r dd', run_op op s.1 p q = Some (r, dd') /\ (r = 0%Z -> dd_nNodesCur dd' = dd_nNodesLimit dd') /\
      ((dd_nSignCur dd' < 2 ^ 32 - 1)%Z -> is_Some (Cloud_Restart dd'))) /\
  ((dd_nSignCur s.1 < 2 ^ 32 - 1)%Z -> is_Some (Cloud_Restart s.1)).
Proof.
  destruct three_started as (dd & E & [[T [_ [Hl _]]] _] & _ & _ & _ & _ & _ & Hn).
  destruct (lookup_lt_is_Some_2 (dd_vars dd) 0) as [p Ep]; [rewrite Hl, Hn; lia|].
  exists dd, p, (Cloud_Not p), (dd, [(Cloud_Not p, fun a => negb (a 0)); (p, fun a => a 0)]).
  assert (rtc cloud_step (dd, []) (dd, [(Cloud_Not p, fun a => negb (a 0)); (p, fun a => a 0)])) as St.
  { apply (rtc_l _ _ _ _ (step_var dd [] 0 p Ep)). apply rtc_once. apply (step_not dd _ p (fun a => a 0)). left. }
  split; [exact E|]. split; [exact St|]. split; [reflexivity|].
  apply (cloud_runs_safe 3 4 4096 dd _).
  - lia.
  - cbn. lia.
  - cbn. lia.
  - lia.
  - reflexivity.
  - exact E.
  - exact St.
Defined.
