(* ===== verification/CloudDag.v ===== *)
(** Traversals of decision diagrams ([cloud.c]): marks on the nodes, the number of nodes of one function or of several,
    the list of the nodes of a function, its support and one of its cubes.

    A mark is bit 28 of the variable of a node.  [cloudSupport] reads the variable after it has marked the node, so that
    it writes far outside of its array; [Cloud_GetOneCube] reads the fields of a node through a complemented pointer.
    Both give [None] in the model. *)
From stdpp Require Import gmap sets fin_sets.
From S2P Require Import Prelude Words Cloud CloudInit CloudBdd CloudRun.

(** * The routines *)

Definition cloudNodeIsMarked (n : CloudNode) : bool := negb (Z.land (cloudV n) CLOUD_MARK_ON =? 0)%Z.
Definition with_v (n : CloudNode) (v : Z) : CloudNode := mkCloudNode (cloudS n) v (cloudE n) (cloudT n).
Definition marked (n : CloudNode) : CloudNode := with_v n (Z.lor (cloudV n) CLOUD_MARK_ON).
Definition unmarked (n : CloudNode) : CloudNode := with_v n (Z.land (cloudV n) CLOUD_MARK_OFF).

(** [p->v = ...] at a pointer that is not complemented. *)
Definition set_node (dd : CloudManager) (p : Z) (f : CloudNode -> CloudNode) : option CloudManager :=
  i ← place dd p; n ← dd_nodes dd !! i; Some (with_nodes dd (<[i := f n]> (dd_nodes dd))).
Definition cloudNodeMark (dd : CloudManager) (p : Z) : option CloudManager := set_node dd p marked.
Definition cloudNodeUnmark (dd : CloudManager) (p : Z) : option CloudManager := set_node dd p unmarked.

Fixpoint cloudClearMark (fuel : nat) (dd : CloudManager) (n : Z) : option CloudManager :=
  match fuel with
  | O => None
  | S fuel =>
    x ← node_of dd n;
    if negb (cloudNodeIsMarked x) then Some dd
    else
      dd ← cloudNodeUnmark dd n;
      if cloudIsConstant x then Some dd
      else
        dd ← cloudClearMark fuel dd (cloudT x);
        cloudClearMark fuel dd (Cloud_Regular (cloudE x))
  end.

(** [support[k] = 1] in an array of [nVars] entries. *)
Definition set_support (support : list Z) (k : Z) : option (list Z) :=
  assert! (0 <=? k)%Z && (k <? Z.of_nat (length support))%Z in Some (<[Z.to_nat k := 1%Z]> support).

Fixpoint cloudSupport (fuel : nat) (dd : CloudManager) (n : Z) (support : list Z) : option (CloudManager * list Z) :=
  match fuel with
  | O => None
  | S fuel =>
    x ← node_of dd n;
    if cloudIsConstant x || cloudNodeIsMarked x then Some (dd, support)
    else
      dd ← cloudNodeMark dd n;
      x ← node_of dd n;
      support ← set_support support (cloudV x);
      '(dd, support) ← cloudSupport fuel dd (cloudT x) support;
      cloudSupport fuel dd (Cloud_Regular (cloudE x)) support
  end.

(** A path is not longer than the variables and the constant. *)
Definition dag_fuel (dd : CloudManager) : nat := S (dd_nVars dd).

(** Counting and marking in [Cloud_Support] and [Cloud_SupportSize]. *)
Definition support_of (dd : CloudManager) (n : Z) : option (CloudManager * list Z) :=
  '(dd, support) ← cloudSupport (dag_fuel dd) dd (Cloud_Regular n) (replicate (dd_nVars dd) 0%Z);
  dd ← cloudClearMark (dag_fuel dd) dd (Cloud_Regular n);
  Some (dd, support).

(** The null pointer leaves the loop. *)
Definition Cloud_Support (dd : CloudManager) (n : Z) : option (Z * CloudManager) :=
  assert! CLOUD_ASSERT dd n in
  '(dd, support) ← support_of dd n;
  for_down (dd_nVars dd) (fun i s =>
    '(res, dd) ← s;
    if (res =? 0)%Z then Some (res, dd)
    else if (support.[i] =? 1)%Z then v ← dd_vars dd !! i; Cloud_bddAnd dd res v else Some (res, dd)) (Some (dd_one dd, dd)).

Definition Cloud_SupportSize (dd : CloudManager) (n : Z) : option (Z * CloudManager) :=
  assert! CLOUD_ASSERT dd n in
  '(dd, support) ← support_of dd n;
  Some (for_up (dd_nVars dd) (fun i count => if (support.[i] =? 1)%Z then (count + 1)%Z else count) 0%Z, dd).

Fixpoint cloudDagSize (fuel : nat) (dd : CloudManager) (n : Z) : option (nat * CloudManager) :=
  match fuel with
  | O => None
  | S fuel =>
    x ← node_of dd n;
    if cloudNodeIsMarked x then Some (0, dd)
    else
      dd ← cloudNodeMark dd n;
      if cloudIsConstant x then Some (1, dd)
      else
        '(tval, dd) ← cloudDagSize fuel dd (cloudT x);
        '(eval, dd) ← cloudDagSize fuel dd (Cloud_Regular (cloudE x));
        Some (tval + eval + 1, dd)
  end.

Definition Cloud_DagSize (dd : CloudManager) (n : Z) : option (nat * CloudManager) :=
  '(res, dd) ← cloudDagSize (dag_fuel dd) dd (Cloud_Regular n);
  dd ← cloudClearMark (dag_fuel dd) dd (Cloud_Regular n);
  Some (res, dd).

(** Storing [n] at the counter, which is advanced. *)
Definition push_node (dd : CloudManager) (pCounter : nat) (n : Z) : option (nat * CloudManager) :=
  pp ← dd_ppNodes dd;
  assert! pCounter <? length pp in Some (S pCounter, with_ppNodes dd (Some (<[pCounter := n]> pp))).

Fixpoint Cloud_DagCollect_rec (fuel : nat) (dd : CloudManager) (n : Z) (pCounter : nat) : option (nat * nat * CloudManager) :=
  match fuel with
  | O => None
  | S fuel =>
    x ← node_of dd n;
    if cloudNodeIsMarked x then Some (0, pCounter, dd)
    else
      dd ← cloudNodeMark dd n;
      if cloudIsConstant x then
        '(pCounter, dd) ← push_node dd pCounter n;
        Some (1, pCounter, dd)
      else
        '(tval, pCounter, dd) ← Cloud_DagCollect_rec fuel dd (cloudT x) pCounter;
        '(eval, pCounter, dd) ← Cloud_DagCollect_rec fuel dd (Cloud_Regular (cloudE x)) pCounter;
        '(pCounter, dd) ← push_node dd pCounter n;
        Some (tval + eval + 1, pCounter, dd)
  end.

Definition Cloud_DagCollect (dd : CloudManager) (n : Z) : option (nat * CloudManager) :=
  let dd := match dd_ppNodes dd with None => with_ppNodes dd (Some (replicate (dd_nNodesLimit dd) 0%Z)) | Some _ => dd end in
  '(res, Counter, dd) ← Cloud_DagCollect_rec (dag_fuel dd) dd (Cloud_Regular n) 0;
  dd ← cloudClearMark (dag_fuel dd) dd (Cloud_Regular n);
  assert! res =? Counter in
  Some (res, dd).

Definition Cloud_SharingSize (dd : CloudManager) (pn : list Z) : option (nat * CloudManager) :=
  '(res, dd) ← for_up (length pn) (fun i s =>
    '(res, dd) ← s; '(k, dd) ← cloudDagSize (dag_fuel dd) dd (Cloud_Regular pn.[i]); Some (res + k, dd)) (Some (0, dd));
  dd ← for_up (length pn) (fun i dd => dd ← dd; cloudClearMark (dag_fuel dd) dd (Cloud_Regular pn.[i])) (Some dd);
  Some (res, dd).

(** The fields are read at the pointer as it is, complemented or not. *)
Fixpoint Cloud_GetOneCube (fuel : nat) (dd : CloudManager) (bFunc : Z) : option (Z * CloudManager) :=
  match fuel with
  | O => None
  | S fuel =>
    c ← Cloud_IsConstant dd bFunc;
    if c : bool then Some (bFunc, dd)
    else
      x ← node_of dd bFunc;
      let '(bFunc0, bFunc1) := if Cloud_IsComplement bFunc then (Cloud_Not (cloudE x), Cloud_Not (cloudT x)) else (cloudE x, cloudT x) in
      '(res, dd) ← Cloud_GetOneCube fuel dd bFunc0;
      if (res =? 0)%Z then Some (0%Z, dd)
      else if negb (res =? dd_zero dd)%Z then
        k ← Cloud_V dd bFunc; v ← dd_vars dd !! Z.to_nat k; Cloud_bddAnd dd res (Cloud_Not v)
      else
        '(res, dd) ← Cloud_GetOneCube fuel dd bFunc1;
        if (res =? 0)%Z then Some (0%Z, dd)
        else
          assert! negb (res =? dd_zero dd)%Z in
          k ← Cloud_V dd bFunc; v ← dd_vars dd !! Z.to_nat k; Cloud_bddAnd dd res v
  end.

(** * Nodes below a pointer *)

(** The slots that a pointer reaches. *)
Fixpoint sub_rec (fuel : nat) (dd : CloudManager) (p : Z) : gset nat :=
  match fuel with
  | O => ∅
  | S fuel =>
    match place dd (Cloud_Regular p) with
    | None => ∅
    | Some i =>
      match dd_nodes dd !! i with
      | None => ∅
      | Some n => {[i]} ∪ if cloudIsConstant n then ∅ else sub_rec fuel dd (cloudT n) ∪ sub_rec fuel dd (cloudE n)
      end
    end
  end.
Definition sub (dd : CloudManager) (p : Z) : gset nat := sub_rec (dag_fuel dd) dd p.

Section sub.
Context (dd : CloudManager) (T : table_ok dd).
Let G := tab_geo dd T.

Lemma slot_of i c n : node_at dd i = Some n -> place dd (Cloud_Regular (ptr dd i c)) = Some i /\ dd_nodes dd !! i = Some n.
Proof. intros E. rewrite (ptr_regular dd G), ptr_place by (by eapply node_at_lt). split; [done|]. by apply (node_at_lookup _ _ _ E). Qed.

Lemma const_node n : node_at dd 0 = Some n -> cloudIsConstant n = true.
Proof. intros E. destruct (tab_const dd T) as (m & Em & Ev). rewrite E in Em. injection Em as <-. unfold cloudIsConstant. by rewrite Ev. Qed.

Lemma var_node i n : node_at dd i = Some n -> i <> 0 -> cloudIsConstant n = false.
Proof. intros E Hi. by apply (not_constant dd n T), (tab_nodes dd T i n E Hi). Qed.

Lemma sub_rec_const k c : sub_rec (S k) dd (ptr dd 0 c) = {[0]}.
Proof. destruct (tab_const dd T) as (n & En & Ev). cbn [sub_rec]. destruct (slot_of 0 c n En) as [-> ->]. rewrite (const_node n En). set_solver. Qed.

Lemma sub_rec_node k i c n : node_at dd i = Some n -> i <> 0 -> sub_rec (S k) dd (ptr dd i c) = {[i]} ∪ (sub_rec k dd (cloudT n) ∪ sub_rec k dd (cloudE n)).
Proof. intros En Hi. cbn [sub_rec]. destruct (slot_of i c n En) as [-> ->]. by rewrite (var_node i n En Hi). Qed.

Lemma node_view_of i c n : node_at dd i = Some n -> i <> 0 -> node_view dd (ptr dd i c) (cloudV n) (Cloud_NotCond (cloudT n) c) (Cloud_NotCond (cloudE n) c).
Proof. intros En Hi. apply (branches_view dd _ _ _ _ T). by exists i, c, n. Qed.

Lemma node_ranks i n : node_at dd i = Some n -> i <> 0 -> rank dd (cloudT n) < rank dd (ptr dd i false) /\ rank dd (cloudE n) < rank dd (ptr dd i false).
Proof. intros En Hi. pose proof (view_rank _ _ _ _ _ (node_view_of i false n En Hi)) as H. by rewrite !notcond_false in H. Qed.

Lemma rank_polarity i c : is_Some (node_at dd i) -> rank dd (ptr dd i c) = rank dd (ptr dd i false).
Proof. intros [n En]. unfold rank. by rewrite !(level_ptr dd i _ n G En). Qed.

(** Induction on a slot. *)
Lemma slot_ind (P : nat -> Prop) : P 0 -> (forall i n it ct ie ce, node_at dd i = Some n -> i <> 0 -> cloudT n = ptr dd it ct -> cloudE n = ptr dd ie ce ->
    is_Some (node_at dd it) -> is_Some (node_at dd ie) -> P it -> P ie -> P i) -> forall i, is_Some (node_at dd i) -> P i.
Proof.
  intros H0 HS. assert (forall k i, rank dd (ptr dd i false) < k -> is_Some (node_at dd i) -> P i) as H; [|intros i Hi; by apply (H (S (rank dd (ptr dd i false)))); [lia|]].
  intros k. induction k as [|k IH]; intros i Hk [n En]; [lia|]. destruct (decide (i = 0)) as [->|Hi]; [done|].
  destruct (node_ranks i n En Hi) as [R1 R2]. destruct (tab_nodes dd T i n En Hi) as [_ (it & ct & nt & Et & Hnt) (ie & ce & ne & Ee & Hne) _ _ _].
  rewrite Et, rank_polarity in R1 by by eexists. rewrite Ee, rank_polarity in R2 by by eexists.
  eapply (HS i n it ct ie ce); try done; try (by eexists); apply IH; (lia || by eexists).
Qed.

Lemma sub_rec_enough : forall i, is_Some (node_at dd i) -> forall c c' k k', rank dd (ptr dd i false) < k -> rank dd (ptr dd i false) < k' ->
  sub_rec k dd (ptr dd i c) = sub_rec k' dd (ptr dd i c').
Proof.
  apply (slot_ind (fun i => forall c c' k k', rank dd (ptr dd i false) < k -> rank dd (ptr dd i false) < k' -> sub_rec k dd (ptr dd i c) = sub_rec k' dd (ptr dd i c'))).
  - intros c c' [|k] [|k'] H H'; try lia. by rewrite !sub_rec_const.
  - intros i n it ct ie ce En Hi Et Ee Lt Le IHt IHe c c' [|k] [|k'] H H'; try lia. rewrite !(sub_rec_node _ i _ n En Hi), Et, Ee.
    destruct (node_ranks i n En Hi) as [R1 R2]. rewrite Et, rank_polarity in R1 by done. rewrite Ee, rank_polarity in R2 by done.
    by rewrite (IHt ct ct k k'), (IHe ce ce k k') by lia.
Qed.

Lemma sub_const c : sub dd (ptr dd 0 c) = {[0]}.
Proof. apply sub_rec_const. Qed.

Lemma sub_polarity i c c' : is_Some (node_at dd i) -> sub dd (ptr dd i c) = sub dd (ptr dd i c').
Proof. intros [n En]. apply sub_rec_enough; [by eexists|apply rank_fuel; [done|by eapply live_ptr]..]. Qed.

Lemma sub_node i c n it ct ie ce : node_at dd i = Some n -> i <> 0 -> cloudT n = ptr dd it ct -> cloudE n = ptr dd ie ce ->
  is_Some (node_at dd it) -> is_Some (node_at dd ie) -> sub dd (ptr dd i c) = {[i]} ∪ (sub dd (ptr dd it false) ∪ sub dd (ptr dd ie false)).
Proof.
  intros En Hi Et Ee Ht He. unfold sub at 1, dag_fuel. rewrite (sub_rec_node _ i c n En Hi), Et, Ee. destruct (node_ranks i n En Hi) as [R1 R2].
  rewrite Et, rank_polarity in R1 by done. rewrite Ee, rank_polarity in R2 by done.
  assert (rank dd (ptr dd i false) < S (dd_nVars dd)) as Hr by (apply rank_fuel; [done|by eapply live_ptr]).
  destruct Ht as [nt Ht], He as [ne He]. do 2 f_equal; apply sub_rec_enough; (by eexists) || lia || (apply rank_fuel; [done|by eapply live_ptr]).
Qed.

(** What is reached is in the table, at the slot or below its variable. *)
Lemma sub_spec : forall i, is_Some (node_at dd i) -> forall j, j ∈ sub dd (ptr dd i false) ->
  is_Some (node_at dd j) /\ sub dd (ptr dd j false) ⊆ sub dd (ptr dd i false) /\ (j = i \/ rank dd (ptr dd j false) < rank dd (ptr dd i false)).
Proof.
  apply (slot_ind (fun i => forall j, j ∈ sub dd (ptr dd i false) -> is_Some (node_at dd j) /\ sub dd (ptr dd j false) ⊆ sub dd (ptr dd i false) /\
    (j = i \/ rank dd (ptr dd j false) < rank dd (ptr dd i false)))).
  - intros j. rewrite sub_const, elem_of_singleton. intros ->. destruct (tab_const dd T) as (n & En & _). split; [by eexists|]. split; [by rewrite sub_const|by left].
  - intros i n it ct ie ce En Hi Et Ee Lt Le IHt IHe j. destruct (node_ranks i n En Hi) as [R1 R2].
    rewrite Et, rank_polarity in R1 by done. rewrite Ee, rank_polarity in R2 by done.
    rewrite (sub_node i false n it ct ie ce) by done. rewrite !elem_of_union, elem_of_singleton. intros [->|[Hj|Hj]].
    + split; [by eexists|]. split; [by rewrite (sub_node i false n it ct ie ce)|by left].
    + destruct (IHt j Hj) as (H1 & H2 & H3). split; [done|]. split; [clear -H2; set_solver|right; destruct H3 as [->|]; lia].
    + destruct (IHe j Hj) as (H1 & H2 & H3). split; [done|]. split; [clear -H2; set_solver|right; destruct H3 as [->|]; lia].
Qed.

Lemma sub_self i c : is_Some (node_at dd i) -> i ∈ sub dd (ptr dd i c).
Proof.
  intros [n En]. destruct (decide (i = 0)) as [->|Hi]; [rewrite sub_const; set_solver|]. unfold sub, dag_fuel. rewrite (sub_rec_node _ i c n En Hi). set_solver.
Qed.
End sub.

(** * Marks *)

(** The manager with the nodes of a set marked. *)
Definition mark_in (M : gset nat) (i : nat) (n : CloudNode) : CloudNode := if decide (i ∈ M) then marked n else n.
Definition mark_nodes (M : gset nat) (dd : CloudManager) : CloudManager := with_nodes dd (imap (mark_in M) (dd_nodes dd)).

Lemma mark_none dd : mark_nodes ∅ dd = dd.
Proof.
  unfold mark_nodes. replace (imap (mark_in ∅) (dd_nodes dd)) with (dd_nodes dd); [by destruct dd|]. apply list_eq. intros i. rewrite list_lookup_imap.
  destruct (dd_nodes dd !! i) as [n|]; [|done]. cbn. unfold mark_in. by rewrite decide_False by set_solver.
Qed.

(** The mark bit of a variable. *)
Definition plain (n : CloudNode) : Prop := (0 <= cloudV n < 2 ^ 28)%Z.

Lemma plain_off v : (0 <= v < 2 ^ 28)%Z -> Z.land v CLOUD_MARK_OFF = v /\ Z.land v CLOUD_MARK_ON = 0%Z.
Proof.
  intros H. assert (v = Z.land v (Z.ones 28)) as E by (rewrite Z.land_ones, Z.mod_small by (done || lia); done).
  rewrite E at 1 3. rewrite <- !Z.land_assoc. change (Z.land (Z.ones 28) CLOUD_MARK_OFF) with (Z.ones 28). change (Z.land (Z.ones 28) CLOUD_MARK_ON) with 0%Z.
  by rewrite Z.land_0_r, <- E.
Qed.

Lemma plain_marks n : plain n -> cloudNodeIsMarked n = false /\ cloudNodeIsMarked (marked n) = true /\ unmarked (marked n) = n /\
  cloudIsConstant (marked n) = cloudIsConstant n /\ cloudT (marked n) = cloudT n /\ cloudE (marked n) = cloudE n.
Proof.
  intros H. destruct (plain_off (cloudV n) H) as [E1 E2]. unfold cloudNodeIsMarked, marked, unmarked, cloudIsConstant, with_v. cbn [cloudS cloudV cloudE cloudT].
  rewrite E2, !Z.land_lor_distr_l, E1, E2. change (Z.land CLOUD_MARK_ON CLOUD_MARK_OFF) with 0%Z. rewrite Z.lor_0_r, Z.lor_0_l. by destruct n.
Qed.

Section marks.
Context (dd : CloudManager) (T : table_ok dd).
Let G := tab_geo dd T.

Lemma node_plain i n : node_at dd i = Some n -> plain n.
Proof.
  intros E. unfold plain. change (2 ^ 28)%Z with 268435456%Z. pose proof (geo_vars dd G). destruct (decide (i = 0)) as [->|Hi].
  - destruct (tab_const dd T) as (m & Em & Ev). rewrite E in Em. injection Em as <-. rewrite Ev. by split.
  - pose proof (red_var dd n (tab_nodes dd T i n E Hi)). lia.
Qed.

Lemma marked_lookup M i n : node_at dd i = Some n -> node_of (mark_nodes M dd) (ptr dd i false) = Some (mark_in M i n).
Proof.
  intros E. unfold node_of. change (place (mark_nodes M dd)) with (place dd). rewrite ptr_place by (by eapply node_at_lt). cbn [mbind option_bind mark_nodes with_nodes dd_nodes].
  by rewrite list_lookup_imap, (proj1 (node_at_lookup _ _ _ E)).
Qed.

Lemma marked_test M i n : node_at dd i = Some n -> cloudNodeIsMarked (mark_in M i n) = bool_decide (i ∈ M) /\ cloudIsConstant (mark_in M i n) = cloudIsConstant n /\
  cloudT (mark_in M i n) = cloudT n /\ cloudE (mark_in M i n) = cloudE n.
Proof.
  intros E. destruct (plain_marks n (node_plain i n E)) as (M1 & M2 & _ & M3 & M4 & M5). unfold mark_in.
  destruct (decide (i ∈ M)) as [H|H]; [by rewrite bool_decide_true|by rewrite bool_decide_false].
Qed.

Lemma mark_step M i n : node_at dd i = Some n -> i ∉ M -> cloudNodeMark (mark_nodes M dd) (ptr dd i false) = Some (mark_nodes ({[i]} ∪ M) dd).
Proof.
  intros E Hi. unfold cloudNodeMark, set_node. change (place (mark_nodes M dd)) with (place dd). rewrite ptr_place by (by eapply node_at_lt).
  cbn [mbind option_bind mark_nodes with_nodes dd_nodes]. rewrite list_lookup_imap, (proj1 (node_at_lookup _ _ _ E)). cbn [fmap option_fmap option_map mbind option_bind].
  unfold mark_nodes, with_nodes. cbn. do 2 f_equal. apply list_eq. intros j. rewrite list_lookup_insert, !list_lookup_imap, length_imap.
  unfold mark_in. case_decide as Hd.
  - destruct Hd as [<- _]. rewrite (proj1 (node_at_lookup _ _ _ E)). cbn. by rewrite decide_False, decide_True by set_solver.
  - assert (j <> i) by (intros ->; apply Hd; split; [done|]; by apply lookup_lt_Some with n, node_at_lookup). destruct (dd_nodes dd !! j) as [m|]; [|done]. cbn.
    f_equal. apply decide_ext. set_solver.
Qed.

Lemma unmark_step M i n : node_at dd i = Some n -> i ∈ M -> cloudNodeUnmark (mark_nodes M dd) (ptr dd i false) = Some (mark_nodes (M ∖ {[i]}) dd).
Proof.
  intros E Hi. unfold cloudNodeUnmark, set_node. change (place (mark_nodes M dd)) with (place dd). rewrite ptr_place by (by eapply node_at_lt).
  cbn [mbind option_bind mark_nodes with_nodes dd_nodes]. rewrite list_lookup_imap, (proj1 (node_at_lookup _ _ _ E)). cbn [fmap option_fmap option_map mbind option_bind].
  unfold mark_nodes, with_nodes. cbn. do 2 f_equal. apply list_eq. intros j. rewrite list_lookup_insert, !list_lookup_imap, length_imap.
  unfold mark_in. case_decide as Hd.
  - destruct Hd as [<- _]. rewrite (proj1 (node_at_lookup _ _ _ E)). cbn. rewrite decide_True, decide_False by set_solver.
    f_equal. apply (plain_marks n (node_plain i n E)).
  - assert (j <> i) by (intros ->; apply Hd; split; [done|]; by apply lookup_lt_Some with n, node_at_lookup). destruct (dd_nodes dd !! j) as [m|]; [|done]. cbn.
    f_equal. apply decide_ext. set_solver.
Qed.

(** Sets of visited nodes: below a node, every visited one has been visited with all that it reaches. *)
Definition closed_below (V : gset nat) (i : nat) : Prop := forall m, m ∈ V -> m ∈ sub dd (ptr dd i false) -> sub dd (ptr dd m false) ⊆ V.

Lemma closed_visited V i : is_Some (node_at dd i) -> i ∈ V -> closed_below V i -> (sub dd (ptr dd i false) ∪ V) = V.
Proof. intros Hs Hi Hc. pose proof (Hc i Hi (sub_self dd T i false Hs)). set_solver. Qed.

(** What a traversal does at a node with two successors. *)
Lemma closed_step V i n it ct ie ce : node_at dd i = Some n -> i <> 0 -> cloudT n = ptr dd it ct -> cloudE n = ptr dd ie ce ->
  is_Some (node_at dd it) -> is_Some (node_at dd ie) -> closed_below V i ->
  closed_below ({[i]} ∪ V) it /\ closed_below (sub dd (ptr dd it false) ∪ ({[i]} ∪ V)) ie /\
  (sub dd (ptr dd ie false) ∪ (sub dd (ptr dd it false) ∪ ({[i]} ∪ V))) = (sub dd (ptr dd i false) ∪ V) /\
  i ∉ sub dd (ptr dd it false) /\ i ∉ sub dd (ptr dd ie false).
Proof.
  intros En Hi Et Ee Ht He Hc. pose proof (sub_node dd T i false n it ct ie ce En Hi Et Ee Ht He) as Es.
  destruct (node_ranks dd T i n En Hi) as [R1 R2]. rewrite Et, (rank_polarity dd T) in R1 by done. rewrite Ee, (rank_polarity dd T) in R2 by done.
  assert (forall k, is_Some (node_at dd k) -> rank dd (ptr dd k false) < rank dd (ptr dd i false) -> i ∉ sub dd (ptr dd k false)) as Hno.
  { intros k Hk Hr Hin. destruct (sub_spec dd T k Hk i Hin) as (_ & _ & [->|]); lia. }
  pose proof (Hno it Ht R1) as Nt. pose proof (Hno ie He R2) as Ne.
  split; [|split; [|split; [rewrite Es; clear; set_solver|done]]].
  - intros m Hm Hin. apply elem_of_union in Hm as [Hm|Hm]; [set_solver|]. pose proof (Hc m Hm ltac:(rewrite Es; clear -Hin; set_solver)). set_solver.
  - intros m Hm Hin. apply elem_of_union in Hm as [Hm|Hm].
    + destruct (sub_spec dd T it Ht m Hm) as (_ & H & _). clear -H. set_solver.
    + apply elem_of_union in Hm as [Hm|Hm]; [clear -Hm Hin Ne; set_solver|]. pose proof (Hc m Hm ltac:(rewrite Es; clear -Hin; set_solver)). set_solver.
Qed.
End marks.

(** * The traversals *)

Section traversals.
Context (dd : CloudManager) (T : table_ok dd).
Let G := tab_geo dd T.

Lemma regular_edges i n it ct ie ce : node_at dd i = Some n -> i <> 0 -> cloudT n = ptr dd it ct -> cloudE n = ptr dd ie ce ->
  cloudT n = ptr dd it false /\ Cloud_Regular (cloudE n) = ptr dd ie false.
Proof.
  intros En Hi Et Ee. pose proof (red_regular dd n (tab_nodes dd T i n En Hi)) as R. unfold is_regular in R. rewrite Et, (ptr_compl dd G) in R. subst ct.
  split; [done|]. by rewrite Ee, (ptr_regular dd G).
Qed.

(** The cases of a traversal at a slot: the same code reads the node, tests the mark and goes on. *)
Lemma DagSize_rec_spec : forall i, is_Some (node_at dd i) -> forall V fuel, closed_below dd V i -> rank dd (ptr dd i false) < fuel ->
  exists k, cloudDagSize fuel (mark_nodes V dd) (ptr dd i false) = Some (k, mark_nodes (sub dd (ptr dd i false) ∪ V) dd) /\
    k + size V = size (sub dd (ptr dd i false) ∪ V).
Proof.
  apply (slot_ind dd T (fun i => forall V fuel, closed_below dd V i -> rank dd (ptr dd i false) < fuel ->
    exists k, cloudDagSize fuel (mark_nodes V dd) (ptr dd i false) = Some (k, mark_nodes (sub dd (ptr dd i false) ∪ V) dd) /\
      k + size V = size (sub dd (ptr dd i false) ∪ V))).
  - intros V [|fuel] Hc Hk; [lia|]. destruct (tab_const dd T) as (n & En & _). cbn [cloudDagSize]. rewrite (marked_lookup dd T V 0 n En). cbn [mbind option_bind].
    destruct (marked_test dd T V 0 n En) as (-> & -> & _ & _). rewrite (sub_const dd T), (const_node dd T n En). case_bool_decide as Hin.
    + exists 0. assert (({[0]} ∪ V) = V) as -> by (clear -Hin; set_solver). done.
    + rewrite (mark_step dd T V 0 n En Hin). exists 1. split; [done|]. rewrite size_union, size_singleton by (clear -Hin; set_solver). lia.
  - intros i n it ct ie ce En Hi Et Ee Lt Le IHt IHe V [|fuel] Hc Hk; [lia|]. cbn [cloudDagSize]. rewrite (marked_lookup dd T V i n En). cbn [mbind option_bind].
    destruct (marked_test dd T V i n En) as (-> & -> & -> & ->). case_bool_decide as Hin.
    { exists 0. rewrite (closed_visited dd T V i) by (done || by eexists). done. }
    rewrite (mark_step dd T V i n En Hin), (var_node dd T i n En Hi). cbn [mbind option_bind].
    destruct (closed_step dd T V i n it ct ie ce En Hi Et Ee Lt Le Hc) as (C1 & C2 & C3 & _).
    destruct (node_ranks dd T i n En Hi) as [R1 R2]. rewrite Et, (rank_polarity dd T) in R1 by done. rewrite Ee, (rank_polarity dd T) in R2 by done.
    destruct (regular_edges i n it ct ie ce En Hi Et Ee) as [-> ->].
    destruct (IHt ({[i]} ∪ V) fuel C1 ltac:(lia)) as (kt & -> & St). cbn [mbind option_bind].
    destruct (IHe (sub dd (ptr dd it false) ∪ ({[i]} ∪ V)) fuel C2 ltac:(lia)) as (ke & -> & Se). cbn [mbind option_bind].
    exists (kt + ke + 1). rewrite C3 in Se |- *. split; [done|]. rewrite size_union, size_singleton in St by (clear -Hin; set_solver). lia.
Qed.

(** Clearing goes over the marked nodes, so that the nodes visited are those that have lost their mark. *)
Lemma ClearMark_rec_spec M : forall i, is_Some (node_at dd i) -> forall V fuel, sub dd (ptr dd i false) ⊆ M -> closed_below dd V i -> rank dd (ptr dd i false) < fuel ->
  cloudClearMark fuel (mark_nodes (M ∖ V) dd) (ptr dd i false) = Some (mark_nodes (M ∖ (sub dd (ptr dd i false) ∪ V)) dd).
Proof.
  apply (slot_ind dd T (fun i => forall V fuel, sub dd (ptr dd i false) ⊆ M -> closed_below dd V i -> rank dd (ptr dd i false) < fuel ->
    cloudClearMark fuel (mark_nodes (M ∖ V) dd) (ptr dd i false) = Some (mark_nodes (M ∖ (sub dd (ptr dd i false) ∪ V)) dd))).
  - intros V [|fuel] HM Hc Hk; [lia|]. destruct (tab_const dd T) as (n & En & _). cbn [cloudClearMark]. rewrite (marked_lookup dd T _ 0 n En). cbn [mbind option_bind].
    destruct (marked_test dd T (M ∖ V) 0 n En) as (-> & -> & _ & _). rewrite (sub_const dd T) in HM |- *. rewrite (const_node dd T n En). case_bool_decide as Hin; cbn [negb].
    + rewrite (unmark_step dd T _ 0 n En Hin). cbn [mbind option_bind]. do 2 f_equal. clear. set_solver.
    + do 2 f_equal. clear -Hin HM. set_solver.
  - intros i n it ct ie ce En Hi Et Ee Lt Le IHt IHe V [|fuel] HM Hc Hk; [lia|]. cbn [cloudClearMark]. rewrite (marked_lookup dd T _ i n En). cbn [mbind option_bind].
    destruct (marked_test dd T (M ∖ V) i n En) as (-> & -> & -> & ->). pose proof (HM i (sub_self dd T i false ltac:(by eexists))) as HiM.
    case_bool_decide as Hin; cbn [negb].
    2: { rewrite (closed_visited dd T V i) by (done || (by eexists) || (clear -Hin HiM; set_solver)). done. }
    rewrite (unmark_step dd T _ i n En Hin), (var_node dd T i n En Hi). cbn [mbind option_bind].
    destruct (closed_step dd T V i n it ct ie ce En Hi Et Ee Lt Le Hc) as (C1 & C2 & C3 & _).
    destruct (node_ranks dd T i n En Hi) as [R1 R2]. rewrite Et, (rank_polarity dd T) in R1 by done. rewrite Ee, (rank_polarity dd T) in R2 by done.
    pose proof (sub_node dd T i false n it ct ie ce En Hi Et Ee Lt Le) as Es.
    destruct (regular_edges i n it ct ie ce En Hi Et Ee) as [-> ->].
    assert (M ∖ V ∖ {[i]} = M ∖ ({[i]} ∪ V)) as -> by (clear; set_solver).
    rewrite (IHt ({[i]} ∪ V) fuel) by (done || lia || (rewrite Es in HM; clear -HM; set_solver)). cbn [mbind option_bind].
    rewrite (IHe (sub dd (ptr dd it false) ∪ ({[i]} ∪ V)) fuel) by (done || lia || (rewrite Es in HM; clear -HM; set_solver)). by rewrite C3.
Qed.

Lemma live_rank i c : is_Some (node_at dd i) -> rank dd (ptr dd i c) < dag_fuel dd.
Proof. intros [n En]. apply rank_fuel; [done|by eapply live_ptr]. Qed.

Lemma closed_empty i : closed_below dd ∅ i.
Proof. intros m Hm. by apply not_elem_of_empty in Hm. Qed.
End traversals.

(** * Sizes *)

Lemma live_slot dd p : table_ok dd -> live dd p -> exists i c, p = ptr dd i c /\ is_Some (node_at dd i) /\ Cloud_Regular p = ptr dd i false /\ sub dd p = sub dd (ptr dd i false).
Proof.
  intros T (i & c & n & -> & En). exists i, c. split; [done|]. split; [by eexists|]. rewrite (ptr_regular dd (tab_geo dd T)). split; [done|].
  apply (sub_polarity dd T). by eexists.
Qed.

Lemma clear_all dd i : table_ok dd -> is_Some (node_at dd i) ->
  cloudClearMark (dag_fuel dd) (mark_nodes (sub dd (ptr dd i false)) dd) (ptr dd i false) = Some dd.
Proof.
  intros T Hs. pose proof (ClearMark_rec_spec dd T (sub dd (ptr dd i false)) i Hs ∅ (dag_fuel dd)) as H.
  rewrite difference_empty_L, union_empty_r_L, difference_diag_L, mark_none in H. apply H; [done|by intros m ?%not_elem_of_empty|by apply live_rank].
Qed.

Lemma DagSize_spec dd p : table_ok dd -> live dd p -> Cloud_DagSize dd p = Some (size (sub dd p), dd).
Proof.
  intros T Hp. destruct (live_slot dd p T Hp) as (i & c & _ & Hs & E & ->). unfold Cloud_DagSize. rewrite E.
  destruct (DagSize_rec_spec dd T i Hs ∅ (dag_fuel dd)) as (k & Ek & Hk); [by apply closed_empty|by apply live_rank|].
  rewrite mark_none in Ek. rewrite Ek. cbn [mbind option_bind]. rewrite union_empty_r_L in Hk |- *.
  change (dag_fuel (mark_nodes _ dd)) with (dag_fuel dd). rewrite clear_all by done. cbn [mbind option_bind].
  rewrite size_empty in Hk. by rewrite <- Hk, Nat.add_0_r.
Qed.

(** Several functions: the sets of the first ones are visited. *)
Definition subs (dd : CloudManager) (pn : list Z) : gset nat := ⋃ (map (sub dd) pn).

Lemma subs_snoc dd pn p : subs dd (pn ++ [p]) = (sub dd p ∪ subs dd pn).
Proof. unfold subs. rewrite map_app, union_list_app_L. cbn. rewrite union_empty_r_L. apply union_comm_L. Qed.

Lemma subs_cons dd p pn : subs dd (p :: pn) = (sub dd p ∪ subs dd pn).
Proof. done. Qed.

Lemma sub_subs dd pn p : In p pn -> sub dd p ⊆ subs dd pn.
Proof. induction pn as [|q pn IH]; [done|]. rewrite subs_cons. intros [->|H]; [clear; set_solver|]. specialize (IH H). clear -IH. set_solver. Qed.

Lemma subs_closed dd pn i : table_ok dd -> Forall (live dd) pn -> closed_below dd (subs dd pn) i.
Proof.
  intros T Hl m Hm _. induction Hl as [|p pn Hp _ IH]; [change (m ∈ (∅ : gset nat)) in Hm; by apply not_elem_of_empty in Hm|]. rewrite subs_cons in Hm |- *. apply elem_of_union in Hm as [Hm|Hm].
  - destruct (live_slot dd p T Hp) as (j & c & _ & Hs & _ & E). rewrite E in Hm |- *. pose proof (sub_spec dd T j Hs m Hm) as (_ & H & _). clear -H. set_solver.
  - specialize (IH Hm). clear -IH. set_solver.
Qed.

Lemma take_rd (pn : list Z) k : k < length pn -> take (S k) pn = take k pn ++ [pn.[k]].
Proof. intros Hk. destruct (lookup_lt_is_Some_2 pn k Hk) as [p E]. rewrite (take_S_r _ _ _ E), rd_lookup, E. done. Qed.

Lemma SharingSize_spec dd pn : table_ok dd -> Forall (live dd) pn -> Cloud_SharingSize dd pn = Some (size (subs dd pn), dd).
Proof.
  intros T Hl. unfold Cloud_SharingSize.
  assert (forall k, k < length pn -> live dd pn.[k]) as Hk.
  { intros k Hk. rewrite rd_lookup. destruct (lookup_lt_is_Some_2 pn k Hk) as [p E]. rewrite E. by apply (proj1 (Forall_lookup _ _) Hl k). }
  rewrite (for_up_ind (fun k s => s = Some (size (subs dd (take k pn)), mark_nodes (subs dd (take k pn)) dd)) (length pn) _ (Some (0, dd))).
  - cbn [mbind option_bind]. rewrite firstn_all.
    rewrite (for_up_ind (fun k s => s = Some (mark_nodes (subs dd pn ∖ subs dd (take k pn)) dd)) (length pn) _ _).
    + rewrite firstn_all, difference_diag_L, mark_none. done.
    + change (subs dd (take 0 pn)) with (∅ : gset nat). by rewrite difference_empty_L.
    + intros k s Hkl ->. cbn [mbind option_bind]. destruct (live_slot dd _ T (Hk k Hkl)) as (i & c & _ & Hs & -> & Es).
      change (dag_fuel (mark_nodes _ dd)) with (dag_fuel dd). rewrite (ClearMark_rec_spec dd T _ i Hs); [by rewrite take_rd, subs_snoc, Es| |by apply subs_closed, Forall_take|by apply live_rank].
      rewrite <- Es. apply sub_subs. by apply nth_In.
  - change (subs dd (take 0 pn)) with (∅ : gset nat). by rewrite mark_none, size_empty.
  - intros k s Hkl ->. cbn [mbind option_bind]. destruct (live_slot dd _ T (Hk k Hkl)) as (i & c & _ & Hs & -> & Es).
    change (dag_fuel (mark_nodes _ dd)) with (dag_fuel dd).
    destruct (DagSize_rec_spec dd T i Hs (subs dd (take k pn)) (dag_fuel dd)) as (r & -> & Hr); [by apply subs_closed, Forall_take|by apply live_rank|].
    cbn [mbind option_bind]. rewrite take_rd, subs_snoc, Es by done. do 2 f_equal. lia.
Qed.

(** * Collecting the nodes *)

Lemma cnt_filter n f : cnt n f = Z.of_nat (length (filter (fun i => f i = true) (seq 0 n))).
Proof.
  induction n as [|n IH]; [done|]. rewrite seq_S, list.filter_app, length_app. cbn [cnt]. rewrite IH, Nat.add_0_l, list.filter_cons, list.filter_nil.
  destruct (f n); [rewrite decide_True by done|rewrite decide_False by done]; cbn [length Z.b2z]; lia.
Qed.

Lemma NoDup_cnt n f (J : list nat) : NoDup J -> (forall j, j ∈ J -> j < n /\ f j = true) -> (Z.of_nat (length J) <= cnt n f)%Z.
Proof.
  intros Hn HJ. rewrite cnt_filter. apply inj_le, submseteq_length, NoDup_submseteq; [done|]. intros j Hj. destruct (HJ j Hj) as [H1 H2].
  apply list_elem_of_filter. split; [done|]. apply elem_of_seq. lia.
Qed.

Definition with_pp (dd : CloudManager) (pp : list Z) : CloudManager := with_ppNodes dd (Some pp).

Section collect.
Context (dd : CloudManager) (T : table_ok dd).
Let G := tab_geo dd T.

(** A list of visited nodes, each after the nodes that it branches into. *)
Record collected (V : gset nat) (L : list Z) : Prop := {
  co_nodup : NoDup L;
  co_slots : forall p, p ∈ L -> exists j, p = ptr dd j false /\ is_Some (node_at dd j) /\ j ∈ V;
  co_order : forall k j n, L !! k = Some (ptr dd j false) -> node_at dd j = Some n -> j <> 0 ->
    cloudT n ∈ take k L /\ Cloud_Regular (cloudE n) ∈ take k L }.

Lemma collected_length V L : counted dd -> collected V L -> length L <= dd_nNodesCur dd.
Proof.
  intros C [Hn Hs _]. assert (exists J, L = map (fun j => ptr dd j false) J /\ forall j, j ∈ J -> is_Some (node_at dd j)) as (J & -> & HJ).
  { clear Hn. induction L as [|p L IH]; [exists []; split; [done|]; by intros j ?%elem_of_nil|]. destruct IH as (J & -> & HJ); [intros q Hq; apply Hs; by right|].
    destruct (Hs p ltac:(left)) as (j & -> & Hj & _). exists (j :: J). split; [done|]. intros x [->|Hx]%elem_of_cons; [done|by apply HJ]. }
  rewrite length_map. apply Nat2Z.inj_le. rewrite <- (proj1 C). apply NoDup_cnt; [by apply NoDup_fmap_1 in Hn|]. intros j Hj. destruct (HJ j Hj) as [n En].
  split; [by eapply node_at_lt|]. unfold in_use. by rewrite En.
Qed.

Lemma collected_mono V V' L : collected V L -> V ⊆ V' -> collected V' L.
Proof. intros [H1 H2 H3] Hv. split; [done| |done]. intros p Hp. destruct (H2 p Hp) as (j & -> & Hj & Hin). exists j. split; [done|]. split; [done|]. by apply Hv. Qed.

Lemma collected_push V L i n : collected V L -> node_at dd i = Some n -> ptr dd i false ∉ L -> i ∈ V ->
  (i <> 0 -> cloudT n ∈ L /\ Cloud_Regular (cloudE n) ∈ L) -> collected V (L ++ [ptr dd i false]).
Proof.
  intros [H1 H2 H3] En Hi HV Hc. split.
  - apply list.NoDup_app. split; [done|]. split; [|apply list.NoDup_singleton]. intros p Hp Hin. apply list_elem_of_singleton in Hin as ->. done.
  - intros p Hp. apply elem_of_app in Hp as [Hp|Hp]; [by apply H2|]. apply list_elem_of_singleton in Hp as ->. exists i. split; [done|]. split; [by eexists|done].
  - intros k j m Hk Em Hj. apply lookup_app_Some in Hk as [Hk|[Hk Hl]].
    + rewrite take_app_le by (apply lookup_lt_Some in Hk; lia). by apply (H3 k j m).
    + apply list_lookup_singleton_Some in Hl as [Hl E]. apply (ptr_inj dd G) in E as [<- _]. rewrite En in Em. injection Em as <-.
      rewrite take_app_length' by lia. by apply Hc.
Qed.

(** The array holds the list. *)
Definition holds (pp : list Z) (L : list Z) : Prop := length pp = dd_nNodesLimit dd /\ length L <= length pp /\ take (length L) pp = L.

Lemma push_spec V pp L n : holds pp L -> length L < dd_nNodesLimit dd ->
  exists pp', push_node (with_pp (mark_nodes V dd) pp) (length L) n = Some (length (L ++ [n]), with_pp (mark_nodes V dd) pp') /\ holds pp' (L ++ [n]).
Proof.
  intros (H1 & H2 & H3) Hl. unfold push_node. cbn [with_pp with_ppNodes dd_ppNodes mbind option_bind]. rewrite (proj2 (Nat.ltb_lt _ _)) by lia.
  eexists. split; [rewrite length_app, Nat.add_1_r; done|]. split; [by rewrite length_insert|]. rewrite length_app. cbn [length]. split; [rewrite length_insert; lia|].
  rewrite Nat.add_1_r. rewrite (take_S_r _ _ n) by (apply list_lookup_insert_eq; lia). by rewrite take_insert_ge, H3 by lia.
Qed.

(** The operations on the nodes do not see the array. *)
Lemma node_of_pp d pp p : node_of (with_pp d pp) p = node_of d p.
Proof. done. Qed.

Lemma mark_pp d pp p : cloudNodeMark (with_pp d pp) p = (d' ← cloudNodeMark d p; Some (with_pp d' pp)).
Proof. unfold cloudNodeMark, set_node, with_pp. change (place (with_ppNodes d (Some pp)) p) with (place d p). destruct (place d p) as [i|]; [|done]. cbn. by destruct (dd_nodes d !! i). Qed.

Lemma ClearMark_pp fuel : forall d pp p, cloudClearMark fuel (with_pp d pp) p = (d' ← cloudClearMark fuel d p; Some (with_pp d' pp)).
Proof.
  induction fuel as [|fuel IH]; intros d pp p; [done|]. cbn [cloudClearMark]. rewrite node_of_pp. destruct (node_of d p) as [x|]; [|done]. cbn [mbind option_bind].
  destruct (negb _); [done|]. unfold cloudNodeUnmark, set_node. change (place (with_pp d pp) p) with (place d p). destruct (place d p) as [i|]; [|done]. cbn [mbind option_bind].
  change (dd_nodes (with_pp d pp)) with (dd_nodes d). destruct (dd_nodes d !! i) as [n|]; [|done]. cbn [mbind option_bind].
  change (with_nodes (with_pp d pp) ?l) with (with_pp (with_nodes d l) pp). destruct (cloudIsConstant x); [done|]. rewrite IH.
  destruct (cloudClearMark fuel _ (cloudT x)); [|done]. cbn [mbind option_bind]. apply IH.
Qed.
End collect.

(** What the recursion does at a slot: it appends the nodes that it reaches for the first time. *)
Definition collects (dd : CloudManager) (i : nat) : Prop := forall V L pp fuel, closed_below dd V i -> collected dd V L ->
  (forall m, m ∈ V -> m ∈ sub dd (ptr dd i false) -> ptr dd m false ∈ L) -> holds dd pp L -> rank dd (ptr dd i false) < fuel ->
  exists new pp', Cloud_DagCollect_rec fuel (with_pp (mark_nodes V dd) pp) (ptr dd i false) (length L) =
      Some (length new, length (L ++ new), with_pp (mark_nodes (sub dd (ptr dd i false) ∪ V) dd) pp') /\
    holds dd pp' (L ++ new) /\ collected dd (sub dd (ptr dd i false) ∪ V) (L ++ new) /\
    (forall m, m ∈ sub dd (ptr dd i false) -> ptr dd m false ∈ L ++ new) /\
    (forall m, ptr dd m false ∈ new -> m ∈ sub dd (ptr dd i false)) /\
    (i ∉ V -> exists new0, new = new0 ++ [ptr dd i false]).

Section collect_rec.
Context (dd : CloudManager) (T : table_ok dd) (C : counted dd).
Let G := tab_geo dd T.

(** A node is pushed while there is room, since the nodes are fewer than the limit. *)
Lemma push_collected V L pp i n : collected dd V L -> holds dd pp L -> node_at dd i = Some n -> ptr dd i false ∉ L -> i ∈ V ->
  (i <> 0 -> cloudT n ∈ L /\ Cloud_Regular (cloudE n) ∈ L) ->
  exists pp', push_node (with_pp (mark_nodes V dd) pp) (length L) (ptr dd i false) = Some (length (L ++ [ptr dd i false]), with_pp (mark_nodes V dd) pp') /\
    holds dd pp' (L ++ [ptr dd i false]) /\ collected dd V (L ++ [ptr dd i false]).
Proof.
  intros Hco Hh En Hi HV Hc. pose proof (collected_push dd T V L i n Hco En Hi HV Hc) as Hco'. pose proof (collected_length dd T V _ C Hco') as Hl.
  rewrite length_app in Hl. cbn [length] in Hl. destruct C as [_ Hlim]. destruct (push_spec dd V pp L (ptr dd i false) Hh) as (pp' & E & Hh'); [lia|].
  exists pp'. done.
Qed.

Lemma visited_collects V L pp i n : node_at dd i = Some n -> i ∈ V -> closed_below dd V i -> collected dd V L ->
  (forall m, m ∈ V -> m ∈ sub dd (ptr dd i false) -> ptr dd m false ∈ L) -> holds dd pp L ->
  exists new pp', Some (0, length L, with_pp (mark_nodes V dd) pp) = Some (length new, length (L ++ new), with_pp (mark_nodes (sub dd (ptr dd i false) ∪ V) dd) pp') /\
    holds dd pp' (L ++ new) /\ collected dd (sub dd (ptr dd i false) ∪ V) (L ++ new) /\
    (forall m, m ∈ sub dd (ptr dd i false) -> ptr dd m false ∈ L ++ new) /\
    (forall m, ptr dd m false ∈ new -> m ∈ sub dd (ptr dd i false)) /\ (i ∉ V -> exists new0, new = new0 ++ [ptr dd i false]).
Proof.
  intros En Hin Hc Hco HL Hh. assert (is_Some (node_at dd i)) as Hs by by eexists. exists [], pp. rewrite app_nil_r, (closed_visited dd T V i Hs Hin Hc).
  split; [done|]. split; [done|]. split; [done|]. split; [|split; [by intros m ?%elem_of_nil|done]].
  intros m Hm. apply HL; [|done]. pose proof (Hc i Hin (sub_self dd T i false Hs)) as H. by apply H.
Qed.

Lemma DagCollect_const : collects dd 0.
Proof.
  intros V L pp [|fuel] Hc Hco HL Hh Hk; [lia|]. destruct (tab_const dd T) as (n & En & _). cbn [Cloud_DagCollect_rec].
  rewrite node_of_pp, (marked_lookup dd T V 0 n En). cbn [mbind option_bind]. destruct (marked_test dd T V 0 n En) as (-> & -> & _ & _). case_bool_decide as Hin.
  { by apply (visited_collects V L pp 0 n). }
  rewrite mark_pp, (mark_step dd T V 0 n En Hin), (const_node dd T n En). cbn [mbind option_bind].
  assert (collected dd ({[0]} ∪ V) L) as Hco1 by (eapply collected_mono; [exact Hco|clear; set_solver]).
  destruct (push_collected ({[0]} ∪ V) L pp 0 n Hco1 Hh En) as (pp' & -> & Hh' & Hco'); [|clear; set_solver|done|].
  { intros Hp. destruct (co_slots dd V L Hco _ Hp) as (j & E & _ & Hj). apply (ptr_inj dd G) in E as [<- _]. done. }
  cbn [mbind option_bind]. exists [ptr dd 0 false], pp'. rewrite (sub_const dd T). split; [done|]. split; [done|]. split; [done|]. split; [|split].
  - intros m ->%elem_of_singleton. apply elem_of_app. right. left.
  - intros m Hm. apply list_elem_of_singleton, (ptr_inj dd G) in Hm as [-> _]. set_solver.
  - intros _. by exists [].
Qed.

Lemma DagCollect_node i n it ct ie ce : node_at dd i = Some n -> i <> 0 -> cloudT n = ptr dd it ct -> cloudE n = ptr dd ie ce ->
  is_Some (node_at dd it) -> is_Some (node_at dd ie) -> collects dd it -> collects dd ie -> collects dd i.
Proof.
  intros En Hi Et Ee Lt Le IHt IHe V L pp [|fuel] Hc Hco HL Hh Hk; [lia|]. cbn [Cloud_DagCollect_rec].
  rewrite node_of_pp, (marked_lookup dd T V i n En). cbn [mbind option_bind]. destruct (marked_test dd T V i n En) as (-> & -> & -> & ->). case_bool_decide as Hin.
  { by apply (visited_collects V L pp i n). }
  rewrite mark_pp, (mark_step dd T V i n En Hin), (var_node dd T i n En Hi). cbn [mbind option_bind].
  destruct (closed_step dd T V i n it ct ie ce En Hi Et Ee Lt Le Hc) as (C1 & C2 & C3 & Nt & Ne).
  destruct (node_ranks dd T i n En Hi) as [R1 R2]. rewrite Et, (rank_polarity dd T) in R1 by done. rewrite Ee, (rank_polarity dd T) in R2 by done.
  pose proof (sub_node dd T i false n it ct ie ce En Hi Et Ee Lt Le) as Es. destruct (regular_edges dd T i n it ct ie ce En Hi Et Ee) as [Et' Ee'].
  assert (collected dd ({[i]} ∪ V) L) as Hco1 by (eapply collected_mono; [exact Hco|clear; set_solver]). rewrite Et', Ee'.
  destruct (IHt ({[i]} ∪ V) L pp fuel C1 Hco1) as (nt & pp1 & -> & Hh1 & Hct & Hall1 & Hnt & _); [|done|lia|].
  { intros m Hm Hs. apply HL; [clear -Hm Hs Nt; set_solver|rewrite Es; clear -Hs; set_solver]. }
  cbn [mbind option_bind].
  destruct (IHe (sub dd (ptr dd it false) ∪ ({[i]} ∪ V)) (L ++ nt) pp1 fuel C2 Hct) as (ne & pp2 & -> & Hh2 & Hce & Hall2 & Hne & _); [|done|lia|].
  { intros m Hm Hs. apply elem_of_union in Hm as [Hm|Hm]; [by apply Hall1|]. apply elem_of_app. left. apply HL; [clear -Hm Hs Ne; set_solver|rewrite Es; clear -Hs; set_solver]. }
  cbn [mbind option_bind]. rewrite C3 in Hce |- *. rewrite <- app_assoc in Hh2, Hall2, Hce |- *.
  assert (i ∈ sub dd (ptr dd i false)) as His by (apply (sub_self dd T); by eexists).
  destruct (push_collected (sub dd (ptr dd i false) ∪ V) (L ++ nt ++ ne) pp2 i n Hce Hh2 En) as (pp' & -> & Hh' & Hco'); [|clear -His; set_solver| |].
  { rewrite !elem_of_app. intros [Hp|[Hp|Hp]]; [|by apply Nt, Hnt|by apply Ne, Hne].
    destruct (co_slots dd V L Hco _ Hp) as (j & E & _ & Hj). apply (ptr_inj dd G) in E as [<- _]. done. }
  { intros _. rewrite Et', Ee'. rewrite app_assoc. split; [rewrite elem_of_app; left|rewrite <- app_assoc]; [apply Hall1|apply Hall2]; by apply (sub_self dd T). }
  cbn [mbind option_bind]. exists (nt ++ ne ++ [ptr dd i false]), pp'.
  assert ((L ++ nt ++ ne) ++ [ptr dd i false] = L ++ nt ++ ne ++ [ptr dd i false]) as El by (by rewrite <- !app_assoc). rewrite El in Hh', Hco' |- *.
  split; [do 2 f_equal; rewrite !length_app; cbn [length]; f_equal; lia|]. split; [done|]. split; [done|]. split; [|split].
  - intros m. rewrite Es, !elem_of_union, elem_of_singleton. intros [->|[Hm|Hm]].
    + rewrite !elem_of_app. right. right. right. left.
    + pose proof (Hall1 m Hm) as H. rewrite ?elem_of_app in H. rewrite !elem_of_app. tauto.
    + pose proof (Hall2 m Hm) as H. rewrite ?elem_of_app in H. rewrite !elem_of_app. tauto.
  - intros m. rewrite !elem_of_app, Es. intros [Hm|[Hm|Hm]]; [pose proof (Hnt m Hm) as H|pose proof (Hne m Hm) as H|apply list_elem_of_singleton, (ptr_inj dd G) in Hm as [-> _]].
    + clear -H. set_solver.
    + clear -H. set_solver.
    + clear. set_solver.
  - intros _. exists (nt ++ ne). by rewrite <- app_assoc.
Qed.

Lemma DagCollect_rec_spec i : is_Some (node_at dd i) -> collects dd i.
Proof. revert i. apply (slot_ind dd T (collects dd)); [apply DagCollect_const|apply DagCollect_node]. Qed.
End collect_rec.

(** * The list of a function *)

(** The nodes of a function, each once and after its successors. *)
Record node_list (dd : CloudManager) (p : Z) (L : list Z) : Prop := {
  nl_nodup : NoDup L;
  nl_nodes : forall q, q ∈ L <-> exists j, q = ptr dd j false /\ j ∈ sub dd p;
  nl_order : forall k j n, L !! k = Some (ptr dd j false) -> node_at dd j = Some n -> j <> 0 -> cloudT n ∈ take k L /\ Cloud_Regular (cloudE n) ∈ take k L;
  nl_first : L !! 0 = Some (dd_one dd);
  nl_last : exists L0, L = L0 ++ [Cloud_Regular p];
  nl_length : length L = size (sub dd p) }.

Lemma node_list_length dd L (X : gset nat) : geometry dd -> NoDup L -> (forall q, q ∈ L <-> exists j, q = ptr dd j false /\ j ∈ X) -> length L = size X.
Proof.
  intros G Hn HL. assert (exists J, L = map (fun j => ptr dd j false) J) as [J ->].
  { assert (forall q, q ∈ L -> exists j, q = ptr dd j false) as H by (intros q Hq; apply HL in Hq as (j & -> & _); by exists j).
    clear HL Hn. induction L as [|q L IH]; [by exists []|]. destruct IH as [J ->]; [intros x Hx; apply H; by right|]. destruct (H q ltac:(left)) as [j ->]. by exists (j :: J). }
  rewrite length_map. assert (NoDup J) as HJ by (by apply NoDup_fmap_1 in Hn). rewrite <- (size_list_to_set (C := gset nat) J HJ). f_equal.
  apply set_eq. intros j. rewrite elem_of_list_to_set. split; intros Hj.
  - assert (ptr dd j false ∈ map (fun j => ptr dd j false) J) as H by (apply list_elem_of_fmap; by exists j). apply HL in H as (i & E & Hi). apply (ptr_inj dd G) in E as [-> _]. done.
  - assert (ptr dd j false ∈ map (fun j => ptr dd j false) J) as H by (apply HL; by exists j).
    apply list_elem_of_fmap in H as (i & E & Hi). apply (ptr_inj dd G) in E as [-> _]. done.
Qed.

Lemma first_const dd V L p : table_ok dd -> collected dd V (p :: L) -> p = dd_one dd.
Proof.
  intros T H. destruct (co_slots dd V _ H p ltac:(left)) as (j & -> & [n En] & _). rewrite (geo_one dd (tab_geo dd T)).
  destruct (decide (j = 0)) as [->|Hj]; [done|]. destruct (co_order dd V _ H 0 j n eq_refl En Hj) as [H0 _]. by apply elem_of_nil in H0.
Qed.

Lemma DagCollect_spec dd p : table_ok dd -> counted dd -> live dd p -> (forall pp, dd_ppNodes dd = Some pp -> length pp = dd_nNodesLimit dd) ->
  exists L pp, Cloud_DagCollect dd p = Some (length L, with_pp dd pp) /\ length pp = dd_nNodesLimit dd /\ take (length L) pp = L /\ node_list dd p L.
Proof.
  intros T C Hp Hpp. destruct (live_slot dd p T Hp) as (i & c & -> & Hs & E & Es). unfold Cloud_DagCollect. rewrite E.
  assert (exists pp0, length pp0 = dd_nNodesLimit dd /\
    (match dd_ppNodes dd with None => with_ppNodes dd (Some (replicate (dd_nNodesLimit dd) 0%Z)) | Some _ => dd end) = with_pp dd pp0) as (pp0 & Hl0 & ->).
  { destruct (dd_ppNodes dd) as [pp|] eqn:Epp; [exists pp; split; [by apply Hpp|unfold with_pp, with_ppNodes; rewrite <- Epp; by destruct dd]|].
    eexists. split; [by rewrite length_replicate|done]. }
  change (dag_fuel (with_pp dd pp0)) with (dag_fuel dd).
  assert (collected dd ∅ []) as Hco0 by (split; [by apply NoDup_nil_2|by intros q ?%elem_of_nil|done]).
  assert (holds dd pp0 []) as Hh0 by (split; [done|split; [cbn; lia|done]]).
  destruct (DagCollect_rec_spec dd T C i Hs ∅ [] pp0 (dag_fuel dd)) as (L & pp & Ec & Hh & Hco & Hall & Hnew & Hlast);
    [by apply closed_empty|done|by intros m ?%not_elem_of_empty|done|by apply live_rank|].
  rewrite mark_none in Ec. change (length (@nil Z)) with 0 in Ec. rewrite app_nil_l in *. rewrite Ec. cbn [mbind option_bind]. rewrite union_empty_r_L in *.
  change (dag_fuel (with_pp (mark_nodes _ dd) pp)) with (dag_fuel dd). rewrite ClearMark_pp, clear_all by done. cbn [mbind option_bind]. rewrite Nat.eqb_refl.
  exists L, pp. destruct Hh as (H1 & H2 & H3). do 3 (split; [done|]). destruct (Hlast (not_elem_of_empty i)) as [L0 EL].
  assert (forall q, q ∈ L <-> exists j, q = ptr dd j false /\ j ∈ sub dd (ptr dd i c)) as Hq.
  { intros q. rewrite Es. split; [|intros (j & -> & Hj); by apply Hall]. intros Hq. destruct (co_slots dd _ L Hco q Hq) as (j & -> & _ & Hj). by exists j. }
  split; [apply Hco|done|apply Hco| | |].
  - destruct L as [|q L']; [by destruct L0|]. cbn. f_equal. by eapply first_const.
  - exists L0. by rewrite E.
  - apply (node_list_length dd L _ (tab_geo dd T)); [apply Hco|done].
Qed.

(** * The support *)

(** The first node that is not constant is marked before its variable is read. *)
Lemma Support_rec_fails dd i n fuel support : table_ok dd -> node_at dd i = Some n -> i <> 0 -> length support = dd_nVars dd ->
  cloudSupport fuel dd (ptr dd i false) support = None.
Proof.
  intros T En Hi Hl. destruct fuel as [|fuel]; [done|]. pose proof (mark_none dd) as E0.
  rewrite <- E0 at 1. cbn [cloudSupport]. rewrite (marked_lookup dd T ∅ i n En). cbn [mbind option_bind]. destruct (marked_test dd T ∅ i n En) as (-> & -> & _ & _).
  rewrite bool_decide_false by set_solver. rewrite (var_node dd T i n En Hi). cbn [orb]. rewrite (mark_step dd T ∅ i n En) by set_solver. cbn [mbind option_bind].
  rewrite (marked_lookup dd T _ i n En). cbn [mbind option_bind]. unfold mark_in. rewrite decide_True by set_solver. unfold set_support, marked. cbn [with_v cloudV].
  assert (2 ^ 28 <= Z.lor (cloudV n) CLOUD_MARK_ON)%Z as H.
  { apply Z.nlt_ge. intros H. pose proof (node_plain dd T i n En) as [P _]. assert (0 <= Z.lor (cloudV n) CLOUD_MARK_ON)%Z as H0 by (by apply Z.lor_nonneg).
    pose proof (bits_high 28 _ 28 (conj H0 H) ltac:(lia)) as Hb. by rewrite Z.lor_spec, orb_true_r in Hb. }
  change (2 ^ 28)%Z with 268435456%Z in H. pose proof (geo_vars dd (tab_geo dd T)). rewrite (proj2 (Z.ltb_ge _ _)), andb_false_r by lia. done.
Qed.

Lemma Support_const dd c : table_ok dd -> support_of dd (ptr dd 0 c) = Some (dd, replicate (dd_nVars dd) 0%Z).
Proof.
  intros T. pose proof (tab_geo dd T) as G. destruct (tab_const dd T) as (n & En & _). unfold support_of, dag_fuel. rewrite (ptr_regular dd G). cbn [cloudSupport].
  pose proof (mark_none dd) as E0. rewrite <- E0 at 1. rewrite (marked_lookup dd T ∅ 0 n En). cbn [mbind option_bind]. destruct (marked_test dd T ∅ 0 n En) as (-> & -> & _ & _).
  rewrite (const_node dd T n En). cbn [orb mbind option_bind cloudClearMark]. rewrite <- E0 at 1. rewrite (marked_lookup dd T ∅ 0 n En). cbn [mbind option_bind].
  destruct (marked_test dd T ∅ 0 n En) as (-> & _). by rewrite bool_decide_false by set_solver.
Qed.

(** * One cube *)

(** Whether the search for a cube, which takes the negative branch unless it is the constant 0, meets no complemented
    pointer but constants. *)
Fixpoint plain_search (fuel : nat) (dd : CloudManager) (p : Z) : bool :=
  match fuel with
  | O => false
  | S fuel =>
    match node_of dd (Cloud_Regular p) with
    | None => false
    | Some n => cloudIsConstant n || negb (Cloud_IsComplement p) && plain_search fuel dd (if (cloudE n =? dd_zero dd)%Z then cloudT n else cloudE n)
    end
  end.

(** A product of literals, each of a variable from a level on. *)
Definition lits_hold (l : list (nat * bool)) (a : nat -> bool) : bool := forallb (fun '(x, b) => Bool.eqb (a x) b) l.
Record cube_of (dd dd' : CloudManager) (p r : Z) (l : list (nat * bool)) : Prop := {
  cb_val : forall a, cval dd' a r = lits_hold l a;
  cb_in : forall a, lits_hold l a = true -> cval dd a p = true;
  cb_vars : Forall (fun xb => (level dd p <= Z.of_nat xb.1)%Z /\ xb.1 < dd_nVars dd) l;
  cb_sat : exists a, lits_hold l a = true }.

(** What the search answers: the constant 0 for the constant 0, or a cube, or the null pointer at the limit. *)
Definition cube_answer (dd : CloudManager) (p r : Z) (dd' : CloudManager) : Prop :=
  usable dd' /\ grows dd dd' /\
  (r = 0%Z /\ dd_nNodesCur dd' = dd_nNodesLimit dd' \/
   r <> 0%Z /\ working dd' /\ live dd' r /\ if decide (p = dd_zero dd) then r = dd_zero dd else r <> dd_zero dd /\ exists l, cube_of dd dd' p r l).

Lemma lits_irrel l a a' : (forall x b, (x, b) ∈ l -> a x = a' x) -> lits_hold l a = lits_hold l a'.
Proof.
  induction l as [|[x b] l IH]; intros H; [done|]. unfold lits_hold in *. cbn [forallb]. rewrite (H x b) by left. f_equal. apply IH. intros y c Hy. by apply (H y c), elem_of_cons; right.
Qed.

(** A literal in front of a cube of the branch. *)
Lemma cube_extend dd d1 d2 p v t e r0 r l (b : bool) : table_ok dd -> table_ok d1 -> grows d1 d2 -> table_ok d2 -> node_view dd p v t e -> live d1 r0 ->
  cube_of dd d1 (if b then t else e) r0 l -> (forall a, cval d2 a r = cval d1 a r0 && Bool.eqb (a (Z.to_nat v)) b) -> cube_of dd d2 p r ((Z.to_nat v, b) :: l).
Proof.
  intros T T1 Hg T2 V L0 [K1 K2 K3 K4] Hr. pose proof V as [_ Hv _ _ _ Hlev [L1 L2]]. split.
  - intros a. rewrite Hr, K1. unfold lits_hold. cbn [forallb]. apply andb_comm.
  - intros a Ha. unfold lits_hold in Ha. cbn [forallb] in Ha. apply andb_true_iff in Ha as [Ha1%eqb_prop Ha2]. rewrite (cval_branch _ _ _ _ _ _ T V), Ha1.
    specialize (K2 a Ha2). by destruct b.
  - constructor; [cbn; lia|]. eapply Forall_impl; [|exact K3]. intros [x c] [H1 H2]. cbn [fst] in *. split; [destruct b; lia|done].
  - destruct K4 as [a Ha]. exists (set_var a v b). unfold lits_hold. cbn [forallb]. unfold set_var at 1. rewrite Z2Nat.id, Z.eqb_refl, eqb_reflx by lia. cbn [andb].
    rewrite <- Ha. apply lits_irrel. intros x c Hx. pose proof (proj1 (list.Forall_forall _ _) K3 _ Hx) as [H1 _]. cbn [fst] in H1. unfold set_var.
    destruct (Z.eqb_spec (Z.of_nat x) v); [destruct b; lia|done].
Qed.

Lemma not_zero_sat dd d r p l : table_ok d -> dd_zero d = dd_zero dd -> cube_of dd d p r l -> r <> dd_zero dd.
Proof.
  intros T E [K1 _ _ [a Ha]] ->. rewrite <- K1, <- E, (geo_zero d (tab_geo d T)), cval_const in Ha by done. done.
Qed.

(** The last step: the conjunction with the literal, which may be complemented. *)
Lemma cube_literal dd d1 p v t e r0 l (b : bool) lit : table_ok dd -> working d1 -> grows dd d1 -> node_view dd p v t e -> live d1 r0 ->
  cube_of dd d1 (if b then t else e) r0 l -> live d1 lit -> (forall a, cval d1 a lit = Bool.eqb (a (Z.to_nat v)) b) ->
  exists r d2, Cloud_bddAnd d1 r0 lit = Some (r, d2) /\ cube_answer dd p r d2.
Proof.
  intros T W Hg V L0 K Llit Hlit. destruct (run_op_spec op_and d1 r0 lit W L0 Llit) as (r & d2 & E & U2 & G2 & R). exists r, d2. split; [exact E|].
  split; [done|]. split; [by etransitivity|]. destruct R as [R|(R1 & R2 & R3 & R4)]; [by left|right]. split; [done|]. split; [done|]. split; [done|].
  pose proof W as [[T1 _] _]. pose proof U2 as [T2 _]. assert (cube_of dd d2 p r ((Z.to_nat v, b) :: l)) as K'.
  { apply (cube_extend dd d1 d2 p v t e r0 r l b); try done. intros a. by rewrite R4, Hlit. }
  assert (dd_zero d2 = dd_zero dd) as Ez by (pose proof (grow_frame _ _ G2) as F2; pose proof (grow_frame _ _ Hg) as F1; unfold frame in *; congruence).
  rewrite decide_False; [split; [by eapply not_zero_sat|by eexists]|]. intros ->.
  destruct (nv_branches _ _ _ _ _ V) as (i & c & n & Ep & Hi & _). rewrite (geo_zero dd (tab_geo dd T)) in Ep. by apply (ptr_inj dd (tab_geo dd T)) in Ep as [<- _].
Qed.

Lemma var_lookup dd d1 x : working dd -> grows dd d1 -> working d1 -> x < dd_nVars dd ->
  exists p, dd_vars d1 !! x = Some p /\ live d1 p /\ forall a, cval d1 a p = a x.
Proof.
  intros W Hg [[T1 (_ & Hl & _)] _] Hx. pose proof (grow_frame _ _ Hg) as F. same_frame F.
  destruct (lookup_lt_is_Some_2 (dd_vars d1) x) as [p E]; [by rewrite Hl, Hnv|]. exists p. split; [done|]. by apply var_cval.
Qed.

Lemma complement_read dd i : table_ok dd -> node_of dd (ptr dd i true) = None.
Proof.
  intros T. unfold node_of, place, ptr, pnode. cbn [Z.b2z].
  replace (dd_tUnique dd + sizeof_CloudNode * Z.of_nat i + 1 - dd_tUnique dd)%Z with (1 + Z.of_nat i * sizeof_CloudNode)%Z by lia.
  rewrite Z.mod_add by done. change (1 mod sizeof_CloudNode =? 0)%Z with false. by rewrite andb_false_r.
Qed.

Lemma GetOneCube_const fuel dd c : working dd -> Cloud_GetOneCube (S fuel) dd (ptr dd 0 c) = Some (ptr dd 0 c, dd) /\ plain_search (S fuel) dd (ptr dd 0 c) = true.
Proof.
  intros [[T _] _]. destruct (tab_const dd T) as (n & En & _). pose proof (node_at_lookup _ _ _ En) as [E _]. cbn [Cloud_GetOneCube plain_search].
  unfold Cloud_IsConstant. rewrite (ptr_node dd (tab_geo dd T) 0 c n E). cbn [option_map mbind option_bind]. by rewrite (const_node dd T n En).
Qed.

Lemma zero_level dd : table_ok dd -> dd_zero dd = ptr dd 0 true.
Proof. intros T. apply (geo_zero dd (tab_geo dd T)). Qed.

Lemma GetOneCube_spec fuel : forall dd p, working dd -> live dd p -> rank dd p < fuel ->
  if plain_search fuel dd p then exists r dd', Cloud_GetOneCube fuel dd p = Some (r, dd') /\ cube_answer dd p r dd'
  else Cloud_GetOneCube fuel dd p = None.
Proof.
  induction fuel as [|fuel IH]; intros dd p W Hp Hk; [lia|]. pose proof W as [U C]. pose proof U as [T _]. pose proof (tab_geo dd T) as G.
  destruct Hp as (i & c & n & -> & En). destruct (decide (i = 0)) as [->|Hi].
  { destruct (GetOneCube_const fuel dd c W) as [-> ->]. exists (ptr dd 0 c), dd. split; [done|]. split; [done|]. split; [done|]. right.
    split; [apply (ptr_nonzero dd G)|]. split; [done|]. split; [by eapply live_ptr|]. rewrite (zero_level dd T). case_decide as Hd; [done|]. split; [done|]. exists [].
    assert (c = false) as -> by (destruct c; done). split; [intros a; by rewrite cval_const|intros a _; by rewrite cval_const|done|by exists (fun _ => true)]. }
  pose proof (node_at_lookup _ _ _ En) as [E _]. cbn [Cloud_GetOneCube plain_search]. unfold Cloud_IsConstant. rewrite (ptr_node dd G i c n E). cbn [option_map mbind option_bind].
  rewrite (var_node dd T i n En Hi), (ptr_compl dd G). cbn [orb]. destruct c; cbn [negb andb]; [by rewrite complement_read|].
  assert (node_of dd (ptr dd i false) = Some n) as -> by (rewrite <- (ptr_regular dd G i false); by apply (ptr_node dd G)). cbn [mbind option_bind].
  pose proof (node_view_of dd T i false n En Hi) as V. rewrite !notcond_false in V. destruct (view_rank _ _ _ _ _ V) as [R1 R2].
  pose proof V as [_ Hv Ht He Hne _ _].
  assert (forall d1, working d1 -> grows dd d1 -> Cloud_V d1 (ptr dd i false) = Some (cloudV n)) as HV.
  { intros d1 [[T1 _] _] Hg. rewrite <- (grows_ptr dd d1 i false Hg). rewrite (V_live d1) by (apply (tab_geo d1 T1) || (by eapply live_ptr, (grow_nodes _ _ Hg))).
    f_equal. apply (level_ptr d1); [apply T1|by apply (grow_nodes _ _ Hg)]. }
  destruct (Z.eqb_spec (cloudE n) (dd_zero dd)) as [Ez|Ez].
  - (* the negative branch is the constant 0 *)
    assert (Cloud_GetOneCube fuel dd (cloudE n) = Some (dd_zero dd, dd)) as ->.
    { destruct fuel as [|fuel']; [lia|]. rewrite Ez, (zero_level dd T). apply GetOneCube_const, W. }
    cbn [mbind option_bind]. rewrite (zero_level dd T), (proj2 (ptr_nonzero dd G 0 true)), Z.eqb_refl. cbn [negb].
    pose proof (IH dd (cloudT n) W Ht ltac:(lia)) as IHt. destruct (plain_search fuel dd (cloudT n)); [|by rewrite IHt].
    destruct IHt as (r0 & d1 & -> & U1 & G1 & A). cbn [mbind option_bind].
    destruct A as [[-> N]|(N & W1 & L1 & A)]; [exists 0%Z, d1; split; [done|]; split; [done|]; split; [done|by left]|].
    rewrite (proj2 (Z.eqb_neq _ _) N). rewrite decide_False in A by congruence. destruct A as [A1 [l A2]].
    assert (dd_zero d1 = dd_zero dd) as Ez1 by (pose proof (grow_frame _ _ G1) as F; unfold frame in F; congruence).
    rewrite Ez1, (proj2 (Z.eqb_neq _ _) A1), (HV d1 W1 G1). cbn [negb mbind option_bind].
    destruct (var_lookup dd d1 (Z.to_nat (cloudV n)) W G1 W1 ltac:(lia)) as (x & -> & Lx & Vx). cbn [mbind option_bind].
    apply (cube_literal dd d1 _ _ _ _ r0 l true x T W1 G1 V L1 A2 Lx). intros a. rewrite Vx. by destruct (a _).
  - pose proof (IH dd (cloudE n) W He ltac:(lia)) as IHe. destruct (plain_search fuel dd (cloudE n)); [|by rewrite IHe].
    destruct IHe as (r0 & d1 & -> & U1 & G1 & A). cbn [mbind option_bind].
    destruct A as [[-> N]|(N & W1 & L1 & A)]; [exists 0%Z, d1; split; [done|]; split; [done|]; split; [done|by left]|].
    rewrite (proj2 (Z.eqb_neq _ _) N). rewrite decide_False in A by done. destruct A as [A1 [l A2]].
    assert (dd_zero d1 = dd_zero dd) as Ez1 by (pose proof (grow_frame _ _ G1) as F; unfold frame in F; congruence).
    rewrite Ez1, (proj2 (Z.eqb_neq _ _) A1), (HV d1 W1 G1). cbn [negb mbind option_bind].
    destruct (var_lookup dd d1 (Z.to_nat (cloudV n)) W G1 W1 ltac:(lia)) as (x & -> & Lx & Vx). cbn [mbind option_bind].
    pose proof W1 as [[T1 _] _]. apply (cube_literal dd d1 _ _ _ _ r0 l false (Cloud_Not x) T W1 G1 V L1 A2); [by apply live_not; [apply T1|]|].
    intros a. rewrite cval_not, Vx by done. by destruct (a _).
Qed.

(** The slots reached are those on a path of edges. *)
Definition edge (dd : CloudManager) (i j : nat) : Prop :=
  exists n, node_at dd i = Some n /\ i <> 0 /\ (place dd (cloudT n) = Some j \/ place dd (Cloud_Regular (cloudE n)) = Some j).

Lemma sub_reached dd : table_ok dd -> forall i, is_Some (node_at dd i) -> forall j, j ∈ sub dd (ptr dd i false) <-> rtc (edge dd) i j.
Proof.
  intros T. pose proof (tab_geo dd T) as G. apply (slot_ind dd T (fun i => forall j, j ∈ sub dd (ptr dd i false) <-> rtc (edge dd) i j)).
  - intros j. rewrite (sub_const dd T), elem_of_singleton. split; [by intros ->|]. intros H. inversion H as [|? y ? (n & _ & Hn & _)]; done.
  - intros i n it ct ie ce En Hi Et Ee Lt Le IHt IHe j. rewrite (sub_node dd T i false n it ct ie ce) by done. rewrite !elem_of_union, elem_of_singleton, IHt, IHe.
    destruct (regular_edges dd T i n it ct ie ce En Hi Et Ee) as [Et' Ee']. pose proof Lt as [nt Ht]. pose proof Le as [ne He].
    assert (place dd (cloudT n) = Some it) as Pt by (rewrite Et'; apply ptr_place; by eapply node_at_lt).
    assert (place dd (Cloud_Regular (cloudE n)) = Some ie) as Pe by (rewrite Ee'; apply ptr_place; by eapply node_at_lt).
    split.
    + intros [->|[H|H]]; [done|eapply rtc_l; [|exact H]; exists n; tauto|eapply rtc_l; [|exact H]; exists n; tauto].
    + intros H. inversion H as [|? y ? (m & Em & _ & Hm) Hy]; [by left|right]; subst. rewrite En in Em. injection Em as <-.
      destruct Hm as [Hm|Hm]; [left|right]; [rewrite Pt in Hm|rewrite Pe in Hm]; by injection Hm as ->.
Qed.

(** A variable of a manager of three variables. *)
Lemma three_vars : exists dd p i, Cloud_Init 3 4 4096 = Some dd /\ working dd /\ dd_ppNodes dd = None /\ live dd (dd_one dd) /\ p = ptr dd i false /\
  is_Some (node_at dd i) /\ live dd p.
Proof.
  destruct (Init_working 3 4 4096) as (dd & E & W & Hn & _ & _ & _ & Hpp); [lia|cbn; lia|cbn; lia|lia|done|].
  pose proof W as [[T [_ [Hl _]]] _]. destruct (lookup_lt_is_Some_2 (dd_vars dd) 0) as [p Ep]; [lia|].
  destruct (tab_vars dd T 0 p Ep) as (i & -> & _ & En & _). exists dd, (ptr dd i false), i. do 3 (split; [done|]).
  split; [rewrite (geo_one dd (tab_geo dd T)); by apply level_const|]. split; [done|]. split; [by eexists|by eapply live_ptr].
Qed.

(** * Properties *)

(** C17. In a manager between two calls, [Cloud_DagSize] of a function is the number of the slots that lie on a path from
    its node, [Cloud_SharingSize] the number of those from any of several functions, and [Cloud_DagCollect] lists them,
    each once and after the nodes that it branches into, with the constant first and the function last.  All the marks
    are cleared: the manager is as before, but for the array of the list. *)
Theorem dag_nodes_correct dd i c pn : working dd -> is_Some (node_at dd i) -> Forall (live dd) pn ->
  (forall pp, dd_ppNodes dd = Some pp -> length pp = dd_nNodesLimit dd) ->
  exists (X : gset nat) L pp, (forall j, j ∈ X <-> rtc (edge dd) i j) /\ Cloud_DagSize dd (ptr dd i c) = Some (size X, dd) /\
    Cloud_SharingSize dd pn = Some (size (subs dd pn), dd) /\
    Cloud_DagCollect dd (ptr dd i c) = Some (size X, with_pp dd pp) /\ length pp = dd_nNodesLimit dd /\ take (size X) pp = L /\
    NoDup L /\ (forall q, q ∈ L <-> exists j, q = ptr dd j false /\ j ∈ X) /\
    (forall k j n, L !! k = Some (ptr dd j false) -> node_at dd j = Some n -> j <> 0 -> cloudT n ∈ take k L /\ Cloud_Regular (cloudE n) ∈ take k L) /\
    L !! 0 = Some (dd_one dd) /\ exists L0, L = L0 ++ [ptr dd i false].
Proof.
  intros [[T _] C] Hs Hpn Hpp. assert (live dd (ptr dd i c)) as Hl by (destruct Hs as [n En]; by eapply live_ptr).
  destruct (DagCollect_spec dd (ptr dd i c) T C Hl Hpp) as (L & pp & E & Hlp & Ht & [N1 N2 N3 N4 N5 N6]). rewrite N6 in E, Ht.
  exists (sub dd (ptr dd i c)), L, pp. split; [intros j; rewrite (sub_polarity dd T i c false Hs); by apply sub_reached|].
  split; [by apply DagSize_spec|]. split; [by apply SharingSize_spec|]. do 3 (split; [done|]). do 3 (split; [done|]). split; [done|].
  destruct N5 as [L0 N5]. exists L0. by rewrite N5, (ptr_regular dd (tab_geo dd T)).
Qed.

Lemma dag_nodes_correct_witness :
  (d ← Cloud_Init 3 4 4096; x ← dd_vars d !! 0; y ← dd_vars d !! 1; '(r, d) ← Cloud_bddXor d x y; '(k, d1) ← Cloud_DagCollect d (Cloud_Not r);
   '(m, d) ← Cloud_SharingSize d [x; r; y]; pp ← dd_ppNodes d1; Some (k, m, bool_decide (map cloudV (dd_nodes d1) = map cloudV (dd_nodes d)), ((take k pp).[0] =? dd_one d)%Z, ((take k pp).[2] =? Cloud_Regular r)%Z)) =
    Some (3, 4, true, true, true) /\
  exists dd i, Cloud_Init 3 4 4096 = Some dd /\
  exists (X : gset nat) L pp, (forall j, j ∈ X <-> rtc (edge dd) i j) /\ Cloud_DagSize dd (ptr dd i true) = Some (size X, dd) /\
    Cloud_SharingSize dd [dd_one dd] = Some (size (subs dd [dd_one dd]), dd) /\
    Cloud_DagCollect dd (ptr dd i true) = Some (size X, with_pp dd pp) /\ length pp = dd_nNodesLimit dd /\ take (size X) pp = L /\
    NoDup L /\ (forall q, q ∈ L <-> exists j, q = ptr dd j false /\ j ∈ X) /\
    (forall k j n, L !! k = Some (ptr dd j false) -> node_at dd j = Some n -> j <> 0 -> cloudT n ∈ take k L /\ Cloud_Regular (cloudE n) ∈ take k L) /\
    L !! 0 = Some (dd_one dd) /\ exists L0, L = L0 ++ [ptr dd i false].
Proof.
  split; [vm_compute; reflexivity|]. destruct three_vars as (dd & p & i & E & W & Hpp & L1 & Ei & Hi). exists dd, i. split; [exact E|].
  apply (dag_nodes_correct dd i true [dd_one dd] W).
  - destruct Hi as [Hi _]. exact Hi.
  - constructor; [exact L1|constructor].
  - intros pp H. rewrite Hpp in H. discriminate H.
Defined.

(** C18. [Cloud_Support] and [Cloud_SupportSize] only work for constants: for every other function the array of the support
    is written at the index of a marked variable, which lies outside of it. *)
Theorem support_out_of_bounds dd p : working dd -> live dd p ->
  if bool_decide (Cloud_Regular p = dd_one dd) then Cloud_Support dd p = Some (dd_one dd, dd) /\ Cloud_SupportSize dd p = Some (0%Z, dd)
  else Cloud_Support dd p = None /\ Cloud_SupportSize dd p = None.
Proof.
  intros [[T _] _] Hp. pose proof (tab_geo dd T) as G. destruct (live_in dd p G Hp) as [HA _]. destruct Hp as (i & c & n & -> & En).
  unfold Cloud_Support, Cloud_SupportSize. rewrite HA, (ptr_regular dd G), (geo_one dd G). destruct (decide (i = 0)) as [->|Hi].
  - rewrite bool_decide_true, Support_const by done. cbn [mbind option_bind].
    assert (forall i, (replicate (dd_nVars dd) 0%Z).[i] = 0%Z) as Hz.
    { intros i. rewrite rd_lookup. destruct (replicate _ _ !! i) eqn:E; [|done]. by apply lookup_replicate in E as [-> _]. }
    split.
    + rewrite (for_down_up (dd_nVars dd)). rewrite <- (geo_one dd G). apply (for_up_ind (fun _ s => s = Some (dd_one dd, dd))); [done|].
      intros k s _ ->. cbn [mbind option_bind]. rewrite Hz. by destruct (_ =? 0)%Z.
    + do 2 f_equal. apply (for_up_ind (fun _ s => s = 0%Z)); [done|]. intros k s _ ->. by rewrite Hz.
  - rewrite bool_decide_false by (intros [? _]%(ptr_inj dd G); done). unfold support_of. rewrite (ptr_regular dd G).
    rewrite (Support_rec_fails dd i n) by (done || by rewrite length_replicate). done.
Qed.

Lemma support_out_of_bounds_witness :
  (d ← Cloud_Init 3 4 4096; x ← dd_vars d !! 0; Some (if Cloud_SupportSize d x is Some _ then true else false, if Cloud_SupportSize d (dd_one d) is Some _ then true else false)) =
    Some (false, true) /\
  exists dd p, Cloud_Init 3 4 4096 = Some dd /\
    if bool_decide (Cloud_Regular p = dd_one dd) then Cloud_Support dd p = Some (dd_one dd, dd) /\ Cloud_SupportSize dd p = Some (0%Z, dd)
    else Cloud_Support dd p = None /\ Cloud_SupportSize dd p = None.
Proof.
  split; [vm_compute; reflexivity|]. destruct three_vars as (dd & p & i & E & W & _ & L1 & Ei & Hi & Lp). exists dd, p. split; [exact E|].
  apply (support_out_of_bounds dd p W Lp).
Defined.

(** C19. [Cloud_GetOneCube] answers, for a function that is not the constant 0, a product of literals that is not 0 and
    implies the function, or the null pointer when the limit is reached; unless its search meets a complemented pointer
    to a node that is not constant, whose fields it reads at an odd address. *)
Theorem one_cube_correct dd p : working dd -> live dd p ->
  if plain_search (dag_fuel dd) dd p then
    exists r dd', Cloud_GetOneCube (dag_fuel dd) dd p = Some (r, dd') /\ usable dd' /\
      (r = 0%Z /\ dd_nNodesCur dd' = dd_nNodesLimit dd' \/
       r <> 0%Z /\ working dd' /\ live dd' r /\ (p = dd_zero dd -> r = dd_zero dd) /\
       (p <> dd_zero dd -> exists l, (forall a, cval dd' a r = lits_hold l a) /\ (exists a, lits_hold l a = true) /\
          forall a, lits_hold l a = true -> cval dd a p = true))
  else Cloud_GetOneCube (dag_fuel dd) dd p = None.
Proof.
  intros W Hp. pose proof W as [[T _] _]. pose proof (GetOneCube_spec (dag_fuel dd) dd p W Hp (rank_fuel dd p T Hp)) as H.
  destruct (plain_search _ _ _); [|done]. destruct H as (r & dd' & E & U & _ & R). exists r, dd'. split; [done|]. split; [done|].
  destruct R as [R|(R1 & R2 & R3 & R4)]; [by left|right]. do 3 (split; [done|]). case_decide as Hd; [done|]. split; [done|]. intros _.
  destruct R4 as [_ [l [K1 K2 K3 K4]]]. by exists l.
Qed.

Lemma one_cube_correct_witness :
  (d ← Cloud_Init 3 4 4096; x ← dd_vars d !! 0; y ← dd_vars d !! 1; '(r, d) ← Cloud_bddAnd d x y; '(c, d) ← Cloud_GetOneCube 4 d r;
   Some ((c =? r)%Z, if Cloud_GetOneCube 4 d (Cloud_Not r) is Some _ then true else false)) = Some (true, false) /\
  exists dd p, Cloud_Init 3 4 4096 = Some dd /\
  if plain_search (dag_fuel dd) dd p then
    exists r dd', Cloud_GetOneCube (dag_fuel dd) dd p = Some (r, dd') /\ usable dd' /\
      (r = 0%Z /\ dd_nNodesCur dd' = dd_nNodesLimit dd' \/
       r <> 0%Z /\ working dd' /\ live dd' r /\ (p = dd_zero dd -> r = dd_zero dd) /\
       (p <> dd_zero dd -> exists l, (forall a, cval dd' a r = lits_hold l a) /\ (exists a, lits_hold l a = true) /\
          forall a, lits_hold l a = true -> cval dd a p = true))
  else Cloud_GetOneCube (dag_fuel dd) dd p = None.
Proof.
  split; [vm_compute; reflexivity|]. destruct three_vars as (dd & p & i & E & W & _ & L1 & Ei & Hi & Lp). exists dd, p. split; [exact E|].
  apply (one_cube_correct dd p W Lp).
Defined.
