(* ===== verification/CloudTruth.v ===== *)
(** From truth tables to decision diagrams ([kitCloud.c]): [Kit_TruthToCloud] makes the diagram of a table, with the last
    variable of the table at the top. *)
From S2P Require Import Prelude Words Minterm TruthBasic TruthCof TruthSupp Cube Minato VecInt Isop Cloud CloudInit CloudBdd CloudRun.

(** * The routines *)

Definition uVars : list Z := [0xAAAAAAAA; 0xCCCCCCCC; 0xF0F0F0F0; 0xFF00FF00; 0xFFFF0000]%Z.

(** The two cofactors of a word by a variable. *)
Definition word_cofactors (uTruth : Z) (v : nat) : Z * Z :=
  let uCof0 := uTruth &&& ~~~ uVars.[v] in
  let uCof1 := uTruth &&& uVars.[v] in
  (uCof0 ||| (uCof0 <<< 2 ^ v), uCof1 ||| (uCof1 >>> 2 ^ v)).

Fixpoint Kit_TruthToCloud5_rec (dd : CloudManager) (uTruth : Z) (nVars nVarsAll : nat) : option (Z * CloudManager) :=
  assert! nVars <=? 5 in
  if (uTruth =? 0)%Z then Some (dd_zero dd, dd)
  else if (uTruth =? 0xFFFFFFFF)%Z then Some (dd_one dd, dd)
  else if nVars =? 1 then
    if (uTruth =? uVars.[0])%Z then p ← dd_vars dd !! (nVarsAll - 1); Some (p, dd)
    else if (uTruth =? ~~~ uVars.[0])%Z then p ← dd_vars dd !! (nVarsAll - 1); Some (Cloud_Not p, dd)
    else None
  else
    match nVars with
    | O => None
    | S n =>
      let '(uCof0, uCof1) := word_cofactors uTruth n in
      if (uCof0 =? uCof1)%Z then Kit_TruthToCloud5_rec dd uCof0 n nVarsAll
      else
        '(pCof1, pCof0, dd) ←
          if (uCof0 =? ~~~ uCof1)%Z then
            '(pCof0, dd) ← Kit_TruthToCloud5_rec dd uCof0 n nVarsAll;
            Some (Cloud_Not pCof0, pCof0, dd)
          else
            '(pCof0, dd) ← Kit_TruthToCloud5_rec dd uCof0 n nVarsAll;
            '(pCof1, dd) ← Kit_TruthToCloud5_rec dd uCof1 n nVarsAll;
            Some (pCof1, pCof0, dd);
        Cloud_MakeNode dd (Z.of_nat nVarsAll - Z.of_nat nVars) pCof1 pCof0
    end.

Fixpoint Kit_TruthToCloud_rec (dd : CloudManager) (pTruth : list Z) (nVars nVarsAll : nat) : option (Z * CloudManager) :=
  if nVars <=? 5 then Kit_TruthToCloud5_rec dd pTruth.[0] nVars nVarsAll
  else if Kit_TruthIsConst0 pTruth nVars then Some (dd_zero dd, dd)
  else if Kit_TruthIsConst1 pTruth nVars then Some (dd_one dd, dd)
  else
    match nVars with
    | O => None
    | S n =>
      let pTruth0 := pTruth in
      let pTruth1 := drop (Kit_TruthWordNum n) pTruth in
      if Kit_TruthIsEqual pTruth0 pTruth1 n then Kit_TruthToCloud_rec dd pTruth0 n nVarsAll
      else
        '(pCof1, pCof0, dd) ←
          if Kit_TruthIsOpposite pTruth0 pTruth1 n then
            '(pCof0, dd) ← Kit_TruthToCloud_rec dd pTruth0 n nVarsAll;
            Some (Cloud_Not pCof0, pCof0, dd)
          else
            '(pCof0, dd) ← Kit_TruthToCloud_rec dd pTruth0 n nVarsAll;
            '(pCof1, dd) ← Kit_TruthToCloud_rec dd pTruth1 n nVarsAll;
            Some (pCof1, pCof0, dd);
        Cloud_MakeNode dd (Z.of_nat nVarsAll - Z.of_nat nVars) pCof1 pCof0
    end.

Definition Kit_TruthToCloud (dd : CloudManager) (pTruth : list Z) (nVars : nat) : option (Z * CloudManager) :=
  Kit_TruthToCloud_rec dd pTruth nVars nVars.

(** * Functions of minterms *)

(** The variable [x] of a table of [N] variables is the variable [N - 1 - x] of a diagram. *)
Definition asg (N m : nat) : nat -> bool := fun i => Nat.testbit m (N - 1 - i).

(** The nodes of a function all belong to the first [N] variables. *)
Inductive within (dd : CloudManager) (N : nat) : Z -> Prop :=
  | within_const c : within dd N (ptr dd 0 c)
  | within_node p v t e : branches dd p v t e -> (v < Z.of_nat N)%Z -> within dd N t -> within dd N e -> within dd N p.

Lemma within_grows dd dd' N p : grows dd dd' -> within dd N p -> within dd' N p.
Proof.
  intros Hg. induction 1 as [c|p v t e B Hv _ IHt _ IHe].
  - rewrite <- (grows_ptr dd dd' 0 c Hg). constructor.
  - eapply within_node; [by eapply grows_branches|done..].
Qed.

Lemma within_notcond dd N p c : table_ok dd -> within dd N p -> within dd N (Cloud_NotCond p c).
Proof.
  intros T H. pose proof (tab_geo dd T) as G. revert c. induction H as [b|p v t e B Hv _ IHt _ IHe]; intros c.
  - rewrite (ptr_notcond dd G). constructor.
  - apply (within_node dd N _ v (Cloud_NotCond t c) (Cloud_NotCond e c)); [|done|apply IHt|apply IHe].
    destruct B as (i & b & n & -> & Hi & En & Ev & -> & ->). exists i, (xorb b c), n. rewrite (ptr_notcond dd G). do 4 (split; [done|]).
    unfold Cloud_NotCond. rewrite !Z.lxor_assoc. by destruct b, c.
Qed.

(** [p] is the function [f] of the first [n] variables of a table of [N] variables. *)
Record represents (dd : CloudManager) (N n : nat) (f : nat -> bool) (p : Z) : Prop := {
  rep_live : live dd p;
  rep_level : (Z.of_nat N - Z.of_nat n <= level dd p)%Z;
  rep_within : within dd N p;
  rep_val : forall m, cval dd (asg N m) p = f m }.

(** Some nodes have been made, at most [k]. *)
Record steps (dd dd' : CloudManager) (k : nat) : Prop := {
  sp_table : table_ok dd';
  sp_counted : counted dd';
  sp_grows : grows dd dd';
  sp_caches : caches_of dd' = caches_of dd;
  sp_ppNodes : dd_ppNodes dd' = dd_ppNodes dd;
  sp_cur : dd_nNodesCur dd' <= dd_nNodesCur dd + k }.

Lemma steps_refl dd k : table_ok dd -> counted dd -> steps dd dd k.
Proof. intros T C. split; try done. lia. Qed.

Lemma steps_trans dd d1 d2 a b : steps dd d1 a -> steps d1 d2 b -> steps dd d2 (a + b).
Proof. intros [_ _ G1 C1 P1 N1] [T2 K2 G2 C2 P2 N2]. split; [done|done|by etransitivity|congruence|congruence|lia]. Qed.

Lemma steps_mono dd dd' a b : steps dd dd' a -> a <= b -> steps dd dd' b.
Proof. intros [] H. split; try done. lia. Qed.

Lemma steps_nVars dd dd' k : steps dd dd' k -> dd_nVars dd' = dd_nVars dd /\ dd_nNodesLimit dd' = dd_nNodesLimit dd /\ dd_vars dd' = dd_vars dd /\ dd_nSignCur dd' = dd_nSignCur dd.
Proof. intros S. pose proof (grow_frame _ _ (sp_grows _ _ _ S)) as F. by same_frame F. Qed.

Lemma represents_grows dd dd' N n f p : table_ok dd -> table_ok dd' -> grows dd dd' -> represents dd N n f p -> represents dd' N n f p.
Proof.
  intros T T' Hg [H1 H2 H3 H4]. split; [by eapply grows_live| |by eapply within_grows|].
  - by rewrite (grows_level dd dd') by (done || apply T || apply T').
  - intros m. by rewrite (grows_cval dd dd').
Qed.

Lemma represents_ext dd N n f g p : (forall m, f m = g m) -> represents dd N n f p -> represents dd N n g p.
Proof. intros H [H1 H2 H3 H4]. split; [done..|]. intros m. by rewrite H4. Qed.

Lemma represents_mono dd N n n' f p : n <= n' -> represents dd N n f p -> represents dd N n' f p.
Proof. intros H [H1 H2 H3 H4]. split; [done|lia|done|done]. Qed.

Lemma represents_const dd N n c f : table_ok dd -> N <= dd_nVars dd -> (forall m, f m = negb c) -> represents dd N n f (ptr dd 0 c).
Proof.
  intros T HN Hf. destruct (level_const dd c T) as [E L]. pose proof (geo_vars dd (tab_geo dd T)).
  split; [done|rewrite E; unfold CLOUD_CONST_INDEX; lia|constructor|intros m; by rewrite cval_const, Hf].
Qed.

Lemma represents_not dd N n f p : table_ok dd -> represents dd N n f p -> represents dd N n (fun m => negb (f m)) (Cloud_Not p).
Proof.
  intros T [H1 H2 H3 H4]. destruct (live_not dd p (tab_geo dd T) H1) as [L E]. split; [done|by rewrite E|by apply (within_notcond dd N p true)|].
  intros m. by rewrite cval_not, H4.
Qed.

(** The variable of the last position of a table of one variable. *)
Lemma represents_var dd N p : table_ok dd -> 0 < N -> dd_vars dd !! (N - 1) = Some p -> represents dd N 1 (fun m => Nat.testbit m 0) p.
Proof.
  intros T HN E. destruct (var_cval dd (N - 1) p T E) as [L V]. destruct (tab_vars dd T (N - 1) p E) as (i & -> & Hi & En & _).
  assert (branches dd (ptr dd i false) (Z.of_nat (N - 1)) (dd_one dd) (dd_zero dd)) as B.
  { eexists i, false, _. do 3 (split; [done|]). cbn [cloudV cloudT cloudE]. by rewrite !notcond_false. }
  split; [done| | |].
  - rewrite (nv_level _ _ _ _ _ (branches_view _ _ _ _ _ T B)). lia.
  - eapply within_node; [exact B|lia|rewrite (geo_one dd (tab_geo dd T)); constructor|rewrite (geo_zero dd (tab_geo dd T)); constructor].
  - intros m. rewrite V. unfold asg. by replace (N - 1 - (N - 1)) with 0 by lia.
Qed.

(** Joining the functions of the two cofactors. *)
Lemma represents_join dd N n f p0 p1 : table_ok dd -> counted dd -> n < N -> N <= dd_nVars dd -> S (dd_nNodesCur dd) < dd_nNodesLimit dd ->
  represents dd N n (cof n false f) p0 -> represents dd N n (cof n true f) p1 -> (exists m, cof n false f m <> cof n true f m) ->
  exists p dd', Cloud_MakeNode dd (Z.of_nat N - Z.of_nat (S n)) p1 p0 = Some (p, dd') /\ steps dd dd' 1 /\ represents dd' N (S n) f p.
Proof.
  intros T C Hn HN Hroom [L0 V0 W0 E0] [L1 V1 W1 E1] [m Hm].
  destruct (MakeNode_spec dd (Z.of_nat N - Z.of_nat (S n)) p1 p0 T C) as (p & dd' & E & H); [lia|done|done| |lia|lia|].
  { intros ->. apply Hm. by rewrite <- E0, <- E1. }
  exists p, dd'. split; [done|]. destruct H as [[_ [H _]]|(Hp & [T' C' Hg Hca Hpp Hcur] & B)]; [lia|].
  pose proof (branches_view _ _ _ _ _ T' B) as V. split; [split; try done; lia|]. split.
  - by eapply branches_live.
  - rewrite (nv_level _ _ _ _ _ V). lia.
  - eapply within_node; [exact B|lia|by eapply within_grows..].
  - intros a. rewrite (cval_branch _ _ _ _ _ _ T' V), !(grows_cval dd dd'), E0, E1 by done. unfold asg at 1.
    replace (N - 1 - Z.to_nat (Z.of_nat N - Z.of_nat (S n))) with n by lia. rewrite <- (cof_id n f a). by destruct (Nat.testbit a n).
Qed.

(** The nodes that a function of [n] variables may need. *)
Definition new_nodes (n : nat) : nat := 2 ^ (n - 1) - 1.
Lemma new_nodes_S n : 0 < n -> new_nodes (S n) = new_nodes n + new_nodes n + 1.
Proof.
  intros Hn. unfold new_nodes. replace (S n - 1) with (S (n - 1)) by lia. cbn [Nat.pow]. pose proof (Nat.pow_nonzero 2 (n - 1)). lia.
Qed.

(** A table whose diagram can be made. *)
Record room (dd : CloudManager) (N n : nat) : Prop := {
  rm_table : table_ok dd;
  rm_counted : counted dd;
  rm_vars : length (dd_vars dd) = dd_nVars dd;
  rm_N : N <= dd_nVars dd;
  rm_n : n <= N;
  rm_cur : dd_nNodesCur dd + new_nodes n < dd_nNodesLimit dd }.

Lemma room_after dd dd' N n k n' : room dd N n -> steps dd dd' k -> k + new_nodes n' <= new_nodes n -> n' <= n -> room dd' N n'.
Proof.
  intros [R1 R2 R3 R4 R5 R6] S Hk Hn. destruct (steps_nVars _ _ _ S) as (E1 & E2 & E3 & E4). pose proof (sp_cur _ _ _ S).
  split; [apply S|apply S|by rewrite E1, E3|lia|lia|lia].
Qed.

(** What the recursions promise for the function [f] at a call. *)
Definition makes (dd : CloudManager) (N n : nat) (f : nat -> bool) (o : option (Z * CloudManager)) : Prop :=
  exists p dd', o = Some (p, dd') /\ steps dd dd' (new_nodes n) /\ represents dd' N n f p.

(** The step that both recursions share. *)
Lemma makes_step dd N n f g (same opposite : bool) o0 (o1 : CloudManager -> option (Z * CloudManager)) : 0 < n -> room dd N (S n) ->
  (if same then forall m, cof n false f m = cof n true f m else exists m, cof n false f m <> cof n true f m) ->
  (opposite = true -> forall m, cof n false f m = negb (cof n true f m)) ->
  (forall m, f m = g m) ->
  (room dd N n -> makes dd N n (cof n false f) o0) ->
  (forall d, room d N n -> makes d N n (cof n true f) (o1 d)) ->
  makes dd N (S n) g (
    if same then o0
    else
      '(pCof1, pCof0, dd) ←
        if opposite then '(pCof0, dd) ← o0; Some (Cloud_Not pCof0, pCof0, dd)
        else '(pCof0, dd) ← o0; '(pCof1, dd) ← o1 dd; Some (pCof1, pCof0, dd);
      Cloud_MakeNode dd (Z.of_nat N - Z.of_nat (S n)) pCof1 pCof0).
Proof.
  intros Hn R Hs Ho Hg H0 H1. pose proof (new_nodes_S n Hn) as Hnn. pose proof R as [R1 R2 R3 R4 R5 R6].
  assert (room dd N n) as R' by (apply (room_after dd dd N (S n) 0 n R); [by apply steps_refl|lia|lia]).
  destruct (H0 R') as (p0 & d0 & -> & S0 & Rep0). destruct same.
  - exists p0, d0. split; [done|]. split; [eapply steps_mono; [exact S0|lia]|]. apply (represents_mono _ _ n); [lia|].
    eapply represents_ext; [|exact Rep0]. intros m. rewrite <- Hg, <- (cof_id n f m). pose proof (Hs m). by destruct (Nat.testbit m n).
  - assert (exists p1 d1, (if opposite then '(pCof0, dd) ← Some (p0, d0); Some (Cloud_Not pCof0, pCof0, dd)
        else '(pCof0, dd) ← Some (p0, d0); '(pCof1, dd) ← o1 dd; Some (pCof1, pCof0, dd)) = Some (p1, p0, d1) /\
      steps d0 d1 (new_nodes n) /\ represents d1 N n (cof n true f) p1) as (p1 & d1 & -> & S1 & Rep1).
    { destruct opposite; cbn [mbind option_bind].
      - exists (Cloud_Not p0), d0. split; [done|]. split; [apply steps_refl; apply S0|]. eapply represents_ext; [|by apply represents_not; [apply S0|exact Rep0]].
        intros m. cbv beta. by rewrite Ho, negb_involutive.
      - destruct (H1 d0) as (p1 & d1 & -> & S1 & Rep1); [by apply (room_after dd d0 N (S n) (new_nodes n) n R S0); lia|]. cbn [mbind option_bind]. by exists p1, d1. }
    cbn [mbind option_bind]. destruct (steps_nVars _ _ _ S0) as (A1 & A2 & _). destruct (steps_nVars _ _ _ S1) as (B1 & B2 & _).
    pose proof (sp_cur _ _ _ S0). pose proof (sp_cur _ _ _ S1).
    destruct (represents_join d1 N n f p0 p1) as (p & d2 & -> & S2 & Rep2); try apply S1; try lia; try done.
    { apply (represents_grows d0 d1); [apply S0|apply S1|apply S1|done]. }
    exists p, d2. split; [done|]. split; [|by eapply represents_ext].
    rewrite Hnn. eapply steps_trans; [eapply steps_trans; [exact S0|exact S1]|exact S2].
Qed.

(** * One word *)

Lemma word_cofactors_spec w v : v < 5 -> is_word w -> let '(c0, c1) := word_cofactors w v in
  is_word c0 /\ is_word c1 /\ (forall m, wfun c0 m = cof v false (wfun w) m) /\ (forall m, wfun c1 m = cof v true (wfun w) m).
Proof.
  intros Hv Hw. assert (word_cofactors w v = ((Kit_TruthCofactor0 [w] (v + 1) v).[0], (Kit_TruthCofactor1 [w] (v + 1) v).[0])) as ->.
  { do 5 (destruct v as [|v]; [reflexivity|]). lia. }
  split; [by apply word_Cofactor0|]. split; [by apply word_Cofactor1|]. split; intros m; [by apply wfun_Cofactor0|by apply wfun_Cofactor1].
Qed.

Lemma word_differ x y : is_word x -> is_word y -> x <> y -> exists m, wfun x m <> wfun y m.
Proof.
  intros Hx Hy Hne. destruct (exists_up 32 (fun m => xorb (wfun x m) (wfun y m))) eqn:E.
  - apply exists_up_true in E as (m & _ & Hm). exists m. by destruct (wfun x m), (wfun y m).
  - contradict Hne. apply wfun_ext; [done..|]. intros m. rewrite <- (wfun_mod x), <- (wfun_mod y).
    pose proof (proj1 (exists_up_false _ _) E (m mod 32) (mod32 m)) as H. cbv beta in H. by destruct (wfun x _), (wfun y _).
Qed.

(** A word of one variable is a constant, the variable or its complement. *)
Lemma one_variable w : is_word w -> depends_below 1 (wfun w) -> w <> 0%Z -> w <> 0xFFFFFFFF%Z -> w = 0xAAAAAAAA%Z \/ w = 0x55555555%Z.
Proof.
  intros Hw Hd H0 H1. assert (forall m, wfun w m = if Nat.testbit m 0 then wfun w 1 else wfun w 0) as Hf.
  { intros m. destruct (Nat.testbit m 0) eqn:E; apply Hd; intros i Hi; replace i with 0 by lia; by rewrite E. }
  assert (is_word 0xAAAAAAAA%Z) as HA by (unfold is_word; lia). assert (is_word 0x55555555%Z) as H5 by (unfold is_word; lia).
  pose proof (fun m => wfun_uMasks 0 m ltac:(lia)) as Hm. change uMasks.[0] with 0xAAAAAAAA%Z in Hm.
  destruct (wfun w 0) eqn:E0, (wfun w 1) eqn:E1.
  - destruct H1. apply wfun_ext; auto with words. intros m. rewrite Hf, wfun_ones. by destruct (Nat.testbit m 0).
  - right. apply wfun_ext; auto. intros m. rewrite Hf. change 0x55555555%Z with (~~~ 0xAAAAAAAA)%Z. rewrite wfun_wnot, Hm. by destruct (Nat.testbit m 0).
  - left. apply wfun_ext; auto. intros m. rewrite Hf, Hm. by destruct (Nat.testbit m 0).
  - destruct H0. apply wfun_ext; auto with words. intros m. rewrite Hf, wfun_0. by destruct (Nat.testbit m 0).
Qed.

Lemma TruthToCloud5_spec N : forall n dd w, n <= 5 -> is_word w -> depends_below n (wfun w) -> room dd N n ->
  makes dd N n (wfun w) (Kit_TruthToCloud5_rec dd w n N).
Proof.
  induction n as [|n IH]; intros dd w H5 Hw Hd R; pose proof R as [T C Hv HN Hn Hc]; unfold Kit_TruthToCloud5_rec; fold Kit_TruthToCloud5_rec;
    rewrite (proj2 (Nat.leb_le _ _) H5).
  - destruct (Z.eqb_spec w 0) as [->|H0]; [|destruct (Z.eqb_spec w 0xFFFFFFFF) as [->|H1]].
    + exists (dd_zero dd), dd. rewrite (geo_zero dd (tab_geo dd T)). split; [done|]. split; [by apply steps_refl|]. by apply represents_const; [..|apply wfun_0].
    + exists (dd_one dd), dd. rewrite (geo_one dd (tab_geo dd T)). split; [done|]. split; [by apply steps_refl|]. by apply represents_const; [..|apply wfun_ones].
    + destruct (one_variable w Hw (depends_mono 0 1 _ ltac:(lia) Hd) H0 H1) as [-> | ->]; exfalso.
      * by pose proof (Hd 0 1 ltac:(lia)) as E.
      * by pose proof (Hd 0 1 ltac:(lia)) as E.
  - destruct (Z.eqb_spec w 0) as [->|H0]; [|destruct (Z.eqb_spec w 0xFFFFFFFF) as [->|H1]].
    + exists (dd_zero dd), dd. rewrite (geo_zero dd (tab_geo dd T)). split; [done|]. split; [by apply steps_refl|]. by apply represents_const; [..|apply wfun_0].
    + exists (dd_one dd), dd. rewrite (geo_one dd (tab_geo dd T)). split; [done|]. split; [by apply steps_refl|]. by apply represents_const; [..|apply wfun_ones].
    + destruct (Nat.eqb_spec (S n) 1) as [En|En].
      * assert (n = 0) as -> by lia. destruct (lookup_lt_is_Some_2 (dd_vars dd) (N - 1)) as [p Ep]; [lia|]. rewrite Ep. cbn [mbind option_bind].
        pose proof (represents_var dd N p T ltac:(lia) Ep) as Rep. pose proof (fun m => wfun_uMasks 0 m ltac:(lia)) as Hm. change uMasks.[0] with 0xAAAAAAAA%Z in Hm.
        destruct (one_variable w Hw Hd H0 H1) as [-> | ->].
        -- exists p, dd. split; [done|]. split; [by apply steps_refl|]. eapply represents_ext; [|exact Rep]. intros m. by rewrite Hm.
        -- exists (Cloud_Not p), dd. split; [done|]. split; [by apply steps_refl|]. eapply represents_ext; [|by apply represents_not; [|exact Rep]].
           intros m. cbv beta. change 0x55555555%Z with (~~~ 0xAAAAAAAA)%Z. by rewrite wfun_wnot, Hm.
      * pose proof (word_cofactors_spec w n ltac:(lia) Hw) as Hcf. destruct (word_cofactors w n) as [c0 c1]. destruct Hcf as (W0 & W1 & F0 & F1).
        apply (makes_step dd N n (wfun w) (wfun w) (c0 =? c1)%Z (c0 =? ~~~ c1)%Z _ (fun dd => Kit_TruthToCloud5_rec dd c1 n N)); [lia|done| | |done| |].
        -- destruct (Z.eqb_spec c0 c1) as [->|Hne]; [intros m; by rewrite <- F0, <- F1|]. destruct (word_differ c0 c1 W0 W1 Hne) as [m Hm]. exists m. by rewrite <- F0, <- F1.
        -- intros E%Z.eqb_eq m. by rewrite <- F0, <- F1, E, wfun_wnot.
        -- intros R'. destruct (IH dd c0) as (p & d & E & S & Rep); [lia|done| |done|exists p, d; split; [done|split; [done|by eapply represents_ext]]].
           intros m m' Hmm. rewrite !F0. by apply (depends_cof n false _ Hd).
        -- intros d R'. destruct (IH d c1) as (p & d' & E & S & Rep); [lia|done| |done|exists p, d'; split; [done|split; [done|by eapply represents_ext]]].
           intros m m' Hmm. rewrite !F1. by apply (depends_cof n true _ Hd).
Qed.

(** * Many words *)

Lemma IsEqual_differ n a b : is_tt n a -> is_tt n b -> if Kit_TruthIsEqual a b n then forall m, tfun n a m = tfun n b m else exists m, tfun n a m <> tfun n b m.
Proof.
  intros Ha Hb. destruct (Kit_TruthIsEqual a b n) eqn:E.
  - intros m. by apply (proj1 (IsEqual_spec n a b Ha Hb) E), mod_nmint.
  - destruct (exists_up (nmint n) (fun m => xorb (tbit a m) (tbit b m))) eqn:Ex.
    + apply exists_up_true in Ex as (m & Hm & Hx). exists m. rewrite !tfun_small by done. by destruct (tbit a m), (tbit b m).
    + rewrite (proj2 (IsEqual_spec n a b Ha Hb)) in E; [done|]. intros m Hm. pose proof (proj1 (exists_up_false _ _) Ex m Hm) as H. cbv beta in H.
      by destruct (tbit a m), (tbit b m).
Qed.

Lemma tfun_opposite n a b : is_tt n a -> is_tt n b -> Kit_TruthIsOpposite a b n = true -> forall m, tfun n a m = negb (tfun n b m).
Proof. intros Ha Hb E m. by apply (proj1 (IsOpposite_spec n a b Ha Hb) E), mod_nmint. Qed.

Lemma tfun_head n t m : n <= 5 -> tfun n t m = wfun t.[0] m.
Proof. intros Hn. unfold tfun. by rewrite nmint_5, wfun_at0. Qed.

Lemma makes_ext dd N n f g o : (forall m, f m = g m) -> makes dd N n f o -> makes dd N n g o.
Proof. intros H (p & d & E & S & R). exists p, d. split; [done|]. split; [done|]. by eapply represents_ext. Qed.

Lemma TruthToCloud_rec_spec N : forall n dd t, is_tt n t -> depends_below n (tfun n t) -> room dd N n ->
  makes dd N n (tfun n t) (Kit_TruthToCloud_rec dd t n N).
Proof.
  induction n as [|n IH]; intros dd t Ht Hd R; pose proof R as [T C Hv HN Hn Hc]; unfold Kit_TruthToCloud_rec; fold Kit_TruthToCloud_rec.
  - cbn [Nat.leb]. eapply makes_ext; [intros m; symmetry; by apply tfun_head; lia|]. apply TruthToCloud5_spec; [lia|apply word_rd, Ht| |done].
    eapply depends_ext; [|exact Hd]. intros m. apply tfun_head. lia.
  - destruct (Nat.leb_spec (S n) 5) as [H5|H5].
    + eapply makes_ext; [intros m; symmetry; by apply tfun_head; lia|]. apply TruthToCloud5_spec; [lia|apply word_rd, Ht| |done].
      eapply depends_ext; [|exact Hd]. intros m. by apply tfun_head.
    + destruct (Kit_TruthIsConst0 t (S n)) eqn:E0; [|destruct (Kit_TruthIsConst1 t (S n)) eqn:E1].
      * exists (dd_zero dd), dd. rewrite (geo_zero dd (tab_geo dd T)). split; [done|]. split; [by apply steps_refl|]. apply represents_const; [done..|].
        intros m. by apply tfun_const0.
      * exists (dd_one dd), dd. rewrite (geo_one dd (tab_geo dd T)). split; [done|]. split; [by apply steps_refl|]. apply represents_const; [done..|].
        intros m. by apply tfun_const1.
      * cbv zeta. assert (5 <= n) as Hn5 by lia. pose proof (is_tt_half0 n (S n) t Hn5 ltac:(lia) Ht) as Ht0. pose proof (is_tt_half1 n (S n) t Hn5 ltac:(lia) Ht) as Ht1.
        pose proof (fun m => tfun_half0 n (S n) t m Hn5 ltac:(lia) Hd) as F0. pose proof (fun m => tfun_half1 n (S n) t m Hn5 ltac:(lia) Hd) as F1.
        apply (makes_step dd N n (tfun (S n) t) (tfun (S n) t) (Kit_TruthIsEqual t (drop (Kit_TruthWordNum n) t) n) (Kit_TruthIsOpposite t (drop (Kit_TruthWordNum n) t) n)
          _ (fun dd => Kit_TruthToCloud_rec dd (drop (Kit_TruthWordNum n) t) n N)); [lia|done| | |done| |].
        -- pose proof (IsEqual_differ n t _ Ht0 Ht1) as H. destruct (Kit_TruthIsEqual _ _ _); [intros m; by rewrite <- F0, <- F1|].
           destruct H as [m Hm]. exists m. by rewrite <- F0, <- F1.
        -- intros E m. rewrite <- F0, <- F1. by apply tfun_opposite.
        -- intros R'. eapply makes_ext; [exact F0|]. apply IH; [done|by apply depends_tfun5|done].
        -- intros d R'. eapply makes_ext; [exact F1|]. apply IH; [done|by apply depends_tfun5|done].
Qed.

(** A manager in use has room for a table when its diagram stays below the limit. *)
Lemma working_room dd n : working dd -> n <= dd_nVars dd -> dd_nNodesCur dd + 2 ^ (n - 1) <= dd_nNodesLimit dd -> room dd n n.
Proof.
  intros [(T & C & Hl & Hr) K] Hn Hc. pose proof (Nat.pow_nonzero 2 (n - 1)). split; try done. unfold new_nodes. lia.
Qed.

Lemma steps_working dd dd' k : working dd -> steps dd dd' k -> working dd'.
Proof.
  intros [U K] [T' C' Hg Hca Hpp Hcur]. split; [|done]. apply (usable_grows dd); [done|done|apply (cache_ok_grows dd); [apply U|done|done|done|apply U]|done].
Qed.

(** * Properties *)

(** C13. [Kit_TruthToCloud] for a table of a manager that has room for [2 ^ (n - 1)] more nodes passes its assertions and
    answers the diagram of the table: its value, with the last variable of the table at the top, is the bit of the table;
    and it is the same diagram as that of any other pointer with these values.  All pointers keep their functions. *)
Theorem truth_to_cloud_correct dd n pTruth : working dd -> n <= dd_nVars dd -> is_tt n pTruth -> depends_below n (tfun n pTruth) ->
  dd_nNodesCur dd + 2 ^ (n - 1) <= dd_nNodesLimit dd ->
  exists p dd', Kit_TruthToCloud dd pTruth n = Some (p, dd') /\ working dd' /\ dd_nNodesCur dd' < dd_nNodesCur dd + 2 ^ (n - 1) /\ live dd' p /\
    (forall m, m < 2 ^ n -> cval dd' (fun i => Nat.testbit m (n - 1 - i)) p = tbit pTruth m) /\
    (forall q, live dd' q -> (forall a, cval dd' a q = cval dd' a p) -> q = p) /\
    (forall a q, live dd q -> live dd' q /\ cval dd' a q = cval dd a q).
Proof.
  intros W Hn Ht Hd Hc. pose proof W as [(T & _) _]. destruct (TruthToCloud_rec_spec n n dd pTruth Ht Hd (working_room dd n W Hn Hc)) as (p & dd' & E & S & R).
  exists p, dd'. split; [done|]. pose proof (steps_working _ _ _ W S) as W'. split; [done|].
  split; [pose proof (sp_cur _ _ _ S); unfold new_nodes in *; pose proof (Nat.pow_nonzero 2 (n - 1)); lia|]. split; [apply R|]. split; [|split].
  - intros m Hm. fold (asg n m). rewrite (rep_val _ _ _ _ _ R). apply tfun_small. unfold nmint. eapply Nat.lt_le_trans; [exact Hm|]. apply Nat.pow_le_mono_r; lia.
  - intros q Hq Heq. apply (canonical dd'); [apply S|done|apply R|done].
  - intros a q Hq. destruct S as [T' _ Hg _ _ _]. split; [by eapply grows_live|by rewrite (grows_cval dd dd')].
Qed.

Lemma truth_to_cloud_correct_witness :
  (d ← Cloud_Init 3 4 4096; '(p, d) ← Kit_TruthToCloud d [0xCACACACA]%Z 3;
   Some (map (fun m => cval d (fun i => Nat.testbit m (2 - i)) p) (seq 0 8), dd_nNodesCur d)) =
     Some ([false; true; false; true; false; false; true; true], 5) /\
  exists dd p dd', Cloud_Init 3 4 4096 = Some dd /\ Kit_TruthToCloud dd [0xCACACACA]%Z 3 = Some (p, dd') /\ working dd' /\
    dd_nNodesCur dd' < dd_nNodesCur dd + 2 ^ (3 - 1) /\ live dd' p /\
    (forall m, m < 2 ^ 3 -> cval dd' (fun i => Nat.testbit m (3 - 1 - i)) p = tbit [0xCACACACA]%Z m) /\
    (forall q, live dd' q -> (forall a, cval dd' a q = cval dd' a p) -> q = p) /\
    (forall a q, live dd q -> live dd' q /\ cval dd' a q = cval dd a q).
Proof.
  split; [vm_compute; reflexivity|]. destruct (Init_working 3 4 4096) as (dd & E & W & Hn & _ & Hc & Hl & _); [lia|cbn; lia|cbn; lia|lia|reflexivity|].
  exists dd. destruct (truth_to_cloud_correct dd 3 [0xCACACACA]%Z W) as (p & dd' & H).
  - rewrite Hn. lia.
  - apply is_tt_word; [lia|]. unfold is_word. lia.
  - apply (depends_fewer 3 5); [lia|exact (tfun_depends 3 _)|]. intros v m Hv. apply (tfun_vacuous 5); [lia|repeat constructor; unfold is_word; lia|].
    do 3 (destruct v as [|v]; [lia|]). do 2 (destruct v as [|v]; [reflexivity|]). lia.
  - rewrite Hc, Hl. cbn. lia.
  - exists p, dd'. split; [exact E|exact H].
Defined.
