(* ===== verification/KitCloud.v ===== *)
(** Decision diagrams as arrays of integers ([kitCloud.c]): [Kit_CreateCloud] writes the nodes of a diagram into a vector,
    [Kit_CloudToTruth] makes the truth table of such an array, and [Kit_TruthCompose] the composition of a table with
    other tables.

    The nodes are numbered in the order of [Cloud_DagCollect] through their signatures, which are written back at the
    end.  An entry packs the bit fields of [Kit_Mux_t] from the least significant bit on.  The store of tables is a list
    of separate tables.  The local [Mux] has no value before the first entry is read, so that a diagram without entries
    after the first one, which a constant has, gives [None] where [Mux.i] is read. *)
From stdpp Require Import gmap sets.
From S2P Require Import Prelude Words Minterm TruthBasic TruthCof TruthSupp Cube Minato VecInt VecArray Isop Cloud CloudInit CloudBdd CloudRun CloudDag CloudTruth.

(** * The routines *)

Record Kit_Mux_t := mkMux { mux_v : Z; mux_t : Z; mux_e : Z; mux_c : Z; mux_i : Z }.

(** The union of the bit fields with an [int]. *)
Definition Kit_Mux2Int (m : Kit_Mux_t) : Z :=
  let u := (mux_v m + mux_t m * 2 ^ 6 + mux_e m * 2 ^ 18 + mux_c m * 2 ^ 30 + mux_i m * 2 ^ 31)%Z in
  if (u <? 2 ^ 31)%Z then u else (u - 2 ^ 32)%Z.
Definition Kit_Int2Mux (m : Z) : Kit_Mux_t :=
  let u := (m mod 2 ^ 32)%Z in
  mkMux (u mod 2 ^ 6) (u / 2 ^ 6 mod 2 ^ 12) (u / 2 ^ 18 mod 2 ^ 12) (u / 2 ^ 30 mod 2) (u / 2 ^ 31).

(** [p->s = ...]. *)
Definition with_s (n : CloudNode) (s : Z) : CloudNode := mkCloudNode s (cloudV n) (cloudE n) (cloudT n).
Definition set_sign (dd : CloudManager) (p s : Z) : option CloudManager := set_node dd p (fun n => with_s n s).

(** One node of the array: its number is stored and its entry made. *)
Definition cloud_mux (dd : CloudManager) (pFunc : Z) (nNodes i : nat) (p : Z) : option (Kit_Mux_t * CloudManager) :=
  dd ← set_sign dd p (Z.of_nat i);
  x ← node_of dd p;
  t ← node_of dd (cloudT x);
  e ← node_of dd (Cloud_Regular (cloudE x));
  Some (mkMux (cloudV x mod 2 ^ 6) (cloudS t mod 2 ^ 12) (cloudS e mod 2 ^ 12) (Z.b2z (Cloud_IsComplement (cloudE x)))
    (if i =? nNodes - 1 then Z.b2z (Cloud_IsComplement pFunc) else 0%Z), dd).

Definition Kit_CreateCloud (dd : CloudManager) (pFunc : Z) (vNodes : Vec_Int_t) : option (bool * CloudManager * Vec_Int_t) :=
  '(nNodes, dd) ← Cloud_DagCollect dd pFunc;
  if (2 ^ 12 <=? Z.of_nat nNodes)%Z then Some (false, dd, vNodes)
  else
    '(nSize, dd) ← Cloud_DagSize dd pFunc;
    assert! nNodes =? nSize in
    assert! nNodes <? dd_nNodesLimit dd in
    let vNodes := Vec_IntPush (Vec_IntClear vNodes) 0 in
    pp ← dd_ppNodes dd;
    p ← pp !! 0;
    dd ← set_sign dd p 0;
    '(dd, vNodes) ← for_range 1 nNodes (fun i s =>
      '(dd, vNodes) ← s;
      p ← pp !! i;
      '(Mux, dd) ← cloud_mux dd pFunc nNodes i p;
      Some (dd, Vec_IntPush vNodes (Kit_Mux2Int Mux))) (Some (dd, vNodes));
    assert! (VecInt.nSize vNodes =? Z.of_nat nNodes)%Z in
    dd ← for_up nNodes (fun i dd => dd ← dd; p ← pp !! i; set_sign dd p (dd_nSignCur dd)) (Some dd);
    Some (true, dd, vNodes).

Definition Kit_CreateCloudFromTruth (dd : CloudManager) (pTruth : list Z) (nVars : nat) (vNodes : Vec_Int_t) :
    option (bool * CloudManager * Vec_Int_t) :=
  dd ← Cloud_Restart dd;
  '(pFunc, dd) ← Kit_TruthToCloud dd pTruth nVars;
  let vNodes := Vec_IntClear vNodes in
  Kit_CreateCloud dd pFunc vNodes.

(** The entries from 1 on, each of which writes its table of the store. *)
Definition store_tables (vNodes : Vec_Int_t) (body : nat -> Kit_Mux_t -> list Z -> list (list Z) -> option (list Z)) (vStore : list (list Z)) : option (list (list Z)) :=
  for_range 1 (vsize vNodes) (fun i s =>
    vStore ← s;
    pThis ← vStore !! i;
    pThis ← body i (Kit_Int2Mux (ent vNodes i)) pThis vStore;
    Some (<[i := pThis]> vStore)) (Some vStore).

(** The last table, complemented when the last entry says so. *)
Definition last_table (vNodes : Vec_Int_t) (nVars : nat) (vStore : list (list Z)) : option (list Z * list (list Z)) :=
  let last := vsize vNodes - 1 in
  assert! 1 <=? last in
  pThis ← vStore !! last;
  let pThis := if (mux_i (Kit_Int2Mux (ent vNodes last)) =? 0)%Z then pThis else Kit_TruthNot pThis pThis nVars in
  Some (pThis, <[last := pThis]> vStore).

Definition Kit_CloudToTruth (vNodes : Vec_Int_t) (nVars : nat) (vStore : list (list Z)) (fInv : bool) : option (list Z * list (list Z)) :=
  assert! (nSize vNodes <=? Z.of_nat (length vStore))%Z in
  pThis ← vStore !! 0;
  let vStore := <[0 := Kit_TruthFill pThis nVars]> vStore in
  vStore ← store_tables vNodes (fun i Mux pThis vStore =>
    assert! (mux_e Mux <? Z.of_nat i)%Z && (mux_t Mux <? Z.of_nat i)%Z && (mux_v Mux <? Z.of_nat nVars)%Z in
    pFan0 ← vStore !! Z.to_nat (mux_e Mux);
    pFan1 ← vStore !! Z.to_nat (mux_t Mux);
    let iVar := if fInv then Z.to_nat (mux_v Mux) else nVars - 1 - Z.to_nat (mux_v Mux) in
    Some (Kit_TruthMuxVarPhase pThis pFan0 pFan1 nVars iVar (negb (mux_c Mux =? 0)%Z))) vStore;
  last_table vNodes nVars vStore.

(** The message of an internal failure is not modelled; the old entries are used then. *)
Definition Kit_TruthCompose (dd : CloudManager) (pTruth : list Z) (nVars : nat) (pInputs : list (list Z)) (nVarsAll : nat)
    (vStore : list (list Z)) (vNodes : Vec_Int_t) : option (list Z * CloudManager * list (list Z) * Vec_Int_t) :=
  dd ← Cloud_Restart dd;
  '(pFunc, dd) ← Kit_TruthToCloud dd pTruth nVars;
  '(_, dd, vNodes) ← Kit_CreateCloud dd pFunc vNodes;
  assert! (nSize vNodes <=? Z.of_nat (length vStore))%Z in
  pThis ← vStore !! 0;
  let vStore := <[0 := Kit_TruthFill pThis nVarsAll]> vStore in
  vStore ← store_tables vNodes (fun i Mux pThis vStore =>
    pFan0 ← vStore !! Z.to_nat (mux_e Mux);
    pFan1 ← vStore !! Z.to_nat (mux_t Mux);
    assert! (mux_v Mux <? Z.of_nat nVars)%Z in
    pInput ← pInputs !! (nVars - 1 - Z.to_nat (mux_v Mux));
    Some (Kit_TruthMuxPhase pThis pFan0 pFan1 pInput nVarsAll (negb (mux_c Mux =? 0)%Z))) vStore;
  '(pThis, vStore) ← last_table vNodes nVarsAll vStore;
  Some (pThis, dd, vStore, vNodes).

(** * Packed entries *)

Definition mux_ok (m : Kit_Mux_t) : Prop :=
  (0 <= mux_v m < 2 ^ 6)%Z /\ (0 <= mux_t m < 2 ^ 12)%Z /\ (0 <= mux_e m < 2 ^ 12)%Z /\ (0 <= mux_c m < 2)%Z /\ (0 <= mux_i m < 2)%Z.

Lemma div_mod_split a b q r : (0 <= r < b)%Z -> a = (b * q + r)%Z -> (a / b = q /\ a mod b = r)%Z.
Proof. intros Hr ->. split; [symmetry; by apply (Z.div_unique_pos _ _ _ r)|symmetry; by apply (Z.mod_unique_pos _ _ q)]. Qed.

Lemma Mux_roundtrip m : mux_ok m -> Kit_Int2Mux (Kit_Mux2Int m) = m.
Proof.
  destruct m as [v t e c i]. intros (Hv & Ht & He & Hc & Hi). cbn [mux_v mux_t mux_e mux_c mux_i] in *.
  change (2 ^ 6)%Z with 64%Z in *. change (2 ^ 12)%Z with 4096%Z in *.
  assert ((Kit_Mux2Int (mkMux v t e c i)) mod 2 ^ 32 = v + t * 2 ^ 6 + e * 2 ^ 18 + c * 2 ^ 30 + i * 2 ^ 31)%Z as E.
  { unfold Kit_Mux2Int. cbn [mux_v mux_t mux_e mux_c mux_i]. destruct (Z.ltb_spec (v + t * 2 ^ 6 + e * 2 ^ 18 + c * 2 ^ 30 + i * 2 ^ 31) (2 ^ 31)) as [H|H].
    - apply Z.mod_small. lia.
    - apply (div_mod_split _ _ (-1)); lia. }
  unfold Kit_Int2Mux. rewrite E. set (u := (v + t * 2 ^ 6 + e * 2 ^ 18 + c * 2 ^ 30 + i * 2 ^ 31)%Z).
  destruct (div_mod_split u (2 ^ 6) (t + 2 ^ 12 * (e + 2 ^ 12 * (c + 2 * i))) v) as [E1 E2]; [lia|subst u; lia|].
  destruct (div_mod_split u (2 ^ 18) (e + 2 ^ 12 * (c + 2 * i)) (v + 2 ^ 6 * t)) as [E3 _]; [lia|subst u; lia|].
  destruct (div_mod_split u (2 ^ 30) (c + 2 * i) (v + 2 ^ 6 * t + 2 ^ 18 * e)) as [E4 _]; [lia|subst u; lia|].
  destruct (div_mod_split u (2 ^ 31) i (v + 2 ^ 6 * t + 2 ^ 18 * e + 2 ^ 30 * c)) as [E5 _]; [lia|subst u; lia|].
  rewrite E1, E2, E3, E4, E5. f_equal.
  - apply (div_mod_split _ _ (e + 2 ^ 12 * (c + 2 * i))); lia.
  - apply (div_mod_split _ _ (c + 2 * i)); lia.
  - apply (div_mod_split _ _ i); lia.
Qed.

Lemma Mux_int m : mux_ok m -> (- 2 ^ 31 <= Kit_Mux2Int m < 2 ^ 31)%Z.
Proof.
  intros (Hv & Ht & He & Hc & Hi). unfold Kit_Mux2Int. change (2 ^ 6)%Z with 64%Z in *. change (2 ^ 12)%Z with 4096%Z in *. destruct (Z.ltb_spec (mux_v m + mux_t m * 64 + mux_e m * 2 ^ 18 + mux_c m * 2 ^ 30 + mux_i m * 2 ^ 31) (2 ^ 31)); lia.
Qed.

(** * Numbers in the signatures *)

Definition renumber (M : gmap nat Z) (i : nat) (n : CloudNode) : CloudNode := match M !! i with Some s => with_s n s | None => n end.
Definition numbered (M : gmap nat Z) (dd : CloudManager) : CloudManager := with_nodes dd (imap (renumber M) (dd_nodes dd)).

Section numbers.
Context (dd : CloudManager) (T : table_ok dd).
Let G := tab_geo dd T.

Lemma numbered_lookup M i n : node_at dd i = Some n -> node_of (numbered M dd) (ptr dd i false) = Some (renumber M i n).
Proof.
  intros E. unfold node_of. change (place (numbered M dd)) with (place dd). rewrite ptr_place by (by eapply node_at_lt).
  cbn [mbind option_bind numbered with_nodes dd_nodes]. by rewrite list_lookup_imap, (proj1 (node_at_lookup _ _ _ E)).
Qed.

Lemma numbered_set M i n s : node_at dd i = Some n -> set_sign (numbered M dd) (ptr dd i false) s = Some (numbered (<[i := s]> M) dd).
Proof.
  intros E. unfold set_sign, set_node. change (place (numbered M dd)) with (place dd). rewrite ptr_place by (by eapply node_at_lt).
  cbn [mbind option_bind numbered with_nodes dd_nodes]. rewrite list_lookup_imap, (proj1 (node_at_lookup _ _ _ E)). cbn [fmap option_fmap option_map mbind option_bind].
  unfold numbered, with_nodes. cbn. do 2 f_equal. apply list_eq. intros j. rewrite list_lookup_insert, !list_lookup_imap, length_imap. unfold renumber.
  pose proof (proj1 (node_at_lookup _ _ _ E)) as El. case_decide as Hd.
  - destruct Hd as [<- _]. rewrite El. cbn. rewrite lookup_insert_eq. by destruct (M !! i).
  - assert (j <> i) by (intros ->; apply Hd; split; [done|]; by apply lookup_lt_Some with n). by rewrite lookup_insert_ne.
Qed.

Lemma numbered_empty : numbered ∅ dd = dd.
Proof.
  unfold numbered. replace (imap (renumber ∅) (dd_nodes dd)) with (dd_nodes dd); [by destruct dd|]. apply list_eq. intros i. rewrite list_lookup_imap.
  unfold renumber. rewrite lookup_empty. by destruct (dd_nodes dd !! i).
Qed.

(** The nodes in use have the signature of the manager. *)
Lemma numbered_back M : (forall i s, M !! i = Some s -> s = dd_nSignCur dd /\ is_Some (node_at dd i)) -> numbered M dd = dd.
Proof.
  intros H. unfold numbered. replace (imap (renumber M) (dd_nodes dd)) with (dd_nodes dd); [by destruct dd|]. apply list_eq. intros i. rewrite list_lookup_imap.
  destruct (dd_nodes dd !! i) as [n|] eqn:E; [|done]. cbn. f_equal. unfold renumber. destruct (M !! i) as [s|] eqn:Em; [|done].
  destruct (H i s Em) as [-> [m Ei]]. destruct (node_at_lookup _ _ _ Ei) as [El Es]. rewrite E in El. injection El as ->. unfold with_s. rewrite <- Es. by destruct m.
Qed.
End numbers.

(** * Making the array *)

Lemma sub_pp fuel dd pp p : sub_rec fuel (with_pp dd pp) p = sub_rec fuel dd p.
Proof.
  revert p. induction fuel as [|fuel IH]; intros p; [done|]. cbn [sub_rec]. change (place (with_pp dd pp)) with (place dd).
  change (dd_nodes (with_pp dd pp)) with (dd_nodes dd). destruct (place dd _) as [i|]; [|done]. destruct (dd_nodes dd !! i) as [n|]; [|done]. by rewrite !IH.
Qed.

Lemma pp_list dd pp p L : node_list dd p L -> node_list (with_pp dd pp) p L.
Proof.
  assert (sub (with_pp dd pp) p = sub dd p) as E by apply sub_pp.
  intros [H1 H2 H3 H4 H5 H6]. split; [done|by rewrite E|done|done|done|by rewrite E].
Qed.

(** The entry of the node at the place [i] of the list [L] of the nodes of [p]. *)
Definition entry_at (dd : CloudManager) (p : Z) (L : list Z) (i : nat) (x : Z) : Prop :=
  exists j n it ie, L !! i = Some (ptr dd j false) /\ j <> 0 /\ node_at dd j = Some n /\ it < i /\ ie < i /\
    L !! it = Some (cloudT n) /\ L !! ie = Some (Cloud_Regular (cloudE n)) /\
    x = Kit_Mux2Int (mkMux (cloudV n mod 2 ^ 6) (Z.of_nat it) (Z.of_nat ie) (Z.b2z (Cloud_IsComplement (cloudE n)))
      (if i =? length L - 1 then Z.b2z (Cloud_IsComplement p) else 0%Z)).
Definition mux_array (dd : CloudManager) (p : Z) (L V : list Z) : Prop :=
  length V = length L /\ forall i, 0 < i < length L -> entry_at dd p L i V.[i].

Section create.
Context (dd : CloudManager) (T : table_ok dd) (p : Z) (L : list Z) (NL : node_list dd p L) (Hp : live dd p) (HL : (Z.of_nat (length L) < 2 ^ 12)%Z).
Let G := tab_geo dd T.

Lemma listed i q : L !! i = Some q -> exists j n, q = ptr dd j false /\ node_at dd j = Some n /\ (j = 0 <-> i = 0).
Proof.
  intros E. assert (q ∈ L) as Hq by by eapply list_elem_of_lookup_2. apply (nl_nodes _ _ _ NL) in Hq as (j & -> & Hj).
  destruct (live_slot dd p T Hp) as (r & c & _ & Hr & _ & Es). rewrite Es in Hj. destruct (sub_spec dd T r Hr j Hj) as ([n En] & _).
  exists j, n. split; [done|]. split; [done|]. pose proof (nl_first _ _ _ NL) as E0. rewrite (geo_one dd G) in E0. split; [intros ->|intros ->].
  - by apply (NoDup_lookup L i 0 _ (nl_nodup _ _ _ NL) E).
  - rewrite E0 in E. injection E as E. by apply (ptr_inj dd G) in E as [-> _].
Qed.

Lemma listed_once i k j b : L !! i = Some (ptr dd j b) -> L !! k = Some (ptr dd j b) -> i = k.
Proof. apply NoDup_lookup, NL. Qed.

(** The numbers of the first [k] nodes. *)
Definition numbers (k : nat) (M : gmap nat Z) : Prop := forall j s, M !! j = Some s <-> exists i, i < k /\ L !! i = Some (ptr dd j false) /\ s = Z.of_nat i.

Lemma numbers_S k M j : numbers k M -> L !! k = Some (ptr dd j false) -> numbers (S k) (<[j := Z.of_nat k]> M).
Proof.
  intros H E j' s. destruct (decide (j = j')) as [<-|Hne].
  - rewrite lookup_insert_eq. split; [intros [= <-]; exists k; split; [lia|done]|]. intros (i & _ & Ei & ->). by rewrite (listed_once i k j false Ei E).
  - rewrite lookup_insert_ne by done. rewrite (H j' s). split; intros (i & Hi & Ei & ->); exists i; split; try done; [lia|].
    destruct (decide (i = k)) as [->|]; [|lia]. rewrite E in Ei. injection Ei as Ei. by apply (ptr_inj dd G) in Ei as [-> _].
Qed.

Lemma numbers_lookup k M i j n : numbers k M -> i < k -> L !! i = Some (ptr dd j false) -> node_at dd j = Some n ->
  node_of (numbered M dd) (ptr dd j false) = Some (with_s n (Z.of_nat i)).
Proof. intros H Hi E En. rewrite (numbered_lookup dd T M j n En). unfold renumber. rewrite (proj2 (H j (Z.of_nat i))); [done|by exists i]. Qed.

(** One step of the numbering. *)
Lemma cloud_mux_spec k M q : numbers k M -> 0 < k -> L !! k = Some q ->
  exists Mux M', cloud_mux (numbered M dd) p (length L) k q = Some (Mux, numbered M' dd) /\ numbers (S k) M' /\ entry_at dd p L k (Kit_Mux2Int Mux).
Proof.
  intros H Hk E. destruct (listed k q E) as (j & n & -> & En & Hj). assert (j <> 0) as Hj0 by lia.
  destruct (nl_order _ _ _ NL k j n E En Hj0) as [Ht He].
  apply list_elem_of_lookup in Ht as (it & Et), He as (ie & Ee). apply lookup_take_Some in Et as [Et Hit], Ee as [Ee Hie].
  destruct (listed it _ Et) as (jt & nt & Ejt & Ent & _), (listed ie _ Ee) as (je & ne & Eje & Ene & _).
  pose proof (numbers_S k M j H E) as H'. unfold cloud_mux. rewrite (numbered_set dd T M j n _ En). cbn [mbind option_bind].
  rewrite (numbers_lookup (S k) _ k j n H' ltac:(lia) E En). cbn [mbind option_bind with_s cloudT cloudE cloudV]. rewrite Ejt, Eje.
  rewrite Ejt in Et. rewrite Eje in Ee.
  rewrite (numbers_lookup (S k) _ it jt nt H' ltac:(lia) Et Ent), (numbers_lookup (S k) _ ie je ne H' ltac:(lia) Ee Ene). cbn [mbind option_bind with_s cloudS].
  eexists _, _. split; [done|]. split; [done|]. exists j, n, it, ie. rewrite Ejt, Eje. do 7 (split; [done|]). apply lookup_lt_Some in E.
  rewrite (Z.mod_small (Z.of_nat it)), (Z.mod_small (Z.of_nat ie)) by lia. done.
Qed.
End create.

Lemma pp_table dd pp : table_ok dd -> table_ok (with_pp dd pp).
Proof. by apply same_table_ok. Qed.

Lemma pp_live dd pp p : live dd p -> live (with_pp dd pp) p.
Proof. done. Qed.

Lemma CreateCloud_spec dd p vNodes : table_ok dd -> counted dd -> live dd p -> (forall pp, dd_ppNodes dd = Some pp -> length pp = dd_nNodesLimit dd) ->
  (0 <= nCap vNodes <= ABC_INT_MAX)%Z ->
  exists L pp, node_list dd p L /\ length L <= dd_nNodesCur dd /\ length pp = dd_nNodesLimit dd /\
    if (2 ^ 12 <=? Z.of_nat (length L))%Z then Kit_CreateCloud dd p vNodes = Some (false, with_pp dd pp, vNodes)
    else exists V v, Kit_CreateCloud dd p vNodes = Some (true, with_pp dd pp, v) /\ vec v V /\ mux_array (with_pp dd pp) p L V.
Proof.
  intros T C Hp Hpp Hv. destruct (DagCollect_spec dd p T C Hp Hpp) as (L & pp & E & Hl & Ht & NL). exists L, pp. split; [done|].
  assert (length L <= dd_nNodesCur dd) as Hcur.
  { apply (collected_length dd T (sub dd p) L C). destruct NL as [H1 H2 H3 _ _ _]. split; [done| |done]. intros q Hq. apply H2 in Hq as (j & -> & Hj).
    exists j. split; [done|]. split; [|done]. destruct (live_slot dd p T Hp) as (r & c & _ & Hr & _ & Es). rewrite Es in Hj. by apply (sub_spec dd T r Hr). }
  split; [done|]. split; [done|]. unfold Kit_CreateCloud. rewrite E. cbn [mbind option_bind].
  destruct (Z.leb_spec (2 ^ 12) (Z.of_nat (length L))) as [Hb|Hb]; [done|].
  set (d := with_pp dd pp). assert (table_ok d) as Td by (by apply pp_table). assert (live d p) as Hpd by done. pose proof (pp_list dd pp p L NL) as NLd. fold d in NLd.
  rewrite (DagSize_spec d p Td Hpd). cbn [mbind option_bind]. rewrite <- (nl_length _ _ _ NLd), Nat.eqb_refl.
  change (dd_nNodesLimit d) with (dd_nNodesLimit dd). rewrite (proj2 (Nat.ltb_lt _ _)) by (destruct C; lia). change (dd_ppNodes d) with (Some pp). cbn [mbind option_bind].
  assert (forall i q, L !! i = Some q -> pp !! i = Some q) as Hat.
  { intros i q Hq. rewrite <- Ht in Hq. by apply lookup_take_Some in Hq as [Hq _]. }
  pose proof (nl_first _ _ _ NLd) as E0. rewrite (Hat 0 _ E0). cbn [mbind option_bind]. pose proof (lookup_lt_Some _ _ _ E0) as HL0.
  destruct (tab_const d Td) as (n0 & En0 & _). rewrite (geo_one d (tab_geo d Td)) in E0 |- *.
  pose proof (numbered_set d Td ∅ 0 n0 0%Z En0) as Eset. rewrite (numbered_empty d Td) in Eset. rewrite Eset. cbn [mbind option_bind].
  assert (vec (Vec_IntPush (Vec_IntClear vNodes) 0) [0%Z]) as V0.
  { apply (Push_vec _ []); [|cbn; unfold ABC_INT_MAX; lia]. split; [done|cbn; lia|cbn; lia|cbn; lia]. }
  assert (exists M v V, for_range 1 (length L) (fun i s => '(dd, vNodes) ← s; p0 ← pp !! i; '(Mux, dd) ← cloud_mux dd p (length L) i p0;
      Some (dd, Vec_IntPush vNodes (Kit_Mux2Int Mux))) (Some (numbered (<[0 := 0%Z]> ∅) d, Vec_IntPush (Vec_IntClear vNodes) 0)) = Some (numbered M d, v) /\
    vec v V /\ length V = length L /\ numbers d L (length L) M /\ forall i, 0 < i < length L -> entry_at d p L i V.[i]) as (M & v & V & -> & Hv' & HV & HM & Hent).
  { apply (for_range_ind (fun k s => exists M v V, s = Some (numbered M d, v) /\ vec v V /\ length V = k /\ numbers d L k M /\ forall i, 0 < i < k -> entry_at d p L i V.[i])); [lia| |].
    - exists (<[0 := 0%Z]> ∅), (Vec_IntPush (Vec_IntClear vNodes) 0), [0%Z]. do 3 (split; [done|]). split; [|lia].
      apply (numbers_S d Td p L NLd 0); [|done]. intros j s. rewrite lookup_empty. split; [done|]. intros (i & Hi & _). lia.
    - intros k s Hk (M & v & V & -> & Hv' & HV & HM & Hent). cbn [mbind option_bind]. destruct (lookup_lt_is_Some_2 L k) as [q Eq]; [lia|].
      rewrite (Hat k q Eq). cbn [mbind option_bind]. destruct (cloud_mux_spec d Td p L NLd Hpd Hb k M q HM ltac:(lia) Eq) as (Mux & M' & -> & HM' & Hx). cbn [mbind option_bind].
      exists M', (Vec_IntPush v (Kit_Mux2Int Mux)), (V ++ [Kit_Mux2Int Mux]). split; [done|]. split; [apply Push_vec; [done|unfold ABC_INT_MAX; lia]|].
      split; [rewrite length_app; cbn; lia|]. split; [done|]. intros i Hi. rewrite rd_app. destruct (Nat.ltb_spec i (length V)) as [H|H]; [apply Hent; lia|].
      replace (i - length V) with 0 by lia. by replace i with k by lia. }
  cbn [mbind option_bind]. rewrite (vec_size _ _ Hv'), HV, Z.eqb_refl.
  assert (exists M', for_up (length L) (fun i dd => dd ← dd; p0 ← pp !! i; set_sign dd p0 (dd_nSignCur dd)) (Some (numbered M d)) = Some (numbered M' d) /\
    forall j s, M' !! j = Some s -> exists i, L !! i = Some (ptr d j false) /\ (i < length L -> s = dd_nSignCur d)) as (M' & -> & HM').
  { apply (for_up_ind (fun k s => exists M', s = Some (numbered M' d) /\ forall j s, M' !! j = Some s -> exists i, L !! i = Some (ptr d j false) /\ (i < k -> s = dd_nSignCur d))).
    - exists M. split; [done|]. intros j s (i & _ & Hi & _)%HM. exists i. split; [done|lia].
    - intros k s Hk (M' & -> & HM'). cbn [mbind option_bind]. destruct (lookup_lt_is_Some_2 L k) as [q Eq]; [lia|]. rewrite (Hat k q Eq). cbn [mbind option_bind].
      destruct (listed d Td p L NLd Hpd k q Eq) as (j & n & -> & En & _). rewrite (numbered_set d Td M' j n _ En). eexists. split; [done|].
      intros j' s. destruct (decide (j = j')) as [<-|Hne]; [rewrite lookup_insert_eq; intros [= <-]; exists k; done|]. rewrite lookup_insert_ne by done.
      intros (i & Ei & Hi)%HM'. exists i. split; [done|]. intros Hik. apply Hi. destruct (decide (i = k)) as [->|]; [|lia]. rewrite Eq in Ei. injection Ei as Ei.
      by apply (ptr_inj d (tab_geo d Td)) in Ei as [-> _]. }
  cbn [mbind option_bind]. rewrite (numbered_back d Td M').
  { exists V, v. done. }
  intros j s (i & Ei & Hs)%HM'. split; [apply Hs; by apply lookup_lt_Some in Ei|]. destruct (listed d Td p L NLd Hpd i _ Ei) as (j' & n & Ej & En & _).
  apply (ptr_inj d (tab_geo d Td)) in Ej as [<- _]. by eexists.
Qed.

(** * Tables of an array *)

(** The variables of the nodes of a function of the first [N] variables. *)
Lemma within_vars dd N q : table_ok dd -> within dd N q -> forall j n, j ∈ sub dd q -> j <> 0 -> node_at dd j = Some n -> (cloudV n < Z.of_nat N)%Z.
Proof.
  intros T. pose proof (tab_geo dd T) as G. induction 1 as [c|q v t e B Hv _ IHt _ IHe]; intros j n Hj Hj0 En.
  - rewrite (sub_const dd T) in Hj. by apply elem_of_singleton in Hj.
  - destruct B as (i & c & m & -> & Hi & Em & Ev & -> & ->).
    destruct (tab_nodes dd T i m Em Hi) as [_ (it & ct & nt & Et & Hnt) (ie & ce & ne & Ee & Hne) _ _ _].
    rewrite (sub_node dd T i c m it ct ie ce) in Hj by (done || by eexists). rewrite Et in IHt. rewrite Ee in IHe. rewrite (ptr_notcond dd G) in IHt, IHe.
    rewrite (sub_polarity dd T it _ false) in IHt by by eexists. rewrite (sub_polarity dd T ie _ false) in IHe by by eexists.
    apply elem_of_union in Hj as [Hj|[Hj|Hj]%elem_of_union]; [|by eapply IHt|by eapply IHe].
    apply elem_of_singleton in Hj as ->. rewrite Em in En. injection En as <-. by rewrite Ev.
Qed.

Section tables.
Context (dd : CloudManager) (T : table_ok dd) (p : Z) (L V : list Z) (NL : node_list dd p L) (Hp : live dd p) (HL : (Z.of_nat (length L) < 2 ^ 12)%Z)
  (arr : mux_array dd p L V) (nVars : nat) (Hvars : nVars <= 64) (Hwithin : within dd nVars p).
(** Tables of [N] variables: minterm [m] of them is the assignment [a m] of the diagram. *)
Context (N : nat) (a : nat -> nat -> bool).
Let G := tab_geo dd T.

Definition table_of (q : Z) (t : list Z) : Prop := Kit_TruthWordNum N <= length t /\ forall m, m < nmint N -> tbit t m = cval dd (a m) q.

(** What the body of the loop does with the fields of an entry. *)
Definition mux_body (body : nat -> Kit_Mux_t -> list Z -> list (list Z) -> option (list Z)) : Prop :=
  forall i v it ie c ii pThis vStore t0 t1, (0 <= v < Z.of_nat nVars)%Z -> it < i -> ie < i -> vStore !! ie = Some t0 -> vStore !! it = Some t1 ->
    Kit_TruthWordNum N <= length pThis ->
    exists t, body i (mkMux v (Z.of_nat it) (Z.of_nat ie) (Z.b2z c) ii) pThis vStore = Some t /\ length t = length pThis /\
      forall m, m < nmint N -> tbit t m = if a m (Z.to_nat v) then tbit t1 m else xorb c (tbit t0 m).

Lemma entry_value i x : 0 < i < length L -> entry_at dd p L i x -> exists q v t e it ie c,
  L !! i = Some q /\ node_view dd q v t (Cloud_NotCond e c) /\ (0 <= v < Z.of_nat nVars)%Z /\ it < i /\ ie < i /\ L !! it = Some t /\ L !! ie = Some e /\
  Kit_Int2Mux x = mkMux v (Z.of_nat it) (Z.of_nat ie) (Z.b2z c) (if i =? length L - 1 then Z.b2z (Cloud_IsComplement p) else 0%Z).
Proof.
  intros Hi (j & n & it & ie & E & Hj & En & Hit & Hie & Et & Ee & ->). pose proof (node_view_of dd T j false n En Hj) as W. rewrite !notcond_false in W.
  assert ((0 <= cloudV n < Z.of_nat nVars)%Z) as Hv.
  { split; [apply W|]. apply (within_vars dd nVars p T Hwithin j n); [|done|done]. destruct (proj1 (nl_nodes _ _ _ NL (ptr dd j false))) as (k & Ek & Hk); [by eapply list_elem_of_lookup_2|].
    by apply (ptr_inj dd G) in Ek as [-> _]. }
  exists (ptr dd j false), (cloudV n), (cloudT n), (Cloud_Regular (cloudE n)), it, ie, (Cloud_IsComplement (cloudE n)).
  split; [done|]. split.
  { replace (Cloud_NotCond (Cloud_Regular (cloudE n)) (Cloud_IsComplement (cloudE n))) with (cloudE n); [done|].
    destruct (nv_e _ _ _ _ _ W) as (k & b & m & -> & _). by rewrite (ptr_regular dd G), (ptr_compl dd G), (ptr_notcond dd G). }
  do 5 (split; [done|]). rewrite Z.mod_small by (change (2 ^ 6)%Z with 64%Z; lia). apply Mux_roundtrip. unfold mux_ok. cbn [mux_v mux_t mux_e mux_c mux_i].
  change (2 ^ 6)%Z with 64%Z. change (2 ^ 12)%Z with 4096%Z in *. do 3 (split; [lia|]). split; [by destruct (Cloud_IsComplement _)|]. destruct (_ =? _); [by destruct (Cloud_IsComplement p)|done].
Qed.

Lemma store_tables_spec body v vStore t0 : mux_body body -> vec v V -> length L <= length vStore -> vStore !! 0 = Some t0 -> table_of (dd_one dd) t0 ->
  (forall i t, vStore !! i = Some t -> Kit_TruthWordNum N <= length t) ->
  exists s, store_tables v body vStore = Some s /\ length s = length vStore /\ (forall i t, s !! i = Some t -> Kit_TruthWordNum N <= length t) /\
    forall i q, L !! i = Some q -> exists t, s !! i = Some t /\ table_of q t.
Proof.
  intros Hb Hv Hs E0 H0 Hlen. destruct arr as [HV Hent]. unfold store_tables, vsize. rewrite (vec_size _ _ Hv), Nat2Z.id, HV.
  pose proof (lookup_lt_Some _ _ _ (nl_first _ _ _ NL)) as HL0.
  destruct (for_range_ind (fun k s => exists s', s = Some s' /\ length s' = length vStore /\ (forall i t, s' !! i = Some t -> Kit_TruthWordNum N <= length t) /\
      forall i q, i < k -> L !! i = Some q -> exists t, s' !! i = Some t /\ table_of q t) 1 (length L)
    (fun i s => vStore ← s; pThis ← vStore !! i; pThis ← body i (Kit_Int2Mux (ent v i)) pThis vStore; Some (<[i := pThis]> vStore)) (Some vStore)) as (s & -> & S1 & S2 & S3).
  - lia.
  - exists vStore. do 3 (split; [done|]). intros i q Hi Hq. assert (i = 0) as -> by lia. rewrite (nl_first _ _ _ NL) in Hq. injection Hq as <-. by exists t0.
  - intros k s Hk (s' & -> & S1 & S2 & S3). cbn [mbind option_bind]. destruct (lookup_lt_is_Some_2 s' k) as [pThis Ek]; [lia|]. rewrite Ek. cbn [mbind option_bind].
    rewrite (vec_ent _ _ Hv) by lia. destruct (entry_value k _ ltac:(lia) (Hent k ltac:(lia))) as (q & x & t & e & it & ie & c & Eq & W & Hx & Hit & Hie & Et & Ee & ->).
    destruct (S3 it t Hit Et) as (t1 & Es1 & _ & V1), (S3 ie e Hie Ee) as (t2 & Es2 & _ & V2).
    destruct (Hb k x it ie c (if k =? length L - 1 then Z.b2z (Cloud_IsComplement p) else 0%Z) pThis s' t2 t1 Hx Hit Hie Es2 Es1 (S2 k pThis Ek)) as (r & -> & Hr & Vr).
    cbn [mbind option_bind]. exists (<[k := r]> s'). split; [done|]. split; [by rewrite length_insert|]. split.
    + intros i t'. rewrite list_lookup_insert. case_decide; [intros [= <-]; rewrite Hr; by apply (S2 k)|]. apply S2.
    + intros i q' Hi Eq'. destruct (decide (i = k)) as [->|Hne].
      * rewrite Eq in Eq'. injection Eq' as <-. exists r. split; [apply list_lookup_insert_eq; lia|]. split; [rewrite Hr; by apply (S2 k)|]. intros m Hm.
        rewrite (Vr m Hm), (V1 m Hm), (V2 m Hm), (cval_branch dd (a m) q x t _ T W).
        assert (live dd e) as He by (destruct (listed dd T p L NL Hp ie e Ee) as (j & n & -> & En & _); by eapply live_ptr). by rewrite cval_notcond.
      * rewrite list_lookup_insert_ne by done. apply S3; [lia|done].
  - exists s. split; [done|]. split; [done|]. split; [done|]. intros i q Eq. apply S3; [by apply lookup_lt_Some in Eq|done].
Qed.

(** A constant has no entry to take the complement from. *)
Lemma last_table_spec v s : vec v V -> (forall i q, L !! i = Some q -> exists t, s !! i = Some t /\ table_of q t) ->
  if bool_decide (Cloud_Regular p = dd_one dd) then last_table v N s = None
  else exists r s', last_table v N s = Some (r, s') /\ length s' = length s /\ table_of p r.
Proof.
  intros Hv Hs. destruct arr as [HV Hent]. unfold last_table, vsize. rewrite (vec_size _ _ Hv), Nat2Z.id, HV.
  pose proof (nl_first _ _ _ NL) as E0. destruct (nl_last _ _ _ NL) as [L0 EL].
  assert (L !! (length L - 1) = Some (Cloud_Regular p)) as El by (rewrite EL, length_app; cbn [length]; rewrite Nat.add_sub; by apply list_lookup_middle).
  case_bool_decide as Hc.
  - rewrite Hc in El. pose proof (NoDup_lookup L _ _ _ (nl_nodup _ _ _ NL) El E0) as Hlen. by rewrite Hlen.
  - assert (0 < length L - 1) as Hl by (destruct (decide (length L - 1 = 0)) as [Hz|]; [rewrite Hz in El; congruence|lia]).
    rewrite (proj2 (Nat.leb_le _ _)) by lia. destruct (Hs _ _ El) as (t & -> & Ht & Vt). cbn [mbind option_bind]. rewrite (vec_ent _ _ Hv) by lia.
    destruct (entry_value (length L - 1) _ ltac:(lia) (Hent (length L - 1) ltac:(lia))) as (q & x & t' & e & it & ie & c & _ & _ & _ & _ & _ & _ & _ & ->). rewrite Nat.eqb_refl. cbn [mux_i].
    destruct (live_slot dd p T Hp) as (i & b & -> & Hi & Er & _). rewrite Er in Vt. rewrite (ptr_compl dd G). destruct b; cbn [Z.b2z Z.eqb].
    + eexists _, _. split; [done|]. split; [by rewrite length_insert|]. split; [by rewrite length_Not|]. intros m Hm.
      rewrite tbit_Not, Vt by done. destruct Hi as [n En]. change (ptr dd i true) with (ptr dd i (xorb false true)). rewrite <- (ptr_notcond dd G).
      rewrite cval_notcond by (done || by eapply live_ptr). by destruct (cval _ _ _).
    + eexists _, _. split; [done|]. split; [by rewrite length_insert|]. by split.
Qed.
End tables.

(** * From a table to its array *)

Definition constant_table (t : list Z) (n : nat) : bool := Kit_TruthIsConst0 t n || Kit_TruthIsConst1 t n.

Lemma within_irrel dd N q : table_ok dd -> within dd N q -> forall a a', (forall x, x < N -> a x = a' x) -> cval dd a q = cval dd a' q.
Proof.
  intros T. induction 1 as [c|q v t e B Hv _ IHt _ IHe]; intros a a' H; [by rewrite !cval_const|]. pose proof (branches_view _ _ _ _ _ T B) as W.
  pose proof (nv_var _ _ _ _ _ W) as H0. rewrite !(cval_branch _ _ _ _ _ _ T W), (H (Z.to_nat v)) by lia. by rewrite (IHt a a'), (IHe a a').
Qed.

Lemma Const0_head t n : Kit_TruthIsConst0 t n = true -> t.[0] = 0%Z.
Proof.
  unfold Kit_TruthIsConst0. rewrite negb_true_iff, exists_down_up, exists_up_false. intros H. pose proof (WordNum_pos n). specialize (H 0 ltac:(lia)). cbv beta in H.
  apply negb_false_iff in H. lia.
Qed.
Lemma Const1_head t n : Kit_TruthIsConst1 t n = true -> t.[0] = 0xFFFFFFFF%Z.
Proof.
  unfold Kit_TruthIsConst1. rewrite negb_true_iff, exists_down_up, exists_up_false. intros H. pose proof (WordNum_pos n). specialize (H 0 ltac:(lia)). cbv beta in H.
  apply negb_false_iff in H. by apply Z.eqb_eq in H.
Qed.

(** A constant table gives a constant pointer. *)
Lemma constant_cloud dd t n p dd' : table_ok dd -> constant_table t n = true -> Kit_TruthToCloud dd t n = Some (p, dd') -> Cloud_Regular p = dd_one dd.
Proof.
  intros T H E. pose proof (tab_geo dd T) as G. assert (p = dd_zero dd \/ p = dd_one dd) as Hp.
  2: { rewrite (geo_zero dd G), (geo_one dd G) in *. destruct Hp as [->| ->]; by rewrite (ptr_regular dd G). }
  unfold Kit_TruthToCloud in E. apply orb_true_iff in H as [H|H].
  - left. destruct n as [|n]; unfold Kit_TruthToCloud_rec in E; fold Kit_TruthToCloud_rec in E; [|destruct (Nat.leb_spec (S n) 5)].
    + unfold Kit_TruthToCloud5_rec in E. rewrite (Const0_head _ _ H) in E. cbn in E. congruence.
    + unfold Kit_TruthToCloud5_rec in E. rewrite (Const0_head _ _ H) in E. change (0 =? 0)%Z with true in E. destruct (_ <=? 5) in E; [|done]. congruence.
    + rewrite H in E. congruence.
  - destruct n as [|n]; unfold Kit_TruthToCloud_rec in E; fold Kit_TruthToCloud_rec in E; [|destruct (Nat.leb_spec (S n) 5)].
    + right. unfold Kit_TruthToCloud5_rec in E. rewrite (Const1_head _ _ H) in E. cbn in E. congruence.
    + right. unfold Kit_TruthToCloud5_rec in E. rewrite (Const1_head _ _ H) in E. change (0xFFFFFFFF =? 0)%Z with false in E. destruct (_ <=? 5) in E; [|done]. cbn in E. congruence.
    + destruct (Kit_TruthIsConst0 t (S n)); [left; congruence|]. rewrite H in E. right. congruence.
Qed.

(** The array of a table: a manager that holds it, and the values of its root. *)
Record array_of (d : CloudManager) (n : nat) (t : list Z) (p : Z) (L V : list Z) : Prop := {
  ar_working : working d;
  ar_live : live d p;
  ar_within : within d n p;
  ar_list : node_list d p L;
  ar_mux : mux_array d p L V;
  ar_small : (Z.of_nat (length L) < 2 ^ 12)%Z;
  ar_val : forall m, cval d (asg n m) p = tfun n t m;
  ar_const : bool_decide (Cloud_Regular p = dd_one d) = constant_table t n }.

(** The arguments that leave room for every table of [n] variables. *)
Record table_fits (dd : CloudManager) (n : nat) (t : list Z) : Prop := {
  tf_usable : usable dd;
  tf_sign : (dd_nSignCur dd < 2 ^ 32 - 1)%Z;
  tf_vars : n <= dd_nVars dd;
  tf_mux : n <= 64;
  tf_table : is_tt n t;
  tf_depends : depends_below n (tfun n t);
  tf_room : 1 + dd_nVars dd + 2 ^ (n - 1) <= dd_nNodesLimit dd;
  tf_edges : (1 + Z.of_nat (dd_nVars dd) + Z.of_nat (2 ^ (n - 1)) <= 2 ^ 12)%Z;
  tf_ppNodes : forall pp, dd_ppNodes dd = Some pp -> length pp = dd_nNodesLimit dd }.

Lemma working_pp dd pp : working dd -> working (with_pp dd pp).
Proof.
  intros [(T & C & H1 & H2) K]. split; [split; [by apply pp_table|split; [|done]]|done]. apply (cache_ok_grows dd); [done|by apply pp_table|by apply same_grows|done|done].
Qed.

Lemma pp_cval dd pp a p : working dd -> live dd p -> cval (with_pp dd pp) a p = cval dd a p.
Proof. intros [[T _] _] Hp. apply (grows_cval dd); [done|by apply pp_table|by apply same_grows|done]. Qed.

(** The manager can be used for the next table. *)
Definition recycled (dd d : CloudManager) : Prop :=
  dd_nVars d = dd_nVars dd /\ dd_nNodesLimit d = dd_nNodesLimit dd /\ dd_nSignCur d = (dd_nSignCur dd + 1)%Z /\ forall pp, dd_ppNodes d = Some pp -> length pp = dd_nNodesLimit d.

Lemma table_array_spec dd n t vNodes : table_fits dd n t -> (0 <= nCap vNodes <= ABC_INT_MAX)%Z ->
  exists d1 p d2 d3 v L V, Cloud_Restart dd = Some d1 /\ Kit_TruthToCloud d1 t n = Some (p, d2) /\ Kit_CreateCloud d2 p vNodes = Some (true, d3, v) /\
    vec v V /\ array_of d3 n t p L V /\ length L < 1 + dd_nVars dd + 2 ^ (n - 1) /\ recycled dd d3.
Proof.
  intros [U Hs Hn H64 Ht Hd Hr He Hpp] Hv. destruct (restart_working dd U Hs) as (d1 & E1 & W1 & R). destruct (restart_frame dd d1 R) as (F1 & F2 & F3).
  assert (room d1 n n) as Rm by (apply working_room; [done|lia|]; rewrite (re_cur _ _ R); lia).
  destruct (TruthToCloud_rec_spec n n d1 t Ht Hd Rm) as (p & d2 & E2 & S & Rep). pose proof (steps_working _ _ _ W1 S) as W2. pose proof W2 as [[T2 _] C2].
  assert (dd_ppNodes d2 = dd_ppNodes dd /\ dd_nNodesLimit d2 = dd_nNodesLimit dd) as [Ep El].
  { destruct (steps_nVars _ _ _ S) as (_ & X & _). pose proof (sp_ppNodes _ _ _ S). pose proof (re_ppNodes _ _ R). split; congruence. }
  destruct (CreateCloud_spec d2 p vNodes T2 C2 (rep_live _ _ _ _ _ Rep)) as (L & pp & NL & Hcur & Hlpp & H); [by rewrite Ep, El|done|].
  pose proof (sp_cur _ _ _ S) as Hc. rewrite (re_cur _ _ R) in Hc. unfold new_nodes in Hc. pose proof (Nat.pow_nonzero 2 (n - 1)) as Hpow.
  destruct (Z.leb_spec (2 ^ 12) (Z.of_nat (length L))) as [Hb|Hb]; [lia|]. destruct H as (V & v & E3 & Hvec & Hmux).
  exists d1, p, d2, (with_pp d2 pp), v, L, V. do 4 (split; [done|]). split.
  2: { split; [lia|]. destruct (steps_nVars _ _ _ S) as (X1 & X2 & _ & X4). pose proof (re_sign _ _ R). unfold recycled. cbn. split; [congruence|]. split; [congruence|]. split; [congruence|].
    by intros ? [= <-]. }
  assert (forall m, cval d2 (asg n m) p = tfun n t m) as Hval by apply Rep. pose proof (rep_live _ _ _ _ _ Rep) as Lp.
  split; [by apply working_pp|done| |by apply pp_list|done|done| |].
  - apply (within_grows d2); [by apply same_grows|apply Rep].
  - intros m. by rewrite pp_cval, Hval.
  - change (dd_one (with_pp d2 pp)) with (dd_one d2). destruct (constant_table t n) eqn:Ec.
    + apply bool_decide_true. destruct W1 as [[T1 _] _]. rewrite (constant_cloud d1 t n p d2 T1 Ec E2). pose proof (grow_frame _ _ (sp_grows _ _ _ S)) as F. unfold frame in F. congruence.
    + apply bool_decide_false. intros Hc1. apply orb_false_iff in Ec as [Ec0 Ec1]. destruct (tfun_nonzero n t Ht Ec0) as [m0 H0], (tfun_nonone n t Ht Ec1) as [m1 H1].
      destruct Lp as (i & c & k & -> & Ek). rewrite (ptr_regular d2 (tab_geo d2 T2)), (geo_one d2 (tab_geo d2 T2)) in Hc1. apply (ptr_inj d2 (tab_geo d2 T2)) in Hc1 as [-> _].
      rewrite <- Hval, cval_const in H0, H1 by done. congruence.
Qed.

(** A store with room for the tables. *)
Definition store_ok (N k : nat) (vStore : list (list Z)) : Prop := k <= length vStore /\ forall i t, vStore !! i = Some t -> Kit_TruthWordNum N <= length t.

Lemma filled_store N k vStore : store_ok N k vStore -> 0 < k -> exists t0, vStore !! 0 = Some t0 /\ Kit_TruthWordNum N <= length t0 /\
  (<[0 := Kit_TruthFill t0 N]> vStore) !! 0 = Some (Kit_TruthFill t0 N) /\
  (forall i t, (<[0 := Kit_TruthFill t0 N]> vStore) !! i = Some t -> Kit_TruthWordNum N <= length t).
Proof.
  intros [Hk Hs] H0. destruct (lookup_lt_is_Some_2 vStore 0) as [t0 E]; [lia|]. exists t0. split; [done|]. pose proof (Hs 0 t0 E). split; [done|].
  split; [apply list_lookup_insert_eq; lia|]. intros i t. rewrite list_lookup_insert. case_decide; [intros [= <-]; by rewrite length_Fill|]. apply Hs.
Qed.

(** The loop over the entries and the last table. *)
Lemma last_table_wide v N s r s' : last_table v N s = Some (r, s') -> (forall i t, s !! i = Some t -> Kit_TruthWordNum N <= length t) ->
  forall i t, s' !! i = Some t -> Kit_TruthWordNum N <= length t.
Proof.
  unfold last_table. intros H Hs i t Ht. destruct (1 <=? _); [|done]. destruct (s !! (vsize v - 1)) as [t0|] eqn:E0; [|done]. cbn [mbind option_bind] in H. injection H as _ <-.
  destruct (decide (i = vsize v - 1)) as [->|Hne]; [|rewrite list_lookup_insert_ne in Ht by done; by apply (Hs i)].
  rewrite list_lookup_insert_eq in Ht by (by eapply lookup_lt_Some). injection Ht as <-. pose proof (Hs _ _ E0). destruct (_ =? 0)%Z; [done|by rewrite length_Not].
Qed.

Lemma array_tables d n t p L V v N a body vStore k : array_of d n t p L V -> n <= 64 -> vec v V -> mux_body n N a body -> store_ok N k vStore -> length L <= k ->
  exists t0, vStore !! 0 = Some t0 /\ if constant_table t n then (s ← store_tables v body (<[0 := Kit_TruthFill t0 N]> vStore); last_table v N s) = None
  else exists r s, (s ← store_tables v body (<[0 := Kit_TruthFill t0 N]> vStore); last_table v N s) = Some (r, s) /\ length s = length vStore /\
    Kit_TruthWordNum N <= length r /\ (forall m, m < nmint N -> tbit r m = cval d (a m) p) /\ store_ok N k s.
Proof.
  intros [W Lp Hw NL Hm Hsm _ Hc] H64 Hv Hb Hs HL. pose proof W as [[T _] _]. pose proof (lookup_lt_Some _ _ _ (nl_first _ _ _ NL)) as HL0.
  destruct (filled_store N k vStore Hs ltac:(lia)) as (t0 & E0 & Hl0 & E0' & Hs'). exists t0. split; [done|]. destruct Hs as [Hk _].
  destruct (store_tables_spec d T p L V NL Lp Hsm Hm n H64 Hw N a body v (<[0 := Kit_TruthFill t0 N]> vStore) (Kit_TruthFill t0 N)) as (s & -> & Hls & Hws & Ht);
    [done|done|rewrite length_insert; lia|done| |done|].
  { split; [by rewrite length_Fill|]. intros m Hmm. rewrite tbit_Fill by done. rewrite (geo_one d (tab_geo d T)). by rewrite cval_const. }
  cbn [mbind option_bind]. pose proof (last_table_spec d T p L V NL Lp Hsm Hm n H64 Hw N a v s Hv Ht) as H. rewrite Hc in H. destruct (constant_table t n); [done|].
  destruct H as (r & s' & E & Hl & [Hr Hval]). exists r, s'. split; [done|]. rewrite length_insert in Hls. split; [congruence|]. split; [done|]. split; [done|]. split; [lia|by eapply last_table_wide].
Qed.

Lemma CloudToTruth_body n (fInv : bool) : mux_body n n (fun m x => Nat.testbit m (if fInv then x else n - 1 - x)) (fun i Mux pThis vStore =>
    assert! (mux_e Mux <? Z.of_nat i)%Z && (mux_t Mux <? Z.of_nat i)%Z && (mux_v Mux <? Z.of_nat n)%Z in
    pFan0 ← vStore !! Z.to_nat (mux_e Mux);
    pFan1 ← vStore !! Z.to_nat (mux_t Mux);
    let iVar := if fInv then Z.to_nat (mux_v Mux) else n - 1 - Z.to_nat (mux_v Mux) in
    Some (Kit_TruthMuxVarPhase pThis pFan0 pFan1 n iVar (negb (mux_c Mux =? 0)%Z))).
Proof.
  intros i v it ie c ii pThis vStore t0 t1 Hv Hit Hie E0 E1 Hl. cbn [mux_v mux_t mux_e mux_c].
  rewrite !(proj2 (Z.ltb_lt _ _)) by lia. cbn [andb]. rewrite !Nat2Z.id, E0, E1. cbn [mbind option_bind]. eexists. split; [done|]. split; [apply length_MuxVarPhase|].
  intros m Hm. assert (negb (Z.b2z c =? 0)%Z = c) as -> by (by destruct c). rewrite tbit_MuxVarPhase; [by destruct fInv| |done|done]. destruct fInv; lia.
Qed.

Lemma Compose_body n N pInputs : n <= length pInputs -> mux_body n N (fun m x => tbit (default [] (pInputs !! (n - 1 - x))) m) (fun i Mux pThis vStore =>
    pFan0 ← vStore !! Z.to_nat (mux_e Mux);
    pFan1 ← vStore !! Z.to_nat (mux_t Mux);
    assert! (mux_v Mux <? Z.of_nat n)%Z in
    pInput ← pInputs !! (n - 1 - Z.to_nat (mux_v Mux));
    Some (Kit_TruthMuxPhase pThis pFan0 pFan1 pInput N (negb (mux_c Mux =? 0)%Z))).
Proof.
  intros HI i v it ie c ii pThis vStore t0 t1 Hv Hit Hie E0 E1 Hl. cbn [mux_v mux_t mux_e mux_c].
  rewrite !Nat2Z.id, E0, E1. cbn [mbind option_bind]. rewrite (proj2 (Z.ltb_lt _ _)) by lia. destruct (lookup_lt_is_Some_2 pInputs (n - 1 - Z.to_nat v)) as [pI ->]; [lia|].
  cbn [mbind option_bind default from_option]. eexists. split; [done|]. split.
  - unfold Kit_TruthMuxPhase. destruct (negb _); apply length_down_const.
  - intros m Hm. assert (negb (Z.b2z c =? 0)%Z = c) as -> by (by destruct c). by apply tbit_MuxPhase.
Qed.

(** A manager of three variables, with room for every table of them. *)
Lemma three_fits w : is_word w -> forallb (fun v => negb (Kit_TruthVarInSupport [w] 5 v)) [3; 4] = true ->
  exists dd, Cloud_Init 3 4 4096 = Some dd /\ dd_nVars dd = 3 /\ table_fits dd 3 [w].
Proof.
  intros Hw H3. cbn [forallb] in H3. apply andb_true_iff in H3 as [H3 H4]. rewrite andb_true_r in H4. apply negb_true_iff in H3, H4.
  destruct (Init_working 3 4 4096) as (dd & E & [U C] & Hn & Hs & _ & Hl & Hpp); [lia|cbn; lia|cbn; lia|lia|done|]. exists dd. do 2 (split; [done|]).
  split; [done|lia|lia|lia| | |rewrite Hl, Hn; cbn; lia|rewrite Hn; cbn; lia|by rewrite Hpp].
  - by apply is_tt_word; [lia|].
  - apply (depends_fewer 3 5); [lia|exact (tfun_depends 3 _)|]. intros v m Hv. apply (tfun_vacuous 5); [lia|by apply Forall_singleton|].
    assert (v = 3 \/ v = 4) as [->| ->] by lia; done.
Qed.
Lemma mux_word : is_word 0xCACACACA.
Proof. unfold is_word. lia. Qed.

Lemma eight_store : store_ok 3 (3 + 2 ^ (3 - 1)) (replicate 8 [0]%Z).
Proof. split; [cbn; lia|]. intros i t [-> _]%lookup_replicate. cbn. lia. Qed.

Lemma compose_spec dd n t pInputs nVarsAll vStore vNodes : table_fits dd n t -> n <= length pInputs -> (0 <= nCap vNodes <= ABC_INT_MAX)%Z ->
  store_ok nVarsAll (dd_nVars dd + 2 ^ (n - 1)) vStore ->
  if constant_table t n then Kit_TruthCompose dd t n pInputs nVarsAll vStore vNodes = None
  else exists r d s v, Kit_TruthCompose dd t n pInputs nVarsAll vStore vNodes = Some (r, d, s, v) /\ working d /\ length s = length vStore /\
    (forall m m', m < nmint nVarsAll -> m' < nmint n -> (forall x, x < n -> Nat.testbit m' x = tbit (default [] (pInputs !! x)) m) -> tbit r m = tbit t m') /\
    recycled dd d /\ Kit_TruthWordNum nVarsAll <= length r /\ (0 <= nCap v <= ABC_INT_MAX)%Z /\ store_ok nVarsAll (dd_nVars dd + 2 ^ (n - 1)) s.
Proof.
  intros F HI Hc Hs. destruct (table_array_spec dd n t vNodes F Hc) as (d1 & p & d2 & d & v & L & V & E1 & E2 & E3 & Hv & A & HL & Rc).
  unfold Kit_TruthCompose. rewrite E1. cbn [mbind option_bind]. rewrite E2. cbn [mbind option_bind]. rewrite E3. cbn [mbind option_bind].
  pose proof A as [W Lp Hw NL [HV _] _ Hval _].
  destruct (array_tables d n t p L V v nVarsAll _ _ vStore _ A (tf_mux _ _ _ F) Hv (Compose_body n nVarsAll pInputs HI) Hs ltac:(lia)) as (t0 & E0 & H).
  rewrite (vec_size _ _ Hv), (proj2 (Z.leb_le _ _)), E0 by (destruct Hs; lia). cbn [mbind option_bind]. destruct (store_tables v _ _) as [s|].
  2: { destruct (constant_table t n); [done|]. by destruct H as (r & s & E & _). }
  cbn [mbind option_bind] in H |- *. destruct (constant_table t n); [by rewrite H|]. destruct H as (r & s' & E & Hl & Hlr & Hr & Hs'). rewrite E. cbn [mbind option_bind].
  exists r, d, s', v. do 3 (split; [done|]). split; [|split; [done|split; [done|split; [pose proof (vec_cap _ _ Hv); lia|done]]]]. intros m m' Hm Hm' Hx. rewrite Hr, <- (tfun_small n t m') by done. rewrite <- Hval.
  destruct W as [[T _] _]. apply (within_irrel d n p T Hw). intros x Hxn. unfold asg. by rewrite Hx by lia.
Qed.

(** * Properties *)

(** C14. The array of a table stands for the table: [Kit_CreateCloudFromTruth], in a manager with room for [2 ^ (n - 1)] nodes
    besides the variables, gives an array with an entry for every node of the diagram and leaves a manager that works,
    all signatures written back; [Kit_CloudToTruth] of the array is the table again, with its variables in the reverse
    order when [fInv] is set.  For a constant table it reads a field of [Mux] that has no value. *)
Theorem cloud_array_roundtrip dd n t vNodes vStore : table_fits dd n t -> (0 <= nCap vNodes <= ABC_INT_MAX)%Z -> store_ok n (dd_nVars dd + 2 ^ (n - 1)) vStore ->
  exists d p L v V, Kit_CreateCloudFromTruth dd t n vNodes = Some (true, d, v) /\ working d /\ live d p /\ node_list d p L /\ vec v V /\ length V = length L /\
    forall fInv : bool, if constant_table t n then Kit_CloudToTruth v n vStore fInv = None
      else exists r s, Kit_CloudToTruth v n vStore fInv = Some (r, s) /\ forall m m', m < nmint n -> m' < nmint n ->
        (forall x, x < n -> Nat.testbit m' x = Nat.testbit m (if fInv then n - 1 - x else x)) -> tbit r m = tbit t m'.
Proof.
  intros F Hc Hs. destruct (table_array_spec dd n t (Vec_IntClear vNodes) F Hc) as (d1 & p & d2 & d & v & L & V & E1 & E2 & E3 & Hv & A & HL).
  exists d, p, L, v, V. unfold Kit_CreateCloudFromTruth. rewrite E1. cbn [mbind option_bind]. rewrite E2. cbn [mbind option_bind]. cbv zeta.
  pose proof A as [W Lp Hw NL [HV _] _ Hval _]. do 6 (split; [done|]). intros fInv.
  destruct (array_tables d n t p L V v n _ _ vStore _ A (tf_mux _ _ _ F) Hv (CloudToTruth_body n fInv) Hs ltac:(lia)) as (t0 & E0 & H).
  unfold Kit_CloudToTruth. rewrite (vec_size _ _ Hv), (proj2 (Z.leb_le _ _)), E0 by (destruct Hs; lia). cbn [mbind option_bind].
  destruct (constant_table t n); [exact H|]. destruct H as (r & s & E & _ & _ & Hr & _). exists r, s. split; [exact E|]. intros m m' Hm Hm' Hx.
  rewrite Hr, <- (tfun_small n t m') by done. rewrite <- Hval. destruct W as [[T _] _]. apply (within_irrel d n p T Hw). intros x Hxn. unfold asg. rewrite Hx by lia.
  destruct fInv; [f_equal; lia|done].
Qed.

Lemma cloud_array_roundtrip_witness :
  (d ← Cloud_Init 3 4 4096; '(ok, d, v) ← Kit_CreateCloudFromTruth d [0xCACACACA]%Z 3 {| nCap := 0; nSize := 0; pArray := [] |};
   '(r, _) ← Kit_CloudToTruth v 3 (replicate 8 [0]%Z) false; Some (ok, r, nSize v)) = Some (true, [0xCACACACA]%Z, 4%Z) /\
  (exists dd, Cloud_Init 3 4 4096 = Some dd /\ dd_nVars dd = 3 /\
   exists d p L v V, Kit_CreateCloudFromTruth dd [0xCACACACA]%Z 3 {| nCap := 0; nSize := 0; pArray := [] |} = Some (true, d, v) /\ working d /\ live d p /\
    node_list d p L /\ vec v V /\ length V = length L /\
    forall fInv : bool, if constant_table [0xCACACACA]%Z 3 then Kit_CloudToTruth v 3 (replicate 8 [0]%Z) fInv = None
      else exists r s, Kit_CloudToTruth v 3 (replicate 8 [0]%Z) fInv = Some (r, s) /\ forall m m', m < nmint 3 -> m' < nmint 3 ->
        (forall x, x < 3 -> Nat.testbit m' x = Nat.testbit m (if fInv then 3 - 1 - x else x)) -> tbit r m = tbit [0xCACACACA]%Z m').
Proof.
  split; [vm_compute; reflexivity|]. destruct (three_fits 0xCACACACA%Z mux_word eq_refl) as (dd & E & Hn & F). exists dd. split; [exact E|]. split; [exact Hn|].
  apply (cloud_array_roundtrip dd 3 [0xCACACACA]%Z {| nCap := 0; nSize := 0; pArray := [] |} (replicate 8 [0]%Z) F).
  - cbn. unfold ABC_INT_MAX. lia.
  - rewrite Hn. exact eight_store.
Defined.

(** C16. [Kit_TruthCompose] puts the functions [pInputs], tables of [nVarsAll] variables, in place of the variables of a table that
    is not constant; for a constant table it reads a field of [Mux] that has no value. *)
Theorem compose_correct dd n t pInputs nVarsAll vStore vNodes : table_fits dd n t -> n <= length pInputs -> (0 <= nCap vNodes <= ABC_INT_MAX)%Z ->
  store_ok nVarsAll (dd_nVars dd + 2 ^ (n - 1)) vStore ->
  if constant_table t n then Kit_TruthCompose dd t n pInputs nVarsAll vStore vNodes = None
  else exists r d s v, Kit_TruthCompose dd t n pInputs nVarsAll vStore vNodes = Some (r, d, s, v) /\ working d /\ length s = length vStore /\
    forall m m', m < nmint nVarsAll -> m' < nmint n -> (forall x, x < n -> Nat.testbit m' x = tbit (default [] (pInputs !! x)) m) -> tbit r m = tbit t m'.
Proof.
  intros F HI Hc Hs. pose proof (compose_spec dd n t pInputs nVarsAll vStore vNodes F HI Hc Hs) as H. destruct (constant_table t n); [done|].
  destruct H as (r & d & s & v & E & Hw & Hl & Hr & _). by exists r, d, s, v.
Qed.

Lemma compose_correct_witness :
  (d ← Cloud_Init 3 4 4096;
   '(r, _, _, _) ← Kit_TruthCompose d [0xCACACACA]%Z 3 [[0xAAAAAAAA]%Z; [0xF0F0F0F0]%Z; [0x88888888]%Z] 3 (replicate 8 [0]%Z) {| nCap := 0; nSize := 0; pArray := [] |};
   Some r) = Some [0xA2A2A2A2]%Z /\
  (exists dd, Cloud_Init 3 4 4096 = Some dd /\
   if constant_table [0xCACACACA]%Z 3 then
     Kit_TruthCompose dd [0xCACACACA]%Z 3 [[0xAAAAAAAA]%Z; [0xF0F0F0F0]%Z; [0x88888888]%Z] 3 (replicate 8 [0]%Z) {| nCap := 0; nSize := 0; pArray := [] |} = None
   else exists r d s v,
     Kit_TruthCompose dd [0xCACACACA]%Z 3 [[0xAAAAAAAA]%Z; [0xF0F0F0F0]%Z; [0x88888888]%Z] 3 (replicate 8 [0]%Z) {| nCap := 0; nSize := 0; pArray := [] |} = Some (r, d, s, v) /\
     working d /\ length s = length (replicate 8 [0]%Z) /\ forall m m', m < nmint 3 -> m' < nmint 3 ->
       (forall x, x < 3 -> Nat.testbit m' x = tbit (default [] ([[0xAAAAAAAA]%Z; [0xF0F0F0F0]%Z; [0x88888888]%Z] !! x)) m) -> tbit r m = tbit [0xCACACACA]%Z m').
Proof.
  split; [vm_compute; reflexivity|]. destruct (three_fits 0xCACACACA%Z mux_word eq_refl) as (dd & E & Hn & F). exists dd. split; [exact E|].
  apply (compose_correct dd 3 [0xCACACACA]%Z [[0xAAAAAAAA]%Z; [0xF0F0F0F0]%Z; [0x88888888]%Z] 3 (replicate 8 [0]%Z) {| nCap := 0; nSize := 0; pArray := [] |} F).
  - cbn. lia.
  - cbn. unfold ABC_INT_MAX. lia.
  - rewrite Hn. exact eight_store.
Defined.
