(* ===== verification/CloudSupp.v ===== *)
(** Supports of the cofactors of a function ([Kit_TruthCofSupports] of [kitCloud.c]) from the arrays of its diagram and
    of the diagram for the reverse order of the variables.

    A pass over an array gives every node a row with a word for each cofactor.  In a cofactor by a variable, the bits of
    the variables below it in the order are exact; those above may be too many, and the routine takes them from the
    other order.  Rows are written before they are read; a row that is not there yet is [None]. *)
From S2P Require Import Prelude Words Minterm TruthBasic TruthCof Cube Minato VecInt VecArray Isop Cloud CloudInit CloudBdd CloudRun CloudDag CloudTruth KitCloud.

(** * The routines *)

(** The row of an entry. *)
Definition supp_row (nVars : nat) (Var : Z) (pFan0 pFan1 : list Z) : option (list Z) :=
  assert! (0 <=? Var)%Z && (Var <? Z.of_nat nVars)%Z in
  let Var := Z.to_nat Var in
  let nSupps := 2 * nVars in
  let pThis := map (fun v => pFan0.[v] ||| pFan1.[v] ||| (1 <<< Var)) (seq 0 nSupps) in
  assert! (pFan0.[2 * Var + 0] =? pFan0.[2 * Var + 1])%Z in
  assert! (pFan1.[2 * Var + 0] =? pFan1.[2 * Var + 1])%Z in
  let pThis := pThis.[2 * Var + 0 <- pFan0.[2 * Var + 0]] in
  Some (pThis.[2 * Var + 1 <- pFan1.[2 * Var + 0]]).

(** The rows of an array; [fInv] is the order in which level [v] is variable [v].  In the code the rows are in [vMemory], one after the other;
    every row is written before it is read, and [supp_memory] gives the capacity for them. *)
Definition supp_rows (vBdd : Vec_Int_t) (nVars : nat) (fInv : bool) : option (list (list Z)) :=
  for_range 1 (vsize vBdd) (fun i s =>
    puSuppAll ← s;
    let Mux := Kit_Int2Mux (ent vBdd i) in
    let Var := if fInv then mux_v Mux else (Z.of_nat nVars - 1 - mux_v Mux)%Z in
    pFan0 ← puSuppAll !! Z.to_nat (mux_e Mux);
    pFan1 ← puSuppAll !! Z.to_nat (mux_t Mux);
    pThis ← supp_row nVars Var pFan0 pFan1;
    Some (puSuppAll ++ [pThis])) (Some [replicate (2 * nVars) 0%Z]).

(** The last row; without entries the pointer to it has no value. *)
Definition supp_last (vBdd : Vec_Int_t) (nVars : nat) (fInv : bool) : option (list Z) :=
  puSuppAll ← supp_rows vBdd nVars fInv;
  assert! 1 <=? vsize vBdd - 1 in puSuppAll !! (vsize vBdd - 1).

Definition supp_memory (vMemory : Vec_Int_t) (need : Z) : Vec_Int_t :=
  if (nSize vMemory <? need)%Z then Vec_IntGrow vMemory need else vMemory.

Definition Kit_TruthCofSupports (vBddDir vBddInv : Vec_Int_t) (nVars : nat) (vMemory : Vec_Int_t) (puSupps : list Z) : option (list Z * Vec_Int_t) :=
  let nSupps := 2 * nVars in
  let vMemory := supp_memory vMemory (Z.of_nat nSupps * nSize vBddDir) in
  pThis ← supp_last vBddDir nVars false;
  let puSupps := pThis ++ drop nSupps puSupps in
  let vMemory := supp_memory vMemory (Z.of_nat nSupps * nSize vBddInv) in
  pThis ← supp_last vBddInv nVars true;
  Some (for_up nSupps (fun Var p => p.[Var <- (p.[Var] &&& Kit_BitMask (Var / 2)) ||| (pThis.[Var] &&& ~~~ Kit_BitMask (Var / 2))]) puSupps, vMemory).

Lemma supp_memory_room V need : (nSize V <= nCap V)%Z -> let V' := supp_memory V need in (need <= nCap V')%Z /\ (nCap V <= nCap V')%Z /\ (nSize V' <= nCap V')%Z.
Proof.
  intros H. unfold supp_memory, Vec_IntGrow. destruct (Z.ltb_spec (nSize V) need); [destruct (Z.leb_spec need (nCap V))|]; cbn [nCap nSize]; lia.
Qed.

(** * Dependence on a variable *)

Section independence.
Context (dd : CloudManager) (T : table_ok dd).
Let G := tab_geo dd T.

(** The function, or its cofactor by [w], does not depend on [u]. *)
Definition indep (p u : Z) : Prop := forall a, cval dd (set_var a u false) p = cval dd (set_var a u true) p.
Definition cindep (p w : Z) (b : bool) (u : Z) : Prop :=
  forall a, cval dd (set_var (set_var a u false) w b) p = cval dd (set_var (set_var a u true) w b) p.

Lemma set_var_above p x b a : live dd p -> (x < level dd p)%Z -> cval dd (set_var a x b) p = cval dd a p.
Proof.
  intros Hp Hx. apply (cval_irrel dd p T Hp). intros y Hy _. unfold set_var. destruct (Z.eqb_spec (Z.of_nat y) x); [lia|done].
Qed.

Lemma indep_above p u : live dd p -> (u < level dd p)%Z -> indep p u.
Proof. intros Hp Hu a. by rewrite !set_var_above. Qed.

Lemma cindep_above p w b u : live dd p -> (w < level dd p)%Z -> cindep p w b u <-> indep p u.
Proof.
  intros Hp Hw. split; intros H a.
  - rewrite <- (set_var_above p w b (set_var a u false)), <- (set_var_above p w b (set_var a u true)) by done. apply H.
  - rewrite !(set_var_above p w b) by done. apply H.
Qed.

Lemma cindep_notcond p w b u c : live dd p -> cindep (Cloud_NotCond p c) w b u <-> cindep p w b u.
Proof.
  intros Hp. split; intros H a; specialize (H a); rewrite !cval_notcond in * by done; [|by rewrite H]. destruct c; [|done]. by destruct (cval dd _ p), (cval dd _ p).
Qed.

Lemma set_var_comm a u v c b x : u <> v -> set_var (set_var a u c) v b x = set_var (set_var a v b) u c x.
Proof. intros H. unfold set_var. destruct (Z.eqb_spec (Z.of_nat x) v), (Z.eqb_spec (Z.of_nat x) u); congruence. Qed.

Lemma cval_ext a a' p : live dd p -> (forall x, a x = a' x) -> cval dd a p = cval dd a' p.
Proof. intros Hp H. apply (cval_irrel dd p T Hp). auto. Qed.

Context (p x t e : Z) (W : node_view dd p x t e).

Lemma view_set (b : bool) a : cval dd (set_var a x b) p = cval dd a (if b then t else e).
Proof. by apply view_cofactor. Qed.

Lemma view_other a u c : u <> x -> cval dd (set_var a u c) p = if a (Z.to_nat x) then cval dd (set_var a u c) t else cval dd (set_var a u c) e.
Proof.
  intros Hu. rewrite (cval_branch _ _ _ _ _ _ T W). unfold set_var at 1. pose proof (nv_var _ _ _ _ _ W). by destruct (Z.eqb_spec (Z.of_nat (Z.to_nat x)) u); [lia|].
Qed.

Lemma indep_node u : indep p u <-> u <> x /\ indep t u /\ indep e u.
Proof.
  pose proof W as [_ Hx Ht He Hne _ [L1 L2]]. split.
  - intros H. destruct (decide (u = x)) as [->|Hu].
    + exfalso. apply Hne, (canonical dd); [done..|]. intros a. specialize (H a). by rewrite !view_set in H.
    + split; [done|]. assert (forall b : bool, indep (if b then t else e) u) as Hb; [|split; [apply (Hb true)|apply (Hb false)]].
      intros b a. pose proof (H (set_var a x b)) as Hb. assert (live dd p) as Hp by (eapply branches_live, W).
      rewrite !(cval_ext (set_var (set_var a x b) u _) (set_var (set_var a u _) x b) p Hp (fun y => set_var_comm a x u b _ y ltac:(done))), !view_set in Hb. done.
  - intros (Hu & H1 & H2) a. rewrite !view_other by done. by rewrite H1, H2.
Qed.

Lemma cindep_node b u : cindep p x b u <-> indep (if b then t else e) u.
Proof. split; intros H a; specialize (H a); by rewrite !view_set in *. Qed.

Lemma cindep_below w b u : (x < w)%Z -> (w <= u)%Z -> cindep p w b u <-> cindep t w b u /\ cindep e w b u.
Proof.
  intros Hw Hu. pose proof W as [_ Hx Ht He _ _ [L1 L2]].
  assert (forall a c, set_var (set_var a u c) w b (Z.to_nat x) = a (Z.to_nat x)) as Ha.
  { intros a c. unfold set_var. destruct (Z.eqb_spec (Z.of_nat (Z.to_nat x)) w), (Z.eqb_spec (Z.of_nat (Z.to_nat x)) u); (lia || done). }
  split.
  - intros H. assert (forall c : bool, cindep (if c then t else e) w b u) as Hc; [|split; [apply (Hc true)|apply (Hc false)]].
    intros c a. pose proof (H (set_var a x c)) as Hc. rewrite !(cval_branch _ _ _ _ _ _ T W), !Ha in Hc.
    assert (set_var a x c (Z.to_nat x) = c) as Ec by (unfold set_var; by rewrite Z2Nat.id, Z.eqb_refl by lia). rewrite Ec in Hc.
    assert (forall q d, live dd q -> (x < level dd q)%Z -> cval dd (set_var (set_var (set_var a x c) u d) w b) q = cval dd (set_var (set_var a u d) w b) q) as Hq.
    { intros q d Hq Hl. apply (cval_irrel dd q T Hq). intros y Hy _. unfold set_var. destruct (Z.eqb_spec (Z.of_nat y) x); [lia|done]. }
    destruct c; rewrite !Hq in Hc by done; done.
  - intros [H1 H2] a. by rewrite !(cval_branch _ _ _ _ _ _ T W), !Ha, H1, H2.
Qed.
End independence.

(** * Rows *)

(** The variable of a level, and the level of a variable. *)
Section order.
Context (n : nat) (fInv : bool).
Definition idx (x : nat) : nat := if fInv then x else n - 1 - x.
Lemma idx_lt x : x < n -> idx x < n.
Proof. unfold idx. destruct fInv; lia. Qed.
Lemma idx_inj x y : x < n -> y < n -> idx x = idx y -> x = y.
Proof. unfold idx. destruct fInv; lia. Qed.
Lemma idx_idx x : x < n -> idx (idx x) = x.
Proof. unfold idx. destruct fInv; lia. Qed.
End order.

Section rows.
Context (dd : CloudManager) (T : table_ok dd) (n : nat) (Hn : n <= 32) (fInv : bool).
Let G := tab_geo dd T.

Local Abbreviation idx := (idx n fInv).

(** A row has no bit outside of the variables, and the exact bits for the cofactors by a variable that the function does
    not contain, or that is above. *)
Record row_ok (q : Z) (R : list Z) : Prop := {
  row_length : length R = 2 * n;
  row_high : forall k j, Z.testbit R.[k] (Z.of_nat j) = true -> j < n;
  row_bit : forall w u (b : bool), w < n -> u < n -> (Z.of_nat w < level dd q)%Z \/ w <= u ->
    Z.testbit R.[2 * idx w + Nat.b2n b] (Z.of_nat (idx u)) = false <-> cindep dd q (Z.of_nat w) b (Z.of_nat u) }.

Lemma row_zero c : row_ok (ptr dd 0 c) (replicate (2 * n) 0%Z).
Proof.
  assert (forall k, (replicate (2 * n) 0%Z).[k] = 0%Z) as Hz by (intros k; rewrite rd_lookup; destruct (_ !! k) eqn:E; [by apply lookup_replicate in E as [-> _]|done]).
  split; [by rewrite length_replicate|intros k j; by rewrite Hz, Z.testbit_0_l|]. intros w u b _ _ _. rewrite Hz, Z.testbit_0_l. split; [|done]. intros _ a. by rewrite !cval_const.
Qed.

(** For a variable above the function both words are its support. *)
Lemma row_above q R x : live dd q -> row_ok q R -> x < n -> (Z.of_nat x < level dd q)%Z -> R.[2 * idx x + 0] = R.[2 * idx x + 1].
Proof.
  intros Hq [_ Hh Hb] Hx Hl. apply Z.bits_inj'. intros j Hj. rewrite <- (Z2Nat.id j) by done. set (k := Z.to_nat j).
  destruct (Nat.lt_ge_cases k n) as [Hk|Hk].
  - pose proof (Hb x (idx k) false Hx (idx_lt n fInv k Hk) (or_introl Hl)) as H0. pose proof (Hb x (idx k) true Hx (idx_lt n fInv k Hk) (or_introl Hl)) as H1.
    rewrite idx_idx in H0, H1 by done. rewrite (cindep_above dd T) in H0, H1 by done. cbn [Nat.b2n] in H0, H1.
    destruct (Z.testbit R.[2 * idx x + 0] (Z.of_nat k)), (Z.testbit R.[2 * idx x + 1] (Z.of_nat k)); tauto || (destruct H0, H1; intuition congruence).
  - assert (forall i, Z.testbit R.[i] (Z.of_nat k) = false) as Hf by (intros i; destruct (Z.testbit R.[i] (Z.of_nat k)) eqn:E; [apply Hh in E; lia|done]). by rewrite !Hf.
Qed.

Lemma rd_map_seq (f : nat -> Z) m k : (map f (seq 0 m)).[k] = if k <? m then f k else 0%Z.
Proof.
  rewrite rd_lookup, list_lookup_fmap. destruct (Nat.ltb_spec k m) as [H|H].
  - by rewrite lookup_seq_lt.
  - by rewrite lookup_seq_ge.
Qed.

Lemma supp_row_spec q x t e c Re Rt : node_view dd q (Z.of_nat x) t (Cloud_NotCond e c) -> x < n -> live dd e -> row_ok e Re -> row_ok t Rt ->
  exists R, supp_row n (Z.of_nat (idx x)) Re Rt = Some R /\ row_ok q R.
Proof.
  intros W Hx He RE RT. pose proof W as [_ _ Ht He' _ Hlev [L1 L2]].
  assert (level dd (Cloud_NotCond e c) = level dd e) as Hle by (destruct He as (i & b & m & -> & Em); by rewrite (ptr_notcond dd G), !(level_ptr dd i _ m G Em)).
  rewrite Hle in L2. pose proof (idx_lt n fInv x Hx) as Hi. unfold supp_row. rewrite (proj2 (Z.leb_le _ _)), (proj2 (Z.ltb_lt _ _)) by lia. cbn [andb]. rewrite Nat2Z.id.
  rewrite (row_above e Re x He RE Hx L2), (row_above t Rt x Ht RT Hx L1), !Z.eqb_refl. eexists. split; [done|].
  rewrite <- (row_above e Re x He RE Hx L2), <- (row_above t Rt x Ht RT Hx L1). set (row := map _ _).
  assert (length row = 2 * n) as Hl by (unfold row; by rewrite length_map, length_seq).
  assert (forall k, (row.[2 * idx x + 0 <- Re.[2 * idx x + 0]].[2 * idx x + 1 <- Rt.[2 * idx x + 0]]).[k] =
    if decide (k = 2 * idx x + 1) then Rt.[2 * idx x + 0] else if decide (k = 2 * idx x + 0) then Re.[2 * idx x + 0] else
    if k <? 2 * n then Re.[k] ||| Rt.[k] ||| (1 <<< idx x) else 0%Z) as Hk.
  { intros k. destruct (decide (k = 2 * idx x + 1)) as [->|H1]; [by rewrite rd_wr_eq by (rewrite length_wr; lia)|]. rewrite rd_wr_ne by done.
    destruct (decide (k = 2 * idx x + 0)) as [->|H0]; [by rewrite rd_wr_eq by lia|]. rewrite rd_wr_ne by done. apply rd_map_seq. }
  split; [by rewrite !length_wr| |].
  - intros k j. rewrite Hk. do 2 (case_decide; [by apply RT || by apply RE|]). destruct (_ <? _); [|by rewrite Z.testbit_0_l].
    rewrite !Z.lor_spec, testbit_pow by lia. intros [[Hb|Hb]%orb_true_iff|Hb%Nat.eqb_eq]%orb_true_iff; [by apply (row_high _ _ RE k)|by apply (row_high _ _ RT k)|lia].
  - intros w u b Hw Hu Hc. rewrite Hk. pose proof (idx_lt n fInv w Hw) as Hiw. destruct (decide (w = x)) as [->|Hwx].
    + pose proof (row_bit _ _ RE x u false Hw Hu (or_introl L2)) as H0. pose proof (row_bit _ _ RT x u false Hw Hu (or_introl L1)) as H1.
      rewrite (cindep_node dd T q (Z.of_nat x) t (Cloud_NotCond e c) W). cbn [Nat.b2n] in H0, H1 |- *. destruct b.
      * rewrite decide_True by (cbn; lia). rewrite H1. by apply cindep_above.
      * rewrite decide_False, decide_True by (cbn; lia). rewrite H0, <- (cindep_notcond dd T e _ _ _ c) by done. apply cindep_above; [done|done|by rewrite Hle].
    + assert (idx w <> idx x) as Hne by (intros E; by apply Hwx, (idx_inj n fInv)). rewrite !decide_False by (destruct b; cbn [Nat.b2n]; lia).
      rewrite (proj2 (Nat.ltb_lt _ _)) by (destruct b; cbn [Nat.b2n]; lia). rewrite !Z.lor_spec, testbit_pow, !orb_false_iff, Nat.eqb_neq by lia.
      assert (idx u <> idx x <-> u <> x) as -> by (split; [congruence|intros Hux E; by apply Hux, (idx_inj n fInv)]).
      destruct (Nat.lt_ge_cases x w) as [Hxw|Hxw].
      * assert (w <= u) as Hwu by (destruct Hc as [Hc|Hc]; [rewrite Hlev in Hc; lia|done]). rewrite (row_bit _ _ RE w u b Hw Hu (or_intror Hwu)), (row_bit _ _ RT w u b Hw Hu (or_intror Hwu)).
        rewrite (cindep_below dd T q (Z.of_nat x) t (Cloud_NotCond e c) W) by lia. rewrite (cindep_notcond dd T e) by done. split; [tauto|]. intros [H1 H2]. split; [done|lia].
      * assert (Z.of_nat w < Z.of_nat x)%Z as Hl' by lia.
        rewrite (row_bit _ _ RE w u b Hw Hu) by (left; lia). rewrite (row_bit _ _ RT w u b Hw Hu) by (left; lia).
        rewrite !(cindep_above dd T) by (done || lia || (by eapply branches_live, W)). rewrite (indep_node dd T q (Z.of_nat x) t (Cloud_NotCond e c) W).
        rewrite <- (cindep_above dd T (Cloud_NotCond e c) (Z.of_nat w) b) by (done || lia). rewrite (cindep_notcond dd T e), (cindep_above dd T e) by (done || lia).
        assert (Z.of_nat u <> Z.of_nat x <-> u <> x) as -> by lia. tauto.
Qed.
End rows.

(** * Rows of an array *)

Lemma supp_last_spec d n t p L V v (fInv : bool) : array_of d n t p L V -> n <= 32 -> vec v V ->
  if constant_table t n then supp_last v n fInv = None
  else exists R, supp_last v n fInv = Some R /\ row_ok d n fInv p R.
Proof.
  intros [W Lp Hw NL [HV Hent] Hsm _ Hc] H32 Hv. pose proof W as [[T _] _]. pose proof (tab_geo d T) as G.
  unfold supp_last, vsize. rewrite (vec_size _ _ Hv), Nat2Z.id, HV.
  assert (exists rows, supp_rows v n fInv = Some rows /\ length rows = length L /\ forall i q, i < length L -> L !! i = Some q -> exists R, rows !! i = Some R /\ row_ok d n fInv q R) as (rows & -> & Hlr & Hr).
  { unfold supp_rows, vsize. rewrite (vec_size _ _ Hv), Nat2Z.id, HV. pose proof (lookup_lt_Some _ _ _ (nl_first _ _ _ NL)) as HL0.
    apply (for_range_ind (fun k s => exists rows, s = Some rows /\ length rows = k /\ forall i q, i < k -> L !! i = Some q -> exists R, rows !! i = Some R /\ row_ok d n fInv q R)); [lia|..].
    - exists [replicate (2 * n) 0%Z]. do 2 (split; [done|]). intros i q Hi Eq. assert (i = 0) as -> by lia. rewrite (nl_first _ _ _ NL) in Eq. injection Eq as <-.
      eexists. split; [done|]. rewrite (geo_one d G). by apply row_zero.
    - intros k s Hk (rows & -> & Hl & H). cbn [mbind option_bind]. rewrite (vec_ent _ _ Hv) by lia.
      destruct (entry_value d T p L NL Hsm n ltac:(lia) Hw k _ ltac:(lia) (Hent k ltac:(lia))) as (q & x & t' & e & it & ie & c & Eq & View & Hx & Hit & Hie & Et & Ee & ->).
      cbn [mux_v mux_t mux_e]. destruct (H it t' Hit Et) as (Rt & Ert & Okt), (H ie e Hie Ee) as (Re & Ere & Oke). rewrite !Nat2Z.id, Ere, Ert. cbn [mbind option_bind].
      destruct (listed d T p L NL Lp ie e Ee) as (j & nj & -> & Ej & _).
      replace (if fInv then x else (Z.of_nat n - 1 - x)%Z) with (Z.of_nat (idx n fInv (Z.to_nat x))) by (unfold idx; destruct fInv; lia).
      destruct (supp_row_spec d T n H32 fInv q (Z.to_nat x) t' (ptr d j false) c Re Rt) as (R & -> & Ok); [by rewrite Z2Nat.id by lia|lia|by eapply live_ptr|done|done|].
      cbn [mbind option_bind]. exists (rows ++ [R]). split; [done|]. split; [rewrite length_app; cbn; lia|]. intros i q' Hi Eq'.
      destruct (decide (i = k)) as [->|Hne].
      + rewrite Eq in Eq'. injection Eq' as <-. exists R. split; [|done]. rewrite <- Hl. by apply list_lookup_middle.
      + rewrite lookup_app_l by lia. apply H; [lia|done]. }
  cbn [mbind option_bind]. pose proof (nl_first _ _ _ NL) as E0. destruct (nl_last _ _ _ NL) as [L0 EL].
  assert (L !! (length L - 1) = Some (Cloud_Regular p)) as El by (rewrite EL, length_app; cbn [length]; rewrite Nat.add_sub; by apply list_lookup_middle).
  rewrite <- Hc. case_bool_decide as Hp.
  - rewrite Hp in El. pose proof (NoDup_lookup L _ _ _ (nl_nodup _ _ _ NL) El E0) as Hlen. by rewrite Hlen.
  - assert (0 < length L - 1) as Hl by (destruct (decide (length L - 1 = 0)) as [Hz|]; [rewrite Hz in El; congruence|lia]).
    rewrite (proj2 (Nat.leb_le _ _)) by lia. destruct (Hr (length L - 1) _ ltac:(lia) El) as (R & -> & [R1 R2 R3]). exists R. split; [done|].
    destruct Lp as (i & c & m & -> & Em). rewrite (ptr_regular d G) in R3.
    assert (ptr d i c = Cloud_NotCond (ptr d i false) c) as Ep by (by rewrite (ptr_notcond d G)). split; [done|done|]. intros w u b Hw' Hu Hcase.
    rewrite (level_ptr d i c m G Em) in Hcase. rewrite Ep, (cindep_notcond d T) by (by eapply live_ptr). apply R3; [done|done|]. by rewrite (level_ptr d i false m G Em).
Qed.

(** Every assignment of [n] variables is a minterm. *)
Lemma minterm_of (g : nat -> bool) n : exists m, forall i, i < n -> Nat.testbit m i = g i.
Proof.
  induction n as [|n [m IH]]; [exists 0; lia|]. exists (if g n then Nat.setbit m n else Nat.clearbit m n). intros i Hi. rewrite cof_bit.
  destruct (Nat.eqb_spec n i) as [->|]; [done|]. apply IH. lia.
Qed.

(** Independence of a diagram is independence of the function of the minterms. *)
Lemma cindep_cof d n p (fInv : bool) f v b j : table_ok d -> within d n p -> (forall m, cval d (fun x => Nat.testbit m (idx n fInv x)) p = f m) -> v < n -> j < n ->
  cindep d p (Z.of_nat (idx n fInv v)) b (Z.of_nat (idx n fInv j)) <-> forall m, cof j false (cof v b f) m = cof j true (cof v b f) m.
Proof.
  intros T Hw Hf Hv Hj.
  assert (forall (c : bool) a m, (forall x, x < n -> Nat.testbit m (idx n fInv x) = a x) ->
    cval d (set_var (set_var a (Z.of_nat (idx n fInv j)) c) (Z.of_nat (idx n fInv v)) b) p = cof j c (cof v b f) m) as H.
  { intros c a m Ha. unfold cof. rewrite <- Hf. apply (within_irrel d n p T Hw). intros x Hx. rewrite !cof_bit. unfold set_var.
    pose proof (idx_idx n fInv v Hv). pose proof (idx_idx n fInv j Hj). pose proof (idx_idx n fInv x Hx).
    destruct (Z.eqb_spec (Z.of_nat x) (Z.of_nat (idx n fInv v))), (Nat.eqb_spec v (idx n fInv x)); try congruence; try (exfalso; assert (x = idx n fInv v) by lia; congruence).
    destruct (Z.eqb_spec (Z.of_nat x) (Z.of_nat (idx n fInv j))), (Nat.eqb_spec j (idx n fInv x)); try congruence; try (exfalso; assert (x = idx n fInv j) by lia; congruence).
    by rewrite Ha. }
  split.
  - intros Hi m. rewrite <- !(H _ (fun x => Nat.testbit m (idx n fInv x)) m) by done. apply Hi.
  - intros Hi a. destruct (minterm_of (fun y => a (idx n fInv y)) n) as [m Hm]. rewrite !(H _ a m); [apply Hi|..]; intros x Hx; rewrite Hm, idx_idx by (done || by apply idx_lt); done.
Qed.

Lemma testbit_BitMask v j : v < 32 -> j < 32 -> Z.testbit (Kit_BitMask v) (Z.of_nat j) = (j <? v).
Proof.
  intros Hv Hj. unfold Kit_BitMask. rewrite testbit_wnot, testbit_wshl by lia. change 0xFFFFFFFF%Z with (Z.ones 32).
  destruct (Z.ltb_spec (Z.of_nat j) 32), (Z.leb_spec (Z.of_nat v) (Z.of_nat j)), (Nat.ltb_spec j v); try lia; cbn [andb negb]; try done. by rewrite Z.ones_spec_low by lia.
Qed.

(** The table for the reverse order. *)
Definition reversed (n : nat) (t t' : list Z) : Prop := forall m m', m < 2 ^ n -> m' < 2 ^ n -> (forall x, x < n -> Nat.testbit m' x = Nat.testbit m (n - 1 - x)) -> tbit t' m' = tbit t m.

Lemma tfun_reduce n t m : depends_below n (tfun n t) -> tfun n t m = tbit t (m mod 2 ^ n).
Proof.
  intros Hd. assert (2 ^ n <> 0) as H0 by (apply Nat.pow_nonzero; lia). rewrite (Hd m (m mod 2 ^ n)); [|intros i Hi; by rewrite Nat.mod_pow2_bits_low].
  apply tfun_small. unfold nmint. eapply Nat.lt_le_trans; [by apply Nat.mod_upper_bound|]. apply Nat.pow_le_mono_r; lia.
Qed.

Lemma reversed_tfun n t t' m m' : reversed n t t' -> depends_below n (tfun n t) -> depends_below n (tfun n t') ->
  (forall x, x < n -> Nat.testbit m' x = Nat.testbit m (n - 1 - x)) -> tfun n t' m' = tfun n t m.
Proof.
  intros Hr Hd Hd' H. rewrite !tfun_reduce by done. assert (2 ^ n <> 0) as H0 by (apply Nat.pow_nonzero; lia). apply Hr; [by apply Nat.mod_upper_bound..|].
  intros x Hx. rewrite !Nat.mod_pow2_bits_low by lia. by apply H.
Qed.

Lemma reversed_constant n t t' : is_tt n t -> is_tt n t' -> reversed n t t' -> depends_below n (tfun n t) -> depends_below n (tfun n t') -> constant_table t n = false -> constant_table t' n = false.
Proof.
  intros Ht Ht' Hr Hd Hd' [E0 E1]%orb_false_iff. destruct (tfun_nonzero n t Ht E0) as [m0 H0], (tfun_nonone n t Ht E1) as [m1 H1].
  assert (forall m, exists m', tfun n t' m' = tfun n t m) as H.
  { intros m. destruct (minterm_of (fun x => Nat.testbit m (n - 1 - x)) n) as [m' Hm]. exists m'. by apply reversed_tfun. }
  destruct (H m0) as [a0 A0], (H m1) as [a1 A1]. apply orb_false_iff. split; apply not_true_iff_false; intros E.
  - rewrite (tfun_const0 n t' a0 Ht' E) in A0. congruence.
  - rewrite (tfun_const1 n t' a1 Ht' E) in A1. congruence.
Qed.

Lemma fits_small dd n t : table_fits dd n t -> n <= 32.
Proof.
  intros F. pose proof (tf_edges _ _ _ F) as H. destruct (Nat.le_gt_cases n 32) as [|Hn]; [done|exfalso].
  pose proof (Nat.pow_le_mono_r 2 12 (n - 1) ltac:(lia) ltac:(lia)) as Hp. change (2 ^ 12)%Z with 4096%Z in H. apply Nat2Z.inj_le in Hp. rewrite (Nat2Z.inj_pow 2 12) in Hp. lia.
Qed.

Lemma FromTruth_array dd n t vNodes : table_fits dd n t -> (0 <= nCap vNodes <= ABC_INT_MAX)%Z ->
  exists d v p L V, Kit_CreateCloudFromTruth dd t n vNodes = Some (true, d, v) /\ vec v V /\ array_of d n t p L V.
Proof.
  intros F Hc. destruct (table_array_spec dd n t (Vec_IntClear vNodes) F Hc) as (d1 & p & d2 & d & v & L & V & E1 & E2 & E3 & Hv & A & _).
  exists d, v, p, L, V. unfold Kit_CreateCloudFromTruth. rewrite E1. cbn [mbind option_bind]. by rewrite E2.
Qed.

(** Merging the two rows. *)
Lemma merge_rd (R : list Z) N p k : N <= length p -> k < N ->
  (for_up N (fun Var p => p.[Var <- (p.[Var] &&& Kit_BitMask (Var / 2)) ||| (R.[Var] &&& ~~~ Kit_BitMask (Var / 2))]) p).[k] =
    (p.[k] &&& Kit_BitMask (k / 2)) ||| (R.[k] &&& ~~~ Kit_BitMask (k / 2)).
Proof.
  intros Hp Hk. rewrite (rd_for_up_own (fun j => j) N (length p)); [rewrite decide_True by done; by rewrite rd_wr_eq by lia|..|done].
  - intros. apply length_wr.
  - intros i q j _ _ Hj. by apply rd_wr_ne.
  - intros i q q' j Hi Hq Hq' He ->. rewrite !rd_wr_eq by lia. by rewrite (He i eq_refl).
Qed.

Lemma reversed_mux : reversed 3 [0xCACACACA]%Z [0xD8D8D8D8]%Z.
Proof.
  intros m m' Hm Hm' H. pose proof (H 0 ltac:(lia)) as H0. pose proof (H 1 ltac:(lia)) as H1. pose proof (H 2 ltac:(lia)) as H2. clear H. revert H0 H1 H2. change (2 ^ 3) with 8 in *.
  do 8 (destruct m as [|m]; [do 8 (destruct m' as [|m']; [vm_compute; congruence|]); lia|]). lia.
Qed.

(** * Properties *)

(** C15. The supports of the cofactors are exact: for the arrays of a table that is not constant and of the table for the
    reverse order of the variables, [Kit_TruthCofSupports] passes its assertions, and bit [j] of the word [2 * v + b]
    says whether the cofactor by variable [v] at [b] depends on variable [j]; the memory has the capacity for the rows.
    For a constant it reads a pointer that has no value. *)
Theorem cof_supports_correct dd dd' n t t' vDir vInv vMemory puSupps : table_fits dd n t -> table_fits dd' n t' -> reversed n t t' ->
  (0 <= nCap vDir <= ABC_INT_MAX)%Z -> (0 <= nCap vInv <= ABC_INT_MAX)%Z -> 2 * n <= length puSupps ->
  exists d v d' v', Kit_CreateCloudFromTruth dd t n vDir = Some (true, d, v) /\ Kit_CreateCloudFromTruth dd' t' n vInv = Some (true, d', v') /\
    if constant_table t n then Kit_TruthCofSupports v v' n vMemory puSupps = None
    else exists r vMemory', Kit_TruthCofSupports v v' n vMemory puSupps = Some (r, vMemory') /\ length r = length puSupps /\
      ((nSize vMemory <= nCap vMemory)%Z -> (Z.of_nat (2 * n) * nSize v <= nCap vMemory')%Z /\ (Z.of_nat (2 * n) * nSize v' <= nCap vMemory')%Z) /\
      forall x j (b : bool), x < n -> j < n ->
        Z.testbit r.[2 * x + Nat.b2n b] (Z.of_nat j) = false <-> forall m, cof j false (cof x b (tfun n t)) m = cof j true (cof x b (tfun n t)) m.
Proof.
  intros F F' Hrev Hc Hc' Hl. destruct (FromTruth_array dd n t vDir F Hc) as (d & v & p & L & V & E & Hv & A). destruct (FromTruth_array dd' n t' vInv F' Hc') as (d' & v' & p' & L' & V' & E' & Hv' & A').
  pose proof (fits_small _ _ _ F) as H32. exists d, v, d', v'. do 2 (split; [done|]). unfold Kit_TruthCofSupports.
  pose proof (supp_last_spec d n t p L V v false A H32 Hv) as H. pose proof (supp_last_spec d' n t' p' L' V' v' true A' H32 Hv') as H'.
  destruct (constant_table t n) eqn:Ec; [by rewrite H|].
  rewrite (reversed_constant n t t' (tf_table _ _ _ F) (tf_table _ _ _ F') Hrev (tf_depends _ _ _ F) (tf_depends _ _ _ F') Ec) in H'.
  destruct H as (R & -> & [R1 _ R3]), H' as (R' & -> & [R1' _ R3']). cbn [mbind option_bind].
  assert (length (R ++ drop (2 * n) puSupps) = length puSupps) as HlR by (rewrite length_app, length_drop; lia).
  eexists _, _. split; [done|]. split; [rewrite <- HlR; apply (for_up_ind (fun _ s => length s = length (R ++ drop (2 * n) puSupps))); [done|intros; by rewrite length_wr]|].
  split; [intros HV0; destruct (supp_memory_room vMemory (Z.of_nat (2 * n) * nSize v) HV0) as (M1 & _ & M2); destruct (supp_memory_room _ (Z.of_nat (2 * n) * nSize v') M2) as (M3 & M4 & _); split; [by etransitivity|done]|].
  intros x j b Hx Hj. assert (2 * x + Nat.b2n b < 2 * n) as Hk by (destruct b; cbn; lia). rewrite merge_rd by lia.
  assert ((2 * x + Nat.b2n b) / 2 = x) as -> by (rewrite Nat.mul_comm, Nat.div_add_l by lia; destruct b; cbn; lia).
  rewrite rd_app, (proj2 (Nat.ltb_lt _ _)) by lia. rewrite Z.lor_spec, !Z.land_spec, testbit_wnot, testbit_BitMask by lia.
  pose proof A as [W _ Hw _ _ _ Hval _]. pose proof A' as [W' _ Hw' _ _ _ Hval' _].
  destruct (Nat.ltb_spec j x) as [Hjx|Hjx]; cbn [negb]; rewrite ?andb_true_r, ?andb_false_r, ?orb_false_r; cbn [orb].
  - pose proof (R3 (n - 1 - x) (n - 1 - j) b ltac:(lia) ltac:(lia) ltac:(lia)) as H. unfold idx in H. replace (n - 1 - (n - 1 - x)) with x in H by lia. replace (n - 1 - (n - 1 - j)) with j in H by lia.
    rewrite H. apply (cindep_cof d n p false); [apply W|done|exact Hval|done|done].
  - pose proof (R3' x j b Hx Hj ltac:(lia)) as H. unfold idx in H. rewrite H. apply (cindep_cof d' n p' true); [apply W'|done| |done|done].
    intros m. unfold idx. destruct (minterm_of (fun y => Nat.testbit m (n - 1 - y)) n) as [m' Hm]. rewrite <- (reversed_tfun n t t' m m') by (done || apply F || apply F').
    rewrite <- Hval'. destruct W' as [[T' _] _]. apply (within_irrel d' n p' T' Hw'). intros y Hy. unfold asg. rewrite Hm by lia. f_equal. lia.
Qed.

Lemma cof_supports_correct_witness :
  (d ← Cloud_Init 3 4 4096; '(_, d, v) ← Kit_CreateCloudFromTruth d [0xCACACACA]%Z 3 {| nCap := 0; nSize := 0; pArray := [] |};
   '(_, d, v') ← Kit_CreateCloudFromTruth d [0xD8D8D8D8]%Z 3 {| nCap := 0; nSize := 0; pArray := [] |};
   '(r, _) ← Kit_TruthCofSupports v v' 3 {| nCap := 0; nSize := 0; pArray := [] |} (replicate 6 0)%Z; Some r) = Some [6; 6; 5; 5; 1; 2]%Z /\
  exists dd, Cloud_Init 3 4 4096 = Some dd /\
  exists d v d' v', Kit_CreateCloudFromTruth dd [0xCACACACA]%Z 3 {| nCap := 0; nSize := 0; pArray := [] |} = Some (true, d, v) /\
    Kit_CreateCloudFromTruth dd [0xD8D8D8D8]%Z 3 {| nCap := 0; nSize := 0; pArray := [] |} = Some (true, d', v') /\
    if constant_table [0xCACACACA]%Z 3 then Kit_TruthCofSupports v v' 3 {| nCap := 0; nSize := 0; pArray := [] |} (replicate 6 0)%Z = None
    else exists r vMemory', Kit_TruthCofSupports v v' 3 {| nCap := 0; nSize := 0; pArray := [] |} (replicate 6 0)%Z = Some (r, vMemory') /\
      length r = length (replicate 6 0%Z) /\ ((0 <= 0)%Z -> (Z.of_nat (2 * 3) * nSize v <= nCap vMemory')%Z /\ (Z.of_nat (2 * 3) * nSize v' <= nCap vMemory')%Z) /\
      forall x j (b : bool), x < 3 -> j < 3 ->
        Z.testbit r.[2 * x + Nat.b2n b] (Z.of_nat j) = false <->
        forall m, cof j false (cof x b (tfun 3 [0xCACACACA]%Z)) m = cof j true (cof x b (tfun 3 [0xCACACACA]%Z)) m.
Proof.
  split; [vm_compute; reflexivity|]. destruct (three_fits 0xCACACACA%Z mux_word eq_refl) as (dd & E & Hn & F). exists dd. split; [exact E|].
  destruct (three_fits 0xD8D8D8D8%Z) as (dd2 & E2 & _ & F2); [unfold is_word; lia|reflexivity|]. assert (dd2 = dd) as -> by congruence.
  apply (cof_supports_correct dd dd 3 [0xCACACACA]%Z [0xD8D8D8D8]%Z {| nCap := 0; nSize := 0; pArray := [] |} {| nCap := 0; nSize := 0; pArray := [] |}
    {| nCap := 0; nSize := 0; pArray := [] |} (replicate 6 0)%Z F F2).
  - exact reversed_mux.
  - cbn. unfold ABC_INT_MAX. lia.
  - cbn. unfold ABC_INT_MAX. lia.
  - cbn. lia.
Defined.
