(* ===== verification/Dsd.v ===== *)
(** Disjoint-support decomposition ([kitDsd.c]): the network of decomposition nodes and [Kit_DsdDecompose].

    A node is an AND, an XOR or a prime function of its fanins, which are literals of variables or of other nodes.  A
    pointer to a node is its place in the array of nodes; a pointer to a literal, which the recursion updates, is the
    root of the network or a fanin of a node.  Literals are [unsigned short]; the identifier of a node has six bits.  The
    truth table of a prime node lies behind its fanins and keeps its size when the node loses fanins.  The array of nodes
    grows as needed.  The scratch tables of the network are written before they are read. *)
From S2P Require Import Prelude Words Minterm TruthBasic TruthCof TruthPerm TruthSupp.

(** * Data *)

Inductive Kit_Dsd_t := KIT_DSD_NONE | KIT_DSD_CONST1 | KIT_DSD_VAR | KIT_DSD_AND | KIT_DSD_XOR | KIT_DSD_PRIME.
#[export] Instance Kit_Dsd_eq_dec : EqDecision Kit_Dsd_t.
Proof. solve_decision. Defined.

Record Kit_DsdObj_t := mkDsdObj {
  dId : nat;
  dType : Kit_Dsd_t;
  fMark : bool;
  nRefs : nat;
  nFans : nat;
  pFans : list nat;
  pTruth : list Z }.

Record Kit_DsdNtk_t := mkDsdNtk { dnVars : nat; Root : nat; pNodes : list Kit_DsdObj_t }.

(** The fields that change. *)
Definition with_type (o : Kit_DsdObj_t) (t : Kit_Dsd_t) : Kit_DsdObj_t := mkDsdObj (dId o) t (fMark o) (nRefs o) (nFans o) (pFans o) (pTruth o).
Definition with_mark (o : Kit_DsdObj_t) (b : bool) : Kit_DsdObj_t := mkDsdObj (dId o) (dType o) b (nRefs o) (nFans o) (pFans o) (pTruth o).
Definition with_refs (o : Kit_DsdObj_t) (n : nat) : Kit_DsdObj_t := mkDsdObj (dId o) (dType o) (fMark o) n (nFans o) (pFans o) (pTruth o).
Definition with_fans (o : Kit_DsdObj_t) (n : nat) (fans : list nat) : Kit_DsdObj_t := mkDsdObj (dId o) (dType o) (fMark o) (nRefs o) n fans (pTruth o).
Definition with_truth (o : Kit_DsdObj_t) (t : list Z) : Kit_DsdObj_t := mkDsdObj (dId o) (dType o) (fMark o) (nRefs o) (nFans o) (pFans o) t.
Definition set_obj (pNtk : Kit_DsdNtk_t) (i : nat) (o : Kit_DsdObj_t) : Kit_DsdNtk_t := mkDsdNtk (dnVars pNtk) (Root pNtk) (<[i := o]> (pNodes pNtk)).

(** Literals. *)
Definition lit (v : nat) (c : bool) : nat := 2 * v + Nat.b2n c.
Definition lit_id (l : nat) : nat := Nat.div2 l.
Definition lit_compl (l : nat) : bool := Nat.odd l.
Definition lit_notcond (l : nat) (c : bool) : nat := lit (lit_id l) (xorb (lit_compl l) c).
Definition lit_not (l : nat) : nat := lit_notcond l true.
Definition fan (o : Kit_DsdObj_t) (k : nat) : nat := nth k (pFans o) 0.

(** A pointer to a literal. *)
Inductive dsd_ptr := par_root | par_fan (i k : nat).
Definition read_lit (pNtk : Kit_DsdNtk_t) (p : dsd_ptr) : option nat :=
  match p with par_root => Some (Root pNtk) | par_fan i k => o ← pNodes pNtk !! i; pFans o !! k end.
Definition write_lit (pNtk : Kit_DsdNtk_t) (p : dsd_ptr) (l : nat) : option Kit_DsdNtk_t :=
  match p with
  | par_root => Some (mkDsdNtk (dnVars pNtk) l (pNodes pNtk))
  | par_fan i k => o ← pNodes pNtk !! i; assert! k <? length (pFans o) in Some (set_obj pNtk i (with_fans o (nFans o) (<[k := l]> (pFans o))))
  end.

Definition Kit_DsdNtkAlloc (nVars : nat) : Kit_DsdNtk_t := mkDsdNtk nVars 0 [].
Definition Kit_DsdNtkObj (pNtk : Kit_DsdNtk_t) (Id : nat) : option (option Kit_DsdObj_t) :=
  assert! Id <? dnVars pNtk + length (pNodes pNtk) in
  if Id <? dnVars pNtk then Some None else o ← pNodes pNtk !! (Id - dnVars pNtk); Some (Some o).

(** The place of the new node is the old number of nodes. *)
Definition Kit_DsdObjAlloc (pNtk : Kit_DsdNtk_t) (Type_ : Kit_Dsd_t) (nFans : nat) : nat * Kit_DsdNtk_t :=
  let nNodes := length (pNodes pNtk) in
  let words := if decide (Type_ = KIT_DSD_PRIME) then Kit_TruthWordNum nFans else 0 in
  (nNodes, mkDsdNtk (dnVars pNtk) (Root pNtk) (pNodes pNtk ++
    [mkDsdObj ((dnVars pNtk + nNodes) mod 2 ^ 6) Type_ false 0 (nFans mod 2 ^ 6) (repeat 0 nFans) (repeat 0%Z words)])).

(** * Decomposition of a node *)

(** What an iteration of a loop does: it goes on, or the routine returns. *)
Inductive turn := go | stop (r : option Kit_DsdNtk_t).

(** The recursive call: the network, the node, its support and the literal to update. *)
Definition dsd_call := Kit_DsdNtk_t -> nat -> Z -> dsd_ptr -> option Kit_DsdNtk_t.

Definition scratch (n : nat) : list Z := repeat 0%Z (Kit_TruthWordNum n).

(** [if ( uSupp & (1 << j) ) pFans[k++] = pFans[j]]. *)
Definition move_fans (uSupp : Z) (n : nat) (fans : list nat) : nat * list nat :=
  for_up n (fun j '(k, fans) => if Z.testbit uSupp (Z.of_nat j) then (S k, <[k := nth j fans 0]> fans) else (k, fans)) (0, fans).

(** The node without the fanins that its function does not use. *)
Definition dsd_compress (o : Kit_DsdObj_t) (uSupp : Z) : option (Kit_DsdObj_t * Z) :=
  if negb (uSupp =? Kit_BitMask (nFans o))%Z then
    let nFansNew := Z.to_nat (Kit_WordCountOnes uSupp) in
    '(_, t) ← Kit_TruthShrink (scratch (nFans o)) (pTruth o) nFansNew (nFans o) uSupp true;
    let '(k, fans) := move_fans uSupp (nFans o) (pFans o) in
    assert! k =? nFansNew in
    Some (with_fans (with_truth o t) k fans, Kit_BitMask k)
  else Some (o, uSupp).

(** A node that is a single variable gives its literal to its parent. *)
Definition dsd_single (pNtk : Kit_DsdNtk_t) (pObj : nat) (o : Kit_DsdObj_t) (pPar : dsd_ptr) : option Kit_DsdNtk_t :=
  let o := with_type o KIT_DSD_NONE in
  o ← if ((pTruth o).[0] =? 0x55555555)%Z then Some (with_fans o (nFans o) (<[0 := lit_not (fan o 0)]> (pFans o)))
      else assert! ((pTruth o).[0] =? 0xAAAAAAAA)%Z in Some o;
  let pNtk := set_obj pNtk pObj o in
  l ← read_lit pNtk pPar;
  write_lit pNtk pPar (lit_notcond (fan o 0) (lit_compl l)).

(** The fanins of a cofactor in a multiplexer. *)
Definition mux_fans (uSupp : Z) (n : nat) (fans : list nat) : list nat :=
  map (fun k => if Z.testbit uSupp (Z.of_nat k) then nth k fans 0 else 127) (seq 0 n).

(** The node becomes a multiplexer of two new nodes, for the two cofactors. *)
Definition dsd_mux (rec : dsd_call) (pNtk : Kit_DsdNtk_t) (pObj : nat) (i : nat) (fans0 fans1 : list nat) (c0 c1 : list Z) (uSupp0 uSupp1 : Z) : option Kit_DsdNtk_t :=
  o ← pNodes pNtk !! pObj;
  let '(pRes0, pNtk) := Kit_DsdObjAlloc pNtk KIT_DSD_PRIME (nFans o) in
  let '(pRes1, pNtk) := Kit_DsdObjAlloc pNtk KIT_DSD_PRIME (nFans o) in
  r0 ← pNodes pNtk !! pRes0;
  r1 ← pNodes pNtk !! pRes1;
  let r0 := with_refs (with_truth (with_fans r0 (nFans r0) fans0) (Kit_TruthCopy (pTruth r0) c0 (nFans o))) (nRefs r0 + 1) in
  let r1 := with_refs (with_truth (with_fans r1 (nFans r1) fans1) (Kit_TruthCopy (pTruth r1) c1 (nFans o))) (nRefs r1 + 1) in
  let pNtk := set_obj (set_obj pNtk pRes0 r0) pRes1 r1 in
  assert! bool_decide (dType o = KIT_DSD_PRIME) in
  let o := with_truth o (pTruth o).[0 <- 0xCACACACA] in
  let fans := <[1 := 2 * dId r1]> (<[0 := 2 * dId r0]> (<[2 := fan o i]> (pFans o))) in
  let pNtk := set_obj pNtk pObj (with_fans o 3 fans) in
  pNtk ← rec pNtk pRes0 uSupp0 (par_fan pObj 0);
  rec pNtk pRes1 uSupp1 (par_fan pObj 1).

(** An AND or XOR of the fanin [i] and of the rest of the node, above the node. *)
Definition dsd_above (rec : dsd_call) (pNtk : Kit_DsdNtk_t) (pObj : nat) (uSupp : Z) (pPar : dsd_ptr) (i : nat)
    (Type_ : Kit_Dsd_t) (fCompl0 fCompl1 fComplPar : bool) (cof : list Z) : option Kit_DsdNtk_t :=
  o ← pNodes pNtk !! pObj;
  let '(pRes, pNtk) := Kit_DsdObjAlloc pNtk KIT_DSD_AND 2 in
  r ← pNodes pNtk !! pRes;
  let r := with_type (with_fans (with_refs r (nRefs r + 1)) 2 [lit_notcond (fan o i) fCompl0; lit_notcond (2 * dId o) fCompl1]) Type_ in
  let uSupp := (uSupp &&& ~~~ (1 <<< i))%Z in
  let o := with_truth (with_fans o (nFans o) (<[i := 127]> (pFans o))) (Kit_TruthCopy (pTruth o) cof (nFans o)) in
  let pNtk := set_obj (set_obj pNtk pRes r) pObj o in
  l ← read_lit pNtk pPar;
  pNtk ← write_lit pNtk pPar (lit_notcond (lit_notcond (2 * dId r) (lit_compl l)) fComplPar);
  assert! bool_decide (dType o = KIT_DSD_PRIME) in
  rec pNtk pObj uSupp (par_fan pRes 1).

(** The output is decomposed at the fanin [i]. *)
Definition dsd_output (rec : dsd_call) (pNtk : Kit_DsdNtk_t) (pObj : nat) (uSupp : Z) (pPar : dsd_ptr) (i : nat) : turn :=
  match pNodes pNtk !! pObj with
  | None => stop None
  | Some o =>
    let n := nFans o in
    let c0 := Kit_TruthCofactor0New (scratch n) (pTruth o) n i in
    let c1 := Kit_TruthCofactor1New (scratch n) (pTruth o) n i in
    if Kit_TruthIsEqual c0 c1 n then stop None
    else if negb (Kit_TruthIsConst0 c0 n || Kit_TruthIsConst0 c1 n || Kit_TruthIsConst1 c0 n || Kit_TruthIsConst1 c1 n || Kit_TruthIsOpposite c0 c1 n) then
      let uSupp0 := Kit_TruthSupport c0 n in
      let uSupp1 := Kit_TruthSupport c1 n in
      if negb (uSupp =? (uSupp0 ||| uSupp1 ||| (1 <<< i)))%Z then stop None
      else if negb ((uSupp0 &&& uSupp1) =? 0)%Z then go
      else stop (dsd_mux rec pNtk pObj i (mux_fans uSupp0 n (pFans o)) (mux_fans uSupp1 n (pFans o)) c0 c1 uSupp0 uSupp1)
    else
      let above := dsd_above rec pNtk pObj uSupp pPar i in
      stop (
        if Kit_TruthIsConst0 c0 n then above KIT_DSD_AND false false false c1
        else if Kit_TruthIsConst0 c1 n then above KIT_DSD_AND true false false c0
        else if Kit_TruthIsConst1 c0 n then above KIT_DSD_AND false true true c1
        else if Kit_TruthIsConst1 c1 n then above KIT_DSD_AND true true true c0
        else above KIT_DSD_XOR false false false c0)
  end.

(** A new node for some fanins takes the place of the fanin [k]; the fanins in [gone] are dropped. *)
Definition dsd_below (rec : dsd_call) (pNtk : Kit_DsdNtk_t) (pObj : nat) (uSupp : Z) (pPar : dsd_ptr) (k : nat) (gone : list nat)
    (Type_ : Kit_Dsd_t) (fans : list nat) (t : list Z) : option Kit_DsdNtk_t :=
  o ← pNodes pNtk !! pObj;
  let '(pRes, pNtk) := Kit_DsdObjAlloc pNtk (if decide (Type_ = KIT_DSD_PRIME) then KIT_DSD_PRIME else KIT_DSD_AND) (length fans) in
  r ← pNodes pNtk !! pRes;
  let r := with_type (with_fans (with_refs r (nRefs r + 1)) (length fans) fans) Type_ in
  let r := if decide (Type_ = KIT_DSD_PRIME) then with_truth r (pTruth r).[0 <- 0xCACACACA] else r in
  let uSupp := foldl (fun s j => (s &&& ~~~ (1 <<< j))%Z) uSupp gone in
  let o := with_truth (with_fans o (nFans o) (<[k := 2 * dId r]> (foldl (fun l j => <[j := 127]> l) (pFans o) gone))) t in
  rec (set_obj (set_obj pNtk pRes r) pObj o) pObj uSupp pPar.

(** Two fanins [i] and [k] whose four cofactors have few values. *)
Definition dsd_pair (rec : dsd_call) (pNtk : Kit_DsdNtk_t) (pObj : nat) (uSupp : Z) (pPar : dsd_ptr) (c0 c1 : list Z) (i k : nat) : turn :=
  match pNodes pNtk !! pObj with
  | None => stop None
  | Some o =>
    let n := nFans o in
    let c00 := Kit_TruthCofactor0New (scratch n) c0 n k in
    let c01 := Kit_TruthCofactor1New (scratch n) c0 n k in
    let c10 := Kit_TruthCofactor0New (scratch n) c1 n k in
    let c11 := Kit_TruthCofactor1New (scratch n) c1 n k in
    let f01 := Kit_TruthIsEqual c00 c01 n in
    let f02 := Kit_TruthIsEqual c00 c10 n in
    let f03 := Kit_TruthIsEqual c00 c11 n in
    let f12 := Kit_TruthIsEqual c01 c10 n in
    let f13 := Kit_TruthIsEqual c01 c11 n in
    let f23 := Kit_TruthIsEqual c10 c11 n in
    let nPairs := Nat.b2n f01 + Nat.b2n f02 + Nat.b2n f03 + Nat.b2n f12 + Nat.b2n f13 + Nat.b2n f23 in
    if negb (nPairs =? 3) && negb (nPairs =? 2) then go
    else
      let below Type_ fCompl0 fCompl1 t0 t1 := dsd_below rec pNtk pObj uSupp pPar k [i] Type_ [lit_notcond (fan o k) fCompl0; lit_notcond (fan o i) fCompl1]
        (Kit_TruthMuxVar (pTruth o) t0 t1 n k) in
      stop (
        if negb f01 && negb f02 && negb f03 then below KIT_DSD_AND true true c11 c00
        else if negb f01 && negb f12 && negb f13 then below KIT_DSD_AND false true c00 c01
        else if negb f02 && negb f12 && negb f23 then below KIT_DSD_AND true false c00 c10
        else if negb f03 && negb f13 && negb f23 then below KIT_DSD_AND false false c00 c11
        else assert! f03 && f12 in below KIT_DSD_XOR false false c00 c01)
  end.

(** The first turn that is not [go]. *)
Definition or_turn (t : turn) (next : turn) : turn := match t with go => next | stop r => stop r end.

(** The inputs are decomposed at the fanin [i]. *)
Definition dsd_input (rec : dsd_call) (pNtk : Kit_DsdNtk_t) (pObj : nat) (uSupp : Z) (pPar : dsd_ptr) (i : nat) : turn :=
  match pNodes pNtk !! pObj with
  | None => stop None
  | Some o =>
    let n := nFans o in
    if negb (Kit_TruthVarInSupport (pTruth o) n i) then stop None else
    let c0 := Kit_TruthCofactor0New (scratch n) (pTruth o) n i in
    let c1 := Kit_TruthCofactor1New (scratch n) (pTruth o) n i in
    let uSupp0 := Kit_TruthSupport c0 n in
    let uSupp1 := Kit_TruthSupport c1 n in
    if negb (uSupp =? (uSupp0 ||| uSupp1 ||| (1 <<< i)))%Z then stop None
    else if (uSupp0 =? 0)%Z || (uSupp1 =? 0)%Z then stop (rec (set_obj pNtk pObj (with_mark o false)) pObj uSupp pPar)
    else
      let nFans0 := Kit_WordCountOnes (uSupp0 &&& ~~~ uSupp1) in
      let nFans1 := Kit_WordCountOnes (uSupp1 &&& ~~~ uSupp0) in
      let mux :=
        if (nFans0 =? 1)%Z && (nFans1 =? 1)%Z then
          let iLit0 := Z.to_nat (Kit_WordFindFirstBit (uSupp0 &&& ~~~ uSupp1)) in
          let iLit1 := Z.to_nat (Kit_WordFindFirstBit (uSupp1 &&& ~~~ uSupp0)) in
          let c00 := Kit_TruthCofactor0New (scratch n) c0 n iLit0 in
          let c01 := Kit_TruthCofactor1New (scratch n) c0 n iLit0 in
          let c10 := Kit_TruthCofactor0New (scratch n) c1 n iLit1 in
          let c11 := Kit_TruthCofactor1New (scratch n) c1 n iLit1 in
          let f00 := Kit_TruthIsEqual c00 c10 n in
          let f01 := Kit_TruthIsEqual c01 c11 n in
          let f10 := Kit_TruthIsEqual c00 c11 n in
          let f11 := Kit_TruthIsEqual c01 c10 n in
          if f00 && f01 || f10 && f11 then
            stop (dsd_below rec pNtk pObj uSupp pPar i [iLit0; iLit1] KIT_DSD_PRIME
              [lit_notcond (fan o iLit0) (f10 && f11); fan o iLit1; fan o i] (Kit_TruthMuxVar (pTruth o) c10 c11 n i))
          else go
        else go in
      or_turn mux (for_range (i + 1) n (fun k t => or_turn t (dsd_pair rec pNtk pObj uSupp pPar c0 c1 i k)) go)
  end.

(** Above the limit, the node becomes a multiplexer of the variable with the smallest cofactors. *)
Definition dsd_limit (rec : dsd_call) (pNtk : Kit_DsdNtk_t) (pObj : nat) (nDecMux : nat) : option Kit_DsdNtk_t :=
  o ← pNodes pNtk !! pObj;
  let n := nFans o in
  if (0 <? nDecMux) && (nDecMux <? n) then
    let '(iBestVar, c0, c1) := Kit_TruthBestCofVar (pTruth o) n (scratch n) (scratch n) in
    assert! (0 <=? iBestVar)%Z in
    dsd_mux rec pNtk pObj (Z.to_nat iBestVar) (take n (pFans o)) (take n (pFans o)) c0 c1 (Kit_TruthSupport c0 n) (Kit_TruthSupport c1 n)
  else Some pNtk.

Definition dsd_decompose (rec : dsd_call) (pNtk : Kit_DsdNtk_t) (pObj : nat) (uSupp : Z) (pPar : dsd_ptr) (nDecMux : nat) : option Kit_DsdNtk_t :=
  o ← pNodes pNtk !! pObj;
  assert! 0 <? nFans o in
  assert! bool_decide (dType o = KIT_DSD_PRIME) in
  assert! (uSupp =? Kit_TruthSupport (pTruth o) (nFans o))%Z in
  '(o, uSupp) ← dsd_compress o uSupp;
  if nFans o =? 1 then dsd_single pNtk pObj o pPar
  else
    let pNtk := set_obj pNtk pObj o in
    let n := nFans o in
    match (if fMark o then go else for_down n (fun i t => or_turn t (dsd_output rec pNtk pObj uSupp pPar i)) go) with
    | stop r => r
    | go =>
      let pNtk := set_obj pNtk pObj (with_mark o true) in
      match for_down n (fun i t => or_turn t (dsd_input rec pNtk pObj uSupp pPar i)) go with
      | stop r => r
      | go => dsd_limit rec pNtk pObj nDecMux
      end
    end.

Fixpoint Kit_DsdDecompose_rec (fuel : nat) (pNtk : Kit_DsdNtk_t) (pObj : nat) (uSupp : Z) (pPar : dsd_ptr) (nDecMux : nat) : option Kit_DsdNtk_t :=
  match fuel with
  | O => None
  | S fuel => dsd_decompose (fun pNtk pObj uSupp pPar => Kit_DsdDecompose_rec fuel pNtk pObj uSupp pPar nDecMux) pNtk pObj uSupp pPar nDecMux
  end.

(** Two levels of the recursion for every variable are enough. *)
Definition Kit_DsdDecomposeInt (pTruth_ : list Z) (nVars nDecMux : nat) : option Kit_DsdNtk_t :=
  assert! nVars <=? 16 in
  let pNtk := Kit_DsdNtkAlloc nVars in
  let pNtk := mkDsdNtk nVars (lit nVars false) (pNodes pNtk) in
  let '(pObj, pNtk) := Kit_DsdObjAlloc pNtk KIT_DSD_PRIME nVars in
  o ← pNodes pNtk !! pObj;
  let o := with_truth (with_fans o (nFans o) (map (fun i => lit i false) (seq 0 nVars))) (Kit_TruthCopy (pTruth o) pTruth_ nVars) in
  let uSupp := Kit_TruthSupport pTruth_ nVars in
  let nVarsReal := Kit_WordCountOnes uSupp in
  if (nVarsReal =? 0)%Z then
    let pNtk := set_obj pNtk pObj (with_type (with_fans o 0 (pFans o)) KIT_DSD_CONST1) in
    Some (mkDsdNtk nVars (if (pTruth_.[0] =? 0)%Z then lit_not (Root pNtk) else Root pNtk) (pNodes pNtk))
  else if (nVarsReal =? 1)%Z then
    Some (set_obj pNtk pObj (with_type (with_fans o 1 (<[0 := lit (Z.to_nat (Kit_WordFindFirstBit uSupp)) (Z.testbit pTruth_.[0] 0)]> (pFans o))) KIT_DSD_VAR))
  else Kit_DsdDecompose_rec (2 * nVars + 2) (set_obj pNtk pObj o) pObj uSupp par_root nDecMux.

Definition Kit_DsdDecompose (pTruth_ : list Z) (nVars : nat) : option Kit_DsdNtk_t := Kit_DsdDecomposeInt pTruth_ nVars 0.
Definition Kit_DsdDecomposeMux (pTruth_ : list Z) (nVars nDecMux : nat) : option Kit_DsdNtk_t := Kit_DsdDecomposeInt pTruth_ nVars nDecMux.
