(* ===== verification/DsdFun.v ===== *)
(** Functions under decomposition: variables that do not matter, cofactors, and the functions of the tables that
    [Kit_DsdDecompose_rec] makes.  A function of [k] variables is applied to the values of its variables by [app]. *)
From S2P Require Import Prelude Words Relabel Minterm TruthBasic TruthCof TruthPerm TruthSupp Cube Minato Isop CloudTruth.

(** * Variables that do not matter *)

Definition vac (j : nat) (F : nat -> bool) : Prop := forall m, cof j false F m = cof j true F m.

Lemma cof_cof i j b c F m : i <> j -> cof i b (cof j c F) m = cof j c (cof i b F) m.
Proof.
  intros H. unfold cof. f_equal. apply Nat.bits_inj. intros x. rewrite !cof_bit. destruct (Nat.eqb_spec i x), (Nat.eqb_spec j x); congruence.
Qed.
Lemma cof_same i b c F m : cof i b (cof i c F) m = cof i c F m.
Proof. unfold cof. f_equal. apply Nat.bits_inj. intros x. rewrite !cof_bit. by destruct (Nat.eqb_spec i x). Qed.

Lemma vac_cof i b F : vac i (cof i b F).
Proof. intros m. by rewrite !cof_same. Qed.

Lemma vac_ext j F G : (forall m, F m = G m) -> vac j F -> vac j G.
Proof. intros E H m. unfold cof. rewrite <- !E. apply H. Qed.

Lemma vac_value i b F m : vac i F -> cof i b F m = F m.
Proof. intros H. rewrite <- (cof_id i F m). by destruct (Nat.testbit m i), b; rewrite ?(H m). Qed.

Lemma vac_split i j F : i <> j -> vac j F <-> vac j (cof i false F) /\ vac j (cof i true F).
Proof.
  intros Hij. split.
  - intros H. split; intros m; rewrite !(cof_cof j i) by done; apply H.
  - intros [H0 H1] m. rewrite <- (cof_id i (cof j false F)), <- (cof_id i (cof j true F)). rewrite !(cof_cof i j) by done.
    destruct (Nat.testbit m i); [apply H1|apply H0].
Qed.

Lemma vac_mux i j C D : i <> j -> vac i C -> vac i D -> vac j (fun m => if Nat.testbit m i then D m else C m) <-> vac j C /\ vac j D.
Proof.
  intros Hij HC HD. rewrite (vac_split i j) by done.
  assert (forall b m, cof i b (fun m => if Nat.testbit m i then D m else C m) m = if b then D m else C m) as E.
  { intros b m. unfold cof at 1. rewrite cof_bit, Nat.eqb_refl. destruct b; [apply (vac_value i true D m HD)|apply (vac_value i false C m HC)]. }
  split; intros [H0 H1]; (split; [eapply vac_ext; [|exact H0]|eapply vac_ext; [|exact H1]]); intros m; by rewrite E.
Qed.

Lemma vac_neg j F : vac j (fun m => negb (F m)) <-> vac j F.
Proof. split; intros H m; specialize (H m); unfold cof in *; by destruct (F _), (F _). Qed.

Lemma vac_const j F b : (forall m, F m = b) -> vac j F.
Proof. intros H m. unfold cof. by rewrite !H. Qed.

(** A function only looks at the variables that matter. *)
Lemma vac_agree k F m m' : depends_below k F -> (forall j, j < k -> vac j F \/ Nat.testbit m j = Nat.testbit m' j) -> F m = F m'.
Proof.
  intros Hd H. assert (forall i, i <= k -> exists x, (forall j, Nat.testbit x j = if j <? i then Nat.testbit m' j else Nat.testbit m j) /\ F x = F m) as Hx.
  { induction i as [|i IH]; intros Hi; [by exists m|]. destruct IH as (x & Hx & E); [lia|]. exists (if Nat.testbit m' i then Nat.setbit x i else Nat.clearbit x i). split.
    - intros j. rewrite cof_bit, Hx. destruct (Nat.eqb_spec i j) as [<-|Hne]; [by rewrite (proj2 (Nat.ltb_lt _ _)) by lia|].
      destruct (Nat.ltb_spec j i), (Nat.ltb_spec j (S i)); (done || lia).
    - rewrite <- E. destruct (H i ltac:(lia)) as [Hv|Hb]; [apply (vac_value i _ F x Hv)|]. f_equal. apply Nat.bits_inj. intros j. rewrite cof_bit.
      destruct (Nat.eqb_spec i j) as [<-|]; [|done]. by rewrite Hx, Nat.ltb_irrefl. }
  destruct (Hx k (le_n k)) as (x & Hb & <-). apply Hd. intros j Hj. by rewrite Hb, (proj2 (Nat.ltb_lt _ _)).
Qed.

Lemma vac_depends k F : (forall m m', (forall j, ~ vac j F -> Nat.testbit m j = Nat.testbit m' j) -> F m = F m') -> (forall j, k <= j -> vac j F) -> depends_below k F.
Proof. intros H Hv m m' Hm. apply H. intros j Hj. apply Hm. destruct (Nat.lt_ge_cases j k); [done|]. by contradict Hj; apply Hv. Qed.

Lemma depends_vac k F j : depends_below k F -> k <= j -> vac j F.
Proof. intros Hd Hj m. apply Hd. intros i Hi. rewrite clearbit_if, setbit_if. destruct (Nat.eqb_spec j i); [lia|done]. Qed.

Lemma depends_cof_any k i b F : depends_below k F -> depends_below k (cof i b F).
Proof. intros H m m' Hm. apply H. intros j Hj. rewrite !cof_bit. destruct (i =? j); [done|by apply Hm]. Qed.

Lemma depends_mux k i C D : i < k -> depends_below k C -> depends_below k D -> depends_below k (fun m => if Nat.testbit m i then D m else C m).
Proof. intros Hi HC HD m m' Hm. rewrite (Hm i Hi), (HC m m' Hm), (HD m m' Hm). done. Qed.

(** * Application *)

Fixpoint mint (k : nat) (G : nat -> bool) : nat :=
  match k with O => 0 | S k => if G k then Nat.setbit (mint k G) k else Nat.clearbit (mint k G) k end.
Definition app (k : nat) (F : nat -> bool) (G : nat -> bool) : bool := F (mint k G).
Definition upd (G : nat -> bool) (i : nat) (b : bool) : nat -> bool := fun j => if j =? i then b else G j.

Lemma mint_bit k G j : j < k -> Nat.testbit (mint k G) j = G j.
Proof.
  induction k as [|k IH]; intros Hj; [lia|]. cbn [mint]. rewrite cof_bit. destruct (Nat.eqb_spec k j) as [->|]; [done|]. apply IH. lia.
Qed.

Lemma app_agree k F G G' : depends_below k F -> (forall j, j < k -> vac j F \/ G j = G' j) -> app k F G = app k F G'.
Proof. intros Hd H. apply (vac_agree k); [done|]. intros j Hj. rewrite !mint_bit by done. by apply H. Qed.

Lemma app_fun k F F' G : (forall m, F m = F' m) -> app k F G = app k F' G.
Proof. intros H. apply H. Qed.

Lemma app_cof k F G i b : depends_below k F -> i < k -> app k (cof i b F) G = app k F (upd G i b).
Proof.
  intros Hd Hi. unfold app, cof. apply Hd. intros j Hj. rewrite cof_bit, !mint_bit by done. unfold upd. rewrite (Nat.eqb_sym j i). done.
Qed.

Lemma app_split k F G i : depends_below k F -> i < k -> app k F G = if G i then app k (cof i true F) G else app k (cof i false F) G.
Proof.
  intros Hd Hi. rewrite !app_cof by done. destruct (G i) eqn:E; apply app_agree; try done; intros j Hj; right; unfold upd; destruct (Nat.eqb_spec j i) as [->|]; done.
Qed.

Lemma app_mux k C D G i : i < k -> app k (fun m => if Nat.testbit m i then D m else C m) G = if G i then app k D G else app k C G.
Proof. intros Hi. unfold app. by rewrite mint_bit. Qed.

Lemma app_vac k F G i b : depends_below k F -> vac i F -> app k F (upd G i b) = app k F G.
Proof. intros Hd Hv. apply app_agree; [done|]. intros j Hj. unfold upd. destruct (Nat.eqb_spec j i) as [->|]; [by left|by right]. Qed.

(** * Tables *)

(** A table of [k] variables, with copies up to the five variables of a word. *)
Definition proper (k : nat) (T : list Z) : Prop := is_tt k T /\ depends_below k (tfun k T).

Lemma scratch_tt k : is_tt k (repeat 0%Z (Kit_TruthWordNum k)).
Proof. by apply is_tt_zeros. Qed.

Lemma tfun_Cofactor0New k p T i m : is_tt k p -> i < k -> tfun k (Kit_TruthCofactor0New p T k i) m = cof i false (tfun k T) m.
Proof. intros [Hp _] Hi. unfold tfun, cof. rewrite (mod_nmint_chg false) by lia. apply tbit_Cofactor0New; [done|done|apply mod_nmint]. Qed.
Lemma tfun_Cofactor1New k p T i m : is_tt k p -> i < k -> tfun k (Kit_TruthCofactor1New p T k i) m = cof i true (tfun k T) m.
Proof. intros [Hp _] Hi. unfold tfun, cof. rewrite (mod_nmint_chg true) by lia. apply tbit_Cofactor1New; [done|done|apply mod_nmint]. Qed.
Lemma tfun_MuxVar k p T0 T1 i m : is_tt k p -> i < k -> tfun k (Kit_TruthMuxVar p T0 T1 k i) m = if Nat.testbit m i then tfun k T1 m else tfun k T0 m.
Proof. intros [Hp _] Hi. unfold tfun. rewrite tbit_MuxVar by (done || apply mod_nmint). by rewrite mod_nmint_bit by lia. Qed.
Lemma tfun_Copy k p T m : is_tt k p -> tfun k (Kit_TruthCopy p T k) m = tfun k T m.
Proof. intros [Hp _]. apply tbit_Copy; [done|apply mod_nmint]. Qed.

Lemma proper_Cofactor0New k p T i : is_tt k p -> i < k -> proper k T -> proper k (Kit_TruthCofactor0New p T k i).
Proof.
  intros Hp Hi [Ht Hd]. split; [by apply is_tt_Cofactor0New|]. eapply depends_ext; [intros m; symmetry; by apply tfun_Cofactor0New|]. by apply depends_cof_any.
Qed.
Lemma proper_Cofactor1New k p T i : is_tt k p -> i < k -> proper k T -> proper k (Kit_TruthCofactor1New p T k i).
Proof.
  intros Hp Hi [Ht Hd]. split; [by apply is_tt_Cofactor1New|]. eapply depends_ext; [intros m; symmetry; by apply tfun_Cofactor1New|]. by apply depends_cof_any.
Qed.
Lemma proper_MuxVar k p T0 T1 i : is_tt k p -> i < k -> proper k T0 -> proper k T1 -> proper k (Kit_TruthMuxVar p T0 T1 k i).
Proof.
  intros [Hp Hw] Hi [[Hl0 Hw0] Hd0] [[Hl1 Hw1] Hd1]. split; [split; [by rewrite length_MuxVar|by apply words_MuxVar]|].
  eapply depends_ext; [intros m; symmetry; by apply tfun_MuxVar|]. by apply depends_mux.
Qed.
Lemma proper_Copy k p T : is_tt k p -> proper k T -> proper k (Kit_TruthCopy p T k).
Proof. intros Hp [Ht Hd]. split; [by apply is_tt_Copy|]. eapply depends_ext; [intros m; symmetry; by apply tfun_Copy|done]. Qed.

(** The test of one variable. *)
Lemma VarInSupport_vac k T j : is_tt k T -> j < k -> Kit_TruthVarInSupport T k j = false <-> vac j (tfun k T).
Proof.
  intros [Hl Hw] Hj. split; [intros H m; by apply tfun_vacuous|]. intros H. apply not_true_iff_false. intros E.
  apply VarInSupport_spec in E as (m & Hm & Hd); [|done|done]. apply Hd. pose proof (H m) as Hv. unfold cof in Hv.
  by rewrite !tfun_small in Hv by (auto with words).
Qed.

Lemma Support_bit k T j : k <= 31 -> is_tt k T -> Z.testbit (Kit_TruthSupport T k) (Z.of_nat j) = false <-> (j < k -> vac j (tfun k T)).
Proof.
  intros Hk Ht. rewrite Support_spec by done. destruct (Nat.ltb_spec j k) as [Hj|Hj]; cbn [andb]; [|split; [lia|done]].
  rewrite VarInSupport_vac by done. split; [done|]. intros H. by apply H.
Qed.

(** Two supports are equal when the same variables do not matter. *)
Lemma Support_eq k T (x : Z) : k <= 31 -> is_tt k T -> is_word x -> (forall j, k <= j -> j < 32 -> Z.testbit x (Z.of_nat j) = false) ->
  (forall j, j < k -> Z.testbit x (Z.of_nat j) = false <-> vac j (tfun k T)) -> x = Kit_TruthSupport T k.
Proof.
  intros Hk Ht Hx Hhi H. apply word_ext; [done|by apply word_Support|]. intros j Hj. destruct (Nat.lt_ge_cases j k) as [Hjk|Hjk].
  - assert (Z.testbit (Kit_TruthSupport T k) (Z.of_nat j) = false <-> Z.testbit x (Z.of_nat j) = false) as [H1 H2].
    { rewrite (Support_bit k T j Hk Ht), (H j Hjk). tauto. }
    destruct (Z.testbit x _), (Z.testbit (Kit_TruthSupport T k) _); try done; [by rewrite H1|by rewrite H2].
  - rewrite Hhi by done. symmetry. apply Support_bit; [done|done|lia].
Qed.

Lemma tfun_fewer s k T m : s <= k -> depends_below s (tfun k T) -> tfun s T m = tfun k T m.
Proof.
  intros Hs Hd. transitivity (tfun k T (m mod nmint s)).
  - unfold tfun at 2. rewrite Nat.mod_small; [done|]. eapply Nat.lt_le_trans; [apply mod_nmint|]. unfold nmint. apply Nat.pow_le_mono_r; lia.
  - apply Hd. intros i Hi. apply mod_nmint_bit. lia.
Qed.

Lemma is_tt_fewer s k T : s <= k -> is_tt k T -> is_tt s T.
Proof.
  intros Hs [Hl Hw]. split; [|done]. etransitivity; [|exact Hl]. unfold Kit_TruthWordNum. destruct (Nat.leb_spec s 5), (Nat.leb_spec k 5); try lia.
  - rewrite <- (Nat.pow_0_r 2) at 1. apply Nat.pow_le_mono_r; lia.
  - apply Nat.pow_le_mono_r; lia.
Qed.

(** * Dropping the variables that do not matter *)

(** The values at the places of the variables in [S]. *)
Definition sel (S : Z) (k : nat) (G : nat -> bool) (p : nat) : bool :=
  existsb (fun i => Z.testbit S (Z.of_nat i) && (pos S i =? p) && G i) (seq 0 k).

Lemma pos_inj S i j : Z.testbit S (Z.of_nat i) = true -> Z.testbit S (Z.of_nat j) = true -> pos S i = pos S j -> i = j.
Proof. intros Hi Hj H. destruct (Nat.lt_trichotomy i j) as [L|[L|L]]; [pose proof (pos_lt S i j L Hi); lia|done|pose proof (pos_lt S j i L Hj); lia]. Qed.

Lemma sel_pos S k G i : i < k -> Z.testbit S (Z.of_nat i) = true -> sel S k G (pos S i) = G i.
Proof.
  intros Hi Hb. unfold sel. destruct (G i) eqn:E.
  - apply existsb_exists. exists i. split; [apply in_seq; lia|]. by rewrite Hb, Nat.eqb_refl, E.
  - apply not_true_iff_false. intros (j & _ & [[Hj Hp]%andb_true_iff Hg]%andb_true_iff)%existsb_exists. apply Nat.eqb_eq in Hp.
    rewrite (pos_inj S j i Hj Hb Hp) in Hg. congruence.
Qed.

Lemma pos_onto S k q : q < pos S k -> exists j, j < k /\ Z.testbit S (Z.of_nat j) = true /\ pos S j = q.
Proof.
  induction k as [|k IH]; intros Hq; [rewrite pos_0 in Hq; lia|]. rewrite pos_S in Hq. destruct (Nat.lt_ge_cases q (pos S k)) as [H|H].
  - destruct (IH H) as (j & Hj & ? & ?). exists j. split; [lia|done].
  - exists k. destruct (Z.testbit S (Z.of_nat k)); cbn [Nat.b2n] in Hq; [|lia]. split; [lia|]. split; [done|lia].
Qed.

Lemma Shrink_app k p T S s : k <= 31 -> is_tt k p -> proper k T -> S = Kit_TruthSupport T k -> s = pos S k ->
  exists p' T', Kit_TruthShrink p T s k S true = Some (p', T') /\
  is_tt k T' /\ proper s T' /\ (forall G G', (forall j, j < k -> Z.testbit S (Z.of_nat j) = true -> G' (pos S j) = G j) -> app s (tfun s T') G' = app k (tfun k T) G) /\
  (forall j, j < k -> Z.testbit S (Z.of_nat j) = true -> pos S j < s) /\ (forall q, q < s -> ~ vac q (tfun s T')).
Proof.
  intros Hk Hp [Ht Hd] ES Es. assert (s <= k) as Hsk by (rewrite Es; apply pos_le).
  assert (forall j, j < k -> Z.testbit S (Z.of_nat j) = true -> pos S j < s) as Hpos by (intros j Hj Hb; rewrite Es; by apply pos_lt).
  destruct (Shrink_spec p T s k S true Hk Hp Ht (eq_sym Es)) as ([p' T'] & E & Ht' & f & Hf & Hfp & Hv). exists p', T'. split; [done|]. cbn [snd] in *. clear E.
  assert (forall j, j < k -> Z.testbit S (Z.of_nat j) = false -> vac j (tfun k T)) as Hvac by (intros j Hj Hb; rewrite ES in Hb; by apply Support_bit in Hb).
  assert (forall m, tfun k T' m = tfun k T (ren (nv k) f m)) as HT.
  { intros m. unfold tfun at 1. rewrite Hv by apply mod_nmint. rewrite <- (tfun_small k) by (unfold nmint; apply ren_lt). apply (tfun_depends k). intros i Hi.
    rewrite !testbit_ren. unfold nv. rewrite (proj2 (Nat.ltb_lt _ _)) by done. cbn [andb]. apply mod_nmint_bit.
    destruct Hf as (Hf1 & Hf2 & _). destruct (Nat.lt_ge_cases i k); [specialize (Hf1 i); lia|rewrite Hf2 by lia; lia]. }
  assert (forall m m', (forall q, q < s -> Nat.testbit m q = Nat.testbit m' q) -> tfun k T' m = tfun k T' m') as Hd'.
  { intros m m' Hm. rewrite !HT. apply (vac_agree k); [done|]. intros j Hj. destruct (Z.testbit S (Z.of_nat j)) eqn:Eb; [right|left; by apply Hvac].
    rewrite !testbit_ren, (proj2 (Nat.ltb_lt _ _)) by (unfold nv; lia). cbn [andb]. rewrite Hfp by done. apply Hm. by apply Hpos. }
  assert (forall m, tfun s T' m = tfun k T' m) as HTs by (intros m; by apply tfun_fewer).
  split; [done|]. split; [split; [by apply (is_tt_fewer s k)|by eapply depends_ext; [intros m; symmetry; apply HTs|]]|].
  assert (forall G G', (forall j, j < k -> Z.testbit S (Z.of_nat j) = true -> G' (pos S j) = G j) -> app s (tfun s T') G' = app k (tfun k T) G) as Happ.
  { intros G G' HG. unfold app. rewrite HTs, HT. apply (vac_agree k); [done|]. intros j Hj. destruct (Z.testbit S (Z.of_nat j)) eqn:Eb; [right|left; by apply Hvac].
    rewrite testbit_ren, (proj2 (Nat.ltb_lt _ _)) by (unfold nv; lia). cbn [andb]. rewrite Hfp by done. by rewrite !mint_bit, HG by (done || by apply Hpos). }
  split; [done|]. split; [done|]. intros q Hq Hvq.
  rewrite Es in Hq. destruct (pos_onto S k q Hq) as (j & Hj & Hb & Hjq). rewrite <- Es in Hq.
  assert (vac j (tfun k T)) as Hvj.
  { intros m. set (G := fun i => Nat.testbit m i).
    assert (forall b, cof j b (tfun k T) m = app k (tfun k T) (upd G j b)) as E.
    { intros b. unfold app, cof. apply Hd. intros i Hi. rewrite cof_bit, mint_bit by done. unfold upd, G. by rewrite (Nat.eqb_sym i j). }
    rewrite !E. set (G' := sel S k G).
    assert (forall b i, i < k -> Z.testbit S (Z.of_nat i) = true -> upd G' q b (pos S i) = upd G j b i) as HG.
    { intros b i Hi Hbi. unfold upd. destruct (Nat.eqb_spec i j) as [->|Hij]; [by rewrite Hjq, Nat.eqb_refl|].
      destruct (Nat.eqb_spec (pos S i) q) as [Hq'|Hq']; [exfalso; apply Hij, (pos_inj S); congruence|]. by apply sel_pos. }
    rewrite <- !(Happ _ _ (HG _)). assert (depends_below s (tfun s T')) as Hds by (by eapply depends_ext; [intros x; symmetry; apply HTs|]).
    rewrite !(app_vac s (tfun s T') G' q) by done. done. }
  rewrite ES in Hb. pose proof (proj2 (Support_bit k T j Hk Ht) (fun _ => Hvj)). congruence.
Qed.
