(* ===== verification/DsdDec.v ===== *)
(** The decomposition is right: what a literal of a network stands for, the contract of the recursion, and the contract
    proved for every way in which [Kit_DsdDecompose_rec] takes a node apart. *)
From S2P Require Import Prelude Words Relabel Minterm TruthBasic TruthCof TruthPerm TruthSupp Cube Minato Isop CloudTruth Dsd DsdFun.

(** * What a literal stands for *)

(** The value of a node at the values of its fanins. *)
Definition node_value (o : Kit_DsdObj_t) (B : nat -> bool) : option bool :=
  match dType o with
  | KIT_DSD_NONE => None
  | KIT_DSD_CONST1 => Some true
  | KIT_DSD_VAR => if 0 <? nFans o then Some (B 0) else None
  | KIT_DSD_AND => Some (forallb B (seq 0 (nFans o)))
  | KIT_DSD_XOR => Some (foldr xorb false (map B (seq 0 (nFans o))))
  | KIT_DSD_PRIME => Some (app (nFans o) (tfun (nFans o) (pTruth o)) B)
  end.

(** Prime nodes have tables in which all of their variables matter. *)
Definition good_node (o : Kit_DsdObj_t) : Prop :=
  nFans o <= length (pFans o) /\ nFans o <= 16 /\
  (dType o = KIT_DSD_PRIME -> 0 < nFans o /\ proper (nFans o) (pTruth o) /\ forall q, q < nFans o -> ~ vac q (tfun (nFans o) (pTruth o))).

(** At the assignment [a], the literal has the value, through nodes in [P] and on paths of at most [d] nodes. *)
Inductive den (nodes : list Kit_DsdObj_t) (nV : nat) (a : nat -> bool) (P : nat -> Prop) : nat -> nat -> bool -> Prop :=
  | den_var d x c : x < nV -> den nodes nV a P d (lit x c) (xorb (a x) c)
  | den_node d i o c B v : P i -> nodes !! i = Some o -> good_node o -> (forall k, k < nFans o -> den nodes nV a P d (fan o k) (B k)) ->
      node_value o B = Some v -> den nodes nV a P (S d) (lit (nV + i) c) (xorb v c).

Lemma lit_id_lit v c : lit_id (lit v c) = v.
Proof. unfold lit_id, lit. destruct c; cbn [Nat.b2n]; rewrite ?Nat.add_0_r; [apply Nat.div2_odd'|apply Nat.div2_even]. Qed.
Lemma lit_compl_lit v c : lit_compl (lit v c) = c.
Proof. unfold lit_compl, lit. rewrite Nat.odd_add, Nat.odd_mul. cbn. by destruct c. Qed.
Lemma lit_eta l : lit (lit_id l) (lit_compl l) = l.
Proof. unfold lit, lit_id, lit_compl. symmetry. apply Nat.div2_odd. Qed.
Lemma lit_0 v : 2 * v = lit v false.
Proof. unfold lit. cbn. lia. Qed.
Lemma lit_notcond_lit v b c : lit_notcond (lit v b) c = lit v (xorb b c).
Proof. unfold lit_notcond. by rewrite lit_id_lit, lit_compl_lit. Qed.
Lemma lit_id_notcond l c : lit_id (lit_notcond l c) = lit_id l.
Proof. unfold lit_notcond. by rewrite lit_id_lit. Qed.
Lemma lit_compl_notcond l c : lit_compl (lit_notcond l c) = xorb (lit_compl l) c.
Proof. unfold lit_notcond. by rewrite lit_compl_lit. Qed.

Lemma den_notcond nodes nV a P d l v c : den nodes nV a P d l v -> den nodes nV a P d (lit_notcond l c) (xorb v c).
Proof. intros H. destruct H as [d x b Hx|d i o b B v Hi Eo Hg HB Hv]; rewrite lit_notcond_lit, xorb_assoc; [by constructor|by econstructor]. Qed.

Lemma den_val nodes nV a P d l v w : den nodes nV a P d l v -> v = w -> den nodes nV a P d l w.
Proof. by intros H <-. Qed.

(** Only the nodes of the footprint matter. *)
Lemma den_frame nodes nodes' nV a (P P' : nat -> Prop) d d' l v : den nodes nV a P d l v -> d <= d' -> (forall i, P i -> P' i) ->
  (forall i o, P i -> nodes !! i = Some o -> nodes' !! i = Some o) -> den nodes' nV a P' d' l v.
Proof.
  intros H Hd HP Hn. revert d' Hd. induction H as [d x c Hx|d i o c B v Hi Eo Hg HB IH Hv]; intros d' Hd; [by constructor|].
  destruct d' as [|d']; [lia|]. apply (den_node _ _ _ _ d' i o c B v); auto. intros k Hk. apply IH; [done|lia].
Qed.

Lemma node_value_ext o B B' : (forall k, k < nFans o -> B k = B' k) -> good_node o -> node_value o B = node_value o B'.
Proof.
  intros H (Hl & _ & Hp). unfold node_value. assert (forall k, In k (seq 0 (nFans o)) -> B k = B' k) as Hs by (intros k Hk%in_seq; apply H; lia).
  destruct (dType o) eqn:Et; try done.
  - destruct (Nat.ltb_spec 0 (nFans o)); [by rewrite H|done].
  - f_equal. clear -Hs. induction (seq 0 (nFans o)) as [|k l IH]; [done|]. cbn. rewrite Hs, IH; [done|intros; apply Hs; by right|by left].
  - do 2 f_equal. apply map_ext_in. done.
  - destruct (Hp eq_refl) as (_ & [_ Hd] & _). f_equal. apply app_agree; [done|]. intros j Hj. right. by apply H.
Qed.

(** The value of a literal, computed down to depth [d]. *)
Fixpoint dsd_eval (d : nat) (nodes : list Kit_DsdObj_t) (nV : nat) (a : nat -> bool) (l : nat) : option bool :=
  if lit_id l <? nV then Some (xorb (a (lit_id l)) (lit_compl l)) else
  match d with
  | O => None
  | S d =>
    o ← nodes !! (lit_id l - nV);
    vals ← mapM (fun k => dsd_eval d nodes nV a (fan o k)) (seq 0 (nFans o));
    v ← node_value o (fun k => nth k vals false);
    Some (xorb v (lit_compl l))
  end.

Lemma den_eval nodes nV a P d l v : den nodes nV a P d l v -> dsd_eval d nodes nV a l = Some v.
Proof.
  intros H. induction H as [d x c Hx|d i o c B v Hi Eo Hg HB IH Hv].
  - destruct d; cbn [dsd_eval]; rewrite lit_id_lit, lit_compl_lit, (proj2 (Nat.ltb_lt _ _) Hx); done.
  - cbn [dsd_eval]. rewrite lit_id_lit, lit_compl_lit, (proj2 (Nat.ltb_ge _ _)) by lia. replace (nV + i - nV) with i by lia. rewrite Eo. cbn [mbind option_bind].
    assert (mapM (fun k => dsd_eval d nodes nV a (fan o k)) (seq 0 (nFans o)) = Some (map B (seq 0 (nFans o)))) as ->.
    { apply mapM_Some. clear -IH. assert (forall k, In k (seq 0 (nFans o)) -> k < nFans o) as Hs by (intros k Hk%in_seq; lia).
      induction (seq 0 (nFans o)) as [|k l IHl]; [constructor|]. cbn. constructor; [apply IH, Hs; by left|]. apply IHl. intros; apply Hs; by right. }
    cbn [mbind option_bind]. rewrite (node_value_ext o _ B) by (done || (intros k Hk; rewrite (nth_indep _ false (B 0)) by (by rewrite length_map, length_seq); by rewrite (map_nth B), seq_nth)).
    by rewrite Hv.
Qed.

(** * The contract of the recursion *)

Definition ids_ok (pNtk : Kit_DsdNtk_t) : Prop := forall i o, pNodes pNtk !! i = Some o -> dId o = dnVars pNtk + i.

Definition owner (p : dsd_ptr) : option nat := match p with par_root => None | par_fan i _ => Some i end.

(** ** Trees *)

(** Below the literal the network is a tree of nodes that have the property [Q]: no variable and no node is met twice.  The
    identifiers below are in [S]. *)
Inductive tree_of (Q : Kit_DsdObj_t -> Prop) (nodes : list Kit_DsdObj_t) (nV : nat) : (nat -> Prop) -> nat -> Prop :=
  | tree_var S x c : x < nV -> (S x : Prop) -> tree_of Q nodes nV S (lit x c)
  | tree_node (S : nat -> Prop) i o c (T : nat -> nat -> Prop) : nodes !! i = Some o -> Q o -> S (nV + i) -> (forall k, k < nFans o -> tree_of Q nodes nV (T k) (fan o k)) ->
      (forall k y, k < nFans o -> T k y -> S y /\ y <> nV + i) -> (forall k k' y, k < nFans o -> k' < nFans o -> k <> k' -> T k y -> T k' y -> False) ->
      tree_of Q nodes nV S (lit (nV + i) c).
Arguments tree_var {Q} nodes nV S x c _ _.
Arguments tree_node {Q} nodes nV S i o c T _ _ _ _ _ _.

(** The nodes that decomposition makes. *)
Definition binary (o : Kit_DsdObj_t) : Prop := (dType o = KIT_DSD_AND \/ dType o = KIT_DSD_XOR) /\ nFans o = 2 \/ dType o = KIT_DSD_PRIME /\ 2 <= nFans o.
Notation tree := (tree_of binary).

Lemma tree_mono {Q} nodes nV (S S' : nat -> Prop) l : tree_of Q nodes nV S l -> (forall y, S y -> S' y) -> tree_of Q nodes nV S' l.
Proof.
  intros H HS. destruct H as [S x c Hx HSx|S i o c T Eo HQ HSi HT Hin Hd]; [constructor; auto|].
  apply (tree_node _ _ S' i o c T); auto. intros k y Hk Hy. destruct (Hin k y Hk Hy). auto.
Qed.

Lemma tree_notcond {Q} nodes nV S l c : tree_of Q nodes nV S l -> tree_of Q nodes nV S (lit_notcond l c).
Proof. intros H. destruct H as [S x c' Hx HSx|S i o c' T Eo HQ HSi HT Hin Hd]; rewrite lit_notcond_lit; [by constructor|by apply (tree_node _ _ S i o _ T)]. Qed.

Lemma tree_same {Q} nodes nV S l l' : tree_of Q nodes nV S l -> lit_id l' = lit_id l -> tree_of Q nodes nV S l'.
Proof. intros H E. pose proof (tree_notcond _ _ _ _ (xorb (lit_compl l) (lit_compl l')) H) as H'. unfold lit_notcond in H'. rewrite <- xorb_assoc, xorb_nilpotent, xorb_false_l, <- E, lit_eta in H'. done. Qed.

Lemma tree_frame {Q} nodes nodes' nV S l : tree_of Q nodes nV S l -> (forall i o, S (nV + i) -> nodes !! i = Some o -> nodes' !! i = Some o) -> tree_of Q nodes' nV S l.
Proof.
  intros H. induction H as [S x c Hx HSx|S i o c T Eo HQ HSi HT IH Hin Hd]; intros Hn; [by constructor|].
  apply (tree_node _ _ S i o c T); auto. intros k Hk. apply IH; [done|]. intros j oj Hj. apply Hn. by apply (Hin k _ Hk Hj).
Qed.

(** The identifiers are those of variables and nodes. *)
Lemma tree_bound {Q} nodes nV S l : tree_of Q nodes nV S l -> tree_of Q nodes nV (fun y => S y /\ y < nV + length nodes) l.
Proof.
  intros H. induction H as [S x c Hx HSx|S i o c T Eo HQ HSi HT IH Hin Hd]; [constructor; [done|split; [done|lia]]|]. pose proof (lookup_lt_Some _ _ _ Eo) as Hi.
  apply (tree_node _ _ _ i o c (fun k y => T k y /\ y < nV + length nodes)); [done|done|split; [done|lia]|done| |].
  - intros k y Hk [Hy Hb]. destruct (Hin k y Hk Hy). done.
  - intros k k' y Hk Hk' Hne [Hy _] [Hy' _]. by apply (Hd k k' y).
Qed.

(** A network whose root is a constant or a variable has one node; below the root of every other one there is a tree.  The
    variables that occur are in [S]. *)
Definition simple_root (pNtk : Kit_DsdNtk_t) (S : nat -> Prop) : Prop := exists o c, pNodes pNtk = [o] /\ Root pNtk = lit (dnVars pNtk) c /\
  (dType o = KIT_DSD_CONST1 /\ nFans o = 0 \/ dType o = KIT_DSD_VAR /\ nFans o = 1 /\ exists x b, x < dnVars pNtk /\ S x /\ fan o 0 = lit x b).
Definition tree_root (Q : Kit_DsdObj_t -> Prop) (pNtk : Kit_DsdNtk_t) (S : nat -> Prop) : Prop :=
  (exists i c, Root pNtk = lit (dnVars pNtk + i) c) /\ tree_of Q (pNodes pNtk) (dnVars pNtk) (fun y => y < dnVars pNtk -> S y) (Root pNtk).
Definition dsd_tree (Q : Kit_DsdObj_t -> Prop) (pNtk : Kit_DsdNtk_t) (S : nat -> Prop) : Prop := simple_root pNtk S \/ tree_root Q pNtk S.

(** Trees at the fanins in [uSupp], without common identifiers and through nodes in [P], when they are given. *)
Definition forest (nodes : list Kit_DsdObj_t) (nV : nat) (P : nat -> Prop) (n : nat) (uSupp : Z) (lits : nat -> nat) (Tr : option (nat -> nat -> Prop)) : Prop :=
  match Tr with
  | None => True
  | Some T =>
    (forall j, j < n -> Z.testbit uSupp (Z.of_nat j) = true -> tree nodes nV (T j) (lits j)) /\
    (forall j k y, j < n -> k < n -> j <> k -> Z.testbit uSupp (Z.of_nat j) = true -> Z.testbit uSupp (Z.of_nat k) = true -> T j y -> T k y -> False) /\
    (forall j y, j < n -> Z.testbit uSupp (Z.of_nat j) = true -> T j (nV + y) -> P y)
  end.

(** The identifiers of the tree that a call makes. *)
Definition below (nV len i n : nat) (uSupp : Z) (Tr : option (nat -> nat -> Prop)) : option (nat -> Prop) :=
  match Tr with None => None | Some T => Some (fun y => (exists j, j < n /\ Z.testbit uSupp (Z.of_nat j) = true /\ T j y) \/ y = nV + i \/ nV + len <= y) end.

Definition inside (S1 S : option (nat -> Prop)) : Prop :=
  match S, S1 with None, _ => True | Some b, Some a => forall y, a y -> b y | Some _, None => False end.

(** The number of variables that matter. *)
Definition supp_size (o : Kit_DsdObj_t) : nat := pos (Kit_TruthSupport (pTruth o) (nFans o)) (nFans o).

(** The arguments of a call; [G] gives the values of the fanins that matter, through nodes in [P]. *)
Record dsd_pre (pNtk : Kit_DsdNtk_t) (i : nat) (uSupp : Z) (par : dsd_ptr) (P : nat -> Prop) (o : Kit_DsdObj_t) (G : (nat -> bool) -> nat -> bool) (d : nat)
    (Tr : option (nat -> nat -> Prop)) : Prop := {
  pre_ids : ids_ok pNtk;
  pre_obj : pNodes pNtk !! i = Some o;
  pre_type : dType o = KIT_DSD_PRIME;
  pre_fans : 0 < nFans o <= 16;
  pre_length : nFans o <= length (pFans o);
  pre_table : proper (nFans o) (pTruth o);
  pre_supp : uSupp = Kit_TruthSupport (pTruth o) (nFans o);
  pre_size : 0 < supp_size o;
  pre_den : forall a j, j < nFans o -> Z.testbit uSupp (Z.of_nat j) = true -> den (pNodes pNtk) (dnVars pNtk) a P d (fan o j) (G a j);
  pre_foot : forall j, P j -> j < length (pNodes pNtk) /\ j <> i /\ owner par <> Some j;
  pre_par : exists l, read_lit pNtk par = Some l /\ lit_id l = dnVars pNtk + i;
  pre_owner : owner par <> Some i;
  pre_forest : forest (pNodes pNtk) (dnVars pNtk) P (nFans o) uSupp (fan o) Tr }.

(** What changes: the node, the literal to update, and at most [e] new nodes. *)
Record changes (pNtk pNtk' : Kit_DsdNtk_t) (i : nat) (par : dsd_ptr) (e : nat) : Prop := {
  ch_vars : dnVars pNtk' = dnVars pNtk;
  ch_root : par <> par_root -> Root pNtk' = Root pNtk;
  ch_length : length (pNodes pNtk) <= length (pNodes pNtk') <= length (pNodes pNtk) + e;
  ch_nodes : forall j, j < length (pNodes pNtk) -> j <> i -> owner par <> Some j -> pNodes pNtk' !! j = pNodes pNtk !! j;
  ch_owner : forall p q op, par = par_fan p q -> pNodes pNtk !! p = Some op -> exists l', pNodes pNtk' !! p = Some (with_fans op (nFans op) (<[q := l']> (pFans op)));
  ch_ids : ids_ok pNtk' }.

Definition foot (P : nat -> Prop) (i len : nat) : nat -> Prop := fun j => P j \/ j = i \/ len <= j.

Definition dsd_post (pNtk : Kit_DsdNtk_t) (i : nat) (par : dsd_ptr) (P : nat -> Prop) (v : (nat -> bool) -> bool) (d e : nat) (S : option (nat -> Prop)) (r : option Kit_DsdNtk_t) : Prop :=
  exists pNtk' l l', r = Some pNtk' /\ read_lit pNtk par = Some l /\ read_lit pNtk' par = Some l' /\ changes pNtk pNtk' i par e /\
    (forall a, den (pNodes pNtk') (dnVars pNtk') a (foot P i (length (pNodes pNtk))) d l' (xorb (v a) (lit_compl l))) /\
    match S with None => True | Some A => tree (pNodes pNtk') (dnVars pNtk') A l' end.

(** The nodes that a function of [s] variables may need besides its own. *)
Definition extra (nDecMux s : nat) : nat := if nDecMux =? 0 then s - 1 else if s <=? 1 then 0 else 3 * 2 ^ (s - 2) - 2.

Lemma extra_mono nDecMux s s' : s <= s' -> extra nDecMux s <= extra nDecMux s'.
Proof.
  intros Hs. unfold extra. destruct (nDecMux =? 0); [lia|]. destruct (Nat.leb_spec s 1), (Nat.leb_spec s' 1); try lia.
  pose proof (Nat.pow_le_mono_r 2 (s - 2) (s' - 2) ltac:(lia) ltac:(lia)). lia.
Qed.
Lemma extra_S nDecMux s : nDecMux <> 0 -> 2 <= s -> extra nDecMux (S s) = 2 + 2 * extra nDecMux s.
Proof.
  intros Hn Hs. unfold extra. rewrite (proj2 (Nat.eqb_neq _ _) Hn), (proj2 (Nat.leb_gt s 1)), (proj2 (Nat.leb_gt (S s) 1)) by lia.
  replace (S s - 2) with (S (s - 2)) by lia. cbn [Nat.pow]. assert (2 ^ (s - 2) <> 0) by (apply Nat.pow_nonzero; lia). lia.
Qed.
Lemma extra_above nDecMux s : 0 < s -> S (extra nDecMux s) <= extra nDecMux (S s).
Proof.
  intros Hs. destruct (Nat.eq_dec nDecMux 0) as [->|Hn]; [cbn; lia|]. destruct (Nat.eq_dec s 1) as [->|]; [unfold extra; rewrite (proj2 (Nat.eqb_neq _ _) Hn); cbn; lia|].
  rewrite (extra_S nDecMux s Hn); lia.
Qed.
Lemma extra_limit nDecMux a b s : nDecMux <> 0 -> 3 <= s -> a < s -> b < s -> 2 + extra nDecMux a + extra nDecMux b <= extra nDecMux s.
Proof.
  intros Hn Hs Ha Hb. replace s with (S (s - 1)) by lia. rewrite extra_S by lia. pose proof (extra_mono nDecMux a (s - 1) ltac:(lia)). pose proof (extra_mono nDecMux b (s - 1) ltac:(lia)). lia.
Qed.
Lemma extra_mux nDecMux a b s : 0 < a -> 0 < b -> a + b < s -> 2 + extra nDecMux a + extra nDecMux b <= extra nDecMux s.
Proof. intros Ha Hb Hs. destruct (Nat.eq_dec nDecMux 0) as [->|Hn]; [cbn; lia|]. apply extra_limit; lia. Qed.

(** The recursion up to a measure: the variables that matter, twice, and the mark. *)
Definition dsd_works (nDecMux : nat) (rec : dsd_call) (N : nat) : Prop := forall pNtk i uSupp par P o G d Tr,
  nDecMux = 0 \/ Tr = None -> dsd_pre pNtk i uSupp par P o G d Tr -> 2 * supp_size o + Nat.b2n (fMark o) < N -> dnVars pNtk + length (pNodes pNtk) + extra nDecMux (supp_size o) <= 64 ->
  dsd_post pNtk i par P (fun a => app (nFans o) (tfun (nFans o) (pTruth o)) (G a)) (d + supp_size o) (extra nDecMux (supp_size o))
    (below (dnVars pNtk) (length (pNodes pNtk)) i (nFans o) uSupp Tr) (rec pNtk i uSupp par).

(** * Changes of a network *)

Lemma alloc_eq pNtk t k : Kit_DsdObjAlloc pNtk t k = (length (pNodes pNtk), mkDsdNtk (dnVars pNtk) (Root pNtk) (pNodes pNtk ++
    [mkDsdObj ((dnVars pNtk + length (pNodes pNtk)) mod 2 ^ 6) t false 0 (k mod 2 ^ 6) (repeat 0 k)
      (repeat 0%Z (if decide (t = KIT_DSD_PRIME) then Kit_TruthWordNum k else 0))])).
Proof. done. Qed.

(** [pNtk'] has the nodes of [pNtk], except for the node [i], and perhaps more. *)
Record near (pNtk pNtk' : Kit_DsdNtk_t) (i : nat) : Prop := {
  near_vars : dnVars pNtk' = dnVars pNtk;
  near_root : Root pNtk' = Root pNtk;
  near_length : length (pNodes pNtk) <= length (pNodes pNtk');
  near_nodes : forall j, j < length (pNodes pNtk) -> j <> i -> pNodes pNtk' !! j = pNodes pNtk !! j }.

Lemma near_set pNtk i o : near pNtk (set_obj pNtk i o) i.
Proof. split; try done; [by unfold set_obj; cbn; rewrite length_insert|]. intros j _ Hj. by apply list_lookup_insert_ne. Qed.

Lemma near_read pNtk pNtk' i par l : near pNtk pNtk' i -> owner par <> Some i -> read_lit pNtk par = Some l -> read_lit pNtk' par = Some l.
Proof.
  intros [_ Hr _ Hn] Ho. destruct par as [|p q]; cbn [read_lit owner]; [by rewrite Hr|]. intros H.
  destruct (pNodes pNtk !! p) as [op|] eqn:E; [|done]. rewrite Hn, E; [done|by apply lookup_lt_Some in E|intros ->; by apply Ho].
Qed.

Lemma forest_frame nodes nodes' nV (P P' : nat -> Prop) n uSupp lits Tr : forest nodes nV P n uSupp lits Tr -> (forall i, P i -> P' i) ->
  (forall i o, P i -> nodes !! i = Some o -> nodes' !! i = Some o) -> forest nodes' nV P' n uSupp lits Tr.
Proof.
  intros H HP Hn. destruct Tr as [T|]; [|done]. destruct H as (H1 & H2 & H3). split; [|split; [done|]].
  - intros j Hj Hb. eapply tree_frame; [by apply H1|]. intros i o Hi. apply Hn. by apply (H3 j).
  - intros j y Hj Hb Hy. by apply HP, (H3 j).
Qed.

(** Fewer fanins, in a network with the same nodes. *)
Lemma forest_some nodes nodes' nV P n uSupp uSupp1 lits lits' Tr : forest nodes nV P n uSupp lits Tr ->
  (forall j, j < n -> Z.testbit uSupp1 (Z.of_nat j) = true -> Z.testbit uSupp (Z.of_nat j) = true /\ lit_id (lits' j) = lit_id (lits j)) ->
  (forall i o, P i -> nodes !! i = Some o -> nodes' !! i = Some o) -> forest nodes' nV P n uSupp1 lits' Tr.
Proof.
  intros H HS Hn. apply (forest_frame _ nodes' _ _ P) in H; [|done|done]. destruct Tr as [T|]; [|done]. destruct H as (H1 & H2 & H3). split; [|split].
  - intros j Hj Hb. destruct (HS j Hj Hb) as [Hb' E]. eapply tree_same; [by apply H1|done].
  - intros j k y Hj Hk Hne Hb Hb'. apply (H2 j k y); try done; by apply HS.
  - intros j y Hj Hb. apply H3; [done|by apply HS].
Qed.

(** The node is replaced. *)
Lemma pre_set pNtk i uSupp par P o G d Tr o1 uSupp1 G1 Tr1 : dsd_pre pNtk i uSupp par P o G d Tr -> dId o1 = dId o -> dType o1 = KIT_DSD_PRIME -> 0 < nFans o1 <= 16 ->
  nFans o1 <= length (pFans o1) -> proper (nFans o1) (pTruth o1) -> uSupp1 = Kit_TruthSupport (pTruth o1) (nFans o1) -> 0 < supp_size o1 ->
  (forall a j, j < nFans o1 -> Z.testbit uSupp1 (Z.of_nat j) = true -> den (pNodes pNtk) (dnVars pNtk) a P d (fan o1 j) (G1 a j)) ->
  forest (pNodes pNtk) (dnVars pNtk) P (nFans o1) uSupp1 (fan o1) Tr1 -> dsd_pre (set_obj pNtk i o1) i uSupp1 par P o1 G1 d Tr1.
Proof.
  intros [Hids Eo Ety Hn Hlen Htab Hsupp Hsize Hden Hfoot (l & Hl & Hlv) Hown _] Eid Ety1 Hn1 Hl1 Ht1 ES1 Hs1 Hd1 Hfor. pose proof (lookup_lt_Some _ _ _ Eo) as Hi.
  set (pN := set_obj pNtk i o1). assert (near pNtk pN i) as Hnear by apply near_set. assert (pNodes pN !! i = Some o1) as Ei by (by apply list_lookup_insert_eq).
  assert (length (pNodes pN) = length (pNodes pNtk)) as Elen by (apply length_insert). split; try done.
  - intros q oq Eq. change (dnVars pN) with (dnVars pNtk). destruct (decide (q = i)) as [->|Hq]; [rewrite Ei in Eq; injection Eq as <-; rewrite Eid; by apply (Hids i o)|].
    apply Hids. rewrite <- Eq. symmetry. apply Hnear; [|done]. rewrite <- Elen. by apply lookup_lt_Some in Eq.
  - intros a j Hj Hb. eapply den_frame; [by apply Hd1|done|done|]. intros p op Hp Ep. rewrite <- Ep. destruct (Hfoot p Hp) as (? & ? & ?). by apply Hnear.
  - intros j Hj. rewrite Elen. by apply Hfoot.
  - exists l. split; [by apply (near_read pNtk pN i)|done].
  - eapply forest_frame; [exact Hfor|done|]. intros p op Hp Ep. rewrite <- Ep. destruct (Hfoot p Hp) as (? & ? & ?). by apply Hnear.
Qed.

Lemma post_near pNtk pNtk1 i par (P P1 : nat -> Prop) v v1 d d1 e e1 S S1 r : near pNtk pNtk1 i -> owner par <> Some i -> is_Some (read_lit pNtk par) ->
  (forall j, P1 j -> foot P i (length (pNodes pNtk)) j) -> (forall a, v1 a = v a) -> d1 <= d -> length (pNodes pNtk1) + e1 <= length (pNodes pNtk) + e ->
  inside S1 S -> dsd_post pNtk1 i par P1 v1 d1 e1 S1 r -> dsd_post pNtk i par P v d e S r.
Proof.
  intros N Ho [l0 Hl0] HP Hv Hd He HS (pNtk' & l & l' & -> & Hl & Hl' & C & Hden & Htree). exists pNtk', l, l'. split; [done|].
  assert (l = l0) as -> by (rewrite (near_read _ _ _ _ _ N Ho Hl0) in Hl; congruence). split; [done|]. split; [done|].
  destruct N as [N1 N2 N3 N4], C as [C1 C2 C3 C4 C5 C6]. split; [|split].
  - split; [congruence|intros H; rewrite C2 by done; done|lia|intros j Hj Hji Hjo; rewrite C4 by (lia || done); by apply N4| |done].
    intros p q op -> E. apply C5 with (1 := eq_refl). rewrite N4; [done|by apply lookup_lt_Some in E|intros ->; by apply Ho].
  - intros a. rewrite <- Hv. eapply den_frame; [apply Hden|done| |done]. intros j [Hj|[->|Hj]]; [by apply HP|right; by left|right; right; lia].
  - destruct S as [A|]; [|done]. destruct S1 as [B|]; [|done]. by apply (tree_mono _ _ B).
Qed.

(** The call itself. *)
Lemma call_works nDecMux rec N pNtk i uSupp par P o G d Tr pNtk1 P1 o1 G1 d1 Tr1 e s1 uSupp1 : dsd_works nDecMux rec N -> nDecMux = 0 \/ Tr1 = None ->
  dsd_pre pNtk i uSupp par P o G d Tr -> dsd_pre pNtk1 i uSupp1 par P1 o1 G1 d1 Tr1 -> near pNtk pNtk1 i -> (forall j, P1 j -> foot P i (length (pNodes pNtk)) j) ->
  (forall a, app (nFans o1) (tfun (nFans o1) (pTruth o1)) (G1 a) = app (nFans o) (tfun (nFans o) (pTruth o)) (G a)) ->
  supp_size o1 = s1 -> 2 * s1 + Nat.b2n (fMark o1) < N -> d1 + s1 <= d + supp_size o -> length (pNodes pNtk1) + extra nDecMux s1 <= length (pNodes pNtk) + e ->
  dnVars pNtk + length (pNodes pNtk) + e <= 64 ->
  inside (below (dnVars pNtk) (length (pNodes pNtk1)) i (nFans o1) uSupp1 Tr1) (below (dnVars pNtk) (length (pNodes pNtk)) i (nFans o) uSupp Tr) ->
  dsd_post pNtk i par P (fun a => app (nFans o) (tfun (nFans o) (pTruth o)) (G a)) (d + supp_size o) e (below (dnVars pNtk) (length (pNodes pNtk)) i (nFans o) uSupp Tr) (rec pNtk1 i uSupp1 par).
Proof.
  intros W Hflag H H1 Nr HP Hv Hs HN Hd He Hroom HS. pose proof Nr as [N1 _ _ _]. destruct (pre_par _ _ _ _ _ _ _ _ _ H) as (l & Hl & _).
  apply (post_near pNtk pNtk1 i par P P1 _ (fun a => app (nFans o1) (tfun (nFans o1) (pTruth o1)) (G1 a)) _ (d1 + s1) e (extra nDecMux s1) _
    (below (dnVars pNtk) (length (pNodes pNtk1)) i (nFans o1) uSupp1 Tr1) _ Nr);
    [by apply (pre_owner _ _ _ _ _ _ _ _ _ H)|by rewrite Hl|done|done|done|done|exact HS|].
  subst s1. rewrite <- N1. apply (W _ _ _ _ _ _ _ _ _ Hflag H1); [done|rewrite N1; lia].
Qed.

(** * Supports *)

Definition drop_bit (s : Z) (j : nat) : Z := (s &&& ~~~ (1 <<< j))%Z.

Lemma drop_bit_bit s g j : g < 32 -> j < 32 -> Z.testbit (drop_bit s g) (Z.of_nat j) = Z.testbit s (Z.of_nat j) && negb (j =? g).
Proof. intros Hg Hj. unfold drop_bit. by rewrite Z.land_spec, testbit_wnot, testbit_pow by lia. Qed.

Lemma word_drop_bit s g : is_word s -> is_word (drop_bit s g).
Proof. intros H. unfold drop_bit. auto with words. Qed.

Lemma word_drop_bits gone s : is_word s -> is_word (foldl drop_bit s gone).
Proof. revert s. induction gone as [|g gone IH]; intros s H; [done|]. by apply IH, word_drop_bit. Qed.

Lemma drop_bits_bit gone s j : Forall (fun g => g < 32) gone -> j < 32 ->
  Z.testbit (foldl drop_bit s gone) (Z.of_nat j) = Z.testbit s (Z.of_nat j) && negb (existsb (Nat.eqb j) gone).
Proof.
  intros Hg Hj. revert s. induction Hg as [|g gone Hg _ IH]; intros s; cbn [foldl existsb]; [by rewrite andb_true_r|].
  rewrite IH, drop_bit_bit by done. by rewrite negb_orb, andb_assoc.
Qed.

(** Every variable below [n] matters, and [uSupp] says so. *)
Definition full (n : nat) (uSupp : Z) : Prop := is_word uSupp /\ forall j, j < 32 -> Z.testbit uSupp (Z.of_nat j) = (j <? n).

Lemma drop_support n t uSupp gone : n <= 31 -> is_tt n t -> full n uSupp -> Forall (fun g => g < n /\ vac g (tfun n t)) gone ->
  (forall j, j < n -> j ∉ gone -> ~ vac j (tfun n t)) -> foldl drop_bit uSupp gone = Kit_TruthSupport t n.
Proof.
  intros Hn Ht [Hw Hu] Hg Hv. assert (Forall (fun g => g < 32) gone) as Hg' by (eapply Forall_impl; [|exact Hg]; cbn; lia). apply Support_eq; [done|done|by apply word_drop_bits| |].
  - intros j Hj Hj'. rewrite drop_bits_bit, Hu by done. by rewrite (proj2 (Nat.ltb_ge _ _) Hj).
  - intros j Hj. rewrite drop_bits_bit, Hu by (done || lia). rewrite (proj2 (Nat.ltb_lt _ _) Hj). cbn [andb].
    rewrite negb_false_iff, existsb_exists. split.
    + intros (g & Hin & ->%Nat.eqb_eq). rewrite List.Forall_forall in Hg. by apply Hg.
    + intros H. destruct (decide (j ∈ gone)) as [Hin|Hin]; [|by contradict H; apply Hv]. exists j. split; [by apply list_elem_of_In|apply Nat.eqb_refl].
Qed.

(** Fewer variables. *)
Lemma pos_below S1 S n : (forall j, j < n -> Z.testbit S1 (Z.of_nat j) = true -> Z.testbit S (Z.of_nat j) = true) -> pos S1 n <= pos S n.
Proof.
  induction n as [|n IH]; intros H; [done|]. rewrite !pos_S. specialize (IH ltac:(intros; apply H; [lia|done])). specialize (H n ltac:(lia)).
  destruct (Z.testbit S1 _); [rewrite (H eq_refl)|]; cbn; lia.
Qed.
Lemma pos_fewer S1 S n g : (forall j, j < n -> Z.testbit S1 (Z.of_nat j) = true -> Z.testbit S (Z.of_nat j) = true) -> g < n ->
  Z.testbit S1 (Z.of_nat g) = false -> Z.testbit S (Z.of_nat g) = true -> pos S1 n < pos S n.
Proof.
  induction n as [|n IH]; intros H Hg H1 H2; [lia|]. rewrite !pos_S. destruct (Nat.eq_dec g n) as [->|].
  - rewrite H1, H2. cbn. pose proof (pos_below S1 S n ltac:(intros; apply H; [lia|done])). lia.
  - specialize (IH ltac:(intros; apply H; [lia|done]) ltac:(lia) H1 H2). specialize (H n ltac:(lia)).
    destruct (Z.testbit S1 _); [rewrite (H eq_refl)|]; cbn; lia.
Qed.
Lemma pos_some S n g : g < n -> Z.testbit S (Z.of_nat g) = true -> 0 < pos S n.
Proof. intros Hg Hb. pose proof (pos_lt S g n Hg Hb). lia. Qed.
Lemma pos_all S n m : m <= n -> (forall j, j < m -> Z.testbit S (Z.of_nat j) = (j <? n)) -> pos S m = m.
Proof. induction m as [|m IH]; intros Hm H; [done|]. rewrite pos_S, IH, H by (lia || intros; apply H; lia). rewrite (proj2 (Nat.ltb_lt _ _)) by lia. cbn. lia. Qed.

(** * New nodes *)

Lemma snoc_new {A} (l : list A) x : (l ++ [x]) !! length l = Some x.
Proof. rewrite lookup_app_r, Nat.sub_diag by done. done. Qed.
Lemma snoc_old {A} (l : list A) x j : j < length l -> (l ++ [x]) !! j = l !! j.
Proof. apply lookup_app_l. Qed.
Lemma snoc_set {A} (l : list A) x y : <[length l := y]> (l ++ [x]) = l ++ [y].
Proof. rewrite insert_app_r_alt, Nat.sub_diag by done. done. Qed.

(** The functions of the nodes that the decomposition makes. *)
Definition op_value (t : Kit_Dsd_t) (B : nat -> bool) : bool :=
  match t with KIT_DSD_AND => B 0 && B 1 | KIT_DSD_XOR => xorb (B 0) (B 1) | _ => if B 2 then B 1 else B 0 end.

Definition op_node (t : Kit_Dsd_t) (n : nat) : Prop := (t = KIT_DSD_AND \/ t = KIT_DSD_XOR) /\ n = 2 \/ t = KIT_DSD_PRIME /\ n = 3.

Lemma op_binary t k o : op_node t k -> dType o = t -> nFans o = k -> binary o.
Proof. intros Ho <- <-. destruct Ho as [Ho|[E En]]; [by left|right; split; [done|lia]]. Qed.

Definition mux_word : Z := 0xCACACACA.
Lemma mux_tfun T m : T.[0] = mux_word -> tfun 3 T m = if Nat.testbit m 2 then Nat.testbit m 1 else Nat.testbit m 0.
Proof.
  intros H. unfold tfun. rewrite <- (mod_nmint_bit m 3 0), <- (mod_nmint_bit m 3 1), <- (mod_nmint_bit m 3 2) by lia. change (nmint 3) with 32.
  assert (m mod 32 < 32) as Hm by (apply Nat.mod_upper_bound; lia). generalize dependent (m mod 32). intros x Hx.
  unfold tbit. rewrite Nat.div_small, Nat.mod_small by lia. rewrite H. clear -Hx. do 32 (destruct x as [|x]; [done|]). lia.
Qed.

Lemma mux_vac T q : T.[0] = mux_word -> q < 3 -> ~ vac q (tfun 3 T).
Proof.
  intros H Hq Hv. assert (forall m, Nat.testbit m q = false -> tfun 3 T m = tfun 3 T (Nat.setbit m q)) as E.
  { intros m Hm. specialize (Hv m). unfold cof in Hv. rewrite <- Hv. f_equal. apply Nat.bits_inj. intros x. rewrite Nat.clearbit_eqb.
    destruct (Nat.eqb_spec q x) as [->|]; [by rewrite Hm|by rewrite andb_true_r]. }
  destruct q as [|[|[|q]]]; [specialize (E 0 eq_refl)|specialize (E 4 eq_refl)|specialize (E 1 eq_refl)|lia];
    rewrite !(mux_tfun T _ H) in E; discriminate.
Qed.

Lemma mux_proper T : T.[0] = mux_word -> Forall is_word T -> 1 <= length T -> proper 3 T.
Proof.
  intros H HT Hl. split; [by split|]. intros m m' Hm. rewrite !(mux_tfun T _ H), !(Hm 0), !(Hm 1), !(Hm 2) by lia. done.
Qed.

Lemma op_good o : op_node (dType o) (nFans o) -> nFans o <= length (pFans o) -> (dType o = KIT_DSD_PRIME -> (pTruth o).[0] = mux_word /\ Forall is_word (pTruth o) /\ 1 <= length (pTruth o)) ->
  good_node o /\ forall B, node_value o B = Some (op_value (dType o) B).
Proof.
  intros Ho Hl HT. split.
  - split; [done|]. split; [unfold op_node in Ho; lia|]. intros E. destruct Ho as [[[?|?] _]|[_ En]]; [congruence..|]. rewrite En.
    destruct (HT E) as (H1 & H2 & H3). split; [lia|]. split; [by apply mux_proper|]. intros q Hq. by apply mux_vac.
  - intros B. unfold node_value. destruct Ho as [[[E|E] En]|[E En]]; rewrite E, En; cbn.
    + by rewrite andb_true_r.
    + by rewrite xorb_false_r.
    + unfold app. destruct (HT E) as (H1 & _). by rewrite mux_tfun, !mint_bit by (done || lia).
Qed.

(** A network with its node [i] replaced and a new node. *)
Definition grown (pNtk : Kit_DsdNtk_t) (i : nat) (o r : Kit_DsdObj_t) : Kit_DsdNtk_t := mkDsdNtk (dnVars pNtk) (Root pNtk) (<[i := o]> (pNodes pNtk) ++ [r]).

Definition new_node (r : Kit_DsdObj_t) (id : nat) (t : Kit_Dsd_t) (fans : list nat) : Prop :=
  dId r = id /\ dType r = t /\ nFans r = length fans /\ pFans r = fans /\ good_node r /\ forall B, node_value r B = Some (op_value t B).

Lemma new_node_ok r id t fans : dId r = id -> dType r = t -> nFans r = length fans -> pFans r = fans -> op_node t (length fans) ->
  (t = KIT_DSD_PRIME -> (pTruth r).[0] = mux_word /\ Forall is_word (pTruth r) /\ 1 <= length (pTruth r)) -> new_node r id t fans.
Proof.
  intros E1 E2 E3 E4 Ho HT. subst t. rewrite <- E3 in Ho. destruct (op_good r) as [Hg Hv]; [done|by rewrite E4, E3|done|]. do 4 (split; [done|]). by split.
Qed.

Lemma below_eq rec pNtk i o uSupp par k gone Type_ fans t : op_node Type_ (length fans) -> dnVars pNtk + length (pNodes pNtk) < 64 -> pNodes pNtk !! i = Some o ->
  exists r, new_node r (dnVars pNtk + length (pNodes pNtk)) Type_ fans /\ dsd_below rec pNtk i uSupp par k gone Type_ fans t =
    rec (grown pNtk i (with_fans (with_truth o t) (nFans o) (<[k := lit (dnVars pNtk + length (pNodes pNtk)) false]> (foldl (fun l j => <[j := 127]> l) (pFans o) gone))) r)
      i (foldl drop_bit uSupp gone) par.
Proof.
  intros Ho Hid Eo. unfold dsd_below. rewrite Eo. cbn [mbind option_bind]. rewrite alloc_eq, Nat.mod_small by done. cbn [pNodes]. rewrite snoc_new. cbn [mbind option_bind].
  set (r := if decide (Type_ = KIT_DSD_PRIME) then with_truth _ _ else _). exists r. split.
  - destruct Ho as [[[-> | ->] Hl] | [-> Hl]]; apply new_node_ok; rewrite ?Hl; try done; unfold op_node; [tauto..|]. intros _. subst r. cbn. rewrite Hl. cbn. repeat constructor; done.
  - replace (dId r) with (dnVars pNtk + length (pNodes pNtk)) by (unfold r; by destruct (decide _)). f_equal. unfold set_obj, grown. cbn [pNodes dnVars Root].
    rewrite snoc_set, insert_app_l by (by apply lookup_lt_Some in Eo). by rewrite lit_0.
Qed.

(** The fanins that were dropped. *)
Lemma gone_length (gone l : list nat) : length (foldl (fun l j => <[j := 127]> l) l gone) = length l.
Proof. revert l. induction gone as [|g gone IH]; intros l; [done|]. cbn. by rewrite IH, length_insert. Qed.
Lemma nth_insert_other {A} (l : list A) j x q dflt : j <> q -> nth q (<[j := x]> l) dflt = nth q l dflt.
Proof. intros Hj. rewrite !nth_lookup. by rewrite list_lookup_insert_ne. Qed.
Lemma nth_insert_same {A} (l : list A) j x dflt : j < length l -> nth j (<[j := x]> l) dflt = x.
Proof. intros Hj. rewrite !nth_lookup. by rewrite list_lookup_insert_eq. Qed.
Lemma gone_nth gone l q : q ∉ gone -> nth q (foldl (fun l j => <[j := 127]> l) l gone) 0 = nth q l 0.
Proof.
  revert l. induction gone as [|g gone IH]; intros l Hq; [done|]. apply not_elem_of_cons in Hq as [Hq1 Hq2]. cbn. rewrite IH by done.
  by apply nth_insert_other.
Qed.

Lemma near_grown pNtk i o r : near pNtk (grown pNtk i o r) i.
Proof.
  split; [done|done|unfold grown; cbn; rewrite length_app, length_insert; lia|]. intros j Hj Hji. unfold grown. cbn.
  rewrite lookup_app_l by (by rewrite length_insert). by apply list_lookup_insert_ne.
Qed.
Lemma grown_new pNtk i o r : pNodes (grown pNtk i o r) !! length (pNodes pNtk) = Some r.
Proof. unfold grown. cbn. rewrite lookup_app_r, length_insert, Nat.sub_diag by (by rewrite length_insert). done. Qed.
Lemma grown_obj pNtk i o r : i < length (pNodes pNtk) -> pNodes (grown pNtk i o r) !! i = Some o.
Proof. intros Hi. unfold grown. cbn. rewrite lookup_app_l by (by rewrite length_insert). by apply list_lookup_insert_eq. Qed.
Lemma grown_length pNtk i o r : length (pNodes (grown pNtk i o r)) = S (length (pNodes pNtk)).
Proof. unfold grown. cbn. rewrite length_app, length_insert. cbn. lia. Qed.
Lemma grown_ids pNtk i o o1 r : ids_ok pNtk -> pNodes pNtk !! i = Some o -> dId o1 = dId o -> dId r = dnVars pNtk + length (pNodes pNtk) -> ids_ok (grown pNtk i o1 r).
Proof.
  intros Hids Eo E1 Er j oj Ej. change (dnVars (grown _ _ _ _)) with (dnVars pNtk). pose proof (lookup_lt_Some _ _ _ Eo) as Hi.
  pose proof (lookup_lt_Some _ _ _ Ej) as Hj. rewrite grown_length in Hj. destruct (decide (j = length (pNodes pNtk))) as [->|Hj1].
  - rewrite grown_new in Ej. by injection Ej as <-.
  - destruct (decide (j = i)) as [->|Hji]; [rewrite grown_obj in Ej by done; injection Ej as <-; rewrite E1; by apply Hids|].
    apply Hids. rewrite <- Ej. symmetry. apply near_grown; [lia|done].
Qed.

(** * Writing a literal *)

Record wrote (pNtk pNtk' : Kit_DsdNtk_t) (par : dsd_ptr) (x : nat) : Prop := {
  wr_vars : dnVars pNtk' = dnVars pNtk;
  wr_root : par <> par_root -> Root pNtk' = Root pNtk;
  wr_length : length (pNodes pNtk') = length (pNodes pNtk);
  wr_nodes : forall j, owner par <> Some j -> pNodes pNtk' !! j = pNodes pNtk !! j;
  wr_owner : forall p q op, par = par_fan p q -> pNodes pNtk !! p = Some op -> pNodes pNtk' !! p = Some (with_fans op (nFans op) (<[q := x]> (pFans op)));
  wr_ids : ids_ok pNtk -> ids_ok pNtk';
  wr_read : read_lit pNtk' par = Some x }.

Lemma write_spec pNtk par l x : read_lit pNtk par = Some l -> exists pNtk', write_lit pNtk par x = Some pNtk' /\ wrote pNtk pNtk' par x.
Proof.
  destruct par as [|p q]; cbn [read_lit write_lit].
  - intros _. eexists. split; [done|]. by split.
  - destruct (pNodes pNtk !! p) as [op|] eqn:Ep; cbn [mbind option_bind]; [|done]. intros Hl. pose proof (lookup_lt_Some _ _ _ Hl) as Hq.
    pose proof (lookup_lt_Some _ _ _ Ep) as Hp. rewrite (proj2 (Nat.ltb_lt _ _) Hq). eexists. split; [done|].
    assert (forall j, p <> j -> pNodes (set_obj pNtk p (with_fans op (nFans op) (<[q := x]> (pFans op)))) !! j = pNodes pNtk !! j) as Hj by (intros j Hj; by apply list_lookup_insert_ne).
    assert (pNodes (set_obj pNtk p (with_fans op (nFans op) (<[q := x]> (pFans op)))) !! p = Some (with_fans op (nFans op) (<[q := x]> (pFans op)))) as Hpp by (by apply list_lookup_insert_eq).
    split; [done|done|by cbn; rewrite length_insert|intros j Hjo; apply Hj; cbn in Hjo; congruence| | |].
    + intros p' q' op' [= <- <-] E. rewrite Ep in E. injection E as <-. done.
    + intros Hids j oj Ej. destruct (decide (p = j)) as [<-|Hne]; [|rewrite Hj in Ej by done; by apply Hids].
      rewrite Hpp in Ej. injection Ej as <-. cbn. by apply Hids.
    + cbn [read_lit]. rewrite Hpp. cbn. by apply list_lookup_insert_eq.
Qed.
