(* ===== verification/DsdStep.v ===== *)
(** One step of the decomposition: each way in which [Kit_DsdDecompose_rec] takes a node apart keeps the contract of the
    recursion.  A node that has just been compressed gets a new node above it, a new node below it, becomes a
    multiplexer, or stays prime. *)
From S2P Require Import Prelude Words Relabel Minterm TruthBasic TruthCof TruthPerm TruthSupp Cube Minato Isop CloudTruth Dsd DsdFun DsdDec.

Lemma changes_read pNtk pNtk' i p0 q0 e par l : changes pNtk pNtk' i (par_fan p0 q0) e -> owner par <> Some i -> owner par <> Some p0 ->
  read_lit pNtk par = Some l -> read_lit pNtk' par = Some l.
Proof.
  intros C H1 H2. destruct par as [|p q]; cbn [read_lit]; [by rewrite (ch_root _ _ _ _ _ C)|]. cbn in H1, H2.
  destruct (pNodes pNtk !! p) as [op|] eqn:Ep; [|done]. rewrite (ch_nodes _ _ _ _ _ C), Ep; [done|by apply lookup_lt_Some in Ep|congruence|cbn; congruence].
Qed.

Lemma two_new {A} (l : list A) x y : ((l ++ [x]) ++ [y]) !! length l = Some x /\ ((l ++ [x]) ++ [y]) !! (length l + 1) = Some y /\
  forall x' y', <[length l + 1 := y']> (<[length l := x']> ((l ++ [x]) ++ [y])) = l ++ [x'; y'].
Proof.
  assert (length (l ++ [x]) = length l + 1) as E by (rewrite length_app; done). split; [|split].
  - rewrite lookup_app_l by lia. apply snoc_new.
  - rewrite <- E. apply snoc_new.
  - intros x' y'. rewrite insert_app_l, snoc_set by lia. assert (length (l ++ [x']) = length l + 1) as <- by (rewrite length_app; done). by rewrite snoc_set, <- app_assoc.
Qed.

Lemma Support_same n t t' : 0 < n <= 16 -> is_tt n t -> proper n t' -> (forall m, tfun n t m = tfun n t' m) -> Kit_TruthSupport t n = Kit_TruthSupport t' n.
Proof.
  intros Hn Ht [Ht' _] E. apply Support_eq; [lia|done|apply word_Support; lia| |].
  - intros j Hj _. apply Support_bit; [lia|done|intros; lia].
  - intros j Hj. rewrite Support_bit by (lia || done). split; [intros Hv; by apply (vac_ext _ _ _ E), Hv|]. intros Hv _. apply (vac_ext _ (tfun n t')); [done|done].
Qed.

(** ** Loops that stop *)

Lemma turns_stop (l : list nat) f r : fold_left (fun t k => or_turn t (f k)) l (stop r) = stop r.
Proof. by induction l. Qed.

Lemma turns_spec (Q : option Kit_DsdNtk_t -> Prop) (l : list nat) (f : nat -> turn) : (forall k, In k l -> match f k with stop r => Q r | go => True end) ->
  match fold_left (fun t k => or_turn t (f k)) l go with stop r => Q r | go => forall k, In k l -> f k = go end.
Proof.
  induction l as [|k l IH]; intros H; cbn [fold_left or_turn]; [done|]. pose proof (H k (or_introl eq_refl)) as Hk. destruct (f k) as [|r] eqn:E.
  - specialize (IH (fun x Hx => H x (or_intror Hx))). destruct (fold_left _ l go); [|done]. intros x [<-|Hx]; [done|by apply IH].
  - by rewrite turns_stop.
Qed.

(** ** Equalities between four functions *)

Lemma IsEqual_iff n a b : is_tt n a -> is_tt n b -> Kit_TruthIsEqual a b n = true <-> forall m, tfun n a m = tfun n b m.
Proof. intros Ha Hb. pose proof (IsEqual_differ n a b Ha Hb) as H. destruct (Kit_TruthIsEqual a b n); [done|]. split; [done|]. intros E. by destruct H as [m []]. Qed.

Lemma IsEqual_triple n a b c : is_tt n a -> is_tt n b -> is_tt n c -> let ab := Kit_TruthIsEqual a b n in let ac := Kit_TruthIsEqual a c n in let bc := Kit_TruthIsEqual b c n in
  implb (ab && ac) bc && implb (ab && bc) ac && implb (ac && bc) ab = true.
Proof.
  intros Ha Hb Hc ab ac bc. pose proof (IsEqual_iff n a b Ha Hb) as Hab. pose proof (IsEqual_iff n a c Ha Hc) as Hac. pose proof (IsEqual_iff n b c Hb Hc) as Hbc.
  fold ab in Hab. fold ac in Hac. fold bc in Hbc. destruct ab, ac, bc; try done; exfalso.
  - enough (false = true) by done. apply Hbc. intros m. by rewrite <- (proj1 Hab), (proj1 Hac).
  - enough (false = true) by done. apply Hac. intros m. by rewrite (proj1 Hab), (proj1 Hbc).
  - enough (false = true) by done. apply Hab. intros m. by rewrite (proj1 Hac), (proj1 Hbc).
Qed.

Lemma pairs_bool f01 f02 f03 f12 f13 f23 : implb (f01 && f02) f12 && implb (f01 && f12) f02 && implb (f02 && f12) f01 = true ->
  implb (f01 && f03) f13 && implb (f01 && f13) f03 && implb (f03 && f13) f01 = true -> implb (f02 && f03) f23 && implb (f02 && f23) f03 && implb (f03 && f23) f02 = true ->
  implb (f12 && f13) f23 && implb (f12 && f23) f13 && implb (f13 && f23) f12 = true ->
  let nPairs := Nat.b2n f01 + Nat.b2n f02 + Nat.b2n f03 + Nat.b2n f12 + Nat.b2n f13 + Nat.b2n f23 in
  negb (nPairs =? 3) && negb (nPairs =? 2) = false ->
  if negb f01 && negb f02 && negb f03 then f12 = true /\ f13 = true
  else if negb f01 && negb f12 && negb f13 then f02 = true /\ f03 = true
  else if negb f02 && negb f12 && negb f23 then f01 = true /\ f03 = true
  else if negb f03 && negb f13 && negb f23 then f01 = true /\ f02 = true
  else f03 = true /\ f12 = true \/ f01 = true /\ f23 = true \/ f02 = true /\ f13 = true.
Proof. destruct f01, f02, f03, f12, f13, f23; cbn; auto; done. Qed.

(** * One step *)

Section Step.
Set Default Proof Using "All".
Context (nDecMux : nat) (rec : dsd_call) (N : nat) (W : dsd_works nDecMux rec N).
Context (pNtk : Kit_DsdNtk_t) (i : nat) (uSupp : Z) (par : dsd_ptr) (P : nat -> Prop) (o : Kit_DsdObj_t) (G : (nat -> bool) -> nat -> bool) (d : nat)
  (Tr : option (nat -> nat -> Prop)).
Context (Hflag : nDecMux = 0 \/ Tr = None) (H : dsd_pre pNtk i uSupp par P o G d Tr) (Hfull : full (nFans o) uSupp).
Abbreviation n := (nFans o).
Abbreviation F := (tfun (nFans o) (pTruth o)).
Context (HN : 2 * n <= N) (Hroom : dnVars pNtk + length (pNodes pNtk) + extra nDecMux n <= 64) (Hn2 : 2 <= n).
Abbreviation post := (dsd_post pNtk i par P (fun a => app n F (G a)) (d + n) (extra nDecMux n) (below (dnVars pNtk) (length (pNodes pNtk)) i n uSupp Tr)).

Lemma step_matters j : j < n -> ~ vac j F.
Proof.
  intros Hj Hv. destruct Hfull as [_ Hu], H as [_ _ _ Hk _ [Ht _] -> _ _ _ _ _]. specialize (Hu j ltac:(lia)).
  rewrite (proj2 (Nat.ltb_lt _ _) Hj) in Hu. rewrite (proj2 (Support_bit n (pTruth o) j ltac:(lia) Ht)) in Hu; done.
Qed.

Lemma step_bit j : j < n -> Z.testbit uSupp (Z.of_nat j) = true.
Proof. intros Hj. destruct Hfull as [_ Hu], H as [_ _ _ Hk _ _ _ _ _ _ _ _]. rewrite Hu by lia. by apply Nat.ltb_lt. Qed.

Lemma step_pos : pos uSupp n = n.
Proof.
  apply (pos_all _ n); [done|]. intros j Hj. apply Hfull. destruct (pre_fans _ _ _ _ _ _ _ _ _ H). lia.
Qed.

Lemma step_size : supp_size o = n.
Proof. unfold supp_size. rewrite <- (pre_supp _ _ _ _ _ _ _ _ _ H). apply step_pos. Qed.

Lemma step_new : length (pNodes pNtk) < 64 - dnVars pNtk /\ 1 <= extra nDecMux n.
Proof.
  assert (1 <= extra nDecMux n); [|lia]. pose proof (extra_mono nDecMux 2 n Hn2) as Hm. etransitivity; [|exact Hm].
  unfold extra. destruct (nDecMux =? 0); cbn; lia.
Qed.

(** The size of the support after variables were dropped. *)
Lemma step_drop t uSupp1 k g : uSupp1 = Kit_TruthSupport t n -> is_tt n t -> k < n -> g < n -> ~ vac k (tfun n t) -> vac g (tfun n t) -> 0 < pos uSupp1 n < n.
Proof.
  intros -> Ht Hk Hg Hvk Hvg. destruct (pre_fans _ _ _ _ _ _ _ _ _ H) as [_ Hn]. assert (n <= 31) as Hn' by lia. split.
  - apply (pos_some _ _ k Hk). destruct (Z.testbit _ (Z.of_nat k)) eqn:E; [done|]. by apply Support_bit in E.
  - apply Nat.lt_le_trans with (pos uSupp n); [|by rewrite step_pos]. destruct Hfull as [_ Hu]. apply (pos_fewer _ _ _ g); [|done| |].
    + intros j Hj _. rewrite Hu by lia. by apply Nat.ltb_lt.
    + by apply Support_bit.
    + rewrite Hu by lia. by apply Nat.ltb_lt.
Qed.

Lemma step_owner p : owner par = Some p -> p < length (pNodes pNtk).
Proof.
  intros Hp. destruct (pre_par _ _ _ _ _ _ _ _ _ H) as (l & Hl & _). destruct par as [|p' q]; [done|]. injection Hp as ->. cbn in Hl.
  destruct (pNodes pNtk !! p) eqn:E; [|done]. by apply lookup_lt_Some in E.
Qed.

(** The trees at the fanins after some of them moved into a new node in the place of [k]. *)
Definition tree_below (k m : nat) (idx : nat -> nat) : option (nat -> nat -> Prop) :=
  match Tr with
  | None => None
  | Some T => Some (fun j y => if j =? k then (exists q, q < m /\ T (idx q) y) \/ y = dnVars pNtk + length (pNodes pNtk) else T j y)
  end.

Definition moved (k : nat) (gone fans : list nat) (idx : nat -> nat) : Prop :=
  (forall q, q < length fans -> (idx q = k \/ idx q ∈ gone) /\ lit_id (nth q fans 0) = lit_id (fan o (idx q))) /\
  forall q q', q < length fans -> q' < length fans -> idx q = idx q' -> q = q'.

Lemma gone_bit gone j : Forall (fun g => g < n) gone -> j < n -> Z.testbit (foldl drop_bit uSupp gone) (Z.of_nat j) = true -> j ∉ gone.
Proof.
  intros Hg Hj Hb Hin. destruct (pre_fans _ _ _ _ _ _ _ _ _ H) as [_ Hn].
  assert (Forall (fun g => g < 32) gone) as Hg32 by (eapply Forall_impl; [|exact Hg]; cbn; lia). rewrite drop_bits_bit in Hb by (done || lia).
  apply andb_true_iff in Hb as [_ Hb]. apply list_elem_of_In in Hin. rewrite (proj2 (existsb_exists _ _)) in Hb; [done|]. exists j. split; [done|apply Nat.eqb_refl].
Qed.

Lemma below_forest k gone fans idx o1 r : k < n -> Forall (fun g => g < n) gone -> moved k gone fans idx -> nFans r = length fans -> binary r -> pFans r = fans ->
  pFans o1 = <[k := lit (dnVars pNtk + length (pNodes pNtk)) false]> (foldl (fun l j => <[j := 127]> l) (pFans o) gone) ->
  forest (pNodes (grown pNtk i o1 r)) (dnVars pNtk) (fun j => P j \/ j = length (pNodes pNtk)) n (foldl drop_bit uSupp gone) (fan o1) (tree_below k (length fans) idx).
Proof.
  intros Hk Hg [Hidx Hinj] Er HQ Ef Eo1. unfold tree_below. pose proof (pre_forest _ _ _ _ _ _ _ _ _ H) as Hfor. revert Hfor. generalize Tr. intros [T|]; [|done]. intros (HT & Hdis & Hft).
  set (len := length (pNodes pNtk)) in *.
  assert (forall q, q < length fans -> idx q < n) as Hin. { intros q Hq. destruct (Hidx q Hq) as [[->|Hx] _]; [done|]. rewrite List.Forall_forall in Hg. apply Hg. by apply list_elem_of_In. }
  assert (forall j y, j < n -> T j y -> y <> dnVars pNtk + len) as Hnew.
  { intros j y Hj Hy ->. destruct (pre_foot _ _ _ _ _ _ _ _ _ H len (Hft j len Hj (step_bit j Hj) Hy)) as [L _]. unfold len in L. lia. }
  assert (forall j, j < n -> tree (pNodes (grown pNtk i o1 r)) (dnVars pNtk) (T j) (fan o j)) as HT'.
  { intros j Hj. eapply tree_frame; [apply HT; [done|by apply step_bit]|]. intros p op Hp Ep. rewrite <- Ep.
    destruct (pre_foot _ _ _ _ _ _ _ _ _ H p (Hft j p Hj (step_bit j Hj) Hp)) as (? & ? & _). by apply near_grown. }
  assert (forall j, j < n -> Z.testbit (foldl drop_bit uSupp gone) (Z.of_nat j) = true -> forall q, q < length fans -> j <> k -> idx q <> j) as Hother.
  { intros j Hj Hb q Hq Hjk <-. destruct (Hidx q Hq) as [[E|Hx] _]; [done|]. by apply (gone_bit gone (idx q)). }
  split; [|split].
  - intros j Hj Hb. unfold fan. rewrite Eo1. destruct (Nat.eqb_spec j k) as [->|Hjk].
    + rewrite nth_insert_same by (rewrite gone_length; pose proof (pre_length _ _ _ _ _ _ _ _ _ H); lia).
      apply (tree_node _ _ _ len r false (fun q => T (idx q))); [apply grown_new|done|by right| | |].
      * intros q Hq. rewrite Er in Hq. eapply tree_same; [by apply HT', Hin|]. unfold fan at 1. rewrite Ef. by apply Hidx.
      * intros q y Hq Hy. rewrite Er in Hq. split; [left; by exists q|]. apply (Hnew (idx q)); [by apply Hin|done].
      * intros q q' y Hq Hq' Hne Hy Hy'. rewrite Er in Hq, Hq'. apply (Hdis (idx q) (idx q') y); try done; [by apply Hin|by apply Hin|by intros E; apply Hne, Hinj|by apply step_bit, Hin|by apply step_bit, Hin].
    + rewrite nth_insert_other, gone_nth by (done || by apply gone_bit). by apply HT'.
  - intros j j' y Hj Hj' Hne Hb Hb' Hy Hy'. pose proof (step_bit j Hj) as Bj. pose proof (step_bit j' Hj') as Bj'.
    destruct (Nat.eqb_spec j k) as [->|Hjk], (Nat.eqb_spec j' k) as [->|Hjk']; [done| | |by apply (Hdis j j' y)].
    + destruct Hy as [(q & Hq & Hy)| ->]; [|by apply (Hnew j' _ Hj' Hy')]. apply (Hdis (idx q) j' y); try done; [by apply Hin|by apply Hother|by apply step_bit, Hin].
    + destruct Hy' as [(q & Hq & Hy')| ->]; [|by apply (Hnew j _ Hj Hy)]. apply (Hdis j (idx q) y); try done; [by apply Hin|apply not_eq_sym; by apply Hother|by apply step_bit, Hin].
  - intros j y Hj Hb Hy. destruct (j =? k).
    + destruct Hy as [(q & Hq & Hy)|Hy]; [left; by apply (Hft (idx q)); [apply Hin|apply step_bit, Hin|]|right; lia].
    + left. apply (Hft j); [done|by apply step_bit|done].
Qed.

Lemma below_inside k gone fans idx : Forall (fun g => g < n) gone -> k < n -> moved k gone fans idx ->
  inside (below (dnVars pNtk) (S (length (pNodes pNtk))) i n (foldl drop_bit uSupp gone) (tree_below k (length fans) idx)) (below (dnVars pNtk) (length (pNodes pNtk)) i n uSupp Tr).
Proof.
  intros Hg Hk [Hidx _]. unfold below, tree_below, inside. generalize Tr. intros [T|]; [|done]. intros y [(j & Hj & Hb & Hy)|[->|Hy]]; [|right; by left|right; right; lia].
  destruct (j =? k); [|left; exists j; split; [done|split; [by apply step_bit|done]]]. destruct Hy as [(q & Hq & Hy)| ->]; [|right; right; lia].
  left. exists (idx q). assert (idx q < n) as Hlt by (destruct (Hidx q Hq) as [[->|Hx] _]; [done|]; rewrite List.Forall_forall in Hg; apply Hg; by apply list_elem_of_In).
  split; [done|]. split; [by apply step_bit|done].
Qed.

Lemma below_works k gone Type_ fans t B idx : moved k gone fans idx -> k < n -> gone <> [] -> Forall (fun g => g < n /\ g <> k /\ vac g (tfun n t)) gone ->
  (forall j, j < n -> j ∉ gone -> ~ vac j (tfun n t)) -> proper n t -> op_node Type_ (length fans) ->
  (forall a q, q < length fans -> den (pNodes pNtk) (dnVars pNtk) a P d (nth q fans 0) (B a q)) ->
  (forall a, app n (tfun n t) (upd (G a) k (op_value Type_ (B a))) = app n F (G a)) ->
  post (dsd_below rec pNtk i uSupp par k gone Type_ fans t).
Proof.
  intros Hmoved Hk Hgone Hg Hv Ht Hop HB Happ. destruct step_new as [Hroom1 He]. pose proof (pre_obj _ _ _ _ _ _ _ _ _ H) as Eo.
  pose proof (lookup_lt_Some _ _ _ Eo) as Hi. pose proof (pre_fans _ _ _ _ _ _ _ _ _ H) as Hn.
  destruct (below_eq rec pNtk i o uSupp par k gone Type_ fans t Hop ltac:(lia) Eo) as (r & (Er1 & Er2 & Er3 & Er4 & Er5 & Er6) & ->).
  set (o1 := with_fans _ n _). set (uSupp1 := foldl _ uSupp gone).
  pose proof Hfull as [Hw Hu]. assert (n <= 31) as Hn31 by lia. destruct Ht as [Ht1 Ht2].
  assert (uSupp1 = Kit_TruthSupport t n) as ES.
  { apply drop_support; [done|done|done| |done]. eapply Forall_impl; [|exact Hg]. cbn. tauto. }
  assert (exists g0, g0 < n /\ vac g0 (tfun n t)) as (g0 & Hg0 & Hg0v).
  { destruct gone as [|g0 gone0]; [done|]. exists g0. apply Forall_cons_1 in Hg as [? _]. tauto. }
  assert (k ∉ gone) as Hkg by (intros Hin; rewrite Forall_forall in Hg; apply list_elem_of_In in Hin; by destruct (Hg k Hin) as (_ & ? & _)).
  assert (Forall (fun g => g < 32) gone) as Hg32 by (eapply Forall_impl; [|exact Hg]; cbn; lia).
  assert (0 < supp_size o1 < n) as Hs1 by (change (supp_size o1) with (pos (Kit_TruthSupport t n) n); rewrite <- ES; by apply (step_drop t uSupp1 k g0); [| | | |apply Hv|]).
  assert (near pNtk (grown pNtk i o1 r) i) as Hnear by apply near_grown.
  assert (Forall (fun g => g < n) gone) as Hgn by (eapply Forall_impl; [|exact Hg]; cbn; tauto).
  assert (dsd_pre (grown pNtk i o1 r) i uSupp1 par (fun j => P j \/ j = length (pNodes pNtk)) o1 (fun a => upd (G a) k (op_value Type_ (B a))) (S d) (tree_below k (length fans) idx)) as H1.
  { pose proof H as [Hids _ Ety _ Hlen Htab Hsupp _ Hden Hfoot (l & Hl & Hlv) Hown _].
    assert (forall a l v d', den (pNodes pNtk) (dnVars pNtk) a P d l v -> d <= d' -> den (pNodes (grown pNtk i o1 r)) (dnVars pNtk) a (fun j => P j \/ j = length (pNodes pNtk)) d' l v) as Hframe.
    { intros a l0 v d' Hd Hd'. eapply den_frame; [exact Hd|exact Hd'|by left|]. intros j oj Hj Ej. rewrite <- Ej. destruct (Hfoot j Hj) as (? & ? & ?). by apply Hnear. }
    split; try done; [by apply grown_ids with o|by apply grown_obj|cbn; rewrite length_insert, gone_length; exact Hlen|apply Hs1| | | |apply below_forest; try done; by eapply op_binary].
    - intros a j Hj Hb. cbn in Hj. unfold fan, o1, upd. cbn [pFans with_fans dnVars grown]. destruct (Nat.eqb_spec j k) as [->|Hjk].
      + rewrite nth_insert_same by (rewrite gone_length; lia). eapply den_val; [eapply (den_node _ _ _ _ d _ r false (B a)); [by right|apply grown_new|done| |apply Er6]|apply xorb_false_r].
        intros q Hq. unfold fan. rewrite Er4. apply Hframe; [apply HB; by rewrite <- Er3|done].
      + rewrite nth_insert_other by done. unfold uSupp1 in Hb. rewrite drop_bits_bit in Hb by (done || lia).
        apply andb_true_iff in Hb as [Hb1 Hb2]. rewrite gone_nth; [apply Hframe; [by apply Hden|lia]|]. intros Hin.
        apply list_elem_of_In in Hin. rewrite (proj2 (existsb_exists _ _)) in Hb2; [done|]. exists j. split; [done|apply Nat.eqb_refl].
    - rewrite grown_length. intros j [Hj| ->]; [destruct (Hfoot j Hj) as (? & ? & ?); repeat split; [lia|done..]|].
      repeat split; [lia|lia|]. intros Eo'. pose proof (step_owner _ Eo'). lia.
    - exists l. split; [|done]. by apply (near_read pNtk _ i). }
  pose proof (extra_above nDecMux (supp_size o1) ltac:(lia)) as X1. pose proof (extra_mono nDecMux (S (supp_size o1)) n ltac:(lia)) as X2.
  rewrite <- step_size at 1. apply (call_works nDecMux rec N pNtk i uSupp par P o G d Tr _ _ o1 _ (S d) _ _ (supp_size o1) uSupp1 W) with (2 := H) (3 := H1); [| done| |done|done| | | |done|rewrite grown_length; by apply below_inside].
  - unfold tree_below. destruct Hflag as [->|E]; [by left|right]. by rewrite E.
  - intros j [Hj| ->]; [by left|right; by right].
  - destruct (fMark o1); cbn; lia.
  - rewrite step_size. lia.
  - rewrite grown_length. lia.
Qed.

Lemma above_eq j Type_ c0 c1 cp t : Type_ = KIT_DSD_AND \/ Type_ = KIT_DSD_XOR ->
  exists r, new_node r (dnVars pNtk + length (pNodes pNtk)) Type_ [lit_notcond (fan o j) c0; lit_notcond (lit (dnVars pNtk + i) false) c1] /\
    dsd_above rec pNtk i uSupp par j Type_ c0 c1 cp t =
      let pNtk' := grown pNtk i (with_truth (with_fans o n (<[j := 127]> (pFans o))) (Kit_TruthCopy (pTruth o) t n)) r in
      l ← read_lit pNtk' par;
      pNtk' ← write_lit pNtk' par (lit_notcond (lit (dnVars pNtk + length (pNodes pNtk)) (lit_compl l)) cp);
      rec pNtk' i (drop_bit uSupp j) (par_fan (length (pNodes pNtk)) 1).
Proof.
  intros Ht. destruct step_new as [Hroom1 He]. destruct H as [Hids Eo Ety _ _ _ _ _ _ _ _ _]. unfold dsd_above. rewrite Eo. cbn [mbind option_bind].
  assert (dnVars pNtk + length (pNodes pNtk) < 64) as Hid by lia. rewrite alloc_eq, Nat.mod_small by done. cbn [pNodes]. rewrite snoc_new. cbn [mbind option_bind].
  set (r := with_type _ Type_). exists r. split.
  - apply new_node_ok; try done; [change (pFans r) with [lit_notcond (fan o j) c0; lit_notcond (2 * dId o) c1]; by rewrite (Hids i o Eo), lit_0|by left|]. by destruct Ht as [-> | ->].
  - assert (bool_decide (dType o = KIT_DSD_PRIME) = true) as Eb by (by apply bool_decide_eq_true_2). unfold set_obj, grown. cbn [pNodes dnVars Root].
    rewrite snoc_set, insert_app_l by (by apply lookup_lt_Some in Eo). change (dId r) with (dnVars pNtk + length (pNodes pNtk)).
    set (pN := mkDsdNtk _ _ _). destruct (read_lit pN par) as [l|]; [|done]. cbn [mbind option_bind]. rewrite lit_0, lit_notcond_lit. cbn [xorb].
    destruct (write_lit _ _ _); [|done]. cbn [mbind option_bind]. cbn [dType with_truth with_fans]. by rewrite Eb.
Qed.

(** A new node above the tree of the other fanins. *)
Lemma above_tree nodes' j r' uSupp1 c : j < n -> (forall q, q < n -> Z.testbit uSupp1 (Z.of_nat q) = true -> q <> j) -> nodes' !! length (pNodes pNtk) = Some r' -> binary r' -> nFans r' = 2 ->
  lit_id (fan r' 0) = lit_id (fan o j) -> (forall p op, P p -> pNodes pNtk !! p = Some op -> nodes' !! p = Some op) ->
  match below (dnVars pNtk) (S (length (pNodes pNtk))) i n uSupp1 Tr with None => True | Some A => tree nodes' (dnVars pNtk) A (fan r' 1) end ->
  match below (dnVars pNtk) (length (pNodes pNtk)) i n uSupp Tr with None => True | Some A => tree nodes' (dnVars pNtk) A (lit (dnVars pNtk + length (pNodes pNtk)) c) end.
Proof.
  intros Hj Hsub Er HQ En E0 Hn. set (len := length (pNodes pNtk)) in *. pose proof (pre_forest _ _ _ _ _ _ _ _ _ H) as Hfor. apply (forest_frame _ nodes' _ _ P) in Hfor; [|done|done]. revert Hfor.
  pose proof (lookup_lt_Some _ _ _ (pre_obj _ _ _ _ _ _ _ _ _ H)) as Hi.
  generalize Tr. intros [T|]; [|done]. intros (HT & Hdis & Hft) H1. cbn [below] in *.
  assert (forall q y, q < n -> T q (dnVars pNtk + y) -> y < len /\ y <> i) as Hold.
  { intros q y Hq Hy. destruct (pre_foot _ _ _ _ _ _ _ _ _ H y (Hft q y Hq (step_bit q Hq) Hy)) as (L & Hne & _). done. }
  apply (tree_node _ _ _ len r' c (fun q => if q =? 0 then T j else fun y => (exists q, q < n /\ Z.testbit uSupp1 (Z.of_nat q) = true /\ T q y) \/ y = dnVars pNtk + i \/ dnVars pNtk + S len <= y)).
  - done.
  - done.
  - right; right; lia.
  - intros q Hq. rewrite En in Hq. destruct q as [|[|q]]; [|done|lia]. eapply tree_same; [by apply HT, step_bit|done].
  - intros q y Hq Hy. rewrite En in Hq. destruct q as [|[|q]]; [| |lia]; cbn [Nat.eqb] in Hy.
    + split; [left; exists j; split; [done|split; [by apply step_bit|done]]|]. intros ->. destruct (Hold j len Hj Hy). lia.
    + destruct Hy as [(q & Hqn & Hb & Hy)|[->|Hy]]; [|split; [right; by left|unfold len; lia]|split; [right; right; lia|lia]].
      split; [left; exists q; split; [done|split; [by apply step_bit|done]]|]. intros ->. destruct (Hold q len Hqn Hy). lia.
  - assert (forall y, T j y -> (exists q, q < n /\ Z.testbit uSupp1 (Z.of_nat q) = true /\ T q y) \/ y = dnVars pNtk + i \/ dnVars pNtk + S len <= y -> False) as Hx.
    { intros y Hy [(q & Hq & Hb & Hy')|[->|Hy']].
      - apply (Hdis j q y); try done; [by apply not_eq_sym, Hsub|by apply step_bit|by apply step_bit].
      - destruct (Hold j i Hj Hy). lia.
      - replace y with (dnVars pNtk + (y - dnVars pNtk)) in Hy by lia. destruct (Hold j _ Hj Hy). lia. }
    intros q q' y Hq Hq' Hne Hy Hy'. rewrite En in Hq, Hq'. destruct q as [|[|q]], q' as [|[|q']]; cbn [Nat.eqb] in Hy, Hy'; try lia; [by apply (Hx y)|by apply (Hx y)].
Qed.

Lemma above_works j Type_ c0 c1 cp t : j < n -> Type_ = KIT_DSD_AND \/ Type_ = KIT_DSD_XOR -> proper n t -> vac j (tfun n t) ->
  (forall q, q < n -> q <> j -> ~ vac q (tfun n t)) ->
  (forall a, xorb (op_value Type_ (fun q => if q =? 0 then xorb (G a j) c0 else xorb (app n (tfun n t) (G a)) c1)) cp = app n F (G a)) ->
  post (dsd_above rec pNtk i uSupp par j Type_ c0 c1 cp t).
Proof.
  intros Hj HT [Ht1 Ht2] Hv Hv' Happ. destruct step_new as [Hroom1 He]. pose proof (pre_obj _ _ _ _ _ _ _ _ _ H) as Eo.
  pose proof (lookup_lt_Some _ _ _ Eo) as Hi. pose proof (pre_fans _ _ _ _ _ _ _ _ _ H) as Hn.
  destruct (above_eq j Type_ c0 c1 cp t HT) as (r & (Er1 & Er2 & Er3 & Er4 & Er5 & Er6) & ->). cbv zeta.
  set (o1 := with_truth _ _). set (pN := grown pNtk i o1 r). set (len := length (pNodes pNtk)).
  destruct H as [Hids _ Ety _ Hlen Htab Hsupp _ Hden Hfoot (l & Hl & Hlv) Hown _].
  assert (near pNtk pN i) as Hnear by apply near_grown.
  rewrite (near_read _ _ _ _ _ Hnear Hown Hl). cbn [mbind option_bind].
  destruct (write_spec pN par l (lit_notcond (lit (dnVars pNtk + len) (lit_compl l)) cp)) as (pN2 & -> & Hw); [by apply (near_read _ _ _ _ _ Hnear)|].
  cbn [mbind option_bind].
  set (uSupp1 := drop_bit uSupp j). set (T1 := Kit_TruthCopy (pTruth o) t n) in *.
  assert (forall m, tfun n t m = tfun n T1 m) as EC by (intros m; symmetry; apply tfun_Copy, Htab).
  assert (proper n T1) as HT1 by (apply proper_Copy; [apply Htab|by split]). apply (vac_ext _ _ _ EC) in Hv.
  assert (forall q, q < n -> q <> j -> ~ vac q (tfun n T1)) as Hv1 by (intros q Hq Hqj Hvq; apply (Hv' q Hq Hqj); by apply (vac_ext _ (tfun n T1))).
  assert (uSupp1 = Kit_TruthSupport T1 n) as ES.
  { apply (drop_support n T1 uSupp [j]); [lia|apply HT1|done|by repeat constructor|]. intros q Hq Hqj. apply Hv1; [done|]. intros ->. apply Hqj, list_elem_of_here. }
  assert (exists k, k < n /\ k <> j) as (k & Hk & Hkj) by (destruct (Nat.eq_dec j 0); [exists 1; lia|exists 0; lia]).
  assert (0 < supp_size o1 < n) as Hs1.
  { change (supp_size o1) with (pos (Kit_TruthSupport T1 n) n). rewrite <- ES. apply (step_drop T1 uSupp1 k j); [done|apply HT1|done..|by apply Hv1|done]. }
  assert (owner par <> Some len) as Hol by (intros Eo'; pose proof (step_owner _ Eo'); unfold len in *; lia).
  assert (pNodes pN2 !! i = Some o1) as Ei by (rewrite (wr_nodes _ _ _ _ Hw) by done; by apply grown_obj).
  assert (pNodes pN2 !! len = Some r) as El by (rewrite (wr_nodes _ _ _ _ Hw) by done; apply grown_new).
  assert (forall q, q < len -> q <> i -> owner par <> Some q -> pNodes pN2 !! q = pNodes pNtk !! q) as Hsame.
  { intros q Hq Hqi Hqo. rewrite (wr_nodes _ _ _ _ Hw) by done. by apply Hnear. }
  assert (dnVars pN2 = dnVars pNtk) as Env by (by rewrite (wr_vars _ _ _ _ Hw)).
  assert (length (pNodes pN2) = S len) as Elen by (rewrite (wr_length _ _ _ _ Hw); apply grown_length).
  assert (forall q, q < n -> Z.testbit uSupp1 (Z.of_nat q) = true -> q <> j) as Hnj.
  { intros q Hq Hb ->. unfold uSupp1 in Hb. by rewrite drop_bit_bit, Nat.eqb_refl, andb_false_r in Hb by lia. }
  assert (dsd_pre pN2 i uSupp1 (par_fan len 1) P o1 G d Tr) as H1.
  { split; try done.
    - apply (wr_ids _ _ _ _ Hw). by apply grown_ids with o.
    - cbn. rewrite length_insert. exact Hlen.
    - apply Hs1.
    - intros a q Hq Hb. rewrite Env. unfold fan, o1. cbn [pFans with_truth with_fans]. unfold uSupp1 in Hb. cbn in Hq. rewrite drop_bit_bit in Hb by lia.
      apply andb_true_iff in Hb as [Hb1 Hb2]. apply negb_true_iff, Nat.eqb_neq in Hb2. rewrite nth_insert_other by done.
      eapply den_frame; [by apply Hden|done|done|]. intros p op Hp Ep. rewrite <- Ep. destruct (Hfoot p Hp) as (? & ? & ?). by apply Hsame.
    - intros p Hp. destruct (Hfoot p Hp) as (? & ? & ?). rewrite Elen. cbn. unfold len. repeat split; [lia|done|]. intros [= E]. lia.
    - cbn [read_lit]. rewrite El. cbn. rewrite Er4. eexists. split; [done|]. unfold lit_notcond. rewrite !lit_id_lit. by rewrite Env.
    - cbn. intros [= E]. unfold len in E. lia.
    - rewrite Env. change (nFans o1) with n. apply (forest_some (pNodes pNtk) _ _ _ _ uSupp _ (fan o)); [by apply (pre_forest _ _ _ _ _ _ _ _ _ H)| |].
      + intros q Hq Hb. split; [by apply step_bit|]. unfold fan, o1. cbn [pFans with_truth with_fans]. rewrite nth_insert_other; [done|]. by apply not_eq_sym, Hnj.
      + intros p op Hp Ep. rewrite <- Ep. destruct (Hfoot p Hp) as (? & ? & ?). by apply Hsame. }
  pose proof (extra_above nDecMux (supp_size o1) ltac:(lia)) as X1. pose proof (extra_mono nDecMux (S (supp_size o1)) n ltac:(lia)) as X2.
  destruct (W _ _ _ _ _ _ _ _ _ Hflag H1) as (pN' & la & l' & -> & Hla & Hl' & C & Hd' & Htree); [destruct (fMark o1); cbn; lia|rewrite Elen, Env; unfold len; lia|].
  cbn [read_lit] in Hla. rewrite El in Hla. cbn in Hla. rewrite Er4 in Hla. injection Hla as <-.
  pose proof (ch_owner _ _ _ _ _ C len 1 r eq_refl El) as (l2 & El2). cbn [read_lit] in Hl'. rewrite El2 in Hl'. cbn in Hl'. rewrite Er4 in Hl'. injection Hl' as <-.
  rewrite Er3, Er4 in El2. cbn in El2.
  assert (new_node (with_fans r 2 [lit_notcond (fan o j) c0; l2]) (dnVars pNtk + len) Type_ [lit_notcond (fan o j) c0; l2]) as (_ & _ & _ & _ & Hg2 & Hv2).
  { apply new_node_ok; try done; [by left|]. by destruct HT as [-> | ->]. }
  assert (dnVars pN' = dnVars pNtk) as EnV' by (by rewrite (ch_vars _ _ _ _ _ C)).
  assert (length (pNodes pN') <= S len + extra nDecMux (supp_size o1)) as Hlen' by (rewrite <- Elen; apply C).
  assert (S len <= length (pNodes pN')) as Hlen2 by (rewrite <- Elen; apply C).
  assert (forall q, q < len -> q <> i -> owner par <> Some q -> pNodes pN' !! q = pNodes pNtk !! q) as Hsame'.
  { intros q Hq Hqi Hqo. rewrite (ch_nodes _ _ _ _ _ C) by (rewrite ?Elen; lia || done || intros [= E]; lia). by apply Hsame. }
  exists pN', l, (lit_notcond (lit (dnVars pNtk + len) (lit_compl l)) cp). split; [done|]. split; [done|]. split; [|split; [|split]].
  - apply (changes_read pN2 pN' i len 1 _ par _ C); [done|done|apply Hw].
  - split; [done| |fold len; lia|intros; by apply Hsame'| |by apply C].
    + intros Hp. rewrite (ch_root _ _ _ _ _ C) by done. by apply Hw.
    + intros p q op Ep Eop. subst par. cbn in Hown, Hol. pose proof (lookup_lt_Some _ _ _ Eop) as Hp. exists (lit_notcond (lit (dnVars pNtk + len) (lit_compl l)) cp).
      rewrite (ch_nodes _ _ _ _ _ C) by (rewrite ?Elen; unfold len; lia || congruence || (cbn; intros [= E]; lia)).
      apply (wr_owner _ _ _ _ Hw p q op eq_refl). rewrite <- Eop. apply Hnear; [done|congruence].
  - intros a. rewrite EnV', lit_notcond_lit. replace (d + n) with (S (d + n - 1)) by lia.
    eapply den_val; [eapply (den_node _ _ _ _ (d + n - 1) len _ _ (fun q => if q =? 0 then xorb (G a j) c0 else xorb (app n (tfun n T1) (G a)) c1));
      [right; by right|exact El2|exact Hg2| |apply Hv2]|].
    + intros q Hq. cbn in Hq. destruct q as [|[|q]]; [| |lia]; unfold fan; cbn [pFans with_fans nth Nat.eqb].
      * apply den_notcond. assert (Z.testbit uSupp (Z.of_nat j) = true) as Hb by (destruct Hfull as [_ Hu]; rewrite Hu by lia; by apply Nat.ltb_lt).
        eapply den_frame; [by apply Hden|lia|by left|]. intros p op Hp Ep. rewrite <- Ep. destruct (Hfoot p Hp) as (? & ? & ?). by apply Hsame'.
      * eapply den_val; [eapply den_frame; [rewrite <- EnV'; apply Hd'|change (nFans o1) with n in *; lia| |done]|by rewrite !lit_compl_notcond, lit_compl_lit].
        intros p [Hp|[->|Hp]]; [by left|right; by left|right; right; unfold len in *; lia].
    + rewrite <- (Happ a). rewrite <- (app_fun n (tfun n t) (tfun n T1)) by done. rewrite <- !xorb_assoc. by rewrite (xorb_comm _ (lit_compl l)), xorb_assoc, xorb_comm.
  - rewrite EnV', lit_notcond_lit. rewrite EnV', Elen, Env in Htree. apply (above_tree _ j _ uSupp1 _ Hj Hnj El2); [left; split; [cbn; by rewrite Er2|done]|done|change (lit_id (lit_notcond (fan o j) c0) = lit_id (fan o j)); unfold lit_notcond; by rewrite lit_id_lit| |exact Htree].
    intros p op Hp Ep. rewrite <- Ep. destruct (Hfoot p Hp) as (? & ? & ?). by apply Hsame'.
Qed.

(** The node becomes a multiplexer. *)
Definition mux_nodes (id0 id1 : nat) (j : nat) : Kit_DsdObj_t :=
  with_fans (with_truth o (pTruth o).[0 <- 0xCACACACA]) 3 (<[1 := lit id1 false]> (<[0 := lit id0 false]> (<[2 := fan o j]> (pFans o)))).
Definition half_node (id : nat) (fans : list nat) (t : list Z) : Kit_DsdObj_t :=
  mkDsdObj id KIT_DSD_PRIME false 1 n fans (Kit_TruthCopy (scratch n) t n).

Definition mux_start (j : nat) (fans0 fans1 : list nat) (t0 t1 : list Z) : Kit_DsdNtk_t :=
  let len := length (pNodes pNtk) in
  mkDsdNtk (dnVars pNtk) (Root pNtk) (<[i := mux_nodes (dnVars pNtk + len) (dnVars pNtk + (len + 1)) j]> (pNodes pNtk) ++
           [half_node (dnVars pNtk + len) fans0 t0; half_node (dnVars pNtk + (len + 1)) fans1 t1]).

Lemma mux_eq j fans0 fans1 t0 t1 S0 S1 : dnVars pNtk + length (pNodes pNtk) + 2 <= 64 ->
  let len := length (pNodes pNtk) in
  dsd_mux rec pNtk i j fans0 fans1 t0 t1 S0 S1 =
    (pN ← rec (mux_start j fans0 fans1 t0 t1) len S0 (par_fan i 0);
     rec pN (len + 1) S1 (par_fan i 1)).
Proof.
  intros Hid len. destruct H as [Hids Eo Ety Hn _ _ _ _ _ _ _ _]. unfold dsd_mux. rewrite Eo. cbn [mbind option_bind].
  assert (dnVars pNtk + length (pNodes pNtk) < 2 ^ 6) as Hid0 by (cbn; lia).
  assert (dnVars pNtk + (length (pNodes pNtk) + 1) < 2 ^ 6) as Hid1 by (cbn; lia).
  assert (n < 2 ^ 6) as Hn6 by (cbn; lia).
  rewrite !alloc_eq. cbn [pNodes dnVars Root]. rewrite !length_app. cbn [length]. rewrite (Nat.mod_small _ _ Hid0), (Nat.mod_small _ _ Hid1), (Nat.mod_small _ _ Hn6).
  destruct (two_new (pNodes pNtk) (mkDsdObj (dnVars pNtk + length (pNodes pNtk)) KIT_DSD_PRIME false 0 n (repeat 0 n) (repeat 0%Z (Kit_TruthWordNum n)))
    (mkDsdObj (dnVars pNtk + (length (pNodes pNtk) + 1)) KIT_DSD_PRIME false 0 n (repeat 0 n) (repeat 0%Z (Kit_TruthWordNum n)))) as (E0 & E1 & E2).
  change (if decide (KIT_DSD_PRIME = KIT_DSD_PRIME) then Kit_TruthWordNum n else 0) with (Kit_TruthWordNum n).
  rewrite E0. cbn [mbind option_bind]. rewrite E1. cbn [mbind option_bind]. unfold set_obj. cbn [pNodes dnVars Root]. rewrite E2, insert_app_l by (by apply lookup_lt_Some in Eo).
  assert (bool_decide (dType o = KIT_DSD_PRIME) = true) as -> by (by apply bool_decide_eq_true_2).
  cbn [dId with_refs with_truth with_fans nRefs dType fMark nFans pFans pTruth]. rewrite !lit_0. by destruct (rec _ _ _ _).
Qed.

Lemma mux_fan j k : 3 <= n -> k < 3 -> pFans (mux_nodes (dnVars pNtk + length (pNodes pNtk)) (dnVars pNtk + (length (pNodes pNtk) + 1)) j) !! k =
  Some (if k =? 2 then fan o j else lit (dnVars pNtk + (length (pNodes pNtk) + k)) false).
Proof.
  intros Hn Hk. pose proof (pre_length _ _ _ _ _ _ _ _ _ H) as Hl. unfold mux_nodes. cbn [pFans with_fans].
  destruct k as [|[|[|k]]]; [| | |lia]; cbn [Nat.eqb].
  - rewrite list_lookup_insert_ne, list_lookup_insert_eq by (rewrite ?length_insert; lia). by rewrite Nat.add_0_r.
  - by rewrite list_lookup_insert_eq by (rewrite !length_insert; lia).
  - rewrite !list_lookup_insert_ne, list_lookup_insert_eq by lia. done.
Qed.

(** A new node for half of the function. *)
Lemma half_pre pN p fans t S q : q = 0 \/ q = 1 -> ids_ok pN -> dnVars pN = dnVars pNtk -> pNodes pN !! p = Some (half_node (dnVars pNtk + p) fans t) -> i <> p -> ~ P p ->
  proper n t -> S = Kit_TruthSupport t n -> 0 < pos S n -> length fans = n ->
  (forall x, x < n -> Z.testbit S (Z.of_nat x) = true -> nth x fans 0 = fan o x) ->
  (exists om, pNodes pN !! i = Some om /\ pFans om !! q = Some (lit (dnVars pNtk + p) false)) ->
  (forall x, P x -> pNodes pN !! x = pNodes pNtk !! x) -> length (pNodes pNtk) <= length (pNodes pN) ->
  dsd_pre pN p S (par_fan i q) P (half_node (dnVars pNtk + p) fans t) G d Tr.
Proof.
  intros Hq Hids EnV Ep Hip HPp Ht ES HS Hl Hf (om & Eom & Eq) HP Hlen.
  assert (forall m, tfun n t m = tfun n (Kit_TruthCopy (scratch n) t n) m) as EC by (intros m; symmetry; apply tfun_Copy, scratch_tt).
  assert (S = Kit_TruthSupport (Kit_TruthCopy (scratch n) t n) n) as ES'.
  { rewrite ES. apply Support_same; [apply H|apply Ht|apply proper_Copy; [apply scratch_tt|done]|done]. }
  split; try done.
  - exact (pre_fans _ _ _ _ _ _ _ _ _ H).
  - cbn. by rewrite Hl.
  - apply proper_Copy; [apply scratch_tt|done].
  - change (0 < pos (Kit_TruthSupport (Kit_TruthCopy (scratch n) t n) n) n). by rewrite <- ES'.
  - intros a x Hx Hb. cbn in Hx. change (fan (half_node (dnVars pNtk + p) fans t) x) with (nth x fans 0). rewrite (Hf x Hx Hb), EnV.
    assert (Z.testbit uSupp (Z.of_nat x) = true) as Hb' by (by apply step_bit).
    eapply den_frame; [by apply (pre_den _ _ _ _ _ _ _ _ _ H)|done|done|]. intros y oy Hy Ey. by rewrite HP.
  - intros x Hx. destruct (pre_foot _ _ _ _ _ _ _ _ _ H x Hx) as (? & ? & ?). repeat split; [lia|by intros ->|cbn; congruence].
  - cbn [read_lit]. rewrite Eom. cbn. rewrite Eq. eexists. split; [done|]. by rewrite lit_id_lit, EnV.
  - cbn. congruence.
  - rewrite EnV. apply (forest_some (pNodes pNtk) _ _ _ _ uSupp _ (fan o)); [by apply (pre_forest _ _ _ _ _ _ _ _ _ H)| |].
    + intros x Hx Hb. split; [by apply step_bit|]. by rewrite <- (Hf x Hx Hb).
    + intros x ox Hx Ex. by rewrite HP.
Qed.

Lemma half_small t S j : proper n t -> vac j (tfun n t) -> j < n -> S = Kit_TruthSupport t n -> pos S n < n.
Proof.
  intros [Ht _] Hv Hj ->. destruct (pre_fans _ _ _ _ _ _ _ _ _ H). apply Nat.lt_le_trans with (pos uSupp n); [|by rewrite step_pos].
  apply (pos_fewer _ _ _ j); [intros x Hx _; by apply step_bit|done|by apply Support_bit; [lia| |]|by apply step_bit].
Qed.

(** A call for half of the function. *)
Lemma half_works pN p fans t S q : dsd_pre pN p S (par_fan i q) P (half_node (dnVars pNtk + p) fans t) G d Tr -> read_lit pN (par_fan i q) = Some (lit (dnVars pNtk + p) false) ->
  proper n t -> pos S n < n -> dnVars pN + length (pNodes pN) + extra nDecMux (pos S n) <= 64 ->
  exists pN' l, rec pN p S (par_fan i q) = Some pN' /\ read_lit pN' (par_fan i q) = Some l /\ changes pN pN' p (par_fan i q) (extra nDecMux (pos S n)) /\
    (forall a, den (pNodes pN') (dnVars pN') a (foot P p (length (pNodes pN))) (d + pos S n) l (app n (tfun n t) (G a))) /\
    match below (dnVars pN) (length (pNodes pN)) p n S Tr with None => True | Some A => tree (pNodes pN') (dnVars pN') A l end.
Proof.
  intros Hp Hr Ht Hs Hroom'. assert (supp_size (half_node (dnVars pNtk + p) fans t) = pos S n) as Es.
  { unfold supp_size. by rewrite <- (pre_supp _ _ _ _ _ _ _ _ _ Hp). }
  destruct (W _ _ _ _ _ _ _ _ _ Hflag Hp) as (pN' & l0 & l & E & Hl0 & Hl & C & Hd & Htree); rewrite ?Es; [cbn [fMark half_node Nat.b2n]; lia|done|]. rewrite Es in C, Hd.
  exists pN', l. split; [done|]. split; [done|]. split; [done|]. split; [|exact Htree]. intros a. rewrite Hr in Hl0. injection Hl0 as <-. eapply den_val; [apply Hd|].
  rewrite lit_compl_lit, xorb_false_r. symmetry. apply app_fun. intros m. symmetry. apply tfun_Copy, scratch_tt.
Qed.

Lemma mux_start_ok j fans0 fans1 t0 t1 : let pN := mux_start j fans0 fans1 t0 t1 in let len := length (pNodes pNtk) in
  near pNtk pN i /\ pNodes pN !! i = Some (mux_nodes (dnVars pNtk + len) (dnVars pNtk + (len + 1)) j) /\ pNodes pN !! len = Some (half_node (dnVars pNtk + len) fans0 t0) /\
  pNodes pN !! (len + 1) = Some (half_node (dnVars pNtk + (len + 1)) fans1 t1) /\ length (pNodes pN) = len + 2 /\ ids_ok pN.
Proof.
  intros pN len. pose proof H as [Hids Eo _ _ _ _ _ _ _ _ _ _]. pose proof (lookup_lt_Some _ _ _ Eo) as Hi.
  assert (forall q, q < len -> q <> i -> pNodes pN !! q = pNodes pNtk !! q) as Hsame.
  { intros q Hq Hqi. unfold pN. cbn. rewrite lookup_app_l by (by rewrite length_insert). by apply list_lookup_insert_ne. }
  assert (pNodes pN !! i = Some (mux_nodes (dnVars pNtk + len) (dnVars pNtk + (len + 1)) j)) as Ei by (unfold pN; cbn; rewrite lookup_app_l by (by rewrite length_insert); by apply list_lookup_insert_eq).
  assert (pNodes pN !! len = Some (half_node (dnVars pNtk + len) fans0 t0)) as E0 by (unfold pN; cbn; rewrite lookup_app_r, length_insert, Nat.sub_diag by (by rewrite length_insert); done).
  assert (pNodes pN !! (len + 1) = Some (half_node (dnVars pNtk + (len + 1)) fans1 t1)) as E1.
  { unfold pN; cbn. rewrite lookup_app_r, length_insert by (rewrite length_insert; unfold len; lia). by replace (len + 1 - length (pNodes pNtk)) with 1 by (unfold len; lia). }
  assert (length (pNodes pN) = len + 2) as Elen by (unfold pN; cbn; rewrite length_app, length_insert; done).
  split; [split; [done|done|fold len; lia|done]|]. do 4 (split; [done|]).
  intros q oq Eq. pose proof (lookup_lt_Some _ _ _ Eq) as Hq. rewrite Elen in Hq. change (dnVars pN) with (dnVars pNtk).
  destruct (decide (q = i)) as [->|]; [rewrite Ei in Eq; injection Eq as <-; by apply (Hids i o)|].
  destruct (decide (q < len)); [rewrite Hsame in Eq by done; by apply Hids|].
  destruct (decide (q = len)) as [->|]; [rewrite E0 in Eq; by injection Eq as <-|].
  replace q with (len + 1) in * by lia. rewrite E1 in Eq. by injection Eq as <-.
Qed.

Lemma mux_good j id0 id1 fans : 3 <= n -> length fans = length (pFans o) -> let om := with_fans (mux_nodes id0 id1 j) 3 fans in
  good_node om /\ forall B, node_value om B = Some (if B 2 then B 1 else B 0).
Proof.
  intros Hn Hl om. destruct H as [_ _ Ety _ Hlen [[Ht1 Ht2] _] _ _ _ _ _ _]. assert (0 < Kit_TruthWordNum n) by apply WordNum_pos.
  destruct (op_good om) as [Hg Hv]; [right; by split|cbn; lia| |].
  - intros _. change (pTruth om) with ((pTruth o).[0 <- mux_word]). split; [rewrite rd_wr_eq by lia; done|]. split; [|rewrite length_wr; lia]. by apply words_wr.
  - split; [done|]. intros B. rewrite Hv. unfold om. cbn. by rewrite Ety.
Qed.

(** The three trees below a multiplexer. *)
Lemma mux_tree nodes2 nodes3 j om S0 S1 l0 l1 c : j < n -> nodes3 !! i = Some om -> binary om -> nFans om = 3 -> fan om 0 = l0 -> fan om 1 = l1 -> fan om 2 = fan o j ->
  (forall x, x < n -> Z.testbit S0 (Z.of_nat x) = true -> x <> j) -> (forall x, x < n -> Z.testbit S1 (Z.of_nat x) = true -> x <> j) ->
  Tr = None \/ (forall x, x < n -> Z.testbit S0 (Z.of_nat x) = true -> Z.testbit S1 (Z.of_nat x) = true -> False) -> length (pNodes pNtk) + 2 <= length nodes2 ->
  (forall p op, P p -> pNodes pNtk !! p = Some op -> nodes3 !! p = Some op) -> (forall q, q < length nodes2 -> q <> length (pNodes pNtk) + 1 -> q <> i -> nodes3 !! q = nodes2 !! q) ->
  match below (dnVars pNtk) (length (pNodes pNtk) + 2) (length (pNodes pNtk)) n S0 Tr with None => True | Some A => tree nodes2 (dnVars pNtk) A l0 end ->
  match below (dnVars pNtk) (length nodes2) (length (pNodes pNtk) + 1) n S1 Tr with None => True | Some A => tree nodes3 (dnVars pNtk) A l1 end ->
  match below (dnVars pNtk) (length (pNodes pNtk)) i n uSupp Tr with None => True | Some A => tree nodes3 (dnVars pNtk) A (lit (dnVars pNtk + i) c) end.
Proof.
  intros Hj Ei HQ En F0 F1 F2 HS0 HS1 Hdis01 Hl2 Hn3 Hn23. set (len := length (pNodes pNtk)) in *. set (len2 := length nodes2) in *.
  pose proof (pre_forest _ _ _ _ _ _ _ _ _ H) as Hfor. apply (forest_frame _ nodes3 _ _ P) in Hfor; [|done|done]. revert Hfor Hdis01.
  pose proof (lookup_lt_Some _ _ _ (pre_obj _ _ _ _ _ _ _ _ _ H)) as Hi. fold len in Hi.
  generalize Tr. intros [T|]; [|done]. intros (HT & Hdis & Hft) [?|H01]; [done|]. cbn [below]. intros Ht0 Ht1.
  assert (forall q y, q < n -> T q y -> y < dnVars pNtk + len /\ y <> dnVars pNtk + i) as Hold.
  { intros q y Hq Hy. destruct (Nat.lt_ge_cases y (dnVars pNtk)) as [L|L]; [lia|]. replace y with (dnVars pNtk + (y - dnVars pNtk)) in Hy by lia.
    destruct (pre_foot _ _ _ _ _ _ _ _ _ H _ (Hft q _ Hq (step_bit q Hq) Hy)) as (L' & Hne & _). unfold len. lia. }
  set (U0 := fun y => (exists x, x < n /\ Z.testbit S0 (Z.of_nat x) = true /\ T x y) \/ y = dnVars pNtk + len \/ dnVars pNtk + (len + 2) <= y) in *.
  set (U1 := fun y => (exists x, x < n /\ Z.testbit S1 (Z.of_nat x) = true /\ T x y) \/ y = dnVars pNtk + (len + 1) \/ dnVars pNtk + len2 <= y) in *.
  apply tree_bound in Ht0. fold len2 in Ht0.
  assert (forall y, U0 y -> y <> dnVars pNtk + i /\ y <> dnVars pNtk + (len + 1)) as HU0 by (intros y [(x & Hx & Hb & Hy)|Hy]; [destruct (Hold x y Hx Hy)|]; lia).
  assert (forall y, U1 y -> y <> dnVars pNtk + i) as HU1 by (intros y [(x & Hx & Hb & Hy)|Hy]; [destruct (Hold x y Hx Hy)|]; lia).
  assert (forall x S, x < n -> (forall z, z < n -> Z.testbit S (Z.of_nat z) = true -> z <> x) -> forall y, T x y -> (exists z, z < n /\ Z.testbit S (Z.of_nat z) = true /\ T z y) -> False) as HTT.
  { intros x S Hx HS y Hy (z & Hz & Hb & Hy'). apply (Hdis x z y); try done; [by apply not_eq_sym, HS|by apply step_bit|by apply step_bit]. }
  apply (tree_node _ _ _ i om c (fun q => if q =? 0 then (fun y => U0 y /\ y < dnVars pNtk + len2) else if q =? 1 then U1 else T j)); [done|done|right; by left| | |].
  - intros q Hq. rewrite En in Hq. destruct q as [|[|[|q]]]; [| | |lia]; cbn [Nat.eqb]; rewrite ?F0, ?F1, ?F2; [|done|by apply HT, step_bit].
    eapply tree_frame; [exact Ht0|]. intros q oq [Hq0 Hq2] Eq. rewrite <- Eq. destruct (HU0 _ Hq0). apply Hn23; lia.
  - intros q y Hq Hy. rewrite En in Hq. destruct q as [|[|[|q]]]; [| | |lia]; cbn [Nat.eqb] in Hy.
    + destruct Hy as [Hy _]. split; [|by apply HU0]. destruct Hy as [(x & Hx & Hb & Hy)|Hy]; [left; exists x; split; [done|split; [by apply step_bit|done]]|right; right; lia].
    + split; [|by apply HU1]. destruct Hy as [(x & Hx & Hb & Hy)|Hy]; [left; exists x; split; [done|split; [by apply step_bit|done]]|right; right; lia].
    + split; [left; exists j; split; [done|split; [by apply step_bit|done]]|]. by apply (Hold j).
  - assert (forall y, U0 y /\ y < dnVars pNtk + len2 -> U1 y -> False) as X01.
    { intros y [[(x & Hx & Hb & Hy)|Hy] Hb2] Hy1.
      - destruct (Hold x y Hx Hy). destruct Hy1 as [Hy1|Hy1]; [|lia]. apply (HTT x S1 Hx) with (3 := Hy1); [|done]. intros z Hz Hbz ->. by apply (H01 x).
      - destruct Hy1 as [(z & Hz & Hbz & Hy1)|Hy1]; [destruct (Hold z y Hz Hy1); lia|lia]. }
    assert (forall y, U0 y -> T j y -> False) as X02 by (intros y [Hy|Hy] Hyj; [by apply (HTT j S0 Hj HS0 y)|destruct (Hold j y Hj Hyj); lia]).
    assert (forall y, U1 y -> T j y -> False) as X12 by (intros y [Hy|Hy] Hyj; [by apply (HTT j S1 Hj HS1 y)|destruct (Hold j y Hj Hyj); lia]).
    intros q q' y Hq Hq' Hne Hy Hy'. rewrite En in Hq, Hq'.
    destruct q as [|[|[|q]]], q' as [|[|[|q']]]; cbn [Nat.eqb] in Hy, Hy'; try lia; first [by apply (X01 y)|by apply (X02 y); tauto|by apply (X12 y)].
Qed.

Lemma mux_works j fans0 fans1 t0 t1 S0 S1 : 3 <= n -> j < n -> proper n t0 -> proper n t1 -> vac j (tfun n t0) -> vac j (tfun n t1) ->
  S0 = Kit_TruthSupport t0 n -> S1 = Kit_TruthSupport t1 n -> 0 < pos S0 n -> 0 < pos S1 n -> 2 + extra nDecMux (pos S0 n) + extra nDecMux (pos S1 n) <= extra nDecMux n ->
  length fans0 = n -> length fans1 = n -> (forall x, x < n -> Z.testbit S0 (Z.of_nat x) = true -> nth x fans0 0 = fan o x) ->
  (forall x, x < n -> Z.testbit S1 (Z.of_nat x) = true -> nth x fans1 0 = fan o x) ->
  Tr = None \/ (forall x, x < n -> Z.testbit S0 (Z.of_nat x) = true -> Z.testbit S1 (Z.of_nat x) = true -> False) ->
  (forall m, F m = if Nat.testbit m j then tfun n t1 m else tfun n t0 m) -> post (dsd_mux rec pNtk i j fans0 fans1 t0 t1 S0 S1).
Proof.
  intros Hn Hj Ht0 Ht1 Hv0 Hv1 ES0 ES1 Hp0 Hp1 He Hl0 Hl1 Hf0 Hf1 Hdis01 HF. pose proof (half_small t0 S0 j Ht0 Hv0 Hj ES0) as Hs0. pose proof (half_small t1 S1 j Ht1 Hv1 Hj ES1) as Hs1.
  rewrite mux_eq by lia. set (len := length (pNodes pNtk)).
  pose proof H as [Hids Eo _ _ Hlen _ _ _ Hden Hfoot (l & Hl & Hlv) Hown _]. pose proof (lookup_lt_Some _ _ _ Eo) as Hi.
  destruct (mux_start_ok j fans0 fans1 t0 t1) as (Hnear1 & Ei1 & E01 & E11 & Elen1 & Hids1).
  pose proof (near_nodes _ _ _ Hnear1) as Hsame1. set (om := mux_nodes _ _ j) in *. fold len in Ei1, E01, E11, Elen1.  set (pN1 := mux_start j fans0 fans1 t0 t1) in *.
  assert (forall k, k < 3 -> pFans om !! k = Some (if k =? 2 then fan o j else lit (dnVars pNtk + (len + k)) false)) as Hom by (intros; by apply mux_fan).
  assert (dsd_pre pN1 len S0 (par_fan i 0) P (half_node (dnVars pNtk + len) fans0 t0) G d Tr) as Hpre0.
  { apply half_pre; try done; [by left|unfold len; lia| | | |unfold len; lia].
    - intros HP. destruct (Hfoot _ HP). unfold len in *; lia.
    - exists om. split; [done|]. rewrite Hom by lia. by rewrite Nat.add_0_r.
    - intros x Hx. destruct (Hfoot x Hx) as (? & ? & ?). by apply Hsame1. }
  destruct (half_works pN1 len fans0 t0 S0 0 Hpre0) as (pN2 & l0 & -> & Hr0 & C0 & Hd0 & Htree0); [cbn [read_lit]; rewrite Ei1; cbn; rewrite Hom by lia; by rewrite Nat.add_0_r|done|done| |].
  { change (dnVars pN1) with (dnVars pNtk). rewrite Elen1. unfold len. lia. }
  cbn [mbind option_bind].
  assert (dnVars pN2 = dnVars pNtk) as Env2 by apply C0.
  assert (len + 2 <= length (pNodes pN2) <= len + 2 + extra nDecMux (pos S0 n)) as Elen2 by (rewrite <- Elen1; apply C0).
  destruct (ch_owner _ _ _ _ _ C0 i 0 om eq_refl Ei1) as (l0' & Ei2). assert (l0' = l0) as ->.
  { cbn [read_lit] in Hr0. rewrite Ei2 in Hr0. cbn in Hr0. rewrite list_lookup_insert_eq in Hr0; [by injection Hr0|]. apply lookup_lt_is_Some. rewrite Hom by lia. done. }
  assert (forall q, q < len + 2 -> q <> len -> q <> i -> pNodes pN2 !! q = pNodes pN1 !! q) as Hsame2.
  { intros q Hq Hql Hqi. apply (ch_nodes _ _ _ _ _ C0); [lia|done|cbn; congruence]. }
  assert (dsd_pre pN2 (len + 1) S1 (par_fan i 1) P (half_node (dnVars pNtk + (len + 1)) fans1 t1) G d Tr) as Hpre1.
  { apply half_pre; try done; [by right|apply C0|rewrite Hsame2 by (unfold len; lia); done|unfold len; lia| | | |unfold len in *; lia].
    - intros HP. destruct (Hfoot _ HP). unfold len in *; lia.
    - eexists. split; [exact Ei2|]. cbn. rewrite list_lookup_insert_ne, Hom by lia. done.
    - intros x Hx. destruct (Hfoot x Hx) as (? & ? & ?). rewrite Hsame2 by (unfold len; lia). by apply Hsame1. }
  destruct (half_works pN2 (len + 1) fans1 t1 S1 1 Hpre1) as (pN3 & l1 & -> & Hr1 & C1 & Hd1 & Htree1); [cbn [read_lit]; rewrite Ei2; cbn; by rewrite list_lookup_insert_ne, Hom by lia|done|done| |].
  { rewrite Env2. unfold len in *. lia. }
  assert (dnVars pN3 = dnVars pNtk) as Env3 by (rewrite (ch_vars _ _ _ _ _ C1); done).
  destruct (ch_owner _ _ _ _ _ C1 i 1 _ eq_refl Ei2) as (l1' & Ei3). cbn [nFans pFans with_fans] in Ei3. assert (l1' = l1) as ->.
  { cbn [read_lit] in Hr1. rewrite Ei3 in Hr1. cbn in Hr1. rewrite list_lookup_insert_eq in Hr1; [by injection Hr1|]. apply lookup_lt_is_Some. rewrite list_lookup_insert_ne, Hom by lia. done. }
  assert (forall q, q < length (pNodes pN2) -> q <> len + 1 -> q <> i -> pNodes pN3 !! q = pNodes pN2 !! q) as Hsame3.
  { intros q Hq Hql Hqi. apply (ch_nodes _ _ _ _ _ C1); [lia|done|cbn; congruence]. }
  assert (forall q, q < len -> q <> i -> pNodes pN3 !! q = pNodes pNtk !! q) as Hsame.
  { intros q Hq Hqi. by rewrite Hsame3, Hsame2, Hsame1 by lia. }
  assert (length (pNodes pN2) <= length (pNodes pN3) <= length (pNodes pN2) + extra nDecMux (pos S1 n)) as Elen3 by apply C1.
  assert (forall q, len <= q -> owner par <> Some q) as Hol by (intros q Hq Eo'; pose proof (step_owner _ Eo'); unfold len in *; lia).
  exists pN3, l, l. split; [done|]. split; [done|]. split; [|split; [|split]].
  - apply (changes_read pN2 pN3 (len + 1) i 1 _ par _ C1); [apply Hol; lia|done|]. apply (changes_read pN1 pN2 len i 0 _ par _ C0); [apply Hol; lia|done|].
    by apply (near_read pNtk pN1 i).
  - split; [done| |fold len; lia|intros; by apply Hsame| |by apply C1].
    + intros _. by rewrite (ch_root _ _ _ _ _ C1), (ch_root _ _ _ _ _ C0) by done.
    + intros p q op Ep Eop. exists l. assert (owner par = Some p) as Ep' by (by rewrite Ep). pose proof (step_owner _ Ep') as Hp. rewrite Hsame by (done || congruence).
      rewrite Ep in Hl. cbn [read_lit] in Hl. rewrite Eop in *. cbn in Hl. rewrite list_insert_id by done. by destruct op.
  - intros a. rewrite Env3, <- (lit_eta l), Hlv, lit_compl_lit. replace (d + n) with (S (d + n - 1)) by lia.
    destruct (mux_good j (dnVars pNtk + len) (dnVars pNtk + (len + 1)) (<[1 := l1]> (<[0 := l0]> (pFans om)))) as [Hg Hv]; [done| |].
    { unfold om. cbn. by rewrite !length_insert. }
    eapply den_val; [eapply (den_node _ _ _ _ (d + n - 1) i _ _ (fun q => if q =? 0 then app n (tfun n t0) (G a) else if q =? 1 then app n (tfun n t1) (G a) else G a j));
      [right; by left|exact Ei3|exact Hg| |apply Hv]|].
    + intros q Hq. cbn in Hq. unfold fan. cbn [pFans with_fans].
      destruct q as [|[|[|q]]]; [| | |lia]; cbn [Nat.eqb].
      * rewrite nth_insert_other, nth_insert_same by (lia || eapply lookup_lt_Some, (Hom 0); lia). eapply den_frame; [rewrite <- Env2; apply Hd0|lia| |].
        -- intros q [Hq'|[->|Hq']]; [by left|right; right; unfold len; lia|right; right; unfold len in *; lia].
        -- intros q oq Hq' Eq. rewrite <- Eq. apply Hsame3; [by apply lookup_lt_Some in Eq| |]; destruct Hq' as [Hq'|[->|Hq']]; try (destruct (Hfoot q Hq')); unfold len in *; lia.
      * rewrite nth_insert_same by (rewrite length_insert; eapply lookup_lt_Some, (Hom 1); lia). eapply den_frame; [rewrite <- Env3; apply Hd1|lia| |done].
        intros q [Hq'|[->|Hq']]; [by left|right; right; unfold len; lia|right; right; unfold len in *; lia].
      * rewrite !nth_insert_other by lia. rewrite (nth_lookup_Some _ _ _ _ (Hom 2 ltac:(lia))). cbn [Nat.eqb].
        eapply den_frame; [apply Hden; [done|by apply step_bit]|lia|by left|]. intros q oq Hq' Eq. rewrite <- Eq. destruct (Hfoot q Hq') as (? & ? & ?). by apply Hsame.
    + cbn [Nat.eqb]. f_equal. rewrite (app_fun n F _ (G a) HF). by rewrite app_mux.
  - rewrite <- (lit_eta l), Hlv, Env3. rewrite Env2 in Htree0. rewrite Env3, Env2 in Htree1. change (dnVars pN1) with (dnVars pNtk) in Htree0. rewrite Elen1 in Htree0.
    assert (forall t S, is_tt n t -> vac j (tfun n t) -> S = Kit_TruthSupport t n -> forall x, x < n -> Z.testbit S (Z.of_nat x) = true -> x <> j) as Hnj.
    { intros t S Htt Hv -> x Hx Hb ->. destruct (pre_fans _ _ _ _ _ _ _ _ _ H). by rewrite (proj2 (Support_bit n t j ltac:(lia) Htt)) in Hb. }
    apply (mux_tree (pNodes pN2) _ j _ S0 S1 l0 l1 _ Hj Ei3); try done; [right; split; [exact (pre_type _ _ _ _ _ _ _ _ _ H)|cbn; lia]| | | | | |fold len; lia|].
    + unfold fan. cbn [pFans with_fans]. by rewrite nth_insert_other, nth_insert_same by (lia || eapply lookup_lt_Some, (Hom 0); lia).
    + unfold fan. cbn [pFans with_fans]. by rewrite nth_insert_same by (rewrite length_insert; eapply lookup_lt_Some, (Hom 1); lia).
    + unfold fan at 1. cbn [pFans with_fans]. rewrite !nth_insert_other by lia. by rewrite (nth_lookup_Some _ _ _ _ (Hom 2 ltac:(lia))).
    + by apply (Hnj t0), ES0; [apply Ht0|].
    + by apply (Hnj t1), ES1; [apply Ht1|].
    + intros p op Hp Ep. rewrite <- Ep. destruct (Hfoot p Hp) as (? & ? & ?). by apply Hsame.
Qed.

(** The node stays prime. *)
Lemma prime_works b : post (Some (set_obj pNtk i (with_mark o b))).
Proof.
  pose proof H as [Hids Eo Ety Hn Hlen Htab _ _ Hden Hfoot (l & Hl & Hlv) Hown _]. pose proof (lookup_lt_Some _ _ _ Eo) as Hi.
  set (pN := set_obj pNtk i (with_mark o b)). assert (near pNtk pN i) as Hnear by apply near_set.
  assert (pNodes pN !! i = Some (with_mark o b)) as Ei by (by apply list_lookup_insert_eq).
  assert (length (pNodes pN) = length (pNodes pNtk)) as Elen by (apply length_insert).
  exists pN, l, l. split; [done|]. split; [done|]. split; [by apply (near_read pNtk pN i)|]. split; [|split].
  - split; [done|done|lia|intros; by apply Hnear| |].
    + intros p q op Ep Eop. exists l. rewrite Ep in Hl, Hown. cbn [read_lit owner] in Hl, Hown. rewrite (near_nodes _ _ _ Hnear) by (congruence || by apply lookup_lt_Some in Eop).
      rewrite Eop in *. cbn in Hl. rewrite list_insert_id by done. by destruct op.
    + intros q oq Eq. change (dnVars pN) with (dnVars pNtk). destruct (decide (q = i)) as [->|Hq]; [rewrite Ei in Eq; injection Eq as <-; by apply (Hids i o)|].
      apply Hids. rewrite <- Eq. symmetry. apply Hnear; [|done]. rewrite <- Elen. by apply lookup_lt_Some in Eq.
  - intros a. change (dnVars pN) with (dnVars pNtk). rewrite <- (lit_eta l) at 1. rewrite Hlv. replace (d + n) with (S (d + n - 1)) by lia.
    eapply (den_node _ _ _ _ (d + n - 1) i _ _ (G a)); [right; by left|exact Ei| | |].
    + split; [done|]. split; [apply Hn|]. intros _. split; [apply Hn|]. split; [done|]. apply step_matters.
    + intros q Hq. eapply den_frame; [apply Hden; [done|by apply step_bit]|lia|by left|]. intros p op Hp Ep. rewrite <- Ep. destruct (Hfoot p Hp) as (? & ? & ?). by apply Hnear.
    + unfold node_value. cbn [dType with_mark]. by rewrite Ety.
  - change (dnVars pN) with (dnVars pNtk). pose proof (pre_forest _ _ _ _ _ _ _ _ _ H) as Hfor. apply (forest_frame _ (pNodes pN) _ _ P) in Hfor; [|done|].
    + revert Hfor. generalize Tr. intros [T|]; [|done]. intros (HT & Hdis & Hft). cbn [below]. rewrite <- (lit_eta l), Hlv.
      apply (tree_node _ _ _ i _ _ T Ei); [right; split; [done|cbn; lia]|right; by left|intros k Hk; by apply HT, step_bit| |].
      * intros k y Hk Hy. split; [left; exists k; split; [done|split; [by apply step_bit|done]]|]. intros ->. by destruct (Hfoot i (Hft k i Hk (step_bit k Hk) Hy)) as (_ & ? & _).
      * intros k k' y Hk Hk' Hne. apply Hdis; try done; by apply step_bit.
    + intros p op Hp Ep. rewrite <- Ep. destruct (Hfoot p Hp) as (? & ? & ?). by apply Hnear.
Qed.

(** ** Decomposition at the output *)

Lemma step_union j c0 c1 : j < n -> is_tt n c0 -> is_tt n c1 -> (forall m, tfun n c0 m = cof j false F m) -> (forall m, tfun n c1 m = cof j true F m) ->
  uSupp = (Kit_TruthSupport c0 n ||| Kit_TruthSupport c1 n ||| (1 <<< j))%Z.
Proof.
  intros Hj H0 H1 E0 E1. destruct (pre_fans _ _ _ _ _ _ _ _ _ H) as [_ Hn]. assert (n <= 31) as Hn31 by lia. destruct Hfull as [Hw Hu].
  apply word_ext; [done|auto 6 with words|]. intros x Hx. rewrite !Z.lor_spec, testbit_pow, Hu by lia.
  destruct (Nat.eqb_spec x j) as [->|Hxj]; [rewrite orb_true_r; by apply Nat.ltb_lt|]. rewrite orb_false_r. destruct (Nat.ltb_spec x n) as [Hxn|Hxn].
  - symmetry. apply not_false_iff_true. intros [Z0 Z1]%orb_false_iff. apply (Support_bit n) in Z0, Z1; [|done..].
    apply (step_matters x Hxn). apply (vac_split j x F); [done|]. split; [apply (vac_ext _ _ _ E0)|apply (vac_ext _ _ _ E1)]; auto.
  - symmetry. apply orb_false_iff. split; apply Support_bit; try done; intros; lia.
Qed.

Lemma support_some t : proper n t -> Kit_TruthIsConst0 t n = false -> Kit_TruthIsConst1 t n = false -> exists x, x < n /\ Z.testbit (Kit_TruthSupport t n) (Z.of_nat x) = true.
Proof.
  intros [Ht Hd] H0 H1. destruct (pre_fans _ _ _ _ _ _ _ _ _ H) as [_ Hn].
  destruct (existsb (fun x => Z.testbit (Kit_TruthSupport t n) (Z.of_nat x)) (seq 0 n)) eqn:E.
  - apply existsb_exists in E as (x & Hx%in_seq & Hb). exists x. split; [lia|done].
  - destruct (tfun_nonzero n t Ht H0) as [m Hm], (tfun_nonone n t Ht H1) as [m' Hm']. enough (tfun n t m = tfun n t m') by congruence.
    apply (vac_agree n); [done|]. intros x Hx. left. apply Support_bit; [lia|done| |done]. rewrite <- not_true_iff_false in E |- *. intros Hb. apply E, existsb_exists.
    exists x. split; [apply in_seq; lia|done].
Qed.

Lemma pos_disjoint S0 S1 m : (forall x, x < m -> Z.testbit S0 (Z.of_nat x) = true -> Z.testbit S1 (Z.of_nat x) = true -> False) ->
  pos S0 m + pos S1 m = pos (S0 ||| S1) m.
Proof.
  induction m as [|m IH]; intros Hx; [done|]. rewrite !pos_S, Z.lor_spec. specialize (IH ltac:(intros; eapply Hx; [|done..]; lia)). specialize (Hx m ltac:(lia)).
  destruct (Z.testbit S0 _), (Z.testbit S1 _); cbn; [by exfalso; apply Hx|lia..].
Qed.

Lemma mux_fans_nth S fans x : x < n -> Z.testbit S (Z.of_nat x) = true -> nth x (mux_fans S n fans) 0 = nth x fans 0.
Proof.
  intros Hx Hb. unfold mux_fans. rewrite (nth_indep _ 0 ((fun k => if Z.testbit S (Z.of_nat k) then nth k fans 0 else 127) 0)) by (rewrite length_map, length_seq; done).
  rewrite (map_nth (fun k => if Z.testbit S (Z.of_nat k) then nth k fans 0 else 127)), seq_nth by done. cbn [Nat.add]. by rewrite Hb.
Qed.

(** The two cofactors of the fanin [j]. *)
Record halves (j : nat) (c0 c1 : list Z) : Prop := {
  hv_c0 : proper n c0;
  hv_c1 : proper n c1;
  hv_0 : forall m, tfun n c0 m = cof j false F m;
  hv_1 : forall m, tfun n c1 m = cof j true F m;
  hv_vac0 : vac j (tfun n c0);
  hv_vac1 : vac j (tfun n c1) }.

Lemma halves_ok j : j < n -> halves j (Kit_TruthCofactor0New (scratch n) (pTruth o) n j) (Kit_TruthCofactor1New (scratch n) (pTruth o) n j).
Proof.
  intros Hj. pose proof (pre_table _ _ _ _ _ _ _ _ _ H) as Ht. pose proof (scratch_tt n) as Hs.
  split; [by apply proper_Cofactor0New|by apply proper_Cofactor1New|intros; by apply tfun_Cofactor0New|intros; by apply tfun_Cofactor1New| |].
  - eapply vac_ext; [intros m; symmetry; by apply tfun_Cofactor0New|]. apply vac_cof.
  - eapply vac_ext; [intros m; symmetry; by apply tfun_Cofactor1New|]. apply vac_cof.
Qed.

Lemma halves_value j c0 c1 a : halves j c0 c1 -> j < n -> app n F (G a) = if G a j then app n (tfun n c1) (G a) else app n (tfun n c0) (G a).
Proof.
  intros [_ _ E0 E1 _ _] Hj. destruct (pre_table _ _ _ _ _ _ _ _ _ H) as [_ Hd]. rewrite (app_split n F (G a) j) by done. by rewrite (app_fun n _ _ _ E0), (app_fun n _ _ _ E1).
Qed.

Lemma halves_matter j c0 c1 x : halves j c0 c1 -> x < n -> x <> j -> vac x (tfun n c0) -> vac x (tfun n c1) -> False.
Proof.
  intros [_ _ E0 E1 _ _] Hx Hxj V0 V1. apply (step_matters x Hx). apply (vac_split j x F); [done|]. split; [by apply (vac_ext _ _ _ E0)|by apply (vac_ext _ _ _ E1)].
Qed.

(** The multiplexer of two functions without common variables. *)
Lemma output_mux j c0 c1 : halves j c0 c1 -> j < n -> (exists x, x < n /\ Z.testbit (Kit_TruthSupport c0 n) (Z.of_nat x) = true) ->
  (exists x, x < n /\ Z.testbit (Kit_TruthSupport c1 n) (Z.of_nat x) = true) -> (Kit_TruthSupport c0 n &&& Kit_TruthSupport c1 n)%Z = 0%Z ->
  post (dsd_mux rec pNtk i j (mux_fans (Kit_TruthSupport c0 n) n (pFans o)) (mux_fans (Kit_TruthSupport c1 n) n (pFans o)) c0 c1 (Kit_TruthSupport c0 n) (Kit_TruthSupport c1 n)).
Proof.
  intros Hh Hj (x0 & Hx0 & Hb0) (x1 & Hx1 & Hb1) Hd. pose proof Hh as [Hc0 Hc1 E0 E1 V0 V1]. destruct (pre_fans _ _ _ _ _ _ _ _ _ H) as [_ Hn].
  set (S0 := Kit_TruthSupport c0 n) in *. set (S1 := Kit_TruthSupport c1 n) in *.
  assert (pos S0 n + pos S1 n < n) as Hs.
  { rewrite pos_disjoint; [|intros x Hx B0 B1; apply (f_equal (fun z => Z.testbit z (Z.of_nat x))) in Hd; by rewrite Z.land_spec, B0, B1, Z.testbit_0_l in Hd].
    apply Nat.lt_le_trans with (pos uSupp n); [|by rewrite step_pos]. apply (pos_fewer _ _ _ j); [intros x Hx _; by apply step_bit|done| |by apply step_bit].
    rewrite Z.lor_spec. apply orb_false_iff. split; apply Support_bit; try done; lia || apply Hc0 || apply Hc1. }
  pose proof (pos_some S0 n x0 Hx0 Hb0). pose proof (pos_some S1 n x1 Hx1 Hb1).
  apply mux_works; try done; [lia|by apply extra_mux|unfold mux_fans; by rewrite length_map, length_seq..|intros; by apply mux_fans_nth|intros; by apply mux_fans_nth| |].
  { right. intros x _ B0 B1. apply (f_equal (fun z => Z.testbit z (Z.of_nat x))) in Hd. by rewrite Z.land_spec, B0, B1, Z.testbit_0_l in Hd. }
  intros m. rewrite E0, E1. rewrite <- (cof_id j F m) at 1. by destruct (Nat.testbit m j).
Qed.

(** The five ways in which a cofactor is simple. *)
Lemma output_above j c0 c1 : halves j c0 c1 -> j < n ->
  Kit_TruthIsConst0 c0 n || Kit_TruthIsConst0 c1 n || Kit_TruthIsConst1 c0 n || Kit_TruthIsConst1 c1 n || Kit_TruthIsOpposite c0 c1 n = true ->
  let above := dsd_above rec pNtk i uSupp par j in
  post (if Kit_TruthIsConst0 c0 n then above KIT_DSD_AND false false false c1
        else if Kit_TruthIsConst0 c1 n then above KIT_DSD_AND true false false c0
        else if Kit_TruthIsConst1 c0 n then above KIT_DSD_AND false true true c1
        else if Kit_TruthIsConst1 c1 n then above KIT_DSD_AND true true true c0
        else above KIT_DSD_XOR false false false c0).
Proof.
  intros Hh Hj Hc above. pose proof Hh as [[T0 D0] [T1 D1] E0 E1 V0 V1].
  assert (forall t b, is_tt n t -> (forall m, tfun n t m = b) -> forall a, app n (tfun n t) (G a) = b) as Hconst by (intros; by unfold app).
  destruct (Kit_TruthIsConst0 c0 n) eqn:C00; [|destruct (Kit_TruthIsConst0 c1 n) eqn:C10; [|destruct (Kit_TruthIsConst1 c0 n) eqn:C01; [|destruct (Kit_TruthIsConst1 c1 n) eqn:C11]]].
  - assert (forall m, tfun n c0 m = false) as Z by (intros; by apply tfun_const0). apply above_works; try done; [by left| |].
    + intros q Hq Hqj Vq. apply (halves_matter j c0 c1 q Hh Hq Hqj); [by apply (vac_const _ _ false)|done].
    + intros a. rewrite (halves_value j c0 c1 a Hh Hj), (Hconst c0 false) by done. cbn. by destruct (G a j), (app n (tfun n c1) (G a)).
  - assert (forall m, tfun n c1 m = false) as Z by (intros; by apply tfun_const0). apply above_works; try done; [by left| |].
    + intros q Hq Hqj Vq. apply (halves_matter j c0 c1 q Hh Hq Hqj); [done|by apply (vac_const _ _ false)].
    + intros a. rewrite (halves_value j c0 c1 a Hh Hj), (Hconst c1 false) by done. cbn. by destruct (G a j), (app n (tfun n c0) (G a)).
  - assert (forall m, tfun n c0 m = true) as Z by (intros; by apply tfun_const1). apply above_works; try done; [by left| |].
    + intros q Hq Hqj Vq. apply (halves_matter j c0 c1 q Hh Hq Hqj); [by apply (vac_const _ _ true)|done].
    + intros a. rewrite (halves_value j c0 c1 a Hh Hj), (Hconst c0 true) by done. cbn. by destruct (G a j), (app n (tfun n c1) (G a)).
  - assert (forall m, tfun n c1 m = true) as Z by (intros; by apply tfun_const1). apply above_works; try done; [by left| |].
    + intros q Hq Hqj Vq. apply (halves_matter j c0 c1 q Hh Hq Hqj); [done|by apply (vac_const _ _ true)].
    + intros a. rewrite (halves_value j c0 c1 a Hh Hj), (Hconst c1 true) by done. cbn. by destruct (G a j), (app n (tfun n c0) (G a)).
  - pose proof (tfun_opposite n c0 c1 T0 T1 Hc) as Z. apply above_works; try done; [by right| |].
    + intros q Hq Hqj Vq. apply (halves_matter j c0 c1 q Hh Hq Hqj); [done|]. apply vac_neg. by apply (vac_ext _ _ _ Z).
    + intros a. rewrite (halves_value j c0 c1 a Hh Hj). unfold app at 2 3. rewrite Z. fold (app n (tfun n c1) (G a)). unfold op_value. cbn [Nat.eqb]. unfold app at 1. rewrite Z.
      fold (app n (tfun n c1) (G a)). by destruct (G a j), (app n (tfun n c1) (G a)).
Qed.

Lemma dsd_output_spec j : j < n -> match dsd_output rec pNtk i uSupp par j with
  | stop r => post r
  | go => Kit_TruthSupport (Kit_TruthCofactor0New (scratch n) (pTruth o) n j) n <> 0%Z /\ Kit_TruthSupport (Kit_TruthCofactor1New (scratch n) (pTruth o) n j) n <> 0%Z
  end.
Proof.
  intros Hj. pose proof (halves_ok j Hj) as Hh. pose proof Hh as [[T0 D0] [T1 D1] E0 E1 V0 V1]. unfold dsd_output. rewrite (pre_obj _ _ _ _ _ _ _ _ _ H).
  set (c0 := Kit_TruthCofactor0New _ _ _ _) in *. set (c1 := Kit_TruthCofactor1New _ _ _ _) in *.
  pose proof (IsEqual_differ n c0 c1 T0 T1) as Heq. destruct (Kit_TruthIsEqual c0 c1 n).
  { exfalso. apply (step_matters j Hj). intros m. by rewrite <- E0, <- E1. }
  destruct (_ || Kit_TruthIsOpposite c0 c1 n) eqn:Hc; cbn [negb]; [by apply output_above|].
  rewrite (proj2 (Z.eqb_eq _ _) (step_union j c0 c1 Hj T0 T1 E0 E1)). cbn [negb].
  rewrite !orb_false_iff in Hc. destruct Hc as [[[[C1 C2] C3] C4] C5].
  destruct (support_some c0) as (x0 & Hx0 & Hb0); [by split|done|done|]. destruct (support_some c1) as (x1 & Hx1 & Hb1); [by split|done|done|].
  destruct (Z.eqb_spec (Kit_TruthSupport c0 n &&& Kit_TruthSupport c1 n) 0) as [Hd|Hd]; cbn [negb].
  - apply output_mux; eauto.
  - split; intros E; rewrite E in *; by rewrite Z.testbit_0_l in *.
Qed.

(** ** Decomposition at the inputs *)

(** Some fanins only matter through a function [sel] of them, which moves into a node below. *)
Lemma below_sel k gone Type_ fans t0 t1 (sel : (nat -> bool) -> bool) B idx : moved k gone fans idx -> k < n -> gone <> [] -> Forall (fun g => g < n /\ g <> k) gone ->
  proper n t0 -> proper n t1 -> (forall x, x = k \/ x ∈ gone -> vac x (tfun n t0) /\ vac x (tfun n t1)) ->
  (forall b b', (forall x, x = k \/ x ∈ gone -> b x = b' x) -> sel b = sel b') ->
  (forall m, F m = if sel (Nat.testbit m) then tfun n t1 m else tfun n t0 m) -> op_node Type_ (length fans) ->
  (forall a q, q < length fans -> den (pNodes pNtk) (dnVars pNtk) a P d (nth q fans 0) (B a q)) -> (forall a, op_value Type_ (B a) = sel (G a)) ->
  post (dsd_below rec pNtk i uSupp par k gone Type_ fans (Kit_TruthMuxVar (pTruth o) t0 t1 n k)).
Proof.
  intros Hmoved Hk Hgone Hg Ht0 Ht1 Hv Hsel HF Hop HB HBv. destruct (pre_table _ _ _ _ _ _ _ _ _ H) as [Ht Hd].
  set (t := Kit_TruthMuxVar _ _ _ _ _). assert (forall m, tfun n t m = if Nat.testbit m k then tfun n t1 m else tfun n t0 m) as Et by (intros m; by apply tfun_MuxVar).
  destruct (Hv k (or_introl eq_refl)) as [Vk0 Vk1].
  assert (forall x, x <> k -> vac x (tfun n t) <-> vac x (tfun n t0) /\ vac x (tfun n t1)) as Hvt.
  { intros x Hx. rewrite <- (vac_mux k x) by done. split; apply vac_ext; intros m; by rewrite Et. }
  rewrite List.Forall_forall in Hg.
  apply (below_works k gone Type_ fans t B idx); try done.
  - apply List.Forall_forall. intros g Hin. destruct (Hg g Hin) as [H1 H2]. split; [done|]. split; [done|]. apply Hvt; [done|]. apply Hv. right. by apply list_elem_of_In.
  - intros q Hq Hqg Vq. apply (step_matters q Hq). destruct (decide (q = k)) as [->|Hqk].
    + destruct gone as [|g gone]; [done|]. exfalso. apply (step_matters g); [apply Hg; by left|]. destruct (Hv g) as [Vg _]; [right; apply list_elem_of_here|].
      eapply vac_ext; [|exact Vg]. intros m. rewrite HF. enough (tfun n t0 m = tfun n t1 m) as -> by (by destruct (sel _)).
      rewrite <- (vac_value k true _ m Vk1), <- (vac_value k false _ m Vk0). specialize (Vq m). unfold cof in Vq. rewrite !Et in Vq.
      rewrite Nat.setbit_eq, Nat.clearbit_eq in Vq. done.
    + apply Hvt in Vq as [V0 V1]; [|done]. intros m. unfold cof. rewrite !HF. specialize (V0 m). specialize (V1 m). unfold cof in V0, V1. rewrite V0, V1.
      rewrite (Hsel _ (Nat.testbit (Nat.setbit m q))); [done|]. intros x Hx. rewrite clearbit_if, setbit_if. destruct (Nat.eqb_spec q x) as [->|]; [by destruct Hx|done].
  - by apply proper_MuxVar.
  - intros a. rewrite HBv. rewrite (app_fun n _ _ _ Et), app_mux by done. unfold upd at 1. rewrite Nat.eqb_refl.
    unfold app at 3. rewrite HF. rewrite (Hsel (Nat.testbit (mint n (G a))) (G a)).
    + destruct (sel (G a)); apply app_vac; by (apply Ht0 || apply Ht1 || done).
    + intros x Hx. apply mint_bit. destruct Hx as [->|Hx]; [done|]. apply Hg. by apply list_elem_of_In.
Qed.

Lemma quarter_ok j c b k t : proper n c -> vac j (tfun n c) -> k < n -> j <> k ->
  t = (if b : bool then Kit_TruthCofactor1New (scratch n) c n k else Kit_TruthCofactor0New (scratch n) c n k) ->
  proper n t /\ (forall m, tfun n t m = cof k b (tfun n c) m) /\ vac j (tfun n t) /\ vac k (tfun n t).
Proof.
  intros Hc Hv Hk Hjk ->. assert (forall m, tfun n (if b then Kit_TruthCofactor1New (scratch n) c n k else Kit_TruthCofactor0New (scratch n) c n k) m = cof k b (tfun n c) m) as E.
  { intros m. destruct b; [apply tfun_Cofactor1New|apply tfun_Cofactor0New]; done || apply scratch_tt. }
  split; [destruct b; [apply proper_Cofactor1New|apply proper_Cofactor0New]; done || apply scratch_tt|]. split; [exact E|].
  assert (forall m, cof k b (tfun n c) m = tfun n (if b then Kit_TruthCofactor1New (scratch n) c n k else Kit_TruthCofactor0New (scratch n) c n k) m) as E' by done.
  split; apply (vac_ext _ _ _ E'); [|apply vac_cof]. intros m. rewrite !(cof_cof j k) by done. unfold cof at 1 3. apply Hv.
Qed.

Lemma lit_value a q c : q < n -> den (pNodes pNtk) (dnVars pNtk) a P d (lit_notcond (fan o q) c) (xorb (G a q) c).
Proof. intros Hq. apply den_notcond, (pre_den _ _ _ _ _ _ _ _ _ H); [done|by apply step_bit]. Qed.

(** A pair of fanins [j] and [k] moves into a gate. *)
Lemma pair_works j k Type_ cc0 cc1 t0 t1 : j < n -> k < n -> j <> k -> Type_ = KIT_DSD_AND \/ Type_ = KIT_DSD_XOR -> proper n t0 -> proper n t1 ->
  vac j (tfun n t0) -> vac k (tfun n t0) -> vac j (tfun n t1) -> vac k (tfun n t1) ->
  (forall m, F m = if op_value Type_ (fun q => if q =? 0 then xorb (Nat.testbit m k) cc0 else xorb (Nat.testbit m j) cc1) then tfun n t1 m else tfun n t0 m) ->
  post (dsd_below rec pNtk i uSupp par k [j] Type_ [lit_notcond (fan o k) cc0; lit_notcond (fan o j) cc1] (Kit_TruthMuxVar (pTruth o) t0 t1 n k)).
Proof.
  intros Hj Hk Hjk HT Ht0 Ht1 Vj0 Vk0 Vj1 Vk1 HF.
  apply (below_sel k [j] Type_ _ t0 t1 (fun b => op_value Type_ (fun q => if q =? 0 then xorb (b k) cc0 else xorb (b j) cc1))
    (fun a q => if q =? 0 then xorb (G a k) cc0 else xorb (G a j) cc1) (fun q => if q =? 0 then k else j)); try done.
  - split.
    + intros q Hq. cbn in Hq. destruct q as [|[|q]]; [| |lia]; cbn [Nat.eqb nth]; rewrite lit_id_notcond; (split; [|done]); [by left|right; apply list_elem_of_here].
    + intros q q' Hq Hq'. cbn in Hq, Hq'. destruct q as [|[|q]], q' as [|[|q']]; cbn; congruence || lia.
  - by repeat constructor.
  - intros x [->|Hx]; [done|]. apply list_elem_of_singleton in Hx as ->. done.
  - intros b b' Hb. rewrite (Hb k), (Hb j); [done|right; apply list_elem_of_here|by left].
  - left. done.
  - intros a q Hq. destruct q as [|[|q]]; [| |cbn in Hq; lia]; cbn; by apply lit_value.
Qed.

Lemma dsd_pair_spec j k : j < n -> k < n -> j <> k ->
  match dsd_pair rec pNtk i uSupp par (Kit_TruthCofactor0New (scratch n) (pTruth o) n j) (Kit_TruthCofactor1New (scratch n) (pTruth o) n j) j k with stop r => post r | go => True end.
Proof.
  intros Hj Hk Hjk. pose proof (halves_ok j Hj) as Hh. pose proof Hh as [P0 P1 E0 E1 V0 V1]. unfold dsd_pair. rewrite (pre_obj _ _ _ _ _ _ _ _ _ H).
  set (c0 := Kit_TruthCofactor0New _ _ n j) in *. set (c1 := Kit_TruthCofactor1New _ _ n j) in *.
  destruct (quarter_ok j c0 false k _ P0 V0 Hk Hjk eq_refl) as (P00 & E00 & Vj00 & Vk00). destruct (quarter_ok j c0 true k _ P0 V0 Hk Hjk eq_refl) as (P01 & E01 & Vj01 & Vk01).
  destruct (quarter_ok j c1 false k _ P1 V1 Hk Hjk eq_refl) as (P10 & E10 & Vj10 & Vk10). destruct (quarter_ok j c1 true k _ P1 V1 Hk Hjk eq_refl) as (P11 & E11 & Vj11 & Vk11).
  cbn iota in *. set (c00 := Kit_TruthCofactor0New _ c0 n k) in *. set (c01 := Kit_TruthCofactor1New _ c0 n k) in *.
  set (c10 := Kit_TruthCofactor0New _ c1 n k) in *. set (c11 := Kit_TruthCofactor1New _ c1 n k) in *.
  destruct P00 as [T00 D00] eqn:Eq00, P01 as [T01 D01] eqn:Eq01, P10 as [T10 D10] eqn:Eq10, P11 as [T11 D11] eqn:Eq11. clear Eq00 Eq01 Eq10 Eq11.
  pose proof (pairs_bool _ _ _ _ _ _ (IsEqual_triple n c00 c01 c10 T00 T01 T10) (IsEqual_triple n c00 c01 c11 T00 T01 T11)
    (IsEqual_triple n c00 c10 c11 T00 T10 T11) (IsEqual_triple n c01 c10 c11 T01 T10 T11)) as HP. cbv zeta in HP.
  destruct (negb (_ =? 3) && negb (_ =? 2)); [done|]. specialize (HP eq_refl).
  assert (forall m, F m = if Nat.testbit m j then if Nat.testbit m k then tfun n c11 m else tfun n c10 m else if Nat.testbit m k then tfun n c01 m else tfun n c00 m) as HF.
  { intros m. rewrite <- (cof_id j F m). rewrite E11, E10, E01, E00. destruct (Nat.testbit m j).
    - rewrite <- E1, <- (cof_id k (tfun n c1) m). by destruct (Nat.testbit m k).
    - rewrite <- E0, <- (cof_id k (tfun n c0) m). by destruct (Nat.testbit m k). }
  repeat match type of HP with if ?b then _ else _ => destruct b end.
  - destruct HP as [Q1 Q2]. pose proof (proj1 (IsEqual_iff n c01 c10 T01 T10) Q1) as R1. pose proof (proj1 (IsEqual_iff n c01 c11 T01 T11) Q2) as R2.
    apply pair_works; try done; [by left|]. intros m. rewrite HF. cbn. rewrite <- R1, <- R2. by destruct (Nat.testbit m j), (Nat.testbit m k).
  - destruct HP as [Q1 Q2]. pose proof (proj1 (IsEqual_iff n c00 c10 T00 T10) Q1) as R1. pose proof (proj1 (IsEqual_iff n c00 c11 T00 T11) Q2) as R2.
    apply pair_works; try done; [by left|]. intros m. rewrite HF. cbn. rewrite <- R1, <- R2. by destruct (Nat.testbit m j), (Nat.testbit m k).
  - destruct HP as [Q1 Q2]. pose proof (proj1 (IsEqual_iff n c00 c01 T00 T01) Q1) as R1. pose proof (proj1 (IsEqual_iff n c00 c11 T00 T11) Q2) as R2.
    apply pair_works; try done; [by left|]. intros m. rewrite HF. cbn. rewrite <- R1, <- R2. by destruct (Nat.testbit m j), (Nat.testbit m k).
  - destruct HP as [Q1 Q2]. pose proof (proj1 (IsEqual_iff n c00 c01 T00 T01) Q1) as R1. pose proof (proj1 (IsEqual_iff n c00 c10 T00 T10) Q2) as R2.
    apply pair_works; try done; [by left|]. intros m. rewrite HF. cbn. rewrite <- R1, <- R2. by destruct (Nat.testbit m j), (Nat.testbit m k).
  - destruct HP as [[Q1 Q2]|[[Q1 Q2]|[Q1 Q2]]].
    + rewrite Q1, Q2. cbn [andb]. pose proof (proj1 (IsEqual_iff n c00 c11 T00 T11) Q1) as R1. pose proof (proj1 (IsEqual_iff n c01 c10 T01 T10) Q2) as R2.
      apply pair_works; try done; [by right|]. intros m. rewrite HF. cbn. rewrite <- R1, <- R2. by destruct (Nat.testbit m j), (Nat.testbit m k).
    + exfalso. pose proof (proj1 (IsEqual_iff n c00 c01 T00 T01) Q1) as R1. pose proof (proj1 (IsEqual_iff n c10 c11 T10 T11) Q2) as R2.
      apply (halves_matter j c0 c1 k Hh Hk); [done|intros m; by rewrite <- E00, <- E01|intros m; by rewrite <- E10, <- E11].
    + exfalso. pose proof (proj1 (IsEqual_iff n c00 c10 T00 T10) Q1) as R1. pose proof (proj1 (IsEqual_iff n c01 c11 T01 T11) Q2) as R2.
      apply (step_matters j Hj). intros m. rewrite <- E0, <- E1. rewrite <- (cof_id k (tfun n c0) m), <- (cof_id k (tfun n c1) m).
      destruct (Nat.testbit m k); [by rewrite <- E01, <- E11|by rewrite <- E00, <- E10].
Qed.

(** The only variable of [S] that is not in [S']. *)
Lemma only_bit S S' : is_word S -> is_word S' -> (forall x, n <= x -> x < 32 -> Z.testbit S (Z.of_nat x) = false) -> Kit_WordCountOnes (S &&& ~~~ S') = 1%Z ->
  let x := Z.to_nat (Kit_WordFindFirstBit (S &&& ~~~ S')) in x < n /\ Z.testbit S (Z.of_nat x) = true /\ Z.testbit S' (Z.of_nat x) = false.
Proof.
  intros HS HS' Hhi Hc x. rewrite WordCountOnes_spec in Hc by auto with words.
  assert (exists b, x = b /\ b < 32 /\ Z.testbit (S &&& ~~~ S') (Z.of_nat b) = true) as (b & -> & Hb & Hbit).
  { unfold x. destruct (Z.leb_spec 0 (Kit_WordFindFirstBit (S &&& ~~~ S'))) as [Hr|Hr].
    - destruct (WordFindFirstBit_Some _ _ eq_refl Hr) as (b & -> & Hb & Hbit & _). exists b. split; [by rewrite Nat2Z.id|done].
    - pose proof (WordFindFirstBit_range (S &&& ~~~ S')) as Hr'. pose proof (WordFindFirstBit_None (S &&& ~~~ S') ltac:(lia)) as Hno.
      rewrite (cnt_false 32) in Hc by done. lia. }
  rewrite Z.land_spec, testbit_wnot in Hbit by lia. apply andb_true_iff in Hbit as [B1 B2%negb_true_iff]. split; [|done].
  destruct (Nat.lt_ge_cases b n); [done|]. by rewrite Hhi in B1.
Qed.

(** The multiplexer of three fanins moves into a node below. *)
Lemma input_mux j c0 c1 x0 x1 (b : bool) : halves j c0 c1 -> j < n -> x0 < n -> x1 < n -> x0 <> j -> x1 <> j -> x0 <> x1 ->
  ~ vac x0 (tfun n c0) -> vac x1 (tfun n c0) -> ~ vac x1 (tfun n c1) -> vac x0 (tfun n c1) ->
  let c10 := Kit_TruthCofactor0New (scratch n) c1 n x1 in let c11 := Kit_TruthCofactor1New (scratch n) c1 n x1 in
  (forall m, cof x0 b (tfun n c0) m = tfun n c10 m) -> (forall m, cof x0 (negb b) (tfun n c0) m = tfun n c11 m) ->
  post (dsd_below rec pNtk i uSupp par j [x0; x1] KIT_DSD_PRIME [lit_notcond (fan o x0) b; fan o x1; fan o j] (Kit_TruthMuxVar (pTruth o) c10 c11 n j)).
Proof.
  intros Hh Hj Hx0 Hx1 H0j H1j H01 N0 V10 N1 V01 c10 c11 Q0 Q1. pose proof Hh as [P0 P1 E0 E1 V0 V1].
  destruct (quarter_ok j c1 false x1 _ P1 V1 Hx1 ltac:(done) eq_refl) as (P10 & E10 & Vj10 & Vx10). destruct (quarter_ok j c1 true x1 _ P1 V1 Hx1 ltac:(done) eq_refl) as (P11 & E11 & Vj11 & Vx11).
  cbn iota in *. fold c10 in P10, E10, Vj10, Vx10. fold c11 in P11, E11, Vj11, Vx11.
  apply (below_sel j [x0; x1] KIT_DSD_PRIME _ c10 c11 (fun be => if be j then be x1 else xorb (be x0) b) (fun a q => if q =? 0 then xorb (G a x0) b else if q =? 1 then G a x1 else G a j)
    (fun q => if q =? 0 then x0 else if q =? 1 then x1 else j)); try done.
  - split.
    + intros q Hq. cbn in Hq. destruct q as [|[|[|q]]]; [| | |lia]; cbn [Nat.eqb nth]; rewrite ?lit_id_notcond; (split; [|done]); [right; apply list_elem_of_here|right; apply elem_of_cons; right; apply list_elem_of_here|by left].
    + intros q q' Hq Hq'. cbn in Hq, Hq'. destruct q as [|[|[|q]]], q' as [|[|[|q']]]; cbn; congruence || lia.
  - by repeat constructor.
  - intros x [->|Hx]; [done|]. apply elem_of_cons in Hx as [->|Hx%list_elem_of_singleton]; [|by subst x].
    split; [eapply vac_ext; [exact Q0|]|eapply vac_ext; [exact Q1|]]; apply vac_cof.
  - intros be be' Hb. rewrite (Hb j), (Hb x0), (Hb x1); [done|right; apply elem_of_cons; right; apply list_elem_of_here|right; apply list_elem_of_here|by left].
  - intros m. rewrite <- (cof_id j F m). destruct (Nat.testbit m j).
    + rewrite <- E1, <- (cof_id x1 (tfun n c1) m), E10, E11. by destruct (Nat.testbit m x1).
    + rewrite <- E0, <- (cof_id x0 (tfun n c0) m), <- Q0, <- Q1. by destruct (Nat.testbit m x0), b.
  - by right.
  - intros a q Hq. destruct q as [|[|[|q]]]; [| | |cbn in Hq; lia]; cbn; [by apply lit_value|apply (pre_den _ _ _ _ _ _ _ _ _ H); [done|by apply step_bit]..].
Qed.

(** The mark is cleared and the output is looked at again. *)
Lemma again_works : 2 * n < N -> post (rec (set_obj pNtk i (with_mark o false)) i uSupp par).
Proof.
  intros Hlt. pose proof H as [_ _ Ety Hn Hlen Htab Hsupp Hsize Hden _ _ _ Hfor].
  pose proof (pre_set _ _ _ _ _ _ _ _ _ (with_mark o false) uSupp G Tr H eq_refl Ety Hn Hlen Htab Hsupp Hsize Hden Hfor) as H1.
  rewrite <- step_size at 1. apply (call_works nDecMux rec N pNtk i uSupp par P o G d Tr _ _ _ _ d _ _ n uSupp W Hflag H H1); try done;
    [apply near_set|by left|apply step_size|cbn; lia|by rewrite step_size|unfold set_obj; cbn; by rewrite length_insert|].
  unfold set_obj. cbn [pNodes]. rewrite length_insert. unfold inside. cbn [nFans with_mark]. by destruct (below _ _ _ _ _ _).
Qed.

Lemma dsd_input_spec j : j < n ->
  Kit_TruthSupport (Kit_TruthCofactor0New (scratch n) (pTruth o) n j) n <> 0%Z /\ Kit_TruthSupport (Kit_TruthCofactor1New (scratch n) (pTruth o) n j) n <> 0%Z \/ 2 * n < N ->
  match dsd_input rec pNtk i uSupp par j with stop r => post r | go => True end.
Proof.
  intros Hj Hs. pose proof (halves_ok j Hj) as Hh. pose proof Hh as [[T0 D0] [T1 D1] E0 E1 V0 V1]. unfold dsd_input. rewrite (pre_obj _ _ _ _ _ _ _ _ _ H).
  set (c0 := Kit_TruthCofactor0New _ _ _ _) in *. set (c1 := Kit_TruthCofactor1New _ _ _ _) in *.
  pose proof (pre_table _ _ _ _ _ _ _ _ _ H) as [Ht _]. pose proof (pre_fans _ _ _ _ _ _ _ _ _ H) as Hn. assert (n <= 31) as Hn31 by lia.
  destruct (Kit_TruthVarInSupport (pTruth o) n j) eqn:Ev; cbn [negb]; [|by apply VarInSupport_vac, (step_matters j Hj) in Ev].
  rewrite (proj2 (Z.eqb_eq _ _) (step_union j c0 c1 Hj T0 T1 E0 E1)). cbn [negb].
  destruct ((Kit_TruthSupport c0 n =? 0)%Z || _) eqn:Hz.
  { apply again_works. destruct Hs as [[N0 N1]|]; [|done]. apply orb_true_iff in Hz as [Hz%Z.eqb_eq|Hz%Z.eqb_eq]; done. }
  assert (forall x t, n <= x -> x < 32 -> is_tt n t -> Z.testbit (Kit_TruthSupport t n) (Z.of_nat x) = false) as Hhi by (intros; apply Support_bit; [exact Hn31|done|intros; lia]).
  pose proof (turns_spec post (seq (j + 1) (n - (j + 1))) (dsd_pair rec pNtk i uSupp par c0 c1 j)) as Hloop.
  assert (match for_range (j + 1) n (fun k t => or_turn t (dsd_pair rec pNtk i uSupp par c0 c1 j k)) go with stop r => post r | go => True end) as Hpairs.
  { unfold for_range. destruct (fold_left _ _ go) as [|r]; [done|]. apply Hloop. intros k Hk%in_seq. apply dsd_pair_spec; lia. }
  destruct ((_ =? 1)%Z && (_ =? 1)%Z) eqn:Hc; [|exact Hpairs].
  apply andb_true_iff in Hc as [Hc0%Z.eqb_eq Hc1%Z.eqb_eq].
  assert (is_word (Kit_TruthSupport c0 n)) as W0 by (by apply word_Support). assert (is_word (Kit_TruthSupport c1 n)) as W1 by (by apply word_Support).
  destruct (only_bit _ _ W0 W1 (fun x Hx Hx' => Hhi x c0 Hx Hx' T0) Hc0) as (Hx0 & B00 & B01). destruct (only_bit _ _ W1 W0 (fun x Hx Hx' => Hhi x c1 Hx Hx' T1) Hc1) as (Hx1 & B11 & B10).
  set (x0 := Z.to_nat (Kit_WordFindFirstBit (_ &&& ~~~ Kit_TruthSupport c1 n))) in *. set (x1 := Z.to_nat (Kit_WordFindFirstBit (_ &&& ~~~ Kit_TruthSupport c0 n))) in *.
  clearbody x0 x1.
  assert (x0 <> j) as H0j by (intros E; rewrite E in B00; rewrite (proj2 (Support_bit n c0 j Hn31 T0)) in B00; done).
  assert (x1 <> j) as H1j by (intros E; rewrite E in B11; rewrite (proj2 (Support_bit n c1 j Hn31 T1)) in B11; done).
  assert (x0 <> x1) as H01 by congruence. pose proof (proj1 (Support_bit n c1 x0 Hn31 T1) B01 Hx0) as Vx01. pose proof (proj1 (Support_bit n c0 x1 Hn31 T0) B10 Hx1) as Vx10.
  assert (forall x t, is_tt n t -> x < n -> Z.testbit (Kit_TruthSupport t n) (Z.of_nat x) = true -> ~ vac x (tfun n t)) as Hin.
  { intros x t Htt Hx Hb Hv. by rewrite (proj2 (Support_bit n t x Hn31 Htt)) in Hb. }
  pose proof (quarter_ok j c0 false x0 _ (conj T0 D0) V0 Hx0 ltac:(done) eq_refl) as ([T00 _] & E00 & _). pose proof (quarter_ok j c0 true x0 _ (conj T0 D0) V0 Hx0 ltac:(done) eq_refl) as ([T01 _] & E01 & _).
  pose proof (quarter_ok j c1 false x1 _ (conj T1 D1) V1 Hx1 ltac:(done) eq_refl) as ([T10 _] & E10 & _). pose proof (quarter_ok j c1 true x1 _ (conj T1 D1) V1 Hx1 ltac:(done) eq_refl) as ([T11 _] & E11 & _).
  cbn iota in *. set (c00 := Kit_TruthCofactor0New _ c0 n x0) in *. set (c01 := Kit_TruthCofactor1New _ c0 n x0) in *.
  set (c10 := Kit_TruthCofactor0New _ c1 n x1) in *. set (c11 := Kit_TruthCofactor1New _ c1 n x1) in *.
  destruct (Kit_TruthIsEqual c00 c11 n && Kit_TruthIsEqual c01 c10 n) eqn:Hb.
  - rewrite orb_true_r. cbn [or_turn]. apply andb_true_iff in Hb as [Q1 Q2].
    apply (input_mux j c0 c1 x0 x1 true); try done; [by apply Hin|by apply Hin| |]; intros m; cbn [negb].
    + rewrite <- E01. by apply IsEqual_iff.
    + rewrite <- E00. by apply IsEqual_iff.
  - rewrite orb_false_r. destruct (Kit_TruthIsEqual c00 c10 n && Kit_TruthIsEqual c01 c11 n) eqn:Hf; [|exact Hpairs]. cbn [or_turn]. apply andb_true_iff in Hf as [Q1 Q2].
    apply (input_mux j c0 c1 x0 x1 false); try done; [by apply Hin|by apply Hin| |]; intros m; cbn [negb].
    + rewrite <- E00. by apply IsEqual_iff.
    + rewrite <- E01. by apply IsEqual_iff.
Qed.

(** ** Above the limit *)

Lemma dsd_input_go j : j < n -> dsd_input rec pNtk i uSupp par j = go ->
  let c0 := Kit_TruthCofactor0New (scratch n) (pTruth o) n j in let c1 := Kit_TruthCofactor1New (scratch n) (pTruth o) n j in
  Kit_TruthSupport c0 n <> 0%Z /\ Kit_TruthSupport c1 n <> 0%Z /\ forall k, j < k < n -> dsd_pair rec pNtk i uSupp par c0 c1 j k = go.
Proof.
  intros Hj Hgo c0 c1. unfold dsd_input in Hgo. rewrite (pre_obj _ _ _ _ _ _ _ _ _ H) in Hgo. fold c0 c1 in Hgo.
  destruct (negb (Kit_TruthVarInSupport _ _ _)); [done|]. destruct (negb (uSupp =? _)%Z); [done|]. destruct (_ || _)%bool eqn:Hz in Hgo; [done|].
  apply orb_false_iff in Hz as [Hz0%Z.eqb_neq Hz1%Z.eqb_neq]. split; [done|]. split; [done|]. intros k Hk.
  assert (for_range (j + 1) n (fun k t => or_turn t (dsd_pair rec pNtk i uSupp par c0 c1 j k)) go = go) as Hr.
  { destruct ((_ =? 1)%Z && (_ =? 1)%Z) in Hgo; [|exact Hgo]. destruct (_ && _ || _) in Hgo; [done|exact Hgo]. }
  pose proof (turns_spec (fun _ => True) (seq (j + 1) (n - (j + 1))) (dsd_pair rec pNtk i uSupp par c0 c1 j)) as Hloop. unfold for_range in Hr. rewrite Hr in Hloop.
  apply Hloop; [intros x _; by destruct (dsd_pair _ _ _ _ _ _ _ _ _)|apply in_seq; lia].
Qed.

(** A function of two variables is always taken apart. *)
Lemma two_stops : n = 2 -> dsd_input rec pNtk i uSupp par 0 = go -> False.
Proof.
  intros En Hgo. destruct (dsd_input_go 0 ltac:(lia) Hgo) as (N0 & N1 & Hk). specialize (Hk 1 ltac:(lia)).
  pose proof (halves_ok 0 ltac:(lia)) as Hh. pose proof Hh as [P0 P1 E0 E1 V0 V1].
  set (c0 := Kit_TruthCofactor0New _ _ n 0) in *. set (c1 := Kit_TruthCofactor1New _ _ n 0) in *.
  destruct (quarter_ok 0 c0 false 1 _ P0 V0 ltac:(lia) ltac:(done) eq_refl) as ([T00 D00] & E00 & Vj00 & Vk00). destruct (quarter_ok 0 c0 true 1 _ P0 V0 ltac:(lia) ltac:(done) eq_refl) as ([T01 D01] & E01 & Vj01 & Vk01).
  destruct (quarter_ok 0 c1 false 1 _ P1 V1 ltac:(lia) ltac:(done) eq_refl) as ([T10 D10] & E10 & Vj10 & Vk10). destruct (quarter_ok 0 c1 true 1 _ P1 V1 ltac:(lia) ltac:(done) eq_refl) as ([T11 D11] & E11 & Vj11 & Vk11).
  cbn iota in *. unfold dsd_pair in Hk. rewrite (pre_obj _ _ _ _ _ _ _ _ _ H) in Hk.
  set (c00 := Kit_TruthCofactor0New _ c0 n 1) in *. set (c01 := Kit_TruthCofactor1New _ c0 n 1) in *.
  set (c10 := Kit_TruthCofactor0New _ c1 n 1) in *. set (c11 := Kit_TruthCofactor1New _ c1 n 1) in *.
  assert (forall t, depends_below n (tfun n t) -> vac 0 (tfun n t) -> vac 1 (tfun n t) -> forall m, tfun n t m = tfun n t 0) as Hconst.
  { intros t Hd Va Vb m. apply (vac_agree n); [done|]. intros x Hx. left. destruct x as [|[|x]]; [done|done|lia]. }
  assert (forall t t', is_tt n t -> is_tt n t' -> (forall m, tfun n t m = tfun n t 0) -> (forall m, tfun n t' m = tfun n t' 0) -> Kit_TruthIsEqual t t' n = Bool.eqb (tfun n t 0) (tfun n t' 0)) as Heq.
  { intros t t' Ht Ht' Hc Hc'. apply Bool.eq_iff_eq_true. rewrite (IsEqual_iff n t t' Ht Ht'), Bool.eqb_true_iff. split; [auto|]. intros E m. by rewrite Hc, Hc'. }
  assert (forall c t0 t1, proper n c -> vac 0 (tfun n c) -> (forall m, tfun n t0 m = cof 1 false (tfun n c) m) -> (forall m, tfun n t1 m = cof 1 true (tfun n c) m) ->
    (forall m, tfun n t0 m = tfun n t0 0) -> (forall m, tfun n t1 m = tfun n t1 0) -> Kit_TruthSupport c n <> 0%Z -> tfun n t0 0 <> tfun n t1 0) as Hne.
  { intros c t0 t1 [Tc Dc] Vc F0 F1 K0 K1 Hs E. apply Hs. symmetry. apply Support_eq; [lia|done|auto with words|intros; by rewrite Z.testbit_0_l|].
    intros x Hx. rewrite Z.testbit_0_l. split; [|done]. intros _. destruct x as [|[|x]]; [done| |lia]. intros m. by rewrite <- F0, <- F1, K0, K1. }
  pose proof (Hne c0 c00 c01 P0 V0 E00 E01 (Hconst _ D00 Vj00 Vk00) (Hconst _ D01 Vj01 Vk01) N0) as X0.
  pose proof (Hne c1 c10 c11 P1 V1 E10 E11 (Hconst _ D10 Vj10 Vk10) (Hconst _ D11 Vj11 Vk11) N1) as X1.
  rewrite !Heq in Hk by auto. clear - Hk X0 X1. destruct (tfun n c00 0), (tfun n c01 0), (tfun n c10 0), (tfun n c11 0); done.
Qed.

Lemma support_nonzero t : is_tt n t -> Kit_TruthSupport t n <> 0%Z -> 0 < pos (Kit_TruthSupport t n) n.
Proof.
  intros Ht Hs. pose proof (pre_fans _ _ _ _ _ _ _ _ _ H) as Hn. destruct (existsb (fun x => Z.testbit (Kit_TruthSupport t n) (Z.of_nat x)) (seq 0 n)) eqn:E.
  - apply existsb_exists in E as (x & Hx%in_seq & Hb). apply (pos_some _ _ x); [lia|done].
  - exfalso. apply Hs. apply word_ext; [apply word_Support; lia|done|]. intros x Hx. rewrite Z.testbit_0_l. apply Support_bit; [lia|done|]. intros Hxn.
    apply (Support_bit n t x); [lia|done| |done]. apply not_true_iff_false. intros Hb. apply not_true_iff_false in E. apply E, existsb_exists. exists x. split; [apply in_seq; lia|done].
Qed.

Lemma limit_works : (forall j, j < n -> dsd_input rec pNtk i uSupp par j = go) -> post (dsd_limit rec pNtk i nDecMux).
Proof.
  intros Hgo. pose proof (pre_fans _ _ _ _ _ _ _ _ _ H) as Hn. pose proof (pre_table _ _ _ _ _ _ _ _ _ H) as [Ht Hd]. unfold dsd_limit. rewrite (pre_obj _ _ _ _ _ _ _ _ _ H). cbn [mbind option_bind].
  assert (3 <= n) as Hn3 by (destruct (Nat.eq_dec n 2) as [E|]; [by destruct (two_stops E (Hgo 0 ltac:(lia)))|lia]).
  destruct ((0 <? nDecMux) && _) eqn:Hlim.
  - apply andb_true_iff in Hlim as [Hl1%Nat.ltb_lt _].
    destruct (BestCofVar_run n (pTruth o) Ht ltac:(lia) (scratch n) (scratch n)) as (j & q0 & q1 & -> & Hj & Hq0 & Hq1 & _ & _); [lia|apply scratch_tt|apply scratch_tt| |].
    { apply orb_false_iff. split; apply not_true_iff_false; intros Hc; apply (step_matters 0 ltac:(lia)); [apply (vac_const _ _ false)|apply (vac_const _ _ true)]; intros m;
        [by apply tfun_const0|by apply tfun_const1]. }
    rewrite (proj2 (Z.leb_le _ _)), Nat2Z.id by lia.
    destruct (dsd_input_go j Hj (Hgo j Hj)) as (N0 & N1 & _). pose proof (halves_ok j Hj) as [P0 P1 E0 E1 V0 V1].
    set (c0 := Kit_TruthCofactor0New q0 (pTruth o) n j). set (c1 := Kit_TruthCofactor1New q1 (pTruth o) n j).
    assert (forall m, tfun n c0 m = cof j false F m) as F0 by (intros; by apply tfun_Cofactor0New). assert (forall m, tfun n c1 m = cof j true F m) as F1 by (intros; by apply tfun_Cofactor1New).
    assert (proper n c0) as R0 by (by apply proper_Cofactor0New). assert (proper n c1) as R1 by (by apply proper_Cofactor1New).
    rewrite (Support_same n _ c0 Hn (proj1 P0) R0) in N0 by (intros; by rewrite E0, F0). rewrite (Support_same n _ c1 Hn (proj1 P1) R1) in N1 by (intros; by rewrite E1, F1).
    assert (vac j (tfun n c0)) as W0 by (by apply (vac_ext _ _ _ (fun m => eq_sym (F0 m))), vac_cof). assert (vac j (tfun n c1)) as W1 by (by apply (vac_ext _ _ _ (fun m => eq_sym (F1 m))), vac_cof).
    pose proof (support_nonzero c0 (proj1 R0) N0). pose proof (support_nonzero c1 (proj1 R1) N1).
    pose proof (half_small c0 _ j R0 W0 Hj eq_refl). pose proof (half_small c1 _ j R1 W1 Hj eq_refl). pose proof (pre_length _ _ _ _ _ _ _ _ _ H) as Hlen.
    apply mux_works; try done; [apply extra_limit; lia|rewrite length_take; lia|rewrite length_take; lia| | |left; by destruct Hflag; [lia|]|].
    + intros x Hx _. unfold fan. by rewrite !nth_lookup, lookup_take_lt.
    + intros x Hx _. unfold fan. by rewrite !nth_lookup, lookup_take_lt.
    + intros m. rewrite F0, F1, <- (cof_id j F m) at 1. by destruct (Nat.testbit m j).
  - pose proof (prime_works (fMark o)) as Hp. replace (set_obj pNtk i (with_mark o (fMark o))) with pNtk in Hp; [done|].
    unfold set_obj. replace (with_mark o (fMark o)) with o by (by destruct o). rewrite list_insert_id by apply (pre_obj _ _ _ _ _ _ _ _ _ H). by destruct pNtk.
Qed.
End Step.
