(* ===== verification/DsdRun.v ===== *)
(** Disjoint-support decomposition as a whole: compressing a node, a node that is a single variable, the loops, and the
    recursion.  [Kit_DsdDecompose] returns a network that has the function of the table, with every node well formed. *)
From S2P Require Import Prelude Words Relabel Minterm TruthBasic TruthCof TruthPerm TruthSupp Cube Minato Isop CloudTruth CloudSupp Dsd DsdFun DsdDec DsdStep.

(** * Compression *)

Lemma pos_total S n : n <= 32 -> is_word S -> (forall x, n <= x -> x < 32 -> Z.testbit S (Z.of_nat x) = false) -> Z.to_nat (Kit_WordCountOnes S) = pos S n.
Proof.
  intros Hn HS Hhi. rewrite WordCountOnes_spec by done. unfold pos. f_equal. replace 32 with (n + (32 - n)) by lia. rewrite cnt_add, (cnt_false (32 - n)); [lia|].
  intros x Hx. apply Hhi; lia.
Qed.

Lemma move_fans_spec S n fans : n <= length fans -> let '(k, fans') := move_fans S n fans in k = pos S n /\ length fans' = length fans /\
  forall x, x < n -> Z.testbit S (Z.of_nat x) = true -> nth (pos S x) fans' 0 = nth x fans 0.
Proof.
  intros Hl. unfold move_fans. set (body := fun j _ => _).
  assert (let '(k, fans') := for_up n body (0, fans) in k = pos S n /\ length fans' = length fans /\
    (forall x, x < n -> Z.testbit S (Z.of_nat x) = true -> nth (pos S x) fans' 0 = nth x fans 0) /\ forall y, n <= y -> nth y fans' 0 = nth y fans 0) as HP.
  { apply (for_up_ind (fun j '(k, fans') => k = pos S j /\ length fans' = length fans /\
      (forall x, x < j -> Z.testbit S (Z.of_nat x) = true -> nth (pos S x) fans' 0 = nth x fans 0) /\ forall y, j <= y -> nth y fans' 0 = nth y fans 0)).
    - repeat split; [lia..].
    - intros j [k fs] Hj (-> & Hlen & Hx & Hy). unfold body. rewrite pos_S. pose proof (pos_le S j) as Hpj. destruct (Z.testbit S (Z.of_nat j)) eqn:Eb; cbn [Nat.b2n].
      + split; [lia|]. split; [by rewrite length_insert|]. split.
        * intros x Hxj Hb. destruct (Nat.eq_dec x j) as [->|Hne]; [rewrite nth_insert_same by lia; apply Hy; lia|].
          rewrite nth_insert_other; [apply Hx; [lia|done]|]. pose proof (pos_lt S x j ltac:(lia) Hb). lia.
        * intros y Hyj. rewrite nth_insert_other by lia. apply Hy. lia.
      + split; [lia|]. split; [done|]. split.
        * intros x Hxj Hb. apply Hx; [|done]. destruct (Nat.eq_dec x j) as [->|]; [congruence|lia].
        * intros y Hyj. apply Hy. lia. }
  destruct (for_up n body (0, fans)) as [k fs]. destruct HP as (H1 & H2 & H3 & _). done.
Qed.

Lemma full_BitMask n : n < 32 -> full n (Kit_BitMask n).
Proof. intros Hn. split; [unfold Kit_BitMask; auto with words|]. intros j Hj. by apply testbit_BitMask. Qed.

Lemma full_Support n t : n <= 31 -> is_tt n t -> (forall q, q < n -> ~ vac q (tfun n t)) -> Kit_BitMask n = Kit_TruthSupport t n.
Proof.
  intros Hn Ht Hv. pose proof (full_BitMask n ltac:(lia)) as [Hw Hu]. apply Support_eq; [done..| |].
  - intros j Hj Hj'. rewrite Hu by done. by apply Nat.ltb_ge.
  - intros j Hj. rewrite Hu, (proj2 (Nat.ltb_lt _ _) Hj) by lia. split; [done|]. intros Hvj. by destruct (Hv j Hj).
Qed.

(** The trees at the fanins that stay. *)
Definition tree_kept (uSupp : Z) (n : nat) (Tr : option (nat -> nat -> Prop)) : option (nat -> nat -> Prop) :=
  match Tr with None => None | Some T => Some (fun q y => exists x, x < n /\ Z.testbit uSupp (Z.of_nat x) = true /\ pos uSupp x = q /\ T x y) end.

Lemma forest_kept nodes nV P n uSupp lits Tr s uSupp1 lits1 : forest nodes nV P n uSupp lits Tr ->
  (forall x, x < n -> Z.testbit uSupp (Z.of_nat x) = true -> lits1 (pos uSupp x) = lits x) -> (forall q, q < s -> exists x, x < n /\ Z.testbit uSupp (Z.of_nat x) = true /\ pos uSupp x = q) ->
  forest nodes nV P s uSupp1 lits1 (tree_kept uSupp n Tr).
Proof.
  intros H Hl Ho. destruct Tr as [T|]; [|done]. destruct H as (HT & Hdis & Hft). cbn [tree_kept]. split; [|split].
  - intros q Hq _. destruct (Ho q Hq) as (x & Hx & Hb & <-). rewrite Hl by done. eapply tree_mono; [by apply HT|]. intros y Hy. by exists x.
  - intros q q' y Hq Hq' Hne _ _ (x & Hx & Hb & Ex & Hy) (x' & Hx' & Hb' & Ex' & Hy'). apply (Hdis x x' y); try done. congruence.
  - intros q y Hq _ (x & Hx & Hb & Ex & Hy). by apply (Hft x).
Qed.

Lemma kept_inside nV len i n uSupp Tr s uSupp1 : inside (below nV len i s uSupp1 (tree_kept uSupp n Tr)) (below nV len i n uSupp Tr).
Proof. destruct Tr as [T|]; [|done]. intros y [(q & Hq & _ & (x & Hx & Hb & _ & Hy))|Hy]; [left; by exists x|by right]. Qed.

Lemma inside_refl S : inside S S.
Proof. destruct S as [A|]; [by intros y|exact I]. Qed.

Lemma compress_spec pNtk i uSupp par P o G d Tr : dsd_pre pNtk i uSupp par P o G d Tr -> exists o1 uSupp1 G1 Tr1, dsd_compress o uSupp = Some (o1, uSupp1) /\
  dsd_pre (set_obj pNtk i o1) i uSupp1 par P o1 G1 d Tr1 /\ (Tr = None -> Tr1 = None) /\
  inside (below (dnVars pNtk) (length (pNodes pNtk)) i (nFans o1) uSupp1 Tr1) (below (dnVars pNtk) (length (pNodes pNtk)) i (nFans o) uSupp Tr) /\ full (nFans o1) uSupp1 /\ nFans o1 = supp_size o /\ fMark o1 = fMark o /\
  forall a, app (nFans o1) (tfun (nFans o1) (pTruth o1)) (G1 a) = app (nFans o) (tfun (nFans o) (pTruth o)) (G a).
Proof.
  intros H. pose proof H as [Hids Eo Ety Hn Hlen Htab Hsupp Hsize Hden Hfoot Hpar Hown Hfor]. set (n := nFans o) in *. unfold dsd_compress. fold n.
  destruct (Z.eqb_spec uSupp (Kit_BitMask n)) as [Em|Em]; cbn [negb].
  - assert (full n uSupp) as Hf by (rewrite Em; apply full_BitMask; lia). exists o, uSupp, G, Tr. split; [done|].
    split; [by apply (pre_set pNtk i uSupp par P o G d Tr)|]. split; [done|]. split; [apply inside_refl|]. split; [done|]. split; [|done].
    unfold supp_size. fold n. rewrite <- Hsupp. symmetry. apply (pos_all _ n); [done|]. intros j Hj. apply Hf. lia.
  - set (s := Z.to_nat (Kit_WordCountOnes uSupp)). assert (s = pos uSupp n) as Es.
    { apply pos_total; [lia|rewrite Hsupp; apply word_Support; lia|]. intros x Hx Hx'. rewrite Hsupp. apply Support_bit; [lia|apply Htab|intros; lia]. }
    pose proof (Shrink_app n (scratch n) (pTruth o) uSupp s ltac:(lia) (scratch_tt n) Htab Hsupp Es) as (t0 & t & -> & Htn & Hts & Happ & Hpos & Hv). cbn [mbind option_bind].
    pose proof (move_fans_spec uSupp n (pFans o) Hlen) as HM. destruct (move_fans uSupp n (pFans o)) as [k fans]. destruct HM as (-> & Hlf & Hfans).
    rewrite <- Es, Nat.eqb_refl. assert (0 < s) as Hs0 by (rewrite Es, Hsupp; exact Hsize). assert (s <= n) as Hsn by (rewrite Es; apply pos_le).
    set (o1 := with_fans (with_truth o t) s fans). exists o1, (Kit_BitMask s), (fun a => sel uSupp n (G a)), (tree_kept uSupp n Tr).
    assert (Kit_BitMask s = Kit_TruthSupport t s) as ES1 by (apply full_Support; [lia|apply Hts|done]).
    assert (full s (Kit_BitMask s)) as Hf by (apply full_BitMask; lia).
    assert (supp_size o1 = s) as Es1 by (unfold supp_size; cbn [pTruth nFans o1 with_fans with_truth]; rewrite <- ES1; apply (pos_all _ s); [done|intros j Hj; apply Hf; lia]).
    split; [done|]. split; [|split; [by intros ->|split; [apply kept_inside|split; [done|split; [change (s = supp_size o); by rewrite Es, Hsupp|split; [done|]]]]]].
    + apply (pre_set pNtk i uSupp par P o G d Tr); try done; [cbn; lia|cbn; lia|by rewrite Es1| |].
      2: { apply (forest_kept _ _ _ _ _ (fan o)); [done| |]; [intros x Hx Hb; unfold fan; cbn [pFans o1 with_fans]; by apply Hfans|].
        intros q Hq. cbn in Hq. apply pos_onto. lia. }
      intros a q Hq _. cbn in Hq. destruct (pos_onto uSupp n q ltac:(lia)) as (x & Hx & Hb & <-).
      unfold fan. cbn [pFans o1 with_fans]. rewrite Hfans, sel_pos by done. by apply Hden.
    + intros a. cbn [nFans pTruth o1 with_fans with_truth]. apply Happ. intros x Hx Hb. by apply sel_pos.
Qed.

(** * A node that is a single variable *)

Lemma one_fanin (T : list Z) : proper 1 T -> ~ vac 0 (tfun 1 T) -> exists c : bool, T.[0] = (if c then 0x55555555%Z else 0xAAAAAAAA%Z) /\ forall m, tfun 1 T m = xorb (Nat.testbit m 0) c.
Proof.
  intros [Ht Hd] Hv. assert (forall m, tfun 1 T m = wfun T.[0] m) as E.
  { intros m. unfold tfun, tbit, wfun. change (nmint 1) with 32. rewrite Nat.div_small, Nat.Div0.mod_mod by (apply Nat.mod_upper_bound; lia). done. }
  assert (is_word T.[0]) as Hw by (destruct Ht as [_ Hf]; by apply word_rd).
  pose proof (fun m => wfun_uMasks 0 m ltac:(lia)) as Hm. change uMasks.[0] with 0xAAAAAAAA%Z in Hm.
  destruct (one_variable T.[0] Hw) as [Ew|Ew].
  - intros m m' Hmm. rewrite <- !E. by apply Hd.
  - intros E0. apply Hv, (vac_const _ _ false). intros m. by rewrite E, E0, wfun_0.
  - intros E0. apply Hv, (vac_const _ _ true). intros m. by rewrite E, E0, wfun_ones.
  - exists false. split; [done|]. intros m. rewrite E, Ew, Hm. by rewrite xorb_false_r.
  - exists true. split; [done|]. intros m. rewrite E, Ew. change 0x55555555%Z with (~~~ 0xAAAAAAAA)%Z. rewrite wfun_wnot, Hm. by rewrite xorb_true_r.
Qed.

Lemma single_set pNtk i o1 par : dsd_single (set_obj pNtk i o1) i o1 par = dsd_single pNtk i o1 par.
Proof. unfold dsd_single, set_obj. cbn [pNodes dnVars Root]. 
  destruct (_ =? 0x55555555)%Z; [|destruct (_ =? 0xAAAAAAAA)%Z; [|done]]; cbn [mbind option_bind]; by rewrite list_insert_insert_eq. Qed.

Lemma single_works pNtk i uSupp par P o G d d' e Tr : dsd_pre pNtk i uSupp par P o G d Tr -> full (nFans o) uSupp -> nFans o = 1 -> d <= d' ->
  dsd_post pNtk i par P (fun a => app (nFans o) (tfun (nFans o) (pTruth o)) (G a)) d' e (below (dnVars pNtk) (length (pNodes pNtk)) i (nFans o) uSupp Tr) (dsd_single pNtk i o par).
Proof.
  intros H Hf En Hdd. pose proof H as [Hids Eo Ety Hn Hlen Htab Hsupp Hsize Hden Hfoot (l & Hl & Hlv) Hown _]. rewrite En in *.
  assert (Z.testbit uSupp (Z.of_nat 0) = true) as Hb by (destruct Hf as [_ Hu]; by rewrite Hu by lia).
  destruct (one_fanin (pTruth o) Htab) as (c & Ew & Ef).
  { intros Hv. rewrite Hsupp in Hb. by rewrite (proj2 (Support_bit 1 (pTruth o) 0 ltac:(lia) (proj1 Htab))) in Hb. }
  assert (exists o', (if ((pTruth o).[0] =? 0x55555555)%Z then Some (with_fans (with_type o KIT_DSD_NONE) 1 (<[0 := lit_not (fan o 0)]> (pFans o)))
      else assert! ((pTruth o).[0] =? 0xAAAAAAAA)%Z in Some (with_type o KIT_DSD_NONE)) = Some o' /\ dId o' = dId o /\ fan o' 0 = lit_notcond (fan o 0) c) as (o' & Eo' & Eid & Efan).
  { rewrite Ew. destruct c; cbn; eexists; (split; [done|split; [done|]]).
    - unfold fan. cbn. by rewrite nth_insert_same by lia.
    - change (fan o 0 = lit_notcond (fan o 0) false). unfold lit_notcond. by rewrite xorb_false_r, lit_eta. }
  unfold dsd_single. change (nFans (with_type o KIT_DSD_NONE)) with (nFans o). change (pTruth (with_type o KIT_DSD_NONE)) with (pTruth o). change (pFans (with_type o KIT_DSD_NONE)) with (pFans o).
  change (fan (with_type o KIT_DSD_NONE) 0) with (fan o 0). rewrite En, Eo'. cbn [mbind option_bind].
  assert (near pNtk (set_obj pNtk i o') i) as Hnear by apply near_set. set (pN := set_obj pNtk i o') in *.
  rewrite (near_read _ _ _ _ _ Hnear Hown Hl). cbn [mbind option_bind].
  destruct (write_spec pN par l (lit_notcond (fan o' 0) (lit_compl l))) as (pN2 & -> & Hw); [by apply (near_read pNtk pN i)|].
  exists pN2, l, (lit_notcond (fan o' 0) (lit_compl l)). split; [done|]. split; [done|]. split; [apply Hw|].
  assert (length (pNodes pN2) = length (pNodes pNtk)) as Elen by (rewrite (wr_length _ _ _ _ Hw); apply length_insert).
  assert (forall q, q < length (pNodes pNtk) -> q <> i -> owner par <> Some q -> pNodes pN2 !! q = pNodes pNtk !! q) as Hsame.
  { intros q Hq Hqi Hqo. rewrite (wr_nodes _ _ _ _ Hw) by done. by apply Hnear. }
  split; [|split].
  - split; [by apply Hw|intros Hp; by rewrite (wr_root _ _ _ _ Hw)|lia|done| |].
    + intros p q op Ep Eop. exists (lit_notcond (fan o' 0) (lit_compl l)). apply (wr_owner _ _ _ _ Hw p q op Ep). rewrite <- Eop. apply Hnear; [by apply lookup_lt_Some in Eop|].
      intros ->. apply Hown. by rewrite Ep.
    + apply (wr_ids _ _ _ _ Hw). intros q oq Eq. change (dnVars pN) with (dnVars pNtk). pose proof (lookup_lt_Some _ _ _ Eo) as Hi.
      destruct (decide (q = i)) as [->|Hq]; [unfold pN, set_obj in Eq; cbn in Eq; rewrite list_lookup_insert_eq in Eq by done; injection Eq as <-; rewrite Eid; by apply (Hids i o)|].
      apply Hids. rewrite <- Eq. symmetry. apply Hnear; [|done]. apply lookup_lt_Some in Eq. unfold pN, set_obj in Eq. cbn in Eq. by rewrite length_insert in Eq.
  - intros a. rewrite Efan. apply den_notcond. eapply den_val; [apply den_notcond; eapply den_frame; [rewrite (wr_vars _ _ _ _ Hw); apply Hden; [lia|done]|done|by left|]|].
    + intros q oq Hq Eq. rewrite <- Eq. destruct (Hfoot q Hq) as (? & ? & ?). by apply Hsame.
    + unfold app. rewrite Ef, mint_bit by lia. done.
  - rewrite (wr_vars _ _ _ _ Hw), Efan. pose proof (pre_forest _ _ _ _ _ _ _ _ _ H) as Hfor. apply (forest_frame _ (pNodes pN2) _ _ P) in Hfor; [|done|].
    + destruct Tr as [T|]; [|done]. destruct Hfor as (HT & _ & _). cbn [below]. apply tree_notcond, tree_notcond. eapply tree_mono; [apply (HT 0); [lia|done]|].
      intros y Hy. left. exists 0. split; [lia|done].
    + intros q oq Hq Eq. rewrite <- Eq. destruct (Hfoot q Hq) as (? & ? & ?). by apply Hsame.
Qed.

(** * The recursion *)

Lemma loop_down (f : nat -> turn) n (Q : option Kit_DsdNtk_t -> Prop) : (forall k, k < n -> match f k with stop r => Q r | go => True end) ->
  match for_down n (fun k t => or_turn t (f k)) go with stop r => Q r | go => forall k, k < n -> f k = go end.
Proof.
  intros H. unfold for_down. pose proof (turns_spec Q (rev (seq 0 n)) f) as HT. destruct (fold_left _ _ go).
  - intros k Hk. apply HT; [|apply in_rev; rewrite rev_involutive; apply in_seq; lia]. intros x Hx%in_rev%in_seq. apply H. lia.
  - apply HT. intros x Hx%in_rev%in_seq. apply H. lia.
Qed.

(** A compressed node with at least two fanins. *)
Lemma loops_works nDecMux rec N pNtk i uSupp par P o G d Tr : dsd_works nDecMux rec N -> nDecMux = 0 \/ Tr = None -> dsd_pre pNtk i uSupp par P o G d Tr -> full (nFans o) uSupp -> 2 <= nFans o ->
  2 * nFans o + Nat.b2n (fMark o) <= N -> dnVars pNtk + length (pNodes pNtk) + extra nDecMux (nFans o) <= 64 ->
  dsd_post pNtk i par P (fun a => app (nFans o) (tfun (nFans o) (pTruth o)) (G a)) (d + nFans o) (extra nDecMux (nFans o))
    (below (dnVars pNtk) (length (pNodes pNtk)) i (nFans o) uSupp Tr)
    (match (if fMark o then go else for_down (nFans o) (fun i0 t => or_turn t (dsd_output rec pNtk i uSupp par i0)) go) with
     | stop r => r
     | go => let pNtk := set_obj pNtk i (with_mark o true) in
       match for_down (nFans o) (fun i0 t => or_turn t (dsd_input rec pNtk i uSupp par i0)) go with stop r => r | go => dsd_limit rec pNtk i nDecMux end
     end).
Proof.
  intros W Hflag H Hf Hn2 HN Hroom. set (n := nFans o) in *. set (post := dsd_post pNtk i par P _ _ _ _).
  assert (match (if fMark o then go else for_down n (fun i0 t => or_turn t (dsd_output rec pNtk i uSupp par i0)) go) with stop r => post r
    | go => forall j, j < n -> Kit_TruthSupport (Kit_TruthCofactor0New (scratch n) (pTruth o) n j) n <> 0%Z /\ Kit_TruthSupport (Kit_TruthCofactor1New (scratch n) (pTruth o) n j) n <> 0%Z \/ 2 * n < N end) as Hout.
  { destruct (fMark o); [intros; right; cbn in HN; lia|].
    pose proof (fun j Hj => dsd_output_spec nDecMux rec N W pNtk i uSupp par P o G d Tr Hflag H Hf ltac:(lia) Hroom Hn2 j Hj) as Hspec. fold n in Hspec. fold post in Hspec.
    pose proof (loop_down (dsd_output rec pNtk i uSupp par) n post) as HL.
    assert (forall k, k < n -> match dsd_output rec pNtk i uSupp par k with stop r => post r | go => True end) as Hp by (intros k Hk; specialize (Hspec k Hk); by destruct (dsd_output rec pNtk i uSupp par k)).
    specialize (HL Hp). destruct (for_down n _ go); [|exact HL]. intros j Hj. left. specialize (Hspec j Hj). by rewrite HL in Hspec. }
  destruct (if fMark o then go else _) as [|r]; [|exact Hout]. cbv zeta.
  set (pN := set_obj pNtk i (with_mark o true)). assert (near pNtk pN i) as Hnear by apply near_set.
  assert (length (pNodes pN) = length (pNodes pNtk)) as Elen by apply length_insert.
  pose proof H as [_ _ Ety Hn Hlen Htab Hsupp Hsize Hden _ (l & Hl & _) Hown Hfor].
  pose proof (pre_set _ _ _ _ _ _ _ _ _ (with_mark o true) uSupp G Tr H eq_refl Ety Hn Hlen Htab Hsupp Hsize Hden Hfor) as H2. fold pN in H2.
  apply (post_near pNtk pN i par P P _ (fun a => app n (tfun n (pTruth o)) (G a)) _ (d + n) _ (extra nDecMux n) _ (below (dnVars pN) (length (pNodes pN)) i n uSupp Tr));
    [done|done|by rewrite Hl|by left|done|done|lia|rewrite Elen; apply inside_refl|].
  assert (dnVars pN + length (pNodes pN) + extra nDecMux n <= 64) as Hroom2 by (rewrite Elen; exact Hroom).
  pose proof (fun j Hj => dsd_input_spec nDecMux rec N W pN i uSupp par P (with_mark o true) G d Tr Hflag H2 Hf ltac:(cbn [nFans with_mark]; lia) Hroom2 Hn2 j Hj (Hout j Hj)) as Hin.
  pose proof (loop_down (dsd_input rec pN i uSupp par) n _ Hin) as HL. destruct (for_down n _ go); [|exact HL].
  apply (limit_works nDecMux rec N W pN i uSupp par P (with_mark o true) G d Tr Hflag H2 Hf ltac:(cbn [nFans with_mark]; lia) Hroom2 Hn2 HL).
Qed.

Lemma decompose_works nDecMux rec N : dsd_works nDecMux rec N -> dsd_works nDecMux (fun pNtk i uSupp par => dsd_decompose rec pNtk i uSupp par nDecMux) (S N).
Proof.
  intros W pNtk i uSupp par P o G d Tr Hflag H HN Hroom. pose proof H as [_ Eo Ety Hn _ _ Hsupp Hsize _ _ (l & Hl & _) Hown _].
  destruct (compress_spec _ _ _ _ _ _ _ _ _ H) as (o1 & uSupp1 & G1 & Tr1 & Ec & H1 & Hnone & Hins & Hf & En & Em & Happ).
  unfold dsd_decompose. rewrite Eo. cbn [mbind option_bind]. rewrite (proj2 (Nat.ltb_lt _ _) (proj1 Hn)), (bool_decide_eq_true_2 _ Ety).
  rewrite (proj2 (Z.eqb_eq _ _) Hsupp), Ec. cbn [mbind option_bind]. rewrite <- En in *.
  apply (post_near pNtk (set_obj pNtk i o1) i par P P _ _ _ (d + nFans o1) _ (extra nDecMux (nFans o1)) _ (below (dnVars pNtk) (length (pNodes pNtk)) i (nFans o1) uSupp1 Tr1) _ (near_set _ _ _) Hown ltac:(by rewrite Hl) ltac:(by left) Happ);
    [done|unfold set_obj; cbn; by rewrite length_insert|done|].
  replace (length (pNodes pNtk)) with (length (pNodes (set_obj pNtk i o1))) by (unfold set_obj; cbn; by rewrite length_insert).
  destruct (Nat.eqb_spec (nFans o1) 1) as [E1|E1].
  - rewrite <- single_set. apply (single_works (set_obj pNtk i o1) i uSupp1 par P o1 G1 d); [done..|lia].
  - apply (loops_works nDecMux rec N (set_obj pNtk i o1) i uSupp1 par P o1 G1 d Tr1 W ltac:(tauto) H1 Hf); [lia|rewrite Em; lia|]. unfold set_obj. cbn. by rewrite length_insert.
Qed.

Lemma rec_works nDecMux fuel : dsd_works nDecMux (fun pNtk i uSupp par => Kit_DsdDecompose_rec fuel pNtk i uSupp par nDecMux) fuel.
Proof. induction fuel as [|fuel IH]; [intros ? ? ? ? ? ? ? ? ? _ _ HN; lia|]. by apply decompose_works. Qed.

(** * Decomposition of a table *)

Lemma const_table t nVars : nVars <= 31 -> proper nVars t -> pos (Kit_TruthSupport t nVars) nVars = 0 -> forall m, tfun nVars t m = negb (t.[0] =? 0)%Z.
Proof.
  intros Hn [Ht Hd] Hp. assert (forall j, j < nVars -> vac j (tfun nVars t)) as Hv.
  { intros j Hj. destruct (Z.testbit (Kit_TruthSupport t nVars) (Z.of_nat j)) eqn:E; [pose proof (pos_some _ _ _ Hj E); lia|]. by apply (Support_bit nVars t j Hn Ht). }
  assert (forall m, tfun nVars t m = tfun nVars t 0) as Hc by (intros m; apply (vac_agree nVars); [done|]; intros j Hj; left; auto).
  assert (is_word t.[0]) as Hw by (destruct Ht as [_ Hf]; by apply word_rd).
  intros m. destruct (Z.eqb_spec t.[0] 0) as [E|E]; cbn [negb].
  - rewrite Hc. unfold tfun, tbit. rewrite Nat.Div0.mod_0_l. change (0 / 32) with 0. by rewrite E, Z.testbit_0_l.
  - destruct (tfun nVars t m) eqn:Em; [done|]. exfalso. apply E. apply word_ext; [done|done|]. intros b Hb. rewrite Z.testbit_0_l.
    rewrite <- Em, Hc, <- (Hc b). unfold tfun, tbit. rewrite Nat.mod_small; [rewrite Nat.div_small, Nat.mod_small by done; done|].
    unfold nmint. eapply Nat.lt_le_trans; [exact Hb|]. change 32 with (2 ^ 5). apply Nat.pow_le_mono_r; lia.
Qed.

Lemma single_table t nVars : nVars <= 31 -> proper nVars t -> pos (Kit_TruthSupport t nVars) nVars = 1 ->
  let x := Z.to_nat (Kit_WordFindFirstBit (Kit_TruthSupport t nVars)) in x < nVars /\ forall m, tfun nVars t m = xorb (Nat.testbit m x) (Z.testbit t.[0] 0).
Proof.
  intros Hn [Ht Hd] Hp x. set (S := Kit_TruthSupport t nVars) in *. assert (is_word S) as HS by (by apply word_Support).
  assert (forall j, Z.testbit S (Z.of_nat j) = false <-> (j < nVars -> vac j (tfun nVars t))) as HSb by (intros j; by apply Support_bit).
  assert (exists b, x = b /\ b < nVars /\ Z.testbit S (Z.of_nat b) = true) as (b & -> & Hb & Hbit).
  { unfold x. destruct (Z.leb_spec 0 (Kit_WordFindFirstBit S)) as [Hr|Hr].
    - destruct (WordFindFirstBit_Some _ _ eq_refl Hr) as (b & -> & Hb & Hbit & _). exists b. split; [by rewrite Nat2Z.id|]. split; [|done].
      destruct (Nat.lt_ge_cases b nVars); [done|]. rewrite (proj2 (HSb b)) in Hbit; [done|lia].
    - pose proof (WordFindFirstBit_range S) as Hr'. pose proof (WordFindFirstBit_None S ltac:(lia)) as Hno. unfold pos in Hp. rewrite cnt_false in Hp; [done|]. intros j Hj. apply Hno. lia. }
  split; [done|]. assert (forall j, j < nVars -> j <> b -> vac j (tfun nVars t)) as Hv.
  { intros j Hj Hjb. destruct (Z.testbit S (Z.of_nat j)) eqn:E; [|by apply HSb].
    exfalso. assert (pos S b < pos S nVars) by (by apply pos_lt). assert (pos S j < pos S nVars) by (by apply pos_lt).
    destruct (Nat.lt_trichotomy j b) as [L|[L|L]]; [pose proof (pos_lt S j b L E); lia|done|pose proof (pos_lt S b j L Hbit); lia]. }
  assert (~ vac b (tfun nVars t)) as Hnv by (intros Hvb; by rewrite (proj2 (HSb b)) in Hbit).
  assert (forall m m', Nat.testbit m b = Nat.testbit m' b -> tfun nVars t m = tfun nVars t m') as Hag.
  { intros m m' E. apply (vac_agree nVars); [done|]. intros j Hj. destruct (Nat.eq_dec j b) as [->|]; [by right|left; auto]. }
  assert (tfun nVars t (Nat.setbit 0 b) <> tfun nVars t 0) as Hne.
  { intros E. apply Hnv. intros m. unfold cof. rewrite (Hag (Nat.clearbit m b) 0), (Hag (Nat.setbit m b) (Nat.setbit 0 b)); rewrite ?Nat.setbit_eq, ?Nat.clearbit_eq, ?Nat.bits_0; done. }
  assert (tfun nVars t 0 = Z.testbit t.[0] 0) as E0 by (unfold tfun, tbit; by rewrite Nat.Div0.mod_0_l).
  intros m. rewrite <- E0. destruct (Nat.testbit m b) eqn:Em.
  - rewrite (Hag m (Nat.setbit 0 b)) by (by rewrite Nat.setbit_eq). by destruct (tfun nVars t (Nat.setbit 0 b)), (tfun nVars t 0).
  - rewrite (Hag m 0) by (by rewrite Nat.bits_0). by destruct (tfun nVars t 0).
Qed.

Lemma Support_pos t nVars : nVars <= 31 -> is_tt nVars t -> Kit_WordCountOnes (Kit_TruthSupport t nVars) = Z.of_nat (pos (Kit_TruthSupport t nVars) nVars).
Proof.
  intros Hn Ht. rewrite <- (pos_total (Kit_TruthSupport t nVars) nVars); [|lia|by apply word_Support|intros x Hx _; apply Support_bit; [done|done|lia]].
  rewrite Z2Nat.id; [done|]. rewrite WordCountOnes_spec by (by apply word_Support). apply cnt_bound.
Qed.

(** The node for the whole table. *)
Lemma first_pre t nVars : 2 <= nVars <= 16 -> proper nVars t -> 2 <= pos (Kit_TruthSupport t nVars) nVars ->
  let o := mkDsdObj nVars KIT_DSD_PRIME false 0 nVars (map (fun i => lit i false) (seq 0 nVars)) (Kit_TruthCopy (scratch nVars) t nVars) in
  let pNtk := mkDsdNtk nVars (lit nVars false) [o] in
  dsd_pre pNtk 0 (Kit_TruthSupport t nVars) par_root (fun _ => False) o (fun a => a) 0 (Some (fun j y => y = j /\ j < nVars)) /\ supp_size o = pos (Kit_TruthSupport t nVars) nVars.
Proof.
  intros Hn Ht Hp o pNtk. assert (forall m, tfun nVars t m = tfun nVars (Kit_TruthCopy (scratch nVars) t nVars) m) as EC by (intros m; symmetry; apply tfun_Copy, scratch_tt).
  assert (proper nVars (Kit_TruthCopy (scratch nVars) t nVars)) as HC by (apply proper_Copy; [apply scratch_tt|done]).
  assert (Kit_TruthSupport t nVars = Kit_TruthSupport (Kit_TruthCopy (scratch nVars) t nVars) nVars) as ES by (apply Support_same; [lia|apply Ht|done|done]).
  assert (supp_size o = pos (Kit_TruthSupport t nVars) nVars) as Es by (unfold supp_size; cbn [nFans pTruth o]; by rewrite <- ES). split; [|done].
  assert (forall j, j < nVars -> fan o j = lit j false) as Hfan.
  { intros j Hj. unfold fan. cbn [pFans o]. rewrite (nth_indep _ 0 (lit 0 false)) by (by rewrite length_map, length_seq). by rewrite (map_nth (fun i => lit i false)), seq_nth. }
  split; try done.
  - intros i oi Ei. destruct i as [|i]; [|by destruct i]. injection Ei as <-. cbn. lia.
  - cbn. lia.
  - cbn [nFans pFans o]. by rewrite length_map, length_seq.
  - rewrite Es. lia.
  - intros a j Hj _. cbn in Hj. rewrite Hfan by done. eapply den_val; [by apply den_var|apply xorb_false_r].
  - exists (lit nVars false). split; [done|]. rewrite lit_id_lit. cbn. lia.
  - split; [|split].
    + intros j Hj _. cbn in Hj. rewrite Hfan by done. by apply tree_var.
    + intros j k y _ _ Hjk _ _ [-> _] [? _]. done.
    + intros j y _ _ [E Hj]. cbn in E. lia.
Qed.

Lemma one_node o nV c a B v d l : l = lit nV c -> good_node o -> (forall k, k < nFans o -> den [o] nV a (fun _ => True) d (fan o k) (B k)) -> node_value o B = Some v ->
  den [o] nV a (fun _ => True) (S d) l (xorb v c).
Proof. intros -> Hg HB Hv. pose proof (den_node [o] nV a (fun _ => True) d 0 o c B v I eq_refl Hg HB Hv) as Hd. by rewrite Nat.add_0_r in Hd. Qed.

Lemma one_id o nV r : dId o = nV -> ids_ok (mkDsdNtk nV r [o]).
Proof. intros E [|i] oi Ei; [|by destruct i]. injection Ei as <-. cbn. lia. Qed.

Lemma two_bits S n x : 2 <= pos S n -> exists y, y < n /\ y <> x /\ Z.testbit S (Z.of_nat y) = true.
Proof.
  intros H. destruct (pos_onto S n 0 ltac:(lia)) as (y0 & H0 & B0 & P0). destruct (pos_onto S n 1 ltac:(lia)) as (y1 & H1 & B1 & P1).
  destruct (Nat.eq_dec y0 x) as [->|Hne]; [exists y1; split; [done|split; [intros ->; lia|done]]|by exists y0].
Qed.

(** The root of a function of several variables is a node. *)
Lemma root_node nodes nVars t l : nVars <= 31 -> proper nVars t -> 2 <= pos (Kit_TruthSupport t nVars) nVars ->
  (forall a, exists d, den nodes nVars a (fun _ => True) d l (app nVars (tfun nVars t) a)) -> exists i c, l = lit (nVars + i) c.
Proof.
  intros Hn [Ht Hd] Hp H. destruct (Nat.lt_ge_cases (lit_id l) nVars) as [Hx|Hx]; [|exists (lit_id l - nVars), (lit_compl l); rewrite <- (lit_eta l) at 1; f_equal; lia].
  destruct (two_bits _ _ (lit_id l) Hp) as (y & Hy & Hne & Hb). exfalso.
  assert (forall a, app nVars (tfun nVars t) a = xorb (a (lit_id l)) (lit_compl l)) as E.
  { intros a. destruct (H a) as [d Hden]. pose proof (den_eval _ _ _ _ _ _ _ Hden) as Ev. assert (dsd_eval d nodes nVars a l = Some (xorb (a (lit_id l)) (lit_compl l))) as Ev2; [|congruence].
    destruct d; cbn [dsd_eval]; by rewrite (proj2 (Nat.ltb_lt _ _) Hx). }
  assert (vac y (tfun nVars t)) as Hv; [|by rewrite (proj2 (Support_bit nVars t y Hn Ht)) in Hb].
  intros m. unfold cof. assert (forall m', tfun nVars t m' = xorb (Nat.testbit m' (lit_id l)) (lit_compl l)) as Em by (intros m'; rewrite <- E; apply Hd; intros i Hi; symmetry; by apply mint_bit).
  by rewrite !Em, clearbit_if, setbit_if, (proj2 (Nat.eqb_neq _ _) Hne).
Qed.

Lemma pre_none pNtk i uSupp par P o G d Tr : dsd_pre pNtk i uSupp par P o G d Tr -> dsd_pre pNtk i uSupp par P o G d None.
Proof. intros []. by split. Qed.

Lemma decompose_den t nVars nDecMux : nVars <= 16 -> proper nVars t -> nDecMux = 0 \/ nVars <= 6 ->
  exists pNtk, Kit_DsdDecomposeInt t nVars nDecMux = Some pNtk /\ dnVars pNtk = nVars /\ ids_ok pNtk /\ length (pNodes pNtk) <= 1 + extra nDecMux nVars /\
    (forall a, den (pNodes pNtk) nVars a (fun _ => True) (nVars + 1) (Root pNtk) (app nVars (tfun nVars t) a)) /\
    (nDecMux = 0 -> dsd_tree binary pNtk (fun y => Z.testbit (Kit_TruthSupport t nVars) (Z.of_nat y) = true)).
Proof.
  intros Hn Ht Hmux. pose proof Ht as [Ht1 Ht2]. unfold Kit_DsdDecomposeInt. rewrite (proj2 (Nat.leb_le _ _) Hn). cbn [mbind option_bind].
  rewrite alloc_eq. cbn [pNodes Kit_DsdNtkAlloc length dnVars Root app]. rewrite Nat.add_0_r, !(Nat.mod_small nVars) by (cbn; lia).
  change (([] ++ ?l) !! 0) with (head l). cbn [mbind option_bind lookup list_lookup Datatypes.app].
  rewrite Support_pos by (lia || done). destruct (Z.eqb_spec (Z.of_nat (pos (Kit_TruthSupport t nVars) nVars)) 0) as [E0|E0]; [|destruct (Z.eqb_spec (Z.of_nat (pos (Kit_TruthSupport t nVars) nVars)) 1) as [E1|E1]].
  - pose proof (const_table t nVars ltac:(lia) Ht ltac:(lia)) as Hc. eexists. split; [reflexivity|]. cbn [list.head mbind option_bind set_obj dnVars Root pNodes list_insert insert].
    split; [done|]. split; [by apply one_id|]. split; [cbn; lia|].
    assert (exists c, (if (t.[0] =? 0)%Z then lit_not (lit nVars false) else lit nVars false) = lit nVars c) as [c Ec] by (destruct (t.[0] =? 0)%Z; [unfold lit_not; rewrite lit_notcond_lit|]; by eexists).
    split; [|intros _; left; eexists _, c; split; [done|split; [exact Ec|by left]]].
    intros a. unfold app. rewrite Hc, Nat.add_1_r. change (negb (t.[0] =? 0)%Z) with (xorb true (t.[0] =? 0)%Z).
    apply (one_node _ nVars _ a (fun _ => false)); [|split; [cbn; lia|split; [cbn; lia|done]]|intros k Hk; cbn in Hk; lia|done].
    destruct (t.[0] =? 0)%Z; [|done]. unfold lit_not. by rewrite lit_notcond_lit.
  - destruct (single_table t nVars ltac:(lia) Ht ltac:(lia)) as [Hx Hs]. eexists. split; [reflexivity|]. cbn [list.head mbind option_bind set_obj dnVars Root pNodes list_insert insert].
    split; [done|]. split; [by apply one_id|]. split; [cbn; lia|].
    split.
    2: { intros _. left. eexists _, false. split; [reflexivity|]. split; [reflexivity|]. right. split; [reflexivity|]. split; [reflexivity|]. eexists _, _. split; [exact Hx|]. split; [|unfold fan; cbn [pFans with_fans with_type with_truth]; by rewrite nth_insert_same by (rewrite length_map, length_seq; lia)].
      cbv beta. apply not_false_iff_true. intros Eb. pose proof (proj1 (Support_bit nVars t _ ltac:(lia) Ht1) Eb Hx 0) as Hv. unfold cof in Hv. rewrite !Hs, Nat.setbit_eq, Nat.clearbit_eq in Hv.
      by destruct (Z.testbit t.[0] 0). }
    intros a. unfold app at 1. rewrite Hs, mint_bit, Nat.add_1_r by done.
    eapply den_val; [apply (one_node _ nVars false a (fun _ => xorb (a (Z.to_nat (Kit_WordFindFirstBit (Kit_TruthSupport t nVars)))) (Z.testbit t.[0] 0)))|]; [done| | |done|by rewrite xorb_false_r].
    + split; [cbn; rewrite length_insert, length_map, length_seq; lia|split; [cbn; lia|done]].
    + intros k Hk. cbn in Hk. replace k with 0 by lia. unfold fan. cbn [pFans with_fans with_type with_truth]. rewrite nth_insert_same by (rewrite length_map, length_seq; lia). by apply den_var.
  - cbn [list.head mbind option_bind set_obj dnVars Root pNodes list_insert insert].
    destruct (first_pre t nVars) as [Hpre Es]; [pose proof (pos_le (Kit_TruthSupport t nVars) nVars); lia|done|lia|].
    set (o := mkDsdObj nVars KIT_DSD_PRIME false 0 nVars _ _) in *. pose proof (pos_le (Kit_TruthSupport t nVars) nVars) as Hle.
    assert (nVars + 1 + extra nDecMux nVars <= 64) as Hroom.
    { destruct Hmux as [->|H6]; [unfold extra; cbn; lia|]. pose proof (extra_mono nDecMux nVars 6 H6) as Hx. assert (extra nDecMux 6 <= 46) as H46 by (unfold extra; destruct (nDecMux =? 0); cbn; lia). lia. }
    pose proof (extra_mono nDecMux (supp_size o) nVars ltac:(lia)) as Hex.
    assert (exists Tr, (nDecMux = 0 \/ Tr = None) /\ dsd_pre (mkDsdNtk nVars (lit nVars false) [o]) 0 (Kit_TruthSupport t nVars) par_root (fun _ => False) o (fun a => a) 0 Tr /\ (nDecMux = 0 -> Tr = Some (fun j y => y = j /\ j < nVars))) as (Tr & Hflag & Hpre1 & HTr).
    { destruct (Nat.eq_dec nDecMux 0); [eexists; split; [by left|split; [exact Hpre|done]]|exists None; split; [by right|split; [by eapply pre_none|done]]]. }
    destruct (rec_works nDecMux (2 * nVars + 2) _ _ _ _ _ _ _ _ _ Hflag Hpre1) as (pNtk & l & l' & E & Hl & Hl' & C & Hd & Htree); [cbn [fMark o Nat.b2n]; lia|cbn [dnVars pNodes length]; lia|].
    exists pNtk. split; [exact E|]. split; [apply C|]. split; [apply C|]. split; [etransitivity; [apply C|cbn [pNodes length]; lia]|].
    cbn [read_lit Root] in Hl, Hl'. injection Hl' as <-. injection Hl as <-. rewrite (ch_vars _ _ _ _ _ C) in Htree.
    assert (forall a, den (pNodes pNtk) nVars a (fun _ => True) (nVars + 1) (Root pNtk) (app nVars (tfun nVars t) a)) as Hmain.
    { intros a. specialize (Hd a). rewrite (ch_vars _ _ _ _ _ C) in Hd. cbn [dnVars] in Hd.
      eapply den_val; [eapply den_frame; [exact Hd|lia|done|done]|]. rewrite lit_compl_lit, xorb_false_r. cbn [nFans pTruth o]. symmetry. apply app_fun. intros m. symmetry. apply tfun_Copy, scratch_tt. }
    split; [exact Hmain|]. intros E1'. rewrite (HTr E1') in Htree. right. unfold tree_root. rewrite (ch_vars _ _ _ _ _ C). cbn [dnVars below] in *.
    split; [apply (root_node (pNodes pNtk) nVars t); [lia|done|lia|intros a; eexists; apply Hmain]|]. eapply tree_mono; [exact Htree|].
    intros y [(j & Hj & Hb & -> & _)|Hy] Hlt; [done|lia].
Qed.

(** * Properties *)

(** C1. For every table of at most sixteen variables, [Kit_DsdDecompose] returns a network, of at most as many nodes as variables, whose
    root has the value of the table at every minterm, computed through nodes on paths no longer than the number of variables plus one.
    On these paths every fanin of a prime node matters to its function, identifiers are the places of the nodes, and no node has lost
    its type.  The network is a constant, a variable or a tree: no variable and no node is met twice below the root, and-
    and xor-nodes have two fanins, and only variables in the support of the function occur. *)
Theorem dsd_decompose_correct t nVars : nVars <= 16 -> proper nVars t ->
  exists pNtk, Kit_DsdDecompose t nVars = Some pNtk /\ dnVars pNtk = nVars /\ ids_ok pNtk /\ length (pNodes pNtk) <= Nat.max 1 nVars /\
    (forall m, dsd_eval (nVars + 1) (pNodes pNtk) nVars (Nat.testbit m) (Root pNtk) = Some (tfun nVars t m)) /\
    (forall a, den (pNodes pNtk) nVars a (fun _ => True) (nVars + 1) (Root pNtk) (app nVars (tfun nVars t) a)) /\
    dsd_tree binary pNtk (fun y => Z.testbit (Kit_TruthSupport t nVars) (Z.of_nat y) = true).
Proof.
  intros Hn Ht. destruct (decompose_den t nVars 0 Hn Ht (or_introl eq_refl)) as (pNtk & E & Hv & Hids & Hlen & Hd & Htree). exists pNtk. do 3 (split; [done|]).
  split; [unfold extra in Hlen; cbn in Hlen; lia|]. split; [|split; [done|by apply Htree]]. intros m. rewrite (den_eval _ _ _ _ _ _ _ (Hd (Nat.testbit m))). f_equal.
  apply (proj2 Ht). intros i Hi. by apply mint_bit.
Qed.

Lemma word_proper w : is_word w -> proper 5 [w].
Proof.
  intros Hw. assert (is_tt 5 [w]) as Ht by (split; [cbn; lia|constructor; [done|constructor]]). split; [done|]. intros m m' Hm. unfold tfun. f_equal.
  apply Nat.bits_inj. intros i. change (nmint 5) with (2 ^ 5). destruct (Nat.lt_ge_cases i 5); [by rewrite !Nat.mod_pow2_bits_low, Hm|by rewrite !Nat.mod_pow2_bits_high].
Qed.

Lemma dsd_decompose_correct_witness :
  (pNtk ← Kit_DsdDecompose [0xF8F80000]%Z 5; Some (Root pNtk, length (pNodes pNtk))) = Some (12, 4) /\
  exists pNtk, Kit_DsdDecompose [0xF8F80000]%Z 5 = Some pNtk /\ dnVars pNtk = 5 /\ ids_ok pNtk /\ length (pNodes pNtk) <= Nat.max 1 5 /\
    (forall m, dsd_eval (5 + 1) (pNodes pNtk) 5 (Nat.testbit m) (Root pNtk) = Some (tfun 5 [0xF8F80000]%Z m)) /\
    (forall a, den (pNodes pNtk) 5 a (fun _ => True) (5 + 1) (Root pNtk) (app 5 (tfun 5 [0xF8F80000]%Z) a)) /\
    dsd_tree binary pNtk (fun y => Z.testbit (Kit_TruthSupport [0xF8F80000]%Z 5) (Z.of_nat y) = true).
Proof. split; [vm_compute; reflexivity|]. apply (dsd_decompose_correct [0xF8F80000]%Z 5); [lia|apply word_proper; unfold is_word; lia]. Defined.

(** C21. With a limit on the primes, [Kit_DsdDecomposeMux] does the same for tables of at most six variables, for which the identifiers of
    all the nodes that multiplexers may add fit into their six bits. *)
Theorem dsd_decompose_mux_correct t nVars nDecMux : nVars <= 6 -> proper nVars t ->
  exists pNtk, Kit_DsdDecomposeMux t nVars nDecMux = Some pNtk /\ dnVars pNtk = nVars /\ ids_ok pNtk /\ nVars + length (pNodes pNtk) <= 64 /\
    forall m, dsd_eval (nVars + 1) (pNodes pNtk) nVars (Nat.testbit m) (Root pNtk) = Some (tfun nVars t m).
Proof.
  intros Hn Ht. destruct (decompose_den t nVars nDecMux ltac:(lia) Ht (or_intror Hn)) as (pNtk & E & Hv & Hids & Hlen & Hd & _). exists pNtk. do 3 (split; [done|]).
  split.
  - pose proof (extra_mono nDecMux nVars 6 Hn) as Hx. assert (extra nDecMux 6 <= 46) as H46 by (unfold extra; destruct (nDecMux =? 0); cbn; lia). lia.
  - intros m. rewrite (den_eval _ _ _ _ _ _ _ (Hd (Nat.testbit m))). f_equal. apply (proj2 Ht). intros i Hi. by apply mint_bit.
Qed.

Lemma dsd_decompose_mux_correct_witness :
  (pNtk ← Kit_DsdDecomposeMux [0xE8E8E817]%Z 5 2; Some (Root pNtk, length (pNodes pNtk))) = Some (10, 8) /\
  exists pNtk, Kit_DsdDecomposeMux [0xE8E8E817]%Z 5 2 = Some pNtk /\ dnVars pNtk = 5 /\ ids_ok pNtk /\ 5 + length (pNodes pNtk) <= 64 /\
    forall m, dsd_eval (5 + 1) (pNodes pNtk) 5 (Nat.testbit m) (Root pNtk) = Some (tfun 5 [0xE8E8E817]%Z m).
Proof. split; [vm_compute; reflexivity|]. apply (dsd_decompose_mux_correct [0xE8E8E817]%Z 5 2); [lia|apply word_proper; unfold is_word; lia]. Defined.
