(* ===== verification/DsdTruth.v ===== *)
(** The truth table of a network of decomposition nodes ([kitDsd.c]): the manager, the tables of the nodes, and
    [Kit_DsdTruth].  On a tree the table is that of the function of the root; decomposition followed by [Kit_DsdTruth] gives
    the table again.  Complemented fanins of a prime node are complemented in place, which a tree allows. *)
From S2P Require Import Prelude Words Minterm TruthBasic TruthCof TruthPerm TruthSupp VecInt VecArray Cube Minato Isop Cloud CloudInit CloudRun CloudTruth KitCloud Dsd DsdFun DsdDec DsdRun.

(** * The manager *)

(** Pointers to tables are their places in [vTtNodes]; two pointers to a node are the same place. *)
Record Kit_DsdMan_t := mkDsdMan {
  dm_nVars : nat;
  vTtElems : list (list Z);
  vTtNodes : list (list Z);
  dm_dd : CloudManager;
  vTtBdds : list (list Z);
  dm_vNodes : Vec_Int_t }.

Definition set_tt (p : Kit_DsdMan_t) (Id : nat) (t : list Z) : Kit_DsdMan_t :=
  mkDsdMan (dm_nVars p) (vTtElems p) (<[Id := t]> (vTtNodes p)) (dm_dd p) (vTtBdds p) (dm_vNodes p).

(** Memory that is allocated and not written has any contents: an argument gives those of every entry. *)
Definition Vec_PtrAllocSimInfo (mem : nat -> nat -> Z) (nEntries nWords : nat) : list (list Z) := map (fun i => map (mem i) (seq 0 nWords)) (seq 0 nEntries).

Definition Vec_PtrAllocTruthTables (mem : nat -> nat -> Z) (nVars : nat) : list (list Z) :=
  let nWords := if nVars <=? 5 then 1 else 2 ^ (nVars - 5) in
  let p := Vec_PtrAllocSimInfo mem nVars nWords in
  for_up nVars (fun i p =>
    let pTruth := nth i p [] in
    <[i := if i <? 5 then for_up nWords (fun k q => q.[k <- Masks.[i]]) pTruth
           else for_up nWords (fun k q => if negb (Nat.land k (2 ^ (i - 5)) =? 0) then q.[k <- ~~~ 0] else q.[k <- 0]) pTruth]> p) p.

(** [tUnique] is the address of the hash table of the decision diagrams; [mem] are the first contents of the three arrays of tables. *)
Definition Kit_DsdManAlloc (mem : nat -> nat -> nat -> Z) (nVars nNodes : nat) (tUnique : Z) : option Kit_DsdMan_t :=
  let nWords := Kit_TruthWordNum nVars in
  dd ← Cloud_Init 16 14 tUnique;
  Some (mkDsdMan nVars (Vec_PtrAllocTruthTables (mem 0) nVars) (Vec_PtrAllocSimInfo (mem 1) nNodes nWords) dd (Vec_PtrAllocSimInfo (mem 2) (2 ^ 12) nWords) (Vec_IntAlloc 512)).

(** * The tables of the nodes *)

Definition dsd_tt_call := Kit_DsdMan_t -> nat -> option Kit_DsdMan_t.

(** The tables of the fanins, in their order. *)
Definition dsd_tt_fanins (rec : dsd_tt_call) (p : Kit_DsdMan_t) (o : Kit_DsdObj_t) : option Kit_DsdMan_t :=
  for_up (nFans o) (fun i p => p ← p; rec p (lit_id (fan o i))) (Some p).

Definition dsd_tt_and (p : Kit_DsdMan_t) (o : Kit_DsdObj_t) (Id N : nat) : option Kit_DsdMan_t :=
  pTruthRes ← vTtNodes p !! Id;
  for_up (nFans o) (fun i p =>
    p ← p;
    pTruthRes ← vTtNodes p !! Id;
    pTruthFan ← vTtNodes p !! lit_id (fan o i);
    Some (set_tt p Id (Kit_TruthAndPhase pTruthRes pTruthRes pTruthFan N false (lit_compl (fan o i)))))
  (Some (set_tt p Id (Kit_TruthFill pTruthRes N))).

Definition dsd_tt_xor (p : Kit_DsdMan_t) (o : Kit_DsdObj_t) (Id N : nat) : option Kit_DsdMan_t :=
  pTruthRes ← vTtNodes p !! Id;
  '(p, fCompl) ← for_up (nFans o) (fun i s =>
    '(p, fCompl) ← s;
    pTruthRes ← vTtNodes p !! Id;
    pTruthFan ← vTtNodes p !! lit_id (fan o i);
    Some (set_tt p Id (Kit_TruthXor pTruthRes pTruthRes pTruthFan N), xorb fCompl (lit_compl (fan o i))))
  (Some (set_tt p Id (Kit_TruthClear pTruthRes N), false));
  pTruthRes ← vTtNodes p !! Id;
  Some (if fCompl : bool then set_tt p Id (Kit_TruthNot pTruthRes pTruthRes N) else p).

(** The tables of the complemented fanins of a prime node are complemented in place. *)
Definition dsd_tt_phases (p : Kit_DsdMan_t) (o : Kit_DsdObj_t) (N : nat) : option Kit_DsdMan_t :=
  for_up (nFans o) (fun i p =>
    p ← p;
    pTruthFan ← vTtNodes p !! lit_id (fan o i);
    Some (if lit_compl (fan o i) then set_tt p (lit_id (fan o i)) (Kit_TruthNot pTruthFan pTruthFan N) else p)) (Some p).

Definition dsd_tt_prime (p : Kit_DsdMan_t) (o : Kit_DsdObj_t) (Id N : nat) : option Kit_DsdMan_t :=
  p ← dsd_tt_phases p o N;
  pTruthFans ← mapM (fun i => vTtNodes p !! lit_id (fan o i)) (seq 0 (nFans o));
  '(pTruthTemp, dd, vTtBdds', vNodes) ← Kit_TruthCompose (dm_dd p) (pTruth o) (nFans o) pTruthFans N (vTtBdds p) (dm_vNodes p);
  pTruthRes ← vTtNodes p !! Id;
  Some (mkDsdMan (dm_nVars p) (vTtElems p) (<[Id := Kit_TruthCopy pTruthRes pTruthTemp N]> (vTtNodes p)) dd vTtBdds' vNodes).

(** The body of the recursion; the table that it returns is the one with the place [Id].  The local array has room for the tables of
    sixteen fanins. *)
Definition dsd_tt_node (rec : dsd_tt_call) (p : Kit_DsdMan_t) (pNtk : Kit_DsdNtk_t) (Id : nat) : option Kit_DsdMan_t :=
  let N := dnVars pNtk in
  pObj ← Kit_DsdNtkObj pNtk Id;
  pTruthRes ← vTtNodes p !! Id;
  match pObj with
  | None => assert! Id <? dnVars pNtk in Some p
  | Some o =>
    if decide (dType o = KIT_DSD_CONST1) then assert! nFans o =? 0 in Some (set_tt p Id (Kit_TruthFill pTruthRes N))
    else if decide (dType o = KIT_DSD_VAR) then
      assert! nFans o =? 1 in
      let iLit := fan o 0 in
      p ← rec p (lit_id iLit);
      pTruthRes ← vTtNodes p !! Id;
      pTruthFan ← vTtNodes p !! lit_id iLit;
      Some (set_tt p Id (if lit_compl iLit then Kit_TruthNot pTruthRes pTruthFan N else Kit_TruthCopy pTruthRes pTruthFan N))
    else
      assert! nFans o <=? 16 in
      p ← dsd_tt_fanins rec p o;
      if decide (dType o = KIT_DSD_AND) then dsd_tt_and p o Id N
      else if decide (dType o = KIT_DSD_XOR) then dsd_tt_xor p o Id N
      else assert! bool_decide (dType o = KIT_DSD_PRIME) in dsd_tt_prime p o Id N
  end.

Fixpoint Kit_DsdTruthComputeNode_rec (fuel : nat) (p : Kit_DsdMan_t) (pNtk : Kit_DsdNtk_t) (Id : nat) : option Kit_DsdMan_t :=
  match fuel with
  | O => None
  | S fuel => dsd_tt_node (fun p Id => Kit_DsdTruthComputeNode_rec fuel p pNtk Id) p pNtk Id
  end.

(** The elementary tables are the first ones. *)
Definition dsd_tt_elems (p : Kit_DsdMan_t) (n : nat) : option Kit_DsdMan_t :=
  for_up n (fun i p =>
    p ← p;
    pTruth ← vTtNodes p !! i;
    pElem ← vTtElems p !! i;
    Some (set_tt p i (Kit_TruthCopy pTruth pElem (dm_nVars p)))) (Some p).

(** A path of a decomposition has at most [nVars + 1] nodes; its last literal takes one more unit. *)
Definition Kit_DsdTruthCompute (p : Kit_DsdMan_t) (pNtk : Kit_DsdNtk_t) : option (list Z * Kit_DsdMan_t) :=
  let N := dnVars pNtk in
  assert! dnVars pNtk <=? dm_nVars p in
  p ← dsd_tt_elems p (dnVars pNtk);
  let Id := lit_id (Root pNtk) in
  p ← Kit_DsdTruthComputeNode_rec (dnVars pNtk + 2) p pNtk Id;
  pTruthRes ← vTtNodes p !! Id;
  let pTruthRes := if lit_compl (Root pNtk) then Kit_TruthNot pTruthRes pTruthRes N else pTruthRes in
  Some (pTruthRes, set_tt p Id pTruthRes).

Definition Kit_DsdNtkObjNum (pNtk : Kit_DsdNtk_t) : nat := dnVars pNtk + length (pNodes pNtk).

Definition Kit_DsdTruth (mem : nat -> nat -> nat -> Z) (pNtk : Kit_DsdNtk_t) (pTruthRes : list Z) (tUnique : Z) : option (list Z) :=
  p ← Kit_DsdManAlloc mem (dnVars pNtk) (Kit_DsdNtkObjNum pNtk) tUnique;
  '(pTruth, _) ← Kit_DsdTruthCompute p pNtk;
  Some (Kit_TruthCopy pTruthRes pTruth (dnVars pNtk)).

(** * Tables of functions *)

Definition shows (N : nat) (t : list Z) (f : nat -> bool) : Prop := Kit_TruthWordNum N <= length t /\ forall m, m < nmint N -> tbit t m = f m.

Lemma shows_ext N t f g : shows N t f -> (forall m, m < nmint N -> f m = g m) -> shows N t g.
Proof. intros [Hl Ht] E. split; [done|]. intros m Hm. by rewrite Ht, E. Qed.
Lemma shows_Fill N t : Kit_TruthWordNum N <= length t -> shows N (Kit_TruthFill t N) (fun _ => true).
Proof. intros Hl. split; [by rewrite length_Fill|]. intros m Hm. by apply tbit_Fill. Qed.
Lemma shows_Clear N t : Kit_TruthWordNum N <= length t -> shows N (Kit_TruthClear t N) (fun _ => false).
Proof. intros Hl. split; [by rewrite length_Clear|]. intros m Hm. by apply tbit_Clear. Qed.
Lemma shows_Not N r t f : Kit_TruthWordNum N <= length r -> shows N t f -> shows N (Kit_TruthNot r t N) (fun m => negb (f m)).
Proof. intros Hl [_ Ht]. split; [by rewrite length_Not|]. intros m Hm. by rewrite tbit_Not, Ht. Qed.
Lemma shows_Copy N r t f : Kit_TruthWordNum N <= length r -> shows N t f -> shows N (Kit_TruthCopy r t N) f.
Proof. intros Hl [_ Ht]. split; [by rewrite length_Copy|]. intros m Hm. by rewrite tbit_Copy, Ht. Qed.
Lemma shows_And N r t f g (c : bool) : shows N r f -> shows N t g -> shows N (Kit_TruthAndPhase r r t N false c) (fun m => f m && xorb (g m) c).
Proof.
  intros [Hl Hr] [_ Ht]. split; [by unfold Kit_TruthAndPhase; destruct c; cbn [andb negb]; rewrite length_down_const|].
  intros m Hm. rewrite tbit_AndPhase, Hr, Ht by done. by rewrite xorb_false_l, (xorb_comm c).
Qed.
Lemma shows_Xor N r t f g : shows N r f -> shows N t g -> shows N (Kit_TruthXor r r t N) (fun m => xorb (f m) (g m)).
Proof. intros [Hl Hr] [_ Ht]. split; [by unfold Kit_TruthXor; rewrite length_down_const|]. intros m Hm. by rewrite tbit_Xor, Hr, Ht. Qed.
Lemma shows_IthVar N t i : Kit_TruthWordNum N <= length t -> shows N (Kit_TruthIthVar t N i) (fun m => Nat.testbit m i).
Proof.
  intros Hl. split; [|intros m Hm; by apply tbit_IthVar]. etransitivity; [exact Hl|]. unfold Kit_TruthIthVar. destruct (i <? 5); rewrite length_for_up_own; try done; [by intros; apply length_wr|].
  intros k q. by destruct (negb _); apply length_wr.
Qed.

(** * The state of the manager *)

(** The manager of the decision diagrams is as [Cloud_Init] makes it, perhaps used before. *)
Record composer (N : nat) (p : Kit_DsdMan_t) : Prop := {
  co_usable : usable (dm_dd p);
  co_nVars : dd_nVars (dm_dd p) = 16;
  co_limit : dd_nNodesLimit (dm_dd p) = 2 ^ 14;
  co_ppNodes : forall pp, dd_ppNodes (dm_dd p) = Some pp -> length pp = dd_nNodesLimit (dm_dd p);
  co_store : store_ok N (2 ^ 12) (vTtBdds p);
  co_nodes : (0 <= nCap (dm_vNodes p) <= ABC_INT_MAX)%Z }.

(** [K] tables of [N] variables. *)
Record man_ok (N K : nat) (p : Kit_DsdMan_t) : Prop := {
  mo_nVars : dm_nVars p = N;
  mo_length : K <= length (vTtNodes p);
  mo_wide : forall i t, vTtNodes p !! i = Some t -> Kit_TruthWordNum N <= length t;
  mo_composer : composer N p }.

Definition sign (p : Kit_DsdMan_t) : Z := dd_nSignCur (dm_dd p).

Lemma set_tt_ok N K p i t : man_ok N K p -> Kit_TruthWordNum N <= length t -> man_ok N K (set_tt p i t).
Proof.
  intros [H1 H2 H3 [C1 C2 C3 C4 C5 C6]] Hl. split; [done|by cbn; rewrite length_insert| |by split].
  intros j u Hu. cbn in Hu. apply list_lookup_insert_Some in Hu as [(-> & <- & _)|[_ Hu]]; [done|by apply (H3 j)].
Qed.
Lemma set_tt_same N K p i t : man_ok N K p -> i < K -> vTtNodes (set_tt p i t) !! i = Some t.
Proof. intros H Hi. apply list_lookup_insert_eq. pose proof (mo_length _ _ _ H). lia. Qed.
Lemma set_tt_other p i j t : j <> i -> vTtNodes (set_tt p i t) !! j = vTtNodes p !! j.
Proof. intros H. by apply list_lookup_insert_ne. Qed.
Lemma man_table N K p i : man_ok N K p -> i < K -> exists t, vTtNodes p !! i = Some t /\ Kit_TruthWordNum N <= length t.
Proof. intros H Hi. destruct (lookup_lt_is_Some_2 (vTtNodes p) i) as [t E]; [pose proof (mo_length _ _ _ H); lia|]. exists t. split; [done|]. by apply (mo_wide _ _ _ H i). Qed.

(** The table at a place. *)
Definition at_shows (N : nat) (p : Kit_DsdMan_t) (i : nat) (f : nat -> bool) : Prop := exists t, vTtNodes p !! i = Some t /\ shows N t f.

Lemma at_shows_ext N p i f g : at_shows N p i f -> (forall m, m < nmint N -> f m = g m) -> at_shows N p i g.
Proof. intros (t & E & H) Hfg. exists t. split; [done|]. by apply (shows_ext N t f). Qed.
Lemma at_shows_same N p p' i f : at_shows N p i f -> vTtNodes p' !! i = vTtNodes p !! i -> at_shows N p' i f.
Proof. intros (t & E & H) Ep. exists t. by rewrite Ep. Qed.
Lemma at_shows_set N K p i t f : man_ok N K p -> i < K -> shows N t f -> at_shows N (set_tt p i t) i f.
Proof. intros H Hi Ht. exists t. split; [by apply (set_tt_same N K)|done]. Qed.

(** Tables of twelve variables have diagrams with fewer nodes than the store has tables. *)
Lemma compose_room n : n <= 12 -> 1 + 16 + 2 ^ (n - 1) <= 2 ^ 12.
Proof.
  intros Hn. pose proof (Nat.pow_le_mono_r 2 (n - 1) 11 ltac:(lia) ltac:(lia)). pose proof (Nat.pow_le_mono_r 2 5 11 ltac:(lia) ltac:(lia)). change (2 ^ 5) with 32 in *.
  replace (2 ^ 12) with (2 ^ 11 + 2 ^ 11) by reflexivity. lia.
Qed.

Lemma mapM_total {A B} (f : A -> option B) (g : A -> B) l : (forall x, In x l -> f x = Some (g x)) -> mapM f l = Some (map g l).
Proof. intros H. apply mapM_Some. induction l as [|x l IH]; cbn; constructor; [apply H; by left|]. apply IH. intros y Hy. apply H. by right. Qed.

(** * One node *)

Section node.
Context (N K Id : nat) (o : Kit_DsdObj_t) (F : nat -> nat -> bool) (p : Kit_DsdMan_t).
Context (Hp : man_ok N K p) (HId : Id < K) (Hn : nFans o <= 16).
Context (Hfan : forall k, k < nFans o -> lit_id (fan o k) < K /\ lit_id (fan o k) <> Id).
Context (Hdis : forall j k, j < nFans o -> k < nFans o -> lit_id (fan o j) = lit_id (fan o k) -> j = k).
Context (Hshow : forall k, k < nFans o -> at_shows N p (lit_id (fan o k)) (fun m => xorb (F m k) (lit_compl (fan o k)))).

(** What a gate does to the manager. *)
Definition gate_done (n : nat) (r : option Kit_DsdMan_t) (f : nat -> bool) : Prop := exists p', r = Some p' /\ man_ok N K p' /\ at_shows N p' Id f /\
  (sign p' <= sign p + Z.of_nat n)%Z /\ forall y, y <> Id -> (forall k, k < nFans o -> y <> lit_id (fan o k)) -> vTtNodes p' !! y = vTtNodes p !! y.

Definition partial (p' : Kit_DsdMan_t) (f : nat -> bool) : Prop := man_ok N K p' /\ at_shows N p' Id f /\ sign p' = sign p /\ forall y, y <> Id -> vTtNodes p' !! y = vTtNodes p !! y.

Lemma partial_done n p' f : partial p' f -> gate_done n (Some p') f.
Proof. intros (H1 & H2 & H3 & H4). exists p'. do 3 (split; [done|]). split; [lia|]. intros y Hy _. by apply H4. Qed.

Lemma partial_set q t f : man_ok N K q -> sign q = sign p -> (forall y, y <> Id -> vTtNodes q !! y = vTtNodes p !! y) -> shows N t f -> partial (set_tt q Id t) f.
Proof.
  intros Hq Hs Hy Ht. split; [apply set_tt_ok; [done|apply Ht]|]. split; [by apply (at_shows_set N K)|]. split; [done|]. intros y Hne. rewrite set_tt_other by done. by apply Hy.
Qed.

Lemma partial_start t f : shows N t f -> partial (set_tt p Id t) f.
Proof. by apply partial_set. Qed.

(** A turn of the loop of a simple gate. *)
Lemma partial_turn p' f k : partial p' f -> k < nFans o -> exists r t, vTtNodes p' !! Id = Some r /\ vTtNodes p' !! lit_id (fan o k) = Some t /\ shows N r f /\
  shows N t (fun m => xorb (F m k) (lit_compl (fan o k))) /\ forall r' g, shows N r' g -> partial (set_tt p' Id r') g.
Proof.
  intros (H1 & (r & Er & Hr) & H3 & H4) Hk. destruct (Hshow k Hk) as (t & Et & Ht). exists r, t. split; [done|]. split; [by rewrite H4 by (by apply Hfan)|].
  do 2 (split; [done|]). intros r' g Hr'. by apply partial_set.
Qed.

Lemma tt_and_spec : gate_done 0 (dsd_tt_and p o Id N) (fun m => forallb (F m) (seq 0 (nFans o))).
Proof.
  unfold dsd_tt_and. destruct (man_table N K p Id Hp HId) as (t & -> & Ht). cbn [mbind option_bind].
  enough (exists p', for_up (nFans o) (fun i p => p ← p; pTruthRes ← vTtNodes p !! Id; pTruthFan ← vTtNodes p !! lit_id (fan o i);
    Some (set_tt p Id (Kit_TruthAndPhase pTruthRes pTruthRes pTruthFan N false (lit_compl (fan o i))))) (Some (set_tt p Id (Kit_TruthFill t N))) = Some p' /\
    partial p' (fun m => forallb (F m) (seq 0 (nFans o)))) as (p' & E & H) by (rewrite E; by apply partial_done).
  apply (for_up_ind (fun k r => exists p', r = Some p' /\ partial p' (fun m => forallb (F m) (seq 0 k)))).
  - eexists. split; [done|]. by apply partial_start, shows_Fill.
  - intros k r Hk (p' & -> & H). destruct (partial_turn _ _ k H Hk) as (r & u & Er & Eu & Hr & Hu & Hset). cbn [mbind option_bind]. rewrite Er. cbn [mbind option_bind]. rewrite Eu. cbn [mbind option_bind].
    eexists. split; [done|]. apply Hset. eapply shows_ext; [by apply (shows_And N r u _ _ (lit_compl (fan o k)) Hr Hu)|]. intros m Hm. cbn beta.
    by rewrite seq_S, forallb_app, xorb_assoc, xorb_nilpotent, xorb_false_r; cbn; rewrite andb_true_r.
Qed.

Lemma foldr_xorb_app l1 l2 : foldr xorb false (l1 ++ l2) = xorb (foldr xorb false l1) (foldr xorb false l2).
Proof. induction l1 as [|b l1 IH]; [by destruct (foldr _ _ _)|]. cbn. by rewrite IH, xorb_assoc. Qed.

Lemma tt_xor_spec : gate_done 0 (dsd_tt_xor p o Id N) (fun m => foldr xorb false (map (F m) (seq 0 (nFans o)))).
Proof.
  unfold dsd_tt_xor. destruct (man_table N K p Id Hp HId) as (t & -> & Ht). cbn [mbind option_bind].
  enough (exists p' c, for_up (nFans o) (fun i s => '(p, fCompl) ← s; pTruthRes ← vTtNodes p !! Id; pTruthFan ← vTtNodes p !! lit_id (fan o i);
    Some (set_tt p Id (Kit_TruthXor pTruthRes pTruthRes pTruthFan N), xorb fCompl (lit_compl (fan o i)))) (Some (set_tt p Id (Kit_TruthClear t N), false)) = Some (p', c) /\
    partial p' (fun m => xorb (foldr xorb false (map (F m) (seq 0 (nFans o)))) c)) as (p' & c & -> & H).
  { cbn [mbind option_bind]. pose proof H as (H1 & (r & Er & Hr) & H3 & H4). rewrite Er. cbn [mbind option_bind]. apply partial_done. destruct c.
    - apply partial_set; [done..|]. eapply shows_ext; [apply shows_Not; [apply Hr|exact Hr]|]. intros m Hm. cbn beta. by rewrite xorb_true_r, negb_involutive.
    - split; [done|]. split; [|done]. exists r. split; [done|]. eapply shows_ext; [exact Hr|]. intros m Hm. cbn beta. by rewrite xorb_false_r. }
  apply (for_up_ind (fun k s => exists p' c, s = Some (p', c) /\ partial p' (fun m => xorb (foldr xorb false (map (F m) (seq 0 k))) c))).
  - eexists _, _. split; [done|]. apply partial_start. eapply shows_ext; [by apply shows_Clear|done].
  - intros k s Hk (p' & c & -> & H). destruct (partial_turn _ _ k H Hk) as (r & u & Er & Eu & Hr & Hu & Hset). cbn [mbind option_bind]. rewrite Er. cbn [mbind option_bind]. rewrite Eu. cbn [mbind option_bind].
    eexists _, _. split; [done|]. apply Hset. eapply shows_ext; [by apply (shows_Xor N r u _ _ Hr Hu)|]. intros m Hm. cbn beta.
    rewrite seq_S, map_app, foldr_xorb_app. cbn. rewrite xorb_false_r, !xorb_assoc. f_equal. by rewrite <- !xorb_assoc, (xorb_comm c).
Qed.

(** The complemented fanins of a prime node. *)
Lemma tt_phases_spec : exists p', dsd_tt_phases p o N = Some p' /\ man_ok N K p' /\ dm_dd p' = dm_dd p /\ vTtBdds p' = vTtBdds p /\ dm_vNodes p' = dm_vNodes p /\
  (forall k, k < nFans o -> at_shows N p' (lit_id (fan o k)) (fun m => F m k)) /\ forall y, (forall k, k < nFans o -> y <> lit_id (fan o k)) -> vTtNodes p' !! y = vTtNodes p !! y.
Proof.
  unfold dsd_tt_phases. set (body := fun i r => _).
  assert (exists p', for_up (nFans o) body (Some p) = Some p' /\ man_ok N K p' /\ (dm_dd p' = dm_dd p /\ vTtBdds p' = vTtBdds p /\ dm_vNodes p' = dm_vNodes p) /\
    (forall j, j < nFans o -> at_shows N p' (lit_id (fan o j)) (fun m => F m j)) /\ forall y, (forall j, j < nFans o -> y <> lit_id (fan o j)) -> vTtNodes p' !! y = vTtNodes p !! y) as (p' & E & H1 & (H2 & H3 & H4) & H5 & H6).
  2: { exists p'. repeat (split; [done|]). done. }
  apply (for_up_ind (fun k r => exists p', r = Some p' /\ man_ok N K p' /\ (dm_dd p' = dm_dd p /\ vTtBdds p' = vTtBdds p /\ dm_vNodes p' = dm_vNodes p) /\
    (forall j, j < k -> at_shows N p' (lit_id (fan o j)) (fun m => F m j)) /\ forall y, (forall j, j < k -> y <> lit_id (fan o j)) -> vTtNodes p' !! y = vTtNodes p !! y)).
  - exists p. repeat (split; [done|]). split; [lia|done].
  - intros k r Hk (p' & -> & H1 & H2 & H3 & H4). destruct (Hfan k Hk) as [HK _].
    assert (vTtNodes p' !! lit_id (fan o k) = vTtNodes p !! lit_id (fan o k)) as Ek by (apply H4; intros j Hj E; specialize (Hdis k j Hk ltac:(lia) E); lia).
    destruct (Hshow k Hk) as (t & Et & Ht). unfold body. cbn [mbind option_bind]. rewrite Ek, Et. cbn [mbind option_bind]. eexists. split; [done|]. destruct (lit_compl (fan o k)).
    + split; [apply set_tt_ok; [done|rewrite length_Not; apply Ht]|]. split; [done|]. split.
      * intros j Hj. destruct (Nat.eq_dec j k) as [->|Hjk].
        -- apply (at_shows_set N K); [done|done|]. eapply shows_ext; [apply shows_Not; [apply Ht|exact Ht]|]. intros m Hm. cbn beta. by rewrite xorb_true_r, negb_involutive.
        -- eapply at_shows_same; [apply H3; lia|]. apply set_tt_other. intros E. apply Hjk. apply Hdis; [lia|done|done].
      * intros y Hy. rewrite set_tt_other by (apply Hy; lia). apply H4. intros j Hj. apply Hy. lia.
    + split; [done|]. split; [done|]. split.
      * intros j Hj. destruct (Nat.eq_dec j k) as [->|Hjk]; [|apply H3; lia]. exists t. split; [congruence|]. eapply shows_ext; [exact Ht|]. intros m Hm. cbn beta. by rewrite xorb_false_r.
      * intros y Hy. apply H4. intros j Hj. apply Hy. lia.
Qed.

Lemma good_not_constant : good_node o -> dType o = KIT_DSD_PRIME -> constant_table (pTruth o) (nFans o) = false.
Proof.
  intros (_ & _ & Hg) Ety. destruct (Hg Ety) as (Hpos & Hprop & Hv). apply orb_false_iff. split; apply not_true_iff_false; intros E; apply (Hv 0 Hpos).
  - apply (vac_const _ _ false). intros m. by apply tfun_const0; [apply Hprop|].
  - apply (vac_const _ _ true). intros m. by apply tfun_const1; [apply Hprop|].
Qed.

Lemma fits_table q : man_ok N K q -> (sign q < 2 ^ 32 - 1)%Z -> good_node o -> dType o = KIT_DSD_PRIME -> nFans o <= 12 -> table_fits (dm_dd q) (nFans o) (pTruth o).
Proof.
  intros [_ _ _ [C1 C2 C3 C4 C5 C6]] Hs (_ & _ & Hg) Ety H12. destruct (Hg Ety) as (Hpos & [Ht Hd] & _).
  pose proof (compose_room (nFans o) H12) as Hr. pose proof (Nat.pow_le_mono_r 2 12 14 ltac:(lia) ltac:(lia)) as Hpow.
  split; try done; [lia|lia|rewrite C2, C3; lia|rewrite C2; change (2 ^ 12)%Z with (Z.of_nat (2 ^ 12)); lia].
Qed.

Lemma tt_prime_spec : (sign p < 2 ^ 32 - 1)%Z -> good_node o -> dType o = KIT_DSD_PRIME -> nFans o <= 12 ->
  gate_done 1 (dsd_tt_prime p o Id N) (fun m => app (nFans o) (tfun (nFans o) (pTruth o)) (F m)).
Proof.
  intros Hs Hg Ety H12. destruct tt_phases_spec as (p1 & E1 & H1 & Hdd & Hbdds & Hnodes & Hsh & Hy). unfold dsd_tt_prime. rewrite E1. cbn [mbind option_bind].
  assert (exists us, mapM (fun i => vTtNodes p1 !! lit_id (fan o i)) (seq 0 (nFans o)) = Some us /\ length us = nFans o /\
    forall x, x < nFans o -> exists u, us !! x = Some u /\ shows N u (fun m => F m x)) as (us & -> & Hlen & Hus).
  { exists (map (fun i => default [] (vTtNodes p1 !! lit_id (fan o i))) (seq 0 (nFans o))). split; [|split; [by rewrite length_map, length_seq|]].
    - apply mapM_total. intros i Hi%in_seq. destruct (Hsh i ltac:(lia)) as (u & -> & _). done.
    - intros x Hx. destruct (Hsh x Hx) as (u & Eu & Hu). exists u. split; [|done]. change (map ?f ?l) with (f <$> l). rewrite list_lookup_fmap, (lookup_seq_lt 0) by done. cbn. by rewrite Eu. }
  cbn [mbind option_bind]. assert (table_fits (dm_dd p1) (nFans o) (pTruth o)) as Hfits by (apply fits_table; [done|unfold sign; by rewrite Hdd|done..]).
  pose proof (mo_composer _ _ _ H1) as [C1 C2 C3 C4 C5 C6].
  pose proof (compose_spec (dm_dd p1) (nFans o) (pTruth o) us N (vTtBdds p1) (dm_vNodes p1) Hfits ltac:(lia) C6) as Hc. rewrite (good_not_constant Hg Ety) in Hc.
  destruct Hc as (r & d & s & v & -> & Hw & Hl & Hr & (R1 & R2 & R3 & R4) & Hlr & Hv & Hst).
  { destruct C5 as [C5 C5']. split; [|done]. rewrite C2. pose proof (compose_room (nFans o) H12). lia. }
  cbn [mbind option_bind]. destruct (man_table N K p1 Id H1 HId) as (t & Et & Ht). rewrite Et. cbn [mbind option_bind].
  assert (shows N (Kit_TruthCopy t r N) (fun m => app (nFans o) (tfun (nFans o) (pTruth o)) (F m))) as Hres.
  { apply shows_Copy; [done|]. split; [done|]. intros m Hm. unfold app, tfun. apply Hr; [done|apply Nat.mod_upper_bound; unfold nmint; apply Nat.pow_nonzero; lia|].
    intros x Hx. rewrite mod_nmint_bit, mint_bit by lia. destruct (Hus x Hx) as (u & -> & Hu). cbn. symmetry. by apply Hu. }
  eexists. split; [done|]. split; [|split; [|split]].
  - destruct H1 as [M1 M2 M3 _]. split; [done|cbn; by rewrite length_insert| |split; cbn [dm_dd vTtBdds dm_vNodes]; [apply Hw|congruence|congruence|exact R4| |done]].
    + intros i u Hu. cbn in Hu. apply list_lookup_insert_Some in Hu as [(-> & <- & _)|[_ Hu]]; [apply Hres|by apply (M3 i)].
    + destruct C5 as [C5 _], Hst as [_ Hst]. split; [by rewrite Hl|done].
  - eexists. split; [cbn; apply list_lookup_insert_eq; by apply lookup_lt_Some in Et|done].
  - unfold sign. cbn. rewrite R3, Hdd. lia.
  - intros y Hne Hyf. cbn. rewrite list_lookup_insert_ne by done. by apply Hy.
Qed.
End node.

(** * Trees *)

(** The nodes below the root of a decomposition, whatever the number of fanins of a gate. *)
Definition inner (o : Kit_DsdObj_t) : Prop := (dType o = KIT_DSD_AND \/ dType o = KIT_DSD_XOR \/ dType o = KIT_DSD_PRIME) /\ 2 <= nFans o.

Lemma binary_inner o : binary o -> inner o.
Proof. intros [[[E|E] En]|[E En]]; (split; [auto|lia]). Qed.

Lemma tree_kinds Q Q' nodes nV S l : (forall o, Q o -> Q' o) -> tree_of Q nodes nV S l -> tree_of Q' nodes nV S l.
Proof. intros HQ H. induction H as [S x c Hx HSx|S i o c T Eo HQo HSi HT IH Hin Hd]; [by constructor|]. by apply (tree_node _ _ S i o c T); auto. Qed.

(** There is a variable below every literal, and another one below every other fanin. *)
Lemma tree_leaf nodes nV S l : tree_of inner nodes nV S l -> exists x, x < nV /\ S x.
Proof.
  intros H. induction H as [S x c Hx HSx|S i o c T Eo HQo HSi HT IH Hin Hd]; [by exists x|]. destruct HQo as [_ H2]. destruct (IH 0 ltac:(lia)) as (x & Hx & Hs). exists x. split; [done|].
  by apply (Hin 0 x ltac:(lia)).
Qed.

Lemma disjoint_choice (T : nat -> nat -> Prop) n nV : (forall k, k < n -> exists x, x < nV /\ T k x) -> (forall j k y, j < n -> k < n -> j <> k -> T j y -> T k y -> False) -> n <= nV.
Proof.
  intros H Hd. assert (exists xs, length xs = n /\ NoDup xs /\ forall x, x ∈ xs -> x < nV /\ exists k, k < n /\ T k x) as (xs & <- & Hnd & Hx).
  { assert (forall j, j <= n -> exists xs, length xs = j /\ NoDup xs /\ forall x, x ∈ xs -> x < nV /\ exists k, k < j /\ T k x) as Hj; [|by apply Hj].
    induction j as [|j IH]; intros Hj; [exists []; split; [done|split; [constructor|by intros x ?%elem_of_nil]]|]. destruct (IH ltac:(lia)) as (xs & El & Hnd & Hx). destruct (H j ltac:(lia)) as (y & Hy & HT).
    exists (y :: xs). split; [cbn; lia|]. split.
    - constructor; [|done]. intros Hin. destruct (Hx y Hin) as (_ & k & Hk & HTk). by apply (Hd j k y ltac:(lia) ltac:(lia) ltac:(lia)).
    - intros x [->|Hin]%elem_of_cons; [split; [done|exists j; split; [lia|done]]|]. destruct (Hx x Hin) as (? & k & ? & ?). split; [done|]. exists k. split; [lia|done]. }
  rewrite <- (length_seq nV 0). apply NoDup_incl_length; [by apply NoDup_ListNoDup|]. intros x Hin. apply list_elem_of_In in Hin. destruct (Hx x Hin) as [L _]. apply in_seq. lia.
Qed.

Lemma tree_top {Q} nodes nV S l : tree_of Q nodes nV S l -> S (lit_id l) /\ lit_id l < nV + length nodes.
Proof. intros H. destruct H as [S x c Hx HSx|S i o c T Eo HQo HSi HT Hin Hd]; rewrite lit_id_lit; [split; [done|lia]|]. apply lookup_lt_Some in Eo. split; [done|lia]. Qed.

(** The values of the fanins. *)
Definition fan_value (d : nat) (nodes : list Kit_DsdObj_t) (nV : nat) (o : Kit_DsdObj_t) (a : nat -> bool) (k : nat) : bool := default false (dsd_eval d nodes nV a (fan o k)).

Lemma den_fans nodes nV a P d i o c w : den nodes nV a P (S d) (lit (nV + i) c) w -> nodes !! i = Some o -> good_node o /\
  (forall k, k < nFans o -> den nodes nV a P d (fan o k) (fan_value d nodes nV o a k)) /\ node_value o (fan_value d nodes nV o a) = Some (xorb w c).
Proof.
  intros H Eo. inversion H as [d0 x b Hx E1 El|d0 i0 o0 b B v Hi Ei Hg HB Hv E1 El]; subst.
  - apply (f_equal lit_id) in El. rewrite !lit_id_lit in El. lia.
  - pose proof (f_equal lit_id El) as E2. pose proof (f_equal lit_compl El) as E3. rewrite !lit_id_lit in E2. rewrite !lit_compl_lit in E3. assert (i0 = i) as -> by lia. subst b.
    rewrite Eo in Ei. injection Ei as <-. split; [done|].
    assert (forall k, k < nFans o -> fan_value d nodes nV o a k = B k) as EB by (intros k Hk; unfold fan_value; by rewrite (den_eval _ _ _ _ _ _ _ (HB k Hk))).
    split; [intros k Hk; rewrite EB by done; by apply HB|]. rewrite (node_value_ext o _ B EB Hg), Hv, xorb_assoc, xorb_nilpotent. by rewrite xorb_false_r.
Qed.

(** The value of a network whose only node is a constant or a variable. *)
Lemma one_value nV P a o c w : den [o] nV a P (nV + 1) (lit nV c) w -> (dType o = KIT_DSD_CONST1 -> xorb w c = true) /\
  (dType o = KIT_DSD_VAR -> nFans o = 1 -> forall x b, x < nV -> fan o 0 = lit x b -> xorb w c = xorb (a x) b).
Proof.
  intros Hden. rewrite Nat.add_1_r in Hden. destruct (den_fans [o] nV a P nV 0 o c w) as (_ & Hfan & Hv); [by rewrite Nat.add_0_r|done|]. unfold node_value in Hv.
  split; [intros Ety; rewrite Ety in Hv; by injection Hv|]. intros Ety En1 x b Hx Ef. rewrite Ety, En1 in Hv. injection Hv as <-.
  pose proof (den_eval _ _ _ _ _ _ _ (Hfan 0 ltac:(lia))) as E. rewrite Ef in E. assert (dsd_eval nV [o] nV a (lit x b) = Some (xorb (a x) b)) as E2; [|congruence].
  destruct nV; [lia|]. cbn [dsd_eval]. by rewrite lit_id_lit, lit_compl_lit, (proj2 (Nat.ltb_lt _ _) Hx).
Qed.

Section rec.
Context (pNtk : Kit_DsdNtk_t) (P : nat -> Prop) (H12 : dnVars pNtk <= 12).
Local Notation nV := (dnVars pNtk).
Local Notation nodes := (pNodes pNtk).
Local Notation K := (dnVars pNtk + length (pNodes pNtk)).

(** The names that a call may use, and what it does. *)
Definition budget (p : Kit_DsdMan_t) (S : nat -> Prop) : Prop := forall L, NoDup L -> (forall y, y ∈ L -> S y /\ y < K) -> (sign p + Z.of_nat (length L) < 2 ^ 32)%Z.
Definition spent (p p' : Kit_DsdMan_t) (S : nat -> Prop) : Prop := exists L, NoDup L /\ (forall y, y ∈ L -> S y /\ y < K) /\ (sign p' <= sign p + Z.of_nat (length L))%Z.
Definition elems (p : Kit_DsdMan_t) (S : nat -> Prop) : Prop := forall x, x < nV -> S x -> at_shows nV p x (fun m => Nat.testbit m x).

Definition tt_works (rec : dsd_tt_call) (d : nat) : Prop := forall p S l v, tree_of inner nodes nV S l -> man_ok nV K p -> elems p S -> budget p S ->
  (forall m, den nodes nV (Nat.testbit m) P d l (v m)) -> exists p', rec p (lit_id l) = Some p' /\ man_ok nV K p' /\
    at_shows nV p' (lit_id l) (fun m => xorb (v m) (lit_compl l)) /\ spent p p' S /\ forall y, ~ S y -> vTtNodes p' !! y = vTtNodes p !! y.

Lemma spent_refl p S : spent p p S.
Proof. exists []. split; [constructor|]. split; [by intros y ?%elem_of_nil|]. cbn. lia. Qed.

Lemma spent_trans p p1 p2 (S S1 S2 : nat -> Prop) : spent p p1 S1 -> spent p1 p2 S2 -> (forall y, S1 y -> S2 y -> False) -> (forall y, S1 y \/ S2 y -> S y) -> spent p p2 S.
Proof.
  intros (L1 & N1 & H1 & B1) (L2 & N2 & H2 & B2) Hd HS. exists (L1 ++ L2). split; [|split].
  - apply list.NoDup_app. split; [done|]. split; [|done]. intros y Hy Hy2. apply (Hd y); [by apply H1|by apply H2].
  - intros y [Hy|Hy]%elem_of_app; [destruct (H1 y Hy)|destruct (H2 y Hy)]; auto.
  - rewrite length_app. lia.
Qed.

Lemma budget_spent p p1 (S S1 S2 : nat -> Prop) : budget p S -> spent p p1 S1 -> (forall y, S1 y -> S2 y -> False) -> (forall y, S1 y \/ S2 y -> S y) -> budget p1 S2.
Proof.
  intros HB (L1 & N1 & H1 & B1) Hd HS L2 N2 H2. assert (sign p + Z.of_nat (length (L1 ++ L2)) < 2 ^ 32)%Z as HL; [|rewrite length_app in HL; lia]. apply HB.
  - apply list.NoDup_app. split; [done|]. split; [|done]. intros y Hy Hy2. apply (Hd y); [by apply H1|by apply H2].
  - intros y [Hy|Hy]%elem_of_app; [destruct (H1 y Hy)|destruct (H2 y Hy)]; auto.
Qed.

(** The tables of the fanins. *)
Lemma tt_fanins_spec rec d p S o (T : nat -> nat -> Prop) (F : nat -> nat -> bool) : tt_works rec d -> man_ok nV K p -> elems p S -> budget p S ->
  (forall k, k < nFans o -> tree_of inner nodes nV (T k) (fan o k)) -> (forall k y, k < nFans o -> T k y -> S y) ->
  (forall k k' y, k < nFans o -> k' < nFans o -> k <> k' -> T k y -> T k' y -> False) -> (forall m k, k < nFans o -> den nodes nV (Nat.testbit m) P d (fan o k) (F m k)) ->
  exists p', dsd_tt_fanins rec p o = Some p' /\ man_ok nV K p' /\ (forall k, k < nFans o -> at_shows nV p' (lit_id (fan o k)) (fun m => xorb (F m k) (lit_compl (fan o k)))) /\
    spent p p' (fun y => exists k, k < nFans o /\ T k y) /\ forall y, (forall k, k < nFans o -> ~ T k y) -> vTtNodes p' !! y = vTtNodes p !! y.
Proof.
  intros W Hp He HB HT HTS Hdis Hden. unfold dsd_tt_fanins.
  apply (for_up_ind (fun n r => exists p', r = Some p' /\ man_ok nV K p' /\ (forall k, k < n -> at_shows nV p' (lit_id (fan o k)) (fun m => xorb (F m k) (lit_compl (fan o k)))) /\
    spent p p' (fun y => exists k, k < n /\ T k y) /\ forall y, (forall k, k < n -> ~ T k y) -> vTtNodes p' !! y = vTtNodes p !! y)).
  - exists p. do 2 (split; [done|]). split; [lia|]. split; [apply spent_refl|done].
  - intros n r Hn (p1 & -> & H1 & H2 & H3 & H4). cbn [mbind option_bind].
    assert (forall y k, k < n -> T k y -> T n y -> False) as Hother by (intros y k Hk; apply Hdis; lia).
    destruct (W p1 (T n) (fan o n) (fun m => F m n)) as (p2 & -> & G1 & G2 & G3 & G4); [by apply HT|done| | |intros m; by apply Hden|].
    + intros x Hx Hxn. eapply at_shows_same; [by apply He; [|apply (HTS n)]|]. apply H4. intros k Hk Hxk. by apply (Hother x k).
    + apply (budget_spent p _ S _ _ HB H3); [intros y (k & Hk & Hy); by apply Hother with k|]. intros y [(k & Hk & Hy)|Hy]; [apply (HTS k); [lia|done]|by apply (HTS n)].
    + exists p2. do 2 (split; [done|]). split; [|split].
      * intros k Hk. destruct (Nat.eq_dec k n) as [->|Hkn]; [done|]. eapply at_shows_same; [apply H2; lia|]. apply G4. intros Hk'. apply (Hother (lit_id (fan o k)) k); [lia| |done]. apply (@tree_top inner nodes nV (T k)). apply HT. lia.
      * apply (spent_trans p p1 p2 _ _ _ H3 G3); [intros y (k & Hk & Hy); by apply Hother with k|]. intros y [(k & Hk & Hy)|Hy]; [exists k; split; [lia|done]|exists n; split; [lia|done]].
      * intros y Hy. rewrite G4 by (apply Hy; lia). apply H4. intros k Hk. apply Hy. lia.
Qed.

Lemma tt_leaf_spec rec d p (S : nat -> Prop) x c v : man_ok nV K p -> elems p S -> x < nV -> S x -> (forall m, den nodes nV (Nat.testbit m) P d (lit x c) (v m)) ->
  exists p', dsd_tt_node rec p pNtk (lit_id (lit x c)) = Some p' /\ man_ok nV K p' /\ at_shows nV p' (lit_id (lit x c)) (fun m => xorb (v m) (lit_compl (lit x c))) /\
    spent p p' S /\ forall y, ~ S y -> vTtNodes p' !! y = vTtNodes p !! y.
Proof.
  intros Hp He Hx HSx Hden. rewrite lit_id_lit, lit_compl_lit. unfold dsd_tt_node, Kit_DsdNtkObj. rewrite (proj2 (Nat.ltb_lt x K)), (proj2 (Nat.ltb_lt _ _) Hx) by lia. cbn [mbind option_bind].
  destruct (He x Hx HSx) as (t & Et & Hsh). rewrite Et. cbn [mbind option_bind]. exists p. do 2 (split; [done|]). split; [|split; [apply spent_refl|done]].
  exists t. split; [done|]. eapply shows_ext; [exact Hsh|]. intros m _. cbn beta. pose proof (den_eval _ _ _ _ _ _ _ (Hden m)) as E.
  assert (dsd_eval d nodes nV (Nat.testbit m) (lit x c) = Some (xorb (Nat.testbit m x) c)) as E2 by (destruct d; cbn [dsd_eval]; by rewrite lit_id_lit, lit_compl_lit, (proj2 (Nat.ltb_lt _ _) Hx)).
  rewrite E2 in E. injection E as <-. by rewrite xorb_assoc, xorb_nilpotent, xorb_false_r.
Qed.

Lemma tt_node_spec rec d : tt_works rec d -> tt_works (fun p Id => dsd_tt_node rec p pNtk Id) (S d).
Proof.
  intros W p S l v Ht Hp He HB Hden. destruct Ht as [S x c Hx HSx|S i o c T Eo HQ HSi HT Hin Hdis]; [by apply (tt_leaf_spec rec (Datatypes.S d))|].
  rewrite lit_id_lit, lit_compl_lit. pose proof (lookup_lt_Some _ _ _ Eo) as Hi. unfold dsd_tt_node, Kit_DsdNtkObj. rewrite (proj2 (Nat.ltb_lt (nV + i) K)), (proj2 (Nat.ltb_ge (nV + i) nV)) by lia.
    replace (nV + i - nV) with i by lia. rewrite Eo. cbn [mbind option_bind]. destruct (man_table nV K p (nV + i) Hp ltac:(lia)) as (t & -> & _). cbn [mbind option_bind].
    set (F := fun m => fan_value d nodes nV o (Nat.testbit m)).
    assert (forall m, good_node o /\ (forall k, k < nFans o -> den nodes nV (Nat.testbit m) P d (fan o k) (F m k)) /\ node_value o (F m) = Some (xorb (v m) c)) as HF by (intros m; by apply (den_fans nodes nV (Nat.testbit m) P d i o c)).
    destruct (HF 0) as (Hg & _ & _). pose proof Hg as (Hlf & H16 & _). destruct HQ as [Hty H2].
    rewrite !decide_False by (destruct Hty as [->|[->| ->]]; done). rewrite (proj2 (Nat.leb_le _ _) H16).
    assert (forall k, k < nFans o -> T k (lit_id (fan o k)) /\ lit_id (fan o k) < K) as Htop by (intros k Hk; by apply (@tree_top inner nodes nV (T k)), HT).
    destruct (tt_fanins_spec rec d p S o T F W Hp He HB HT) as (p1 & -> & M1 & Hsh & Hsp & Hsame); [intros; by eapply Hin|done|intros m k Hk; by apply HF|].
    cbn [mbind option_bind].
    assert (forall n r f, gate_done nV K (nV + i) o p1 n r f -> n <= 1 -> (forall m, f m = xorb (v m) c) -> exists p', r = Some p' /\ man_ok nV K p' /\
      at_shows nV p' (nV + i) (fun m => xorb (v m) c) /\ spent p p' S /\ forall y, ~ S y -> vTtNodes p' !! y = vTtNodes p !! y) as Hdone.
    { intros n r f (p2 & -> & G1 & G2 & G3 & G4) Hn Hf. exists p2. do 2 (split; [done|]). split; [|split].
      - eapply at_shows_ext; [exact G2|by intros m _].
      - apply (spent_trans p p1 p2 S _ (fun y => y = nV + i) Hsp); [exists [nV + i]; split; [apply NoDup_singleton|]; split; [intros y ->%list_elem_of_singleton; split; [done|lia]|cbn; lia]| |].
        + intros y (k & Hk & Hy) ->. by destruct (Hin k _ Hk Hy).
        + intros y [(k & Hk & Hy)| ->]; [by apply (Hin k)|done].
      - intros y Hy. rewrite G4; [|by intros ->|]; [apply Hsame; intros k Hk Hy'; by apply Hy, (Hin k)|]. intros k Hk ->. apply Hy. apply (Hin k); [done|]. by apply Htop. }
    assert (forall k, k < nFans o -> lit_id (fan o k) < K /\ lit_id (fan o k) <> nV + i) as Hfan by (intros k Hk; destruct (Htop k Hk); split; [done|by apply (Hin k)]).
    assert (forall j k, j < nFans o -> k < nFans o -> lit_id (fan o j) = lit_id (fan o k) -> j = k) as Hinj.
    { intros j k Hj Hk E. destruct (Nat.eq_dec j k) as [->|Hne]; [done|]. exfalso. apply (Hdis j k (lit_id (fan o j)) Hj Hk Hne); [by apply Htop|rewrite E; by apply Htop]. }
    assert (forall f, (forall m, node_value o (F m) = Some (f m)) -> forall m, f m = xorb (v m) c) as Hval by (intros f Hf m; destruct (HF m) as (_ & _ & E); rewrite Hf in E; congruence).
    destruct (decide (dType o = KIT_DSD_AND)) as [E|E]; [|destruct (decide (dType o = KIT_DSD_XOR)) as [E'|E']].
    + eapply (Hdone 0); [apply (tt_and_spec nV K (nV + i) o F p1); done || lia|lia|]. apply Hval. intros m. unfold node_value. by rewrite E.
    + eapply (Hdone 0); [apply (tt_xor_spec nV K (nV + i) o F p1); done || lia|lia|]. apply Hval. intros m. unfold node_value. by rewrite E'.
    + assert (dType o = KIT_DSD_PRIME) as Ety by (destruct Hty as [?|[?|?]]; congruence). rewrite (bool_decide_eq_true_2 _ Ety).
      eapply (Hdone 1); [apply (tt_prime_spec nV K (nV + i) o F p1); try done; [lia| |]|lia|].
      * assert (budget p1 (fun y => y = nV + i)) as HB1; [|pose proof (HB1 [nV + i] ltac:(apply NoDup_singleton) ltac:(intros y ->%list_elem_of_singleton; split; [done|lia])) as B1; cbn in B1; lia].
        apply (budget_spent p p1 S _ _ HB Hsp); [intros y (k & Hk & Hy) ->; by destruct (Hin k _ Hk Hy)|intros y [(k & Hk & Hy)| ->]; [by apply (Hin k)|done]].
      * etransitivity; [|exact H12]. apply (disjoint_choice T); [|done]. intros k Hk. by apply (tree_leaf nodes nV (T k) (fan o k)), HT.
      * apply Hval. intros m. unfold node_value. by rewrite Ety.
Qed.

Lemma tt_rec_works fuel d : d < fuel -> tt_works (fun p Id => Kit_DsdTruthComputeNode_rec fuel p pNtk Id) d.
Proof.
  revert d. induction fuel as [|fuel IH]; intros d Hd; [lia|]. destruct d as [|d]; [|apply tt_node_spec, IH; lia].
  intros p S l v Ht Hp He HB Hden. destruct Ht as [S x c Hx HSx|S i o c T Eo HQ HSi HT Hin Hdis]; [by apply (tt_leaf_spec _ 0)|].
  exfalso. pose proof (den_eval _ _ _ _ _ _ _ (Hden 0)) as E. cbn [dsd_eval] in E. rewrite lit_id_lit, (proj2 (Nat.ltb_ge _ _)) in E by lia. done.
Qed.
End rec.

(** * Networks *)

Definition elem_tables (N : nat) (p : Kit_DsdMan_t) : Prop := forall i, i < N -> exists t, vTtElems p !! i = Some t /\ shows N t (fun m => Nat.testbit m i).

Lemma tt_elems_spec N K p : man_ok N K p -> elem_tables N p -> N <= K -> exists p', dsd_tt_elems p N = Some p' /\ man_ok N K p' /\
  (forall x, x < N -> at_shows N p' x (fun m => Nat.testbit m x)) /\ sign p' = sign p /\ vTtElems p' = vTtElems p.
Proof.
  intros Hp He HK. unfold dsd_tt_elems.
  apply (for_up_ind (fun k r => exists p', r = Some p' /\ man_ok N K p' /\ (forall x, x < k -> at_shows N p' x (fun m => Nat.testbit m x)) /\ sign p' = sign p /\ vTtElems p' = vTtElems p)).
  - exists p. do 2 (split; [done|]). split; [lia|done].
  - intros k r Hk (p1 & -> & H1 & H2 & H3 & H4). cbn [mbind option_bind]. destruct (man_table N K p1 k H1 ltac:(lia)) as (t & -> & Ht). cbn [mbind option_bind].
    rewrite H4. destruct (He k Hk) as (u & -> & Hu). cbn [mbind option_bind]. rewrite (mo_nVars _ _ _ H1). eexists. split; [done|].
    assert (shows N (Kit_TruthCopy t u N) (fun m => Nat.testbit m k)) as Hs by (by apply shows_Copy). split; [apply set_tt_ok; [done|apply Hs]|]. split; [|done].
    intros x Hx. destruct (Nat.eq_dec x k) as [->|Hne]; [apply (at_shows_set N K); [done|lia|done]|]. eapply at_shows_same; [apply H2; lia|]. by apply set_tt_other.
Qed.

Section network.
Context (pNtk : Kit_DsdNtk_t) (P : nat -> Prop) (S : nat -> Prop) (H12 : dnVars pNtk <= 12) (p : Kit_DsdMan_t) (v : nat -> bool).
Local Notation nV := (dnVars pNtk).
Local Notation K := (dnVars pNtk + length (pNodes pNtk)).
Context (Hp : man_ok nV K p) (He : forall x, x < nV -> at_shows nV p x (fun m => Nat.testbit m x)) (Hs : (sign p + Z.of_nat K < 2 ^ 32)%Z).
Context (Hden : forall m, den (pNodes pNtk) nV (Nat.testbit m) P (nV + 1) (Root pNtk) (v m)).

(** The recursion from the root. *)
Definition root_done (r : option Kit_DsdMan_t) : Prop := exists p', r = Some p' /\ man_ok nV K p' /\
  at_shows nV p' (lit_id (Root pNtk)) (fun m => xorb (v m) (lit_compl (Root pNtk))) /\ (sign p' <= sign p + Z.of_nat K)%Z.

Lemma names_bound (L : list nat) (Q : nat -> Prop) : NoDup L -> (forall y, y ∈ L -> Q y /\ y < K) -> length L <= K.
Proof.
  intros Hnd HL. rewrite <- (length_seq K 0). apply NoDup_incl_length; [by apply NoDup_ListNoDup|]. intros x Hin. apply list_elem_of_In in Hin. destruct (HL x Hin) as [_ L']. apply in_seq. lia.
Qed.

Lemma tree_root_done : tree_root inner pNtk S -> root_done (Kit_DsdTruthComputeNode_rec (nV + 2) p pNtk (lit_id (Root pNtk))).
Proof.
  intros [_ Ht]. destruct (tt_rec_works pNtk P H12 (nV + 2) (nV + 1) ltac:(lia) p _ _ v Ht Hp) as (p' & E & H1 & H2 & (L & Hnd & HL & Hsp) & _).
  - intros x Hx _. by apply He.
  - intros L Hnd HL. pose proof (names_bound L _ Hnd HL). lia.
  - done.
  - exists p'. do 3 (split; [done|]). pose proof (names_bound L _ Hnd HL). lia.
Qed.

Lemma simple_root_done : simple_root pNtk S -> root_done (Kit_DsdTruthComputeNode_rec (nV + 2) p pNtk (lit_id (Root pNtk))).
Proof.
  intros (o & c & En & Er & H). unfold root_done. rewrite Er in *. rewrite En in *. cbn [length] in *. rewrite lit_id_lit, lit_compl_lit.
  pose proof (fun m => one_value nV P (Nat.testbit m) o c (v m) (Hden m)) as HF.
  replace (nV + 2) with (Datatypes.S (Datatypes.S nV)) by lia. cbn [Kit_DsdTruthComputeNode_rec].
  destruct (man_table nV (nV + 1) p nV Hp ltac:(lia)) as (t & Et & Ht).
  unfold dsd_tt_node at 1. unfold Kit_DsdNtkObj at 1. rewrite En. cbn [length]. rewrite (proj2 (Nat.ltb_lt nV (nV + 1))), (proj2 (Nat.ltb_ge nV nV)) by lia. rewrite Nat.sub_diag.
  change ([o] !! 0) with (Some o). cbn [mbind option_bind]. rewrite Et. cbn [mbind option_bind]. destruct H as [[Ety En0]|(Ety & En1 & x & b & Hx & _ & Ef)].
  - rewrite decide_True, En0 by done. cbn [Nat.eqb]. eexists. split; [done|]. pose proof (shows_Fill nV t Ht) as Hf. split; [apply set_tt_ok; [done|apply Hf]|]. split; [|unfold sign, set_tt; cbn [dm_dd]; lia].
    apply (at_shows_set nV (nV + 1)); [done|lia|]. eapply shows_ext; [exact Hf|]. intros m _. symmetry. by apply HF.
  - rewrite decide_False, decide_True, En1 by (done || congruence). cbn [Nat.eqb]. rewrite Ef, lit_id_lit, lit_compl_lit.
    destruct (He x Hx) as (u & Eu & Hu). assert (dsd_tt_node (fun p Id => Kit_DsdTruthComputeNode_rec nV p pNtk Id) p pNtk x = Some p) as ->.
    { unfold dsd_tt_node, Kit_DsdNtkObj. rewrite En. cbn [length]. rewrite (proj2 (Nat.ltb_lt x (nV + 1))), (proj2 (Nat.ltb_lt _ _) Hx) by lia. cbn [mbind option_bind]. by rewrite Eu. }
    cbn [mbind option_bind]. rewrite Et, Eu. cbn [mbind option_bind].
    assert (shows nV (if b then Kit_TruthNot t u nV else Kit_TruthCopy t u nV) (fun m => xorb (Nat.testbit m x) b)) as Hr.
    { destruct b; [eapply shows_ext; [by apply shows_Not|]|eapply shows_ext; [by apply shows_Copy|]]; intros m _; cbn beta; [by rewrite xorb_true_r|by rewrite xorb_false_r]. }
    eexists. split; [done|]. split; [apply set_tt_ok; [done|apply Hr]|]. split; [|unfold sign, set_tt; cbn [dm_dd]; lia].
    apply (at_shows_set nV (nV + 1)); [done|lia|]. eapply shows_ext; [exact Hr|]. intros m _. cbn beta. symmetry. by apply HF.
Qed.

Lemma truth_root_done : dsd_tree inner pNtk S -> root_done (Kit_DsdTruthComputeNode_rec (nV + 2) p pNtk (lit_id (Root pNtk))).
Proof. intros [H|H]; [by apply simple_root_done|by apply tree_root_done]. Qed.
End network.

Lemma truth_compute_spec pNtk P S p v : dnVars pNtk <= 12 -> dsd_tree inner pNtk S -> man_ok (dnVars pNtk) (Kit_DsdNtkObjNum pNtk) p -> elem_tables (dnVars pNtk) p ->
  (sign p + Z.of_nat (Kit_DsdNtkObjNum pNtk) < 2 ^ 32)%Z -> (forall m, den (pNodes pNtk) (dnVars pNtk) (Nat.testbit m) P (dnVars pNtk + 1) (Root pNtk) (v m)) ->
  exists t p', Kit_DsdTruthCompute p pNtk = Some (t, p') /\ shows (dnVars pNtk) t v /\ man_ok (dnVars pNtk) (Kit_DsdNtkObjNum pNtk) p' /\
    (sign p' <= sign p + Z.of_nat (Kit_DsdNtkObjNum pNtk))%Z.
Proof.
  intros H12 Ht Hp He Hs Hden. unfold Kit_DsdTruthCompute, Kit_DsdNtkObjNum in *. rewrite (mo_nVars _ _ _ Hp), Nat.leb_refl.
  destruct (tt_elems_spec _ _ p Hp He ltac:(lia)) as (p1 & -> & H1 & H2 & H3 & _). cbn [mbind option_bind].
  destruct (truth_root_done pNtk P S H12 p1 v H1 H2 ltac:(by rewrite H3) Hden Ht) as (p2 & -> & G1 & (t & Et & Hsh) & G3). cbn [mbind option_bind]. rewrite Et. cbn [mbind option_bind].
  assert (shows (dnVars pNtk) (if lit_compl (Root pNtk) then Kit_TruthNot t t (dnVars pNtk) else t) v) as Hr.
  { destruct (lit_compl (Root pNtk)); [eapply shows_ext; [apply shows_Not; [apply Hsh|exact Hsh]|]|eapply shows_ext; [exact Hsh|]]; intros m _; cbn beta; [by rewrite xorb_true_r, negb_involutive|by rewrite xorb_false_r]. }
  eexists _, _. split; [done|]. split; [done|]. split; [apply set_tt_ok; [done|apply Hr]|]. unfold sign, set_tt in *. cbn [dm_dd]. lia.
Qed.

(** ** A new manager *)

Section fresh.
Context (mem : nat -> nat -> nat -> Z).

Lemma sim_entry m n w i t : Vec_PtrAllocSimInfo m n w !! i = Some t -> length t = w.
Proof. intros (i' & -> & _)%list_lookup_fmap_Some. by rewrite length_map, length_seq. Qed.
Lemma sim_wide m n w i t : Vec_PtrAllocSimInfo m n w !! i = Some t -> w <= length t.
Proof. intros ->%sim_entry. done. Qed.
Lemma sim_length m n w : length (Vec_PtrAllocSimInfo m n w) = n.
Proof. unfold Vec_PtrAllocSimInfo. by rewrite length_map, length_seq. Qed.

Lemma alloc_elems m N i : i < N -> exists t, Vec_PtrAllocTruthTables m N !! i = Some (Kit_TruthIthVar t N i) /\ length t = Kit_TruthWordNum N.
Proof.
  intros Hi. unfold Vec_PtrAllocTruthTables. cbv zeta. fold (Kit_TruthWordNum N). set (p0 := Vec_PtrAllocSimInfo m N (Kit_TruthWordNum N)). set (body := fun i p => _).
  destruct (lookup_lt_is_Some_2 p0 i) as [t Et]; [unfold p0; by rewrite sim_length|]. exists t. split; [|by eapply sim_entry].
  assert (length (for_up N body p0) = N /\ forall x, x < N -> for_up N body p0 !! x = (if x <? N then (fun q => Kit_TruthIthVar q N x) <$> p0 !! x else p0 !! x)) as [_ H].
  2: { rewrite H, (proj2 (Nat.ltb_lt _ _)), Et by done. done. }
  apply (for_up_ind (fun k p => length p = N /\ forall x, x < N -> p !! x = (if x <? k then (fun q => Kit_TruthIthVar q N x) <$> p0 !! x else p0 !! x))).
  - split; [apply sim_length|]. done.
  - intros k p Hk [H1 H2]. unfold body. cbv zeta. destruct (lookup_lt_is_Some_2 p0 k) as [q Eq]; [unfold p0; by rewrite sim_length|].
    rewrite (nth_lookup_Some p k [] q) by (by rewrite H2, Nat.ltb_irrefl by done). split; [by rewrite length_insert|]. intros x Hx. destruct (Nat.eq_dec x k) as [->|Hne].
    + rewrite list_lookup_insert_eq by lia. by rewrite (proj2 (Nat.ltb_lt k (Datatypes.S k))), Eq by lia.
    + rewrite list_lookup_insert_ne, H2 by done. destruct (Nat.ltb_spec x k), (Nat.ltb_spec x (Datatypes.S k)); done || lia.
Qed.

Lemma man_alloc N K tUnique : (0 < tUnique)%Z -> Z.even tUnique = true -> exists p, Kit_DsdManAlloc mem N K tUnique = Some p /\ man_ok N K p /\ elem_tables N p /\ sign p = 1%Z.
Proof.
  intros Hu He. unfold Kit_DsdManAlloc. destruct (Init_working 16 14 tUnique) as (dd & -> & [U C] & H1 & H2 & _ & H4 & H5); [lia|cbn; lia|change (node_bits 14) with 14; apply (Nat.lt_le_trans _ (2 ^ 5)); [cbn; lia|apply Nat.pow_le_mono_r; lia]|done|done|].
  cbn [mbind option_bind]. eexists. split; [done|]. split; [split; cbn [dm_nVars vTtNodes]; [done|by rewrite sim_length|intros i t; apply sim_wide|]|split; [|done]].
  - split; cbn [dm_dd vTtBdds dm_vNodes]; [done|done|by rewrite H4|by rewrite H5|split; [by rewrite sim_length|intros i t; apply sim_wide]|cbn; unfold ABC_INT_MAX; lia].
  - intros i Hi. destruct (alloc_elems (mem 0) N i Hi) as (t & E & Hl). exists (Kit_TruthIthVar t N i). split; [exact E|]. apply shows_IthVar. by rewrite Hl.
Qed.

Lemma dsd_truth_spec pNtk P S v pTruthRes tUnique : dnVars pNtk <= 12 -> dsd_tree inner pNtk S -> length (pNodes pNtk) <= 64 -> (0 < tUnique)%Z -> Z.even tUnique = true ->
  Kit_TruthWordNum (dnVars pNtk) <= length pTruthRes ->
  (forall m, den (pNodes pNtk) (dnVars pNtk) (Nat.testbit m) P (dnVars pNtk + 1) (Root pNtk) (v m)) ->
  exists t, Kit_DsdTruth mem pNtk pTruthRes tUnique = Some t /\ shows (dnVars pNtk) t v.
Proof.
  intros H12 Ht Hl Hu He Hr Hden. unfold Kit_DsdTruth. destruct (man_alloc (dnVars pNtk) (Kit_DsdNtkObjNum pNtk) tUnique Hu He) as (p & -> & Hp & Hel & Hs). cbn [mbind option_bind].
  destruct (truth_compute_spec pNtk P S p v H12 Ht Hp Hel) as (t & p' & -> & Hsh & _); [rewrite Hs; unfold Kit_DsdNtkObjNum; lia|done|]. cbn [mbind option_bind].
  eexists. split; [done|]. by apply shows_Copy.
Qed.
End fresh.

(** * Properties *)

(** C2. For every table of at most twelve variables, [Kit_DsdDecompose] followed by [Kit_DsdTruth] gives the table again, whatever the
    result array and the fresh arrays of the manager held. *)
Theorem dsd_truth_roundtrip mem t nVars pTruthRes tUnique : nVars <= 12 -> proper nVars t -> (0 < tUnique)%Z -> Z.even tUnique = true -> Kit_TruthWordNum nVars <= length pTruthRes ->
  exists pNtk r, Kit_DsdDecompose t nVars = Some pNtk /\ Kit_DsdTruth mem pNtk pTruthRes tUnique = Some r /\ forall m, m < nmint nVars -> tbit r m = tbit t m.
Proof.
  intros Hn Ht Hu He Hr. destruct (decompose_den t nVars 0 ltac:(lia) Ht (or_introl eq_refl)) as (pNtk & E & Hv & Hids & Hlen & Hd & Htree).
  unfold extra in Hlen. cbn in Hlen. subst nVars.
  destruct (dsd_truth_spec mem pNtk (fun _ => True) (fun y => Z.testbit (Kit_TruthSupport t (dnVars pNtk)) (Z.of_nat y) = true) (tfun (dnVars pNtk) t) pTruthRes tUnique) as (r & Er & _ & Hsh); try done; [|lia| |].
  - destruct (Htree eq_refl) as [H|[H1 H2]]; [by left|right; split; [done|by apply (tree_kinds _ _ _ _ _ _ binary_inner)]].
  - intros m. eapply den_val; [apply Hd|]. apply (proj2 Ht). intros i Hi. by apply mint_bit.
  - exists pNtk, r. do 2 (split; [done|]). intros m Hm. by rewrite Hsh, tfun_small.
Qed.

Lemma dsd_truth_roundtrip_witness : exists pNtk r, Kit_DsdDecompose [0xF8F80000]%Z 5 = Some pNtk /\ Kit_DsdTruth (fun i j k => Z.of_nat (7 * i + j + k)) pNtk [0]%Z 4096 = Some r /\
  forall m, m < nmint 5 -> tbit r m = tbit [0xF8F80000]%Z m.
Proof. apply (dsd_truth_roundtrip (fun i j k => Z.of_nat (7 * i + j + k)) [0xF8F80000]%Z 5 [0]%Z 4096); [lia|apply word_proper; unfold is_word; lia|lia|done|cbn; lia]. Defined.
