(* ===== verification/DsdBuild.v ===== *)
(** Copies of networks of decomposition nodes ([kitDsd.c]): what [Kit_DsdExpand] and [Kit_DsdShrink] share.  A copy turns every literal of the
    old network into one of the new network with the same function; [copied] is the contract of one literal, [copies] that of a
    recursion, and [built] the state of a new node whose fanins are being copied. *)
From S2P Require Import Prelude Words Relabel Minterm TruthBasic TruthCof TruthPerm TruthSupp TruthCanon Cube Minato Isop CloudTruth Dsd DsdFun DsdDec DsdRun DsdTruth.

(** * The code *)

Definition lit_regular (l : nat) : nat := lit (lit_id l) false.

Definition dsd_copy_call := Kit_DsdNtk_t -> nat -> option (nat * Kit_DsdNtk_t).

(** A fanin of the new prime node; a complemented one changes its table. *)
Definition dsd_prime_fan (rec : dsd_copy_call) (pObjNew i iLitFanin : nat) (pNew : Kit_DsdNtk_t) : option Kit_DsdNtk_t :=
  '(l, pNew) ← rec pNew iLitFanin;
  pNew ← write_lit pNew (par_fan pObjNew i) l;
  if lit_compl l then
    pNew ← write_lit pNew (par_fan pObjNew i) (lit_regular l);
    o ← pNodes pNew !! pObjNew;
    Some (set_obj pNew pObjNew (with_truth o (Kit_TruthChangePhase (pTruth o) (nFans o) i)))
  else Some pNew.

Definition dsd_prime_copy (rec : dsd_copy_call) (pNew : Kit_DsdNtk_t) (o : Kit_DsdObj_t) : option (nat * Kit_DsdNtk_t) :=
  let '(pObjNew, pNew) := Kit_DsdObjAlloc pNew KIT_DSD_PRIME (nFans o) in
  r ← pNodes pNew !! pObjNew;
  let pNew := set_obj pNew pObjNew (with_truth r (Kit_TruthCopy (pTruth r) (pTruth o) (nFans o))) in
  pNew ← for_up (nFans o) (fun i s => pNew ← s; dsd_prime_fan rec pObjNew i (fan o i) pNew) (Some pNew);
  Some (pObjNew, pNew).

(** The phase of the literal goes into the table. *)
Definition dsd_prime_phase (pNew : Kit_DsdNtk_t) (pObjNew : nat) (o : Kit_DsdObj_t) (iLit : nat) : option (nat * Kit_DsdNtk_t) :=
  r ← pNodes pNew !! pObjNew;
  let r := if lit_compl iLit then with_truth r (Kit_TruthNot (pTruth r) (pTruth r) (nFans o)) else r in
  Some (lit (dId r) false, set_obj pNew pObjNew r).

(** The new network; the root cannot be a variable, as its node is read. *)
Definition dsd_convert (convert : dsd_copy_call) (p : Kit_DsdNtk_t) : option Kit_DsdNtk_t :=
  assert! dnVars p <=? 16 in
  let pNew := Kit_DsdNtkAlloc (dnVars p) in
  pRoot ← Kit_DsdNtkObj p (lit_id (Root p));
  o ← pRoot;
  if decide (dType o = KIT_DSD_CONST1) then
    let '(pObjNew, pNew) := Kit_DsdObjAlloc pNew KIT_DSD_CONST1 0 in
    r ← pNodes pNew !! pObjNew;
    Some (mkDsdNtk (dnVars pNew) (lit (dId r) (lit_compl (Root p))) (pNodes pNew))
  else if decide (dType o = KIT_DSD_VAR) then
    let '(pObjNew, pNew) := Kit_DsdObjAlloc pNew KIT_DSD_VAR 1 in
    r ← pNodes pNew !! pObjNew;
    pNew ← write_lit pNew (par_fan pObjNew 0) (fan o 0);
    Some (mkDsdNtk (dnVars pNew) (lit (dId r) (lit_compl (Root p))) (pNodes pNew))
  else
    '(Root, pNew) ← convert pNew (Root p);
    Some (mkDsdNtk (dnVars pNew) Root (pNodes pNew)).


(** * Complemented inputs of tables *)

Lemma tfun_ChangePhase n t v m : v < n -> is_tt n t -> tfun n (Kit_TruthChangePhase t n v) m = tfun n t (Nat.lxor m (2 ^ v)).
Proof.
  intros Hv Ht. assert (m mod nmint n < nmint n) as Hm by (apply Nat.mod_upper_bound, Nat.pow_nonzero; lia). unfold tfun. rewrite tbit_ChangePhase_flip by (done || apply Ht). f_equal.
  unfold nmint. apply Nat.bits_inj. intros i. rewrite testbit_flip. destruct (Nat.lt_ge_cases i (Nat.max 5 n)) as [Hi|Hi].
  - by rewrite !Nat.mod_pow2_bits_low, testbit_flip by done.
  - rewrite !Nat.mod_pow2_bits_high by done. destruct (Nat.eqb_spec v i); [lia|done].
Qed.

Lemma proper_ChangePhase n t v : v < n -> proper n t -> proper n (Kit_TruthChangePhase t n v).
Proof.
  intros Hv [Ht Hd]. split; [auto with words|]. intros m m' Hm. rewrite !tfun_ChangePhase by done. apply Hd. intros i Hi. by rewrite !testbit_flip, Hm.
Qed.

Lemma vac_ChangePhase n t v q : v < n -> is_tt n t -> vac q (tfun n (Kit_TruthChangePhase t n v)) -> vac q (tfun n t).
Proof.
  intros Hv Ht H m. specialize (H (Nat.lxor m (2 ^ v))). unfold cof in *. rewrite !tfun_ChangePhase in H by done.
  assert (forall b : bool, Nat.lxor (if b then Nat.setbit (Nat.lxor m (2 ^ v)) q else Nat.clearbit (Nat.lxor m (2 ^ v)) q) (2 ^ v) =
    if xorb b (v =? q) then Nat.setbit m q else Nat.clearbit m q) as E.
  { intros b. apply Nat.bits_inj. intros i. rewrite testbit_flip. destruct b, (Nat.eqb_spec v q) as [->|Hvq]; cbn [xorb];
      rewrite ?Nat.setbit_eqb, ?Nat.clearbit_eqb, !testbit_flip; destruct (Nat.eqb_spec q i) as [->|]; rewrite ?Nat.eqb_refl; destruct (Nat.testbit m i); cbn; try done;
      destruct (Nat.eqb_spec v i); done || lia. }
  rewrite (E false), (E true) in H. by destruct (v =? q).
Qed.

Lemma app_ChangePhase n t v B : v < n -> proper n t -> app n (tfun n (Kit_TruthChangePhase t n v)) B = app n (tfun n t) (upd B v (negb (B v))).
Proof.
  intros Hv [Ht Hd]. unfold app. rewrite tfun_ChangePhase by done. apply Hd. intros i Hi. rewrite testbit_flip, !mint_bit by done. unfold upd. rewrite (Nat.eqb_sym i v).
  destruct (Nat.eqb_spec v i) as [->|]; [by destruct (B i)|by rewrite xorb_false_r].
Qed.

Lemma proper_Not n t : proper n t -> proper n (Kit_TruthNot t t n).
Proof. intros [Ht Hd]. split; [auto with words|]. intros m m' Hm. rewrite !tfun_Not by done. f_equal. by apply Hd. Qed.

Lemma vac_Not n t q : is_tt n t -> vac q (tfun n (Kit_TruthNot t t n)) -> vac q (tfun n t).
Proof. intros Ht H m. specialize (H m). unfold cof in *. rewrite !tfun_Not in H by done. by destruct (tfun n t (Nat.clearbit m q)), (tfun n t (Nat.setbit m q)). Qed.

(** * Lists of trees *)

Inductive trees_of (Q : Kit_DsdObj_t -> Prop) (nodes : list Kit_DsdObj_t) (nV : nat) : (nat -> Prop) -> list nat -> Prop :=
  | trees_nil (R : nat -> Prop) : trees_of Q nodes nV R []
  | trees_cons (R T R' : nat -> Prop) l ls : tree_of Q nodes nV T l -> trees_of Q nodes nV R' ls -> (forall y, T y -> R y) -> (forall y, R' y -> R y) ->
      (forall y, T y -> R' y -> False) -> trees_of Q nodes nV R (l :: ls).
Arguments trees_nil {Q} nodes nV R.
Arguments trees_cons {Q} nodes nV R T R' l ls _ _ _ _ _.

Lemma trees_mono {Q} nodes nV (R R' : nat -> Prop) ls : trees_of Q nodes nV R ls -> (forall y, R y -> R' y) -> trees_of Q nodes nV R' ls.
Proof. intros H HR. destruct H as [R|R T R1 l ls HT Hls H1 H2 H3]; [constructor|]. apply (trees_cons nodes nV R' T R1); auto. Qed.

Lemma trees_frame {Q} nodes nodes' nV (R : nat -> Prop) ls : trees_of Q nodes nV R ls -> (forall i o, R (nV + i) -> nodes !! i = Some o -> nodes' !! i = Some o) -> trees_of Q nodes' nV R ls.
Proof.
  intros H. induction H as [R|R T R1 l ls HT Hls IH H1 H2 H3]; intros Hn; [constructor|]. apply (trees_cons nodes' nV R T R1); try done.
  - eapply tree_frame; [exact HT|]. intros i o Hi. by apply Hn, H1.
  - apply IH. intros i o Hi. by apply Hn, H2.
Qed.

Lemma trees_app {Q} nodes nV (R R1 R2 : nat -> Prop) l1 l2 : trees_of Q nodes nV R1 l1 -> trees_of Q nodes nV R2 l2 -> (forall y, R1 y -> R y) -> (forall y, R2 y -> R y) ->
  (forall y, R1 y -> R2 y -> False) -> trees_of Q nodes nV R (l1 ++ l2).
Proof.
  intros H. revert R. induction H as [R1|R1 T R' l ls HT Hls IH G1 G2 G3]; intros R H2 E1 E2 E3; [by apply (trees_mono _ _ R2)|].
  cbn [app]. apply (trees_cons nodes nV R T (fun y => R' y \/ R2 y)); [done|apply IH; auto; intros y Hy; apply E3; auto|auto|intros y [Hy|Hy]; auto|].
  intros y Hy [Hy'|Hy']; [by apply (G3 y)|apply (E3 y); auto].
Qed.

Lemma trees_one {Q} nodes nV (T : nat -> Prop) l : tree_of Q nodes nV T l -> trees_of Q nodes nV T [l].
Proof. intros H. apply (trees_cons nodes nV T T (fun _ => False)); [done|constructor|done|done|done]. Qed.

Lemma trees_fans {Q} nodes nV (T : nat -> nat -> Prop) o n : n <= nFans o -> (forall k, k < nFans o -> tree_of Q nodes nV (T k) (fan o k)) ->
  (forall k k' y, k < nFans o -> k' < nFans o -> k <> k' -> T k y -> T k' y -> False) -> trees_of Q nodes nV (fun y => exists k, k < n /\ T k y) (map (fan o) (seq 0 n)).
Proof.
  intros Hn HT Hd. induction n as [|n IH]; [constructor|]. rewrite seq_S, map_app. apply (trees_app nodes nV _ (fun y => exists k, k < n /\ T k y) (T n)).
  - apply IH. lia.
  - apply trees_one, HT. lia.
  - intros y (k & Hk & Hy). exists k. split; [lia|done].
  - intros y Hy. exists n. split; [lia|done].
  - intros y (k & Hk & Hy) Hy'. apply (Hd k n y); done || lia.
Qed.

(** The trees one by one. *)
Lemma trees_each {Q} nodes nV (R : nat -> Prop) ls : trees_of Q nodes nV R ls -> exists T : nat -> nat -> Prop, (forall k, k < length ls -> tree_of Q nodes nV (T k) (nth k ls 0)) /\
  (forall k y, k < length ls -> T k y -> R y) /\ forall k k' y, k < length ls -> k' < length ls -> k <> k' -> T k y -> T k' y -> False.
Proof.
  intros H. induction H as [R|R T R1 l ls HT Hls (T1 & IH1 & IH2 & IH3) H1 H2 H3]; [exists (fun _ _ => False); cbn; repeat split; lia || done|].
  exists (fun k => match k with O => T | S k => T1 k end). cbn [length]. split; [|split].
  - intros [|k] Hk; [done|]. apply IH1. lia.
  - intros [|k] y Hk Hy; [by apply H1|]. apply H2, (IH2 k); [lia|done].
  - intros [|k] [|k'] y Hk Hk' Hne Hy Hy'; [done| | |apply (IH3 k k' y); done || lia].
    + apply (H3 y Hy), (IH2 k'); [lia|done].
    + apply (H3 y Hy'), (IH2 k); [lia|done].
Qed.

(** Variables, without repetition. *)
Definition vars (nV : nat) (S : nat -> Prop) (xs : list nat) : Prop := NoDup xs /\ forall x, x ∈ xs -> x < nV /\ S x.

Lemma vars_app nV (S S1 S2 : nat -> Prop) xs ys : vars nV S1 xs -> vars nV S2 ys -> (forall y, S1 y -> S y) -> (forall y, S2 y -> S y) -> (forall y, S1 y -> S2 y -> False) -> vars nV S (xs ++ ys).
Proof.
  intros [N1 H1] [N2 H2] E1 E2 E3. split.
  - apply list.NoDup_app. split; [done|]. split; [|done]. intros x Hx Hx'. apply (E3 x); [by apply H1|by apply H2].
  - intros x [Hx|Hx]%elem_of_app; [destruct (H1 x Hx)|destruct (H2 x Hx)]; auto.
Qed.

Lemma vars_length nV S xs : vars nV S xs -> length xs <= nV.
Proof.
  intros [Hnd H]. rewrite <- (length_seq nV 0). apply NoDup_incl_length; [by apply NoDup_ListNoDup|]. intros x Hin. apply list_elem_of_In in Hin. destruct (H x Hin) as [L _]. apply in_seq. lia.
Qed.

Lemma vars_nil nV S : vars nV S [].
Proof. split; [constructor|by intros x ?%elem_of_nil]. Qed.

(** A variable of every tree. *)
Lemma trees_vars nodes nV (R : nat -> Prop) ls : trees_of inner nodes nV R ls -> exists xs, vars nV R xs /\ length xs = length ls.
Proof.
  intros H. induction H as [R|R T R1 l ls HT Hls (xs & Hxs & El) H1 H2 H3]; [exists []; split; [apply vars_nil|done]|].
  destruct (tree_leaf _ _ _ _ HT) as (x & Hx & HTx). exists ([x] ++ xs). split; [|cbn; by rewrite El].
  apply (vars_app nV R T R1); [split; [apply NoDup_singleton|by intros y ->%list_elem_of_singleton]|done|done|done|done].
Qed.

Lemma trees_length nodes nV R ls : trees_of inner nodes nV R ls -> length ls <= nV.
Proof. intros H. destruct (trees_vars _ _ _ _ H) as (xs & Hxs & <-). by eapply vars_length. Qed.

Lemma tree_inv {Q} nodes nV S l i o : tree_of Q nodes nV S l -> lit_id l = nV + i -> nodes !! i = Some o -> Q o /\ exists T, S (nV + i) /\
  (forall k, k < nFans o -> tree_of Q nodes nV (T k) (fan o k)) /\ (forall k y, k < nFans o -> T k y -> S y /\ y <> nV + i) /\
  forall k k' y, k < nFans o -> k' < nFans o -> k <> k' -> T k y -> T k' y -> False.
Proof.
  intros H. destruct H as [S x c Hx HSx|S j o' c T Eo HQ HSi HT Hin Hd]; rewrite lit_id_lit; intros E Eo'; [lia|]. assert (j = i) as -> by lia. rewrite Eo in Eo'. injection Eo' as <-.
  split; [done|]. exists T. auto.
Qed.


Lemma trees_bound {Q} new nV R ls : trees_of Q new nV R ls -> trees_of Q new nV (fun y => R y /\ y < nV + length new) ls.
Proof.
  intros H. induction H as [R|R T R1 l ls HT Hls IH H1 H2 H3]; [constructor|]. apply (trees_cons _ _ _ (fun y => T y /\ y < nV + length new) (fun y => R1 y /\ y < nV + length new)).
  - by apply tree_bound.
  - done.
  - intros y [Hy ?]. split; [by apply H1|done].
  - intros y [Hy ?]. split; [by apply H2|done].
  - intros y [Hy _] [Hy' _]. by apply (H3 y).
Qed.

Lemma Forall2_with {A B} (Q Q' : A -> B -> Prop) l1 l2 : Forall2 Q l1 l2 -> (forall x y, y ∈ l2 -> Q x y -> Q' x y) -> Forall2 Q' l1 l2.
Proof. intros H. induction H as [|x y l1 l2 Hxy H IH]; intros HQ; constructor; [apply HQ; [apply list_elem_of_here|done]|]. apply IH. intros x' y' Hy. apply HQ. by apply list_elem_of_further. Qed.

Lemma Forall2_nth {A B} (Q : A -> B -> Prop) l1 l2 k a b : Forall2 Q l1 l2 -> k < length l2 -> Q (nth k l1 a) (nth k l2 b).
Proof. intros H. revert k. induction H as [|x y l1 l2 Hxy H IH]; intros k Hk; [cbn in Hk; lia|]. destruct k as [|k]; [done|]. apply IH. cbn in Hk. lia. Qed.

Lemma nth_place (ls : list nat) k : k < length ls -> ls !! k = Some (nth k ls 0).
Proof. intros Hk. destruct (lookup_lt_is_Some_2 ls k Hk) as [x Ex]. by rewrite (nth_lookup_Some ls k 0 x Ex). Qed.

Lemma set_same (pN : Kit_DsdNtk_t) i r : pNodes pN !! i = Some r -> set_obj pN i r = pN.
Proof. intros E. unfold set_obj. rewrite list_insert_id by done. by destruct pN. Qed.

Lemma map_places {A} (f : nat -> A) (ls : list nat) : map (fun k => f (nth k ls 0)) (seq 0 (length ls)) = map f ls.
Proof.
  induction ls as [|x ls IH]; [done|]. cbn [length seq map nth]. f_equal. rewrite <- seq_shift, map_map. exact IH.
Qed.

Lemma forallb_places (f : nat -> bool) (ls : list nat) : forallb (fun k => f (nth k ls 0)) (seq 0 (length ls)) = forallb f ls.
Proof.
  assert (forall (g : nat -> bool) l, forallb g l = forallb id (map g l)) as H by (intros g l; induction l as [|x l IH]; [done|cbn; by rewrite IH]).
  by rewrite H, (map_places f), <- H.
Qed.

Lemma regular_notcond l : lit_regular l = lit_notcond l (lit_compl l).
Proof. unfold lit_regular, lit_notcond. by rewrite xorb_nilpotent. Qed.

Lemma regular_id l : lit_id (lit_regular l) = lit_id l.
Proof. apply lit_id_lit. Qed.

Lemma regular_compl l : lit_compl (lit_regular l) = false.
Proof. apply lit_compl_lit. Qed.

Lemma nth_regular ls k : nth k (map lit_regular ls) 0 = lit_regular (nth k ls 0).
Proof. change 0 with (lit_regular 0) at 1. apply map_nth. Qed.

Lemma trees_regular {Q} nodes nV R ls : trees_of Q nodes nV R ls -> trees_of Q nodes nV R (map lit_regular ls).
Proof. intros H. induction H as [R|R T R1 l ls HT Hls IH H1 H2 H3]; [constructor|]. apply (trees_cons _ _ _ T R1); try done. eapply tree_same; [exact HT|apply regular_id]. Qed.

(** * The contract *)

(** What else is known of the literal that an old one becomes: [K new R l l'], where the nodes below the new one have places in [R]. *)
Class Stable (K : list Kit_DsdObj_t -> (nat -> Prop) -> nat -> nat -> Prop) : Prop :=
  stable_frame : forall new new' (R R' : nat -> Prop) l l', K new R l l' -> (forall i, R i -> R' i) -> (forall i o, R i -> new !! i = Some o -> new' !! i = Some o) -> K new' R' l l'.

#[export] Instance stable_trivial : Stable (fun _ _ _ _ => True).
Proof. by intros ?. Qed.

Section old.
Context (p : Kit_DsdNtk_t) (P : nat -> Prop).
Local Notation nodes := (pNodes p).
Local Notation nV := (dnVars p).

(** The value of a literal of the old network. *)
Definition lv (d l : nat) (a : nat -> bool) : bool := default false (dsd_eval d nodes nV a l).
Definition defined (d l : nat) : Prop := forall a, den nodes nV a P d l (lv d l a).

Lemma den_lv d l a v : den nodes nV a P d l v -> lv d l a = v.
Proof. intros H. unfold lv. by rewrite (den_eval _ _ _ _ _ _ _ H). Qed.

Lemma defined_le d d' l : defined d l -> d <= d' -> defined d' l /\ forall a, lv d' l a = lv d l a.
Proof.
  intros H Hd. assert (forall a, den nodes nV a P d' l (lv d l a)) as H' by (intros a; by eapply den_frame).
  split; [intros a; rewrite (den_lv d' l a _ (H' a)); apply H'|intros a; by apply den_lv].
Qed.

Lemma lv_le d d' l a : defined d l -> d <= d' -> lv d' l a = lv d l a.
Proof. intros H Hd. by apply (defined_le d d' l H Hd). Qed.

Lemma ntk_obj S l : tree_of inner nodes nV S l -> (lit_id l < nV /\ Kit_DsdNtkObj p (lit_id l) = Some None) \/
  exists i o c, l = lit (nV + i) c /\ nodes !! i = Some o /\ nV <= lit_id l /\ Kit_DsdNtkObj p (lit_id l) = Some (Some o).
Proof.
  intros H. unfold Kit_DsdNtkObj. destruct H as [S x c Hx HSx|S i o c T Eo HQo HSi HT Hin Hd]; rewrite lit_id_lit.
  - left. rewrite (proj2 (Nat.ltb_lt x (nV + length nodes))), (proj2 (Nat.ltb_lt _ _) Hx) by lia. done.
  - right. exists i, o, c. pose proof (lookup_lt_Some _ _ _ Eo). rewrite (proj2 (Nat.ltb_lt (nV + i) (nV + length nodes))), (proj2 (Nat.ltb_ge (nV + i) nV)) by lia.
    replace (nV + i - nV) with i by lia. rewrite Eo. split; [done|]. split; [done|]. split; [lia|done].
Qed.

(** What is known of a node from its tree and its values. *)
Lemma node_fans d S i o c : tree_of inner nodes nV S (lit (nV + i) c) -> nodes !! i = Some o -> defined (Datatypes.S d) (lit (nV + i) c) ->
  inner o /\ good_node o /\ (forall k, k < nFans o -> defined d (fan o k)) /\ (forall a, node_value o (fun k => lv d (fan o k) a) = Some (xorb (lv (Datatypes.S d) (lit (nV + i) c) a) c)) /\
  trees_of inner nodes nV (fun y => S y /\ y <> nV + i) (map (fan o) (seq 0 (nFans o))).
Proof.
  intros Ht Eo Hd. assert (forall a, good_node o /\ (forall k, k < nFans o -> den nodes nV a P d (fan o k) (lv d (fan o k) a)) /\
    node_value o (fun k => lv d (fan o k) a) = Some (xorb (lv (Datatypes.S d) (lit (nV + i) c) a) c)) as HF by (intros a; by apply (den_fans nodes nV a P d i o c)).
  destruct (tree_inv _ _ _ _ i o Ht ltac:(apply lit_id_lit) Eo) as (HQo & T & HSi & HT & Hin & Hdis).
  split; [done|]. split; [apply (HF (fun _ => false))|]. split; [intros k Hk a; by apply HF|]. split; [intros a; apply HF|].
  eapply trees_mono; [apply (trees_fans nodes nV T); done|]. intros y (k & Hk & Hy). by apply (Hin k).
Qed.

Lemma defined_regular d l : defined d l -> defined d (lit_regular l) /\ forall a, lv d (lit_regular l) a = xorb (lv d l a) (lit_compl l).
Proof.
  intros H. assert (forall a, den nodes nV a P d (lit_regular l) (xorb (lv d l a) (lit_compl l))) as H' by (intros a; rewrite regular_notcond; by apply den_notcond).
  split; [intros a; by rewrite (den_lv _ _ _ _ (H' a))|intros a; by apply den_lv].
Qed.

Lemma positive S i c o : tree_of inner nodes nV S (lit (nV + i) c) -> nodes !! i = Some o -> Kit_DsdNtkObj p (nV + i) = Some (Some o).
Proof.
  intros HT Eo. destruct (ntk_obj S _ HT) as [[Hx _]|(j & o' & c' & _ & Eo' & _ & E)]; rewrite lit_id_lit in *; [lia|]. unfold Kit_DsdNtkObj in *.
  pose proof (lookup_lt_Some _ _ _ Eo). rewrite (proj2 (Nat.ltb_lt (nV + i) (nV + length nodes))), (proj2 (Nat.ltb_ge (nV + i) nV)) by lia. replace (nV + i - nV) with i by lia. by rewrite Eo.
Qed.

Lemma depth_positive d i c : defined d (lit (nV + i) c) -> exists d', d = Datatypes.S d'.
Proof.
  intros H. destruct d as [|d]; [|by exists d]. pose proof (H (fun _ => false)) as H0. apply den_eval in H0. cbn [dsd_eval] in H0. rewrite lit_id_lit in H0.
  by rewrite (proj2 (Nat.ltb_ge _ _)) in H0 by lia.
Qed.

Definition room (len : nat) (S : nat -> Prop) : Prop := forall xs, vars nV S xs -> nV + len + length xs <= 64.

Record grew (pNew pNew' : Kit_DsdNtk_t) : Prop := {
  gr_vars : dnVars pNew' = nV;
  gr_ids : ids_ok pNew';
  gr_length : length (pNodes pNew) <= length (pNodes pNew');
  gr_old : forall j, j < length (pNodes pNew) -> pNodes pNew' !! j = pNodes pNew !! j }.

(** The nodes of the copy have the property [Q]; the old literals that are copied have [Old]. *)
Section contract.
Context (Q : Kit_DsdObj_t -> Prop) (K : list Kit_DsdObj_t -> (nat -> Prop) -> nat -> nat -> Prop) (Old : nat -> Prop).

(** The literal [l'] of [pNew'] has the function [v]; below it are the variables in [S] and new nodes, fewer than these variables. *)
Record copied (pNew : Kit_DsdNtk_t) (S : nat -> Prop) (v : (nat -> bool) -> bool) (l : nat) (pNew' : Kit_DsdNtk_t) (l' : nat) : Prop := {
  cp_grew : grew pNew pNew';
  cp_tree : tree_of Q (pNodes pNew') nV (fun y => y < nV /\ S y \/ nV + length (pNodes pNew) <= y) l';
  cp_known : K (pNodes pNew') (fun i => length (pNodes pNew) <= i) l l';
  cp_size : exists xs, vars nV S xs /\ length (pNodes pNew') + 1 <= length (pNodes pNew) + length xs /\
    forall a, den (pNodes pNew') nV a (fun i => length (pNodes pNew) <= i) (length xs) l' (v a) }.

Definition copies (rec : dsd_copy_call) (d : nat) : Prop := forall pNew S l, tree_of inner nodes nV S l -> defined d l -> Old l -> ids_ok pNew -> dnVars pNew = nV ->
  room (length (pNodes pNew)) S -> exists l' pNew', rec pNew l = Some (l', pNew') /\ copied pNew S (lv d l) l pNew' l'.

(** A node at [i0] whose fanins are being made; a node of [n] fanins is not deeper than the number of its variables. *)
Record built (d i0 : nat) (pNew0 pNew : Kit_DsdNtk_t) (U : nat -> Prop) (ls fl : list nat) : Prop := {
  bu_vars : dnVars pNew = nV;
  bu_ids : ids_ok pNew;
  bu_length : i0 < length (pNodes pNew);
  bu_old : forall j, j < i0 -> pNodes pNew !! j = pNodes pNew0 !! j;
  bu_trees : trees_of Q (pNodes pNew) nV (fun y => y < nV /\ U y \/ nV + i0 < y) fl;
  bu_known : Forall2 (K (pNodes pNew) (fun i => i0 < i)) ls fl;
  bu_size : exists xs D, vars nV U xs /\ length (pNodes pNew) + length fl <= i0 + 1 + length xs /\ D + length fl <= length xs + 1 /\
    Forall2 (fun l l' => forall a, den (pNodes pNew) nV a (fun i => i0 < i) D l' (lv d l a)) ls fl }.

Context `{!Stable K}.

(** Variables are not copied. *)
Lemma copied_var d pNew S l : lit_id l < nV -> tree_of inner nodes nV S l -> ids_ok pNew -> dnVars pNew = nV -> K (pNodes pNew) (fun i => length (pNodes pNew) <= i) l l -> copied pNew S (lv d l) l pNew l.
Proof.
  intros Hx HT Hids Hv HK. assert (forall a, lv d l a = xorb (a (lit_id l)) (lit_compl l)) as Hval.
  { intros a. apply den_lv. rewrite <- (lit_eta l) at 1. by constructor. }
  split; [done| |done|].
  - rewrite <- (lit_eta l). apply tree_var; [done|]. left. split; [done|]. apply (tree_top _ _ _ _ HT).
  - exists [lit_id l]. split; [|split; [cbn; lia|]].
    + split; [apply NoDup_singleton|]. intros x ->%list_elem_of_singleton. split; [done|]. apply (tree_top _ _ _ _ HT).
    + intros a. rewrite Hval. rewrite <- (lit_eta l) at 2. by constructor.
Qed.

(** The node itself may change, and the array may grow. *)
Lemma built_frame d i0 pNew0 pNew pNew' U ls fl : built d i0 pNew0 pNew U ls fl -> dnVars pNew' = nV -> ids_ok pNew' -> length (pNodes pNew') = length (pNodes pNew) ->
  (forall j, j < length (pNodes pNew) -> j <> i0 -> pNodes pNew' !! j = pNodes pNew !! j) -> built d i0 pNew0 pNew' U ls fl.
Proof.
  intros [B1 B2 B3 B4 B5 B6 (xs & D & B7 & B8 & B9 & B10)] Hv Hids Hl Hsame.
  assert (forall i o, i0 < i -> pNodes pNew !! i = Some o -> pNodes pNew' !! i = Some o) as Hn by (intros i o Hi Eo; rewrite Hsame; [done|by eapply lookup_lt_Some|lia]).
  split; [done|done|lia|intros j Hj; rewrite Hsame by lia; by apply B4| | |].
  - apply (trees_frame (pNodes pNew)); [done|]. intros i o [[L _]|L]; [lia|]. apply Hn. lia.
  - eapply Forall2_with; [exact B6|]. intros l l' _ Hk. eapply stable_frame; [exact Hk|done|done].
  - exists xs, D. rewrite Hl. do 3 (split; [done|]). eapply Forall2_with; [exact B10|]. intros l l' _ Hd a. by eapply den_frame.
Qed.

Lemma built_start d i0 pNew0 pNew U : dnVars pNew = nV -> ids_ok pNew -> length (pNodes pNew) = i0 + 1 -> (forall j, j < i0 -> pNodes pNew !! j = pNodes pNew0 !! j) ->
  built d i0 pNew0 pNew U [] [].
Proof.
  intros. split; [done|done|lia|done|apply trees_nil|constructor|]. exists [], 1. split; [apply vars_nil|]. cbn. split; [lia|]. split; [lia|constructor].
Qed.

(** One more fanin. *)
Lemma built_step d i0 pNew0 pNew (U T U' : nat -> Prop) ls fl pNew' l l' : built d i0 pNew0 pNew U ls fl -> copied pNew T (lv d l) l pNew' l' -> (forall y, U y -> U' y) -> (forall y, T y -> U' y) ->
  (forall y, U y -> T y -> False) -> built d i0 pNew0 pNew' U' (ls ++ [l]) (fl ++ [l']).
Proof.
  intros [B1 B2 B3 B4 B5 B6 (xs & D & B7 & B8 & B9 & B10)] [[G1 G2 G3 G4] Ht Hk (ys & Hys & Hsz & Hden)] HU HT Hdis.
  assert (forall i o, i0 < i -> pNodes pNew !! i = Some o -> pNodes pNew' !! i = Some o) as Hn by (intros i o Hi Eo; rewrite G4; [done|by eapply lookup_lt_Some]).
  assert (trees_of Q (pNodes pNew) nV (fun y => (y < nV /\ U y \/ nV + i0 < y) /\ y < nV + length (pNodes pNew)) fl) as B5' by (by apply trees_bound).
  assert (1 <= length ys) as Hy1 by lia.
  split; [done|done|lia|intros j Hj; rewrite G4 by lia; by apply B4| | |].
  - apply (trees_app _ _ _ (fun y => (y < nV /\ U y \/ nV + i0 < y) /\ y < nV + length (pNodes pNew)) (fun y => y < nV /\ T y \/ nV + length (pNodes pNew) <= y)).
    + apply (trees_frame (pNodes pNew)); [done|]. intros i o [[[L _]|L] _]; [lia|]. apply Hn. lia.
    + by apply trees_one.
    + intros y [[[? ?]|?] _]; [left; auto|by right].
    + intros y [[? ?]|?]; [left; auto|right; lia].
    + intros y [[[L1 Hy]|L1] L] [[L2 Hy2]|L2]; [by apply (Hdis y)|lia|lia|lia].
  - apply Forall2_app; [eapply Forall2_with; [exact B6|]; intros x x' _ Hx; by eapply stable_frame|]. constructor; [|constructor]. eapply stable_frame; [exact Hk|cbn; intros; lia|done].
  - exists (xs ++ ys), (Nat.max D (length ys)). split; [by apply (vars_app nV U' U T)|]. rewrite !length_app. cbn. split; [lia|]. split; [lia|].
    apply Forall2_app; [eapply Forall2_with; [exact B10|]; intros x x' _ Hd a; eapply den_frame; [apply Hd|lia|done|done]|]. constructor; [|constructor].
    intros a. eapply den_frame; [apply Hden|lia|cbn; intros; lia|done].
Qed.

Lemma alloc_spec d pNew t n : ids_ok pNew -> dnVars pNew = nV -> nV + length (pNodes pNew) < 64 -> n < 64 -> exists o pN, Kit_DsdObjAlloc pNew t n = (length (pNodes pNew), pN) /\
  pNodes pN !! length (pNodes pNew) = Some o /\ (dId o = nV + length (pNodes pNew) /\ dType o = t /\ nFans o = n /\ pFans o = repeat 0 n /\
    pTruth o = repeat 0%Z (if decide (t = KIT_DSD_PRIME) then Kit_TruthWordNum n else 0)) /\ forall U, built d (length (pNodes pNew)) pNew pN U [] [].
Proof.
  intros Hids Hv H64 Hn. rewrite alloc_eq, Hv, !Nat.mod_small by (cbn; lia). eexists _, _. split; [done|]. cbn [pNodes]. split; [apply snoc_new|]. split; [done|]. intros U. apply built_start; cbn [dnVars pNodes].
  - done.
  - intros i o Eo. cbn [pNodes] in Eo. destruct (Nat.lt_ge_cases i (length (pNodes pNew))) as [L|L]; [rewrite snoc_old in Eo by done; cbn; rewrite <- Hv; by apply Hids|].
    pose proof (lookup_lt_Some _ _ _ Eo) as Hi. rewrite length_app in Hi. cbn in Hi. assert (i = length (pNodes pNew)) as -> by lia. rewrite snoc_new in Eo. by injection Eo as <-.
  - by rewrite length_app.
  - intros j Hj. by apply snoc_old.
Qed.

(** The node is complete. *)
Lemma built_finish d i0 pNew0 pNew (U S : nat -> Prop) ls fl l c r e v : built d i0 pNew0 pNew U ls fl -> i0 = length (pNodes pNew0) -> 2 <= length fl -> (forall y, U y -> S y) ->
  dId r = nV + i0 -> good_node r -> Q r -> nFans r = length fl -> (forall k, k < length fl -> fan r k = lit_notcond (nth k fl 0) (e k)) ->
  K (pNodes (set_obj pNew i0 r)) (fun i => i0 <= i) l (lit (nV + i0) c) ->
  (forall a, node_value r (fun k => xorb (lv d (nth k ls 0) a) (e k)) = Some (xorb (v a) c)) ->
  copied pNew0 S v l (set_obj pNew i0 r) (lit (nV + i0) c).
Proof.
  intros B Ei H2 HU Eid Hg Hin En Hfan HK Hval.
  assert (built d i0 pNew0 (set_obj pNew i0 r) U ls fl) as [B1 B2 B3 B4 B5 B6 (xs & D & Hxs & B8 & B9 & B10)].
  { apply (built_frame _ _ _ pNew); [done|apply B| |by unfold set_obj; cbn; rewrite length_insert|intros j _ Hj; by apply list_lookup_insert_ne].
    intros j oj Ej. cbn [dnVars set_obj]. destruct (decide (j = i0)) as [->|Hj].
    - unfold set_obj in Ej. cbn in Ej. rewrite list_lookup_insert_eq in Ej by apply B. injection Ej as <-. by rewrite (bu_vars _ _ _ _ _ _ _ B).
    - unfold set_obj in Ej. cbn in Ej. rewrite list_lookup_insert_ne in Ej by done. by apply (bu_ids _ _ _ _ _ _ _ B). }
  assert (pNodes (set_obj pNew i0 r) !! i0 = Some r) as Er by (apply list_lookup_insert_eq; apply B).
  set (pN := set_obj pNew i0 r) in *. assert (length (pNodes pN) = length (pNodes pNew)) as Elen by apply length_insert.
  assert (vars nV S xs) as HxS by (destruct Hxs as [Hnd Hx]; split; [done|]; intros x Hxin; destruct (Hx x Hxin); auto).
  split.
  - split; [done|done|lia|]. intros j Hj. apply B4. lia.
  - destruct (trees_each _ _ _ _ B5) as (T & HT & HTU & Hdis). apply (tree_node _ _ _ i0 r c T); [done|done|right; lia| | |].
    + intros k Hk. rewrite En in Hk. eapply tree_same; [by apply HT|]. rewrite Hfan by done. apply lit_id_notcond.
    + intros k y Hk Hy. rewrite En in Hk. destruct (HTU k y Hk Hy) as [[L Hy']|L]; [split; [left; auto|lia]|split; [right; lia|lia]].
    + intros k k' y Hk Hk'. rewrite En in Hk, Hk'. by apply Hdis.
  - by rewrite <- Ei.
  - exists xs. split; [done|]. split; [lia|]. intros a.
    assert (den (pNodes pN) nV a (fun i => length (pNodes pNew0) <= i) (Datatypes.S D) (lit (nV + i0) c) (v a)) as Hd; [|eapply den_frame; [exact Hd|lia|done|done]].
    eapply den_val; [apply (den_node _ _ _ _ D i0 r c (fun k => xorb (lv d (nth k ls 0) a) (e k)) (xorb (v a) c))|].
    + lia.
    + done.
    + done.
    + intros k Hk. rewrite En in Hk. rewrite Hfan by done. apply den_notcond. eapply den_frame; [apply (Forall2_nth _ _ _ k 0 0 B10 Hk)|done|cbn; intros; lia|done].
    + apply Hval.
    + by rewrite xorb_assoc, xorb_nilpotent, xorb_false_r.
Qed.

Section children.
Context (rec : dsd_copy_call) (d : nat) (W : copies rec d) (S : nat -> Prop) (ls : list nat) (T : nat -> nat -> Prop) (pNew0 : Kit_DsdNtk_t).
Local Notation i0 := (length (pNodes pNew0)).
Context (HT : forall k, k < length ls -> tree_of inner nodes nV (T k) (nth k ls 0)) (HTS : forall k y, k < length ls -> T k y -> S y)
  (Hdis : forall k k' y, k < length ls -> k' < length ls -> k <> k' -> T k y -> T k' y -> False) (Hdef : forall k, k < length ls -> defined d (nth k ls 0)) (HH : forall k, k < length ls -> Old (nth k ls 0))
  (H2 : 2 <= length ls) (Hroom : room i0 S).

Definition upto (k y : nat) : Prop := exists j, j < k /\ T j y.

Lemma reps k : k <= length ls -> exists rs, vars nV (fun y => exists j, k <= j < length ls /\ T j y) rs /\ length rs = length ls - k.
Proof.
  intros Hk. assert (forall n, n <= length ls - k -> exists rs, vars nV (fun y => exists j, length ls - n <= j < length ls /\ T j y) rs /\ length rs = n) as H.
  { induction n as [|n IH]; intros Hn; [exists []; split; [apply vars_nil|done]|]. destruct (IH ltac:(lia)) as (rs & Hrs & El).
    destruct (tree_leaf _ _ _ _ (HT (length ls - Datatypes.S n) ltac:(lia))) as (x & Hx & HTx). exists ([x] ++ rs). split; [|cbn; lia].
    apply (vars_app nV _ (T (length ls - Datatypes.S n)) (fun y => exists j, length ls - n <= j < length ls /\ T j y)); [split; [apply NoDup_singleton|by intros y ->%list_elem_of_singleton]|done| | |].
    - intros y Hy. exists (length ls - Datatypes.S n). split; [lia|done].
    - intros y (j & Hj & Hy). exists j. split; [lia|done].
    - intros y Hy (j & Hj & Hy'). apply (Hdis (length ls - Datatypes.S n) j y); done || lia. }
  destruct (H (length ls - k) ltac:(lia)) as (rs & Hrs & El). exists rs. split; [|done]. by replace (length ls - (length ls - k)) with k in Hrs by lia.
Qed.

Lemma start_room : nV + i0 + length ls <= 64 /\ length ls <= nV.
Proof.
  destruct (reps 0 ltac:(lia)) as (rs & Hrs & El). rewrite Nat.sub_0_r in El. rewrite <- El. split; [|by eapply vars_length]. apply Hroom. destruct Hrs as [Hnd H]. split; [done|].
  intros x Hx. destruct (H x Hx) as (L & j & Hj & Hy). split; [done|]. apply (HTS j); [lia|done].
Qed.

Lemma child_room k pNew fl : k < length ls -> built d i0 pNew0 pNew (upto k) (take k ls) fl -> room (length (pNodes pNew)) (T k).
Proof.
  intros Hk [_ _ _ _ _ B5 (xs & D & Hxs & B9 & _)] ys Hys. destruct (reps (Datatypes.S k) ltac:(lia)) as (rs & Hrs & El).
  assert (length fl = k) as Efl by (apply Forall2_length in B5; rewrite length_take in B5; lia). rewrite Efl in B9.
  assert (vars nV S (xs ++ ys ++ rs)) as Hall; [|pose proof (Hroom _ Hall) as Hr; rewrite !length_app in Hr; lia].
  apply (vars_app nV S (upto k) (fun y => exists j, k <= j < length ls /\ T j y)); [done| | | |].
  - apply (vars_app nV _ (T k) (fun y => exists j, Datatypes.S k <= j < length ls /\ T j y)); [done|done| | |].
    + intros y Hy. exists k. split; [lia|done].
    + intros y (j & Hj & Hy). exists j. split; [lia|done].
    + intros y Hy (j & Hj & Hy'). apply (Hdis k j y); done || lia.
  - intros y (j & Hj & Hy). apply (HTS j); [lia|done].
  - intros y (j & Hj & Hy). apply (HTS j); [lia|done].
  - intros y (j & Hj & Hy) (j' & Hj' & Hy'). apply (Hdis j j' y); done || lia.
Qed.

Lemma child_works k pNew fl : k < length ls -> built d i0 pNew0 pNew (upto k) (take k ls) fl -> length fl = k /\ exists l' pNew', rec pNew (nth k ls 0) = Some (l', pNew') /\
  built d i0 pNew0 pNew' (upto (Datatypes.S k)) (take (Datatypes.S k) ls) (fl ++ [l']) /\ pNodes pNew' !! i0 = pNodes pNew !! i0.
Proof.
  intros Hk B. pose proof B as [B1 B2 B3 _ _ B5 _]. assert (length fl = k) as Efl by (apply Forall2_length in B5; rewrite length_take in B5; lia). split; [done|].
  destruct (W pNew (T k) (nth k ls 0) (HT k Hk) (Hdef k Hk) (HH k Hk) B2 B1 (child_room k pNew fl Hk B)) as (l' & pNew' & E & Hex). exists l', pNew'. split; [done|]. split; [|by apply Hex].
  rewrite (take_S_r ls k (nth k ls 0)) by (by apply nth_place). apply (built_step d i0 pNew0 pNew (upto k) (T k) _ _ _ _ _ _ B Hex).
  - intros y (j & Hj & Hy). exists j. split; [lia|done].
  - intros y Hy. exists k. split; [lia|done].
  - intros y (j & Hj & Hy) Hy'. apply (Hdis j k y); done || lia.
Qed.

(** The fanins are written one after the other. *)
Lemma fill_insert (fl : list nat) k n l : length fl = k -> k < n -> <[k := l]> (fl ++ repeat 0 (n - k)) = (fl ++ [l]) ++ repeat 0 (n - Datatypes.S k).
Proof. intros <- Hk. rewrite insert_app_r_alt, Nat.sub_diag by done. replace (n - length fl) with (Datatypes.S (n - Datatypes.S (length fl))) by lia. cbn. by rewrite <- app_assoc. Qed.

Lemma built_write pNew k fls fl l o U : built d i0 pNew0 pNew U fls fl -> pNodes pNew !! i0 = Some o -> k < length (pFans o) -> exists pNew', write_lit pNew (par_fan i0 k) l = Some pNew' /\
  built d i0 pNew0 pNew' U fls fl /\ pNodes pNew' !! i0 = Some (with_fans o (nFans o) (<[k := l]> (pFans o))).
Proof.
  intros B Eo Hk. cbn [write_lit]. rewrite Eo. cbn [mbind option_bind]. rewrite (proj2 (Nat.ltb_lt _ _) Hk). eexists. split; [done|]. split; [|apply list_lookup_insert_eq, B].
  apply (built_frame _ _ _ pNew); [done|apply B| |unfold set_obj; cbn; by rewrite length_insert|intros j _ Hj; by apply list_lookup_insert_ne].
  intros j oj Ej. cbn [dnVars set_obj]. unfold set_obj in Ej. cbn in Ej. destruct (decide (j = i0)) as [->|Hj].
  - rewrite list_lookup_insert_eq in Ej by apply B. injection Ej as <-. by apply (bu_ids _ _ _ _ _ _ _ B i0 o).
  - rewrite list_lookup_insert_ne in Ej by done. by apply (bu_ids _ _ _ _ _ _ _ B).
Qed.

Lemma and_loop (lits : list nat) o pN1 : (forall k, k < length ls -> nth k lits 0 = nth k ls 0) -> built d i0 pNew0 pN1 (upto 0) [] [] -> pNodes pN1 !! i0 = Some o -> pFans o = repeat 0 (length ls) ->
  exists pN2 fl, for_up (length ls) (fun i s => pNew ← s; '(l, pNew) ← rec pNew (nth i lits 0); write_lit pNew (par_fan i0 i) l) (Some pN1) = Some pN2 /\
    built d i0 pNew0 pN2 (upto (length ls)) ls fl /\ length fl = length ls /\ pNodes pN2 !! i0 = Some (with_fans o (nFans o) fl).
Proof.
  intros Hlits B0 Eo Ef. destruct (for_up_ind (fun k s => exists pN2 fl, s = Some pN2 /\ built d i0 pNew0 pN2 (upto k) (take k ls) fl /\ length fl = k /\
      pNodes pN2 !! i0 = Some (with_fans o (nFans o) (fl ++ repeat 0 (length ls - k)))) (length ls)
    (fun i s => pNew ← s; '(l, pNew) ← rec pNew (nth i lits 0); write_lit pNew (par_fan i0 i) l) (Some pN1)) as (pN2 & fl & -> & B & Efl & E).
  - exists pN1, []. split; [done|]. split; [done|]. split; [done|]. cbn [Datatypes.app]. rewrite Nat.sub_0_r, <- Ef, Eo. by destruct o.
  - intros k s Hk (pN2 & fl & -> & B & Efl & E). cbn [mbind option_bind]. destruct (child_works k pN2 fl Hk B) as (_ & l' & pN3 & Er & B3 & E3). rewrite Hlits, Er by done. cbn [mbind option_bind].
    rewrite E in E3. destruct (built_write pN3 k _ _ l' _ _ B3 E3) as (pN4 & E4 & B4 & E4'); [cbn; rewrite length_app, repeat_length; lia|].
    exists pN4, (fl ++ [l']). split; [done|]. split; [done|]. split; [rewrite length_app; cbn; lia|]. rewrite E4'. cbn [pFans nFans with_fans]. by rewrite (fill_insert fl k).
  - exists pN2, fl. split; [done|]. rewrite take_ge in B by done. split; [done|]. split; [done|]. rewrite E, Nat.sub_diag. cbn [repeat]. by rewrite app_nil_r.
Qed.

(** The complements of the first literals. *)
Fixpoint parity (lits : list nat) (k : nat) : bool := match k with O => false | Datatypes.S k => xorb (parity lits k) (lit_compl (nth k lits 0)) end.

Lemma xor_loop (lits : list nat) o pN1 c : (forall k, k < length ls -> lit_regular (nth k lits 0) = nth k ls 0) -> built d i0 pNew0 pN1 (upto 0) [] [] -> pNodes pN1 !! i0 = Some o -> pFans o = repeat 0 (length ls) ->
  exists pN2 fl, for_up (length ls) (fun i s => '(fCompl, pNew) ← s; '(l, pNew) ← rec pNew (lit_regular (nth i lits 0)); pNew ← write_lit pNew (par_fan i0 i) l;
      Some (xorb fCompl (lit_compl (nth i lits 0)), pNew)) (Some (c, pN1)) = Some (xorb c (parity lits (length ls)), pN2) /\
    built d i0 pNew0 pN2 (upto (length ls)) ls fl /\ length fl = length ls /\ pNodes pN2 !! i0 = Some (with_fans o (nFans o) fl).
Proof.
  intros Hlits B0 Eo Ef. destruct (for_up_ind (fun k s => exists pN2 fl, s = Some (xorb c (parity lits k), pN2) /\ built d i0 pNew0 pN2 (upto k) (take k ls) fl /\ length fl = k /\
      pNodes pN2 !! i0 = Some (with_fans o (nFans o) (fl ++ repeat 0 (length ls - k)))) (length ls)
    (fun i s => '(fCompl, pNew) ← s; '(l, pNew) ← rec pNew (lit_regular (nth i lits 0)); pNew ← write_lit pNew (par_fan i0 i) l;
      Some (xorb fCompl (lit_compl (nth i lits 0)), pNew)) (Some (c, pN1))) as (pN2 & fl & -> & B & Efl & E).
  - exists pN1, []. split; [by rewrite xorb_false_r|]. split; [done|]. split; [done|]. cbn [Datatypes.app]. rewrite Nat.sub_0_r, <- Ef, Eo. by destruct o.
  - intros k s Hk (pN2 & fl & -> & B & Efl & E). cbn [mbind option_bind]. destruct (child_works k pN2 fl Hk B) as (_ & l' & pN3 & Er & B3 & E3). rewrite Hlits, Er by done. cbn [mbind option_bind].
    rewrite E in E3. destruct (built_write pN3 k _ _ l' _ _ B3 E3) as (pN4 & E4 & B4 & E4'); [cbn; rewrite length_app, repeat_length; lia|].
    rewrite E4. cbn [mbind option_bind]. exists pN4, (fl ++ [l']). split; [cbn [parity]; by rewrite xorb_assoc|]. split; [done|]. split; [rewrite length_app; cbn; lia|]. rewrite E4'. cbn [pFans nFans with_fans]. by rewrite (fill_insert fl k).
  - exists pN2, fl. split; [done|]. rewrite take_ge in B by done. split; [done|]. split; [done|]. rewrite E, Nat.sub_diag. cbn [repeat]. by rewrite app_nil_r.
Qed.
(** The fanins of a prime node; its table takes their complements. *)
Definition phased (fl : list nat) (F : nat -> bool) (t : list Z) : Prop := let n := length ls in proper n t /\ (forall v, v < n -> ~ vac v (tfun n t)) /\
  forall B, app n (tfun n t) B = app n F (fun j => xorb (B j) (lit_compl (nth j fl 0))).

Lemma phased_step fl F t l : depends_below (length ls) F -> length fl < length ls -> phased fl F t ->
  phased (fl ++ [l]) F (if lit_compl l then Kit_TruthChangePhase t (length ls) (length fl) else t).
Proof.
  intros HF Hl (Hp & Hv & Ha). assert (forall j b, xorb b (lit_compl (nth j (fl ++ [l]) 0)) = xorb (xorb b (lit_compl (nth j fl 0))) ((j =? length fl) && lit_compl l)) as Hn.
  { intros j b. destruct (Nat.lt_trichotomy j (length fl)) as [L|[->|L]].
    - rewrite app_nth1 by done. rewrite (proj2 (Nat.eqb_neq _ _)) by lia. by rewrite andb_false_l, xorb_false_r.
    - rewrite nth_middle, Nat.eqb_refl, andb_true_l, (nth_overflow fl) by done. cbn [lit_compl Nat.odd Nat.even negb]. by rewrite xorb_false_r.
    - rewrite !nth_overflow by (rewrite ?length_app; cbn; lia). rewrite (proj2 (Nat.eqb_neq _ _)) by lia. cbn. by rewrite !xorb_false_r. }
  destruct (lit_compl l) eqn:El.
  - split; [by apply proper_ChangePhase|]. split; [intros v Hvn Hc; apply (Hv v Hvn); by apply (vac_ChangePhase _ _ (length fl)); [|apply Hp|]|].
    intros B. rewrite app_ChangePhase, Ha by done. apply app_agree; [done|]. intros j Hj. right. rewrite Hn, andb_true_r. unfold upd. destruct (Nat.eqb_spec j (length fl)) as [->|]; [|by rewrite xorb_false_r].
    destruct (B (length fl)), (lit_compl (nth (length fl) fl 0)); done.
  - split; [done|]. split; [done|]. intros B. rewrite Ha. apply app_agree; [done|]. intros j Hj. right. by rewrite Hn, andb_false_r, xorb_false_r.
Qed.

Lemma built_truth pNew fls fl o t U : built d i0 pNew0 pNew U fls fl -> pNodes pNew !! i0 = Some o -> built d i0 pNew0 (set_obj pNew i0 (with_truth o t)) U fls fl.
Proof.
  intros B Eo. apply (built_frame _ _ _ pNew); [done|apply B| |unfold set_obj; cbn; by rewrite length_insert|intros j _ Hj; by apply list_lookup_insert_ne].
  intros j oj Ej. cbn [dnVars set_obj]. unfold set_obj in Ej. cbn in Ej. destruct (decide (j = i0)) as [->|Hj].
  - rewrite list_lookup_insert_eq in Ej by apply B. injection Ej as <-. by apply (bu_ids _ _ _ _ _ _ _ B i0 o).
  - rewrite list_lookup_insert_ne in Ej by done. by apply (bu_ids _ _ _ _ _ _ _ B).
Qed.

Definition prime_at (o : Kit_DsdObj_t) (F : nat -> bool) (k : nat) (pN : Kit_DsdNtk_t) (fl : list nat) : Prop := built d i0 pNew0 pN (upto k) (take k ls) fl /\ length fl = k /\
  exists t, phased fl F t /\ pNodes pN !! i0 = Some (with_truth (with_fans o (nFans o) (map lit_regular fl ++ repeat 0 (length ls - k))) t).

Lemma fan_step o F k pN fl : nFans o = length ls -> depends_below (length ls) F -> k < length ls -> prime_at o F k pN fl ->
  exists pN' l', dsd_prime_fan rec i0 k (nth k ls 0) pN = Some pN' /\ prime_at o F (Datatypes.S k) pN' (fl ++ [l']).
Proof.
  intros En HF Hk (B & Efl & t & Ht & E). destruct (child_works k pN fl Hk B) as (_ & l' & pN1 & Er & B1 & E1). rewrite E in E1.
  assert (length (map lit_regular fl) = k) as Efm by (by rewrite length_map).
  destruct (built_write pN1 k _ _ l' _ _ B1 E1) as (pN2 & E2 & B2 & E2'); [cbn; rewrite length_app, repeat_length; lia|].
  cbn [pFans nFans with_fans with_truth] in E2'. rewrite (fill_insert (map lit_regular fl)) in E2' by done.
  unfold dsd_prime_fan. rewrite Er. cbn [mbind option_bind]. rewrite E2. cbn [mbind option_bind]. pose proof (phased_step fl F t l' HF ltac:(lia) Ht) as Hst.
  assert (length (fl ++ [l']) = Datatypes.S k) as Efl' by (rewrite length_app; cbn; lia).
  destruct (lit_compl l') eqn:El.
  - destruct (built_write pN2 k _ _ (lit_regular l') _ _ B2 E2') as (pN3 & E3 & B3 & E3'); [cbn; rewrite !length_app, repeat_length; cbn; lia|]. rewrite E3. cbn [mbind option_bind]. rewrite E3'. cbn [mbind option_bind].
    eexists _, l'. split; [done|]. split; [by apply built_truth|]. split; [done|]. eexists. split; [exact Hst|].
    unfold set_obj. cbn [pNodes]. rewrite list_lookup_insert_eq by apply B3. cbn [pFans nFans with_fans with_truth pTruth]. rewrite En, Efl. rewrite <- app_assoc, insert_app_r_alt, Efm, Nat.sub_diag by lia. cbn [Datatypes.app insert list_insert].
    by rewrite map_app, <- app_assoc.
  - exists pN2, l'. split; [done|]. split; [done|]. split; [done|]. exists t. split; [done|]. rewrite E2', map_app. cbn [map].
    assert (lit_regular l' = l') as -> by (unfold lit_regular; rewrite <- El; apply lit_eta). done.
Qed.

Lemma prime_loop o F pN1 q : nFans o = length ls -> depends_below (length ls) F -> (forall k, k < length ls -> fan q k = nth k ls 0) -> prime_at o F 0 pN1 [] ->
  exists pN2 fl, for_up (length ls) (fun i s => pNew ← s; dsd_prime_fan rec i0 i (fan q i) pNew) (Some pN1) = Some pN2 /\ prime_at o F (length ls) pN2 fl.
Proof.
  intros En HF Hq H0. destruct (for_up_ind (fun k s => exists pN2 fl, s = Some pN2 /\ prime_at o F k pN2 fl) (length ls)
    (fun i s => pNew ← s; dsd_prime_fan rec i0 i (fan q i) pNew) (Some pN1)) as (pN2 & fl & -> & H); [by exists pN1, []| |by exists pN2, fl].
  intros k s Hk (pN2 & fl & -> & H). cbn [mbind option_bind]. rewrite Hq by done. destruct (fan_step o F k pN2 fl En HF Hk H) as (pN' & l' & E & H'). by exists pN', (fl ++ [l']).
Qed.
End children.

(** * Prime nodes *)

Section node.
Context (Hn16 : nV <= 16) (rec : dsd_copy_call) (d : nat) (W : copies rec d) (S : nat -> Prop) (i : nat) (o : Kit_DsdObj_t) (c : bool) (pNew : Kit_DsdNtk_t).
Local Notation l := (lit (nV + i) c).
Local Notation i0 := (length (pNodes pNew)).
Context (HT : tree_of inner nodes nV S l) (Eo : nodes !! i = Some o) (Hdef : defined (Datatypes.S d) l) (Hids : ids_ok pNew) (Hvars : dnVars pNew = nV) (Hroom : room i0 S)
  (HOld : forall k, k < nFans o -> Old (fan o k)).

Definition copied_to (r : option (nat * Kit_DsdNtk_t)) : Prop := exists l' pNew', r = Some (l', pNew') /\ copied pNew S (lv (Datatypes.S d) l) l pNew' l'.

Lemma finish_set pN2 U ls fl r c' e : built d i0 pNew pN2 U ls fl -> 2 <= length fl -> (forall y, U y -> S y) ->
  dId r = nV + i0 -> good_node r -> Q r -> nFans r = length fl -> (forall k, k < length fl -> fan r k = lit_notcond (nth k fl 0) (e k)) ->
  K (pNodes (set_obj pN2 i0 r)) (fun i => i0 <= i) l (lit (nV + i0) c') ->
  (forall a, node_value r (fun k => xorb (lv d (nth k ls 0) a) (e k)) = Some (xorb (lv (Datatypes.S d) l a) c')) -> copied_to (Some (lit (dId r) c', set_obj pN2 i0 r)).
Proof.
  intros B H2 HU Hid Hg Hin Hnf Hfan HK Hval. rewrite Hid. eexists _, _. split; [done|]. by apply (built_finish d i0 pNew pN2 U S ls fl l c' r e).
Qed.

Lemma upto_in (T : nat -> nat -> Prop) n : (forall k y, k < n -> T k y -> S y) -> forall y, upto T n y -> S y.
Proof. intros H y (j & Hj & Hy). by apply (H j). Qed.

(** A prime node is copied with its fanins made. *)
Definition prime_made (pN2 : Kit_DsdNtk_t) (fl : list nat) (r : Kit_DsdObj_t) : Prop := let ls := map (fan o) (seq 0 (nFans o)) in
  dId r = nV + i0 /\ dType r = KIT_DSD_PRIME /\ nFans r = nFans o /\ length fl = nFans o /\ pFans r = map lit_regular fl /\
  (exists T, built d i0 pNew pN2 (upto T (nFans o)) ls fl /\ forall y, upto T (nFans o) y -> S y) /\
  proper (nFans o) (pTruth r) /\ (forall v, v < nFans o -> ~ vac v (tfun (nFans o) (pTruth r))) /\
  forall B, app (nFans o) (tfun (nFans o) (pTruth r)) B = app (nFans o) (tfun (nFans o) (pTruth o)) (fun j => xorb (B j) (lit_compl (nth j fl 0))).

Lemma prime_start : dType o = KIT_DSD_PRIME -> exists pN2 fl r, 2 <= nFans o /\ prime_made pN2 fl r /\ pNodes pN2 !! i0 = Some r /\
  dsd_prime_copy rec pNew o = Some (i0, pN2).
Proof.
  intros Ety. destruct (node_fans d S i o c HT Eo Hdef) as ([_ H2] & (Hg1 & Hg2 & Hg3) & Hfd & Hval & Htr). destruct (Hg3 Ety) as (_ & Hp & Hv). set (ls := map (fan o) (seq 0 (nFans o))) in *.
  assert (length ls = nFans o) as El by (unfold ls; by rewrite length_map, length_seq).
  assert (forall k, k < nFans o -> fan o k = nth k ls 0) as Hls by (intros k Hk; unfold ls; by rewrite (nth_indep _ 0 (fan o 0)), map_nth, seq_nth by (rewrite ?length_map, ?length_seq; done)).
  destruct (trees_each _ _ _ _ Htr) as (T & HTk & HTS & Hdis). assert (forall k y, k < length ls -> T k y -> S y) as HTS' by (intros k y Hk Hy; by apply (HTS k y Hk Hy)).
  destruct (start_room S ls T pNew HTk HTS' Hdis ltac:(lia) Hroom) as [H64 HnV]. unfold dsd_prime_copy.
  destruct (alloc_spec d pNew KIT_DSD_PRIME (nFans o) Hids Hvars ltac:(lia) ltac:(lia)) as (r & pN & -> & Er & (Rid & Rty & Rn & Rf & Rt) & B0). cbn [mbind option_bind]. rewrite Er. cbn [mbind option_bind].
  set (t := Kit_TruthCopy (pTruth r) (pTruth o) (nFans o)). assert (is_tt (nFans o) (pTruth r)) as Hrt by (rewrite Rt, decide_True by done; apply scratch_tt).
  assert (prime_at d ls T pNew r (tfun (nFans o) (pTruth o)) 0 (set_obj pN i0 (with_truth r t)) []) as H0.
  { split; [apply built_truth; [apply B0|done]|]. split; [done|]. exists t. unfold phased. cbv zeta. rewrite El. split; [split; [by apply proper_Copy|split]|].
    - intros v Hvn Hc. apply (Hv v Hvn). eapply vac_ext; [|exact Hc]. intros m. by apply tfun_Copy.
    - intros B. transitivity (app (nFans o) (tfun (nFans o) (pTruth o)) B); [apply app_fun; intros m; by apply tfun_Copy|]. apply app_agree; [apply Hp|]. intros j Hj. right. by destruct j, (B _).
    - unfold set_obj. cbn [pNodes map Datatypes.app]. rewrite list_lookup_insert_eq by (by eapply lookup_lt_Some). rewrite Nat.sub_0_r, <- Rf. by destruct r. }
  destruct (prime_loop rec d W S ls T pNew HTk HTS' Hdis (fun k Hk => ltac:(rewrite <- Hls by lia; apply Hfd; lia)) (fun k Hk => ltac:(rewrite <- Hls by lia; apply HOld; lia)) ltac:(lia) Hroom r (tfun (nFans o) (pTruth o)) _ o ltac:(lia) ltac:(rewrite El; apply Hp) ltac:(intros k Hk; apply Hls; lia) H0)
    as (pN2 & fl & E & B & Efl & t2 & Ht2 & Er2).
  rewrite El in *. rewrite E. cbn [mbind option_bind]. rewrite Nat.sub_diag in Er2. cbn [repeat] in Er2. rewrite app_nil_r in Er2. exists pN2, fl, (with_truth (with_fans r (nFans r) (map lit_regular fl)) t2). 
  split; [done|]. split; [|done]. unfold prime_made. fold ls. cbn [dId dType nFans pFans pTruth with_truth with_fans]. unfold phased in Ht2. cbv zeta in Ht2. rewrite El in Ht2. destruct Ht2 as (Q1 & Q2 & Q3). rewrite take_ge in B by lia. repeat (split; [done|]). split; [|done].
  exists T. split; [done|]. apply (upto_in T). done.
Qed.

(** The value of the node, in terms of its new table. *)
Lemma prime_value pN2 fl r a : dType o = KIT_DSD_PRIME -> prime_made pN2 fl r ->
  app (nFans o) (tfun (nFans o) (pTruth r)) (fun j => xorb (lv d (nth j (map (fan o) (seq 0 (nFans o))) 0) a) (lit_compl (nth j fl 0))) = xorb (lv (Datatypes.S d) l a) c.
Proof.
  intros Ety (_ & _ & _ & _ & _ & _ & _ & _ & H). destruct (node_fans d S i o c HT Eo Hdef) as (_ & (_ & _ & Hg3) & _ & Hval & _). destruct (Hg3 Ety) as (_ & Hp & _).
  specialize (Hval a). unfold node_value in Hval. rewrite Ety in Hval. injection Hval as <-. rewrite H. apply app_agree; [apply Hp|]. intros j Hj. right.
  rewrite xorb_assoc, xorb_nilpotent, xorb_false_r. f_equal. by rewrite (nth_indep _ 0 (fan o 0)), map_nth, seq_nth by (rewrite ?length_map, ?length_seq; done).
Qed.

Lemma prime_plain pN2 fl r : dType o = KIT_DSD_PRIME -> 2 <= nFans o -> prime_made pN2 fl r -> pNodes pN2 !! i0 = Some r -> (forall r, dType r = KIT_DSD_PRIME -> 2 <= nFans r -> Q r) ->
  (forall r T, dType r = KIT_DSD_PRIME -> nFans r = nFans o -> pFans r = map lit_regular fl -> built d i0 pNew pN2 (upto T (nFans o)) (map (fan o) (seq 0 (nFans o))) fl ->
    K (pNodes (set_obj pN2 i0 r)) (fun i => i0 <= i) l (lit (nV + i0) false)) ->
  copied_to (dsd_prime_phase pN2 i0 o l).
Proof.
  intros Ety H2 Hm Er HQ HK. unfold dsd_prime_phase. rewrite Er. cbn [mbind option_bind]. rewrite lit_compl_lit. pose proof (prime_value pN2 fl r) as Hval. destruct (Hm) as (Rid & Rty & Rn & Efl & Rf & (T & B & HTS) & Hp & Hv & _). destruct (node_fans d S i o c HT Eo Hdef) as (_ & (_ & Hg2 & _) & _).
  assert (forall r', dId r' = dId r -> dType r' = dType r -> nFans r' = nFans r -> pFans r' = pFans r -> proper (nFans o) (pTruth r') -> (forall v, v < nFans o -> ~ vac v (tfun (nFans o) (pTruth r'))) ->
    (forall m, tfun (nFans o) (pTruth r') m = xorb (tfun (nFans o) (pTruth r) m) c) -> copied_to (Some (lit (dId r') false, set_obj pN2 i0 r'))) as Hr.
  { intros r' E1 E2 E3 E4 Hp' Hv' Ht'. apply (finish_set pN2 _ _ fl r' false (fun k => lit_compl (nth k fl 0)) B); try done || lia || congruence.
    - split; [rewrite E4, Rf, length_map; lia|]. split; [lia|]. rewrite E3, Rn. intros _. split; [lia|done].
    - apply HQ; [congruence|lia].
    - intros k Hk. unfold fan. rewrite E4, Rf, nth_regular. apply regular_notcond.
    - apply (HK r' T); [congruence|lia|congruence|done].
    - intros a. unfold node_value. rewrite E2, E3, Rty, Rn, xorb_false_r. f_equal. specialize (Hval a Ety Hm). unfold app in *. rewrite Ht', Hval. by rewrite xorb_assoc, xorb_nilpotent, xorb_false_r. }
  destruct c; cbv zeta.
  - apply Hr; try done; cbn [pTruth with_truth].
    + by apply proper_Not.
    + intros v Hvn Hc. apply (Hv v Hvn). apply (vac_Not _ _ _ (proj1 Hp) Hc).
    + intros m. rewrite tfun_Not by apply Hp. by destruct (tfun _ _ m).
  - apply Hr; try done. intros m. by rewrite xorb_false_r.
Qed.

End node.
End contract.
End old.

(** * The network *)

(** The result of a conversion. *)
Record converted (Q : Kit_DsdObj_t -> Prop) (p q : Kit_DsdNtk_t) (S : nat -> Prop) (v : (nat -> bool) -> bool) : Prop := {
  cv_vars : dnVars q = dnVars p;
  cv_ids : ids_ok q;
  cv_length : length (pNodes q) <= Nat.max 1 (dnVars p);
  cv_den : forall a, den (pNodes q) (dnVars p) a (fun _ => True) (dnVars p + 1) (Root q) (v a);
  cv_tree : dsd_tree Q q S }.

Section entry.
Context (Q : Kit_DsdObj_t -> Prop) (p : Kit_DsdNtk_t) (P : nat -> Prop) (S : nat -> Prop) (v : (nat -> bool) -> bool) (convert : dsd_copy_call).
Local Notation nodes := (pNodes p).
Local Notation nV := (dnVars p).
Context (H16 : nV <= 16) (Hden : forall a, den nodes nV a P (nV + 1) (Root p) (v a)).

Lemma convert_tree K Old : copies p P Q K Old convert (nV + 1) -> Old (Root p) -> (forall new l', K new (fun _ => True) (Root p) l' -> nV <= lit_id (Root p) -> nV <= lit_id l') -> Stable K ->
  tree_root inner p S -> exists q, dsd_convert convert p = Some q /\ converted Q p q S v /\ K (pNodes q) (fun _ => True) (Root p) (Root q).
Proof.
  intros Hwork HOld HK Hst [(i & c & Er) Ht]. rewrite Er in *. assert (forall a, lv p (nV + 1) (lit (nV + i) c) a = v a) as Hv by (intros a; by apply (den_lv p P)).
  assert (defined p P (nV + 1) (lit (nV + i) c)) as Hdef by (intros a; by rewrite Hv).
  destruct (ntk_obj p _ _ Ht) as [[Hx _]|(j & o & c' & Ej & Eo & _ & Eobj)]; [rewrite lit_id_lit in Hx; lia|].
  assert (j = i) as -> by (apply (f_equal lit_id) in Ej; rewrite !lit_id_lit in Ej; lia). destruct (tree_inv _ _ _ _ i o Ht ltac:(apply lit_id_lit) Eo) as ([Hty _] & _).
  destruct (Hwork (Kit_DsdNtkAlloc nV) _ _ Ht Hdef HOld) as (l' & q & E & [G1 G3 G4 (xs & Hxs & Hlen & G2)]); [by intros [|k] ok|done| |].
  { intros xs Hxs. pose proof (vars_length _ _ _ Hxs). cbn. lia. }
  exists (mkDsdNtk (dnVars q) l' (pNodes q)). unfold dsd_convert. rewrite (proj2 (Nat.leb_le _ _) H16), Er, Eobj. cbn [mbind option_bind].
  rewrite !decide_False by (destruct Hty as [->|[->| ->]]; done). rewrite E. split; [done|]. pose proof (vars_length _ _ _ Hxs). cbn [length pNodes Kit_DsdNtkAlloc] in *. destruct G1 as [V1 V2 V3 V4].
  assert (K (pNodes q) (fun _ => True) (lit (nV + i) c) l') as HKq by (eapply stable_frame; [exact G4|done|done]). split; [|done].
  split; cbn [dnVars pNodes Root]; [done|done|lia| |].
  - intros a. rewrite <- Hv. eapply den_frame; [apply G2|lia|done|done].
  - right. unfold tree_root. cbn [dnVars pNodes Root]. rewrite V1. split.
    + specialize (HK _ _ HKq). rewrite lit_id_lit in HK. exists (lit_id l' - nV), (lit_compl l'). rewrite <- (lit_eta l') at 1. f_equal. lia.
    + eapply tree_mono; [exact G3|]. intros y [[L Hy]|L] Ly; [by apply Hy|cbn in L; lia].
Qed.

(** A network of one node without fanins or with one variable below it. *)
Lemma converted_one r (c : bool) B : dId r = nV -> good_node r -> (dType r = KIT_DSD_CONST1 /\ nFans r = 0 \/ dType r = KIT_DSD_VAR /\ nFans r = 1 /\ exists x b, x < nV /\ S x /\ fan r 0 = lit x b) ->
  (forall a k, k < nFans r -> den [r] nV a (fun _ => True) nV (fan r k) (B a k)) -> (forall a, node_value r (B a) = Some (xorb (v a) c)) ->
  converted Q p (mkDsdNtk nV (lit nV c) [r]) S v /\ simple_root (mkDsdNtk nV (lit nV c) [r]) S.
Proof.
  intros Hid Hg Hk HB Hv. assert (simple_root (mkDsdNtk nV (lit nV c) [r]) S) as Hs by (by exists r, c). split; [|done]. split; cbn [dnVars pNodes Root length]; [done|by apply one_id|lia| |by left].
  intros a. rewrite Nat.add_1_r. eapply den_val; [apply (one_node r nV c a (B a) _ _ _ eq_refl Hg (HB a) (Hv a))|]. by rewrite xorb_assoc, xorb_nilpotent, xorb_false_r.
Qed.

Lemma convert_simple : simple_root p S -> exists q, dsd_convert convert p = Some q /\ converted Q p q S v /\ simple_root q S.
Proof.
  intros (o & c & En & Er & H). unfold dsd_convert, Kit_DsdNtkObj. rewrite (proj2 (Nat.leb_le _ _) H16), Er, En, lit_id_lit, lit_compl_lit. cbn [length]. rewrite (proj2 (Nat.ltb_lt nV (nV + 1))), (proj2 (Nat.ltb_ge nV nV)), Nat.sub_diag by lia.
  change ([o] !! 0) with (Some o). cbn [mbind option_bind]. rewrite Er, En in Hden. pose proof (fun a => one_value nV P a o c (v a) (Hden a)) as HF.
  destruct H as [[Ety En0]|(Ety & En1 & x & b & Hx & HSx & Ef)].
  - rewrite decide_True by done. rewrite alloc_eq. cbn [dnVars pNodes Root Kit_DsdNtkAlloc length Datatypes.app mbind option_bind]. rewrite Nat.add_0_r, (Nat.mod_small nV) by (cbn; lia).
    change ([?r] !! 0) with (Some r). cbn [mbind option_bind dId]. eexists. split; [done|]. apply (converted_one _ c (fun a k => false)); [done|split; [cbn; lia|split; [cbn; lia|done]]|by left|cbn; lia|].
    intros a. unfold node_value. cbn [dType]. f_equal. symmetry. by apply HF.
  - rewrite decide_False, decide_True by (done || congruence). rewrite alloc_eq. cbn [dnVars pNodes Root Kit_DsdNtkAlloc length Datatypes.app mbind option_bind]. rewrite Nat.add_0_r, (Nat.mod_small nV) by (cbn; lia).
    change ([?r] !! 0) with (Some r). cbn [mbind option_bind dId]. cbn [write_lit pNodes set_obj]. change ([?r] !! 0) with (Some r). cbn -[Nat.modulo lit].
    eexists. split; [done|]. apply (converted_one _ c (fun a k => xorb (a x) b)); cbn [dId nFans pFans dType with_fans].
    + done.
    + split; [cbn; lia|split; [cbn; lia|done]].
    + right. split; [done|]. split; [done|]. by exists x, b.
    + intros a k Hk. replace k with 0 by (cbn in Hk; lia). unfold fan. cbn [nth pFans with_fans]. change (nth 0 (pFans o) 0) with (fan o 0). rewrite Ef. by constructor.
    + intros a. unfold node_value. cbn [dType nFans with_fans]. f_equal. symmetry. by apply HF.
Qed.
End entry.

Lemma tree_inner pNtk S : dsd_tree binary pNtk S -> dsd_tree inner pNtk S.
Proof. intros [H|[H1 H2]]; [by left|right; split; [done|by apply (tree_kinds _ _ _ _ _ _ binary_inner)]]. Qed.
