(* ===== verification/DsdExpand.v ===== *)
(** Expansion of networks of decomposition nodes ([kitDsd.c]): and- and xor-nodes below nodes of the same kind are merged,
    complemented fanins of prime nodes move into their tables, and multiplexers get one shape. *)
From S2P Require Import Prelude Words Relabel Minterm TruthBasic TruthCof TruthPerm TruthSupp Cube Minato Isop CloudTruth Dsd DsdFun DsdDec DsdRun DsdTruth DsdBuild.

(** * The code *)

(** The literals are pushed to an array of sixteen; the type of a node is only read below the root of a gate. *)
Fixpoint Kit_DsdExpandCollectAnd_rec (fuel : nat) (p : Kit_DsdNtk_t) (iLit : nat) (piLitsNew : list nat) : option (list nat) :=
  match fuel with
  | O => None
  | S fuel =>
    pObj ← Kit_DsdNtkObj p (lit_id iLit);
    if lit_compl iLit || (lit_id iLit <? dnVars p) || negb (bool_decide (dType <$> pObj = Some KIT_DSD_AND)) then
      assert! length piLitsNew <? 16 in Some (piLitsNew ++ [iLit])
    else
      o ← pObj;
      for_up (nFans o) (fun i s => piLitsNew ← s; Kit_DsdExpandCollectAnd_rec fuel p (fan o i) piLitsNew) (Some piLitsNew)
  end.

Fixpoint Kit_DsdExpandCollectXor_rec (fuel : nat) (p : Kit_DsdNtk_t) (iLit : nat) (piLitsNew : list nat) : option (list nat) :=
  match fuel with
  | O => None
  | S fuel =>
    pObj ← Kit_DsdNtkObj p (lit_id iLit);
    if (lit_id iLit <? dnVars p) || negb (bool_decide (dType <$> pObj = Some KIT_DSD_XOR)) then
      assert! length piLitsNew <? 16 in Some (piLitsNew ++ [iLit])
    else
      o ← pObj;
      piLitsNew ← for_up (nFans o) (fun i s => piLitsNew ← s; Kit_DsdExpandCollectXor_rec fuel p (fan o i) piLitsNew) (Some piLitsNew);
      if lit_compl iLit then l0 ← piLitsNew !! 0; Some (<[0 := lit_not l0]> piLitsNew) else Some piLitsNew
  end.

Definition dsd_expand_and (rec : dsd_copy_call) (fuel : nat) (pNew p : Kit_DsdNtk_t) (iLit : nat) : option (nat * Kit_DsdNtk_t) :=
  piLitsNew ← Kit_DsdExpandCollectAnd_rec fuel p (lit_regular iLit) [];
  let '(pObjNew, pNew) := Kit_DsdObjAlloc pNew KIT_DSD_AND (length piLitsNew) in
  o ← pNodes pNew !! pObjNew;
  pNew ← for_up (nFans o) (fun i s => pNew ← s; '(l, pNew) ← rec pNew (nth i piLitsNew 0); write_lit pNew (par_fan pObjNew i) l) (Some pNew);
  Some (lit (dId o) (lit_compl iLit), pNew).

Definition dsd_expand_xor (rec : dsd_copy_call) (fuel : nat) (pNew p : Kit_DsdNtk_t) (iLit : nat) : option (nat * Kit_DsdNtk_t) :=
  piLitsNew ← Kit_DsdExpandCollectXor_rec fuel p (lit_regular iLit) [];
  let '(pObjNew, pNew) := Kit_DsdObjAlloc pNew KIT_DSD_XOR (length piLitsNew) in
  o ← pNodes pNew !! pObjNew;
  '(fCompl, pNew) ← for_up (nFans o) (fun i s =>
    '(fCompl, pNew) ← s;
    '(l, pNew) ← rec pNew (lit_regular (nth i piLitsNew 0));
    pNew ← write_lit pNew (par_fan pObjNew i) l;
    Some (xorb fCompl (lit_compl (nth i piLitsNew 0)), pNew)) (Some (lit_compl iLit, pNew));
  Some (lit (dId o) fCompl, pNew).

(** The four tables of multiplexers, up to the complements of the data inputs. *)
Definition mux_table (w : Z) : bool := (w =? 0xCACACACA)%Z || (w =? 0xC5C5C5C5)%Z || (w =? 0x3A3A3A3A)%Z || (w =? 0x35353535)%Z.

(** A multiplexer: the literal that it had is complemented when its true input is.  A swap goes through a byte. *)
Definition dsd_expand_mux (o : Kit_DsdObj_t) (iLit : nat) : Kit_DsdObj_t * nat :=
  let w := (pTruth o).[0] in
  let fans := pFans o in
  let fans := if (w =? 0xC5C5C5C5)%Z then <[0 := lit_not (nth 0 fans 0)]> fans
    else if (w =? 0x3A3A3A3A)%Z then <[1 := lit_not (nth 1 fans 0)]> fans
    else if (w =? 0x35353535)%Z then <[1 := lit_not (nth 1 fans 0)]> (<[0 := lit_not (nth 0 fans 0)]> fans)
    else fans in
  let fans := if lit_compl (nth 2 fans 0) then
      let Temp := nth 0 fans 0 mod 2 ^ 8 in
      <[2 := lit_not (nth 2 fans 0)]> (<[1 := Temp]> (<[0 := nth 1 fans 0]> fans))
    else fans in
  let '(iLit, fans) := if lit_compl (nth 1 fans 0) then (lit_not iLit, <[1 := lit_not (nth 1 fans 0)]> (<[0 := lit_not (nth 0 fans 0)]> fans)) else (iLit, fans) in
  (with_truth (with_fans o (nFans o) fans) (pTruth o).[0 <- 0xCACACACA], iLit).

Definition dsd_expand_prime (rec : dsd_copy_call) (pNew : Kit_DsdNtk_t) (o : Kit_DsdObj_t) (iLit : nat) : option (nat * Kit_DsdNtk_t) :=
  '(pObjNew, pNew) ← dsd_prime_copy rec pNew o;
  r ← pNodes pNew !! pObjNew;
  if (nFans o =? 3) && mux_table (pTruth r).[0] then
    let '(r, iLit) := dsd_expand_mux r iLit in
    Some (lit (dId r) (lit_compl iLit), set_obj pNew pObjNew r)
  else dsd_prime_phase pNew pObjNew o iLit.

Fixpoint Kit_DsdExpandNode_rec (fuel : nat) (pNew p : Kit_DsdNtk_t) (iLit : nat) : option (nat * Kit_DsdNtk_t) :=
  match fuel with
  | O => None
  | S fuel =>
    let rec pNew l := Kit_DsdExpandNode_rec fuel pNew p l in
    pObj ← Kit_DsdNtkObj p (lit_id iLit);
    match pObj with
    | None => Some (iLit, pNew)
    | Some o =>
      if decide (dType o = KIT_DSD_AND) then dsd_expand_and rec (S fuel) pNew p iLit
      else if decide (dType o = KIT_DSD_XOR) then dsd_expand_xor rec (S fuel) pNew p iLit
      else assert! bool_decide (dType o = KIT_DSD_PRIME) in dsd_expand_prime rec pNew o iLit
    end
  end.

Definition Kit_DsdExpand (p : Kit_DsdNtk_t) : option Kit_DsdNtk_t := dsd_convert (fun pNew l => Kit_DsdExpandNode_rec (dnVars p + 2) pNew p l) p.

Definition Kit_DsdDecomposeExpand (pTruth : list Z) (nVars : nat) : option Kit_DsdNtk_t :=
  pNtk ← Kit_DsdDecomposeInt pTruth nVars 0;
  Kit_DsdExpand pNtk.

(** The tables of multiplexers with complemented data inputs. *)
Definition mux_signs (w : Z) : bool * bool := (bool_decide (w = 0xC5C5C5C5 \/ w = 0x35353535)%Z, bool_decide (w = 0x3A3A3A3A \/ w = 0x35353535)%Z).

Lemma mux_table_tfun T m : mux_table T.[0] = true -> let '(s0, s1) := mux_signs T.[0] in tfun 3 T m = if Nat.testbit m 2 then xorb (Nat.testbit m 1) s1 else xorb (Nat.testbit m 0) s0.
Proof.
  intros H. assert (T.[0] = 0xCACACACA \/ T.[0] = 0xC5C5C5C5 \/ T.[0] = 0x3A3A3A3A \/ T.[0] = 0x35353535)%Z as HT.
  { unfold mux_table in H. rewrite !orb_true_iff, !Z.eqb_eq in H. tauto. }
  clear H. unfold tfun. rewrite <- (mod_nmint_bit m 3 0), <- (mod_nmint_bit m 3 1), <- (mod_nmint_bit m 3 2) by lia. change (nmint 3) with 32.
  assert (m mod 32 < 32) as Hm by (apply Nat.mod_upper_bound; lia). generalize dependent (m mod 32). intros x Hx.
  unfold tbit. rewrite Nat.div_small, Nat.mod_small by lia.
  destruct HT as [->|[->|[->| ->]]]; cbn [mux_signs]; clear -Hx; do 32 (destruct x as [|x]; [done|]); lia.
Qed.

(** A literal of a node of the type [t]. *)
Definition is_node (nodes : list Kit_DsdObj_t) (nV : nat) (t : Kit_Dsd_t) (l : nat) : Prop := exists i o, lit_id l = nV + i /\ nodes !! i = Some o /\ dType o = t.

(** * Normal forms *)

Definition mux_node (o : Kit_DsdObj_t) : Prop := nFans o = 3 /\ (pTruth o).[0] = mux_word.

(** And-nodes have no fanin that is an and-node without complement; xor-nodes have none that is a xor-node, and no complemented
    fanin except a multiplexer; prime nodes have no complemented fanin, except the first one of a multiplexer. *)
Definition normal_fanins (nV : nat) (new : list Kit_DsdObj_t) (o : Kit_DsdObj_t) : Prop :=
  (dType o = KIT_DSD_AND -> forall k, k < nFans o -> ~ (lit_compl (fan o k) = false /\ is_node new nV KIT_DSD_AND (fan o k))) /\
  (dType o = KIT_DSD_XOR -> forall k, k < nFans o -> ~ is_node new nV KIT_DSD_XOR (fan o k) /\
    (lit_compl (fan o k) = false \/ exists i o', lit_id (fan o k) = nV + i /\ new !! i = Some o' /\ dType o' = KIT_DSD_PRIME /\ mux_node o')) /\
  (dType o = KIT_DSD_PRIME -> forall k, k < nFans o -> lit_compl (fan o k) = false \/ k = 0 /\ mux_node o).

Inductive normal_below (nV : nat) (new : list Kit_DsdObj_t) (R : nat -> Prop) : nat -> Prop :=
  | normal_var x c : x < nV -> normal_below nV new R (lit x c)
  | normal_node i o c : R i -> new !! i = Some o -> normal_fanins nV new o -> (forall k, k < nFans o -> normal_below nV new R (fan o k)) -> normal_below nV new R (lit (nV + i) c).
Arguments normal_var {nV} new R x c _.
Arguments normal_node {nV} new R i o c _ _ _ _.

(** * Gates of many fanins *)

Section old.
Context (p : Kit_DsdNtk_t) (P : nat -> Prop).
Local Notation nodes := (pNodes p).
Local Notation nV := (dnVars p).
Local Notation normal_fans := (normal_fanins nV).
Local Notation normal := (normal_below nV).
Local Notation lv := (DsdBuild.lv p).
Local Notation defined := (DsdBuild.defined p P).

Lemma forallb_fans (f : nat -> bool) o n : forallb (fun k => f (fan o k)) (seq 0 n) = forallb f (map (fan o) (seq 0 n)).
Proof. generalize (seq 0 n). intros l. induction l as [|k l IH]; [done|]. cbn. by rewrite IH. Qed.

(** The literals of an and-gate. *)
Definition and_part (d : nat) (S : nat -> Prop) (ls : list nat) : Prop := trees_of inner nodes nV S ls /\
  forall x, x ∈ ls -> defined d x /\ ~ (lit_compl x = false /\ is_node nodes nV KIT_DSD_AND x).

Definition collects_and (fuel d : nat) : Prop := forall S l, tree_of inner nodes nV S l -> defined d l -> exists ls, ls <> [] /\ and_part d S ls /\
  (forall a, lv d l a = forallb (fun x => lv d x a) ls) /\
  forall acc, length acc + length ls <= 16 -> Kit_DsdExpandCollectAnd_rec fuel p l acc = Some (acc ++ ls).

Lemma and_part_app d (S S1 S2 : nat -> Prop) l1 l2 : and_part d S1 l1 -> and_part d S2 l2 -> (forall y, S1 y -> S y) -> (forall y, S2 y -> S y) -> (forall y, S1 y -> S2 y -> False) -> and_part d S (l1 ++ l2).
Proof. intros [T1 H1] [T2 H2] E1 E2 E3. split; [by apply (trees_app nodes nV S S1 S2)|]. intros x [Hx|Hx]%elem_of_app; auto. Qed.

(** The fanins of a gate, given as a list of trees. *)
Lemma collect_and_fans fuel d S ls0 : collects_and fuel d -> trees_of inner nodes nV S ls0 -> (forall x, x ∈ ls0 -> defined d x) -> exists ls, length ls0 <= length ls /\ and_part d S ls /\
  (forall a, forallb (fun x => lv d x a) ls0 = forallb (fun x => lv d x a) ls) /\
  forall acc, length acc + length ls <= 16 -> fold_left (fun s l => piLitsNew ← s; Kit_DsdExpandCollectAnd_rec fuel p l piLitsNew) ls0 (Some acc) = Some (acc ++ ls).
Proof.
  intros IHf H. induction H as [R|R T R1 l ls0 HT Hls IH H1 H2 H3]; intros Hdef.
  - exists []. split; [done|]. split; [split; [constructor|by intros x ?%elem_of_nil]|]. split; [done|]. intros acc _. by rewrite app_nil_r.
  - destruct (IHf T l HT) as (l1 & Hne & Hp1 & Hv1 & E1); [apply Hdef, list_elem_of_here|]. destruct IH as (l2 & Hl2 & Hp2 & Hv2 & E2); [intros x Hx; apply Hdef; by apply list_elem_of_further|].
    exists (l1 ++ l2). split; [rewrite length_app; destruct l1; [done|cbn; lia]|]. split; [by apply (and_part_app d R T R1)|]. split; [intros a; cbn; by rewrite Hv1, Hv2, forallb_app|].
    intros acc Hacc. rewrite length_app in Hacc. cbn [fold_left mbind option_bind]. rewrite E1 by lia. rewrite E2 by (rewrite length_app; lia). by rewrite app_assoc.
Qed.

Lemma fans_loop {A} (f : A -> nat -> option A) o a : for_up (nFans o) (fun i s => s ← s; f s (fan o i)) (Some a) = fold_left (fun s l => s ← s; f s l) (map (fan o) (seq 0 (nFans o))) (Some a).
Proof. unfold for_up. generalize (seq 0 (nFans o)), (Some a). intros l. induction l as [|k l IH]; intros s; [done|]. cbn. apply IH. Qed.

Lemma collect_and fuel d : d < fuel -> collects_and fuel d.
Proof.
  revert d. induction fuel as [|fuel IH]; intros d Hd S l HT Hdef; [lia|].
  assert (~ (lit_compl l = false /\ is_node nodes nV KIT_DSD_AND l) -> exists ls, ls <> [] /\ and_part d S ls /\ (forall a, lv d l a = forallb (fun x => lv d x a) ls) /\
    forall acc, length acc + length ls <= 16 -> (assert! length acc <? 16 in Some (acc ++ [l])) = Some (acc ++ ls)) as Hstop.
  { intros Hs. exists [l]. split; [done|]. split; [split; [by apply trees_one|by intros x ->%list_elem_of_singleton]|]. split; [intros a; cbn; by rewrite andb_true_r|].
    intros acc Hacc. cbn in Hacc. by rewrite (proj2 (Nat.ltb_lt _ _)) by lia. }
  cbn [Kit_DsdExpandCollectAnd_rec]. destruct (ntk_obj p S l HT) as [[Hx ->]|(i & o & c & -> & Eo & Hge & ->)]; cbn [mbind option_bind].
  - rewrite (proj2 (Nat.ltb_lt _ _) Hx), orb_true_r. cbn [orb]. apply Hstop. intros (_ & i & o & E & _). lia.
  - rewrite (proj2 (Nat.ltb_ge _ _) Hge), orb_false_r, lit_compl_lit. destruct c; cbn [orb]; [apply Hstop; rewrite lit_compl_lit; by intros [? _]|].
    destruct (decide (dType o = KIT_DSD_AND)) as [Ety|Ety].
    2: { rewrite bool_decide_false by (cbn; congruence). cbn [negb]. apply Hstop. intros (_ & i' & o' & E & Eo' & Ety'). rewrite lit_id_lit in E. assert (i' = i) as -> by lia. congruence. }
    rewrite bool_decide_true by (cbn; congruence). cbn [negb]. destruct d as [|d].
    { pose proof (Hdef (fun _ => false)) as H0. apply den_eval in H0. cbn [dsd_eval] in H0. by rewrite (proj2 (Nat.ltb_ge _ _) Hge) in H0. }
    destruct (node_fans p P d S i o false HT Eo Hdef) as ([_ H2] & Hg & Hfd & Hval & Htr).
    destruct (collect_and_fans fuel d _ _ (IH d ltac:(lia)) Htr) as (ls & Hl & Hp & Hv & E); [intros x (k & <- & Hk%in_seq)%list_elem_of_In%in_map_iff; apply Hfd; lia|].
    exists ls. split; [intros ->; rewrite length_map, length_seq in Hl; cbn in Hl; lia|]. destruct Hp as [Hp1 Hp2]. split; [split; [eapply trees_mono; [exact Hp1|by intros y [? _]]|]|].
    + intros x Hx. destruct (Hp2 x Hx) as [Hdx Hfx]. split; [|done]. apply (defined_le p P d); [done|lia].
    + split; [|intros acc Hacc; rewrite (fans_loop (fun s l => Kit_DsdExpandCollectAnd_rec fuel p l s)); by apply E].
      intros a. specialize (Hval a). unfold node_value in Hval. rewrite Ety in Hval. injection Hval as Hval. rewrite xorb_false_r in Hval. rewrite <- Hval.
      transitivity (forallb (fun x => lv d x a) (map (fan o) (seq 0 (nFans o)))); [apply (forallb_fans (fun x => lv d x a))|]. rewrite Hv.
      clear -Hp2. induction ls as [|x ls IH]; [done|]. cbn [forallb]. rewrite IH by (intros y Hy; apply Hp2; by apply list_elem_of_further). f_equal. symmetry. apply (lv_le p P); [|lia]. apply Hp2, list_elem_of_here.
Qed.

(** The literals of a xor-gate: the complements of the gates inside it go to the first literal. *)
Definition xor_part (d : nat) (S : nat -> Prop) (ls : list nat) : Prop := trees_of inner nodes nV S ls /\ forall x, x ∈ ls -> defined d x /\ ~ is_node nodes nV KIT_DSD_XOR x.

Definition flip_first (c : bool) (ls : list nat) : list nat := match ls with [] => [] | l :: ls => lit_notcond l c :: ls end.
Definition xor_all (d : nat) (ls : list nat) (a : nat -> bool) : bool := foldr xorb false (map (fun x => lv d x a) ls).

Lemma flip_first_twice c c' ls : flip_first c (flip_first c' ls) = flip_first (xorb c' c) ls.
Proof. destruct ls as [|l ls]; [done|]. cbn [flip_first]. unfold lit_notcond. by rewrite lit_id_lit, lit_compl_lit, xorb_assoc. Qed.
Lemma flip_false ls : flip_first false ls = ls.
Proof. destruct ls as [|l ls]; [done|]. cbn [flip_first]. unfold lit_notcond. by rewrite xorb_false_r, lit_eta. Qed.
Lemma flip_app c l1 l2 : l1 <> [] -> flip_first c (l1 ++ l2) = flip_first c l1 ++ l2.
Proof. by destruct l1. Qed.
Lemma flip_length c ls : length (flip_first c ls) = length ls.
Proof. by destruct ls. Qed.

Definition collects_xor (fuel d : nat) : Prop := forall S l, tree_of inner nodes nV S l -> defined d l -> exists ls c, ls <> [] /\ xor_part d S ls /\
  (forall a, lv d l a = xorb c (xor_all d ls a)) /\
  forall acc, length acc + length ls <= 16 -> Kit_DsdExpandCollectXor_rec fuel p l acc = Some (flip_first c (acc ++ ls)).

Lemma xor_part_app d (S S1 S2 : nat -> Prop) l1 l2 : xor_part d S1 l1 -> xor_part d S2 l2 -> (forall y, S1 y -> S y) -> (forall y, S2 y -> S y) -> (forall y, S1 y -> S2 y -> False) -> xor_part d S (l1 ++ l2).
Proof. intros [T1 H1] [T2 H2] E1 E2 E3. split; [by apply (trees_app nodes nV S S1 S2)|]. intros x [Hx|Hx]%elem_of_app; auto. Qed.

Lemma xor_all_app d l1 l2 a : xor_all d (l1 ++ l2) a = xorb (xor_all d l1 a) (xor_all d l2 a).
Proof. unfold xor_all. by rewrite map_app, foldr_xorb_app. Qed.

Lemma collect_xor_fans fuel d S ls0 : collects_xor fuel d -> trees_of inner nodes nV S ls0 -> (forall x, x ∈ ls0 -> defined d x) -> exists ls c, length ls0 <= length ls /\ xor_part d S ls /\
  (forall a, xor_all d ls0 a = xorb c (xor_all d ls a)) /\
  forall acc, length acc + length ls <= 16 -> fold_left (fun s l => piLitsNew ← s; Kit_DsdExpandCollectXor_rec fuel p l piLitsNew) ls0 (Some acc) = Some (flip_first c (acc ++ ls)).
Proof.
  intros IHf H. induction H as [R|R T R1 l ls0 HT Hls IH H1 H2 H3]; intros Hdef.
  - exists [], false. split; [done|]. split; [split; [constructor|by intros x ?%elem_of_nil]|]. split; [done|]. intros acc _. by rewrite app_nil_r, flip_false.
  - destruct (IHf T l HT) as (l1 & c1 & Hne & Hp1 & Hv1 & E1); [apply Hdef, list_elem_of_here|]. destruct IH as (l2 & c2 & Hl2 & Hp2 & Hv2 & E2); [intros x Hx; apply Hdef; by apply list_elem_of_further|].
    exists (l1 ++ l2), (xorb c1 c2). split; [rewrite length_app; destruct l1; [done|cbn; lia]|]. split; [by apply (xor_part_app d R T R1)|]. split.
    + intros a. change (l :: ls0) with ([l] ++ ls0). rewrite !xor_all_app, Hv2. unfold xor_all at 1. cbn. rewrite xorb_false_r, Hv1. rewrite !xorb_assoc. f_equal. rewrite <- !xorb_assoc. f_equal. apply xorb_comm.
    + intros acc Hacc. rewrite length_app in Hacc. cbn [fold_left mbind option_bind]. rewrite E1 by lia. rewrite E2 by (rewrite flip_length, length_app; lia).
      rewrite <- flip_app by (by destruct acc, l1). by rewrite flip_first_twice, app_assoc.
Qed.

Lemma xor_all_le d d' ls a : d <= d' -> (forall x, x ∈ ls -> defined d x) -> xor_all d' ls a = xor_all d ls a.
Proof.
  intros Hd H. unfold xor_all. induction ls as [|x ls IH]; [done|]. cbn [map foldr]. rewrite IH by (intros y Hy; apply H; by apply list_elem_of_further). f_equal. apply (lv_le p P); [|done]. apply H, list_elem_of_here.
Qed.

Lemma collect_xor fuel d : d < fuel -> collects_xor fuel d.
Proof.
  revert d. induction fuel as [|fuel IH]; intros d Hd S l HT Hdef; [lia|].
  assert (~ is_node nodes nV KIT_DSD_XOR l -> exists ls c, ls <> [] /\ xor_part d S ls /\ (forall a, lv d l a = xorb c (xor_all d ls a)) /\
    forall acc, length acc + length ls <= 16 -> (assert! length acc <? 16 in Some (acc ++ [l])) = Some (flip_first c (acc ++ ls))) as Hstop.
  { intros Hs. exists [l], false. split; [done|]. split; [split; [by apply trees_one|by intros x ->%list_elem_of_singleton]|]. split; [intros a; unfold xor_all; cbn [map foldr]; by rewrite xorb_false_r, xorb_false_l|].
    intros acc Hacc. cbn in Hacc. by rewrite (proj2 (Nat.ltb_lt _ _)), flip_false by lia. }
  cbn [Kit_DsdExpandCollectXor_rec]. destruct (ntk_obj p S l HT) as [[Hx ->]|(i & o & c & -> & Eo & Hge & ->)]; cbn [mbind option_bind].
  - rewrite (proj2 (Nat.ltb_lt _ _) Hx). cbn [orb]. apply Hstop. intros (i & o & E & _). lia.
  - rewrite (proj2 (Nat.ltb_ge _ _) Hge), lit_compl_lit. cbn [orb].
    destruct (decide (dType o = KIT_DSD_XOR)) as [Ety|Ety].
    2: { rewrite bool_decide_false by (cbn; congruence). cbn [negb]. apply Hstop. intros (i' & o' & E & Eo' & Ety'). rewrite lit_id_lit in E. assert (i' = i) as -> by lia. congruence. }
    rewrite bool_decide_true by (cbn; congruence). cbn [negb]. destruct d as [|d].
    { pose proof (Hdef (fun _ => false)) as H0. apply den_eval in H0. cbn [dsd_eval] in H0. by rewrite (proj2 (Nat.ltb_ge _ _) Hge) in H0. }
    destruct (node_fans p P d S i o c HT Eo Hdef) as ([_ H2] & Hg & Hfd & Hval & Htr).
    destruct (collect_xor_fans fuel d _ _ (IH d ltac:(lia)) Htr) as (ls & c1 & Hl & [Hp1 Hp2] & Hv & E); [intros x (k & <- & Hk%in_seq)%list_elem_of_In%in_map_iff; apply Hfd; lia|].
    assert (ls <> []) as Hne by (intros ->; rewrite length_map, length_seq in Hl; cbn in Hl; lia).
    exists ls, (xorb c1 c). split; [done|]. split; [split; [eapply trees_mono; [exact Hp1|by intros y [? _]]|]|split].
    + intros x Hx. destruct (Hp2 x Hx) as [Hdx Hfx]. split; [|done]. apply (defined_le p P d); [done|lia].
    + intros a. specialize (Hval a). unfold node_value in Hval. rewrite Ety in Hval. injection Hval as Hval. rewrite (xor_all_le d) by (lia || (intros; by apply Hp2)).
      specialize (Hv a). unfold xor_all at 1 in Hv. rewrite map_map in Hv. rewrite Hval in Hv.
      rewrite (xorb_comm c1 c), xorb_assoc, <- Hv, (xorb_comm c), xorb_assoc, xorb_nilpotent. by rewrite xorb_false_r.
    + intros acc Hacc. rewrite (fans_loop (fun s l => Kit_DsdExpandCollectXor_rec fuel p l s)), E by done. cbn [mbind option_bind].
      destruct c; [|by rewrite xorb_false_r]. rewrite <- flip_first_twice. destruct (flip_first c1 (acc ++ ls)) as [|x xs] eqn:Ex; [|done].
      pose proof (flip_length c1 (acc ++ ls)) as Hfl. rewrite Ex, length_app in Hfl. destruct ls; [done|cbn in Hfl; lia].
Qed.

(** * Normal forms *)

Lemma normal_id new R l l' : normal new R l -> lit_id l' = lit_id l -> normal new R l'.
Proof.
  intros H E. rewrite <- (lit_eta l'), E. destruct H as [x c Hx|i o c HR Eo Hf Hn]; rewrite lit_id_lit; [by constructor|by apply (normal_node new R i o)].
Qed.

(** The nodes that a literal refers to. *)
Lemma normal_top new R l : normal new R l -> lit_id l < nV \/ exists i o, lit_id l = nV + i /\ R i /\ new !! i = Some o.
Proof. intros H. destruct H as [x c Hx|i o c HR Eo Hf Hn]; rewrite lit_id_lit; [by left|right; by exists i, o]. Qed.

Lemma node_frame new new' (R : nat -> Prop) t l : normal new R l -> (forall i o, R i -> new !! i = Some o -> new' !! i = Some o) -> is_node new' nV t l -> is_node new nV t l.
Proof.
  intros H HR (i & o & E & Eo & Et). destruct (normal_top _ _ _ H) as [Hx|(j & oj & Ej & HRj & Eoj)]; [lia|]. assert (j = i) as -> by lia.
  rewrite (HR i oj HRj Eoj) in Eo. injection Eo as <-. by exists i, oj.
Qed.

Lemma normal_frame new new' (R R' : nat -> Prop) l : normal new R l -> (forall i, R i -> R' i) -> (forall i o, R i -> new !! i = Some o -> new' !! i = Some o) -> normal new' R' l.
Proof.
  intros H HR Hn. induction H as [x c Hx|i o c HRi Eo Hf Hfans IH]; [by constructor|]. apply (normal_node new' R' i o c); [by apply HR|by apply Hn| |done]. destruct Hf as (F1 & F2 & F3). split; [|split; [|done]].
  - intros Et k Hk [Hc Hnode]. apply (F1 Et k Hk). split; [done|]. apply (node_frame new new' R); [by apply Hfans|done|done].
  - intros Et k Hk. destruct (F2 Et k Hk) as [G1 G2]. split; [intros Hnode; apply G1; apply (node_frame new new' R); [by apply Hfans|done|done]|].
    destruct G2 as [G2|(j & oj & Ej & Eoj & Hty & Hm)]; [by left|right]. exists j, oj. split; [done|]. split; [|done]. apply Hn; [|done].
    destruct (normal_top _ _ _ (Hfans k Hk)) as [Hx|(j' & oj' & Ej' & HRj & _)]; [lia|]. by assert (j' = j) as <- by lia.
Qed.

(** The node that a literal becomes. *)
Definition new_top (new : list Kit_DsdObj_t) (l l' : nat) : Prop := lit_id l < nV /\ l' = l \/
  exists i o i' o', lit_id l = nV + i /\ nodes !! i = Some o /\ lit_id l' = nV + i' /\ new !! i' = Some o' /\ dType o' = dType o /\
    (dType o = KIT_DSD_AND -> lit_compl l' = lit_compl l) /\ (dType o = KIT_DSD_PRIME -> lit_compl l' = false \/ mux_node o').

Lemma new_top_frame new new' R l l' : new_top new l l' -> normal new R l' -> (forall i o, R i -> new !! i = Some o -> new' !! i = Some o) -> new_top new' l l'.
Proof.
  intros [H|(i & o & i' & o' & E & Eo & E' & Eo' & H)] Hnorm Hn; [by left|right]. exists i, o, i', o'. do 3 (split; [done|]). split; [|done]. apply Hn; [|done].
  destruct (normal_top _ _ _ Hnorm) as [Hx|(j & oj & Ej & HRj & _)]; [lia|]. by assert (j = i') as <- by lia.
Qed.

Lemma normal_fans_frame new new' (R : nat -> Prop) o : (forall k, k < nFans o -> normal new R (fan o k)) -> (forall i o, R i -> new !! i = Some o -> new' !! i = Some o) ->
  normal_fans new o -> normal_fans new' o.
Proof.
  intros Hfans Hn (F1 & F2 & F3). split; [|split; [|done]].
  - intros Et k Hk [Hc Hnode]. apply (F1 Et k Hk). split; [done|]. apply (node_frame new new' R); [by apply Hfans|done|done].
  - intros Et k Hk. destruct (F2 Et k Hk) as [G1 G2]. split; [intros Hnode; apply G1; apply (node_frame new new' R); [by apply Hfans|done|done]|].
    destruct G2 as [G2|(j & oj & Ej & Eoj & Hty & Hm)]; [by left|right]. exists j, oj. split; [done|]. split; [|done]. apply Hn; [|done].
    destruct (normal_top _ _ _ (Hfans k Hk)) as [Hx|(j' & oj' & Ej' & HRj & _)]; [lia|]. by assert (j' = j) as <- by lia.
Qed.

(** What is known of an expanded literal. *)
Definition known (new : list Kit_DsdObj_t) (R : nat -> Prop) (l l' : nat) : Prop := normal new R l' /\ new_top new l l'.

#[export] Instance known_stable : Stable known.
Proof. intros new new' R R' l l' [H1 H2] HR Hn. split; [by apply (normal_frame new new' R R')|]. by apply (new_top_frame new _ R). Qed.

Local Notation expand_works := (copies p P inner known (fun _ => True)).
Local Notation built := (DsdBuild.built p inner known).
Local Notation expands := (copied_to p inner known).

(** What the gates at a node amount to. *)
Lemma gate_and fuel d S i o c : d < fuel -> tree_of inner nodes nV S (lit (nV + i) c) -> nodes !! i = Some o -> dType o = KIT_DSD_AND -> defined (Datatypes.S d) (lit (nV + i) c) ->
  exists ls, 2 <= length ls /\ and_part d S ls /\ (forall a, forallb (fun x => lv d x a) ls = xorb (lv (Datatypes.S d) (lit (nV + i) c) a) c) /\
    (length ls <= 16 -> Kit_DsdExpandCollectAnd_rec (Datatypes.S fuel) p (lit_regular (lit (nV + i) c)) [] = Some ls).
Proof.
  intros Hd HT Eo Ety Hdef. destruct (node_fans p P d S i o c HT Eo Hdef) as ([_ H2] & Hg & Hfd & Hval & Htr).
  destruct (collect_and_fans fuel d _ _ (collect_and fuel d Hd) Htr) as (ls & Hl & [Hp1 Hp2] & Hv & E); [intros x (k & <- & Hk%in_seq)%list_elem_of_In%in_map_iff; apply Hfd; lia|].
  rewrite length_map, length_seq in Hl. exists ls. split; [lia|]. split; [split; [eapply trees_mono; [exact Hp1|by intros y [? _]]|done]|]. split.
  - intros a. specialize (Hval a). unfold node_value in Hval. rewrite Ety in Hval. injection Hval as Hval. rewrite <- Hval, <- Hv. symmetry. apply (forallb_fans (fun x => lv d x a)).
  - intros H16. cbn [Kit_DsdExpandCollectAnd_rec]. unfold lit_regular. rewrite lit_compl_lit, !lit_id_lit, (positive p S i c o HT Eo). cbn [mbind option_bind].
    rewrite (proj2 (Nat.ltb_ge (nV + i) nV)), bool_decide_true by (lia || (cbn; congruence)). cbn [orb negb]. rewrite (fans_loop (fun s l => Kit_DsdExpandCollectAnd_rec fuel p l s)). by apply (E []).
Qed.

Lemma gate_xor fuel d S i o c : d < fuel -> tree_of inner nodes nV S (lit (nV + i) c) -> nodes !! i = Some o -> dType o = KIT_DSD_XOR -> defined (Datatypes.S d) (lit (nV + i) c) ->
  exists ls c1, 2 <= length ls /\ xor_part d S ls /\ (forall a, xor_all d ls a = xorb c1 (xorb (lv (Datatypes.S d) (lit (nV + i) c) a) c)) /\
    (length ls <= 16 -> Kit_DsdExpandCollectXor_rec (Datatypes.S fuel) p (lit_regular (lit (nV + i) c)) [] = Some (flip_first c1 ls)).
Proof.
  intros Hd HT Eo Ety Hdef. destruct (node_fans p P d S i o c HT Eo Hdef) as ([_ H2] & Hg & Hfd & Hval & Htr).
  destruct (collect_xor_fans fuel d _ _ (collect_xor fuel d Hd) Htr) as (ls & c1 & Hl & [Hp1 Hp2] & Hv & E); [intros x (k & <- & Hk%in_seq)%list_elem_of_In%in_map_iff; apply Hfd; lia|].
  rewrite length_map, length_seq in Hl. exists ls, c1. split; [lia|]. split; [split; [eapply trees_mono; [exact Hp1|by intros y [? _]]|done]|]. split.
  - intros a. specialize (Hval a). unfold node_value in Hval. rewrite Ety in Hval. injection Hval as Hval. rewrite <- Hval. specialize (Hv a). unfold xor_all at 1 in Hv. rewrite map_map in Hv. rewrite Hv.
    by rewrite <- xorb_assoc, xorb_nilpotent, xorb_false_l.
  - intros H16. cbn [Kit_DsdExpandCollectXor_rec]. unfold lit_regular. rewrite lit_compl_lit, !lit_id_lit, (positive p S i c o HT Eo). cbn [mbind option_bind].
    rewrite (proj2 (Nat.ltb_ge (nV + i) nV)), bool_decide_true by (lia || (cbn; congruence)). cbn [orb negb]. rewrite (fans_loop (fun s l => Kit_DsdExpandCollectXor_rec fuel p l s)). rewrite (E [] H16). done.
Qed.

(** The gate that is expanded. *)
Section node.
Context (Hn16 : nV <= 16) (rec : dsd_copy_call) (fuel d : nat) (Hfuel : d < fuel) (W : expand_works rec d) (S : nat -> Prop) (i : nat) (o : Kit_DsdObj_t) (c : bool) (pNew : Kit_DsdNtk_t).
Local Notation l := (lit (nV + i) c).
Local Notation i0 := (length (pNodes pNew)).
Context (HT : tree_of inner nodes nV S l) (Eo : nodes !! i = Some o) (Hdef : defined (Datatypes.S d) l) (Hids : ids_ok pNew) (Hvars : dnVars pNew = nV) (Hroom : room p i0 S).
Local Notation expanded := (expands d S i c pNew).

(** What becomes of the fanins of a gate. *)
Lemma fan_top pN2 U ls fl k : built d i0 pNew pN2 U ls fl -> k < length fl -> new_top (pNodes pN2) (nth k ls 0) (nth k fl 0).
Proof. intros B Hk. by apply (Forall2_nth _ _ _ k 0 0 (bu_known _ _ _ _ _ _ _ _ _ _ B)). Qed.

Lemma fan_normal pN2 U ls fl k : built d i0 pNew pN2 U ls fl -> k < length fl -> normal (pNodes pN2) (fun i => i0 < i) (nth k fl 0).
Proof. intros B Hk. by apply (Forall2_nth _ _ _ k 0 0 (bu_known _ _ _ _ _ _ _ _ _ _ B)). Qed.

(** The new node in normal form. *)
Lemma known_node pN2 U ls fl r c' : built d i0 pNew pN2 U ls fl -> nFans r = length fl -> (forall k, k < length fl -> lit_id (fan r k) = lit_id (nth k fl 0)) -> normal_fans (pNodes pN2) r ->
  dType r = dType o -> (dType o = KIT_DSD_AND -> c' = c) -> (dType o = KIT_DSD_PRIME -> c' = false \/ mux_node r) ->
  known (pNodes (set_obj pN2 i0 r)) (fun i => i0 <= i) l (lit (nV + i0) c').
Proof.
  intros B En Hfan Hnf Hty HA HP. assert (pNodes (set_obj pN2 i0 r) !! i0 = Some r) as Er by (apply list_lookup_insert_eq; apply B).
  assert (forall q oq, i0 < q -> pNodes pN2 !! q = Some oq -> pNodes (set_obj pN2 i0 r) !! q = Some oq) as Hn by (intros q oq Hq Eq; unfold set_obj; cbn; by rewrite list_lookup_insert_ne by lia).
  assert (forall k, k < nFans r -> normal (pNodes pN2) (fun i => i0 < i) (fan r k)) as Hnormal.
  { intros k Hk. rewrite En in Hk. eapply normal_id; [by eapply fan_normal|by apply Hfan]. }
  split.
  - apply (normal_node _ _ i0 r c'); [lia|done| |].
    + eapply (normal_fans_frame (pNodes pN2) _ (fun i => i0 < i)); done.
    + intros k Hk. eapply normal_frame; [by apply Hnormal|cbn; intros; lia|done].
  - right. exists i, o, i0, r. rewrite !lit_id_lit, !lit_compl_lit. done.
Qed.

Lemma expand_and : dType o = KIT_DSD_AND -> expanded (dsd_expand_and rec (Datatypes.S fuel) pNew p l).
Proof.
  intros Ety. destruct (gate_and fuel d S i o c Hfuel HT Eo Ety Hdef) as (ls & H2 & [Htr Hls] & Hval & Ec). destruct (trees_each _ _ _ _ Htr) as (T & HTk & HTS & Hdis).
  destruct (start_room p S ls T pNew HTk HTS Hdis H2 Hroom) as [H64 HnV]. unfold dsd_expand_and. rewrite Ec by lia. cbn [mbind option_bind].
  assert (forall k, k < length ls -> nth k ls 0 ∈ ls) as Hin by (intros k Hk; apply list_elem_of_In; by apply nth_In).
  destruct (alloc_spec p inner known d pNew KIT_DSD_AND (length ls) Hids Hvars ltac:(lia) ltac:(lia)) as (r & pN & -> & Er & (Rid & Rty & Rn & Rf & Rt) & B0). cbn [mbind option_bind]. rewrite Er. cbn [mbind option_bind]. rewrite Rn.
  destruct (and_loop p P inner known (fun _ => True) rec d W S ls T pNew HTk HTS Hdis (fun k Hk => proj1 (Hls _ (Hin k Hk))) (fun _ _ => I) H2 Hroom ls r pN (fun k _ => eq_refl) (B0 _) Er Rf) as (pN2 & fl & -> & B & Efl & Er2).
  cbn [mbind option_bind]. rewrite lit_compl_lit. rewrite <- (set_same pN2 _ _ Er2). apply (finish_set p inner known d S i c pNew pN2 _ ls fl (with_fans r (nFans r) fl) c (fun _ => false) B); cbn [dId dType nFans with_fans]; try done || lia.
  - by eapply upto_in.
  - split; [cbn; lia|]. split; [cbn; lia|]. cbn [dType with_fans]. congruence.
  - split; [by left|cbn; lia].
  - intros k Hk. unfold fan, lit_notcond. cbn [pFans with_fans]. by rewrite xorb_false_r, lit_eta.
  - apply (known_node pN2 _ ls fl _ c B); [cbn; lia|done| |cbn; congruence|done|cbn; congruence].
    split; [|split; [cbn; congruence|cbn; congruence]]. intros _ k Hk. cbn [nFans with_fans] in Hk. unfold fan. cbn [pFans with_fans]. rewrite Rn, <- Efl in Hk. intros [Hc (i' & o' & Ei' & Eo' & Et')].
    destruct (fan_top pN2 _ ls fl k B Hk) as [[Lx El]|(j & oj & i'' & o'' & Ej & Eoj & Ei'' & Eo'' & Ett & HA & _)]; [rewrite El in Ei'; lia|]. assert (i'' = i') as -> by lia. rewrite Eo' in Eo''. injection Eo'' as <-.
    destruct (Hls (nth k ls 0) (Hin k ltac:(lia))) as [_ Hnot]. apply Hnot. split; [rewrite <- HA by congruence; done|]. exists j, oj. split; [done|]. split; [done|congruence].
  - intros a. unfold node_value. cbn [dType nFans with_fans]. rewrite Rty, Rn, <- Hval. f_equal. rewrite <- (forallb_places (fun x => lv d x a)).
    assert (forall q, forallb (fun k => xorb (lv d (nth k ls 0) a) false) q = forallb (fun k => lv d (nth k ls 0) a) q) as -> by (intros q; induction q as [|k q IH]; [done|cbn; by rewrite xorb_false_r, IH]). done.
Qed.

Lemma parity_ext l1 l2 k : (forall j, j < k -> nth j l1 0 = nth j l2 0) -> parity l1 k = parity l2 k.
Proof. induction k as [|k IH]; intros H; [done|]. cbn [parity]. by rewrite IH, H by auto. Qed.

Lemma parity_flip c1 ls k : k < length ls -> parity (flip_first c1 ls) (Datatypes.S k) = xorb c1 (parity ls (Datatypes.S k)).
Proof.
  induction k as [|k IH]; intros Hk; (destruct ls as [|x ls]; [cbn in Hk; lia|]).
  - cbn [parity flip_first nth]. rewrite lit_compl_notcond. destruct c1, (lit_compl x); done.
  - change (parity (flip_first c1 (x :: ls)) (Datatypes.S (Datatypes.S k))) with (xorb (parity (flip_first c1 (x :: ls)) (Datatypes.S k)) (lit_compl (nth k ls 0))).
    rewrite IH by lia. by rewrite xorb_assoc.
Qed.

Lemma xor_regular d' ls a : (forall x, x ∈ ls -> defined d' x) -> xor_all d' (map lit_regular ls) a = xorb (xor_all d' ls a) (parity ls (length ls)).
Proof.
  induction ls as [|x ls IH] using rev_ind; intros H; [done|]. rewrite map_app, !xor_all_app, IH by (intros y Hy; apply H, elem_of_app; by left). cbn [map]. unfold xor_all at 2 4. cbn [map foldr].
  rewrite (proj2 (defined_regular p P d' x (H x ltac:(apply elem_of_app; right; apply list_elem_of_here)))), !xorb_false_r, length_app, Nat.add_1_r. cbn [parity]. rewrite nth_middle.
  rewrite (parity_ext (ls ++ [x]) ls) by (intros j Hj; by apply app_nth1). destruct (xor_all d' ls a), (lv d' x a), (parity ls (length ls)), (lit_compl x); done.
Qed.

Lemma flip_regular c1 ls k : lit_regular (nth k (flip_first c1 ls) 0) = lit_regular (nth k ls 0).
Proof. destruct ls as [|x ls]; [done|]. destruct k as [|k]; [|done]. cbn [flip_first nth]. unfold lit_regular. by rewrite lit_id_notcond. Qed.

Lemma expand_xor : dType o = KIT_DSD_XOR -> expanded (dsd_expand_xor rec (Datatypes.S fuel) pNew p l).
Proof.
  intros Ety. destruct (gate_xor fuel d S i o c Hfuel HT Eo Ety Hdef) as (ls & c1 & H2 & [Htr Hls] & Hval & Ec). set (ls' := map lit_regular ls). assert (length ls' = length ls) as El by apply length_map.
  destruct (trees_each _ _ _ _ (trees_regular _ _ _ _ Htr)) as (T & HTk & HTS & Hdis). fold ls' in HTk, HTS, Hdis.
  destruct (start_room p S ls' T pNew HTk HTS Hdis ltac:(lia) Hroom) as [H64 HnV]. unfold dsd_expand_xor. rewrite Ec by lia. cbn [mbind option_bind]. rewrite flip_length.
  assert (forall k, k < length ls -> nth k ls 0 ∈ ls) as Hin by (intros k Hk; apply list_elem_of_In; by apply nth_In).
  assert (forall k, k < length ls' -> defined d (nth k ls' 0)) as Hd' by (intros k Hk; unfold ls'; rewrite nth_regular; apply (defined_regular p P), Hls, Hin; lia).
  destruct (alloc_spec p inner known d pNew KIT_DSD_XOR (length ls) Hids Hvars ltac:(lia) ltac:(lia)) as (r & pN & -> & Er & (Rid & Rty & Rn & Rf & Rt) & B0). cbn [mbind option_bind]. rewrite Er. cbn [mbind option_bind]. rewrite Rn, lit_compl_lit, <- El.
  rewrite <- El in Rf. destruct (xor_loop p P inner known (fun _ => True) rec d W S ls' T pNew HTk HTS Hdis Hd' (fun _ _ => I) ltac:(lia) Hroom (flip_first c1 ls) r pN c (fun k _ => ltac:(unfold ls'; by rewrite flip_regular, nth_regular)) (B0 _) Er Rf) as (pN2 & fl & -> & B & Efl & Er2).
  cbn [mbind option_bind]. rewrite <- (set_same pN2 _ _ Er2). apply (finish_set p inner known d S i c pNew pN2 _ ls' fl (with_fans r (nFans r) fl) _ (fun _ => false) B); cbn [dId dType nFans with_fans]; try done || lia.
  - by eapply upto_in.
  - split; [cbn; lia|]. split; [cbn; lia|]. cbn [dType with_fans]. congruence.
  - split; [by right; left|cbn; lia].
  - intros k Hk. unfold fan, lit_notcond. cbn [pFans with_fans]. by rewrite xorb_false_r, lit_eta.
  - apply (known_node pN2 _ ls' fl _ _ B); [cbn; lia|done| |cbn; congruence|congruence|congruence].
    split; [cbn; congruence|split; [|cbn; congruence]]. intros _ k Hk. cbn [nFans with_fans] in Hk. unfold fan. cbn [pFans with_fans]. assert (k < length ls) as Hk' by lia. assert (k < length fl) as Hkf by lia.
    pose proof (fan_top pN2 _ ls' fl k B Hkf) as Htop. destruct (Hls (nth k ls 0) (Hin k Hk')) as [_ Hnot]. unfold ls' in Htop. rewrite nth_regular in Htop. unfold new_top in Htop. rewrite regular_id, regular_compl in Htop.
    destruct Htop as [[Lx Ex]|(j & oj & i'' & o'' & Ej & Eoj & Ei'' & Eo'' & Ett & HA & HP)].
    + rewrite Ex. split; [intros (i' & o' & Ei' & _); rewrite regular_id in Ei'; lia|]. left. apply regular_compl.
    + split.
      * intros (i' & o' & Ei' & Eo' & Et'). assert (i'' = i') as -> by lia. rewrite Eo' in Eo''. injection Eo'' as <-. apply Hnot. exists j, oj. split; [done|]. split; [done|congruence].
      * destruct (dType oj) eqn:Ej'.
        all: pose proof (proj1 (tree_inv _ _ _ _ j oj (HTk k ltac:(lia)) ltac:(unfold ls'; rewrite nth_regular, regular_id; exact Ej) Eoj)) as Hinj.
        all: destruct Hinj as [[Hi|[Hi|Hi]] _]; rewrite Ej' in Hi; try discriminate.
        -- left. by apply HA.
        -- destruct Hnot. by exists j, oj.
        -- destruct (HP eq_refl) as [HP'|HP']; [by left|right]. by exists i'', o''.
  - intros a. unfold node_value. cbn [dType nFans with_fans]. rewrite Rty, Rn, <- El. f_equal. rewrite (map_places (fun x => xorb (lv d x a) false) ls').
    assert (forall q, foldr xorb false (map (fun x => xorb (lv d x a) false) q) = xor_all d q a) as -> by (intros q; unfold xor_all; induction q as [|k q IH]; [done|cbn; by rewrite xorb_false_r, IH]).
    unfold ls' at 1. rewrite xor_regular, Hval by (intros; by apply Hls). rewrite El. destruct (length ls) as [|n] eqn:En; [lia|]. rewrite parity_flip by lia.
    destruct c1, (lv (Datatypes.S d) l a), c, (parity ls (Datatypes.S n)); done.
Qed.

Lemma mux_shape r x0 x1 x2 : pFans r = map lit_regular [x0; x1; x2] -> mux_table (pTruth r).[0] = true -> let '(s0, s1) := mux_signs (pTruth r).[0] in
  dsd_expand_mux r l = (with_truth (with_fans r (nFans r) [lit (lit_id x0) (xorb s0 s1); lit_regular x1; lit_regular x2]) (pTruth r).[0 <- mux_word], lit_notcond l s1).
Proof.
  intros Hf H. assert ((pTruth r).[0] = 0xCACACACA \/ (pTruth r).[0] = 0xC5C5C5C5 \/ (pTruth r).[0] = 0x3A3A3A3A \/ (pTruth r).[0] = 0x35353535)%Z as HT4.
  { unfold mux_table in H. rewrite !orb_true_iff, !Z.eqb_eq in H. tauto. }
  assert (forall x b, lit_not (lit x b) = lit x (negb b)) as Hnot by (intros x b; unfold lit_not; rewrite lit_notcond_lit; by destruct b).
  unfold dsd_expand_mux. rewrite Hf. cbn [map]. unfold lit_regular.
  destruct HT4 as [E|[E|[E|E]]]; rewrite E; unfold mux_signs; cbv [Z.eqb Pos.eqb bool_decide decide or_dec Decision decide_rel Z.eq_dec].
  all: cbn -[lit lit_compl lit_not lit_notcond Nat.modulo mux_word wr pTruth nFans with_fans with_truth].
  all: repeat (rewrite ?lit_compl_lit, ?Hnot; cbn -[lit lit_compl lit_not lit_notcond Nat.modulo mux_word wr pTruth nFans with_fans with_truth]).
  all: unfold lit_not; rewrite ?lit_notcond_lit, ?xorb_false_r; done.
Qed.

Local Notation made := (prime_made p inner known d S o pNew).

Lemma expand_mux pN2 fl r : dType o = KIT_DSD_PRIME -> nFans o = 3 -> made pN2 fl r -> mux_table (pTruth r).[0] = true ->
  expanded (let '(r, iLit) := dsd_expand_mux r l in Some (lit (dId r) (lit_compl iLit), set_obj pN2 i0 r)).
Proof.
  intros Ety H3 Hm Hw. pose proof (fun a => prime_value p P inner known d S i o c pNew HT Eo Hdef pN2 fl r a) as Hval. destruct (Hm) as (Rid & Rty & Rn & Efl & Rf & (T & B & HTS) & Hp & Hv & _).
  destruct fl as [|x0 [|x1 [|x2 [|x3 fl]]]]; cbn in Efl; try lia. pose proof (mux_shape r x0 x1 x2 Rf Hw) as Hs. pose proof (mux_table_tfun (pTruth r)) as Htab.
  destruct (mux_signs (pTruth r).[0]) as [s0 s1]. rewrite Hs. clear Hs. rewrite lit_compl_notcond, lit_compl_lit.
  set (r' := with_truth _ _). assert (mux_node r') as Hmux.
  { split; [cbn; lia|]. cbn [pTruth r' with_truth]. destruct (proj1 Hp) as [Hlen _]. rewrite H3 in Hlen. apply rd_wr_eq. exact Hlen. }
  apply (finish_set p inner known d S i c pNew pN2 _ _ [x0; x1; x2] r' (xorb c s1) (fun k => match k with O => xorb (lit_compl x0) (xorb s0 s1) | _ => lit_compl (nth k [x0; x1; x2] 0) end) B); try done.
  - cbn. lia.
  - split; [cbn; lia|]. split; [cbn; lia|]. intros _. cbn [nFans with_truth with_fans r']. rewrite Rn, H3. split; [lia|]. destruct Hmux as [_ Hmw]. cbn [pTruth with_truth r'] in *. split.
    + apply mux_proper; [done| |]; destruct (proj1 Hp) as [Hlen Hwd]; [apply words_wr; [done|unfold is_word, mux_word; lia]|rewrite length_wr; rewrite H3 in Hlen; exact Hlen].
    + intros q Hq. by apply mux_vac.
  - split; [by right; right|cbn; lia].
  - cbn. lia.
  - intros k Hk. unfold fan. cbn [pFans r' with_truth with_fans]. destruct k as [|[|[|k]]]; [|apply regular_notcond|apply regular_notcond|cbn in Hk; lia]. cbn [nth]. unfold lit_notcond.
    f_equal. by rewrite <- xorb_assoc, xorb_nilpotent, xorb_false_l.
  - apply (known_node pN2 _ _ [x0; x1; x2] r' _ B); [cbn; lia| | |cbn; congruence|congruence|by right].
    + intros k Hk. unfold fan. cbn [pFans r' with_truth with_fans]. cbn in Hk. destruct k as [|[|[|k]]]; [apply lit_id_lit..|lia].
    + split; [cbn; congruence|split; [cbn; congruence|]]. intros _ k Hk. cbn [nFans r' with_truth with_fans] in Hk. unfold fan. cbn [pFans r' with_truth with_fans].
      destruct k as [|[|[|k]]]; [by right|left; apply regular_compl|left; apply regular_compl|lia].
  - intros a. specialize (Hval a Ety Hm). unfold node_value. cbn [dType nFans r' with_truth with_fans]. rewrite Rty, Rn. f_equal. rewrite H3 in *. unfold app in *.
    rewrite Htab in Hval by done. rewrite mux_tfun by apply Hmux. rewrite !mint_bit in * by lia. cbn [nth] in *. rewrite <- (xorb_assoc (lv (Datatypes.S d) l a) c s1), <- Hval.
    destruct (xorb (lv d _ a) (lit_compl x2)); [|]; cbn [map seq nth] in *.
    + by rewrite !xorb_assoc, xorb_nilpotent, xorb_false_r.
    + by rewrite !xorb_assoc.
Qed.

Lemma expand_prime : dType o = KIT_DSD_PRIME -> expanded (dsd_expand_prime rec pNew o l).
Proof.
  intros Ety. destruct (prime_start p P inner known (fun _ => True) Hn16 rec d W S i o c pNew HT Eo Hdef Hids Hvars Hroom (fun _ _ => I) Ety) as (pN2 & fl & r & H2 & Hm & Er & E).
  unfold dsd_expand_prime. rewrite E. cbn [mbind option_bind]. rewrite Er. cbn [mbind option_bind]. destruct ((nFans o =? 3) && mux_table (pTruth r).[0]) eqn:Eb.
  - apply andb_true_iff in Eb as [E3%Nat.eqb_eq Hw]. by apply (expand_mux pN2 fl).
  - apply (prime_plain p P inner known Hn16 d S i o c pNew HT Eo Hdef Hvars pN2 fl r Ety H2 Hm Er); [intros r' Et Hr; split; auto|].
    intros r' T Et En Ef B. assert (length fl = nFans o) as Efl by apply Hm. apply (known_node pN2 _ _ fl r' false B); [lia| | |congruence|congruence|by left].
    + intros k Hk. unfold fan. rewrite Ef, nth_regular. apply regular_id.
    + split; [congruence|split; [congruence|]]. intros _ k Hk. left. unfold fan. rewrite Ef, nth_regular. apply regular_compl.
Qed.
End node.

Lemma expand_rec_works fuel d : nV <= 16 -> d < fuel -> expand_works (fun pNew l => Kit_DsdExpandNode_rec fuel pNew p l) d.
Proof.
  intros Hn16. revert d. induction fuel as [|fuel IH]; intros d Hd pNew S l HT Hdef _ Hids Hv Hroom; [lia|]. cbn [Kit_DsdExpandNode_rec].
  destruct (ntk_obj p S l HT) as [[Hx ->]|(i & o & c & -> & Eo & Hge & ->)]; cbn [mbind option_bind]; [exists l, pNew; split; [done|]; apply copied_var; try done; split; [rewrite <- (lit_eta l); by constructor|by left]|].
  destruct (depth_positive p P d i c Hdef) as (d' & ->). pose proof (IH d' ltac:(lia)) as W.
  destruct (tree_inv _ _ _ _ i o HT ltac:(apply lit_id_lit) Eo) as (Hin & _). 
  destruct (decide (dType o = KIT_DSD_AND)) as [Ety|Ety1]; [exact (expand_and Hn16 _ fuel d' ltac:(lia) W S i o c pNew HT Eo Hdef Hids Hv Hroom Ety)|].
  destruct (decide (dType o = KIT_DSD_XOR)) as [Ety|Ety2]; [exact (expand_xor Hn16 _ fuel d' ltac:(lia) W S i o c pNew HT Eo Hdef Hids Hv Hroom Ety)|].
  assert (dType o = KIT_DSD_PRIME) as Ety by (destruct Hin as [[?|[?|?]] _]; done). rewrite bool_decide_true by done. exact (expand_prime Hn16 _ fuel d' ltac:(lia) W S i o c pNew HT Eo Hdef Hids Hv Hroom Ety).
Qed.
End old.

(** * Properties *)

(** Networks of one node are in normal form. *)
Lemma normal_simple q S nV : dnVars q = nV -> simple_root q S -> normal_below nV (pNodes q) (fun _ => True) (Root q).
Proof.
  intros <- (o & c & En & Er & Hk). rewrite Er, En. replace (lit (dnVars q) c) with (lit (dnVars q + 0) c) by (by rewrite Nat.add_0_r). apply (normal_node _ _ 0 o c); [done|done| |].
  - split; [|split]; intros Et; destruct Hk as [[? _]|[? _]]; congruence.
  - destruct Hk as [[_ E0]|(_ & E1 & x & b & Hx & _ & Ef)]; [rewrite E0; lia|]. rewrite E1. intros k Hk. replace k with 0 by lia. rewrite Ef. by constructor.
Qed.

(** Expansion of a tree. *)
Lemma expand_works_on_trees p P S v : dnVars p <= 16 -> (forall a, den (pNodes p) (dnVars p) a P (dnVars p + 1) (Root p) (v a)) -> dsd_tree inner p S ->
  exists q, Kit_DsdExpand p = Some q /\ converted inner p q S v /\ normal_below (dnVars p) (pNodes q) (fun _ => True) (Root q).
Proof.
  intros H16 Hden [H|H].
  - destruct (convert_simple inner p P S v (fun pNew l => Kit_DsdExpandNode_rec (dnVars p + 2) pNew p l) H16 Hden H) as (q & E & Hq & Hs). exists q. split; [done|]. split; [done|]. apply (normal_simple q S); [apply Hq|done].
  - destruct (convert_tree inner p P S v (fun pNew l => Kit_DsdExpandNode_rec (dnVars p + 2) pNew p l) H16 Hden (known p) (fun _ => True)) as (q & E & Hq & [Hn _]); [by apply expand_rec_works; [|lia]|done| |apply known_stable|done|by exists q].
    intros new l' [_ [[L _]|(i & o & i' & o' & _ & _ & Ei' & _)]] Hl; lia.
Qed.

(** C3. Decomposition followed by expansion ends, passes its assertions and stays within its arrays, for every table of at most sixteen
    variables.  The network is a tree with the function of the table, at most one node for every variable, and is in normal form:
    no and-node has a fanin that is an and-node without complement, no xor-node has one that is a xor-node, and complemented fanins
    are only those of and-nodes, the data input 0 of multiplexers, and multiplexers below xor-nodes.  Up to twelve variables the
    truth table of the network is the given one. *)
Theorem dsd_expand_correct t nVars : nVars <= 16 -> proper nVars t -> exists pNtk, Kit_DsdDecomposeExpand t nVars = Some pNtk /\ dnVars pNtk = nVars /\ ids_ok pNtk /\
  length (pNodes pNtk) <= Nat.max 1 nVars /\ (forall m, dsd_eval (nVars + 1) (pNodes pNtk) nVars (Nat.testbit m) (Root pNtk) = Some (tfun nVars t m)) /\
  dsd_tree inner pNtk (fun y => Z.testbit (Kit_TruthSupport t nVars) (Z.of_nat y) = true) /\ normal_below nVars (pNodes pNtk) (fun _ => True) (Root pNtk) /\
  (nVars <= 12 -> forall mem pTruthRes tUnique, (0 < tUnique)%Z -> Z.even tUnique = true -> Kit_TruthWordNum nVars <= length pTruthRes ->
    exists r, Kit_DsdTruth mem pNtk pTruthRes tUnique = Some r /\ forall m, m < nmint nVars -> tbit r m = tbit t m).
Proof.
  intros Hn Ht. destruct (decompose_den t nVars 0 Hn Ht (or_introl eq_refl)) as (p & E & Hv & _ & _ & Hd & Htree). unfold Kit_DsdDecomposeExpand. rewrite E. cbn [mbind option_bind]. subst nVars.
  destruct (expand_works_on_trees p (fun _ => True) _ _ Hn Hd (tree_inner _ _ (Htree eq_refl))) as (q & -> & [X1 X2 X3 X4 X5] & X6).
  assert (forall m, app (dnVars p) (tfun (dnVars p) t) (Nat.testbit m) = tfun (dnVars p) t m) as Happ by (intros m; apply (proj2 Ht); intros i Hi; by apply mint_bit).
  exists q. do 4 (split; [done|]). split; [intros m; by rewrite (den_eval _ _ _ _ _ _ _ (X4 (Nat.testbit m))), Happ|]. do 2 (split; [done|]).
  intros H12 mem pTruthRes tUnique Hu He Hr. rewrite <- X1 in *. destruct (dsd_truth_spec mem q (fun _ => True) _ (tfun (dnVars q) t) pTruthRes tUnique H12 X5 ltac:(lia) Hu He Hr) as (r & Er & _ & Hsh).
  - intros m. eapply den_val; [apply X4|apply Happ].
  - exists r. split; [done|]. intros m Hm. by rewrite Hsh, tfun_small.
Qed.

Lemma dsd_expand_correct_witness : (pNtk ← Kit_DsdDecomposeExpand [0xCACA3535]%Z 5; Some (map (fun o => (dType o, pFans o)) (pNodes pNtk), Root pNtk)) =
    Some ([(KIT_DSD_XOR, [8; 13]); (KIT_DSD_PRIME, [0; 2; 4])], 10) /\
  exists pNtk, Kit_DsdDecomposeExpand [0xCACA3535]%Z 5 = Some pNtk /\ dnVars pNtk = 5 /\ ids_ok pNtk /\
  length (pNodes pNtk) <= Nat.max 1 5 /\ (forall m, dsd_eval (5 + 1) (pNodes pNtk) 5 (Nat.testbit m) (Root pNtk) = Some (tfun 5 [0xCACA3535]%Z m)) /\
  dsd_tree inner pNtk (fun y => Z.testbit (Kit_TruthSupport [0xCACA3535]%Z 5) (Z.of_nat y) = true) /\ normal_below 5 (pNodes pNtk) (fun _ => True) (Root pNtk) /\
  (5 <= 12 -> forall mem pTruthRes tUnique, (0 < tUnique)%Z -> Z.even tUnique = true -> Kit_TruthWordNum 5 <= length pTruthRes ->
    exists r, Kit_DsdTruth mem pNtk pTruthRes tUnique = Some r /\ forall m, m < nmint 5 -> tbit r m = tbit [0xCACA3535]%Z m).
Proof. split; [vm_compute; reflexivity|]. apply (dsd_expand_correct [0xCACA3535]%Z 5); [lia|apply word_proper; unfold is_word; lia]. Defined.
