(* ===== verification/DsdSupp.v ===== *)
(** Supports of the nodes of a decomposition network ([kitDsd.c], [kit.h]).  The support of the root, read from the network, is that of the
    table: every variable that occurs in a decomposition matters to the function. *)
From S2P Require Import Prelude Words Minterm TruthBasic TruthSupp TruthCof TruthPerm Minato Isop Dsd DsdFun DsdDec DsdRun DsdTruth DsdBuild DsdExpand.

(** * The code *)

(** The array of supports of the network is an argument; it need not be there. *)
Definition Kit_DsdLitSupport (pNtk : Kit_DsdNtk_t) (pSupps : option (list Z)) (Lit : nat) : option Z :=
  let Id := lit_id Lit in
  assert! Id <? dnVars pNtk + length (pNodes pNtk) in
  Some (match pSupps with Some pSupps => if Id <? dnVars pNtk then 1 <<< Id else pSupps.[Id - dnVars pNtk] | None => 0%Z end).

Fixpoint Kit_DsdGetSupports_rec (fuel : nat) (p : Kit_DsdNtk_t) (pSupps : list Z) (iLit : nat) : option (Z * list Z) :=
  match fuel with
  | O => None
  | S fuel =>
    pObj ← Kit_DsdNtkObj p (lit_id iLit);
    match pObj with
    | None => u ← Kit_DsdLitSupport p (Some pSupps) iLit; Some (u, pSupps)
    | Some o =>
      '(uSupport, pSupps) ← for_up (nFans o) (fun k s =>
        '(uSupport, pSupps) ← s;
        '(u, pSupps) ← Kit_DsdGetSupports_rec fuel p pSupps (fan o k);
        Some ((uSupport ||| u)%Z, pSupps)) (Some (0%Z, pSupps));
      assert! (uSupport <=? 0xFFFF)%Z in
      Some (uSupport, pSupps.[dId o - dnVars p <- uSupport])
    end
  end.

(** The case of the constant falls through to the recursion.  The fresh array of supports, one word for each node with any contents, is an argument. *)
Definition Kit_DsdGetSupports (pSupps : list Z) (p : Kit_DsdNtk_t) : option (Z * list Z) :=
  pRoot ← Kit_DsdNtkObj p (lit_id (Root p));
  o ← pRoot;
  pSupps ← (if decide (dType o = KIT_DSD_CONST1) then assert! length (pNodes p) =? 1 in Some (pSupps.[0 <- 0]) else Some pSupps);
  '(uSupport, pSupps) ← (if decide (dType o = KIT_DSD_VAR) then
      assert! length (pNodes p) =? 1 in u ← Kit_DsdLitSupport p (Some pSupps) (fan o 0); Some (u, pSupps.[0 <- u])
    else Kit_DsdGetSupports_rec (dnVars p + 2) p pSupps (Root p));
  assert! (uSupport <=? 0xFFFF)%Z in
  Some (uSupport, pSupps).

(** * Supports of trees *)

(** The supports below a literal are those of the variables and, in the array, those of the nodes. *)
Inductive supported (nodes : list Kit_DsdObj_t) (nV : nat) (supps : list Z) : nat -> Z -> Prop :=
  | supported_var x c : x < nV -> supported nodes nV supps (lit x c) (1 <<< x)
  | supported_node i o c (us : nat -> Z) u : nodes !! i = Some o -> (forall k, k < nFans o -> supported nodes nV supps (fan o k) (us k)) ->
      supps.[i] = u -> (forall j, Z.testbit u (Z.of_nat j) = existsb (fun k => Z.testbit (us k) (Z.of_nat j)) (seq 0 (nFans o))) -> supported nodes nV supps (lit (nV + i) c) u.

Lemma supported_at nodes nV supps l u : supported nodes nV supps l u -> (lit_id l < nV /\ u = 1 <<< lit_id l) \/
  exists i o us, lit_id l = nV + i /\ nodes !! i = Some o /\ (forall k, k < nFans o -> supported nodes nV supps (fan o k) (us k)) /\ supps.[i] = u /\
    forall j, Z.testbit u (Z.of_nat j) = existsb (fun k => Z.testbit (us k) (Z.of_nat j)) (seq 0 (nFans o)).
Proof. intros H. destruct H as [x c Hx|i o c us u Eo Hk Eu Hb]; rewrite lit_id_lit; [by left|right]. by exists i, o, us. Qed.

Lemma supported_frame nodes nV (S : nat -> Prop) supps supps' l u : tree_of inner nodes nV S l -> supported nodes nV supps l u -> (forall j, S (nV + j) -> supps'.[j] = supps.[j]) -> supported nodes nV supps' l u.
Proof.
  intros HT. revert u. induction HT as [S x c Hx HSx|S i o c T Eo HQ HSi HT IH Hin Hd]; intros u Hs Hf; apply supported_at in Hs; rewrite lit_id_lit in Hs.
  - destruct Hs as [[_ ->]|(i & _ & _ & E & _)]; [by constructor|lia].
  - destruct Hs as [[Hx _]|(i' & o' & us & E & Eo' & Hk & Eu & Hb)]; [lia|]. assert (i' = i) as -> by lia. rewrite Eo in Eo'. injection Eo' as <-.
    apply (supported_node _ _ _ i o c us); [done| |by rewrite Hf|done]. intros k Hkn. apply IH; [done|by apply Hk|]. intros j Hj. apply Hf. by apply (Hin k).
Qed.

Definition word_within (nV : nat) (S : nat -> Prop) (u : Z) : Prop := is_word u /\ u <> 0%Z /\ forall j, Z.testbit u (Z.of_nat j) = true -> j < nV /\ S j.

Lemma within_bound nV S u : nV <= 16 -> word_within nV S u -> (u <=? 0xFFFF)%Z = true.
Proof.
  intros Hn (Hw & _ & Hb). apply Z.leb_le. enough (u < 2 ^ 16)%Z by lia. assert (u mod 2 ^ 16 = u)%Z as <-; [|apply Z.mod_pos_bound; lia].
  apply Z.bits_inj'. intros j Hj. destruct (Z.lt_ge_cases j 16); [by rewrite Z.mod_pow2_bits_low|]. rewrite Z.mod_pow2_bits_high by lia.
  destruct (Z.testbit u j) eqn:E; [|done]. rewrite <- (Z2Nat.id j) in E by done. apply Hb in E. lia.
Qed.

Lemma within_var nV (S : nat -> Prop) x : nV <= 16 -> x < nV -> S x -> word_within nV S (1 <<< x).
Proof.
  intros Hn Hx HS. assert (is_word (1 <<< x)) as Hw by auto with words. assert (forall j, Z.testbit (1 <<< x) (Z.of_nat j) = (j =? x)) as Hb by (intros j; apply testbit_pow; lia).
  split; [done|]. split; [intros E; specialize (Hb x); by rewrite E, Nat.eqb_refl, Z.testbit_0_l in Hb|]. intros j. rewrite Hb. intros ->%Nat.eqb_eq. done.
Qed.

Lemma within_or nV (S1 S2 S : nat -> Prop) u1 u2 : (u1 = 0%Z \/ word_within nV S1 u1) -> word_within nV S2 u2 -> (forall y, S1 y -> S y) -> (forall y, S2 y -> S y) -> word_within nV S (u1 ||| u2).
Proof.
  intros H1 (W2 & N2 & B2) E1 E2. split; [destruct H1 as [->|(W1 & _)]; auto with words|]. split; [intros [_ E]%Z.lor_eq_0_iff; done|].
  intros j. rewrite Z.lor_spec. intros [Hb|Hb]%orb_true_iff; [|destruct (B2 j Hb); auto]. destruct H1 as [->|(_ & _ & B1)]; [by rewrite Z.testbit_0_l in Hb|]. destruct (B1 j Hb). auto.
Qed.

Section supports.
Context (p : Kit_DsdNtk_t) (P : nat -> Prop) (a : nat -> bool).
Local Notation nodes := (pNodes p).
Local Notation nV := (dnVars p).
Context (H16 : nV <= 16) (Hids : ids_ok p).

Definition supports_work (rec : list Z -> nat -> option (Z * list Z)) (d : nat) : Prop := forall S l v supps, tree_of inner nodes nV S l -> den nodes nV a P d l v -> length supps = length nodes ->
  exists u supps', rec supps l = Some (u, supps') /\ supported nodes nV supps' l u /\ word_within nV S u /\ length supps' = length nodes /\
    forall j, (S (nV + j) -> False) -> supps'.[j] = supps.[j].

(** The fanins of a node one after the other. *)
Lemma supports_fans rec d o (T : nat -> nat -> Prop) (S : nat -> Prop) supps : supports_work rec d -> (forall k, k < nFans o -> tree_of inner nodes nV (T k) (fan o k)) -> (forall k, k < nFans o -> exists v, den nodes nV a P d (fan o k) v) ->
  (forall k k' y, k < nFans o -> k' < nFans o -> k <> k' -> T k y -> T k' y -> False) -> length supps = length nodes ->
  exists u supps' us, for_up (nFans o) (fun k s => '(uSupport, pSupps) ← s; '(u, pSupps) ← rec pSupps (fan o k); Some ((uSupport ||| u)%Z, pSupps)) (Some (0%Z, supps)) = Some (u, supps') /\
    (forall k, k < nFans o -> supported nodes nV supps' (fan o k) (us k)) /\ (forall j, Z.testbit u (Z.of_nat j) = existsb (fun k => Z.testbit (us k) (Z.of_nat j)) (seq 0 (nFans o))) /\
    (nFans o = 0 /\ u = 0%Z \/ 0 < nFans o /\ word_within nV (fun y => exists k, k < nFans o /\ T k y) u) /\ length supps' = length nodes /\
    forall j, (forall k, k < nFans o -> T k (nV + j) -> False) -> supps'.[j] = supps.[j].
Proof.
  intros W HT Hden Hd Hl. apply (for_up_ind (fun n s => n <= nFans o -> exists u supps' us, s = Some (u, supps') /\
    (forall k, k < n -> supported nodes nV supps' (fan o k) (us k)) /\ (forall j, Z.testbit u (Z.of_nat j) = existsb (fun k => Z.testbit (us k) (Z.of_nat j)) (seq 0 n)) /\
    (n = 0 /\ u = 0%Z \/ 0 < n /\ word_within nV (fun y => exists k, k < n /\ T k y) u) /\ length supps' = length nodes /\
    forall j, (forall k, k < n -> T k (nV + j) -> False) -> supps'.[j] = supps.[j])); [|..|lia].
  - intros _. exists 0%Z, supps, (fun _ => 0%Z). split; [done|]. split; [lia|]. split; [intros j; apply Z.testbit_0_l|]. split; [by left|]. done.
  - intros n s Hn IH _. destruct (IH ltac:(lia)) as (u & supps1 & us & -> & Hus & Hb & Hw & Hl1 & Hf). cbn [mbind option_bind]. destruct (Hden n Hn) as [v Hv].
    destruct (W (T n) (fan o n) v supps1 (HT n Hn) Hv Hl1) as (u2 & supps2 & -> & Hu2 & Hw2 & Hl2 & Hf2). cbn [mbind option_bind].
    exists (u ||| u2), supps2, (fun k => if k =? n then u2 else us k). split; [done|]. split; [|split; [|split; [|split; [done|]]]].
    + intros k Hk. destruct (Nat.eqb_spec k n) as [->|Hne]; [done|]. eapply supported_frame; [apply (HT k); lia|apply Hus; lia|]. intros j Hj. apply Hf2. intros Hj'. by apply (Hd k n (nV + j)); try lia.
    + intros j. rewrite Z.lor_spec, Hb, seq_S, existsb_app. cbn [existsb Nat.add]. rewrite Nat.eqb_refl, orb_false_r. f_equal.
      assert (forall q, (forall k, In k q -> k < n) -> existsb (fun k => Z.testbit (us k) (Z.of_nat j)) q = existsb (fun k => Z.testbit (if k =? n then u2 else us k) (Z.of_nat j)) q) as ->; [|done|intros k Hk%in_seq; lia].
      intros q Hq. induction q as [|k q IHq]; [done|]. cbn [existsb]. rewrite IHq by (intros; apply Hq; by right). rewrite (proj2 (Nat.eqb_neq k n)); [done|]. specialize (Hq k (or_introl eq_refl)). lia.
    + right. split; [lia|]. apply (within_or nV (fun y => exists k, k < n /\ T k y) (T n)); [destruct Hw as [[_ ->]|[_ Hw]]; auto|done| |].
      * intros y (k & Hk & Hy). exists k. split; [lia|done].
      * intros y Hy. exists n. split; [lia|done].
    + intros j Hj. rewrite Hf2, Hf; [done| |]; intros; eapply Hj; try done; lia.
Qed.

Lemma supports_rec fuel d : d < fuel -> supports_work (fun supps l => Kit_DsdGetSupports_rec fuel p supps l) d.
Proof.
  revert d. induction fuel as [|fuel IH]; intros d Hd S l v supps HT Hden Hl; [lia|]. cbn [Kit_DsdGetSupports_rec].
  destruct (ntk_obj p S l HT) as [[Hx ->]|(i & o & c & -> & Eo & Hge & ->)]; cbn [mbind option_bind].
  - unfold Kit_DsdLitSupport. rewrite (proj2 (Nat.ltb_lt _ _)), (proj2 (Nat.ltb_lt _ _) Hx) by lia. cbn [mbind option_bind]. exists (1 <<< lit_id l), supps. split; [done|].
    split; [rewrite <- (lit_eta l) at 1; by constructor|]. split; [apply within_var; [done|done|apply (tree_top _ _ _ _ HT)]|done].
  - destruct d as [|d]; [apply den_eval in Hden; cbn [dsd_eval] in Hden; by rewrite (proj2 (Nat.ltb_ge _ _) Hge) in Hden|].
    destruct (den_fans nodes nV a P d i o c v Hden Eo) as (Hg & Hfans & _). destruct (tree_inv _ _ _ _ i o HT ltac:(apply lit_id_lit) Eo) as ([_ H2] & T & HSi & HTk & Hin & Hdis).
    destruct (supports_fans (fun supps l => Kit_DsdGetSupports_rec fuel p supps l) d o T S supps (IH d ltac:(lia)) HTk ltac:(intros k Hk; eexists; by apply Hfans) Hdis Hl) as (u & supps1 & us & -> & Hus & Hb & Hw & Hl1 & Hf).
    cbn [mbind option_bind]. destruct Hw as [[? _]|[_ Hw]]; [lia|]. assert (word_within nV S u) as Hw' by (destruct Hw as (W1 & W2 & W3); do 2 (split; [done|]); intros j Hj; destruct (W3 j Hj) as (L & k & Hk & Hy); split; [done|by apply (Hin k)]).
    rewrite (within_bound nV _ u H16 Hw). pose proof (lookup_lt_Some _ _ _ Eo) as Hi. rewrite (Hids i o Eo). replace (nV + i - nV) with i by lia. eexists u, _. split; [done|]. split; [|split; [done|split]].
    + apply (supported_node _ _ _ i o c us); [done| |apply rd_wr_eq; lia|done]. intros k Hk. eapply supported_frame; [by apply HTk|by apply Hus|]. intros j Hj. apply rd_wr_ne. intros ->. by apply (Hin k (nV + j) Hk Hj).
    + by rewrite length_wr.
    + intros j Hj. rewrite rd_wr_ne by (intros ->; by apply Hj). apply Hf. intros k Hk Hy. apply Hj. by apply (Hin k).
Qed.

(** The value depends only on the variables in the support. *)
Lemma supported_agree supps l u d v a' : supported nodes nV supps l u -> den nodes nV a P d l v -> (forall j, j < nV -> Z.testbit u (Z.of_nat j) = true -> a j = a' j) -> den nodes nV a' P d l v.
Proof.
  intros Hs H. revert u Hs. induction H as [d x c Hx|d i o c B v HPi Eo Hg Hk IH Hv]; intros u Hs Hag; apply supported_at in Hs; rewrite lit_id_lit in Hs.
  - destruct Hs as [[_ ->]|(i & _ & _ & E & _)]; [|lia]. rewrite Hag; [by constructor|done|]. rewrite testbit_pow by lia. apply Nat.eqb_refl.
  - destruct Hs as [[Hx _]|(i' & o' & us & E & Eo' & Hk' & Eu & Hb)]; [lia|]. assert (i' = i) as -> by lia. rewrite Eo in Eo'. injection Eo' as <-.
    apply (den_node _ _ _ _ d i o c B); [done|done|done| |done]. intros k Hkn. apply (IH k Hkn (us k)); [by apply Hk'|]. intros j Hj Hjb. apply Hag; [done|]. rewrite Hb. apply existsb_exists. exists k. split; [apply in_seq; lia|done].
Qed.
End supports.

(** ** The network *)

Record root_support (p : Kit_DsdNtk_t) (S : nat -> Prop) (v : (nat -> bool) -> bool) (u : Z) (pSupps : list Z) : Prop := {
  rs_length : length pSupps = length (pNodes p);
  rs_word : is_word u;
  rs_within : forall j, Z.testbit u (Z.of_nat j) = true -> j < dnVars p /\ S j;
  rs_agree : forall a a', (forall j, j < dnVars p -> Z.testbit u (Z.of_nat j) = true -> a j = a' j) -> v a = v a';
  rs_tree : forall i o, lit_id (Root p) = dnVars p + i -> pNodes p !! i = Some o -> dType o <> KIT_DSD_CONST1 -> dType o <> KIT_DSD_VAR -> supported (pNodes p) (dnVars p) pSupps (Root p) u }.

Section network.
Context (p : Kit_DsdNtk_t) (P : nat -> Prop) (S : nat -> Prop) (v : (nat -> bool) -> bool).
Local Notation nodes := (pNodes p).
Local Notation nV := (dnVars p).
Context (H16 : nV <= 16) (Hids : ids_ok p) (Hden : forall a, den nodes nV a P (nV + 1) (Root p) (v a)).
Context (mem : list Z) (Hmem : length mem = length nodes).

Lemma supports_tree : tree_root inner p S -> exists u pSupps, Kit_DsdGetSupports mem p = Some (u, pSupps) /\ root_support p S v u pSupps.
Proof.
  intros Ht0. pose proof Ht0 as [(i & c & Er) Ht]. unfold Kit_DsdGetSupports.
  destruct (ntk_obj p _ _ Ht) as [[Hx _]|(j & o & c' & Ej & Eo & _ & ->)]; [rewrite Er, lit_id_lit in Hx; lia|]. cbn [mbind option_bind].
  destruct (tree_inv _ _ _ _ j o Ht ltac:(rewrite Ej; apply lit_id_lit) Eo) as ([Hty _] & _). rewrite decide_False by (destruct Hty as [->|[->| ->]]; done). cbn [mbind option_bind]. rewrite decide_False by (destruct Hty as [->|[->| ->]]; done).
  destruct (supports_rec p P (fun _ => false) H16 Hids (nV + 2) (nV + 1) ltac:(lia) _ _ _ mem Ht (Hden _) Hmem) as (u & supps & -> & Hs & (W1 & W2 & W3) & Hl & _).
  cbn [mbind option_bind]. assert (word_within nV (fun y => y < nV -> S y) u) as Hw by done. rewrite (within_bound nV _ u H16 Hw). eexists u, supps. split; [done|]. split; try done.
  - intros x Hx. destruct (W3 x Hx) as [L HS]. auto.
  - intros a a' Hag. pose proof (supported_agree p P a H16 supps _ u _ _ a' Hs (Hden a) Hag) as Hd'. pose proof (den_eval _ _ _ _ _ _ _ Hd') as E1. rewrite (den_eval _ _ _ _ _ _ _ (Hden a')) in E1. by injection E1.
Qed.

Lemma supports_simple : simple_root p S -> exists u pSupps, Kit_DsdGetSupports mem p = Some (u, pSupps) /\ root_support p S v u pSupps.
Proof.
  intros (o & c & En & Er & H). unfold Kit_DsdGetSupports, Kit_DsdNtkObj. rewrite Er, En, lit_id_lit in *. cbn [length]. rewrite (proj2 (Nat.ltb_lt nV (nV + 1))), (proj2 (Nat.ltb_ge nV nV)), Nat.sub_diag by lia.
  change ([o] !! 0) with (Some o). cbn [mbind option_bind].
  assert (forall (u : Z) pSupps i o, lit_id (Root p) = nV + i -> nodes !! i = Some o -> dType o <> KIT_DSD_CONST1 -> dType o <> KIT_DSD_VAR -> supported nodes nV pSupps (Root p) u) as Hno.
  { intros u pSupps i o' Ei Eo N1 N2. rewrite Er, lit_id_lit in Ei. replace i with 0 in Eo by lia. rewrite En in Eo. injection Eo as <-. destruct H as [[E _]|[E _]]; by rewrite E in *. }
  pose proof (fun a => one_value nV P a o c (v a) (Hden a)) as HF.
  destruct H as [[Ety En0]|(Ety & En1 & x & b & Hx & HSx & Ef)].
  - rewrite decide_True by done. cbn [Nat.eqb mbind option_bind]. rewrite decide_False by congruence. replace (nV + 2) with (Datatypes.S (nV + 1)) by lia. cbn [Kit_DsdGetSupports_rec]. unfold Kit_DsdNtkObj. rewrite lit_id_lit, En. cbn [length].
    rewrite (proj2 (Nat.ltb_lt nV (nV + 1))), (proj2 (Nat.ltb_ge nV nV)), Nat.sub_diag by lia. change ([o] !! 0) with (Some o). cbn [mbind option_bind]. rewrite En0. cbn [for_up seq fold_left mbind option_bind Z.leb Z.compare].
    eexists _, _. split; [done|]. split; [by rewrite En, !length_wr|auto with words|intros j; by rewrite Z.testbit_0_l| |apply Hno]. intros a a' _.
    pose proof (proj1 (HF a) Ety) as H1. rewrite <- (proj1 (HF a') Ety) in H1. by destruct (v a), (v a'), c.
  - rewrite decide_False by congruence. cbn [mbind option_bind]. rewrite decide_True by done. cbn [Nat.eqb]. unfold Kit_DsdLitSupport. rewrite Ef, lit_id_lit, En. cbn [length]. rewrite (proj2 (Nat.ltb_lt x (nV + 1))), (proj2 (Nat.ltb_lt _ _) Hx) by lia. cbn [mbind option_bind].
    destruct (within_var nV S x H16 Hx HSx) as (W1 & W2 & W3). rewrite (within_bound nV S _ H16 (conj W1 (conj W2 W3))). eexists _, _. split; [done|]. split; [by rewrite En, length_wr|done|done| |apply Hno].
    intros a a' Hag. assert (a x = a' x) as Ea by (apply Hag; [done|]; rewrite testbit_pow by lia; apply Nat.eqb_refl).
    pose proof (proj2 (HF a) Ety En1 x b Hx Ef) as H1. rewrite Ea, <- (proj2 (HF a') Ety En1 x b Hx Ef) in H1. by destruct (v a), (v a'), c.
Qed.

Lemma supports_ntk : dsd_tree inner p S -> exists u pSupps, Kit_DsdGetSupports mem p = Some (u, pSupps) /\ root_support p S v u pSupps.
Proof. intros [H|H]; [by apply supports_simple|by apply supports_tree]. Qed.
End network.

(** * Properties *)

Lemma support_of_table t p (u : Z) (pSupps : list Z) : dnVars p <= 16 -> proper (dnVars p) t ->
  root_support p (fun y => Z.testbit (Kit_TruthSupport t (dnVars p)) (Z.of_nat y) = true) (app (dnVars p) (tfun (dnVars p) t)) u pSupps -> u = Kit_TruthSupport t (dnVars p).
Proof.
  intros H16 Ht [_ Hw Hin Hag _]. set (nV := dnVars p) in *. apply Support_eq; [lia|apply Ht|done| |].
  - intros j Hj _. apply not_true_iff_false. intros Hb. destruct (Hin j Hb). lia.
  - intros j Hj. split.
    + intros Hb m. unfold cof. assert (forall m, tfun nV t m = app nV (tfun nV t) (Nat.testbit m)) as E by (intros m'; symmetry; apply (proj2 Ht); intros i Hi; by apply mint_bit).
      rewrite !E. apply Hag. intros i Hi Hbi. rewrite Nat.clearbit_eqb, Nat.setbit_eqb. destruct (Nat.eqb_spec j i) as [->|]; [congruence|]. by destruct (Nat.testbit m i).
    + intros Hv. apply not_true_iff_false. intros Hb. destruct (Hin j Hb) as [_ HS]. rewrite (proj2 (Support_bit nV t j ltac:(lia) (proj1 Ht)) (fun _ => Hv)) in HS. done.
Qed.

(** [Kit_DsdGetSupports] answers [u], whatever the fresh array holds, and leaves in it the supports of all the nodes below the root; a
    constant or a variable has no other node. *)
Definition reads_support (p : Kit_DsdNtk_t) (u : Z) : Prop := forall mem, length mem = length (pNodes p) ->
  exists pSupps, Kit_DsdGetSupports mem p = Some (u, pSupps) /\ length pSupps = length (pNodes p) /\
    forall i o, lit_id (Root p) = dnVars p + i -> pNodes p !! i = Some o -> dType o <> KIT_DSD_CONST1 -> dType o <> KIT_DSD_VAR -> supported (pNodes p) (dnVars p) pSupps (Root p) u.

Lemma reads_table t p : dnVars p <= 16 -> proper (dnVars p) t -> ids_ok p ->
  (forall a, den (pNodes p) (dnVars p) a (fun _ => True) (dnVars p + 1) (Root p) (app (dnVars p) (tfun (dnVars p) t) a)) ->
  dsd_tree inner p (fun y => Z.testbit (Kit_TruthSupport t (dnVars p)) (Z.of_nat y) = true) -> reads_support p (Kit_TruthSupport t (dnVars p)).
Proof.
  intros Hn Ht Hi Hd HT mem Hm. destruct (supports_ntk p (fun _ => True) _ _ Hn Hi Hd mem Hm HT) as (u & pS & E & Hu).
  pose proof (support_of_table t p u pS Hn Ht Hu) as ->. exists pS. split; [done|]. split; apply Hu.
Qed.

(** C5. For every table of at most sixteen variables the support that [Kit_DsdGetSupports] reads from the network of its decomposition, and
    from the expansion of that network, is the functional support of the table, whatever the fresh array of supports held; the assertions
    hold, and the array holds the support of every node, the union of those of its fanins. *)
Theorem dsd_supports_correct t nVars : nVars <= 16 -> proper nVars t -> exists p q, Kit_DsdDecompose t nVars = Some p /\ reads_support p (Kit_TruthSupport t nVars) /\
  Kit_DsdDecomposeExpand t nVars = Some q /\ reads_support q (Kit_TruthSupport t nVars).
Proof.
  intros Hn Ht. destruct (decompose_den t nVars 0 Hn Ht (or_introl eq_refl)) as (p & E & Hv & Hids & _ & Hd & Htree). unfold Kit_DsdDecompose, Kit_DsdDecomposeExpand. rewrite E. cbn [mbind option_bind]. subst nVars.
  specialize (Htree eq_refl). destruct (expand_works_on_trees p (fun _ => True) _ _ Hn Hd (tree_inner _ _ Htree)) as (q & Eq & [[X1 X2 X3 X4 X5] X6]).
  exists p, q. split; [done|]. split; [apply reads_table; try done; by apply tree_inner|]. split; [done|]. rewrite <- X1 in *. by apply reads_table.
Qed.

Lemma dsd_supports_correct_witness : (p ← Kit_DsdDecomposeExpand [0xCACA3535]%Z 5; Kit_DsdGetSupports [0xAB; 0xCD]%Z p) = Some (0x17, [0x17; 0x7])%Z /\
  exists p q, Kit_DsdDecompose [0xCACA3535]%Z 5 = Some p /\ reads_support p (Kit_TruthSupport [0xCACA3535]%Z 5) /\
  Kit_DsdDecomposeExpand [0xCACA3535]%Z 5 = Some q /\ reads_support q (Kit_TruthSupport [0xCACA3535]%Z 5).
Proof. split; [vm_compute; reflexivity|]. apply (dsd_supports_correct [0xCACA3535]%Z 5); [lia|apply word_proper; unfold is_word; lia]. Defined.
