(* ===== verification/DsdShrink.v ===== *)
(** Shrinking of networks of decomposition nodes ([kitDsd.c]): gates of many fanins become trees of gates of two fanins, with the fanin of
    largest support innermost and the others in the order of their priorities. *)
From stdpp Require Import sorting.
From S2P Require Import Prelude Words Relabel Bubble Minterm TruthBasic TruthSupp TruthCof TruthPerm Minato Isop Dsd DsdFun DsdDec DsdRun DsdTruth DsdBuild DsdExpand DsdSupp.

(** * The order of the fanins *)

(** One pass of [Extra_BubbleSort]. *)
Definition bubble_turn (Costs : list Z) (nSize : nat) (fIncreasing : bool) (Order : list nat) : bool * list nat :=
  for_up (nSize - 1) (fun i '(fChanges, Order) =>
    let a := nth i Order 0 in
    let b := nth (S i) Order 0 in
    if (if fIncreasing then (Costs.[a] <=? Costs.[b])%Z else (Costs.[b] <=? Costs.[a])%Z) then (fChanges, Order)
    else (true, <[S i := a]> (<[i := b]> Order))) (false, Order).

(** More passes than the square of the size are not needed. *)
Definition Extra_BubbleSort (Costs : list Z) (nSize : nat) (fIncreasing : bool) : option (list nat) :=
  assert! nSize <? 1000 in
  do_while (nSize * nSize + 1) (bubble_turn Costs nSize fIncreasing) (seq 0 nSize).

Definition comp_priority (pPrios : list Z) (uSupp : Z) : Z :=
  for_up 16 (fun k Priority => if ((uSupp &&& (1 <<< k)) =? 0)%Z then Priority else if (Priority <? pPrios.[k])%Z then Priority else pPrios.[k]) KIT_INFINITY.

(** The component with the largest support and, among these, the largest priority. *)
Definition comp_best (nSuppSizes Priority : list Z) (nVars : nat) : option nat :=
  '(iVarBest, _, _) ← Some (for_up nVars (fun i '(iVarBest, SuppMax, PrioMax) =>
    if (SuppMax <? nSuppSizes.[i])%Z || ((SuppMax =? nSuppSizes.[i]) && (PrioMax <? Priority.[i]))%Z then (Some i, nSuppSizes.[i], Priority.[i])
    else (iVarBest, SuppMax, PrioMax)) (None, 0, 0)%Z);
  iVarBest.

(** The local arrays have sixteen places. *)
Definition Kit_DsdCompSort (pPrios : list Z) (uSupps : list Z) (piLits : list nat) (nVars : nat) : option (list nat) :=
  assert! nVars <=? 16 in
  assert! forallb (fun i => negb (uSupps.[i] =? 0)%Z && negb (comp_priority pPrios uSupps.[i] =? 16)%Z) (seq 0 nVars) in
  let Priority := map (fun i => comp_priority pPrios uSupps.[i]) (seq 0 nVars) in
  let nSuppSizes := map (fun i => Kit_WordCountOnes uSupps.[i]) (seq 0 nVars) in
  pOrder ← Extra_BubbleSort Priority nVars false;
  iVarBest ← comp_best nSuppSizes Priority nVars;
  let piLitsRes := nth iVarBest piLits 0 :: map (fun i => nth i piLits 0) (filter (fun i => i <> iVarBest) pOrder) in
  assert! length piLitsRes =? nVars in
  Some piLitsRes.

(** * Shrinking *)

(** The supports of the fanins; xor-nodes may not have complemented fanins. *)
Definition shrink_supps (p : Kit_DsdNtk_t) (pSupps : option (list Z)) (o : Kit_DsdObj_t) (fXor : bool) : option (list Z) :=
  assert! nFans o <=? 16 in
  for_up (nFans o) (fun i s =>
    uSupps ← s;
    assert! negb (fXor && lit_compl (fan o i)) in
    u ← Kit_DsdLitSupport p pSupps (fan o i);
    Some (uSupps ++ [u])) (Some []).

(** The tree of nodes with two fanins; the last one is the result. *)
Definition shrink_chain (rec : dsd_copy_call) (pNew : Kit_DsdNtk_t) (Type_ : Kit_Dsd_t) (nFans : nat) (piLitsNew : list nat) : option (option nat * Kit_DsdNtk_t) :=
  '(iLitNew, pNew) ← rec pNew (nth 0 piLitsNew 0);
  '(pObjNew, iLitNew, pNew) ← for_up (nFans - 1) (fun i s =>
    '(_, iLitNew, pNew) ← s;
    let '(pObjNew, pNew) := Kit_DsdObjAlloc pNew Type_ 2 in
    '(l, pNew) ← rec pNew (nth (S i) piLitsNew 0);
    pNew ← write_lit pNew (par_fan pObjNew 0) l;
    pNew ← write_lit pNew (par_fan pObjNew 1) iLitNew;
    o ← pNodes pNew !! pObjNew;
    Some (Some pObjNew, lit (dId o) false, pNew)) (Some (None, iLitNew, pNew));
  Some (pObjNew, pNew).

Definition shrink_gate (rec : dsd_copy_call) (pNew p : Kit_DsdNtk_t) (pSupps : option (list Z)) (pPrios : list Z) (o : Kit_DsdObj_t) (Type_ : Kit_Dsd_t) (iLit : nat) : option (nat * Kit_DsdNtk_t) :=
  uSupps ← shrink_supps p pSupps o (bool_decide (Type_ = KIT_DSD_XOR));
  piLitsNew ← Kit_DsdCompSort pPrios uSupps (pFans o) (nFans o);
  '(pObjNew, pNew) ← shrink_chain rec pNew Type_ (nFans o) piLitsNew;
  pObjNew ← pObjNew;
  r ← pNodes pNew !! pObjNew;
  Some (lit (dId r) (lit_compl iLit), pNew).

Fixpoint Kit_DsdShrink_rec (fuel : nat) (pNew p : Kit_DsdNtk_t) (pSupps : option (list Z)) (iLit : nat) (pPrios : list Z) : option (nat * Kit_DsdNtk_t) :=
  match fuel with
  | O => None
  | S fuel =>
    let rec pNew l := Kit_DsdShrink_rec fuel pNew p pSupps l pPrios in
    pObj ← Kit_DsdNtkObj p (lit_id iLit);
    match pObj with
    | None => Some (iLit, pNew)
    | Some o =>
      if decide (dType o = KIT_DSD_AND) then shrink_gate rec pNew p pSupps pPrios o KIT_DSD_AND iLit
      else if decide (dType o = KIT_DSD_XOR) then shrink_gate rec pNew p pSupps pPrios o KIT_DSD_XOR iLit
      else assert! bool_decide (dType o = KIT_DSD_PRIME) in
        '(pObjNew, pNew) ← dsd_prime_copy rec pNew o; dsd_prime_phase pNew pObjNew o iLit
    end
  end.

Definition Kit_DsdShrink (p : Kit_DsdNtk_t) (pSupps : option (list Z)) (pPrios : list Z) : option Kit_DsdNtk_t :=
  dsd_convert (fun pNew l => Kit_DsdShrink_rec (dnVars p + 2) pNew p pSupps l pPrios) p.

(** * The order is a permutation *)

Section sort.
Context (Costs : list Z) (n : nat).
Local Notation key := (fun (s : list nat) i => (- Costs.[nth i s 0])%Z).
Local Notation ok := (fun i (s : list nat) => (Costs.[nth (S i) s 0] <=? Costs.[nth i s 0])%Z).
Local Notation swap := (fun i (s : list nat) => <[S i := nth i s 0]> (<[i := nth (S i) s 0]> s)).

Lemma nth_insert_nat (s : list nat) i j x : j < length s -> nth i (<[j := x]> s) 0 = if i =? j then x else nth i s 0.
Proof. intros Hj. destruct (Nat.eqb_spec i j) as [->|Hne]; [by apply nth_insert_same|by apply nth_insert_other; congruence]. Qed.

Lemma swap_nth i s j : S i < length s -> nth j (swap i s) 0 = nth (tr i j) s 0.
Proof.
  intros Hi. cbn beta. rewrite !nth_insert_nat by (rewrite ?length_insert; lia). unfold tr.
  destruct (Nat.eqb_spec j (S i)) as [->|H1]; [rewrite (proj2 (Nat.eqb_neq (S i) i)) by lia; done|]. by destruct (Nat.eqb_spec j i).
Qed.

Lemma exchange_perm i s : S i < length s -> swap i s ≡ₚ s.
Proof.
  revert s. induction i as [|i IH]; intros s Hi.
  - destruct s as [|a [|b s]]; cbn in Hi; try lia. cbn. apply Permutation_swap.
  - destruct s as [|a s]; cbn in Hi; [lia|]. cbn. apply perm_skip, IH. lia.
Qed.

(** [Extra_BubbleSort] ends with the numbers of the components in the order of decreasing costs. *)
Lemma BubbleSort_spec : n < 1000 -> exists Order, Extra_BubbleSort Costs n false = Some Order /\ Order ≡ₚ seq 0 n /\
  forall i, S i < n -> (Costs.[nth (S i) Order 0] <= Costs.[nth i Order 0])%Z.
Proof.
  intros Hn. unfold Extra_BubbleSort. rewrite (proj2 (Nat.ltb_lt _ _) Hn).
  destruct (bubble_sorts n key ok swap (fun s => s ≡ₚ seq 0 n)) with (fuel := n * n + 1) (s := seq 0 n) as (r & E & Hr & Hs).
  - intros i s _ _. rewrite Z.leb_le. lia.
  - intros i s Hs Hi _. assert (length s = n) as El by (rewrite Hs; apply length_seq). split; [rewrite exchange_perm; [done|lia]|].
    intros j Hj. cbn beta. by rewrite swap_nth by lia.
  - done.
  - lia.
  - exists r. split; [|split; [done|intros i Hi; specialize (Hs i Hi); lia]]. rewrite <- E. f_equal.
Qed.
End sort.

Definition before (Costs : list Z) (i j : nat) : Prop := (Costs.[j] <= Costs.[i])%Z.

Lemma adjacent_sorted Costs (l : list nat) : (forall i, S i < length l -> before Costs (nth i l 0) (nth (S i) l 0)) -> StronglySorted (before Costs) l.
Proof.
  intros H. apply Sorted_StronglySorted; [intros x y z; unfold before; lia|]. induction l as [|x l IH]; [constructor|]. constructor.
  - apply IH. intros i Hi. apply (H (S i)). cbn. lia.
  - destruct l as [|y l]; constructor. apply (H 0). cbn. lia.
Qed.

Lemma filter_sorted {A} (R : A -> A -> Prop) (Q : A -> Prop) `{!forall x, Decision (Q x)} l : StronglySorted R l -> StronglySorted R (filter Q l).
Proof.
  intros Hs. induction Hs as [|x l Hl IH Hx]; [constructor|]. rewrite filter_cons. destruct (decide (Q x)); [|done]. constructor; [done|].
  rewrite Forall_forall in Hx |- *. intros y [_ Hy]%list_elem_of_In%list_elem_of_filter. by apply Hx, list_elem_of_In.
Qed.

(** ** The components *)

Lemma comp_priority_not pPrios uSupp x : (x <> KIT_INFINITY)%Z -> (forall k, k < 16 -> pPrios.[k] <> x) -> comp_priority pPrios uSupp <> x.
Proof.
  intros Hx Hp. unfold comp_priority. apply (for_up_ind (fun _ Priority => Priority <> x)); [done|]. intros k Priority Hk H.
  destruct (_ =? 0)%Z; [done|]. destruct (_ <? _)%Z; auto.
Qed.

Lemma comp_best_spec nSuppSizes Priority n : 0 < n -> (forall i, i < n -> (0 < nSuppSizes.[i])%Z) ->
  exists b, comp_best nSuppSizes Priority n = Some b /\ b < n /\ forall j, j < n -> (nSuppSizes.[j] <= nSuppSizes.[b])%Z.
Proof.
  intros Hn Hpos. unfold comp_best. cbn [mbind option_bind].
  set (body := fun _ _ => _). assert (let '(b, m, q) := for_up n body (None, 0, 0)%Z in n = 0 /\ (b, m, q) = (None, 0, 0)%Z \/
    0 < n /\ exists i, b = Some i /\ i < n /\ m = nSuppSizes.[i] /\ forall j, j < n -> (nSuppSizes.[j] <= m)%Z) as H.
  { apply (for_up_ind (fun k '(b, m, q) => k = 0 /\ (b, m, q) = (None, 0, 0)%Z \/ 0 < k /\ exists i, b = Some i /\ i < k /\ m = nSuppSizes.[i] /\ forall j, j < k -> (nSuppSizes.[j] <= m)%Z)); [by left|].
    intros i [[b m] q] Hi IH. pose proof (Hpos i ltac:(lia)) as Hp. unfold body.
    destruct ((m <? nSuppSizes.[i])%Z || ((m =? nSuppSizes.[i]) && (q <? Priority.[i]))%Z) eqn:E.
    - right. split; [lia|]. exists i. split; [done|]. split; [lia|]. split; [done|]. intros j Hj. destruct (decide (j = i)) as [->|]; [lia|].
      destruct IH as [[-> _]|(_ & i' & _ & _ & _ & Hmax)]; [lia|]. specialize (Hmax j ltac:(lia)). apply orb_true_iff in E as [E|[E _]%andb_true_iff]; lia.
    - right. apply orb_false_iff in E as [E _]. destruct IH as [[-> Eq]|(_ & i' & -> & Hi' & -> & Hmax)]; [injection Eq as -> -> ->; lia|]. split; [lia|].
      exists i'. split; [done|]. split; [lia|]. split; [done|]. intros j Hj. destruct (decide (j = i)) as [->|]; [lia|]. apply Hmax. lia. }
  destruct (for_up n body _) as [[b m] q]. destruct H as [[-> _]|(_ & i & -> & Hi & -> & Hmax)]; [lia|]. by exists i.
Qed.

Lemma ones_positive u : is_word u -> u <> 0%Z -> (0 < Kit_WordCountOnes u)%Z.
Proof.
  intros Hw Hu. rewrite WordCountOnes_spec by done. destruct (Z.log2_spec u ltac:(destruct Hw; lia)) as [L1 L2].
  apply (cnt_pos 32 _ (Z.to_nat (Z.log2 u))).
  - assert (Z.log2 u < 32)%Z; [|lia]. apply Z.log2_lt_pow2; destruct Hw; lia.
  - rewrite Z2Nat.id by apply Z.log2_nonneg. apply Z.bit_log2. destruct Hw; lia.
Qed.

Lemma move_front (l : list nat) b : NoDup l -> b ∈ l -> b :: filter (fun i => i <> b) l ≡ₚ l.
Proof.
  intros Hnd Hb. apply NoDup_Permutation.
  - apply list.NoDup_cons. split; [intros [Hne _]%list_elem_of_filter; done|]. by apply list.NoDup_filter.
  - done.
  - intros x. rewrite elem_of_cons, list_elem_of_filter. split; [intros [->|[_ Hx]]; done|]. intros Hx. destruct (decide (x = b)); [by left|by right].
Qed.

(** [Kit_DsdCompSort] permutes the literals: the one with the largest support comes first, the others in the order of decreasing priority. *)
Lemma CompSort_spec pPrios uSupps piLits n : 0 < n -> n <= 16 -> (forall i, i < n -> is_word uSupps.[i] /\ uSupps.[i] <> 0%Z) -> (forall k, k < 16 -> pPrios.[k] <> 16%Z) ->
  exists ord, Kit_DsdCompSort pPrios uSupps piLits n = Some (map (fun i => nth i piLits 0) ord) /\ ord ≡ₚ seq 0 n /\
    (forall j, j < n -> (Kit_WordCountOnes uSupps.[j] <= Kit_WordCountOnes uSupps.[nth 0 ord 0])%Z) /\
    StronglySorted (fun i j => (comp_priority pPrios uSupps.[j] <= comp_priority pPrios uSupps.[i])%Z) (tail ord).
Proof.
  intros Hn H16 Hu Hp. unfold Kit_DsdCompSort. rewrite (proj2 (Nat.leb_le _ _) H16).
  assert (forallb (fun i => negb (uSupps.[i] =? 0)%Z && negb (comp_priority pPrios uSupps.[i] =? 16)%Z) (seq 0 n) = true) as ->.
  { apply forallb_forall. intros i [_ Hi]%in_seq. cbn in Hi. destruct (Hu i Hi) as [_ Hz]. rewrite (proj2 (Z.eqb_neq _ _) Hz). rewrite (proj2 (Z.eqb_neq _ _)); [done|]. apply comp_priority_not; [done|]. exact Hp. }
  assert (forall (f : nat -> Z) i, i < n -> (map f (seq 0 n)).[i] = f i) as Hmap.
  { intros f i Hi. unfold rd. rewrite (nth_indep _ 0%Z (f 0)) by (by rewrite length_map, length_seq). rewrite map_nth, seq_nth by done. done. }
  destruct (BubbleSort_spec (map (fun i => comp_priority pPrios uSupps.[i]) (seq 0 n)) n ltac:(lia)) as (Order & -> & HO & Hs). cbn [mbind option_bind].
  destruct (comp_best_spec (map (fun i => Kit_WordCountOnes uSupps.[i]) (seq 0 n)) (map (fun i => comp_priority pPrios uSupps.[i]) (seq 0 n)) n Hn) as (b & -> & Hb & Hmax).
  { intros i Hi. rewrite (Hmap (fun i => Kit_WordCountOnes uSupps.[i])) by done. by apply ones_positive; apply Hu. }
  cbn [mbind option_bind]. assert (length Order = n) as El by (rewrite HO; apply length_seq).
  assert (b :: filter (fun i => i <> b) Order ≡ₚ Order) as Hfr by (apply move_front; rewrite HO; [apply NoDup_seq|apply elem_of_seq; lia]).
  assert (S (length (filter (fun i => i <> b) Order)) = n) as Efl by (apply Permutation_length in Hfr; cbn in Hfr; lia). cbn [length]. rewrite length_map, Efl, Nat.eqb_refl.
  exists (b :: filter (fun i => i <> b) Order). split; [done|]. split; [by etransitivity|]. cbn [nth tail]. split.
  - intros j Hj. specialize (Hmax j Hj). by rewrite !(Hmap (fun i => Kit_WordCountOnes uSupps.[i])) in Hmax by done.
  - assert (StronglySorted (before (map (fun i => comp_priority pPrios uSupps.[i]) (seq 0 n))) (filter (fun i => i <> b) Order)) as Hss.
    { apply filter_sorted, adjacent_sorted. intros i Hi. apply Hs. lia. }
    assert (forall x, x ∈ filter (fun i => i <> b) Order -> x < n) as Hlt by (intros x [_ Hx]%list_elem_of_filter; assert (x ∈ seq 0 n) as Hx' by (by rewrite <- HO); apply elem_of_seq in Hx'; lia).
    revert Hss Hlt. generalize (filter (fun i => i <> b) Order). clear -Hmap. intros l0 Hss. induction Hss as [|x l Hl IH Hx]; intros Hlt; [constructor|]. constructor; [apply IH; intros y Hy; apply Hlt; by apply list_elem_of_further|].
    rewrite list.Forall_forall in Hx |- *. intros y Hy. specialize (Hx y Hy). unfold before in Hx. rewrite !(Hmap (fun i => comp_priority pPrios uSupps.[i])) in Hx; [done|apply Hlt, list_elem_of_here|].
    apply Hlt, list_elem_of_further, Hy.
Qed.

(** * Joining two parts of a gate *)

Lemma copied_weaken p Q K K' pNew S v l pNew' l' l0 : copied p Q K pNew S v l pNew' l' -> K' (pNodes pNew') (fun i => length (pNodes pNew) <= i) l0 l' -> copied p Q K' pNew S v l0 pNew' l'.
Proof. intros [C1 C2 _ C4] HK. by split. Qed.

Section join.
Context (p : Kit_DsdNtk_t).
Local Notation nV := (dnVars p).
Local Notation any := (fun (_ : list Kit_DsdObj_t) (_ : nat -> Prop) (_ _ : nat) => True).
Local Notation part := (copied p binary any).

Lemma join_nodes t pNew (U T S : nat -> Prop) v w l pN1 l1 pN2 r0 l2 pN3 r : t = KIT_DSD_AND \/ t = KIT_DSD_XOR -> part pNew U v l pN1 l1 -> pNodes pN2 = pNodes pN1 ++ [r0] ->
  part pN2 T w l pN3 l2 -> (forall y, U y -> S y) -> (forall y, T y -> S y) -> (forall y, U y -> T y -> False) ->
  dId r = nV + length (pNodes pN1) -> dType r = t -> nFans r = 2 -> pFans r = [l2; l1] ->
  part pNew S (fun a => op_value t (fun k => match k with O => w a | _ => v a end)) l (set_obj pN3 (length (pNodes pN1)) r) (lit (nV + length (pNodes pN1)) false).
Proof.
  intros Ht [[U1 U2 U3 U4] C2 _ (xs & Hxs & C3 & C4)] E2 [[V1 V2 V3 V4] D2 _ (ys & Hys & D3 & D4)] HU HT Hdis Rid Rty Rn Rf. set (i0 := length (pNodes pN1)) in *.
  assert (length (pNodes pN2) = i0 + 1) as El2 by (rewrite E2, length_app; done). rewrite El2 in *.
  destruct (op_good r) as [Hg Hval]; [rewrite Rty, Rn; by left|rewrite Rn, Rf; done|intros E; destruct Ht; congruence|].
  set (pN := set_obj pN3 i0 r). assert (length (pNodes pN) = length (pNodes pN3)) as Elen by apply length_insert.
  assert (pNodes pN !! i0 = Some r) as Er by (apply list_lookup_insert_eq; lia).
  assert (forall j, j <> i0 -> pNodes pN !! j = pNodes pN3 !! j) as Hother by (intros j Hj; unfold pN, set_obj; cbn; by apply list_lookup_insert_ne).
  assert (forall j, j < i0 -> pNodes pN !! j = pNodes pN1 !! j) as Hold by (intros j Hj; rewrite Hother, V4, E2 by lia; by apply snoc_old).
  assert (1 <= length xs) as Hx1 by lia. assert (1 <= length ys) as Hy1 by lia. split.
  - split; [done| |lia|intros j Hj; rewrite Hold by lia; by apply U4]. intros j oj Ej. change (dnVars pN) with (dnVars pN3). destruct (decide (j = i0)) as [->|Hj].
    + rewrite Er in Ej. injection Ej as <-. by rewrite V1.
    + rewrite Hother in Ej by done. by apply V2.
  - apply (tree_node _ _ _ i0 r false (fun k => match k with O => fun y => y < nV /\ T y \/ nV + (i0 + 1) <= y | _ => fun y => (y < nV /\ U y \/ nV + length (pNodes pNew) <= y) /\ y < nV + i0 end)).
    + done.
    + left. rewrite Rty, Rn. done.
    + right. lia.
    + intros k Hk. unfold fan. rewrite Rf. rewrite Rn in Hk. destruct k as [|[|k]]; [| |lia]; cbn [nth].
      * eapply tree_frame; [exact D2|]. intros j oj [[L _]|L] Ej; [lia|]. by rewrite Hother by lia.
      * eapply tree_frame; [apply tree_bound; exact C2|]. intros j oj [_ L] Ej. rewrite Hold by lia. done.
    + intros k y Hk. rewrite Rn in Hk. destruct k as [|[|k]]; [| |lia]; [intros [[L Hy]|L]|intros [[[L Hy]|L] L']]; (split; [|lia]); [left; auto|right; lia|left; auto|right; lia].
    + intros k k' y Hk Hk'. rewrite Rn in Hk, Hk'. destruct k as [|[|k]], k' as [|[|k']]; try lia; intros _.
      * intros [[L Hy]|L] [[[L1 Hy']|L1] L']; [by apply (Hdis y)|lia|lia|lia].
      * intros [[[L1 Hy']|L1] L'] [[L Hy]|L]; [by apply (Hdis y)|lia|lia|lia].
  - done.
  - exists (xs ++ ys). split; [by apply (vars_app nV S U T)|]. rewrite length_app. split; [lia|]. intros a.
    assert (den (pNodes pN) nV a (fun i => length (pNodes pNew) <= i) (Datatypes.S (Nat.max (length xs) (length ys))) (lit (nV + i0) false) (op_value t (fun k => match k with O => w a | _ => v a end))) as Hd; [|eapply den_frame; [exact Hd|lia|done|done]].
    eapply den_val; [apply (den_node _ _ _ _ _ i0 r false (fun k => match k with O => w a | _ => v a end) (op_value t (fun k => match k with O => w a | _ => v a end)))|by rewrite xorb_false_r].
    + lia.
    + done.
    + done.
    + intros k Hk. unfold fan. rewrite Rf. rewrite Rn in Hk. destruct k as [|[|k]]; [| |lia]; cbn [nth].
      * eapply den_frame; [apply D4|lia|cbn; intros; lia|]. intros j oj Lj Ej. cbn in Lj. by rewrite Hother by lia.
      * eapply den_frame; [apply C4|lia|done|]. intros j oj Lj Ej. rewrite Hold; [done|by eapply lookup_lt_Some].
    + by rewrite Hval, Rty.
Qed.
End join.

(** * The tree of a gate *)

Definition join_value (t : Kit_Dsd_t) (acc b : bool) : bool := op_value t (fun k => match k with O => b | _ => acc end).

Lemma write_both pN i0 o l1 l2 : pNodes pN !! i0 = Some o -> nFans o = 2 -> pFans o = [0; 0] ->
  (pNew ← write_lit pN (par_fan i0 0) l2; write_lit pNew (par_fan i0 1) l1) = Some (set_obj pN i0 (with_fans o 2 [l2; l1])).
Proof.
  intros Eo En Ef. pose proof (lookup_lt_Some _ _ _ Eo) as Hi. cbn [write_lit]. rewrite Eo. cbn [mbind option_bind]. rewrite Ef. cbn [length Nat.ltb Nat.leb mbind option_bind set_obj pNodes].
  rewrite list_lookup_insert_eq by done. cbn [mbind option_bind pFans with_fans insert list_insert length Nat.ltb Nat.leb nFans]. unfold set_obj. cbn. by rewrite list_insert_insert_eq, En.
Qed.

Lemma copied_value p Q K pNew S v v' l pNew' l' : copied p Q K pNew S v l pNew' l' -> (forall a, v' a = v a) -> copied p Q K pNew S v' l pNew' l'.
Proof. intros [C1 C2 C3 (xs & C4 & C5 & C6)] Hv. split; [done|done|done|]. exists xs. split; [done|]. split; [done|]. intros a. rewrite Hv. apply C6. Qed.

Section chain.
Context (p : Kit_DsdNtk_t) (P : nat -> Prop) (K : list Kit_DsdObj_t -> (nat -> Prop) -> nat -> nat -> Prop) (Old : nat -> Prop) (t : Kit_Dsd_t) (Ht : t = KIT_DSD_AND \/ t = KIT_DSD_XOR).
Local Notation nodes := (pNodes p).
Local Notation nV := (dnVars p).
Local Notation lv := (DsdBuild.lv p).
Local Notation part := (copied p binary (fun _ _ _ _ => True)).
Context (rec : dsd_copy_call) (d : nat) (W : copies p P binary K Old rec d) (S : nat -> Prop) (ls : list nat) (T : nat -> nat -> Prop) (pNew : Kit_DsdNtk_t).
Context (HT : forall k, k < length ls -> tree_of inner nodes nV (T k) (nth k ls 0)) (HTS : forall k y, k < length ls -> T k y -> S y)
  (Hdis : forall k k' y, k < length ls -> k' < length ls -> k <> k' -> T k y -> T k' y -> False) (Hdef : forall k, k < length ls -> defined p P d (nth k ls 0))
  (HOld : forall k, k < length ls -> Old (nth k ls 0)) (H2 : 2 <= length ls) (Hroom : room p (length (pNodes pNew)) S) (Hids : ids_ok pNew) (Hvars : dnVars pNew = nV).

(** The value of the first fanins. *)
Definition chain_value (k : nat) (a : nat -> bool) : bool := fold_left (fun acc x => join_value t acc (lv d x a)) (take k (tail ls)) (lv d (nth 0 ls 0) a).

(** After [k] nodes. *)
Definition chain_at (k : nat) (s : option (option nat * nat * Kit_DsdNtk_t)) : Prop := exists obj l pN, s = Some (obj, l, pN) /\ part pNew (upto T (Datatypes.S k)) (chain_value k) 0 pN l /\
  (0 < k -> exists i r, obj = Some i /\ pNodes pN !! i = Some r /\ l = lit (dId r) false /\ nV + length (pNodes pNew) <= dId r).

Lemma chain_room k pN l : Datatypes.S k < length ls -> part pNew (upto T (Datatypes.S k)) (chain_value k) 0 pN l ->
  nV + length (pNodes pN) + 2 <= 64 /\ room p (length (pNodes pN) + 1) (T (Datatypes.S k)).
Proof.
  intros Hk [_ _ _ (xs & Hxs & Hl & _)]. assert (room p (length (pNodes pN) + 1) (T (Datatypes.S k))) as Hr.
  { intros ys Hys. assert (vars nV S (xs ++ ys)) as Hall; [|pose proof (Hroom _ Hall) as Hr; rewrite length_app in Hr; lia].
    apply (vars_app nV S (upto T (Datatypes.S k)) (T (Datatypes.S k))); [done|done| |intros y; apply (HTS _ y Hk)|].
    - intros y (j & Hj & Hy). apply (HTS j); [lia|done].
    - intros y (j & Hj & Hy) Hy'. apply (Hdis j (Datatypes.S k) y); done || lia. }
  split; [|done]. destruct (tree_leaf _ _ _ _ (HT (Datatypes.S k) Hk)) as (x & Hx & HTx). specialize (Hr [x]). cbn in Hr. enough (vars nV (T (Datatypes.S k)) [x]) as Hv by (specialize (Hr Hv); lia).
  split; [apply NoDup_singleton|]. by intros y ->%list_elem_of_singleton.
Qed.

Lemma chain_step k s : Datatypes.S k < length ls -> chain_at k s -> chain_at (Datatypes.S k) ('(_, iLitNew, pNew) ← s;
    let '(pObjNew, pNew) := Kit_DsdObjAlloc pNew t 2 in
    '(l, pNew) ← rec pNew (nth (Datatypes.S k) ls 0);
    pNew ← write_lit pNew (par_fan pObjNew 0) l;
    pNew ← write_lit pNew (par_fan pObjNew 1) iLitNew;
    o ← pNodes pNew !! pObjNew;
    Some (Some pObjNew, lit (dId o) false, pNew)).
Proof.
  intros Hk (obj & l1 & pN1 & -> & Hpart & _). cbn [mbind option_bind]. destruct (chain_room k pN1 l1 Hk Hpart) as [H64 Hr]. pose proof Hpart as [[U1 U2 U3 U4] _ _ _].
  rewrite alloc_eq. set (i0 := length (pNodes pN1)) in *. set (r0 := mkDsdObj _ _ _ _ _ _ _). set (pN2 := mkDsdNtk _ _ _).
  assert (dId r0 = nV + i0) as Rid by (unfold r0; cbn [dId]; rewrite U1; apply Nat.mod_small; change (2 ^ 6) with 64; lia). assert (pFans r0 = [0; 0]) as Rf by done. assert (nFans r0 = 2) as Rn by done.
  assert (ids_ok pN2) as Hids2.
  { intros j oj Ej. unfold pN2 in *. cbn [pNodes dnVars] in *. destruct (Nat.lt_ge_cases j i0) as [L|L]; [rewrite snoc_old in Ej by done; by apply U2|].
    pose proof (lookup_lt_Some _ _ _ Ej) as Hj. rewrite length_app in Hj. cbn in Hj. assert (j = i0) as -> by (unfold i0 in *; lia). change i0 with (length (pNodes pN1)) in Ej. rewrite snoc_new in Ej. injection Ej as <-. by rewrite Rid, U1. }
  assert (length (pNodes pN2) = i0 + 1) as El2 by (cbn; by rewrite length_app).
  destruct (W pN2 (T (Datatypes.S k)) _ (HT _ Hk) (Hdef _ Hk) (HOld _ Hk) Hids2 U1 ltac:(by rewrite El2)) as (l2 & pN3 & -> & Hc). cbn [mbind option_bind].
  pose proof Hc as [[V1 V2 V3 V4] _ _ _]. assert (pNodes pN3 !! i0 = Some r0) as Er by (rewrite V4 by lia; apply snoc_new).
  pose proof (write_both pN3 i0 r0 l1 l2 Er Rn Rf) as Hw. destruct (write_lit pN3 (par_fan i0 0) l2) as [pN4|] eqn:E4; [|done]. cbn [mbind option_bind] in *. rewrite Hw. cbn [mbind option_bind].
  assert (pNodes (set_obj pN3 i0 (with_fans r0 2 [l2; l1])) !! i0 = Some (with_fans r0 2 [l2; l1])) as Er' by (apply list_lookup_insert_eq; lia). rewrite Er'. cbn [mbind option_bind dId with_fans]. rewrite Rid.
  exists (Some i0), (lit (nV + i0) false), (set_obj pN3 i0 (with_fans r0 2 [l2; l1])). split; [done|]. split; [|intros _; exists i0, (with_fans r0 2 [l2; l1]); cbn [dId with_fans]; rewrite Rid; split; [done|]; split; [done|]; split; [done|lia]].
  pose proof (join_nodes p t pNew (upto T (Datatypes.S k)) (T (Datatypes.S k)) (upto T (Datatypes.S (Datatypes.S k))) (chain_value k) (lv d (nth (Datatypes.S k) ls 0)) 0 pN1 l1 pN2 r0 l2 pN3 (with_fans r0 2 [l2; l1]) Ht Hpart eq_refl) as Hj.
  assert (forall a, chain_value (Datatypes.S k) a = op_value t (fun j => match j with O => lv d (nth (Datatypes.S k) ls 0) a | _ => chain_value k a end)) as Hv.
  { intros a. unfold chain_value. destruct ls as [|l0 ls']; [cbn in Hk; lia|]. cbn [tail nth]. cbn in Hk. rewrite (take_S_r ls' k (nth k ls' 0)) by (apply nth_place; lia). by rewrite fold_left_app. }
  eapply copied_value; [apply Hj|done]; try done.
  - eapply copied_weaken; [exact Hc|done].
  - intros y (j & Hj' & Hy). exists j. split; [lia|done].
  - intros y Hy. exists (Datatypes.S k). split; [lia|done].
  - intros y (j & Hj' & Hy) Hy'. apply (Hdis j (Datatypes.S k) y); done || lia.
Qed.

Lemma chain_works : exists i r pN, shrink_chain rec pNew t (length ls) ls = Some (Some i, pN) /\ pNodes pN !! i = Some r /\ nV + length (pNodes pNew) <= dId r /\
  part pNew S (chain_value (length ls - 1)) 0 pN (lit (dId r) false).
Proof.
  unfold shrink_chain. destruct (W pNew (T 0) _ (HT 0 ltac:(lia)) (Hdef 0 ltac:(lia)) (HOld 0 ltac:(lia)) Hids Hvars) as (l1 & pN1 & -> & Hc).
  { intros xs [Hnd Hxs]. apply Hroom. split; [done|]. intros x Hx. destruct (Hxs x Hx). split; [done|]. apply (HTS 0); [lia|done]. }
  cbn [mbind option_bind]. set (body := fun _ _ => _). assert (chain_at (length ls - 1) (for_up (length ls - 1) body (Some (None, l1, pN1)))) as (obj & l & pN & -> & Hp & Hi).
  { apply (for_up_ind chain_at).
    - exists None, l1, pN1. split; [done|]. split; [|lia]. eapply copied_weaken; [|done]. eapply copied_value; [|intros a; reflexivity]. cbn [chain_value take fold_left].
      destruct Hc as [C1 C2 C3 (xs & Hxs & C4)]. split; [done| |done|exists xs; split; [|done]].
      + eapply tree_mono; [exact C2|]. intros y [[L Hy]|L]; [left; split; [done|]; exists 0; split; [lia|done]|by right].
      + destruct Hxs as [Hnd Hxs]. split; [done|]. intros x Hx. destruct (Hxs x Hx). split; [done|]. exists 0. split; [lia|done].
    - intros k s Hk Hs. apply chain_step; [lia|done]. }
  cbn [mbind option_bind]. destruct (Hi ltac:(lia)) as (i & r & -> & Er & -> & Hid). exists i, r, pN. split; [done|]. split; [done|]. split; [done|].
  replace (Datatypes.S (length ls - 1)) with (length ls) in Hp by lia. destruct Hp as [C1 C2 C3 (xs & Hxs & C4)]. split; [done| |done|exists xs; split; [|done]].
  - eapply tree_mono; [exact C2|]. intros y [[L (j & Hj & Hy)]|L]; [left; split; [done|by apply (HTS j)]|by right].
  - destruct Hxs as [Hnd Hxs]. split; [done|]. intros x Hx. destruct (Hxs x Hx) as (L & j & Hj & Hy). split; [done|by apply (HTS j)].
Qed.

Lemma chain_total a : chain_value (length ls - 1) a = match t with KIT_DSD_AND => forallb (fun x => lv d x a) ls | _ => foldr xorb false (map (fun x => lv d x a) ls) end.
Proof using Ht H2.
  clear -Ht H2. unfold chain_value. destruct ls as [|l0 ls']; [cbn in H2; lia|]. cbn [tail nth length Nat.sub]. rewrite Nat.sub_0_r, firstn_all. unfold join_value.
  destruct Ht as [->| ->]; cbn [op_value forallb map foldr]; generalize (lv d l0 a) as b.
  - clear. induction ls' as [|x ls' IH]; intros b; cbn [fold_left forallb]; [by rewrite andb_true_r|]. rewrite IH, andb_assoc. f_equal. apply andb_comm.
  - clear. induction ls' as [|x ls' IH]; intros b; cbn [fold_left map foldr]; [by rewrite xorb_false_r|]. rewrite IH, <- xorb_assoc. f_equal. apply xorb_comm.
Qed.
End chain.

(** * Supports of the fanins *)

Lemma small_word u : (forall j, Z.testbit u (Z.of_nat j) = true -> j < 16) -> is_word u.
Proof.
  intros H. assert (u mod 2 ^ 16 = u)%Z as E; [|unfold is_word; pose proof (Z.mod_pos_bound u (2 ^ 16) ltac:(lia)); lia].
  apply Z.bits_inj'. intros j Hj. destruct (Z.lt_ge_cases j 16); [by rewrite Z.mod_pow2_bits_low|]. rewrite Z.mod_pow2_bits_high by lia.
  destruct (Z.testbit u j) eqn:E; [|done]. rewrite <- (Z2Nat.id j) in E by done. apply H in E. lia.
Qed.

Lemma supported_within nodes nV S supps l u : nV <= 16 -> tree_of inner nodes nV S l -> supported nodes nV supps l u -> word_within nV S u.
Proof.
  intros H16 HT. revert u. induction HT as [S x c Hx HSx|S i o c T Eo HQ HSi HT IH Hin Hd]; intros u Hs; apply supported_at in Hs; rewrite lit_id_lit in Hs.
  - destruct Hs as [[_ ->]|(i & _ & _ & E & _)]; [by apply within_var|lia].
  - destruct Hs as [[Hx _]|(i' & o' & us & E & Eo' & Hk & Eu & Hb)]; [lia|]. assert (i' = i) as -> by lia. rewrite Eo in Eo'. injection Eo' as <-. destruct HQ as [_ H2].
    assert (forall j, Z.testbit u (Z.of_nat j) = true -> j < nV /\ S j) as Hw.
    { intros j. rewrite Hb. intros (k & Hk' & Hkb)%existsb_exists. apply in_seq in Hk'. destruct (IH k ltac:(lia) (us k) (Hk k ltac:(lia))) as (_ & _ & Hin'). destruct (Hin' j Hkb) as [L Hy]. split; [done|]. apply (Hin k); [lia|done]. }
    split; [apply small_word; intros j Hj; destruct (Hw j Hj); lia|]. split; [|done].
    destruct (IH 0 ltac:(lia) (us 0) (Hk 0 ltac:(lia))) as (W0 & N0 & Hin0). intros ->. apply N0. apply word_ext; [done|auto with words|]. intros j _. rewrite Z.testbit_0_l. apply not_true_iff_false. intros Hj.
    specialize (Hb j). rewrite Z.testbit_0_l in Hb. symmetry in Hb. apply not_true_iff_false in Hb. apply Hb, existsb_exists. exists 0. split; [apply in_seq; lia|done].
Qed.

Lemma lit_support p S supps l u : tree_of inner (pNodes p) (dnVars p) S l -> supported (pNodes p) (dnVars p) supps l u -> Kit_DsdLitSupport p (Some supps) l = Some u.
Proof.
  intros HT Hs. unfold Kit_DsdLitSupport. apply supported_at in Hs as [[Hx ->]|(i & o & us & E & Eo & _ & <- & _)].
  - rewrite (proj2 (Nat.ltb_lt _ _) Hx), (proj2 (Nat.ltb_lt _ _)) by lia. done.
  - rewrite E. apply lookup_lt_Some in Eo. rewrite (proj2 (Nat.ltb_lt _ _)), (proj2 (Nat.ltb_ge _ _)) by lia. do 2 f_equal. lia.
Qed.

Lemma shrink_supps_spec p supps o fXor (T : nat -> nat -> Prop) (us : nat -> Z) : nFans o <= 16 -> (forall k, k < nFans o -> tree_of inner (pNodes p) (dnVars p) (T k) (fan o k)) ->
  (forall k, k < nFans o -> supported (pNodes p) (dnVars p) supps (fan o k) (us k)) -> (fXor = true -> forall k, k < nFans o -> lit_compl (fan o k) = false) ->
  shrink_supps p (Some supps) o fXor = Some (map us (seq 0 (nFans o))).
Proof.
  intros H16 HT Hs HX. unfold shrink_supps. rewrite (proj2 (Nat.leb_le _ _) H16).
  apply (for_up_ind (fun k s => s = Some (map us (seq 0 k)))); [done|]. intros k s Hk ->. cbn [mbind option_bind].
  assert (negb (fXor && lit_compl (fan o k)) = true) as -> by (destruct fXor; [rewrite HX|]; done). rewrite (lit_support p (T k) supps _ (us k)) by auto. cbn [mbind option_bind].
  by rewrite seq_S, map_app.
Qed.

(** * The value of the gate *)

Lemma forallb_perm {A} (f : A -> bool) l l' : l ≡ₚ l' -> forallb f l = forallb f l'.
Proof. induction 1 as [|x l l' H IH|x y l|l1 l2 l3 _ IH1 _ IH2]; cbn; [done|by rewrite IH|by destruct (f x), (f y)|congruence]. Qed.

Lemma xor_perm l l' : l ≡ₚ l' -> foldr xorb false l = foldr xorb false l'.
Proof. induction 1 as [|x l l' H IH|x y l|l1 l2 l3 _ IH1 _ IH2]; cbn; [done|by rewrite IH|by destruct x, y, (foldr xorb false l)|congruence]. Qed.

Lemma copied_notcond p Q K K' pNew S v l pNew' l' c l0 : copied p Q K pNew S v l pNew' l' -> K' (pNodes pNew') (fun i => length (pNodes pNew) <= i) l0 (lit_notcond l' c) ->
  copied p Q K' pNew S (fun a => xorb (v a) c) l0 pNew' (lit_notcond l' c).
Proof.
  intros [C1 C2 C3 (xs & C4 & C5 & C6)] HK. split; [done|by apply tree_notcond|done|]. exists xs. split; [done|]. split; [done|]. intros a. by apply den_notcond.
Qed.

(** * Shrinking *)

(** A node becomes a new node. *)
Definition to_node (nV : nat) (new : list Kit_DsdObj_t) (R : nat -> Prop) (l l' : nat) : Prop := nV <= lit_id l -> exists i, R i /\ lit_id l' = nV + i.

#[export] Instance to_node_stable nV : Stable (to_node nV).
Proof. intros new new' R R' l l' H HR _ Hl. destruct (H Hl) as (i & Hi & E). exists i. auto. Qed.

Section shrink.
Context (p : Kit_DsdNtk_t) (P : nat -> Prop) (supps pPrios : list Z).
Local Notation nodes := (pNodes p).
Local Notation nV := (dnVars p).
Context (Hn16 : nV <= 16) (Hprio : forall k, k < 16 -> pPrios.[k] <> 16%Z)
  (HX : forall i o k, nodes !! i = Some o -> dType o = KIT_DSD_XOR -> k < nFans o -> lit_compl (fan o k) = false).
Local Notation Old := (fun l => exists u, supported nodes nV supps l u).
Local Notation shrinks := (copies p P binary (to_node nV) Old).

Section node.
Context (rec : dsd_copy_call) (d : nat) (W : shrinks rec d) (S : nat -> Prop) (i : nat) (o : Kit_DsdObj_t) (c : bool) (pNew : Kit_DsdNtk_t).
Local Notation l := (lit (nV + i) c).
Local Notation i0 := (length (pNodes pNew)).
Context (HT : tree_of inner nodes nV S l) (Eo : nodes !! i = Some o) (Hdef : defined p P (Datatypes.S d) l) (Hids : ids_ok pNew) (Hvars : dnVars pNew = nV) (Hroom : room p i0 S)
  (HOld : Old l).

Lemma old_fans : exists us : nat -> Z, forall k, k < nFans o -> supported nodes nV supps (fan o k) (us k).
Proof.
  destruct HOld as [u Hs]. apply supported_at in Hs. rewrite lit_id_lit in Hs. destruct Hs as [[Hx _]|(i' & o' & us & E & Eo' & Hk & _)]; [lia|].
  assert (i' = i) as -> by lia. rewrite Eo in Eo'. injection Eo' as <-. by exists us.
Qed.

Lemma shrink_gate_works t : t = KIT_DSD_AND \/ t = KIT_DSD_XOR -> dType o = t -> copied_to p binary (to_node nV) d S i c pNew (shrink_gate rec pNew p (Some supps) pPrios o t l).
Proof.
  intros Ht Ety. destruct old_fans as [us Hus]. destruct (node_fans p P d S i o c HT Eo Hdef) as ([_ H2] & (Hg1 & _) & Hfd & Hval & Htr).
  destruct (tree_inv _ _ _ _ i o HT ltac:(apply lit_id_lit) Eo) as (_ & T & _ & HTk & Hin & Hdis).
  assert (nFans o <= 16) as Hf16 by (apply trees_length in Htr; rewrite length_map, length_seq in Htr; lia).
  unfold shrink_gate. rewrite (shrink_supps_spec p supps o _ T us Hf16 HTk Hus) by (rewrite bool_decide_eq_true; intros E k; apply (HX i o k Eo); congruence). cbn [mbind option_bind].
  assert (forall k, k < nFans o -> (map us (seq 0 (nFans o))).[k] = us k) as Hrd by (intros k Hk; unfold rd; rewrite (nth_indep _ 0%Z (us 0)), map_nth, seq_nth by (rewrite ?length_map, ?length_seq; done); done).
  destruct (CompSort_spec pPrios (map us (seq 0 (nFans o))) (pFans o) (nFans o) ltac:(lia) Hf16) as (ord & -> & Hord & _); [|done|].
  { intros k Hk. rewrite Hrd by done. destruct (supported_within nodes nV (T k) supps _ _ Hn16 (HTk k Hk) (Hus k Hk)) as (W1 & W2 & _). done. }
  cbn [mbind option_bind]. set (ls := map (fun k => nth k (pFans o) 0) ord). assert (length ord = nFans o) as Elo by (rewrite Hord; apply length_seq). assert (length ls = nFans o) as El by (unfold ls; by rewrite length_map).
  assert (forall k, k < nFans o -> nth k ord 0 < nFans o /\ nth k ls 0 = fan o (nth k ord 0)) as Hls.
  { intros k Hk. split; [|unfold ls; rewrite (nth_indep _ 0 (nth 0 (pFans o) 0)) by (rewrite length_map; lia); by rewrite (map_nth (fun k => nth k (pFans o) 0))].
    assert (nth k ord 0 ∈ seq 0 (nFans o)) as Hs; [|apply elem_of_seq in Hs; lia]. rewrite <- Hord. apply list_elem_of_In, nth_In. lia. }
  assert (forall k k', k < nFans o -> k' < nFans o -> k <> k' -> nth k ord 0 <> nth k' ord 0) as Hnd.
  { intros k k' Hk Hk' Hne E. apply Hne. eapply (proj1 (NoDup_nth ord 0)); [|lia|lia|done]. apply NoDup_ListNoDup. rewrite Hord. apply NoDup_seq. }
  rewrite <- El. destruct (chain_works p P (to_node nV) Old t Ht rec d W S ls (fun k => T (nth k ord 0)) pNew) as (j & r & pN & -> & Er & Hid & Hpart); try done; rewrite ?El.
  - intros k Hk. destruct (Hls k Hk) as [L ->]. by apply HTk.
  - intros k y Hk Hy. destruct (Hls k Hk) as [L _]. by apply (Hin _ y L).
  - intros k k' y Hk Hk' Hne. apply (Hdis _ _ y); [apply Hls, Hk|apply Hls, Hk'|by apply Hnd].
  - intros k Hk. destruct (Hls k Hk) as [L ->]. by apply Hfd.
  - intros k Hk. destruct (Hls k Hk) as [L ->]. exists (us (nth k ord 0)). by apply Hus.
  - done.
  - cbn [mbind option_bind]. rewrite Er. cbn [mbind option_bind]. rewrite lit_compl_lit. eexists _, pN. split; [done|].
    replace (lit (dId r) c) with (lit_notcond (lit (dId r) false) c) by (rewrite lit_notcond_lit; by destruct c).
    eapply copied_value; [eapply copied_notcond; [exact Hpart|]|].
    + intros _. exists (dId r - nV). rewrite lit_id_notcond, lit_id_lit. lia.
    + intros a. cbn beta. rewrite (chain_total p t Ht d ls ltac:(lia)). specialize (Hval a). unfold node_value in Hval. rewrite Ety in Hval.
      assert (ls ≡ₚ map (fan o) (seq 0 (nFans o))) as Hp by (unfold ls; rewrite Hord; done).
      destruct Ht as [->| ->]; injection Hval as Hval.
      * rewrite (forallb_perm _ _ _ Hp), <- (forallb_fans (fun x => lv p d x a)), Hval. by rewrite xorb_assoc, xorb_nilpotent, xorb_false_r.
      * rewrite (xor_perm _ _ (Permutation_map (fun x => lv p d x a) Hp)), map_map, Hval. by rewrite xorb_assoc, xorb_nilpotent, xorb_false_r.
Qed.

Lemma shrink_prime_works : dType o = KIT_DSD_PRIME -> copied_to p binary (to_node nV) d S i c pNew ('(pObjNew, pNew) ← dsd_prime_copy rec pNew o; dsd_prime_phase pNew pObjNew o l).
Proof.
  intros Ety. destruct old_fans as [us Hus].
  destruct (prime_start p P binary (to_node nV) Old Hn16 rec d W S i o c pNew HT Eo Hdef Hids Hvars Hroom (fun k Hk => ex_intro _ (us k) (Hus k Hk)) Ety) as (pN2 & fl & r & H2 & Hm & Er & ->).
  cbn [mbind option_bind]. apply (prime_plain p P binary (to_node nV) Hn16 d S i o c pNew HT Eo Hdef Hvars pN2 fl r Ety H2 Hm Er).
  - intros r' Et Hr. by right.
  - intros r' T _ _ _ _ _. exists i0. rewrite lit_id_lit. lia.
Qed.
End node.

Lemma shrink_rec_works fuel d : d < fuel -> shrinks (fun pNew l => Kit_DsdShrink_rec fuel pNew p (Some supps) l pPrios) d.
Proof.
  revert d. induction fuel as [|fuel IH]; intros d Hd pNew S l HT Hdef HOld Hids Hv Hroom; [lia|]. cbn [Kit_DsdShrink_rec].
  destruct (ntk_obj p S l HT) as [[Hx ->]|(i & o & c & -> & Eo & Hge & ->)]; cbn [mbind option_bind]; [exists l, pNew; split; [done|]; apply (copied_var p P); try done; intros ?; lia|].
  destruct (depth_positive p P d i c Hdef) as (d' & ->). pose proof (IH d' ltac:(lia)) as W. destruct (tree_inv _ _ _ _ i o HT ltac:(apply lit_id_lit) Eo) as (Hin & _).
  destruct (decide (dType o = KIT_DSD_AND)) as [Ety|Ety1]; [apply (shrink_gate_works _ d' W S i o c pNew HT Eo Hdef Hids Hv Hroom HOld); auto|].
  destruct (decide (dType o = KIT_DSD_XOR)) as [Ety|Ety2]; [apply (shrink_gate_works _ d' W S i o c pNew HT Eo Hdef Hids Hv Hroom HOld); auto|].
  assert (dType o = KIT_DSD_PRIME) as Ety by (destruct Hin as [[?|[?|?]] _]; done). rewrite bool_decide_true by done. by apply (shrink_prime_works _ d' W S i o c pNew HT Eo Hdef Hids Hv Hroom HOld).
Qed.

(** Shrinking of a network whose supports were read. *)
Lemma shrink_works_on_trees S v u : (forall a, den nodes nV a P (nV + 1) (Root p) (v a)) -> dsd_tree inner p S -> root_support p S v u supps ->
  exists q, Kit_DsdShrink p (Some supps) pPrios = Some q /\ converted binary p q S v.
Proof.
  intros Hden [H|H] Hs.
  - destruct (convert_simple binary p P S v (fun pNew l => Kit_DsdShrink_rec (nV + 2) pNew p (Some supps) l pPrios) Hn16 Hden H) as (q & E & Hq & _). by exists q.
  - destruct (convert_tree binary p P S v (fun pNew l => Kit_DsdShrink_rec (nV + 2) pNew p (Some supps) l pPrios) Hn16 Hden (to_node nV) Old) as (q & E & Hq & _).
    + apply shrink_rec_works. lia.
    + exists u. destruct H as [(i & c & Er) Ht]. destruct (ntk_obj p _ _ Ht) as [[Hx _]|(j & o & c' & Ej & Eo & _)]; [rewrite Er, lit_id_lit in Hx; lia|].
      destruct (tree_inv _ _ _ _ j o Ht ltac:(rewrite Ej; apply lit_id_lit) Eo) as ([Hty _] & _). apply (rs_tree _ _ _ _ _ Hs j o); [by rewrite Ej, lit_id_lit|done|..]; destruct Hty as [->|[->| ->]]; done.
    + intros new l' HK Hl. destruct (HK Hl) as (i & _ & ->). lia.
    + apply to_node_stable.
    + done.
    + by exists q.
Qed.
End shrink.

(** * Properties *)

(** No xor-node has a complemented fanin. *)
Definition xor_fans_plain (p : Kit_DsdNtk_t) : Prop := forall i o k, pNodes p !! i = Some o -> dType o = KIT_DSD_XOR -> k < nFans o -> lit_compl (fan o k) = false.

(** C4. A table of at most sixteen variables is decomposed, expanded, and shrunk after the supports are read, for priorities of which none
    is 16.  When no xor-node of the expansion has a complemented fanin, shrinking ends, its assertions hold, and the network is a tree with
    the function of the table and at most one node for every variable, in which every and- and xor-node has two fanins; up to twelve
    variables its truth table is the given one. *)
Theorem dsd_shrink_correct t nVars pPrios : nVars <= 16 -> proper nVars t -> (forall k, k < 16 -> pPrios.[k] <> 16%Z) -> exists p, Kit_DsdDecomposeExpand t nVars = Some p /\
  forall mem, length mem = length (pNodes p) -> exists u pSupps, Kit_DsdGetSupports mem p = Some (u, pSupps) /\ (xor_fans_plain p ->
    exists q, Kit_DsdShrink p (Some pSupps) pPrios = Some q /\ dnVars q = nVars /\ ids_ok q /\ length (pNodes q) <= Nat.max 1 nVars /\
      (forall m, dsd_eval (nVars + 1) (pNodes q) nVars (Nat.testbit m) (Root q) = Some (tfun nVars t m)) /\
      dsd_tree binary q (fun y => Z.testbit (Kit_TruthSupport t nVars) (Z.of_nat y) = true) /\
      (nVars <= 12 -> forall mem pTruthRes tUnique, (0 < tUnique)%Z -> Z.even tUnique = true -> Kit_TruthWordNum nVars <= length pTruthRes ->
        exists r, Kit_DsdTruth mem q pTruthRes tUnique = Some r /\ forall m, m < nmint nVars -> tbit r m = tbit t m)).
Proof.
  intros Hn Ht Hp. destruct (decompose_den t nVars 0 Hn Ht (or_introl eq_refl)) as (p0 & E & Hv & Hids & _ & Hd & Htree). unfold Kit_DsdDecomposeExpand. rewrite E. cbn [mbind option_bind]. subst nVars.
  destruct (expand_works_on_trees p0 (fun _ => True) _ _ Hn Hd (tree_inner _ _ (Htree eq_refl))) as (p & Eq & [[X1 X2 X3 X4 X5] X6]). rewrite <- X1 in *.
  exists p. split; [done|]. intros mem Hm. destruct (supports_ntk p (fun _ => True) _ _ Hn X2 X4 mem Hm X5) as (u & pS & Ep & Hu). exists u, pS. split; [done|]. intros HX.
  destruct (shrink_works_on_trees p (fun _ => True) pS pPrios Hn Hp HX _ _ u X4 X5 Hu) as (q & Es & [Y1 Y2 Y3 Y4 Y5]). exists q. do 4 (split; [done|]).
  assert (forall m, app (dnVars p) (tfun (dnVars p) t) (Nat.testbit m) = tfun (dnVars p) t m) as Happ by (intros m; apply (proj2 Ht); intros i Hi; by apply mint_bit).
  split; [intros m; by rewrite (den_eval _ _ _ _ _ _ _ (Y4 (Nat.testbit m))), Happ|]. split; [done|].
  intros H12 mem' pTruthRes tUnique Hu' He Hr. rewrite <- Y1 in *. destruct (dsd_truth_spec mem' q (fun _ => True) _ (tfun (dnVars q) t) pTruthRes tUnique H12 (tree_inner _ _ Y5) ltac:(lia) Hu' He Hr) as (r & Er & _ & Hsh).
  - intros m. eapply den_val; [apply Y4|apply Happ].
  - exists r. split; [done|]. intros m Hm'. by rewrite Hsh, tfun_small.
Qed.

(** Without the condition an assertion can fail: the expansion of the second table is a xor-node with a complemented multiplexer. *)
Lemma dsd_shrink_correct_witness : let pPrios := [1; 2; 3; 4; 5; 0; 0; 0; 0; 0; 0; 0; 0; 0; 0; 0]%Z in
  let shrunk w mem := p ← Kit_DsdDecomposeExpand [w]%Z 5; '(_, pSupps) ← Kit_DsdGetSupports mem p; Kit_DsdShrink p (Some pSupps) pPrios in
  (q ← shrunk 0x807F7F80%Z [0; 0]%Z; Some (map (fun o => (dType o, pFans o)) (pNodes q), Root q)) =
    Some ([(KIT_DSD_AND, [2; 4]); (KIT_DSD_AND, [0; 10]); (KIT_DSD_XOR, [8; 12]); (KIT_DSD_XOR, [6; 14])], 16) /\
  shrunk 0xCACA3535%Z [0; 0]%Z = None /\
  exists p, Kit_DsdDecomposeExpand [0x807F7F80]%Z 5 = Some p /\ xor_fans_plain p /\ length (pNodes p) = 2 /\
  forall mem, length mem = length (pNodes p) -> exists u pSupps, Kit_DsdGetSupports mem p = Some (u, pSupps) /\ (xor_fans_plain p ->
    exists q, Kit_DsdShrink p (Some pSupps) pPrios = Some q /\ dnVars q = 5 /\ ids_ok q /\ length (pNodes q) <= Nat.max 1 5 /\
      (forall m, dsd_eval (5 + 1) (pNodes q) 5 (Nat.testbit m) (Root q) = Some (tfun 5 [0x807F7F80]%Z m)) /\
      dsd_tree binary q (fun y => Z.testbit (Kit_TruthSupport [0x807F7F80]%Z 5) (Z.of_nat y) = true) /\
      (5 <= 12 -> forall mem pTruthRes tUnique, (0 < tUnique)%Z -> Z.even tUnique = true -> Kit_TruthWordNum 5 <= length pTruthRes ->
        exists r, Kit_DsdTruth mem q pTruthRes tUnique = Some r /\ forall m, m < nmint 5 -> tbit r m = tbit [0x807F7F80]%Z m)).
Proof.
  intros pPrios shrunk. split; [vm_compute; reflexivity|]. split; [vm_compute; reflexivity|].
  destruct (dsd_shrink_correct [0x807F7F80]%Z 5 pPrios) as (p & E & H); [lia|apply word_proper; unfold is_word; lia|intros k Hk; do 16 (destruct k as [|k]; [done|]); lia|].
  assert ((p ← Kit_DsdDecomposeExpand [0x807F7F80]%Z 5; Some (map (fun o => (dType o, nFans o, pFans o)) (pNodes p))) = Some [(KIT_DSD_XOR, 3, [8; 6; 12]); (KIT_DSD_AND, 3, [4; 2; 0])]) as En by (vm_compute; reflexivity).
  rewrite E in En. cbn [mbind option_bind] in En. exists p. split; [done|]. split; [|split; [by injection En as En; apply (f_equal length) in En; rewrite length_map in En|done]].
  intros i o k Eo Et Hk. injection En as En. assert ((map (fun o => (dType o, nFans o, pFans o)) (pNodes p)) !! i = Some (dType o, nFans o, pFans o)) as Em by (by rewrite list_lookup_fmap, Eo).
  rewrite En in Em. destruct i as [|[|i]]; cbn in Em; [|congruence|done]. injection Em as _ E2 E3. unfold fan. rewrite <- E3. rewrite <- E2 in Hk. do 3 (destruct k as [|k]; [done|]). lia.
Defined.
